(* ===== verification/_CoqProject ===== *)
-Q . S2P
Prelude.v
RadixKey.v
RadixNode.v
Allocator.v
RadixTree.v
RadixInv.v
RadixSteps.v
RadixContent.v
RadixOps.v
RadixInsert.v
RadixKeyClaims.v
RadixLock.v
RadixEvict.v
RadixSpec.v
ReqPool.v
ReqCache.v
ReqCacheSpec.v
AllocatorSpec.v
Allocation.v
AllocatorKernel.v
AllocatorClaims.v
RadixDemo.v
AllocationClaims.v
ReqCacheClaims.v
SchedDelay.v
SchedPolicy.v
SchedPolicySpec.v
SchedPolicyClaims.v
PrefillAdder.v
PrefillAdderSpec.v
PrefillAdderClaims.v
Text.v
Detokenizer.v
DetokenizerSpec.v
DetokStream.v
DetokenizerClaims.v
ReqFinish.v
ReqFinishSpec.v
ReqFinishClaims.v
ScheduleBatch.v
ScheduleBatchSpec.v
DecodeStep.v
ExtendStep.v
ScheduleBatchClaims.v
SamplingParams.v
Num.v
SparsePlan.v
SparsePlanSpec.v
SparseKernel.v
SparseKernelSpec.v
SparseClaims.v
SparseContext.v
SparseBackend.v
SparseBackendSpec.v
CausalCache.v
CausalCacheSpec.v
CausalCacheClaims.v
RollingCache.v
Denoising.v
RollingClaims.v
DenoisingClaims.v
Sta.v
StaSpec.v
StaClaims.v
Radial.v
Osa.v
OsaSpec.v
OsaTrace.v
OsaClaims.v
XAttention.v
FastAr.v
LightForcing.v
LightForcingSpec.v
LightForcingClaims.v
Msa.v
MsaSpec.v
MsaClaims.v
Svg.v
SvgSpec.v
SvgClaims.v
