(* ===== verification/Prelude.v ===== *)
(** * Verification of sparse attention for video models and of the serving runtime

    The repository adds Oracle Sparse Attention, and the methods it is compared
    with, to the diffusion part of SGLang ([python/sglang/multimodal_gen]), on top
    of the SGLang serving runtime ([python/sglang/srt]).  This library models the
    sparse attention package, the key-value cache it reads and the core of the
    runtime, and proves the properties that make them correct.  Source paths
    below are relative to [src/python/sglang/srt] unless they start with [src/]
    or are said to be of the sparse package, which is
    [src/python/sglang/multimodal_gen/runtime/layers/attention/sparse].

    ** The program

    A server process schedules text-generation requests onto a model.  The key
    and value tensors of every token live in slots.  A slot allocator hands
    out slots; a radix tree caches the slots of token prefixes that requests
    share, counts locks on its nodes and evicts what nobody holds; a pool maps
    each running request to the row of its slots.  The scheduler orders the
    waiting requests, admits as many as fit into the memory, prepares the
    prefill batch, merges it into the running batch, and prepares decode
    steps; when memory runs out it retracts requests.  Every step brings
    tokens: a request checks whether it has to stop, its tokens are streamed
    to the detokenizer, and the detokenizer sends text to the client.

    A video model generates a video chunk by chunk.  Each attention layer keeps
    the keys of earlier chunks in a cache with a fixed number of rows: a sink
    of leading rows stays, the oldest other rows are evicted.  The queries of a
    chunk attend to the rows the cache shows.  A sparse method decides per
    layer, head and block of queries which keys to read: it maps the rows to
    frames of the video, builds a plan, and a Triton kernel computes attention
    over the keys of the plan.  Methods keep what they measured or planned in
    caches of their own, across the denoising steps of a chunk and the chunks
    of a video.  A denoising stage drives the model: it takes a block of frames
    through the timesteps and then refreshes the cache with the clean block;
    Rolling Forcing takes a window of blocks at once, each at another timestep.

    ** Parts, files and sources

    - [Prelude] (this file): Python exceptions and fallible code, slices, pages,
      insertion-ordered dictionaries, shared lemmas and tactics.
    - Keys of the cache: [RadixKey], [RadixKeyClaims] ([mem_cache/radix_cache.py],
      class [RadixKey]).
    - Radix cache: [RadixNode], [RadixTree] ([mem_cache/radix_cache.py],
      [events.py], [session_radix_cache.py], [evict_policy.py], [utils.py]).  Nodes
      are objects with identities in a store.  [RadixInv] states the invariant,
      [RadixSteps] and [RadixContent] the changes of the tree and of what it
      caches, [RadixOps], [RadixInsert], [RadixLock], [RadixEvict] prove the
      operations, [RadixSpec] states the contract in terms of cached
      prefixes, slots and locks, [RadixDemo] runs it.
    - Slot allocators: [Allocator] ([mem_cache/allocator/*.py]) with [AllocatorSpec];
      [AllocatorKernel] ([src/python/sglang/kernels/ops/memory/allocator.py], the
      Triton kernels over their grid); [AllocatorClaims].
    - Requests, rows and caching: [ReqPool] ([mem_cache/memory_pool.py], fields of
      [Req]), [ReqCache], [ReqCacheSpec], [ReqCacheClaims] ([radix_cache.py],
      [common.py], [chunk_cache.py]).
    - Allocation for a batch: [Allocation], [AllocationClaims]
      ([mem_cache/allocation.py], [common.py], [allocation_sizing.py] and the
      kernels of [src/python/sglang/kernels/ops/memory/common.py]).
    - Controllers: [SchedDelay] ([managers/prefill_delayer.py],
      [min_free_slots_delayer.py], [scheduler_components/recv_skipper.py],
      [new_token_ratio_tracker.py]).
    - Scheduling policy: [SchedPolicy], [SchedPolicySpec], [SchedPolicyClaims]
      ([managers/schedule_policy.py], class [SchedulePolicy]).
    - Admission: [PrefillAdder], [PrefillAdderSpec], [PrefillAdderClaims]
      ([managers/schedule_policy.py], class [PrefillAdder]), over a class of
      operations that the radix and the chunk cache implement.
    - Batches: [ScheduleBatch], [ScheduleBatchSpec], [DecodeStep],
      [ExtendStep], [ScheduleBatchClaims] ([managers/schedule_batch.py], class
      [ScheduleBatch]: prefill, decode, filter, merge, mix, retraction).
    - Text: [Text], [Detokenizer], [DetokenizerSpec], [DetokStream],
      [DetokenizerClaims] ([managers/detokenizer_manager.py], [src/python/sglang/utils.py],
      [utils/patch_tokenizer.py]).
    - Output of a request: [ReqFinish], [ReqFinishSpec], [ReqFinishClaims]
      ([managers/schedule_batch.py], stop checks of [Req];
      [managers/scheduler_components/output_streamer.py]; of
      [batch_result_processor.py] and [managers/scheduler.py] how tokens and
      aborts reach a request).
    - Sampling parameters: [SamplingParams]
      ([sampling/sampling_params.py]).
    - Numbers of tensor programs: [Num], an ordered field with exponential and
      square root as a class; the special values of IEEE arithmetic.
    - Sparse plans and kernels: [SparsePlan], [SparsePlanSpec], [SparseKernel],
      [SparseKernelSpec], [SparseClaims] (sparse package: [kernel.py],
      [block_kernel.py], [msa_kernel.py]).
    - Geometry and the contract of a method: [SparseContext], [SparseBackend],
      [SparseBackendSpec] ([context.py], [blocks.py], [base.py], and the factory in
      [__init__.py]).
    - Oracle Sparse Attention: [Osa], [OsaSpec], [OsaTrace], [OsaClaims] ([osa.py]).
    - The other methods: [Sta], [StaSpec], [StaClaims] ([sta.py]); [Radial]
      ([radial.py]); [XAttention] ([xattention.py]); [FastAr] ([fastar.py]);
      [LightForcing], [LightForcingSpec], [LightForcingClaims]
      ([lightforcing.py]); [Msa], [MsaSpec], [MsaClaims] ([msa.py]); [Svg],
      [SvgSpec], [SvgClaims] ([svg.py], both generations of Sparse VideoGen).
    - Key-value cache of a video model: [CausalCache], [CausalCacheSpec],
      [CausalCacheClaims]
      ([src/python/sglang/multimodal_gen/runtime/layers/kvcache/causal_attention_cache.py]
      and, of [runtime/models/dits/causal_wanvideo.py], [visible_key_segments], the
      use of the cache in a layer and the block-causal mask).
    - Rolling Forcing: [RollingCache], [RollingClaims]
      ([runtime/models/dits/rolling_forcing_wanvideo.py]: the cache protocol of a
      window of blocks, and what each layer hands to attention).
    - Denoising stages: [Denoising], [DenoisingClaims]
      ([runtime/pipelines_core/stages/rolling_forcing_denoising.py] and
      [causal_denoising.py]: the loops around the transformer and the caches they
      allocate).

    ** How the code is modelled

    A method becomes a function on the state it reads and writes that returns
    [Ok] or the exception raised.  Python objects that are shared and mutated
    (tree nodes) live in a store and are named by identities; requests are
    records threaded through the calls.  Machine integers are unbounded
    integers where the values are indices below 2^31 or 2^63 by construction; hashes keep
    their width.  Floating-point code takes a rounding function with IEEE laws
    as a class.  Code outside the repository is a parameter with the laws the
    code relies on: the clock and SHA-256 ([Env]), the tokenizer, the parser
    and matcher of regular expressions, uninitialised memory.

    Loops that are not structural take fuel; running out of it is the
    exception [Diverges], which no theorem allows as a result.  The fuel is
    the number of stored nodes plus one for walks and evictions in the tree
    (every step removes or leaves a node), the length of the key for matching,
    the number of requests plus one for retraction, the number of tokens of a
    query block for cutting it into frames and the number of given image frames
    for warming up the cache (every round takes one at least).

    A tensor is a function of its indices or a nested list, with its shape
    beside it; a reshape that merges axes is a concatenation.  A Triton kernel
    is a function of the program index that returns its stores; a launch runs
    the programs of the grid in an arbitrary order, and theorems hold for every
    order.  Sparse attention computes with exact numbers: rounding of floats is
    not modelled, minus infinity and not-a-number are.  Rotary embedding of a row,
    the transformer, the noise schedule and the random generator of a stage are
    parameters, and theorems hold for all of them.  Sorting and top-k of the
    tensor library, random projections, the logarithm, dense attention and the
    taxonomy of heads read from a file are parameters.

    ** What is proved

    - Cache: every reachable state satisfies the invariant (tree shape, lock
      counts, sizes, evictable leaves); matching returns the longest cached
      page-aligned prefix; insertion adds exactly the pages of the key;
      eviction frees what it is asked for, takes leaves in the order of the
      policy and never what is locked; the galloping match of keys is the
      longest common prefix.
    - Ownership: caching, finishing and releasing a request leave every slot
      with exactly one owner: the tree, a request or the allocator.
    - Allocation: the paged allocator extends requests in place; the Triton
      kernels compute what the reference loops compute; allocation succeeds
      whenever free and evictable slots suffice.
    - Scheduling: the policies permute the queue and sort it as specified; the
      simulated tree for in-batch prefixes refines a list specification; an
      admission pass never admits more than fits, and what it admits can be
      allocated, a chunk carried over included if it is within the budget;
      preemption only takes lower priorities.
    - The life of a batch: prefill, merge, decode and retraction preserve that
      tensors mirror requests and that every request holds its row, slots and
      lock; after a retraction the decode step does not run out of memory (for
      pages of one token).
    - Output: the reason a request stops for is the first in a fixed order, at
      the first position it holds; over any interleaving of tokens, streamer
      runs and aborts every token is streamed once and the last payload once;
      the pieces of text a client receives are the decoded text up to the
      stop, for byte-level and SentencePiece decoders alike; batched
      detokenization refines the detokenization of single requests; no match
      of a stop expression is missed when tokens have at least one character.
    - Sampling parameters: accepted parameters are in range.
    - Sparse kernels: a mask of segments is compiled into ranges that hold
      exactly its keys, and the online softmax of each kernel over a plan is
      softmax attention over the keys of the plan, in any order of programs.
    - Sparse methods: what a method reads is what it promises: the tiles of
      highest measured mass within the budget (OSA), windows in the original
      token order (STA), the best eligible blocks (Light Forcing), the key set of
      each head family (mixed attention), at least the token mask of the pattern
      chosen for the head or the clusters of highest mass (Sparse VideoGen,
      where reordering keys and queries cancels); lossless merging (FAST-AR), mass
      bounds and antidiagonal sums (XAttention), cached plans that are the plans
      the method would build, as long as frames have one length (radial).  OSA's
      orders come from the last measurement of chunk 0 of the current video,
      over any sequence of calls.
    - Key-value cache: over any stream of chunks the view holds the latest rows
      of the positions its segments name, and the frames derived from it are
      the frames of those rows; the mask of attention without a cache keeps
      the same positions.
    - Rolling Forcing: over the windows of a video every layer sees the sink,
      the newest history within the limit and the window, each row the latest
      of its token and rotated at the reported position.
    - Denoising: the rolling window takes every frame through all timesteps in
      order; the causal stage leaves only rows of clean frames in the cache it
      has allocated, and its last pass attends over them.
    - Defects found: an insertion position that unsorts the states of running
      requests; a delay without bound; CJK text sent twice; stop token 0 not
      trimmed; a stop token before the length limit ignored; stop expressions
      with characters of several tokens never matched; no event for nodes
      removed with a session; not-a-number for rows without blocks in the block
      kernel; plans reused for a transposed grid (STA) or for the next video
      (mixed attention, FAST-AR); keys merged away that are read (FAST-AR); a cap
      that admits ineligible blocks (mixed attention); a sink that is not
      always attended (radial); masks and plans reused for frames of another
      length (SVG1, radial); an empty cluster weighted like one key (SVG2); a video with fewer
      blocks than timesteps denoised at wrong timesteps, a cache kept across
      frame sizes and a sink read without rotary embedding (Rolling Forcing);
      rotary positions that restart after given image frames (causal stage);
      an output without rows when nothing is padded (attention without a cache).

    ** Not modelled

    Sliding-window, mamba, hierarchical and unified caches and their
    allocators (variants of the same tree with several pools or host memory);
    the scheduler's message loop and the tokenizer manager (asynchronous
    input and output between processes); model execution, layers and kernels
    other than those named (tensor programs); realtime sessions, prompts per
    block and scene cuts of the denoising stages; speculative decoding beyond the
    sizes it asks for; multimodal, encoder-decoder and disaggregated batches;
    HTTP entry points and command-line arguments.  The invariants of decode
    and prefill steps are proved for pages of one token, the default; paged
    allocation itself is proved for any page size. *)

From stdpp Require Export functions base tactics list gmap strings sorting.
From Stdlib Require Export ZArith Lia.

(** ** Python exceptions and fallible code *)

(** The exceptions the modelled code can raise. [Diverges] stands for a loop
    that ran out of the fuel the model gives it; theorems about loops prove
    that it is never the result. *)
Inductive exn :=
| IndexError
| ValueError
| KeyError
| TypeError
| AttributeError
| AssertionError
| RuntimeError
| NotImplementedError
| ZeroDivisionError
| Diverges.

Inductive res (A : Type) :=
| Ok (a : A)
| Raise (e : exn).
Arguments Ok {A} a.
Arguments Raise {A} e.

#[global] Instance exn_eq_dec : EqDecision exn.
Proof. solve_decision. Defined.

#[global] Instance res_ret : MRet res := fun A a => Ok a.
#[global] Instance res_bind : MBind res := fun A B f m =>
  match m with Ok a => f a | Raise e => Raise e end.

(** [assert c] of the source. *)
Definition py_assert (c : bool) : res unit :=
  if c then Ok tt else Raise AssertionError.

(** Reading an attribute or element that may be missing. *)
Definition or_raise {A} (e : exn) (o : option A) : res A :=
  match o with Some a => Ok a | None => Raise e end.

Lemma bind_Ok_inv {A B} (m : res A) (f : A -> res B) b :
  (m ≫= f) = Ok b -> exists a, m = Ok a /\ f a = Ok b.
Proof. destruct m as [a|e]; simpl; [eauto|discriminate]. Qed.

Lemma or_raise_Ok {A} e (o : option A) a : or_raise e o = Ok a <-> o = Some a.
Proof. destruct o; simpl; split; congruence. Qed.

(** Decompose [Ok]-valued monadic code in the hypotheses. *)
Ltac inv_ok :=
  repeat match goal with
  | H : Ok _ = Ok _ |- _ => injection H as H; subst
  | H : Raise _ = Ok _ |- _ => discriminate H
  | H : Ok _ = Raise _ |- _ => discriminate H
  | H : mret _ = Ok _ |- _ => change (mret ?x) with (Ok x) in H
  | H : (_ ≫= _) = Ok _ |- _ =>
      apply bind_Ok_inv in H; destruct H as (? & ? & H)
  | H : or_raise _ _ = Ok _ |- _ => apply or_raise_Ok in H
  end.

(** One step of monadic code whose first action has been computed. *)
Ltac bind_step := cbn [mbind res_bind].

(** ** Python slices of sequences by natural bounds *)

(** [l[a:b]] with [0 <= a] and [0 <= b]: both bounds are clipped. *)
Definition slice {A} (a b : nat) (l : list A) : list A := take (b - a) (drop a l).

Lemma length_slice {A} a b (l : list A) :
  length (slice a b l) = (b `min` length l) - a.
Proof. unfold slice. rewrite length_take, length_drop. lia. Qed.

Lemma slice_0 {A} b (l : list A) : slice 0 b l = take b l.
Proof. unfold slice. rewrite drop_0. f_equal; lia. Qed.

Lemma slice_split {A} a m b (l : list A) :
  a <= m <= b -> slice a m l ++ slice m b l = slice a b l.
Proof.
  intros H. unfold slice.
  replace (drop m l) with (drop (m - a) (drop a l)) by (rewrite drop_drop; f_equal; lia).
  replace (b - a) with ((m - a) + (b - m)) by lia.
  by rewrite <- take_take_drop.
Qed.

(** ** Rounding to pages *)

Definition page_floor (ps n : nat) : nat := n / ps * ps.

Lemma page_floor_1 n : page_floor 1 n = n.
Proof. unfold page_floor. rewrite Nat.div_1_r. lia. Qed.

Lemma page_floor_le ps n : page_floor ps n <= n.
Proof.
  unfold page_floor. destruct ps as [|ps]; [lia|].
  pose proof (Nat.div_mod_eq n (S ps)). lia.
Qed.

Lemma page_floor_divide ps n : (ps | page_floor ps n).
Proof. exists (n / ps). reflexivity. Qed.

Lemma page_floor_id ps n : (ps | n) -> page_floor ps n = n.
Proof.
  intros [k ->]. unfold page_floor. destruct ps as [|ps]; [lia|].
  rewrite Nat.div_mul by lia. reflexivity.
Qed.

Lemma page_floor_greatest ps n m : (ps | m) -> m <= n -> m <= page_floor ps n.
Proof.
  intros [k ->] Hle. unfold page_floor. destruct ps as [|ps]; [lia|].
  assert (k <= n / S ps) by (apply Nat.div_le_lower_bound; lia). nia.
Qed.

Lemma page_floor_mono ps n m : n <= m -> page_floor ps n <= page_floor ps m.
Proof. intros. apply page_floor_greatest; [apply page_floor_divide|]. pose proof (page_floor_le ps n). lia. Qed.

Create HintDb pages.
#[export] Hint Resolve page_floor_le page_floor_divide page_floor_id page_floor_greatest page_floor_mono : pages.

(** Lengths of lists built by the usual functions. *)
#[export] Hint Rewrite @length_app @length_take @length_drop @length_slice @length_fmap @length_zip_with @length_replicate @length_seq @length_reverse : lens.

Ltac lens := autorewrite with lens in *; lia.

(** ** Python dictionaries (insertion ordered) *)

Section dict.
Context {K V : Type} `{EqDecision K}.
Implicit Types d : list (K * V).

Fixpoint dict_get (k : K) d : option V :=
  match d with
  | [] => None
  | (k', v) :: d => if decide (k = k') then Some v else dict_get k d
  end.

(** [d[k] = v]: in place when [k] is bound, appended otherwise. *)
Fixpoint dict_set (k : K) (v : V) d : list (K * V) :=
  match d with
  | [] => [(k, v)]
  | (k', v') :: d => if decide (k = k') then (k', v) :: d else (k', v') :: dict_set k v d
  end.

(** [d.pop(k, None)], the dictionary part. *)
Fixpoint dict_pop (k : K) d : list (K * V) :=
  match d with
  | [] => []
  | (k', v') :: d => if decide (k = k') then dict_pop k d else (k', v') :: dict_pop k d
  end.

Lemma dict_get_set k k' v d :
  dict_get k' (dict_set k v d) = if decide (k = k') then Some v else dict_get k' d.
Proof.
  induction d as [|[k0 v0] d IH]; simpl; repeat (case_decide; subst; simpl); try done.
Qed.

Lemma dict_get_pop k k' d :
  dict_get k' (dict_pop k d) = if decide (k = k') then None else dict_get k' d.
Proof.
  induction d as [|[k0 v0] d IH]; simpl; repeat (case_decide; subst; simpl in *); try done.
Qed.

Lemma dict_get_in k v d : dict_get k d = Some v -> (k, v) ∈ d.
Proof.
  induction d as [|[k0 v0] d IH]; simpl; [done|]. case_decide; intros; simplify_eq; set_solver.
Qed.

Lemma dict_in_get k v d : NoDup d.*1 -> (k, v) ∈ d -> dict_get k d = Some v.
Proof.
  induction d as [|[k0 v0] d IH]; simpl; [set_solver|].
  rewrite NoDup_cons, elem_of_cons. intros [Hn Hd] [Heq|Hin]; simplify_eq.
  - by rewrite decide_True.
  - rewrite decide_False; [by apply IH|]. intros ->. apply Hn.
    apply list_elem_of_fmap. by exists (k0, v).
Qed.

Lemma dict_set_keys k v d : (dict_set k v d).*1 = if decide (k ∈ d.*1) then d.*1 else d.*1 ++ [k].
Proof.
  induction d as [|[k0 v0] d IH]; simpl; [done|].
  destruct (decide (k = k0)) as [->|]; csimpl.
  - by rewrite decide_True by (apply elem_of_cons; by left).
  - rewrite IH. destruct (decide (k ∈ d.*1)) as [i|i], (decide (k ∈ k0 :: d.*1)) as [j|j];
      rewrite elem_of_cons in j; try done; exfalso; tauto.
Qed.

Lemma dict_set_NoDup k v d : NoDup d.*1 -> NoDup (dict_set k v d).*1.
Proof.
  intros Hd. rewrite dict_set_keys. case_decide; [done|].
  apply NoDup_app. repeat split; [done| |apply NoDup_singleton].
  intros x Hx ->%list_elem_of_singleton. done.
Qed.

Lemma dict_pop_sublist k d : (dict_pop k d).*1 ⊆ d.*1.
Proof.
  induction d as [|[k0 v0] d IH]; simpl; [done|]. case_decide; simpl; set_solver.
Qed.

Lemma dict_pop_NoDup k d : NoDup d.*1 -> NoDup (dict_pop k d).*1.
Proof.
  induction d as [|[k0 v0] d IH]; simpl; [done|]. rewrite NoDup_cons. intros [Hn Hd].
  case_decide; simpl; [by apply IH|]. apply NoDup_cons. split; [|by apply IH].
  intros Hin. by apply Hn, (dict_pop_sublist k).
Qed.

Lemma dict_get_None_nil d : (forall k, dict_get k d = None) -> d = [].
Proof.
  destruct d as [|[k v] d]; [done|]. intros H. specialize (H k). simpl in H.
  by rewrite decide_True in H.
Qed.

End dict.

(** ** Filters, sorted lists and monadic maps *)

Lemma StronglySorted_filter {A} (R : A -> A -> Prop) (f : A -> bool) l :
  StronglySorted R l -> StronglySorted R (List.filter f l).
Proof.
  induction 1 as [|x l Hs IH Hx]; simpl; [constructor|]. destruct (f x); [|done]. constructor; [done|].
  rewrite Forall_forall in *. intros y Hy. apply Hx. apply list_elem_of_In in Hy. apply filter_In in Hy as [? _].
  by apply list_elem_of_In.
Qed.

Lemma StronglySorted_weaken {A} (R S : A -> A -> Prop) l :
  (forall x y, R x y -> S x y) -> StronglySorted R l -> StronglySorted S l.
Proof. intros HR. induction 1 as [|x l Hs IH Hx]; constructor; [done|]. eapply Forall_impl; [done|]. auto. Qed.

Lemma filter_ext_eq {A} (f g : A -> bool) l : (forall x, f x = g x) -> List.filter f l = List.filter g l.
Proof. intros E. induction l as [|x l IH]; simpl; [done|]. by rewrite E, IH. Qed.

Lemma filter_perm {A} (f : A -> bool) l l' : l ≡ₚ l' -> List.filter f l ≡ₚ List.filter f l'.
Proof.
  induction 1; simpl; [done| | |by etrans]; repeat destruct (f _); try done; by constructor.
Qed.

(** A sorted list in which [f] only holds in the tail is split by [f]. *)
Lemma sorted_split {A} (R : A -> A -> Prop) (f : A -> bool) l :
  StronglySorted R l -> (forall x y, R x y -> f x = true -> f y = true) ->
  l = List.filter (fun x => negb (f x)) l ++ List.filter f l.
Proof.
  intros Hs HR. induction Hs as [|x l Hs IH Hx]; [done|]. simpl. destruct (f x) eqn:E; simpl.
  - assert (Forall (fun y => f y = true) l) as Hall by (eapply Forall_impl; [done|]; naive_solver).
    clear -Hall. replace (List.filter (fun x => negb (f x)) l) with (@nil A).
    + simpl. f_equal. induction Hall as [|y l Hy ? IH]; simpl; [done|]. by rewrite Hy, <- IH.
    + induction Hall as [|y l Hy ? IH]; simpl; [done|]. by rewrite Hy.
  - by f_equal.
Qed.

Lemma filter_none {A} (f : A -> bool) l : Forall (fun x => f x = false) l -> List.filter f l = [].
Proof. induction 1 as [|x l Hx _ IH]; simpl; [done|]. by rewrite Hx. Qed.

Lemma filter_all {A} (f : A -> bool) l : Forall (fun x => f x = true) l -> List.filter f l = l.
Proof. induction 1 as [|x l Hx _ IH]; simpl; [done|]. by rewrite Hx, IH. Qed.

Lemma first_not {A} (f : A -> bool) l y : y ∈ l -> f y = false ->
  exists l1 z l2, l = l1 ++ z :: l2 /\ f z = false /\ Forall (fun x => f x = true) l1.
Proof.
  induction l as [|x l IH]; intros Hy Hf; [set_solver|]. destruct (f x) eqn:E.
  - destruct IH as (l1 & z & l2 & -> & Hz & Hl1); [apply elem_of_cons in Hy as [->|?]; [congruence|done]|done|].
    exists (x :: l1), z, l2. split; [done|]. split; [done|]. by constructor.
  - exists [], x, l. by repeat constructor.
Qed.

Lemma elem_of_concat {A} (x : A) ls : x ∈ concat ls <-> exists l, x ∈ l /\ l ∈ ls.
Proof. induction ls as [|l ls IH]; simpl; [|rewrite elem_of_app, IH]; set_solver. Qed.

Lemma mapM_Ok {B C} (f : B -> res C) (g : B -> C) (l : list B) : (forall x, x ∈ l -> f x = Ok (g x)) -> mapM f l = Ok (g <$> l).
Proof.
  induction l as [|x l IH]; intros Hf; [done|]. cbn [mapM fmap list_fmap]. rewrite Hf by constructor. cbn [mbind res_bind].
  rewrite IH; [done|]. intros y Hy. apply Hf. by constructor.
Qed.
