(* ===== verification/RadixKey.v ===== *)
(** * RadixKey: the keys of the radix tree

    Models class [RadixKey] of [mem_cache/radix_cache.py]: a view of a token
    sequence (optionally capped by [limit], optionally read as overlapping
    bigrams) inside a namespace [extra_key].  The main result is that the
    galloping / bisecting [match] computes the page-rounded length of the
    longest common prefix of the two unit sequences. *)

From S2P Require Import Prelude.

(** ** Data *)

(** One logical unit of a key, what [__iter__] yields: a token, or a pair. *)
Inductive kunit :=
| Tok (t : Z)
| Bigram (t0 t1 : Z).

#[global] Instance kunit_eq_dec : EqDecision kunit.
Proof. solve_decision. Defined.

Record RadixKey := mkRadixKey {
  token_ids : list Z;
  extra_key : option string;
  is_bigram : bool;
  limit : option nat;
}.

(** ** Length, iteration, slicing *)

Definition raw_len (k : RadixKey) : nat :=
  let n := length (token_ids k) in
  match limit k with
  | Some m => if m <? n then m else n
  | None => n
  end.

Definition raw_token_ids (k : RadixKey) : list Z :=
  let n := raw_len k in
  let t := token_ids k in
  if n =? length t then t else take n t.

Definition key_len (k : RadixKey) : nat :=
  let n := raw_len k in
  if is_bigram k then (if 0 <? n then n - 1 else 0) else n.

Definition key_iter (k : RadixKey) : list kunit :=
  let t := token_ids k in
  let n := raw_len k in
  if is_bigram k then
    (fun i => Bigram (t !!! i) (t !!! (i + 1))) <$> seq 0 (if 0 <? n then n - 1 else 0)
  else if n =? length t then Tok <$> t
  else (fun i => Tok (t !!! i)) <$> seq 0 n.

(** Python's [slice.indices] for one bound of a slice of step 1. *)
Definition clip_bound (default : Z) (x : option Z) (len : Z) : Z :=
  match x with
  | None => default
  | Some i => if (i <? 0)%Z then Z.max 0 (i + len) else Z.min i len
  end.

Definition key_slice (k : RadixKey) (start stop : option Z) : RadixKey :=
  let len := Z.of_nat (key_len k) in
  let a := Z.to_nat (clip_bound 0 start len) in
  let b := Z.to_nat (clip_bound len stop len) in
  if is_bigram k then
    let raw := if a <? b then slice a (b + 1) (token_ids k) else [] in
    mkRadixKey raw (extra_key k) true None
  else mkRadixKey (slice a b (token_ids k)) (extra_key k) false None.

(** An index expression: an int, or a slice. *)
Inductive py_index :=
| IInt (i : Z)
| ISlice (start stop step : option Z).

Definition key_getitem (k : RadixKey) (idx : py_index) : res RadixKey :=
  match idx with
  | IInt i =>
      let len := Z.of_nat (key_len k) in
      let i' := if (i <? 0)%Z then (i + len)%Z else i in
      if (i' <? 0)%Z || (len <=? i')%Z then Raise IndexError
      else Ok (key_slice k (Some i') (Some (i' + 1)%Z))
  | ISlice start stop step =>
      if decide (step = None \/ step = Some 1%Z) then Ok (key_slice k start stop)
      else Raise ValueError
  end.

(** [key[n:]] and [key[:n]] for a length [n]. *)
Definition key_from (k : RadixKey) (n : nat) : RadixKey := key_slice k (Some (Z.of_nat n)) None.
Definition key_upto (k : RadixKey) (n : nat) : RadixKey := key_slice k None (Some (Z.of_nat n)).

Definition page_aligned (k : RadixKey) (page_size : nat) : RadixKey :=
  if page_size =? 1 then k
  else key_upto k (key_len k / page_size * page_size).

(** Returns the (mutated) key and the value truncated to the bigram count. *)
Definition maybe_to_bigram_view {A} (k : RadixKey) (is_eagle : bool)
    (value : option (list A)) : RadixKey * option (list A) :=
  if is_eagle && negb (is_bigram k) then
    let k' := mkRadixKey (token_ids k) (extra_key k) true (limit k) in
    (k', take (key_len k') <$> value)
  else (k, value).

(** ** Prefix matching *)

Definition check_compatible (k other : RadixKey) : res unit :=
  if decide (extra_key k = extra_key other) then Ok tt else Raise ValueError.

(** The inner loop of [match]: halve the window [[lo, hi)] that holds the
    first difference. *)
Fixpoint bisect (fuel : nat) (t0 t1 : list Z) (lo hi : nat) : option nat :=
  match fuel with
  | 0 => None
  | S fuel =>
      if 1 <? hi - lo then
        let mid := (lo + hi) / 2 in
        if decide (slice lo mid t0 = slice lo mid t1)
        then bisect fuel t0 t1 mid hi
        else bisect fuel t0 t1 lo mid
      else Some lo
  end.

(** The outer loop of [match]: compare windows of doubling size. *)
Fixpoint gallop (fuel : nat) (t0 t1 : list Z) (n lo step : nat) : option nat :=
  match fuel with
  | 0 => None
  | S fuel =>
      if lo <? n then
        let hi := if lo + step <? n then lo + step else n in
        if decide (slice lo hi t0 = slice lo hi t1)
        then gallop fuel t0 t1 n hi (step * 2)
        else bisect (S n) t0 t1 lo hi
      else Some n
  end.

Definition radix_match (k other : RadixKey) (page_size : nat) : res nat :=
  _ ← check_compatible k other;
  let t0 := token_ids k in
  let t1 := token_ids other in
  let n := length t0 `min` length t1 in
  matched_tokens ← or_raise Diverges (gallop (S n) t0 t1 n 0 1);
  if is_bigram k then
    let matched := 0 `max` (((matched_tokens - 1) `min` key_len k) `min` key_len other) in
    Ok (if 1 <? page_size then matched / page_size * page_size else matched)
  else
    let matched := (matched_tokens `min` key_len k) `min` key_len other in
    Ok (if page_size =? 1 then matched else matched / page_size * page_size).

(** ** Dictionary keys of children *)

(** The Python value used as key: an int, a tuple of ints, a tuple of pairs. *)
Inductive plain_key :=
| KInt (t : Z)
| KTuple (ts : list Z)
| KPairs (ps : list (Z * Z)).

#[global] Instance plain_key_eq_dec : EqDecision plain_key.
Proof. solve_decision. Defined.

(** [plain] when [extra_key] is [None], the pair [(extra_key, plain)] else. *)
Definition ckey : Type := option string * plain_key.

#[global] Instance ckey_eq_dec : EqDecision ckey.
Proof. unfold ckey. solve_decision. Defined.

Definition child_key (k : RadixKey) (page_size : nat) : res ckey :=
  let t := token_ids k in
  plain ←
    (if is_bigram k then
       if page_size =? 1 then
         a ← or_raise IndexError (t !! 0);
         b ← or_raise IndexError (t !! 1);
         Ok (KTuple [a; b])
       else
         ps ← or_raise IndexError
                (mapM (fun j => a ← t !! j; b ← t !! (j + 1); Some (a, b)) (seq 0 page_size));
         Ok (KPairs ps)
     else if page_size =? 1 then
       a ← or_raise IndexError (t !! 0);
       Ok (KInt a)
     else Ok (KTuple (take page_size t)));
  Ok (extra_key k, plain).

(** ** Units of a key, pointwise *)

(** The [i]-th logical unit. *)
Definition unit_at (k : RadixKey) (i : nat) : kunit :=
  if is_bigram k then Bigram (token_ids k !!! i) (token_ids k !!! (i + 1))
  else Tok (token_ids k !!! i).

Lemma raw_len_le k : raw_len k <= length (token_ids k).
Proof. unfold raw_len. destruct (limit k); [case_match eqn:E; [apply Nat.ltb_lt in E|]|]; lia. Qed.

Lemma key_len_le_raw k : key_len k <= raw_len k.
Proof. unfold key_len. destruct (is_bigram k); [|lia]. destruct (0 <? raw_len k); lia. Qed.

Lemma key_iter_spec k : key_iter k = unit_at k <$> seq 0 (key_len k).
Proof.
  unfold key_iter, key_len, unit_at. destruct (is_bigram k); [done|].
  destruct (raw_len k =? length (token_ids k)) eqn:E; [|done].
  apply Nat.eqb_eq in E. rewrite E. apply list_eq. intros i.
  rewrite !list_lookup_fmap. destruct (decide (i < length (token_ids k))).
  - rewrite lookup_seq_lt by done. simpl.
    destruct (lookup_lt_is_Some_2 (token_ids k) i) as [x Hx]; [done|].
    rewrite Hx. simpl. by rewrite (list_lookup_total_correct _ _ _ Hx).
  - rewrite (lookup_ge_None_2 _ i) by lia. by rewrite lookup_seq_ge by lia.
Qed.

Lemma length_key_iter k : length (key_iter k) = key_len k.
Proof. by rewrite key_iter_spec, length_fmap, length_seq. Qed.

Lemma key_iter_lookup k i : i < key_len k -> key_iter k !! i = Some (unit_at k i).
Proof. intros. rewrite key_iter_spec, list_lookup_fmap, lookup_seq_lt by done. done. Qed.

(** ** Slicing is slicing of the units *)

Section slices.
Context (k : RadixKey).

Lemma key_slice_flags start stop :
  extra_key (key_slice k start stop) = extra_key k /\
  is_bigram (key_slice k start stop) = is_bigram k /\
  limit (key_slice k start stop) = None.
Proof. unfold key_slice. destruct (is_bigram k) eqn:E; simpl; auto. Qed.

Lemma lookup_total_slice a b (l : list Z) i :
  i < b - a -> slice a b l !!! i = l !!! (a + i).
Proof.
  intros. unfold slice. rewrite !list_lookup_total_alt.
  rewrite lookup_take_lt by lia. by rewrite lookup_drop.
Qed.

Lemma key_slice_units start stop a b :
  a = Z.to_nat (clip_bound 0 start (Z.of_nat (key_len k))) ->
  b = Z.to_nat (clip_bound (Z.of_nat (key_len k)) stop (Z.of_nat (key_len k))) ->
  b <= key_len k ->
  key_iter (key_slice k start stop) = slice a b (key_iter k).
Proof.
  intros Ha Hb Hle. pose proof (raw_len_le k) as Hr.
  assert (Hlen : key_len (key_slice k start stop) = b - a).
  { unfold key_slice. rewrite <- Ha, <- Hb. unfold key_len in Hle.
    destruct (is_bigram k).
    - unfold key_len, raw_len; simpl. destruct (a <? b) eqn:E.
      + apply Nat.ltb_lt in E. rewrite length_slice.
        destruct (0 <? raw_len k); destruct (0 <? _) eqn:E'; [..|lia]; try lia;
        (apply Nat.ltb_lt in E' || apply Nat.ltb_ge in E'); lia.
      + apply Nat.ltb_ge in E. simpl. lia.
    - unfold key_len, raw_len; simpl. rewrite length_slice. lia. }
  apply list_eq. intros i. destruct (decide (i < b - a)) as [Hi|Hi].
  - rewrite key_iter_lookup by lia. unfold slice. rewrite lookup_take_lt by lia.
    rewrite lookup_drop, key_iter_lookup by lia. f_equal.
    unfold key_slice, unit_at. rewrite <- Ha, <- Hb. destruct (is_bigram k); simpl.
    + destruct (a <? b) eqn:E; [|apply Nat.ltb_ge in E; lia].
      rewrite !lookup_total_slice by lia. f_equal; f_equal; lia.
    + by rewrite lookup_total_slice by lia.
  - rewrite !lookup_ge_None_2; [done|..].
    + rewrite length_slice, length_key_iter. lia.
    + rewrite length_key_iter. lia.
Qed.

Lemma key_from_units n : key_iter (key_from k n) = drop n (key_iter k).
Proof.
  unfold key_from. rewrite (key_slice_units _ _ (n `min` key_len k) (key_len k)); simpl; try lia.
  - unfold slice. rewrite take_ge by (rewrite length_drop, length_key_iter; lia).
    destruct (Nat.le_ge_cases n (key_len k)).
    + f_equal; lia.
    + rewrite !drop_ge; [done|rewrite length_key_iter; lia..].
  - destruct (Z.of_nat n <? 0)%Z eqn:E; lia.
Qed.

Lemma key_upto_units n : key_iter (key_upto k n) = take n (key_iter k).
Proof.
  unfold key_upto. rewrite (key_slice_units _ _ 0 (n `min` key_len k)); simpl; try lia.
  - rewrite slice_0. destruct (Nat.le_ge_cases n (key_len k)).
    + f_equal; lia.
    + rewrite !take_ge; [done|rewrite length_key_iter; lia..].
  - destruct (Z.of_nat n <? 0)%Z eqn:E; lia.
Qed.

Lemma key_from_len n : key_len (key_from k n) = key_len k - n.
Proof. by rewrite <- !length_key_iter, key_from_units, length_drop. Qed.

Lemma key_upto_len n : key_len (key_upto k n) = n `min` key_len k.
Proof. by rewrite <- !length_key_iter, key_upto_units, length_take. Qed.

Lemma page_aligned_units ps :
  key_iter (page_aligned k ps) = take (page_floor ps (key_len k)) (key_iter k).
Proof.
  unfold page_aligned. destruct (ps =? 1) eqn:E.
  - apply Nat.eqb_eq in E as ->. rewrite page_floor_1, take_ge; [done|].
    by rewrite length_key_iter.
  - by rewrite key_upto_units.
Qed.

Lemma page_aligned_len ps : key_len (page_aligned k ps) = page_floor ps (key_len k).
Proof.
  rewrite <- length_key_iter, page_aligned_units, length_take, length_key_iter.
  pose proof (page_floor_le ps (key_len k)). lia.
Qed.

Lemma page_aligned_flags ps :
  extra_key (page_aligned k ps) = extra_key k /\
  is_bigram (page_aligned k ps) = is_bigram k.
Proof.
  unfold page_aligned. destruct (ps =? 1); [done|].
  unfold key_upto. pose proof (key_slice_flags None (Some (Z.of_nat (key_len k / ps * ps)))).
  tauto.
Qed.

End slices.

Lemma key_from_flags k n :
  extra_key (key_from k n) = extra_key k /\ is_bigram (key_from k n) = is_bigram k.
Proof. unfold key_from. pose proof (key_slice_flags k (Some (Z.of_nat n)) None). tauto. Qed.

Lemma key_upto_flags k n :
  extra_key (key_upto k n) = extra_key k /\ is_bigram (key_upto k n) = is_bigram k.
Proof. unfold key_upto. pose proof (key_slice_flags k None (Some (Z.of_nat n))). tauto. Qed.

(** ** Reference: length of the longest common prefix *)

Fixpoint lcp_len {A} `{EqDecision A} (xs ys : list A) : nat :=
  match xs, ys with
  | x :: xs, y :: ys => if decide (x = y) then S (lcp_len xs ys) else 0
  | _, _ => 0
  end.

Section lcp.
Context {A} `{EqDecision A}.
Implicit Types xs ys : list A.

Lemma lcp_len_le xs ys : lcp_len xs ys <= length xs /\ lcp_len xs ys <= length ys.
Proof.
  revert ys. induction xs as [|x xs IH]; intros [|y ys]; simpl; try lia.
  destruct (decide (x = y)); [|lia]. specialize (IH ys). lia.
Qed.

Lemma lcp_len_take xs ys : take (lcp_len xs ys) xs = take (lcp_len xs ys) ys.
Proof.
  revert ys. induction xs as [|x xs IH]; intros [|y ys]; simpl; try done.
  destruct (decide (x = y)) as [->|]; simpl; [|done]. f_equal. apply IH.
Qed.

Lemma lcp_len_unique xs ys m :
  m <= length xs -> m <= length ys -> take m xs = take m ys ->
  (m < length xs -> m < length ys -> xs !! m <> ys !! m) ->
  lcp_len xs ys = m.
Proof.
  revert ys m. induction xs as [|x xs IH]; intros [|y ys] m Hx Hy Ht Hd; simpl in *; try lia.
  destruct m as [|m]; simpl in *.
  - destruct (decide (x = y)) as [->|]; [|done]. exfalso. apply Hd; auto with lia.
  - injection Ht as -> Ht. rewrite decide_True by done. f_equal.
    apply IH; auto with lia.
Qed.

(** A common prefix of length [m] is one of the longest's prefixes. *)
Lemma lcp_len_ge xs ys m :
  m <= length xs -> m <= length ys -> take m xs = take m ys -> m <= lcp_len xs ys.
Proof.
  revert ys m. induction xs as [|x xs IH]; intros [|y ys] [|m] Hx Hy Ht; simpl in *; try lia.
  injection Ht as -> Ht. rewrite decide_True by done.
  assert (m <= lcp_len xs ys) by (apply IH; auto with lia). lia.
Qed.

Lemma lcp_len_diff xs ys :
  lcp_len xs ys < length xs -> lcp_len xs ys < length ys ->
  xs !! lcp_len xs ys <> ys !! lcp_len xs ys.
Proof.
  revert ys. induction xs as [|x xs IH]; intros [|y ys]; simpl; intros Hx Hy; try lia.
  destruct (decide (x = y)) as [->|]; simpl; [|congruence]. apply IH; lia.
Qed.

Lemma lcp_len_comm xs ys : lcp_len xs ys = lcp_len ys xs.
Proof.
  revert ys. induction xs as [|x xs IH]; intros [|y ys]; simpl; try done.
  destruct (decide (x = y)); destruct (decide (y = x)); subst; congruence.
Qed.

Lemma take_eq_le xs ys m n : m <= n -> take n xs = take n ys -> take m xs = take m ys.
Proof.
  intros Hle H. apply (f_equal (take m)) in H. rewrite !take_take in H.
  by replace (m `min` n) with m in H by lia.
Qed.

Lemma take_slice_eq xs ys lo hi :
  lo <= hi -> take lo xs = take lo ys ->
  take hi xs = take hi ys <-> slice lo hi xs = slice lo hi ys.
Proof.
  intros Hle Hlo. unfold slice.
  assert (Hsp : forall l : list A, take hi l = take lo l ++ take (hi - lo) (drop lo l)).
  { intros l. rewrite take_take_drop. f_equal; lia. }
  split; intros H.
  - apply (f_equal (drop lo)) in H.
    by rewrite !skipn_firstn_comm in H.
  - rewrite !Hsp. by rewrite Hlo, H.
Qed.

End lcp.

(** ** The search loops compute the longest common prefix *)

Section search.
Context (t0 t1 : list Z).
Let n := length t0 `min` length t1.

(** Window invariant of the inner loop: equal up to [lo], different by [hi]. *)
Lemma bisect_correct fuel lo hi :
  hi - lo < fuel -> lo < hi <= n ->
  take lo t0 = take lo t1 -> take hi t0 <> take hi t1 ->
  bisect fuel t0 t1 lo hi = Some (lcp_len t0 t1).
Proof.
  revert lo hi. induction fuel as [|fuel IH]; intros lo hi Hf Hlh Hlo Hhi; [lia|].
  cbn [bisect]. destruct (1 <? hi - lo) eqn:E.
  - apply Nat.ltb_lt in E.
    assert (lo < (lo + hi) / 2 < hi) as Hmid.
    { pose proof (Nat.div_mod_eq (lo + hi) 2).
      pose proof (Nat.mod_upper_bound (lo + hi) 2 ltac:(lia)). lia. }
    cbv zeta. revert Hmid. generalize ((lo + hi) / 2). intros mid Hmid.
    case_decide as Hs.
    + apply IH; try lia; try done. apply (take_slice_eq _ _ lo); [lia|done..].
    + apply IH; try lia; try done. intros Ht. apply Hs.
      apply (take_slice_eq _ _ lo) in Ht; [done|lia|done].
  - apply Nat.ltb_ge in E. f_equal. symmetry. assert (hi = S lo) as -> by lia.
    unfold n in *. apply lcp_len_unique; [lia|lia|done|]. intros H0 H1 Heq. apply Hhi.
    destruct (lookup_lt_is_Some_2 t0 lo) as [x Hx]; [lia|].
    rewrite (take_S_r _ _ x) by done. rewrite (take_S_r t1 _ x) by congruence. by f_equal.
Qed.

Lemma gallop_correct fuel lo step :
  n - lo < fuel -> lo <= n -> 0 < step -> take lo t0 = take lo t1 ->
  gallop fuel t0 t1 n lo step = Some (lcp_len t0 t1).
Proof.
  revert lo step. induction fuel as [|fuel IH]; intros lo step Hf Hlo Hstep Ht; [lia|].
  cbn [gallop]. destruct (lo <? n) eqn:E.
  - apply Nat.ltb_lt in E.
    assert (Hhi : lo < (if lo + step <? n then lo + step else n) <= n).
    { destruct (lo + step <? n) eqn:E'; [apply Nat.ltb_lt in E'|]; lia. }
    set (hi := if lo + step <? n then lo + step else n) in *.
    case_decide as Hs.
    + apply IH; try lia. apply (take_slice_eq _ _ lo); [lia|done..].
    + apply bisect_correct; try lia; try done. intros Hh. apply Hs.
      apply (take_slice_eq _ _ lo) in Hh; [done|lia|done].
  - apply Nat.ltb_ge in E. f_equal. symmetry. assert (lo = n) as -> by lia.
    unfold n in *. apply lcp_len_unique; try lia; done.
Qed.

Lemma gallop_lcp : gallop (S n) t0 t1 n 0 1 = Some (lcp_len t0 t1).
Proof. apply gallop_correct; try lia. done. Qed.

End search.

(** The units of two keys of the same kind agree on a prefix exactly when
    enough raw tokens agree. *)
Lemma units_lcp k1 k2 :
  is_bigram k1 = is_bigram k2 ->
  lcp_len (key_iter k1) (key_iter k2) =
  (if is_bigram k1
   then ((lcp_len (token_ids k1) (token_ids k2) - 1) `min` key_len k1) `min` key_len k2
   else (lcp_len (token_ids k1) (token_ids k2) `min` key_len k1) `min` key_len k2).
Proof.
  intros Hb. set (m := lcp_len (token_ids k1) (token_ids k2)).
  pose proof (lcp_len_le (token_ids k1) (token_ids k2)) as [Hm1 Hm2]. fold m in Hm1, Hm2.
  pose proof (raw_len_le k1). pose proof (raw_len_le k2).
  pose proof (key_len_le_raw k1) as Hk1. pose proof (key_len_le_raw k2) as Hk2.
  assert (Htok : forall i, i < m -> token_ids k1 !!! i = token_ids k2 !!! i).
  { intros i Hi. pose proof (lcp_len_take (token_ids k1) (token_ids k2)) as Ht. fold m in Ht.
    apply (f_equal (.!! i)) in Ht. rewrite !lookup_take_lt in Ht by done.
    by rewrite !list_lookup_total_alt, Ht. }
  assert (Hdiff : m < length (token_ids k1) -> m < length (token_ids k2) ->
                  token_ids k1 !!! m <> token_ids k2 !!! m).
  { intros Ha Hc Heq. apply (lcp_len_diff (token_ids k1) (token_ids k2)); [done..|].
    fold m. rewrite !list_lookup_total_alt in Heq.
    destruct (lookup_lt_is_Some_2 _ _ Ha) as [x Hx], (lookup_lt_is_Some_2 _ _ Hc) as [y Hy].
    rewrite Hx, Hy in Heq |- *. by simplify_eq/=. }
  assert (Hlb : is_bigram k1 = true -> 0 < key_len k1 -> key_len k1 < raw_len k1).
  { unfold key_len. intros ->. destruct (0 <? raw_len k1) eqn:E; [apply Nat.ltb_lt in E|]; lia. }
  assert (Hlb2 : is_bigram k1 = true -> 0 < key_len k2 -> key_len k2 < raw_len k2).
  { rewrite Hb. unfold key_len. intros ->. destruct (0 <? raw_len k2) eqn:E; [apply Nat.ltb_lt in E|]; lia. }
  apply lcp_len_unique; rewrite ?length_key_iter; try (destruct (is_bigram k1); lia).
  - apply list_eq. intros i. destruct (decide (i <
      if is_bigram k1 then ((m - 1) `min` key_len k1) `min` key_len k2
      else (m `min` key_len k1) `min` key_len k2)) as [Hi|Hi].
    + rewrite !lookup_take_lt by done. rewrite !key_iter_lookup by (destruct (is_bigram k1); lia).
      f_equal. unfold unit_at. rewrite <- Hb. destruct (is_bigram k1).
      * f_equal; apply Htok; lia.
      * f_equal; apply Htok; lia.
    + rewrite !lookup_take_ge by lia. done.
  - intros H1 H2. rewrite !key_iter_lookup by done. unfold unit_at. rewrite <- Hb.
    intros Heq. destruct (is_bigram k1).
    + specialize (Hlb eq_refl). specialize (Hlb2 eq_refl).
      injection Heq as He0 He1. destruct (decide (m = 0)) as [Hm0|Hm0].
      * apply Hdiff; try lia. rewrite Hm0. by rewrite Hm0 in He0.
      * apply Hdiff; try lia.
        replace ((((m - 1) `min` key_len k1) `min` key_len k2) + 1) with m in He1 by lia. done.
    + injection Heq as He0. apply Hdiff; try lia.
      replace ((m `min` key_len k1) `min` key_len k2) with m in He0 by lia. done.
Qed.

(** [match] is the page-rounded longest common prefix of the unit sequences. *)
Lemma radix_match_lcp k1 k2 ps :
  extra_key k1 = extra_key k2 -> is_bigram k1 = is_bigram k2 -> 0 < ps ->
  radix_match k1 k2 ps = Ok (page_floor ps (lcp_len (key_iter k1) (key_iter k2))).
Proof.
  intros He Hb Hps. unfold radix_match, check_compatible. rewrite decide_True by done. cbv zeta.
  rewrite gallop_lcp. cbn [mbind res_bind or_raise]. rewrite (units_lcp k1 k2 Hb). unfold page_floor.
  destruct (is_bigram k1).
  - rewrite Nat.max_0_l. destruct (1 <? ps) eqn:E; [done|]. apply Nat.ltb_ge in E.
    assert (ps = 1) as -> by lia. rewrite Nat.div_1_r. f_equal. lia.
  - destruct (ps =? 1) eqn:E; [|done]. apply Nat.eqb_eq in E as ->.
    rewrite Nat.div_1_r. f_equal. lia.
Qed.

(** ** Child keys name the first page of a key *)

Definition unit_fst (u : kunit) : Z := match u with Tok t => t | Bigram t _ => t end.
Definition unit_snd (u : kunit) : Z := match u with Tok t => t | Bigram _ t => t end.

(** The dictionary key of a first page, from its units. *)
Definition plain_of (bigram : bool) (ps : nat) (us : list kunit) : plain_key :=
  if bigram then
    if ps =? 1 then KTuple (us ≫= fun u => [unit_fst u; unit_snd u])
    else KPairs ((fun u => (unit_fst u, unit_snd u)) <$> us)
  else
    if ps =? 1 then KInt (from_option unit_fst 0%Z (head us))
    else KTuple (unit_fst <$> us).

Lemma key_len_bigram k : is_bigram k = true -> key_len k = raw_len k - 1.
Proof. unfold key_len. intros ->. destruct (0 <? raw_len k) eqn:E; [done|]. apply Nat.ltb_ge in E. lia. Qed.

Lemma key_iter_take_1 k : 0 < key_len k -> take 1 (key_iter k) = [unit_at k 0].
Proof.
  intros H. pose proof (key_iter_lookup k 0 H) as Hl.
  destruct (key_iter k) as [|u us]; simpl in *; [done|]. rewrite take_0. congruence.
Qed.

Lemma key_iter_take_fmap {B} (f : kunit -> B) k n :
  n <= key_len k -> f <$> take n (key_iter k) = (fun i => f (unit_at k i)) <$> seq 0 n.
Proof.
  intros. rewrite key_iter_spec, <- fmap_take, take_seq.
  rewrite Nat.min_l by done. by rewrite <- list_fmap_compose.
Qed.

Lemma child_key_spec k ps :
  0 < ps <= key_len k ->
  child_key k ps = Ok (extra_key k, plain_of (is_bigram k) ps (take ps (key_iter k))).
Proof.
  intros Hps. pose proof (raw_len_le k) as Hr. pose proof (key_len_le_raw k) as Hk.
  unfold child_key, plain_of.
  assert (Hlk : forall i, i < length (token_ids k) -> token_ids k !! i = Some (token_ids k !!! i)).
  { intros i Hi. destruct (lookup_lt_is_Some_2 _ _ Hi) as [x Hx]. rewrite Hx. f_equal.
    symmetry. by apply list_lookup_total_correct. }
  destruct (is_bigram k) eqn:Hb.
  - pose proof (key_len_bigram k Hb) as Hkb. destruct (ps =? 1) eqn:E.
    + apply Nat.eqb_eq in E as ->. rewrite !Hlk by lia. simpl.
      rewrite key_iter_take_1 by lia. unfold unit_at. by rewrite Hb.
    + assert (mapM (fun j => a ← token_ids k !! j; b ← token_ids k !! (j + 1); Some (a, b)) (seq 0 ps)
              = Some ((fun u => (unit_fst u, unit_snd u)) <$> take ps (key_iter k))) as ->.
      { apply mapM_Some_2. rewrite key_iter_take_fmap by lia.
        apply Forall2_fmap_r, Forall_Forall2_diag, Forall_seq. intros j Hj.
        rewrite !Hlk by lia. unfold unit_at. by rewrite Hb. }
      done.
  - assert (key_len k = raw_len k) as Hkr by (unfold key_len; by rewrite Hb).
    destruct (ps =? 1) eqn:E.
    + apply Nat.eqb_eq in E as ->. rewrite !Hlk by lia. simpl.
      rewrite key_iter_take_1 by lia. unfold unit_at. by rewrite Hb.
    + simpl. do 2 f_equal. f_equal. rewrite key_iter_take_fmap by lia.
      apply list_eq. intros i. rewrite list_lookup_fmap. destruct (decide (i < ps)).
      * rewrite lookup_take_lt, lookup_seq_lt by lia. rewrite Hlk by lia.
        unfold unit_at. by rewrite Hb.
      * rewrite lookup_take_ge, lookup_seq_ge by lia. done.
Qed.

Lemma plain_of_inj k1 k2 ps :
  is_bigram k1 = is_bigram k2 -> 0 < ps <= key_len k1 -> ps <= key_len k2 ->
  plain_of (is_bigram k1) ps (take ps (key_iter k1)) =
  plain_of (is_bigram k2) ps (take ps (key_iter k2)) ->
  take ps (key_iter k1) = take ps (key_iter k2).
Proof.
  intros Hb H1 H2. unfold plain_of. rewrite <- Hb.
  assert (Hk : forall k, ps <= key_len k -> take ps (key_iter k) = unit_at k <$> seq 0 ps).
  { intros k Hle. rewrite key_iter_spec, <- fmap_take, take_seq. by rewrite Nat.min_l. }
  destruct (is_bigram k1) eqn:Hb1; destruct (ps =? 1) eqn:E; intros Heq.
  - apply Nat.eqb_eq in E as ->. rewrite !key_iter_take_1 in Heq |- * by lia.
    unfold unit_at in *. rewrite <- Hb, Hb1 in *. simpl in Heq |- *. simplify_eq; congruence.
  - injection Heq as Heq. rewrite !Hk in Heq |- * by lia.
    rewrite <- !list_fmap_compose in Heq.
    apply list_eq. intros i. apply (f_equal (fun l => l !! i)) in Heq. cbn beta in Heq.
    rewrite !list_lookup_fmap in Heq. rewrite !list_lookup_fmap. destruct (seq 0 ps !! i); [|done].
    simpl in *. unfold unit_at in *. rewrite <- Hb, Hb1 in *. simplify_eq/=; congruence.
  - apply Nat.eqb_eq in E as ->. rewrite !key_iter_take_1 in Heq |- * by lia.
    unfold unit_at in *. rewrite <- Hb, Hb1 in *. simpl in Heq |- *. simplify_eq; congruence.
  - injection Heq as Heq. rewrite !Hk in Heq |- * by lia.
    rewrite <- !list_fmap_compose in Heq.
    apply list_eq. intros i. apply (f_equal (fun l => l !! i)) in Heq. cbn beta in Heq.
    rewrite !list_lookup_fmap in Heq. rewrite !list_lookup_fmap. destruct (seq 0 ps !! i); [|done].
    simpl in *. unfold unit_at in *. rewrite <- Hb, Hb1 in *. simplify_eq/=; congruence.
Qed.

(** Two keys get the same dictionary key exactly when they share the namespace
    and their first page. *)
Lemma child_key_eq_iff k1 k2 ps :
  is_bigram k1 = is_bigram k2 -> 0 < ps <= key_len k1 -> ps <= key_len k2 ->
  child_key k1 ps = child_key k2 ps <->
  extra_key k1 = extra_key k2 /\ take ps (key_iter k1) = take ps (key_iter k2).
Proof.
  intros Hb H1 H2. rewrite !child_key_spec by lia. split.
  - intros Heq. injection Heq as He Hp. split; [done|]. by apply plain_of_inj.
  - intros [-> Ht]. by rewrite Hb, Ht.
Qed.
