(* ===== verification/RadixNode.v ===== *)
(** * RadixNode: tree nodes, eviction strategies, page hashes

    Models class [TreeNode] of [mem_cache/radix_cache.py], the strategies of
    [mem_cache/evict_policy.py] with their factory in [mem_cache/utils.py],
    and the page hashing helpers of [mem_cache/utils.py]. *)

From S2P Require Import Prelude RadixKey.

(** What the model takes from outside the repository's Python code: the
    readings of [time.monotonic()] (one per call, by call number) and the
    SHA-256 digest of a page of 32-bit words after an optional prior digest. *)
Class Env := {
  monotonic : nat -> Z;
  sha256 : option (list Z) -> list Z -> list Z;
}.

(** ** Nodes *)

(** A hexadecimal digest string, as its digits. *)
Definition hexstr : Type := list Z.

(** A tree node; other nodes are named by their identity. *)
Record TreeNode := mkNode {
  children : list (ckey * nat);
  parent : option nat;
  key : RadixKey;
  value : option (list Z);
  lock_ref : Z;
  last_access_time : Z;
  creation_time : Z;
  hit_count : Z;
  host_ref_counter : Z;
  host_value : option (list Z);
  hash_value : option (list hexstr);
  priority : Z;
  session_ids : option (gset string);
}.

Definition set_children x (n : TreeNode) := mkNode x (parent n) (key n) (value n) (lock_ref n) (last_access_time n) (creation_time n) (hit_count n) (host_ref_counter n) (host_value n) (hash_value n) (priority n) (session_ids n).
Definition set_parent x (n : TreeNode) := mkNode (children n) x (key n) (value n) (lock_ref n) (last_access_time n) (creation_time n) (hit_count n) (host_ref_counter n) (host_value n) (hash_value n) (priority n) (session_ids n).
Definition set_key_value x v (n : TreeNode) := mkNode (children n) (parent n) x v (lock_ref n) (last_access_time n) (creation_time n) (hit_count n) (host_ref_counter n) (host_value n) (hash_value n) (priority n) (session_ids n).
Definition set_lock_ref x (n : TreeNode) := mkNode (children n) (parent n) (key n) (value n) x (last_access_time n) (creation_time n) (hit_count n) (host_ref_counter n) (host_value n) (hash_value n) (priority n) (session_ids n).
Definition set_last_access_time x (n : TreeNode) := mkNode (children n) (parent n) (key n) (value n) (lock_ref n) x (creation_time n) (hit_count n) (host_ref_counter n) (host_value n) (hash_value n) (priority n) (session_ids n).
Definition set_hit_count x (n : TreeNode) := mkNode (children n) (parent n) (key n) (value n) (lock_ref n) (last_access_time n) (creation_time n) x (host_ref_counter n) (host_value n) (hash_value n) (priority n) (session_ids n).
Definition set_host_ref_counter x (n : TreeNode) := mkNode (children n) (parent n) (key n) (value n) (lock_ref n) (last_access_time n) (creation_time n) (hit_count n) x (host_value n) (hash_value n) (priority n) (session_ids n).
Definition set_host_value x (n : TreeNode) := mkNode (children n) (parent n) (key n) (value n) (lock_ref n) (last_access_time n) (creation_time n) (hit_count n) (host_ref_counter n) x (hash_value n) (priority n) (session_ids n).
Definition set_hash_value x (n : TreeNode) := mkNode (children n) (parent n) (key n) (value n) (lock_ref n) (last_access_time n) (creation_time n) (hit_count n) (host_ref_counter n) (host_value n) x (priority n) (session_ids n).
Definition set_priority x (n : TreeNode) := mkNode (children n) (parent n) (key n) (value n) (lock_ref n) (last_access_time n) (creation_time n) (hit_count n) (host_ref_counter n) (host_value n) (hash_value n) x (session_ids n).
Definition set_session_ids x (n : TreeNode) := mkNode (children n) (parent n) (key n) (value n) (lock_ref n) (last_access_time n) (creation_time n) (hit_count n) (host_ref_counter n) (host_value n) (hash_value n) (priority n) x.

(** The key a node has before it is assigned one ([None] in the source). *)
Definition no_key : RadixKey := mkRadixKey [] None false None.

(** The state [TreeNode.__init__] leaves, given its two clock readings. *)
Definition fresh_node (t0 t1 prio : Z) : TreeNode :=
  mkNode [] None no_key None 0 t0 t1 0 0 None None prio None.

Definition evicted (n : TreeNode) : bool :=
  match value n with None => true | Some _ => false end.

Definition backuped (n : TreeNode) : bool :=
  match host_value n with None => false | Some _ => true end.

Definition protect_host (n : TreeNode) : TreeNode :=
  set_host_ref_counter (host_ref_counter n + 1)%Z n.

Definition release_host (n : TreeNode) : res TreeNode :=
  if (0 <? host_ref_counter n)%Z
  then Ok (set_host_ref_counter (host_ref_counter n - 1)%Z n)
  else Raise RuntimeError.

Definition get_last_hash_value (n : TreeNode) : option hexstr :=
  match hash_value n with None => None | Some hs => last hs end.

Definition node_lt (a b : TreeNode) : bool := (last_access_time a <? last_access_time b)%Z.

(** ** Eviction strategies *)

Inductive EvictionStrategy :=
| LRUStrategy
| LFUStrategy
| FIFOStrategy
| MRUStrategy
| FILOStrategy
| PriorityStrategy
| SLRUStrategy (protected_threshold : Z).

(** A priority is a number or a tuple of numbers: here the list of its
    components, which Python compares lexicographically. *)
Definition get_priority (st : EvictionStrategy) (n : TreeNode) : list Z :=
  match st with
  | LRUStrategy => [last_access_time n]
  | LFUStrategy => [hit_count n; last_access_time n]
  | FIFOStrategy => [creation_time n]
  | MRUStrategy => [- last_access_time n]%Z
  | FILOStrategy => [- creation_time n]%Z
  | PriorityStrategy => [priority n; last_access_time n]
  | SLRUStrategy protected_threshold =>
      let is_protected := if (protected_threshold <=? hit_count n)%Z then 1%Z else 0%Z in
      [is_protected; last_access_time n]
  end.

Fixpoint prio_ltb (a b : list Z) : bool :=
  match a, b with
  | [], [] => false
  | [], _ :: _ => true
  | _ :: _, [] => false
  | x :: a, y :: b => (x <? y)%Z || ((x =? y)%Z && prio_ltb a b)
  end.

Definition ascii_lower (c : Ascii.ascii) : Ascii.ascii :=
  let n := Ascii.nat_of_ascii c in
  if (65 <=? n) && (n <=? 90) then Ascii.ascii_of_nat (n + 32) else c.

Fixpoint str_lower (s : string) : string :=
  match s with
  | EmptyString => EmptyString
  | String c s => String (ascii_lower c) (str_lower s)
  end.

Definition eviction_policy_factories : list (string * EvictionStrategy) :=
  [("lru", LRUStrategy); ("lfu", LFUStrategy); ("fifo", FIFOStrategy);
   ("mru", MRUStrategy); ("filo", FILOStrategy); ("priority", PriorityStrategy);
   ("slru", SLRUStrategy 2)].

Definition get_eviction_strategy (eviction_policy : string) : res EvictionStrategy :=
  or_raise ValueError (dict_get (str_lower eviction_policy) eviction_policy_factories).

(** ** Page hashes *)

(** The pages of a unit sequence: [range(0, len, page_size)]. *)
Definition page_count (ps len : nat) : nat := (len + ps - 1) / ps.

Definition pages_of {A} (ps : nat) (us : list A) : list (list A) :=
  (fun i => slice (i * ps) ((i + 1) * ps) us) <$> seq 0 (page_count ps (length us)).

(** The 32-bit words hashed for a unit; a token out of range is refused. *)
Definition unit_words (u : kunit) : list Z :=
  match u with Tok t => [t] | Bigram a b => [a; b] end.

Definition checked_u32 (w : Z) : bool := ((0 <=? w) && (w <=? 4294967295))%Z.

Section hashing.
Context `{Env}.

Fixpoint hash_pages (prior : option hexstr) (pages : list (list kunit)) : list hexstr :=
  match pages with
  | [] => []
  | p :: pages =>
      let d := sha256 prior (p ≫= unit_words) in
      d :: hash_pages (Some d) pages
  end.

(** [get_hash_str(key, prior_hash, page_size)]: one chained digest per page.
    An empty prior string counts as no prior. *)
Definition get_hash_str (k : RadixKey) (prior : option hexstr) (ps : nat) : res (list hexstr) :=
  let us := key_iter k in
  let prior_digest := match prior with Some (_ :: _ as h) => Some h | _ => None end in
  if forallb checked_u32 (us ≫= unit_words)
  then Ok (hash_pages prior_digest (pages_of ps us))
  else Raise IndexError.

(** [int(hash_str[:16], 16)] folded into the signed 64-bit range. *)
Definition hex_to_int (ds : hexstr) : Z := foldl (fun acc d => acc * 16 + d)%Z 0%Z ds.

Definition hash_str_to_int64 (h : hexstr) : Z :=
  let uint64_val := hex_to_int (take 16 h) in
  if (2 ^ 63 <=? uint64_val)%Z then (uint64_val - 2 ^ 64)%Z else uint64_val.

(** [parent] is the parent node's record, [None] when the node has none. *)
Definition compute_node_hash_values (n : TreeNode) (par : option TreeNode) (ps : nat)
    : res (list hexstr) :=
  let parent_hash :=
    match par with
    | None => None
    | Some p =>
        match hash_value p with
        | None => None
        | Some hs => if (0 <? key_len (key p)) && (0 <? length hs) then last hs else None
        end
    end in
  get_hash_str (key n) parent_hash ps.

End hashing.

Definition split_node_hash_value (child_hash_value : option (list hexstr)) (split_len ps : nat)
    : option (list hexstr) * option (list hexstr) :=
  match child_hash_value with
  | None => (None, None)
  | Some hs =>
      let split_pages := if ps =? 1 then split_len else split_len / ps in
      (Some (take split_pages hs), Some (drop split_pages hs))
  end.
