(* ===== verification/Allocator.v ===== *)
(** * Allocator: the KV slot allocators

    Models [mem_cache/allocator/base.py], [mem_cache/allocator/token.py] and
    [mem_cache/allocator/paged.py] with the Triton kernels of
    [kernels/ops/memory/allocator.py] they launch.  A tensor of indices is a
    list of integers.  Index values stay far below 2^63, so int64 arithmetic
    is modelled by [Z]. *)

From S2P Require Import Prelude.
From Stdlib Require Import Sorting.

Open Scope Z_scope.

(** ** State shared by the allocators (class BaseTokenToKVPoolAllocator) *)

Record Allocator := mkAllocator {
  al_size : Z;
  al_page_size : Z;
  al_num_pages : Z;
  need_sort : bool;
  debug_mode : bool;
  free_pages : list Z;
  release_pages : list Z;
  is_not_in_free_group : bool;
  free_group : list (list Z);
}.

Definition set_free_pages x (a : Allocator) := mkAllocator (al_size a) (al_page_size a) (al_num_pages a) (need_sort a) (debug_mode a) x (release_pages a) (is_not_in_free_group a) (free_group a).
Definition set_release_pages x (a : Allocator) := mkAllocator (al_size a) (al_page_size a) (al_num_pages a) (need_sort a) (debug_mode a) (free_pages a) x (is_not_in_free_group a) (free_group a).
Definition set_group b g (a : Allocator) := mkAllocator (al_size a) (al_page_size a) (al_num_pages a) (need_sort a) (debug_mode a) (free_pages a) (release_pages a) b g.
Definition set_al_size s n (a : Allocator) := mkAllocator s (al_page_size a) n (need_sort a) (debug_mode a) (free_pages a) (release_pages a) (is_not_in_free_group a) (free_group a).

(** [torch.arange(lo, lo + n)] and ascending [torch.sort]. *)
Definition arange (lo : Z) (n : nat) : list Z := (fun i => lo + Z.of_nat i) <$> seq 0 n.
Definition torch_sort (l : list Z) : list Z := merge_sort Z.le l.

(** [torch.unique]: the distinct values in ascending order. *)
Definition torch_unique (l : list Z) : list Z := torch_sort (remove_dups l).

Definition base_available_size (a : Allocator) : Z :=
  (Z.of_nat (length (free_pages a)) + Z.of_nat (length (release_pages a))) * al_page_size a.

Definition backup_state (a : Allocator) : list Z * list Z := (free_pages a, release_pages a).

Definition restore_state (st : list Z * list Z) (a : Allocator) : Allocator :=
  set_release_pages st.2 (set_free_pages st.1 a).

Definition free_group_begin (a : Allocator) : Allocator := set_group false [] a.

(** [self.free] is dispatched on the class: it is an argument here. *)
Definition free_group_end (free : Allocator -> list Z -> res Allocator) (a : Allocator)
    : res Allocator :=
  let a := set_group true (free_group a) a in
  match free_group a with
  | [] => Ok a
  | g => free a (concat g)
  end.

Definition merge_and_sort_free (a : Allocator) : Allocator :=
  if (0 <? length (release_pages a))%nat
  then set_release_pages [] (set_free_pages (torch_sort (free_pages a ++ release_pages a)) a)
  else a.

Definition resize (clear : Allocator -> Allocator) (max_total_num_tokens : Z) (a : Allocator)
    : Allocator :=
  let np := if 1 <? al_page_size a then max_total_num_tokens / al_page_size a else al_num_pages a in
  clear (set_al_size max_total_num_tokens np a).

(** ** TokenToKVPoolAllocator: one slot per token *)
Module Token.

Definition clear (a : Allocator) : Allocator :=
  set_release_pages []
    (set_group true [] (set_free_pages (arange 1 (Z.to_nat (al_size a))) a)).

Definition init (size : Z) (need_sort : bool) : Allocator :=
  clear (mkAllocator size 1 0 need_sort false [] [] true []).

Definition available_size (a : Allocator) : Z :=
  Z.of_nat (length (free_pages a)) + Z.of_nat (length (release_pages a)).

Definition alloc (a : Allocator) (need_size : nat) : Allocator * option (list Z) :=
  let a := if need_sort a && (length (free_pages a) <? need_size)%nat
           then merge_and_sort_free a else a in
  if (length (free_pages a) <? need_size)%nat then (a, None)
  else (set_free_pages (drop need_size (free_pages a)) a,
        Some (take need_size (free_pages a))).

Definition free (a : Allocator) (free_index : list Z) : res Allocator :=
  match free_index with
  | [] => Ok a
  | _ =>
      if is_not_in_free_group a then
        if need_sort a then Ok (set_release_pages (release_pages a ++ free_index) a)
        else Ok (set_free_pages (free_pages a ++ free_index) a)
      else Ok (set_group false (free_group a ++ [free_index]) a)
  end.

End Token.

(** ** Page arithmetic of the kernels *)

(** [(x + page_size - 1) // page_size]. *)
Definition ceil_pages (ps x : Z) : Z := (x + ps - 1) / ps.

Definition Zsum (l : list Z) : Z := foldr Z.add 0 l.

Definition next_power_of_2 (n : nat) : nat :=
  if (0 <? n)%nat then 2 ^ Nat.log2_up n else 1%nat.

(** Writes of a kernel program: pairs of an output position and a value. *)
Definition writes : Type := list (Z * Z).

Definition apply_writes (out : list Z) (ws : writes) : list Z :=
  foldl (fun o w => <[Z.to_nat w.1 := w.2]> o) out ws.

Section kernels.
Context (page_size : Z).

(** A vector load of [bs_upper] lanes masked by [lane <= pid].  The source
    gives no value for the masked-off lanes ([other]); here each holds the
    filler [fill], one value for every load of a program.  The kernels need
    that much: they sum differences of two loads over all lanes, which is right
    only if masked-off lanes cancel. *)
Definition load_lanes (fill : Z) (bs_upper : nat) (l : list Z) (pid : nat) : list Z :=
  (fun j => if (j <=? pid)%nat then l !!! j else fill) <$> seq 0 bs_upper.

Definition BLOCK_EXTEND : nat := 4096.

(** The offsets visited by the blocked loop of part 2. *)
Definition block_offsets (num_part2 : Z) : list Z :=
  let num_blocks := (num_part2 + Z.of_nat BLOCK_EXTEND - 1) / Z.of_nat BLOCK_EXTEND in
  seq 0 (Z.to_nat num_blocks) ≫= fun block_id =>
    base.filter (fun off => off < num_part2)
      ((fun o => Z.of_nat (block_id * BLOCK_EXTEND + o)%nat) <$> seq 0 BLOCK_EXTEND).

(** Program [pid] of [alloc_extend_kernel]. *)
Definition alloc_extend_kernel (fill : Z) (bs_upper : nat)
    (pre_lens seq_lens last_loc free_page : list Z) (pid : nat) : writes :=
  let seqs := load_lanes fill bs_upper seq_lens pid in
  let pres := load_lanes fill bs_upper pre_lens pid in
  let extend_lens := zip_with Z.sub seqs pres in
  let seq_len := seq_lens !!! pid in
  let pre_len := pre_lens !!! pid in
  let extend_len := seq_len - pre_len in
  let output_start_loc := Zsum extend_lens - extend_len in
  let num_new_pages := zip_with Z.sub (ceil_pages page_size <$> seqs) (ceil_pages page_size <$> pres) in
  let num_page_start_loc_self := ceil_pages page_size seq_len - ceil_pages page_size pre_len in
  let new_page_start_loc := Zsum num_new_pages - num_page_start_loc_self in
  let last := last_loc !!! pid in
  let num_part1 := Z.min seq_len (ceil_pages page_size pre_len * page_size) - pre_len in
  let offset_one_page := arange 0 (Z.to_nat page_size) in
  let w1 := (fun o => (output_start_loc + o, last + 1 + o)) <$>
              base.filter (fun o => o < num_part1) offset_one_page in
  if pre_len + num_part1 =? seq_len then w1 else
  let num_part2 := seq_len / page_size * page_size - ceil_pages page_size pre_len * page_size in
  let w2 := (fun o =>
      (output_start_loc + num_part1 + o,
       free_page !!! Z.to_nat (new_page_start_loc + o / page_size) * page_size + o mod page_size))
      <$> block_offsets num_part2 in
  if pre_len + num_part1 + num_part2 =? seq_len then w1 ++ w2 else
  let num_part3 := seq_len - seq_len / page_size * page_size in
  let start_loc := free_page !!! Z.to_nat (new_page_start_loc + num_page_start_loc_self - 1) in
  let w3 := (fun o => (output_start_loc + num_part1 + num_part2 + o, start_loc * page_size + o)) <$>
              base.filter (fun o => o < num_part3) offset_one_page in
  w1 ++ w2 ++ w3.

(** Program [pid] of [alloc_decode_kernel]. *)
Definition alloc_decode_kernel (fill : Z) (bs_upper : nat)
    (seq_lens last_loc free_page : list Z) (pid : nat) : writes :=
  let seqs := load_lanes fill bs_upper seq_lens pid in
  let pres := zip_with (fun j s => if (j <=? pid)%nat then s - 1 else s) (seq 0 bs_upper) seqs in
  let seq_len := seq_lens !!! pid in
  let pre_len := seq_len - 1 in
  let num_new_pages := zip_with Z.sub (ceil_pages page_size <$> seqs) (ceil_pages page_size <$> pres) in
  let num_page_start_loc_self := ceil_pages page_size seq_len - ceil_pages page_size pre_len in
  let new_page_start_loc := Zsum num_new_pages - num_page_start_loc_self in
  if num_page_start_loc_self =? 0
  then [(Z.of_nat pid, last_loc !!! pid + 1)]
  else [(Z.of_nat pid, free_page !!! Z.to_nat new_page_start_loc * page_size)].

(** [out[start : start + length vals] = vals]. *)
Definition write_range (start : Z) (vals : list Z) : writes :=
  zip_with (fun i v => (start + Z.of_nat i, v)) (seq 0 (length vals)) vals.

(** One iteration of the loop of [alloc_extend_naive], given the running sums
    before request [i]. *)
Definition alloc_extend_naive_req (pre_len seq_len last : Z) (free_page : list Z)
    (start_pos start_new_pages : Z) : writes :=
  let end_pos := start_pos + (seq_len - pre_len) in
  let num_new_pages := ceil_pages page_size seq_len - ceil_pages page_size pre_len in
  let num_full_new_pages := seq_len / page_size - ceil_pages page_size pre_len in
  let need_page := num_new_pages - num_full_new_pages in
  let end_new_pages := start_new_pages + num_new_pages in
  let pos_in_page := arange 0 (Z.to_nat page_size) in
  let num1 := Z.min seq_len (ceil_pages page_size pre_len * page_size) - pre_len in
  let w1 := if num1 =? 0 then [] else
      write_range start_pos ((fun o => last + 1 + o) <$> take (Z.to_nat num1) pos_in_page) in
  if pre_len + num1 =? seq_len then w1 else
  let num2 := (seq_len / page_size - ceil_pages page_size pre_len) * page_size in
  let w2 := if num2 =? 0 then [] else
      let pages := (fun p => p * page_size) <$>
          slice (Z.to_nat start_new_pages) (Z.to_nat (end_new_pages - need_page)) free_page in
      write_range (start_pos + num1) (pages ≫= fun p => (fun o => p + o) <$> pos_in_page) in
  if pre_len + num1 + num2 =? seq_len then w1 ++ w2 else
  let num3 := seq_len - seq_len / page_size * page_size in
  let w3 := if num3 =? 0 then [] else
      write_range (end_pos - num3)
        ((fun o => free_page !!! Z.to_nat (end_new_pages - 1) * page_size + o) <$>
           take (Z.to_nat num3) pos_in_page) in
  w1 ++ w2 ++ w3.

(** The loop, with [torch.cumsum]s threaded as running sums. *)
Fixpoint alloc_extend_naive_loop (pre_lens seq_lens last_loc free_page : list Z)
    (start_pos start_new_pages : Z) : writes :=
  match pre_lens, seq_lens, last_loc with
  | p :: pre_lens, s :: seq_lens, l :: last_loc =>
      alloc_extend_naive_req p s l free_page start_pos start_new_pages ++
      alloc_extend_naive_loop pre_lens seq_lens last_loc free_page
        (start_pos + (s - p))
        (start_new_pages + (ceil_pages page_size s - ceil_pages page_size p))
  | _, _, _ => []
  end.

Definition alloc_extend_naive (pre_lens seq_lens last_loc free_page out : list Z) : list Z :=
  apply_writes out (alloc_extend_naive_loop pre_lens seq_lens last_loc free_page 0 0).

(** [get_num_new_pages]; [prefix_lens = None] is only legal with [decode]. *)
Definition get_num_new_pages (seq_lens : list Z) (prefix_lens : option (list Z)) (decode : bool)
    : res Z :=
  match prefix_lens, decode with
  | Some prefix_lens, false =>
      Ok (Zsum (zip_with Z.sub (ceil_pages page_size <$> seq_lens)
                               (ceil_pages page_size <$> prefix_lens)))
  | _, _ =>
      _ ← py_assert decode;
      Ok (Zsum ((fun s => if s mod page_size =? 1 then 1 else 0) <$> seq_lens))
  end.

End kernels.

(** ** PagedTokenToKVPoolAllocator: one free-list entry per page *)
Module Paged.

Definition clear (a : Allocator) : Allocator :=
  set_release_pages []
    (set_group true [] (set_free_pages (arange 1 (Z.to_nat (al_num_pages a))) a)).

Definition init (size page_size : Z) (need_sort debug_mode : bool) : Allocator :=
  clear (mkAllocator size page_size (size / page_size) need_sort debug_mode [] [] true []).

(** The slots of a list of pages, in order. *)
Definition page_slots (ps : Z) (pages : list Z) : list Z :=
  pages ≫= fun p => (fun o => p * ps + o) <$> arange 0 (Z.to_nat ps).

Definition alloc (a : Allocator) (need_size : Z) : res (Allocator * option (list Z)) :=
  _ ← (if debug_mode a then py_assert (need_size mod al_page_size a =? 0) else Ok tt);
  let num_pages := need_size / al_page_size a in
  let a := if need_sort a && (Z.of_nat (length (free_pages a)) <? num_pages)
           then merge_and_sort_free a else a in
  if Z.of_nat (length (free_pages a)) <? num_pages then Ok (a, None)
  else
    let out_pages := take (Z.to_nat num_pages) (free_pages a) in
    Ok (set_free_pages (drop (Z.to_nat num_pages) (free_pages a)) a,
        Some (page_slots (al_page_size a) out_pages)).

(** [uninit] is the content of [torch.empty], [fill] what masked-off lanes
    of the kernel hold. *)
Definition alloc_extend (fill : Z) (uninit : list Z) (a : Allocator)
    (prefix_lens seq_lens last_loc : list Z) (extend_num_tokens : Z) (num_new_pages : option Z)
    : res (Allocator * option (list Z)) :=
  let ps := al_page_size a in
  _ ← (if debug_mode a then
         py_assert (forallb (fun x => x) (zip_with (fun l p => (l + 1) mod ps =? p mod ps) last_loc prefix_lens))
       else Ok tt);
  let bs := length prefix_lens in
  let a := if need_sort a && (Z.of_nat (length (free_pages a)) <? extend_num_tokens / ps + Z.of_nat bs + 1)
           then merge_and_sort_free a else a in
  let out_indices := apply_writes uninit
      (seq 0 bs ≫= alloc_extend_kernel ps fill (next_power_of_2 bs) prefix_lens seq_lens last_loc (free_pages a)) in
  _ ← (if debug_mode a then
         py_assert (length (torch_unique out_indices) =? length out_indices)%nat
       else Ok tt);
  n ← (match num_new_pages with
       | Some n => Ok n
       | None => get_num_new_pages ps seq_lens (Some prefix_lens) false
       end);
  if Z.of_nat (length (free_pages a)) <? n then Ok (a, None)
  else Ok (set_free_pages (drop (Z.to_nat n) (free_pages a)) a, Some out_indices).

Definition alloc_decode (fill : Z) (uninit : list Z) (a : Allocator)
    (seq_lens last_loc : list Z) : res (Allocator * option (list Z)) :=
  let ps := al_page_size a in
  _ ← (if debug_mode a then
         py_assert (forallb (fun x => x) (zip_with (fun l s => (l + 2) mod ps =? s mod ps) last_loc seq_lens))
       else Ok tt);
  let bs := length seq_lens in
  let a := if need_sort a && (length (free_pages a) <? bs)%nat
           then merge_and_sort_free a else a in
  let out_indices := apply_writes uninit
      (seq 0 bs ≫= alloc_decode_kernel ps fill (next_power_of_2 bs) seq_lens last_loc (free_pages a)) in
  _ ← (if debug_mode a then
         py_assert (length (torch_unique out_indices) =? length out_indices)%nat
       else Ok tt);
  n ← get_num_new_pages ps seq_lens None true;
  if Z.of_nat (length (free_pages a)) <? n then Ok (a, None)
  else Ok (set_free_pages (drop (Z.to_nat n) (free_pages a)) a, Some out_indices).

Definition free (a : Allocator) (free_index : list Z) : res Allocator :=
  match free_index with
  | [] => Ok a
  | _ =>
      let a :=
        if is_not_in_free_group a then
          let free_page_indices := torch_unique ((fun i => i / al_page_size a) <$> free_index) in
          if need_sort a then set_release_pages (free_page_indices ++ release_pages a) a
          else set_free_pages (free_page_indices ++ free_pages a) a
        else set_group false (free_group a ++ [free_index]) a in
      _ ← (if debug_mode a then
             py_assert (length (torch_unique (free_pages a)) =? length (free_pages a))%nat
           else Ok tt);
      Ok a
  end.

End Paged.

Example token_alloc_ex :
  (Token.alloc (Token.init 4 false) 3).2 = Some [1; 2; 3].
Proof. reflexivity. Qed.

Example paged_extend_ex :
  match Paged.alloc_extend 0 (replicate 7 0) (Paged.init 32 4 false true) [2; 0] [5; 4] [21; -1] 7 None with
  | Ok (a, o) => o = Some [22; 23; 4; 8; 9; 10; 11] /\ free_pages a = [3; 4; 5; 6; 7; 8]
  | Raise _ => False
  end.
Proof. vm_compute. done. Qed.

Example paged_extend_naive_ex :
  alloc_extend_naive 4 [2; 0] [5; 4] [21; -1] [1; 2; 3] (replicate 7 0) = [22; 23; 4; 8; 9; 10; 11].
Proof. vm_compute. done. Qed.
