(* ===== verification/RadixTree.v ===== *)
(** * RadixTree: the radix cache, its state and operations

    Models class [RadixCache] of [mem_cache/radix_cache.py] with the two mixins
    it inherits: [KVCacheEventMixin] ([mem_cache/events.py]) and
    [SessionRadixCacheMixin] ([mem_cache/session_radix_cache.py]).

    Nodes are Python objects shared through [parent] / [children] references
    and held by requests, so the state keeps a store [nodes] from object
    identities to node records; an operation updates the store in the order
    the source mutates the objects.  A node removed from the tree stays in the
    store (a caller may still hold it) but no [children] dictionary reaches it. *)

From S2P Require Import Prelude RadixKey RadixNode.

(** ** What the cache needs of the slot allocator *)

Class KVAllocator (A : Type) := {
  kv_free : A -> list Z -> res A;
  kv_available : A -> Z;
}.

(** What the cache relies on: [kv_out a l] says that exactly the slots [l] are
    allocated, [kv_chunk a v] that [v] is made of whole pages, so that freeing
    it gives back as many slots as it has, and [kv_cover a v w] that freeing
    [v] gives back the slots [w] (the rest of a last page included). *)
Class KVAllocatorLaws (A : Type) `{KVAllocator A} := {
  kv_out : A -> list Z -> Prop;
  kv_chunk : A -> list Z -> Prop;
  kv_cover : A -> list Z -> list Z -> Prop;
  kv_out_perm a l l' : l ≡ₚ l' -> kv_out a l -> kv_out a l';
  kv_chunk_cover a v : kv_chunk a v -> kv_cover a v v;
  kv_cover_law a v w rest : kv_out a (w ++ rest) -> kv_cover a v w ->
    exists a', kv_free a v = Ok a' /\ kv_out a' rest /\
      kv_available a' = (kv_available a + Z.of_nat (length w))%Z /\
      (forall x, kv_chunk a x -> kv_chunk a' x) /\
      (forall x y, kv_cover a x y -> kv_cover a' x y);
}.

Lemma kv_free_law {A} `{KVAllocatorLaws A} a v rest :
  kv_out a (v ++ rest) -> kv_chunk a v ->
  exists a', kv_free a v = Ok a' /\ kv_out a' rest /\
    kv_available a' = (kv_available a + Z.of_nat (length v))%Z /\
    (forall w, kv_chunk a w -> kv_chunk a' w).
Proof.
  intros Ho Hc. destruct (kv_cover_law a v v rest Ho (kv_chunk_cover a v Hc)) as (a' & ? & ? & ? & ? & _). eauto.
Qed.

(** ** State *)

Inductive StorageMedium := GPU | CPU.

Inductive kv_event :=
| BlockStored (block_hashes : list Z) (parent_block_hash : option Z) (tokens : list kunit)
    (block_size : nat) (lora_id : option Z) (medium : StorageMedium)
| BlockRemoved (block_hashes : list Z) (medium : StorageMedium)
| AllBlocksCleared.

Record CacheConfig := mkConfig {
  disable : bool;
  page_size : nat;
  enable_kv_cache_events : bool;
  enable_session_radix_cache : bool;
  is_eagle : bool;
  disable_finished_insert : bool;
  eviction_strategy : EvictionStrategy;
}.

Record RadixCache := mkCache {
  cfg : CacheConfig;
  nodes : gmap nat TreeNode;
  counter : nat;
  root_node : nat;
  evictable_size_ : Z;
  protected_size_ : Z;
  evictable_leaves : gset nat;
  kv_event_queue : list kv_event;
  session_leaves : gmap string (gset nat);
  closed_session_ids : list string;
  ticks : nat;
}.

Definition with_nodes x (s : RadixCache) := mkCache (cfg s) x (counter s) (root_node s) (evictable_size_ s) (protected_size_ s) (evictable_leaves s) (kv_event_queue s) (session_leaves s) (closed_session_ids s) (ticks s).
Definition with_counter x (s : RadixCache) := mkCache (cfg s) (nodes s) x (root_node s) (evictable_size_ s) (protected_size_ s) (evictable_leaves s) (kv_event_queue s) (session_leaves s) (closed_session_ids s) (ticks s).
Definition with_root x (s : RadixCache) := mkCache (cfg s) (nodes s) (counter s) x (evictable_size_ s) (protected_size_ s) (evictable_leaves s) (kv_event_queue s) (session_leaves s) (closed_session_ids s) (ticks s).
Definition with_sizes e p (s : RadixCache) := mkCache (cfg s) (nodes s) (counter s) (root_node s) e p (evictable_leaves s) (kv_event_queue s) (session_leaves s) (closed_session_ids s) (ticks s).
Definition with_leaves x (s : RadixCache) := mkCache (cfg s) (nodes s) (counter s) (root_node s) (evictable_size_ s) (protected_size_ s) x (kv_event_queue s) (session_leaves s) (closed_session_ids s) (ticks s).
Definition with_events x (s : RadixCache) := mkCache (cfg s) (nodes s) (counter s) (root_node s) (evictable_size_ s) (protected_size_ s) (evictable_leaves s) x (session_leaves s) (closed_session_ids s) (ticks s).
Definition with_sessions l c (s : RadixCache) := mkCache (cfg s) (nodes s) (counter s) (root_node s) (evictable_size_ s) (protected_size_ s) (evictable_leaves s) (kv_event_queue s) l c (ticks s).
Definition with_ticks x (s : RadixCache) := mkCache (cfg s) (nodes s) (counter s) (root_node s) (evictable_size_ s) (protected_size_ s) (evictable_leaves s) (kv_event_queue s) (session_leaves s) (closed_session_ids s) x.

Definition psize (s : RadixCache) : nat := page_size (cfg s).

(** Dereferencing an object; [None.attr] raises AttributeError. *)
Definition get_node (s : RadixCache) (n : nat) : res TreeNode := or_raise AttributeError (nodes s !! n).

(** Assigning attributes of object [n]. *)
Definition upd_node (n : nat) (f : TreeNode -> TreeNode) (s : RadixCache) : RadixCache :=
  with_nodes (alter f n (nodes s)) s.

(** A node's [value], which tensor code requires to be a tensor. *)
Definition value_of (nd : TreeNode) : res (list Z) := or_raise TypeError (value nd).

Record MatchResult := mkMatch {
  device_indices : list Z;
  last_device_node : nat;
  last_host_node : nat;
  best_match_node : nat;
}.

Section ops.
Context `{Env}.

(** One [time.monotonic()] call. *)
Definition now (s : RadixCache) : RadixCache * Z := (with_ticks (S (ticks s)) s, monotonic (ticks s)).

(** [TreeNode(priority=prio)]: a fresh object. *)
Definition new_node (prio : Z) (s : RadixCache) : RadixCache * nat :=
  let '(s, t0) := now s in
  let '(s, t1) := now s in
  let n := counter s in
  (with_counter (S n) (with_nodes (<[n := fresh_node t0 t1 prio]> (nodes s)) s), n).

(** ** Events (KVCacheEventMixin) *)

(** The node's page hashes, computed and stored on first use. *)
Definition ensure_hash (n : nat) (s : RadixCache) : res (RadixCache * list hexstr) :=
  nd ← get_node s n;
  match hash_value nd with
  | Some hs => Ok (s, hs)
  | None =>
      let par := match parent nd with Some p => nodes s !! p | None => None end in
      hs ← compute_node_hash_values nd par (psize s);
      Ok (upd_node n (set_hash_value (Some hs)) s, hs)
  end.

(** One [BlockStored] per page, each linked to the previous page's hash. *)
Fixpoint stored_events (medium : StorageMedium) (parent_block_hash : option Z)
    (pages : list (list kunit)) (hashes : list hexstr) : res (list kv_event) :=
  match pages with
  | [] => Ok []
  | page :: pages =>
      match hashes with
      | [] => Raise IndexError
      | h :: hashes =>
          let block_hash := hash_str_to_int64 h in
          evs ← stored_events medium (Some block_hash) pages hashes;
          Ok (BlockStored [block_hash] parent_block_hash page (length page) None medium :: evs)
      end
  end.

Definition record_store_event (n : nat) (s : RadixCache) : res RadixCache :=
  if enable_kv_cache_events (cfg s) then
    '(s, hs) ← ensure_hash n s;
    nd ← get_node s n;
    let parent_block_hash :=
      match parent nd with
      | Some p =>
          if decide (p = root_node s) then None
          else match nodes s !! p with
               | Some pd => hash_str_to_int64 <$> (hash_value pd ≫= last)
               | None => None
               end
      | None => None
      end in
    evs ← stored_events GPU parent_block_hash (pages_of (psize s) (key_iter (key nd))) hs;
    Ok (with_events (kv_event_queue s ++ evs) s)
  else Ok s.

Definition record_remove_event (n : nat) (s : RadixCache) : res RadixCache :=
  if enable_kv_cache_events (cfg s) then
    '(s, hs) ← ensure_hash n s;
    nd ← get_node s n;
    let cnt := page_count (psize s) (key_len (key nd)) in
    if (length hs <? cnt)%nat then Raise IndexError
    else
      let block_hashes := hash_str_to_int64 <$> take cnt hs in
      match block_hashes with
      | [] => Ok s
      | _ => Ok (with_events (kv_event_queue s ++ [BlockRemoved block_hashes GPU]) s)
      end
  else Ok s.

Definition record_all_cleared_event (s : RadixCache) : RadixCache :=
  if enable_kv_cache_events (cfg s)
  then with_events (kv_event_queue s ++ [AllBlocksCleared]) s else s.

Definition take_events (s : RadixCache) : RadixCache * list kv_event :=
  if enable_kv_cache_events (cfg s)
  then (with_events [] s, kv_event_queue s) else (s, []).

(** ** Sessions (SessionRadixCacheMixin), the parts other operations call *)

Definition CLOSED_SESSION_TOMBSTONE_LIMIT : nat := Z.to_nat 8192.

Definition reset_session_radix_state (s : RadixCache) : RadixCache := with_sessions ∅ [] s.

(** An [OrderedDict] with [None] values: its keys, oldest first. *)
Definition remember_closed_session (sid : string) (s : RadixCache) : RadixCache :=
  let moved := base.filter (fun x => x <> sid) (closed_session_ids s) ++ [sid] in
  let kept := drop (length moved - CLOSED_SESSION_TOMBSTONE_LIMIT) moved in
  with_sessions (session_leaves s) kept s.

Definition discard_session_step (n : nat) (s : RadixCache) (sid : string) : RadixCache :=
  match session_leaves s !! sid with
  | None => s
  | Some leaves =>
      let leaves := leaves ∖ {[n]} in
      let m := <[sid := leaves]> (session_leaves s) in
      let m := if decide (leaves = ∅ /\ sid ∉ closed_session_ids s)
               then delete sid m else m in
      with_sessions m (closed_session_ids s) s
  end.

Definition discard_session_leaf (n : nat) (s : RadixCache) : res RadixCache :=
  nd ← get_node s n;
  match session_ids nd with
  | None => Ok s
  | Some sids =>
      if decide (sids = ∅) then Ok s
      else Ok (upd_node n (set_session_ids None)
                 (foldl (discard_session_step n) s (elements sids)))
  end.

(** ** Leaf status *)

Definition has_live_child (s : RadixCache) (nd : TreeNode) : bool :=
  existsb (fun c => match nodes s !! c with Some cd => negb (evicted cd) | None => false end)
    (children nd).*2.

Definition update_leaf_status (n : nat) (s : RadixCache) : res RadixCache :=
  nd ← get_node s n;
  if evicted nd || (0 <? lock_ref nd)%Z then Ok (with_leaves (evictable_leaves s ∖ {[n]}) s)
  else if has_live_child s nd then Ok (with_leaves (evictable_leaves s ∖ {[n]}) s)
  else Ok (with_leaves (evictable_leaves s ∪ {[n]}) s).

(** ** Splitting *)

Definition split_node (k : RadixKey) (child split_len : nat) (s : RadixCache)
    : res (RadixCache * nat) :=
  let ps := psize s in
  cd ← get_node s child;
  let '(s, new) := new_node (priority cd) s in
  rest_ck ← child_key (key_from k split_len) ps;
  cv ← value_of cd;
  p ← or_raise AttributeError (parent cd);
  let '(new_hash, child_hash) := split_node_hash_value (hash_value cd) split_len ps in
  let s := upd_node new (fun nd =>
      set_hit_count (hit_count cd)
        (set_children [(rest_ck, child)]
          (set_parent (Some p)
            (set_lock_ref (lock_ref cd)
              (set_key_value (key_upto (key cd) split_len) (Some (take split_len cv)) nd))))) s in
  let s := upd_node child (fun nd =>
      set_parent (Some new)
        (set_key_value (key_from (key cd) split_len) (Some (drop split_len cv)) nd)) s in
  ck ← child_key k ps;
  let s := upd_node p (fun nd => set_children (dict_set ck new (children nd)) nd) s in
  let s := upd_node new (set_hash_value new_hash) s in
  let s := upd_node child (set_hash_value child_hash) s in
  Ok (s, new).

(** ** Prefix matching *)

Fixpoint match_prefix_loop (fuel : nat) (access_time : Z) (node : nat) (k : RadixKey) (ck : ckey)
    (acc : list (list Z)) (s : RadixCache) : res (RadixCache * (list (list Z) * nat)) :=
  match fuel with
  | 0 => Raise Diverges
  | S fuel =>
      if (key_len k =? 0)%nat then Ok (s, (acc, node)) else
      nd ← get_node s node;
      match dict_get ck (children nd) with
      | None => Ok (s, (acc, node))
      | Some child =>
          let s := upd_node child (set_last_access_time access_time) s in
          cd ← get_node s child;
          prefix_len ← radix_match (key cd) k (psize s);
          if (prefix_len <? key_len (key cd))%nat then
            '(s, new) ← split_node (key cd) child prefix_len s;
            nd ← get_node s new;
            v ← value_of nd;
            Ok (s, (acc ++ [v], new))
          else
            v ← value_of cd;
            let k' := key_from k prefix_len in
            ck' ← (if (0 <? key_len k')%nat then child_key k' (psize s) else Ok ck);
            match_prefix_loop fuel access_time child k' ck' (acc ++ [v]) s
      end
  end.

Definition match_prefix_helper (node : nat) (k : RadixKey) (s : RadixCache)
    : res (RadixCache * (list (list Z) * nat)) :=
  let '(s, access_time) := now s in
  let s := upd_node node (set_last_access_time access_time) s in
  ck ← child_key k (psize s);
  match_prefix_loop (S (key_len k)) access_time node k ck [] s.

Definition empty_match_result (s : RadixCache) : MatchResult :=
  mkMatch [] (root_node s) (root_node s) (root_node s).

Definition match_prefix (k : RadixKey) (s : RadixCache) : res (RadixCache * MatchResult) :=
  let '(k, _) := maybe_to_bigram_view (A := Z) k (is_eagle (cfg s)) None in
  if disable (cfg s) || (key_len k =? 0)%nat then Ok (s, empty_match_result s) else
  let k := page_aligned k (psize s) in
  if (key_len k =? 0)%nat then Ok (s, empty_match_result s) else
  '(s, (value, last_node)) ← match_prefix_helper (root_node s) k s;
  Ok (s, mkMatch (concat value) last_node last_node last_node).

(** ** Insertion *)

Definition inc_hit_count (n : nat) (chunked : bool) (s : RadixCache) : RadixCache :=
  if chunked then s else upd_node n (fun nd => set_hit_count (hit_count nd + 1)%Z nd) s.

Definition raise_priority (n : nat) (prio : Z) (s : RadixCache) : RadixCache :=
  upd_node n (fun nd => set_priority (Z.max (priority nd) prio) nd) s.

(** The descent: returns the node reached, what is left of key and value, the
    length matched, and the last child key computed. *)
Fixpoint insert_loop (fuel : nat) (access_time prio : Z) (chunked : bool) (node : nat)
    (k : RadixKey) (v : list Z) (ck : ckey) (total : nat) (s : RadixCache)
    : res (RadixCache * (nat * RadixKey * list Z * ckey * nat)) :=
  match fuel with
  | 0 => Raise Diverges
  | S fuel =>
      if (key_len k =? 0)%nat then Ok (s, (node, k, v, ck, total)) else
      nd ← get_node s node;
      match dict_get ck (children nd) with
      | None => Ok (s, (node, k, v, ck, total))
      | Some child =>
          let s := upd_node child (set_last_access_time access_time) s in
          cd ← get_node s child;
          prefix_len ← radix_match (key cd) k (psize s);
          let total := (total + prefix_len)%nat in
          let k' := key_from k prefix_len in
          let v' := drop prefix_len v in
          '(s, next) ←
            (if (prefix_len <? key_len (key cd))%nat then
               '(s, new) ← split_node (key cd) child prefix_len s;
               Ok (inc_hit_count new chunked (raise_priority new prio s), new)
             else Ok (inc_hit_count child chunked (raise_priority child prio s), child));
          ck' ← (if (0 <? key_len k')%nat then child_key k' (psize s) else Ok ck);
          insert_loop fuel access_time prio chunked next k' v' ck' total s
      end
  end.

(** The end of [_insert_helper]: a new leaf for what is left of the key. *)
Definition add_leaf (prio : Z) (chunked : bool) (node : nat) (k : RadixKey) (v : list Z) (ck : ckey)
    (total : nat) (s : RadixCache) : res (RadixCache * (nat * nat)) :=
  let '(s, new) := new_node prio s in
  let s := upd_node new (fun nd => set_parent (Some node) (set_key_value k (Some v) nd)) s in
  let s := inc_hit_count new chunked s in
  let s := upd_node node (fun nd => set_children (dict_set ck new (children nd)) nd) s in
  let s := with_sizes (evictable_size_ s + Z.of_nat (key_len k))%Z (protected_size_ s) s in
  s ← update_leaf_status node s;
  s ← update_leaf_status new s;
  s ← record_store_event new s;
  Ok (s, (total, new)).

Definition insert_helper (node : nat) (k : RadixKey) (v : list Z) (prio : option Z)
    (chunked : bool) (s : RadixCache) : res (RadixCache * (nat * nat)) :=
  let prio := default 0%Z prio in
  let '(s, access_time) := now s in
  let s := upd_node node (set_last_access_time access_time) s in
  let s := raise_priority node prio s in
  if (key_len k =? 0)%nat then Ok (s, (0, node)) else
  ck ← child_key k (psize s);
  '(s, (node, k, v, ck, total)) ← insert_loop (S (key_len k)) access_time prio chunked node k v ck 0 s;
  if (0 <? key_len k)%nat then
    add_leaf prio chunked node k v ck total s
  else Ok (s, (total, node)).

(** [insert]: the matched length and the last node ([None] when disabled). *)
Definition insert (k : RadixKey) (v : option (list Z)) (prio : option Z) (chunked : bool)
    (s : RadixCache) : res (RadixCache * (nat * option nat)) :=
  if disable (cfg s) then Ok (s, (0, None)) else
  let '(k, v) := maybe_to_bigram_view k (is_eagle (cfg s)) v in
  let k := page_aligned k (psize s) in
  let v := match v with
           | Some v => take (key_len k) v
           | None => take (key_len k) (token_ids k)
           end in
  '(s, (prefix_len, last_node)) ← insert_helper (root_node s) k v prio chunked s;
  Ok (s, (prefix_len, Some last_node)).

(** ** Locking *)

Fixpoint inc_lock_loop (fuel : nat) (node : option nat) (delta : Z) (s : RadixCache)
    : res (RadixCache * Z) :=
  match fuel with
  | 0 => Raise Diverges
  | S fuel =>
      if decide (node = Some (root_node s)) then Ok (s, delta) else
      n ← or_raise AttributeError node;
      nd ← get_node s n;
      let len := Z.of_nat (key_len (key nd)) in
      let '(s, delta) :=
        if (lock_ref nd =? 0)%Z
        then (with_sizes (evictable_size_ s - len)%Z (protected_size_ s + len)%Z s, (delta - len)%Z)
        else (s, delta) in
      let s := upd_node n (set_lock_ref (lock_ref nd + 1)%Z) s in
      s ← update_leaf_status n s;
      inc_lock_loop fuel (parent nd) delta s
  end.

Definition inc_lock_ref (node : nat) (s : RadixCache) : res (RadixCache * Z) :=
  if disable (cfg s) then Ok (s, 0%Z)
  else inc_lock_loop (S (size (nodes s))) (Some node) 0 s.

Fixpoint dec_lock_loop (fuel : nat) (node : option nat) (delta : Z) (s : RadixCache)
    : res (RadixCache * Z) :=
  match fuel with
  | 0 => Raise Diverges
  | S fuel =>
      if decide (node = Some (root_node s)) then Ok (s, delta) else
      n ← or_raise AttributeError node;
      nd ← get_node s n;
      let len := Z.of_nat (key_len (key nd)) in
      let '(s, delta) :=
        if (lock_ref nd =? 1)%Z
        then (with_sizes (evictable_size_ s + len)%Z (protected_size_ s - len)%Z s, (delta + len)%Z)
        else (s, delta) in
      let s := upd_node n (set_lock_ref (lock_ref nd - 1)%Z) s in
      s ← update_leaf_status n s;
      _ ← py_assert (match parent nd with None => false | Some _ => true end);
      dec_lock_loop fuel (parent nd) delta s
  end.

Definition dec_lock_ref (node : nat) (s : RadixCache) : res (RadixCache * Z) :=
  if disable (cfg s) then Ok (s, 0%Z)
  else dec_lock_loop (S (size (nodes s))) (Some node) 0 s.

(** ** Deletion and eviction *)

Definition delete_leaf (n : nat) (s : RadixCache) : res RadixCache :=
  nd ← get_node s n;
  ck ← child_key (key nd) (psize s);
  p ← or_raise AttributeError (parent nd);
  pd ← get_node s p;
  let v := dict_get ck (children pd) in
  let s := upd_node p (fun pd => set_children (dict_pop ck (children pd)) pd) s in
  _ ← py_assert (bool_decide (v = Some n));
  s ← discard_session_leaf n s;
  let s := with_sizes (evictable_size_ s - Z.of_nat (key_len (key nd)))%Z (protected_size_ s) s in
  let s := with_leaves (evictable_leaves s ∖ {[n]}) s in
  update_leaf_status p s.

(** Heap entries pair a priority with a node; equal priorities compare the
    nodes by [__lt__], that is by [last_access_time]. *)
Definition heap_entry : Type := list Z * nat.

Definition entry_key (s : RadixCache) (e : heap_entry) : list Z :=
  e.1 ++ [from_option last_access_time 0%Z (nodes s !! e.2)].

(** [heapq.heappop]: an entry no other entry is smaller than, and the rest.
    Which of several equal entries comes first is left to the list order. *)
Fixpoint heap_pop (s : RadixCache) (h : list heap_entry) : option (heap_entry * list heap_entry) :=
  match h with
  | [] => None
  | e :: h =>
      match heap_pop s h with
      | None => Some (e, [])
      | Some (m, rest) =>
          if prio_ltb (entry_key s m) (entry_key s e) then Some (m, e :: rest) else Some (e, h)
      end
  end.

Definition node_priority (s : RadixCache) (n : nat) : list Z :=
  match nodes s !! n with
  | Some nd => get_priority (eviction_strategy (cfg s)) nd
  | None => []
  end.

Section evict.
Context {A : Type} `{KVAllocator A}.

(** The body of the eviction loop for the popped node [x]: the new heap and
    the number of tokens freed. *)
Definition evict_one (x : nat) (heap : list heap_entry) (s : RadixCache) (a : A)
    : res (RadixCache * A * list heap_entry * Z) :=
  xd ← get_node s x;
  v ← value_of xd;
  a ← kv_free a v;
  s ← delete_leaf x s;
  p ← or_raise AttributeError (parent xd);
  pd ← get_node s p;
  let heap :=
    if (length (children pd) =? 0)%nat && (lock_ref pd =? 0)%Z
    then heap ++ [(node_priority s p, p)] else heap in
  s ← record_remove_event x s;
  Ok (s, a, heap, Z.of_nat (length v)).

Fixpoint evict_loop (fuel : nat) (num_tokens : Z) (heap : list heap_entry) (num_evicted : Z)
    (s : RadixCache) (a : A) : res (RadixCache * A * Z) :=
  match fuel with
  | 0 => Raise Diverges
  | S fuel =>
      if negb (num_evicted <? num_tokens)%Z then Ok (s, a, num_evicted) else
      match heap_pop s heap with
      | None => Ok (s, a, num_evicted)
      | Some ((_, x), heap) =>
          '(s, a, heap, freed) ← evict_one x heap s a;
          evict_loop fuel num_tokens heap (num_evicted + freed)%Z s a
      end
  end.

Definition evict (num_tokens : Z) (s : RadixCache) (a : A) : res (RadixCache * A * Z) :=
  if disable (cfg s) then Ok (s, a, 0%Z) else
  let leaves := elements (evictable_leaves s) in
  let heap := (fun n => (node_priority s n, n)) <$> leaves in
  evict_loop (S (size (nodes s))) num_tokens heap 0 s a.

(** ** Session close *)

(** The [while True] walk up from a tagged leaf. *)
Fixpoint release_walk (fuel : nat) (sid : string) (node : nat) (freed : Z) (s : RadixCache) (a : A)
    : res (RadixCache * A * Z) :=
  match fuel with
  | 0 => Raise Diverges
  | S fuel =>
      nd ← get_node s node;
      let s := match session_ids nd with
               | None => s
               | Some sids =>
                   let sids := sids ∖ {[sid]} in
                   upd_node node (set_session_ids (if decide (sids = ∅) then None else Some sids)) s
               end in
      nd ← get_node s node;
      if bool_decide (node = root_node s) || negb (lock_ref nd =? 0)%Z
         || negb (length (children nd) =? 0)%nat
         || bool_decide (node ∉ evictable_leaves s)
         || match session_ids nd with Some sids => bool_decide (sids <> ∅) | None => false end
      then Ok (s, a, freed)
      else
        p ← or_raise AttributeError (parent nd);
        v ← value_of nd;
        a ← kv_free a v;
        s ← delete_leaf node s;
        release_walk fuel sid p (freed + 1)%Z s a
  end.

Fixpoint release_leaves (sid : string) (leaves : list nat) (freed : Z) (s : RadixCache) (a : A)
    : res (RadixCache * A * Z) :=
  match leaves with
  | [] => Ok (s, a, freed)
  | leaf :: leaves =>
      nd ← get_node s leaf;
      if bool_decide (sid ∈ default ∅ (session_ids nd)) then
        '(s, a, freed) ← release_walk (S (size (nodes s))) sid leaf freed s a;
        release_leaves sid leaves freed s a
      else release_leaves sid leaves freed s a
  end.

Definition release_radix_session (sid : string) (s : RadixCache) (a : A) : res (RadixCache * A * Z) :=
  let s := remember_closed_session sid s in
  let indexed := default ∅ (session_leaves s !! sid) in
  let s := with_sessions (delete sid (session_leaves s)) (closed_session_ids s) s in
  release_leaves sid (elements indexed) 0 s a.

End evict.

(** [_tag_session_leaf]; [sid] is the request's session id. *)
Definition tag_session_leaf (sid : option string) (k : RadixKey) (node : option nat) (s : RadixCache)
    : res RadixCache :=
  if negb (enable_session_radix_cache (cfg s)) then Ok s else
  match sid with
  | None => Ok s
  | Some sid =>
      if bool_decide (sid ∈ closed_session_ids s) then Ok s else
      '(s, node) ← (match node with
                    | Some n => Ok (s, n)
                    | None =>
                        '(s, m) ← match_prefix k s;
                        Ok (s, last_device_node m)
                    end);
      if bool_decide (node = root_node s) then Ok s else
      let s := upd_node node (fun nd =>
          set_session_ids (Some (default ∅ (session_ids nd) ∪ {[sid]})) nd) s in
      Ok (with_sessions
            (<[sid := default ∅ (session_leaves s !! sid) ∪ {[node]}]> (session_leaves s))
            (closed_session_ids s) s)
  end.

(** ** Reset and sizes *)

Definition MAXSIZE : Z := 2 ^ 63 - 1.

Definition reset (s : RadixCache) : RadixCache :=
  let '(s, r) := new_node (- MAXSIZE) s in
  let s := upd_node r (fun nd =>
      set_hash_value (Some []) (set_lock_ref 1
        (set_host_value (Some [])
          (set_key_value (mkRadixKey [] None false None) (Some []) nd)))) s in
  let s := with_root r s in
  let s := with_leaves ∅ (with_sizes 0 0 s) in
  record_all_cleared_event (reset_session_radix_state s).

(** [RadixCache(params)]: no node, then [reset]. *)
Definition init_cache (c : CacheConfig) : RadixCache :=
  reset (mkCache c ∅ 0 0 0 0 ∅ [] ∅ [] 0).

Definition create_simulated (dis : bool) (ps : nat) (events : bool) : RadixCache :=
  init_cache (mkConfig dis ps events false false false LRUStrategy).

(** The walk of [_total_size_helper], with an explicit stack. *)
Fixpoint total_size_loop (fuel : nat) (stack : list nat) (total : Z) (s : RadixCache) : res Z :=
  match fuel with
  | 0 => Raise Diverges
  | S fuel =>
      match stack with
      | [] => Ok total
      | n :: stack =>
          nd ← get_node s n;
          v ← value_of nd;
          let live := List.filter (fun c => match nodes s !! c with
                                            | Some cd => negb (evicted cd)
                                            | None => false end) (children nd).*2 in
          total_size_loop fuel (reverse live ++ stack) (total + Z.of_nat (length v))%Z s
      end
  end.

Definition total_size (s : RadixCache) : res Z :=
  total_size_loop (S (size (nodes s))) [root_node s] 0 s.

End ops.
