(* ===== verification/RadixInv.v ===== *)
(** * RadixInv: the well-formedness invariant of the radix cache

    The invariant is stated on the part of the node store the tree structure
    lives in (children, parent, key, value, lock count); attributes that only
    steer eviction, events or sessions do not matter for it.  Its witnesses
    are the set [L] of nodes reachable from the root, the path [P n] of key
    units from the root to a node, and the number [H n] of locks that callers
    currently hold on a node. *)

From S2P Require Import Prelude RadixKey RadixNode RadixTree.

(** ** The structural view of a node *)

Record shape := mkShape {
  s_children : list (ckey * nat);
  s_parent : option nat;
  s_key : RadixKey;
  s_value : option (list Z);
  s_lock : Z;
}.

Definition shape_of (n : TreeNode) : shape :=
  mkShape (children n) (parent n) (key n) (value n) (lock_ref n).

Definition tree (s : RadixCache) : gmap nat shape := shape_of <$> nodes s.

Definition s_units (nd : shape) : list kunit := key_iter (s_key nd).
Definition s_len (nd : shape) : nat := key_len (s_key nd).

(** Lock count of a child; children of live nodes are always in the store. *)
Definition lock_at (t : gmap nat shape) (n : nat) : Z := from_option s_lock 0%Z (t !! n).

Definition children_locks (t : gmap nat shape) (nd : shape) : Z :=
  foldr Z.add 0%Z (lock_at t <$> (s_children nd).*2).

(** ** The invariant *)

(** What every node below the root satisfies by itself. *)
Record node_ok (ps : nat) (bg : bool) (nd : shape) : Prop := {
  ok_len : 0 < s_len nd;
  ok_aligned : (ps | s_len nd);
  ok_bigram : is_bigram (s_key nd) = bg;
  ok_value : exists v, s_value nd = Some v /\ length v = s_len nd;
  ok_lock : (0 <= s_lock nd)%Z;
}.

(** How a node hangs below its parent. *)
Record link_ok (ps : nat) (root n p : nat) (nd pd : shape) (P : nat -> list kunit) : Prop := {
  lk_child : exists ck, child_key (s_key nd) ps = Ok ck /\ dict_get ck (s_children pd) = Some n;
  lk_path : P n = P p ++ s_units nd;
  lk_ns : p <> root -> extra_key (s_key pd) = extra_key (s_key nd);
}.

Record tree_wf (ps : nat) (bg : bool) (t : gmap nat shape) (root : nat)
    (L : gset nat) (P : nat -> list kunit) : Prop := {
  wf_ps : 0 < ps;
  wf_root_in : root ∈ L;
  wf_root : exists cs, t !! root = Some (mkShape cs None no_key (Some []) 1);
  wf_root_path : P root = [];
  wf_node n : n ∈ L -> n <> root -> exists nd p pd,
    t !! n = Some nd /\ s_parent nd = Some p /\ p ∈ L /\ t !! p = Some pd /\
    node_ok ps bg nd /\ link_ok ps root n p nd pd P;
  wf_child p pd k c : p ∈ L -> t !! p = Some pd -> dict_get k (s_children pd) = Some c ->
    c ∈ L /\ c <> root /\
    exists cd, t !! c = Some cd /\ s_parent cd = Some p /\ child_key (s_key cd) ps = Ok k;
  wf_nodup p pd : p ∈ L -> t !! p = Some pd -> NoDup (s_children pd).*1;
}.

(** Lock counts: a node is locked once for every lock a caller holds on it or
    on a node below it.  [pend] is a correction still to be carried to the
    node's ancestors while a walk is under way. *)
Definition locks_ok (t : gmap nat shape) (root : nat) (L : gset nat) (H : nat -> Z)
    (pend : option (nat * Z)) : Prop :=
  forall n nd, n ∈ L -> n <> root -> t !! n = Some nd ->
    (s_lock nd + match pend with Some (m, d) => if decide (m = n) then d else 0 | None => 0 end)%Z
    = (H n + children_locks t nd)%Z.

Definition unlocked_len (t : gmap nat shape) (n : nat) : Z :=
  match t !! n with
  | Some nd => if decide (s_lock nd = 0)%Z then Z.of_nat (s_len nd) else 0%Z
  | None => 0%Z
  end.

Definition locked_len (t : gmap nat shape) (n : nat) : Z :=
  match t !! n with
  | Some nd => if decide (s_lock nd = 0)%Z then 0%Z else Z.of_nat (s_len nd)
  | None => 0%Z
  end.

(** Sum over a finite set. *)
Definition set_sum (f : nat -> Z) (L : gset nat) : Z := foldr Z.add 0%Z (f <$> elements L).

Definition evictable_leaf (t : gmap nat shape) (root : nat) (L : gset nat) (n : nat) : Prop :=
  n ∈ L /\ n <> root /\ exists nd, t !! n = Some nd /\ s_lock nd = 0%Z /\ s_children nd = [].

(** The bookkeeping that goes with a tree: sizes and the set of leaves. *)
Record books_ok (t : gmap nat shape) (root : nat) (L : gset nat) (ev prot : Z) (leaves : gset nat)
    : Prop := {
  bk_ev : ev = set_sum (unlocked_len t) (L ∖ {[root]});
  bk_prot : prot = set_sum (locked_len t) (L ∖ {[root]});
  bk_leaves n : n ∈ leaves <-> evictable_leaf t root L n;
}.

(** With events on, every live node carries the digests of its pages. *)
Definition hashes_ok (s : RadixCache) (L : gset nat) : Prop :=
  enable_kv_cache_events (cfg s) = true -> forall n nd,
    n ∈ L -> n <> root_node s -> nodes s !! n = Some nd ->
    exists hs, hash_value nd = Some hs /\ length hs = page_count (psize s) (key_len (key nd)).

Record Inv_at (s : RadixCache) (L : gset nat) (P : nat -> list kunit) (H : nat -> Z)
    (pend : option (nat * Z)) : Prop := {
  inv_wf : tree_wf (psize s) (is_eagle (cfg s)) (tree s) (root_node s) L P;
  inv_fresh n nd : tree s !! n = Some nd -> n < counter s;
  inv_locks : locks_ok (tree s) (root_node s) L H pend;
  inv_held n : (0 <= H n)%Z;
  inv_held_live n : H n <> 0%Z -> n ∈ L;
  inv_hashes : hashes_ok s L;
  inv_books : books_ok (tree s) (root_node s) L
                (evictable_size_ s) (protected_size_ s) (evictable_leaves s);
}.

(** The cache is well formed and callers hold the locks [H]. *)
Definition Inv (s : RadixCache) (H : nat -> Z) : Prop := exists L P, Inv_at s L P H None.

(** ** Sums over finite sets *)

Lemma foldr_add_perm (l l' : list Z) : l ≡ₚ l' -> foldr Z.add 0%Z l = foldr Z.add 0%Z l'.
Proof. induction 1; simpl; lia. Qed.

Lemma foldr_add_app (l l' : list Z) :
  foldr Z.add 0%Z (l ++ l') = (foldr Z.add 0%Z l + foldr Z.add 0%Z l')%Z.
Proof. induction l; simpl; lia. Qed.

Section sums.
Implicit Types (f g : nat -> Z) (L : gset nat).

Lemma set_sum_empty f : set_sum f ∅ = 0%Z.
Proof. unfold set_sum. by rewrite elements_empty. Qed.

Lemma set_sum_insert f L n : n ∉ L -> set_sum f ({[n]} ∪ L) = (f n + set_sum f L)%Z.
Proof.
  intros Hn. unfold set_sum.
  rewrite (foldr_add_perm _ (f <$> (n :: elements L))).
  - done.
  - by rewrite elements_union_singleton.
Qed.

Lemma set_sum_delete f L n : n ∈ L -> set_sum f L = (f n + set_sum f (L ∖ {[n]}))%Z.
Proof.
  intros Hn. rewrite <- set_sum_insert by set_solver. f_equal.
  apply leibniz_equiv. rewrite (comm (∪)). intros x. destruct (decide (x = n)); set_solver.
Qed.

Lemma set_sum_ext f g L : (forall n, n ∈ L -> f n = g n) -> set_sum f L = set_sum g L.
Proof.
  intros Hfg. unfold set_sum. f_equal. apply list_fmap_ext. intros i x Hx. apply Hfg.
  apply elem_of_elements. by eapply list_elem_of_lookup_2.
Qed.

(** The two sums differ at one node. *)
Lemma set_sum_upd f g L n d :
  n ∈ L -> g n = (f n + d)%Z -> (forall m, m ∈ L -> m <> n -> g m = f m) ->
  set_sum g L = (set_sum f L + d)%Z.
Proof.
  intros Hn Hgn Hoth. rewrite (set_sum_delete g L n), (set_sum_delete f L n) by done.
  rewrite (set_sum_ext g f (L ∖ {[n]})); [lia|]. intros m Hm. apply Hoth; set_solver.
Qed.

Lemma set_sum_nonneg f L : (forall n, n ∈ L -> (0 <= f n)%Z) -> (0 <= set_sum f L)%Z.
Proof.
  intros Hf. unfold set_sum. assert (Hall : forall n, n ∈ elements L -> (0 <= f n)%Z).
  { intros n Hn. by apply Hf, elem_of_elements. }
  induction (elements L) as [|x l IH]; csimpl; [lia|].
  assert (0 <= f x)%Z by (apply Hall; set_solver).
  assert (0 <= foldr Z.add 0%Z (f <$> l))%Z by (apply IH; intros; apply Hall; set_solver). lia.
Qed.

Lemma set_sum_pos_inv f L : (0 < set_sum f L)%Z -> exists n, n ∈ L /\ (0 < f n)%Z.
Proof.
  unfold set_sum. intros Hs.
  assert (exists n, n ∈ elements L /\ (0 < f n)%Z) as (n & Hn & Hf).
  { induction (elements L) as [|x l IH]; csimpl in *; [lia|].
    destruct (decide (0 < f x)%Z); [exists x; set_solver|].
    destruct IH as (n' & ? & ?); [lia|]. exists n'. set_solver. }
  exists n. by rewrite elem_of_elements in Hn.
Qed.

End sums.

(** ** Sums over a children dictionary *)

Section dict_sums.
Context {K : Type} `{EqDecision K}.
Implicit Types (d : list (K * nat)) (f g : nat -> Z).

Definition dict_sum f d : Z := foldr Z.add 0%Z (f <$> d.*2).

Lemma dict_sum_set f d k v :
  NoDup d.*1 ->
  dict_sum f (dict_set k v d) = (dict_sum f d - from_option f 0 (dict_get k d) + f v)%Z.
Proof.
  unfold dict_sum. induction d as [|[k0 v0] d IH]; csimpl; [lia|].
  rewrite NoDup_cons. intros [Hn Hd]. destruct (decide (k = k0)) as [->|]; csimpl; [lia|].
  rewrite IH by done. lia.
Qed.

Lemma dict_pop_notin k d : k ∉ d.*1 -> dict_pop k d = d.
Proof.
  induction d as [|[k0 v0] d IH]; csimpl; [done|]. rewrite not_elem_of_cons. intros [? ?].
  rewrite decide_False by done. by rewrite IH.
Qed.

Lemma dict_sum_pop f d k :
  NoDup d.*1 -> dict_sum f (dict_pop k d) = (dict_sum f d - from_option f 0 (dict_get k d))%Z.
Proof.
  unfold dict_sum. induction d as [|[k0 v0] d IH]; csimpl; [lia|].
  rewrite NoDup_cons. intros [Hn Hd]. destruct (decide (k = k0)) as [->|]; csimpl.
  - rewrite dict_pop_notin by done. lia.
  - rewrite IH by done. lia.
Qed.

Lemma dict_sum_ext f g d :
  (forall k v, (k, v) ∈ d -> f v = g v) -> dict_sum f d = dict_sum g d.
Proof.
  unfold dict_sum. induction d as [|[k0 v0] d IH]; csimpl; [done|]. intros Hfg.
  rewrite (Hfg k0 v0) by set_solver. f_equal. apply IH. intros k v Hin. apply (Hfg k v). apply elem_of_cons. by right.
Qed.

(** The two functions differ at one value, which occurs once. *)
Lemma dict_sum_upd f g d c dl :
  NoDup d.*2 -> c ∈ d.*2 -> g c = (f c + dl)%Z -> (forall v, v <> c -> g v = f v) ->
  dict_sum g d = (dict_sum f d + dl)%Z.
Proof.
  unfold dict_sum. intros Hnd Hin Hc Hoth.
  induction d as [|[k0 v0] d IH]; csimpl in *; [set_solver|].
  apply NoDup_cons in Hnd as [Hn Hd]. destruct (decide (v0 = c)) as [->|Hne].
  - rewrite Hc. assert (foldr Z.add 0%Z (g <$> d.*2) = foldr Z.add 0%Z (f <$> d.*2)) as ->; [|lia].
    f_equal. apply list_fmap_ext. intros i x Hx. apply Hoth. intros ->. apply Hn.
    by eapply list_elem_of_lookup_2.
  - rewrite Hoth by done. rewrite IH; [lia|done|set_solver].
Qed.

Lemma dict_sum_notin f g d c :
  c ∉ d.*2 -> (forall v, v <> c -> g v = f v) -> dict_sum g d = dict_sum f d.
Proof.
  intros Hn Hoth. unfold dict_sum. f_equal. apply list_fmap_ext. intros i x Hx.
  apply Hoth. intros ->. apply Hn. by eapply list_elem_of_lookup_2.
Qed.

Lemma dict_sum_nonneg f d : (forall v, v ∈ d.*2 -> (0 <= f v)%Z) -> (0 <= dict_sum f d)%Z.
Proof.
  unfold dict_sum. induction d as [|[k0 v0] d IH]; csimpl; [lia|]. intros Hf.
  assert (0 <= f v0)%Z by (apply Hf; set_solver).
  assert (0 <= foldr Z.add 0%Z (f <$> d.*2))%Z by (apply IH; intros; apply Hf; set_solver). lia.
Qed.

Lemma dict_sum_ge f d c :
  (forall v, v ∈ d.*2 -> (0 <= f v)%Z) -> c ∈ d.*2 -> (f c <= dict_sum f d)%Z.
Proof.
  unfold dict_sum. induction d as [|[k0 v0] d IH]; csimpl; [set_solver|]. intros Hf Hin.
  assert (0 <= f v0)%Z by (apply Hf; set_solver).
  assert (0 <= foldr Z.add 0%Z (f <$> d.*2))%Z by (apply (dict_sum_nonneg f d); intros; apply Hf; set_solver).
  apply elem_of_cons in Hin as [->|Hin]; [lia|].
  assert (f c <= foldr Z.add 0%Z (f <$> d.*2))%Z by (apply IH; [intros; apply Hf; set_solver|done]). lia.
Qed.

Lemma dict_get_value k v d : dict_get k d = Some v -> v ∈ d.*2.
Proof. intros Hg%dict_get_in. apply list_elem_of_fmap. by exists (k, v). Qed.

Lemma dict_value_get v d : NoDup d.*1 -> v ∈ d.*2 -> exists k, dict_get k d = Some v.
Proof.
  intros Hd Hv. apply list_elem_of_fmap in Hv as ([k v'] & -> & Hin). exists k.
  by apply dict_in_get.
Qed.

End dict_sums.

(** ** Consequences of well-formedness *)

Section wf_facts.
Context {ps : nat} {bg : bool} {t : gmap nat shape} {root : nat} {L : gset nat}
        {P : nat -> list kunit} (W : tree_wf ps bg t root L P).

Lemma wf_lookup n : n ∈ L -> exists nd, t !! n = Some nd.
Proof using W.
  intros Hn. destruct (decide (n = root)) as [->|Hne].
  - destruct (wf_root _ _ _ _ _ _ W) as [cs ?]. eauto.
  - destruct (wf_node _ _ _ _ _ _ W n) as (nd & ? & ? & ? & _); eauto.
Qed.

(** A node with its parent. *)
Lemma wf_below n nd :
  n ∈ L -> n <> root -> t !! n = Some nd -> exists p pd,
    s_parent nd = Some p /\ p ∈ L /\ t !! p = Some pd /\ p <> n /\
    node_ok ps bg nd /\ link_ok ps root n p nd pd P /\ length (P p) < length (P n).
Proof using W.
  intros Hn Hr Ht. destruct (wf_node _ _ _ _ _ _ W n Hn Hr) as (nd' & p & pd & Ht' & Hp & HpL & Htp & Hok & Hlk).
  simplify_eq. assert (length (P p) < length (P n)).
  { rewrite (lk_path _ _ _ _ _ _ _ Hlk), length_app. unfold s_units. rewrite length_key_iter.
    pose proof (ok_len _ _ _ Hok). unfold s_len in *. lia. }
  exists p, pd. repeat split; try done; try apply Hok; try apply Hlk. intros ->. lia.
Qed.

Lemma wf_page_le nd : node_ok ps bg nd -> ps <= s_len nd.
Proof using W.
  intros [Hl Ha _ _ _]. apply Nat.divide_pos_le; done.
Qed.

Lemma wf_values_nodup p pd : p ∈ L -> t !! p = Some pd -> NoDup (s_children pd).*2.
Proof using W.
  intros Hp Ht. pose proof (wf_nodup _ _ _ _ _ _ W p pd Hp Ht) as Hnd.
  pose proof (wf_child _ _ _ _ _ _ W p pd) as Hc. specialize (fun k c => Hc k c Hp Ht).
  clear Ht. induction (s_children pd) as [|[k0 c0] d IH]; csimpl in *; [constructor|].
  pose proof Hnd as Hnd0. apply NoDup_cons in Hnd as [Hn Hd]. apply NoDup_cons. split.
  - intros Hin. destruct (dict_value_get c0 d Hd Hin) as [k Hk].
    assert (k <> k0). { intros ->. apply Hn. apply dict_get_in in Hk. apply list_elem_of_fmap. by exists (k0, c0). }
    destruct (Hc k c0) as (_ & _ & cd & Hcd & _ & Hck); [by rewrite decide_False|].
    destruct (Hc k0 c0) as (_ & _ & cd' & Hcd' & _ & Hck'); [by rewrite decide_True|].
    congruence.
  - apply IH; [done|]. intros k c Hk. apply (Hc k c). rewrite decide_False; [done|].
    intros ->. apply Hn. apply dict_get_in in Hk. apply list_elem_of_fmap. by exists (k0, c).
Qed.

(** The child under a dictionary key, with its link. *)
Lemma wf_child_link p pd k c :
  p ∈ L -> t !! p = Some pd -> dict_get k (s_children pd) = Some c ->
  exists cd, c ∈ L /\ c <> root /\ c <> p /\ t !! c = Some cd /\ s_parent cd = Some p /\
    child_key (s_key cd) ps = Ok k /\ node_ok ps bg cd /\ link_ok ps root c p cd pd P.
Proof using W.
  intros Hp Htp Hk. destruct (wf_child _ _ _ _ _ _ W p pd k c Hp Htp Hk) as (HcL & Hcr & cd & Hcd & Hpar & Hck).
  destruct (wf_below c cd HcL Hcr Hcd) as (p' & pd' & Hpar' & _ & Htp' & Hne & Hok & Hlk & _).
  simplify_eq. exists cd. repeat split; try done; try apply Hok; try apply Hlk.
Qed.

Lemma wf_root_key : exists cs, t !! root = Some (mkShape cs None no_key (Some []) 1).
Proof using W. apply (wf_root _ _ _ _ _ _ W). Qed.

(** Siblings, and more generally a node is a child of its parent only. *)
Lemma wf_parent_unique p pd k c n nd :
  p ∈ L -> t !! p = Some pd -> dict_get k (s_children pd) = Some c ->
  t !! c = Some nd -> s_parent nd = Some n -> n = p.
Proof using W.
  intros Hp Htp Hk Hc Hn. destruct (wf_child_link p pd k c Hp Htp Hk) as (cd & ? & ? & ? & ? & ? & _).
  by simplify_eq.
Qed.

End wf_facts.
