(* ===== verification/RadixSteps.v ===== *)
(** * RadixSteps: how the structural steps act on well-formed trees

    The three ways the cache changes the shape of its tree (splitting a node,
    adding a leaf, removing a leaf) and the one way it changes a lock count,
    each stated by what the new tree holds at every node, with the parts of
    the invariant it preserves. *)

From S2P Require Import Prelude RadixKey RadixNode RadixTree RadixInv.

(** The first page of a truncated key is the key's. *)
Lemma child_key_upto k ps m :
  0 < ps -> ps <= m -> m <= key_len k -> child_key (key_upto k m) ps = child_key k ps.
Proof.
  intros Hps Hm Hk. destruct (key_upto_flags k m) as [He Hb].
  apply child_key_eq_iff; rewrite ?key_upto_len; try done; try lia.
  split; [done|]. rewrite key_upto_units, take_take. f_equal; lia.
Qed.

(** ** Splitting a node *)

Section split.
Context {ps : nat} {bg : bool} {t T : gmap nat shape} {root : nat} {L : gset nat}
        {P : nat -> list kunit} (W : tree_wf ps bg t root L P).
Context (child new p m : nat) (cd pd : shape) (cv : list Z) (ck rk : ckey).
Context (HcL : child ∈ L) (Hcr : child <> root) (Hcd : t !! child = Some cd)
        (Hpar : s_parent cd = Some p) (Hpd : t !! p = Some pd) (Hcv : s_value cd = Some cv)
        (Hfresh : t !! new = None) (Hm : 0 < m < s_len cd) (Hmp : (ps | m))
        (Hck : child_key (s_key cd) ps = Ok ck)
        (Hrk : child_key (key_from (s_key cd) m) ps = Ok rk).
Context (HTnew : T !! new = Some (mkShape [(rk, child)] (Some p) (key_upto (s_key cd) m)
                                    (Some (take m cv)) (s_lock cd)))
        (HTchild : T !! child = Some (mkShape (s_children cd) (Some new) (key_from (s_key cd) m)
                                        (Some (drop m cv)) (s_lock cd)))
        (HTp : T !! p = Some (mkShape (dict_set ck new (s_children pd)) (s_parent pd)
                                (s_key pd) (s_value pd) (s_lock pd)))
        (HToth : forall n, n <> new -> n <> child -> n <> p -> T !! n = t !! n).

Definition split_path : nat -> list kunit := <[new := P p ++ take m (s_units cd)]> P.

Lemma split_facts :
  p ∈ L /\ p <> child /\ (new ∉ L) /\ node_ok ps bg cd /\ link_ok ps root child p cd pd P /\
  dict_get ck (s_children pd) = Some child /\ ps <= m /\ length cv = s_len cd.
Proof using All.
  destruct (wf_below W child cd HcL Hcr Hcd) as (p' & pd' & Hp' & HpL & Hpd' & Hne & Hok & Hlk & _).
  simplify_eq. repeat split; try done; try apply Hok; try apply Hlk.
  - intros HnL. destruct (wf_lookup W new HnL). congruence.
  - destruct (lk_child _ _ _ _ _ _ _ Hlk) as (ck' & ? & ?). congruence.
  - apply Nat.divide_pos_le; [lia|done].
  - destruct (ok_value _ _ _ Hok) as (v & ? & ?). congruence.
Qed.

(** Away from the split pair a node keeps everything but, at the parent, the
    redirected child entry. *)
Lemma split_other n nd :
  n <> new -> n <> child -> t !! n = Some nd ->
  exists nd', T !! n = Some nd' /\ s_parent nd' = s_parent nd /\ s_key nd' = s_key nd /\
    s_value nd' = s_value nd /\ s_lock nd' = s_lock nd /\
    s_children nd' = (if decide (n = p) then dict_set ck new (s_children nd) else s_children nd).
Proof using All.
  intros Hn Hc Ht. destruct (decide (n = p)) as [->|Hp].
  - simplify_eq. rewrite HTp. eauto 10.
  - rewrite HToth by done. eauto 10.
Qed.

Lemma split_path_old n : n ∈ L -> split_path n = P n.
Proof using All.
  intros Hn. destruct split_facts as (_ & _ & HnL & _).
  unfold split_path. rewrite fn_lookup_insert_ne; [done|]. by intros ->.
Qed.

Lemma split_new_ok nd q qd :
  T !! new = Some nd -> s_parent nd = Some q -> T !! q = Some qd ->
  node_ok ps bg nd /\ link_ok ps root new q nd qd split_path.
Proof using All.
  destruct split_facts as (HpL & Hpc & HnL & Hok & Hlk & Hget & Hpm & Hlen).
  destruct (key_upto_flags (s_key cd) m) as [Heu Hbu]. unfold s_len in *.
  pose proof (wf_ps _ _ _ _ _ _ W) as Hps.
  intros Hn Hq Hqd. rewrite HTnew in Hn. simplify_eq/=. split.
  - split; unfold s_len; simpl; rewrite ?key_upto_len, ?Nat.min_l by lia; try done; [lia|..].
    + rewrite Hbu. apply Hok.
    + eexists. split; [done|]. rewrite length_take. lia.
    + apply Hok.
  - split; simpl.
    + exists ck. rewrite child_key_upto by lia. split; [done|]. by rewrite dict_get_set, decide_True.
    + rewrite (split_path_old p HpL). unfold split_path. rewrite fn_lookup_insert.
      unfold s_units; simpl. by rewrite key_upto_units.
    + intros Hpr. rewrite Heu. by apply Hlk.
Qed.

Lemma split_child_ok nd q qd :
  T !! child = Some nd -> s_parent nd = Some q -> T !! q = Some qd ->
  node_ok ps bg nd /\ link_ok ps root child q nd qd split_path.
Proof using All.
  destruct split_facts as (HpL & Hpc & HnL & Hok & Hlk & Hget & Hpm & Hlen).
  destruct (key_upto_flags (s_key cd) m) as [Heu _].
  destruct (key_from_flags (s_key cd) m) as [Hef Hbf]. unfold s_len in *.
  intros Hn Hq Hqd. rewrite HTchild in Hn. simplify_eq/=. split.
  - split; unfold s_len in *; simpl; rewrite ?key_from_len.
    + lia.
    + apply Nat.divide_sub_r; [apply Hok|done].
    + rewrite Hbf. apply Hok.
    + eexists. split; [done|]. rewrite length_drop. lia.
    + apply Hok.
  - split; simpl.
    + exists rk. split; [done|]. by rewrite decide_True.
    + rewrite split_path_old by done. rewrite (lk_path _ _ _ _ _ _ _ Hlk).
      unfold split_path. rewrite fn_lookup_insert, <- app_assoc. f_equal.
      unfold s_units; simpl. rewrite key_from_units. symmetry. apply take_drop.
    + by rewrite Heu, Hef.
Qed.

(** The parent of an old node still lists it, under the same namespace. *)
Lemma split_old_parent n nd q qd :
  n ∈ L -> n <> child -> t !! n = Some nd -> q ∈ L -> t !! q = Some qd ->
  link_ok ps root n q nd qd P ->
  exists qd', T !! q = Some qd' /\
    (exists c, child_key (s_key nd) ps = Ok c /\ dict_get c (s_children qd') = Some n) /\
    extra_key (s_key qd') = extra_key (s_key qd).
Proof using All.
  destruct split_facts as (HpL & Hpc & HnL & Hok & Hlk & Hget & Hpm & Hlen).
  intros Hn Hnc Hnd HqL Hqd Hlkn. destruct (lk_child _ _ _ _ _ _ _ Hlkn) as (c & Hc & Hg).
  destruct (key_from_flags (s_key cd) m) as [Hef _].
  destruct (decide (q = child)) as [->|Hqc].
  - rewrite HTchild. simplify_eq. eexists. split; [done|]. simpl. split; [eauto|done].
  - destruct (split_other q qd) as (qd' & Hqd' & _ & Ek & _ & _ & Ec); [|done|done|].
    { intros ->. done. }
    exists qd'. split; [done|]. split; [|by rewrite Ek].
    exists c. split; [done|]. rewrite Ec. case_decide as Eq; [|done]. subst q. simplify_eq.
    rewrite dict_get_set, decide_False; [done|]. intros ->. congruence.
Qed.

Lemma split_wf_node n : n ∈ {[new]} ∪ L -> n <> root -> exists nd q qd,
  T !! n = Some nd /\ s_parent nd = Some q /\ q ∈ {[new]} ∪ L /\ T !! q = Some qd /\
  node_ok ps bg nd /\ link_ok ps root n q nd qd split_path.
Proof using All.
  destruct split_facts as (HpL & Hpc & HnL & _). intros Hn Hr.
  destruct (decide (n = new)) as [->|Hnn].
  { eexists _, p, _. split; [exact HTnew|]. split; [done|]. split; [set_solver|].
    split; [exact HTp|]. by eapply split_new_ok. }
  destruct (decide (n = child)) as [->|Hnc].
  { eexists _, new, _. split; [exact HTchild|]. split; [done|]. split; [set_solver|].
    split; [exact HTnew|]. by eapply split_child_ok. }
  assert (HnL' : n ∈ L) by set_solver. destruct (wf_lookup W n HnL') as [nd Hnd].
  destruct (wf_below W n nd HnL' Hr Hnd) as (q & qd & Hq & HqL & Hqd & Hqn & Hokn & Hlkn & _).
  destruct (split_other n nd Hnn Hnc Hnd) as (nd' & Hnd' & E1 & E2 & E3 & E4 & E5).
  destruct (split_old_parent n nd q qd) as (qd' & Hqd' & (c & Hc & Hg) & Hqe); try done.
  exists nd', q, qd'. rewrite E1. split; [done|]. split; [done|]. split; [set_solver|].
  split; [done|]. split.
  - destruct Hokn as [K1 K2 K3 K4 K5]. split; unfold s_len in *; rewrite ?E2, ?E3, ?E4; done.
  - split.
    + exists c. by rewrite E2.
    + rewrite !split_path_old by done. unfold s_units. rewrite E2. apply Hlkn.
    + intros Hqr. rewrite E2, Hqe. by apply Hlkn.
Qed.

(** A child entry after the split is the new one or an old one, but the split
    node is now reached through the new node only. *)
Lemma split_entries q qd k c :
  q ∈ L -> T !! q = Some qd -> dict_get k (s_children qd) = Some c ->
  (k = ck /\ q = p /\ c = new) \/
  (c ∈ L /\ c <> child /\ exists qd0, t !! q = Some qd0 /\ dict_get k (s_children qd0) = Some c).
Proof using All.
  destruct split_facts as (HpL & Hpc & HnL & Hok & Hlk & Hget & Hpm & Hlen).
  intros HqL Hqd Hk. destruct (wf_lookup W q HqL) as [qd0 Hqd0].
  assert (Hqn : q <> new) by (by intros ->).
  destruct (decide (q = child)) as [->|Hqc].
  - rewrite HTchild in Hqd. simplify_eq/=. right.
    destruct (wf_child_link W child cd k c HqL Hcd Hk) as (? & HcL' & _ & ? & _). eauto.
  - destruct (split_other q qd0 Hqn Hqc Hqd0) as (qd' & Hqd' & _ & _ & _ & _ & Ec).
    simplify_eq. rewrite Ec in Hk. case_decide as Eq.
    + subst q. assert (qd0 = pd) as -> by congruence. rewrite dict_get_set in Hk.
      case_decide; [simplify_eq; by left|]. right.
      destruct (wf_child_link W p pd k c HpL Hpd Hk) as (cd' & HcL' & _ & _ & Hcd' & _ & Hck' & _).
      split; [done|]. split; [intros ->; assert (cd' = cd) as -> by congruence; congruence|eauto].
    + right. destruct (wf_child_link W q qd0 k c HqL Hqd0 Hk) as (cd' & HcL' & _ & _ & Hcd' & Hp' & _).
      split; [done|]. split; [intros ->; assert (cd' = cd) as -> by congruence; congruence|eauto].
Qed.

Lemma split_wf_child q qd k c :
  q ∈ {[new]} ∪ L -> T !! q = Some qd -> dict_get k (s_children qd) = Some c ->
  c ∈ {[new]} ∪ L /\ c <> root /\
  exists cd', T !! c = Some cd' /\ s_parent cd' = Some q /\ child_key (s_key cd') ps = Ok k.
Proof using All.
  destruct split_facts as (HpL & Hpc & HnL & Hok & Hlk & Hget & Hpm & Hlen).
  assert (Hrn : new <> root) by (intros ->; apply HnL, (wf_root_in _ _ _ _ _ _ W)).
  pose proof (wf_ps _ _ _ _ _ _ W) as Hps.
  intros Hq Hqd Hk. destruct (decide (q = new)) as [->|Hqn].
  { rewrite HTnew in Hqd. simplify_eq/=. case_decide; simplify_eq.
    split; [set_solver|]. split; [done|]. eexists. split; [exact HTchild|]. done. }
  assert (HqL : q ∈ L) by set_solver.
  destruct (split_entries q qd k c HqL Hqd Hk) as [(-> & -> & ->)|(HcL' & Hcc & qd0 & Hqd0 & Hgk)].
  { split; [set_solver|]. split; [done|]. eexists. split; [exact HTnew|]. split; [done|].
    simpl. rewrite child_key_upto by (unfold s_len in *; lia). done. }
  destruct (wf_child_link W q qd0 k c HqL Hqd0 Hgk) as (cd' & _ & Hcr' & Hcq & Hcd' & Hp' & Hck' & _).
  split; [set_solver|]. split; [done|].
  destruct (split_other c cd') as (cd'' & ? & E1 & E2 & _); [by intros ->|done|done|].
  exists cd''. rewrite E1, E2. done.
Qed.

Lemma split_wf : tree_wf ps bg T root ({[new]} ∪ L) split_path.
Proof using All.
  destruct split_facts as (HpL & Hpc & HnL & _).
  assert (Hrn : root <> new) by (intros <-; apply HnL, (wf_root_in _ _ _ _ _ _ W)).
  split; [apply W|apply elem_of_union_r, W|..|exact split_wf_node|exact split_wf_child|].
  - destruct (wf_root_key W) as [cs Hroot]. destruct (decide (root = p)) as [<-|].
    + simplify_eq. rewrite HTp. eauto.
    + rewrite HToth by congruence. eauto.
  - rewrite split_path_old by apply W. apply W.
  - intros q qd Hq Hqd. destruct (decide (q = new)) as [->|Hqn].
    { rewrite HTnew in Hqd. simplify_eq. simpl. apply NoDup_singleton. }
    assert (HqL : q ∈ L) by set_solver. destruct (wf_lookup W q HqL) as [qd0 Hqd0].
    pose proof (wf_nodup _ _ _ _ _ _ W q qd0 HqL Hqd0).
    destruct (decide (q = child)) as [->|Hqc].
    + rewrite HTchild in Hqd. by simplify_eq.
    + destruct (split_other q qd0 Hqn Hqc Hqd0) as (qd' & Hqd' & _ & _ & _ & _ & Ec).
      simplify_eq. rewrite Ec. case_decide; [by apply dict_set_NoDup|done].
Qed.

(** Lock counts and bookkeeping are not affected by a split. *)
Lemma split_lock_at n : n <> new -> lock_at T n = lock_at t n.
Proof using All.
  intros Hn. unfold lock_at. destruct (decide (n = child)) as [->|Hc]; [by rewrite HTchild, Hcd|].
  destruct (decide (n = p)) as [->|Hp]; [by rewrite HTp, Hpd|]. by rewrite HToth.
Qed.

Lemma split_children_locks n nd nd' :
  n ∈ L -> t !! n = Some nd -> T !! n = Some nd' -> children_locks T nd' = children_locks t nd.
Proof using All.
  destruct split_facts as (HpL & Hpc & HnL & Hok & Hlk & Hget & Hpm & Hlen).
  intros Hn Hnd Hnd'. assert (Hext : dict_sum (lock_at T) (s_children nd) = dict_sum (lock_at t) (s_children nd)).
  { apply dict_sum_ext. intros k v Hin. apply split_lock_at. intros ->.
    apply (dict_in_get _ _ _ (wf_nodup _ _ _ _ _ _ W n nd Hn Hnd)) in Hin.
    destruct (wf_child_link W n nd k new Hn Hnd Hin) as (? & ? & _). done. }
  destruct (decide (n = child)) as [->|Hc].
  { rewrite HTchild in Hnd'. by simplify_eq. }
  destruct (split_other n nd) as (nd'' & Hnd'' & _ & _ & _ & _ & Ec); [by intros ->|done|done|].
  simplify_eq. unfold children_locks. rewrite Ec. case_decide as Ep; [|exact Hext].
  subst n. assert (nd = pd) as -> by congruence.
  fold (dict_sum (lock_at T) (dict_set ck new (s_children pd))).
  rewrite dict_sum_set by (by eapply W). rewrite Hget. simpl.
  assert (lock_at T new = lock_at T child) as ->.
  { unfold lock_at. by rewrite HTnew, HTchild. }
  unfold dict_sum in *. rewrite Hext. lia.
Qed.

Lemma split_locks H pend :
  H new = 0%Z -> (forall m0 d, pend = Some (m0, d) -> m0 ∈ L) ->
  locks_ok t root L H pend -> locks_ok T root ({[new]} ∪ L) H pend.
Proof using All.
  destruct split_facts as (HpL & Hpc & HnL & Hok & Hlk & Hget & Hpm & Hlen).
  intros HH Hpend Hlocks n nd Hn Hr Hnd. destruct (decide (n = new)) as [->|Hnn].
  - rewrite HTnew in Hnd. simplify_eq. rewrite HH. unfold children_locks; csimpl.
    unfold lock_at at 1. rewrite HTchild. simpl.
    destruct pend as [[m0 d]|]; [|lia]. rewrite decide_False; [lia|]. intros ->.
    apply HnL. by eapply Hpend.
  - assert (HnL' : n ∈ L) by set_solver. destruct (wf_lookup W n HnL') as [nd0 Hnd0].
    rewrite (split_children_locks n nd0 nd) by done. rewrite <- (Hlocks n nd0) by done. f_equal.
    pose proof (split_lock_at n Hnn) as Hl. unfold lock_at in Hl. by rewrite Hnd, Hnd0 in Hl.
Qed.

Lemma split_len_sum (f : shape -> Z) :
  (forall a b, s_lock a = s_lock b -> s_lock cd = s_lock a -> s_len cd = s_len a + s_len b ->
     f cd = (f a + f b)%Z) ->
  (forall a b, s_lock a = s_lock b -> s_len a = s_len b -> f a = f b) ->
  set_sum (fun n => from_option f 0%Z (T !! n)) (({[new]} ∪ L) ∖ {[root]}) =
  set_sum (fun n => from_option f 0%Z (t !! n)) (L ∖ {[root]}).
Proof using All.
  destruct split_facts as (HpL & Hpc & HnL & Hok & Hlk & Hget & Hpm & Hlen).
  assert (Hrn : new <> root) by (intros ->; apply HnL, (wf_root_in _ _ _ _ _ _ W)).
  intros Hf Hcong.
  replace (({[new]} ∪ L) ∖ {[root]}) with ({[new]} ∪ (L ∖ {[root]})) by set_solver.
  rewrite set_sum_insert by set_solver.
  rewrite (set_sum_upd (fun n => from_option f 0%Z (t !! n)) (fun n => from_option f 0%Z (T !! n))
             (L ∖ {[root]}) child (- from_option f 0%Z (T !! new))); [lia|set_solver|..].
  - rewrite Hcd, HTchild, HTnew. simpl. set (a := mkShape _ (Some p) _ _ _).
    set (b := mkShape _ (Some new) _ _ _). rewrite (Hf a b); [lia|done..|].
    subst a b. unfold s_len in *; simpl. rewrite key_upto_len, key_from_len. lia.
  - intros n Hn Hnc. assert (HnL' : n ∈ L) by set_solver. destruct (wf_lookup W n HnL') as [nd Hnd].
    destruct (split_other n nd) as (nd' & Hnd' & _ & Ek & _ & El & _); [by intros ->|done|done|].
    rewrite Hnd, Hnd'. simpl. apply Hcong; [done|]. unfold s_len. by rewrite Ek.
Qed.

Lemma split_books ev prot leaves :
  books_ok t root L ev prot leaves -> books_ok T root ({[new]} ∪ L) ev prot leaves.
Proof using All.
  destruct split_facts as (HpL & Hpc & HnL & Hok & Hlk & Hget & Hpm & Hlen).
  intros [Hev Hprot Hlv]. split.
  - rewrite Hev. symmetry.
    apply (split_len_sum (fun nd => if decide (s_lock nd = 0)%Z then Z.of_nat (s_len nd) else 0%Z)).
    + intros a b E1 E2 E3. repeat case_decide; lia.
    + intros a b E1 E2. rewrite E1, E2. done.
  - rewrite Hprot. symmetry.
    apply (split_len_sum (fun nd => if decide (s_lock nd = 0)%Z then 0%Z else Z.of_nat (s_len nd))).
    + intros a b E1 E2 E3. repeat case_decide; lia.
    + intros a b E1 E2. rewrite E1, E2. done.
  - intros n. rewrite Hlv. unfold evictable_leaf. split.
    + intros (Hn & Hr & nd & Hnd & Hl & Hc). split; [set_solver|]. split; [done|].
      destruct (decide (n = child)) as [->|Hnc].
      { simplify_eq. rewrite HTchild. eexists. done. }
      destruct (split_other n nd) as (nd' & Hnd' & _ & _ & _ & El & Ec); [by intros ->|done|done|].
      exists nd'. rewrite El, Ec. split; [done|]. split; [done|]. case_decide as Ep; [|done].
      subst n. simplify_eq. by rewrite Hc in Hget.
    + intros (Hn & Hr & nd & Hnd & Hl & Hc). destruct (decide (n = new)) as [->|Hnn].
      { rewrite HTnew in Hnd. by simplify_eq. }
      assert (HnL' : n ∈ L) by set_solver. split; [done|]. split; [done|].
      destruct (decide (n = child)) as [->|Hnc].
      { rewrite HTchild in Hnd. simplify_eq/=. eauto. }
      destruct (wf_lookup W n HnL') as [nd0 Hnd0]. exists nd0.
      destruct (split_other n nd0) as (nd' & Hnd' & _ & _ & _ & El & Ec); [done..|].
      simplify_eq. rewrite <- El. split; [done|]. split; [done|]. rewrite Ec in Hc.
      case_decide; [|done]. destruct (s_children nd0) as [|[] ?]; simpl in Hc; [done|].
      by case_decide.
Qed.

End split.

(** ** Adding a leaf *)

Section insert_leaf.
Context {ps : nat} {bg : bool} {t T : gmap nat shape} {root : nat} {L : gset nat}
        {P : nat -> list kunit} (W : tree_wf ps bg t root L P).
Context (node new : nat) (nd : shape) (k : RadixKey) (v : list Z) (ck : ckey).
Let leaf : shape := mkShape [] (Some node) k (Some v) 0.
Context (HnL : node ∈ L) (Hnd : t !! node = Some nd) (Hfresh : t !! new = None)
        (Hok : node_ok ps bg leaf) (Hck : child_key k ps = Ok ck)
        (Hnone : dict_get ck (s_children nd) = None)
        (Hns : node <> root -> extra_key (s_key nd) = extra_key k).
Context (HTnew : T !! new = Some leaf)
        (HTnode : T !! node = Some (mkShape (dict_set ck new (s_children nd)) (s_parent nd)
                                      (s_key nd) (s_value nd) (s_lock nd)))
        (HToth : forall n, n <> new -> n <> node -> T !! n = t !! n).

Definition leaf_path : nat -> list kunit := <[new := P node ++ s_units leaf]> P.

Lemma leaf_new_notin : new ∉ L.
Proof using All. intros HnL'. destruct (wf_lookup W new HnL'). congruence. Qed.

Lemma leaf_other n nd0 :
  n ∈ L -> t !! n = Some nd0 ->
  exists nd', T !! n = Some nd' /\ s_parent nd' = s_parent nd0 /\ s_key nd' = s_key nd0 /\
    s_value nd' = s_value nd0 /\ s_lock nd' = s_lock nd0 /\
    s_children nd' = (if decide (n = node) then dict_set ck new (s_children nd0) else s_children nd0).
Proof using All.
  pose proof leaf_new_notin as Hnew. intros Hn Ht.
  destruct (decide (n = node)) as [->|Hp].
  - assert (nd0 = nd) as -> by congruence. rewrite HTnode. eauto 10.
  - rewrite HToth by (done || by intros ->). eauto 10.
Qed.

Lemma leaf_path_old n : n ∈ L -> leaf_path n = P n.
Proof using All.
  intros Hn. unfold leaf_path. rewrite fn_lookup_insert_ne; [done|].
  intros <-. by apply leaf_new_notin.
Qed.

Lemma leaf_wf_node n : n ∈ {[new]} ∪ L -> n <> root -> exists nd0 q qd,
  T !! n = Some nd0 /\ s_parent nd0 = Some q /\ q ∈ {[new]} ∪ L /\ T !! q = Some qd /\
  node_ok ps bg nd0 /\ link_ok ps root n q nd0 qd leaf_path.
Proof using All.
  intros Hn Hr. destruct (decide (n = new)) as [->|Hnn].
  { eexists _, node, _. split; [exact HTnew|]. split; [done|]. split; [set_solver|].
    split; [exact HTnode|]. split; [done|]. split; simpl.
    - exists ck. split; [done|]. by rewrite dict_get_set, decide_True.
    - rewrite (leaf_path_old node HnL). unfold leaf_path. by rewrite fn_lookup_insert.
    - done. }
  assert (Hn' : n ∈ L) by set_solver. destruct (wf_lookup W n Hn') as [nd0 Hnd0].
  destruct (wf_below W n nd0 Hn' Hr Hnd0) as (q & qd & Hq & HqL & Hqd & Hqn & Hokn & Hlkn & _).
  destruct (leaf_other n nd0 Hn' Hnd0) as (nd' & Hnd' & E1 & E2 & E3 & E4 & E5).
  destruct (leaf_other q qd HqL Hqd) as (qd' & Hqd' & _ & Ek & _ & _ & Ec).
  exists nd', q, qd'. rewrite E1. split; [done|]. split; [done|]. split; [set_solver|].
  split; [done|]. split.
  - destruct Hokn as [K1 K2 K3 K4 K5]. split; unfold s_len in *; rewrite ?E2, ?E3, ?E4; done.
  - destruct (lk_child _ _ _ _ _ _ _ Hlkn) as (c & Hc & Hg). split.
    + exists c. rewrite E2, Ec. split; [done|]. case_decide as Eq; [|done]. subst q.
      assert (qd = nd) as -> by congruence. rewrite dict_get_set, decide_False; [done|].
      intros ->. congruence.
    + rewrite !leaf_path_old by done. unfold s_units. rewrite E2. apply Hlkn.
    + intros Hqr. rewrite E2, Ek. by apply Hlkn.
Qed.

Lemma leaf_wf_child q qd k0 c :
  q ∈ {[new]} ∪ L -> T !! q = Some qd -> dict_get k0 (s_children qd) = Some c ->
  c ∈ {[new]} ∪ L /\ c <> root /\
  exists cd, T !! c = Some cd /\ s_parent cd = Some q /\ child_key (s_key cd) ps = Ok k0.
Proof using All.
  pose proof leaf_new_notin as Hnew.
  intros Hq Hqd Hk. destruct (decide (q = new)) as [->|Hqn].
  { rewrite HTnew in Hqd. by simplify_eq/=. }
  assert (HqL : q ∈ L) by set_solver. destruct (wf_lookup W q HqL) as [qd0 Hqd0].
  destruct (leaf_other q qd0 HqL Hqd0) as (qd' & Hqd' & _ & _ & _ & _ & Ec).
  assert (qd' = qd) as -> by congruence. rewrite Ec in Hk.
  assert ((q = node /\ k0 = ck /\ c = new) \/ dict_get k0 (s_children qd0) = Some c)
    as [(-> & -> & ->)|Hk'].
  { case_decide; [|by right]. rewrite dict_get_set in Hk. case_decide; [|by right].
    left. by simplify_eq. }
  - split; [set_solver|]. split; [intros ->; apply Hnew, W|]. eexists. split; [exact HTnew|]. done.
  - destruct (wf_child_link W q qd0 k0 c HqL Hqd0 Hk') as (cd & HcL & Hcr & _ & Hcd & Hp & Hck0 & _).
    split; [set_solver|]. split; [done|].
    destruct (leaf_other c cd HcL Hcd) as (cd' & Hcd' & E1 & E2 & _).
    exists cd'. by rewrite E1, E2.
Qed.

Lemma leaf_wf : tree_wf ps bg T root ({[new]} ∪ L) leaf_path.
Proof using All.
  split; [apply W|apply elem_of_union_r, W|..|exact leaf_wf_node|exact leaf_wf_child|].
  - destruct (wf_root_key W) as [cs Hroot].
    destruct (leaf_other root _ (wf_root_in _ _ _ _ _ _ W) Hroot) as ([] & Hr & E1 & E2 & E3 & E4 & E5).
    simpl in *. subst. eauto.
  - rewrite leaf_path_old by apply W. apply W.
  - intros q qd Hq Hqd. destruct (decide (q = new)) as [->|Hqn].
    { rewrite HTnew in Hqd. simplify_eq. constructor. }
    assert (HqL : q ∈ L) by set_solver. destruct (wf_lookup W q HqL) as [qd0 Hqd0].
    pose proof (wf_nodup _ _ _ _ _ _ W q qd0 HqL Hqd0).
    destruct (leaf_other q qd0 HqL Hqd0) as (qd' & Hqd' & _ & _ & _ & _ & Ec).
    simplify_eq. rewrite Ec. case_decide; [by apply dict_set_NoDup|done].
Qed.

Lemma leaf_locks H :
  H new = 0%Z -> locks_ok t root L H None -> locks_ok T root ({[new]} ∪ L) H None.
Proof using All.
  pose proof leaf_new_notin as Hnew.
  intros HH Hlocks n nd0 Hn Hr Hnd0. destruct (decide (n = new)) as [->|Hnn].
  { rewrite HTnew in Hnd0. simplify_eq. rewrite HH. done. }
  assert (HnL' : n ∈ L) by set_solver. destruct (wf_lookup W n HnL') as [nd1 Hnd1].
  destruct (leaf_other n nd1 HnL' Hnd1) as (nd' & Hnd' & _ & _ & _ & El & Ec).
  assert (nd' = nd0) as -> by congruence. rewrite El, (Hlocks n nd1) by done. f_equal.
  unfold children_locks. rewrite Ec.
  assert (Hext : dict_sum (lock_at T) (s_children nd1) = dict_sum (lock_at t) (s_children nd1)).
  { apply dict_sum_ext. intros k0 c Hin.
    apply (dict_in_get _ _ _ (wf_nodup _ _ _ _ _ _ W n nd1 HnL' Hnd1)) in Hin.
    destruct (wf_child_link W n nd1 k0 c HnL' Hnd1 Hin) as (cd & HcL & _ & _ & Hcd & _).
    destruct (leaf_other c cd HcL Hcd) as (cd' & Hcd' & _ & _ & _ & El' & _).
    unfold lock_at. by rewrite Hcd, Hcd'. }
  case_decide as E; [|symmetry; exact Hext]. subst n.
  fold (dict_sum (lock_at T) (dict_set ck new (s_children nd1))).
  assert (nd1 = nd) as -> by congruence.
  assert (lock_at T new = 0%Z) as Hl0 by (unfold lock_at; by rewrite HTnew).
  rewrite dict_sum_set, Hnone, Hl0 by (by eapply W). simpl.
  unfold dict_sum in *. rewrite Hext. lia.
Qed.

Lemma leaf_sum (f : shape -> Z) :
  (forall a b, s_lock a = s_lock b -> s_len a = s_len b -> f a = f b) ->
  set_sum (fun n => from_option f 0%Z (T !! n)) (({[new]} ∪ L) ∖ {[root]}) =
  (f leaf + set_sum (fun n => from_option f 0%Z (t !! n)) (L ∖ {[root]}))%Z.
Proof using All.
  pose proof leaf_new_notin as Hnew. intros Hcong.
  assert (Hrn : new <> root) by (intros ->; apply Hnew, (wf_root_in _ _ _ _ _ _ W)).
  replace (({[new]} ∪ L) ∖ {[root]}) with ({[new]} ∪ (L ∖ {[root]})) by set_solver.
  rewrite set_sum_insert by set_solver. rewrite HTnew. simpl. f_equal.
  apply set_sum_ext. intros n Hn. assert (HnL' : n ∈ L) by set_solver.
  destruct (wf_lookup W n HnL') as [nd0 Hnd0].
  destruct (leaf_other n nd0 HnL' Hnd0) as (nd' & Hnd' & _ & Ek & _ & El & _).
  rewrite Hnd0, Hnd'. simpl. apply Hcong; [done|]. unfold s_len. by rewrite Ek.
Qed.

Lemma leaf_books ev prot leaves :
  books_ok t root L ev prot leaves ->
  books_ok T root ({[new]} ∪ L) (ev + Z.of_nat (key_len k)) prot (leaves ∖ {[node]} ∪ {[new]}).
Proof using All.
  pose proof leaf_new_notin as Hnew. intros [Hev Hprot Hlv]. split.
  - rewrite Hev. symmetry.
    etransitivity; [apply (leaf_sum (fun nd => if decide (s_lock nd = 0)%Z then Z.of_nat (s_len nd) else 0%Z))|].
    + intros a b E1 E2. by rewrite E1, E2.
    + simpl. apply Z.add_comm.
  - rewrite Hprot. symmetry.
    etransitivity; [apply (leaf_sum (fun nd => if decide (s_lock nd = 0)%Z then 0%Z else Z.of_nat (s_len nd)))|].
    + intros a b E1 E2. by rewrite E1, E2.
    + simpl. done.
  - intros n. rewrite elem_of_union, elem_of_difference, !elem_of_singleton, Hlv.
    unfold evictable_leaf. split.
    + intros [ [ (Hn & Hr & nd0 & Hnd0 & Hl & Hc) Hnn ] | -> ].
      * split; [set_solver|]. split; [done|].
        destruct (leaf_other n nd0 Hn Hnd0) as (nd' & Hnd' & _ & _ & _ & El & Ec).
        exists nd'. rewrite El, Ec, decide_False by done. done.
      * split; [set_solver|]. split; [intros ->; apply Hnew, W|]. eauto.
    + intros (Hn & Hr & nd0 & Hnd0 & Hl & Hc). destruct (decide (n = new)) as [->|Hnn]; [by right|].
      left. assert (HnL' : n ∈ L) by set_solver. destruct (wf_lookup W n HnL') as [nd1 Hnd1].
      destruct (leaf_other n nd1 HnL' Hnd1) as (nd' & Hnd' & _ & _ & _ & El & Ec).
      assert (nd' = nd0) as -> by congruence. rewrite Ec in Hc. case_decide as E.
      * destruct (s_children nd1) as [|[] ?]; simpl in Hc; [done|]. by case_decide.
      * split; [|done]. split; [done|]. split; [done|]. exists nd1. by rewrite <- El.
Qed.

End insert_leaf.

(** ** Removing a leaf *)

Section delete_leaf.
Context {ps : nat} {bg : bool} {t T : gmap nat shape} {root : nat} {L : gset nat}
        {P : nat -> list kunit} (W : tree_wf ps bg t root L P).
Context (x p : nat) (xd pd : shape) (ck : ckey).
Context (HxL : x ∈ L) (Hxr : x <> root) (Hxd : t !! x = Some xd) (Hleaf : s_children xd = [])
        (Hunl : s_lock xd = 0%Z) (Hpar : s_parent xd = Some p) (Hpd : t !! p = Some pd)
        (Hck : child_key (s_key xd) ps = Ok ck).
Let pd' : shape := mkShape (dict_pop ck (s_children pd)) (s_parent pd) (s_key pd) (s_value pd) (s_lock pd).
Context (HTp : T !! p = Some pd') (HToth : forall n, n <> p -> T !! n = t !! n).

Lemma del_facts :
  p ∈ L /\ p <> x /\ node_ok ps bg xd /\ dict_get ck (s_children pd) = Some x.
Proof using All.
  destruct (wf_below W x xd HxL Hxr Hxd) as (q & qd & Hq & HqL & Hqd & Hne & Hok & Hlk & _).
  assert (q = p) as -> by congruence. assert (qd = pd) as -> by congruence.
  split; [done|]. split; [done|]. split; [done|].
  destruct (lk_child _ _ _ _ _ _ _ Hlk) as (c & Hc & Hg). congruence.
Qed.

Lemma del_other n nd :
  t !! n = Some nd ->
  exists nd', T !! n = Some nd' /\ s_parent nd' = s_parent nd /\ s_key nd' = s_key nd /\
    s_value nd' = s_value nd /\ s_lock nd' = s_lock nd /\
    s_children nd' = (if decide (n = p) then dict_pop ck (s_children nd) else s_children nd).
Proof using All.
  intros Ht. destruct (decide (n = p)) as [->|Hp].
  - assert (nd = pd) as -> by congruence. rewrite HTp. eauto 10.
  - rewrite HToth by done. eauto 10.
Qed.

(** The entries that are left are those that do not name the leaf. *)
Lemma del_entries q qd qd0 k c :
  q ∈ L -> t !! q = Some qd0 -> T !! q = Some qd ->
  dict_get k (s_children qd) = Some c <-> dict_get k (s_children qd0) = Some c /\ c <> x.
Proof using All.
  destruct del_facts as (HpL & Hpx & Hok & Hget). intros HqL Hqd0 Hqd.
  destruct (del_other q qd0 Hqd0) as (qd' & Hqd' & _ & _ & _ & _ & Ec).
  assert (qd' = qd) as -> by congruence. rewrite Ec. case_decide as E.
  - subst q. assert (qd0 = pd) as -> by congruence. rewrite dict_get_pop. case_decide as E; subst.
    + split; [done|]. intros [H1 H2]. congruence.
    + split; [|by intros [? _]]. intros Hk. split; [done|]. intros ->.
      destruct (wf_child_link W p pd k x HpL Hpd Hk) as (cd & _ & _ & _ & Hcd & _ & Hck' & _). congruence.
  - split; [|by intros [? _]]. intros Hk. split; [done|]. intros ->.
    destruct (wf_child_link W q qd0 k x HqL Hqd0 Hk) as (cd & _ & _ & _ & Hcd & Hq & _). congruence.
Qed.

Lemma del_parent_ne n nd : n ∈ L -> n <> root -> t !! n = Some nd -> s_parent nd <> Some x.
Proof using All.
  intros Hn Hr Hnd Hp. destruct (wf_below W n nd Hn Hr Hnd) as (q & qd & Hq & HqL & Hqd & _ & _ & Hlk & _).
  assert (q = x) as -> by congruence. assert (qd = xd) as -> by congruence.
  destruct (lk_child _ _ _ _ _ _ _ Hlk) as (c & _ & Hg). by rewrite Hleaf in Hg.
Qed.

Lemma del_wf : tree_wf ps bg T root (L ∖ {[x]}) P.
Proof using All.
  destruct del_facts as (HpL & Hpx & Hok & Hget). split; [apply W| | |apply W|..].
  - pose proof (wf_root_in _ _ _ _ _ _ W). set_solver.
  - destruct (wf_root_key W) as [cs Hroot].
    destruct (del_other root _ Hroot) as ([] & Hr & E1 & E2 & E3 & E4 & E5). simpl in *. subst. eauto.
  - intros n Hn Hr. assert (HnL : n ∈ L) by set_solver. destruct (wf_lookup W n HnL) as [nd Hnd].
    destruct (wf_below W n nd HnL Hr Hnd) as (q & qd & Hq & HqL & Hqd & Hqn & Hokn & Hlkn & _).
    destruct (del_other n nd Hnd) as (nd' & Hnd' & E1 & E2 & E3 & E4 & E5).
    destruct (del_other q qd Hqd) as (qd' & Hqd' & _ & Ek & _).
    exists nd', q, qd'. rewrite E1. split; [done|]. split; [done|].
    pose proof (del_parent_ne n nd HnL Hr Hnd). split; [set_solver by congruence|]. split; [done|]. split.
    + destruct Hokn as [K1 K2 K3 K4 K5]. split; unfold s_len in *; rewrite ?E2, ?E3, ?E4; done.
    + destruct (lk_child _ _ _ _ _ _ _ Hlkn) as (c & Hc & Hg). split.
      * exists c. rewrite E2. split; [done|].
        apply (del_entries q qd' qd c n HqL Hqd Hqd'). split; [done|]. set_solver.
      * unfold s_units. rewrite E2. apply Hlkn.
      * intros Hqr. rewrite E2, Ek. by apply Hlkn.
  - intros q qd k c Hq Hqd Hk. assert (HqL : q ∈ L) by set_solver.
    destruct (wf_lookup W q HqL) as [qd0 Hqd0].
    apply (del_entries q qd qd0 k c HqL Hqd0 Hqd) in Hk as [Hk Hcx].
    destruct (wf_child_link W q qd0 k c HqL Hqd0 Hk) as (cd & HcL & Hcr & _ & Hcd & Hp & Hck0 & _).
    split; [set_solver|]. split; [done|].
    destruct (del_other c cd Hcd) as (cd' & Hcd' & E1 & E2 & _). exists cd'. by rewrite E1, E2.
  - intros q qd Hq Hqd. assert (HqL : q ∈ L) by set_solver. destruct (wf_lookup W q HqL) as [qd0 Hqd0].
    pose proof (wf_nodup _ _ _ _ _ _ W q qd0 HqL Hqd0).
    destruct (del_other q qd0 Hqd0) as (qd' & Hqd' & _ & _ & _ & _ & Ec).
    simplify_eq. rewrite Ec. case_decide; [by apply dict_pop_NoDup|done].
Qed.

Lemma del_locks H : locks_ok t root L H None -> locks_ok T root (L ∖ {[x]}) H None.
Proof using All.
  destruct del_facts as (HpL & Hpx & Hok & Hget). intros Hlocks n nd0 Hn Hr Hnd0.
  assert (HnL : n ∈ L) by set_solver. destruct (wf_lookup W n HnL) as [nd Hnd].
  destruct (del_other n nd Hnd) as (nd' & Hnd' & _ & _ & _ & El & Ec).
  assert (nd' = nd0) as -> by congruence. rewrite El, (Hlocks n nd) by done. f_equal.
  assert (Hl : forall c, lock_at T c = lock_at t c).
  { intros c. unfold lock_at. destruct (decide (c = p)) as [->|]; [by rewrite HTp, Hpd|by rewrite HToth]. }
  unfold children_locks. rewrite Ec.
  assert (Hext : forall d : list (ckey * nat), dict_sum (lock_at T) d = dict_sum (lock_at t) d).
  { intros d. apply dict_sum_ext. intros. apply Hl. }
  case_decide as E; [|symmetry; apply Hext]. subst n. assert (nd = pd) as -> by congruence.
  fold (dict_sum (lock_at T) (dict_pop ck (s_children pd))). rewrite Hext, dict_sum_pop, Hget by (by eapply W).
  assert (lock_at t x = 0%Z) as Hl0 by (unfold lock_at; by rewrite Hxd). simpl. rewrite Hl0.
  unfold dict_sum. lia.
Qed.

Lemma del_sum (f : shape -> Z) :
  (forall a b, s_lock a = s_lock b -> s_len a = s_len b -> f a = f b) ->
  set_sum (fun n => from_option f 0%Z (T !! n)) ((L ∖ {[x]}) ∖ {[root]}) =
  (set_sum (fun n => from_option f 0%Z (t !! n)) (L ∖ {[root]}) - f xd)%Z.
Proof using All.
  intros Hcong. replace ((L ∖ {[x]}) ∖ {[root]}) with ((L ∖ {[root]}) ∖ {[x]}) by set_solver.
  rewrite (set_sum_delete (fun n => from_option f 0%Z (t !! n)) (L ∖ {[root]}) x) by set_solver.
  rewrite Hxd. simpl. rewrite (set_sum_ext (fun n => from_option f 0%Z (T !! n)) (fun n => from_option f 0%Z (t !! n))).
  - lia.
  - intros n Hn. assert (HnL : n ∈ L) by set_solver. destruct (wf_lookup W n HnL) as [nd Hnd].
    destruct (del_other n nd Hnd) as (nd' & Hnd' & _ & Ek & _ & El & _).
    rewrite Hnd, Hnd'. simpl. apply Hcong; [done|]. unfold s_len. by rewrite Ek.
Qed.

Lemma del_books ev prot leaves :
  books_ok t root L ev prot leaves ->
  books_ok T root (L ∖ {[x]}) (ev - Z.of_nat (s_len xd)) prot
    (if decide (p <> root /\ s_lock pd = 0%Z /\ s_children pd' = [])
     then leaves ∖ {[x]} ∪ {[p]} else leaves ∖ {[x]} ∖ {[p]}).
Proof using All.
  destruct del_facts as (HpL & Hpx & Hok & Hget). intros [Hev Hprot Hlv].
  assert (Hp : evictable_leaf T root (L ∖ {[x]}) p <->
               p <> root /\ s_lock pd = 0%Z /\ s_children pd' = []).
  { unfold evictable_leaf. rewrite HTp. split.
    - intros (_ & Hr & nd & Hnd & Hl & Hc). simplify_eq. done.
    - intros (Hr & Hl & Hc). split; [set_solver|]. split; [done|]. eexists. done. }
  assert (Ho : forall n, n <> p -> evictable_leaf T root (L ∖ {[x]}) n <-> n ∈ leaves ∖ {[x]}).
  { intros n Hn. rewrite elem_of_difference, Hlv. unfold evictable_leaf.
    rewrite HToth, elem_of_difference by done. tauto. }
  split.
  - rewrite Hev. symmetry.
    etransitivity; [apply (del_sum (fun nd => if decide (s_lock nd = 0)%Z then Z.of_nat (s_len nd) else 0%Z))|].
    + intros a b E1 E2. by rewrite E1, E2.
    + rewrite decide_True by done. done.
  - rewrite Hprot. symmetry.
    etransitivity; [apply (del_sum (fun nd => if decide (s_lock nd = 0)%Z then 0%Z else Z.of_nat (s_len nd)))|].
    + intros a b E1 E2. by rewrite E1, E2.
    + rewrite decide_True by done. apply Z.sub_0_r.
  - intros n. destruct (decide (n = p)) as [->|Hn].
    + rewrite Hp. case_decide; set_solver.
    + rewrite Ho by done. case_decide; set_solver.
Qed.

End delete_leaf.

(** ** Changing one lock count *)

Section bump.
Context {ps : nat} {bg : bool} {t T : gmap nat shape} {root : nat} {L : gset nat}
        {P : nat -> list kunit} (W : tree_wf ps bg t root L P).
Context (n : nat) (nd : shape) (d : Z).
Let nd' : shape := mkShape (s_children nd) (s_parent nd) (s_key nd) (s_value nd) (s_lock nd + d).
Context (HnL : n ∈ L) (Hnr : n <> root) (Hnd : t !! n = Some nd) (Hpos : (0 <= s_lock nd + d)%Z).
Context (HTn : T !! n = Some nd') (HToth : forall m, m <> n -> T !! m = t !! m).

Lemma bump_other m md :
  t !! m = Some md ->
  exists md', T !! m = Some md' /\ s_parent md' = s_parent md /\ s_key md' = s_key md /\
    s_value md' = s_value md /\ s_children md' = s_children md /\
    s_lock md' = (s_lock md + if decide (m = n) then d else 0)%Z.
Proof using All.
  intros Ht. destruct (decide (m = n)) as [->|Hn].
  - assert (md = nd) as -> by congruence. rewrite HTn. eauto 10.
  - rewrite HToth, Z.add_0_r by done. eauto 10.
Qed.

Lemma bump_wf : tree_wf ps bg T root L P.
Proof using All.
  split; [apply W|apply W| |apply W|..].
  - destruct (wf_root_key W) as [cs Hroot]. rewrite HToth by done. eauto.
  - intros m Hm Hr. destruct (wf_lookup W m Hm) as [md Hmd].
    destruct (wf_below W m md Hm Hr Hmd) as (q & qd & Hq & HqL & Hqd & Hqn & Hokm & Hlkm & _).
    destruct (bump_other m md Hmd) as (md' & Hmd' & E1 & E2 & E3 & E4 & E5).
    destruct (bump_other q qd Hqd) as (qd' & Hqd' & _ & Ek & _ & Ec & _).
    exists md', q, qd'. rewrite E1. split; [done|]. split; [done|]. split; [done|]. split; [done|]. split.
    + destruct Hokm as [K1 K2 K3 K4 K5]. split; unfold s_len in *; rewrite ?E2, ?E3, ?E5; try done.
      case_decide; [|lia]. subst m. assert (md = nd) as -> by congruence. done.
    + destruct Hlkm as [K1 K2 K3]. split.
      * by rewrite E2, Ec.
      * unfold s_units. by rewrite E2.
      * by rewrite E2, Ek.
  - intros q qd k c Hq Hqd Hk. destruct (wf_lookup W q Hq) as [qd0 Hqd0].
    destruct (bump_other q qd0 Hqd0) as (qd' & Hqd' & _ & _ & _ & Ec & _).
    assert (qd' = qd) as -> by congruence. rewrite Ec in Hk.
    destruct (wf_child_link W q qd0 k c Hq Hqd0 Hk) as (cd & HcL & Hcr & _ & Hcd & Hp & Hck0 & _).
    split; [done|]. split; [done|].
    destruct (bump_other c cd Hcd) as (cd' & Hcd' & E1 & E2 & _). exists cd'. by rewrite E1, E2.
  - intros q qd Hq Hqd. destruct (wf_lookup W q Hq) as [qd0 Hqd0].
    destruct (bump_other q qd0 Hqd0) as (qd' & Hqd' & _ & _ & _ & Ec & _).
    assert (qd' = qd) as -> by congruence. rewrite Ec. by eapply W.
Qed.

(** The correction pending at the node moves on to its parent. *)
Lemma bump_locks H p :
  s_parent nd = Some p ->
  locks_ok t root L H (Some (n, d)) -> locks_ok T root L H (Some (p, d)).
Proof using All.
  intros Hp Hlocks m md' Hm Hr Hmd'. destruct (wf_lookup W m Hm) as [md Hmd].
  destruct (wf_below W n nd HnL Hnr Hnd) as (q & qd & Hq & HqL & Hqd & Hqn & _ & Hlk & _).
  assert (q = p) as -> by congruence.
  destruct (bump_other m md Hmd) as (md'' & Hmd'' & _ & _ & _ & Ec & El).
  assert (md'' = md') as -> by congruence. rewrite El. unfold children_locks. rewrite Ec.
  pose proof (Hlocks m md Hm Hr Hmd) as Heq. unfold children_locks in Heq.
  assert (Hl : forall c, c <> n -> lock_at T c = lock_at t c).
  { intros c Hc. unfold lock_at. by rewrite HToth. }
  assert (Hln : lock_at T n = (lock_at t n + d)%Z).
  { unfold lock_at. by rewrite HTn, Hnd. }
  fold (dict_sum (lock_at t) (s_children md)) in Heq. fold (dict_sum (lock_at T) (s_children md)).
  destruct (decide (p = m)) as [<-|Hpm].
  - rewrite (dict_sum_upd (lock_at t) (lock_at T) _ n d); [|by eapply wf_values_nodup|..|done|done].
    + rewrite decide_False in Heq by done. rewrite decide_False by done. lia.
    + destruct (lk_child _ _ _ _ _ _ _ Hlk) as (c & _ & Hg). assert (qd = md) as -> by congruence.
      by eapply dict_get_value.
  - rewrite (dict_sum_notin (lock_at t) (lock_at T) _ n); [|..|done].
    + repeat case_decide; subst; try congruence; lia.
    + intros Hin. destruct (dict_value_get n (s_children md)) as [k Hk];
        [by apply (wf_nodup _ _ _ _ _ _ W m)|done|].
      destruct (wf_child_link W m md k n Hm Hmd Hk) as (cd & _ & _ & _ & Hcd & Hpp & _). congruence.
Qed.

Lemma bump_sum (f : shape -> Z) :
  set_sum (fun m => from_option f 0%Z (T !! m)) (L ∖ {[root]}) =
  (set_sum (fun m => from_option f 0%Z (t !! m)) (L ∖ {[root]}) + (f nd' - f nd))%Z.
Proof using All.
  apply (set_sum_upd _ _ _ n); [set_solver|..].
  - rewrite HTn, Hnd. simpl. lia.
  - intros m _ Hm. by rewrite HToth.
Qed.

Lemma bump_books ev prot leaves :
  books_ok t root L ev prot leaves ->
  books_ok T root L
    (ev + ((if decide (s_lock nd + d = 0)%Z then Z.of_nat (s_len nd) else 0)
           - (if decide (s_lock nd = 0)%Z then Z.of_nat (s_len nd) else 0)))
    (prot + ((if decide (s_lock nd + d = 0)%Z then 0 else Z.of_nat (s_len nd))
             - (if decide (s_lock nd = 0)%Z then 0 else Z.of_nat (s_len nd))))
    (if decide ((s_lock nd + d = 0)%Z /\ s_children nd = []) then leaves ∪ {[n]} else leaves ∖ {[n]}).
Proof using All.
  intros [Hev Hprot Hlv]. split.
  - rewrite Hev. symmetry.
    apply (bump_sum (fun x => if decide (s_lock x = 0)%Z then Z.of_nat (s_len x) else 0%Z)).
  - rewrite Hprot. symmetry.
    apply (bump_sum (fun x => if decide (s_lock x = 0)%Z then 0%Z else Z.of_nat (s_len x))).
  - intros m. destruct (decide (m = n)) as [->|Hm].
    + unfold evictable_leaf. rewrite HTn. case_decide as E.
      * rewrite elem_of_union, elem_of_singleton. split; [intros _|by right].
        split; [done|]. split; [done|]. eexists. split; [done|]. done.
      * rewrite elem_of_difference, elem_of_singleton. split; [by intros [_ ?]|].
        intros (_ & _ & x & Hx & ?). exfalso. apply E. by simplify_eq/=.
    + assert (evictable_leaf T root L m <-> m ∈ leaves) as ->.
      { rewrite Hlv. unfold evictable_leaf. by rewrite HToth. }
      case_decide; set_solver.
Qed.

End bump.
