(* ===== verification/RadixContent.v ===== *)
(** * RadixContent: what a radix tree stores

    The abstract content of the cache is a partial map: in a namespace, from a
    page-aligned sequence of key units to the KV slots of all its units.
    [slots_from] reads that map off the tree; the lemmas say how each
    structural step changes it. *)

From S2P Require Import Prelude RadixKey RadixNode RadixTree RadixInv RadixSteps.

(** [child_of t ek n c cd v]: [c] is a child of [n] in namespace [ek]. *)
Record child_of (t : gmap nat shape) (ek : option string) (n c : nat) (cd : shape) (v : list Z)
    : Prop := {
  co_entry : exists nd k, t !! n = Some nd /\ dict_get k (s_children nd) = Some c;
  co_node : t !! c = Some cd;
  co_ns : extra_key (s_key cd) = ek;
  co_value : s_value cd = Some v;
}.

(** The path of whole nodes from [n] down to [m]: its units and slots. *)
Inductive path_from (t : gmap nat shape) (ek : option string)
    : nat -> list kunit -> list Z -> nat -> Prop :=
| pf_nil n : path_from t ek n [] [] n
| pf_cons n c cd v q vq m :
    child_of t ek n c cd v -> path_from t ek c q vq m ->
    path_from t ek n (s_units cd ++ q) (v ++ vq) m.

(** The units [p] below [n] are cached in the slots [vs]: whole nodes, then
    whole pages of a last node. *)
Inductive slots_from (ps : nat) (t : gmap nat shape) (ek : option string)
    : nat -> list kunit -> list Z -> Prop :=
| sf_nil n : slots_from ps t ek n [] []
| sf_part n c cd v j :
    child_of t ek n c cd v -> 0 < j <= s_len cd -> (ps | j) ->
    slots_from ps t ek n (take j (s_units cd)) (take j v)
| sf_full n c cd v p vs :
    child_of t ek n c cd v -> slots_from ps t ek c p vs ->
    slots_from ps t ek n (s_units cd ++ p) (v ++ vs).

(** In namespace [ek] the sequence [p] is cached in slots [vs]. *)
Definition cached (s : RadixCache) (ek : option string) (p : list kunit) (vs : list Z) : Prop :=
  slots_from (psize s) (tree s) ek (root_node s) p vs.

Lemma path_one t ek n c cd v : child_of t ek n c cd v -> path_from t ek n (s_units cd) v c.
Proof.
  intros Hc. rewrite <- (app_nil_r v), <- (app_nil_r (s_units cd)). econstructor; [done|constructor].
Qed.

Lemma path_trans t ek n q vq m q' vq' m' :
  path_from t ek n q vq m -> path_from t ek m q' vq' m' -> path_from t ek n (q ++ q') (vq ++ vq') m'.
Proof.
  induction 1 as [|n c cd v q vq m Hc _ IH]; intros H'; [done|].
  rewrite <- !app_assoc. econstructor; [done|]. by apply IH.
Qed.

Lemma path_slots ps t ek n q vq m p vs :
  path_from t ek n q vq m -> slots_from ps t ek m p vs -> slots_from ps t ek n (q ++ p) (vq ++ vs).
Proof.
  induction 1 as [|n c cd v q vq m Hc _ IH]; intros H'; [done|].
  rewrite <- !app_assoc. eapply sf_full; [done|]. by apply IH.
Qed.

Section wf_content.
Context {ps : nat} {bg : bool} {t : gmap nat shape} {root : nat} {L : gset nat}
        {P : nat -> list kunit} (W : tree_wf ps bg t root L P) (ek : option string).

Lemma child_of_wf n c cd v :
  n ∈ L -> child_of t ek n c cd v ->
  c ∈ L /\ c <> root /\ node_ok ps bg cd /\ P c = P n ++ s_units cd /\
  length (s_units cd) = s_len cd /\ length v = s_len cd /\ ps <= s_len cd /\
  exists nd k, t !! n = Some nd /\ dict_get k (s_children nd) = Some c /\ child_key (s_key cd) ps = Ok k.
Proof using W.
  intros Hn [(nd & k & Hnd & Hk) Hcd Hek Hv].
  destruct (wf_child_link W n nd k c Hn Hnd Hk) as (cd' & HcL & Hcr & _ & Hcd' & _ & Hck & Hok & Hlk).
  assert (cd' = cd) as -> by congruence. split; [done|]. split; [done|]. split; [done|].
  split; [apply Hlk|]. split; [apply length_key_iter|].
  split; [destruct (ok_value _ _ _ Hok) as (v' & ? & ?); congruence|].
  split; [by apply (wf_page_le W)|]. eauto.
Qed.

(** Siblings in one namespace differ in their first page. *)
Lemma child_of_unique n c1 cd1 v1 c2 cd2 v2 :
  n ∈ L -> child_of t ek n c1 cd1 v1 -> child_of t ek n c2 cd2 v2 ->
  take ps (s_units cd1) = take ps (s_units cd2) -> c1 = c2 /\ cd1 = cd2 /\ v1 = v2.
Proof using W.
  intros Hn H1 H2 Ht.
  destruct (child_of_wf n c1 cd1 v1 Hn H1) as (_ & _ & Ho1 & _ & _ & _ & Hl1 & nd & k1 & Hnd & Hk1 & Hc1).
  destruct (child_of_wf n c2 cd2 v2 Hn H2) as (_ & _ & Ho2 & _ & _ & _ & Hl2 & nd' & k2 & Hnd' & Hk2 & Hc2).
  assert (child_key (s_key cd1) ps = child_key (s_key cd2) ps) as Heq.
  { apply child_key_eq_iff; unfold s_len in *.
    - rewrite (ok_bigram _ _ _ Ho1), (ok_bigram _ _ _ Ho2). done.
    - pose proof (wf_ps _ _ _ _ _ _ W). lia.
    - lia.
    - split; [|done]. rewrite (co_ns _ _ _ _ _ _ H1), (co_ns _ _ _ _ _ _ H2). done. }
  assert (k1 = k2) as -> by congruence. assert (nd' = nd) as -> by congruence.
  assert (c1 = c2) as -> by congruence. destruct H1, H2. split; [done|]. split; congruence.
Qed.

(** Two continuations that start alike start with the same child. *)
Lemma child_of_prefix n c1 cd1 v1 c2 cd2 v2 j1 j2 r1 r2 :
  n ∈ L -> child_of t ek n c1 cd1 v1 -> child_of t ek n c2 cd2 v2 ->
  ps <= j1 -> ps <= j2 ->
  take j1 (s_units cd1) ++ r1 = take j2 (s_units cd2) ++ r2 ->
  c1 = c2 /\ cd1 = cd2 /\ v1 = v2.
Proof using W.
  intros Hn H1 H2 Hj1 Hj2 Heq. eapply child_of_unique; [done..|].
  destruct (child_of_wf n c1 cd1 v1 Hn H1) as (_ & _ & _ & _ & Hu1 & _ & Hl1 & _).
  destruct (child_of_wf n c2 cd2 v2 Hn H2) as (_ & _ & _ & _ & Hu2 & _ & Hl2 & _).
  apply (f_equal (take ps)) in Heq.
  rewrite !take_app_le in Heq by (rewrite length_take; lia).
  rewrite !take_take in Heq. by rewrite !Nat.min_l in Heq by lia.
Qed.

Lemma divide_page_le j : 0 < j -> (ps | j) -> ps <= j.
Proof using W. intros. by apply Nat.divide_pos_le. Qed.

Lemma full_as_take cd : s_units cd = take (s_len cd) (s_units cd).
Proof using W. rewrite take_ge; [done|]. unfold s_units. by rewrite length_key_iter. Qed.

(** What can follow below [n] when the sequence starts with child [c]. *)
Lemma slots_from_step n c cd v q vs :
  n ∈ L -> child_of t ek n c cd v -> slots_from ps t ek n (s_units cd ++ q) vs ->
  exists vs', slots_from ps t ek c q vs' /\ vs = v ++ vs'.
Proof using W.
  intros Hn Hc Hs. destruct (child_of_wf n c cd v Hn Hc) as (_ & _ & Hok & _ & Hu & Hv & Hl & _).
  pose proof (wf_ps _ _ _ _ _ _ W) as Hps.
  remember (s_units cd ++ q) as p eqn:Hp. destruct Hs as [n|n c' cd' v' j Hc' Hj Hd|n c' cd' v' p' vs' Hc' Hs'].
  - destruct (s_units cd); simpl in *; [lia|done].
  - destruct (child_of_prefix n c cd v c' cd' v' (s_len cd) j q []) as (<- & <- & <-); try done.
    { by apply divide_page_le; [lia|]. }
    { by rewrite app_nil_r, <- full_as_take. }
    assert (j = s_len cd /\ q = []) as [-> ->].
    { apply (f_equal length) in Hp as Hlen. rewrite length_take, length_app in Hlen.
      destruct q; simpl in *; [split; [lia|done]|lia]. }
    exists []. rewrite app_nil_r, take_ge by lia. split; [constructor|done].
  - destruct (child_of_prefix n c cd v c' cd' v' (s_len cd) (s_len cd') q p') as (<- & <- & <-); try done.
    { by apply (wf_page_le W), (child_of_wf n c' cd' v' Hn Hc'). }
    { by rewrite <- !full_as_take. }
    apply app_inv_head in Hp. subst p'. eauto.
Qed.

Lemma slots_from_nil n vs : n ∈ L -> slots_from ps t ek n [] vs -> vs = [].
Proof using W.
  intros Hn Hs. remember [] as p0 eqn:Hu.
  destruct Hs as [n|n c cd v j Hc Hj Hd|n c cd v p vs' Hc Hs']; [done|..].
  - destruct (child_of_wf n c cd v Hn Hc) as (_ & _ & _ & _ & Hl & _).
    apply (f_equal length) in Hu. rewrite length_take in Hu. simpl in Hu. lia.
  - destruct (child_of_wf n c cd v Hn Hc) as (_ & _ & Hok & _ & Hl & _).
    pose proof (ok_len _ _ _ Hok). apply (f_equal length) in Hu. rewrite length_app in Hu. simpl in Hu. lia.
Qed.

(** The content is a partial function. *)
Lemma slots_from_functional n p vs1 vs2 :
  n ∈ L -> slots_from ps t ek n p vs1 -> slots_from ps t ek n p vs2 -> vs1 = vs2.
Proof using W.
  intros Hn H1. revert vs2 Hn. induction H1 as [n|n c cd v j Hc Hj Hd|n c cd v p vs Hc Hs IH]; intros vs2 Hn H2.
  - symmetry. by eapply slots_from_nil.
  - destruct (child_of_wf n c cd v Hn Hc) as (HcL & _ & _ & _ & Hu & Hv & Hl & _).
    pose proof (divide_page_le j ltac:(lia) Hd) as Hpj.
    remember (take j (s_units cd)) as p0 eqn:Hu'. symmetry in Hu'.
    destruct H2 as [n|n c' cd' v' j' Hc' Hj' Hd'|n c' cd' v' p' vs' Hc' Hs'].
    + apply (f_equal length) in Hu'. rewrite length_take in Hu'. simpl in Hu'. lia.
    + destruct (child_of_prefix n c cd v c' cd' v' j j' [] []) as (<- & <- & <-); try done.
      { by apply divide_page_le; [lia|]. } { by rewrite !app_nil_r. }
      apply (f_equal length) in Hu'. rewrite !length_take in Hu'. f_equal. lia.
    + destruct (child_of_prefix n c cd v c' cd' v' j (s_len cd') [] p') as (<- & <- & <-); try done.
      { by apply (wf_page_le W), (child_of_wf n c' cd' v' Hn Hc'). }
      { by rewrite app_nil_r, <- full_as_take. }
      assert (j = s_len cd /\ p' = []) as [-> ->].
      { apply (f_equal length) in Hu'. rewrite length_take, length_app in Hu'.
        destruct p'; simpl in *; [split; [lia|done]|lia]. }
      apply slots_from_nil in Hs' as ->; [|done]. by rewrite app_nil_r, take_ge by lia.
  - destruct (child_of_wf n c cd v Hn Hc) as (HcL & _).
    destruct (slots_from_step n c cd v p vs2 Hn Hc H2) as (vs' & Hs' & ->). f_equal. by apply IH.
Qed.

Lemma slots_from_length n p vs : n ∈ L -> slots_from ps t ek n p vs -> length vs = length p /\ (ps | length p).
Proof using W.
  intros Hn Hs. induction Hs as [n|n c cd v j Hc Hj Hd|n c cd v p vs Hc Hs IH].
  - split; [done|]. apply Nat.divide_0_r.
  - destruct (child_of_wf n c cd v Hn Hc) as (HcL & _ & _ & _ & Hu & Hv & Hl & _).
    rewrite !length_take, Hu, Hv, Nat.min_l by lia. done.
  - destruct (child_of_wf n c cd v Hn Hc) as (HcL & _ & Hok & _ & Hu & Hv & Hl & _).
    destruct (IH HcL) as [E1 E2]. rewrite !length_app, Hu, Hv, E1. split; [done|].
    apply Nat.divide_add_r; [apply Hok|done].
Qed.

Lemma path_from_wf n q vq m :
  n ∈ L -> path_from t ek n q vq m -> m ∈ L /\ P m = P n ++ q /\ length vq = length q /\ (ps | length q).
Proof using W.
  intros Hn Hp. induction Hp as [n|n c cd v q vq m Hc Hp IH].
  - split; [done|]. rewrite app_nil_r. split; [done|]. split; [done|]. apply Nat.divide_0_r.
  - destruct (child_of_wf n c cd v Hn Hc) as (HcL & _ & Hok & HP & Hu & Hv & Hl & _).
    destruct (IH HcL) as (Hm & HPm & E1 & E2). split; [done|].
    rewrite HPm, HP, app_assoc. split; [done|]. rewrite !length_app, Hu, Hv. split; [lia|].
    apply Nat.divide_add_r; [apply Hok|done].
Qed.

(** A cached sequence that runs through [m] is cached below [m]. *)
Lemma path_slots_inv n q vq m p vs :
  n ∈ L -> path_from t ek n q vq m -> slots_from ps t ek n (q ++ p) vs ->
  exists vs', slots_from ps t ek m p vs' /\ vs = vq ++ vs'.
Proof using W.
  intros Hn Hp. revert vs Hn. induction Hp as [n|n c cd v q vq m Hc Hp IH]; intros vs Hn Hs; [eauto|].
  rewrite <- app_assoc in Hs.
  destruct (slots_from_step n c cd v (q ++ p) vs Hn Hc Hs) as (vs1 & Hs1 & ->).
  destruct (child_of_wf n c cd v Hn Hc) as (HcL & _).
  destruct (IH vs1 HcL Hs1) as (vs' & Hs' & ->). exists vs'. by rewrite <- app_assoc.
Qed.

(** Every live node lies on a path from the root in its own namespace. *)
Lemma path_to n nd :
  n ∈ L -> t !! n = Some nd -> (n <> root -> extra_key (s_key nd) = ek) ->
  exists vq, path_from t ek root (P n) vq n.
Proof using W.
  remember (length (P n)) as len eqn:Hlen. revert n nd Hlen.
  induction len as [len IH] using lt_wf_ind. intros n nd -> Hn Hnd Hek.
  destruct (decide (n = root)) as [->|Hr].
  { rewrite (wf_root_path _ _ _ _ _ _ W). exists []. constructor. }
  destruct (wf_below W n nd Hn Hr Hnd) as (p & pd & Hp & HpL & Hpd & _ & Hok & Hlk & Hlt).
  destruct (IH (length (P p)) Hlt p pd) as [vq Hq]; [done..| |].
  { intros Hpr. rewrite <- (Hek Hr). by apply Hlk. }
  destruct (ok_value _ _ _ Hok) as (v & Hv & _). exists (vq ++ v).
  rewrite (lk_path _ _ _ _ _ _ _ Hlk). eapply path_trans; [done|].
  replace (s_units nd) with (s_units nd ++ []) by apply app_nil_r.
  replace v with (v ++ []) by apply app_nil_r. econstructor; [|constructor].
  destruct (lk_child _ _ _ _ _ _ _ Hlk) as (ck & _ & Hg). split; eauto.
Qed.

Lemma path_functional n q vq vq' m m' :
  n ∈ L -> path_from t ek n q vq m -> path_from t ek n q vq' m' -> vq = vq'.
Proof using W.
  intros Hn H1 H2. rewrite <- (app_nil_r vq), <- (app_nil_r vq').
  apply (slots_from_functional n (q ++ [])); [done|..]; (eapply path_slots; [done|constructor]).
Qed.

(** The namespace of a path is that of its last node. *)
Lemma path_ns n q vq m :
  path_from t ek n q vq m -> m = n \/ exists md, t !! m = Some md /\ extra_key (s_key md) = ek.
Proof using Type.
  induction 1 as [n|n c cd v q vq m Hc Hp IH]; [by left|right].
  destruct IH as [->|IH]; [exists cd; by destruct Hc|done].
Qed.

Lemma path_to_live n vq q :
  path_from t ek root q vq n -> q = P n /\ n ∈ L /\
  (forall nd, t !! n = Some nd -> n <> root -> extra_key (s_key nd) = ek).
Proof using W.
  intros Hp. pose proof (wf_root_in _ _ _ _ _ _ W) as Hr.
  destruct (path_from_wf root q vq n Hr Hp) as (Hn & HP & _).
  rewrite (wf_root_path _ _ _ _ _ _ W) in HP. split; [done|]. split; [done|].
  intros nd Hnd Hnr. destruct (path_ns root q vq n Hp) as [?|(md & ? & ?)]; congruence.
Qed.

(** The content is the set of page-aligned prefixes of the paths. *)
Lemma slots_paths n p vs :
  n ∈ L -> slots_from ps t ek n p vs <->
  exists q vq m j, path_from t ek n q vq m /\ j <= length q /\ (ps | j) /\ p = take j q /\ vs = take j vq.
Proof using W.
  intros Hn. split.
  - intros Hs. revert Hn. induction Hs as [n|n c cd v j Hc Hj Hd|n c cd v p vs Hc Hs IH]; intros Hn.
    + exists [], [], n, 0. split; [constructor|]. split; [done|]. split; [apply Nat.divide_0_r|done].
    + destruct (child_of_wf n c cd v Hn Hc) as (_ & _ & _ & _ & Hu & _).
      exists (s_units cd ++ []), (v ++ []), c, j.
      split; [econstructor; [done|constructor]|]. rewrite !app_nil_r. split; [lia|]. done.
    + destruct (child_of_wf n c cd v Hn Hc) as (HcL & _ & Hok & _ & Hu & Hv & _).
      destruct (IH HcL) as (q & vq & m & j & Hp & Hj & Hd & -> & ->).
      exists (s_units cd ++ q), (v ++ vq), m, (s_len cd + j).
      split; [by econstructor|]. rewrite length_app, Hu. split; [lia|].
      split; [apply Nat.divide_add_r; [apply Hok|done]|].
      by rewrite !take_app_add' by done.
  - intros (q & vq & m & j & Hp & Hj & Hd & -> & ->). revert j Hj Hd Hn.
    induction Hp as [n|n c cd v q vq m Hc Hp IH]; intros j Hj Hd Hn; [rewrite !take_nil; constructor|].
    destruct (child_of_wf n c cd v Hn Hc) as (HcL & _ & Hok & _ & Hu & Hv & _).
    destruct (decide (j = 0)) as [->|Hj0]; [rewrite !take_0; constructor|].
    rewrite !take_app, Hu, Hv. destruct (decide (j <= s_len cd)) as [Hle|Hgt].
    + replace (j - s_len cd) with 0 by lia. rewrite !take_0, !app_nil_r. by apply (sf_part _ _ _ _ c); [|lia|].
    + rewrite (take_ge (s_units cd)), (take_ge v) by lia. apply (sf_full _ _ _ _ c); [done|].
      rewrite length_app in Hj.
      apply IH; [lia| |done]. apply Nat.divide_sub_r; [done|apply Hok].
Qed.

(** A prefix of what is cached is cached, in the corresponding slots. *)
Lemma slots_from_take n p vs j :
  n ∈ L -> slots_from ps t ek n p vs -> (ps | j) -> slots_from ps t ek n (take j p) (take j vs).
Proof using W.
  intros Hn Hs Hd. apply (slots_paths n) in Hs as (q & vq & m & j' & Hp & Hj & Hd' & -> & ->); [|done].
  apply slots_paths; [done|]. exists q, vq, m, (j `min` j'). rewrite !take_take.
  split; [done|]. split; [lia|]. split; [|done]. destruct (Nat.min_spec j j') as [ [_ ->] | [_ ->] ]; done.
Qed.

(** ** Where a match ends *)

(** Anything cached below [n] that agrees with [r] starts with the child
    [r] names. *)
Lemma slots_no_child n nd k p vs :
  n ∈ L -> t !! n = Some nd -> is_bigram k = bg -> extra_key k = ek ->
  ps <= key_len k ->
  (forall ck, child_key k ps = Ok ck -> dict_get ck (s_children nd) = None) ->
  slots_from ps t ek n p vs -> p `prefix_of` key_iter k -> p = [].
Proof using W.
  intros Hn Hnd Hb He Hk Hnone Hs Hpre. pose proof (wf_ps _ _ _ _ _ _ W) as Hps.
  assert (Hfirst : forall c cd v, child_of t ek n c cd v -> take ps (s_units cd) <> take ps (key_iter k)).
  { intros c cd v Hc Heq. destruct (child_of_wf n c cd v Hn Hc) as (_ & _ & Hok & _ & Hu & _ & Hl & nd' & ck & Hnd' & Hg & Hck).
    assert (nd' = nd) as -> by congruence. rewrite (Hnone ck) in Hg; [done|]. rewrite <- Hck.
    symmetry. apply child_key_eq_iff; [by rewrite (ok_bigram _ _ _ Hok)|unfold s_len in *; lia|done|].
    split; [by rewrite (co_ns _ _ _ _ _ _ Hc)|done]. }
  destruct Hpre as [r Hr]. destruct Hs as [n|n c cd v j Hc Hj Hd|n c cd v p vs Hc Hs]; [done|..]; exfalso.
  - apply (Hfirst c cd v Hc). destruct (child_of_wf n c cd v Hn Hc) as (_ & _ & _ & _ & Hu & _).
    pose proof (divide_page_le j ltac:(lia) Hd). rewrite Hr, take_app_le by (rewrite length_take; lia).
    rewrite take_take. f_equal. lia.
  - apply (Hfirst c cd v Hc). destruct (child_of_wf n c cd v Hn Hc) as (_ & _ & _ & _ & Hu & _ & Hl & _).
    rewrite Hr, !take_app_le by (rewrite ?length_app; lia). done.
Qed.

Lemma slots_at_child n c cd v k p vs :
  n ∈ L -> child_of t ek n c cd v ->
  take ps (s_units cd) = take ps (key_iter k) -> ps <= key_len k ->
  slots_from ps t ek n p vs -> p `prefix_of` key_iter k ->
  length p <= page_floor ps (lcp_len (s_units cd) (key_iter k)) \/
  exists p', p = s_units cd ++ p'.
Proof using W.
  intros Hn Hc Heq Hk Hs [r Hr]. destruct (child_of_wf n c cd v Hn Hc) as (_ & _ & _ & _ & Hu & _ & Hl & _).
  pose proof (length_key_iter k) as Hlk.
  destruct Hs as [n|n c' cd' v' j Hc' Hj Hd|n c' cd' v' p vs Hc' Hs].
  - left. simpl. lia.
  - destruct (child_of_wf n c' cd' v' Hn Hc') as (_ & _ & _ & _ & Hu' & _ & Hl' & _).
    pose proof (divide_page_le j ltac:(lia) Hd) as Hpj.
    destruct (child_of_unique n c cd v c' cd' v') as (<- & <- & <-); try done.
    { rewrite Heq, Hr, take_app_le by (rewrite length_take; lia). rewrite take_take. f_equal. lia. }
    left. rewrite length_take, Hu, Nat.min_l by lia. apply page_floor_greatest; [done|].
    apply (f_equal length) in Hr as Hlen. rewrite length_app, length_take in Hlen.
    apply lcp_len_ge; [lia|lia|]. rewrite Hr, take_app_le by (rewrite length_take; lia).
    rewrite take_take. f_equal. lia.
  - destruct (child_of_wf n c' cd' v' Hn Hc') as (_ & _ & _ & _ & Hu' & _ & Hl' & _).
    destruct (child_of_unique n c cd v c' cd' v') as (<- & <- & <-); try done.
    { rewrite Heq, Hr, !take_app_le by (rewrite ?length_app; lia). done. }
    right. by eexists.
Qed.

End wf_content.

(** ** The structural steps, bundled *)

(** [T] is [t] with [child] split after [m] units into [new] and [child]. *)
Record split_step (ps : nat) (t T : gmap nat shape) (root : nat) (L : gset nat)
    (child new p m : nat) (cd pd : shape) (cv : list Z) (ck rk : ckey) : Prop := {
  sp_in : child ∈ L;
  sp_nroot : child <> root;
  sp_child : t !! child = Some cd;
  sp_parent : s_parent cd = Some p;
  sp_pd : t !! p = Some pd;
  sp_value : s_value cd = Some cv;
  sp_fresh : t !! new = None;
  sp_len : 0 < m < s_len cd;
  sp_page : (ps | m);
  sp_ck : child_key (s_key cd) ps = Ok ck;
  sp_rk : child_key (key_from (s_key cd) m) ps = Ok rk;
  sp_Tnew : T !! new = Some (mkShape [(rk, child)] (Some p) (key_upto (s_key cd) m)
                               (Some (take m cv)) (s_lock cd));
  sp_Tchild : T !! child = Some (mkShape (s_children cd) (Some new) (key_from (s_key cd) m)
                                   (Some (drop m cv)) (s_lock cd));
  sp_Tp : T !! p = Some (mkShape (dict_set ck new (s_children pd)) (s_parent pd)
                           (s_key pd) (s_value pd) (s_lock pd));
  sp_Toth n : n <> new -> n <> child -> n <> p -> T !! n = t !! n;
}.

(** [T] is [t] with a leaf [new] for [k], [v] added below [node]. *)
Record leaf_step (ps : nat) (bg : bool) (t T : gmap nat shape) (root : nat) (L : gset nat)
    (node new : nat) (nd : shape) (k : RadixKey) (v : list Z) (ck : ckey) : Prop := {
  lf_in : node ∈ L;
  lf_nd : t !! node = Some nd;
  lf_fresh : t !! new = None;
  lf_ok : node_ok ps bg (mkShape [] (Some node) k (Some v) 0);
  lf_ck : child_key k ps = Ok ck;
  lf_none : dict_get ck (s_children nd) = None;
  lf_ns : node <> root -> extra_key (s_key nd) = extra_key k;
  lf_Tnew : T !! new = Some (mkShape [] (Some node) k (Some v) 0);
  lf_Tnode : T !! node = Some (mkShape (dict_set ck new (s_children nd)) (s_parent nd)
                                 (s_key nd) (s_value nd) (s_lock nd));
  lf_Toth n : n <> new -> n <> node -> T !! n = t !! n;
}.

(** [T] is [t] with the unlocked leaf [x] unlinked from its parent [p]. *)
Record delete_step (ps : nat) (t T : gmap nat shape) (root : nat) (L : gset nat)
    (x p : nat) (xd pd : shape) (ck : ckey) : Prop := {
  dl_in : x ∈ L;
  dl_nroot : x <> root;
  dl_x : t !! x = Some xd;
  dl_leaf : s_children xd = [];
  dl_unlocked : s_lock xd = 0%Z;
  dl_parent : s_parent xd = Some p;
  dl_pd : t !! p = Some pd;
  dl_ck : child_key (s_key xd) ps = Ok ck;
  dl_Tp : T !! p = Some (mkShape (dict_pop ck (s_children pd)) (s_parent pd)
                           (s_key pd) (s_value pd) (s_lock pd));
  dl_Toth n : n <> p -> T !! n = t !! n;
}.

Section split_content.
Context {ps : nat} {bg : bool} {t T : gmap nat shape} {root : nat} {L : gset nat}
        {P : nat -> list kunit} (W : tree_wf ps bg t root L P).
Context {child new p m : nat} {cd pd : shape} {cv : list Z} {ck rk : ckey}
        (S : split_step ps t T root L child new p m cd pd cv ck rk).

Lemma split_step_wf : tree_wf ps bg T root ({[new]} ∪ L) (split_path (P := P) new p m cd).
Proof using W S. destruct S. eapply split_wf; eassumption. Qed.

Lemma split_step_facts :
  p ∈ L /\ (new ∉ L) /\ ps <= m /\ length cv = s_len cd /\ dict_get ck (s_children pd) = Some child.
Proof using W S.
  destruct S. destruct (split_facts (T := T) W child new p m cd pd cv ck rk)
    as (? & ? & ? & ? & ? & ? & ? & ?); done.
Qed.

Lemma split_step_other n nd :
  n <> new -> n <> child -> t !! n = Some nd ->
  exists nd', T !! n = Some nd' /\ s_parent nd' = s_parent nd /\ s_key nd' = s_key nd /\
    s_value nd' = s_value nd /\ s_lock nd' = s_lock nd /\
    s_children nd' = (if decide (n = p) then dict_set ck new (s_children nd) else s_children nd).
Proof using W S. destruct S. eapply split_other; eassumption. Qed.

Lemma split_step_locks Hd :
  Hd new = 0%Z -> locks_ok t root L Hd None -> locks_ok T root ({[new]} ∪ L) Hd None.
Proof using W S. destruct S. intros. by apply (split_locks W child new p m cd pd cv ck rk). Qed.

Lemma split_step_books ev prot leaves :
  books_ok t root L ev prot leaves -> books_ok T root ({[new]} ∪ L) ev prot leaves.
Proof using W S. destruct S. intros. by apply (split_books W child new p m cd pd cv ck rk). Qed.

Lemma split_step_child ek n c d v :
  n ∈ L -> child_of t ek n c d v -> path_from T ek n (s_units d) v c.
Proof using W S.
  intros Hn Hc. destruct split_step_facts as (HpL & HnL & _ & _ & Hget).
  pose proof split_step_other as Hother.
  destruct S as [H1 H2 H3 H4 H5 H6 H7 H8 H9 H10 H11 HTn HTc HTp HTo].
  destruct (child_of_wf W ek n c d v Hn Hc) as (HcL & Hcr & _ & _ & _ & _ & _ & nd & k & Hnd & Hk & Hck).
  destruct Hc as [_ Hd Hns Hv]. destruct (decide (c = child)) as [->|Hcc].
  - assert (d = cd) as -> by congruence. assert (v = cv) as -> by congruence.
    destruct (wf_child_link W n nd k child Hn Hnd Hk) as (cd' & _ & _ & _ & Hcd' & Hp' & _).
    assert (n = p) as -> by congruence. assert (nd = pd) as -> by congruence.
    rewrite <- (take_drop m cv), <- (take_drop m (s_units cd)).
    destruct (key_upto_flags (s_key cd) m) as [Heu _]. destruct (key_from_flags (s_key cd) m) as [Hef _].
    unfold s_units. rewrite <- key_upto_units, <- key_from_units.
    eapply (pf_cons T ek p new (mkShape _ _ _ _ _)); [split; [|exact HTn|exact (eq_trans Heu Hns)|done]|].
    { eexists _, ck. split; [exact HTp|]. simpl. by rewrite dict_get_set, decide_True. }
    rewrite <- (app_nil_r (drop m cv)), <- (app_nil_r (key_iter _)).
    eapply (pf_cons T ek new child (mkShape _ _ _ _ _)); [split; [|exact HTc|exact (eq_trans Hef Hns)|done]|constructor].
    eexists _, rk. split; [exact HTn|]. simpl. by rewrite decide_True.
  - assert (Hnn : n <> new) by (by intros ->). assert (Hcn : c <> new) by (by intros ->).
    destruct (Hother c d Hcn Hcc Hd) as (d' & Hd' & _ & Ek & Ev & _).
    rewrite <- (app_nil_r v). unfold s_units. rewrite <- Ek, <- (app_nil_r (key_iter _)).
    eapply (pf_cons T ek n c d'); [split; [|done|congruence|congruence]|constructor].
    destruct (decide (n = child)) as [->|Hnc].
    { eexists _, k. split; [exact HTc|]. simpl. congruence. }
    destruct (Hother n nd Hnn Hnc Hnd) as (nd' & Hnd' & _ & _ & _ & _ & Ec).
    exists nd', k. split; [done|]. rewrite Ec. case_decide; [subst n|done].
    rewrite dict_get_set, decide_False; [done|]. intros ->. assert (nd = pd) as -> by congruence. congruence.
Qed.

Lemma split_step_path ek n q vq x :
  n ∈ L -> path_from t ek n q vq x -> path_from T ek n q vq x.
Proof using W S.
  intros Hn Hp. induction Hp as [n|n c d v q vq x Hc Hp IH]; [constructor|].
  eapply path_trans; [by eapply split_step_child|]. apply IH.
  by destruct (child_of_wf W ek n c d v Hn Hc) as (? & _).
Qed.

Lemma split_step_content ek q vs :
  slots_from ps T ek root q vs <-> slots_from ps t ek root q vs.
Proof using W S.
  pose proof split_step_wf as WT. pose proof (wf_root_in _ _ _ _ _ _ W) as Hr.
  destruct split_step_facts as (HpL & HnL & _ & _ & Hget).
  rewrite (slots_paths WT), (slots_paths W) by (try apply WT; done).
  assert (Hback : forall q vq x, path_from T ek root q vq x -> x ∈ L -> path_from t ek root q vq x).
  { intros q' vq x Hp Hx. destruct (path_to_live WT ek x vq q' Hp) as (-> & _ & Hns).
    destruct (wf_lookup W x Hx) as [xd Hxd].
    destruct (path_to W ek x xd Hx Hxd) as [vq' Hp'].
    { intros Hxr. destruct (decide (x = child)) as [->|Hxc].
      - rewrite <- (Hns _ (sp_Tchild _ _ _ _ _ _ _ _ _ _ _ _ _ _ S) Hxr).
        assert (xd = cd) as -> by (pose proof (sp_child _ _ _ _ _ _ _ _ _ _ _ _ _ _ S); congruence).
        symmetry. apply key_from_flags.
      - destruct (split_step_other x xd) as (xd' & Hxd' & _ & Ek & _); [by intros ->|done..|].
        rewrite <- Ek. by apply Hns. }
    assert (split_path (P := P) new p m cd x = P x) as Heq.
    { unfold split_path. rewrite fn_lookup_insert_ne; [done|]. by intros ->. }
    rewrite Heq in *. by rewrite (path_functional WT ek root (P x) vq vq' x x)
      by (first [apply WT|done|by apply split_step_path]). }
  split; intros (q' & vq & x & j & Hp & Hj & Hd & -> & ->).
  - destruct (decide (x = new)) as [->|Hxn].
    + destruct (path_to_live WT ek new vq q' Hp) as (_ & _ & Hns).
      specialize (Hns _ (sp_Tnew _ _ _ _ _ _ _ _ _ _ _ _ _ _ S)).
      destruct (key_upto_flags (s_key cd) m) as [Heu _]. destruct (key_from_flags (s_key cd) m) as [Hef _].
      assert (path_from T ek root (q' ++ drop m (s_units cd)) (vq ++ drop m cv) child) as Hpc.
      { eapply path_trans; [done|]. unfold s_units.
        rewrite <- key_from_units, <- (app_nil_r (drop m cv)), <- (app_nil_r (key_iter _)).
        eapply (pf_cons T ek new child (mkShape _ _ _ _ _)); [split|constructor].
        - eexists _, rk. split; [apply S|]. simpl. by rewrite decide_True.
        - exact (sp_Tchild _ _ _ _ _ _ _ _ _ _ _ _ _ _ S).
        - refine (eq_trans Hef (eq_trans (eq_sym Heu) _)). apply Hns. by intros ->.
        - done. }
      destruct (path_from_wf WT ek root q' vq new) as (_ & _ & Hlen & _); [apply WT|done|].
      eexists _, _, child, j. split; [apply Hback; [exact Hpc|apply S]|].
      rewrite length_app. split; [lia|]. split; [done|]. by rewrite !take_app_le by lia.
    + exists q', vq, x, j. split; [|done]. apply Hback; [done|].
      destruct (path_to_live WT ek x vq q' Hp) as (_ & Hx & _). set_solver.
  - exists q', vq, x, j. split; [|done]. by apply split_step_path.
Qed.

End split_content.

Section leaf_content.
Context {ps : nat} {bg : bool} {t T : gmap nat shape} {root : nat} {L : gset nat}
        {P : nat -> list kunit} (W : tree_wf ps bg t root L P).
Context {node new : nat} {nd : shape} {k : RadixKey} {v : list Z} {ck : ckey}
        (S : leaf_step ps bg t T root L node new nd k v ck).

Lemma leaf_step_wf : tree_wf ps bg T root ({[new]} ∪ L) (leaf_path (P := P) node new k v).
Proof using W S. destruct S. eapply leaf_wf; eassumption. Qed.

Lemma leaf_step_new : new ∉ L.
Proof using W S. destruct S. by eapply leaf_new_notin. Qed.

Lemma leaf_step_other n nd0 :
  n ∈ L -> t !! n = Some nd0 ->
  exists nd', T !! n = Some nd' /\ s_parent nd' = s_parent nd0 /\ s_key nd' = s_key nd0 /\
    s_value nd' = s_value nd0 /\ s_lock nd' = s_lock nd0 /\
    s_children nd' = (if decide (n = node) then dict_set ck new (s_children nd0) else s_children nd0).
Proof using W S. destruct S. eapply leaf_other; eassumption. Qed.

Lemma leaf_step_locks Hd :
  Hd new = 0%Z -> locks_ok t root L Hd None -> locks_ok T root ({[new]} ∪ L) Hd None.
Proof using W S. destruct S. intros. by apply (leaf_locks W node new nd k v ck). Qed.

Lemma leaf_step_books ev prot leaves :
  books_ok t root L ev prot leaves ->
  books_ok T root ({[new]} ∪ L) (ev + Z.of_nat (key_len k)) prot (leaves ∖ {[node]} ∪ {[new]}).
Proof using W S. destruct S. intros. by apply (leaf_books W node new nd k v ck). Qed.

Lemma leaf_step_path ek n q vq x :
  n ∈ L -> path_from t ek n q vq x -> path_from T ek n q vq x.
Proof using W S.
  intros Hn Hp. induction Hp as [n|n c d w q vq x Hc Hp IH]; [constructor|].
  destruct (child_of_wf W ek n c d w Hn Hc) as (HcL & _ & _ & _ & _ & _ & _ & n0 & k0 & Hn0 & Hk0 & _).
  destruct Hc as [_ Hd Hns Hv].
  destruct (leaf_step_other c d HcL Hd) as (d' & Hd' & _ & Ek & Ev & _).
  destruct (leaf_step_other n n0 Hn Hn0) as (n' & Hn' & _ & _ & _ & _ & Ec).
  assert (s_units d' = s_units d) as <- by (unfold s_units; by rewrite Ek).
  econstructor; [split; [|exact Hd'|congruence|congruence]|by apply IH].
  exists n', k0. split; [done|]. rewrite Ec. case_decide; [|done]. subst n.
  rewrite dict_get_set, decide_False; [done|]. intros ->.
  pose proof (lf_nd _ _ _ _ _ _ _ _ _ _ _ _ S). pose proof (lf_none _ _ _ _ _ _ _ _ _ _ _ _ S). congruence.
Qed.

Lemma leaf_step_back ek q vq x :
  path_from T ek root q vq x -> x ∈ L -> path_from t ek root q vq x.
Proof using W S.
  pose proof leaf_step_wf as WT. intros Hp Hx.
  destruct (path_to_live WT ek x vq q Hp) as (-> & _ & Hns).
  destruct (wf_lookup W x Hx) as [xd Hxd].
  destruct (path_to W ek x xd Hx Hxd) as [vq' Hp'].
  { intros Hxr. destruct (leaf_step_other x xd Hx Hxd) as (xd' & Hxd' & _ & Ek & _).
    rewrite <- Ek. by apply Hns. }
  assert (leaf_path (P := P) node new k v x = P x) as Heq.
  { unfold leaf_path. rewrite fn_lookup_insert_ne; [done|]. intros <-. by apply leaf_step_new. }
  rewrite Heq in *. by rewrite (path_functional WT ek root (P x) vq vq' x x)
    by (first [apply WT|done|by apply leaf_step_path; [apply W|]]).
Qed.

(** The path of the new leaf. *)
Lemma leaf_step_top ek q vq :
  path_from T ek root q vq new ->
  ek = extra_key k /\ exists vn, path_from t ek root (P node) vn node /\
    q = P node ++ key_iter k /\ vq = vn ++ v.
Proof using W S.
  pose proof leaf_step_wf as WT. pose proof leaf_step_new as Hnew. intros Hp.
  destruct (path_to_live WT ek new vq q Hp) as (-> & _ & Hns).
  assert (Hnr : new <> root) by (intros ->; apply Hnew, (wf_root_in _ _ _ _ _ _ W)).
  specialize (Hns _ (lf_Tnew _ _ _ _ _ _ _ _ _ _ _ _ S) Hnr). simpl in Hns. split; [done|].
  destruct (path_to W ek node nd) as [vn Hvn]; [apply S..| |].
  { intros Hr. rewrite <- Hns. by apply S. }
  exists vn. split; [done|].
  assert (leaf_path (P := P) node new k v new = P node ++ key_iter k) as Heq.
  { unfold leaf_path. by rewrite fn_lookup_insert. }
  rewrite Heq in *. split; [done|]. eapply (path_functional WT ek root); [apply WT|done|].
  eapply path_trans; [eapply leaf_step_path; [apply W|done]|].
  rewrite <- (app_nil_r v), <- (app_nil_r (key_iter k)).
  eapply (pf_cons T ek node new (mkShape _ _ _ _ _)); [split|constructor].
  - eexists _, ck. split; [apply S|]. simpl. by rewrite dict_get_set, decide_True.
  - exact (lf_Tnew _ _ _ _ _ _ _ _ _ _ _ _ S).
  - done.
  - done.
Qed.

(** Adding a leaf adds the page-aligned prefixes of its key, no more. *)
Lemma leaf_step_content ek q vs :
  slots_from ps T ek root q vs <->
  slots_from ps t ek root q vs \/
  (ek = extra_key k /\ exists vn j, path_from t ek root (P node) vn node /\ j <= key_len k /\ (ps | j) /\
     q = P node ++ take j (key_iter k) /\ vs = vn ++ take j v).
Proof using W S.
  pose proof leaf_step_wf as WT. pose proof (wf_root_in _ _ _ _ _ _ W) as Hr.
  pose proof (length_key_iter k) as Hlk. rewrite (slots_paths WT), (slots_paths W) by (try apply WT; done). split.
  - intros (q' & vq & x & j & Hp & Hj & Hd & -> & ->). destruct (decide (x = new)) as [->|Hx].
    + destruct (leaf_step_top ek q' vq Hp) as (-> & vn & Hvn & -> & ->).
      destruct (path_from_wf W _ root (P node) vn node Hr Hvn) as (_ & _ & Hlen & Hdn).
      destruct (decide (j <= length (P node))).
      * left. exists (P node), vn, node, j. rewrite !take_app_le by lia. done.
      * right. split; [done|]. exists vn, (j - length (P node)). rewrite length_app in Hj.
        split; [done|]. split; [lia|]. split; [by apply Nat.divide_sub_r|].
        rewrite !take_app, Hlen, (take_ge (P node)), (take_ge vn) by lia. done.
    + left. exists q', vq, x, j. split; [|done]. apply leaf_step_back; [done|].
      destruct (path_to_live WT ek x vq q' Hp) as (_ & ? & _). set_solver.
  - intros [(q' & vq & x & j & Hp & Hj & Hd & -> & ->)|(-> & vn & j & Hvn & Hj & Hd & -> & ->)].
    + exists q', vq, x, j. split; [|done]. by apply leaf_step_path.
    + destruct (path_to WT (extra_key k) new (mkShape [] (Some node) k (Some v) 0)) as [vq Hvq];
        [set_solver|apply S|done|]. destruct (leaf_step_top _ _ _ Hvq) as (_ & vn' & Hvn' & Hq & ->).
      rewrite Hq in Hvq. assert (vn' = vn) as -> by (by eapply (path_functional W)).
      destruct (path_from_wf W _ root (P node) vn node Hr Hvn) as (_ & _ & Hlen & Hdn).
      exists (P node ++ key_iter k), (vn ++ v), new, (length (P node) + j). split; [done|].
      rewrite length_app. split; [lia|]. split; [by apply Nat.divide_add_r|].
      by rewrite !take_app_add' by done.
Qed.

End leaf_content.

Section delete_content.
Context {ps : nat} {bg : bool} {t T : gmap nat shape} {root : nat} {L : gset nat}
        {P : nat -> list kunit} (W : tree_wf ps bg t root L P).
Context {x p : nat} {xd pd : shape} {ck : ckey} (S : delete_step ps t T root L x p xd pd ck).

Lemma delete_step_wf : tree_wf ps bg T root (L ∖ {[x]}) P.
Proof using W S. destruct S. eapply del_wf; eassumption. Qed.

Lemma delete_step_other n nd :
  t !! n = Some nd ->
  exists nd', T !! n = Some nd' /\ s_parent nd' = s_parent nd /\ s_key nd' = s_key nd /\
    s_value nd' = s_value nd /\ s_lock nd' = s_lock nd /\
    s_children nd' = (if decide (n = p) then dict_pop ck (s_children nd) else s_children nd).
Proof using W S. destruct S. eapply del_other; eassumption. Qed.

Lemma delete_step_locks Hd : locks_ok t root L Hd None -> locks_ok T root (L ∖ {[x]}) Hd None.
Proof using W S. destruct S. intros. by apply (del_locks W x p xd pd ck). Qed.

Lemma delete_step_books ev prot leaves :
  books_ok t root L ev prot leaves ->
  books_ok T root (L ∖ {[x]}) (ev - Z.of_nat (s_len xd)) prot
    (if decide (p <> root /\ s_lock pd = 0%Z /\ dict_pop ck (s_children pd) = [])
     then leaves ∖ {[x]} ∪ {[p]} else leaves ∖ {[x]} ∖ {[p]}).
Proof using W S. destruct S. intros. by apply (del_books W x p xd pd ck). Qed.

Lemma delete_step_path ek n q vq m :
  n ∈ L -> path_from T ek n q vq m -> path_from t ek n q vq m.
Proof using W S.
  intros Hn Hp. induction Hp as [n|n c d w q vq m Hc Hp IH]; [constructor|].
  destruct Hc as [(n' & k & Hn' & Hk) Hd Hns Hv]. destruct (wf_lookup W n Hn) as [nd Hnd].
  assert (dict_get k (s_children nd) = Some c) as Hk0.
  { destruct (delete_step_other n nd Hnd) as (nd' & Hnd' & _ & _ & _ & _ & Ec).
    assert (nd' = n') as -> by congruence. rewrite Ec in Hk. case_decide; [|done].
    rewrite dict_get_pop in Hk. by case_decide. }
  destruct (wf_child_link W n nd k c Hn Hnd Hk0) as (d0 & HcL & _ & _ & Hd0 & _).
  destruct (delete_step_other c d0 Hd0) as (d' & Hd' & _ & Ek & Ev & _).
  assert (d' = d) as -> by congruence.
  assert (s_units d = s_units d0) as -> by (unfold s_units; by rewrite Ek).
  econstructor; [split; [by exists nd, k|done|congruence|congruence]|by apply IH].
Qed.

Lemma delete_step_fwd ek q vq m :
  path_from t ek root q vq m -> m <> x -> path_from T ek root q vq m.
Proof using W S.
  pose proof delete_step_wf as WT. intros Hp Hx.
  destruct (path_to_live W ek m vq q Hp) as (-> & Hm & Hns).
  destruct (wf_lookup WT m) as [md Hmd]; [set_solver|].
  destruct (wf_lookup W m Hm) as [md0 Hmd0].
  destruct (path_to WT ek m md) as [vq' Hp']; [set_solver|done|..].
  { intros Hr. destruct (delete_step_other m md0 Hmd0) as (md' & ? & _ & Ek & _).
    assert (md' = md) as -> by congruence. rewrite Ek. by apply Hns. }
  by rewrite (path_functional W ek root (P m) vq vq' m m)
    by (first [apply W|done|by apply delete_step_path; [apply W|]]).
Qed.

(** Removing a leaf only forgets sequences that end inside the leaf; the
    others keep their slots. *)
Lemma delete_step_content ek q vs :
  (slots_from ps T ek root q vs -> slots_from ps t ek root q vs) /\
  (slots_from ps t ek root q vs ->
   slots_from ps T ek root q vs \/
   (ek = extra_key (s_key xd) /\ q `prefix_of` P x /\ length (P p) < length q)).
Proof using W S.
  pose proof delete_step_wf as WT. pose proof (wf_root_in _ _ _ _ _ _ W) as Hr.
  rewrite (slots_paths WT), (slots_paths W) by (try apply WT; done). split.
  - intros (q' & vq & m & j & Hp & Hrest). exists q', vq, m, j. split; [|done]. by apply delete_step_path.
  - intros (q' & vq & m & j & Hp & Hj & Hd & -> & ->). destruct (decide (m = x)) as [->|Hx].
    + destruct (path_to_live W ek x vq q' Hp) as (-> & HxL & Hns).
      specialize (Hns xd (dl_x _ _ _ _ _ _ _ _ _ _ S) (dl_nroot _ _ _ _ _ _ _ _ _ _ S)).
      destruct (wf_below W x xd) as (p' & pd' & Hpar & HpL & Hpd' & Hpx & Hok & Hlk & Hlt); [apply S..|].
      assert (p' = p) as -> by (pose proof (dl_parent _ _ _ _ _ _ _ _ _ _ S); congruence).
      destruct (decide (j <= length (P p))) as [Hle|Hgt].
      * left. destruct (path_to W ek p pd' HpL Hpd') as [vp Hvp].
        { intros Hpr. rewrite <- Hns. by apply Hlk. }
        destruct (ok_value _ _ _ Hok) as (v & Hv & Hlv).
        assert (vq = vp ++ v) as ->.
        { eapply (path_functional W ek root); [done|done|]. rewrite (lk_path _ _ _ _ _ _ _ Hlk).
          eapply path_trans; [done|]. rewrite <- (app_nil_r v), <- (app_nil_r (s_units xd)).
          eapply pf_cons; [split; [|apply S|done|done]|constructor].
          destruct (lk_child _ _ _ _ _ _ _ Hlk) as (c & _ & Hc). eauto. }
        destruct (path_from_wf W ek root (P p) vp p Hr Hvp) as (_ & _ & Hlen & _).
        exists (P p), vp, p, j. split; [by apply delete_step_fwd|]. split; [done|]. split; [done|].
        rewrite (lk_path _ _ _ _ _ _ _ Hlk), !take_app_le by lia. done.
      * right. split; [done|]. split; [apply prefix_take|]. rewrite length_take. lia.
    + left. exists q', vq, m, j. split; [by apply delete_step_fwd|done].
Qed.

End delete_content.

(** ** The slots a tree owns *)

Definition node_slots (t : gmap nat shape) (n : nat) : list Z :=
  from_option (fun nd => default [] (s_value nd)) [] (t !! n).

(** All slots held by the nodes of [L], as a multiset. *)
Definition owned (t : gmap nat shape) (L : gset nat) : list Z := elements L ≫= node_slots t.

Lemma bind_perm {A B} (f : A -> list B) (l l' : list A) : l ≡ₚ l' -> l ≫= f ≡ₚ l' ≫= f.
Proof.
  induction 1; csimpl; [done|by f_equiv|by rewrite !(assoc_L (++)), (comm (++) (f _) (f _))|by etransitivity].
Qed.

Lemma owned_insert t L n : n ∉ L -> owned t ({[n]} ∪ L) ≡ₚ node_slots t n ++ owned t L.
Proof. intros Hn. unfold owned. by rewrite (bind_perm _ _ _ (elements_union_singleton L n Hn)). Qed.

Lemma owned_delete t L n : n ∈ L -> owned t L ≡ₚ node_slots t n ++ owned t (L ∖ {[n]}).
Proof.
  intros Hn. rewrite <- owned_insert by set_solver.
  replace ({[n]} ∪ L ∖ {[n]}) with L; [done|]. apply leibniz_equiv. intros x.
  destruct (decide (x = n)); set_solver.
Qed.

Lemma owned_ext t T L : (forall n, n ∈ L -> node_slots T n = node_slots t n) -> owned T L = owned t L.
Proof.
  intros Heq. unfold owned. assert (Hall : forall n, n ∈ elements L -> node_slots T n = node_slots t n).
  { intros n Hn. by apply Heq, elem_of_elements. }
  induction (elements L) as [|x l IH]; csimpl; [done|]. f_equal; [apply Hall; set_solver|].
  apply IH. intros. apply Hall. set_solver.
Qed.

Lemma owned_in t L n v nd :
  n ∈ L -> t !! n = Some nd -> s_value nd = Some v -> v ⊆+ owned t L.
Proof.
  intros Hn Hnd Hv. rewrite owned_delete by done. unfold node_slots at 1. rewrite Hnd. simpl.
  rewrite Hv. simpl. by apply submseteq_inserts_r.
Qed.

Section owned_steps.
Context {ps : nat} {bg : bool} {t T : gmap nat shape} {root : nat} {L : gset nat}
        {P : nat -> list kunit} (W : tree_wf ps bg t root L P).

Lemma split_step_owned child new p m cd pd cv ck rk :
  split_step ps t T root L child new p m cd pd cv ck rk -> owned T ({[new]} ∪ L) ≡ₚ owned t L.
Proof using W.
  intros S. destruct (split_step_facts W S) as (HpL & HnL & _ & Hlen & _).
  pose proof (sp_in _ _ _ _ _ _ _ _ _ _ _ _ _ _ S) as HcL.
  rewrite owned_insert, (owned_delete T L child), (owned_delete t L child) by done.
  rewrite (owned_ext t T (L ∖ {[child]})).
  - rewrite app_assoc. f_equiv. unfold node_slots.
    rewrite (sp_Tnew _ _ _ _ _ _ _ _ _ _ _ _ _ _ S), (sp_Tchild _ _ _ _ _ _ _ _ _ _ _ _ _ _ S).
    rewrite (sp_child _ _ _ _ _ _ _ _ _ _ _ _ _ _ S). simpl.
    rewrite (sp_value _ _ _ _ _ _ _ _ _ _ _ _ _ _ S). simpl. by rewrite take_drop.
  - intros n Hn. destruct (wf_lookup W n) as [nd Hnd]; [set_solver|].
    destruct (split_step_other W S n nd) as (nd' & Hnd' & _ & _ & Ev & _); [set_solver..|done|].
    unfold node_slots. rewrite Hnd, Hnd'. simpl. by rewrite Ev.
Qed.

Lemma leaf_step_owned node new nd k v ck :
  leaf_step ps bg t T root L node new nd k v ck -> owned T ({[new]} ∪ L) ≡ₚ v ++ owned t L.
Proof using W.
  intros S. rewrite owned_insert by (by eapply leaf_step_new).
  rewrite (owned_ext t T L).
  - unfold node_slots at 1. by rewrite (lf_Tnew _ _ _ _ _ _ _ _ _ _ _ _ S).
  - intros n Hn. destruct (wf_lookup W n Hn) as [nd0 Hnd].
    destruct (leaf_step_other W S n nd0 Hn Hnd) as (nd' & Hnd' & _ & _ & Ev & _).
    unfold node_slots. rewrite Hnd, Hnd'. simpl. by rewrite Ev.
Qed.

Lemma delete_step_owned x p xd pd ck v :
  delete_step ps t T root L x p xd pd ck -> s_value xd = Some v ->
  owned t L ≡ₚ v ++ owned T (L ∖ {[x]}).
Proof using W.
  intros S Hv. rewrite (owned_delete t L x) by apply S.
  rewrite (owned_ext t T (L ∖ {[x]})).
  - unfold node_slots at 1. rewrite (dl_x _ _ _ _ _ _ _ _ _ _ S). simpl. by rewrite Hv.
  - intros n Hn. destruct (wf_lookup W n) as [nd0 Hnd]; [set_solver|].
    destruct (delete_step_other W S n nd0 Hnd) as (nd' & Hnd' & _ & _ & Ev & _).
    unfold node_slots. rewrite Hnd, Hnd'. simpl. by rewrite Ev.
Qed.

(** The root owns nothing; every other node one slot per unit. *)
Lemma owned_length ev prot leaves :
  books_ok t root L ev prot leaves -> Z.of_nat (length (owned t L)) = (ev + prot)%Z.
Proof using W.
  intros [-> -> _]. pose proof (wf_root_in _ _ _ _ _ _ W) as Hr.
  rewrite (Permutation_length (owned_delete t L root Hr)), length_app.
  unfold node_slots at 1. destruct (wf_root_key W) as [cs ->]. simpl.
  assert (Hl : forall n, n ∈ elements (L ∖ {[root]}) ->
    Z.of_nat (length (node_slots t n)) = (unlocked_len t n + locked_len t n)%Z).
  { intros n Hn%elem_of_elements. destruct (wf_lookup W n) as [nd Hnd]; [set_solver|].
    destruct (wf_below W n nd) as (_ & _ & _ & _ & _ & _ & Hok & _); [set_solver..|done|].
    destruct (ok_value _ _ _ Hok) as (v & Hv & Hlv).
    unfold node_slots, unlocked_len, locked_len. rewrite Hnd. simpl. rewrite Hv. simpl.
    case_decide; lia. }
  unfold owned, set_sum. induction (elements (L ∖ {[root]})) as [|x l IH]; csimpl; [done|].
  rewrite length_app, Nat2Z.inj_add, Hl by set_solver.
  rewrite IH by (intros; apply Hl; set_solver). lia.
Qed.

End owned_steps.

(** ** Changes that do not affect the content *)

(** The part of the tree the content is read from. *)
Definition content_view (t : gmap nat shape) : gmap nat (list (ckey * nat) * RadixKey * option (list Z)) :=
  (fun nd => (s_children nd, s_key nd, s_value nd)) <$> t.

Lemma content_view_lookup t T n nd :
  content_view t = content_view T -> t !! n = Some nd ->
  exists nd', T !! n = Some nd' /\ s_children nd' = s_children nd /\ s_key nd' = s_key nd /\ s_value nd' = s_value nd.
Proof.
  intros E Hn. apply (f_equal (.!! n)) in E. unfold content_view in E. rewrite !lookup_fmap, Hn in E.
  destruct (T !! n) as [nd'|]; simplify_eq/=. exists nd'. done.
Qed.

Lemma content_view_child t T ek n c cd v :
  content_view t = content_view T -> child_of t ek n c cd v ->
  exists cd', child_of T ek n c cd' v /\ s_units cd' = s_units cd /\ s_len cd' = s_len cd.
Proof.
  intros E [(nd & k & Hnd & Hk) Hcd Hns Hv].
  destruct (content_view_lookup t T n nd E Hnd) as (nd' & Hnd' & Ec & _).
  destruct (content_view_lookup t T c cd E Hcd) as (cd' & Hcd' & _ & Ek & Ev).
  exists cd'. split; [split; [exists nd', k; by rewrite Ec|done|congruence|congruence]|].
  unfold s_units, s_len. by rewrite Ek.
Qed.

Lemma content_view_slots ps t T ek n p vs :
  content_view t = content_view T -> slots_from ps t ek n p vs -> slots_from ps T ek n p vs.
Proof.
  intros E Hs. induction Hs as [n|n c cd v j Hco Hj Hd|n c cd v p vs Hco Hs IH]; [constructor|..].
  - destruct (content_view_child _ _ _ _ _ _ _ E Hco) as (cd' & Hco' & <- & El). rewrite <- El in Hj. by eapply sf_part.
  - destruct (content_view_child _ _ _ _ _ _ _ E Hco) as (cd' & Hco' & <- & El). by eapply sf_full.
Qed.

Lemma content_view_path t T ek n q vq m :
  content_view t = content_view T -> path_from t ek n q vq m -> path_from T ek n q vq m.
Proof.
  intros E Hp. induction Hp as [n|n c cd v q vq m Hco Hp IH]; [constructor|].
  destruct (content_view_child _ _ _ _ _ _ _ E Hco) as (cd' & Hco' & <- & El). by eapply pf_cons.
Qed.

Lemma content_view_owned t T L : content_view t = content_view T -> owned T L = owned t L.
Proof.
  intros E. apply owned_ext. intros n _. unfold node_slots.
  destruct (t !! n) as [nd|] eqn:En.
  - destruct (content_view_lookup t T n nd E En) as (nd' & -> & _ & _ & Ev). simpl. by rewrite Ev.
  - destruct (T !! n) as [nd|] eqn:En'; [|done].
    destruct (content_view_lookup T t n nd (eq_sym E) En') as (nd' & ? & _). congruence.
Qed.
