(* ===== verification/RadixOps.v ===== *)
(** * RadixOps: the operations of the radix cache preserve its invariant

    Each operation of [RadixTree] is shown to return (no exception, no loop
    left running) on a well-formed cache, to keep it well formed, and to change
    the cached content as it should. *)

From S2P Require Import Prelude RadixKey RadixNode RadixTree RadixInv RadixSteps RadixContent.

(** ** The part of the state the invariant reads *)

Record core_state := mkCore {
  co_cfg : CacheConfig;
  co_tree : gmap nat shape;
  co_hashes : gmap nat (option (list hexstr));
  co_counter : nat;
  co_root : nat;
  co_ev : Z;
  co_prot : Z;
  co_leaves : gset nat;
}.

Definition hashes (s : RadixCache) : gmap nat (option (list hexstr)) := hash_value <$> nodes s.

Definition core (s : RadixCache) : core_state :=
  mkCore (cfg s) (tree s) (hashes s) (counter s) (root_node s) (evictable_size_ s)
    (protected_size_ s) (evictable_leaves s).

Lemma tree_lookup s n nd : nodes s !! n = Some nd -> tree s !! n = Some (shape_of nd).
Proof. intros Hn. unfold tree. by rewrite lookup_fmap, Hn. Qed.

Lemma tree_lookup_inv s n sh :
  tree s !! n = Some sh -> exists nd, nodes s !! n = Some nd /\ shape_of nd = sh.
Proof. unfold tree. rewrite lookup_fmap. destruct (nodes s !! n); simpl; [|done]. intros; simplify_eq. eauto. Qed.

Lemma hashes_lookup s n nd : nodes s !! n = Some nd -> hashes s !! n = Some (hash_value nd).
Proof. intros Hn. unfold hashes. by rewrite lookup_fmap, Hn. Qed.

(** [hashes_ok] from the structural view. *)
Lemma hashes_ok_alt s L :
  hashes_ok s L <->
  (enable_kv_cache_events (cfg s) = true -> forall n sh h,
     n ∈ L -> n <> root_node s -> tree s !! n = Some sh -> hashes s !! n = Some h ->
     exists hs, h = Some hs /\ length hs = page_count (psize s) (s_len sh)).
Proof.
  split; intros Hok He n.
  - intros sh h Hn Hr Hsh Hh. apply tree_lookup_inv in Hsh as (nd & Hnd & <-).
    rewrite (hashes_lookup _ _ _ Hnd) in Hh. injection Hh as <-. by apply (Hok He n).
  - intros nd Hn Hr Hnd. apply (Hok He n (shape_of nd)); [done..|by apply tree_lookup|by apply hashes_lookup].
Qed.

Lemma Inv_at_core s s' L P H pend : core s = core s' -> Inv_at s L P H pend -> Inv_at s' L P H pend.
Proof.
  unfold core. intros E. injection E as E1 E2 E3 E4 E5 E6 E7 E8. intros [I1 I2 I3 I4 I5 I6 I7].
  rewrite hashes_ok_alt in I6. split; [| | | | |rewrite hashes_ok_alt|]; unfold psize in *; rewrite <- ?E1, <- ?E2, <- ?E3, <- ?E4, <- ?E5, <- ?E6, <- ?E7, <- ?E8; done.
Qed.

(** Assignments to attributes outside the structure. *)
Definition quiet (f : TreeNode -> TreeNode) : Prop :=
  forall nd, shape_of (f nd) = shape_of nd /\ hash_value (f nd) = hash_value nd.

Lemma core_quiet n f s : quiet f -> core (upd_node n f s) = core s.
Proof.
  intros Hf. unfold core, tree, hashes; simpl. f_equal.
  - apply map_eq. intros m. rewrite !lookup_fmap. destruct (decide (n = m)) as [<-|].
    + rewrite lookup_alter_eq. destruct (nodes s !! n); simpl; [|done]. by rewrite (proj1 (Hf _)).
    + by rewrite lookup_alter_ne.
  - apply map_eq. intros m. rewrite !lookup_fmap. destruct (decide (n = m)) as [<-|].
    + rewrite lookup_alter_eq. destruct (nodes s !! n); simpl; [|done]. by rewrite (proj2 (Hf _)).
    + by rewrite lookup_alter_ne.
Qed.

(** The structure after an assignment. *)
Lemma tree_upd n f s m :
  tree (upd_node n f s) !! m =
  if decide (n = m) then shape_of ∘ f <$> nodes s !! m else tree s !! m.
Proof.
  unfold tree; simpl. rewrite !lookup_fmap. case_decide; subst.
  - rewrite lookup_alter_eq. by destruct (nodes s !! m).
  - by rewrite lookup_alter_ne.
Qed.

Lemma nodes_upd n f s m :
  nodes (upd_node n f s) !! m = if decide (n = m) then f <$> nodes s !! m else nodes s !! m.
Proof. simpl. case_decide; subst; [by rewrite lookup_alter_eq|by rewrite lookup_alter_ne]. Qed.

Lemma nodes_upd_eq n f s nd : nodes s !! n = Some nd -> nodes (upd_node n f s) !! n = Some (f nd).
Proof. intros Hn. by rewrite nodes_upd, decide_True, Hn. Qed.

Lemma nodes_upd_ne n f s m : n <> m -> nodes (upd_node n f s) !! m = nodes s !! m.
Proof. intros. by rewrite nodes_upd, decide_False. Qed.

Lemma get_node_Ok s n nd : nodes s !! n = Some nd -> get_node s n = Ok nd.
Proof. unfold get_node. by intros ->. Qed.

(** ** Splitting a node *)

(** What a split leaves alone: configuration, root and bookkeeping. *)
Definition books (s : RadixCache) :=
  (cfg s, root_node s, evictable_size_ s, protected_size_ s, evictable_leaves s).

Section with_env.
Context `{Env}.
Implicit Types (s : RadixCache) (L : gset nat) (P : nat -> list kunit) (Hd : nat -> Z).

Lemma inv_child_key s L P Hd pend n nd :
  Inv_at s L P Hd pend -> n ∈ L -> n <> root_node s -> nodes s !! n = Some nd ->
  node_ok (psize s) (is_eagle (cfg s)) (shape_of nd) /\ psize s <= key_len (key nd) /\ 0 < psize s /\
  exists ck p pd, child_key (key nd) (psize s) = Ok ck /\ parent nd = Some p /\ p ∈ L /\ p <> n /\
    nodes s !! p = Some pd /\ dict_get ck (children pd) = Some n.
Proof.
  intros I Hn Hr Hnd. pose proof (inv_wf _ _ _ _ _ I) as W.
  destruct (wf_below W n (shape_of nd) Hn Hr (tree_lookup _ _ _ Hnd))
    as (p & pd & Hp & HpL & Hpd & Hne & Hok & Hlk & _).
  split; [done|]. split; [by apply (wf_page_le W) in Hok|]. split; [apply W|].
  apply tree_lookup_inv in Hpd as (pn & Hpn & <-).
  destruct (lk_child _ _ _ _ _ _ _ Hlk) as (ck & Hck & Hg). exists ck, p, pn. done.
Qed.

(** The state a split leaves. *)
Record split_result s s' L (child p m : nat) (cd nd : TreeNode) (pd : shape) (cv : list Z)
    (ck rk : ckey) : Prop := {
  sr_step : split_step (psize s) (tree s) (tree s') (root_node s) L child (counter s) p m
              (shape_of cd) pd cv ck rk;
  sr_books : books s' = books s;
  sr_counter : counter s' = S (counter s);
  sr_old n nd' : n <> counter s -> nodes s' !! n = Some nd' -> exists nd0, nodes s !! n = Some nd0 /\
    hash_value nd' = if decide (n = child) then (split_node_hash_value (hash_value cd) m (psize s)).2
                     else hash_value nd0;
  sr_new : nodes s' !! counter s = Some nd;
  sr_hash : hash_value nd = (split_node_hash_value (hash_value cd) m (psize s)).1;
}.

Lemma split_node_run s L P Hd child cd m :
  Inv_at s L P Hd None -> child ∈ L -> child <> root_node s -> nodes s !! child = Some cd ->
  0 < m < key_len (key cd) -> (psize s | m) ->
  exists s' p nd pd cv ck rk, split_node (key cd) child m s = Ok (s', counter s) /\
    split_result s s' L child p m cd nd pd cv ck rk.
Proof.
  intros I HcL Hcr Hcd Hm Hd'. pose proof (inv_fresh _ _ _ _ _ I) as Hfr.
  destruct (inv_child_key _ _ _ _ _ _ _ I HcL Hcr Hcd) as (Hok & Hle & Hps & ck & p & pd & Hck & Hp & HpL & Hpc & Hpd & Hget).
  destruct (ok_value _ _ _ Hok) as (cv & Hcv & Hlen). simpl in Hcv.
  assert (Hrk : exists rk, child_key (key_from (key cd) m) (psize s) = Ok rk).
  { rewrite child_key_spec; [eauto|]. rewrite key_from_len. split; [done|].
    pose proof (ok_aligned _ _ _ Hok). unfold s_len in *. apply Nat.divide_pos_le; [lia|].
    by apply Nat.divide_sub_r. }
  destruct Hrk as [rk Hrk]. pose proof (Hfr _ _ (tree_lookup _ _ _ Hcd)) as Hc1.
  pose proof (Hfr _ _ (tree_lookup _ _ _ Hpd)) as Hp1.
  assert (Hnone : nodes s !! counter s = None).
  { destruct (nodes s !! counter s) eqn:E; [|done]. apply tree_lookup, Hfr in E. lia. }
  unfold split_node, new_node, now. rewrite (get_node_Ok _ _ _ Hcd). cbn -[key_from key_upto child_key].
  change (psize _) with (psize s). rewrite Hrk, Hck. unfold value_of. rewrite Hcv, Hp. cbn -[key_from key_upto child_key].
  destruct (split_node_hash_value (hash_value cd) m (psize s)) as [h1 h2] eqn:Eh. cbn -[key_from key_upto child_key].
  eexists _, p, _, (shape_of pd), cv, ck, rk. split; [done|].
  assert (Hne1 : counter s <> child) by lia. assert (Hne2 : counter s <> p) by lia.
  split; [|done|done|..]; cbn -[key_from key_upto child_key].
  - split; try done; try (by apply tree_lookup);
      try (intros n Hn1 Hn2 Hn3); unfold tree; cbn -[key_from key_upto child_key]; rewrite !lookup_fmap;
      [by rewrite Hnone|by simplify_map_eq..].
  - intros n nd' Hn Hnd'. rewrite Eh. simpl.
    destruct (decide (n = child)) as [->|Hnc]; [|destruct (decide (n = p)) as [->|Hnp]];
      simplify_map_eq; eauto.
  - by simplify_map_eq.
  - by rewrite Eh.
Qed.

(** ** Refining a tree without changing what it stores *)

(** [s'] stores exactly what [s] stores; nodes may have been split. *)
Record refines Hd s L P s' L' P' : Prop := {
  rf_inv : Inv_at s' L' P' Hd None;
  rf_books : books s' = books s;
  rf_sub : L ⊆ L';
  rf_path n : n ∈ L -> P' n = P n;
  rf_paths ek n q vq m : n ∈ L -> path_from (tree s) ek n q vq m -> path_from (tree s') ek n q vq m;
  rf_content ek p vs : cached s' ek p vs <-> cached s ek p vs;
  rf_owned : owned (tree s') L' ≡ₚ owned (tree s) L;
}.

Lemma books_psize s s' : books s' = books s -> psize s' = psize s /\ root_node s' = root_node s /\ cfg s' = cfg s.
Proof. unfold books, psize. intros E. injection E as -> -> _ _ _. done. Qed.

Lemma refines_core Hd s s' L P : core s = core s' -> Inv_at s L P Hd None -> refines Hd s L P s' L P.
Proof.
  intros E I. pose proof (Inv_at_core _ _ _ _ _ _ E I) as I'.
  unfold core in E. injection E as E1 E2 E3 E4 E5 E6 E7 E8.
  split; [done|unfold books; congruence|done|done|..].
  - intros. by rewrite <- E2.
  - intros. unfold cached, psize. by rewrite <- E1, <- E2, <- E5.
  - by rewrite <- E2.
Qed.

Lemma refines_trans Hd s1 L1 P1 s2 L2 P2 s3 L3 P3 :
  refines Hd s1 L1 P1 s2 L2 P2 -> refines Hd s2 L2 P2 s3 L3 P3 -> refines Hd s1 L1 P1 s3 L3 P3.
Proof.
  intros [A1 A2 A3 A4 A5 A6 A7] [B1 B2 B3 B4 B5 B6 B7]. split; [done|congruence|set_solver|..].
  - intros n Hn. rewrite B4 by set_solver. by apply A4.
  - intros. apply B5; [set_solver|]. by apply A5.
  - intros. by rewrite B6.
  - by rewrite B7.
Qed.

Lemma refines_quiet Hd s L P n f :
  quiet f -> Inv_at s L P Hd None -> refines Hd s L P (upd_node n f s) L P.
Proof. intros Hf. apply refines_core. symmetry. by apply core_quiet. Qed.

Lemma page_count_exact ps len : 0 < ps -> (ps | len) -> page_count ps len = len / ps.
Proof.
  intros Hps [k ->]. unfold page_count. rewrite Nat.div_mul by lia.
  symmetry. apply (Nat.div_unique _ _ _ (ps - 1)); lia.
Qed.

Lemma split_hash_lengths ps hs m len :
  0 < ps -> (ps | m) -> (ps | len) -> m <= len -> length hs = page_count ps len ->
  exists h1 h2, split_node_hash_value (Some hs) m ps = (Some h1, Some h2) /\
    length h1 = page_count ps m /\ length h2 = page_count ps (len - m).
Proof.
  intros Hps Hm Hl Hle Hhs. unfold split_node_hash_value. eexists _, _. split; [done|].
  rewrite !page_count_exact in * by (done || by apply Nat.divide_sub_r).
  assert ((if ps =? 1 then m else m / ps) = m / ps) as ->.
  { destruct (ps =? 1) eqn:E; [|done]. apply Nat.eqb_eq in E as ->. by rewrite Nat.div_1_r. }
  destruct Hm as [a ->], Hl as [b ->]. rewrite <- Nat.mul_sub_distr_r, !Nat.div_mul in * by lia.
  rewrite length_take, length_drop, Hhs. nia.
Qed.

Section split_result.
Context {s s' : RadixCache} {L : gset nat} {P : nat -> list kunit} {Hd : nat -> Z}
        {child p m : nat} {cd nd : TreeNode} {pd : shape} {cv : list Z} {ck rk : ckey}.
Context (I : Inv_at s L P Hd None) (R : split_result s s' L child p m cd nd pd cv ck rk).

Lemma split_result_key : key nd = key_upto (key cd) m /\ value nd = Some (take m cv).
Proof using R.
  pose proof (tree_lookup _ _ _ (sr_new _ _ _ _ _ _ _ _ _ _ _ _ R)) as E.
  rewrite (sp_Tnew _ _ _ _ _ _ _ _ _ _ _ _ _ _ (sr_step _ _ _ _ _ _ _ _ _ _ _ _ R)) in E.
  by injection E.
Qed.

Lemma split_result_hashes : nodes s !! child = Some cd -> hashes_ok s' ({[counter s]} ∪ L).
Proof using I R.
  intros Hcd. destruct split_result_key as [Ek _]. destruct R as [S Hbk _ Hold Hnew Hh].
  pose proof (inv_wf _ _ _ _ _ I) as W. destruct (books_psize _ _ Hbk) as (Eps & Eroot & Ecfg).
  pose proof (sp_in _ _ _ _ _ _ _ _ _ _ _ _ _ _ S) as HcL.
  pose proof (sp_nroot _ _ _ _ _ _ _ _ _ _ _ _ _ _ S) as Hcr.
  pose proof (sp_len _ _ _ _ _ _ _ _ _ _ _ _ _ _ S) as Hm. unfold s_len in Hm. simpl in Hm.
  intros He n nd1 Hn Hr Hn1. rewrite Ecfg in He. rewrite Eroot in Hr. rewrite Eps.
  destruct (inv_child_key _ _ _ _ _ _ _ I HcL Hcr Hcd) as (Hok & _ & Hps & _).
  destruct (inv_hashes _ _ _ _ _ I He child cd HcL Hcr Hcd) as (hs & Ehs & Hlhs).
  destruct (split_hash_lengths (psize s) hs m (key_len (key cd))) as (h1 & h2 & Eh & Hl1 & Hl2);
    [done|apply S|apply Hok|lia|done|].
  rewrite Ehs, Eh in Hh. simpl in Hh. destruct (decide (n = counter s)) as [->|Hne].
  { assert (nd1 = nd) as -> by congruence. exists h1. split; [done|].
    by rewrite Ek, key_upto_len, Nat.min_l by lia. }
  destruct (Hold n nd1 Hne Hn1) as (nd0 & Hn0 & Eh0). apply tree_lookup in Hn1 as Ht1.
  rewrite Ehs, Eh in Eh0. case_decide as Enc.
  { subst n. rewrite (sp_Tchild _ _ _ _ _ _ _ _ _ _ _ _ _ _ S) in Ht1.
    injection Ht1 as _ _ Ek1 _ _. exists h2. split; [done|]. by rewrite <- Ek1, key_from_len. }
  destruct (inv_hashes _ _ _ _ _ I He n nd0) as (hs0 & Ehs0 & Hl0); [set_solver|done..|].
  destruct (split_step_other W S n (shape_of nd0)) as (nd2 & Hn2 & _ & Ek2 & _); [done|done|by apply tree_lookup|].
  exists hs0. split; [congruence|]. rewrite Hl0. f_equal. f_equal.
  rewrite Ht1 in Hn2. injection Hn2 as <-. done.
Qed.

Lemma split_result_refines :
  nodes s !! child = Some cd ->
  refines Hd s L P s' ({[counter s]} ∪ L) (split_path (P := P) (counter s) p m (shape_of cd)).
Proof using I R.
  intros Hcd. pose proof (split_result_hashes Hcd) as Hhs. destruct R as [S Hbk Hcnt Hold Hnew Hh].
  pose proof (inv_wf _ _ _ _ _ I) as W. destruct (books_psize _ _ Hbk) as (Eps & Eroot & Ecfg).
  destruct (split_step_facts W S) as (HpL & HnL & _).
  split; [|done|set_solver|..].
  - split; [| | |apply I| |done|].
    + rewrite Eps, Ecfg, Eroot. by eapply split_step_wf.
    + intros n sh Hn. rewrite Hcnt. destruct (decide (n = counter s)) as [->|Hne]; [lia|].
      apply tree_lookup_inv in Hn as (nd1 & Hn1 & _). apply (Hold n nd1 Hne) in Hn1 as (nd0 & Hn0 & _).
      apply tree_lookup, (inv_fresh _ _ _ _ _ I) in Hn0. lia.
    + rewrite Eroot. apply (split_step_locks W S); [|apply I].
      destruct (decide (Hd (counter s) = 0%Z)) as [|Hne]; [done|]. by apply I in Hne.
    + intros n Hn. apply (inv_held_live _ _ _ _ _ I) in Hn. set_solver.
    + unfold books in Hbk. injection Hbk as _ -> -> -> ->. apply (split_step_books W S), I.
  - intros n Hn. unfold split_path. rewrite fn_lookup_insert_ne; [done|]. by intros <-.
  - intros. by eapply split_step_path.
  - intros. unfold cached. rewrite Eps, Eroot. by eapply split_step_content.
  - by eapply split_step_owned.
Qed.

End split_result.

Lemma split_node_spec s L P Hd child cd m :
  Inv_at s L P Hd None -> child ∈ L -> child <> root_node s -> nodes s !! child = Some cd ->
  0 < m < key_len (key cd) -> (psize s | m) ->
  exists s' P' p nd v, split_node (key cd) child m s = Ok (s', counter s) /\
    refines Hd s L P s' ({[counter s]} ∪ L) P' /\ parent cd = Some p /\
    nodes s' !! counter s = Some nd /\ value cd = Some v /\ key nd = key_upto (key cd) m /\
    child_of (tree s') (extra_key (key cd)) p (counter s) (shape_of nd) (take m v).
Proof.
  intros I HcL Hcr Hcd Hm Hdv.
  destruct (split_node_run _ _ _ _ _ _ _ I HcL Hcr Hcd Hm Hdv)
    as (s' & p & nd & pd & cv & ck & rk & Hrun & R).
  pose proof (split_result_refines I R Hcd) as Href. destruct (split_result_key R) as [Ek Ev].
  destruct R as [S _ _ _ Hnew _].
  exists s', (split_path (P := P) (counter s) p m (shape_of cd)), p, nd, cv.
  split; [done|]. split; [done|]. split; [apply S|]. split; [done|]. split; [apply S|]. split; [done|]. split.
  - eexists _, ck. split; [apply S|]. simpl. by rewrite dict_get_set, decide_True.
  - by apply tree_lookup.
  - simpl. rewrite Ek. apply key_upto_flags.
  - done.
Qed.

(** ** Descending the tree *)

(** A key the loops may carry: right kind, whole pages. *)
Record key_ok s (k : RadixKey) : Prop := {
  ky_kind : is_bigram k = is_eagle (cfg s);
  ky_pages : (psize s | key_len k);
}.

Lemma key_ok_cfg s s' k : cfg s = cfg s' -> key_ok s k -> key_ok s' k.
Proof. intros E [Hk Hp]. unfold psize in *. split; unfold psize; by rewrite <- E. Qed.

Lemma key_ok_from s k m : key_ok s k -> (psize s | m) -> key_ok s (key_from k m).
Proof.
  intros [Hk Hp] Hm. destruct (key_from_flags k m) as [_ Eb]. split; [congruence|].
  rewrite key_from_len. by apply Nat.divide_sub_r.
Qed.

(** What [match] finds at the child a key names. *)
Record descent s L (ek : option string) (node child : nat) (k : RadixKey) (cd : TreeNode) (v : list Z)
    (m : nat) : Prop := {
  de_child : nodes s !! child = Some cd;
  de_live : child ∈ L /\ child <> root_node s;
  de_of : child_of (tree s) ek node child (shape_of cd) v;
  de_first : take (psize s) (s_units (shape_of cd)) = take (psize s) (key_iter k);
  de_match : radix_match (key cd) k (psize s) = Ok m;
  de_m : m = page_floor (psize s) (lcp_len (s_units (shape_of cd)) (key_iter k));
  de_pos : 0 < m <= key_len (key cd);
  de_le : m <= key_len k;
  de_page : (psize s | m);
  de_pre : take m (key_iter (key cd)) = take m (key_iter k);
}.

Lemma key_ok_page s L P Hd k : Inv_at s L P Hd None -> key_ok s k -> 0 < key_len k -> 0 < psize s <= key_len k.
Proof.
  intros I [_ Hp] Hk. split; [apply (inv_wf _ _ _ _ _ I)|]. by apply Nat.divide_pos_le.
Qed.

Lemma descend s L P Hd node nd k ck child :
  Inv_at s L P Hd None -> node ∈ L -> nodes s !! node = Some nd -> key_ok s k -> 0 < key_len k ->
  child_key k (psize s) = Ok ck -> dict_get ck (children nd) = Some child ->
  exists cd v m, descent s L (extra_key k) node child k cd v m.
Proof.
  intros I HnL Hnd Hky Hk Hck Hget. pose proof (inv_wf _ _ _ _ _ I) as W.
  pose proof (key_ok_page _ _ _ _ _ I Hky Hk) as Hps.
  destruct (wf_child_link W node (shape_of nd) ck child HnL (tree_lookup _ _ _ Hnd) Hget)
    as (sh & HcL & Hcr & _ & Hsh & _ & Hck' & Hok & Hlk).
  apply tree_lookup_inv in Hsh as (cd & Hcd & <-). simpl in Hck'.
  pose proof (wf_page_le W _ Hok) as Hple. unfold s_len in Hple; simpl in Hple.
  destruct (ok_value _ _ _ Hok) as (v & Hv & Hlv).
  assert (Hb : is_bigram (key cd) = is_bigram k) by (rewrite (ky_kind _ _ Hky); apply Hok).
  assert (extra_key (key cd) = extra_key k /\ take (psize s) (key_iter (key cd)) = take (psize s) (key_iter k)) as [He Ht].
  { apply child_key_eq_iff; [done|lia|lia|congruence]. }
  pose proof (lcp_len_le (key_iter (key cd)) (key_iter k)) as [Hl1 Hl2]. rewrite !length_key_iter in *.
  assert (Hge : psize s <= lcp_len (key_iter (key cd)) (key_iter k)).
  { apply lcp_len_ge; rewrite ?length_key_iter; [lia..|done]. }
  exists cd, v, (page_floor (psize s) (lcp_len (key_iter (key cd)) (key_iter k))).
  pose proof (page_floor_le (psize s) (lcp_len (key_iter (key cd)) (key_iter k))) as Hfl.
  split; try done.
  - split; [|by apply tree_lookup|done|done]. exists (shape_of nd), ck. split; [by apply tree_lookup|done].
  - apply radix_match_lcp; [done..|lia].
  - split; [|lia]. apply (Nat.lt_le_trans _ (psize s)); [lia|].
    apply page_floor_greatest; [done|done].
  - lia.
  - auto with pages.
  - eapply take_eq_le; [exact Hfl|]. apply lcp_len_take.
Qed.

(** The rest of a key after a whole node. *)
Lemma descent_full s L ek node child k cd v m :
  descent s L ek node child k cd v m -> m = key_len (key cd) ->
  key_iter k = key_iter (key cd) ++ key_iter (key_from k m).
Proof.
  intros D Hm. rewrite key_from_units, <- (take_drop m (key_iter k)) at 1. f_equal.
  rewrite <- (de_pre _ _ _ _ _ _ _ _ _ D). apply take_ge. rewrite length_key_iter. lia.
Qed.

(** Nothing longer than [m] is cached when the node is left early. *)
Lemma descent_partial s L P Hd ek node child k cd v m p vs :
  Inv_at s L P Hd None -> node ∈ L -> 0 < psize s <= key_len k ->
  descent s L ek node child k cd v m -> m < key_len (key cd) ->
  slots_from (psize s) (tree s) ek node p vs -> p `prefix_of` key_iter k -> length p <= m.
Proof.
  intros I HnL Hps D Hm Hs Hpre. pose proof (inv_wf _ _ _ _ _ I) as W.
  destruct (slots_at_child W ek node child (shape_of cd) v k p vs) as [Hle|[p' ->]]; try done; try apply D; [lia|..].
  - by rewrite (de_m _ _ _ _ _ _ _ _ _ D).
  - exfalso. destruct (child_of_wf W ek node child (shape_of cd) v HnL) as (_ & _ & Hok & _ & Hu & _); [apply D|].
    destruct Hpre as [r Hr]. unfold s_len in *; simpl in *.
    assert (key_len (key cd) <= lcp_len (s_units (shape_of cd)) (key_iter k)) as Hge.
    { apply lcp_len_ge; [lia|rewrite Hr, !length_app; lia|]. rewrite Hr, <- !app_assoc.
      rewrite take_app_le by lia. done. }
    apply (page_floor_greatest (psize s)) in Hge; [|apply Hok].
    rewrite (de_m _ _ _ _ _ _ _ _ _ D) in Hm. lia.
Qed.

Lemma descent_quiet s L ek node child k cd v m f :
  quiet f -> descent s L ek node child k cd v m ->
  descent (upd_node child f s) L ek node child k (f cd) v m.
Proof.
  intros Hf D. pose proof (core_quiet child f s Hf) as E. unfold core in E.
  injection E as Et _. destruct (Hf cd) as [Es _].
  assert (key (f cd) = key cd) as Ek by (by injection Es).
  destruct D. split; try done; rewrite ?Et, ?Es, ?Ek; try done. by apply nodes_upd_eq.
Qed.

Lemma quiet_access t : quiet (set_last_access_time t).
Proof. done. Qed.

Lemma value_of_Ok nd v : value nd = Some v -> value_of nd = Ok v.
Proof. unfold value_of. by intros ->. Qed.

(** Where the descent of [match_prefix] ends: the part [q'] of the key it
    matched below [node], and that nothing longer is cached there. *)
Definition match_out Hd s L P (node : nat) (k : RadixKey) (acc : list (list Z)) (q : list kunit)
    (vq : list Z) (r : res (RadixCache * (list (list Z) * nat))) : Prop :=
  exists s' L' P' acc' last q' vq', r = Ok (s', (acc', last)) /\
    refines Hd s L P s' L' P' /\
    path_from (tree s') (extra_key k) (root_node s) (q ++ q') (vq ++ vq') last /\
    concat acc' = concat acc ++ vq' /\ q' `prefix_of` key_iter k /\
    (forall p vs, slots_from (psize s) (tree s) (extra_key k) node p vs ->
       p `prefix_of` key_iter k -> length p <= length q').

Section match_out.
Context {Hd : nat -> Z} {s : RadixCache} {L : gset nat} {P : nat -> list kunit} {node : nat}
        {k : RadixKey} {acc : list (list Z)} {q : list kunit} {vq : list Z}.
Context (I : Inv_at s L P Hd None) (HnL : node ∈ L)
        (Hpath : path_from (tree s) (extra_key k) (root_node s) q vq node).

Lemma match_out_stop :
  (forall p vs, slots_from (psize s) (tree s) (extra_key k) node p vs ->
     p `prefix_of` key_iter k -> p = []) ->
  match_out Hd s L P node k acc q vq (Ok (s, (acc, node))).
Proof using All.
  intros Hmax. exists s, L, P, acc, node, [], []. rewrite !app_nil_r.
  split; [done|]. split; [by apply refines_core|]. split; [done|]. split; [done|].
  split; [apply prefix_nil|]. intros p vs Hp Hpre. by rewrite (Hmax p vs Hp Hpre).
Qed.

Context {child : nat} {cd : TreeNode} {v : list Z} {m : nat}
        (D : descent s L (extra_key k) node child k cd v m) (Hps : 0 < psize s <= key_len k).

Lemma descent_parent : parent cd = Some node.
Proof using I HnL D.
  destruct (co_entry _ _ _ _ _ _ (de_of _ _ _ _ _ _ _ _ _ D)) as (nd & c & Hnd & Hc).
  destruct (wf_child_link (inv_wf _ _ _ _ _ I) node nd c child HnL Hnd Hc) as (cd' & _ & _ & _ & Hcd' & Hp & _).
  pose proof (co_node _ _ _ _ _ _ (de_of _ _ _ _ _ _ _ _ _ D)). assert (cd' = shape_of cd) as -> by congruence. done.
Qed.

(** The match ends inside the child. *)
Lemma match_out_split :
  m < key_len (key cd) ->
  match_out Hd s L P node k acc q vq
    ('(s, new) ← split_node (key cd) child m s;
     nd ← get_node s new;
     v ← value_of nd;
     Ok (s, (acc ++ [v], new))).
Proof using All.
  intros Hm. pose proof (de_live _ _ _ _ _ _ _ _ _ D) as [HcL Hcr].
  destruct (split_node_spec s L P Hd child cd m) as (s' & P' & p & nd & v' & -> & Href & Hp & Hnd & Hv & Hk & Hof);
    [done..|apply D|destruct D; lia|apply D|].
  rewrite descent_parent in Hp. injection Hp as <-.
  assert (v' = v) as -> by (pose proof (co_value _ _ _ _ _ _ (de_of _ _ _ _ _ _ _ _ _ D)) as E; simpl in E; congruence).
  pose proof (co_value _ _ _ _ _ _ Hof) as Hval. simpl in Hval.
  bind_step. rewrite (get_node_Ok _ _ _ Hnd). bind_step.
  rewrite (value_of_Ok _ _ Hval). bind_step.
  exists s', ({[counter s]} ∪ L), P', (acc ++ [take m v]), (counter s), (take m (key_iter (key cd))), (take m v).
  split; [done|]. split; [done|]. split; [|split; [|split]].
  - eapply path_trans; [eapply (rf_paths _ _ _ _ _ _ _ Href); [|done]; apply (inv_wf _ _ _ _ _ I)|].
    replace (extra_key k) with (extra_key (key cd)) by (apply (co_ns _ _ _ _ _ _ (de_of _ _ _ _ _ _ _ _ _ D))).
    rewrite <- key_upto_units, <- Hk. by apply (path_one _ _ _ _ (shape_of nd)).
  - rewrite concat_app. simpl. by rewrite app_nil_r.
  - rewrite (de_pre _ _ _ _ _ _ _ _ _ D). apply prefix_take.
  - intros pf vs Hs Hpre. rewrite length_take, length_key_iter, Nat.min_l by lia.
    by eapply (descent_partial s L P Hd _ node child k cd v m pf vs).
Qed.

(** The match goes on below the child. *)
Lemma match_out_step r :
  m = key_len (key cd) ->
  match_out Hd s L P child (key_from k m) (acc ++ [v]) (q ++ key_iter (key cd)) (vq ++ v) r ->
  match_out Hd s L P node k acc q vq r.
Proof using All.
  intros Hm (s' & L' & P' & acc' & last & q' & vq' & -> & Href & Hp & Hacc & Hpre & Hmax).
  pose proof (inv_wf _ _ _ _ _ I) as W. pose proof (de_of _ _ _ _ _ _ _ _ _ D) as Hof.
  destruct (key_from_flags k m) as [He _]. rewrite He in *.
  exists s', L', P', acc', last, (key_iter (key cd) ++ q'), (v ++ vq'). rewrite !app_assoc.
  split; [done|]. split; [done|]. split; [done|]. split; [|split].
  - rewrite Hacc, concat_app. simpl. by rewrite app_nil_r.
  - rewrite (descent_full _ _ _ _ _ _ _ _ _ D Hm). by apply prefix_app.
  - intros p vs Hs Hpp.
    destruct (slots_at_child W (extra_key k) node child (shape_of cd) v k p vs) as [Hle|[p' ->]];
      try done; [apply D|lia|..].
    + rewrite <- (de_m _ _ _ _ _ _ _ _ _ D) in Hle. rewrite length_app, length_key_iter. lia.
    + destruct (slots_from_step W (extra_key k) node child (shape_of cd) v p' vs HnL Hof Hs) as (vs' & Hs' & _).
      rewrite (descent_full _ _ _ _ _ _ _ _ _ D Hm) in Hpp. apply prefix_app_inv in Hpp.
      specialize (Hmax p' vs' Hs' Hpp). rewrite !length_app. unfold s_units; simpl. lia.
Qed.

End match_out.

Lemma match_out_quiet Hd s L P node k acc q vq n f r :
  quiet f -> Inv_at s L P Hd None ->
  match_out Hd (upd_node n f s) L P node k acc q vq r -> match_out Hd s L P node k acc q vq r.
Proof.
  intros Hf I (s' & L' & P' & acc' & last & q' & vq' & -> & Href & Hp & Hacc & Hpre & Hmax).
  pose proof (core_quiet n f s Hf) as E. unfold core in E. injection E as Et _. rewrite Et in Hmax.
  exists s', L', P', acc', last, q', vq'. split; [done|].
  split; [eapply refines_trans; [by apply refines_quiet|done]|]. done.
Qed.

Lemma match_prefix_loop_spec fuel at_ s L P Hd node k ck acc q vq :
  Inv_at s L P Hd None -> node ∈ L -> path_from (tree s) (extra_key k) (root_node s) q vq node ->
  key_ok s k -> (0 < key_len k -> child_key k (psize s) = Ok ck) -> key_len k < fuel ->
  match_out Hd s L P node k acc q vq (match_prefix_loop fuel at_ node k ck acc s).
Proof.
  revert s L P node k ck acc q vq. induction fuel as [|fuel IH]; [lia|].
  intros s L P node k ck acc q vq I HnL Hpath Hky Hck Hfuel. cbn [match_prefix_loop].
  pose proof (inv_wf _ _ _ _ _ I) as W. destruct (key_len k =? 0) eqn:E0.
  { apply Nat.eqb_eq in E0. apply match_out_stop; [done..|]. intros p vs _ [r Hr].
    rewrite <- length_key_iter, Hr, length_app in E0. destruct p; [done|simpl in E0; lia]. }
  apply Nat.eqb_neq in E0. specialize (Hck ltac:(lia)).
  pose proof (key_ok_page _ _ _ _ _ I Hky ltac:(lia)) as Hps.
  destruct (wf_lookup W node HnL) as [sh Hsh]. apply tree_lookup_inv in Hsh as (nd & Hnd & <-).
  rewrite (get_node_Ok _ _ _ Hnd). bind_step.
  destruct (dict_get ck (children nd)) as [child|] eqn:Eget.
  2: { apply match_out_stop; [done..|]. intros p vs Hs Hpre.
       eapply (slots_no_child W (extra_key k) node (shape_of nd) k); try done; [by apply tree_lookup|apply Hky|lia|].
       intros ck' Hck'. simpl. congruence. }
  destruct (descend _ _ _ _ _ _ _ _ _ I HnL Hnd Hky ltac:(lia) Hck Eget) as (cd0 & v & m & D0).
  apply (match_out_quiet _ _ _ _ _ _ _ _ _ child (set_last_access_time at_)); [done..|].
  pose proof (descent_quiet _ _ _ _ _ _ _ _ _ _ (quiet_access at_) D0) as D. clear D0.
  pose proof (rf_inv _ _ _ _ _ _ _ (refines_quiet Hd s L P child _ (quiet_access at_) I)) as I1.
  assert (Hpath1 : path_from (tree (upd_node child (set_last_access_time at_) s)) (extra_key k) (root_node s) q vq node).
  { eapply (rf_paths _ _ _ _ _ _ _ (refines_quiet Hd s L P child _ (quiet_access at_) I)); [apply W|done]. }
  change (psize s) with (psize (upd_node child (set_last_access_time at_) s)) in *.
  apply (key_ok_cfg _ (upd_node child (set_last_access_time at_) s)) in Hky; [|done].
  change (root_node s) with (root_node (upd_node child (set_last_access_time at_) s)) in Hpath1.
  assert (Hck1 : child_key k (psize (upd_node child (set_last_access_time at_) s)) = Ok ck) by done.
  clear I W Hnd Hpath Hck. revert I1 Hpath1 D Hky Hps Hck1.
  generalize (upd_node child (set_last_access_time at_) s). generalize (set_last_access_time at_ cd0).
  clear s cd0. intros cd s I Hpath D Hky Hps Hck.
  rewrite (get_node_Ok _ _ _ (de_child _ _ _ _ _ _ _ _ _ D)). bind_step.
  rewrite (de_match _ _ _ _ _ _ _ _ _ D). bind_step.
  destruct (m <? key_len (key cd)) eqn:Em; [apply Nat.ltb_lt in Em|apply Nat.ltb_ge in Em].
  { by eapply match_out_split. }
  pose proof (de_pos _ _ _ _ _ _ _ _ _ D) as Hpos. assert (m = key_len (key cd)) as Hm by lia.
  pose proof (co_value _ _ _ _ _ _ (de_of _ _ _ _ _ _ _ _ _ D)) as Hv. simpl in Hv.
  rewrite (value_of_Ok _ _ Hv). bind_step.
  assert (Hky' : key_ok s (key_from k m)) by (apply key_ok_from; [done|apply D]).
  assert (exists ck', (if 0 <? key_len (key_from k m) then child_key (key_from k m) (psize s) else Ok ck) = Ok ck' /\
            (0 < key_len (key_from k m) -> child_key (key_from k m) (psize s) = Ok ck')) as (ck' & -> & Hck').
  { destruct (0 <? key_len (key_from k m)) eqn:E; [apply Nat.ltb_lt in E|apply Nat.ltb_ge in E].
    - rewrite child_key_spec by (by apply (key_ok_page _ _ _ _ _ I Hky')). eauto.
    - exists ck. split; [done|lia]. }
  bind_step. eapply match_out_step; [done..|].
  apply IH; [done|apply D| |done|done|].
  - destruct (key_from_flags k m) as [-> _]. eapply path_trans; [done|].
    by apply (path_one _ _ _ _ (shape_of cd)), D.
  - rewrite key_from_len. lia.
Qed.

(** ** Prefix matching *)

(** The key as the cache reads it: bigrams for EAGLE, whole pages. *)
Definition aligned s (k : RadixKey) : RadixKey :=
  page_aligned (maybe_to_bigram_view (A := Z) k (is_eagle (cfg s)) None).1 (psize s).

(** Callers pass bigram keys only to an EAGLE cache. *)
Definition kind_ok s (k : RadixKey) : Prop := is_bigram k = true -> is_eagle (cfg s) = true.

Lemma aligned_ok s k : kind_ok s k -> key_ok s (aligned s k) /\ extra_key (aligned s k) = extra_key k.
Proof.
  intros Hk. unfold aligned, maybe_to_bigram_view.
  set (k1 := (if is_eagle (cfg s) && negb (is_bigram k) then _ else _).1).
  assert (is_bigram k1 = is_eagle (cfg s) /\ extra_key k1 = extra_key k) as [E1 E2].
  { unfold k1, kind_ok in *. destruct (is_eagle (cfg s)), (is_bigram k) eqn:E; simpl; try done.
    by specialize (Hk eq_refl). }
  destruct (page_aligned_flags k1 (psize s)) as [F1 F2]. split; [split|congruence].
  - congruence.
  - rewrite page_aligned_len. auto with pages.
Qed.

(** [q], in slots [w], is the longest cached prefix of [K]. *)
Record longest_cached s (ek : option string) (K q : list kunit) (w : list Z) : Prop := {
  lc_prefix : q `prefix_of` K;
  lc_cached : cached s ek q w;
  lc_max p vs : cached s ek p vs -> p `prefix_of` K -> length p <= length q;
}.

Lemma cached_path s L P Hd ek q vq n :
  Inv_at s L P Hd None -> path_from (tree s) ek (root_node s) q vq n -> cached s ek q vq.
Proof.
  intros I Hp. unfold cached. rewrite <- (app_nil_r q), <- (app_nil_r vq).
  eapply path_slots; [done|constructor].
Qed.

Lemma cached_empty s L P Hd ek p vs :
  Inv_at s L P Hd None -> cached s ek p vs -> p `prefix_of` [] -> p = [].
Proof. intros _ _ [r Hr]. by destruct p. Qed.

Lemma match_prefix_run s L P Hd k :
  Inv_at s L P Hd None -> disable (cfg s) = false -> kind_ok s k ->
  exists s' L' P' r q, match_prefix k s = Ok (s', r) /\ refines Hd s L P s' L' P' /\
    longest_cached s (extra_key k) (key_iter (aligned s k)) q (device_indices r) /\
    path_from (tree s') (extra_key k) (root_node s) q (device_indices r) (last_device_node r) /\
    last_host_node r = last_device_node r /\ best_match_node r = last_device_node r.
Proof.
  intros I Hdis Hk. destruct (aligned_ok s k Hk) as [Hky He]. unfold match_prefix, aligned in *.
  destruct (maybe_to_bigram_view k (is_eagle (cfg s)) None) as [k1 x]. simpl in *. rewrite Hdis. simpl.
  assert (Hempty : key_iter (page_aligned k1 (psize s)) = [] ->
    exists s' L' P' r q, Ok (s, empty_match_result s) = Ok (s', r) /\ refines Hd s L P s' L' P' /\
    longest_cached s (extra_key k) (key_iter (page_aligned k1 (psize s))) q (device_indices r) /\
    path_from (tree s') (extra_key k) (root_node s) q (device_indices r) (last_device_node r) /\
    last_host_node r = last_device_node r /\ best_match_node r = last_device_node r).
  { intros ->. exists s, L, P, (empty_match_result s), []. split; [done|].
    split; [by apply refines_core|]. split; [|split; [constructor|done]].
    split; [done|constructor|]. intros p vs Hc Hp. by rewrite (cached_empty _ _ _ _ _ _ _ I Hc Hp). }
  destruct (key_len k1 =? 0) eqn:E0.
  { apply Nat.eqb_eq in E0. apply Hempty. rewrite page_aligned_units. apply length_zero_iff_nil.
    rewrite length_take, length_key_iter. lia. }
  destruct (key_len (page_aligned k1 (psize s)) =? 0) eqn:E1.
  { apply Nat.eqb_eq in E1. apply Hempty. apply length_zero_iff_nil. by rewrite length_key_iter. }
  clear Hempty. apply Nat.eqb_neq in E1. revert Hky He E1. generalize (page_aligned k1 (psize s)).
  intros ka Hky <- E1. unfold match_prefix_helper, now.
  set (s1 := upd_node _ _ _). assert (core s = core s1) as Ec.
  { unfold s1. by rewrite core_quiet. }
  pose proof (refines_core Hd s s1 L P Ec I) as R1. pose proof (rf_inv _ _ _ _ _ _ _ R1) as I1.
  pose proof (key_ok_page _ _ _ _ _ I Hky ltac:(lia)) as Hps.
  change (psize s1) with (psize s). rewrite (child_key_spec ka (psize s) Hps). bind_step.
  destruct (match_prefix_loop_spec (S (key_len ka)) (monotonic (ticks s)) s1 L P Hd (root_node s) ka
    (extra_key ka, plain_of (is_bigram ka) (psize s) (take (psize s) (key_iter ka))) [] [] [])
    as (s' & L' & P' & acc & last & q & vq & -> & R2 & Hp & Hacc & Hpre & Hmax).
  - done.
  - apply (inv_wf _ _ _ _ _ I).
  - constructor.
  - by apply (key_ok_cfg s).
  - intros _. by apply child_key_spec.
  - lia.
  - simpl in *. exists s', L', P', (mkMatch (concat acc) last last last), q. rewrite Hacc in *.
    split; [done|]. pose proof (refines_trans _ _ _ _ _ _ _ _ _ _ R1 R2) as R.
    split; [done|]. split; [|done]. simpl. split; [done|..].
    + apply (rf_content _ _ _ _ _ _ _ R). eapply (cached_path _ _ _ _ _ _ _ _ (rf_inv _ _ _ _ _ _ _ R)).
      destruct (books_psize _ _ (rf_books _ _ _ _ _ _ _ R)) as (_ & -> & _). done.
    + intros p vs Hc. apply (Hmax p vs). by apply (rf_content _ _ _ _ _ _ _ R1) in Hc.
Qed.

End with_env.
