(* ===== verification/RadixInsert.v ===== *)
(** * RadixInsert: insertion into the radix cache

    [insert] descends as [match_prefix] does, splits the node it stops in and
    hangs the rest of the key below it.  The result: the cached content grows
    by the pages of the key that were not cached, in the slots the caller
    passed for them. *)

From S2P Require Import Prelude RadixKey RadixNode RadixTree RadixInv RadixSteps RadixContent RadixOps.

Section with_env.
Context `{Env}.
Implicit Types (s : RadixCache) (L : gset nat) (P : nat -> list kunit) (Hd : nat -> Z).

Lemma quiet_priority x : quiet (fun nd => set_priority (Z.max (priority nd) x) nd).
Proof. done. Qed.

Lemma quiet_hit : quiet (fun nd => set_hit_count (hit_count nd + 1)%Z nd).
Proof. done. Qed.

(** Raising a node's priority and hit count does not touch the structure. *)
Lemma core_touch n prio chunked s : core s = core (inc_hit_count n chunked (raise_priority n prio s)).
Proof.
  unfold inc_hit_count, raise_priority. destruct chunked; rewrite ?(core_quiet _ _ _ quiet_hit);
    by rewrite (core_quiet _ _ _ (quiet_priority prio)).
Qed.

(** Where the descent of [insert] ends. *)
Definition insert_out Hd s L P (node : nat) (k : RadixKey) (v : list Z) (total : nat)
    (q : list kunit) (vq : list Z) (r : res (RadixCache * (nat * RadixKey * list Z * ckey * nat))) : Prop :=
  exists s' L' P' node' nd' k' ck' q' vq',
    r = Ok (s', (node', k', drop (length q') v, ck', total + length q')) /\
    refines Hd s L P s' L' P' /\
    path_from (tree s') (extra_key k) (root_node s) (q ++ q') (vq ++ vq') node' /\
    key_iter k = q' ++ key_iter k' /\ key_ok s k' /\ extra_key k' = extra_key k /\
    nodes s' !! node' = Some nd' /\
    (0 < key_len k' -> child_key k' (psize s) = Ok ck' /\ dict_get ck' (children nd') = None) /\
    (forall p vs, slots_from (psize s) (tree s) (extra_key k) node p vs ->
       p `prefix_of` key_iter k -> length p <= length q').

Section insert_out.
Context {Hd : nat -> Z} {s : RadixCache} {L : gset nat} {P : nat -> list kunit} {node : nat}
        {k : RadixKey} {v : list Z} {total : nat} {q : list kunit} {vq : list Z}.
Context (I : Inv_at s L P Hd None) (HnL : node ∈ L) (Hky : key_ok s k)
        (Hpath : path_from (tree s) (extra_key k) (root_node s) q vq node).

Lemma insert_out_stop nd ck :
  nodes s !! node = Some nd ->
  (0 < key_len k -> child_key k (psize s) = Ok ck /\ dict_get ck (children nd) = None) ->
  insert_out Hd s L P node k v total q vq (Ok (s, (node, k, v, ck, total))).
Proof using All.
  intros Hnd Hck. exists s, L, P, node, nd, k, ck, [], []. rewrite !app_nil_r, Nat.add_0_r.
  split; [done|]. split; [by apply refines_core|]. split; [done|]. do 4 (split; [done|]).
  split; [done|]. intros p vs Hs Hpre. destruct (decide (0 < key_len k)) as [Hlt|Hge].
  - destruct (Hck Hlt) as [Hc Hnone].
    rewrite (slots_no_child (inv_wf _ _ _ _ _ I) (extra_key k) node (shape_of nd) k p vs); try done.
    + by apply tree_lookup.
    + apply Hky.
    + by apply (key_ok_page _ _ _ _ _ I Hky).
    + intros ck' Hck'. simpl. congruence.
  - apply prefix_length in Hpre. rewrite length_key_iter in Hpre. lia.
Qed.

Context {child : nat} {cd : TreeNode} {cv : list Z} {m : nat}
        (D : descent s L (extra_key k) node child k cd cv m) (Hps : 0 < psize s <= key_len k).

(** Going on from a node [next] reached with the first [m] units matched. *)
Lemma insert_out_step s1 L1 P1 next r :
  refines Hd s L P s1 L1 P1 ->
  (forall p vs, slots_from (psize s) (tree s) (extra_key k) node p vs -> p `prefix_of` key_iter k ->
     length p <= m \/ exists p' vs', p = take m (key_iter k) ++ p' /\ slots_from (psize s) (tree s1) (extra_key k) next p' vs') ->
  insert_out Hd s1 L1 P1 next (key_from k m) (drop m v) (total + m)
    (q ++ take m (key_iter k)) (vq ++ take m cv) r ->
  insert_out Hd s L P node k v total q vq r.
Proof using All.
  intros R1 Hbelow (s' & L' & P' & node' & nd' & k' & ck' & q' & vq' & -> & R2 & Hp & Hk & Hky' & He' & Hnd' & Hck' & Hmax).
  destruct (books_psize _ _ (rf_books _ _ _ _ _ _ _ R1)) as (Eps & Eroot & Ecfg).
  destruct (key_from_flags k m) as [He _]. rewrite He in *. rewrite Eps, Eroot in *.
  rewrite key_from_units in *. assert (Hlm : length (take m (key_iter k)) = m).
  { rewrite length_take, length_key_iter. destruct D. lia. }
  exists s', L', P', node', nd', k', ck', (take m (key_iter k) ++ q'), (take m cv ++ vq').
  rewrite !app_assoc, length_app, Hlm, drop_drop, Nat.add_assoc.
  split; [done|]. split; [by eapply refines_trans|]. split; [done|].
  split; [by rewrite <- app_assoc, <- Hk, take_drop|]. split; [by apply (key_ok_cfg s1)|].
  do 3 (split; [done|]). intros p vs Hs Hpre.
  destruct (Hbelow p vs Hs Hpre) as [Hle|(p' & vs' & -> & Hs')]; [lia|].
  rewrite length_app, Hlm. apply Nat.add_le_mono_l, (Hmax p' vs' Hs').
  rewrite <- (take_drop m (key_iter k)) in Hpre at 2. by apply prefix_app_inv in Hpre.
Qed.

End insert_out.

Lemma insert_out_quiet Hd s L P node k v total q vq n f r :
  quiet f -> Inv_at s L P Hd None ->
  insert_out Hd (upd_node n f s) L P node k v total q vq r -> insert_out Hd s L P node k v total q vq r.
Proof.
  intros Hf I (s' & L' & P' & node' & nd' & k' & ck' & q' & vq' & -> & R & Hp & Hk & Hky' & He' & Hnd' & Hck' & Hmax).
  pose proof (core_quiet n f s Hf) as E. unfold core in E. injection E as Et _. rewrite Et in Hmax.
  exists s', L', P', node', nd', k', ck', q', vq'. split; [done|].
  split; [eapply refines_trans; [by apply refines_quiet|done]|].
  do 2 (split; [done|]). split; [by apply (key_ok_cfg (upd_node n f s))|]. done.
Qed.

(** One step down: the node the loop goes to and the path to it. *)
Lemma insert_next s L P Hd node k q vq child cd cv m prio chunked :
  Inv_at s L P Hd None -> node ∈ L -> path_from (tree s) (extra_key k) (root_node s) q vq node ->
  0 < psize s <= key_len k -> descent s L (extra_key k) node child k cd cv m ->
  exists s' L' P' next,
    (if (m <? key_len (key cd))%nat then
       '(s, new) ← split_node (key cd) child m s;
       Ok (inc_hit_count new chunked (raise_priority new prio s), new)
     else Ok (inc_hit_count child chunked (raise_priority child prio s), child)) = Ok (s', next) /\
    refines Hd s L P s' L' P' /\ next ∈ L' /\
    path_from (tree s') (extra_key k) (root_node s) (q ++ take m (key_iter k)) (vq ++ take m cv) next /\
    (forall p vs, slots_from (psize s) (tree s) (extra_key k) node p vs -> p `prefix_of` key_iter k ->
       length p <= m \/ exists p' vs', p = take m (key_iter k) ++ p' /\
         slots_from (psize s) (tree s') (extra_key k) next p' vs').
Proof.
  intros I HnL Hpath Hps D. pose proof (inv_wf _ _ _ _ _ I) as W.
  pose proof (de_live _ _ _ _ _ _ _ _ _ D) as [HcL Hcr]. pose proof (de_of _ _ _ _ _ _ _ _ _ D) as Hof.
  pose proof (co_value _ _ _ _ _ _ Hof) as Hcv. simpl in Hcv.
  destruct (m <? key_len (key cd)) eqn:Em; [apply Nat.ltb_lt in Em|apply Nat.ltb_ge in Em].
  - destruct (split_node_spec s L P Hd child cd m) as (s' & P' & p & nd & v' & -> & R & Hp & Hnd & Hv & Hk & Hof');
      [done..|apply D|destruct D; lia|apply D|].
    rewrite (descent_parent I HnL D) in Hp. injection Hp as <-.
    assert (v' = cv) as -> by congruence. bind_step.
    pose proof (core_touch (counter s) prio chunked s') as Ec.
    eexists _, _, P', (counter s). split; [done|].
    split; [eapply refines_trans; [done|]; by eapply refines_core, R|]. split; [set_solver|]. split.
    + unfold core in Ec. injection Ec as _ Et _ _ _ _ _. rewrite <- Et.
      eapply path_trans; [eapply (rf_paths _ _ _ _ _ _ _ R); [apply W|done]|].
      replace (extra_key k) with (extra_key (key cd)) by (apply (co_ns _ _ _ _ _ _ Hof)).
      rewrite <- (de_pre _ _ _ _ _ _ _ _ _ D), <- key_upto_units, <- Hk.
      by apply (path_one _ _ _ _ (shape_of nd)).
    + intros pf vs Hs Hpre. left. by eapply (descent_partial s L P Hd _ node child k cd cv m pf vs).
  - assert (m = key_len (key cd)) as Hm by (destruct D; lia).
    pose proof (core_touch child prio chunked s) as Ec.
    eexists _, L, P, child. split; [done|]. split; [by apply refines_core|]. split; [done|].
    unfold core in Ec. injection Ec as _ Et _ _ _ _ _. rewrite <- Et.
    assert (take m (key_iter k) = s_units (shape_of cd)) as Etk.
    { rewrite <- (de_pre _ _ _ _ _ _ _ _ _ D). unfold s_units. apply take_ge. rewrite length_key_iter. simpl. lia. }
    assert (take m cv = cv) as Etv.
    { apply take_ge. destruct (child_of_wf W _ _ _ _ _ HnL Hof) as (_ & _ & _ & _ & _ & Hl & _).
      unfold s_len in Hl. simpl in Hl. lia. }
    rewrite Etk, Etv. split; [eapply path_trans; [done|]; by apply path_one|].
    intros p vs Hs Hpre. destruct (slots_at_child W (extra_key k) node child (shape_of cd) cv k p vs)
      as [Hle|[p' ->]]; try done; [apply D|lia|..].
    + left. by rewrite (de_m _ _ _ _ _ _ _ _ _ D).
    + right. destruct (slots_from_step W _ _ _ _ _ _ _ HnL Hof Hs) as (vs' & Hs' & _). eauto.
Qed.

Lemma next_child_key s L P Hd k ck :
  Inv_at s L P Hd None -> key_ok s k ->
  exists ck', (if 0 <? key_len k then child_key k (psize s) else Ok ck) = Ok ck' /\
    (0 < key_len k -> child_key k (psize s) = Ok ck').
Proof.
  intros I Hky. destruct (0 <? key_len k) eqn:E; [apply Nat.ltb_lt in E|apply Nat.ltb_ge in E].
  - rewrite child_key_spec by (by apply (key_ok_page _ _ _ _ _ I Hky)). eauto.
  - exists ck. split; [done|lia].
Qed.

Lemma insert_loop_spec fuel at_ prio chunked s L P Hd node k v ck total q vq :
  Inv_at s L P Hd None -> node ∈ L -> path_from (tree s) (extra_key k) (root_node s) q vq node ->
  key_ok s k -> (0 < key_len k -> child_key k (psize s) = Ok ck) -> key_len k < fuel ->
  insert_out Hd s L P node k v total q vq (insert_loop fuel at_ prio chunked node k v ck total s).
Proof.
  revert s L P node k v ck total q vq. induction fuel as [|fuel IH]; [lia|].
  intros s L P node k v ck total q vq I HnL Hpath Hky Hck Hfuel. cbn [insert_loop].
  pose proof (inv_wf _ _ _ _ _ I) as W.
  destruct (wf_lookup W node HnL) as [sh Hsh]. apply tree_lookup_inv in Hsh as (nd & Hnd & <-).
  destruct (key_len k =? 0) eqn:E0.
  { apply Nat.eqb_eq in E0. eapply insert_out_stop; [done..|]. lia. }
  apply Nat.eqb_neq in E0. specialize (Hck ltac:(lia)).
  pose proof (key_ok_page _ _ _ _ _ I Hky ltac:(lia)) as Hps.
  rewrite (get_node_Ok _ _ _ Hnd). bind_step.
  destruct (dict_get ck (children nd)) as [child|] eqn:Eget.
  2: { by eapply insert_out_stop. }
  destruct (descend _ _ _ _ _ _ _ _ _ I HnL Hnd Hky ltac:(lia) Hck Eget) as (cd0 & cv & m & D0).
  apply (insert_out_quiet _ _ _ _ _ _ _ _ _ _ child (set_last_access_time at_)); [done..|].
  pose proof (descent_quiet _ _ _ _ _ _ _ _ _ _ (quiet_access at_) D0) as D. clear D0.
  pose proof (refines_quiet Hd s L P child _ (quiet_access at_) I) as R0.
  pose proof (rf_inv _ _ _ _ _ _ _ R0) as I1.
  pose proof (rf_paths _ _ _ _ _ _ _ R0 _ _ _ _ _ (wf_root_in _ _ _ _ _ _ W) Hpath) as Hpath1.
  apply (key_ok_cfg _ (upd_node child (set_last_access_time at_) s)) in Hky; [|done].
  assert (Hps1 : 0 < psize (upd_node child (set_last_access_time at_) s) <= key_len k) by done.
  change (root_node s) with (root_node (upd_node child (set_last_access_time at_) s)) in Hpath1.
  clear I W Hnd Hpath Hck R0 Hps. revert I1 Hpath1 D Hky Hps1.
  generalize (upd_node child (set_last_access_time at_) s). generalize (set_last_access_time at_ cd0).
  clear s cd0. intros cd s I Hpath D Hky Hps.
  rewrite (get_node_Ok _ _ _ (de_child _ _ _ _ _ _ _ _ _ D)). bind_step.
  rewrite (de_match _ _ _ _ _ _ _ _ _ D). bind_step.
  destruct (insert_next s L P Hd node k q vq child cd cv m prio chunked)
    as (s' & L' & P' & next & -> & R & Hnext & Hpath' & Hbelow); [done..|]. bind_step.
  destruct (books_psize _ _ (rf_books _ _ _ _ _ _ _ R)) as (Eps & Eroot & Ecfg).
  pose proof (rf_inv _ _ _ _ _ _ _ R) as I'.
  assert (Hky' : key_ok s' (key_from k m)).
  { apply (key_ok_cfg s); [done|]. apply key_ok_from; [done|apply D]. }
  destruct (next_child_key s' L' P' Hd (key_from k m) ck I' Hky') as (ck' & -> & Hck'). bind_step.
  eapply (insert_out_step I HnL Hky Hpath D Hps); [done|done|].
  apply IH; [done|done| |done|done|].
  - destruct (key_from_flags k m) as [-> _]. by rewrite Eroot.
  - rewrite key_from_len. destruct D. lia.
Qed.

(** ** Events *)

(** With events on, the tokens of an inserted key must fit the hash's 32-bit
    words; the native hasher refuses others. *)
Definition hashable s (k : RadixKey) : Prop :=
  enable_kv_cache_events (cfg s) = true -> forallb checked_u32 (key_iter k ≫= unit_words) = true.

Lemma length_hash_pages prior pages : length (hash_pages prior pages) = length pages.
Proof. revert prior. induction pages as [|p pages IH]; intros prior; simpl; [done|]. by rewrite IH. Qed.

Lemma length_pages_of {A} ps (us : list A) : length (pages_of ps us) = page_count ps (length us).
Proof. unfold pages_of. by rewrite length_fmap, length_seq. Qed.

Lemma stored_events_Ok med par pages hs :
  length pages <= length hs -> exists evs, stored_events med par pages hs = Ok evs /\ length evs = length pages.
Proof.
  revert par hs. induction pages as [|p pages IH]; intros par [|h hs] Hl; simpl in *; try lia; [eauto..|].
  destruct (IH (Some (hash_str_to_int64 h)) hs) as (evs & -> & <-); [lia|]. simpl. eauto.
Qed.

(** Everything but the event queue and the node's own digests. *)
Definition core_but_hash s := (cfg s, tree s, counter s, root_node s, evictable_size_ s, protected_size_ s, evictable_leaves s).

Lemma upd_hash_tree n x s : tree (upd_node n (set_hash_value x) s) = tree s.
Proof.
  apply map_eq. intros m. rewrite tree_upd. case_decide; [subst|done]. unfold tree. rewrite lookup_fmap.
  by destruct (nodes s !! m).
Qed.

(** Recording a store returns, and leaves one digest per page on the node. *)
Lemma record_store_event_spec n nd s :
  nodes s !! n = Some nd -> hash_value nd = None ->
  (enable_kv_cache_events (cfg s) = true -> forallb checked_u32 (key_iter (key nd) ≫= unit_words) = true) ->
  exists s', record_store_event n s = Ok s' /\ core_but_hash s' = core_but_hash s /\
    (forall m, m <> n -> nodes s' !! m = nodes s !! m) /\
    (enable_kv_cache_events (cfg s) = true -> forall nd', nodes s' !! n = Some nd' ->
       exists hs, hash_value nd' = Some hs /\ length hs = page_count (psize s) (key_len (key nd'))).
Proof.
  intros Hn Hh Hchk. unfold record_store_event, ensure_hash.
  destruct (enable_kv_cache_events (cfg s)) eqn:Eev; [|by exists s].
  rewrite (get_node_Ok _ _ _ Hn). bind_step. rewrite Hh.
  unfold compute_node_hash_values, get_hash_str. rewrite Hchk by done.
  set (hs := hash_pages _ _). bind_step. set (s1 := upd_node n _ s).
  assert (Hn1 : nodes s1 !! n = Some (set_hash_value (Some hs) nd)) by (by apply nodes_upd_eq).
  rewrite (get_node_Ok _ _ _ Hn1). bind_step.
  assert (Hlen : length hs = page_count (psize s) (key_len (key nd))).
  { unfold hs. by rewrite length_hash_pages, length_pages_of, length_key_iter. }
  destruct (stored_events_Ok GPU
    (match parent (set_hash_value (Some hs) nd) with
     | Some p => if decide (p = root_node s1) then None
                 else match nodes s1 !! p with
                      | Some pd => hash_str_to_int64 <$> (hash_value pd ≫= last)
                      | None => None end
     | None => None end)
    (pages_of (psize s1) (key_iter (key (set_hash_value (Some hs) nd)))) hs) as (evs & -> & _).
  { rewrite length_pages_of, length_key_iter, Hlen. done. }
  bind_step. eexists. split; [done|]. split; [|split].
  - unfold core_but_hash. change (tree (with_events _ s1)) with (tree s1).
    unfold s1. by rewrite upd_hash_tree.
  - intros m Hm. unfold s1. simpl. by rewrite lookup_alter_ne.
  - intros _ nd' Hnd'. change (nodes (with_events _ s1)) with (nodes s1) in Hnd'.
    assert (nd' = set_hash_value (Some hs) nd) as -> by congruence. simpl. eauto.
Qed.

(** ** Leaf status *)

Lemma update_leaf_status_run n nd v s :
  nodes s !! n = Some nd -> value nd = Some v ->
  update_leaf_status n s =
  Ok (with_leaves (if (0 <? lock_ref nd)%Z || has_live_child s nd
                   then evictable_leaves s ∖ {[n]} else evictable_leaves s ∪ {[n]}) s).
Proof.
  intros Hn Hv. unfold update_leaf_status, evicted. rewrite (get_node_Ok _ _ _ Hn). bind_step.
  rewrite Hv. simpl. destruct (0 <? lock_ref nd)%Z; simpl; [done|]. by destruct (has_live_child s nd).
Qed.

Lemma has_live_child_in s nd c cd v :
  c ∈ (children nd).*2 -> nodes s !! c = Some cd -> value cd = Some v -> has_live_child s nd = true.
Proof.
  intros Hc Hcd Hv. unfold has_live_child. apply existsb_exists. exists c. split.
  - by apply list_elem_of_In.
  - rewrite Hcd. unfold evicted. by rewrite Hv.
Qed.

(** ** Adding the leaf *)

Section add_leaf.
Context {s : RadixCache} {L : gset nat} {P : nat -> list kunit} {Hd : nat -> Z}
        {node : nat} {nd : TreeNode} {k : RadixKey} {v : list Z} {ck : ckey} (prio : Z) (chunked : bool).
Context (I : Inv_at s L P Hd None) (HnL : node ∈ L) (Hnd : nodes s !! node = Some nd)
        (Hky : key_ok s k) (Hk : 0 < key_len k) (Hv : length v = key_len k)
        (Hck : child_key k (psize s) = Ok ck) (Hnone : dict_get ck (children nd) = None)
        (Hns : node <> root_node s -> extra_key (key nd) = extra_key k) (Hhash : hashable s k).

Let new := counter s.

Lemma new_fresh : nodes s !! new = None /\ (new ∉ L) /\ node <> new.
Proof using All.
  assert (nodes s !! new = None) as Hn.
  { destruct (nodes s !! new) eqn:E; [|done]. apply tree_lookup, (inv_fresh _ _ _ _ _ I) in E. unfold new in E. lia. }
  assert (new ∉ L) as Hnl.
  { intros HnL'. destruct (wf_lookup (inv_wf _ _ _ _ _ I) new HnL') as [sh Hsh].
    apply tree_lookup_inv in Hsh as (x & Hx & _). congruence. }
  split; [done|]. split; [done|]. by intros <-.
Qed.

(** The store once the new node is linked. *)
Lemma add_leaf_linked :
  exists s1 nn,
    (forall total, add_leaf prio chunked node k v ck total s =
       (s ← update_leaf_status node s1; s ← update_leaf_status new s;
        s ← record_store_event new s; Ok (s, (total, new)))) /\
    nodes s1 !! new = Some nn /\ shape_of nn = mkShape [] (Some node) k (Some v) 0 /\ hash_value nn = None /\
    nodes s1 !! node = Some (set_children (dict_set ck new (children nd)) nd) /\
    (forall n, n <> new -> n <> node -> nodes s1 !! n = nodes s !! n) /\
    cfg s1 = cfg s /\ root_node s1 = root_node s /\ counter s1 = S (counter s) /\
    evictable_size_ s1 = (evictable_size_ s + Z.of_nat (key_len k))%Z /\
    protected_size_ s1 = protected_size_ s /\ evictable_leaves s1 = evictable_leaves s.
Proof using All.
  destruct new_fresh as (Hn & HnL' & Hne). unfold add_leaf, new_node, now.
  unfold new in *. destruct chunked; eexists _, _; (split; [intros; reflexivity|]);
    unfold inc_hit_count; cbn -[dict_set];
    (split; [by simplify_map_eq|]; split; [done|]; split; [done|]; split; [by simplify_map_eq|];
     split; [|done]; intros n Hn1 Hn2; by simplify_map_eq).
Qed.

Lemma add_leaf_run :
  exists s', (forall total, add_leaf prio chunked node k v ck total s = Ok (s', (total, new))) /\
    leaf_step (psize s) (is_eagle (cfg s)) (tree s) (tree s') (root_node s) L node new (shape_of nd) k v ck /\
    cfg s' = cfg s /\ root_node s' = root_node s /\ counter s' = S (counter s) /\
    evictable_size_ s' = (evictable_size_ s + Z.of_nat (key_len k))%Z /\
    protected_size_ s' = protected_size_ s /\
    evictable_leaves s' = evictable_leaves s ∖ {[node]} ∪ {[new]} /\
    hashes_ok s' ({[new]} ∪ L).
Proof using All.
  destruct new_fresh as (Hfr & HnewL & Hne). pose proof (inv_wf _ _ _ _ _ I) as W.
  destruct add_leaf_linked as (s1 & nn & Hrun & Hnn & Hsh & Hh & Hnd1 & Hoth & Ecfg & Eroot & Ecnt & Eev & Epr & Elv).
  assert (exists nv, value nd = Some nv) as [nv Hnv].
  { destruct (decide (node = root_node s)) as [->|Hr].
    - destruct (wf_root_key W) as [cs Hroot]. rewrite (tree_lookup _ _ _ Hnd) in Hroot. injection Hroot; eauto.
    - destruct (inv_child_key _ _ _ _ _ _ _ I HnL Hr Hnd) as (Hok & _).
      destruct (ok_value _ _ _ Hok) as (nv & ? & _). eauto. }
  unfold shape_of in Hsh. injection Hsh as F1 F2 F3 F4 F5.
  set (s3 := with_leaves (evictable_leaves s ∖ {[node]} ∪ {[new]}) s1).
  destruct (record_store_event_spec new nn s3 Hnn Hh) as (s' & Hrec & Ecore & Hoth' & Hhs).
  { intros He. rewrite F3. apply Hhash. by rewrite <- Ecfg. }
  unfold core_but_hash in Ecore. injection Ecore as G1 G2 G3 G4 G5 G6 G7.
  exists s'. split; [|split; [|split; [|split; [|split; [|split; [|split; [|split]]]]]]]; simpl in *; try congruence.
  - intros total. rewrite Hrun, (update_leaf_status_run node _ nv s1 Hnd1) by done. bind_step.
    assert (has_live_child s1 (set_children (dict_set ck new (children nd)) nd) = true) as ->.
    { eapply (has_live_child_in _ _ new); [|done|done]. apply (dict_get_value ck). simpl.
      by rewrite dict_get_set, decide_True. }
    rewrite orb_true_r, (update_leaf_status_run new nn v) by done. bind_step.
    unfold has_live_child. rewrite F1, F5. simpl. rewrite Elv.
    change (with_leaves _ (with_leaves _ s1)) with s3. by rewrite Hrec.
  - rewrite G2. change (tree s3) with (tree s1). split; try done.
    + by apply tree_lookup.
    + unfold tree. by rewrite lookup_fmap, Hfr.
    + split; simpl; [done|apply Hky|apply Hky|eauto|done].
    + rewrite (tree_lookup _ _ _ Hnn). unfold shape_of. by rewrite F1, F2, F3, F4, F5.
    + by rewrite (tree_lookup _ _ _ Hnd1).
    + intros n Hn1 Hn2. unfold tree. by rewrite !lookup_fmap, Hoth.
  - intros He n nd' Hn Hr Hnd'. rewrite G1, Ecfg in He. rewrite G4, Eroot in Hr.
    assert (psize s' = psize s) as -> by (unfold psize; congruence).
    destruct (decide (n = new)) as [->|Hnn'].
    { destruct (Hhs ltac:(by rewrite Ecfg) nd' Hnd') as (hs & ? & Hl).
      exists hs. split; [done|]. rewrite Hl. unfold psize. simpl. by rewrite Ecfg. }
    rewrite Hoth' in Hnd' by done. simpl in Hnd'. destruct (decide (n = node)) as [->|Hnn2].
    { assert (nd' = set_children (dict_set ck new (children nd)) nd) as -> by congruence. simpl.
      by apply (inv_hashes _ _ _ _ _ I He node). }
    rewrite Hoth in Hnd' by done. apply (inv_hashes _ _ _ _ _ I He n); [set_solver|done..].
Qed.

Lemma add_leaf_spec :
  exists s' P', (forall total, add_leaf prio chunked node k v ck total s = Ok (s', (total, new))) /\
    leaf_step (psize s) (is_eagle (cfg s)) (tree s) (tree s') (root_node s) L node new (shape_of nd) k v ck /\
    Inv_at s' ({[new]} ∪ L) P' Hd None /\ cfg s' = cfg s /\ root_node s' = root_node s /\
    evictable_size_ s' = (evictable_size_ s + Z.of_nat (key_len k))%Z /\
    protected_size_ s' = protected_size_ s.
Proof using All.
  destruct new_fresh as (Hfr & HnewL & Hne). pose proof (inv_wf _ _ _ _ _ I) as W.
  destruct add_leaf_run as (s' & Hrun & S & Ecfg & Eroot & Ecnt & Eev & Epr & Elv & Hhs).
  exists s', (leaf_path (P := P) node new k v).
  split; [done|]. split; [done|]. split; [|done].
  assert (psize s' = psize s) as Eps by (unfold psize; by rewrite Ecfg).
  split; [| | |apply I| |done|].
  - rewrite Eps, Ecfg, Eroot. by eapply leaf_step_wf.
  - intros n sh Hn. rewrite Ecnt. destruct (decide (n = new)) as [->|Hnn]; [unfold new; lia|].
    destruct (decide (n = node)) as [->|Hnn2].
    + apply tree_lookup, (inv_fresh _ _ _ _ _ I) in Hnd. lia.
    + rewrite (lf_Toth _ _ _ _ _ _ _ _ _ _ _ _ S) in Hn by done. apply (inv_fresh _ _ _ _ _ I) in Hn. lia.
  - rewrite Eroot. apply (leaf_step_locks W S); [|apply I].
    destruct (decide (Hd new = 0%Z)) as [|Hn0]; [done|]. by apply (inv_held_live _ _ _ _ _ I) in Hn0.
  - intros n Hn0. apply (inv_held_live _ _ _ _ _ I) in Hn0. set_solver.
  - rewrite Eroot, Eev, Epr, Elv. apply (leaf_step_books W S), I.
Qed.

End add_leaf.

(** ** The whole insertion *)

(** The slots [insert] uses: the caller's, or (in tests) the tokens. *)
Definition ins_slots s (k : RadixKey) (v : option (list Z)) : list Z :=
  take (key_len (aligned s k)) (default (token_ids (aligned s k)) v).

(** What an insertion of [K] in slots [v] does to the cache, given that [q]
    (in slots [w]) is the longest prefix already cached. *)
Record inserted Hd s L s' L' P' (ek : option string) (K q : list kunit) (w v : list Z) (last : nat)
    : Prop := {
  is_inv : Inv_at s' L' P' Hd None;
  is_longest : longest_cached s ek K q w;
  is_sub : L ⊆ L';
  is_cfg : cfg s' = cfg s /\ root_node s' = root_node s;
  is_content ek' p vs : cached s' ek' p vs <->
    cached s ek' p vs \/
    (ek' = ek /\ p `prefix_of` K /\ (psize s | length p) /\ vs = take (length p) (w ++ drop (length w) v));
  is_owned : owned (tree s') L' ≡ₚ drop (length w) v ++ owned (tree s) L;
  is_ev : evictable_size_ s' = (evictable_size_ s + Z.of_nat (length K - length q))%Z;
  is_prot : protected_size_ s' = protected_size_ s;
  is_last : path_from (tree s') ek (root_node s) K (w ++ drop (length w) v) last;
}.

Lemma cached_prefix s L P Hd ek p vs j :
  Inv_at s L P Hd None -> cached s ek p vs -> (psize s | j) -> cached s ek (take j p) (take j vs).
Proof. intros I. apply (slots_from_take (inv_wf _ _ _ _ _ I)), (inv_wf _ _ _ _ _ I). Qed.

(** All of the key was cached. *)
Lemma inserted_nothing Hd s L P s' L' P' ek K w v last :
  Inv_at s L P Hd None -> refines Hd s L P s' L' P' -> longest_cached s ek K K w -> length v = length K ->
  path_from (tree s') ek (root_node s) K w last ->
  inserted Hd s L s' L' P' ek K K w v last.
Proof.
  intros I R Hlc Hv Hp. destruct (books_psize _ _ (rf_books _ _ _ _ _ _ _ R)) as (Eps & Eroot & Ecfg).
  pose proof (rf_books _ _ _ _ _ _ _ R) as Hb. unfold books in Hb. injection Hb as _ _ E1 E2 E3.
  assert (Hw : length w = length K).
  { apply (slots_from_length (inv_wf _ _ _ _ _ I) ek (root_node s)); [apply (inv_wf _ _ _ _ _ I)|apply Hlc]. }
  rewrite <- Hw in Hv. assert (drop (length w) v = []) as Ed by (apply drop_ge; lia).
  split; rewrite ?Ed, ?app_nil_r; try done; try apply R.
  - intros ek' p vs. rewrite (rf_content _ _ _ _ _ _ _ R). split; [by left|].
    intros [Hc|(-> & [r ->] & Hd' & ->)]; [done|].
    replace p with (take (length p) (p ++ r)) at 1 by (by rewrite take_app_length).
    eapply cached_prefix; [done|apply Hlc|done].
  - rewrite E1. lia.
Qed.

(** A leaf was added below the node the descent reached. *)
Lemma inserted_leaf Hd s L P s1 L1 P1 s' P' ek q w k v node nd ck new :
  Inv_at s L P Hd None -> refines Hd s L P s1 L1 P1 -> longest_cached s ek (q ++ key_iter k) q w ->
  path_from (tree s1) ek (root_node s) q w node -> length v = length (q ++ key_iter k) ->
  ek = extra_key k ->
  leaf_step (psize s1) (is_eagle (cfg s1)) (tree s1) (tree s') (root_node s1) L1 node new nd k
    (drop (length q) v) ck ->
  Inv_at s' ({[new]} ∪ L1) P' Hd None -> cfg s' = cfg s1 -> root_node s' = root_node s1 ->
  evictable_size_ s' = (evictable_size_ s1 + Z.of_nat (key_len k))%Z ->
  protected_size_ s' = protected_size_ s1 ->
  inserted Hd s L s' ({[new]} ∪ L1) P' ek (q ++ key_iter k) q w v new.
Proof.
  intros I R Hlc Hp Hv -> S I' Ecfg' Eroot' Eev Epr. pose proof (rf_inv _ _ _ _ _ _ _ R) as I1.
  destruct (books_psize _ _ (rf_books _ _ _ _ _ _ _ R)) as (Eps & Eroot & Ecfg).
  pose proof (rf_books _ _ _ _ _ _ _ R) as Hb. unfold books in Hb. injection Hb as _ _ E1 E2 E3.
  pose proof (inv_wf _ _ _ _ _ I1) as W1. rewrite <- Eroot in Hp.
  destruct (path_to_live W1 _ _ _ _ Hp) as (Hq & HnL & _).
  assert (Eps' : psize s' = psize s1) by (unfold psize; by rewrite Ecfg').
  destruct (path_from_wf W1 _ _ _ _ _ (wf_root_in _ _ _ _ _ _ W1) Hp) as (_ & _ & Hw & Hdq).
  pose proof (length_key_iter k) as Hlk. pose proof (rf_sub _ _ _ _ _ _ _ R).
  split; rewrite ?Hw; try done; [set_solver|by rewrite Ecfg', Eroot'|..].
  - intros ek' p vs. unfold cached at 1. rewrite Eps', Eroot', (leaf_step_content W1 S), <- Hq.
    fold (cached s1 ek' p vs). rewrite (rf_content _ _ _ _ _ _ _ R). rewrite <- Eps. split.
    + intros [Hc|(-> & vn & j & Hvn & Hj & Hdj & -> & ->)]; [by left|right]. split; [done|].
      rewrite (path_functional W1 _ _ _ _ _ _ _ (wf_root_in _ _ _ _ _ _ W1) Hvn Hp).
      rewrite length_app, length_take, Hlk, Nat.min_l by lia.
      split; [apply prefix_app, prefix_take|]. split; [by apply Nat.divide_add_r|].
      by rewrite take_app_add'.
    + intros [Hc|(-> & [r Hr] & Hdp & ->)]; [by left|].
      destruct (decide (length p <= length q)) as [Hle|Hgt].
      * left. assert (p = take (length p) q) as Ep.
        { apply (f_equal (take (length p))) in Hr. by rewrite take_app_length, take_app_le in Hr by lia. }
        rewrite Ep at 1. rewrite take_app_le by lia. rewrite Eps in Hdp.
        eapply cached_prefix; [done|apply Hlc|done].
      * right. split; [done|]. exists w, (length p - length q).
        apply (f_equal length) in Hr as Hlr. rewrite !length_app in Hlr.
        split; [done|]. split; [lia|]. split; [by apply Nat.divide_sub_r|]. split.
        { apply (f_equal (take (length p))) in Hr. rewrite take_app_length, take_app, (take_ge q) in Hr by lia. done. }
        rewrite take_app, (take_ge w), Hw by lia. done.
  - rewrite (leaf_step_owned W1 _ _ _ _ _ _ S). by rewrite (rf_owned _ _ _ _ _ _ _ R).
  - rewrite Eev, E1, length_app, Hlk. lia.
  - congruence.
  - rewrite <- Eroot. eapply path_trans; [eapply (leaf_step_path W1 S); [apply W1|done]|].
    eapply (path_one _ _ _ _ (mkShape [] (Some node) k (Some (drop (length q) v)) 0)). split.
    + eexists _, ck. split; [apply S|]. simpl. by rewrite dict_get_set, decide_True.
    + apply S.
    + done.
    + done.
Qed.

Lemma core_touch_root n t prio s :
  core s = core (raise_priority n prio (upd_node n (set_last_access_time t) (with_ticks (S (ticks s)) s))).
Proof. unfold raise_priority. by rewrite (core_quiet _ _ _ (quiet_priority prio)), (core_quiet _ _ _ (quiet_access t)). Qed.

Lemma insert_helper_run s L P Hd k v prio chunked :
  Inv_at s L P Hd None -> key_ok s k -> hashable s k -> length v = key_len k ->
  exists s' L' P' last q w, insert_helper (root_node s) k v prio chunked s = Ok (s', (length q, last)) /\
    inserted Hd s L s' L' P' (extra_key k) (key_iter k) q w v last.
Proof.
  intros I Hky Hhash Hv. unfold insert_helper, now. set (s0 := raise_priority _ _ _).
  pose proof (core_touch_root (root_node s) (monotonic (ticks s)) (default 0%Z prio) s) as Ec. fold s0 in Ec.
  pose proof (refines_core Hd s s0 L P Ec I) as R0. pose proof (rf_inv _ _ _ _ _ _ _ R0) as I0.
  pose proof (inv_wf _ _ _ _ _ I) as W. pose proof (length_key_iter k) as Hlk.
  destruct (key_len k =? 0) eqn:E0.
  { apply Nat.eqb_eq in E0. exists s0, L, P, (root_node s), [], [].
    assert (key_iter k = []) as -> by (apply length_zero_iff_nil; lia). split; [done|].
    apply (inserted_nothing Hd s L P); [done|done|split|simpl; lia|constructor].
    - done.
    - constructor.
    - intros p vs _ [r Hr]. by destruct p. }
  apply Nat.eqb_neq in E0. assert (Hky0 : key_ok s0 k) by (by apply (key_ok_cfg s)).
  pose proof (key_ok_page _ _ _ _ _ I0 Hky0 ltac:(lia)) as Hps.
  rewrite (child_key_spec k (psize s0) Hps). bind_step.
  set (ck := (extra_key k, plain_of _ _ _)).
  destruct (insert_loop_spec (S (key_len k)) (monotonic (ticks s)) (default 0%Z prio) chunked s0 L P Hd
    (root_node s) k v ck 0 [] [])
    as (s1 & L1 & P1 & node & nd & k' & ck' & q & vq & -> & R1 & Hp & Hk & Hky' & He' & Hnd & Hck' & Hmax);
    [done|apply W|constructor|done|by intros _; apply child_key_spec|lia|].
  bind_step. pose proof (refines_trans _ _ _ _ _ _ _ _ _ _ R0 R1) as R. simpl in Hp.
  pose proof (rf_inv _ _ _ _ _ _ _ R1) as I1.
  destruct (books_psize _ _ (rf_books _ _ _ _ _ _ _ R)) as (Eps & Eroot & Ecfg).
  assert (Hlc : longest_cached s (extra_key k) (key_iter k) q vq).
  { split; [rewrite Hk; by apply prefix_app_r| |].
    - apply (rf_content _ _ _ _ _ _ _ R), (cached_path _ _ _ _ _ _ _ node I1). by rewrite Eroot.
    - intros p vs Hc. apply (Hmax p vs). by apply (rf_content _ _ _ _ _ _ _ R0) in Hc. }
  destruct (0 <? key_len k') eqn:E1; [apply Nat.ltb_lt in E1|apply Nat.ltb_ge in E1].
  - destruct (Hck' E1) as [Hc Hnone]. change (root_node s0) with (root_node s) in Hp. rewrite <- Eroot in Hp.
    destruct (path_to_live (inv_wf _ _ _ _ _ I1) _ _ _ _ Hp) as (HPq & HnL & Hns).
    destruct (add_leaf_spec (s := s1) (nd := nd) (node := node) (k := k') (v := drop (length q) v) (ck := ck')
      (default 0%Z prio) chunked I1 HnL Hnd) as (s' & P' & Hrun & S & I' & G1 & G2 & G3 & G4).
    + by apply (key_ok_cfg s0).
    + done.
    + rewrite length_drop, Hv, <- Hlk, Hk, length_app, length_key_iter. lia.
    + rewrite Eps. done.
    + done.
    + intros Hr. rewrite He'. apply (Hns (shape_of nd)); [by apply tree_lookup|done].
    + intros He. specialize (Hhash ltac:(congruence)). rewrite Hk, bind_app, forallb_app in Hhash.
      by apply andb_true_iff in Hhash as [_ ?].
    + exists s', ({[counter s1]} ∪ L1), P', (counter s1), q, vq. split; [apply Hrun|].
      rewrite Hk, <- He'. rewrite Hk in Hlc. eapply (inserted_leaf Hd s L P s1 L1 P1); try done.
      * by rewrite He'.
      * by rewrite He', <- Eroot.
      * rewrite Hv, <- Hlk. by rewrite Hk.
  - assert (key_iter k' = []) as Ek' by (apply length_zero_iff_nil; rewrite length_key_iter; lia).
    rewrite Ek', app_nil_r in Hk. rewrite Hk in *.
    exists s1, L1, P1, node, q, vq. split; [done|].
    eapply inserted_nothing; try done. lia.
Qed.

Lemma insert_run s L P Hd k v prio chunked :
  Inv_at s L P Hd None -> disable (cfg s) = false -> kind_ok s k -> hashable s (aligned s k) ->
  (forall x, v = Some x -> key_len (aligned s k) <= length x) ->
  exists s' L' P' last q w, insert k v prio chunked s = Ok (s', (length q, Some last)) /\
    inserted Hd s L s' L' P' (extra_key k) (key_iter (aligned s k)) q w (ins_slots s k v) last.
Proof.
  intros I Hdis Hk Hhash Hv. destruct (aligned_ok s k Hk) as [Hky He].
  unfold insert. rewrite Hdis.
  assert (exists k1 v1, maybe_to_bigram_view k (is_eagle (cfg s)) v = (k1, v1) /\
    page_aligned k1 (psize s) = aligned s k /\
    take (key_len (aligned s k)) (default (token_ids (aligned s k)) v1) = ins_slots s k v) as (k1 & v1 & -> & Ea & Es).
  { unfold ins_slots, aligned, maybe_to_bigram_view.
    destruct (is_eagle (cfg s) && negb (is_bigram k)); simpl; [|by eexists _, _].
    eexists _, _. split; [done|]. split; [done|]. destruct v as [x|]; simpl; [|done].
    rewrite take_take. f_equal. rewrite page_aligned_len.
    pose proof (page_floor_le (psize s) (key_len (mkRadixKey (token_ids k) (extra_key k) true (limit k)))). lia. }
  rewrite Ea.
  assert ((match v1 with Some v => take (key_len (aligned s k)) v | None => take (key_len (aligned s k)) (token_ids (aligned s k)) end)
    = ins_slots s k v) as ->.
  { rewrite <- Es. by destruct v1. }
  destruct (insert_helper_run s L P Hd (aligned s k) (ins_slots s k v) prio chunked)
    as (s' & L' & P' & last & q & w & -> & Hi); [done..| |].
  { unfold ins_slots. rewrite length_take. destruct v as [x|]; simpl.
    - specialize (Hv x eq_refl). lia.
    - pose proof (raw_len_le (aligned s k)). pose proof (key_len_le_raw (aligned s k)). lia. }
  bind_step. rewrite He in Hi. eauto 10.
Qed.

End with_env.
