(* ===== verification/RadixKeyClaims.v ===== *)
(** * RadixKeyClaims: keys, page hashes and cache events

    The contract of [RadixKey.match] and [RadixKey.child_key], of the 64-bit
    block ids, and of the [BlockStored] events of a new node. *)

From S2P Require Import Prelude RadixKey RadixNode RadixTree RadixInv RadixSteps RadixOps RadixInsert.

(** ** Keys *)

(** [RadixKey.match] returns the length of the longest
    common prefix of the two unit sequences (tokens, or bigrams of an EAGLE
    key, up to the keys' limits), rounded down to whole pages; the galloping
    search and bisection always end.  Keys of different namespaces are
    refused with ValueError. *)
Theorem radix_match_is_lcp k1 k2 ps :
  is_bigram k1 = is_bigram k2 -> 0 < ps ->
  radix_match k1 k2 ps =
  if decide (extra_key k1 = extra_key k2)
  then Ok (page_floor ps (lcp_len (key_iter k1) (key_iter k2))) else Raise ValueError.
Proof.
  intros Hb Hps. destruct (decide (extra_key k1 = extra_key k2)) as [He|He].
  - by apply radix_match_lcp.
  - unfold radix_match, check_compatible. by rewrite decide_False.
Qed.

Lemma radix_match_is_lcp_witness :
  radix_match (mkRadixKey [1; 2; 3; 4; 5]%Z None false None) (mkRadixKey [1; 2; 3; 9]%Z None false (Some 4)) 2 =
  Ok (page_floor 2 (lcp_len [Tok 1; Tok 2; Tok 3; Tok 4; Tok 5]%Z [Tok 1; Tok 2; Tok 3; Tok 9]%Z)).
Proof.
  apply (radix_match_is_lcp (mkRadixKey [1; 2; 3; 4; 5]%Z None false None) (mkRadixKey [1; 2; 3; 9]%Z None false (Some 4)) 2);
    [reflexivity|lia].
Defined.

(** Two keys of at least a page get the same
    dictionary key exactly when they agree on namespace and first page, so a
    node never has two children that share a page. *)
Theorem child_key_identifies_page k1 k2 ps :
  is_bigram k1 = is_bigram k2 -> 0 < ps <= key_len k1 -> ps <= key_len k2 ->
  exists c1 c2, child_key k1 ps = Ok c1 /\ child_key k2 ps = Ok c2 /\
    (c1 = c2 <-> extra_key k1 = extra_key k2 /\ take ps (key_iter k1) = take ps (key_iter k2)).
Proof.
  intros Hb H1 H2. eexists _, _. split; [apply child_key_spec; lia|]. split; [apply child_key_spec; lia|].
  rewrite <- (child_key_eq_iff k1 k2 ps Hb H1 H2), !child_key_spec by lia. split; [by intros ->|by intros [= -> ->]].
Qed.

Lemma child_key_identifies_page_witness :
  exists c1 c2, child_key (mkRadixKey [1; 2; 3]%Z None true None) 2 = Ok c1 /\
    child_key (mkRadixKey [1; 2; 3; 4]%Z None true None) 2 = Ok c2 /\
    (c1 = c2 <-> None = None :> option string /\
       take 2 [Bigram 1 2; Bigram 2 3]%Z = take 2 [Bigram 1 2; Bigram 2 3; Bigram 3 4]%Z).
Proof.
  apply (child_key_identifies_page (mkRadixKey [1; 2; 3]%Z None true None) (mkRadixKey [1; 2; 3; 4]%Z None true None) 2);
    [reflexivity|vm_compute; lia|vm_compute; lia].
Defined.

(** ** 64-bit block ids *)

Definition hex_digits (h : hexstr) : Prop := Forall (fun d => (0 <= d < 16)%Z) h.

Lemma hex_to_int_acc ds acc :
  foldl (fun acc d => acc * 16 + d)%Z acc ds = (acc * 16 ^ Z.of_nat (length ds) + hex_to_int ds)%Z.
Proof.
  unfold hex_to_int. revert acc. induction ds as [|d ds IH]; intros acc; cbn [foldl length]; [simpl; lia|].
  rewrite (IH (acc * 16 + d)%Z), (IH (0 * 16 + d)%Z), Nat2Z.inj_succ, Z.pow_succ_r by lia. lia.
Qed.

Lemma hex_to_int_cons d ds : hex_to_int (d :: ds) = (d * 16 ^ Z.of_nat (length ds) + hex_to_int ds)%Z.
Proof. unfold hex_to_int at 1. cbn [foldl]. rewrite hex_to_int_acc. lia. Qed.

Lemma hex_to_int_bound ds : hex_digits ds -> (0 <= hex_to_int ds < 16 ^ Z.of_nat (length ds))%Z.
Proof.
  induction 1 as [|d ds Hd _ IH]; [unfold hex_to_int; simpl; lia|].
  rewrite hex_to_int_cons. cbn [length]. rewrite Nat2Z.inj_succ, Z.pow_succ_r by lia. nia.
Qed.

Lemma hex_to_int_inj ds es :
  length ds = length es -> hex_digits ds -> hex_digits es -> hex_to_int ds = hex_to_int es -> ds = es.
Proof.
  intros Hl Hd. revert es Hl. induction Hd as [|d ds Hd Hds IH]; intros [|e es] Hl He Heq; simpl in *; try lia; [done|].
  apply Forall_cons in He as [He Hes]. rewrite !hex_to_int_cons in Heq.
  pose proof (hex_to_int_bound ds Hds) as B1. pose proof (hex_to_int_bound es Hes) as B2.
  assert (length ds = length es) as El by lia. rewrite <- El in Heq, B2.
  assert (d = e) as -> by nia. f_equal. apply IH; [done|done|lia].
Qed.

(** A block id is a signed 64-bit integer, the
    first 16 digits of the digest read modulo 2^64; digests that differ in
    these digits get different ids. *)
Theorem hash_str_to_int64_range h h' :
  hex_digits h -> hex_digits h' -> 16 <= length h -> 16 <= length h' ->
  (- 2 ^ 63 <= hash_str_to_int64 h < 2 ^ 63)%Z /\
  (hash_str_to_int64 h mod 2 ^ 64 = hex_to_int (take 16 h))%Z /\
  (hash_str_to_int64 h = hash_str_to_int64 h' <-> take 16 h = take 16 h').
Proof.
  intros H1 H2 L1 L2.
  assert (B : forall x, hex_digits x -> 16 <= length x -> (0 <= hex_to_int (take 16 x) < 2 ^ 64)%Z).
  { intros x Hx Hl. pose proof (hex_to_int_bound (take 16 x) (Forall_take _ _ _ Hx)) as B.
    rewrite length_take_le in B by done. change (2 ^ 64)%Z with (16 ^ Z.of_nat 16)%Z. done. }
  pose proof (B h H1 L1) as B1. pose proof (B h' H2 L2) as B2. unfold hash_str_to_int64.
  destruct (Z.leb_spec (2 ^ 63) (hex_to_int (take 16 h))), (Z.leb_spec (2 ^ 63) (hex_to_int (take 16 h'))).
  all: split; [lia|split; [|split; [|intros E; rewrite E in *; lia]]].
  all: try (symmetry; apply (Z.mod_unique _ _ (-1)); lia).
  all: try (apply Z.mod_small; lia).
  all: intros E; apply hex_to_int_inj;
    [rewrite !length_take_le by done; done|exact (Forall_take _ _ _ H1)|exact (Forall_take _ _ _ H2)|lia].
Qed.

Lemma hash_str_to_int64_range_witness :
  (- 2 ^ 63 <= hash_str_to_int64 (replicate 16 15) < 2 ^ 63)%Z /\
  (hash_str_to_int64 (replicate 16 15) mod 2 ^ 64 = hex_to_int (take 16 (replicate 16 15)))%Z /\
  (hash_str_to_int64 (replicate 16 15%Z) = hash_str_to_int64 (replicate 17 3%Z) <->
   take 16 (replicate 16 15%Z) = take 16 (replicate 17 3%Z)).
Proof.
  apply (hash_str_to_int64_range (replicate 16 15%Z) (replicate 17 3%Z)); try (apply Forall_replicate; lia); simpl; lia.
Defined.

(** ** Store events *)

(** The pages of a sequence put together are the sequence. *)
Lemma pages_of_concat {A} ps (us : list A) : 0 < ps -> concat (pages_of ps us) = us.
Proof.
  intros Hps. unfold pages_of. set (n := page_count ps (length us)).
  assert (Hn : length us <= n * ps).
  { unfold n, page_count. pose proof (Nat.div_mod (length us + ps - 1) ps ltac:(lia)).
    pose proof (Nat.mod_upper_bound (length us + ps - 1) ps ltac:(lia)). nia. }
  assert (forall m, concat ((fun i => slice (i * ps) ((i + 1) * ps) us) <$> seq 0 m) = take (m * ps) us) as ->.
  { induction m as [|m IH]; [done|]. rewrite seq_S, fmap_app, concat_app, IH. simpl. rewrite app_nil_r.
    rewrite <- (slice_0 (m * ps)), <- (slice_0 (ps + m * ps)). rewrite slice_split by lia. f_equal. lia. }
  by apply take_ge.
Qed.

Lemma stored_events_chain med par pages hs :
  length pages <= length hs ->
  exists evs, stored_events med par pages hs = Ok evs /\ length evs = length pages /\
    forall i page h, pages !! i = Some page -> hs !! i = Some h ->
      evs !! i = Some (BlockStored [hash_str_to_int64 h]
        (match i with 0 => par | S j => hash_str_to_int64 <$> hs !! j end) page (length page) None med).
Proof.
  revert par hs. induction pages as [|p pages IH]; intros par [|h hs] Hl; simpl in *; try lia; [by exists []..|].
  destruct (IH (Some (hash_str_to_int64 h)) hs) as (evs & -> & Hlen & Hev); [lia|]. bind_step.
  eexists. split; [done|]. split; [by rewrite <- Hlen|].
  intros [|i] page h' Hp Hh; simpl in *; [by simplify_eq|]. rewrite (Hev i page h' Hp Hh). by destruct i.
Qed.

(** The hash the first event of node [nd] links to: the last page of its
    parent, none for a child of the root. *)
Definition parent_link (s : RadixCache) (nd : TreeNode) : option Z :=
  p ← parent nd;
  if decide (p = root_node s) then None
  else pd ← nodes s !! p; hash_str_to_int64 <$> (hash_value pd ≫= last).

(** Recording a new node appends one [BlockStored] per
    page of its key, in order and together covering the key; the first links
    to the parent's last page and each other to the page before it, and the
    hashes are kept on the node. *)
Theorem store_event_chain `{Env} n nd s :
  nodes s !! n = Some nd -> hash_value nd = None -> parent nd <> Some n -> 0 < psize s ->
  enable_kv_cache_events (cfg s) = true -> hashable s (key nd) ->
  let pages := pages_of (psize s) (key_iter (key nd)) in
  exists s' hs evs, record_store_event n s = Ok s' /\
    nodes s' = <[n := set_hash_value (Some hs) nd]> (nodes s) /\
    kv_event_queue s' = kv_event_queue s ++ evs /\ length hs = length pages /\ length evs = length pages /\
    concat pages = key_iter (key nd) /\
    forall i page h, pages !! i = Some page -> hs !! i = Some h ->
      evs !! i = Some (BlockStored [hash_str_to_int64 h]
        (match i with 0 => parent_link s nd | S j => hash_str_to_int64 <$> hs !! j end) page (length page) None GPU).
Proof.
  intros Hn Hh Hpn Hps Hev Hchk pages. unfold record_store_event, ensure_hash. rewrite Hev.
  rewrite (get_node_Ok _ _ _ Hn). bind_step. rewrite Hh.
  unfold compute_node_hash_values, get_hash_str. rewrite (Hchk Hev).
  set (hs := hash_pages _ _). bind_step. set (s1 := upd_node n _ s).
  assert (Hn1 : nodes s1 !! n = Some (set_hash_value (Some hs) nd)) by (by apply nodes_upd_eq).
  rewrite (get_node_Ok _ _ _ Hn1). bind_step.
  assert (Hlen : length hs = length pages) by (unfold hs; by rewrite length_hash_pages).
  set (par := match parent _ with Some p => _ | None => None end).
  assert (par = parent_link s nd) as Epar.
  { unfold par, parent_link. simpl. destruct (parent nd) as [p|] eqn:Ep; [|done]. simpl.
    destruct (decide (p = root_node s)); [done|]. rewrite lookup_alter_ne by congruence. by destruct (nodes s !! p). }
  destruct (stored_events_chain GPU par pages hs) as (evs & Hrun & Hle & Hch); [lia|].
  change (pages_of (psize s1) (key_iter (key (set_hash_value (Some hs) nd)))) with pages. rewrite Hrun. bind_step.
  exists (with_events (kv_event_queue s1 ++ evs) s1), hs, evs. split; [done|].
  split; [simpl; rewrite <- (insert_id (nodes s) n nd Hn) at 1; apply alter_insert_eq|]. split; [done|]. split; [done|]. split; [done|].
  split; [by apply pages_of_concat|]. rewrite <- Epar. apply Hch.
Qed.

#[local] Instance chain_env : Env := {|
  monotonic n := Z.of_nat n;
  sha256 prior ws := replicate 64 (foldr Z.add 0 ws mod 16)%Z;
|}.

(** A cache of page size 2 with a root and an unhashed leaf of five tokens. *)
Definition chain_node : TreeNode :=
  set_parent (Some 0) (set_key_value (mkRadixKey [7; 8; 9; 10; 11]%Z None false None) (Some [1; 2; 3; 4; 5]%Z) (fresh_node 1 2 0)).

Definition chain_cache : RadixCache :=
  with_nodes {[1 := chain_node]} (init_cache (mkConfig false 2 true false false false LRUStrategy)).

Lemma store_event_chain_witness :
  let pages := pages_of (psize chain_cache) (key_iter (key chain_node)) in
  exists s' hs evs, record_store_event 1 chain_cache = Ok s' /\
    nodes s' = <[1 := set_hash_value (Some hs) chain_node]> (nodes chain_cache) /\
    kv_event_queue s' = kv_event_queue chain_cache ++ evs /\ length hs = length pages /\ length evs = length pages /\
    concat pages = key_iter (key chain_node) /\
    forall i page h, pages !! i = Some page -> hs !! i = Some h ->
      evs !! i = Some (BlockStored [hash_str_to_int64 h]
        (match i with 0 => parent_link chain_cache chain_node | S j => hash_str_to_int64 <$> hs !! j end)
        page (length page) None GPU).
Proof.
  apply (store_event_chain 1 chain_node chain_cache); try reflexivity; [discriminate|vm_compute; lia|done].
Defined.
