(* ===== verification/RadixLock.v ===== *)
(** * RadixLock: lock counts

    [inc_lock_ref] and [dec_lock_ref] walk from a node to the root.  On a
    well-formed cache the walks end, keep the cache well formed with one lock
    more (less) held on the node, move sizes between the evictable and the
    protected account, and undo each other. *)

From S2P Require Import Prelude RadixKey RadixNode RadixTree RadixInv RadixSteps RadixContent RadixOps RadixInsert.

Section with_env.
Context `{Env}.
Implicit Types (s : RadixCache) (L : gset nat) (P : nat -> list kunit) (Hd : nat -> Z).

(** In a well-formed cache a live child is any child. *)
Lemma has_live_child_iff ps bg root s L P n nd :
  tree_wf ps bg (tree s) root L P -> n ∈ L -> nodes s !! n = Some nd ->
  has_live_child s nd = negb (bool_decide (children nd = [])).
Proof.
  intros W Hn Hnd.
  destruct (children nd) as [|[ck c] cs] eqn:Ec; [unfold has_live_child; by rewrite Ec|].
  rewrite bool_decide_false by done.
  destruct (wf_child_link W n (shape_of nd) ck c Hn (tree_lookup _ _ _ Hnd))
    as (sh & HcL & Hcr & _ & Hsh & _ & _ & Hok & _).
  { simpl. rewrite Ec. simpl. by rewrite decide_True. }
  destruct (tree_lookup_inv _ _ _ Hsh) as (cd & Hcd & <-). destruct (ok_value _ _ _ Hok) as (v & Hv & _).
  eapply (has_live_child_in _ _ c); [|done|done]. rewrite Ec. csimpl. apply elem_of_cons. by left.
Qed.

(** Nodes strictly above: the measure of the walks. *)
Definition height (P : nat -> list kunit) L (n : nat) : nat :=
  size (base.filter (fun m => length (P m) < length (P n)) L).

Lemma height_parent s L P Hd pend n nd p :
  Inv_at s L P Hd pend -> n ∈ L -> n <> root_node s -> nodes s !! n = Some nd -> parent nd = Some p ->
  p ∈ L /\ height P L p < height P L n.
Proof.
  intros I Hn Hr Hnd Hp. destruct (wf_below (inv_wf _ _ _ _ _ I) n (shape_of nd) Hn Hr (tree_lookup _ _ _ Hnd))
    as (p' & pd & Hp' & HpL & _ & _ & _ & _ & Hlt).
  simpl in Hp'. assert (p' = p) as -> by congruence. split; [done|].
  apply subset_size. split.
  - intros m. rewrite !elem_of_filter. intros [? ?]. split; [lia|done].
  - intros Hsub. specialize (Hsub p). rewrite !elem_of_filter in Hsub. destruct Hsub; [done|lia].
Qed.

Lemma height_bound s L P Hd pend n : Inv_at s L P Hd pend -> n ∈ L -> height P L n < size (nodes s).
Proof.
  intros I Hn. unfold height. rewrite <- size_dom. apply subset_size. split.
  - intros m. rewrite elem_of_filter. intros [_ Hm]. apply elem_of_dom.
    destruct (wf_lookup (inv_wf _ _ _ _ _ I) m Hm) as [sh Hsh].
    apply tree_lookup_inv in Hsh as (nd & ? & _). eauto.
  - intros Hsub. specialize (Hsub n). rewrite elem_of_filter in Hsub. destruct Hsub as [? _]; [|lia].
    apply elem_of_dom. destruct (wf_lookup (inv_wf _ _ _ _ _ I) n Hn) as [sh Hsh].
    apply tree_lookup_inv in Hsh as (nd & ? & _). eauto.
Qed.

(** ** One step of a walk *)

(** [s'] is [s] with node [n]'s lock count changed by [d] and the books
    updated for it. *)
Record lock_moved (n : nat) (d : Z) (nd : TreeNode) s s' : Prop := {
  lm_nodes : nodes s' = alter (set_lock_ref (lock_ref nd + d)) n (nodes s);
  lm_cfg : cfg s' = cfg s;
  lm_root : root_node s' = root_node s;
  lm_counter : counter s' = counter s;
  lm_ev : evictable_size_ s' = (evictable_size_ s +
    ((if decide (lock_ref nd + d = 0)%Z then Z.of_nat (key_len (key nd)) else 0)
     - (if decide (lock_ref nd = 0)%Z then Z.of_nat (key_len (key nd)) else 0)))%Z;
  lm_prot : protected_size_ s' = (protected_size_ s +
    ((if decide (lock_ref nd + d = 0)%Z then 0 else Z.of_nat (key_len (key nd)))
     - (if decide (lock_ref nd = 0)%Z then 0 else Z.of_nat (key_len (key nd)))))%Z;
  lm_leaves : evictable_leaves s' =
    if decide ((lock_ref nd + d = 0)%Z /\ children nd = []) then evictable_leaves s ∪ {[n]}
    else evictable_leaves s ∖ {[n]};
}.

Lemma lock_moved_view n d nd s s' :
  nodes s !! n = Some nd -> lock_moved n d nd s s' -> content_view (tree s') = content_view (tree s).
Proof.
  intros Hnd M. apply map_eq. intros m. unfold content_view, tree.
  rewrite (lm_nodes _ _ _ _ _ M), !lookup_fmap. destruct (decide (n = m)) as [<-|Hne].
  - rewrite lookup_alter_eq, Hnd. done.
  - by rewrite lookup_alter_ne.
Qed.

Lemma lock_step s s' L P Hd n nd d p :
  Inv_at s L P Hd (Some (n, d)) -> n ∈ L -> n <> root_node s -> nodes s !! n = Some nd ->
  parent nd = Some p -> (0 <= lock_ref nd + d)%Z -> lock_moved n d nd s s' ->
  Inv_at s' L P Hd (Some (p, d)).
Proof.
  intros I Hn Hr Hnd Hp Hpos M. pose proof (inv_wf _ _ _ _ _ I) as W.
  destruct M as [M1 M2 M3 M4 M5 M6 M7].
  pose proof (tree_lookup _ _ _ Hnd) as Ht.
  assert (HTn : tree s' !! n = Some (mkShape (s_children (shape_of nd)) (s_parent (shape_of nd))
    (s_key (shape_of nd)) (s_value (shape_of nd)) (s_lock (shape_of nd) + d))).
  { unfold tree. by rewrite M1, lookup_fmap, lookup_alter_eq, Hnd. }
  assert (HTo : forall m, m <> n -> tree s' !! m = tree s !! m).
  { intros m Hm. unfold tree. by rewrite M1, !lookup_fmap, lookup_alter_ne by congruence. }
  assert (psize s' = psize s) as Eps by (unfold psize; by rewrite M2).
  split.
  - rewrite Eps, M2, M3. by apply (bump_wf W n (shape_of nd) d).
  - intros m sh Hm. rewrite M4. destruct (decide (m = n)) as [->|Hne].
    + by eapply (inv_fresh _ _ _ _ _ I).
    + rewrite HTo in Hm by done. by eapply (inv_fresh _ _ _ _ _ I).
  - rewrite M3. apply (bump_locks W n (shape_of nd) d Hn Hr Ht Hpos HTn HTo Hd p Hp), I.
  - apply I.
  - apply I.
  - intros He m md Hm Hmr Hmd. rewrite Eps. rewrite M2 in He. rewrite M3 in Hmr.
    rewrite M1 in Hmd. destruct (decide (n = m)) as [<-|Hne].
    + rewrite lookup_alter_eq, Hnd in Hmd. injection Hmd as <-. exact (inv_hashes _ _ _ _ _ I He n nd Hm Hmr Hnd).
    + rewrite lookup_alter_ne in Hmd by done. by apply (inv_hashes _ _ _ _ _ I He m).
  - rewrite M3, M5, M6, M7. by apply (bump_books W n (shape_of nd) d), I.
Qed.

(** ** The walks *)

(** What a walk of total effect [d] on node [n] does. *)
Record lock_walked Hd Hd' s s' L P (delta : Z) : Prop := {
  lw_inv : Inv_at s' L P Hd' None;
  lw_cfg : cfg s' = cfg s /\ root_node s' = root_node s;
  lw_view : content_view (tree s') = content_view (tree s);
  lw_delta : evictable_size_ s' = (evictable_size_ s + delta)%Z;
  lw_total : (evictable_size_ s' + protected_size_ s' = evictable_size_ s + protected_size_ s)%Z;
}.

Lemma lock_moved_sum n d nd s s' :
  lock_moved n d nd s s' ->
  (evictable_size_ s' + protected_size_ s' = evictable_size_ s + protected_size_ s)%Z.
Proof. intros M. rewrite (lm_ev _ _ _ _ _ M), (lm_prot _ _ _ _ _ M). repeat case_decide; lia. Qed.

(** At the root there is nothing left to carry. *)
Lemma lock_end s L P Hd d : Inv_at s L P Hd (Some (root_node s, d)) -> Inv_at s L P Hd None.
Proof.
  intros [I1 I2 I3 I4 I5 I6 I7]. split; try done.
  intros n nd Hn Hr Hnd. specialize (I3 n nd Hn Hr Hnd). simpl in I3. by rewrite decide_False in I3 by done.
Qed.

Lemma has_live_child_ext s s' nd nd' :
  children nd' = children nd -> (forall c, value <$> nodes s' !! c = value <$> nodes s !! c) ->
  has_live_child s' nd' = has_live_child s nd.
Proof.
  intros Ec Hv. unfold has_live_child. rewrite Ec. induction (children nd).*2 as [|c l IH]; simpl; [done|].
  rewrite IH. f_equal. specialize (Hv c). unfold evicted.
  destruct (nodes s' !! c), (nodes s !! c); simpl in *; try done. by injection Hv as ->.
Qed.

(** Setting the lock count and refreshing the leaf status. *)
Lemma relock_run s L P Hd pend n nd e p l :
  Inv_at s L P Hd pend -> n ∈ L -> n <> root_node s -> nodes s !! n = Some nd ->
  update_leaf_status n (upd_node n (set_lock_ref l) (with_sizes e p s)) =
  Ok (with_leaves (if (0 <? l)%Z || negb (bool_decide (children nd = []))
                   then evictable_leaves s ∖ {[n]} else evictable_leaves s ∪ {[n]})
        (upd_node n (set_lock_ref l) (with_sizes e p s))).
Proof.
  intros I Hn Hr Hnd. destruct (inv_child_key _ _ _ _ _ _ _ I Hn Hr Hnd) as (Hok & _).
  destruct (ok_value _ _ _ Hok) as (v & Hv & _).
  rewrite (update_leaf_status_run n (set_lock_ref l nd) v); [|by apply nodes_upd_eq|done].
  rewrite (has_live_child_ext s _ nd); [|done|].
  - by rewrite (has_live_child_iff _ _ _ _ _ _ _ _ (inv_wf _ _ _ _ _ I) Hn Hnd).
  - intros c. simpl. destruct (decide (n = c)) as [<-|Hne].
    + by rewrite lookup_alter_eq, Hnd.
    + by rewrite lookup_alter_ne.
Qed.

Lemma with_sizes_id s : with_sizes (evictable_size_ s) (protected_size_ s) s = s.
Proof. by destruct s. Qed.

Lemma pend_lock s L P Hd n nd d :
  Inv_at s L P Hd (Some (n, d)) -> n ∈ L -> n <> root_node s -> nodes s !! n = Some nd ->
  (0 <= lock_ref nd)%Z /\ (0 <= lock_ref nd + d)%Z.
Proof.
  intros I Hn Hr Hnd. pose proof (inv_wf _ _ _ _ _ I) as W.
  destruct (inv_child_key _ _ _ _ _ _ _ I Hn Hr Hnd) as (Hok & _). split; [apply Hok|].
  pose proof (inv_locks _ _ _ _ _ I n (shape_of nd) Hn Hr (tree_lookup _ _ _ Hnd)) as Hl. simpl in Hl.
  rewrite decide_True in Hl by done. rewrite Hl. apply Z.add_nonneg_nonneg; [apply I|].
  apply dict_sum_nonneg. intros c Hc. simpl in Hc.
  destruct (dict_value_get c (children nd)) as [k Hk]; [by apply (wf_nodup _ _ _ _ _ _ W n _ Hn (tree_lookup _ _ _ Hnd))|done|].
  destruct (wf_child_link W n (shape_of nd) k c Hn (tree_lookup _ _ _ Hnd) Hk) as (cd & _ & _ & _ & Hcd & _ & _ & Hokc & _).
  unfold lock_at. rewrite Hcd. apply Hokc.
Qed.

Lemma inc_lock_loop_spec fuel s L P Hd n delta :
  Inv_at s L P Hd (Some (n, 1%Z)) -> n ∈ L -> height P L n < fuel ->
  exists s' delta', inc_lock_loop fuel (Some n) delta s = Ok (s', (delta + delta')%Z) /\
    lock_walked Hd Hd s s' L P delta' /\ (delta' <= 0)%Z.
Proof.
  revert s n delta. induction fuel as [|fuel IH]; intros s n delta I Hn Hf; [lia|].
  cbn [inc_lock_loop]. case_decide as Er.
  { injection Er as ->. exists s, 0%Z. rewrite Z.add_0_r. split; [done|]. split; [|done].
    split; [by apply lock_end in I|done|done|lia|done]. }
  assert (Hr : n <> root_node s) by congruence. cbn [or_raise mbind res_bind].
  destruct (wf_lookup (inv_wf _ _ _ _ _ I) n Hn) as [sh Hsh]. apply tree_lookup_inv in Hsh as (nd & Hnd & _).
  rewrite (get_node_Ok _ _ _ Hnd). bind_step.
  destruct (pend_lock _ _ _ _ _ _ _ I Hn Hr Hnd) as [Hl0 Hl1].
  destruct (inv_child_key _ _ _ _ _ _ _ I Hn Hr Hnd) as (Hok & _ & _ & _ & p & _ & _ & Hp & HpL & _).
  destruct (height_parent _ _ _ _ _ _ _ _ I Hn Hr Hnd Hp) as [_ Hlt].
  set (e := (evictable_size_ s - (if (lock_ref nd =? 0)%Z then Z.of_nat (key_len (key nd)) else 0))%Z).
  set (pr := (protected_size_ s + (if (lock_ref nd =? 0)%Z then Z.of_nat (key_len (key nd)) else 0))%Z).
  assert ((if (lock_ref nd =? 0)%Z then _ else _) = (with_sizes e pr s, (delta + (e - evictable_size_ s))%Z)) as ->.
  { unfold e, pr. destruct (lock_ref nd =? 0)%Z; [f_equal; lia|].
    rewrite Z.sub_0_r, Z.add_0_r, with_sizes_id. f_equal. lia. }
  rewrite (relock_run _ _ _ _ _ _ _ e pr _ I Hn Hr Hnd). bind_step.
  set (s1 := with_leaves _ _).
  assert (M : lock_moved n 1 nd s s1).
  { unfold s1, e, pr. split; try done; simpl.
    - destruct (Z.eqb_spec (lock_ref nd) 0); repeat case_decide; lia.
    - destruct (Z.eqb_spec (lock_ref nd) 0); repeat case_decide; lia.
    - rewrite decide_False by lia. by rewrite (proj2 (Z.ltb_lt _ _)) by lia. }
  pose proof (lock_step _ _ _ _ _ _ _ _ _ I Hn Hr Hnd Hp Hl1 M) as I1.
  rewrite Hp. destruct (IH s1 p (delta + (e - evictable_size_ s))%Z I1 HpL ltac:(lia)) as (s' & delta' & -> & [W1 [W2 W2'] W3 W4 W5] & Hle).
  exists s', ((e - evictable_size_ s) + delta')%Z. split; [by rewrite Z.add_assoc|]. split.
  - split; [done|split; [by rewrite W2|by rewrite W2']|by rewrite W3, (lock_moved_view _ _ _ _ _ Hnd M)|..].
    + rewrite W4. simpl. lia.
    + rewrite W5. by apply (lock_moved_sum n 1 nd).
  - unfold e. destruct (lock_ref nd =? 0)%Z; lia.
Qed.

Lemma dec_lock_loop_spec fuel s L P Hd n delta :
  Inv_at s L P Hd (Some (n, (-1)%Z)) -> n ∈ L -> height P L n < fuel ->
  exists s' delta', dec_lock_loop fuel (Some n) delta s = Ok (s', (delta + delta')%Z) /\
    lock_walked Hd Hd s s' L P delta' /\ (0 <= delta')%Z.
Proof.
  revert s n delta. induction fuel as [|fuel IH]; intros s n delta I Hn Hf; [lia|].
  cbn [dec_lock_loop]. case_decide as Er.
  { injection Er as ->. exists s, 0%Z. rewrite Z.add_0_r. split; [done|]. split; [|done].
    split; [by apply lock_end in I|done|done|lia|done]. }
  assert (Hr : n <> root_node s) by congruence. cbn [or_raise mbind res_bind].
  destruct (wf_lookup (inv_wf _ _ _ _ _ I) n Hn) as [sh Hsh]. apply tree_lookup_inv in Hsh as (nd & Hnd & _).
  rewrite (get_node_Ok _ _ _ Hnd). bind_step.
  destruct (pend_lock _ _ _ _ _ _ _ I Hn Hr Hnd) as [Hl0 Hl1].
  destruct (inv_child_key _ _ _ _ _ _ _ I Hn Hr Hnd) as (Hok & _ & _ & _ & p & _ & _ & Hp & HpL & _).
  destruct (height_parent _ _ _ _ _ _ _ _ I Hn Hr Hnd Hp) as [_ Hlt].
  set (e := (evictable_size_ s + (if (lock_ref nd =? 1)%Z then Z.of_nat (key_len (key nd)) else 0))%Z).
  set (pr := (protected_size_ s - (if (lock_ref nd =? 1)%Z then Z.of_nat (key_len (key nd)) else 0))%Z).
  assert ((if (lock_ref nd =? 1)%Z then _ else _) = (with_sizes e pr s, (delta + (e - evictable_size_ s))%Z)) as ->.
  { unfold e, pr. destruct (lock_ref nd =? 1)%Z; [f_equal; lia|].
    rewrite Z.sub_0_r, Z.add_0_r, with_sizes_id. f_equal. lia. }
  rewrite (relock_run _ _ _ _ _ _ _ e pr _ I Hn Hr Hnd). bind_step.
  set (s1 := with_leaves _ _).
  assert (M : lock_moved n (-1) nd s s1).
  { unfold s1, e, pr. split; try done; simpl.
    - destruct (Z.eqb_spec (lock_ref nd) 1); repeat case_decide; lia.
    - destruct (Z.eqb_spec (lock_ref nd) 1); repeat case_decide; lia.
    - destruct (Z.ltb_spec 0 (lock_ref nd - 1)); simpl.
      + by rewrite decide_False by lia.
      + case_bool_decide; simpl; [rewrite decide_True by (split; [lia|done])|rewrite decide_False by tauto]; done. }
  pose proof (lock_step _ _ _ _ _ _ _ _ _ I Hn Hr Hnd Hp Hl1 M) as I1.
  rewrite Hp. cbn [py_assert mbind res_bind].
  destruct (IH s1 p (delta + (e - evictable_size_ s))%Z I1 HpL ltac:(lia)) as (s' & delta' & -> & [W1 [W2 W2'] W3 W4 W5] & Hle).
  exists s', ((e - evictable_size_ s) + delta')%Z. split; [by rewrite Z.add_assoc|]. split.
  - split; [done|split; [by rewrite W2|by rewrite W2']|by rewrite W3, (lock_moved_view _ _ _ _ _ Hnd M)|..].
    + rewrite W4. simpl. lia.
    + rewrite W5. by apply (lock_moved_sum n (-1) nd).
  - unfold e. destruct (lock_ref nd =? 1)%Z; lia.
Qed.

(** Taking (giving back) one lock on [n] opens a correction at [n]. *)
Lemma hold_pend s L P Hd n d :
  Inv_at s L P Hd None -> n ∈ L -> (0 <= Hd n + d)%Z ->
  Inv_at s L P (<[n := (Hd n + d)%Z]> Hd) (Some (n, d)).
Proof.
  intros [I1 I2 I3 I4 I5 I6 I7] Hn Hpos. split; try done.
  - intros m md Hm Hr Hmd. specialize (I3 m md Hm Hr Hmd). simpl in I3. case_decide as E.
    + subst m. rewrite fn_lookup_insert. lia.
    + by rewrite fn_lookup_insert_ne.
  - intros m. destruct (decide (n = m)) as [<-|Hne]; [by rewrite fn_lookup_insert|by rewrite fn_lookup_insert_ne].
  - intros m. destruct (decide (n = m)) as [<-|Hne]; [done|]. rewrite fn_lookup_insert_ne by done. apply I5.
Qed.

Lemma inc_lock_ref_run s L P Hd n :
  Inv_at s L P Hd None -> disable (cfg s) = false -> n ∈ L ->
  exists s' delta, inc_lock_ref n s = Ok (s', delta) /\
    lock_walked Hd (<[n := (Hd n + 1)%Z]> Hd) s s' L P delta /\ (delta <= 0)%Z.
Proof.
  intros I Hdis Hn. unfold inc_lock_ref. rewrite Hdis. pose proof (inv_held _ _ _ _ _ I n).
  pose proof (hold_pend _ _ _ _ _ 1 I Hn ltac:(lia)) as I1. pose proof (height_bound _ _ _ _ _ _ I Hn).
  destruct (inc_lock_loop_spec (S (size (nodes s))) s L P _ n 0 I1 Hn ltac:(lia)) as (s' & delta & Hrun & [W1 W2 W3 W4 W5] & Hle).
  exists s', delta. split; [done|]. split; [by split|done].
Qed.

Lemma dec_lock_ref_run s L P Hd n :
  Inv_at s L P Hd None -> disable (cfg s) = false -> (0 < Hd n)%Z ->
  exists s' delta, dec_lock_ref n s = Ok (s', delta) /\
    lock_walked Hd (<[n := (Hd n - 1)%Z]> Hd) s s' L P delta /\ (0 <= delta)%Z.
Proof.
  intros I Hdis Hpos. unfold dec_lock_ref. rewrite Hdis.
  assert (Hn : n ∈ L) by (apply (inv_held_live _ _ _ _ _ I); lia).
  pose proof (hold_pend _ _ _ _ _ (-1) I Hn ltac:(lia)) as I1. pose proof (height_bound _ _ _ _ _ _ I Hn).
  destruct (dec_lock_loop_spec (S (size (nodes s))) s L P _ n 0 I1 Hn ltac:(lia)) as (s' & delta & Hrun & [W1 W2 W3 W4 W5] & Hle).
  exists s', delta. split; [done|]. split; [by split|done].
Qed.

Lemma lock_walked_content Hd Hd' s s' L P delta ek p vs :
  lock_walked Hd Hd' s s' L P delta -> cached s' ek p vs <-> cached s ek p vs.
Proof.
  intros [_ [E1 E2] E3 _ _]. unfold cached, psize. rewrite E1, E2. split; by apply content_view_slots.
Qed.

Lemma lock_walked_owned Hd Hd' s s' L P delta :
  lock_walked Hd Hd' s s' L P delta -> owned (tree s') L = owned (tree s) L.
Proof. intros W. apply content_view_owned. symmetry. apply W. Qed.

End with_env.
