(* ===== verification/RadixEvict.v ===== *)
(** * RadixEvict: deletion and eviction

    Eviction removes unlocked leaves in the order of the configured strategy
    until enough tokens are free.  Proved here: it returns, keeps the cache
    well formed, frees exactly the slots of the nodes it removes (each the
    minimum of its heap), never touches what is locked, and stops only when
    enough was freed or nothing evictable is left. *)

From S2P Require Import Prelude RadixKey RadixNode RadixTree RadixInv RadixSteps RadixContent RadixOps RadixInsert RadixLock.

Section with_env.
Context `{Env}.
Implicit Types (s : RadixCache) (L : gset nat) (P : nat -> list kunit) (Hd : nat -> Z).

(** The attributes eviction priorities are computed from. *)
Definition prio_attrs (nd : TreeNode) : Z * Z * Z * Z :=
  (last_access_time nd, creation_time nd, hit_count nd, priority nd).

Definition prio_view s : gmap nat (Z * Z * Z * Z) := prio_attrs <$> nodes s.

Lemma get_priority_attrs st a b : prio_attrs a = prio_attrs b -> get_priority st a = get_priority st b.
Proof. unfold prio_attrs. intros E. injection E as E1 E2 E3 E4. destruct st; simpl; by rewrite ?E1, ?E2, ?E3, ?E4. Qed.

Lemma node_priority_view s s' n :
  cfg s' = cfg s -> prio_view s' = prio_view s -> node_priority s' n = node_priority s n.
Proof.
  intros Ec Ev. apply (f_equal (.!! n)) in Ev. unfold prio_view in Ev. rewrite !lookup_fmap in Ev.
  unfold node_priority. rewrite Ec. destruct (nodes s' !! n), (nodes s !! n); cbn -[prio_attrs] in *; try done.
  apply get_priority_attrs. congruence.
Qed.

Lemma entry_key_view s s' e : prio_view s' = prio_view s -> entry_key s' e = entry_key s e.
Proof.
  intros Ev. apply (f_equal (.!! e.2)) in Ev. unfold prio_view in Ev. rewrite !lookup_fmap in Ev.
  unfold entry_key. f_equal. f_equal. destruct (nodes s' !! e.2), (nodes s !! e.2); by simplify_eq/=.
Qed.

Lemma prio_view_upd n f s :
  (forall nd, prio_attrs (f nd) = prio_attrs nd) -> prio_view (upd_node n f s) = prio_view s.
Proof.
  intros Hf. apply map_eq. intros m. unfold prio_view. rewrite !lookup_fmap, nodes_upd.
  case_decide; [|done]. destruct (nodes s !! m); simpl; [|done]. by rewrite Hf.
Qed.

(** ** Deleting a leaf *)

(** Forgetting a node's sessions touches session bookkeeping only. *)
Lemma discard_steps_frame n sids s :
  let s' := foldl (discard_session_step n) s sids in
  nodes s' = nodes s /\ core s' = core s.
Proof.
  revert s. induction sids as [|sid sids IH]; intros s; simpl; [done|].
  destruct (IH (discard_session_step n s sid)) as [E1 E2]. rewrite E1, E2.
  unfold discard_session_step. by destruct (session_leaves s !! sid).
Qed.

Lemma discard_session_leaf_run n nd s :
  nodes s !! n = Some nd -> exists s', discard_session_leaf n s = Ok s' /\ core s' = core s /\
    prio_view s' = prio_view s /\ (forall m, m <> n -> nodes s' !! m = nodes s !! m) /\
    exists nd', nodes s' !! n = Some nd' /\ shape_of nd' = shape_of nd /\ hash_value nd' = hash_value nd.
Proof.
  intros Hn. unfold discard_session_leaf. rewrite (get_node_Ok _ _ _ Hn). bind_step.
  destruct (session_ids nd) as [sids|] eqn:Es; [|by exists s; eauto 10].
  case_decide; [by exists s; eauto 10|].
  destruct (discard_steps_frame n (elements sids) s) as [E1 E2]. eexists. split; [done|].
  split; [by rewrite core_quiet|]. split; [|split].
  - rewrite prio_view_upd by done. unfold prio_view. by rewrite E1.
  - intros m Hm. rewrite nodes_upd_ne by congruence. by rewrite E1.
  - eexists. split; [apply nodes_upd_eq; by rewrite E1|]. done.
Qed.

Record deleted s s' L P Hd (x p : nat) (xd : TreeNode) (pd : shape) (ck : ckey) : Prop := {
  de_step : delete_step (psize s) (tree s) (tree s') (root_node s) L x p (shape_of xd) pd ck;
  de_inv : Inv_at s' (L ∖ {[x]}) P Hd None;
  de_cfg : cfg s' = cfg s /\ root_node s' = root_node s;
  de_prio : prio_view s' = prio_view s;
  de_ev : evictable_size_ s' = (evictable_size_ s - Z.of_nat (key_len (key xd)))%Z;
  de_prot : protected_size_ s' = protected_size_ s;
  de_leaves : evictable_leaves s' =
    if decide (p <> root_node s /\ s_lock pd = 0%Z /\ dict_pop ck (s_children pd) = [])
    then evictable_leaves s ∖ {[x]} ∪ {[p]} else evictable_leaves s ∖ {[x]} ∖ {[p]};
  de_size : size (nodes s') = size (nodes s);
  de_node : exists xd', nodes s' !! x = Some xd' /\ shape_of xd' = shape_of xd /\ hash_value xd' = hash_value xd;
}.

Lemma inv_value s L P Hd pend n nd :
  Inv_at s L P Hd pend -> n ∈ L -> nodes s !! n = Some nd -> exists v, value nd = Some v.
Proof.
  intros I Hn Hnd. destruct (decide (n = root_node s)) as [->|Hr].
  - destruct (wf_root_key (inv_wf _ _ _ _ _ I)) as [cs Hroot].
    rewrite (tree_lookup _ _ _ Hnd) in Hroot. injection Hroot; eauto.
  - destruct (inv_child_key _ _ _ _ _ _ _ I Hn Hr Hnd) as (Hok & _).
    destruct (ok_value _ _ _ Hok) as (v & ? & _). eauto.
Qed.

Lemma inv_leaf s L P Hd x :
  Inv_at s L P Hd None -> x ∈ evictable_leaves s ->
  x ∈ L /\ x <> root_node s /\ exists xd, nodes s !! x = Some xd /\ lock_ref xd = 0%Z /\ children xd = [].
Proof.
  intros I Hx. apply (bk_leaves _ _ _ _ _ _ (inv_books _ _ _ _ _ I)) in Hx as (HxL & Hxr & sh & Hsh & Hl & Hc).
  apply tree_lookup_inv in Hsh as (xd & Hxd & <-). eauto 10.
Qed.

(** The tree [delete_leaf] leaves, before the parent's status is refreshed. *)
Lemma delete_leaf_unlinked s L P Hd x xd :
  Inv_at s L P Hd None -> x ∈ L -> x <> root_node s -> nodes s !! x = Some xd -> lock_ref xd = 0%Z -> children xd = [] ->
  exists s1 p pd ck, delete_leaf x s = update_leaf_status p s1 /\ nodes s !! p = Some pd /\
    delete_step (psize s) (tree s) (tree s1) (root_node s) L x p (shape_of xd) (shape_of pd) ck /\
    nodes s1 !! p = Some (set_children (dict_pop ck (children pd)) pd) /\
    (exists xd', nodes s1 !! x = Some xd' /\ shape_of xd' = shape_of xd /\ hash_value xd' = hash_value xd) /\
    (forall n, n <> x -> n <> p -> nodes s1 !! n = nodes s !! n) /\
    cfg s1 = cfg s /\ root_node s1 = root_node s /\ counter s1 = counter s /\ prio_view s1 = prio_view s /\
    evictable_size_ s1 = (evictable_size_ s - Z.of_nat (key_len (key xd)))%Z /\
    protected_size_ s1 = protected_size_ s /\ evictable_leaves s1 = evictable_leaves s ∖ {[x]}.
Proof.
  intros I HxL Hxr Hxd Hl Hc.
  destruct (inv_child_key _ _ _ _ _ _ _ I HxL Hxr Hxd) as (Hok & _ & _ & ck & p & pd & Hck & Hp & HpL & Hpx & Hpd & Hget).
  unfold delete_leaf. rewrite (get_node_Ok _ _ _ Hxd). bind_step. rewrite Hck, Hp.
  cbn [or_raise mbind res_bind]. rewrite (get_node_Ok _ _ _ Hpd). bind_step.
  rewrite Hget, bool_decide_true by done. cbn [py_assert mbind res_bind].
  set (s0 := upd_node p _ s).
  assert (Hx0 : nodes s0 !! x = Some xd) by (unfold s0; by rewrite nodes_upd_ne).
  destruct (discard_session_leaf_run x xd s0 Hx0) as (s1 & -> & Ecore & Epv & Hoth & xd' & Hxd' & Esh & Ehv).
  bind_step. unfold core in Ecore. injection Ecore as G1 G2 G3 G4 G5 G6 G7 G8.
  eexists _, p, pd, ck. split; [done|]. split; [done|].
  assert (Hp1 : nodes s1 !! p = Some (set_children (dict_pop ck (children pd)) pd)).
  { rewrite Hoth by done. unfold s0. by rewrite nodes_upd, decide_True, Hpd by done. }
  assert (Ho1 : forall n, n <> x -> n <> p -> nodes s1 !! n = nodes s !! n).
  { intros n Hn1 Hn2. rewrite Hoth by done. apply nodes_upd_ne. congruence. }
  split; [|split; [done|split; [eauto|split; [done|]]]].
  - split; try done; try (by apply tree_lookup).
    + change (tree s1 !! p = Some (mkShape (dict_pop ck (children pd)) (parent pd) (key pd) (value pd) (lock_ref pd))).
      by rewrite (tree_lookup _ _ _ Hp1).
    + intros n Hn. change (tree s1 !! n = tree s !! n). destruct (decide (n = x)) as [->|Hnx].
      * rewrite (tree_lookup _ _ _ Hxd'), Esh. symmetry. by apply tree_lookup.
      * unfold tree. by rewrite !lookup_fmap, Ho1.
  - simpl. rewrite G1, G4, G5, G6, G7, G8. unfold prio_view at 1. simpl. fold (prio_view s1). rewrite Epv.
    unfold s0. by rewrite prio_view_upd.
Qed.

Lemma delete_leaf_spec s L P Hd x xd :
  Inv_at s L P Hd None -> x ∈ evictable_leaves s -> nodes s !! x = Some xd ->
  exists s' p pd ck, delete_leaf x s = Ok s' /\ deleted s s' L P Hd x p xd pd ck.
Proof.
  intros I Hx Hxd0. destruct (inv_leaf _ _ _ _ _ I Hx) as (HxL & Hxr & xd1 & Hxd & Hl & Hc).
  assert (xd1 = xd) as -> by congruence. clear Hxd0. pose proof (inv_wf _ _ _ _ _ I) as W.
  destruct (delete_leaf_unlinked _ _ _ _ _ _ I HxL Hxr Hxd Hl Hc)
    as (s1 & p & pd & ck & -> & Hpd & S & Hp1 & Hx1 & Ho1 & E1 & E2 & E3 & E4 & E5 & E6 & E7).
  pose proof (delete_step_wf W S) as W1.
  destruct (inv_child_key _ _ _ _ _ _ _ I HxL Hxr Hxd) as (_ & _ & _ & _ & p' & _ & _ & Hp' & HpL & Hpx & _).
  assert (p' = p) as -> by (pose proof (dl_parent _ _ _ _ _ _ _ _ _ _ S) as E; simpl in E; congruence).
  destruct (inv_value _ _ _ _ _ _ _ I HpL Hpd) as [pv Hpv].
  rewrite (update_leaf_status_run p _ pv s1 Hp1 Hpv).
  rewrite (has_live_child_iff _ _ _ s1 _ _ p _ W1) by (done || set_solver). simpl.
  eexists _, p, (shape_of pd), ck. split; [done|]. set (s' := with_leaves _ s1).
  assert (Elv : evictable_leaves s' =
    if decide (p <> root_node s /\ s_lock (shape_of pd) = 0%Z /\ dict_pop ck (s_children (shape_of pd)) = [])
    then evictable_leaves s ∖ {[x]} ∪ {[p]} else evictable_leaves s ∖ {[x]} ∖ {[p]}).
  { unfold s'. simpl. rewrite E7. destruct (decide (p = root_node s)) as [->|Hpr].
    - destruct (wf_root_key W) as [cs Hroot]. rewrite (tree_lookup _ _ _ Hpd) in Hroot.
      injection Hroot as _ _ _ _ ->. simpl. by rewrite decide_False by tauto.
    - destruct (inv_child_key _ _ _ _ _ _ _ I HpL Hpr Hpd) as (Hokp & _). pose proof (ok_lock _ _ _ Hokp) as Hlp.
      simpl in Hlp. destruct (Z.ltb_spec 0 (lock_ref pd)); simpl; [by rewrite decide_False by lia|].
      case_bool_decide; simpl; [rewrite decide_True by (repeat split; [done|lia|done])|rewrite decide_False by tauto]; done. }
  split; try done.
  - assert (psize s' = psize s) as Eps by (unfold psize, s'; simpl; by rewrite E1).
    split; [| | |apply I|..].
    + rewrite Eps. unfold s'. simpl. rewrite E1, E2. exact W1.
    + intros n sh Hn. unfold s' in *. simpl. rewrite E3. destruct (decide (n = p)) as [->|Hnp].
      * by apply tree_lookup, (inv_fresh _ _ _ _ _ I) in Hpd.
      * change (tree s1 !! n = Some sh) in Hn. rewrite (dl_Toth _ _ _ _ _ _ _ _ _ _ S) in Hn by done.
        by apply (inv_fresh _ _ _ _ _ I) in Hn.
    + unfold s'. simpl. rewrite E2. by apply (delete_step_locks W S), I.
    + intros n Hn. pose proof (inv_held_live _ _ _ _ _ I n Hn) as HnL.
      apply elem_of_difference. split; [done|]. intros ->%elem_of_singleton.
      pose proof (inv_locks _ _ _ _ _ I x (shape_of xd) HxL Hxr (tree_lookup _ _ _ Hxd)) as Hlk.
      unfold children_locks in Hlk. simpl in Hlk. rewrite Hl, Hc in Hlk. simpl in Hlk. lia.
    + intros He n nd Hn Hr Hnd. rewrite Eps. unfold s' in *. simpl in *. rewrite E1 in He. rewrite E2 in Hr.
      destruct (decide (n = p)) as [->|Hnp].
      * assert (nd = set_children (dict_pop ck (children pd)) pd) as -> by congruence.
        exact (inv_hashes _ _ _ _ _ I He p pd HpL Hr Hpd).
      * rewrite Ho1 in Hnd by set_solver. apply (inv_hashes _ _ _ _ _ I He n); [set_solver|done..].
    + rewrite Elv. unfold s'. simpl. rewrite E2, E5, E6. apply (delete_step_books W S), I.
  - rewrite <- !size_dom. f_equal. apply leibniz_equiv. intros n. rewrite !elem_of_dom. unfold s'. simpl.
    destruct Hx1 as (xd' & Hx1 & _).
    destruct (decide (n = x)) as [->|Hnx]; [rewrite Hx1, Hxd; split; eauto|].
    destruct (decide (n = p)) as [->|Hnp]; [rewrite Hp1, Hpd; split; eauto|]. by rewrite Ho1.
Qed.

Lemma record_remove_event_run x xd s :
  nodes s !! x = Some xd ->
  (enable_kv_cache_events (cfg s) = true ->
   exists hs, hash_value xd = Some hs /\ length hs = page_count (psize s) (key_len (key xd))) ->
  exists s', record_remove_event x s = Ok s' /\ core s' = core s /\ nodes s' = nodes s.
Proof.
  intros Hx Hh. unfold record_remove_event, ensure_hash.
  destruct (enable_kv_cache_events (cfg s)); [|by exists s].
  destruct (Hh eq_refl) as (hs & Ehs & Hlen). rewrite (get_node_Ok _ _ _ Hx). bind_step.
  rewrite Ehs. bind_step. rewrite (get_node_Ok _ _ _ Hx). bind_step.
  rewrite Hlen, Nat.ltb_irrefl. destruct (hash_str_to_int64 <$> _); by eexists.
Qed.

(** ** The heap *)

Lemma prio_ltb_irrefl a : prio_ltb a a = false.
Proof. induction a as [|x a IH]; simpl; [done|]. by rewrite Z.ltb_irrefl, IH, andb_false_r. Qed.

Lemma prio_ltb_asym a b : prio_ltb a b = true -> prio_ltb b a = false.
Proof.
  revert b. induction a as [|x a IH]; intros [|y b]; simpl; try done.
  destruct (Z.ltb_spec x y), (Z.ltb_spec y x), (Z.eqb_spec x y), (Z.eqb_spec y x); simpl; try lia; try done. apply IH.
Qed.

(** Not being smaller is transitive: priorities are totally preordered. *)
Lemma prio_nlt_trans a b c : prio_ltb b a = false -> prio_ltb c b = false -> prio_ltb c a = false.
Proof.
  revert b c. induction a as [|x a IH]; intros [|y b] [|z c]; simpl; try done.
  destruct (Z.ltb_spec y x), (Z.ltb_spec z y), (Z.ltb_spec z x), (Z.eqb_spec y x), (Z.eqb_spec z y), (Z.eqb_spec z x);
    simpl; try lia; try done. apply IH.
Qed.

Lemma heap_pop_spec s h :
  match heap_pop s h with
  | None => h = []
  | Some (e, rest) => h ≡ₚ e :: rest /\
      forall e', e' ∈ h -> prio_ltb (entry_key s e') (entry_key s e) = false
  end.
Proof.
  induction h as [|e h IH]; simpl; [done|]. destruct (heap_pop s h) as [[m rest]|].
  - destruct IH as [Hp Hmin]. destruct (prio_ltb (entry_key s m) (entry_key s e)) eqn:E.
    + split; [rewrite Hp; constructor|]. intros e' [->|He']%elem_of_cons; [by apply prio_ltb_asym|by apply Hmin].
    + split; [done|]. intros e' [->|He']%elem_of_cons; [apply prio_ltb_irrefl|].
      by eapply prio_nlt_trans; [exact E|apply Hmin].
  - subst h. split; [done|]. intros e' ->%list_elem_of_singleton. apply prio_ltb_irrefl.
Qed.

(** ** No evictable leaf, nothing evictable *)

Lemma unlocked_has_leaf s L P Hd n nd :
  Inv_at s L P Hd None -> n ∈ L -> n <> root_node s -> nodes s !! n = Some nd -> lock_ref nd = 0%Z ->
  exists x, x ∈ evictable_leaves s.
Proof.
  intros I. pose proof (inv_wf _ _ _ _ _ I) as W.
  remember (size (base.filter (fun m => length (P n) < length (P m)) L)) as len eqn:Hlen.
  revert n nd Hlen. induction len as [len IH] using lt_wf_ind. intros n nd -> Hn Hr Hnd Hl.
  destruct (children nd) as [|[ck c] cs] eqn:Ec.
  { exists n. apply (inv_books _ _ _ _ _ I). split; [done|]. split; [done|].
    exists (shape_of nd). split; [by apply tree_lookup|done]. }
  assert (Hget : dict_get ck (children nd) = Some c) by (rewrite Ec; simpl; by rewrite decide_True).
  destruct (wf_child_link W n (shape_of nd) ck c Hn (tree_lookup _ _ _ Hnd) Hget)
    as (sh & HcL & Hcr & _ & Hsh & _ & _ & Hok & Hlk).
  destruct (tree_lookup_inv _ _ _ Hsh) as (cd & Hcd & <-).
  assert (Hlt : length (P n) < length (P c)).
  { rewrite (lk_path _ _ _ _ _ _ _ Hlk), length_app. unfold s_units. rewrite length_key_iter.
    pose proof (ok_len _ _ _ Hok). unfold s_len in *. lia. }
  eapply (IH _); [|reflexivity|exact HcL|exact Hcr|exact Hcd|].
  - apply subset_size. split.
    + intros m. rewrite !elem_of_filter. intros [? ?]. split; [lia|done].
    + intros Hsub. specialize (Hsub c). rewrite !elem_of_filter in Hsub. destruct Hsub; [done|lia].
  - pose proof (inv_locks _ _ _ _ _ I n (shape_of nd) Hn Hr (tree_lookup _ _ _ Hnd)) as Heq. simpl in Heq.
    pose proof (inv_held _ _ _ _ _ I n) as Hh. rewrite Hl in Heq.
    assert (lock_at (tree s) c <= children_locks (tree s) (shape_of nd))%Z as Hge.
    { apply (dict_sum_ge (lock_at (tree s)) (children nd)); [|by eapply dict_get_value]. intros c' Hc'.
      destruct (dict_value_get c' (children nd)) as [k Hk]; [by apply (wf_nodup _ _ _ _ _ _ W n _ Hn (tree_lookup _ _ _ Hnd))|done|].
      destruct (wf_child_link W n (shape_of nd) k c' Hn (tree_lookup _ _ _ Hnd) Hk) as (cd' & _ & _ & _ & Hcd' & _ & _ & Hokc & _).
      unfold lock_at. rewrite Hcd'. apply Hokc. }
    unfold lock_at in Hge at 1. rewrite Hsh in Hge. simpl in Hge. pose proof (ok_lock _ _ _ Hok) as Hlc. simpl in Hlc. lia.
Qed.

Lemma no_leaves_nothing s L P Hd :
  Inv_at s L P Hd None -> evictable_leaves s = ∅ -> evictable_size_ s = 0%Z.
Proof.
  intros I He. rewrite (bk_ev _ _ _ _ _ _ (inv_books _ _ _ _ _ I)).
  destruct (Z.lt_trichotomy (set_sum (unlocked_len (tree s)) (L ∖ {[root_node s]})) 0) as [Hlt|[E|Hgt]]; [|done|].
  - assert (0 <= set_sum (unlocked_len (tree s)) (L ∖ {[root_node s]}))%Z; [|lia].
    apply set_sum_nonneg. intros n _. unfold unlocked_len. destruct (tree s !! n); [case_decide|]; lia.
  - apply set_sum_pos_inv in Hgt as (n & Hn & Hpos). unfold unlocked_len in Hpos.
    destruct (tree s !! n) as [sh|] eqn:Hsh; [|lia]. case_decide as Hl; [|lia].
    apply tree_lookup_inv in Hsh as (nd & Hnd & <-).
    destruct (unlocked_has_leaf s L P Hd n nd I) as [x Hx]; [set_solver..|done|done|]. set_solver.
Qed.

(** ** Eviction *)

Section evict.
Context {A : Type} `{KVAllocatorLaws A}.
Implicit Types a : A.

(** The value by which the heap orders a node. *)
Definition victim_key s (n : nat) : list Z := entry_key s (node_priority s n, n).

(** Every live node's slots can be given back in one call. *)
Definition chunks_ok a s L : Prop :=
  forall n nd v, n ∈ L -> nodes s !! n = Some nd -> value nd = Some v -> kv_chunk a v.

(** A sequence of evictions: each removes an unlocked leaf that no other
    evictable leaf precedes, and gives its slots back.  The victims are listed
    with their slots. *)
Inductive evict_steps Hd P : RadixCache -> gset nat -> A -> list (nat * list Z) ->
    RadixCache -> gset nat -> A -> Prop :=
| es_done s L a : evict_steps Hd P s L a [] s L a
| es_step s L a x xd v a1 s1 p pd ck s2 xs s' L' a' :
    x ∈ evictable_leaves s ->
    (forall y, y ∈ evictable_leaves s -> prio_ltb (victim_key s y) (victim_key s x) = false) ->
    nodes s !! x = Some xd -> value xd = Some v -> kv_free a v = Ok a1 ->
    deleted s s1 L P Hd x p xd pd ck -> core s2 = core s1 -> nodes s2 = nodes s1 ->
    evict_steps Hd P s2 (L ∖ {[x]}) a1 xs s' L' a' ->
    evict_steps Hd P s L a ((x, v) :: xs) s' L' a'.

Definition heap_of s : list heap_entry := (fun n => (node_priority s n, n)) <$> elements (evictable_leaves s).

(** The heap keeps holding exactly the evictable leaves. *)
Lemma heap_refill s s1 s2 L P Hd x p xd pd ck rest :
  Inv_at s L P Hd None -> x ∈ evictable_leaves s -> deleted s s1 L P Hd x p xd pd ck ->
  core s2 = core s1 -> nodes s2 = nodes s1 ->
  heap_of s ≡ₚ (node_priority s x, x) :: rest ->
  exists pn, nodes s1 !! p = Some pn /\
  (if (length (children pn) =? 0)%nat && (lock_ref pn =? 0)%Z
   then rest ++ [(node_priority s1 p, p)] else rest) ≡ₚ heap_of s2.
Proof.
  intros I Hx D Ec En Hh. pose proof (inv_wf _ _ _ _ _ I) as W. destruct (de_cfg _ _ _ _ _ _ _ _ _ _ D) as [Ecfg Eroot].
  pose proof (de_step _ _ _ _ _ _ _ _ _ _ D) as S.
  pose proof (tree_lookup_inv _ _ _ (dl_Tp _ _ _ _ _ _ _ _ _ _ S)) as (pn & Hpn & Epn).
  injection Epn as C1 _ _ _ C5. exists pn. split; [done|].
  unfold core in Ec. injection Ec as F1 F2 _ _ F5 _ _ F8.
  assert (Hpr : forall n, node_priority s2 n = node_priority s n).
  { intros n. apply node_priority_view; [congruence|]. unfold prio_view. rewrite En. apply (de_prio _ _ _ _ _ _ _ _ _ _ D). }
  assert (Hpr1 : forall n, node_priority s1 n = node_priority s n).
  { intros n. apply node_priority_view; [done|apply (de_prio _ _ _ _ _ _ _ _ _ _ D)]. }
  assert (Hpl : p ∉ evictable_leaves s).
  { intros Hpl. destruct (inv_leaf _ _ _ _ _ I Hpl) as (HpL & _ & pd' & Hpd' & _ & Hpc).
    destruct (inv_leaf _ _ _ _ _ I Hx) as (HxL & Hxr & xd' & Hxd' & _).
    destruct (inv_child_key _ _ _ _ _ _ _ I HxL Hxr Hxd') as (_ & _ & _ & c & p' & pd'' & _ & Hp' & _ & _ & Hpd'' & Hg).
    pose proof (dl_parent _ _ _ _ _ _ _ _ _ _ S) as E. pose proof (dl_x _ _ _ _ _ _ _ _ _ _ S) as E'.
    rewrite (tree_lookup _ _ _ Hxd') in E'. injection E' as _ E2 _ _ _. simpl in E.
    assert (p' = p) as -> by congruence. assert (pd'' = pd') as -> by congruence. by rewrite Hpc in Hg. }
  assert (Hrest : rest ≡ₚ (fun n => (node_priority s n, n)) <$> elements (evictable_leaves s ∖ {[x]})).
  { apply (Permutation_cons_inv (a := (node_priority s x, x))). rewrite <- Hh. unfold heap_of.
    rewrite <- (fmap_cons (fun n => (node_priority s n, n))). apply fmap_Permutation.
    rewrite <- elements_union_singleton by set_solver. f_equiv. intros y.
    destruct (decide (y = x)); set_solver. }
  unfold heap_of. rewrite (list_fmap_ext (fun n => (node_priority s2 n, n)) (fun n => (node_priority s n, n))) by
    (intros; simpl; by rewrite Hpr).
  rewrite F8, (de_leaves _ _ _ _ _ _ _ _ _ _ D), C1, C5, Hpr1.
  assert (Hcond : (length (dict_pop ck (s_children pd)) =? 0)%nat && (s_lock pd =? 0)%Z = true <->
    (p <> root_node s /\ s_lock pd = 0%Z /\ dict_pop ck (s_children pd) = [])).
  { rewrite andb_true_iff, Nat.eqb_eq, Z.eqb_eq, length_zero_iff_nil. split; [|tauto].
    intros [Hc Hl]. split; [|done]. intros ->. destruct (wf_root_key W) as [cs Hr].
    rewrite (dl_pd _ _ _ _ _ _ _ _ _ _ S) in Hr. injection Hr as ->. done. }
  case_decide as E.
  - rewrite (proj2 Hcond E). rewrite Hrest, (comm (++)). simpl.
    rewrite (union_comm_L _ {[p]}), elements_union_singleton by set_solver. done.
  - destruct (_ && _); [by destruct E; apply Hcond|]. rewrite Hrest.
    replace (evictable_leaves s ∖ {[x]} ∖ {[p]}) with (evictable_leaves s ∖ {[x]}) by set_solver. done.
Qed.

Definition freed_len (xs : list (nat * list Z)) : Z := Z.of_nat (length (concat xs.*2)).

Lemma freed_len_cons x v xs : freed_len ((x, v) :: xs) = (Z.of_nat (length v) + freed_len xs)%Z.
Proof. unfold freed_len. csimpl. rewrite length_app. lia. Qed.

(** How an eviction stops: enough was freed (and not before the last
    victim), or nothing evictable is left. *)
Definition evict_stops (num k0 : Z) (xs : list (nat * list Z)) s' : Prop :=
  ((num <= k0 + freed_len xs)%Z \/ evictable_leaves s' = ∅) /\
  (forall ys z, xs = ys ++ [z] -> (k0 + freed_len ys < num)%Z).

Lemma evict_stops_cons num k0 x v xs s' :
  (k0 < num)%Z -> evict_stops num (k0 + Z.of_nat (length v)) xs s' -> evict_stops num k0 ((x, v) :: xs) s'.
Proof.
  intros Hlt [Hs1 Hs2]. split.
  - rewrite freed_len_cons. destruct Hs1; [left; lia|by right].
  - intros [|y ys] z E; [unfold freed_len; simpl; lia|]. injection E as <- E.
    rewrite freed_len_cons. specialize (Hs2 ys z E). lia.
Qed.

Lemma deleted_slots s s1 L P Hd x p xd pd ck v :
  Inv_at s L P Hd None -> deleted s s1 L P Hd x p xd pd ck -> nodes s !! x = Some xd -> value xd = Some v ->
  owned (tree s) L ≡ₚ v ++ owned (tree s1) (L ∖ {[x]}) /\ length v = key_len (key xd).
Proof.
  intros I D Hxd Hv. pose proof (de_step _ _ _ _ _ _ _ _ _ _ D) as S.
  split; [by apply (delete_step_owned (inv_wf _ _ _ _ _ I) _ _ _ _ _ _ S)|].
  destruct (inv_child_key s L P Hd None x xd I) as (Hok & _); [apply S..|done|].
  destruct (ok_value _ _ _ Hok) as (v' & Hv' & Hl). simpl in Hv'. assert (v' = v) as -> by congruence. done.
Qed.

(** The kept nodes keep their slots. *)
Lemma chunks_ok_deleted a a1 s s1 L P Hd x p xd pd ck :
  Inv_at s L P Hd None -> deleted s s1 L P Hd x p xd pd ck -> chunks_ok a s L ->
  (forall w, kv_chunk a w -> kv_chunk a1 w) -> chunks_ok a1 s1 (L ∖ {[x]}).
Proof.
  intros I D Hch Hch1 n nd w Hn Hnd Hw. apply Hch1.
  destruct (wf_lookup (inv_wf _ _ _ _ _ I) n) as [sh Hsh]; [set_solver|].
  pose proof Hsh as Hsh'. apply tree_lookup_inv in Hsh as (nd0 & Hnd0 & <-).
  apply (Hch n nd0); [set_solver|done|].
  destruct (delete_step_other (inv_wf _ _ _ _ _ I) (de_step _ _ _ _ _ _ _ _ _ _ D) n _ Hsh') as (nd' & Hnd' & _ & _ & Ev & _).
  rewrite (tree_lookup _ _ _ Hnd) in Hnd'. injection Hnd' as <-. simpl in Ev. congruence.
Qed.

Lemma evict_one_spec s L P Hd a other rest x :
  Inv_at s L P Hd None -> x ∈ evictable_leaves s -> heap_of s ≡ₚ (node_priority s x, x) :: rest ->
  kv_out a (owned (tree s) L ++ other) -> chunks_ok a s L ->
  exists xd v a1 s1 p pd ck s2 heap,
    evict_one x rest s a = Ok (s2, a1, heap, Z.of_nat (length v)) /\ 0 < length v /\
    nodes s !! x = Some xd /\ value xd = Some v /\ kv_free a v = Ok a1 /\
    deleted s s1 L P Hd x p xd pd ck /\ core s2 = core s1 /\ nodes s2 = nodes s1 /\
    heap ≡ₚ heap_of s2 /\ Inv_at s2 (L ∖ {[x]}) P Hd None /\
    kv_out a1 (owned (tree s2) (L ∖ {[x]}) ++ other) /\ chunks_ok a1 s2 (L ∖ {[x]}) /\
    evictable_size_ s2 = (evictable_size_ s - Z.of_nat (length v))%Z /\
    kv_available a1 = (kv_available a + Z.of_nat (length v))%Z.
Proof.
  intros I Hx Hh Hout Hch. destruct (inv_leaf _ _ _ _ _ I Hx) as (HxL & Hxr & xd & Hxd & _).
  destruct (inv_value _ _ _ _ _ _ _ I HxL Hxd) as [v Hv]. unfold evict_one.
  rewrite (get_node_Ok _ _ _ Hxd). bind_step. rewrite (value_of_Ok _ _ Hv). bind_step.
  destruct (delete_leaf_spec s L P Hd x xd I Hx Hxd) as (s1 & p & pd & ck & Hdel & D).
  destruct (deleted_slots _ _ _ _ _ _ _ _ _ _ _ I D Hxd Hv) as [Hown Hlen].
  destruct (kv_free_law a v (owned (tree s1) (L ∖ {[x]}) ++ other)) as (a1 & Hfree & Hout1 & Hav & Hch1).
  { eapply kv_out_perm; [|exact Hout]. by rewrite Hown, <- app_assoc. }
  { by apply (Hch x xd). }
  rewrite Hfree. bind_step. rewrite Hdel. bind_step.
  pose proof (dl_parent _ _ _ _ _ _ _ _ _ _ (de_step _ _ _ _ _ _ _ _ _ _ D)) as Hpar. simpl in Hpar. rewrite Hpar.
  cbn [or_raise mbind res_bind]. destruct (de_node _ _ _ _ _ _ _ _ _ _ D) as (xd' & Hxd' & Esh & Ehv).
  destruct (de_cfg _ _ _ _ _ _ _ _ _ _ D) as [Ecfg Eroot].
  assert (Ek : key xd' = key xd) by (by injection Esh).
  destruct (record_remove_event_run x xd' s1 Hxd') as (s2 & Hrec & Ec2 & En2).
  { intros He. rewrite Ehv, Ek. unfold psize. rewrite Ecfg in *. by apply (inv_hashes _ _ _ _ _ I He x). }
  destruct (heap_refill s s1 s2 L P Hd x p xd pd ck rest I Hx D Ec2 En2 Hh) as (pn & Hpn & Hheap).
  rewrite (get_node_Ok _ _ _ Hpn). bind_step. rewrite Hrec. bind_step.
  destruct (inv_child_key _ _ _ _ _ _ _ I HxL Hxr Hxd) as (Hok & _). pose proof (ok_len _ _ _ Hok) as Hpos.
  unfold s_len in Hpos. simpl in Hpos.
  exists xd, v, a1, s1, p, pd, ck, s2. eexists. split; [done|]. split; [lia|]. split; [done|]. split; [done|].
  split; [done|]. split; [done|]. split; [done|]. split; [done|]. split; [done|].
  split; [exact (Inv_at_core _ _ _ _ _ _ (eq_sym Ec2) (de_inv _ _ _ _ _ _ _ _ _ _ D))|].
  unfold core in Ec2. injection Ec2 as _ -> _ _ _ -> _ _. split; [done|]. split; [|split; [|done]].
  - pose proof (chunks_ok_deleted _ _ _ _ _ _ _ _ _ _ _ _ I D Hch Hch1) as Hc1.
    intros n nd w Hn Hnd. rewrite En2 in Hnd. by apply (Hc1 n nd).
  - rewrite Hlen. apply D.
Qed.

Lemma evict_loop_spec fuel num s L P Hd a other heap k0 :
  Inv_at s L P Hd None -> heap ≡ₚ heap_of s -> kv_out a (owned (tree s) L ++ other) -> chunks_ok a s L ->
  size L < fuel ->
  exists xs s' L' a' k, evict_loop fuel num heap k0 s a = Ok (s', a', k) /\
    evict_steps Hd P s L a xs s' L' a' /\ evict_stops num k0 xs s' /\ k = (k0 + freed_len xs)%Z /\
    evictable_size_ s' = (evictable_size_ s - freed_len xs)%Z /\
    Inv_at s' L' P Hd None /\ kv_out a' (owned (tree s') L' ++ other) /\
    kv_available a' = (kv_available a + (k - k0))%Z.
Proof.
  revert s L a heap k0. induction fuel as [|fuel IH]; intros s L a heap k0 I Hh Hout Hch Hf; [lia|].
  cbn [evict_loop]. destruct (Z.ltb_spec k0 num) as [Hlt|Hge]; cbn [negb].
  2: { exists [], s, L, a, k0. unfold evict_stops, freed_len. simpl. split; [done|]. split; [constructor|].
       split; [split; [left; lia|by intros [] ?]|]. do 2 (split; [lia|]). do 2 (split; [done|]). lia. }
  pose proof (heap_pop_spec s heap) as Hpop. destruct (heap_pop s heap) as [[[pr x] rest]|].
  2: { subst heap. exists [], s, L, a, k0. unfold evict_stops, freed_len. simpl. split; [done|]. split; [constructor|].
       split; [|do 2 (split; [lia|]); do 2 (split; [done|]); lia]. split; [right|by intros [] ?].
       apply Permutation_nil_l in Hh. unfold heap_of in Hh.
       symmetry in Hh. apply fmap_nil_inv, elements_empty_inv in Hh. by apply leibniz_equiv. }
  destruct Hpop as [Hp Hmin].
  assert (Hin : (pr, x) ∈ heap_of s) by (rewrite <- Hh, Hp; apply elem_of_cons; by left).
  unfold heap_of in Hin. apply list_elem_of_fmap in Hin as (x' & E & Hx). injection E as -> ->.
  apply elem_of_elements in Hx.
  destruct (evict_one_spec s L P Hd a other rest x' I Hx) as
    (xd & v & a1 & s1 & p & pd & ck & s2 & heap2 & -> & Hpos & Hxd & Hv & Hfree & D & Ec & En & Hh2 & I2 & Hout2 & Hch2 & Eev & Eav);
    [by rewrite <- Hh, Hp|done|done|]. bind_step.
  assert (Hsz : size (L ∖ {[x']}) < size L).
  { apply subset_size. destruct (inv_leaf _ _ _ _ _ I Hx) as (HxL & _). set_solver. }
  destruct (IH s2 (L ∖ {[x']}) a1 heap2 (k0 + Z.of_nat (length v))%Z I2 Hh2 Hout2 Hch2 ltac:(lia))
    as (xs & s' & L' & a' & k & -> & Hst & Hs & Ek & Eev' & I' & Hout' & Hav').
  exists ((x', v) :: xs), s', L', a', k. rewrite freed_len_cons. split; [done|].
  split; [|split; [by apply evict_stops_cons|do 2 (split; [lia|]); do 2 (split; [done|]); lia]].
  eapply es_step; try done. intros y Hy. apply Hmin. rewrite Hh. unfold heap_of.
  apply list_elem_of_fmap. exists y. split; [done|]. by apply elem_of_elements.
Qed.

Lemma live_size s L P Hd pend : Inv_at s L P Hd pend -> size L <= size (nodes s).
Proof.
  intros I. rewrite <- size_dom. apply subseteq_size. intros n Hn. apply elem_of_dom.
  destruct (wf_lookup (inv_wf _ _ _ _ _ I) n Hn) as [sh Hsh]. apply tree_lookup_inv in Hsh as (nd & ? & _). eauto.
Qed.

Lemma evict_run s L P Hd a other num :
  Inv_at s L P Hd None -> disable (cfg s) = false ->
  kv_out a (owned (tree s) L ++ other) -> chunks_ok a s L ->
  exists xs s' L' a' k, evict num s a = Ok (s', a', k) /\
    evict_steps Hd P s L a xs s' L' a' /\ evict_stops num 0 xs s' /\ k = freed_len xs /\
    evictable_size_ s' = (evictable_size_ s - k)%Z /\
    Inv_at s' L' P Hd None /\ kv_out a' (owned (tree s') L' ++ other) /\
    kv_available a' = (kv_available a + k)%Z.
Proof.
  intros I Hdis Hout Hch. unfold evict. rewrite Hdis. pose proof (live_size _ _ _ _ _ I).
  destruct (evict_loop_spec (S (size (nodes s))) num s L P Hd a other (heap_of s) 0 I)
    as (xs & s' & L' & a' & k & Hrun & Hst & Hs & Hk & Hev & I' & Hout' & Hav); [done..|lia|].
  exists xs, s', L', a', k. rewrite Z.sub_0_r in Hav. split; [exact Hrun|]. split; [done|]. split; [done|].
  split; [lia|]. split; [lia|]. done.
Qed.

(** ** What a sequence of evictions preserves *)

Lemma deleted_frame s s1 s2 L P Hd x p xd pd ck :
  deleted s s1 L P Hd x p xd pd ck -> core s2 = core s1 ->
  Inv_at s2 (L ∖ {[x]}) P Hd None /\ tree s2 = tree s1 /\ cfg s2 = cfg s /\ root_node s2 = root_node s /\
  protected_size_ s2 = protected_size_ s.
Proof.
  intros D Ec. pose proof (Inv_at_core _ _ _ _ _ _ (eq_sym Ec) (de_inv _ _ _ _ _ _ _ _ _ _ D)) as I2.
  destruct (de_cfg _ _ _ _ _ _ _ _ _ _ D) as [E1 E2]. pose proof (de_prot _ _ _ _ _ _ _ _ _ _ D).
  unfold core in Ec. injection Ec as F1 F2 _ _ F5 _ F7 _. split; [done|]. repeat split; congruence.
Qed.

(** The nodes that stay keep their paths and slots. *)
Lemma evict_steps_paths Hd P s L a xs s' L' a' ek q vq n :
  Inv_at s L P Hd None -> evict_steps Hd P s L a xs s' L' a' ->
  path_from (tree s) ek (root_node s) q vq n -> n ∈ L' -> path_from (tree s') ek (root_node s') q vq n.
Proof.
  intros I Hst. revert I. induction Hst as [s L a|s L a x xd v a1 s1 p pd ck s2 xs s' L' a' Hx _ Hxd Hv _ D Ec En Hst IH];
    intros I Hp Hn; [done|].
  destruct (deleted_frame _ _ _ _ _ _ _ _ _ _ _ D Ec) as (I2 & Et & _ & Er & _).
  assert (Hsub : L' ⊆ L ∖ {[x]}).
  { clear -Hst. induction Hst; [done|]. set_solver. }
  apply IH; [done| |done]. rewrite Et, Er.
  apply (delete_step_fwd (inv_wf _ _ _ _ _ I) (de_step _ _ _ _ _ _ _ _ _ _ D)); [done|set_solver].
Qed.

(** Nothing appears, and the nodes removed were live. *)
Lemma evict_steps_frame Hd P s L a xs s' L' a' :
  Inv_at s L P Hd None -> evict_steps Hd P s L a xs s' L' a' ->
  cfg s' = cfg s /\ root_node s' = root_node s /\ protected_size_ s' = protected_size_ s /\
  L' = L ∖ list_to_set xs.*1 /\ NoDup xs.*1 /\ (forall x, x ∈ xs.*1 -> x ∈ L /\ Hd x = 0%Z) /\
  (forall ek p vs, cached s' ek p vs -> cached s ek p vs) /\
  owned (tree s) L ≡ₚ concat xs.*2 ++ owned (tree s') L'.
Proof.
  intros I Hst. revert I. induction Hst as [s L a|s L a x xd v a1 s1 p pd ck s2 xs s' L' a' Hx _ Hxd Hv _ D Ec En Hst IH];
    intros I.
  { split; [done|]. split; [done|]. split; [done|]. split; [set_solver|]. split; [constructor|].
    split; [set_solver|]. done. }
  destruct (deleted_frame _ _ _ _ _ _ _ _ _ _ _ D Ec) as (I2 & Et & Ec2 & Er & Ep).
  destruct (IH I2) as (F1 & F2 & F3 & -> & Hnd & Hlive & Hcont & Hown). csimpl.
  destruct (inv_leaf _ _ _ _ _ I Hx) as (HxL & Hxr & xd' & Hxd' & Hl & Hc).
  split; [congruence|]. split; [congruence|]. split; [congruence|]. split; [set_solver|]. split; [|split; [|split]].
  - constructor; [|done]. intros Hin. destruct (Hlive x Hin). set_solver.
  - intros y [->|Hy]%elem_of_cons; [|destruct (Hlive y Hy); set_solver]. split; [done|].
    destruct (decide (Hd x = 0%Z)) as [|Hne]; [done|].
    apply (inv_held_live _ _ _ _ _ I2) in Hne. set_solver.
  - intros ek q vs Hq. apply Hcont in Hq. unfold cached in Hq. rewrite Et, Er in Hq.
    assert (psize s2 = psize s) as Eps by (unfold psize; by rewrite Ec2). rewrite Eps in Hq.
    by apply (delete_step_content (inv_wf _ _ _ _ _ I) (de_step _ _ _ _ _ _ _ _ _ _ D)) in Hq.
  - destruct (deleted_slots _ _ _ _ _ _ _ _ _ _ _ I D Hxd Hv) as [-> _].
    rewrite <- Et, Hown. by rewrite app_assoc.
Qed.

End evict.

End with_env.
