(* ===== verification/RadixSpec.v ===== *)
(** * RadixSpec: what the radix cache promises

    The theorems of this file are the contract of class [RadixCache]: they
    speak of the public operations, of the invariant [Inv], of the cached
    content [cached] and of the slots the tree holds, without the witnesses
    the proofs carry. *)

From S2P Require Import Prelude RadixKey RadixNode RadixTree RadixInv RadixSteps RadixContent RadixOps RadixInsert RadixLock RadixEvict.

(** ** Witness-free vocabulary *)

(** [n] is a node of the tree. *)
Definition live (s : RadixCache) (n : nat) : Prop :=
  exists ek q vq, path_from (tree s) ek (root_node s) q vq n.

(** The nodes of the tree hold exactly the slots [l]. *)
Definition tree_slots (s : RadixCache) (l : list Z) : Prop :=
  exists L, (forall n, n ∈ L <-> live s n) /\ l ≡ₚ owned (tree s) L.

Lemma live_iff s L P Hd pend n : Inv_at s L P Hd pend -> n ∈ L <-> live s n.
Proof.
  intros I. pose proof (inv_wf _ _ _ _ _ I) as W. split.
  - intros Hn. destruct (wf_lookup W n Hn) as [nd Hnd].
    destruct (path_to W (extra_key (s_key nd)) n nd Hn Hnd) as [vq Hp]; [done|]. by eexists _, _, _.
  - intros (ek & q & vq & Hp). by apply (path_to_live W ek n vq q).
Qed.

Lemma tree_slots_iff s L P Hd pend l : Inv_at s L P Hd pend -> tree_slots s l <-> l ≡ₚ owned (tree s) L.
Proof.
  intros I. split.
  - intros (L' & HL & Hl). assert (L' = L) as <-; [|done]. apply leibniz_equiv. intros n.
    by rewrite HL, (live_iff _ _ _ _ _ _ I).
  - intros Hl. exists L. split; [|done]. intros n. by apply (live_iff _ _ _ _ _ _ I).
Qed.

Section with_env.
Context `{Env}.

(** ** Initial state *)

Lemma reset_inv s :
  0 < psize s -> (forall n nd, nodes s !! n = Some nd -> n < counter s) -> Inv (reset s) (fun _ => 0%Z).
Proof.
  intros Hps Hfr. set (r := counter s). exists {[r]}, (fun _ => []).
  assert (Hcfg : cfg (reset s) = cfg s).
  { unfold reset, record_all_cleared_event. simpl. by destruct (enable_kv_cache_events (cfg s)). }
  assert (Hroot : root_node (reset s) = r).
  { unfold reset, record_all_cleared_event. simpl. by destruct (enable_kv_cache_events (cfg s)). }
  assert (Hcnt : counter (reset s) = S r).
  { unfold reset, record_all_cleared_event. simpl. by destruct (enable_kv_cache_events (cfg s)). }
  assert (Hbk : evictable_size_ (reset s) = 0%Z /\ protected_size_ (reset s) = 0%Z /\ evictable_leaves (reset s) = ∅).
  { unfold reset, record_all_cleared_event. simpl. by destruct (enable_kv_cache_events (cfg s)). }
  assert (Htr : tree (reset s) !! r = Some (mkShape [] None no_key (Some []) 1)).
  { unfold reset, record_all_cleared_event, tree. simpl. destruct (enable_kv_cache_events (cfg s)); simpl;
      by rewrite lookup_fmap, lookup_alter_eq, lookup_insert_eq. }
  assert (Hoth : forall n nd, tree (reset s) !! n = Some nd -> n < S r).
  { intros n nd Hn. destruct (decide (n = r)) as [->|Hne]; [lia|].
    assert (nodes (reset s) !! n = nodes s !! n) as En.
    { unfold reset, record_all_cleared_event. simpl. destruct (enable_kv_cache_events (cfg s)); simpl;
        by rewrite lookup_alter_ne, lookup_insert_ne by (fold r; congruence). }
    apply tree_lookup_inv in Hn as (nd0 & Hn & _). rewrite En in Hn. apply Hfr in Hn. unfold r. lia. }
  assert (psize (reset s) = psize s) as Eps by (unfold psize; by rewrite Hcfg).
  destruct Hbk as (E1 & E2 & E3). split; rewrite ?Eps, ?Hroot, ?Hcnt, ?E1, ?E2, ?E3; try done.
  - split.
    + done.
    + set_solver.
    + by eexists.
    + done.
    + intros n Hn Hr. set_solver.
    + intros p pd k c ->%elem_of_singleton Hp. rewrite Htr in Hp. by injection Hp as <-.
    + intros p pd ->%elem_of_singleton Hp. rewrite Htr in Hp. injection Hp as <-. constructor.
  - intros n nd Hn Hr. set_solver.
  - intros He n nd Hn Hr. rewrite Hroot in Hr. set_solver.
  - assert (({[r]} : gset nat) ∖ {[r]} = ∅) as Eq by set_solver. split; rewrite ?Eq, ?set_sum_empty; try done.
    intros n. split; [set_solver|]. intros (Hn & Hr & _). set_solver.
Qed.

Lemma init_inv c : 0 < page_size c -> Inv (init_cache c) (fun _ => 0%Z).
Proof. intros Hps. by apply reset_inv. Qed.

(** ** Matching and insertion *)

Lemma refines_slots Hd s L P s' L' P' l :
  Inv_at s L P Hd None -> refines Hd s L P s' L' P' -> tree_slots s l -> tree_slots s' l.
Proof.
  intros I R Hl. rewrite (tree_slots_iff _ _ _ _ _ _ I) in Hl.
  rewrite (tree_slots_iff _ _ _ _ _ _ (rf_inv _ _ _ _ _ _ _ R)). by rewrite Hl, (rf_owned _ _ _ _ _ _ _ R).
Qed.

(** C9: On a well-formed cache [match_prefix] always
    returns; it keeps the cache well formed with the same content, sizes and
    slots, and its result is the longest cached page-aligned prefix of the key
    in the key's namespace, with the slots of exactly that prefix and the node
    that ends it. *)
Theorem match_prefix_longest s Hd k :
  Inv s Hd -> disable (cfg s) = false -> kind_ok s k ->
  exists s' r q, match_prefix k s = Ok (s', r) /\ Inv s' Hd /\
    longest_cached s (extra_key k) (key_iter (aligned s k)) q (device_indices r) /\
    path_from (tree s') (extra_key k) (root_node s') q (device_indices r) (last_device_node r) /\
    (forall ek p vs, cached s' ek p vs <-> cached s ek p vs) /\
    (forall l, tree_slots s l -> tree_slots s' l) /\
    evictable_size_ s' = evictable_size_ s /\ protected_size_ s' = protected_size_ s.
Proof.
  intros (L & P & I) Hdis Hk.
  destruct (match_prefix_run s L P Hd k I Hdis Hk) as (s' & L' & P' & r & q & Hrun & R & Hlc & Hp & _).
  pose proof (rf_books _ _ _ _ _ _ _ R) as Hb. unfold books in Hb. injection Hb as E1 E2 E3 E4 _.
  exists s', r, q. split; [done|]. split; [by exists L', P'; apply R|]. split; [done|]. rewrite E2.
  split; [done|]. split; [apply R|]. split; [|done]. intros l. by apply (refines_slots Hd s L P s' L' P').
Qed.

(** C10: Inserting a key on a well-formed cache always
    returns.  The reported length is that of the longest prefix already
    cached; afterwards exactly the page-aligned prefixes of the key are cached
    in addition, the old part in its old slots, the new part in the caller's;
    the tree takes over exactly the caller's slots of the new part, and its
    evictable size grows by their number. *)
Theorem insert_adds_pages s Hd k v prio chunked :
  Inv s Hd -> disable (cfg s) = false -> kind_ok s k -> hashable s (aligned s k) ->
  (forall x, v = Some x -> key_len (aligned s k) <= length x) ->
  exists s' last q w, insert k v prio chunked s = Ok (s', (length q, Some last)) /\ Inv s' Hd /\
    longest_cached s (extra_key k) (key_iter (aligned s k)) q w /\
    (forall ek p vs, cached s' ek p vs <->
       cached s ek p vs \/
       (ek = extra_key k /\ p `prefix_of` key_iter (aligned s k) /\ (psize s | length p) /\
        vs = take (length p) (w ++ drop (length w) (ins_slots s k v)))) /\
    (forall l, tree_slots s l -> tree_slots s' (drop (length w) (ins_slots s k v) ++ l)) /\
    evictable_size_ s' = (evictable_size_ s + Z.of_nat (key_len (aligned s k) - length q))%Z /\
    protected_size_ s' = protected_size_ s.
Proof.
  intros (L & P & I) Hdis Hk Hh Hv.
  destruct (insert_run s L P Hd k v prio chunked I Hdis Hk Hh Hv) as (s' & L' & P' & last & q & w & Hrun & R).
  exists s', last, q, w. split; [done|]. split; [by exists L', P'; apply R|]. split; [apply R|].
  split; [apply R|]. split; [|split; [|apply R]].
  - intros l Hl. rewrite (tree_slots_iff _ _ _ _ _ _ I) in Hl.
    rewrite (tree_slots_iff _ _ _ _ _ _ (is_inv _ _ _ _ _ _ _ _ _ _ _ _ R)).
    by rewrite Hl, (is_owned _ _ _ _ _ _ _ _ _ _ _ _ R).
  - rewrite <- length_key_iter. apply R.
Qed.

(** The last node an insertion returns is in the tree, and the tree holds the
    new slots besides the old ones. *)
Lemma insert_slots s Hd k v prio chunked s' n last l :
  Inv s Hd -> disable (cfg s) = false -> kind_ok s k -> hashable s (aligned s k) ->
  (forall x, v = Some x -> key_len (aligned s k) <= length x) ->
  insert k v prio chunked s = Ok (s', (n, Some last)) -> tree_slots s l ->
  live s' last /\ tree_slots s' (drop n (ins_slots s k v) ++ l).
Proof.
  intros (L & P & I) Hdis Hk Hh Hv Hrun Hl.
  destruct (insert_run s L P Hd k v prio chunked I Hdis Hk Hh Hv) as (s1 & L1 & P1 & last1 & q & w & Hrun1 & R).
  rewrite Hrun in Hrun1. injection Hrun1 as <- -> <-. pose proof (is_inv _ _ _ _ _ _ _ _ _ _ _ _ R) as I1.
  destruct (slots_from_length (inv_wf _ _ _ _ _ I) _ _ _ _ (wf_root_in _ _ _ _ _ _ (inv_wf _ _ _ _ _ I))
    (lc_cached _ _ _ _ _ (is_longest _ _ _ _ _ _ _ _ _ _ _ _ R))) as [Hw _].
  split.
  - pose proof (is_last _ _ _ _ _ _ _ _ _ _ _ _ R) as Hp. destruct (is_cfg _ _ _ _ _ _ _ _ _ _ _ _ R) as [_ Er].
    rewrite <- Er in Hp. by eexists _, _, _.
  - rewrite (tree_slots_iff _ _ _ _ _ _ I1), (is_owned _ _ _ _ _ _ _ _ _ _ _ _ R), Hw.
    rewrite (tree_slots_iff _ _ _ _ _ _ I) in Hl. by rewrite Hl.
Qed.

Lemma cached_functional s Hd ek p vs vs' : Inv s Hd -> cached s ek p vs -> cached s ek p vs' -> vs = vs'.
Proof.
  intros (L & P & I). apply (slots_from_functional (inv_wf _ _ _ _ _ I)), (inv_wf _ _ _ _ _ I).
Qed.

Lemma cached_length s Hd ek p vs : Inv s Hd -> cached s ek p vs -> length vs = length p /\ (psize s | length p).
Proof.
  intros (L & P & I). apply (slots_from_length (inv_wf _ _ _ _ _ I)), (inv_wf _ _ _ _ _ I).
Qed.

(** A fully cached key is its own longest cached prefix. *)
Lemma longest_whole s Hd ek K vs q w :
  Inv s Hd -> cached s ek K vs -> longest_cached s ek K q w -> q = K /\ w = vs.
Proof.
  intros I Hc [[r ->] Hq Hmax]. specialize (Hmax _ _ Hc ltac:(done)). rewrite length_app in Hmax.
  destruct r; [|simpl in Hmax; lia]. rewrite app_nil_r in *. split; [done|]. by eapply cached_functional.
Qed.

(** What was just inserted is found again: matching
    the same key returns its whole page-aligned length and the slots that
    cache it. *)
Theorem insert_match_roundtrip s Hd k v prio chunked :
  Inv s Hd -> disable (cfg s) = false -> kind_ok s k -> hashable s (aligned s k) ->
  (forall x, v = Some x -> key_len (aligned s k) <= length x) ->
  exists s1 s2 n last r w, insert k v prio chunked s = Ok (s1, (n, last)) /\
    match_prefix k s1 = Ok (s2, r) /\ Inv s2 Hd /\ n = length w /\
    length (device_indices r) = key_len (aligned s k) /\
    device_indices r = w ++ drop n (ins_slots s k v) /\
    longest_cached s (extra_key k) (key_iter (aligned s k)) (take n (key_iter (aligned s k))) w.
Proof.
  intros (L & P & I) Hdis Hk Hh Hv.
  destruct (insert_run s L P Hd k v prio chunked I Hdis Hk Hh Hv) as (s1 & L1 & P1 & last & q & w & Hrun & R).
  pose proof (is_inv _ _ _ _ _ _ _ _ _ _ _ _ R) as I1. destruct (is_cfg _ _ _ _ _ _ _ _ _ _ _ _ R) as [Ec Er].
  destruct (match_prefix_run s1 L1 P1 Hd k I1) as (s2 & L2 & P2 & r & q2 & Hrun2 & R2 & Hlc2 & _);
    [by rewrite Ec|unfold kind_ok in *; by rewrite Ec|].
  assert (aligned s1 k = aligned s k) as Ea by (unfold aligned, psize; by rewrite Ec). rewrite Ea in Hlc2.
  pose proof (is_last _ _ _ _ _ _ _ _ _ _ _ _ R) as Hlast. rewrite <- Er in Hlast.
  destruct (longest_whole s1 Hd _ _ _ _ _ ltac:(by exists L1, P1) (cached_path _ _ _ _ _ _ _ _ I1 Hlast) Hlc2) as [-> Ew].
  pose proof (is_longest _ _ _ _ _ _ _ _ _ _ _ _ R) as Hlc.
  destruct (cached_length s Hd _ _ _ ltac:(by exists L, P) (lc_cached _ _ _ _ _ Hlc)) as [Hw _].
  destruct (cached_length s1 Hd _ _ _ ltac:(by exists L1, P1) (lc_cached _ _ _ _ _ Hlc2)) as [Hr _].
  exists s1, s2, (length q), (Some last), r, w. split; [done|]. split; [done|].
  split; [by exists L2, P2; apply R2|]. split; [done|]. split; [by rewrite Hr, length_key_iter|].
  split; [by rewrite Ew, Hw|]. destruct (lc_prefix _ _ _ _ _ Hlc) as [x Hx].
  rewrite Hx at 2. by rewrite take_app_length.
Qed.

(** Inserting in one namespace changes nothing
    of what is cached in another: entries with different [extra_key] never
    share slots. *)
Theorem insert_isolates_namespaces s Hd k v prio chunked ek :
  Inv s Hd -> disable (cfg s) = false -> kind_ok s k -> hashable s (aligned s k) ->
  (forall x, v = Some x -> key_len (aligned s k) <= length x) -> ek <> extra_key k ->
  exists s' r, insert k v prio chunked s = Ok (s', r) /\
    forall p vs, cached s' ek p vs <-> cached s ek p vs.
Proof.
  intros (L & P & I) Hdis Hk Hh Hv Hne.
  destruct (insert_run s L P Hd k v prio chunked I Hdis Hk Hh Hv) as (s' & L' & P' & last & q & w & Hrun & R).
  exists s', (length q, Some last). split; [done|]. intros p vs.
  rewrite (is_content _ _ _ _ _ _ _ _ _ _ _ _ R). tauto.
Qed.

(** ** Locks *)

(** Locking a node of the tree returns, records one
    more lock on it, keeps the content, and moves [-delta >= 0] tokens from
    the evictable to the protected account. *)
Theorem inc_lock_ref_protects s Hd n :
  Inv s Hd -> disable (cfg s) = false -> live s n ->
  exists s' delta, inc_lock_ref n s = Ok (s', delta) /\ Inv s' (<[n := (Hd n + 1)%Z]> Hd) /\ (delta <= 0)%Z /\
    evictable_size_ s' = (evictable_size_ s + delta)%Z /\
    protected_size_ s' = (protected_size_ s - delta)%Z /\
    (forall ek p vs, cached s' ek p vs <-> cached s ek p vs).
Proof.
  intros (L & P & I) Hdis Hn. apply (live_iff _ _ _ _ _ _ I) in Hn.
  destruct (inc_lock_ref_run s L P Hd n I Hdis Hn) as (s' & delta & Hrun & W & Hle).
  exists s', delta. split; [done|]. split; [by exists L, P; apply W|]. split; [done|].
  pose proof (lw_delta _ _ _ _ _ _ _ W). pose proof (lw_total _ _ _ _ _ _ _ W).
  split; [done|]. split; [lia|]. intros. by eapply lock_walked_content.
Qed.

(** Giving back a lock that is held returns, records
    one lock less, and moves [delta >= 0] tokens back to the evictable
    account. *)
Theorem dec_lock_ref_releases s Hd n :
  Inv s Hd -> disable (cfg s) = false -> (0 < Hd n)%Z ->
  exists s' delta, dec_lock_ref n s = Ok (s', delta) /\ Inv s' (<[n := (Hd n - 1)%Z]> Hd) /\ (0 <= delta)%Z /\
    evictable_size_ s' = (evictable_size_ s + delta)%Z /\
    protected_size_ s' = (protected_size_ s - delta)%Z /\
    (forall ek p vs, cached s' ek p vs <-> cached s ek p vs).
Proof.
  intros (L & P & I) Hdis Hn.
  destruct (dec_lock_ref_run s L P Hd n I Hdis Hn) as (s' & delta & Hrun & W & Hle).
  exists s', delta. split; [done|]. split; [by exists L, P; apply W|]. split; [done|].
  pose proof (lw_delta _ _ _ _ _ _ _ W). pose proof (lw_total _ _ _ _ _ _ _ W).
  split; [done|]. split; [lia|]. intros. by eapply lock_walked_content.
Qed.

(** Locking moves no slot. *)
Lemma inc_lock_slots s Hd n s' d l :
  Inv s Hd -> disable (cfg s) = false -> live s n -> inc_lock_ref n s = Ok (s', d) ->
  tree_slots s l -> tree_slots s' l.
Proof.
  intros (L & P & I) Hdis Hn Hrun Hl. rewrite (tree_slots_iff _ _ _ _ _ _ I) in Hl. apply (live_iff _ _ _ _ _ _ I) in Hn.
  destruct (inc_lock_ref_run s L P Hd n I Hdis Hn) as (s1 & d1 & Hrun1 & W & _).
  rewrite Hrun in Hrun1. injection Hrun1 as <- _. apply (tree_slots_iff _ _ _ _ _ _ (lw_inv _ _ _ _ _ _ _ W)).
  by rewrite (lock_walked_owned _ _ _ _ _ _ _ W).
Qed.

(** Lock counts are determined by the locks held. *)
Lemma locks_determined s s' L P P' Hd n :
  Inv_at s L P Hd None -> Inv_at s' L P' Hd None -> content_view (tree s') = content_view (tree s) ->
  root_node s' = root_node s -> n ∈ L -> lock_at (tree s') n = lock_at (tree s) n.
Proof.
  intros I I' Ev Er. pose proof (inv_wf _ _ _ _ _ I) as W.
  remember (size (base.filter (fun m => length (P n) < length (P m)) L)) as len eqn:Hlen.
  revert n Hlen. induction len as [len IH] using lt_wf_ind. intros n -> Hn.
  destruct (wf_lookup W n Hn) as [nd Hnd].
  destruct (content_view_lookup _ _ n nd (eq_sym Ev) Hnd) as (nd' & Hnd' & Ec & _).
  destruct (decide (n = root_node s)) as [->|Hr].
  { destruct (wf_root_key W) as [cs E1]. destruct (wf_root_key (inv_wf _ _ _ _ _ I')) as [cs' E2].
    rewrite Er in E2. unfold lock_at. by rewrite E1, E2. }
  pose proof (inv_locks _ _ _ _ _ I n nd Hn Hr Hnd) as E1.
  pose proof (inv_locks _ _ _ _ _ I' n nd' Hn ltac:(by rewrite Er) Hnd') as E2. simpl in E1, E2.
  unfold lock_at. rewrite Hnd, Hnd'. simpl. rewrite Z.add_0_r in E1, E2. rewrite E1, E2. f_equal.
  unfold children_locks. rewrite Ec. apply dict_sum_ext. intros k c Hin.
  apply (dict_in_get _ _ _ (wf_nodup _ _ _ _ _ _ W n nd Hn Hnd)) in Hin.
  destruct (wf_child_link W n nd k c Hn Hnd Hin) as (cd & HcL & _ & _ & _ & _ & _ & Hok & Hlk).
  eapply (IH _); [|reflexivity|done]. apply subset_size.
  assert (length (P n) < length (P c)).
  { rewrite (lk_path _ _ _ _ _ _ _ Hlk), length_app. unfold s_units. rewrite length_key_iter.
    pose proof (ok_len _ _ _ Hok). unfold s_len in *. lia. }
  split.
  - intros m. rewrite !elem_of_filter. intros [? ?]. split; [lia|done].
  - intros Hsub. specialize (Hsub c). rewrite !elem_of_filter in Hsub. destruct Hsub; [done|lia].
Qed.

(** With the same locks held, the same tree has the same books. *)
Lemma same_books s s' L P P' Hd :
  Inv_at s L P Hd None -> Inv_at s' L P' Hd None -> content_view (tree s') = content_view (tree s) ->
  root_node s' = root_node s ->
  evictable_size_ s' = evictable_size_ s /\ evictable_leaves s' = evictable_leaves s.
Proof.
  intros I I' Hv Er.
  assert (Hsh : forall m md, m ∈ L -> tree s !! m = Some md -> exists md', tree s' !! m = Some md' /\
    s_lock md' = s_lock md /\ s_children md' = s_children md /\ s_key md' = s_key md).
  { intros m md Hm Hmd. destruct (content_view_lookup _ _ m md (eq_sym Hv) Hmd) as (md' & Hmd' & Ec & Ek & _).
    exists md'. split; [done|]. pose proof (locks_determined s s' L P P' Hd m I I' Hv Er Hm) as Hlk.
    unfold lock_at in Hlk. by rewrite Hmd, Hmd' in Hlk. }
  split.
  - rewrite (bk_ev _ _ _ _ _ _ (inv_books _ _ _ _ _ I')), (bk_ev _ _ _ _ _ _ (inv_books _ _ _ _ _ I)), Er.
    apply set_sum_ext. intros m Hm. destruct (wf_lookup (inv_wf _ _ _ _ _ I) m) as [md Hmd]; [set_solver|].
    destruct (Hsh m md) as (md' & Hmd' & El & _ & Ek); [set_solver|done|].
    unfold unlocked_len, s_len. by rewrite Hmd, Hmd', El, Ek.
  - apply leibniz_equiv. intros m.
    rewrite (bk_leaves _ _ _ _ _ _ (inv_books _ _ _ _ _ I')), (bk_leaves _ _ _ _ _ _ (inv_books _ _ _ _ _ I)).
    unfold evictable_leaf. rewrite Er. split; intros (Hm & Hr & md & Hmd & Hl & Hc);
      (split; [done|split; [done|]]).
    + destruct (wf_lookup (inv_wf _ _ _ _ _ I) m Hm) as [md0 Hmd0].
      destruct (Hsh m md0 Hm Hmd0) as (md' & Hmd' & El & Ec & _). exists md0. assert (md' = md) as -> by congruence.
      split; [done|]. split; congruence.
    + destruct (Hsh m md Hm Hmd) as (md' & Hmd' & El & Ec & _). exists md'. split; [done|]. split; congruence.
Qed.

Lemma Inv_at_ext s L P Hd Hd' : (forall n, Hd' n = Hd n) -> Inv_at s L P Hd None -> Inv_at s L P Hd' None.
Proof.
  intros E [J1 J2 J3 J4 J5 J6 J7]. split; try done.
  - intros m md Hm Hr Hmd. rewrite E. by apply J3.
  - intros m. by rewrite E.
  - intros m. rewrite E. apply J5.
Qed.

(** Locking a node and giving the lock back restores
    the sizes, the set of evictable leaves and every lock count of the tree. *)
Theorem lock_unlock_roundtrip s Hd n :
  Inv s Hd -> disable (cfg s) = false -> live s n ->
  exists s1 s2 d1 d2, inc_lock_ref n s = Ok (s1, d1) /\ dec_lock_ref n s1 = Ok (s2, d2) /\
    d2 = (- d1)%Z /\ evictable_size_ s2 = evictable_size_ s /\ protected_size_ s2 = protected_size_ s /\
    evictable_leaves s2 = evictable_leaves s /\
    (forall m, live s m -> lock_at (tree s2) m = lock_at (tree s) m).
Proof.
  intros (L & P & I) Hdis Hn0. pose proof (proj2 (live_iff _ _ _ _ _ _ I) Hn0) as Hn.
  destruct (inc_lock_ref_run s L P Hd n I Hdis Hn) as (s1 & d1 & Hrun1 & W1 & Hle1).
  pose proof (inv_held _ _ _ _ _ I n) as Hpos. destruct (lw_cfg _ _ _ _ _ _ _ W1) as [Ec1 Er1].
  destruct (dec_lock_ref_run s1 L P _ n (lw_inv _ _ _ _ _ _ _ W1)) as (s2 & d2 & Hrun2 & W2 & Hle2);
    [by rewrite Ec1|rewrite fn_lookup_insert; lia|].
  destruct (lw_cfg _ _ _ _ _ _ _ W2) as [Ec2 Er2].
  assert (I2 : Inv_at s2 L P Hd None).
  { eapply Inv_at_ext; [|apply (lw_inv _ _ _ _ _ _ _ W2)]. intros m. rewrite fn_lookup_insert.
    destruct (decide (n = m)) as [<-|Hne]; [rewrite fn_lookup_insert; lia|by rewrite !fn_lookup_insert_ne]. }
  assert (Hv : content_view (tree s2) = content_view (tree s)).
  { rewrite (lw_view _ _ _ _ _ _ _ W2). apply W1. }
  assert (Er : root_node s2 = root_node s) by congruence.
  destruct (same_books s s2 L P P Hd I I2 Hv Er) as [Hev Hlv].
  pose proof (lw_delta _ _ _ _ _ _ _ W1). pose proof (lw_delta _ _ _ _ _ _ _ W2).
  pose proof (lw_total _ _ _ _ _ _ _ W1). pose proof (lw_total _ _ _ _ _ _ _ W2).
  exists s1, s2, d1, d2. split; [done|]. split; [done|]. split; [lia|]. split; [done|]. split; [lia|].
  split; [done|]. intros m Hm. apply (live_iff _ _ _ _ _ _ I) in Hm. by eapply locks_determined.
Qed.

(** ** Eviction *)

Section evict.
Context {A : Type} `{KVAllocatorLaws A}.

(** Every node's slots are whole pages of the allocator. *)
Definition whole_chunks (a : A) (s : RadixCache) : Prop :=
  forall n nd v, live s n -> nodes s !! n = Some nd -> value nd = Some v -> kv_chunk a v.

Lemma whole_chunks_at (a : A) s L P Hd : Inv_at s L P Hd None -> whole_chunks a s -> chunks_ok a s L.
Proof. intros I Hw n nd v Hn. apply Hw. by apply (live_iff _ _ _ _ _ _ I). Qed.

Lemma evictable_nonneg s L P Hd pend : Inv_at s L P Hd pend -> (0 <= evictable_size_ s)%Z.
Proof.
  intros I. rewrite (bk_ev _ _ _ _ _ _ (inv_books _ _ _ _ _ I)). apply set_sum_nonneg. intros n _.
  unfold unlocked_len. destruct (tree s !! n) as [nd|]; [|lia]. case_decide; lia.
Qed.

Lemma evict_enough_run s Hd (a : A) l other num :
  Inv s Hd -> disable (cfg s) = false -> tree_slots s l -> kv_out a (l ++ other) -> whole_chunks a s ->
  exists s' a' k l', evict num s a = Ok (s', a', k) /\ Inv s' Hd /\ cfg s' = cfg s /\
    (Z.min num (evictable_size_ s) <= k)%Z /\ (0 <= evictable_size_ s')%Z /\
    tree_slots s' l' /\ kv_out a' (l' ++ other) /\
    kv_available a' = (kv_available a + k)%Z /\
    evictable_size_ s' = (evictable_size_ s - k)%Z /\ protected_size_ s' = protected_size_ s.
Proof.
  intros (L & P & I) Hdis Hl Hout Hch. rewrite (tree_slots_iff _ _ _ _ _ _ I) in Hl.
  destruct (evict_run s L P Hd a other num I Hdis) as (xs & s' & L' & a' & k & Hrun & Hst & [Hs _] & Hk & Hev & I' & Hout' & Hav).
  { eapply kv_out_perm; [|exact Hout]. by rewrite Hl. }
  { by eapply whole_chunks_at. }
  destruct (evict_steps_frame Hd P s L a xs s' L' a' I Hst) as (Ec & _ & Hpr & _).
  exists s', a', k, (owned (tree s') L'). split; [done|]. split; [by exists L', P|]. split; [done|]. split; [|split; [|split] ].
  - destruct Hs as [Hs|Hs]; [lia|]. apply (no_leaves_nothing _ _ _ _ I') in Hs. lia.
  - by eapply evictable_nonneg.
  - by apply (tree_slots_iff _ _ _ _ _ _ I').
  - split; [done|]. split; [done|]. split; [lia|done].
Qed.

(** C12: Eviction returns on every well-formed cache whose
    slots the allocator has handed out.  It frees at least what was asked, or
    everything evictable when that is less; the slots go back to the allocator
    exactly once (what the tree and the other holders keep is what stays
    allocated), and the accounts agree on the amount. *)
Theorem evict_frees_enough s Hd (a : A) l other num :
  Inv s Hd -> disable (cfg s) = false -> tree_slots s l -> kv_out a (l ++ other) -> whole_chunks a s ->
  exists s' a' k l', evict num s a = Ok (s', a', k) /\ Inv s' Hd /\
    (Z.min num (evictable_size_ s) <= k)%Z /\
    tree_slots s' l' /\ kv_out a' (l' ++ other) /\
    kv_available a' = (kv_available a + k)%Z /\
    evictable_size_ s' = (evictable_size_ s - k)%Z /\ protected_size_ s' = protected_size_ s.
Proof.
  intros I Hdis Hl Hout Hch.
  destruct (evict_enough_run s Hd a l other num I Hdis Hl Hout Hch) as (s' & a' & k & l' & ? & ? & _ & ? & _ & ?). eauto 10.
Qed.

(** Eviction never takes anything a caller has locked:
    the prefix that ends in a locked node stays cached in the same slots, and
    no prefix becomes cached that was not. *)
Theorem evict_keeps_locked s Hd (a : A) l other num :
  Inv s Hd -> disable (cfg s) = false -> tree_slots s l -> kv_out a (l ++ other) -> whole_chunks a s ->
  exists s' a' k, evict num s a = Ok (s', a', k) /\
    (forall n ek q vq, (0 < Hd n)%Z -> path_from (tree s) ek (root_node s) q vq n ->
       live s' n /\ cached s' ek q vq) /\
    (forall ek p vs, cached s' ek p vs -> cached s ek p vs).
Proof.
  intros (L & P & I) Hdis Hl Hout Hch. rewrite (tree_slots_iff _ _ _ _ _ _ I) in Hl.
  destruct (evict_run s L P Hd a other num I Hdis) as (xs & s' & L' & a' & k & Hrun & Hst & _ & _ & _ & I' & _).
  { eapply kv_out_perm; [|exact Hout]. by rewrite Hl. }
  { by eapply whole_chunks_at. }
  destruct (evict_steps_frame Hd P s L a xs s' L' a' I Hst) as (_ & _ & _ & _ & _ & _ & Hc & _).
  exists s', a', k. split; [done|]. split; [|done]. intros n ek q vq Hn Hp.
  assert (HnL : n ∈ L') by (apply (inv_held_live _ _ _ _ _ I'); lia).
  split; [by apply (live_iff _ _ _ _ _ _ I')|].
  eapply (cached_path _ _ _ _ _ _ _ n I'), (evict_steps_paths Hd P s L a xs s' L' a'); done.
Qed.

(** The nodes are evicted one by one, each an unlocked leaf
    that no other evictable leaf precedes in the order of the configured
    strategy at that moment; and eviction stops as soon as enough is freed:
    without the last victim it would have been too little. *)
Theorem evict_order s Hd (a : A) l other num :
  Inv s Hd -> disable (cfg s) = false -> tree_slots s l -> kv_out a (l ++ other) -> whole_chunks a s ->
  exists s' a' k L P xs L', evict num s a = Ok (s', a', k) /\ Inv_at s L P Hd None /\
    evict_steps Hd P s L a xs s' L' a' /\ NoDup xs.*1 /\
    (forall x, x ∈ xs.*1 -> live s x /\ Hd x = 0%Z) /\ k = freed_len xs /\
    (forall ys z, xs = ys ++ [z] -> (freed_len ys < num)%Z).
Proof.
  intros (L & P & I) Hdis Hl Hout Hch. rewrite (tree_slots_iff _ _ _ _ _ _ I) in Hl.
  destruct (evict_run s L P Hd a other num I Hdis) as (xs & s' & L' & a' & k & Hrun & Hst & [_ Hs] & Hk & _).
  { eapply kv_out_perm; [|exact Hout]. by rewrite Hl. }
  { by eapply whole_chunks_at. }
  destruct (evict_steps_frame Hd P s L a xs s' L' a' I Hst) as (_ & _ & _ & _ & Hnd & Hlive & _).
  exists s', a', k, L, P, xs, L'. split; [done|]. split; [done|]. split; [done|]. split; [done|].
  split; [|split; [done|]].
  - intros x Hx. destruct (Hlive x Hx). split; [by apply (live_iff _ _ _ _ _ _ I)|done].
  - intros ys z E. by specialize (Hs ys z E).
Qed.

End evict.

(** ** All reachable states *)

(** The states a cache of configuration [c] goes through, with the locks its
    callers hold: any interleaving of the public operations, each called
    within its contract. *)
Inductive reach (c : CacheConfig) : RadixCache -> (nat -> Z) -> Prop :=
| reach_init : reach c (init_cache c) (fun _ => 0%Z)
| reach_reset s Hd : reach c s Hd -> reach c (reset s) (fun _ => 0%Z)
| reach_match s Hd k s' r :
    reach c s Hd -> kind_ok s k -> match_prefix k s = Ok (s', r) -> reach c s' Hd
| reach_insert s Hd k v prio chunked s' r :
    reach c s Hd -> kind_ok s k -> hashable s (aligned s k) ->
    (forall x, v = Some x -> key_len (aligned s k) <= length x) ->
    insert k v prio chunked s = Ok (s', r) -> reach c s' Hd
| reach_lock s Hd n s' d :
    reach c s Hd -> live s n -> inc_lock_ref n s = Ok (s', d) -> reach c s' (<[n := (Hd n + 1)%Z]> Hd)
| reach_unlock s Hd n s' d :
    reach c s Hd -> (0 < Hd n)%Z -> dec_lock_ref n s = Ok (s', d) -> reach c s' (<[n := (Hd n - 1)%Z]> Hd)
| reach_evict s Hd (A : Type) (KA : KVAllocator A) (KL : KVAllocatorLaws A) (a : A) l other num s' a' k :
    reach c s Hd -> tree_slots s l -> kv_out a (l ++ other) -> whole_chunks a s ->
    evict num s a = Ok (s', a', k) -> reach c s' Hd.

Lemma reset_cfg s : cfg (reset s) = cfg s.
Proof. unfold reset, record_all_cleared_event. simpl. by destruct (enable_kv_cache_events (cfg s)). Qed.

Lemma reach_step c s Hd :
  disable c = false -> 0 < page_size c -> reach c s Hd -> Inv s Hd /\ cfg s = c.
Proof.
  intros Hdis Hps. induction 1 as [|s Hd _ [ (L & P & I) Ec ]|s Hd k s' r _ [ (L & P & I) Ec ] Hk Hrun
    |s Hd k v prio chunked s' r _ [ (L & P & I) Ec ] Hk Hh Hv Hrun|s Hd n s' d _ [ (L & P & I) Ec ] Hn Hrun
    |s Hd n s' d _ [ (L & P & I) Ec ] Hn Hrun|s Hd A KA KL a l other num s' a' k _ [ (L & P & I) Ec ] Hl Hout Hch Hrun].
  - split; [by apply init_inv|]. unfold init_cache. by rewrite reset_cfg.
  - split; [|by rewrite reset_cfg]. apply reset_inv; [unfold psize; by rewrite Ec|].
    intros n nd Hn. by eapply (inv_fresh _ _ _ _ _ I), tree_lookup.
  - destruct (match_prefix_run s L P Hd k I) as (s1 & L1 & P1 & r1 & q & Hrun1 & R & _); [by rewrite Ec|done|].
    rewrite Hrun in Hrun1. injection Hrun1 as <- _. split; [exists L1, P1; apply R|].
    destruct (books_psize _ _ (rf_books _ _ _ _ _ _ _ R)) as (_ & _ & ->). done.
  - destruct (insert_run s L P Hd k v prio chunked I) as (s1 & L1 & P1 & last & q & w & Hrun1 & R); [by rewrite Ec|done..|].
    rewrite Hrun in Hrun1. injection Hrun1 as <- _. split; [exists L1, P1; apply R|].
    destruct (is_cfg _ _ _ _ _ _ _ _ _ _ _ _ R) as [-> _]. done.
  - destruct (inc_lock_ref_run s L P Hd n I) as (s1 & d1 & Hrun1 & W & _); [by rewrite Ec|by apply (live_iff _ _ _ _ _ _ I)|].
    rewrite Hrun in Hrun1. injection Hrun1 as <- _. split; [exists L, P; apply W|].
    destruct (lw_cfg _ _ _ _ _ _ _ W) as [-> _]. done.
  - destruct (dec_lock_ref_run s L P Hd n I) as (s1 & d1 & Hrun1 & W & _); [by rewrite Ec|done|].
    rewrite Hrun in Hrun1. injection Hrun1 as <- _. split; [exists L, P; apply W|].
    destruct (lw_cfg _ _ _ _ _ _ _ W) as [-> _]. done.
  - rewrite (tree_slots_iff _ _ _ _ _ _ I) in Hl.
    destruct (evict_run s L P Hd a other num I) as (xs & s1 & L1 & a1 & k1 & Hrun1 & Hst & _ & _ & _ & I1 & _).
    { by rewrite Ec. }
    { eapply kv_out_perm; [|exact Hout]. by rewrite Hl. }
    { by eapply whole_chunks_at. }
    rewrite Hrun in Hrun1. injection Hrun1 as <- _ _. split; [by exists L1, P|].
    destruct (evict_steps_frame Hd P s L a xs s' L1 a1 I Hst) as (-> & _). done.
Qed.

(** C11: In every reachable state the tree is well formed
    and the books are right: evictable and protected size add up to the slots
    held, lock counts are the locks callers hold below, and the evictable
    leaves are exactly the unlocked leaves. *)
Theorem reachable_invariant c s Hd :
  disable c = false -> 0 < page_size c -> reach c s Hd ->
  Inv s Hd /\
  (exists l, tree_slots s l /\ Z.of_nat (length l) = (evictable_size_ s + protected_size_ s)%Z) /\
  (forall n, n ∈ evictable_leaves s <-> live s n /\ n <> root_node s /\
     exists nd, nodes s !! n = Some nd /\ lock_ref nd = 0%Z /\ children nd = []).
Proof.
  intros Hdis Hps Hr. destruct (reach_step c s Hd Hdis Hps Hr) as [ (L & P & I) _ ].
  split; [by exists L, P|]. split.
  - exists (owned (tree s) L). split; [by apply (tree_slots_iff _ _ _ _ _ _ I)|].
    eapply (owned_length (inv_wf _ _ _ _ _ I)), I.
  - intros n. rewrite (bk_leaves _ _ _ _ _ _ (inv_books _ _ _ _ _ I)). unfold evictable_leaf.
    rewrite (live_iff _ _ _ _ _ _ I). split; intros (Hn & Hnr & nd & Hnd & Hl & Hc); (split; [done|split; [done|]]).
    + apply tree_lookup_inv in Hnd as (nd0 & Hnd0 & <-). eauto.
    + exists (shape_of nd). split; [by apply tree_lookup|done].
Qed.

(** ** Total size *)

Definition value_len (s : RadixCache) (n : nat) : Z := Z.of_nat (length (node_slots (tree s) n)).

(** The walk has visited [V], and everything not visited hangs below the stack. *)
Record walk_inv (s : RadixCache) (L V : gset nat) (stack : list nat) : Prop := {
  wk_sub : V ⊆ L;
  wk_stack n : n ∈ stack -> n ∈ L /\ n ∉ V;
  wk_nodup : NoDup stack;
  wk_parent n nd : n ∈ stack \/ n ∈ V -> n <> root_node s -> nodes s !! n = Some nd -> exists p, parent nd = Some p /\ p ∈ V;
  wk_closed p pd c : p ∈ V -> nodes s !! p = Some pd -> c ∈ (children pd).*2 -> c ∈ V \/ c ∈ stack;
  wk_root : root_node s ∈ V \/ root_node s ∈ stack;
}.

Lemma live_children s L P Hd n nd :
  Inv_at s L P Hd None -> n ∈ L -> nodes s !! n = Some nd ->
  List.filter (fun c => match nodes s !! c with Some cd => negb (evicted cd) | None => false end) (children nd).*2
    = (children nd).*2 /\
  NoDup (children nd).*2 /\
  forall c, c ∈ (children nd).*2 -> c ∈ L /\ c <> root_node s /\ exists cd, nodes s !! c = Some cd /\ parent cd = Some n.
Proof.
  intros I Hn Hnd. pose proof (inv_wf _ _ _ _ _ I) as W.
  assert (Hch : forall c, c ∈ (children nd).*2 -> c ∈ L /\ c <> root_node s /\
    exists cd, nodes s !! c = Some cd /\ parent cd = Some n /\ evicted cd = false).
  { intros c Hc. destruct (dict_value_get c (children nd)) as [k Hk];
      [by apply (wf_nodup _ _ _ _ _ _ W n _ Hn (tree_lookup _ _ _ Hnd))|done|].
    destruct (wf_child_link W n (shape_of nd) k c Hn (tree_lookup _ _ _ Hnd) Hk)
      as (sh & HcL & Hcr & _ & Hsh & Hp & _ & Hok & _).
    destruct (tree_lookup_inv _ _ _ Hsh) as (cd & Hcd & <-). split; [done|]. split; [done|].
    exists cd. split; [done|]. split; [done|]. destruct (ok_value _ _ _ Hok) as (v & Hv & _). simpl in Hv.
    unfold evicted. by rewrite Hv. }
  split; [|split].
  - assert (Hall : forall c, c ∈ (children nd).*2 ->
      (match nodes s !! c with Some cd => negb (evicted cd) | None => false end) = true).
    { intros c Hc. destruct (Hch c Hc) as (_ & _ & cd & -> & _ & ->). done. }
    induction (children nd).*2 as [|c l IH]; simpl; [done|]. rewrite Hall by set_solver. f_equal.
    apply IH; intros; [apply Hch|apply Hall]; set_solver.
  - by apply (wf_values_nodup W n (shape_of nd) Hn (tree_lookup _ _ _ Hnd)).
  - intros c Hc. destruct (Hch c Hc) as (? & ? & cd & ? & ? & _). eauto 10.
Qed.

Lemma walk_step s L P Hd V n stack nd :
  Inv_at s L P Hd None -> nodes s !! n = Some nd -> walk_inv s L V (n :: stack) ->
  walk_inv s L ({[n]} ∪ V) (reverse (children nd).*2 ++ stack).
Proof.
  intros I Hnd [W1 W2 W3 W4 W5 W6]. destruct (W2 n) as [HnL HnV]; [set_solver|].
  destruct (live_children _ _ _ _ _ _ I HnL Hnd) as (_ & Hndc & Hch). apply NoDup_cons in W3 as [Hns Hnd3].
  assert (Hfr : forall c, c ∈ (children nd).*2 -> (c ∉ V) /\ c <> n /\ (c ∉ stack)).
  { intros c Hc. destruct (Hch c Hc) as (HcL & Hcr & cd & Hcd & Hp).
    assert (Hno : forall q, parent cd = Some q -> q ∉ V) by (intros q Hq; congruence).
    split; [|split].
    - intros HcV. destruct (W4 c cd) as (q & Hq & HqV); [by right|done|done|]. by apply (Hno q).
    - intros ->. destruct (inv_child_key _ _ _ _ _ _ _ I HcL Hcr Hcd) as (_ & _ & _ & ck & p & _ & _ & Hp' & _ & Hpc & _).
      congruence.
    - intros Hcs. destruct (W4 c cd) as (q & Hq & HqV); [left; set_solver|done|done|]. by apply (Hno q). }
  split.
  - set_solver.
  - intros m [Hm|Hm]%elem_of_app; [rewrite elem_of_reverse in Hm|].
    + destruct (Hch m Hm) as (? & _). destruct (Hfr m Hm) as (? & ? & _). set_solver.
    + destruct (W2 m) as [? ?]; [set_solver|]. split; [done|]. assert (m <> n) by congruence. set_solver.
  - apply NoDup_app. split; [by rewrite reverse_Permutation|]. split; [|done].
    intros m Hm. rewrite elem_of_reverse in Hm. by apply Hfr.
  - intros m md Hm Hr Hmd. destruct Hm as [ [Hm|Hm]%elem_of_app | Hm ]; [rewrite elem_of_reverse in Hm|..].
    + destruct (Hch m Hm) as (_ & _ & cd & Hcd & Hp). exists n. split; [congruence|set_solver].
    + destruct (W4 m md) as (q & ? & ?); [left; set_solver|done|done|]. exists q. set_solver.
    + assert (Hm' : m ∈ n :: stack \/ m ∈ V) by set_solver.
      destruct (W4 m md Hm' Hr Hmd) as (q & ? & ?). exists q. set_solver.
  - intros p pd c Hp Hpd Hc. destruct (decide (p = n)) as [->|Hpn].
    + assert (pd = nd) as -> by congruence. right. apply elem_of_app. left. by rewrite elem_of_reverse.
    + destruct (W5 p pd c) as [?|Hin]; [set_solver|done|done|set_solver|].
      apply elem_of_cons in Hin as [->|?]; [set_solver|]. right. apply elem_of_app. by right.
  - destruct W6 as [?|Hin]; [set_solver|]. apply elem_of_cons in Hin as [->|?]; [set_solver|].
    right. apply elem_of_app. by right.
Qed.

Lemma walk_done s L P Hd V : Inv_at s L P Hd None -> walk_inv s L V [] -> V = L.
Proof.
  intros I [W1 W2 W3 W4 W5 W6]. apply leibniz_equiv. intros n. split; [apply W1|].
  remember (length (P n)) as len eqn:Hlen. revert n Hlen. induction len as [len IH] using lt_wf_ind.
  intros n -> Hn. destruct (decide (n = root_node s)) as [->|Hr]; [destruct W6; set_solver|].
  destruct (wf_below (inv_wf _ _ _ _ _ I) n) with (nd := default (mkShape [] None no_key None 0) (tree s !! n))
    as (p & pd & Hp & HpL & Hpd & _ & _ & Hlk & Hlt); [done|done| |].
  { destruct (wf_lookup (inv_wf _ _ _ _ _ I) n Hn) as [nd ->]. done. }
  apply tree_lookup_inv in Hpd as (pn & Hpn & <-).
  destruct (lk_child _ _ _ _ _ _ _ Hlk) as (ck & _ & Hg).
  destruct (W5 p pn n) as [?|Hin]; [by eapply IH|done|by eapply dict_get_value|done|set_solver].
Qed.

Lemma total_size_loop_spec fuel s L P Hd V stack total :
  Inv_at s L P Hd None -> walk_inv s L V stack -> size L < size V + fuel ->
  total = set_sum (value_len s) V -> total_size_loop fuel stack total s = Ok (set_sum (value_len s) L).
Proof.
  intros I. revert V stack total. induction fuel as [|fuel IH]; intros V stack total Wk Hf ->.
  { pose proof (subseteq_size _ _ (wk_sub _ _ _ _ Wk)). lia. }
  cbn [total_size_loop]. destruct stack as [|n stack]; [by rewrite (walk_done _ _ _ _ _ I Wk)|].
  destruct (wk_stack _ _ _ _ Wk n) as [HnL HnV]; [set_solver|].
  destruct (wf_lookup (inv_wf _ _ _ _ _ I) n HnL) as [sh Hsh]. apply tree_lookup_inv in Hsh as (nd & Hnd & _).
  rewrite (get_node_Ok _ _ _ Hnd). bind_step.
  destruct (inv_value _ _ _ _ _ _ _ I HnL Hnd) as [v Hv]. rewrite (value_of_Ok _ _ Hv). bind_step.
  destruct (live_children _ _ _ _ _ _ I HnL Hnd) as (-> & _).
  apply (IH ({[n]} ∪ V)); [by eapply walk_step| |].
  - rewrite size_union, size_singleton by set_solver. lia.
  - rewrite set_sum_insert by done. unfold value_len at 2, node_slots. rewrite (tree_lookup _ _ _ Hnd). simpl.
    rewrite Hv. simpl. lia.
Qed.

Lemma set_sum_owned s L : set_sum (value_len s) L = Z.of_nat (length (owned (tree s) L)).
Proof.
  unfold set_sum, owned, value_len. induction (elements L) as [|n l IH]; csimpl; [done|].
  rewrite length_app, Nat2Z.inj_add, <- IH. done.
Qed.

(** [total_size] walks the whole tree once and returns
    the number of slots held, which is evictable plus protected size. *)
Theorem total_size_correct s Hd :
  Inv s Hd -> exists l, tree_slots s l /\ total_size s = Ok (Z.of_nat (length l)) /\
    total_size s = Ok (evictable_size_ s + protected_size_ s)%Z.
Proof.
  intros (L & P & I). exists (owned (tree s) L). split; [by apply (tree_slots_iff _ _ _ _ _ _ I)|].
  pose proof (owned_length (inv_wf _ _ _ _ _ I) _ _ _ (inv_books _ _ _ _ _ I)) as Hlen.
  assert (total_size s = Ok (Z.of_nat (length (owned (tree s) L)))) as E; [|by rewrite E, Hlen].
  unfold total_size. rewrite <- set_sum_owned.
  apply (total_size_loop_spec _ s L P Hd ∅ [root_node s] 0 I).
  - split.
    + set_solver.
    + intros n ->%list_elem_of_singleton. split; [apply (inv_wf _ _ _ _ _ I)|set_solver].
    + apply NoDup_singleton.
    + intros n nd [->%list_elem_of_singleton|?] Hr; set_solver.
    + set_solver.
    + right. set_solver.
  - pose proof (live_size _ _ _ _ _ I). rewrite size_empty. lia.
  - by rewrite set_sum_empty.
Qed.

End with_env.
