(* ===== verification/ReqPool.v ===== *)
(** * ReqPool: requests and the pool that maps them to their slots

    Models the part of class [Req] ([managers/schedule_batch.py]) the caches
    and the allocation code read and write, and class [ReqToTokenPool]
    ([mem_cache/memory_pool.py]): one row of token slots per request, row 0
    being padding.  Slots stay below 2^31, so the int32 table is a table of
    integers. *)

From S2P Require Import Prelude.

(** ** Requests *)

Record Req := mkReq {
  origin_input_ids : list Z;
  output_ids : list Z;
  full_untruncated_fill_ids : list Z;
  extend_end : nat;
  req_extra_key : option string;
  req_priority : option Z;
  session_id : option string;
  skip_radix_cache_insert : bool;
  cache_protected_len : nat;
  prefix_indices : list Z;
  last_node : option nat;
  req_pool_idx : option nat;
  kv_committed_len : nat;
  kv_allocated_len : option nat;
  inflight_middle_chunks : nat;
  reasoning_tokens : nat;
}.

(** [extend_range.end] is [extend_end]; [kv_allocated_len = None] stands for
    [req.kv = None]. *)

Definition set_pool_idx x (r : Req) := mkReq (origin_input_ids r) (output_ids r) (full_untruncated_fill_ids r) (extend_end r) (req_extra_key r) (req_priority r) (session_id r) (skip_radix_cache_insert r) (cache_protected_len r) (prefix_indices r) (last_node r) x (kv_committed_len r) (kv_allocated_len r) (inflight_middle_chunks r) (reasoning_tokens r).
Definition set_cache_fields cpl pre ln (r : Req) := mkReq (origin_input_ids r) (output_ids r) (full_untruncated_fill_ids r) (extend_end r) (req_extra_key r) (req_priority r) (session_id r) (skip_radix_cache_insert r) cpl pre ln (req_pool_idx r) (kv_committed_len r) (kv_allocated_len r) (inflight_middle_chunks r) (reasoning_tokens r).
Definition set_kv x (r : Req) := mkReq (origin_input_ids r) (output_ids r) (full_untruncated_fill_ids r) (extend_end r) (req_extra_key r) (req_priority r) (session_id r) (skip_radix_cache_insert r) (cache_protected_len r) (prefix_indices r) (last_node r) (req_pool_idx r) (kv_committed_len r) x (inflight_middle_chunks r) (reasoning_tokens r).
Definition set_fill_ids x (r : Req) := mkReq (origin_input_ids r) (output_ids r) x (extend_end r) (req_extra_key r) (req_priority r) (session_id r) (skip_radix_cache_insert r) (cache_protected_len r) (prefix_indices r) (last_node r) (req_pool_idx r) (kv_committed_len r) (kv_allocated_len r) (inflight_middle_chunks r) (reasoning_tokens r).

Definition get_fill_ids (r : Req) : list Z := take (extend_end r) (full_untruncated_fill_ids r).

(** [_refresh_fill_ids]; [aliased] says that the fill ids are the same array
    object as the origin ids. *)
Definition refresh_fill_ids (aliased : bool) (r : Req) : Req :=
  let n_have_output := (Z.of_nat (length (full_untruncated_fill_ids r)) - Z.of_nat (length (origin_input_ids r)))%Z in
  if negb aliased && (0 <=? n_have_output)%Z && (n_have_output <=? Z.of_nat (length (output_ids r)))%Z
  then set_fill_ids (full_untruncated_fill_ids r ++ drop (Z.to_nat n_have_output) (output_ids r)) r
  else set_fill_ids (origin_input_ids r ++ output_ids r) r.

Definition effective_kv_committed_len (strip_thinking_cache : bool) (r : Req) : nat :=
  if strip_thinking_cache && (0 <? reasoning_tokens r)
  then kv_committed_len r `min` length (origin_input_ids r)
  else kv_committed_len r.

(** ** The pool *)

Record ReqToTokenPool := mkPool {
  pool_size : nat;
  max_context_len : nat;
  req_to_token : list (list Z);
  free_slots : list nat;
  req_generation : list nat;
}.

Definition alloc_size (p : ReqToTokenPool) : nat := pool_size p + 1.

Definition set_table x (p : ReqToTokenPool) := mkPool (pool_size p) (max_context_len p) x (free_slots p) (req_generation p).
Definition set_slots x g (p : ReqToTokenPool) := mkPool (pool_size p) (max_context_len p) (req_to_token p) x g.

Definition pool_init (size max_context_len : nat) : ReqToTokenPool :=
  mkPool size max_context_len (replicate (size + 1) (replicate max_context_len 0%Z)) (seq 1 size)
    (replicate (size + 1) 0).

Definition pool_available_size (p : ReqToTokenPool) : nat := length (free_slots p).

(** [self.req_to_token[(idx, slice(lo, hi))] = values]: the slice is clipped to
    the row, a single value is broadcast, any other length is an error. *)
Definition pool_write (idx lo hi : nat) (values : list Z) (p : ReqToTokenPool) : res ReqToTokenPool :=
  row ← or_raise IndexError (req_to_token p !! idx);
  let n := length (slice lo hi row) in
  vals ← (if (length values =? n)%nat then Ok values
          else match values with [v] => Ok (replicate n v) | _ => Raise RuntimeError end);
  Ok (set_table (<[idx := take lo row ++ vals ++ drop (lo + n) row]> (req_to_token p)) p).

(** The loop that hands selected rows to the requests without one. *)
Fixpoint assign_rows (reqs : list Req) (select_index : list nat) (gen : list nat)
    : res (list Req * list nat) :=
  match reqs with
  | [] => Ok ([], gen)
  | r :: reqs =>
      match req_pool_idx r with
      | Some _ =>
          '(rs, gen) ← assign_rows reqs select_index gen;
          Ok (r :: rs, gen)
      | None =>
          match select_index with
          | [] => Raise IndexError
          | i :: select_index =>
              '(rs, gen) ← assign_rows reqs select_index (alter S i gen);
              Ok (set_pool_idx (Some i) r :: rs, gen)
          end
      end
  end.

Definition has_row (r : Req) : bool := match req_pool_idx r with Some _ => true | None => false end.

(** [alloc(reqs)]: the updated pool and requests, and the rows in order
    ([None] when there are too few). *)
Definition pool_alloc (reqs : list Req) (p : ReqToTokenPool)
    : res (ReqToTokenPool * list Req * option (list (option nat))) :=
  let reusing := List.filter has_row reqs in
  _ ← py_assert (forallb (fun r => (0 <? inflight_middle_chunks r) || (0 <? kv_committed_len r)) reusing);
  let need_size := (length reqs - length reusing)%nat in
  if (length (free_slots p) <? need_size)%nat then Ok (p, reqs, None)
  else
    let select_index := take need_size (free_slots p) in
    '(rs, gen) ← assign_rows reqs select_index (req_generation p);
    Ok (set_slots (drop need_size (free_slots p)) gen p, rs, Some (map req_pool_idx rs)).

Definition pool_free (r : Req) (p : ReqToTokenPool) : res (ReqToTokenPool * Req) :=
  _ ← py_assert (has_row r);
  match req_pool_idx r with
  | Some i => Ok (set_slots (free_slots p ++ [i]) (req_generation p) p, set_pool_idx None r)
  | None => Raise AssertionError
  end.

Definition pool_clear (p : ReqToTokenPool) : ReqToTokenPool :=
  set_slots (seq 1 (pool_size p)) (replicate (alloc_size p) 0) p.

(** ** Accounting of rows *)

(** [out] are the rows requests hold: every row but the padding row is free or
    held, once. *)
Record pool_inv (p : ReqToTokenPool) (out : list nat) : Prop := {
  po_rows : free_slots p ++ out ≡ₚ seq 1 (pool_size p);
  po_table : length (req_to_token p) = alloc_size p;
  po_width : Forall (fun row => length row = max_context_len p) (req_to_token p);
}.

(** Rows a list of requests holds. *)
Definition rows_of (reqs : list Req) : list nat := omap req_pool_idx reqs.

Lemma pool_init_inv n m : pool_inv (pool_init n m) [].
Proof.
  split; simpl; [by rewrite app_nil_r|by rewrite length_replicate|].
  apply Forall_replicate. by rewrite length_replicate.
Qed.

Lemma assign_rows_run reqs sel gen :
  length sel = length (List.filter (fun r => negb (has_row r)) reqs) ->
  exists rs gen', assign_rows reqs sel gen = Ok (rs, gen') /\ rows_of rs ≡ₚ sel ++ rows_of reqs /\
    Forall (fun r => has_row r = true) rs /\ length rs = length reqs /\
    Forall2 (fun r r' => req_pool_idx r = None \/ r' = r) reqs rs.
Proof.
  revert sel gen. induction reqs as [|r reqs IH]; intros sel gen Hl; simpl in *.
  { destruct sel; [|done]. exists [], gen. split; [done|]. split; [done|]. split; [constructor|]. split; [done|constructor]. }
  unfold rows_of, has_row in *. destruct (req_pool_idx r) as [i|] eqn:Ei; simpl in Hl.
  - destruct (IH sel gen Hl) as (rs & gen' & -> & Hp & Ha & Hlen & H2). bind_step.
    exists (r :: rs), gen'. split; [done|]. csimpl. rewrite Ei. split; [by rewrite Hp, Permutation_middle|].
    split; [constructor; [by rewrite Ei|done]|]. split; [by rewrite <- Hlen|constructor; auto].
  - destruct sel as [|i sel]; [done|]. injection Hl as Hl.
    destruct (IH sel (alter S i gen) Hl) as (rs & gen' & -> & Hp & Ha & Hlen & H2). bind_step.
    eexists (_ :: rs), gen'. split; [done|]. csimpl. rewrite ?Ei. split; [by rewrite Hp|].
    split; [by constructor|]. split; [by rewrite <- Hlen|constructor; auto].
Qed.

Lemma filter_has_row_len reqs :
  (length reqs - length (List.filter has_row reqs) = length (List.filter (fun r => negb (has_row r)) reqs))%nat.
Proof.
  assert (length reqs = length (List.filter has_row reqs) + length (List.filter (fun r => negb (has_row r)) reqs)); [|lia].
  induction reqs as [|r reqs IH]; simpl; [done|]. destruct (has_row r); simpl; lia.
Qed.

Lemma pool_alloc_run reqs p other :
  pool_inv p (rows_of reqs ++ other) ->
  Forall (fun r => has_row r = true -> 0 < inflight_middle_chunks r \/ 0 < kv_committed_len r) reqs ->
  exists p' rs o, pool_alloc reqs p = Ok (p', rs, o) /\
  match o with
  | Some rows => rows = req_pool_idx <$> rs /\ pool_inv p' (rows_of rs ++ other) /\
      Forall (fun r => has_row r = true) rs /\ Forall2 (fun r r' => req_pool_idx r = None \/ r' = r) reqs rs
  | None => p' = p /\ rs = reqs /\ pool_available_size p < length reqs - length (rows_of reqs)
  end.
Proof.
  intros [I1 I2 I3] Hre. unfold pool_alloc.
  assert (Hr : length (rows_of reqs) = length (List.filter has_row reqs)).
  { unfold rows_of, has_row. clear. induction reqs as [|r reqs IH]; csimpl; [done|]. destruct (req_pool_idx r); simpl; by rewrite IH. }
  assert (forallb (fun r => (0 <? inflight_middle_chunks r) || (0 <? kv_committed_len r)) (List.filter has_row reqs) = true) as ->.
  { apply forallb_forall. intros r Hin. apply List.filter_In in Hin as [Hin Hh]. apply list_elem_of_In in Hin.
    apply (proj1 (Forall_forall _ _) Hre r Hin) in Hh. apply orb_true_iff. rewrite !Nat.ltb_lt. lia. }
  cbn [py_assert mbind res_bind]. rewrite filter_has_row_len.
  destruct (Nat.ltb_spec (length (free_slots p)) (length (List.filter (fun r => negb (has_row r)) reqs))) as [Hlt|Hge].
  { eexists p, reqs, None. split; [done|]. split; [done|]. split; [done|]. unfold pool_available_size.
    rewrite Hr, filter_has_row_len. done. }
  destruct (assign_rows_run reqs (take (length (List.filter (fun r => negb (has_row r)) reqs)) (free_slots p)) (req_generation p))
    as (rs & gen & -> & Hp & Ha & _ & H2); [rewrite length_take; lia|].
  bind_step. eexists _, rs, (Some _). split; [done|]. split; [done|]. split; [|done].
  split; simpl; [|done|done]. rewrite Hp, <- I1.
  rewrite <- (take_drop (length (List.filter (fun r => negb (has_row r)) reqs)) (free_slots p)) at 3. solve_Permutation.
Qed.

Lemma pool_free_run r i p other :
  req_pool_idx r = Some i -> pool_inv p (i :: other) ->
  pool_free r p = Ok (set_slots (free_slots p ++ [i]) (req_generation p) p, set_pool_idx None r) /\
  pool_inv (set_slots (free_slots p ++ [i]) (req_generation p) p) other.
Proof.
  intros Hi [I1 I2 I3]. unfold pool_free, has_row. rewrite Hi. split; [done|]. split; simpl; [|done|done].
  rewrite <- I1. solve_Permutation.
Qed.

(** A batch gets rows: the requests that had one
    keep it, every other one gets a fresh row that nobody holds, and no row
    is lost; when rows are too few nothing changes. *)
Theorem pool_alloc_gives_rows reqs p other :
  pool_inv p (rows_of reqs ++ other) ->
  Forall (fun r => has_row r = true -> 0 < inflight_middle_chunks r \/ 0 < kv_committed_len r) reqs ->
  (exists p' rs, pool_alloc reqs p = Ok (p', rs, Some (req_pool_idx <$> rs)) /\
     pool_inv p' (rows_of rs ++ other) /\ NoDup (rows_of rs ++ other) /\
     (forall i, i ∈ rows_of rs -> 0 < i <= pool_size p') /\
     Forall (fun r => has_row r = true) rs /\ Forall2 (fun r r' => req_pool_idx r = None \/ r' = r) reqs rs) \/
  (pool_alloc reqs p = Ok (p, reqs, None) /\ pool_available_size p < length reqs - length (rows_of reqs)).
Proof.
  intros I Hre. destruct (pool_alloc_run reqs p other I Hre) as (p' & rs & [rows|] & Hrun & Ho).
  - left. destruct Ho as (-> & I' & Ha & H2). exists p', rs. split; [done|]. split; [done|].
    assert (NoDup (free_slots p' ++ rows_of rs ++ other)) as Hnd by (rewrite (po_rows _ _ I'); apply NoDup_seq).
    apply NoDup_app in Hnd as (_ & _ & Hnd). split; [done|]. split; [|done]. intros i Hi.
    assert (i ∈ seq 1 (pool_size p')) as Hin%elem_of_seq by (rewrite <- (po_rows _ _ I'); rewrite !elem_of_app; auto). lia.
  - right. destruct Ho as (-> & -> & ?). done.
Qed.

Definition demo_req (row : option nat) (committed : nat) : Req :=
  mkReq [1; 2; 3]%Z [] [] 0 None None None false 0 [] None row committed None 0 0.

Lemma pool_alloc_gives_rows_witness :
  let p := set_slots [1; 3] (replicate 4 0) (pool_init 3 8) in
  let reqs := [demo_req None 0; demo_req (Some 2) 5] in
  (exists p' rs, pool_alloc reqs p = Ok (p', rs, Some (req_pool_idx <$> rs)) /\
     pool_inv p' (rows_of rs ++ []) /\ NoDup (rows_of rs ++ []) /\
     (forall i, i ∈ rows_of rs -> 0 < i <= pool_size p') /\
     Forall (fun r => has_row r = true) rs /\ Forall2 (fun r r' => req_pool_idx r = None \/ r' = r) reqs rs) \/
  (pool_alloc reqs p = Ok (p, reqs, None) /\ pool_available_size p < length reqs - length (rows_of reqs)).
Proof.
  apply (pool_alloc_gives_rows [demo_req None 0; demo_req (Some 2) 5] (set_slots [1; 3] (replicate 4 0) (pool_init 3 8)) []).
  - split; simpl; [solve_Permutation|reflexivity|repeat constructor].
  - apply Forall_cons; split; [discriminate|]. apply Forall_cons; split; [simpl; lia|constructor].
Defined.
