(* ===== verification/ReqCache.v ===== *)
(** * ReqCache: requests and the radix cache

    Models [RadixCache.cache_finished_req] and [cache_unfinished_req]
    ([mem_cache/radix_cache.py]), [maybe_cache_unfinished_req] and
    [release_kv_cache] ([mem_cache/common.py]) for the plain
    [ReqToTokenPool], and class [ChunkCache] ([mem_cache/chunk_cache.py]), with
    the account of who owns which slot. *)

From S2P Require Import Prelude RadixKey RadixNode RadixTree RadixInv RadixSteps RadixContent RadixOps RadixInsert RadixLock RadixEvict RadixSpec ReqPool.

(** [req_to_token[req.req_pool_idx]] and [req_to_token[req.req_pool_idx, :n]],
    for a request that holds a row. *)
Definition req_row (p : ReqToTokenPool) (r : Req) : res (list Z) :=
  i ← or_raise TypeError (req_pool_idx r);
  or_raise IndexError (req_to_token p !! i).

Definition kv_row (p : ReqToTokenPool) (r : Req) (n : nat) : res (list Z) :=
  row ← req_row p r;
  Ok (take n row).

Section with_env.
Context `{Env} {A : Type} `{KVAllocator A}.

(** [RadixKey(token_ids, req.extra_key, is_bigram=self.is_eagle).page_aligned(self.page_size)]. *)
Definition req_key (s : RadixCache) (token_ids : list Z) (r : Req) : RadixKey :=
  page_aligned (mkRadixKey token_ids (req_extra_key r) (is_eagle (cfg s)) None) (psize s).

Definition cache_finished_req (r : Req) (is_insert : bool) (kv_len_to_handle : nat) (p : ReqToTokenPool)
    (s : RadixCache) (a : A) : res (RadixCache * A) :=
  let is_insert := if disable_finished_insert (cfg s) then false else is_insert in
  if disable (cfg s) then
    kv_indices ← kv_row p r kv_len_to_handle;
    a ← kv_free a kv_indices;
    Ok (s, a)
  else
    let token_ids := take kv_len_to_handle (origin_input_ids r ++ output_ids r) in
    kv_indices ← kv_row p r (length token_ids);
    let k := req_key s token_ids r in
    let klen := key_len k in
    let values := take klen kv_indices in
    '(s, a, session_leaf) ←
      (if is_insert then
         '(s, (prefix_len, leaf)) ← insert k (Some values) (Some (default 0%Z (req_priority r))) false s;
         a ← kv_free a (slice (cache_protected_len r) prefix_len kv_indices);
         Ok (s, a, leaf)
       else
         a ← kv_free a (slice (cache_protected_len r) klen kv_indices);
         Ok (s, a, None));
    a ← kv_free a (drop klen kv_indices);
    s ← tag_session_leaf (session_id r) k session_leaf s;
    match last_node r with
    | Some n => '(s, _) ← dec_lock_ref n s; Ok (s, a)
    | None => Ok (s, a)
    end.

Definition cache_unfinished_req (r : Req) (chunked : bool) (p : ReqToTokenPool) (s : RadixCache) (a : A)
    : res (RadixCache * A * ReqToTokenPool * Req) :=
  if disable (cfg s) then Ok (s, a, p, r) else
  let token_ids := get_fill_ids r in
  i ← or_raise TypeError (req_pool_idx r);
  kv_indices ← kv_row p r (length token_ids);
  let k := req_key s token_ids r in
  let values := take (key_len k) kv_indices in
  '(s, (new_prefix_len, _)) ← insert k (Some values) (Some (default 0%Z (req_priority r))) chunked s;
  a ← kv_free a (slice (cache_protected_len r) new_prefix_len kv_indices);
  '(s, m) ← match_prefix k s;
  let new_indices := device_indices m in
  let new_last_node := last_device_node m in
  _ ← py_assert (length new_indices =? key_len k)%nat;
  p ← pool_write i (cache_protected_len r) (length new_indices) (drop (cache_protected_len r) new_indices) p;
  n ← or_raise AttributeError (last_node r);
  '(s, _) ← dec_lock_ref n s;
  '(s, _) ← inc_lock_ref new_last_node s;
  (* [kv_indices] is a view of the row, but the write above stops where the
     part read here begins. *)
  let prefix :=
    if (length new_indices <? length kv_indices)%nat
    then new_indices ++ drop (length new_indices) kv_indices else new_indices in
  let r := set_cache_fields (length new_indices) prefix (Some new_last_node) r in
  s ← tag_session_leaf (session_id r) k (Some new_last_node) s;
  Ok (s, a, p, r).

Definition maybe_cache_unfinished_req (r : Req) (chunked : bool) (p : ReqToTokenPool) (s : RadixCache) (a : A)
    : res (RadixCache * A * ReqToTokenPool * Req) :=
  if skip_radix_cache_insert r then Ok (s, a, p, r) else cache_unfinished_req r chunked p s a.

(** ** Releasing a request *)

(** The server arguments the release path reads. *)
Record ServerArgs := mkArgs {
  args_page_size : nat;
  speculative_algorithm : option string;
  strip_thinking_cache : bool;
}.

Definition ceil_align (x ps : nat) : nat := (x + ps - 1) / ps * ps.

Definition release_overallocated_kv_indices (args : ServerArgs) (r : Req) (start_p end_p : nat)
    (p : ReqToTokenPool) (a : A) : res A :=
  _ ← (if (match speculative_algorithm args with None => true | Some _ => false end) && negb (strip_thinking_cache args)
       then py_assert (start_p =? end_p)%nat else Ok tt);
  let start_p := if (1 <? args_page_size args)%nat then ceil_align start_p (args_page_size args) else start_p in
  if (start_p <? end_p)%nat then
    row ← req_row p r;
    kv_free a (slice start_p end_p row)
  else Ok a.

(** [release_kv_cache] on a radix cache and a plain pool (no mamba state). *)
Definition release_kv_cache (args : ServerArgs) (r : Req) (is_insert : bool) (p : ReqToTokenPool)
    (s : RadixCache) (a : A) : res (RadixCache * A * ReqToTokenPool * Req) :=
  _ ← py_assert (Bool.eqb (negb (has_row r)) (match kv_allocated_len r with None => true | Some _ => false end));
  match kv_allocated_len r with
  | None => Raise AssertionError
  | Some allocated =>
      let n := effective_kv_committed_len (strip_thinking_cache args) r in
      '(s, a) ← cache_finished_req r (is_insert && negb (skip_radix_cache_insert r)) n p s a;
      a ← release_overallocated_kv_indices args r n allocated p a;
      '(p, r) ← pool_free r p;
      Ok (s, a, p, set_kv None r)
  end.

End with_env.

(** ** ChunkCache: no prefix is shared *)
Module ChunkCache.

Definition match_prefix : list Z * option nat := ([], None).

(** The matched length an insertion reports. *)
Definition insert : nat := 0.

Definition cache_finished_req {A} `{KVAllocator A} (r : Req) (kv_len_to_handle : nat) (p : ReqToTokenPool) (a : A) : res A :=
  kv_indices ← kv_row p r kv_len_to_handle;
  kv_free a kv_indices.

Definition cache_unfinished_req (r : Req) (p : ReqToTokenPool) : res Req :=
  kv_indices ← kv_row p r (extend_end r);
  Ok (set_cache_fields (cache_protected_len r) kv_indices (last_node r) r).

(** The number of tokens an eviction frees, the lock deltas and the size. *)
Definition evict : Z := 0.
Definition inc_lock_ref : Z := 0.
Definition dec_lock_ref : Z := 0.
Definition protected_size : Z := 0.

End ChunkCache.
