(* ===== verification/ReqCacheSpec.v ===== *)
(** * ReqCacheSpec: the life of a request in the radix cache

    Who owns which slot: a request borrows the first [cache_protected_len]
    slots of its row from the tree, which it keeps locked, and owns the rest.
    Caching the request hands the page-aligned part to the tree, frees the
    duplicates, and rewrites the row to the slots the tree kept; releasing it
    gives everything else back to the allocator. *)

From S2P Require Import Prelude RadixKey RadixNode RadixTree RadixInv RadixSteps RadixContent RadixOps RadixInsert RadixLock RadixEvict RadixSpec ReqPool ReqCache.

Section with_env.
Context `{Env}.
Implicit Types (s : RadixCache) (L : gset nat) (P : nat -> list kunit) (Hd : nat -> Z).

(** ** Steps that keep the content *)

Record same_content s L s' L' : Prop := {
  sc_cfg : cfg s' = cfg s;
  sc_root : root_node s' = root_node s;
  sc_sub : L ⊆ L';
  sc_content ek p vs : cached s' ek p vs <-> cached s ek p vs;
  sc_paths ek q vq m : root_node s ∈ L -> path_from (tree s) ek (root_node s) q vq m -> path_from (tree s') ek (root_node s) q vq m;
  sc_owned : owned (tree s') L' ≡ₚ owned (tree s) L;
}.

Lemma same_content_refines Hd s L P s' L' P' : refines Hd s L P s' L' P' -> same_content s L s' L'.
Proof.
  intros R. destruct (books_psize _ _ (rf_books _ _ _ _ _ _ _ R)) as (_ & E1 & E2). split; try done; try apply R.
  intros. by apply R.
Qed.

Lemma same_content_locks Hd Hd' s s' L P d : lock_walked Hd Hd' s s' L P d -> same_content s L s' L.
Proof.
  intros W. destruct (lw_cfg _ _ _ _ _ _ _ W) as [E1 E2]. split; try done.
  - intros. by eapply lock_walked_content.
  - intros ek q vq m _. apply content_view_path. symmetry. apply W.
  - by rewrite (lock_walked_owned _ _ _ _ _ _ _ W).
Qed.

Lemma same_content_trans s L s1 L1 s2 L2 :
  same_content s L s1 L1 -> same_content s1 L1 s2 L2 -> same_content s L s2 L2.
Proof.
  intros [A1 A2 A3 A4 A5 A6] [B1 B2 B3 B4 B5 B6]. split; [congruence|congruence|set_solver|..].
  - intros. by rewrite B4.
  - intros ek q vq m Hr Hp. rewrite A2 in B5. apply B5; [set_solver|]. by apply A5.
  - by rewrite B6.
Qed.

(** ** Tagging a session leaf changes no content *)

Lemma tag_session_leaf_run s L P Hd sid k node :
  Inv_at s L P Hd None -> disable (cfg s) = false -> kind_ok s k ->
  exists s' L' P', tag_session_leaf sid k node s = Ok s' /\ refines Hd s L P s' L' P'.
Proof.
  intros I Hdis Hk. unfold tag_session_leaf.
  assert (Hid : refines Hd s L P s L P) by (by apply refines_core).
  destruct (negb (enable_session_radix_cache (cfg s))); [by exists s, L, P|].
  destruct sid as [sid|]; [|by exists s, L, P]. case_bool_decide; [by exists s, L, P|].
  assert (exists s1 L1 P1 n, (match node with
      | Some n => Ok (s, n)
      | None => '(s, m) ← match_prefix k s; Ok (s, last_device_node m) end) = Ok (s1, n) /\
      refines Hd s L P s1 L1 P1) as (s1 & L1 & P1 & n & -> & R1).
  { destruct node as [n|]; [by exists s, L, P, n|].
    destruct (match_prefix_run s L P Hd k I Hdis Hk) as (s1 & L1 & P1 & m & q & -> & R & _).
    exists s1, L1, P1, (last_device_node m). done. }
  bind_step. case_bool_decide; [by exists s1, L1, P1|].
  eexists _, L1, P1. split; [done|]. eapply refines_trans; [done|].
  apply refines_core; [|apply R1]. symmetry.
  transitivity (core (upd_node n (fun nd => set_session_ids (Some (default ∅ (session_ids nd) ∪ {[sid]})) nd) s1)).
  - done.
  - by apply core_quiet.
Qed.

(** ** The key of a request *)

Lemma req_key_facts s ids r :
  kind_ok s (req_key s ids r) /\ extra_key (req_key s ids r) = req_extra_key r /\
  aligned s (req_key s ids r) = page_aligned (req_key s ids r) (psize s) /\
  key_iter (aligned s (req_key s ids r)) = key_iter (req_key s ids r) /\
  key_len (aligned s (req_key s ids r)) = key_len (req_key s ids r) /\ key_len (req_key s ids r) <= length ids /\
  (psize s | key_len (req_key s ids r)).
Proof.
  unfold req_key. set (k0 := mkRadixKey _ _ _ _). destruct (page_aligned_flags k0 (psize s)) as [E1 E2].
  assert (Ea : aligned s (page_aligned k0 (psize s)) = page_aligned (page_aligned k0 (psize s)) (psize s)).
  { unfold aligned, maybe_to_bigram_view. rewrite E2. simpl. by destruct (is_eagle (cfg s)). }
  assert (El : page_floor (psize s) (key_len (page_aligned k0 (psize s))) = key_len (page_aligned k0 (psize s))).
  { apply page_floor_id. rewrite page_aligned_len. auto with pages. }
  split; [intros Hb; by rewrite E2 in Hb|]. split; [done|]. split; [done|].
  split; [|split; [|split]].
  - rewrite Ea, page_aligned_units, El. apply take_ge. by rewrite length_key_iter.
  - by rewrite Ea, page_aligned_len, El.
  - rewrite page_aligned_len. pose proof (page_floor_le (psize s) (key_len k0)). pose proof (key_len_le_raw k0).
    pose proof (raw_len_le k0). simpl in *. lia.
  - rewrite page_aligned_len. auto with pages.
Qed.

(** ** What a request holds *)

(** Request [r], with tokens [ids] in the slots [kv] of its row: its first
    [cache_protected_len] slots are the tree's, and its key can be hashed. *)
Record req_view s (p : ReqToTokenPool) (r : Req) (ids kv : list Z) : Prop := {
  rv_row : kv_row p r (length ids) = Ok kv;
  rv_len : length kv = length ids;
  rv_cpl : cache_protected_len r <= key_len (req_key s ids r);
  rv_cached : cached s (req_extra_key r) (take (cache_protected_len r) (key_iter (req_key s ids r)))
    (take (cache_protected_len r) kv);
  rv_hash : hashable s (req_key s ids r);
}.

(** Inserting the key of a request: the tree already has at least the borrowed
    prefix, and takes the slots after the longest cached one. *)
Lemma insert_req_run s L P Hd p r ids kv prio chunked :
  let k := req_key s ids r in
  let klen := key_len k in
  Inv_at s L P Hd None -> disable (cfg s) = false -> req_view s p r ids kv ->
  exists s' L' P' last n w,
    insert k (Some (take klen kv)) prio chunked s = Ok (s', (n, Some last)) /\ Inv_at s' L' P' Hd None /\
    cfg s' = cfg s /\ root_node s' = root_node s /\ L ⊆ L' /\ length w = n /\
    (cache_protected_len r <= n <= klen) /\ (psize s | n) /\ (psize s | cache_protected_len r) /\
    path_from (tree s') (req_extra_key r) (root_node s') (key_iter k) (w ++ slice n klen kv) last /\
    take (cache_protected_len r) (w ++ slice n klen kv) = take (cache_protected_len r) kv /\
    (forall ek q vs, cached s ek q vs -> cached s' ek q vs) /\
    owned (tree s') L' ≡ₚ slice n klen kv ++ owned (tree s) L.
Proof.
  intros k klen I Hdis [V1 V2 V3 V4 V5]. destruct (req_key_facts s ids r) as (F1 & F2 & F3 & F4 & F5 & F6 & F7).
  fold k in F1, F2, F3, F4, F5, F6, F7, V3, V4, V5. fold klen in F5, F6, F7, V3.
  pose proof (inv_wf _ _ _ _ _ I) as W. pose proof (wf_root_in _ _ _ _ _ _ W) as Hroot.
  destruct (insert_run s L P Hd k (Some (take klen kv)) prio chunked I Hdis F1) as (s' & L' & P' & last & q & w & Hrun & R).
  { unfold hashable in *. intros He. rewrite F4. auto. }
  { intros x [= <-]. rewrite F5, length_take. lia. }
  assert (Eins : ins_slots s k (Some (take klen kv)) = take klen kv).
  { unfold ins_slots. rewrite F5. simpl. by rewrite take_take, Nat.min_id. }
  rewrite Eins, F2, F4 in R. destruct R as [R1 R2 R3 [R4 R4'] R5 R6 R7 R8 R9].
  destruct (slots_from_length W _ _ _ _ Hroot (lc_cached _ _ _ _ _ R2)) as [Hw Hdiv].
  pose proof (lc_prefix _ _ _ _ _ R2) as Hpre. pose proof (prefix_length _ _ Hpre) as Hq. rewrite length_key_iter in Hq.
  assert (Hcq : cache_protected_len r <= length q).
  { pose proof (lc_max _ _ _ _ _ R2 _ _ V4 ltac:(apply prefix_take)) as Hm. rewrite length_take, length_key_iter in Hm.
    fold klen in Hm. lia. }
  assert (Es : drop (length w) (take klen kv) = slice (length q) klen kv).
  { unfold slice. by rewrite Hw, skipn_firstn_comm. }
  rewrite Es in R6, R9. destruct (slots_from_length W _ _ _ _ Hroot V4) as [_ Hdc].
  rewrite length_take, length_key_iter in Hdc. fold klen in Hdc. rewrite Nat.min_l in Hdc by lia.
  exists s', L', P', last, (length q), w. rewrite R4'.
  split; [done|]. split; [done|]. do 4 (split; [done|]). split; [fold klen in Hq; lia|]. do 2 (split; [done|]). split; [done|].
  split; [|split; [intros ek x vs Hx; apply R5; by left|done] ].
  (* the borrowed slots are the slots the tree has *)
  pose proof (slots_from_take W _ _ _ _ (cache_protected_len r) Hroot (lc_cached _ _ _ _ _ R2) Hdc) as Hc'.
  assert (take (cache_protected_len r) q = take (cache_protected_len r) (key_iter k)) as Eq.
  { destruct Hpre as [t Ht]. rewrite Ht. by rewrite take_app_le by lia. }
  rewrite Eq in Hc'. rewrite take_app_le by lia. by eapply (slots_from_functional W).
Qed.

(** Writing the tree's slots back into the row. *)
Lemma write_back_run (p : ReqToTokenPool) r i n kv new cpl klen :
  req_pool_idx r = Some i -> kv_row p r n = Ok kv -> length kv = n ->
  cpl <= klen <= n -> length new = klen -> take cpl new = take cpl kv ->
  exists p', pool_write i cpl klen (drop cpl new) p = Ok p' /\
    (forall r', req_pool_idx r' = Some i -> kv_row p' r' n = Ok (new ++ drop klen kv)) /\
    (forall j, j <> i -> req_to_token p' !! j = req_to_token p !! j) /\
    free_slots p' = free_slots p /\ pool_size p' = pool_size p.
Proof.
  intros Hi Hrow Hn Hle Hnew Hpre. unfold kv_row, req_row in *. rewrite Hi in Hrow. simpl in Hrow.
  destruct (req_to_token p !! i) as [row|] eqn:Er; [|done]. simpl in Hrow. injection Hrow as <-.
  rewrite length_take in Hn. unfold pool_write. rewrite Er. cbn [or_raise mbind res_bind].
  rewrite length_slice, length_drop.
  assert ((length new - cpl =? klen `min` length row - cpl)%nat = true) as -> by (apply Nat.eqb_eq; lia).
  bind_step. eexists. split; [done|]. split; [|split; [|done]].
  - intros r' Hi'. rewrite Hi'. simpl. rewrite list_lookup_insert_eq by (by eapply lookup_lt_Some). simpl. f_equal.
    assert (take cpl row = take cpl new) as -> by (rewrite Hpre, take_take; f_equal; lia).
    rewrite app_assoc, take_drop. rewrite take_app_ge by lia. f_equal.
    rewrite skipn_firstn_comm. f_equal; [lia|]. f_equal. lia.
  - intros j Hj. simpl. by rewrite list_lookup_insert_ne.
Qed.

Section ownership.
Context {A : Type} `{KVAllocatorLaws A}.

(** The request's own slots come in whole pages, and [tail] is what freeing
    the unaligned rest gives back. *)
Record req_owns (a : A) s (r : Req) (ids kv tail : list Z) : Prop := {
  ro_chunk i j : (psize s | i) -> (psize s | j) -> cache_protected_len r <= i <= j -> j <= key_len (req_key s ids r) ->
    kv_chunk a (slice i j kv);
  ro_tail : kv_cover a (drop (key_len (req_key s ids r)) kv) tail;
}.

(** Handing the pages to the tree and freeing the duplicates. *)
Lemma insert_free_run s L P Hd p r ids kv tail other a prio chunked :
  let k := req_key s ids r in
  let klen := key_len k in
  Inv_at s L P Hd None -> disable (cfg s) = false -> req_view s p r ids kv -> req_owns a s r ids kv tail ->
  kv_out a (owned (tree s) L ++ slice (cache_protected_len r) klen kv ++ tail ++ other) ->
  exists s' L' P' a' last n new,
    insert k (Some (take klen kv)) prio chunked s = Ok (s', (n, Some last)) /\
    kv_free a (slice (cache_protected_len r) n kv) = Ok a' /\ Inv_at s' L' P' Hd None /\
    cfg s' = cfg s /\ root_node s' = root_node s /\ L ⊆ L' /\ length new = klen /\
    path_from (tree s') (req_extra_key r) (root_node s') (key_iter k) new last /\
    take (cache_protected_len r) new = take (cache_protected_len r) kv /\
    (forall ek q vs, cached s ek q vs -> cached s' ek q vs) /\
    kv_out a' (tail ++ owned (tree s') L' ++ other) /\ (forall x y, kv_cover a x y -> kv_cover a' x y).
Proof.
  intros k klen I Hdis V [O1 O2] Hout.
  destruct (insert_req_run s L P Hd p r ids kv prio chunked I Hdis V)
    as (s' & L' & P' & last & n & w & Hrun & I' & Ec & Er & HL & Hw & Hn & Hd1 & Hd2 & Hp & Ht & Hmono & Ho).
  fold k in Hrun, Hn, Hp, Ht, Ho. fold klen in Hrun, Hn, Hp, Ht, Ho. fold k in O1, O2. fold klen in O1, O2.
  destruct (kv_cover_law a (slice (cache_protected_len r) n kv) (slice (cache_protected_len r) n kv)
    (tail ++ owned (tree s') L' ++ other)) as (a' & Hfree & Hout' & _ & _ & Hcov).
  { eapply kv_out_perm; [|exact Hout]. rewrite Ho, <- (slice_split (cache_protected_len r) n klen) by lia. solve_Permutation. }
  { apply kv_chunk_cover, O1; [done|done|lia|lia]. }
  exists s', L', P', a', last, n, (w ++ slice n klen kv). split; [done|]. split; [done|]. split; [done|]. do 3 (split; [done|]).
  split; [|by auto 10].
  destruct (req_key_facts s ids r) as (_ & _ & _ & _ & _ & F6 & _). fold k in F6. fold klen in F6.
  pose proof (rv_len _ _ _ _ _ V). rewrite length_app, length_slice. lia.
Qed.

(** The end of a request's life in the cache: tag the leaf, give back the lock. *)
Lemma tag_unlock_run s L P Hd sid k node n0 :
  Inv_at s L P Hd None -> disable (cfg s) = false -> kind_ok s k -> (0 < Hd n0)%Z ->
  exists s' L' P', ('(s, _) ← (s ← tag_session_leaf sid k node s; dec_lock_ref n0 s); Ok s) = Ok s' /\
    Inv_at s' L' P' (<[n0 := (Hd n0 - 1)%Z]> Hd) None /\ same_content s L s' L'.
Proof.
  intros I Hdis Hk Hn. destruct (tag_session_leaf_run s L P Hd sid k node I Hdis Hk) as (s1 & L1 & P1 & -> & R).
  bind_step. pose proof (same_content_refines _ _ _ _ _ _ _ R) as S1.
  destruct (dec_lock_ref_run s1 L1 P1 Hd n0 (rf_inv _ _ _ _ _ _ _ R)) as (s2 & d & -> & W & _);
    [by rewrite (sc_cfg _ _ _ _ S1)|done|].
  bind_step. exists s2, L1, P1. split; [done|]. split; [apply W|].
  eapply same_content_trans; [done|]. by eapply same_content_locks.
Qed.

(** What finishing a request leaves behind. *)
Record finished s L (r : Req) (n0 : nat) Hd (a a' : A) (other : list Z) s' L' P' : Prop := {
  fi_inv : Inv_at s' L' P' (<[n0 := (Hd n0 - 1)%Z]> Hd) None;
  fi_cfg : cfg s' = cfg s;
  fi_out : kv_out a' (owned (tree s') L' ++ other);
  fi_mono ek q vs : cached s ek q vs -> cached s' ek q vs;
  fi_cover x y : kv_cover a x y -> kv_cover a' x y;
}.

Lemma cache_finished_insert_run s L P Hd p r n0 nkv kv tail other a :
  let ids := take nkv (origin_input_ids r ++ output_ids r) in
  let k := req_key s ids r in
  Inv_at s L P Hd None -> disable (cfg s) = false -> disable_finished_insert (cfg s) = false ->
  req_view s p r ids kv -> req_owns a s r ids kv tail -> last_node r = Some n0 -> (0 < Hd n0)%Z ->
  kv_out a (owned (tree s) L ++ slice (cache_protected_len r) (key_len k) kv ++ tail ++ other) ->
  exists s' a' L' P' new, cache_finished_req r true nkv p s a = Ok (s', a') /\ finished s L r n0 Hd a a' other s' L' P' /\
    cached s' (req_extra_key r) (key_iter k) new /\ take (cache_protected_len r) new = take (cache_protected_len r) kv.
Proof.
  intros ids k I Hdis Hfin V O Hn0 Hpos Hout. unfold cache_finished_req. rewrite Hdis, Hfin. cbv zeta. fold ids. fold k.
  rewrite (rv_row _ _ _ _ _ V). bind_step.
  destruct (insert_free_run s L P Hd p r ids kv tail other a (Some (default 0%Z (req_priority r))) false I Hdis V O Hout)
    as (s1 & L1 & P1 & a1 & last & n & new & Hins & Hfree & I1 & Ec & Er & HL & Hnew & Hp & Ht & Hmono & Hout1 & Hcov).
  fold k in Hins, Hp. rewrite Hins. bind_step. rewrite Hfree. bind_step.
  destruct (kv_cover_law a1 _ _ _ Hout1 (Hcov _ _ (ro_tail _ _ _ _ _ _ O))) as (a2 & Hf2 & Hout2 & _ & _ & Hcov2).
  fold k in Hf2. rewrite Hf2. bind_step. rewrite Hn0.
  destruct (tag_unlock_run s1 L1 P1 Hd (session_id r) k (Some last) n0 I1) as (s2 & L2 & P2 & Hrun & I2 & S);
    [by rewrite Ec|unfold kind_ok; rewrite Ec; apply req_key_facts|done|].
  exists s2, a2, L2, P2, new. split.
  { destruct (tag_session_leaf (session_id r) k (Some last) s1) as [s1'|]; [|done]. cbn [mbind res_bind] in *.
    destruct (dec_lock_ref n0 s1') as [ [s3 d]|]; [|done]. by injection Hrun as ->. }
  split; [split|].
  - done.
  - by rewrite (sc_cfg _ _ _ _ S).
  - eapply kv_out_perm; [|exact Hout2]. by rewrite (sc_owned _ _ _ _ S).
  - intros ek q vs Hq. apply S. by apply Hmono.
  - auto.
  - split; [|done]. apply (sc_content _ _ _ _ S). by apply (cached_path _ _ _ _ _ _ _ _ I1 Hp).
Qed.

Lemma cache_finished_drop_run s L P Hd p r n0 nkv kv tail other a is_insert :
  let ids := take nkv (origin_input_ids r ++ output_ids r) in
  let k := req_key s ids r in
  Inv_at s L P Hd None -> disable (cfg s) = false -> is_insert && negb (disable_finished_insert (cfg s)) = false ->
  req_view s p r ids kv -> req_owns a s r ids kv tail -> last_node r = Some n0 -> (0 < Hd n0)%Z ->
  kv_out a (owned (tree s) L ++ slice (cache_protected_len r) (key_len k) kv ++ tail ++ other) ->
  exists s' a' L' P', cache_finished_req r is_insert nkv p s a = Ok (s', a') /\ finished s L r n0 Hd a a' other s' L' P'.
Proof.
  intros ids k I Hdis Hfin V O Hn0 Hpos Hout. unfold cache_finished_req. rewrite Hdis. cbv zeta. fold ids. fold k.
  assert ((if disable_finished_insert (cfg s) then false else is_insert) = false) as ->.
  { destruct (disable_finished_insert (cfg s)), is_insert; done. }
  rewrite (rv_row _ _ _ _ _ V). bind_step. destruct O as [O1 O2]. fold k in O1, O2.
  destruct (slots_from_length (inv_wf _ _ _ _ _ I) _ _ _ _ (wf_root_in _ _ _ _ _ _ (inv_wf _ _ _ _ _ I)) (rv_cached _ _ _ _ _ V)) as [_ Hdc].
  pose proof (rv_cpl _ _ _ _ _ V) as Hle. fold k in Hle, Hdc. rewrite length_take, length_key_iter, Nat.min_l in Hdc by done.
  destruct (req_key_facts s ids r) as (F1 & _ & _ & _ & _ & _ & F7). fold k in F1, F7.
  destruct (kv_cover_law a (slice (cache_protected_len r) (key_len k) kv) (slice (cache_protected_len r) (key_len k) kv)
    (tail ++ owned (tree s) L ++ other)) as (a1 & -> & Hout1 & _ & _ & Hcov).
  { eapply kv_out_perm; [|exact Hout]. solve_Permutation. }
  { apply kv_chunk_cover, O1; [done|done|lia|lia]. }
  bind_step. destruct (kv_cover_law a1 _ _ _ Hout1 (Hcov _ _ O2)) as (a2 & -> & Hout2 & _ & _ & Hcov2). bind_step. rewrite Hn0.
  destruct (tag_unlock_run s L P Hd (session_id r) k None n0 I Hdis F1 Hpos) as (s2 & L2 & P2 & Hrun & I2 & S).
  exists s2, a2, L2, P2. split.
  { destruct (tag_session_leaf (session_id r) k None s) as [s1'|]; [|done]. cbn [mbind res_bind] in *.
    destruct (dec_lock_ref n0 s1') as [ [s3 d]|]; [|done]. by injection Hrun as ->. }
  split.
  - done.
  - apply S.
  - eapply kv_out_perm; [|exact Hout2]. by rewrite (sc_owned _ _ _ _ S).
  - intros ek q vs Hq. by apply S.
  - auto.
Qed.

(** Matching the key just inserted finds all of it. *)
Lemma match_inserted_run s L P Hd k new last :
  Inv_at s L P Hd None -> disable (cfg s) = false -> kind_ok s k ->
  key_iter (aligned s k) = key_iter k -> path_from (tree s) (extra_key k) (root_node s) (key_iter k) new last ->
  exists s' L' P' m, match_prefix k s = Ok (s', m) /\ refines Hd s L P s' L' P' /\ device_indices m = new /\
    path_from (tree s') (extra_key k) (root_node s') (key_iter k) new (last_device_node m).
Proof.
  intros I Hdis Hk Ea Hp. destruct (match_prefix_run s L P Hd k I Hdis Hk) as (s' & L' & P' & m & q & Hrun & R & Hlc & Hpm & _).
  rewrite Ea in Hlc.
  destruct (longest_whole s Hd _ _ _ _ _ ltac:(by exists L, P) (cached_path _ _ _ _ _ _ _ _ I Hp) Hlc) as [-> Ew].
  destruct (books_psize _ _ (rf_books _ _ _ _ _ _ _ R)) as (_ & E1 & _).
  exists s', L', P', m. split; [done|]. split; [done|]. split; [done|]. rewrite E1, <- Ew. done.
Qed.

(** What caching an unfinished request leaves behind: the tree keeps the
    page-aligned part of the row, now borrowed, the request the tail. *)
Record requeued s (r : Req) (ids kv : list Z) (n0 : nat) Hd (a' : A) (tail other : list Z)
    s' L' P' (p' : ReqToTokenPool) (r' : Req) (new : list Z) (n' : nat) : Prop := {
  rq_inv : Inv_at s' L' P' (<[n' := (<[n0 := (Hd n0 - 1)%Z]> Hd n' + 1)%Z]> (<[n0 := (Hd n0 - 1)%Z]> Hd)) None;
  rq_cfg : cfg s' = cfg s;
  rq_view : req_view s' p' r' ids (new ++ drop (key_len (req_key s ids r)) kv);
  rq_cpl : cache_protected_len r' = key_len (req_key s ids r) /\ length new = key_len (req_key s ids r);
  rq_prefix : prefix_indices r' = new ++ drop (key_len (req_key s ids r)) kv;
  rq_node : last_node r' = Some n' /\ path_from (tree s') (req_extra_key r) (root_node s') (key_iter (req_key s ids r)) new n';
  rq_out : kv_out a' (owned (tree s') L' ++ tail ++ other);
  rq_tail : kv_cover a' (drop (key_len (req_key s ids r)) kv) tail;
  rq_mono ek q vs : cached s ek q vs -> cached s' ek q vs;
}.

Lemma cache_unfinished_run s L P Hd p r i n0 kv tail other a chunked :
  let ids := get_fill_ids r in
  let k := req_key s ids r in
  Inv_at s L P Hd None -> disable (cfg s) = false -> req_pool_idx r = Some i ->
  req_view s p r ids kv -> req_owns a s r ids kv tail -> last_node r = Some n0 -> (0 < Hd n0)%Z ->
  kv_out a (owned (tree s) L ++ slice (cache_protected_len r) (key_len k) kv ++ tail ++ other) ->
  exists s' a' p' r' L' P' new n', cache_unfinished_req r chunked p s a = Ok (s', a', p', r') /\
    requeued s r ids kv n0 Hd a' tail other s' L' P' p' r' new n' /\
    (forall j, j <> i -> req_to_token p' !! j = req_to_token p !! j) /\ free_slots p' = free_slots p.
Proof.
  intros ids k I Hdis Hi V O Hn0 Hpos Hout. unfold cache_unfinished_req. rewrite Hdis, Hi. cbv zeta. cbn [or_raise mbind res_bind].
  fold ids. fold k. rewrite (rv_row _ _ _ _ _ V). bind_step.
  destruct (insert_free_run s L P Hd p r ids kv tail other a (Some (default 0%Z (req_priority r))) chunked I Hdis V O Hout)
    as (s1 & L1 & P1 & a1 & last & n & new & Hins & Hfree & I1 & Ec & Er & HL & Hnew & Hp & Ht & Hmono & Hout1 & Hcov).
  fold k in Hins, Hp, Hnew. rewrite Hins. bind_step. rewrite Hfree. bind_step.
  destruct (req_key_facts s ids r) as (F1 & F2 & _ & F4 & _ & F6 & _). fold k in F1, F2, F4, F6.
  destruct (match_inserted_run s1 L1 P1 Hd k new last I1) as (s2 & L2 & P2 & m & -> & R2 & Em & Hpm);
    [by rewrite Ec|unfold kind_ok; by rewrite Ec|unfold aligned, psize; by rewrite Ec|by rewrite F2|].
  bind_step. rewrite Em, Hnew, Nat.eqb_refl. cbn [py_assert mbind res_bind].
  pose proof (same_content_refines _ _ _ _ _ _ _ R2) as S2. pose proof (rf_inv _ _ _ _ _ _ _ R2) as I2.
  pose proof (rv_len _ _ _ _ _ V) as Hlen. pose proof (rv_cpl _ _ _ _ _ V) as Hcpl. fold k in Hcpl.
  destruct (write_back_run p r i (length ids) kv new (cache_protected_len r) (key_len k) Hi (rv_row _ _ _ _ _ V) Hlen
    ltac:(lia) Hnew Ht) as (p' & -> & Hrow' & Hoth & Hfs & _). bind_step. rewrite Hn0. cbn [or_raise mbind res_bind].
  destruct (dec_lock_ref_run s2 L2 P2 Hd n0 I2) as (s3 & d3 & -> & W3 & _); [by rewrite (sc_cfg _ _ _ _ S2), Ec|done|].
  bind_step. pose proof (same_content_locks _ _ _ _ _ _ _ W3) as S3. pose proof (lw_inv _ _ _ _ _ _ _ W3) as I3.
  assert (Hn' : last_device_node m ∈ L2).
  { apply (live_iff _ _ _ _ _ _ I2). by eexists _, _, _. }
  destruct (inc_lock_ref_run s3 L2 P2 _ (last_device_node m) I3) as (s4 & d4 & -> & W4 & _);
    [by rewrite (sc_cfg _ _ _ _ S3), (sc_cfg _ _ _ _ S2), Ec|done|].
  bind_step. pose proof (same_content_locks _ _ _ _ _ _ _ W4) as S4. pose proof (lw_inv _ _ _ _ _ _ _ W4) as I4.
  pose proof (same_content_trans _ _ _ _ _ _ S2 (same_content_trans _ _ _ _ _ _ S3 S4)) as S24.
  simpl session_id. destruct (tag_session_leaf_run s4 L2 P2 _ (session_id r) k (Some (last_device_node m)) I4)
    as (s5 & L5 & P5 & -> & R5);
    [by rewrite (sc_cfg _ _ _ _ S24), Ec|unfold kind_ok; by rewrite (sc_cfg _ _ _ _ S24), Ec|].
  bind_step. pose proof (same_content_refines _ _ _ _ _ _ _ R5) as S5.
  pose proof (same_content_trans _ _ _ _ _ _ S24 S5) as S. assert (cfg s5 = cfg s) as Ecfg by (by rewrite (sc_cfg _ _ _ _ S), Ec).
  set (r' := set_cache_fields _ _ _ r). eexists s5, a1, p', r', L5, P5, new, (last_device_node m). split; [done|]. split; [|done].
  assert (Ek : forall x, req_key s5 ids x = req_key s ids x) by (intros x; unfold req_key, psize; by rewrite Ecfg).
  assert (Hp5 : path_from (tree s5) (req_extra_key r) (root_node s5) (key_iter k) new (last_device_node m)).
  { rewrite (sc_root _ _ _ _ (same_content_trans _ _ _ _ _ _ S3 (same_content_trans _ _ _ _ _ _ S4 S5))).
    apply (sc_paths _ _ _ _ (same_content_trans _ _ _ _ _ _ S3 (same_content_trans _ _ _ _ _ _ S4 S5)));
      [apply (inv_wf _ _ _ _ _ I2)|by rewrite <- F2]. }
  split; try done.
  - apply R5.
  - split.
    + by apply Hrow'.
    + rewrite length_app, length_drop, Hnew. fold k. lia.
    + by rewrite Ek.
    + rewrite Ek. change (cache_protected_len r') with (key_len k). change (req_key s ids r') with k.
      rewrite take_ge by (by rewrite length_key_iter). rewrite take_app_le by lia. rewrite take_ge by lia.
      by apply (cached_path _ _ _ _ _ _ _ _ (rf_inv _ _ _ _ _ _ _ R5) Hp5).
    + unfold hashable. rewrite Ek, Ecfg. apply V.
  - fold k. simpl. rewrite Hlen. destruct (Nat.ltb_spec (key_len k) (length ids)); [done|]. rewrite drop_ge by lia. by rewrite app_nil_r.
  - eapply kv_out_perm; [|exact Hout1]. rewrite (sc_owned _ _ _ _ S). solve_Permutation.
  - apply Hcov, O.
  - intros ek q vs Hq. apply S. by apply Hmono.
Qed.

End ownership.

End with_env.
