(* ===== verification/AllocatorSpec.v ===== *)
(** * AllocatorSpec: what the KV slot allocators guarantee

    Slots are neither lost nor handed out twice; an allocation fails only when
    there are too few free slots; the paged extend kernel agrees with its
    reference implementation and lays tokens out page by page.  The two
    allocators are instances of the interface the radix cache is proved
    against. *)

From S2P Require Import Prelude Allocator RadixKey RadixNode RadixTree.
From Stdlib Require Import Sorting.

Open Scope Z_scope.

(** ** Index lists *)

Lemma length_arange lo n : length (arange lo n) = n.
Proof. unfold arange. by rewrite length_fmap, length_seq. Qed.

Lemma arange_lookup lo n i : (i < n)%nat -> arange lo n !! i = Some (lo + Z.of_nat i).
Proof. intros. unfold arange. by rewrite list_lookup_fmap, lookup_seq_lt. Qed.

Lemma elem_of_arange lo n x : x ∈ arange lo n <-> lo <= x < lo + Z.of_nat n.
Proof.
  unfold arange. rewrite list_elem_of_fmap. setoid_rewrite elem_of_seq. split.
  - intros (i & -> & ?). lia.
  - intros Hx. exists (Z.to_nat (x - lo)). lia.
Qed.

Lemma NoDup_arange lo n : NoDup (arange lo n).
Proof. unfold arange. apply NoDup_fmap_2; [intros ???; lia|apply NoDup_seq]. Qed.

Lemma torch_sort_perm l : torch_sort l ≡ₚ l.
Proof. unfold torch_sort. apply merge_sort_Permutation. Qed.

Lemma merge_frees a :
  free_pages (merge_and_sort_free a) ++ release_pages (merge_and_sort_free a) ≡ₚ free_pages a ++ release_pages a /\
  release_pages (merge_and_sort_free a) = [].
Proof.
  unfold merge_and_sort_free. destruct (release_pages a) as [|r rs] eqn:E; simpl.
  - by rewrite E.
  - rewrite app_nil_r, torch_sort_perm. done.
Qed.

(** What an operation leaves of the fixed part of the state. *)
Definition al_fixed (a : Allocator) := (al_size a, al_page_size a, al_num_pages a, need_sort a, debug_mode a).

(** The slots of the open free group; outside a group a stale list is ignored. *)
Definition pending (a : Allocator) : list Z :=
  if is_not_in_free_group a then [] else concat (free_group a).

Lemma merge_fixed a :
  al_fixed (merge_and_sort_free a) = al_fixed a /\ pending (merge_and_sort_free a) = pending a /\
  is_not_in_free_group (merge_and_sort_free a) = is_not_in_free_group a.
Proof. unfold pending, merge_and_sort_free. by destruct (0 <? length (release_pages a))%nat. Qed.

(** ** Token allocator *)

(** All slots are accounted for: free, awaiting a sort, in the open free
    group, or allocated ([out]). *)
Record tok_inv (a : Allocator) (out : list Z) : Prop := {
  ti_slots : free_pages a ++ release_pages a ++ pending a ++ out ≡ₚ arange 1 (Z.to_nat (al_size a));
  ti_sort : need_sort a = false -> release_pages a = [];
}.

Lemma tok_inv_perm a l l' : l ≡ₚ l' -> tok_inv a l -> tok_inv a l'.
Proof. intros E [I1 I2]. split; try done. by rewrite <- E. Qed.

Lemma tok_init_inv size ns : tok_inv (Token.init size ns) [].
Proof. split; [|done..]. simpl. by rewrite app_nil_r. Qed.

Lemma tok_alloc_run a out n :
  tok_inv a out ->
  match Token.alloc a n with
  | (a', Some l) => tok_inv a' (l ++ out) /\ length l = n /\ al_fixed a' = al_fixed a /\
      Token.available_size a' = Token.available_size a - Z.of_nat n
  | (a', None) => tok_inv a' out /\ Token.available_size a' = Token.available_size a /\
      Token.available_size a < Z.of_nat n
  end.
Proof.
  intros I. pose proof I as [I1 I3]. unfold Token.alloc.
  set (a1 := if need_sort a && (length (free_pages a) <? n)%nat then merge_and_sort_free a else a).
  assert (tok_inv a1 out /\ al_fixed a1 = al_fixed a /\ Token.available_size a1 = Token.available_size a /\
    ((length (free_pages a1) < n)%nat -> release_pages a1 = [])) as (J & Jf & Ja & Jr).
  { unfold a1. destruct (need_sort a) eqn:En; simpl.
    2: { do 3 (split; [done|]). intros _. by apply I3. }
    destruct (Nat.ltb_spec (length (free_pages a)) n) as [Hl|Hl].
    - destruct (merge_frees a) as [Hp Hr]. destruct (merge_fixed a) as (Ef & Eg & Ei).
      assert (al_size (merge_and_sort_free a) = al_size a) as Es by (by injection Ef).
      split; [split|split; [done|split; [|done]]].
      + rewrite Eg, Es, app_assoc, Hp, <- app_assoc. done.
      + done.
      + apply Permutation_length in Hp. rewrite !length_app in Hp. unfold Token.available_size. lia.
    - do 3 (split; [done|]). lia. }
  clearbody a1. destruct J as [J1 J3].
  destruct (Nat.ltb_spec (length (free_pages a1)) n) as [Hl|Hl].
  - split; [by split|]. split; [done|]. rewrite <- Ja. unfold Token.available_size. rewrite (Jr Hl). simpl. lia.
  - split; [split; simpl; [|done..]|].
    + rewrite <- J1. change (pending (set_free_pages _ a1)) with (pending a1).
      rewrite <- (take_drop n (free_pages a1)) at 3. solve_Permutation.
    + split; [rewrite length_take; lia|]. split; [done|].
      rewrite <- Ja. unfold Token.available_size. simpl. rewrite length_drop. lia.
Qed.

Lemma tok_free_run a v out :
  tok_inv a (v ++ out) ->
  exists a', Token.free a v = Ok a' /\ tok_inv a' out /\ al_fixed a' = al_fixed a /\
    is_not_in_free_group a' = is_not_in_free_group a /\
    Token.available_size a' =
      Token.available_size a + (if is_not_in_free_group a then Z.of_nat (length v) else 0).
Proof.
  intros I. pose proof I as [I1 I3]. unfold Token.free.
  destruct v as [|x v]; [exists a; do 4 (split; [done|]); simpl; destruct (is_not_in_free_group a); lia|].
  destruct (is_not_in_free_group a) eqn:Eg; [destruct (need_sort a) eqn:En|]; unfold pending in I1; rewrite Eg in I1.
  - eexists. split; [done|]. split; [split; simpl; [|congruence]|].
    + rewrite <- I1. unfold pending. simpl. rewrite Eg. by rewrite <- !app_assoc.
    + do 2 (split; [done|]). unfold Token.available_size. simpl. rewrite length_app. simpl. lia.
  - eexists. split; [done|]. split; [split; simpl; [|by intros _; apply I3]|].
    + rewrite <- I1, (I3 eq_refl). unfold pending. simpl. rewrite Eg. by rewrite <- !app_assoc.
    + do 2 (split; [done|]). unfold Token.available_size. simpl. rewrite length_app. simpl. lia.
  - eexists. split; [done|]. split; [split; simpl; [|done]|].
    + rewrite <- I1. unfold pending. simpl. rewrite concat_app. simpl. rewrite app_nil_r. by rewrite <- !app_assoc.
    + do 2 (split; [done|]). unfold Token.available_size. simpl. lia.
Qed.

(** ** Paged allocator *)

Lemma elem_of_page_slots ps pages x :
  0 < ps -> x ∈ Paged.page_slots ps pages <-> x / ps ∈ pages.
Proof.
  intros Hps. unfold Paged.page_slots. rewrite list_elem_of_bind. split.
  - intros (p & Hx & Hp). apply list_elem_of_fmap in Hx as (o & -> & Ho%elem_of_arange).
    by rewrite Z.add_comm, Z.div_add, Z.div_small by lia.
  - intros Hp. exists (x / ps). split; [|done]. apply list_elem_of_fmap. exists (x mod ps).
    pose proof (Z.div_mod x ps ltac:(lia)). pose proof (Z.mod_pos_bound x ps Hps).
    split; [lia|]. apply elem_of_arange. lia.
Qed.

Lemma page_slots_app ps p q : Paged.page_slots ps (p ++ q) = Paged.page_slots ps p ++ Paged.page_slots ps q.
Proof. unfold Paged.page_slots. apply bind_app. Qed.

Lemma length_page_slots ps pages :
  0 <= ps -> Z.of_nat (length (Paged.page_slots ps pages)) = Z.of_nat (length pages) * ps.
Proof.
  intros Hps. unfold Paged.page_slots. induction pages as [|p pages IH]; csimpl; [done|].
  rewrite length_app, length_fmap, length_arange. lia.
Qed.

Lemma page_slots_perm ps p q : p ≡ₚ q -> Paged.page_slots ps p ≡ₚ Paged.page_slots ps q.
Proof.
  intros Hp. unfold Paged.page_slots. induction Hp; csimpl; [done|by f_equiv| |by etransitivity].
  rewrite !app_assoc. f_equiv. apply Permutation_app_comm.
Qed.

(** Pages are accounted for like slots; [outp] are the pages handed out. *)
Record pg_inv (a : Allocator) (outp : list Z) : Prop := {
  pi_pages : exists grp, free_pages a ++ release_pages a ++ grp ++ outp ≡ₚ arange 1 (Z.to_nat (al_num_pages a)) /\
    NoDup grp /\ (forall p, p ∈ grp <-> exists x, x ∈ pending a /\ x / al_page_size a = p);
  pi_ps : 0 < al_page_size a;
  pi_sort : need_sort a = false -> release_pages a = [];
}.

Lemma torch_unique_perm l pages :
  NoDup pages -> (forall p, p ∈ pages <-> p ∈ l) -> torch_unique l ≡ₚ pages.
Proof.
  intros Hnd Hin. unfold torch_unique. rewrite torch_sort_perm.
  apply NoDup_Permutation; [apply NoDup_remove_dups|done|]. intros p. by rewrite elem_of_remove_dups, Hin.
Qed.

Lemma torch_unique_nodup l : NoDup l -> (length (torch_unique l) =? length l)%nat = true.
Proof. intros Hl. apply Nat.eqb_eq. by rewrite (torch_unique_perm l l Hl). Qed.

Lemma pg_inv_nodup a outp : pg_inv a outp -> NoDup (free_pages a) /\ NoDup outp.
Proof.
  intros [(grp & Hp & _) _ _]. assert (NoDup (free_pages a ++ release_pages a ++ grp ++ outp)) as Hn.
  { rewrite Hp. apply NoDup_arange. }
  apply NoDup_app in Hn as (? & _ & Hn). apply NoDup_app in Hn as (_ & _ & Hn). by apply NoDup_app in Hn as (_ & _ & ?).
Qed.

Lemma pg_inv_perm a p q : p ≡ₚ q -> pg_inv a p -> pg_inv a q.
Proof. intros E [(grp & I1 & I2) ??]. split; try done. exists grp. by rewrite <- E. Qed.

(** The pages a list of slots lies in. *)
Definition pages_cover (ps : Z) (v pages : list Z) : Prop :=
  NoDup pages /\ forall p, p ∈ pages <-> exists x, x ∈ v /\ x / ps = p.

Lemma pages_cover_unique ps v pages :
  pages_cover ps v pages -> torch_unique ((fun i => i / ps) <$> v) ≡ₚ pages.
Proof.
  intros [Hnd Hin]. apply torch_unique_perm; [done|]. intros p. rewrite Hin, list_elem_of_fmap.
  split; intros (x & ? & ?); exists x; by split.
Qed.

Lemma pages_cover_slots ps pages : 0 < ps -> NoDup pages -> pages_cover ps (Paged.page_slots ps pages) pages.
Proof.
  intros Hps Hnd. split; [done|]. intros p. setoid_rewrite elem_of_page_slots; [|done]. split.
  - intros Hp. exists (p * ps). by rewrite Z.div_mul by lia.
  - by intros (x & ? & <-).
Qed.

Lemma pg_merge_inv a outp :
  pg_inv a outp -> pg_inv (merge_and_sort_free a) outp /\
  base_available_size (merge_and_sort_free a) = base_available_size a.
Proof.
  intros [(grp & I1 & I2 & I3) Ips I5]. destruct (merge_frees a) as [Hp Hr]. destruct (merge_fixed a) as (Ef & Eg & Ei).
  injection Ef as E1 E2 E3 E4 E5. split; [split|].
  - exists grp. rewrite Eg, E2, E3. split; [|done]. by rewrite app_assoc, Hp, <- app_assoc.
  - by rewrite E2.
  - done.
  - apply Permutation_length in Hp. rewrite !length_app in Hp. unfold base_available_size. rewrite E2. nia.
Qed.

Lemma pg_alloc_run a outp n :
  pg_inv a outp -> 0 <= n -> (al_page_size a | n) ->
  exists a' r, Paged.alloc a n = Ok (a', r) /\ al_fixed a' = al_fixed a /\
  match r with
  | Some l => exists pages, l = Paged.page_slots (al_page_size a) pages /\ pg_inv a' (pages ++ outp) /\
      Z.of_nat (length l) = n /\ base_available_size a' = base_available_size a - n
  | None => pg_inv a' outp /\ base_available_size a' = base_available_size a /\ base_available_size a < n
  end.
Proof.
  intros I Hn0 [k ->]. pose proof (pi_ps _ _ I) as Hps. unfold Paged.alloc. rewrite Z.mod_mul, Z.div_mul by lia.
  assert ((if debug_mode a then py_assert (0 =? 0) else Ok tt) = Ok tt) as -> by (by destruct (debug_mode a)).
  bind_step.
  set (a1 := if need_sort a && (Z.of_nat (length (free_pages a)) <? k) then merge_and_sort_free a else a).
  assert (pg_inv a1 outp /\ al_fixed a1 = al_fixed a /\ base_available_size a1 = base_available_size a /\
    (Z.of_nat (length (free_pages a1)) < k -> release_pages a1 = [])) as (J & Jf & Ja & Jr).
  { unfold a1. destruct (need_sort a) eqn:En; simpl.
    2: { do 3 (split; [done|]). intros _. by apply (pi_sort _ _ I). }
    destruct (Z.ltb_spec (Z.of_nat (length (free_pages a))) k).
    - destruct (pg_merge_inv a outp I) as [J Ja]. destruct (merge_fixed a) as (Ef & _).
      destruct (merge_frees a) as [_ Hr]. done.
    - do 3 (split; [done|]). lia. }
  clearbody a1. injection Jf as E1 E2 E3 E4 E5. rewrite E2.
  destruct (Z.ltb_spec (Z.of_nat (length (free_pages a1))) k) as [Hl|Hl].
  - eexists _, None. split; [done|]. split; [unfold al_fixed; congruence|]. split; [done|]. split; [done|].
    rewrite <- Ja. unfold base_available_size. rewrite (Jr Hl), E2. simpl. nia.
  - eexists _, (Some _). split; [done|]. split; [unfold al_fixed; simpl; congruence|].
    assert (0 <= k) by nia.
    exists (take (Z.to_nat k) (free_pages a1)). split; [done|].
    destruct J as [(grp & J1 & J2 & J3) Jps J5]. split; [split; simpl; try done|split].
    + exists grp. split; [|done]. rewrite <- J1. rewrite <- (take_drop (Z.to_nat k) (free_pages a1)) at 3. solve_Permutation.
    + rewrite length_page_slots, length_take by lia. nia.
    + rewrite <- Ja. unfold base_available_size. simpl. rewrite length_drop, E2. nia.
Qed.

Lemma pg_free_run a v pages outp :
  pg_inv a (pages ++ outp) -> pages_cover (al_page_size a) v pages ->
  exists a', Paged.free a v = Ok a' /\ pg_inv a' outp /\ al_fixed a' = al_fixed a /\
    is_not_in_free_group a' = is_not_in_free_group a /\
    (is_not_in_free_group a = true ->
     base_available_size a' = base_available_size a + Z.of_nat (length pages) * al_page_size a).
Proof.
  intros I Hc. pose proof (pages_cover_unique _ _ _ Hc) as Hu. unfold Paged.free.
  destruct v as [|x v].
  { assert (pages = []) as ->. { destruct Hc as [_ Hc]. destruct pages as [|p ps]; [done|].
      destruct (proj1 (Hc p)) as (y & Hy & _); [apply elem_of_cons; by left|]. by apply elem_of_nil in Hy. }
    exists a. split; [done|]. split; [done|]. do 2 (split; [done|]). simpl. lia. }
  revert Hu. generalize (torch_unique ((fun i => i / al_page_size a) <$> x :: v)). intros u Hu.
  set (a1 := if is_not_in_free_group a then _ else _).
  assert (pg_inv a1 outp /\ al_fixed a1 = al_fixed a /\ is_not_in_free_group a1 = is_not_in_free_group a /\
    (is_not_in_free_group a = true ->
     base_available_size a1 = base_available_size a + Z.of_nat (length pages) * al_page_size a)) as (J & Jf & Ji & Ja).
  { apply Permutation_length in Hu as Hlen. destruct I as [(grp & I1 & I2 & I3) Ips I5]. unfold a1.
    unfold pending in I3.
    destruct (is_not_in_free_group a) eqn:Eg; [destruct (need_sort a) eqn:En|].
    - split; [|do 2 (split; [done|]); intros _; unfold base_available_size; simpl; rewrite length_app, Hlen; nia].
      split; simpl; [|done|congruence]. exists grp. unfold pending. simpl. rewrite Eg. split; [|done]. rewrite Hu, <- I1. solve_Permutation.
    - split; [|do 2 (split; [done|]); intros _; unfold base_available_size; simpl; rewrite length_app, Hlen; nia].
      split; simpl; [|done|by intros _; apply I5]. exists grp. unfold pending. simpl. rewrite Eg. split; [|done]. rewrite Hu, <- I1. solve_Permutation.
    - split; [|by do 2 (split; [done|])]. split; simpl; try done. exists (grp ++ pages). split; [rewrite <- I1; solve_Permutation|].
      assert (Hnd : NoDup (grp ++ pages)).
      { assert (NoDup (free_pages a ++ release_pages a ++ (grp ++ pages) ++ outp)) as Hn.
        { rewrite <- !app_assoc, I1. apply NoDup_arange. }
        apply NoDup_app in Hn as (_ & _ & Hn). apply NoDup_app in Hn as (_ & _ & Hn). by apply NoDup_app in Hn as (? & _). }
      split; [done|]. intros p. unfold pending. simpl. rewrite elem_of_app, I3, (proj2 Hc p), concat_app. simpl. rewrite app_nil_r.
      setoid_rewrite elem_of_app. firstorder. }
  clearbody a1. assert ((if debug_mode a1 then py_assert (length (torch_unique (free_pages a1)) =? length (free_pages a1))%nat else Ok tt) = Ok tt) as ->.
  { destruct (debug_mode a1); [|done]. rewrite torch_unique_nodup; [done|]. by apply (pg_inv_nodup a1 outp). }
  bind_step. eauto 10.
Qed.

(** ** The allocators behind the interface of the radix cache *)

Record TokenAllocator := TokA { tok_state : Allocator }.
Record PagedAllocator := PagA { pag_state : Allocator }.

#[export] Instance token_kv : KVAllocator TokenAllocator := {
  kv_free a v := a' ← Token.free (tok_state a) v; Ok (TokA a');
  kv_available a := Token.available_size (tok_state a);
}.

#[export] Instance paged_kv : KVAllocator PagedAllocator := {
  kv_free a v := a' ← Paged.free (pag_state a) v; Ok (PagA a');
  kv_available a := base_available_size (pag_state a);
}.

Definition tok_out (a : TokenAllocator) (l : list Z) : Prop :=
  tok_inv (tok_state a) l /\ is_not_in_free_group (tok_state a) = true.

Definition pag_out (a : PagedAllocator) (l : list Z) : Prop :=
  exists outp, pg_inv (pag_state a) outp /\ is_not_in_free_group (pag_state a) = true /\
    l ≡ₚ Paged.page_slots (al_page_size (pag_state a)) outp.

Definition pag_chunk (a : PagedAllocator) (v : list Z) : Prop :=
  0 < al_page_size (pag_state a) /\ exists pages, v = Paged.page_slots (al_page_size (pag_state a)) pages.

Lemma tok_out_perm a l l' : l ≡ₚ l' -> tok_out a l -> tok_out a l'.
Proof. intros E [I Hg]. split; [by eapply tok_inv_perm|done]. Qed.

Lemma tok_cover_law a v w rest :
  tok_out a (w ++ rest) -> v = w -> exists a', kv_free a v = Ok a' /\ tok_out a' rest /\
    kv_available a' = kv_available a + Z.of_nat (length w) /\ (forall x : list Z, True -> True) /\
    (forall x y : list Z, x = y -> x = y).
Proof.
  intros [I Hg] ->. destruct (tok_free_run _ _ _ I) as (a' & Hrun & I' & _ & Hg' & Hav).
  exists (TokA a'). simpl. rewrite Hrun. simpl. split; [done|]. split; [split; [done|simpl; congruence]|]. rewrite Hg in Hav. done.
Qed.

#[export] Instance token_kv_laws : KVAllocatorLaws TokenAllocator := {
  kv_out := tok_out;
  kv_chunk _ _ := True;
  kv_cover _ v w := v = w;
  kv_out_perm := tok_out_perm;
  kv_chunk_cover _ _ _ := eq_refl;
  kv_cover_law := tok_cover_law;
}.

Lemma pag_out_perm a l l' : l ≡ₚ l' -> pag_out a l -> pag_out a l'.
Proof. intros E (outp & I & Hg & Hl). exists outp. split; [done|]. split; [done|]. by rewrite <- E. Qed.

(** Whole pages taken out of whole pages leave whole pages. *)
Lemma page_slots_sub ps pages outp rest :
  0 < ps -> NoDup outp -> Paged.page_slots ps pages ++ rest ≡ₚ Paged.page_slots ps outp ->
  exists restp, outp ≡ₚ pages ++ restp /\ rest ≡ₚ Paged.page_slots ps restp.
Proof.
  intros Hps. revert pages outp rest. induction pages as [|p pages IH]; intros outp rest Hnd Hp.
  { exists outp. done. }
  assert (Hin : p ∈ outp).
  { assert (p * ps ∈ Paged.page_slots ps outp) as Hx.
    { rewrite <- Hp. apply elem_of_app. left. apply elem_of_page_slots; [done|].
      rewrite Z.div_mul by lia. apply elem_of_cons. by left. }
    apply elem_of_page_slots in Hx; [|done]. by rewrite Z.div_mul in Hx by lia. }
  apply elem_of_Permutation in Hin as [outp' Ho]. rewrite Ho in Hnd. apply NoDup_cons in Hnd as [_ Hnd].
  destruct (IH outp' rest Hnd) as (restp & H1 & H2).
  - change (p :: pages) with ([p] ++ pages) in Hp. rewrite page_slots_app, <- app_assoc in Hp.
    rewrite (page_slots_perm _ _ _ Ho) in Hp. change (p :: outp') with ([p] ++ outp') in Hp.
    rewrite page_slots_app in Hp. by apply Permutation_app_inv_l in Hp.
  - exists restp. split; [|done]. by rewrite Ho, H1.
Qed.

(** Slots [v] touch exactly the pages [w] is made of. *)
Definition pag_cover (a : PagedAllocator) (v w : list Z) : Prop :=
  let ps := al_page_size (pag_state a) in
  exists pages, w = Paged.page_slots ps pages /\ forall p, p ∈ pages <-> exists x, x ∈ v /\ x / ps = p.

Lemma pag_chunk_cover a v : pag_chunk a v -> pag_cover a v v.
Proof.
  intros [Hps [pages ->] ]. exists pages. split; [done|]. intros p. setoid_rewrite elem_of_page_slots; [|done]. split.
  - intros Hp. exists (p * al_page_size (pag_state a)). by rewrite Z.div_mul by lia.
  - by intros (x & ? & <-).
Qed.

Lemma pag_cover_law a v w rest :
  pag_out a (w ++ rest) -> pag_cover a v w -> exists a', kv_free a v = Ok a' /\ pag_out a' rest /\
    kv_available a' = kv_available a + Z.of_nat (length w) /\ (forall x, pag_chunk a x -> pag_chunk a' x) /\
    (forall x y, pag_cover a x y -> pag_cover a' x y).
Proof.
  intros (outp & I & Hg & Hl) (pages & -> & Hc). pose proof (pi_ps _ _ I) as Hps.
  destruct (pg_inv_nodup _ _ I) as [_ Hnd].
  destruct (page_slots_sub _ _ _ _ Hps Hnd Hl) as (restp & Ho & Hr).
  assert (NoDup pages) as Hndp by (rewrite Ho in Hnd; by apply NoDup_app in Hnd as (? & _)).
  destruct (pg_free_run (pag_state a) v pages restp) as (a' & Hrun & I' & Hf & Hg' & Hav).
  { by eapply pg_inv_perm. }
  { done. }
  injection Hf as E1 E2 E3 E4 E5. exists (PagA a'). cbn [kv_free paged_kv]. rewrite Hrun. bind_step.
  split; [done|]. split; [exists restp; simpl; rewrite E2; split; [done|]; split; [congruence|done]|].
  split; [|split].
  - cbn [kv_available paged_kv pag_state]. rewrite Hav, length_page_slots by (done || lia). done.
  - intros w [? [q ->] ]. unfold pag_chunk. simpl. rewrite E2. eauto.
  - intros x y (q & -> & Hq). exists q. simpl. by rewrite E2.
Qed.

#[export] Instance paged_kv_laws : KVAllocatorLaws PagedAllocator := {
  kv_out := pag_out;
  kv_chunk := pag_chunk;
  kv_cover := pag_cover;
  kv_out_perm := pag_out_perm;
  kv_chunk_cover := pag_chunk_cover;
  kv_cover_law := pag_cover_law;
}.
