(* ===== verification/Allocation.v ===== *)
(** * Allocation: slots and rows for a batch

    Models [mem_cache/allocation.py] with [evict_from_tree_cache] of
    [mem_cache/common.py] and the Triton kernels of
    [kernels/ops/memory/common.py], for the token and the paged allocator, the
    radix cache and the chunk cache.  Sliding-window, hybrid (mamba), DSV4 and
    encoder-decoder batches are outside this file. *)

From S2P Require Import Prelude RadixKey RadixNode RadixTree RadixInv RadixSteps RadixContent RadixOps RadixInsert RadixLock RadixEvict RadixSpec ReqPool ReqCache Allocator AllocatorSpec.

Open Scope nat_scope.

(** ** The allocator behind a cache *)

Inductive KVPool :=
| PTok (a : TokenAllocator)
| PPag (a : PagedAllocator).

#[export] Instance pool_kv : KVAllocator KVPool := {
  kv_free p v :=
    match p with
    | PTok a => a' ← kv_free a v; Ok (PTok a')
    | PPag a => a' ← kv_free a v; Ok (PPag a')
    end;
  kv_available p := match p with PTok a => kv_available a | PPag a => kv_available a end;
}.

Definition kvp_page_size (p : KVPool) : nat :=
  match p with
  | PTok a => Z.to_nat (al_page_size (tok_state a))
  | PPag a => Z.to_nat (al_page_size (pag_state a))
  end.

Definition kvp_alloc (p : KVPool) (n : nat) : res (KVPool * option (list Z)) :=
  match p with
  | PTok a => let '(a', o) := Token.alloc (tok_state a) n in Ok (PTok (TokA a'), o)
  | PPag a => '(a', o) ← Paged.alloc (pag_state a) (Z.of_nat n); Ok (PPag (PagA a'), o)
  end.

(** The base class raises NotImplementedError for the batched methods. *)
Definition kvp_alloc_extend (fill : Z) (uninit : list Z) (p : KVPool) (prefix_lens seq_lens : list nat) (last_loc : list Z)
    (extend_num_tokens : nat) : res (KVPool * option (list Z)) :=
  match p with
  | PTok _ => Raise NotImplementedError
  | PPag a =>
      '(a', o) ← Paged.alloc_extend fill uninit (pag_state a) (Z.of_nat <$> prefix_lens) (Z.of_nat <$> seq_lens) last_loc
                   (Z.of_nat extend_num_tokens) None;
      Ok (PPag (PagA a'), o)
  end.

Definition kvp_alloc_decode (fill : Z) (uninit : list Z) (p : KVPool) (seq_lens : list nat) (last_loc : list Z)
    : res (KVPool * option (list Z)) :=
  match p with
  | PTok _ => Raise NotImplementedError
  | PPag a =>
      '(a', o) ← Paged.alloc_decode fill uninit (pag_state a) (Z.of_nat <$> seq_lens) last_loc;
      Ok (PPag (PagA a'), o)
  end.

Definition kvp_backup_state (p : KVPool) : list Z * list Z :=
  match p with PTok a => backup_state (tok_state a) | PPag a => backup_state (pag_state a) end.

(** ** The prefix cache *)

Inductive PrefixCache :=
| Radix (s : RadixCache)
| Chunk (page_size : nat).

Definition cache_page_size (tc : PrefixCache) : nat :=
  match tc with Radix s => psize s | Chunk ps => ps end.

Section with_env.
Context `{Env}.

Definition evict_from_tree_cache (tc : option PrefixCache) (num_tokens : nat) (a : KVPool)
    : res (option PrefixCache * KVPool) :=
  match tc with
  | None => Ok (tc, a)
  | Some (Chunk _) => Ok (tc, a)
  | Some (Radix s) =>
      if (kv_available a <? Z.of_nat num_tokens)%Z then
        '(s, a, _) ← evict (Z.of_nat num_tokens) s a;
        Ok (Some (Radix s), a)
      else Ok (tc, a)
  end.

(** Eviction on a cache that exists. *)
Definition evict_for (tc : PrefixCache) (num_tokens : nat) (a : KVPool) : res (PrefixCache * KVPool) :=
  '(o, a) ← evict_from_tree_cache (Some tc) num_tokens a;
  Ok (default tc o, a).

Definition alloc_token_slots (tc : PrefixCache) (num_tokens : nat) (a : KVPool)
    : res (PrefixCache * KVPool * (list Z * list Z) * list Z) :=
  '(tc, a) ← evict_for tc num_tokens a;
  let state := kvp_backup_state a in
  '(a, o) ← kvp_alloc a num_tokens;
  match o with
  | None => Raise RuntimeError
  | Some out_cache_loc => Ok (tc, a, state, out_cache_loc)
  end.

Definition alloc_paged_token_slots_extend (fill : Z) (uninit : list Z) (tc : PrefixCache) (prefix_lens seq_lens : list nat)
    (last_loc : list Z) (extend_num_tokens : nat) (a : KVPool)
    : res (PrefixCache * KVPool * (list Z * list Z) * list Z) :=
  let num_tokens := (extend_num_tokens + length seq_lens * kvp_page_size a)%nat in
  '(tc, a) ← evict_for tc num_tokens a;
  let state := kvp_backup_state a in
  '(a, o) ← kvp_alloc_extend fill uninit a prefix_lens seq_lens last_loc extend_num_tokens;
  match o with
  | None => Raise RuntimeError
  | Some out_cache_loc => Ok (tc, a, state, out_cache_loc)
  end.

Definition alloc_paged_token_slots_decode (fill : Z) (uninit : list Z) (tc : PrefixCache) (seq_lens : list nat)
    (last_loc : list Z) (a : KVPool) : res (PrefixCache * KVPool * list Z) :=
  let num_tokens := (length seq_lens * kvp_page_size a)%nat in
  '(tc, a) ← evict_for tc num_tokens a;
  '(a, o) ← kvp_alloc_decode fill uninit a seq_lens last_loc;
  match o with
  | None => Raise RuntimeError
  | Some out_cache_loc => Ok (tc, a, out_cache_loc)
  end.

(** ** Rows *)

Definition alloc_req_slots (reqs : list Req) (p : ReqToTokenPool)
    : res (ReqToTokenPool * list Req * list (option nat)) :=
  '(p, rs, o) ← pool_alloc reqs p;
  match o with
  | None => Raise RuntimeError
  | Some rows => Ok (p, rs, rows)
  end.

(** One request of the batch: row, cached prefix length, sequence length, number of
    new tokens, prefix slots. *)
Record row_job := mkJob {
  j_row : nat; j_prefix_len : nat; j_seq_len : nat; j_extend_len : nat; j_prefix : list Z;
}.

(** The reference loop of [write_cache_indices]. *)
Fixpoint write_cache_indices (out_cache_loc : list Z) (pt : nat) (jobs : list row_job) (p : ReqToTokenPool) : res ReqToTokenPool :=
  match jobs with
  | [] => Ok p
  | j :: jobs =>
      p ← pool_write (j_row j) 0 (j_prefix_len j) (j_prefix j) p;
      p ← pool_write (j_row j) (j_prefix_len j) (j_seq_len j) (slice pt (pt + j_extend_len j) out_cache_loc) p;
      write_cache_indices out_cache_loc (pt + j_extend_len j) jobs p
  end.

(** [write_req_to_token_pool_triton]: the cells program [pid] stores, as pairs of a
    column of its row and a value. *)
Definition BLOCK_SIZE : nat := 512.

(** The offsets below [n] a loop over blocks visits, in order. *)
Definition masked_offsets (n : nat) : list nat :=
  seq 0 ((n + BLOCK_SIZE - 1) / BLOCK_SIZE) ≫= fun i =>
    base.filter (fun off => off < n) ((fun o => o + i * BLOCK_SIZE) <$> seq 0 BLOCK_SIZE).

Definition write_row_kernel (jobs : list row_job) (out_cache_loc : list Z) (pid : nat) (j : row_job) : list (nat * Z) :=
  let cumsum_start := sum_list (j_extend_len <$> take pid jobs) in
  ((fun off => (off, j_prefix j !!! off)) <$> masked_offsets (j_prefix_len j)) ++
  ((fun off => (off + j_prefix_len j, out_cache_loc !!! (cumsum_start + off))) <$>
     masked_offsets (j_seq_len j - j_prefix_len j)).

(** The store of one program, then of the whole grid. *)
Definition store_cells (row : list Z) (cells : list (nat * Z)) : list Z :=
  foldl (fun r c => <[c.1 := c.2]> r) row cells.

Definition write_req_to_token_pool_triton (jobs : list row_job) (out_cache_loc : list Z) (p : ReqToTokenPool) : ReqToTokenPool :=
  foldl (fun p ij => set_table (alter (fun row => store_cells row (write_row_kernel jobs out_cache_loc ij.1 ij.2)) (j_row ij.2)
                                  (req_to_token p)) p)
    p (zip (seq 0 (length jobs)) jobs).

(** [req_to_token[rows, lens - 1]] where positive, [-1] elsewhere. *)
Definition get_last_loc_torch (p : ReqToTokenPool) (rows lens : list nat) : list Z :=
  zip_with (fun i n => if (0 <? n)%nat then (req_to_token p !!! i) !!! (n - 1) else (-1)%Z) rows lens.

(** The kernel reads the table as one flat buffer. *)
Definition get_last_loc_kernel (p : ReqToTokenPool) (rows lens : list nat) : list Z :=
  let flat := concat (req_to_token p) in
  let stride := max_context_len p in
  zip_with (fun i n => if (0 <? n)%nat then flat !!! (i * stride + (n - 1)) else (-1)%Z) rows lens.

(** ** A whole batch *)

Record Batch := mkBatch {
  b_reqs : list Req;
  b_prefix_lens : list nat;
  b_extend_lens : list nat;
  b_seq_lens : list nat;
  b_extend_num_tokens : nat;
}.

Definition batch_jobs (b : Batch) (rows : list nat) : list row_job :=
  let prefix_tensors := prefix_indices <$> b_reqs b in
  zip_with (fun f x => f x)
    (zip_with (fun f x => f x)
      (zip_with (fun f x => f x)
        (zip_with (fun f x => f x) (mkJob <$> rows) (b_prefix_lens b))
        (b_seq_lens b))
      (b_extend_lens b))
    prefix_tensors.

(** [t[-1:]], or [-1] for an empty prefix. *)
Definition last_or (l : list Z) : Z := default (-1)%Z (last l).

Definition alloc_for_extend (fill : Z) (uninit : list Z) (b : Batch) (p : ReqToTokenPool) (tc : PrefixCache) (a : KVPool)
    : res (PrefixCache * KVPool * ReqToTokenPool * list Req * list Z) :=
  '(p, rs, rows) ← alloc_req_slots (b_reqs b) p;
  '(tc, a, out_cache_loc) ←
    (if (cache_page_size tc =? 1)%nat then
       '(tc, a, _, out) ← alloc_token_slots tc (b_extend_num_tokens b) a;
       Ok (tc, a, out)
     else
       let last_loc := last_or <$> (prefix_indices <$> b_reqs b) in
       '(tc, a, _, out) ← alloc_paged_token_slots_extend fill uninit tc (b_prefix_lens b) (b_seq_lens b) last_loc
                            (b_extend_num_tokens b) a;
       Ok (tc, a, out));
  p ← write_cache_indices out_cache_loc 0 (batch_jobs b (omap (fun x => x) rows)) p;
  let rs := zip_with (fun r n => set_kv (Some n) r) rs (b_seq_lens b) in
  Ok (tc, a, p, rs, out_cache_loc).

(** [req_to_token[(rows, locs)] = vals], one cell per request. *)
Fixpoint write_cells (rows locs : list nat) (vals : list Z) (p : ReqToTokenPool) : res ReqToTokenPool :=
  match rows, locs, vals with
  | [], [], [] => Ok p
  | i :: rows, n :: locs, v :: vals =>
      row ← or_raise IndexError (req_to_token p !! i);
      if (n <? length row)%nat
      then write_cells rows locs vals (set_table (<[i := <[n := v]> row]> (req_to_token p)) p)
      else Raise IndexError
  | _, _, _ => Raise RuntimeError
  end.

Definition alloc_for_decode (fill : Z) (uninit : list Z) (reqs : list Req) (rows seq_lens : list nat) (token_per_req : nat)
    (p : ReqToTokenPool) (tc : PrefixCache) (a : KVPool)
    : res (PrefixCache * KVPool * ReqToTokenPool * list Req * list Z) :=
  let bs := length seq_lens in
  '(tc, a, out_cache_loc) ←
    (if (cache_page_size tc =? 1)%nat then
       '(tc, a, _, out) ← alloc_token_slots tc (bs * token_per_req) a;
       Ok (tc, a, out)
     else
       let last_loc := zip_with (fun i n => (req_to_token p !!! i) !!! (n - 1)) rows seq_lens in
       alloc_paged_token_slots_decode fill uninit tc ((fun n => n + token_per_req) <$> seq_lens) last_loc a);
  p ← write_cells rows seq_lens out_cache_loc p;
  let rs := (fun r => set_kv ((fun n => n + token_per_req) <$> kv_allocated_len r) r) <$> reqs in
  Ok (tc, a, p, rs, out_cache_loc).

End with_env.

(** ** Sizing ([mem_cache/allocation_sizing.py]) *)

Record SpecArgs := mkSpec {
  spec_algorithm : option string;
  spec_num_steps : option nat;
  spec_eagle_topk : option nat;
  max_num_draft_tokens : option nat;
  spec_page_size : nat;
  has_draft_kv : bool;
}.

(** [x or d] for a number: zero counts as missing. *)
Definition or_default (x : option nat) (d : nat) : nat :=
  match x with Some 0 | None => d | Some n => n end.

Definition get_alloc_len_per_decode (sa : SpecArgs) : res nat :=
  match spec_algorithm sa with
  | None => Ok 1
  | Some _ =>
      let steps := or_default (spec_num_steps sa) 1 in
      let topk := or_default (spec_eagle_topk sa) 1 in
      let ps := spec_page_size sa in
      tokens ← or_raise TypeError (max_num_draft_tokens sa);
      if (ps =? 1)%nat || (topk =? 1)%nat || negb (has_draft_kv sa) then Ok (Nat.max (steps * topk) tokens)
      else
        let pages := ((ps - 1) + steps + ps - 1) / ps in
        Ok (Nat.max (pages * ps * topk) tokens)
  end.

Definition get_alloc_reserve_per_decode (sa : SpecArgs) : res nat :=
  n ← get_alloc_len_per_decode sa;
  Ok (2 * n).

Definition get_req_to_token_extra_context_len (sa : SpecArgs) : res nat :=
  let extra := 4 + or_default (max_num_draft_tokens sa) 0 in
  if (match spec_algorithm sa with None => false | Some _ => true end) && (1 <? spec_page_size sa)%nat
     && (1 <? or_default (spec_eagle_topk sa) 1)%nat
  then n ← get_alloc_reserve_per_decode sa; Ok (Nat.max extra n)
  else Ok extra.
