(* ===== verification/AllocatorKernel.v ===== *)
(** * AllocatorKernel: the paged extend kernel

    The Triton kernel [alloc_extend_kernel] (one program per request, masked
    vector loads, a blocked loop) writes exactly what the sequential reference
    [alloc_extend_naive] writes, and both lay the new tokens of each request
    out as [extend_slots] says: first the rest of the last partial page, then
    the request's share of the free pages. *)

From S2P Require Import Prelude Allocator RadixKey RadixNode RadixTree AllocatorSpec.

Open Scope Z_scope.

(** ** Masked loads and running sums *)

Lemma load_lanes_eq fill U l pid :
  (pid < length l)%nat -> (pid < U)%nat ->
  load_lanes fill U l pid = take (S pid) l ++ replicate (U - S pid) fill.
Proof.
  intros Hl HU. unfold load_lanes. apply list_eq. intros j. rewrite list_lookup_fmap.
  destruct (decide (j < U)%nat) as [Hj|Hj].
  2: { rewrite lookup_seq_ge by lia. symmetry. apply lookup_ge_None_2.
       rewrite length_app, length_take, length_replicate. lia. }
  rewrite lookup_seq_lt by done. simpl. destruct (Nat.leb_spec j pid) as [Hle|Hgt].
  - rewrite lookup_app_l by (rewrite length_take; lia). rewrite lookup_take_lt by lia.
    symmetry. apply list_lookup_lookup_total_lt. lia.
  - rewrite lookup_app_r by (rewrite length_take; lia).
    rewrite lookup_replicate_2; [done|]. rewrite length_take. lia.
Qed.

Lemma Zsum_app l l' : Zsum (l ++ l') = Zsum l + Zsum l'.
Proof. unfold Zsum. induction l; simpl; lia. Qed.

Lemma Zsum_replicate0 n : Zsum (replicate n 0) = 0.
Proof. induction n; simpl; [done|]. by rewrite IHn. Qed.

(** Sums over the lanes are sums over the requests up to [pid]. *)
Lemma lanes_sum (g : Z -> Z) fill U l1 l2 pid :
  (pid < length l1)%nat -> (pid < length l2)%nat -> (pid < U)%nat ->
  Zsum (zip_with Z.sub (g <$> load_lanes fill U l1 pid) (g <$> load_lanes fill U l2 pid)) =
  Zsum (zip_with Z.sub (g <$> take (S pid) l1) (g <$> take (S pid) l2)).
Proof.
  intros H1 H2 HU. rewrite !load_lanes_eq, !fmap_app, zip_with_app by
    (done || rewrite !length_fmap, !length_take; lia).
  rewrite Zsum_app, !fmap_replicate, zip_with_replicate, Z.sub_diag.
  rewrite Zsum_replicate0. lia.
Qed.

Lemma take_S_sum (g : Z -> Z) l1 l2 pid :
  (pid < length l1)%nat -> (pid < length l2)%nat ->
  Zsum (zip_with Z.sub (g <$> take (S pid) l1) (g <$> take (S pid) l2)) =
  Zsum (zip_with Z.sub (g <$> take pid l1) (g <$> take pid l2)) + (g (l1 !!! pid) - g (l2 !!! pid)).
Proof.
  intros H1 H2. destruct (lookup_lt_is_Some_2 _ _ H1) as [x Hx]. destruct (lookup_lt_is_Some_2 _ _ H2) as [y Hy].
  rewrite !(take_S_r _ _ _ Hx), !(take_S_r _ _ _ Hy), !fmap_app, zip_with_app, Zsum_app by
    (rewrite !length_fmap, !length_take; lia).
  rewrite (list_lookup_total_correct _ _ _ Hx), (list_lookup_total_correct _ _ _ Hy). f_equal. unfold Zsum. simpl. lia.
Qed.

Lemma next_power_of_2_ge n : (n <= next_power_of_2 n)%nat.
Proof.
  unfold next_power_of_2. destruct (Nat.ltb_spec 0 n) as [H|H]; [|lia].
  destruct (decide (n = 1)%nat) as [->|]; [done|]. pose proof (Nat.log2_up_spec n ltac:(lia)). lia.
Qed.

(** ** Offsets *)

Lemma arange_app n m : arange 0 (n + m) = arange 0 n ++ arange (Z.of_nat n) m.
Proof.
  unfold arange. rewrite seq_app, fmap_app. f_equal. simpl.
  apply list_eq. intros i. rewrite !list_lookup_fmap. destruct (decide (i < m)%nat).
  - rewrite !lookup_seq_lt by done. simpl. f_equal. lia.
  - by rewrite !lookup_seq_ge by lia.
Qed.

Lemma filter_arange_lt n lo m :
  base.filter (fun o => o < n) (arange lo m) = arange lo (Z.to_nat (n - lo) `min` m).
Proof.
  revert lo. induction m as [|m IH]; intros lo; [by rewrite Nat.min_0_r|].
  assert (Hs : forall k, arange lo (S k) = lo :: arange (lo + 1) k).
  { intros k. unfold arange. simpl. f_equal; [lia|]. rewrite <- fmap_S_seq, <- list_fmap_compose.
    apply list_fmap_ext. intros i x _. simpl. lia. }
  rewrite Hs. destruct (decide (lo < n)).
  - rewrite filter_cons_True, IH by done.
    replace (Z.to_nat (n - lo) `min` S m)%nat with (S (Z.to_nat (n - (lo + 1)) `min` m)) by lia. by rewrite Hs.
  - rewrite filter_cons_False, IH by done.
    replace (Z.to_nat (n - (lo + 1)) `min` m)%nat with 0%nat by lia.
    by replace (Z.to_nat (n - lo) `min` S m)%nat with 0%nat by lia.
Qed.

Lemma take_arange n lo m : take n (arange lo m) = arange lo (n `min` m).
Proof. unfold arange. rewrite <- fmap_take. by rewrite take_seq. Qed.

Lemma block_offsets_eq n : 0 <= n -> block_offsets n = arange 0 (Z.to_nat n).
Proof.
  intros Hn. unfold block_offsets. generalize BLOCK_EXTEND (eq_refl : (0 <? BLOCK_EXTEND)%nat = true).
  intros B HB%Nat.ltb_lt.
  assert (Hk : forall k, seq 0 k ≫= (fun b => base.filter (fun off => off < n)
      ((fun o => Z.of_nat (b * B + o)) <$> seq 0 B)) = base.filter (fun off => off < n) (arange 0 (k * B))).
  { induction k as [|k IH]; [done|]. rewrite seq_S, bind_app, IH. csimpl. rewrite app_nil_r.
    rewrite (Nat.add_comm B), arange_app, filter_app. do 2 f_equal.
    unfold arange. apply list_fmap_ext. intros i x _. lia. }
  rewrite Hk, filter_arange_lt. f_equal. rewrite Z.sub_0_r.
  assert (n <= (n + Z.of_nat B - 1) / Z.of_nat B * Z.of_nat B).
  { pose proof (Z.div_mod (n + Z.of_nat B - 1) (Z.of_nat B) ltac:(lia)).
    pose proof (Z.mod_pos_bound (n + Z.of_nat B - 1) (Z.of_nat B) ltac:(lia)). lia. }
  assert (0 <= (n + Z.of_nat B - 1) / Z.of_nat B) by (apply Z.div_pos; lia).
  apply Nat.min_l. nia.
Qed.

Lemma write_range_fmap start (f : Z -> Z) n :
  write_range start (f <$> arange 0 n) = (fun o => (start + o, f o)) <$> arange 0 n.
Proof.
  unfold write_range. rewrite length_fmap, length_arange. unfold arange.
  apply list_eq. intros i. rewrite lookup_zip_with, !list_lookup_fmap.
  destruct (decide (i < n)%nat); [by rewrite lookup_seq_lt by done|by rewrite lookup_seq_ge by lia].
Qed.

(** ** Layout of one request *)

Section req.
Context (ps : Z) (Hps : 0 < ps).

(** Slot of the token at position [pre + o] of a request that has [pre] tokens
    (the last in slot [last]) and whose new pages start at entry [np] of the
    free list. *)
Definition token_slot (free_page : list Z) (pre last np o : Z) : Z :=
  if pre + o <? ceil_pages ps pre * ps then last + 1 + o
  else free_page !!! Z.to_nat (np + ((pre + o) / ps - ceil_pages ps pre)) * ps + (pre + o) mod ps.

Definition extend_slots (free_page : list Z) (pre seq last np : Z) : list Z :=
  token_slot free_page pre last np <$> arange 0 (Z.to_nat (seq - pre)).

Lemma ceil_bounds x : x <= ceil_pages ps x * ps < x + ps.
Proof.
  unfold ceil_pages. pose proof (Z.div_mod (x + ps - 1) ps ltac:(lia)).
  pose proof (Z.mod_pos_bound (x + ps - 1) ps Hps). lia.
Qed.

Lemma ceil_mono x y : x <= y -> ceil_pages ps x <= ceil_pages ps y.
Proof. intros. unfold ceil_pages. apply Z.div_le_mono; lia. Qed.

Lemma ceil_le_floor x y : ceil_pages ps x * ps <= y -> ceil_pages ps x <= y / ps.
Proof. intros. apply Z.div_le_lower_bound; lia. Qed.

Lemma ceil_floor x : ceil_pages ps x = x / ps + (if x mod ps =? 0 then 0 else 1).
Proof.
  unfold ceil_pages. pose proof (Z.div_mod x ps ltac:(lia)). pose proof (Z.mod_pos_bound x ps Hps).
  destruct (Z.eqb_spec (x mod ps) 0).
  - symmetry. apply (Z.div_unique _ _ _ (ps - 1)); lia.
  - symmetry. apply (Z.div_unique _ _ _ (x mod ps - 1)); lia.
Qed.

Lemma arange_split n m k : (k = n + m)%nat -> arange 0 k = arange 0 n ++ ((fun o => Z.of_nat n + o) <$> arange 0 m).
Proof.
  intros ->. rewrite arange_app. f_equal. unfold arange. rewrite <- list_fmap_compose.
  apply list_fmap_ext. intros i x _. simpl. lia.
Qed.

Lemma page_block (fp : list Z) np n k : (k = n * Z.to_nat ps)%nat ->
  (fun o => fp !!! Z.to_nat (np + o / ps) * ps + o mod ps) <$> arange 0 k =
  seq 0 n ≫= (fun i => (fun o => fp !!! Z.to_nat (np + Z.of_nat i) * ps + o) <$> arange 0 (Z.to_nat ps)).
Proof.
  intros ->. induction n as [|n IH]; [done|].
  rewrite seq_S, bind_app, <- IH. csimpl. rewrite app_nil_r.
  rewrite (arange_split (n * Z.to_nat ps) (Z.to_nat ps)) by lia. rewrite fmap_app. f_equal.
  rewrite <- list_fmap_compose. apply list_fmap_ext. intros i x Hx. apply list_elem_of_lookup_2 in Hx as Hx'.
  apply elem_of_arange in Hx'. simpl.
  replace (Z.of_nat (n * Z.to_nat ps) + x) with (x + Z.of_nat n * ps) by nia.
  rewrite Z.div_add, Z.mod_add, Z.div_small, Z.mod_small by lia. done.
Qed.

(** The first [take]/[slice] of the free list the reference uses. *)
Lemma slice_pages (fp : list Z) np n :
  0 <= np -> (Z.to_nat np + n <= length fp)%nat ->
  slice (Z.to_nat np) (Z.to_nat np + n) fp = (fun i => fp !!! Z.to_nat (np + Z.of_nat i)) <$> seq 0 n.
Proof.
  intros Hnp Hl. unfold slice. rewrite Nat.add_sub'. apply list_eq. intros i. rewrite list_lookup_fmap.
  destruct (decide (i < n)%nat).
  - rewrite lookup_take_lt, lookup_drop, lookup_seq_lt by done. simpl.
    rewrite list_lookup_lookup_total_lt by lia. do 2 f_equal. lia.
  - rewrite lookup_take_ge, lookup_seq_ge by lia. done.
Qed.

(** The writes that lay out one request. *)
Definition req_layout (free_page : list Z) (pre seq last start np : Z) : writes :=
  (fun o => (start + o, token_slot free_page pre last np o)) <$> arange 0 (Z.to_nat (seq - pre)).

Context (fp : list Z) (pre sq last start np : Z) (Hpre : 0 <= pre <= sq).

Definition part1 (n : Z) : writes := (fun o => (start + o, last + 1 + o)) <$> arange 0 (Z.to_nat n).
Definition part2 (n1 n : Z) : writes :=
  (fun o => (start + n1 + o, fp !!! Z.to_nat (np + o / ps) * ps + o mod ps)) <$> arange 0 (Z.to_nat n).
Definition part3 (n12 n i : Z) : writes :=
  (fun o => (start + n12 + o, fp !!! Z.to_nat i * ps + o)) <$> arange 0 (Z.to_nat n).

(** The request stays within its last page. *)
Lemma layout_within : sq <= ceil_pages ps pre * ps -> req_layout fp pre sq last start np = part1 (sq - pre).
Proof using Hps Hpre.
  intros Hs. unfold req_layout, part1. apply list_fmap_ext. intros i o Ho.
  apply list_elem_of_lookup_2, elem_of_arange in Ho. unfold token_slot.
  by rewrite (proj2 (Z.ltb_lt _ _)) by lia.
Qed.

(** The request goes on into new pages. *)
Lemma layout_parts n1 n2 n3 :
  ceil_pages ps pre * ps < sq -> n1 = ceil_pages ps pre * ps - pre ->
  n2 = (sq / ps - ceil_pages ps pre) * ps -> n3 = sq - sq / ps * ps ->
  req_layout fp pre sq last start np =
  part1 n1 ++ part2 n1 n2 ++ part3 (n1 + n2) n3 (np + (sq / ps - ceil_pages ps pre)) /\
  0 <= n1 < ps /\ 0 <= n2 /\ 0 <= n3 < ps.
Proof using Hps Hpre.
  intros Hs E1 E2 E3. pose proof (ceil_bounds pre) as Hb.
  pose proof (ceil_le_floor pre sq ltac:(lia)) as Hf.
  pose proof (Z.div_mod sq ps ltac:(lia)). pose proof (Z.mod_pos_bound sq ps Hps).
  split; [|nia]. unfold req_layout.
  rewrite (arange_split (Z.to_nat n1) (Z.to_nat n2 + Z.to_nat n3)) by nia.
  rewrite (arange_split (Z.to_nat n2) (Z.to_nat n3) (Z.to_nat n2 + Z.to_nat n3)) by done. rewrite !fmap_app, <- !list_fmap_compose.
  unfold part1, part2, part3. f_equal; [|f_equal]; apply list_fmap_ext; intros i o Ho;
    apply list_elem_of_lookup_2, elem_of_arange in Ho; simpl; unfold token_slot.
  - by rewrite (proj2 (Z.ltb_lt _ _)) by lia.
  - rewrite (proj2 (Z.ltb_ge _ _)) by lia. f_equal; [lia|].
    replace (pre + (Z.of_nat (Z.to_nat n1) + o)) with (o + ceil_pages ps pre * ps) by lia.
    rewrite Z.div_add, Z.mod_add by lia. do 3 f_equal. lia.
  - rewrite (proj2 (Z.ltb_ge _ _)) by nia. f_equal; [nia|].
    replace (pre + (Z.of_nat (Z.to_nat n1) + (Z.of_nat (Z.to_nat n2) + o))) with (o + sq / ps * ps) by nia.
    rewrite Z.div_add, Z.mod_add, Z.div_small, Z.mod_small by lia. do 3 f_equal.
Qed.

(** The reference lays a request out as specified. *)
Lemma naive_req_layout :
  0 <= np -> np + (ceil_pages ps sq - ceil_pages ps pre) <= Z.of_nat (length fp) ->
  alloc_extend_naive_req ps pre sq last fp start np = req_layout fp pre sq last start np.
Proof using Hps Hpre.
  intros Hnp Hlen. unfold alloc_extend_naive_req. pose proof (ceil_bounds pre) as Hb.
  assert (Hw1 : forall n, 0 <= n <= ps ->
    (if n =? 0 then [] else write_range start ((fun o => last + 1 + o) <$> take (Z.to_nat n) (arange 0 (Z.to_nat ps)))) = part1 n).
  { intros n Hn. rewrite take_arange, Nat.min_l, write_range_fmap by lia. destruct (Z.eqb_spec n 0) as [->|]; done. }
  destruct (Z.le_gt_cases sq (ceil_pages ps pre * ps)) as [Hle|Hgt].
  { rewrite Z.min_l by lia. rewrite Hw1 by lia. rewrite layout_within by done.
    by rewrite (proj2 (Z.eqb_eq _ _)) by lia. }
  rewrite Z.min_r by lia. set (n1 := ceil_pages ps pre * ps - pre).
  set (n2 := (sq / ps - ceil_pages ps pre) * ps). set (n3 := sq - sq / ps * ps).
  destruct (layout_parts n1 n2 n3 Hgt eq_refl eq_refl eq_refl) as (-> & Hn1 & Hn2 & Hn3).
  pose proof (ceil_le_floor pre sq ltac:(lia)) as Hf. pose proof (ceil_floor sq) as Hcf.
  pose proof (Z.div_mod sq ps ltac:(lia)).
  rewrite Hw1, (proj2 (Z.eqb_neq _ _)) by lia.
  assert (Hw2 : (if n2 =? 0 then [] else
      write_range (start + n1) (((fun p => p * ps) <$>
          slice (Z.to_nat np) (Z.to_nat (np + (ceil_pages ps sq - ceil_pages ps pre) -
            (ceil_pages ps sq - ceil_pages ps pre - (sq / ps - ceil_pages ps pre)))) fp)
        ≫= fun p => (fun o => p + o) <$> arange 0 (Z.to_nat ps))) = part2 n1 n2).
  { destruct (Z.eqb_spec n2 0) as [E|_]; [by unfold part2; rewrite E|].
    replace (Z.to_nat (np + _ - _)) with (Z.to_nat np + Z.to_nat (sq / ps - ceil_pages ps pre))%nat by lia.
    rewrite slice_pages by (destruct (sq mod ps =? 0); lia). rewrite <- list_fmap_compose.
    rewrite list_fmap_bind. unfold compose. rewrite <- (page_block fp np _ (Z.to_nat n2)) by nia.
    by rewrite write_range_fmap. }
  rewrite Hw2. destruct (Z.eqb_spec (pre + n1 + n2) sq) as [E|E].
  { assert (n3 = 0) as -> by lia. unfold part3. simpl. by rewrite app_nil_r. }
  do 2 f_equal. rewrite (proj2 (Z.eqb_neq n3 0)) by lia.
  rewrite take_arange, Nat.min_l, write_range_fmap by lia. unfold part3. apply list_fmap_ext. intros i o _.
  assert (sq mod ps <> 0) by lia. rewrite (proj2 (Z.eqb_neq (sq mod ps) 0)) in Hcf by done.
  f_equal; [lia|]. do 3 f_equal. lia.
Qed.

(** A kernel program lays its request out as specified. *)
Lemma kernel_layout fill U pre_lens seq_lens last_loc pid :
  (pid < length pre_lens)%nat -> (pid < length seq_lens)%nat -> (pid < U)%nat ->
  pre_lens !!! pid = pre -> seq_lens !!! pid = sq -> last_loc !!! pid = last ->
  Zsum (zip_with Z.sub (take pid seq_lens) (take pid pre_lens)) = start ->
  Zsum (zip_with Z.sub (ceil_pages ps <$> take pid seq_lens) (ceil_pages ps <$> take pid pre_lens)) = np ->
  alloc_extend_kernel ps fill U pre_lens seq_lens last_loc fp pid = req_layout fp pre sq last start np.
Proof using Hps Hpre.
  intros H1 H2 HU Ep Es El Est Enp. unfold alloc_extend_kernel. rewrite Ep, Es, El.
  pose proof (lanes_sum (fun x => x) fill U seq_lens pre_lens pid H2 H1 HU) as Hs1.
  rewrite take_S_sum in Hs1 by done. rewrite !list_fmap_id, Es, Ep, Est in Hs1. rewrite Hs1. clear Hs1.
  rewrite (lanes_sum (ceil_pages ps)), take_S_sum, Es, Ep, Enp by done.
  replace (start + (sq - pre) - (sq - pre)) with start by lia.
  replace (np + (ceil_pages ps sq - ceil_pages ps pre) - (ceil_pages ps sq - ceil_pages ps pre)) with np by lia.
  pose proof (ceil_bounds pre) as Hb.
  assert (Hw : forall n (f : Z -> Z * Z), 0 <= n <= ps ->
    f <$> base.filter (fun o => o < n) (arange 0 (Z.to_nat ps)) = f <$> arange 0 (Z.to_nat n)).
  { intros n f Hn. rewrite filter_arange_lt, Z.sub_0_r, Nat.min_l by lia. done. }
  destruct (Z.le_gt_cases sq (ceil_pages ps pre * ps)) as [Hle|Hgt].
  { rewrite Z.min_l by lia. rewrite Hw by lia. rewrite layout_within by done.
    by rewrite (proj2 (Z.eqb_eq _ _)) by lia. }
  rewrite Z.min_r by lia. set (n1 := ceil_pages ps pre * ps - pre).
  set (n3 := sq - sq / ps * ps).
  destruct (layout_parts n1 ((sq / ps - ceil_pages ps pre) * ps) n3 Hgt eq_refl eq_refl eq_refl) as (-> & Hn1 & Hn2 & Hn3).
  replace (sq / ps * ps - ceil_pages ps pre * ps) with ((sq / ps - ceil_pages ps pre) * ps) by lia.
  set (n2 := (sq / ps - ceil_pages ps pre) * ps) in *.
  pose proof (ceil_le_floor pre sq ltac:(lia)) as Hf. pose proof (ceil_floor sq) as Hcf.
  pose proof (Z.div_mod sq ps ltac:(lia)).
  rewrite !Hw, (proj2 (Z.eqb_neq (pre + n1) sq)), block_offsets_eq by lia.
  destruct (Z.eqb_spec (pre + n1 + n2) sq) as [E|E].
  { assert (n3 = 0) as -> by lia. unfold part3. simpl. by rewrite app_nil_r. }
  unfold part1, part2, part3. do 2 f_equal. apply list_fmap_ext. intros i o _.
  assert (sq mod ps <> 0) by lia. rewrite (proj2 (Z.eqb_neq (sq mod ps) 0)) in Hcf by done.
  f_equal; [lia|]. do 3 f_equal. lia.
Qed.

End req.

(** ** A batch of requests *)

Section batch.
Context (ps : Z) (Hps : 0 < ps).

Definition new_pages (pre_lens seq_lens : list Z) : Z :=
  Zsum (zip_with Z.sub (ceil_pages ps <$> seq_lens) (ceil_pages ps <$> pre_lens)).

Definition new_tokens (pre_lens seq_lens : list Z) : Z := Zsum (zip_with Z.sub seq_lens pre_lens).

(** Requests never shrink. *)
Definition extends (pre_lens seq_lens : list Z) : Prop := Forall2 (fun p s => 0 <= p <= s) pre_lens seq_lens.

(** The slots of all new tokens of a batch, request by request. *)
Fixpoint batch_slots (fp : list Z) (pre_lens seq_lens last_loc : list Z) (np : Z) : list Z :=
  match pre_lens, seq_lens, last_loc with
  | p :: pre_lens, s :: seq_lens, l :: last_loc =>
      extend_slots ps fp p s l np ++
      batch_slots fp pre_lens seq_lens last_loc (np + (ceil_pages ps s - ceil_pages ps p))
  | _, _, _ => []
  end.

Lemma extends_sums pres seqs i :
  extends pres seqs -> 0 <= new_pages (take i pres) (take i seqs) <= new_pages pres seqs /\
  0 <= new_tokens (take i pres) (take i seqs) <= new_tokens pres seqs.
Proof using Hps.
  intros He. revert i. induction He as [|p s pres seqs Hp He IH]; intros i.
  { rewrite !take_nil. unfold new_pages, new_tokens, Zsum. simpl. lia. }
  unfold new_pages, new_tokens, Zsum in *. pose proof (ceil_mono ps Hps p s ltac:(lia)).
  destruct i as [|i]; csimpl.
  - specialize (IH 0%nat). rewrite !take_0 in IH. csimpl in IH. lia.
  - specialize (IH i). lia.
Qed.

Lemma naive_loop_index pres seqs lasts fp sp np :
  length seqs = length pres -> length lasts = length pres ->
  alloc_extend_naive_loop ps pres seqs lasts fp sp np =
  seq 0 (length pres) ≫= fun i =>
    alloc_extend_naive_req ps (pres !!! i) (seqs !!! i) (lasts !!! i) fp
      (sp + new_tokens (take i pres) (take i seqs)) (np + new_pages (take i pres) (take i seqs)).
Proof using.
  revert seqs lasts sp np. induction pres as [|p pres IH]; intros [|s seqs] [|l lasts] sp np Hs Hl; simpl in *; try done.
  f_equal.
  - f_equal; unfold new_tokens, new_pages, Zsum; simpl; lia.
  - rewrite IH by lia. rewrite <- fmap_S_seq, list_fmap_bind. apply list_bind_ext; [|done].
    intros i. simpl. f_equal; unfold new_tokens, new_pages, Zsum; csimpl; lia.
Qed.

(** The kernel grid writes what the reference writes. *)
Lemma kernel_grid_naive fill U pres seqs lasts fp :
  length lasts = length pres -> extends pres seqs -> (length pres <= U)%nat ->
  new_pages pres seqs <= Z.of_nat (length fp) ->
  seq 0 (length pres) ≫= alloc_extend_kernel ps fill U pres seqs lasts fp =
  alloc_extend_naive_loop ps pres seqs lasts fp 0 0.
Proof using Hps.
  intros Hl He HU Hfp. pose proof (Forall2_length _ _ _ He) as Hlen.
  rewrite naive_loop_index by done.
  assert (Heq : forall i, i ∈ seq 0 (length pres) ->
    alloc_extend_kernel ps fill U pres seqs lasts fp i =
    alloc_extend_naive_req ps (pres !!! i) (seqs !!! i) (lasts !!! i) fp
      (0 + new_tokens (take i pres) (take i seqs)) (0 + new_pages (take i pres) (take i seqs))).
  { intros i Hi%elem_of_seq. destruct (lookup_lt_is_Some_2 pres i) as [p Hp]; [lia|].
    destruct (Forall2_lookup_l _ _ _ _ _ He Hp) as (s & Hs & Hps').
    rewrite (list_lookup_total_correct _ _ _ Hp), (list_lookup_total_correct _ _ _ Hs).
    destruct (extends_sums pres seqs (S i) He) as [Hn1 _]. destruct (extends_sums pres seqs i He) as [Hn2 _].
    unfold new_pages in Hn1. rewrite take_S_sum in Hn1 by lia.
    rewrite (list_lookup_total_correct _ _ _ Hp), (list_lookup_total_correct _ _ _ Hs) in Hn1.
    rewrite naive_req_layout; [|done|done|lia|unfold new_pages in *; lia].
    apply kernel_layout; try done; try lia; by apply list_lookup_total_correct. }
  clear -Heq. induction (seq 0 (length pres)) as [|i l IH]; csimpl; [done|].
  rewrite Heq by set_solver. f_equal. apply IH. intros. apply Heq. set_solver.
Qed.

Lemma apply_writes_app out w1 w2 : apply_writes out (w1 ++ w2) = apply_writes (apply_writes out w1) w2.
Proof using. unfold apply_writes. by rewrite foldl_app. Qed.

Lemma apply_writes_range out start (f : Z -> Z) n :
  0 <= start -> (Z.to_nat start + n <= length out)%nat ->
  apply_writes out ((fun o => (start + o, f o)) <$> arange 0 n) =
  take (Z.to_nat start) out ++ (f <$> arange 0 n) ++ drop (Z.to_nat start + n) out.
Proof using.
  intros Hs. induction n as [|n IH]; intros Hl.
  { simpl. rewrite Nat.add_0_r, take_drop. done. }
  assert (Hr : arange 0 (S n) = arange 0 n ++ [Z.of_nat n]).
  { unfold arange. by rewrite seq_S, fmap_app. }
  rewrite Hr, !fmap_app, apply_writes_app, IH by lia. unfold apply_writes. simpl.
  replace (Z.to_nat (start + Z.of_nat n)) with (Z.to_nat start + n)%nat by lia.
  assert (Hd : exists x, drop (Z.to_nat start + n) out = x :: drop (Z.to_nat start + S n) out).
  { destruct (lookup_lt_is_Some_2 out (Z.to_nat start + n)) as [x Hx]; [lia|]. exists x.
    rewrite (drop_S _ _ _ Hx). f_equal. f_equal. lia. }
  destruct Hd as [x ->]. rewrite app_assoc, <- app_assoc. rewrite app_assoc.
  rewrite insert_app_r_alt by (rewrite length_app, length_take, length_fmap, length_arange; lia).
  rewrite length_app, length_take, length_fmap, length_arange.
  replace (Z.to_nat start + n - (Z.to_nat start `min` length out + n))%nat with 0%nat by lia. simpl.
  by rewrite <- !app_assoc.
Qed.

Lemma length_extend_slots fp p s l np : length (extend_slots ps fp p s l np) = Z.to_nat (s - p).
Proof using. unfold extend_slots. by rewrite length_fmap, length_arange. Qed.

Lemma naive_writes pres seqs lasts fp start np out :
  length lasts = length pres -> extends pres seqs -> 0 <= start -> 0 <= np ->
  np + new_pages pres seqs <= Z.of_nat (length fp) ->
  start + new_tokens pres seqs <= Z.of_nat (length out) ->
  apply_writes out (alloc_extend_naive_loop ps pres seqs lasts fp start np) =
  take (Z.to_nat start) out ++ batch_slots fp pres seqs lasts np ++
  drop (Z.to_nat (start + new_tokens pres seqs)) out.
Proof using Hps.
  intros Hl He. revert lasts start np out Hl.
  induction He as [|p s pres seqs Hp He IH]; intros [|l lasts] start np out Hl Hs Hnp Hfp Hout; simpl in *; try lia.
  { unfold new_tokens, Zsum. simpl. by rewrite Z.add_0_r, take_drop. }
  destruct (extends_sums pres seqs 0 He) as [Hn1 Hn2]. pose proof (ceil_mono ps Hps p s ltac:(lia)).
  assert (E1 : new_tokens (p :: pres) (s :: seqs) = (s - p) + new_tokens pres seqs) by done.
  assert (E2 : new_pages (p :: pres) (s :: seqs) = (ceil_pages ps s - ceil_pages ps p) + new_pages pres seqs) by done.
  rewrite E1, E2 in *. rewrite apply_writes_app, (naive_req_layout ps Hps) by lia. unfold req_layout.
  rewrite apply_writes_range by lia. fold (extend_slots ps fp p s l np).
  set (es := extend_slots ps fp p s l np). assert (Hes : length es = Z.to_nat (s - p)) by apply length_extend_slots.
  rewrite IH; [|lia|lia|lia|lia|rewrite !length_app, length_take, length_drop; lia].
  rewrite (take_app_ge (take _ out)) by (rewrite length_take; lia). rewrite take_app_le by (rewrite length_take; lia).
  rewrite (take_ge es) by (rewrite length_take; lia). rewrite <- !app_assoc. do 2 f_equal. f_equal.
  rewrite drop_app_ge by (rewrite length_take; lia). rewrite drop_app_ge by (rewrite length_take; lia).
  rewrite drop_drop. f_equal. rewrite length_take, Hes. lia.
Qed.

(** ** No slot is handed out twice *)

(** The last slot of a request lies where its length says. *)
Definition last_ok (p l : Z) : Prop := l mod ps = (p - 1) mod ps.

(** The request still has room in its last page. *)
Definition partial (p : Z) : Prop := p mod ps <> 0.

(** A slot's page: the request's last page, or one of its new pages. *)
Lemma token_slot_page fp p s l np o :
  0 <= p -> last_ok p l -> 0 <= o < s - p ->
  token_slot ps fp p l np o mod ps = (p + o) mod ps /\
  ((partial p /\ (p + o) / ps < ceil_pages ps p /\ token_slot ps fp p l np o / ps = l / ps) \/
   (ceil_pages ps p <= (p + o) / ps < ceil_pages ps s /\
    token_slot ps fp p l np o / ps = fp !!! Z.to_nat (np + ((p + o) / ps - ceil_pages ps p)))).
Proof using Hps.
  intros Hp Hl Ho. unfold token_slot. pose proof (ceil_bounds ps Hps p) as Hc. pose proof (ceil_bounds ps Hps s) as Hcs.
  pose proof (Z.div_mod (p + o) ps ltac:(lia)). pose proof (Z.mod_pos_bound (p + o) ps Hps).
  destruct (Z.ltb_spec (p + o) (ceil_pages ps p * ps)) as [Hlt|Hge].
  - assert (partial p) as Hpar.
    { intros E. pose proof (ceil_floor ps Hps p) as Hf. rewrite (proj2 (Z.eqb_eq _ _) E) in Hf.
      pose proof (Z.div_mod p ps ltac:(lia)). nia. }
    assert (Hq : l = l / ps * ps + (p mod ps - 1)).
    { pose proof (Z.div_mod l ps ltac:(lia)) as Hdl. unfold last_ok in Hl. rewrite Hl in Hdl.
      assert ((p - 1) mod ps = p mod ps - 1) as Em; [|lia]. symmetry. apply (Z.mod_unique _ _ (p / ps)).
      - left. pose proof (Z.mod_pos_bound p ps Hps). unfold partial in Hpar. lia.
      - pose proof (Z.div_mod p ps ltac:(lia)). lia. }
    assert (Hd : (p + o) / ps = p / ps).
    { pose proof (ceil_floor ps Hps p) as Hf. rewrite (proj2 (Z.eqb_neq _ _) Hpar) in Hf.
      apply Z.le_antisymm; [|apply Z.div_le_mono; lia]. apply Z.lt_succ_r, Z.div_lt_upper_bound; nia. }
    assert (Hm : (p + o) mod ps = p mod ps + o) by (pose proof (Z.div_mod p ps ltac:(lia)); nia).
    replace (l + 1 + o) with ((p + o) mod ps + l / ps * ps) by lia.
    rewrite Z.mod_add, Z.mod_mod, Z.div_add, (Z.div_small ((p + o) mod ps)) by lia.
    split; [done|]. left. split; [done|]. split; [nia|lia].
  - rewrite Z.add_comm, Z.mod_add, Z.mod_mod, Z.div_add, (Z.div_small ((p + o) mod ps)) by lia.
    split; [done|]. right. split; [nia|lia].
Qed.

Lemma extend_slots_nodup fp p s l np :
  0 <= p <= s -> last_ok p l -> 0 <= np -> np + (ceil_pages ps s - ceil_pages ps p) <= Z.of_nat (length fp) ->
  NoDup fp -> (partial p -> l / ps ∉ fp) -> NoDup (extend_slots ps fp p s l np).
Proof using Hps.
  intros Hp Hl Hnp Hfp Hnd Hnot. unfold extend_slots.
  apply NoDup_fmap_2_strong; [|apply NoDup_arange]. intros o1 o2 H1%elem_of_arange H2%elem_of_arange E.
  destruct (token_slot_page fp p s l np o1) as [M1 D1]; [lia|done|lia|].
  destruct (token_slot_page fp p s l np o2) as [M2 D2]; [lia|done|lia|]. rewrite E in *.
  assert (Hin : forall q, ceil_pages ps p <= q < ceil_pages ps s ->
    fp !! Z.to_nat (np + (q - ceil_pages ps p)) = Some (fp !!! Z.to_nat (np + (q - ceil_pages ps p)))).
  { intros q Hq. apply list_lookup_lookup_total_lt. lia. }
  assert (Hno : forall q, partial p -> ceil_pages ps p <= q < ceil_pages ps s ->
    fp !!! Z.to_nat (np + (q - ceil_pages ps p)) <> l / ps).
  { intros q Hpar Hq Eq. apply (Hnot Hpar). rewrite <- Eq. by eapply list_elem_of_lookup_2, Hin. }
  assert (Hd : (p + o1) / ps = (p + o2) / ps).
  { pose proof (ceil_floor ps Hps p) as Hf. pose proof (Z.div_le_mono p (p + o1) ps Hps ltac:(lia)).
    pose proof (Z.div_le_mono p (p + o2) ps Hps ltac:(lia)).
    destruct D1 as [(Hpar & Hb1 & E1)|(Hb1 & E1)], D2 as [(Hpar2 & Hb2 & E2)|(Hb2 & E2)].
    - rewrite (proj2 (Z.eqb_neq _ _) Hpar) in Hf. lia.
    - exfalso. apply (Hno _ Hpar Hb2). congruence.
    - exfalso. apply (Hno _ Hpar2 Hb1). congruence.
    - pose proof (Hin _ Hb1) as I1. pose proof (Hin _ Hb2) as I2. rewrite <- E1 in I1. rewrite <- E2 in I2.
      pose proof (NoDup_lookup _ _ _ _ Hnd I1 I2). lia. }
  pose proof (Z.div_mod (p + o1) ps ltac:(lia)). pose proof (Z.div_mod (p + o2) ps ltac:(lia)). nia.
Qed.

(** Where the slots of a batch lie. *)
Lemma batch_slots_page fp pres seqs lasts np x :
  extends pres seqs -> Forall2 last_ok pres lasts -> x ∈ batch_slots fp pres seqs lasts np ->
  (exists i p l, pres !! i = Some p /\ lasts !! i = Some l /\ partial p /\ x / ps = l / ps) \/
  (exists q, np <= q < np + new_pages pres seqs /\ x / ps = fp !!! Z.to_nat q).
Proof using Hps.
  intros He. revert lasts np. induction He as [|p s pres seqs Hp He IH]; intros lasts np Hl Hx; [by apply elem_of_nil in Hx|].
  inversion Hl as [|? l ? lasts' Hl1 Hl2]; subst. simpl in Hx. apply elem_of_app in Hx as [Hx|Hx].
  - unfold extend_slots in Hx. apply list_elem_of_fmap in Hx as (o & -> & Ho%elem_of_arange).
    destruct (extends_sums pres seqs 0 He) as [Hn _].
    assert (E2 : new_pages (p :: pres) (s :: seqs) = (ceil_pages ps s - ceil_pages ps p) + new_pages pres seqs) by done.
    destruct (token_slot_page fp p s l np o) as [_ [(Hpar & _ & E)|(Hb & E)]]; [lia|done|lia|..].
    + left. exists 0%nat, p, l. done.
    + right. eexists. split; [|exact E]. lia.
  - destruct (IH lasts' _ Hl2 Hx) as [(i & p' & l' & ? & ? & ? & ?)|(q & Hq & E)].
    + left. by exists (S i), p', l'.
    + right. exists q. split; [|done]. pose proof (ceil_mono ps Hps p s ltac:(lia)).
      assert (E2 : new_pages (p :: pres) (s :: seqs) = (ceil_pages ps s - ceil_pages ps p) + new_pages pres seqs) by done. lia.
Qed.

Lemma batch_slots_nodup fp pres seqs lasts np :
  extends pres seqs -> Forall2 last_ok pres lasts -> 0 <= np ->
  np + new_pages pres seqs <= Z.of_nat (length fp) -> NoDup fp ->
  (forall i p l, pres !! i = Some p -> lasts !! i = Some l -> partial p -> l / ps ∉ fp) ->
  (forall i j p p' l l', pres !! i = Some p -> lasts !! i = Some l -> partial p ->
     pres !! j = Some p' -> lasts !! j = Some l' -> partial p' -> l / ps = l' / ps -> i = j) ->
  NoDup (batch_slots fp pres seqs lasts np).
Proof using Hps.
  intros He. revert lasts np. induction He as [|p s pres seqs Hp He IH]; intros lasts np Hl Hnp Hfp Hnd Hnot Hinj; [constructor|].
  inversion Hl as [|? l ? lasts' Hl1 Hl2]; subst. simpl. destruct (extends_sums pres seqs 0 He) as [Hn _].
  assert (E2 : new_pages (p :: pres) (s :: seqs) = (ceil_pages ps s - ceil_pages ps p) + new_pages pres seqs) by done.
  pose proof (ceil_mono ps Hps p s ltac:(lia)).
  apply NoDup_app. split; [|split].
  - apply extend_slots_nodup; [done|done|done|lia|done|]. by apply (Hnot 0%nat).
  - intros x Hx Hx'. unfold extend_slots in Hx. apply list_elem_of_fmap in Hx as (o & -> & Ho%elem_of_arange).
    apply batch_slots_page in Hx' as Hx''; [|done..].
    destruct (token_slot_page fp p s l np o) as [_ D]; [lia|done|lia|].
    assert (Hlk : forall q, 0 <= q < Z.of_nat (length fp) -> fp !! Z.to_nat q = Some (fp !!! Z.to_nat q)).
    { intros q Hq. apply list_lookup_lookup_total_lt. lia. }
    destruct D as [(Hpar & _ & E)|(Hb & E)], Hx'' as [(i & p' & l' & Hi1 & Hi2 & Hpar' & E')|(q & Hq & E')].
    + assert (0%nat = S i); [|done]. apply (Hinj 0%nat (S i) p p' l l'); try done. congruence.
    + apply (Hnot 0%nat p l eq_refl eq_refl Hpar). rewrite <- E, E'. eapply list_elem_of_lookup_2, Hlk. lia.
    + apply (Hnot (S i) p' l' Hi1 Hi2 Hpar'). rewrite <- E', E. eapply list_elem_of_lookup_2, Hlk. lia.
    + rewrite E in E'. pose proof (Hlk q ltac:(lia)) as I1.
      pose proof (Hlk (np + ((p + o) / ps - ceil_pages ps p)) ltac:(lia)) as I2. rewrite <- E' in I1.
      pose proof (NoDup_lookup _ _ _ _ Hnd I1 I2). lia.
  - apply IH; try done; [lia|lia|..].
    + intros i p' l' Hi1 Hi2. by apply (Hnot (S i)).
    + intros i j p1 p2 l1 l2 A1 A2 A3 B1 B2 B3 E. by injection (Hinj (S i) (S j) p1 p2 l1 l2 A1 A2 A3 B1 B2 B3 E).
Qed.

End batch.

(** ** The allocation operations *)

Section ops.
Context (a : Allocator) (outp : list Z) (I : pg_inv a outp) (Hdebug : debug_mode a = false).

Lemma zdiv_sum_le pres seqs ps :
  0 < ps -> extends pres seqs ->
  new_pages ps pres seqs <= new_tokens pres seqs / ps + Z.of_nat (length pres).
Proof using.
  intros Hps He. assert (Hst : forall p s, 0 <= p <= s -> (ceil_pages ps s - ceil_pages ps p) * ps <= s - p + (ps - 1)).
  { intros p s Hp. pose proof (ceil_bounds ps Hps p). pose proof (ceil_bounds ps Hps s). lia. }
  assert (Hsum : new_pages ps pres seqs * ps <= new_tokens pres seqs + Z.of_nat (length pres) * (ps - 1)).
  { induction He as [|p s pres seqs Hp He IH]; [unfold new_pages, new_tokens, Zsum; simpl; lia|].
    specialize (Hst p s Hp). unfold new_pages, new_tokens, Zsum in *. csimpl. nia. }
  pose proof (Z.div_mod (new_tokens pres seqs) ps ltac:(lia)).
  pose proof (Z.mod_pos_bound (new_tokens pres seqs) ps Hps).
  assert (new_pages ps pres seqs * ps < (new_tokens pres seqs / ps + Z.of_nat (length pres) + 1) * ps) by nia.
  apply Z.lt_succ_r. nia.
Qed.

(** Sorting in released pages when the free list is short. *)
Lemma refill_run (cond : bool) need :
  (cond = false -> need_sort a = true -> need <= Z.of_nat (length (free_pages a))) ->
  let a1 := if need_sort a && cond then merge_and_sort_free a else a in
  pg_inv a1 outp /\ al_fixed a1 = al_fixed a /\ base_available_size a1 = base_available_size a /\
  (Z.of_nat (length (free_pages a1)) < need -> release_pages a1 = []).
Proof using I.
  intros Hc. destruct (need_sort a) eqn:En; simpl.
  2: { do 3 (split; [done|]). intros _. by apply (pi_sort _ _ I). }
  destruct cond.
  - destruct (pg_merge_inv a outp I) as [J Ja]. destruct (merge_fixed a) as (Ef & _).
    destruct (merge_frees a) as [_ Hr]. done.
  - do 3 (split; [done|]). specialize (Hc eq_refl eq_refl). lia.
Qed.

(** Taking the first [n] free pages. *)
Lemma take_pages_inv a1 n :
  pg_inv a1 outp -> pg_inv (set_free_pages (drop n (free_pages a1)) a1) (take n (free_pages a1) ++ outp).
Proof using.
  intros [(grp & J1 & J2 & J3) Jps J5]. split; simpl; try done. exists grp. split; [|done].
  rewrite <- J1. rewrite <- (take_drop n (free_pages a1)) at 3. solve_Permutation.
Qed.

(** What a batch allocation returns: the laid-out slots and the pages they
    come from, or nothing because there are too few pages. *)
Definition batch_result (pres seqs lasts : list Z) (a' : Allocator) (r : option (list Z)) : Prop :=
  let ps := al_page_size a in
  al_fixed a' = al_fixed a /\
  match r with
  | Some out => exists fp, out = batch_slots ps fp pres seqs lasts 0 /\ NoDup fp /\
      (forall p, p ∈ fp -> p ∉ outp) /\ new_pages ps pres seqs <= Z.of_nat (length fp) /\
      pg_inv a' (take (Z.to_nat (new_pages ps pres seqs)) fp ++ outp) /\
      base_available_size a' = base_available_size a - new_pages ps pres seqs * ps
  | None => pg_inv a' outp /\ base_available_size a' = base_available_size a /\
      base_available_size a < new_pages ps pres seqs * ps
  end.

Lemma batch_result_intro a1 pres seqs lasts out n :
  pg_inv a1 outp -> al_fixed a1 = al_fixed a -> base_available_size a1 = base_available_size a ->
  extends pres seqs -> n = new_pages (al_page_size a) pres seqs ->
  (Z.of_nat (length (free_pages a1)) < n -> release_pages a1 = []) ->
  (n <= Z.of_nat (length (free_pages a1)) -> out = batch_slots (al_page_size a) (free_pages a1) pres seqs lasts 0) ->
  exists a' r, (if Z.of_nat (length (free_pages a1)) <? n then Ok (a1, None)
    else Ok (set_free_pages (drop (Z.to_nat n) (free_pages a1)) a1, Some out)) = Ok (a', r) /\
    batch_result pres seqs lasts a' r.
Proof using I.
  intros J Jf Ja He -> Jr Hout. pose proof (pi_ps _ _ I) as Hps. injection Jf as E1 E2 E3 E4 E5.
  destruct (extends_sums _ Hps pres seqs 0 He) as [Hn _].
  destruct (Z.ltb_spec (Z.of_nat (length (free_pages a1))) (new_pages (al_page_size a) pres seqs)) as [Hl|Hl].
  - eexists _, None. split; [done|]. split; [unfold al_fixed; congruence|]. split; [done|]. split; [done|].
    rewrite <- Ja. unfold base_available_size. rewrite (Jr Hl), E2. simpl. nia.
  - eexists _, (Some _). split; [done|]. split; [unfold al_fixed; simpl; congruence|].
    exists (free_pages a1). split; [by apply Hout|]. destruct (pg_inv_nodup _ _ J) as [Hnd _].
    split; [done|]. split.
    { intros p Hp Hpo. destruct (pi_pages _ _ J) as (grp & Hpm & _).
      assert (NoDup (free_pages a1 ++ release_pages a1 ++ grp ++ outp)) as Hn'.
      { rewrite Hpm. apply NoDup_arange. }
      apply NoDup_app in Hn' as (_ & Hdis & _). apply (Hdis p Hp). rewrite !elem_of_app. auto. }
    split; [done|]. split; [by apply take_pages_inv|].
    rewrite <- Ja. unfold base_available_size. simpl. rewrite length_drop, E2. nia.
Qed.

Lemma alloc_extend_run fill uninit pres seqs lasts n npages :
  length lasts = length pres -> extends pres seqs -> n = new_tokens pres seqs ->
  Z.of_nat (length uninit) = n ->
  (forall k, npages = Some k -> k = new_pages (al_page_size a) pres seqs) ->
  exists a' r, Paged.alloc_extend fill uninit a pres seqs lasts n npages = Ok (a', r) /\
    batch_result pres seqs lasts a' r.
Proof using I Hdebug.
  intros Hl He -> Hu Hk. pose proof (pi_ps _ _ I) as Hps. unfold Paged.alloc_extend. rewrite Hdebug. bind_step.
  pose proof (zdiv_sum_le pres seqs (al_page_size a) Hps He) as Hle.
  set (cond := Z.of_nat (length (free_pages a)) <? _).
  destruct (refill_run cond (new_pages (al_page_size a) pres seqs)) as (J & Jf & Ja & Jr).
  { unfold cond. intros Hc%Z.ltb_ge _. lia. }
  set (a1 := if need_sort a && cond then merge_and_sort_free a else a) in *. clearbody a1.
  assert (debug_mode a1 = false) as -> by (injection Jf; congruence). bind_step.
  assert (match npages with Some n => Ok n | None => get_num_new_pages (al_page_size a) seqs (Some pres) false end
    = Ok (new_pages (al_page_size a) pres seqs)) as ->.
  { destruct npages as [k|]; [by rewrite (Hk k eq_refl)|done]. }
  bind_step. eapply batch_result_intro; try done. intros Hfp.
  rewrite (kernel_grid_naive _ Hps) by (done || apply next_power_of_2_ge).
  rewrite (naive_writes _ Hps) by (done || lia). simpl. rewrite drop_ge by lia. by rewrite app_nil_r.
Qed.

(** ** Decoding is extending by one token *)

Lemma decode_new_page ps s :
  1 < ps -> ceil_pages ps s - ceil_pages ps (s - 1) = if s mod ps =? 1 then 1 else 0.
Proof using.
  intros Hps. rewrite !ceil_floor by lia. pose proof (Z.div_mod s ps ltac:(lia)). pose proof (Z.mod_pos_bound s ps ltac:(lia)).
  destruct (Z.eqb_spec (s mod ps) 0) as [E|E].
  - assert ((s - 1) / ps = s / ps - 1 /\ (s - 1) mod ps = ps - 1) as [-> ->].
    { split; [symmetry; apply (Z.div_unique _ _ _ (ps - 1)); lia|symmetry; apply (Z.mod_unique _ _ (s / ps - 1)); lia]. }
    rewrite (proj2 (Z.eqb_neq (ps - 1) 0)), (proj2 (Z.eqb_neq (s mod ps) 1)) by lia. lia.
  - assert ((s - 1) / ps = s / ps /\ (s - 1) mod ps = s mod ps - 1) as [-> ->].
    { split; [symmetry; apply (Z.div_unique _ _ _ (s mod ps - 1)); lia|symmetry; apply (Z.mod_unique _ _ (s / ps)); lia]. }
    destruct (Z.eqb_spec (s mod ps - 1) 0), (Z.eqb_spec (s mod ps) 1); lia.
Qed.

Lemma decode_num_pages ps seqs :
  1 < ps -> get_num_new_pages ps seqs None true = Ok (new_pages ps (Z.pred <$> seqs) seqs).
Proof using.
  intros Hps. unfold get_num_new_pages, new_pages. simpl. f_equal. f_equal.
  induction seqs as [|s seqs IH]; csimpl; [done|]. rewrite IH. f_equal. symmetry. by apply decode_new_page.
Qed.

Lemma pred_lookup (l : list Z) i : (i < length l)%nat -> (Z.pred <$> l) !!! i = Z.pred (l !!! i).
Proof using.
  intros Hi. destruct (lookup_lt_is_Some_2 _ _ Hi) as [x Hx]. rewrite (list_lookup_total_correct _ _ _ Hx).
  apply list_lookup_total_correct. by rewrite list_lookup_fmap, Hx.
Qed.

Lemma decode_lanes ps fill U seqs pid :
  (pid < length seqs)%nat -> (pid < U)%nat ->
  let lanes := load_lanes fill U seqs pid in
  Zsum (zip_with Z.sub (ceil_pages ps <$> lanes)
    (ceil_pages ps <$> zip_with (fun j s => if (j <=? pid)%nat then s - 1 else s) (seq 0 U) lanes)) =
  new_pages ps (take (S pid) (Z.pred <$> seqs)) (take (S pid) seqs).
Proof using.
  intros Hl HU lanes.
  assert (zip_with (fun j s => if (j <=? pid)%nat then s - 1 else s) (seq 0 U) lanes =
    load_lanes fill U (Z.pred <$> seqs) pid) as ->.
  { unfold lanes, load_lanes. apply list_eq. intros j. rewrite lookup_zip_with, !list_lookup_fmap.
    destruct (decide (j < U)%nat) as [Hj|Hj]; [|by rewrite lookup_seq_ge by lia].
    rewrite lookup_seq_lt by done. simpl. destruct (Nat.leb_spec j pid); [|done].
    rewrite pred_lookup by lia. done. }
  unfold lanes, new_pages. apply lanes_sum; [done|by rewrite length_fmap|done].
Qed.

Lemma new_tokens_pred seqs i : (i <= length seqs)%nat -> new_tokens (take i (Z.pred <$> seqs)) (take i seqs) = Z.of_nat i.
Proof using.
  revert i. unfold new_tokens, Zsum. induction seqs as [|s seqs IH]; intros [|i] Hi; csimpl in *; try lia.
  rewrite IH by lia. lia.
Qed.

(** A decode program writes the one slot of its request. *)
Lemma decode_kernel_layout ps fill U seqs lasts fp pid s :
  1 < ps -> (pid < U)%nat -> seqs !! pid = Some s -> 0 < s ->
  alloc_decode_kernel ps fill U seqs lasts fp pid =
  req_layout ps fp (s - 1) s (lasts !!! pid) (Z.of_nat pid) (new_pages ps (take pid (Z.pred <$> seqs)) (take pid seqs)).
Proof using.
  intros Hps HU Hs Hpos. pose proof (lookup_lt_Some _ _ _ Hs) as Hl. unfold alloc_decode_kernel.
  rewrite decode_lanes by done. rewrite (list_lookup_total_correct _ _ _ Hs).
  unfold new_pages at 1. rewrite take_S_sum by (rewrite ?length_fmap; done).
  rewrite pred_lookup, (list_lookup_total_correct _ _ _ Hs) by done. change (Z.pred s) with (s - 1).
  fold (new_pages ps (take pid (Z.pred <$> seqs)) (take pid seqs)).
  set (np := new_pages _ _ _).
  replace (np + (ceil_pages ps s - ceil_pages ps (s - 1)) - (ceil_pages ps s - ceil_pages ps (s - 1))) with np by lia.
  unfold req_layout. replace (s - (s - 1)) with 1 by lia. change (arange 0 (Z.to_nat 1)) with [0]. csimpl.
  rewrite Z.add_0_r. unfold token_slot. rewrite Z.add_0_r. pose proof (decode_new_page ps s Hps) as Hd.
  pose proof (ceil_bounds ps ltac:(lia) (s - 1)) as Hb. pose proof (ceil_bounds ps ltac:(lia) s).
  pose proof (ceil_floor ps ltac:(lia) (s - 1)) as Hcf. pose proof (Z.div_mod (s - 1) ps ltac:(lia)).
  destruct (Z.eqb_spec (ceil_pages ps s - ceil_pages ps (s - 1)) 0) as [E|E].
  - rewrite (proj2 (Z.ltb_lt _ _)) by nia. do 2 f_equal. lia.
  - destruct (Z.eqb_spec (s mod ps) 1) as [E1|]; [|lia].
    assert (E0 : (s - 1) mod ps = 0).
    { symmetry. apply (Z.mod_unique _ _ (s / ps)); [lia|]. pose proof (Z.div_mod s ps ltac:(lia)). lia. }
    rewrite E0 in Hcf. rewrite (proj2 (Z.eqb_eq 0 0) eq_refl) in Hcf. rewrite E0 in *.
    rewrite (proj2 (Z.ltb_ge _ _)) by nia. rewrite Z.add_0_r.
    replace (np + ((s - 1) / ps - ceil_pages ps (s - 1))) with np by lia. done.
Qed.

Lemma decode_grid_naive ps fill U seqs lasts fp :
  1 < ps -> length lasts = length seqs -> Forall (fun s => 0 < s) seqs -> (length seqs <= U)%nat ->
  new_pages ps (Z.pred <$> seqs) seqs <= Z.of_nat (length fp) ->
  seq 0 (length seqs) ≫= alloc_decode_kernel ps fill U seqs lasts fp =
  alloc_extend_naive_loop ps (Z.pred <$> seqs) seqs lasts fp 0 0.
Proof using.
  intros Hps Hl Hpos HU Hfp.
  assert (He : extends (Z.pred <$> seqs) seqs).
  { unfold extends. apply Forall2_fmap_l, Forall_Forall2_diag. eapply Forall_impl; [exact Hpos|]. simpl. lia. }
  rewrite naive_loop_index by (rewrite length_fmap; done). rewrite length_fmap.
  assert (Heq : forall i, i ∈ seq 0 (length seqs) -> alloc_decode_kernel ps fill U seqs lasts fp i =
    alloc_extend_naive_req ps ((Z.pred <$> seqs) !!! i) (seqs !!! i) (lasts !!! i) fp
      (0 + new_tokens (take i (Z.pred <$> seqs)) (take i seqs))
      (0 + new_pages ps (take i (Z.pred <$> seqs)) (take i seqs))).
  { intros i Hi%elem_of_seq. destruct (lookup_lt_is_Some_2 seqs i) as [s Hs]; [lia|].
    pose proof (proj1 (Forall_lookup _ _) Hpos i s Hs) as Hp. simpl in Hp.
    rewrite (decode_kernel_layout ps fill U seqs lasts fp i s) by (done || lia).
    rewrite pred_lookup, (list_lookup_total_correct _ _ _ Hs), new_tokens_pred by lia.
    destruct (extends_sums ps ltac:(lia) (Z.pred <$> seqs) seqs (S i) He) as [Hn1 _].
    destruct (extends_sums ps ltac:(lia) (Z.pred <$> seqs) seqs i He) as [Hn2 _].
    unfold new_pages in Hn1 at 1 2. rewrite take_S_sum in Hn1 by (rewrite ?length_fmap; lia).
    rewrite pred_lookup, (list_lookup_total_correct _ _ _ Hs) in Hn1 by lia.
    rewrite naive_req_layout; [done|lia|lia|lia|]. unfold new_pages in *. lia. }
  clear -Heq. induction (seq 0 (length seqs)) as [|i l IH]; csimpl; [done|].
  rewrite Heq by set_solver. f_equal. apply IH. intros. apply Heq. set_solver.
Qed.

Lemma alloc_decode_run fill uninit seqs lasts :
  1 < al_page_size a -> length lasts = length seqs -> Forall (fun s => 0 < s) seqs ->
  length uninit = length seqs ->
  exists a' r, Paged.alloc_decode fill uninit a seqs lasts = Ok (a', r) /\
    batch_result (Z.pred <$> seqs) seqs lasts a' r.
Proof using I Hdebug.
  intros Hps Hl Hpos Hu. unfold Paged.alloc_decode. rewrite Hdebug. bind_step.
  assert (He : extends (Z.pred <$> seqs) seqs).
  { unfold extends. apply Forall2_fmap_l, Forall_Forall2_diag. eapply Forall_impl; [exact Hpos|]. simpl. lia. }
  assert (Hnb : new_pages (al_page_size a) (Z.pred <$> seqs) seqs <= Z.of_nat (length seqs)).
  { clear -Hps. unfold new_pages, Zsum. induction seqs as [|s l IH]; csimpl; [lia|].
    pose proof (decode_new_page (al_page_size a) s Hps) as Hd. change (Z.pred s) with (s - 1).
    destruct (s mod al_page_size a =? 1); lia. }
  set (cond := (length (free_pages a) <? length seqs)%nat).
  destruct (refill_run cond (new_pages (al_page_size a) (Z.pred <$> seqs) seqs)) as (J & Jf & Ja & Jr).
  { unfold cond. intros Hc%Nat.ltb_ge _. lia. }
  set (a1 := if need_sort a && cond then merge_and_sort_free a else a) in *. clearbody a1.
  assert (debug_mode a1 = false) as -> by (injection Jf; congruence). bind_step.
  rewrite (decode_num_pages (al_page_size a) seqs Hps). bind_step.
  eapply batch_result_intro; try done. intros Hfp.
  rewrite decode_grid_naive by (done || apply next_power_of_2_ge).
  pose proof (new_tokens_pred seqs (length seqs) ltac:(lia)) as Ht.
  rewrite !take_ge in Ht by (rewrite ?length_fmap; lia).
  rewrite naive_writes; [|lia|by rewrite length_fmap|done|lia|lia|lia|lia].
  simpl. rewrite drop_ge by lia. by rewrite app_nil_r.
Qed.

End ops.
