(* ===== verification/AllocatorClaims.v ===== *)
(** * AllocatorClaims: the contract of the KV slot allocators

    The theorems of this file, each with an instance on a concrete pool. *)

From S2P Require Import Prelude Allocator RadixKey RadixNode RadixTree AllocatorSpec AllocatorKernel.

Open Scope Z_scope.

(** ** Token allocator *)

(** The token allocator hands out slots that were
    free, as many as asked, and keeps the account of the others; it refuses
    exactly when fewer slots are available, released ones included. *)
Theorem token_alloc_conserves a out n :
  tok_inv a out ->
  (exists a' l, Token.alloc a n = (a', Some l) /\ tok_inv a' (l ++ out) /\ NoDup (l ++ out) /\ length l = n /\
     Token.available_size a' = Token.available_size a - Z.of_nat n) \/
  (exists a', Token.alloc a n = (a', None) /\ tok_inv a' out /\ Token.available_size a < Z.of_nat n).
Proof.
  intros I. pose proof (tok_alloc_run a out n I) as Hr. destruct (Token.alloc a n) as [a' [l|]].
  - left. destruct Hr as (I' & Hl & _ & Ha). exists a', l. split; [done|]. split; [done|]. split; [|done].
    assert (NoDup (free_pages a' ++ release_pages a' ++ pending a' ++ l ++ out)) as Hn.
    { rewrite (ti_slots _ _ I'). apply NoDup_arange. }
    by do 3 (apply NoDup_app in Hn as (_ & _ & Hn)).
  - right. destruct Hr as (I' & _ & Ha). eauto.
Qed.

Lemma token_alloc_conserves_witness :
  tok_inv (Token.init 4 true) [] /\
  ((exists a' l, Token.alloc (Token.init 4 true) 3 = (a', Some l) /\ tok_inv a' (l ++ []) /\ NoDup (l ++ []) /\
     length l = 3%nat /\ Token.available_size a' = Token.available_size (Token.init 4 true) - 3) \/
   (exists a', Token.alloc (Token.init 4 true) 3 = (a', None) /\ tok_inv a' [] /\
     Token.available_size (Token.init 4 true) < 3)).
Proof. split; [apply tok_init_inv|]. apply (token_alloc_conserves (Token.init 4 true) [] 3). apply tok_init_inv. Defined.

(** Freeing a list of index tensors one by one. *)
Fixpoint token_free_all (a : Allocator) (vs : list (list Z)) : res Allocator :=
  match vs with
  | [] => Ok a
  | v :: vs => a' ← Token.free a v; token_free_all a' vs
  end.

Lemma token_free_all_run a vs out :
  tok_inv a (concat vs ++ out) ->
  exists a', token_free_all a vs = Ok a' /\ tok_inv a' out /\ al_fixed a' = al_fixed a /\
    is_not_in_free_group a' = is_not_in_free_group a /\
    Token.available_size a' =
      Token.available_size a + (if is_not_in_free_group a then Z.of_nat (length (concat vs)) else 0).
Proof.
  revert a. induction vs as [|v vs IH]; intros a I; simpl in *.
  { exists a. do 4 (split; [done|]). destruct (is_not_in_free_group a); lia. }
  rewrite <- app_assoc in I. destruct (tok_free_run _ _ _ I) as (a1 & -> & I1 & F1 & G1 & A1). bind_step.
  destruct (IH a1 I1) as (a' & -> & I' & F' & G' & A'). exists a'. split; [done|]. split; [done|].
  split; [congruence|]. split; [congruence|]. rewrite length_app, A', A1, G1. destruct (is_not_in_free_group a); lia.
Qed.

(** Frees made inside a free group take effect at
    its end, all at once and none lost: begin, any frees, end leaves the
    allocator with every freed slot available again. *)
Theorem token_free_group_defers a vs out :
  tok_inv a (concat vs ++ out) -> is_not_in_free_group a = true ->
  exists a1 a2, token_free_all (free_group_begin a) vs = Ok a1 /\
    Token.available_size a1 = Token.available_size a /\
    free_group_end Token.free a1 = Ok a2 /\ tok_inv a2 out /\
    Token.available_size a2 = Token.available_size a + Z.of_nat (length (concat vs)).
Proof.
  intros I Hg.
  assert (I0 : tok_inv (free_group_begin a) (concat vs ++ out)).
  { destruct I as [I1 I2]. unfold pending in I1. rewrite Hg in I1. by split. }
  destruct (token_free_all_run _ _ _ I0) as (a1 & Hrun & I1 & F1 & G1 & A1). simpl in G1, A1. rewrite Z.add_0_r in A1.
  assert (I2 : tok_inv (set_group true (free_group a1) a1) (concat (free_group a1) ++ out)).
  { destruct I1 as [J1 J2]. unfold pending in J1. rewrite G1 in J1. by split. }
  assert (Hlen : forall x o, tok_inv x o -> Token.available_size x = Z.of_nat (Z.to_nat (al_size x)) - Z.of_nat (length (pending x)) - Z.of_nat (length o)).
  { intros x o [J _]. apply Permutation_length in J. rewrite !length_app, length_arange in J. unfold Token.available_size. lia. }
  assert (exists a2, free_group_end Token.free a1 = Ok a2 /\ tok_inv a2 out /\ al_fixed a2 = al_fixed a1 /\ pending a2 = [])
    as (a2 & Hend & I3 & F3 & Hp).
  { unfold free_group_end. destruct (free_group a1) as [|g0 g] eqn:Eg; simpl.
    - exists (set_group true [] a1). simpl in I2. done.
    - destruct (tok_free_run _ _ _ I2) as (a2 & Hf & I3 & F3 & G3 & _). exists a2. split; [exact Hf|].
      split; [done|]. split; [done|]. unfold pending. rewrite G3. done. }
  exists a1, a2. split; [done|]. split; [done|]. split; [done|]. split; [done|].
  rewrite (Hlen a2 out I3), Hp, (Hlen a _ I). unfold pending. rewrite Hg, length_app.
  assert (al_size a2 = al_size a) as -> by (injection F3; injection F1; simpl; congruence). simpl. lia.
Qed.

Lemma token_free_group_defers_witness :
  exists a1 a2, token_free_all (free_group_begin (Token.alloc (Token.init 5 false) 4).1) [[2]; []; [1; 3]] = Ok a1 /\
    Token.available_size a1 = 1 /\ free_group_end Token.free a1 = Ok a2 /\ tok_inv a2 [4] /\ Token.available_size a2 = 1 + 3.
Proof.
  apply (token_free_group_defers (Token.alloc (Token.init 5 false) 4).1 [[2]; []; [1; 3]] [4]); [|reflexivity].
  split; [|done]. vm_compute. solve_Permutation.
Defined.

(** ** Paged allocator *)

(** Slots handed out by whole pages have no repetition. *)
Lemma page_slots_nodup ps pages : 0 < ps -> NoDup pages -> NoDup (Paged.page_slots ps pages).
Proof.
  intros Hps Hnd. unfold Paged.page_slots. induction Hnd as [|p pages Hp Hnd IH]; csimpl; [constructor|].
  apply NoDup_app. split; [|split; [|done]].
  - apply NoDup_fmap_2; [intros x y; lia|apply NoDup_arange].
  - intros x Hx Hx'. apply Hp. apply list_elem_of_fmap in Hx as (o & -> & Ho%elem_of_arange).
    pose proof (proj1 (elem_of_page_slots ps pages _ Hps) Hx') as Hin.
    by rewrite Z.div_add_l, Z.div_small, Z.add_0_r in Hin by lia.
Qed.

(** The paged allocator turns a request for a
    multiple of the page size into that many distinct slots, whole pages that
    nobody held; it refuses exactly when the free and released pages together
    are too few.  It never raises, debug mode included. *)
Theorem paged_alloc_conserves a outp n :
  pg_inv a outp -> 0 <= n -> (al_page_size a | n) ->
  (exists a' pages, let l := Paged.page_slots (al_page_size a) pages in
     Paged.alloc a n = Ok (a', Some l) /\ pg_inv a' (pages ++ outp) /\ NoDup (pages ++ outp) /\
     NoDup l /\ Z.of_nat (length l) = n /\ base_available_size a' = base_available_size a - n) \/
  (exists a', Paged.alloc a n = Ok (a', None) /\ pg_inv a' outp /\ base_available_size a < n).
Proof.
  intros I Hn Hd. destruct (pg_alloc_run a outp n I Hn Hd) as (a' & [l|] & Hr & _ & Hres).
  - left. destruct Hres as (pages & -> & I' & Hl & Ha). exists a', pages. split; [done|]. split; [done|].
    destruct (pg_inv_nodup _ _ I') as [_ Hnd]. split; [done|].
    apply NoDup_app in Hnd as (Hnd & _). split; [|done]. apply page_slots_nodup; [apply (pi_ps _ _ I)|done].
  - right. destruct Hres as (I' & _ & ?). eauto.
Qed.

Lemma pg_init_inv size ps ns dbg : 0 < ps -> pg_inv (Paged.init size ps ns dbg) [].
Proof.
  intros Hps. split; [|done|done]. exists []. split; [simpl; by rewrite app_nil_r|]. split; [constructor|].
  intros p. split; [by intros ?%elem_of_nil|]. by intros (x & Hx%elem_of_nil & _).
Qed.

Lemma paged_alloc_conserves_witness :
  let a := Paged.init 32 4 true true in
  pg_inv a [] /\
  ((exists a' pages, let l := Paged.page_slots (al_page_size a) pages in
     Paged.alloc a 12 = Ok (a', Some l) /\ pg_inv a' (pages ++ []) /\ NoDup (pages ++ []) /\
     NoDup l /\ Z.of_nat (length l) = 12 /\ base_available_size a' = base_available_size a - 12) \/
   (exists a', Paged.alloc a 12 = Ok (a', None) /\ pg_inv a' [] /\ base_available_size a < 12)).
Proof.
  split; [by apply pg_init_inv|]. apply (paged_alloc_conserves (Paged.init 32 4 true true) [] 12); [by apply pg_init_inv|lia|].
  exists 3. reflexivity.
Defined.

(** Freeing any set of slots that covers pages
    [pages] (repetitions and part of a page included) gives exactly these
    pages back, never raises, and outside a free group makes them available
    at once. *)
Theorem paged_free_returns_pages a v pages outp :
  pg_inv a (pages ++ outp) -> pages_cover (al_page_size a) v pages ->
  exists a', Paged.free a v = Ok a' /\ pg_inv a' outp /\
    (is_not_in_free_group a = true ->
     base_available_size a' = base_available_size a + Z.of_nat (length pages) * al_page_size a).
Proof. intros I Hc. destruct (pg_free_run _ _ _ _ I Hc) as (a' & ? & ? & _ & _ & ?). eauto. Qed.

Lemma paged_free_returns_pages_witness :
  let a := set_free_pages [3; 4] (Paged.init 16 4 false true) in
  exists a', Paged.free a [9; 8; 9] = Ok a' /\ pg_inv a' [1] /\
    (is_not_in_free_group a = true -> base_available_size a' = base_available_size a + 1 * al_page_size a).
Proof.
  apply (paged_free_returns_pages (set_free_pages [3; 4] (Paged.init 16 4 false true)) [9; 8; 9] [2] [1]).
  - split; [|done|done]. exists []. split; [vm_compute; solve_Permutation|]. split; [constructor|].
    intros p. split; [by intros ?%elem_of_nil|]. by intros (x & Hx%elem_of_nil & _).
  - split; [apply NoDup_singleton|]. intros p. rewrite list_elem_of_singleton. split.
    + intros ->. exists 9. split; [by apply list_elem_of_here|reflexivity].
    + intros (x & Hx & <-). by repeat (apply elem_of_cons in Hx as [->|Hx]; [reflexivity|]); apply elem_of_nil in Hx.
Defined.

(** ** Batched allocation *)

(** C35: The Triton kernel, run over a grid of one
    program per request, writes the same slots as the sequential reference,
    whatever the output buffer held and whatever value the masked-off lanes
    hold, provided that the two masked loads of a program give them the same
    value. *)
Theorem extend_kernel_equals_naive ps fill pres seqs lasts fp out :
  0 < ps -> length lasts = length pres -> extends pres seqs ->
  new_pages ps pres seqs <= Z.of_nat (length fp) ->
  apply_writes out (seq 0 (length pres) ≫=
    alloc_extend_kernel ps fill (next_power_of_2 (length pres)) pres seqs lasts fp) =
  alloc_extend_naive ps pres seqs lasts fp out.
Proof.
  intros Hps Hl He Hfp. unfold alloc_extend_naive. f_equal.
  apply kernel_grid_naive; try done. apply next_power_of_2_ge.
Qed.

Lemma extend_kernel_equals_naive_witness :
  apply_writes (replicate 7 0) (seq 0 2 ≫= alloc_extend_kernel 4 99 2 [2; 0] [5; 4] [21; -1] [1; 2; 3]) =
  alloc_extend_naive 4 [2; 0] [5; 4] [21; -1] [1; 2; 3] (replicate 7 0).
Proof.
  apply (extend_kernel_equals_naive 4 99 [2; 0] [5; 4] [21; -1] [1; 2; 3] (replicate 7 0)); [lia|reflexivity| |].
  - repeat constructor; lia.
  - vm_compute. discriminate.
Defined.

(** The requests of a batch sit on pages of their own: the last slot of each
    agrees with its length, a partly filled last page belongs to that request
    alone and is handed out. *)
Record batch_ok (ps : Z) (outp pres lasts : list Z) : Prop := {
  bo_last : Forall2 (last_ok ps) pres lasts;
  bo_held : forall i p l, pres !! i = Some p -> lasts !! i = Some l -> partial ps p -> l / ps ∈ outp;
  bo_own : forall i j p p' l l', pres !! i = Some p -> lasts !! i = Some l -> partial ps p ->
    pres !! j = Some p' -> lasts !! j = Some l' -> partial ps p' -> l / ps = l' / ps -> i = j;
}.

(** The promise of a batched allocation: distinct new slots, each on a page
    the allocator has now handed out and no new page lost, or a refusal for
    want of pages. *)
Definition batch_promise (a : Allocator) (outp pres seqs lasts : list Z) (a' : Allocator) (r : option (list Z)) : Prop :=
  let ps := al_page_size a in
  match r with
  | Some out => exists newp, pg_inv a' (newp ++ outp) /\ NoDup out /\
      out = batch_slots ps newp pres seqs lasts 0 /\
      Z.of_nat (length newp) = new_pages ps pres seqs /\
      Z.of_nat (length out) = new_tokens pres seqs /\
      (forall x, x ∈ out -> x / ps ∈ newp ++ outp)
  | None => pg_inv a' outp /\ base_available_size a < new_pages ps pres seqs * ps
  end.

Lemma lookup_total_take {A} `{Inhabited A} (l : list A) n i : (i < n)%nat -> take n l !!! i = l !!! i.
Proof. intros Hi. rewrite !list_lookup_total_alt. by rewrite lookup_take_lt. Qed.

(** A batch only looks at the pages it takes. *)
Lemma batch_slots_take ps fp pres seqs lasts np n :
  0 < ps -> extends pres seqs -> Forall2 (last_ok ps) pres lasts -> 0 <= np -> np + new_pages ps pres seqs <= Z.of_nat n ->
  batch_slots ps (take n fp) pres seqs lasts np = batch_slots ps fp pres seqs lasts np.
Proof.
  intros Hps He. revert lasts np. induction He as [|p s pres seqs Hp He IH]; intros lasts np Hl Hnp Hn; [done|].
  inversion Hl as [|? l ? lasts' Hl1 Hl2]; subst. simpl. destruct (extends_sums ps Hps pres seqs 0 He) as [Hn0 _].
  pose proof (ceil_mono ps Hps p s ltac:(lia)).
  assert (E2 : new_pages ps (p :: pres) (s :: seqs) = (ceil_pages ps s - ceil_pages ps p) + new_pages ps pres seqs) by done.
  rewrite IH by (done || lia). f_equal. unfold extend_slots. apply list_fmap_ext. intros i o Hio.
  assert (0 <= o < s - p) as Ho by (apply list_elem_of_lookup_2, elem_of_arange in Hio; lia).
  unfold token_slot. destruct (Z.ltb_spec (p + o) (ceil_pages ps p * ps)) as [|Hge]; [done|].
  rewrite lookup_total_take; [done|].
  assert ((p + o) / ps < ceil_pages ps s).
  { apply Z.div_lt_upper_bound; [done|]. pose proof (ceil_bounds ps Hps s). lia. }
  pose proof (ceil_le_floor ps Hps p (p + o) ltac:(lia)). lia.
Qed.

Lemma length_batch_slots ps fp pres seqs lasts np :
  extends pres seqs -> Forall2 (last_ok ps) pres lasts ->
  Z.of_nat (length (batch_slots ps fp pres seqs lasts np)) = new_tokens pres seqs.
Proof.
  intros He. revert lasts np. induction He as [|p s pres seqs Hp He IH]; intros lasts np Hl; [done|].
  inversion Hl as [|? l ? lasts' Hl1 Hl2]; subst. simpl. rewrite length_app, length_extend_slots, Nat2Z.inj_add, IH by done.
  unfold new_tokens, Zsum. simpl. lia.
Qed.

Lemma batch_result_promise a outp pres seqs lasts a' r :
  pg_inv a outp -> extends pres seqs -> batch_ok (al_page_size a) outp pres lasts ->
  batch_result a outp pres seqs lasts a' r -> batch_promise a outp pres seqs lasts a' r.
Proof.
  intros I He [B1 B2 B3] [_ Hr]. pose proof (pi_ps _ _ I) as Hps. destruct r as [out|]; [|by destruct Hr as (? & _ & ?)].
  destruct Hr as (fp & -> & Hnd & Hdis & Hlen & I' & _). destruct (extends_sums _ Hps pres seqs 0 He) as [Hn _].
  exists (take (Z.to_nat (new_pages (al_page_size a) pres seqs)) fp). split; [done|]. split.
  { apply batch_slots_nodup; try done. intros i p l Hp Hl Hpar Hin. by apply (Hdis _ Hin), (B2 i p l). }
  split; [symmetry; apply batch_slots_take; done || lia|]. split; [rewrite length_take; lia|].
  split; [by apply length_batch_slots|]. intros x Hx. apply elem_of_app.
  destruct (batch_slots_page _ Hps _ _ _ _ _ _ He B1 Hx) as [(i & p & l & ? & ? & ? & ->)|(q & Hq & ->)].
  - right. by apply (B2 i p l).
  - left. rewrite <- (lookup_total_take fp (Z.to_nat (new_pages (al_page_size a) pres seqs))) by lia.
    apply list_elem_of_lookup_total_2. rewrite length_take. lia.
Qed.

(** C36: [alloc_extend] gives every new token of every
    request of the batch a slot of its own: the rest of the request's last
    page first, then fresh pages; it takes exactly the pages this needs and
    refuses only when they are not available. *)
Theorem alloc_extend_correct a outp fill uninit pres seqs lasts :
  pg_inv a outp -> debug_mode a = false -> extends pres seqs -> batch_ok (al_page_size a) outp pres lasts ->
  Z.of_nat (length uninit) = new_tokens pres seqs ->
  exists a' r, Paged.alloc_extend fill uninit a pres seqs lasts (new_tokens pres seqs) None = Ok (a', r) /\
    batch_promise a outp pres seqs lasts a' r.
Proof.
  intros I Hd He B Hu. destruct (alloc_extend_run a outp I Hd fill uninit pres seqs lasts (new_tokens pres seqs) None)
    as (a' & r & Hr & Hres); try done.
  - symmetry. eapply Forall2_length. apply B.
  - exists a', r. split; [done|]. by apply batch_result_promise.
Qed.

(** [alloc_decode] gives each running request of the
    batch one slot, the next of its last page or the first of a fresh page;
    no slot is given twice and a page is taken only by the requests that
    start one. *)
Theorem alloc_decode_correct a outp fill uninit seqs lasts :
  pg_inv a outp -> debug_mode a = false -> 1 < al_page_size a -> Forall (fun s => 0 < s) seqs ->
  batch_ok (al_page_size a) outp (Z.pred <$> seqs) lasts -> length uninit = length seqs ->
  exists a' r, Paged.alloc_decode fill uninit a seqs lasts = Ok (a', r) /\
    batch_promise a outp (Z.pred <$> seqs) seqs lasts a' r.
Proof.
  intros I Hd Hps Hpos B Hu. destruct (alloc_decode_run a outp I Hd fill uninit seqs lasts) as (a' & r & Hr & Hres); try done.
  - pose proof (Forall2_length _ _ _ (bo_last _ _ _ _ B)) as Hl. rewrite length_fmap in Hl. done.
  - exists a', r. split; [done|]. apply batch_result_promise; try done.
    unfold extends. apply Forall2_fmap_l, Forall_Forall2_diag. eapply Forall_impl; [exact Hpos|]. simpl. lia.
Qed.

(** A pool of 8 pages of 4 slots whose page 5 holds the two tokens of a request. *)
Definition demo_pool : Allocator := set_free_pages [1; 2; 3; 4; 6; 7; 8] (Paged.init 32 4 false false).

Lemma demo_pool_inv : pg_inv demo_pool [5].
Proof.
  split; [|done|done]. exists []. split; [vm_compute; solve_Permutation|]. split; [constructor|].
  intros p. split; [by intros ?%elem_of_nil|]. by intros (x & Hx%elem_of_nil & _).
Qed.

Lemma demo_batch_ok : batch_ok 4 [5] [2; 0] [21; -1].
Proof.
  split.
  - repeat constructor.
  - intros [|[|i]] p l Hp Hl Hpar; simplify_eq/=; [by apply list_elem_of_here|by destruct Hpar].
  - intros [|[|i]] [|[|j]] p p' l l' Hp Hl Hpar Hp' Hl' Hpar' E; simplify_eq/=; try done; by destruct Hpar || destruct Hpar'.
Qed.

Lemma alloc_extend_correct_witness :
  exists a' r, Paged.alloc_extend 0 (replicate 7 0) demo_pool [2; 0] [5; 4] [21; -1] 7 None = Ok (a', r) /\
    batch_promise demo_pool [5] [2; 0] [5; 4] [21; -1] a' r.
Proof.
  apply (alloc_extend_correct demo_pool [5] 0 (replicate 7 0) [2; 0] [5; 4] [21; -1]); try reflexivity.
  - apply demo_pool_inv.
  - repeat constructor; lia.
  - apply demo_batch_ok.
Defined.

Lemma alloc_decode_correct_witness :
  exists a' r, Paged.alloc_decode 0 [0; 0] demo_pool [3; 1] [21; -1] = Ok (a', r) /\
    batch_promise demo_pool [5] [2; 0] [3; 1] [21; -1] a' r.
Proof.
  apply (alloc_decode_correct demo_pool [5] 0 [0; 0] [3; 1] [21; -1]); try reflexivity.
  - apply demo_pool_inv.
  - repeat constructor; lia.
  - apply demo_batch_ok.
Defined.
