(* ===== verification/RadixDemo.v ===== *)
(** * RadixDemo: the contract of the radix cache on a concrete run

    A cache of page size 1 over a token allocator: two sequences that share a
    prefix are inserted and the second is locked.  Each theorem of
    [RadixSpec] is instantiated on a state of this run. *)

From S2P Require Import Prelude RadixKey RadixNode RadixTree RadixInv RadixSteps RadixContent RadixOps RadixInsert RadixLock RadixEvict RadixSpec Allocator AllocatorSpec.

Open Scope nat_scope.

(** A clock that ticks once per call, and a toy digest of 64 hex digits. *)
#[local] Instance demo_env : Env := {|
  monotonic n := Z.of_nat n;
  sha256 prior ws := replicate 64 ((foldr Z.add 0 ws + foldr Z.add 0 (default [] prior)) mod 16)%Z;
|}.

Definition demo_cfg : CacheConfig := mkConfig false 1 true false false false LRUStrategy.

Definition demo_key (ts : list Z) : RadixKey := mkRadixKey ts None false None.
Definition key1 : RadixKey := demo_key [11; 12; 13; 14]%Z.
Definition key2 : RadixKey := demo_key [11; 12; 20; 21; 22]%Z.
Definition slots1 : list Z := [1; 2; 3; 4]%Z.
Definition slots2 : list Z := [1; 2; 5; 6; 7]%Z.

Definition run_state {A} (s : RadixCache) (r : res (RadixCache * A)) : RadixCache :=
  match r with Ok (s', _) => s' | Raise _ => s end.

Definition demo0 : RadixCache := init_cache demo_cfg.
Definition demo1 : RadixCache := run_state demo0 (insert key1 (Some slots1) None false demo0).
Definition demo2 : RadixCache := run_state demo1 (insert key2 (Some slots2) None false demo1).

(** The leaf of the second sequence. *)
Definition leaf2 : nat := 3.

Definition demo3 : RadixCache := run_state demo2 (inc_lock_ref leaf2 demo2).

(** The allocator: 8 slots, of which 1 to 7 are handed out. *)
Definition demo_alloc : TokenAllocator := TokA (Token.alloc (Token.init 8 false) 7).1.

Definition no_locks : nat -> Z := fun _ => 0%Z.

Lemma demo_reach1 : reach demo_cfg demo1 no_locks.
Proof.
  apply (reach_insert _ demo0 _ key1 (Some slots1) None false demo1 (0, Some 1)); [constructor|done|done| |vm_compute; reflexivity].
  intros x [= <-]. vm_compute. lia.
Qed.

Lemma demo_reach2 : reach demo_cfg demo2 no_locks.
Proof.
  apply (reach_insert _ demo1 _ key2 (Some slots2) None false demo2 (2, Some leaf2)); [apply demo_reach1|done|done| |vm_compute; reflexivity].
  intros x [= <-]. vm_compute. lia.
Qed.

Lemma demo_inv0 : Inv demo0 no_locks.
Proof. apply init_inv. simpl. lia. Qed.

Lemma demo_inv1 : Inv demo1 no_locks.
Proof. apply (reach_step demo_cfg); [done|simpl; lia|apply demo_reach1]. Qed.

Lemma demo_inv2 : Inv demo2 no_locks.
Proof. apply (reach_step demo_cfg); [done|simpl; lia|apply demo_reach2]. Qed.

Lemma empty_slots : tree_slots demo0 [].
Proof.
  exists {[0]}. split; [|done]. intros n. rewrite elem_of_singleton. split.
  - intros ->. exists None, [], []. constructor.
  - intros (ek & q & vq & Hp). inversion Hp as [|? c cd v ? ? ? Hc]; subst; [done|].
    destruct (co_entry _ _ _ _ _ _ Hc) as (nd & ck & Hnd & Hg). vm_compute in Hnd. injection Hnd as <-. discriminate Hg.
Qed.

Lemma demo_slots1 : live demo1 1 /\ tree_slots demo1 slots1.
Proof.
  apply (insert_slots demo0 no_locks key1 (Some slots1) None false demo1 0 1 []);
    [apply demo_inv0|reflexivity|done|done| |vm_compute; reflexivity|apply empty_slots].
  intros x [= <-]. vm_compute. lia.
Qed.

Lemma demo_slots2 : live demo2 leaf2 /\ tree_slots demo2 ([5; 6; 7]%Z ++ slots1).
Proof.
  apply (insert_slots demo1 no_locks key2 (Some slots2) None false demo2 2 leaf2 slots1);
    [apply demo_inv1|reflexivity|done|done| |vm_compute; reflexivity|apply demo_slots1].
  intros x [= <-]. vm_compute. lia.
Qed.

Lemma demo_inv3 : Inv demo3 (<[leaf2 := (no_locks leaf2 + 1)%Z]> no_locks).
Proof.
  apply (reach_step demo_cfg); [done|simpl; lia|].
  apply (reach_lock _ demo2 _ leaf2 demo3 (-5)%Z); [apply demo_reach2|apply demo_slots2|vm_compute; reflexivity].
Qed.

Lemma demo_out : kv_out demo_alloc (([5; 6; 7]%Z ++ slots1) ++ []).
Proof. split; [|done]. split; [|done]. vm_compute. solve_Permutation. Qed.

Lemma demo_chunks s : whole_chunks demo_alloc s.
Proof. by intros n nd v. Qed.

(** ** Instances of the contract *)

Lemma match_prefix_longest_witness :
  exists s' r q, match_prefix key2 demo1 = Ok (s', r) /\ Inv s' no_locks /\
    longest_cached demo1 None (key_iter (aligned demo1 key2)) q (device_indices r) /\
    path_from (tree s') None (root_node s') q (device_indices r) (last_device_node r) /\
    (forall ek p vs, cached s' ek p vs <-> cached demo1 ek p vs) /\
    (forall l, tree_slots demo1 l -> tree_slots s' l) /\
    evictable_size_ s' = evictable_size_ demo1 /\ protected_size_ s' = protected_size_ demo1.
Proof. apply (match_prefix_longest demo1 no_locks key2); [apply demo_inv1|reflexivity|done]. Defined.

Lemma insert_adds_pages_witness :
  exists s' last q w, insert key2 (Some slots2) None false demo1 = Ok (s', (length q, Some last)) /\ Inv s' no_locks /\
    longest_cached demo1 None (key_iter (aligned demo1 key2)) q w /\
    (forall ek p vs, cached s' ek p vs <->
       cached demo1 ek p vs \/
       (ek = None /\ p `prefix_of` key_iter (aligned demo1 key2) /\ (psize demo1 | length p) /\
        vs = take (length p) (w ++ drop (length w) (ins_slots demo1 key2 (Some slots2))))) /\
    (forall l, tree_slots demo1 l -> tree_slots s' (drop (length w) (ins_slots demo1 key2 (Some slots2)) ++ l)) /\
    evictable_size_ s' = (evictable_size_ demo1 + Z.of_nat (key_len (aligned demo1 key2) - length q))%Z /\
    protected_size_ s' = protected_size_ demo1.
Proof.
  apply (insert_adds_pages demo1 no_locks key2 (Some slots2) None false); [apply demo_inv1|reflexivity|done|done|].
  intros x [= <-]. vm_compute. lia.
Defined.

Lemma insert_match_roundtrip_witness :
  exists s1 s2 n last r w, insert key2 (Some slots2) (Some 3%Z) true demo1 = Ok (s1, (n, last)) /\
    match_prefix key2 s1 = Ok (s2, r) /\ Inv s2 no_locks /\ n = length w /\
    length (device_indices r) = key_len (aligned demo1 key2) /\
    device_indices r = w ++ drop n (ins_slots demo1 key2 (Some slots2)) /\
    longest_cached demo1 None (key_iter (aligned demo1 key2)) (take n (key_iter (aligned demo1 key2))) w.
Proof.
  apply (insert_match_roundtrip demo1 no_locks key2 (Some slots2) (Some 3%Z) true); [apply demo_inv1|reflexivity|done|done|].
  intros x [= <-]. vm_compute. lia.
Defined.

Lemma insert_isolates_namespaces_witness :
  exists s' r, insert key2 (Some slots2) None false demo1 = Ok (s', r) /\
    forall p vs, cached s' (Some "lora") p vs <-> cached demo1 (Some "lora") p vs.
Proof.
  apply (insert_isolates_namespaces demo1 no_locks key2 (Some slots2) None false); [apply demo_inv1|reflexivity|done|done| |discriminate].
  intros x [= <-]. vm_compute. lia.
Defined.

Lemma inc_lock_ref_protects_witness :
  exists s' delta, inc_lock_ref leaf2 demo2 = Ok (s', delta) /\ Inv s' (<[leaf2 := (no_locks leaf2 + 1)%Z]> no_locks) /\
    (delta <= 0)%Z /\ evictable_size_ s' = (evictable_size_ demo2 + delta)%Z /\
    protected_size_ s' = (protected_size_ demo2 - delta)%Z /\
    (forall ek p vs, cached s' ek p vs <-> cached demo2 ek p vs).
Proof. apply (inc_lock_ref_protects demo2 no_locks leaf2); [apply demo_inv2|reflexivity|apply demo_slots2]. Defined.

Definition one_lock : nat -> Z := <[leaf2 := (no_locks leaf2 + 1)%Z]> no_locks.

Lemma dec_lock_ref_releases_witness :
  exists s' delta, dec_lock_ref leaf2 demo3 = Ok (s', delta) /\ Inv s' (<[leaf2 := (one_lock leaf2 - 1)%Z]> one_lock) /\
    (0 <= delta)%Z /\ evictable_size_ s' = (evictable_size_ demo3 + delta)%Z /\
    protected_size_ s' = (protected_size_ demo3 - delta)%Z /\
    (forall ek p vs, cached s' ek p vs <-> cached demo3 ek p vs).
Proof. apply (dec_lock_ref_releases demo3 one_lock leaf2); [apply demo_inv3|reflexivity|reflexivity]. Defined.

Lemma lock_unlock_roundtrip_witness :
  exists s1 s2 d1 d2, inc_lock_ref leaf2 demo2 = Ok (s1, d1) /\ dec_lock_ref leaf2 s1 = Ok (s2, d2) /\
    d2 = (- d1)%Z /\ evictable_size_ s2 = evictable_size_ demo2 /\ protected_size_ s2 = protected_size_ demo2 /\
    evictable_leaves s2 = evictable_leaves demo2 /\
    (forall m, live demo2 m -> lock_at (tree s2) m = lock_at (tree demo2) m).
Proof. apply (lock_unlock_roundtrip demo2 no_locks leaf2); [apply demo_inv2|reflexivity|apply demo_slots2]. Defined.

Lemma demo_slots3 : tree_slots demo3 ([5; 6; 7]%Z ++ slots1).
Proof.
  apply (inc_lock_slots demo2 no_locks leaf2 demo3 (-5)%Z);
    [apply demo_inv2|reflexivity|apply demo_slots2|vm_compute; reflexivity|apply demo_slots2].
Qed.

Lemma evict_frees_enough_witness :
  exists s' a' k l', evict 1 demo3 demo_alloc = Ok (s', a', k) /\ Inv s' one_lock /\
    (Z.min 1 (evictable_size_ demo3) <= k)%Z /\
    tree_slots s' l' /\ kv_out a' (l' ++ []) /\
    kv_available a' = (kv_available demo_alloc + k)%Z /\
    evictable_size_ s' = (evictable_size_ demo3 - k)%Z /\ protected_size_ s' = protected_size_ demo3.
Proof.
  apply (evict_frees_enough demo3 one_lock demo_alloc ([5; 6; 7]%Z ++ slots1) [] 1);
    [apply demo_inv3|reflexivity|apply demo_slots3|apply demo_out|apply demo_chunks].
Defined.

Lemma evict_keeps_locked_witness :
  exists s' a' k, evict 100 demo3 demo_alloc = Ok (s', a', k) /\
    (forall n ek q vq, (0 < one_lock n)%Z -> path_from (tree demo3) ek (root_node demo3) q vq n ->
       live s' n /\ cached s' ek q vq) /\
    (forall ek p vs, cached s' ek p vs -> cached demo3 ek p vs).
Proof.
  apply (evict_keeps_locked demo3 one_lock demo_alloc ([5; 6; 7]%Z ++ slots1) [] 100);
    [apply demo_inv3|reflexivity|apply demo_slots3|apply demo_out|apply demo_chunks].
Defined.

Lemma evict_order_witness :
  exists s' a' k L P xs L', evict 3 demo2 demo_alloc = Ok (s', a', k) /\ Inv_at demo2 L P no_locks None /\
    evict_steps no_locks P demo2 L demo_alloc xs s' L' a' /\ NoDup xs.*1 /\
    (forall x, x ∈ xs.*1 -> live demo2 x /\ no_locks x = 0%Z) /\ k = freed_len xs /\
    (forall ys z, xs = ys ++ [z] -> (freed_len ys < 3)%Z).
Proof.
  apply (evict_order demo2 no_locks demo_alloc ([5; 6; 7]%Z ++ slots1) [] 3);
    [apply demo_inv2|reflexivity|apply demo_slots2|apply demo_out|apply demo_chunks].
Defined.

Lemma reachable_invariant_witness :
  Inv demo2 no_locks /\
  (exists l, tree_slots demo2 l /\ Z.of_nat (length l) = (evictable_size_ demo2 + protected_size_ demo2)%Z) /\
  (forall n, n ∈ evictable_leaves demo2 <-> live demo2 n /\ n <> root_node demo2 /\
     exists nd, nodes demo2 !! n = Some nd /\ lock_ref nd = 0%Z /\ children nd = []).
Proof. apply (reachable_invariant demo_cfg demo2 no_locks); [reflexivity|simpl; lia|apply demo_reach2]. Defined.

Lemma total_size_correct_witness :
  exists l, tree_slots demo3 l /\ total_size demo3 = Ok (Z.of_nat (length l)) /\
    total_size demo3 = Ok (evictable_size_ demo3 + protected_size_ demo3)%Z.
Proof. apply (total_size_correct demo3 one_lock). apply demo_inv3. Defined.
