(* ===== verification/AllocationClaims.v ===== *)
(** * AllocationClaims: the contract of batch allocation

    Eviction and allocation together: slots are found whenever free and
    evictable slots suffice, and only then. *)

From S2P Require Import Prelude RadixKey RadixNode RadixTree RadixInv RadixSteps RadixContent RadixOps RadixInsert RadixLock RadixEvict RadixSpec ReqPool ReqCache Allocator AllocatorSpec Allocation AllocatorKernel AllocatorClaims RadixDemo.

Open Scope nat_scope.

(** ** The two allocators as one *)

Definition kvp_out (p : KVPool) (l : list Z) : Prop :=
  match p with PTok a => kv_out a l | PPag a => kv_out a l end.

Definition kvp_chunk (p : KVPool) (v : list Z) : Prop :=
  match p with PTok a => kv_chunk a v | PPag a => kv_chunk a v end.

Definition kvp_cover (p : KVPool) (v w : list Z) : Prop :=
  match p with PTok a => kv_cover a v w | PPag a => kv_cover a v w end.

Lemma kvp_out_perm p l l' : l ≡ₚ l' -> kvp_out p l -> kvp_out p l'.
Proof. destruct p; apply kv_out_perm. Qed.

Lemma kvp_chunk_cover p v : kvp_chunk p v -> kvp_cover p v v.
Proof. destruct p; apply kv_chunk_cover. Qed.

Lemma kvp_cover_law p v w rest :
  kvp_out p (w ++ rest) -> kvp_cover p v w -> exists p', kv_free p v = Ok p' /\ kvp_out p' rest /\
    kv_available p' = (kv_available p + Z.of_nat (length w))%Z /\ (forall x, kvp_chunk p x -> kvp_chunk p' x) /\
    (forall x y, kvp_cover p x y -> kvp_cover p' x y).
Proof.
  destruct p as [a|a]; intros Ho Hc; destruct (kv_cover_law a v w rest Ho Hc) as (a' & Hf & ? & ? & ? & ?).
  - exists (PTok a'). cbn [kv_free pool_kv]. by rewrite Hf.
  - exists (PPag a'). cbn [kv_free pool_kv]. by rewrite Hf.
Qed.

#[export] Instance pool_kv_laws : KVAllocatorLaws KVPool := {
  kv_out := kvp_out;
  kv_chunk := kvp_chunk;
  kv_cover := kvp_cover;
  kv_out_perm := kvp_out_perm;
  kv_chunk_cover := kvp_chunk_cover;
  kv_cover_law := kvp_cover_law;
}.

Section claims.
Context `{Env}.
Implicit Types (s : RadixCache) (Hd : nat -> Z) (a : KVPool).

(** Whatever every free keeps, eviction keeps. *)
Lemma evict_keeps (Q : KVPool -> Prop) num s a s' a' k :
  (forall x v x', Q x -> kv_free x v = Ok x' -> Q x') -> Q a -> evict num s a = Ok (s', a', k) -> Q a'.
Proof.
  intros HQ Ha. unfold evict. destruct (disable (cfg s)); [by intros [= <- <- <-]|].
  generalize (S (size (nodes s))). generalize ((fun n => (node_priority s n, n)) <$> elements (evictable_leaves s)).
  intros heap fuel. generalize 0%Z. revert heap s a Ha. induction fuel as [|fuel IH]; intros heap s a Ha ev Hrun; [done|].
  cbn [evict_loop] in Hrun. destruct (negb (ev <? num)%Z); [by injection Hrun as <- <- <-|].
  destruct (heap_pop s heap) as [ [ [pr x] heap' ] |]; [|by injection Hrun as <- <- <-].
  apply bind_Ok_inv in Hrun as ([ [ [s1 a1] h1 ] f ] & Hone & Hrun). eapply IH; [|exact Hrun].
  unfold evict_one in Hone. inv_ok.
  match goal with Hf : kv_free _ _ = Ok _ |- _ => apply HQ in Hf; [|done] end. by simplify_eq.
Qed.

(** The kind and the fixed parameters of an allocator. *)
Definition kvp_fixed (p : KVPool) : bool * (Z * Z * Z * bool * bool) :=
  match p with PTok a => (true, al_fixed (tok_state a)) | PPag a => (false, al_fixed (pag_state a)) end.

Lemma kv_free_fixed a v a' : kv_free a v = Ok a' -> kvp_fixed a' = kvp_fixed a.
Proof.
  destruct a as [ [a]|[a] ]; cbn [kv_free pool_kv token_kv paged_kv tok_state pag_state]; intros Hf; inv_ok; simpl; f_equal.
  - unfold Token.free in *. repeat case_match; inv_ok; done.
  - unfold Paged.free in *. destruct v; inv_ok; [done|]. repeat case_match; inv_ok; done.
Qed.

Lemma evict_fixed num s a s' a' k : evict num s a = Ok (s', a', k) -> kvp_fixed a' = kvp_fixed a.
Proof.
  intros Hrun. apply (evict_keeps (fun x => kvp_fixed x = kvp_fixed a) num s a s' a' k); [|done|done].
  intros x v x' Hx Hf. rewrite <- Hx. by eapply kv_free_fixed.
Qed.

Lemma kvp_available_nonneg a l : kv_out a l -> (0 <= kv_available a)%Z.
Proof.
  destruct a as [ [a]|[a] ]; simpl.
  - intros _. unfold Token.available_size. lia.
  - intros (outp & I & _). pose proof (pi_ps _ _ I). unfold base_available_size. simpl in *. nia.
Qed.

(** ** Making room *)

(** The state between eviction and allocation: enough slots are available, or
    everything evictable is gone. *)
Lemma evict_for_run s Hd a l other num :
  Inv s Hd -> disable (cfg s) = false -> tree_slots s l -> kv_out a (l ++ other) -> whole_chunks a s ->
  exists s' a' l', evict_for (Radix s) num a = Ok (Radix s', a') /\ Inv s' Hd /\ cfg s' = cfg s /\
    tree_slots s' l' /\ kv_out a' (l' ++ other) /\ kvp_fixed a' = kvp_fixed a /\
    (kv_available a' + evictable_size_ s' = kv_available a + evictable_size_ s)%Z /\
    (Z.of_nat num <= kv_available a + evictable_size_ s -> Z.of_nat num <= kv_available a')%Z /\
    (0 <= evictable_size_ s')%Z.
Proof.
  intros I Hdis Hl Hout Hch. unfold evict_for, evict_from_tree_cache.
  destruct (Z.ltb_spec (kv_available a) (Z.of_nat num)) as [Hlt|Hge].
  - destruct (evict_enough_run s Hd a l other (Z.of_nat num) I Hdis Hl Hout Hch)
      as (s' & a' & k & l' & Hrun & I' & Ec & Hk & Hnn & Hl' & Hout' & Hav & Hev & _).
    rewrite Hrun. bind_step. exists s', a', l'. apply evict_fixed in Hrun.
    pose proof (kvp_available_nonneg _ _ Hout).
    repeat (split; [done|]). split; [|split; [|done] ]; rewrite Hav, ?Hev; lia.
  - bind_step. exists s, a, l. destruct I as (L & P & I). pose proof (evictable_nonneg _ _ _ _ _ I).
    split; [done|]. split; [by exists L, P|]. repeat (split; [done|]). lia.
Qed.

Lemma token_alloc_group x n : is_not_in_free_group (Token.alloc x n).1 = is_not_in_free_group x.
Proof. unfold Token.alloc, merge_and_sort_free. repeat case_match; done. Qed.

(** [alloc_token_slots] finds slots exactly when
    free and evictable slots together suffice.  It then evicts what it must,
    returns that many distinct slots nobody held, and keeps the account of all
    others; otherwise it raises RuntimeError. *)
Theorem alloc_token_slots_iff_room s Hd t l other num :
  Inv s Hd -> disable (cfg s) = false -> tree_slots s l -> kv_out (PTok t) (l ++ other) ->
  if decide (Z.of_nat num <= kv_available t + evictable_size_ s)%Z then
    exists s' a' st out l', alloc_token_slots (Radix s) num (PTok t) = Ok (Radix s', a', st, out) /\
      Inv s' Hd /\ tree_slots s' l' /\ kv_out a' (out ++ l' ++ other) /\ length out = num /\ NoDup (out ++ l' ++ other)
  else alloc_token_slots (Radix s) num (PTok t) = Raise RuntimeError.
Proof.
  intros I Hdis Hl Hout. unfold alloc_token_slots.
  destruct (evict_for_run s Hd (PTok t) l other num I Hdis Hl Hout) as (s' & a' & l' & -> & I' & Ec & Hl' & Hout' & Hf & Hsum & Hroom & Hnn).
  { by intros n nd v. }
  bind_step. destruct a' as [t'|t']; [|done]. destruct Hout' as [I2 Hg]. cbn [kvp_alloc].
  pose proof (tok_alloc_run (tok_state t') _ num I2) as Hr.
  pose proof (token_alloc_group (tok_state t') num) as Hgrp. destruct (Token.alloc (tok_state t') num) as [a2 [out|] ];
    bind_step; simpl in Hsum, Hroom, Hnn |- *.
  - destruct Hr as (I3 & Hlen & Hg3 & Ha). case_decide as Hd'.
    + eexists s', _, _, out, l'. split; [done|]. split; [done|]. split; [done|]. split; [|split; [done|] ].
      * split; [done|]. simpl in *. congruence.
      * assert (NoDup (free_pages a2 ++ release_pages a2 ++ pending a2 ++ out ++ l' ++ other)) as Hn.
        { rewrite (ti_slots _ _ I3). apply NoDup_arange. }
        by do 3 (apply NoDup_app in Hn as (_ & _ & Hn)).
    + exfalso. assert (0 <= Token.available_size a2)%Z by (unfold Token.available_size; lia). lia.
  - destruct Hr as (_ & _ & Hlt). case_decide; [lia|done].
Qed.

(** The requests of a batch own their partly filled last pages. *)
Record batch_owns (ps : Z) (other : list Z) (pres lasts : list Z) : Prop := {
  bw_last : Forall2 (last_ok ps) pres lasts;
  bw_held : forall i p x, pres !! i = Some p -> lasts !! i = Some x -> partial ps p -> x ∈ other;
  bw_own : forall i j p p' x x', pres !! i = Some p -> lasts !! i = Some x -> partial ps p ->
    pres !! j = Some p' -> lasts !! j = Some x' -> partial ps p' -> (x / ps = x' / ps)%Z -> i = j;
}.

Lemma batch_owns_ok ps other l outp pres lasts :
  (0 < ps)%Z -> batch_owns ps other pres lasts -> l ++ other ≡ₚ Paged.page_slots ps outp -> batch_ok ps outp pres lasts.
Proof.
  intros Hps [B1 B2 B3] Hp. split; [done| |done]. intros i p x Hi Hx Hpar. apply elem_of_page_slots; [done|].
  rewrite <- Hp. apply elem_of_app. right. by apply (B2 i p x).
Qed.

Lemma alloc_extend_group fill u x p q r n m x' o :
  Paged.alloc_extend fill u x p q r n m = Ok (x', o) -> is_not_in_free_group x' = is_not_in_free_group x.
Proof.
  unfold Paged.alloc_extend, merge_and_sort_free. intros Hr. inv_ok. repeat (case_match; inv_ok); simplify_eq; done.
Qed.

Lemma alloc_extend_fixed fill u x p q r n m x' o :
  Paged.alloc_extend fill u x p q r n m = Ok (x', o) -> al_fixed x' = al_fixed x.
Proof.
  unfold Paged.alloc_extend, merge_and_sort_free. intros Hr. inv_ok. repeat (case_match; inv_ok); simplify_eq; done.
Qed.

Lemma alloc_decode_fixed fill u x q r x' o :
  Paged.alloc_decode fill u x q r = Ok (x', o) -> al_fixed x' = al_fixed x.
Proof.
  unfold Paged.alloc_decode, merge_and_sort_free. intros Hr. inv_ok. repeat (case_match; inv_ok); simplify_eq; done.
Qed.

Lemma alloc_decode_group fill u x q r x' o :
  Paged.alloc_decode fill u x q r = Ok (x', o) -> is_not_in_free_group x' = is_not_in_free_group x.
Proof.
  unfold Paged.alloc_decode, merge_and_sort_free. intros Hr. inv_ok. repeat (case_match; inv_ok); simplify_eq; done.
Qed.

Lemma new_pages_bound ps pres seqs :
  (0 < ps)%Z -> extends pres seqs -> (new_pages ps pres seqs * ps <= new_tokens pres seqs + Z.of_nat (length seqs) * ps)%Z.
Proof.
  intros Hps He. pose proof (Forall2_length _ _ _ He) as Hl. pose proof (zdiv_sum_le pres seqs ps Hps He) as Hz.
  pose proof (Z.div_mod (new_tokens pres seqs) ps ltac:(lia)). pose proof (Z.mod_pos_bound (new_tokens pres seqs) ps Hps). nia.
Qed.

Lemma alloc_paged_extend_run s Hd t l other fill uninit pres seqs lasts n :
  let ps := al_page_size (pag_state t) in
  let zpres := Z.of_nat <$> pres in
  let zseqs := Z.of_nat <$> seqs in
  Inv s Hd -> disable (cfg s) = false -> tree_slots s l -> kv_out (PPag t) (l ++ other) -> whole_chunks (PPag t) s ->
  debug_mode (pag_state t) = false -> extends zpres zseqs -> batch_owns ps other zpres lasts ->
  Z.of_nat n = new_tokens zpres zseqs -> length uninit = n ->
  (Z.of_nat (n + length seqs * kvp_page_size (PPag t)) <= kv_available t + evictable_size_ s)%Z ->
  exists s' t' st out l' newp,
    alloc_paged_token_slots_extend fill uninit (Radix s) pres seqs lasts n (PPag t) = Ok (Radix s', PPag t', st, out) /\
    Inv s' Hd /\ tree_slots s' l' /\ kv_out (PPag t') (Paged.page_slots ps newp ++ l' ++ other) /\
    out = batch_slots ps newp zpres zseqs lasts 0 /\ NoDup out /\ length out = n.
Proof.
  intros ps zpres zseqs I Hdis Hl Hout Hch Hdbg He Hb Hn Hu Hroom. unfold alloc_paged_token_slots_extend.
  destruct (evict_for_run s Hd (PPag t) l other (n + length seqs * kvp_page_size (PPag t)) I Hdis Hl Hout Hch)
    as (s' & a' & l' & -> & I' & Ec & Hl' & Hout' & Hf & Hsum & Hr & Hnn).
  bind_step. destruct a' as [t'|t']; [done|]. injection Hf as F1 F2 F3 F4 F5.
  specialize (Hr Hroom). destruct Hout' as (outp & J & Hg & Hp). pose proof (pi_ps _ _ J) as Hps. rewrite F2 in Hp, Hps. fold ps in Hp, Hps.
  destruct (alloc_extend_run (pag_state t') outp J ltac:(congruence) fill uninit zpres zseqs lasts (Z.of_nat n) None)
    as (a2 & o & Hrun & Hres); [by rewrite (Forall2_length _ _ _ (bw_last _ _ _ _ Hb))|done|done|lia|done|].
  cbn [kvp_alloc_extend]. fold zpres zseqs. pose proof (alloc_extend_group _ _ _ _ _ _ _ _ _ _ Hrun) as Hg2.
  rewrite Hrun. bind_step.
  apply batch_result_promise in Hres; [|done|done|rewrite F2; by eapply batch_owns_ok]. destruct o as [out|].
  - unfold batch_promise in Hres. rewrite F2 in Hres. fold ps in Hres. destruct Hres as (newp & J2 & Hnd & Ho & Hln & Hlen & _).
    eexists s', (PagA a2), _, out, l', newp. split; [done|]. split; [done|]. split; [done|]. split; [|split; [done|split; [done|lia] ] ].
    exists (newp ++ outp). split; [done|]. split; [simpl; congruence|]. simpl.
    assert (al_page_size a2 = ps) as ->.
    { pose proof (alloc_extend_fixed _ _ _ _ _ _ _ _ _ _ Hrun) as E. injection E. unfold ps. congruence. }
    by rewrite page_slots_app, Hp.
  - exfalso. unfold batch_promise in Hres. rewrite F2 in Hres. fold ps in Hres. destruct Hres as [_ Hlt].
    pose proof (new_pages_bound ps zpres zseqs Hps He) as Hb2. unfold zseqs in Hb2 at 3. rewrite length_fmap in Hb2.
    cbn [kv_available pool_kv paged_kv] in Hr. unfold kvp_page_size in Hr. fold ps in Hr. lia.
Qed.

(** With room for the new tokens and one page more
    per request, free and evictable together, the paged allocation of a
    prefill batch never fails: it evicts what it must and lays every new token
    in a slot of its own, continuing each request's last page. *)
Theorem alloc_paged_extend_room s Hd t l other fill uninit pres seqs lasts n :
  let ps := al_page_size (pag_state t) in
  let zpres := Z.of_nat <$> pres in
  let zseqs := Z.of_nat <$> seqs in
  Inv s Hd -> disable (cfg s) = false -> tree_slots s l -> kv_out (PPag t) (l ++ other) -> whole_chunks (PPag t) s ->
  debug_mode (pag_state t) = false -> extends zpres zseqs -> batch_owns ps other zpres lasts ->
  Z.of_nat n = new_tokens zpres zseqs -> length uninit = n ->
  (Z.of_nat (n + length seqs * kvp_page_size (PPag t)) <= kv_available t + evictable_size_ s)%Z ->
  exists s' t' st out l' newp,
    alloc_paged_token_slots_extend fill uninit (Radix s) pres seqs lasts n (PPag t) = Ok (Radix s', PPag t', st, out) /\
    Inv s' Hd /\ tree_slots s' l' /\ kv_out (PPag t') (Paged.page_slots ps newp ++ l' ++ other) /\
    out = batch_slots ps newp zpres zseqs lasts 0 /\ NoDup out /\ length out = n.
Proof. apply alloc_paged_extend_run. Qed.

(** A decode step with room for one page per request
    never fails: each request gets one slot, the next of its last page or the
    first of a fresh one. *)
Theorem alloc_paged_decode_room s Hd t l other fill uninit seqs lasts :
  let ps := al_page_size (pag_state t) in
  let zseqs := Z.of_nat <$> seqs in
  Inv s Hd -> disable (cfg s) = false -> tree_slots s l -> kv_out (PPag t) (l ++ other) -> whole_chunks (PPag t) s ->
  debug_mode (pag_state t) = false -> (1 < ps)%Z -> Forall (fun n => 0 < n) seqs -> batch_owns ps other (Z.pred <$> zseqs) lasts ->
  length uninit = length seqs ->
  (Z.of_nat (length seqs * kvp_page_size (PPag t)) <= kv_available t + evictable_size_ s)%Z ->
  exists s' t' out l' newp,
    alloc_paged_token_slots_decode fill uninit (Radix s) seqs lasts (PPag t) = Ok (Radix s', PPag t', out) /\
    Inv s' Hd /\ tree_slots s' l' /\ kv_out (PPag t') (Paged.page_slots ps newp ++ l' ++ other) /\
    out = batch_slots ps newp (Z.pred <$> zseqs) zseqs lasts 0 /\ NoDup out /\ length out = length seqs.
Proof.
  intros ps zseqs I Hdis Hl Hout Hch Hdbg Hps1 Hpos Hb Hu Hroom. unfold alloc_paged_token_slots_decode.
  assert (He : extends (Z.pred <$> zseqs) zseqs).
  { unfold extends, zseqs. apply Forall2_fmap_l, Forall_Forall2_diag, Forall_fmap. eapply Forall_impl; [exact Hpos|]. simpl. lia. }
  destruct (evict_for_run s Hd (PPag t) l other (length seqs * kvp_page_size (PPag t)) I Hdis Hl Hout Hch)
    as (s' & a' & l' & -> & I' & Ec & Hl' & Hout' & Hf & Hsum & Hr & Hnn).
  bind_step. destruct a' as [t'|t']; [done|]. injection Hf as F1 F2 F3 F4 F5.
  specialize (Hr Hroom). destruct Hout' as (outp & J & Hg & Hp). rewrite F2 in Hp. fold ps in Hp.
  pose proof (Forall2_length _ _ _ (bw_last _ _ _ _ Hb)) as Hll. rewrite length_fmap in Hll.
  destruct (alloc_decode_run (pag_state t') outp J ltac:(congruence) fill uninit zseqs lasts)
    as (a2 & o & Hrun & Hres); [by rewrite F2|done|apply Forall_fmap; eapply Forall_impl; [exact Hpos|]; simpl; lia
      |unfold zseqs; by rewrite length_fmap|].
  cbn [kvp_alloc_decode]. fold zseqs. pose proof (alloc_decode_group _ _ _ _ _ _ _ Hrun) as Hg2. rewrite Hrun. bind_step.
  apply batch_result_promise in Hres; [|done|done|rewrite F2; eapply batch_owns_ok; [unfold ps in *; lia|done|done] ].
  assert (Ht : new_tokens (Z.pred <$> zseqs) zseqs = Z.of_nat (length seqs)).
  { pose proof (new_tokens_pred zseqs (length zseqs) ltac:(lia)) as Ht. rewrite !take_ge in Ht by (rewrite ?length_fmap; lia).
    rewrite Ht. unfold zseqs. by rewrite length_fmap. }
  destruct o as [out|]; unfold batch_promise in Hres; rewrite F2 in Hres; fold ps in Hres.
  - destruct Hres as (newp & J2 & Hnd & Ho & Hln & Hlen & _).
    eexists s', (PagA a2), out, l', newp. split; [done|]. split; [done|]. split; [done|]. split; [|split; [done|split; [done|lia] ] ].
    exists (newp ++ outp). split; [done|]. split; [simpl; congruence|]. simpl.
    assert (al_page_size a2 = ps) as ->.
    { pose proof (alloc_decode_fixed _ _ _ _ _ _ _ Hrun) as E. injection E. unfold ps. congruence. }
    by rewrite page_slots_app, Hp.
  - exfalso. destruct Hres as [_ Hlt].
    assert (new_pages ps (Z.pred <$> zseqs) zseqs <= Z.of_nat (length seqs))%Z.
    { pose proof (decode_num_pages ps zseqs Hps1) as En. unfold get_num_new_pages in En. simpl in En. injection En as <-.
      unfold zseqs, Zsum. clear. induction seqs as [|x l IH]; csimpl; [lia|]. destruct (Z.of_nat x mod ps =? 1)%Z; lia. }
    cbn [kv_available pool_kv paged_kv] in Hr. unfold kvp_page_size in Hr. fold ps in Hr. nia.
Qed.

End claims.

(** ** Writing the rows *)

Lemma pool_write_row i lo hi vals p row :
  req_to_token p !! i = Some row -> lo <= hi <= length row -> length vals = hi - lo ->
  pool_write i lo hi vals p = Ok (set_table (<[i := take lo row ++ vals ++ drop hi row]> (req_to_token p)) p).
Proof.
  intros Hi Hle Hv. unfold pool_write. rewrite Hi. cbn [or_raise mbind res_bind]. rewrite length_slice.
  replace (hi `min` length row - lo) with (hi - lo) by lia. rewrite Hv, Nat.eqb_refl. bind_step.
  by replace (lo + (hi - lo)) with hi by lia.
Qed.

(** A job fits: lengths agree and its row is wide enough. *)
Definition job_ok (p : ReqToTokenPool) (j : row_job) : Prop :=
  length (j_prefix j) = j_prefix_len j /\ j_seq_len j = j_prefix_len j + j_extend_len j /\
  exists row, req_to_token p !! j_row j = Some row /\ j_seq_len j <= length row.

(** The row a job leaves. *)
Definition job_row (out : list Z) (pt : nat) (j : row_job) (row : list Z) : list Z :=
  j_prefix j ++ slice pt (pt + j_extend_len j) out ++ drop (j_seq_len j) row.

(** Where the slots of a job start in the batch's list. *)
Definition job_start (jobs : list row_job) (m : nat) : nat := sum_list (j_extend_len <$> take m jobs).

Lemma write_job_run p j out pt :
  job_ok p j -> pt + j_extend_len j <= length out ->
  exists row, req_to_token p !! j_row j = Some row /\
  (p ← pool_write (j_row j) 0 (j_prefix_len j) (j_prefix j) p;
   pool_write (j_row j) (j_prefix_len j) (j_seq_len j) (slice pt (pt + j_extend_len j) out) p) =
  Ok (set_table (<[j_row j := job_row out pt j row]> (req_to_token p)) p).
Proof.
  intros (Hp & Hs & row & Hr & Hw) Ho. exists row. split; [done|].
  rewrite (pool_write_row _ _ _ _ _ row) by (done || lia). bind_step.
  assert (j_row j < length (req_to_token p)) as Hlt by (by eapply lookup_lt_Some).
  rewrite (pool_write_row _ _ _ _ _ (j_prefix j ++ drop (j_prefix_len j) row));
    [|simpl; by rewrite list_lookup_insert_eq|rewrite length_app, length_drop; lia|rewrite length_slice; lia].
  simpl. f_equal. unfold set_table. simpl. f_equal. rewrite list_insert_insert_eq. f_equal. unfold job_row.
  rewrite take_app_le, take_ge by lia. f_equal. f_equal. rewrite drop_app_ge by lia. rewrite drop_drop. f_equal. lia.
Qed.

(** The table after writing the jobs from position [pt] on, job by job. *)
Fixpoint jobs_table (out : list Z) (pt : nat) (jobs : list row_job) (tbl : list (list Z)) : list (list Z) :=
  match jobs with
  | [] => tbl
  | j :: jobs => jobs_table out (pt + j_extend_len j) jobs (alter (job_row out pt j) (j_row j) tbl)
  end.

Lemma job_ok_alter out pt p j j' :
  job_ok p j -> job_ok p j' -> pt + j_extend_len j <= length out ->
  job_ok (set_table (alter (job_row out pt j) (j_row j) (req_to_token p)) p) j'.
Proof.
  intros (Hp & Hs & row0 & Hr0 & Hw0) (Hp' & Hs' & row & Hr & Hw) Ho. split; [done|]. split; [done|]. simpl.
  destruct (decide (j_row j = j_row j')) as [E|Hne].
  - rewrite <- E in *. assert (row0 = row) as -> by congruence. eexists. rewrite list_lookup_alter_eq, Hr. simpl. split; [done|].
    unfold job_row. rewrite !length_app, length_slice, length_drop. lia.
  - exists row. by rewrite list_lookup_alter_ne.
Qed.

Lemma write_cache_indices_run out jobs pt p :
  Forall (job_ok p) jobs -> pt + sum_list (j_extend_len <$> jobs) <= length out ->
  write_cache_indices out pt jobs p = Ok (set_table (jobs_table out pt jobs (req_to_token p)) p).
Proof.
  revert pt p. induction jobs as [|j jobs IH]; intros pt p Hok Ho; cbn [write_cache_indices jobs_table] in *; [by destruct p|].
  rewrite fmap_cons in Ho. cbn [sum_list_with] in Ho. change (id (j_extend_len j)) with (j_extend_len j) in Ho.
  apply Forall_cons in Hok as [Hj Hok]. destruct (write_job_run p j out pt Hj ltac:(lia)) as (row & Hr & Hrun).
  assert (Ei : <[j_row j := job_row out pt j row]> (req_to_token p) = alter (job_row out pt j) (j_row j) (req_to_token p)).
  { apply list_eq. intros i. destruct (decide (j_row j = i)) as [<-|Hne].
    - rewrite list_lookup_insert_eq, list_lookup_alter_eq, Hr by (by eapply lookup_lt_Some). done.
    - by rewrite list_lookup_insert_ne, list_lookup_alter_ne. }
  rewrite Ei in Hrun. destruct (pool_write (j_row j) 0 (j_prefix_len j) (j_prefix j) p) as [p1|]; [|done].
  cbn [mbind res_bind] in *. rewrite Hrun. bind_step. rewrite IH; [done| |lia].
  eapply Forall_impl; [exact Hok|]. intros j' Hj'. apply job_ok_alter; [done|done|lia].
Qed.

Lemma jobs_table_lookup out pt jobs tbl m j row :
  NoDup (j_row <$> jobs) -> jobs !! m = Some j -> tbl !! j_row j = Some row ->
  jobs_table out pt jobs tbl !! j_row j = Some (job_row out (pt + job_start jobs m) j row).
Proof.
  assert (Hout : forall jobs pt tbl i, i ∉ j_row <$> jobs -> jobs_table out pt jobs tbl !! i = tbl !! i).
  { clear. induction jobs as [|j jobs IH]; intros pt tbl i Hi; [done|]. csimpl in Hi. rewrite elem_of_cons in Hi. simpl.
    rewrite IH by tauto. rewrite list_lookup_alter_ne; [done|]. intros E. apply Hi. by left. }
  revert pt tbl m. induction jobs as [|j0 jobs IH]; intros pt tbl m Hnd Hm Hr; [done|]. csimpl in Hnd.
  apply NoDup_cons in Hnd as [Hn Hnd]. destruct m as [|m]; simpl in Hm.
  - injection Hm as ->. simpl. rewrite Hout by done. rewrite list_lookup_alter_eq, Hr. unfold job_start. simpl. by rewrite Nat.add_0_r.
  - simpl. rewrite (IH _ _ m Hnd Hm).
    + unfold job_start. csimpl. by rewrite Nat.add_assoc.
    + rewrite list_lookup_alter_ne; [done|]. intros E. apply Hn. rewrite E. apply list_elem_of_fmap. exists j.
      split; [done|]. by eapply list_elem_of_lookup_2.
Qed.

(** After [write_cache_indices] the row of every
    request of the batch reads its prefix slots, then its new slots in order,
    then what it held before; the call never raises on a batch that fits. *)
Theorem write_cache_indices_rows out jobs p :
  Forall (job_ok p) jobs -> sum_list (j_extend_len <$> jobs) <= length out -> NoDup (j_row <$> jobs) ->
  exists p', write_cache_indices out 0 jobs p = Ok p' /\
    forall m j row, jobs !! m = Some j -> req_to_token p !! j_row j = Some row ->
      req_to_token p' !! j_row j =
        Some (j_prefix j ++ slice (job_start jobs m) (job_start jobs m + j_extend_len j) out ++ drop (j_seq_len j) row).
Proof.
  intros Hok Ho Hnd. eexists. split; [by apply write_cache_indices_run|]. intros m j row Hm Hr. simpl.
  by rewrite (jobs_table_lookup _ _ _ _ m j row).
Qed.

(** ** The Triton kernels *)

Lemma masked_offsets_eq n : masked_offsets n = seq 0 n.
Proof.
  unfold masked_offsets. generalize BLOCK_SIZE (eq_refl : (0 <? BLOCK_SIZE)%nat = true). intros B HB%Nat.ltb_lt.
  assert (Hf : forall m lo, base.filter (fun o => o < n) (seq lo m) = seq lo ((n - lo) `min` m)).
  { induction m as [|m IH]; intros lo; [by rewrite Nat.min_0_r|]. simpl. destruct (decide (lo < n)).
    - rewrite filter_cons_True, IH by done. by replace ((n - lo) `min` S m) with (S ((n - S lo) `min` m)) by lia.
    - rewrite filter_cons_False, IH by done. replace ((n - S lo) `min` m) with 0 by lia. by replace ((n - lo) `min` S m) with 0 by lia. }
  assert (Hk : forall k, seq 0 k ≫= (fun i => base.filter (fun off => off < n) ((fun o => o + i * B) <$> seq 0 B)) =
    base.filter (fun off => off < n) (seq 0 (k * B))).
  { induction k as [|k IH]; [done|]. rewrite seq_S, bind_app, IH. csimpl. rewrite app_nil_r.
    rewrite (Nat.add_comm B), seq_app, filter_app. f_equal. simpl. f_equal.
    apply list_eq. intros i. rewrite list_lookup_fmap. destruct (decide (i < B)).
    - rewrite !lookup_seq_lt by done. simpl. f_equal. lia.
    - by rewrite !lookup_seq_ge by lia. }
  rewrite Hk, Hf. f_equal. rewrite Nat.sub_0_r. apply Nat.min_l.
  pose proof (Nat.div_mod (n + B - 1) B ltac:(lia)). pose proof (Nat.mod_upper_bound (n + B - 1) B ltac:(lia)). nia.
Qed.

Lemma store_cells_app row c1 c2 : store_cells row (c1 ++ c2) = store_cells (store_cells row c1) c2.
Proof. apply foldl_app. Qed.

(** Storing a run of values from column [lo] on. *)
Lemma store_cells_range row lo (vals : list Z) (f : nat -> Z) :
  lo + length vals <= length row -> (forall i, i < length vals -> f i = vals !!! i) ->
  store_cells row ((fun off => (off + lo, f off)) <$> seq 0 (length vals)) = take lo row ++ vals ++ drop (lo + length vals) row.
Proof.
  intros Hl Hf.
  assert (forall m, m <= length vals -> store_cells row ((fun off => (off + lo, f off)) <$> seq 0 m) =
    take lo row ++ take m vals ++ drop (lo + m) row) as Hm; [|rewrite Hm by done; by rewrite (take_ge vals)].
  induction m as [|m IH]; intros Hle.
  { unfold store_cells. simpl. by rewrite Nat.add_0_r, take_drop. }
  rewrite seq_S, fmap_app, store_cells_app, IH by lia. unfold store_cells. simpl. rewrite (Hf m) by lia.
  destruct (lookup_lt_is_Some_2 vals m) as [v Hv]; [lia|]. rewrite (list_lookup_total_correct _ _ _ Hv).
  destruct (lookup_lt_is_Some_2 row (lo + m)) as [x Hx]; [lia|].
  rewrite (drop_S row x (lo + m)) by done. rewrite (take_S_r vals m v) by done.
  rewrite insert_app_r_alt by (rewrite length_take; lia). f_equal. rewrite <- app_assoc.
  rewrite insert_app_r_alt by (rewrite !length_take; lia). f_equal.
  replace (m + lo - length (take lo row) - length (take m vals)) with 0 by (rewrite !length_take; lia). simpl.
  by replace (S (lo + m)) with (lo + S m) by lia.
Qed.

Lemma write_row_kernel_spec jobs out pid j row :
  length (j_prefix j) = j_prefix_len j -> j_seq_len j = j_prefix_len j + j_extend_len j -> j_seq_len j <= length row ->
  job_start jobs pid + j_extend_len j <= length out ->
  store_cells row (write_row_kernel jobs out pid j) = job_row out (job_start jobs pid) j row.
Proof.
  intros Hp Hs Hw Ho. unfold write_row_kernel. rewrite !masked_offsets_eq, store_cells_app.
  fold (job_start jobs pid). set (st := job_start jobs pid) in *.
  assert ((fun off => (off, j_prefix j !!! off)) <$> seq 0 (j_prefix_len j) =
    (fun off => (off + 0, j_prefix j !!! off)) <$> seq 0 (length (j_prefix j))) as ->.
  { rewrite Hp. apply list_fmap_ext. intros i x _. by rewrite Nat.add_0_r. }
  rewrite store_cells_range by (done || lia). rewrite Hs. simpl. replace (j_prefix_len j + j_extend_len j - j_prefix_len j) with (j_extend_len j) by lia.
  assert (Hsl : length (slice st (st + j_extend_len j) out) = j_extend_len j) by (rewrite length_slice; lia).
  rewrite <- Hsl at 1. rewrite store_cells_range.
  - unfold job_row. rewrite Hsl, Hs. rewrite take_app_le, take_ge by lia. f_equal. f_equal.
    rewrite drop_app_ge by lia. rewrite drop_drop. f_equal. lia.
  - rewrite length_app, length_drop, Hsl. lia.
  - intros i Hi. unfold slice. rewrite !list_lookup_total_alt, lookup_take_lt by lia. by rewrite lookup_drop.
Qed.

(** The Triton kernel that fills the rows of a
    batch leaves the same table as the reference loop. *)
Theorem write_kernel_equals_reference out jobs p :
  Forall (job_ok p) jobs -> sum_list (j_extend_len <$> jobs) <= length out -> NoDup (j_row <$> jobs) ->
  write_cache_indices out 0 jobs p = Ok (write_req_to_token_pool_triton jobs out p).
Proof.
  intros Hok Ho Hnd. rewrite write_cache_indices_run by done. f_equal. unfold write_req_to_token_pool_triton.
  assert (Hgen : forall post pre q, jobs = pre ++ post -> Forall (job_ok q) post ->
    foldl (fun p ij => set_table (alter (fun row => store_cells row (write_row_kernel jobs out ij.1 ij.2)) (j_row ij.2) (req_to_token p)) p)
      q (zip (seq (length pre) (length post)) post) =
    set_table (jobs_table out (job_start jobs (length pre)) post (req_to_token q)) q).
  { induction post as [|j post IH]; intros pre q Hj Hq; [by destruct q|]. apply Forall_cons in Hq as [Hj0 Hq].
    assert (Hst : job_start jobs (length pre) + j_extend_len j <= length out /\
      job_start jobs (S (length pre)) = job_start jobs (length pre) + j_extend_len j).
    { assert (Hs : job_start jobs (S (length pre)) = job_start jobs (length pre) + j_extend_len j).
      { unfold job_start. rewrite Hj. change (j :: post) with ([j] ++ post). rewrite take_app_length, app_assoc.
        rewrite take_app_length' by (rewrite length_app; simpl; lia). rewrite fmap_app, sum_list_with_app. csimpl. unfold id. lia. }
      split; [|done]. rewrite <- Hs. etransitivity; [|exact Ho]. unfold job_start.
      rewrite <- (take_drop (S (length pre)) jobs) at 2. rewrite fmap_app, sum_list_with_app. lia. }
    destruct Hst as [Hb Hnext]. cbn [length seq zip_with zip foldl jobs_table fst snd].
    assert (alter (fun row => store_cells row (write_row_kernel jobs out (length pre) j)) (j_row j) (req_to_token q) =
      alter (job_row out (job_start jobs (length pre)) j) (j_row j) (req_to_token q)) as ->.
    { destruct Hj0 as (H1 & H2 & row & Hr & Hw). apply list_eq. intros i. destruct (decide (j_row j = i)) as [<-|Hne].
      - rewrite !list_lookup_alter_eq, Hr. simpl. f_equal. by apply write_row_kernel_spec.
      - by rewrite !list_lookup_alter_ne. }
    rewrite <- Hnext. specialize (IH (pre ++ [j]) (set_table (alter (job_row out (job_start jobs (length pre)) j) (j_row j) (req_to_token q)) q)).
    rewrite length_app in IH. simpl in IH. rewrite Nat.add_1_r in IH. rewrite IH; [done|by rewrite <- app_assoc|].
    eapply Forall_impl; [exact Hq|]. intros j' Hj'. by apply job_ok_alter. }
  specialize (Hgen jobs [] p eq_refl Hok). simpl in Hgen. rewrite Hgen. done.
Qed.

Lemma concat_lookup_rows {T} `{Inhabited T} (tbl : list (list T)) w i c :
  Forall (fun row => length row = w) tbl -> i < length tbl -> c < w -> concat tbl !!! (i * w + c) = (tbl !!! i) !!! c.
Proof.
  intros Hw. revert i. induction Hw as [|row tbl Hr Hw IH]; intros i Hi Hc; simpl in *; [lia|].
  rewrite !list_lookup_total_alt. destruct i as [|i]; simpl.
  - rewrite lookup_app_l by lia. done.
  - rewrite lookup_app_r by lia. replace (w + i * w + c - length row) with (i * w + c) by lia.
    specialize (IH i ltac:(lia) Hc). rewrite !list_lookup_total_alt in IH. by rewrite IH.
Qed.

(** The kernel that reads the table as one flat
    buffer finds the last slot of every request of the batch, and [-1] for an
    empty prefix, as the torch reference does. *)
Theorem get_last_loc_kernel_correct p rows lens out :
  pool_inv p out -> Forall (fun i => i <= pool_size p) rows -> Forall (fun n => n <= max_context_len p) lens ->
  get_last_loc_kernel p rows lens = get_last_loc_torch p rows lens.
Proof.
  intros [_ Ht Hw] Hr Hl. unfold get_last_loc_kernel, get_last_loc_torch. revert lens Hl.
  induction Hr as [|i rows Hi Hr IH]; intros [|n lens] Hl; simpl; try done. apply Forall_cons in Hl as [Hn Hl].
  rewrite (IH lens Hl). f_equal. destruct (Nat.ltb_spec 0 n); [|done].
  apply concat_lookup_rows; [done|rewrite Ht; unfold alloc_size; lia|lia].
Qed.

Lemma get_last_loc_kernel_correct_witness :
  get_last_loc_kernel (mkPool 2 3 [[0; 0; 0]; [7; 8; 0]; [4; 5; 6]]%Z [1; 2] [0; 0; 0]) [2; 1; 1] [3; 2; 0] =
  get_last_loc_torch (mkPool 2 3 [[0; 0; 0]; [7; 8; 0]; [4; 5; 6]]%Z [1; 2] [0; 0; 0]) [2; 1; 1] [3; 2; 0].
Proof.
  apply (get_last_loc_kernel_correct _ _ _ []); [split; [done|done|repeat constructor]|repeat constructor|repeat constructor].
Defined.

(** ** A batch of jobs on a small table *)

Definition demo_jobs : list row_job := [mkJob 2 1 3 2 [9%Z]; mkJob 1 0 1 1 []].
Definition demo_table : ReqToTokenPool := mkPool 2 4 (replicate 3 (replicate 4 0%Z)) [] [0; 1; 1].

Lemma demo_jobs_ok : Forall (job_ok demo_table) demo_jobs.
Proof. repeat constructor; simpl; eexists; (split; [reflexivity|simpl; lia]). Qed.

Lemma demo_jobs_rows : NoDup (j_row <$> demo_jobs).
Proof. apply (bool_decide_unpack _). vm_compute. exact I. Qed.

Lemma write_cache_indices_rows_witness :
  exists p', write_cache_indices [4; 5; 6]%Z 0 demo_jobs demo_table = Ok p' /\
    forall m j row, demo_jobs !! m = Some j -> req_to_token demo_table !! j_row j = Some row ->
      req_to_token p' !! j_row j = Some (j_prefix j ++
        slice (job_start demo_jobs m) (job_start demo_jobs m + j_extend_len j) [4; 5; 6]%Z ++ drop (j_seq_len j) row).
Proof.
  apply (write_cache_indices_rows [4; 5; 6]%Z demo_jobs demo_table); [apply demo_jobs_ok|vm_compute; lia|apply demo_jobs_rows].
Defined.

Lemma write_kernel_equals_reference_witness :
  write_cache_indices [4; 5; 6]%Z 0 demo_jobs demo_table =
  Ok (write_req_to_token_pool_triton demo_jobs [4; 5; 6]%Z demo_table).
Proof.
  apply (write_kernel_equals_reference [4; 5; 6]%Z demo_jobs demo_table); [apply demo_jobs_ok|vm_compute; lia|apply demo_jobs_rows].
Defined.

(** ** Making room in the demo cache *)

#[local] Existing Instance demo_env.

Lemma alloc_token_slots_iff_room_witness :
  if decide (4 <= kv_available demo_alloc + evictable_size_ demo2)%Z then
    exists s' a' st out l', alloc_token_slots (Radix demo2) 4 (PTok demo_alloc) = Ok (Radix s', a', st, out) /\
      Inv s' no_locks /\ tree_slots s' l' /\ kv_out a' (out ++ l' ++ []) /\ length out = 4 /\ NoDup (out ++ l' ++ [])
  else alloc_token_slots (Radix demo2) 4 (PTok demo_alloc) = Raise RuntimeError.
Proof.
  apply (alloc_token_slots_iff_room demo2 no_locks demo_alloc ([5; 6; 7]%Z ++ slots1) [] 4);
    [apply demo_inv2|reflexivity|apply demo_slots2|apply demo_out].
Defined.

(** An empty cache of page size 4 over 8 pages, page 5 held by a request. *)
Definition paged_cfg : CacheConfig := mkConfig false 4 false false false false LRUStrategy.
Definition paged0 : RadixCache := init_cache paged_cfg.

Lemma paged0_slots : tree_slots paged0 [].
Proof.
  exists {[0]}. split; [|done]. intros n. rewrite elem_of_singleton. split.
  - intros ->. exists None, [], []. constructor.
  - intros (ek & q & vq & Hp). inversion Hp as [|? c cd v ? ? ? Hc]; subst; [done|].
    destruct (co_entry _ _ _ _ _ _ Hc) as (nd & ck & Hnd & Hg). vm_compute in Hnd. injection Hnd as <-. discriminate Hg.
Qed.

Lemma paged0_chunks : whole_chunks (PPag (PagA demo_pool)) paged0.
Proof.
  intros n nd v (ek & q & vq & Hp) Hnd Hv. inversion Hp as [|? c cd w ? ? ? Hc]; subst.
  - vm_compute in Hnd. injection Hnd as <-. injection Hv as <-. split; [done|]. by exists [].
  - destruct (co_entry _ _ _ _ _ _ Hc) as (nd0 & ck & Hnd0 & Hg). vm_compute in Hnd0. injection Hnd0 as <-. discriminate Hg.
Qed.

Lemma demo_pool_out : kv_out (PPag (PagA demo_pool)) ([] ++ [20; 21; 22; 23]%Z).
Proof. exists [5]%Z. split; [apply demo_pool_inv|]. split; [done|]. reflexivity. Qed.

Lemma demo_batch_owns : batch_owns 4 [20; 21; 22; 23]%Z [2; 0]%Z [21; -1]%Z.
Proof.
  split.
  - repeat constructor.
  - intros [|[|i]] p l Hp Hl Hpar; simplify_eq/=; [set_solver|by destruct Hpar].
  - apply demo_batch_ok.
Qed.

Lemma alloc_paged_extend_room_witness :
  exists s' t' st out l' newp,
    alloc_paged_token_slots_extend 0 (replicate 7 0%Z) (Radix paged0) [2; 0] [5; 4] [21; -1]%Z 7 (PPag (PagA demo_pool))
      = Ok (Radix s', PPag t', st, out) /\
    Inv s' no_locks /\ tree_slots s' l' /\ kv_out (PPag t') (Paged.page_slots 4 newp ++ l' ++ [20; 21; 22; 23]%Z) /\
    out = batch_slots 4 newp [2; 0]%Z [5; 4]%Z [21; -1]%Z 0 /\ NoDup out /\ length out = 7.
Proof.
  apply (alloc_paged_extend_room paged0 no_locks (PagA demo_pool) [] [20; 21; 22; 23]%Z 0 (replicate 7 0%Z) [2; 0] [5; 4] [21; -1]%Z 7);
    [apply init_inv; simpl; lia|reflexivity|apply paged0_slots|apply demo_pool_out|apply paged0_chunks|reflexivity
    |repeat constructor; simpl; lia|apply demo_batch_owns|reflexivity|reflexivity|vm_compute; discriminate].
Defined.

Lemma alloc_paged_decode_room_witness :
  exists s' t' out l' newp,
    alloc_paged_token_slots_decode 0 [0; 0]%Z (Radix paged0) [3; 1] [21; -1]%Z (PPag (PagA demo_pool)) = Ok (Radix s', PPag t', out) /\
    Inv s' no_locks /\ tree_slots s' l' /\ kv_out (PPag t') (Paged.page_slots 4 newp ++ l' ++ [20; 21; 22; 23]%Z) /\
    out = batch_slots 4 newp [2; 0]%Z [3; 1]%Z [21; -1]%Z 0 /\ NoDup out /\ length out = 2.
Proof.
  apply (alloc_paged_decode_room paged0 no_locks (PagA demo_pool) [] [20; 21; 22; 23]%Z 0 [0; 0]%Z [3; 1] [21; -1]%Z);
    [apply init_inv; simpl; lia|reflexivity|apply paged0_slots|apply demo_pool_out|apply paged0_chunks|reflexivity
    |reflexivity|repeat constructor; lia|apply demo_batch_owns|reflexivity|vm_compute; discriminate].
Defined.
