(* ===== verification/ReqCacheClaims.v ===== *)
(** * ReqCacheClaims: the contract of caching and releasing requests

    The theorems speak of the public operations and of who owns which slot;
    each is instantiated on a concrete cache, pool and request. *)

From S2P Require Import Prelude RadixKey RadixNode RadixTree RadixInv RadixSteps RadixContent RadixOps RadixInsert RadixLock RadixEvict RadixSpec ReqPool ReqCache ReqCacheSpec Allocator AllocatorSpec RadixDemo.

Open Scope nat_scope.

Section claims.
Context `{Env} {A : Type} `{KVAllocatorLaws A}.
Implicit Types (s : RadixCache) (Hd : nat -> Z).

(** The locks after one lock moves from [n0] to [n']. *)
Definition move_lock (n0 n' : nat) Hd : nat -> Z :=
  <[n' := (<[n0 := (Hd n0 - 1)%Z]> Hd n' + 1)%Z]> (<[n0 := (Hd n0 - 1)%Z]> Hd).

(** Caching a request that goes on
    (a prefill chunk, or a prefill that starts decoding) returns and keeps the
    account of slots exact: the tree takes the page-aligned part, duplicates
    of slots it already had are freed once, and the request keeps its tail.
    Afterwards its row holds, for the whole aligned part, the slots of the
    tree, which it has locked in place of the node it held before; other rows
    and everything cached stay as they were. *)
Theorem cache_unfinished_req_keeps_ownership s Hd p r i n0 kv tail other l (a : A) chunked :
  let ids := get_fill_ids r in
  let k := req_key s ids r in
  Inv s Hd -> disable (cfg s) = false -> req_pool_idx r = Some i ->
  req_view s p r ids kv -> req_owns a s r ids kv tail -> last_node r = Some n0 -> (0 < Hd n0)%Z ->
  tree_slots s l -> kv_out a (l ++ slice (cache_protected_len r) (key_len k) kv ++ tail ++ other) ->
  exists s' a' p' r' l' new n', cache_unfinished_req r chunked p s a = Ok (s', a', p', r') /\
    Inv s' (move_lock n0 n' Hd) /\ tree_slots s' l' /\ kv_out a' (l' ++ tail ++ other) /\
    req_view s' p' r' ids (new ++ drop (key_len k) kv) /\ prefix_indices r' = new ++ drop (key_len k) kv /\
    cache_protected_len r' = key_len k /\ length new = key_len k /\ last_node r' = Some n' /\
    path_from (tree s') (req_extra_key r) (root_node s') (key_iter k) new n' /\
    kv_cover a' (drop (key_len k) kv) tail /\
    (forall j, j <> i -> req_to_token p' !! j = req_to_token p !! j) /\
    (forall ek q vs, cached s ek q vs -> cached s' ek q vs).
Proof.
  intros ids k (L & P & I) Hdis Hi V O Hn0 Hpos Hl Hout. rewrite (tree_slots_iff _ _ _ _ _ _ I) in Hl.
  destruct (cache_unfinished_run s L P Hd p r i n0 kv tail other a chunked I Hdis Hi V O Hn0 Hpos)
    as (s' & a' & p' & r' & L' & P' & new & n' & Hrun & [Q1 Q2 Q3 [Q4 Q5] Q6 [Q7 Q8] Q9 Q10 Q11] & Hoth & _).
  { eapply kv_out_perm; [|exact Hout]. by rewrite Hl. }
  exists s', a', p', r', (owned (tree s') L'), new, n'. split; [done|]. split; [by exists L', P'|].
  split; [by apply (tree_slots_iff _ _ _ _ _ _ Q1)|]. done.
Qed.

(** Caching a finished request returns,
    leaves its whole page-aligned sequence cached (so an identical prompt hits
    it), gives up its lock, and leaves it nothing: the slots allocated are
    those of the tree and of the others. *)
Theorem cache_finished_req_caches_all s Hd p r n0 nkv kv tail other l (a : A) :
  let ids := take nkv (origin_input_ids r ++ output_ids r) in
  let k := req_key s ids r in
  Inv s Hd -> disable (cfg s) = false -> disable_finished_insert (cfg s) = false ->
  req_view s p r ids kv -> req_owns a s r ids kv tail -> last_node r = Some n0 -> (0 < Hd n0)%Z ->
  tree_slots s l -> kv_out a (l ++ slice (cache_protected_len r) (key_len k) kv ++ tail ++ other) ->
  exists s' a' l' new, cache_finished_req r true nkv p s a = Ok (s', a') /\
    Inv s' (<[n0 := (Hd n0 - 1)%Z]> Hd) /\ tree_slots s' l' /\ kv_out a' (l' ++ other) /\
    cached s' (req_extra_key r) (key_iter k) new /\ take (cache_protected_len r) new = take (cache_protected_len r) kv /\
    (forall ek q vs, cached s ek q vs -> cached s' ek q vs).
Proof.
  intros ids k (L & P & I) Hdis Hfin V O Hn0 Hpos Hl Hout. rewrite (tree_slots_iff _ _ _ _ _ _ I) in Hl.
  destruct (cache_finished_insert_run s L P Hd p r n0 nkv kv tail other a I Hdis Hfin V O Hn0 Hpos)
    as (s' & a' & L' & P' & new & Hrun & [Q1 Q2 Q3 Q4 _] & Hc & Ht).
  { eapply kv_out_perm; [|exact Hout]. by rewrite Hl. }
  exists s', a', (owned (tree s') L'), new. split; [done|]. split; [by exists L', P'|].
  split; [by apply (tree_slots_iff _ _ _ _ _ _ Q1)|]. done.
Qed.

(** Finishing, with or without insertion. *)
Lemma cache_finished_run s L P Hd p r n0 nkv kv tail other (a : A) is_insert :
  let ids := take nkv (origin_input_ids r ++ output_ids r) in
  Inv_at s L P Hd None -> disable (cfg s) = false ->
  req_view s p r ids kv -> req_owns a s r ids kv tail -> last_node r = Some n0 -> (0 < Hd n0)%Z ->
  kv_out a (owned (tree s) L ++ slice (cache_protected_len r) (key_len (req_key s ids r)) kv ++ tail ++ other) ->
  exists s' a' L' P', cache_finished_req r is_insert nkv p s a = Ok (s', a') /\ finished s L r n0 Hd a a' other s' L' P'.
Proof.
  intros ids I Hdis V O Hn0 Hpos Hout. destruct (is_insert && negb (disable_finished_insert (cfg s))) eqn:E.
  - apply andb_true_iff in E as [-> E]. apply negb_true_iff in E.
    destruct (cache_finished_insert_run s L P Hd p r n0 nkv kv tail other a I Hdis E V O Hn0 Hpos Hout)
      as (s' & a' & L' & P' & new & Hrun & F & _). eauto 10.
  - by apply (cache_finished_drop_run s L P Hd p r n0 nkv kv tail other a is_insert).
Qed.

(** What [release_overallocated_kv_indices] frees. *)
Definition overallocated (args : ServerArgs) (row : list Z) (start_p end_p : nat) : list Z :=
  slice (if (1 <? args_page_size args)%nat then ceil_align start_p (args_page_size args) else start_p) end_p row.

Lemma release_overallocated_run args r start_p end_p p (a : A) row over rest :
  req_row p r = Ok row ->
  (speculative_algorithm args = None -> strip_thinking_cache args = false -> start_p = end_p) ->
  kv_cover a (overallocated args row start_p end_p) over -> kv_out a (over ++ rest) ->
  (overallocated args row start_p end_p = [] -> over = []) ->
  exists a', release_overallocated_kv_indices args r start_p end_p p a = Ok a' /\ kv_out a' rest.
Proof.
  intros Hrow Hs Hc Ho Hnil. unfold release_overallocated_kv_indices, overallocated in *.
  assert ((if (match speculative_algorithm args with None => true | Some _ => false end) && negb (strip_thinking_cache args)
     then py_assert (start_p =? end_p)%nat else Ok tt) = Ok tt) as ->.
  { destruct (speculative_algorithm args); [done|]. destruct (strip_thinking_cache args); [done|]. simpl.
    rewrite (Hs eq_refl eq_refl), Nat.eqb_refl. done. }
  bind_step. revert Hc Hnil. generalize (if (1 <? args_page_size args)%nat then ceil_align start_p (args_page_size args) else start_p).
  intros st Hc Hnil. destruct (Nat.ltb_spec st end_p).
  - rewrite Hrow. bind_step. destruct (kv_cover_law a _ _ _ Ho Hc) as (a' & -> & ? & _). eauto.
  - exists a. split; [done|]. rewrite Hnil in Ho; [done|]. unfold slice. by replace (end_p - st) with 0 by lia.
Qed.

(** C13: Releasing a request returns and leaves it
    nothing: its row goes back to the pool, every slot it owned, the
    speculatively over-allocated ones included, goes back to the allocator
    exactly once or stays with the tree, its lock is given up, and nothing
    that was cached is lost. *)
Theorem release_kv_cache_returns_all args s Hd p r i n0 alloc kv row tail over other l rows (a : A) is_insert :
  let n := effective_kv_committed_len (strip_thinking_cache args) r in
  let ids := take n (origin_input_ids r ++ output_ids r) in
  Inv s Hd -> disable (cfg s) = false -> req_pool_idx r = Some i -> kv_allocated_len r = Some alloc ->
  req_view s p r ids kv -> req_owns a s r ids kv tail -> req_row p r = Ok row ->
  kv_cover a (overallocated args row n alloc) over -> (overallocated args row n alloc = [] -> over = []) ->
  (speculative_algorithm args = None -> strip_thinking_cache args = false -> n = alloc) ->
  last_node r = Some n0 -> (0 < Hd n0)%Z -> pool_inv p (i :: rows) -> tree_slots s l ->
  kv_out a (l ++ slice (cache_protected_len r) (key_len (req_key s ids r)) kv ++ tail ++ over ++ other) ->
  exists s' a' p' r' l', release_kv_cache args r is_insert p s a = Ok (s', a', p', r') /\
    Inv s' (<[n0 := (Hd n0 - 1)%Z]> Hd) /\ tree_slots s' l' /\ kv_out a' (l' ++ other) /\
    pool_inv p' rows /\ req_pool_idx r' = None /\ kv_allocated_len r' = None /\
    (forall ek q vs, cached s ek q vs -> cached s' ek q vs).
Proof.
  intros n ids (L & P & I) Hdis Hi Hal V O Hrow Hc Hnil Hsp Hn0 Hpos Hpool Hl Hout.
  rewrite (tree_slots_iff _ _ _ _ _ _ I) in Hl. unfold release_kv_cache, has_row. rewrite Hi, Hal. cbn [negb Bool.eqb py_assert mbind res_bind].
  fold n. destruct (cache_finished_run s L P Hd p r n0 n kv tail (over ++ other) a (is_insert && negb (skip_radix_cache_insert r)) I Hdis V O Hn0 Hpos)
    as (s' & a1 & L' & P' & -> & [Q1 Q2 Q3 Q4 Q5]).
  { eapply kv_out_perm; [|exact Hout]. by rewrite Hl. }
  bind_step.
  destruct (release_overallocated_run args r n alloc p a1 row over (owned (tree s') L' ++ other) Hrow Hsp (Q5 _ _ Hc)) as (a2 & -> & Hout2).
  { eapply kv_out_perm; [|exact Q3]. solve_Permutation. }
  { done. }
  bind_step. destruct (pool_free_run r i p rows Hi Hpool) as [-> Hp']. bind_step.
  eexists s', a2, _, _, (owned (tree s') L'). split; [done|]. split; [by exists L', P'|].
  split; [by apply (tree_slots_iff _ _ _ _ _ _ Q1)|]. done.
Qed.

End claims.

(** ** A concrete request *)

#[local] Existing Instance demo_env.

(** A request with the tokens of [key2] and no matched prefix, so it holds a
    lock on the root, over a cache that holds [key1]. *)
Definition req_state : RadixCache := run_state demo1 (inc_lock_ref 0 demo1).
Definition req_slots : list Z := [5; 6; 7; 8; 9]%Z.
Definition req_pool : ReqToTokenPool :=
  mkPool 2 6 [replicate 6 0%Z; req_slots ++ [0%Z]; replicate 6 0%Z] [2] [0; 1; 0].
Definition the_req : Req :=
  mkReq [11; 12; 20; 21]%Z [22]%Z [11; 12; 20; 21; 22]%Z 5 None (Some 1%Z) None false 0 [] (Some 0) (Some 1) 5 (Some 5) 0 0.
Definition req_alloc : TokenAllocator := TokA (Token.alloc (Token.init 12 true) 9).1.
Definition root_lock : nat -> Z := <[0 := (no_locks 0 + 1)%Z]> no_locks.

Lemma root_live s : live s (root_node s).
Proof. exists None, [], []. constructor. Qed.

Lemma req_state_inv : Inv req_state root_lock.
Proof.
  apply (reach_step demo_cfg); [done|simpl; lia|].
  apply (reach_lock _ demo1 _ 0 req_state 0%Z); [apply demo_reach1|apply (root_live demo1)|vm_compute; reflexivity].
Qed.

Lemma req_state_slots : tree_slots req_state slots1.
Proof.
  apply (inc_lock_slots demo1 no_locks 0 req_state 0%Z);
    [apply demo_inv1|reflexivity|apply (root_live demo1)|vm_compute; reflexivity|apply demo_slots1].
Qed.

Lemma the_req_view : req_view req_state req_pool the_req [11; 12; 20; 21; 22]%Z req_slots.
Proof.
  split; [reflexivity|reflexivity|simpl; lia|constructor|]. intros _. vm_compute. reflexivity.
Qed.

Lemma the_req_owns : req_owns req_alloc req_state the_req [11; 12; 20; 21; 22]%Z req_slots [].
Proof. split; [done|vm_compute; reflexivity]. Qed.

Lemma req_alloc_out : kv_out req_alloc (slots1 ++ req_slots ++ [] ++ []).
Proof. split; [|done]. split; [|done]. vm_compute. solve_Permutation. Qed.

Lemma cache_unfinished_req_keeps_ownership_witness :
  let k := req_key req_state [11; 12; 20; 21; 22]%Z the_req in
  exists s' a' p' r' l' new n', cache_unfinished_req the_req false req_pool req_state req_alloc = Ok (s', a', p', r') /\
    Inv s' (move_lock 0 n' root_lock) /\ tree_slots s' l' /\ kv_out a' (l' ++ [] ++ []) /\
    req_view s' p' r' [11; 12; 20; 21; 22]%Z (new ++ drop (key_len k) req_slots) /\
    prefix_indices r' = new ++ drop (key_len k) req_slots /\
    cache_protected_len r' = key_len k /\ length new = key_len k /\ last_node r' = Some n' /\
    path_from (tree s') None (root_node s') (key_iter k) new n' /\
    kv_cover a' (drop (key_len k) req_slots) [] /\
    (forall j, j <> 1 -> req_to_token p' !! j = req_to_token req_pool !! j) /\
    (forall ek q vs, cached req_state ek q vs -> cached s' ek q vs).
Proof.
  apply (cache_unfinished_req_keeps_ownership req_state root_lock req_pool the_req 1 0 req_slots [] [] slots1 req_alloc false);
    [apply req_state_inv|reflexivity|reflexivity|apply the_req_view|apply the_req_owns|reflexivity|reflexivity
    |apply req_state_slots|apply req_alloc_out].
Defined.

Lemma cache_finished_req_caches_all_witness :
  let k := req_key req_state [11; 12; 20; 21; 22]%Z the_req in
  exists s' a' l' new, cache_finished_req the_req true 5 req_pool req_state req_alloc = Ok (s', a') /\
    Inv s' (<[0 := (root_lock 0 - 1)%Z]> root_lock) /\ tree_slots s' l' /\ kv_out a' (l' ++ []) /\
    cached s' None (key_iter k) new /\ take 0 new = take 0 req_slots /\
    (forall ek q vs, cached req_state ek q vs -> cached s' ek q vs).
Proof.
  apply (cache_finished_req_caches_all req_state root_lock req_pool the_req 0 5 req_slots [] [] slots1 req_alloc);
    [apply req_state_inv|reflexivity|reflexivity|apply the_req_view|apply the_req_owns|reflexivity|reflexivity
    |apply req_state_slots|apply req_alloc_out].
Defined.

Lemma release_kv_cache_returns_all_witness :
  exists s' a' p' r' l', release_kv_cache (mkArgs 1 None false) the_req true req_pool req_state req_alloc = Ok (s', a', p', r') /\
    Inv s' (<[0 := (root_lock 0 - 1)%Z]> root_lock) /\ tree_slots s' l' /\ kv_out a' (l' ++ []) /\
    pool_inv p' [] /\ req_pool_idx r' = None /\ kv_allocated_len r' = None /\
    (forall ek q vs, cached req_state ek q vs -> cached s' ek q vs).
Proof.
  apply (release_kv_cache_returns_all (mkArgs 1 None false) req_state root_lock req_pool the_req 1 0 5 req_slots
    (req_slots ++ [0%Z]) [] [] [] slots1 [] req_alloc true);
    [apply req_state_inv|reflexivity|reflexivity|reflexivity|apply the_req_view|apply the_req_owns|reflexivity|reflexivity
    |reflexivity|reflexivity|reflexivity|reflexivity| |apply req_state_slots|apply req_alloc_out].
  split; [simpl; solve_Permutation|reflexivity|repeat constructor].
Defined.
