(* ===== verification/SchedDelay.v ===== *)
(** * SchedDelay: the small controllers of the scheduler

    Models [managers/prefill_delayer.py], [managers/min_free_slots_delayer.py],
    [managers/scheduler_components/recv_skipper.py] and
    [managers/scheduler_components/new_token_ratio_tracker.py].

    A float is the rational it denotes; every arithmetic operation on floats
    is the exact operation followed by the rounding [fl], a parameter. *)

From Stdlib Require Import QArith Qminmax.
From Stdlib Require Import QArith Lqa.
From S2P Require Import Prelude.

Open Scope Z_scope.

Class Float := { fl : Q -> Q }.

(** What IEEE rounding gives: it respects order, keeps its own results,
    zero and one. *)
Class FloatLaws `{Float} := {
  fl_mono x y : (x <= y)%Q -> (fl x <= fl y)%Q;
  fl_idem x : (fl (fl x) == fl x)%Q;
  fl_zero : (fl 0 == 0)%Q;
  fl_one : (fl 1 == 1)%Q;
}.

Lemma fl_nonneg `{FloatLaws} x : (0 <= x)%Q -> (0 <= fl x)%Q.
Proof. intros Hx. rewrite <- fl_zero. by apply fl_mono. Qed.

Definition Qltb (x y : Q) : bool := negb (Qle_bool y x).
Definition Qminf (x y : Q) : Q := if Qle_bool x y then x else y.
Definition Qmaxf (x y : Q) : Q := if Qle_bool y x then x else y.

(** [int(x)] of a float: truncation. *)
Definition Qtrunc (x : Q) : Z := Z.quot (Qnum x) (Zpos (Qden x)).

(** ** MinFreeSlotsDelayer *)
Module MinFreeSlots.

Definition resolve_min_free_slots (user_value : option Z) (max_running_requests : Z) (is_dflash_family : bool) : option Z :=
  let max_running_requests := Z.max 0 max_running_requests in
  let formula := Z.min 4 (Z.max 2 ((max_running_requests + 5) / 6)) in
  let user_value := match user_value with
                    | None => if is_dflash_family then Some formula else None
                    | Some u => Some u
                    end in
  match user_value with
  | None => None
  | Some u =>
      if u <=? 1 then None
      else if max_running_requests <? 8 then None
      else Some (Z.min u formula)
  end.

Definition should_delay (min_free_slots running_bs num_allocatable_reqs : Z) : bool :=
  (0 <? running_bs) && (num_allocatable_reqs <? min_free_slots).

End MinFreeSlots.

(** ** SchedulerRecvSkipper *)
Module RecvSkipper.

Inductive ForwardMode :=
| EXTEND | DECODE | MIXED | IDLE | TARGET_VERIFY | DRAFT_EXTEND_V2 | PREBUILT | SPLIT_PREFILL | DLLM_EXTEND.

#[global] Instance ForwardMode_eq_dec : EqDecision ForwardMode.
Proof. solve_decision. Defined.

(** Weights by mode; a mode without an entry gets the default. *)
Record Weights := mkWeights { w_default : Z; w_decode : Z; w_target_verify : Z; w_none : Z }.

Record Skipper := mkSkipper { use_synced_mode : bool; sk_counter : Z; sk_threshold : Z; sk_weights : Weights }.

Definition maybe_create (scheduler_recv_interval : Z) (enable_dp_attention : bool) (w : Weights) : option Skipper :=
  if scheduler_recv_interval <=? 1 then None
  else Some (mkSkipper enable_dp_attention 0 scheduler_recv_interval w).

Definition derive_forward_mode (gathered_modes : list ForwardMode) : option ForwardMode :=
  let active := List.filter (fun m => negb (bool_decide (m = IDLE)) && negb (bool_decide (m = PREBUILT))) gathered_modes in
  match active with
  | [] => None
  | _ =>
      if existsb (fun m => negb (bool_decide (m = DECODE)) && negb (bool_decide (m = TARGET_VERIFY))) active then Some EXTEND
      else if forallb (fun m => bool_decide (m = TARGET_VERIFY)) active then Some TARGET_VERIFY
      else Some DECODE
  end.

(** The parts of the last batch the skipper reads. *)
Record LastBatch := mkLast { lb_forward_mode : option ForwardMode; recv_skipper_forward_mode : option ForwardMode }.

Definition pick_mode (sk : Skipper) (last_batch : option LastBatch) : option ForwardMode :=
  match last_batch with
  | None => None
  | Some b => if use_synced_mode sk then recv_skipper_forward_mode b else lb_forward_mode b
  end.

Definition weight_of (w : Weights) (m : option ForwardMode) : Z :=
  match m with
  | Some DECODE => w_decode w
  | Some TARGET_VERIFY => w_target_verify w
  | None => w_none w
  | Some _ => w_default w
  end.

Definition handle (sk : Skipper) (last_batch : option LastBatch) : Skipper * bool :=
  let c := sk_counter sk + weight_of (sk_weights sk) (pick_mode sk last_batch) in
  if sk_threshold sk <=? c
  then (mkSkipper (use_synced_mode sk) 0 (sk_threshold sk) (sk_weights sk), true)
  else (mkSkipper (use_synced_mode sk) c (sk_threshold sk) (sk_weights sk), false).

(** The answers to a sequence of calls. *)
Fixpoint handles (sk : Skipper) (bs : list (option LastBatch)) : Skipper * list bool :=
  match bs with
  | [] => (sk, [])
  | b :: bs => let '(sk, r) := handle sk b in let '(sk, rs) := handles sk bs in (sk, r :: rs)
  end.

End RecvSkipper.

(** ** NewTokenRatioTracker *)
Module Ratio.
Section ratio.
Context `{Float}.

Record Tracker := mkTracker { t_init : Q; t_min : Q; t_decay : Q; t_current : Q }.

(** [conservativeness] is the server argument, the others the environment's. *)
Definition from_server_args (init_ratio conservativeness min_factor : Q) (decay_steps : positive) : Tracker :=
  let init := Qminf (fl (init_ratio * conservativeness)) 1 in
  let min_ratio := Qminf (fl (init * min_factor)) 1 in
  let decay := fl (fl (init - min_ratio) / inject_Z (Zpos decay_steps)) in
  mkTracker init min_ratio decay init.

Definition decay_step (t : Tracker) : Tracker :=
  mkTracker (t_init t) (t_min t) (t_decay t) (Qmaxf (fl (t_current t - t_decay t)) (t_min t)).

Definition reset (t : Tracker) : Tracker := mkTracker (t_init t) (t_min t) (t_decay t) (t_init t).

(** Each request as its number of output tokens and its [max_new_tokens]. *)
Definition estimate_new_token_ratio_after_retract (retract_decode_steps : Z) (reqs : list (Z * Z)) : Q :=
  let total_decoded_tokens := foldr Z.add 0 (reqs.*1) in
  let total_max_new_tokens := foldr Z.add 0 (reqs.*2) in
  Qminf 1 (fl (inject_Z (total_decoded_tokens + retract_decode_steps * Z.of_nat (length reqs)) /
               inject_Z (total_max_new_tokens + 1))).

End ratio.
End Ratio.

(** ** PrefillDelayer *)
Module Delayer.

Record State := mkState { delayed_count : Z; start_time : Q }.

Definition bump_delayed_count (s : State) : State := mkState (delayed_count s + 1) (start_time s).

Record Config := mkConfig {
  max_delay_passes : Z;
  token_usage_low_watermark : option Q;
  queue_min_ratio : option Q;
  max_delay_ms : Q;
  dp_size : Z;
  d_enable_dp_attention : bool;
}.

Record PrefillDelayer := mkDelayer {
  d_cfg : Config;
  curr_state : option State;
  skip_first_delayer : bool;
}.

(** [__init__], without the communication groups. *)
Definition init (dp_size max_delay_passes : Z) (watermark queue_min_ratio : option Q) (max_delay_ms : option Q)
    (enable_dp_attention disable_overlap_schedule : bool) : res PrefillDelayer :=
  _ ← py_assert (negb disable_overlap_schedule);
  Ok (mkDelayer (mkConfig max_delay_passes watermark queue_min_ratio (default 5000%Q max_delay_ms) dp_size enable_dp_attention)
        None true).

(** What a rank contributes to the all-gather. *)
Record Info := mkInfo {
  i_prefillable : Z;
  i_watermark : Z;
  i_running_batch : Z;
  i_max_prefill_bs : Z;
  i_waiting_queue_len : Z;
}.

Inductive Estimation := All | NoneOf | Mixed.
Inductive Reason := TokenWatermark | Delay | WaitSuccess | NoWait | Empty | WaitTimeout.

#[global] Instance Estimation_eq_dec : EqDecision Estimation.
Proof. solve_decision. Defined.
#[global] Instance Reason_eq_dec : EqDecision Reason.
Proof. solve_decision. Defined.

Record Output := mkOutput {
  next_state : option State;
  input_estimation : Estimation;
  output_allow : bool;
  output_reason : Reason;
  num_prefillable : Z;
  num_token_watermark_force_allow : Z;
  wait_forward_passes : Z;
  wait_seconds : Q;
}.

(** Readings of [time.perf_counter()]: for the wait so far, for the timeout of
    the queue trigger, for the start of a new wait. *)
Record Clock := mkClock { t_wait : Q; t_elapsed : Q; t_start : Q }.

(** The arguments of a negotiation besides the state. *)
Record Args := mkArgs {
  local_prefillable : bool;
  token_usage : Q;
  running_batch : Z;
  max_prefill_bs : Z;
  max_running_requests : Z;
  waiting_queue_len : Z;
}.

Definition zsum (l : list Z) : Z := foldr Z.add 0 l.
Definition zmin (l : list Z) : res Z := match l with [] => Raise RuntimeError | x :: l => Ok (foldr Z.min x l) end.
Definition zmax (l : list Z) : res Z := match l with [] => Raise RuntimeError | x :: l => Ok (foldr Z.max x l) end.
Definition int_of (b : bool) : Z := if b then 1 else 0.

Section delayer.
Context `{Float}.

(** The local row; the all-gather of the attention group turns it into the
    rows of the first rank of every group. *)
Definition local_info (c : Config) (a : Args) : Info :=
  let force := local_prefillable a &&
    match token_usage_low_watermark c with Some x => Qltb (token_usage a) x | None => false end in
  mkInfo (int_of (local_prefillable a)) (int_of force) (running_batch a) (max_prefill_bs a) (waiting_queue_len a).

Definition estimate (tp0_info : list Info) : res Estimation :=
  mn ← zmin (i_prefillable <$> tp0_info);
  mx ← zmax (i_prefillable <$> tp0_info);
  Ok (if 0 <? mn then All else if mx =? 0 then NoneOf else Mixed).

(** The queue trigger, with the wall-clock cap on the wait. *)
Definition queue_condition (c : Config) (prev : option State) (clk : Clock) (running_max prefill_max waiting_max : Z) : bool :=
  match queue_min_ratio c with
  | Some ratio =>
      if 0 <? running_max then
        let queue_min_effective := Z.min (Qtrunc (fl (inject_Z running_max * ratio))) prefill_max in
        let cond := (0 <? queue_min_effective) && (waiting_max <? queue_min_effective) in
        match prev with
        | Some p =>
            if cond && Qle_bool (max_delay_ms c) (fl (fl (t_elapsed clk - start_time p) * 1000)) then false else cond
        | None => cond
        end
      else false
  | None => false
  end.

(** [_negotiate_should_allow_prefill_pure] after the all-gather: the output and
    the new [skip_first_delayer]. *)
Definition negotiate_pure (c : Config) (prev : option State) (skip : bool) (clk : Clock) (max_running : Z) (tp0_info : list Info)
    : res (Output * bool) :=
  est ← estimate tp0_info;
  wm ← zmax (i_watermark <$> tp0_info);
  let force := 0 <? wm in
  let np := zsum (i_prefillable <$> tp0_info) in
  let nw := zsum (i_watermark <$> tp0_info) in
  let passes := match prev with Some p => delayed_count p | None => 0 end in
  let secs := match prev with Some p => fl (t_wait clk - start_time p) | None => 0%Q end in
  let release := fun reason => mkOutput None est true reason np nw passes secs in
  let delay := mkOutput (Some (bump_delayed_count (default (mkState 0 (t_start clk)) prev))) est false Delay np nw 0 0 in
  match est with
  | All =>
      if force then Ok (release TokenWatermark, skip) else
      let max_running := if d_enable_dp_attention c then max_running else (max_running + dp_size c - 1) / dp_size c in
      running_max ← zmax (i_running_batch <$> tp0_info);
      prefill_max ← zmax (i_max_prefill_bs <$> tp0_info);
      waiting_max ← zmax (i_waiting_queue_len <$> tp0_info);
      let slot := max_running - running_max <? prefill_max in
      let proceed := fun skip => Ok (release (match prev with Some _ => WaitSuccess | None => NoWait end), skip) in
      if slot || queue_condition c prev clk running_max prefill_max waiting_max
      then (if skip then proceed false else Ok (delay, skip))
      else proceed skip
  | NoneOf => Ok (release Empty, skip)
  | Mixed =>
      if force then Ok (release TokenWatermark, skip)
      else if passes <? max_delay_passes c - 1 then Ok (delay, skip)
      else Ok (release WaitTimeout, skip)
  end.

(** One negotiation of a rank; [gather] is the all-gather. *)
Definition negotiate (gather : Info -> list Info) (d : PrefillDelayer) (clk : Clock) (a : Args) : res (PrefillDelayer * Output) :=
  '(out, skip) ← negotiate_pure (d_cfg d) (curr_state d) (skip_first_delayer d) clk (max_running_requests a)
                   (gather (local_info (d_cfg d) a));
  Ok (mkDelayer (d_cfg d) (next_state out) skip, out).

(** ** PrefillDelayerSinglePassExecutor *)

Record Executor := mkExecutor { x_delayer : PrefillDelayer; x_token_usage : Q; x_result : option Output }.

Definition executor_negotiate (gather : Info -> list Info) (clk : Clock) (prefillable : bool)
    (running_batch max_prefill_bs max_running waiting : Z) (x : Executor) : res (Executor * bool) :=
  match x_result x with
  | Some out => Ok (x, output_allow out)
  | None =>
      '(d, out) ← negotiate gather (x_delayer x) clk
        (mkArgs prefillable (x_token_usage x) running_batch max_prefill_bs max_running waiting);
      Ok (mkExecutor d (x_token_usage x) (Some out), output_allow out)
  end.

(** [finalize], without the metrics it reports. *)
Definition executor_finalize (gather : Info -> list Info) (clk : Clock) (x : Executor) : res Executor :=
  match x_result x with
  | Some _ => Ok x
  | None => '(x, _) ← executor_negotiate gather clk false 0 0 0 0 x; Ok x
  end.

End delayer.
End Delayer.

(** ** How long the scheduler's controllers may hold work back *)

(** ** MinFreeSlotsDelayer *)

Import MinFreeSlots.

(** A resolved threshold lies between 2 and 4, never
    exceeds what the user asked for, and exists only for servers with at least
    8 running requests; with it the delayer never holds back an idle server,
    nor one with 4 free slots. *)
Theorem min_free_slots_bounds u m dflash n :
  resolve_min_free_slots u m dflash = Some n ->
  2 <= n <= 4 /\ 8 <= m /\ (forall v, u = Some v -> n <= v) /\
  (forall k, should_delay n 0 k = false) /\ (forall r k, 4 <= k -> should_delay n r k = false).
Proof.
  unfold resolve_min_free_slots. set (f := Z.min 4 (Z.max 2 ((Z.max 0 m + 5) / 6))). intros Hr.
  assert (2 <= f <= 4) by lia.
  assert (exists w, (match u with None => if dflash then Some f else None | Some u => Some u end) = Some w /\
    1 < w /\ 8 <= Z.max 0 m /\ n = Z.min w f) as (w & Hw & H1 & H8 & ->).
  { destruct (match u with None => if dflash then Some f else None | Some u => Some u end) as [w|]; [|done].
    destruct (Z.leb_spec w 1); [done|]. destruct (Z.ltb_spec (Z.max 0 m) 8); [done|]. exists w. injection Hr as <-. done. }
  split; [lia|]. split; [lia|]. split; [intros v ->; injection Hw as <-; lia|]. unfold should_delay. split; [done|].
  intros r k Hk. rewrite (proj2 (Z.ltb_ge k _)) by lia. apply andb_false_r.
Qed.

Lemma min_free_slots_bounds_witness :
  2 <= 3 <= 4 /\ 8 <= 32 /\ (forall v, Some 3 = Some v -> 3 <= v) /\
  (forall k, should_delay 3 0 k = false) /\ (forall r k, 4 <= k -> should_delay 3 r k = false).
Proof. apply (min_free_slots_bounds (Some 3) 32 false 3). reflexivity. Defined.

(** ** SchedulerRecvSkipper *)

Import RecvSkipper.

Definition skipper_ok (sk : Skipper) : Prop :=
  0 <= sk_counter sk < sk_threshold sk /\
  1 <= w_default (sk_weights sk) /\ 1 <= w_decode (sk_weights sk) /\
  1 <= w_target_verify (sk_weights sk) /\ 1 <= w_none (sk_weights sk).

Lemma handle_ok sk b :
  skipper_ok sk -> skipper_ok (handle sk b).1 /\ sk_threshold (handle sk b).1 = sk_threshold sk /\
  ((handle sk b).2 = false -> sk_counter sk < sk_counter (handle sk b).1).
Proof.
  intros (Hc & W1 & W2 & W3 & W4). unfold handle. set (w := weight_of _ _).
  assert (1 <= w) by (unfold w, weight_of; repeat case_match; done).
  destruct (Z.leb_spec (sk_threshold sk) (sk_counter sk + w)); simpl; unfold skipper_ok; simpl.
  - split; [lia|]. split; [done|discriminate].
  - split; [lia|]. split; [done|lia].
Qed.

(** New requests are never skipped for long: with
    positive weights any run of as many calls as the threshold contains one
    that receives, whatever the batches; and the counter stays below the
    threshold. *)
Theorem recv_skipper_bounded sk bs :
  skipper_ok sk -> sk_threshold sk <= Z.of_nat (length bs) ->
  true ∈ (handles sk bs).2 /\ skipper_ok (handles sk bs).1.
Proof.
  intros Hok Hl.
  assert (Hinv : forall bs sk, skipper_ok sk -> skipper_ok (handles sk bs).1).
  { clear. induction bs as [|b bs IH]; intros sk Hok; simpl; [done|]. destruct (handle_ok sk b Hok) as (H1 & _).
    destruct (handle sk b) as [sk1 r]. specialize (IH sk1 H1). by destruct (handles sk1 bs). }
  split; [|by apply Hinv].
  assert (Hgen : forall bs sk, skipper_ok sk -> sk_threshold sk - sk_counter sk <= Z.of_nat (length bs) -> true ∈ (handles sk bs).2).
  { clear. induction bs as [|b bs IH]; intros sk Hok Hl; simpl in *; [destruct Hok; lia|].
    destruct (handle_ok sk b Hok) as (H1 & H2 & H3). destruct (handle sk b) as [sk1 [|] ]; simpl in *.
    - destruct (handles sk1 bs). simpl. by apply list_elem_of_here.
    - specialize (IH sk1 H1 ltac:(specialize (H3 eq_refl); lia)). destruct (handles sk1 bs) as [sk2 rs]. simpl in *. by apply list_elem_of_further. }
  apply Hgen; [done|]. destruct Hok as [Hc _]. lia.
Qed.

Lemma recv_skipper_bounded_witness :
  let sk := mkSkipper true 0 3 (mkWeights 1000 1 1 1) in
  true ∈ (handles sk [None; Some (mkLast (Some IDLE) (Some DECODE)); None]).2 /\
  skipper_ok (handles sk [None; Some (mkLast (Some IDLE) (Some DECODE)); None]).1.
Proof.
  apply (recv_skipper_bounded (mkSkipper true 0 3 (mkWeights 1000 1 1 1)) [None; Some (mkLast (Some IDLE) (Some DECODE)); None]);
    [unfold skipper_ok; simpl; lia|simpl; lia].
Defined.

(** The mode derived from the gathered modes
    depends on which modes occur and not on the ranks' order, so every rank
    derives the same; it is no mode only when every rank is idle, and extend
    as soon as one rank does prefill work. *)
Theorem derive_forward_mode_order_free ms ms' :
  (forall m, m ∈ ms <-> m ∈ ms') ->
  derive_forward_mode ms = derive_forward_mode ms' /\
  (derive_forward_mode ms = None <-> forall m, m ∈ ms -> m = IDLE \/ m = PREBUILT) /\
  (derive_forward_mode ms = Some EXTEND <-> exists m, m ∈ ms /\ m <> IDLE /\ m <> PREBUILT /\ m <> DECODE /\ m <> TARGET_VERIFY).
Proof.
  set (act := fun m => negb (bool_decide (m = IDLE)) && negb (bool_decide (m = PREBUILT))).
  set (ext := fun m => negb (bool_decide (m = DECODE)) && negb (bool_decide (m = TARGET_VERIFY))).
  set (tv := fun m => bool_decide (m = TARGET_VERIFY)).
  assert (Hact : forall l m, m ∈ List.filter act l <-> m ∈ l /\ m <> IDLE /\ m <> PREBUILT).
  { intros l m. rewrite !list_elem_of_In, List.filter_In. unfold act. rewrite andb_true_iff, !negb_true_iff, !bool_decide_eq_false. tauto. }
  assert (Hext : forall l, existsb ext (List.filter act l) = true <->
    exists m, m ∈ l /\ m <> IDLE /\ m <> PREBUILT /\ m <> DECODE /\ m <> TARGET_VERIFY).
  { intros l. rewrite existsb_exists. setoid_rewrite <- list_elem_of_In. setoid_rewrite Hact. unfold ext.
    setoid_rewrite andb_true_iff. setoid_rewrite negb_true_iff. setoid_rewrite bool_decide_eq_false. firstorder. }
  assert (Htv : forall l, forallb tv (List.filter act l) = true <-> forall m, m ∈ l -> m <> IDLE -> m <> PREBUILT -> m = TARGET_VERIFY).
  { intros l. rewrite forallb_forall. setoid_rewrite <- list_elem_of_In. setoid_rewrite Hact. unfold tv.
    setoid_rewrite bool_decide_eq_true. firstorder. }
  assert (Hnil : forall l, List.filter act l = [] <-> forall m, m ∈ l -> m = IDLE \/ m = PREBUILT).
  { intros l. split.
    - intros E m Hm. destruct (decide (m = IDLE)); [auto|]. destruct (decide (m = PREBUILT)); [auto|].
      assert (m ∈ List.filter act l) as Hin by (by apply Hact). rewrite E in Hin. by apply elem_of_nil in Hin.
    - intros Hall. destruct (List.filter act l) as [|m r] eqn:E; [done|]. exfalso.
      assert (m ∈ List.filter act l) as Hin by (rewrite E; apply list_elem_of_here). apply Hact in Hin as (? & ? & ?).
      by destruct (Hall m). }
  intros Heq. unfold derive_forward_mode. fold act ext tv.
  assert (existsb ext (List.filter act ms) = existsb ext (List.filter act ms')) as E1.
  { apply eq_true_iff_eq. rewrite !Hext. by setoid_rewrite Heq. }
  assert (forallb tv (List.filter act ms) = forallb tv (List.filter act ms')) as E2.
  { apply eq_true_iff_eq. rewrite !Htv. by setoid_rewrite Heq. }
  assert (List.filter act ms = [] <-> List.filter act ms' = []) as E3.
  { rewrite !Hnil. by setoid_rewrite Heq. }
  specialize (Hext ms). specialize (Hnil ms).
  split; [|split].
  - rewrite E1, E2. destruct (List.filter act ms), (List.filter act ms'); 
      [done|by discriminate (proj1 E3 eq_refl)|by discriminate (proj2 E3 eq_refl)|done].
  - rewrite <- Hnil. destruct (List.filter act ms) as [|x l]; [done|]. split; [|done]. by repeat case_match.
  - rewrite <- Hext. destruct (List.filter act ms) as [|x l]; [done|].
    destruct (existsb ext (x :: l)); [done|]. split; [|done]. by case_match.
Qed.

Lemma derive_forward_mode_order_free_witness :
  derive_forward_mode [DECODE; IDLE] = derive_forward_mode [IDLE; DECODE; DECODE] /\
  (derive_forward_mode [DECODE; IDLE] = None <-> forall m, m ∈ [DECODE; IDLE] -> m = IDLE \/ m = PREBUILT) /\
  (derive_forward_mode [DECODE; IDLE] = Some EXTEND <->
     exists m, m ∈ [DECODE; IDLE] /\ m <> IDLE /\ m <> PREBUILT /\ m <> DECODE /\ m <> TARGET_VERIFY).
Proof.
  apply (derive_forward_mode_order_free [DECODE; IDLE] [IDLE; DECODE; DECODE]). intros m. rewrite !elem_of_cons. tauto.
Defined.

(** ** NewTokenRatioTracker *)

Import Ratio.

Section ratio.
Context `{FloatLaws}.

(** A float: rounding leaves it alone. *)
Definition is_float (x : Q) : Prop := (fl x == x)%Q.

Lemma Qminf_spec x y : (Qminf x y <= x /\ Qminf x y <= y)%Q /\ (Qminf x y = x \/ Qminf x y = y).
Proof.
  unfold Qminf. destruct (Qle_bool x y) eqn:E.
  - apply Qle_bool_iff in E. split; [split; [apply Qle_refl|done]|by left].
  - assert (y <= x)%Q. { apply Qlt_le_weak, Qnot_le_lt. intros Hle. apply Qle_bool_iff in Hle. congruence. }
    split; [split; [done|apply Qle_refl]|by right].
Qed.

Lemma Qmaxf_spec x y : (x <= Qmaxf x y /\ y <= Qmaxf x y)%Q /\ (Qmaxf x y = x \/ Qmaxf x y = y).
Proof.
  unfold Qmaxf. destruct (Qle_bool y x) eqn:E.
  - apply Qle_bool_iff in E. split; [split; [apply Qle_refl|done]|by left].
  - assert (x <= y)%Q. { apply Qlt_le_weak, Qnot_le_lt. intros Hle. apply Qle_bool_iff in Hle. congruence. }
    split; [split; [done|apply Qle_refl]|by right].
Qed.

Record tracker_ok (t : Tracker) : Prop := {
  tk_range : (t_min t <= t_current t <= t_init t)%Q;
  tk_decay : (0 <= t_decay t)%Q;
  tk_floats : is_float (t_init t) /\ is_float (t_min t) /\ is_float (t_current t);
}.

Lemma decay_step_ok t : tracker_ok t -> tracker_ok (decay_step t) /\ (t_current (decay_step t) <= t_current t)%Q.
Proof.
  intros [ [R1 R2] D (F1 & F2 & F3) ]. unfold decay_step.
  assert (Hle : (fl (t_current t - t_decay t) <= t_current t)%Q).
  { assert (fl (t_current t - t_decay t) <= fl (t_current t))%Q by (apply fl_mono; lra). unfold is_float in F3. lra. }
  destruct (Qmaxf_spec (fl (t_current t - t_decay t)) (t_min t)) as [ [M1 M2] M3 ].
  assert (Hm : (Qmaxf (fl (t_current t - t_decay t)) (t_min t) <= t_current t)%Q) by (by destruct M3 as [-> | ->]).
  split; [|done]. split; simpl; [|done|].
  - split; [done|]. by eapply Qle_trans.
  - split; [done|]. split; [done|]. destruct M3 as [-> | ->]; [apply fl_idem|done].
Qed.

Lemma is_float_min x y : is_float x -> is_float y -> is_float (Qminf x y).
Proof. intros Hx Hy. destruct (Qminf_spec x y) as [_ [-> | ->] ]; done. Qed.

Lemma from_server_args_ok r c f n :
  (0 <= r * c)%Q -> (0 <= f <= 1)%Q -> tracker_ok (from_server_args r c f n).
Proof using All.
  intros Hrc [Hf0 Hf1]. unfold from_server_args. set (i := Qminf (fl (r * c)) 1). set (m := Qminf (fl (i * f)) 1).
  assert (Fi : is_float i) by (apply is_float_min; [apply fl_idem|apply fl_one]).
  assert (Fm : is_float m) by (apply is_float_min; [apply fl_idem|apply fl_one]).
  assert (0 <= i)%Q as Hi.
  { pose proof (fl_nonneg _ Hrc). destruct (Qminf_spec (fl (r * c)) 1) as [_ [E|E] ]; unfold i; rewrite E; lra. }
  assert (m <= i)%Q as Hmi.
  { destruct (Qminf_spec (fl (i * f)) 1) as [ [Hm _] _]. fold m in Hm.
    assert (fl (i * f) <= fl i)%Q by (apply fl_mono; nra). unfold is_float in Fi. lra. }
  split; simpl; [split; [done|apply Qle_refl]| |done].
  apply fl_nonneg. apply Qle_shift_div_l; [reflexivity|]. rewrite Qmult_0_l. apply fl_nonneg. lra.
Qed.

(** However often it decays, the new-token ratio of a
    tracker built from the server arguments stays between its minimum and its
    initial value and never rises between resets, rounding included; a reset
    brings it back to the initial value. *)
Theorem ratio_stays_in_range r c f n k :
  (0 <= r * c)%Q -> (0 <= f <= 1)%Q ->
  let t := Nat.iter k decay_step (from_server_args r c f n) in
  (t_min t <= t_current t <= t_init t)%Q /\ (t_init t <= 1)%Q /\
  (t_current (decay_step t) <= t_current t)%Q /\ t_current (reset t) = t_init (from_server_args r c f n).
Proof using All.
  intros Hrc Hf t.
  assert (tracker_ok t /\ t_init t = t_init (from_server_args r c f n)) as [Hok Ht].
  { unfold t. clear t. induction k as [|k [IH E] ]; simpl; [split; [by apply from_server_args_ok|done]|].
    split; [by apply decay_step_ok|done]. }
  split; [apply Hok|]. split; [|split; [by apply decay_step_ok|done] ].
  rewrite Ht. simpl. apply Qminf_spec.
Qed.

End ratio.

(** Exact arithmetic is a rounding. *)
Definition exact_float : Float := {| fl x := x |}.

Lemma exact_float_laws : @FloatLaws exact_float.
Proof. split; [done|intros x|..]; apply Qeq_refl. Qed.

Lemma ratio_stays_in_range_witness :
  let t := Nat.iter 3 (@decay_step exact_float) (@from_server_args exact_float (7 # 10) 1 (14 # 100) 600) in
  (t_min t <= t_current t <= t_init t)%Q /\ (t_init t <= 1)%Q /\
  (t_current (@decay_step exact_float t) <= t_current t)%Q /\
  t_current (reset t) = t_init (@from_server_args exact_float (7 # 10) 1 (14 # 100) 600).
Proof.
  apply (@ratio_stays_in_range exact_float exact_float_laws (7 # 10) 1 (14 # 100) 600 3);
    [discriminate|split; discriminate].
Defined.

(** ** PrefillDelayer *)

Import Delayer.

Section delayer.
Context `{Float}.

(** A round of negotiation as a rank sees it: its clock, the server's limit
    and the gathered rows. *)
Record Round := mkRound { r_clock : Clock; r_max_running : Z; r_infos : list Info }.

Fixpoint rounds (c : Config) (prev : option State) (skip : bool) (rs : list Round) : res (option State * bool * list Output) :=
  match rs with
  | [] => Ok (prev, skip, [])
  | r :: rs =>
      '(out, skip) ← negotiate_pure c prev skip (r_clock r) (r_max_running r) (r_infos r);
      '(st, skip, outs) ← rounds c (next_state out) skip rs;
      Ok (st, skip, out :: outs)
  end.

Definition count_of (st : option State) : Z := match st with Some s => delayed_count s | None => 0 end.

(** What one round does to the count of delays. *)
Lemma negotiate_count c prev skip clk m infos out skip' :
  negotiate_pure c prev skip clk m infos = Ok (out, skip') ->
  (if output_allow out then next_state out = None else count_of (next_state out) = count_of prev + 1) /\
  (output_allow out = false -> output_reason out = Delay) /\
  (input_estimation out = Mixed -> output_allow out = false -> count_of prev < max_delay_passes c - 1).
Proof.
  unfold negotiate_pure. intros Hr. inv_ok. set (e := x) in *. clearbody e.
  assert (Hp : forall o, bump_delayed_count (default o prev) = bump_delayed_count (match prev with Some p => p | None => o end)) by (by destruct prev).
  destruct e; simpl in Hr.
  - destruct (0 <? x0); [injection Hr as <- <-; done|]. inv_ok. destruct (_ || _); [destruct skip|]; simplify_eq/=; try done.
    by destruct prev.
  - injection Hr as <- <-. done.
  - destruct (0 <? x0); [injection Hr as <- <-; done|].
    destruct (Z.ltb_spec (match prev with Some p => delayed_count p | None => 0 end) (max_delay_passes c - 1)); injection Hr as <- <-; [|done].
    simpl. split; [by destruct prev|]. split; [done|]. intros _ _. by destruct prev.
Qed.

(** Which rounds agree on the estimation. *)
Definition all_mixed (rs : list Round) : Prop := Forall (fun r => estimate (r_infos r) = Ok Mixed) rs.

Lemma zmax_map_Ok {T} (f g : T -> Z) l x : zmax (f <$> l) = Ok x -> exists y, zmax (g <$> l) = Ok y.
Proof. destruct l; simpl; [done|eauto]. Qed.

(** A mixed round always answers. *)
Lemma mixed_round_total c prev skip clk m infos :
  estimate infos = Ok Mixed ->
  exists out, negotiate_pure c prev skip clk m infos = Ok (out, skip) /\ input_estimation out = Mixed.
Proof.
  intros He. unfold negotiate_pure. rewrite He. bind_step. unfold estimate in He. inv_ok.
  match goal with Hz : zmax _ = Ok _ |- _ => destruct (zmax_map_Ok _ i_watermark _ _ Hz) as [w ->] end.
  bind_step. destruct (0 <? w); [eauto|]. destruct (_ <? max_delay_passes c - 1); eauto.
Qed.

Lemma mixed_rounds_total c prev skip rs :
  all_mixed rs -> exists st outs, rounds c prev skip rs = Ok (st, skip, outs) /\ length outs = length rs /\
    Forall (fun o => input_estimation o = Mixed) outs.
Proof.
  intros Hm. revert prev. induction Hm as [|r rs He Hm IH]; intros prev; [by exists prev, []|].
  destruct (mixed_round_total c prev skip (r_clock r) (r_max_running r) (r_infos r) He) as (out & Hn & Hest).
  destruct (IH (next_state out)) as (st & outs & Hr & Hl & Hf). exists st, (out :: outs).
  cbn [rounds]. rewrite Hn. bind_step. rewrite Hr. bind_step. split; [done|]. split; [simpl; by rewrite Hl|by constructor].
Qed.

Lemma mixed_delays_bound c rs prev skip st skip' outs :
  rounds c prev skip rs = Ok (st, skip', outs) -> 0 <= count_of prev ->
  Forall (fun o => input_estimation o = Mixed /\ output_allow o = false) outs ->
  outs = [] \/ count_of prev + Z.of_nat (length outs) <= max_delay_passes c - 1.
Proof.
  revert prev skip outs. induction rs as [|r rs IH]; intros prev skip outs Hr Hp Hf; simpl in Hr; [left; by injection Hr as <- <- <-|].
  apply bind_Ok_inv in Hr as ([out sk] & Hn & Hr). apply bind_Ok_inv in Hr as ([ [st1 sk1] os ] & Hrec & Hr). injection Hr as -> -> <-.
  apply Forall_cons in Hf as [ [He Ha] Hf]. destruct (negotiate_count _ _ _ _ _ _ _ _ Hn) as (Hc & _ & Hlt).
  rewrite Ha in Hc. specialize (Hlt He Ha). right. destruct (IH _ _ _ Hrec ltac:(lia) Hf) as [-> |Hle]; simpl in *; lia.
Qed.

(** When only some ranks can prefill, prefill is held
    back for fewer than [max_delay_passes] passes in a row: among that many
    consecutive rounds (at least one) some round allows it, from any state
    the delayer can be in, and no round raises. *)
Theorem delayer_mixed_bounded c prev skip rs :
  all_mixed rs -> 0 <= count_of prev -> Z.max 1 (max_delay_passes c) <= Z.of_nat (length rs) ->
  exists st outs, rounds c prev skip rs = Ok (st, skip, outs) /\ length outs = length rs /\
    exists out, out ∈ outs /\ output_allow out = true /\ next_state out = None.
Proof.
  intros Hm Hp Hl. destruct (mixed_rounds_total c prev skip rs Hm) as (st & outs & Hr & Hlen & Hf).
  exists st, outs. split; [done|]. split; [done|].
  assert (Hst : forall rs prev skip st skip' outs out, rounds c prev skip rs = Ok (st, skip', outs) -> out ∈ outs ->
    output_allow out = true -> next_state out = None).
  { clear. induction rs as [|r rs IH]; intros prev skip st skip' outs out Hr Hin Ha; simpl in Hr;
      [injection Hr as <- <- <-; by apply elem_of_nil in Hin|].
    apply bind_Ok_inv in Hr as ([o sk] & Hn & Hr). apply bind_Ok_inv in Hr as ([ [st1 sk1] os ] & Hrec & Hr). injection Hr as -> -> <-.
    apply elem_of_cons in Hin as [-> |Hin]; [|by eapply IH]. apply negotiate_count in Hn as (Hc & _). by rewrite Ha in Hc. }
  destruct (decide (Exists (fun o => output_allow o = true) outs)) as [Hex|Hno].
  - apply Exists_exists in Hex as (out & Hin & Ha). exists out. split; [done|]. split; [done|]. by eapply Hst.
  - exfalso. destruct (mixed_delays_bound _ _ _ _ _ _ _ Hr Hp) as [-> |Hle]; [|simpl in Hlen; lia|lia].
    apply Forall_forall. intros o Ho. split; [by apply (proj1 (Forall_forall _ _) Hf)|].
    destruct (output_allow o) eqn:E; [|done]. exfalso. apply Hno, Exists_exists. eauto.
Qed.

(** Low token usage on one rank that could prefill
    releases prefill everywhere at once, however long the wait was and
    whatever the triggers say. *)
Theorem delayer_watermark_releases c prev skip clk m infos i :
  i ∈ infos -> 0 < i_watermark i -> 0 < i_prefillable i ->
  exists out, negotiate_pure c prev skip clk m infos = Ok (out, skip) /\ output_allow out = true /\
    output_reason out = TokenWatermark /\ next_state out = None /\ wait_forward_passes out = count_of prev.
Proof.
  intros Hi Hw Hp. unfold negotiate_pure, estimate.
  assert (Hz : forall f : Info -> Z, exists lo hi, zmin (f <$> infos) = Ok lo /\ zmax (f <$> infos) = Ok hi /\ lo <= f i <= hi).
  { intros f. destruct infos as [|x l]; [by apply elem_of_nil in Hi|]. exists (foldr Z.min (f x) (f <$> l)), (foldr Z.max (f x) (f <$> l)).
    split; [done|]. split; [done|]. clear -Hi. induction l as [|y l IH]; csimpl.
    - apply list_elem_of_singleton in Hi as ->. lia.
    - assert (foldr Z.min (f x) (f <$> l) <= f x <= foldr Z.max (f x) (f <$> l)) by (clear; induction l; csimpl; lia).
      rewrite !elem_of_cons in Hi. rewrite elem_of_cons in IH. destruct Hi as [-> |[-> |Hi] ]; [lia|lia|]. specialize (IH (or_intror Hi)). lia. }
  destruct (Hz i_prefillable) as (lo & hi & -> & -> & Hb). destruct (Hz i_watermark) as (wlo & whi & _ & -> & Hwb).
  bind_step. rewrite (proj2 (Z.ltb_lt 0 whi)) by lia.
  destruct (0 <? lo); [eexists; split; [done|]; by destruct prev|].
  rewrite (proj2 (Z.eqb_neq hi 0)) by lia. eexists. split; [done|]. by destruct prev.
Qed.

(** The wall-clock verdict of the queue trigger. *)
Definition timed_out (c : Config) (prev : option State) (clk : Clock) : bool :=
  match prev with
  | Some p => Qle_bool (max_delay_ms c) (fl (fl (t_elapsed clk - start_time p) * 1000))
  | None => false
  end.

Lemma queue_condition_verdict c prev clk prev' clk' r p w :
  (prev = None <-> prev' = None) -> timed_out c prev clk = timed_out c prev' clk' ->
  queue_condition c prev clk r p w = queue_condition c prev' clk' r p w.
Proof.
  intros Hn Ht. unfold queue_condition, timed_out in *. destruct (queue_min_ratio c) as [q|]; [|done]. destruct (0 <? r); [|done].
  destruct prev as [x|], prev' as [y|].
  - by rewrite Ht.
  - by destruct Hn as [_ Hn]; specialize (Hn eq_refl).
  - by destruct Hn as [Hn _]; specialize (Hn eq_refl).
  - done.
Qed.

(** Ranks that have counted the same refusals and gathered
    the same rows decide alike, and keep agreeing, as long as their clocks
    agree on whether the queue trigger has timed out: the decision does not
    depend on anything local. *)
Theorem delayer_ranks_agree c prev prev' skip clk clk' m infos out sk :
  (prev = None <-> prev' = None) -> count_of prev = count_of prev' -> timed_out c prev clk = timed_out c prev' clk' ->
  negotiate_pure c prev skip clk m infos = Ok (out, sk) ->
  exists out', negotiate_pure c prev' skip clk' m infos = Ok (out', sk) /\
    output_allow out' = output_allow out /\ output_reason out' = output_reason out /\
    count_of (next_state out') = count_of (next_state out) /\ (next_state out = None <-> next_state out' = None).
Proof.
  intros Hn Hc Ht. unfold negotiate_pure. destruct (estimate infos) as [e|]; [|done]. bind_step.
  destruct (zmax (i_watermark <$> infos)) as [w|]; [|done]. bind_step.
  assert (Hpass : match prev with Some p => delayed_count p | None => 0 end = match prev' with Some p => delayed_count p | None => 0 end) by done.
  assert (Hreas : (match prev with Some _ => WaitSuccess | None => NoWait end) = match prev' with Some _ => WaitSuccess | None => NoWait end).
  { destruct prev, prev'; try done; by destruct Hn as [H1 H2]; first [specialize (H1 eq_refl)|specialize (H2 eq_refl)]. }
  assert (Hbump : forall t t', delayed_count (bump_delayed_count (default (mkState 0 t) prev)) =
    delayed_count (bump_delayed_count (default (mkState 0 t') prev'))) by (intros; by destruct prev, prev'; simpl in *; congruence).
  destruct e.
  - destruct (0 <? w); [intros [= <- <-]; by eexists|].
    destruct (zmax (i_running_batch <$> infos)) as [rm|]; [|done]. bind_step.
    destruct (zmax (i_max_prefill_bs <$> infos)) as [pm|]; [|done]. bind_step.
    destruct (zmax (i_waiting_queue_len <$> infos)) as [wm|]; [|done]. bind_step.
    rewrite (queue_condition_verdict c prev clk prev' clk') by done. destruct (_ || _); [destruct skip|]; intros [= <- <-];
      (eexists; split; [done|]); simpl; auto.
    split; [done|]. split; [done|]. split; [by symmetry; apply Hbump|done].
  - intros [= <- <-]. by eexists.
  - destruct (0 <? w); [intros [= <- <-]; by eexists|]. rewrite Hpass.
    destruct (_ <? max_delay_passes c - 1); intros [= <- <-]; (eexists; split; [done|]); simpl; [|done].
    split; [done|]. split; [done|]. split; [by symmetry; apply Hbump|done].
Qed.

(** [max_delay_passes] does not bound the wait when every
    rank can prefill: while the running batch leaves too few slots, prefill
    is refused for any number of passes in a row, whatever the limit. *)
Theorem slot_delay_uncapped c n :
  d_enable_dp_attention c = true ->
  exists rs st outs, length rs = n /\ rounds c None false rs = Ok (st, false, outs) /\ length outs = n /\
    Forall (fun o => output_allow o = false /\ input_estimation o = All) outs /\ count_of st = Z.of_nat n.
Proof.
  intros Hdp. set (r := mkRound (mkClock 0 0 0) 8 [mkInfo 1 0 8 4 100]).
  assert (Hone : forall prev, exists out, negotiate_pure c prev false (r_clock r) (r_max_running r) (r_infos r) = Ok (out, false) /\
    output_allow out = false /\ input_estimation out = All).
  { intros prev. unfold negotiate_pure. simpl. rewrite Hdp. eexists. done. }
  assert (forall prev, exists st outs, rounds c prev false (replicate n r) = Ok (st, false, outs) /\ length outs = n /\
    Forall (fun o => output_allow o = false /\ input_estimation o = All) outs /\ count_of st = count_of prev + Z.of_nat n) as Hrun.
  { induction n as [|k IH]; intros prev; [exists prev, []; simpl; repeat split; [constructor|lia]|].
    destruct (Hone prev) as (out & Hn & Ha & He). destruct (IH (next_state out)) as (st & outs & Hr & Hl & Hf & Hc).
    exists st, (out :: outs). cbn [replicate rounds]. rewrite Hn. bind_step. rewrite Hr. bind_step.
    apply negotiate_count in Hn as (Hcnt & _). rewrite Ha in Hcnt.
    split; [done|]. split; [simpl; by rewrite Hl|]. split; [by constructor|lia]. }
  destruct (Hrun None) as (st & outs & Hr & Hl & Hf & Hc). exists (replicate n r), st, outs.
  rewrite length_replicate. simpl in Hc. done.
Qed.

(** Within a pass the executor negotiates once: after
    the first answer every further call gives the same answer and changes
    nothing, and finalizing leaves the result alone. *)
Theorem executor_negotiates_once gather clk a b m k w x x' r :
  executor_negotiate gather clk a b m k w x = Ok (x', r) ->
  (forall gather' clk' a' b' m' k' w', executor_negotiate gather' clk' a' b' m' k' w' x' = Ok (x', r)) /\
  (forall gather' clk', executor_finalize gather' clk' x' = Ok x').
Proof.
  unfold executor_negotiate, executor_finalize. destruct (x_result x) as [out|] eqn:E.
  - intros [= <- <-]. rewrite E. done.
  - intros Hr. apply bind_Ok_inv in Hr as ([d out] & _ & Hr). injection Hr as <- <-. done.
Qed.

End delayer.

(** ** Concrete rounds *)

#[local] Existing Instance exact_float.

Definition demo_delay_cfg : Config := Delayer.mkConfig 2 (Some (1 # 2)) (Some (1 # 4)) 5000 2 true.
Definition mixed_round : Round := mkRound (mkClock 0 0 0) 8 [mkInfo 1 0 4 2 1; mkInfo 0 0 6 2 0].

Lemma delayer_mixed_bounded_witness :
  exists st outs, rounds demo_delay_cfg None true [mixed_round; mixed_round] = Ok (st, true, outs) /\ length outs = 2%nat /\
    exists out, out ∈ outs /\ output_allow out = true /\ next_state out = None.
Proof.
  apply (delayer_mixed_bounded demo_delay_cfg None true [mixed_round; mixed_round]); [repeat constructor|reflexivity|discriminate].
Defined.

Lemma delayer_watermark_releases_witness :
  exists out, negotiate_pure demo_delay_cfg (Some (mkState 1 0)) false (mkClock 3 3 3) 8 [mkInfo 1 1 4 2 1; mkInfo 0 0 6 2 0] = Ok (out, false) /\
    output_allow out = true /\ output_reason out = TokenWatermark /\ next_state out = None /\ wait_forward_passes out = 1.
Proof.
  apply (delayer_watermark_releases demo_delay_cfg (Some (mkState 1 0)) false (mkClock 3 3 3) 8
    [mkInfo 1 1 4 2 1; mkInfo 0 0 6 2 0] (mkInfo 1 1 4 2 1)); [apply list_elem_of_here|reflexivity|reflexivity].
Defined.

Lemma delayer_ranks_agree_witness :
  exists out', negotiate_pure demo_delay_cfg None true (mkClock 9 9 9) 8 (r_infos mixed_round) = Ok (out', true) /\
    output_allow out' = false /\ output_reason out' = Delay /\ count_of (next_state out') = 1 /\
    (Some (mkState 1 0) = None <-> next_state out' = None).
Proof.
  apply (delayer_ranks_agree demo_delay_cfg None None true (mkClock 0 0 0) (mkClock 9 9 9) 8 (r_infos mixed_round)
    (mkOutput (Some (mkState 1 0)) Mixed false Delay 1 0 0 0) true); [done|reflexivity|reflexivity|reflexivity].
Defined.

Lemma slot_delay_uncapped_witness :
  exists rs st outs, length rs = 50%nat /\ rounds demo_delay_cfg None false rs = Ok (st, false, outs) /\ length outs = 50%nat /\
    Forall (fun o => output_allow o = false /\ input_estimation o = All) outs /\ count_of st = 50.
Proof. apply (slot_delay_uncapped demo_delay_cfg 50). reflexivity. Defined.

Definition demo_executor : Executor := mkExecutor (mkDelayer demo_delay_cfg None true) (3 # 4) None.

Lemma executor_negotiates_once_witness :
  exists x' r, executor_negotiate (fun i => [i]) (mkClock 0 0 0) true 1 1 8 1 demo_executor = Ok (x', r) /\
  (forall gather' clk' a' b' m' k' w', executor_negotiate gather' clk' a' b' m' k' w' x' = Ok (x', r)) /\
  (forall gather' clk', executor_finalize gather' clk' x' = Ok x').
Proof.
  eexists _, _. split; [reflexivity|].
  apply (executor_negotiates_once (fun i => [i]) (mkClock 0 0 0) true 1 1 8 1 demo_executor). reflexivity.
Defined.
