(* ===== verification/SchedPolicy.v ===== *)
(** * SchedPolicy: the order of the waiting queue

    Models the first half of [managers/schedule_policy.py]: the policy enums,
    [match_prefix_for_req] and class [SchedulePolicy], on the radix cache and
    the chunk cache of this library.  Hierarchical, sliding-window and mamba
    caches are outside: the host hit lengths of a match are then zero and
    [swa_reprefill_tail_tokens()] is zero. *)

From S2P Require Import Prelude RadixKey RadixNode RadixTree ReqPool ReqCache Allocator AllocatorSpec Allocation SchedDelay.
From Stdlib Require Import QArith.

Open Scope nat_scope.

(** ** Requests, as the scheduler sees them *)

(** [sreq] is the part the caches use; the other fields keep the names of
    class [Req], of its sampling parameters and of its time statistics. *)
Record SReq := mkSReq {
  sreq : Req;
  rid : string;
  max_new_tokens : Z;
  ignore_eos : bool;
  routing_key : option string;
  wait_queue_entry_time : Q;
  return_logprob : bool;
  logprob_start_len : Z;
  retracted_stain : bool;
  req_finished : bool;
  num_matched_prefix_tokens : Z;
  extend_range : option (Z * Z);
  host_hit_length : nat;
  swa_host_hit_length : nat;
  mamba_host_hit_length : nat;
  has_mamba_slot : bool;
  swa_uuid_for_lock : option Z;
}.

Definition with_sreq x m (r : SReq) := mkSReq x (rid r) (max_new_tokens r) (ignore_eos r) (routing_key r) (wait_queue_entry_time r) (return_logprob r) (logprob_start_len r) (retracted_stain r) (req_finished r) m (extend_range r) 0 0 0 (has_mamba_slot r) (swa_uuid_for_lock r).

Definition compute_max_prefix_len (r : SReq) (input_len : nat) : Z :=
  let max_prefix_len := (Z.of_nat input_len - 1)%Z in
  let max_prefix_len := if return_logprob r && (0 <=? logprob_start_len r)%Z
                        then Z.min max_prefix_len (logprob_start_len r) else max_prefix_len in
  Z.max max_prefix_len 0.

(** ** Python's stable sort *)

(** Components of a sort key; numbers compare by value, [Inf] is
    [float("inf")].  No key of the source compares a number with a string. *)
Inductive atom := Num (q : Q) | Inf | Str (s : string).

Definition atom_leb (a b : atom) : bool :=
  match a, b with
  | Num x, Num y => Qle_bool x y
  | Num _, _ => true
  | Inf, Num _ => false
  | Inf, _ => true
  | Str s, Str t => String.leb s t
  | Str _, _ => false
  end.

(** Tuples compare lexicographically. *)
Fixpoint key_leb (a b : list atom) : bool :=
  match a, b with
  | [], _ => true
  | _ :: _, [] => false
  | x :: a, y :: b => if atom_leb x y then (if atom_leb y x then key_leb a b else true) else false
  end.

Section sort.
Context {A : Type}.

Fixpoint sort_insert (x : list atom * A) (l : list (list atom * A)) : list (list atom * A) :=
  match l with
  | [] => [x]
  | y :: l => if key_leb x.1 y.1 then x :: y :: l else y :: sort_insert x l
  end.

Definition sort_pairs (l : list (list atom * A)) : list (list atom * A) := foldr sort_insert [] l.

(** [l.sort(key=key)]: the keys are computed first, in order. *)
Definition py_sort (key : A -> res (list atom)) (l : list A) : res (list A) :=
  ks ← mapM key l;
  Ok (sort_pairs (zip ks l)).*2.

End sort.

Definition zatom (z : Z) : atom := Num (inject_Z z).

(** ** Policies *)

Inductive CacheAwarePolicy := LPM | DFS_WEIGHT.
Inductive CacheAgnosticPolicy := FCFS | LOF | RANDOM | ROUTING_KEY.
Inductive Policy := Aware (p : CacheAwarePolicy) | Agnostic (p : CacheAgnosticPolicy).

#[global] Instance Aware_eq_dec : EqDecision CacheAwarePolicy.
Proof. solve_decision. Defined.
#[global] Instance Agnostic_eq_dec : EqDecision CacheAgnosticPolicy.
Proof. solve_decision. Defined.
#[global] Instance Policy_eq_dec : EqDecision Policy.
Proof. solve_decision. Defined.

Definition aware_of (s : string) : option CacheAwarePolicy :=
  if decide (s = "lpm"%string) then Some LPM else if decide (s = "dfs-weight"%string) then Some DFS_WEIGHT else None.

Definition agnostic_of (s : string) : option CacheAgnosticPolicy :=
  if decide (s = "fcfs"%string) then Some FCFS
  else if decide (s = "lof"%string) then Some LOF
  else if decide (s = "random"%string) then Some RANDOM
  else if decide (s = "routing-key"%string) then Some ROUTING_KEY
  else None.

Definition cache_disable (tc : PrefixCache) : bool :=
  match tc with Radix s => disable (cfg s) | Chunk _ => true end.

Definition validate_and_adjust_policy (policy : string) (tc : PrefixCache) : res Policy :=
  match aware_of policy with
  | Some p => if cache_disable tc then Ok (Agnostic FCFS) else Ok (Aware p)
  | None => match agnostic_of policy with
            | Some p => Ok (Agnostic p)
            | None => Raise ValueError
            end
  end.

(** [len(waiting_queue) > 128] *)
Definition determine_active_policy {A} (p : Policy) (waiting_queue : list A) : Policy :=
  if bool_decide (p = Aware LPM) && (128 <? Z.of_nat (length waiting_queue))%Z then Agnostic FCFS else p.

(** ** Prefix matching for a request *)

Definition IN_BATCH_PREFIX_CACHING_CHECK_THRESHOLD : nat := 32.
Definition IN_BATCH_PREFIX_CACHING_DEPRIORITIZE_THRESHOLD : nat := 32.

Section policy.
Context `{Env}.

(** [force_miss] is the environment flag [SGLANG_RADIX_FORCE_MISS]. *)
Definition zero_match_result (s : RadixCache) (m : MatchResult) : MatchResult :=
  mkMatch (take 0 (device_indices m)) (root_node s) (root_node s) (root_node s).

Definition match_key (r : SReq) (token_ids : list Z) : RadixKey :=
  mkRadixKey token_ids (req_extra_key (sreq r)) false None.

Definition match_prefix_for_req (force_miss : bool) (tc : PrefixCache) (r : SReq) (token_ids : list Z)
    : res (PrefixCache * SReq) :=
  '(tc, (indices, ln)) ←
    (match tc with
     | Radix s =>
         '(s, m) ← match_prefix (match_key r token_ids) s;
         let m := if force_miss then zero_match_result s m else m in
         Ok (Radix s, (device_indices m, Some (last_device_node m)))
     | Chunk ps => Ok (Chunk ps, ([], None))
     end);
  let max_len := compute_max_prefix_len r (length token_ids) in
  let matched := Z.min (Z.of_nat (length indices) + 0) max_len in
  Ok (tc, with_sreq (set_cache_fields (cache_protected_len (sreq r)) indices ln (sreq r)) matched r).

(** ** In-batch prefix caching *)

Definition prefix_ids (r : SReq) : list Z := origin_input_ids (sreq r) ++ output_ids (sreq r).

(** One iteration of [_compute_prefix_matches]: the caches, the request, and
    whether it is to be deprioritized.  The dummy values a simulated tree
    stores are uninitialised memory; only their number matters. *)
Definition compute_prefix_match (force_miss : bool) (tc : PrefixCache) (sim : RadixCache) (r : SReq)
    : res (PrefixCache * RadixCache * SReq * bool) :=
  let ids := prefix_ids r in
  '(tc, r) ← match_prefix_for_req force_miss tc r ids;
  if length (prefix_indices (sreq r)) <=? IN_BATCH_PREFIX_CACHING_CHECK_THRESHOLD then
    '(sim, m) ← match_prefix (match_key r ids) sim;
    let m := if force_miss then zero_match_result sim m else m in
    if IN_BATCH_PREFIX_CACHING_DEPRIORITIZE_THRESHOLD <=? length (device_indices m)
    then Ok (tc, sim, r, true)
    else
      '(sim, _) ← insert (match_key r ids) (Some (replicate (length ids) 0%Z)) (Some 0%Z) false sim;
      Ok (tc, sim, r, false)
  else Ok (tc, sim, r, false).

Fixpoint compute_prefix_loop (force_miss : bool) (tc : PrefixCache) (sim : RadixCache) (queue : list SReq)
    : res (PrefixCache * RadixCache * list SReq * gset string) :=
  match queue with
  | [] => Ok (tc, sim, [], ∅)
  | r :: queue =>
      '(tc, sim, r, dep) ← compute_prefix_match force_miss tc sim r;
      '(tc, sim, queue, deps) ← compute_prefix_loop force_miss tc sim queue;
      Ok (tc, sim, r :: queue, if dep : bool then {[rid r]} ∪ deps else deps)
  end.

Definition compute_prefix_matches (force_miss : bool) (tc : PrefixCache) (sim : RadixCache) (queue : list SReq)
    : res (PrefixCache * RadixCache * list SReq * gset string) :=
  compute_prefix_loop force_miss tc (reset sim) queue.

(** The loop of [calc_priority] for cache-agnostic policies. *)
Fixpoint match_all (force_miss : bool) (tc : PrefixCache) (queue : list SReq) : res (PrefixCache * list SReq) :=
  match queue with
  | [] => Ok (tc, [])
  | r :: queue =>
      '(tc, r) ← match_prefix_for_req force_miss tc r (prefix_ids r);
      '(tc, queue) ← match_all force_miss tc queue;
      Ok (tc, r :: queue)
  end.

(** ** The sorts *)

Definition longest_prefix_key (deps : gset string) (r : SReq) : res (list atom) :=
  Ok [if decide (rid r ∈ deps) then Inf else zatom (- num_matched_prefix_tokens r)].

Definition sort_by_longest_prefix (queue : list SReq) (deps : gset string) : res (list SReq) :=
  py_sort (longest_prefix_key deps) queue.

(** [x.priority * priority_sign], an error on [None]. *)
Definition signed_priority (sign : Z) (r : SReq) : res Z :=
  p ← or_raise TypeError (req_priority (sreq r));
  Ok (p * sign)%Z.

Definition sort_by_longest_output (queue : list SReq) (enable_priority : bool) (sign : Z) : res (list SReq) :=
  if enable_priority
  then py_sort (fun r => p ← signed_priority sign r; Ok [zatom p; zatom (- max_new_tokens r)]) queue
  else py_sort (fun r => Ok [zatom (- max_new_tokens r)]) queue.

Definition sort_by_priority_and_fcfs (queue : list SReq) (sign : Z) : res (list SReq) :=
  py_sort (fun r => p ← signed_priority sign r; Ok [zatom p; Num (wait_queue_entry_time r)]) queue.

(** A string or [None] that is truthy. *)
Definition truthy (s : option string) : option string :=
  match s with Some x => if decide (x = EmptyString) then None else Some x | None => None end.

(** The [Counter] over the running requests. *)
Definition routing_key_count (running : list SReq) (k : string) : nat :=
  length (List.filter (fun r => bool_decide (truthy (routing_key r) = Some k)) running).

Definition routing_sort_key (running : list SReq) (r : SReq) : list atom :=
  match truthy (routing_key r) with
  | Some k => if 0 <? routing_key_count running k
              then [zatom 0; zatom (- Z.of_nat (routing_key_count running k)); Str k]
              else [zatom 1; zatom 0; Str k]
  | None => [zatom 1; zatom 0; Str EmptyString]
  end.

Definition sort_by_routing_key (queue running : list SReq) : res (list SReq) :=
  if forallb (fun r => match truthy (routing_key r) with None => true | Some _ => false end) running
  then Ok queue
  else py_sort (fun r => Ok (routing_sort_key running r)) queue.

(** ** Depth-first weights *)

(** [last_node_to_reqs[node]] *)
Definition reqs_at (queue : list SReq) (n : nat) : list SReq :=
  List.filter (fun r => bool_decide (last_node (sreq r) = Some n)) queue.

(** [node_to_weight], a [defaultdict(int)]. *)
Definition weight_at (w : gmap nat Z) (n : nat) : Z := default 0%Z (w !! n).

Fixpoint initial_weights (queue todo : list SReq) : gmap nat Z :=
  match todo with
  | [] => ∅
  | r :: todo =>
      match last_node (sreq r) with
      | Some n => <[n := Z.of_nat (length (reqs_at queue n))]> (initial_weights queue todo)
      | None => initial_weights queue todo
      end
  end.

Fixpoint calc_weight (fuel : nat) (s : RadixCache) (cur : nat) (w : gmap nat Z) : res (gmap nat Z) :=
  match fuel with
  | 0 => Raise Diverges
  | S fuel =>
      nd ← get_node s cur;
      foldl (fun acc child =>
               w ← acc;
               w ← calc_weight fuel s child w;
               Ok (<[cur := (weight_at w cur + weight_at w child)%Z]> w))
        (Ok w) (children nd).*2
  end.

Fixpoint get_dfs_priority (fuel : nat) (s : RadixCache) (cur : nat) (w : gmap nat Z) (queue q : list SReq) : res (list SReq) :=
  match fuel with
  | 0 => Raise Diverges
  | S fuel =>
      nd ← get_node s cur;
      cs ← py_sort (fun c => Ok [zatom (- weight_at w c)]) (children nd).*2;
      q ← foldl (fun acc child => q ← acc; get_dfs_priority fuel s child w queue q) (Ok q) cs;
      Ok (q ++ reqs_at queue cur)
  end.

Definition sort_by_dfs_weight (queue : list SReq) (tc : PrefixCache) : res (list SReq) :=
  match tc with
  | Chunk _ => Raise AttributeError
  | Radix s =>
      let fuel := S (size (nodes s)) in
      w ← calc_weight fuel s (root_node s) (initial_weights queue queue);
      get_dfs_priority fuel s (root_node s) w queue []
  end.

(** ** calc_priority *)

Record SchedulePolicy := mkSP {
  sp_policy : Policy;
  enable_priority_scheduling : bool;
  priority_sign : Z;
  waiting_queue_radix_tree : RadixCache;
}.

Definition init_policy (policy : string) (tc : PrefixCache) (enable_priority low_first : bool) : res SchedulePolicy :=
  p ← validate_and_adjust_policy policy tc;
  Ok (mkSP p enable_priority (if low_first then 1 else -1)%Z (create_simulated false 1 false)).

Definition is_aware (p : Policy) : bool := match p with Aware _ => true | Agnostic _ => false end.

(** [shuffle] is [random.shuffle]; [fast_match] is
    [tree_cache.supports_fast_match_prefix()] and [decode_server] says that
    this is a decode server of a disaggregated deployment. *)
Definition calc_priority (shuffle : list SReq -> list SReq) (force_miss fast_match decode_server : bool)
    (sp : SchedulePolicy) (tc : PrefixCache) (queue : list SReq) (running : option (list SReq))
    : res (SchedulePolicy * PrefixCache * list SReq) :=
  let policy := determine_active_policy (sp_policy sp) queue in
  '(tc, queue) ← (if negb (is_aware policy) && fast_match && negb decode_server
                  then match_all force_miss tc queue else Ok (tc, queue));
  if bool_decide (sp_policy sp = Agnostic FCFS) then
    (if enable_priority_scheduling sp
     then q ← sort_by_priority_and_fcfs queue (priority_sign sp); Ok (sp, tc, q)
     else Ok (sp, tc, queue))
  else
    match policy with
    | Aware p =>
        '(tc, sim, queue, deps) ← compute_prefix_matches force_miss tc (waiting_queue_radix_tree sp) queue;
        let sp := mkSP (sp_policy sp) (enable_priority_scheduling sp) (priority_sign sp) sim in
        q ← (match p with
             | LPM => sort_by_longest_prefix queue deps
             | DFS_WEIGHT => sort_by_dfs_weight queue tc
             end);
        Ok (sp, tc, q)
    | Agnostic p =>
        q ← (match p with
             | FCFS => Ok queue
             | LOF => sort_by_longest_output queue (enable_priority_scheduling sp) (priority_sign sp)
             | RANDOM => Ok (shuffle queue)
             | ROUTING_KEY => match running with
                              | Some running => sort_by_routing_key queue running
                              | None => Ok queue
                              end
             end);
        Ok (sp, tc, q)
    end.

End policy.
