(* ===== verification/SchedPolicySpec.v ===== *)
(** * SchedPolicySpec: lemmas about the queue order

    The stable sort of Python on the keys the policies use, the depth-first
    walk over the radix tree, and the runs of the in-batch prefix matching. *)

From S2P Require Import Prelude RadixKey RadixNode RadixTree RadixInv RadixSteps RadixContent RadixOps RadixInsert RadixLock RadixEvict RadixSpec ReqPool ReqCache Allocator AllocatorSpec Allocation SchedDelay SchedPolicy.
From Stdlib Require Import QArith.

Open Scope nat_scope.

(** ** The order on keys is a total preorder *)

Lemma string_leb_cons a b s t :
  String.leb (String a s) (String b t) =
  match Ascii.compare a b with Eq => String.leb s t | Lt => true | Gt => false end.
Proof. unfold String.leb. simpl. by destruct (Ascii.compare a b). Qed.

Lemma string_leb_trans s t u : String.leb s t = true -> String.leb t u = true -> String.leb s u = true.
Proof.
  revert t u. induction s as [|a s IH]; intros [|b t] [|c u]; try done.
  rewrite !string_leb_cons. unfold Ascii.compare.
  destruct (N.compare_spec (Ascii.N_of_ascii a) (Ascii.N_of_ascii b)),
    (N.compare_spec (Ascii.N_of_ascii b) (Ascii.N_of_ascii c)),
    (N.compare_spec (Ascii.N_of_ascii a) (Ascii.N_of_ascii c)); try done; try lia. apply IH.
Qed.

Lemma atom_leb_total a b : atom_leb a b = true \/ atom_leb b a = true.
Proof.
  destruct a as [x| |s], b as [y| |t]; simpl; auto; [|apply String.leb_total].
  rewrite !Qle_bool_iff. destruct (Qlt_le_dec x y); [left; by apply Qlt_le_weak|by right].
Qed.

Lemma atom_leb_trans a b c : atom_leb a b = true -> atom_leb b c = true -> atom_leb a c = true.
Proof.
  destruct a as [x| |s], b as [y| |t], c as [z| |u]; simpl; try done; [|apply string_leb_trans].
  rewrite !Qle_bool_iff. apply Qle_trans.
Qed.

Lemma key_leb_total a b : key_leb a b = true \/ key_leb b a = true.
Proof.
  revert b. induction a as [|x a IH]; intros [|y b]; simpl; auto.
  destruct (atom_leb x y) eqn:E1, (atom_leb y x) eqn:E2; auto.
  destruct (atom_leb_total x y); congruence.
Qed.

Lemma key_leb_trans a b c : key_leb a b = true -> key_leb b c = true -> key_leb a c = true.
Proof.
  revert b c. induction a as [|x a IH]; intros [|y b] [|z c]; simpl; try done.
  destruct (atom_leb x y) eqn:E1, (atom_leb y z) eqn:E2; try done.
  rewrite (atom_leb_trans _ _ _ E1 E2).
  destruct (atom_leb y x) eqn:E3, (atom_leb z y) eqn:E4, (atom_leb z x) eqn:E5; try done; intros; eauto;
    exfalso; pose proof (atom_leb_trans z x y); pose proof (atom_leb_trans y z x);
    destruct (atom_leb z y), (atom_leb y x); naive_solver.
Qed.

(** ** The sort *)

Section sort.
Context {A : Type}.

Definition pair_le (x y : list atom * A) : Prop := key_leb x.1 y.1 = true.

(** The elements whose key is equivalent to [k]. *)
Definition same_key (k : list atom) (x : list atom * A) : bool := key_leb k x.1 && key_leb x.1 k.

Lemma sort_insert_perm x (l : list (list atom * A)) : sort_insert x l ≡ₚ x :: l.
Proof. induction l as [|y l IH]; simpl; [done|]. destruct (key_leb _ _); [done|]. rewrite IH. constructor. Qed.

Lemma sort_pairs_perm (l : list (list atom * A)) : sort_pairs l ≡ₚ l.
Proof. induction l as [|x l IH]; simpl; [done|]. by rewrite sort_insert_perm, IH. Qed.

Lemma sort_insert_sorted x l : StronglySorted pair_le l -> StronglySorted pair_le (sort_insert x l).
Proof.
  induction 1 as [|y l Hs IH Hy]; simpl; [repeat constructor|]. destruct (key_leb x.1 y.1) eqn:E.
  - constructor; [by constructor|]. constructor; [done|]. eapply Forall_impl; [done|]. intros z Hz.
    by eapply key_leb_trans.
  - constructor; [done|]. rewrite sort_insert_perm. constructor; [|done].
    by destruct (key_leb_total x.1 y.1) as [|?]; [congruence|].
Qed.

Lemma sort_pairs_sorted (l : list (list atom * A)) : StronglySorted pair_le (sort_pairs l).
Proof. induction l; simpl; [constructor|]. by apply sort_insert_sorted. Qed.

Lemma sort_insert_stable k x (l : list (list atom * A)) : List.filter (same_key k) (sort_insert x l) = List.filter (same_key k) (x :: l).
Proof.
  induction l as [|y l IH]; [done|]. cbn [sort_insert]. destruct (key_leb x.1 y.1) eqn:E; [done|].
  cbn [List.filter] in *. rewrite IH. destruct (same_key k x) eqn:Ex, (same_key k y) eqn:Ey; try done. exfalso.
  unfold same_key in *. apply andb_prop in Ex as [? E1]. apply andb_prop in Ey as [E2 ?].
  pose proof (key_leb_trans _ _ _ E1 E2). congruence.
Qed.

Lemma sort_pairs_stable k (l : list (list atom * A)) : List.filter (same_key k) (sort_pairs l) = List.filter (same_key k) l.
Proof. induction l as [|x l IH]; [done|]. cbn [sort_pairs foldr]. rewrite sort_insert_stable. simpl. by rewrite <- IH. Qed.

(** What [l.sort(key=key)] guarantees. *)
Record sorted_by (key : A -> list atom) (l l' : list A) : Prop := {
  sb_perm : l' ≡ₚ l;
  sb_sorted : StronglySorted (fun x y => key_leb (key x) (key y) = true) l';
  sb_stable k : List.filter (fun x => key_leb k (key x) && key_leb (key x) k) l' =
                List.filter (fun x => key_leb k (key x) && key_leb (key x) k) l;
}.

Lemma py_sort_run (f : A -> res (list atom)) (key : A -> list atom) (l : list A) :
  (forall x, x ∈ l -> f x = Ok (key x)) -> exists l' : list A, py_sort f l = Ok l' /\ sorted_by key l l'.
Proof.
  intros Hf. unfold py_sort. rewrite (mapM_Ok _ key _ Hf). bind_step. eexists. split; [done|].
  assert (zip (key <$> l) l = (fun x => (key x, x)) <$> l) as ->.
  { clear. induction l; csimpl; [done|]. by f_equal. }
  set (g := fun x => (key x, x)). assert (Hk : Forall (fun y => y = g y.2) (sort_pairs (g <$> l))).
  { rewrite sort_pairs_perm, Forall_fmap. by apply Forall_true. }
  split.
  - rewrite sort_pairs_perm, <- list_fmap_compose. by rewrite list_fmap_id.
  - pose proof (sort_pairs_sorted (g <$> l)) as Hs. revert Hk. induction Hs as [|y m Hs IH Hy]; intros Hk; [constructor|].
    inversion Hk as [|? ? E Hk']; subst. csimpl. constructor; [by apply IH|]. apply Forall_fmap.
    eapply Forall_impl; [apply Forall_and; split; [exact Hy|exact Hk']|]. intros z [Hz Ez]. simpl.
    unfold pair_le in Hz. by rewrite E, Ez in Hz.
  - intros k. pose proof (sort_pairs_stable k (g <$> l)) as Hst. apply (f_equal (fmap snd)) in Hst.
    assert (Hfil : forall m, Forall (fun y => y = g y.2) m ->
      (List.filter (same_key k) m).*2 = List.filter (fun x => key_leb k (key x) && key_leb (key x) k) m.*2).
    { induction 1 as [|y m E _ IH]; [done|]. cbn [List.filter]. csimpl. rewrite E at 1. unfold same_key at 1. simpl.
      cbn [List.filter]. destruct (_ && _); csimpl; by rewrite IH. }
    rewrite <- (Hfil _ Hk), Hst, Hfil by (rewrite Forall_fmap; by apply Forall_true).
    by rewrite <- list_fmap_compose, list_fmap_id.
Qed.

End sort.

(** ** The depth-first walk *)

Section dfs.
Context {s : RadixCache} {L : gset nat} {P : nat -> list kunit} {Hd : nat -> Z} {pend : option (nat * Z)}
        (I : Inv_at s L P Hd pend).

Definition kids (s : RadixCache) (n : nat) : list nat :=
  match nodes s !! n with Some nd => (children nd).*2 | None => [] end.

(** [under s n m]: [m] is in the subtree of [n]. *)
Inductive under (s : RadixCache) : nat -> nat -> Prop :=
| under_refl n : under s n n
| under_kid n c m : c ∈ kids s n -> under s c m -> under s n m.

(** [l] lists the subtree of [n]. *)
Definition lists_subtree (s : RadixCache) (n : nat) (l : list nat) : Prop :=
  NoDup l /\ forall m, m ∈ l <-> under s n m.

Lemma kid_facts n c : n ∈ L -> c ∈ kids s n ->
  c ∈ L /\ (exists cd, nodes s !! c = Some cd /\ parent cd = Some n) /\ length (P n) < length (P c).
Proof using I.
  pose proof (inv_wf _ _ _ _ _ I) as W. intros Hn Hc. unfold kids in Hc.
  destruct (nodes s !! n) as [nd|] eqn:E; [|set_solver]. pose proof (tree_lookup _ _ _ E) as Et.
  destruct (dict_value_get c (children nd)) as [k Hk]; [apply (wf_nodup _ _ _ _ _ _ W n (shape_of nd)); done|done|].
  destruct (wf_child_link W n (shape_of nd) k c Hn Et Hk) as (cd & HcL & Hr & _ & Hcd & Hpar & _).
  destruct (wf_below W c cd HcL Hr Hcd) as (p & pd & Hp & _ & _ & _ & _ & _ & Hlt).
  assert (p = n) as -> by congruence.
  apply tree_lookup_inv in Hcd as (cn & Hcn & <-). eauto.
Qed.

Lemma kids_nodup n : n ∈ L -> NoDup (kids s n).
Proof using I.
  intros Hn. unfold kids. destruct (nodes s !! n) as [nd|] eqn:E; [|constructor].
  apply (wf_values_nodup (inv_wf _ _ _ _ _ I) n (shape_of nd) Hn). by apply tree_lookup.
Qed.

Lemma under_facts n m : under s n m -> n ∈ L ->
  m ∈ L /\ length (P n) <= length (P m) /\
  (m = n \/ exists md p, nodes s !! m = Some md /\ parent md = Some p /\ under s n p).
Proof using I.
  induction 1 as [n|n c m Hc Hu IH]; intros Hn; [auto|].
  destruct (kid_facts n c Hn Hc) as (HcL & (cd & Hcd & Hp) & Hlt). destruct (IH HcL) as (HmL & Hle & Hor).
  split; [done|]. split; [lia|]. right. destruct Hor as [->|(md & p & ? & ? & Hup)].
  - exists cd, n. split; [done|]. split; [done|]. constructor.
  - exists md, p. split; [done|]. split; [done|]. by eapply under_kid.
Qed.

Lemma under_kids_disjoint n c1 c2 m :
  n ∈ L -> c1 ∈ kids s n -> c2 ∈ kids s n -> under s c1 m -> under s c2 m -> c1 = c2.
Proof using I.
  intros Hn Hc1 Hc2 H1 H2. destruct (kid_facts _ _ Hn Hc1) as (HL1 & (d1 & Hd1 & Hp1) & Hl1).
  destruct (kid_facts _ _ Hn Hc2) as (HL2 & (d2 & Hd2 & Hp2) & Hl2).
  remember (length (P m)) as k eqn:Ek. revert m Ek H1 H2. induction k as [k IH] using lt_wf_ind. intros m -> H1 H2.
  destruct (under_facts _ _ H1 HL1) as (HmL & _ & [->|(md & p & Hm & Hp & Hu1)]).
  - destruct (under_facts _ _ H2 HL2) as (_ & _ & [?|(md & p & Hm & Hp & Hu2)]); [done|].
    assert (p = n) as -> by congruence. destruct (under_facts _ _ Hu2 HL2) as (_ & ? & _). lia.
  - destruct (under_facts _ _ H2 HL2) as (_ & _ & [->|(md' & p' & Hm' & Hp' & Hu2)]).
    + assert (p = n) as -> by congruence. destruct (under_facts _ _ Hu1 HL1) as (_ & ? & _). lia.
    + assert (p' = p) as -> by congruence. destruct (under_facts _ _ Hu1 HL1) as (HpL & _ & _).
      apply (IH (length (P p))) with (m := p); [|done..].
      destruct (decide (m = root_node s)) as [->|Hr].
      { destruct (wf_root _ _ _ _ _ _ (inv_wf _ _ _ _ _ I)) as [cs Hcs]. rewrite (tree_lookup _ _ _ Hm) in Hcs.
        injection Hcs as _ E _ _ _. congruence. }
      destruct (wf_below (inv_wf _ _ _ _ _ I) m (shape_of md) HmL Hr (tree_lookup _ _ _ Hm)) as (q & ? & E & _ & _ & _ & _ & _ & Hlt).
      simpl in E. assert (q = p) as -> by congruence. done.
Qed.

(** The subtree of a node from the subtrees of its children. *)
Lemma lists_node n ls : n ∈ L -> Forall2 (lists_subtree s) (kids s n) ls -> lists_subtree s n (n :: concat ls).
Proof using I.
  intros Hn Hls.
  assert (forall ks ls, NoDup ks -> (forall c, c ∈ ks -> c ∈ kids s n) -> Forall2 (lists_subtree s) ks ls ->
    NoDup (concat ls) /\ forall m, m ∈ concat ls <-> exists c, c ∈ ks /\ under s c m) as Hgen.
  { clear ls Hls. intros ks ls Hnd Hsub Hls. induction Hls as [|c l ks ls [Hl Hm] Hls IH]; simpl.
    { split; [constructor|]. intros m. set_solver. }
    apply NoDup_cons in Hnd as [Hc Hnd]. destruct IH as [IH1 IH2]; [done|intros; apply Hsub; by constructor|].
    split.
    - apply NoDup_app. split; [done|]. split; [|done]. intros m Hml Hmc. apply Hm in Hml. apply IH2 in Hmc as (c' & Hc' & Hu).
      assert (c = c') as ->; [|done]. apply (under_kids_disjoint n c c' m); auto; apply Hsub; by constructor.
    - intros m. rewrite elem_of_app, Hm, IH2. split; [intros [?|(? & ? & ?)]; eexists; split; eauto; by constructor|].
      intros (c' & Hc' & Hu). apply elem_of_cons in Hc' as [->|?]; eauto. }
  destruct (Hgen _ _ (kids_nodup n Hn) ltac:(auto) Hls) as [H1 H2]. split.
  - apply NoDup_cons. split; [|done]. intros (c & Hc & Hu)%H2. destruct (kid_facts n c Hn Hc) as (HcL & _ & Hlt).
    destruct (under_facts c n Hu HcL) as (_ & ? & _). lia.
  - intros m. rewrite elem_of_cons, H2. split.
    + intros [->|(c & ? & ?)]; [constructor|by eapply under_kid].
    + inversion 1; subst; eauto.
Qed.

(** Induction along the tree: enough fuel is left as long as the ancestors
    visited so far, all with shorter paths, leave room. *)
Lemma tree_ind_fuel (Q : nat -> nat -> Prop) :
  (forall fuel n, n ∈ L -> (forall c, c ∈ kids s n -> Q fuel c) -> Q (S fuel) n) ->
  forall fuel n, n ∈ L -> size L <= fuel -> Q fuel n.
Proof using I.
  intros Hstep fuel n Hn Hf.
  assert (forall fuel n (A : gset nat), n ∈ L -> A ⊆ L -> (forall a, a ∈ A -> length (P a) < length (P n)) ->
    size L <= fuel + size A -> Q fuel n) as Hgen.
  { clear fuel n Hn Hf. induction fuel as [|fuel IH]; intros n A Hn HA Hlt Hsz.
    - assert (n ∉ A) as Hna. { intros Ha. specialize (Hlt n Ha). lia. }
      assert ({[n]} ∪ A ⊆ L) as Hsub by set_solver. apply subseteq_size in Hsub.
      rewrite size_union, size_singleton in Hsub by set_solver. lia.
    - apply Hstep; [done|]. intros c Hc. destruct (kid_facts n c Hn Hc) as (HcL & _ & Hl).
      assert (n ∉ A) as Hna. { intros Ha. specialize (Hlt n Ha). lia. }
      apply (IH c ({[n]} ∪ A)); [done|set_solver| |].
      + intros a [->%elem_of_singleton|Ha]%elem_of_union; [done|]. specialize (Hlt a Ha). lia.
      + rewrite size_union, size_singleton by set_solver. lia. }
  apply (Hgen fuel n ∅); [done|set_solver|set_solver|]. rewrite size_empty. lia.
Qed.

(** *** Weights *)

Definition wsum (w : gmap nat Z) (l : list nat) : Z := foldr Z.add 0%Z (weight_at w <$> l).

Lemma wsum_app w l l' : wsum w (l ++ l') = (wsum w l + wsum w l')%Z.
Proof. unfold wsum. by rewrite fmap_app, foldr_add_app. Qed.

Lemma wsum_ext w w' l : (forall m, m ∈ l -> weight_at w' m = weight_at w m) -> wsum w' l = wsum w l.
Proof.
  intros E. unfold wsum. f_equal. apply list_fmap_ext. intros i m Hm. apply E. by eapply list_elem_of_lookup_2.
Qed.

Lemma wsum_subtree w n l l' : lists_subtree s n l -> lists_subtree s n l' -> wsum w l = wsum w l'.
Proof.
  intros [H1 H2] [H3 H4]. unfold wsum. apply foldr_add_perm. apply fmap_Permutation, NoDup_Permutation; [done..|].
  intros m. by rewrite H2, H4.
Qed.

Lemma under_trans n m k : under s n m -> under s m k -> under s n k.
Proof. induction 1; [done|]. intros. eapply under_kid; eauto. Qed.

Lemma weight_at_insert_eq n x w : weight_at (<[n := x]> w) n = x.
Proof. unfold weight_at. by rewrite lookup_insert_eq. Qed.

Lemma weight_at_insert_ne n m x w : n <> m -> weight_at (<[n := x]> w) m = weight_at w m.
Proof. intros. unfold weight_at. by rewrite lookup_insert_ne. Qed.

(** [w'] is [w] with the weights of the nodes [l] replaced by subtree sums. *)
Definition summed (w w' : gmap nat Z) (l : list nat) : Prop :=
  (forall m, m ∉ l -> weight_at w' m = weight_at w m) /\
  forall m lm, m ∈ l -> lists_subtree s m lm -> weight_at w' m = wsum w lm.

Definition weigh_kid (fuel n : nat) (acc : res (gmap nat Z)) (child : nat) : res (gmap nat Z) :=
  w ← acc;
  w ← calc_weight fuel s child w;
  Ok (<[n := (weight_at w n + weight_at w child)%Z]> w).

Lemma weigh_kids fuel n ks ls w :
  NoDup (n :: concat ls) ->
  Forall2 (fun c l => lists_subtree s c l /\
    forall w, exists w', calc_weight fuel s c w = Ok w' /\ summed w w' l) ks ls ->
  exists w', foldl (weigh_kid fuel n) (Ok w) ks = Ok w' /\
    summed w (<[n := weight_at w n]> w') (concat ls) /\ weight_at w' n = (weight_at w n + wsum w (concat ls))%Z.
Proof.
  intros Hnd Hls. revert w Hnd. induction Hls as [|c l ks ls [Hl Hc] Hls IH]; intros w Hnd; simpl.
  { exists w. split; [done|]. split; [|unfold wsum; simpl; lia]. split; [|set_solver]. intros m _.
    destruct (decide (n = m)) as [->|]; [by rewrite weight_at_insert_eq|by rewrite weight_at_insert_ne]. }
  destruct (Hc w) as (w1 & E1 & Hw1 & Hs1). rewrite E1. bind_step. simpl in Hnd.
  apply NoDup_cons in Hnd as [Hn Hnd]. apply NoDup_app in Hnd as (Hnl & Hdis & Hnd).
  set (w2 := <[n := _]> w1).
  assert (Hin : c ∈ l) by (apply Hl; constructor).
  assert (weight_at w2 n = (weight_at w n + wsum w l)%Z) as E2.
  { unfold w2. rewrite weight_at_insert_eq, (Hw1 n) by set_solver. by rewrite (Hs1 c l Hin Hl). }
  assert (Hsame : forall m, m ∈ concat ls -> weight_at w2 m = weight_at w m).
  { intros m Hm. unfold w2. rewrite weight_at_insert_ne by set_solver. apply Hw1. set_solver. }
  destruct (IH w2) as (w' & E' & [Hw' Hs'] & Hn'); [apply NoDup_cons; set_solver|].
  exists w'. split; [done|]. split; [split|].
  - intros m Hm. destruct (decide (n = m)) as [->|Hne]; [by rewrite weight_at_insert_eq|].
    rewrite weight_at_insert_ne by done. specialize (Hw' m). rewrite weight_at_insert_ne in Hw' by done.
    rewrite Hw' by set_solver. unfold w2. rewrite weight_at_insert_ne by done. apply Hw1. set_solver.
  - intros m lm Hm Hlm. assert (n <> m) as Hne by set_solver. rewrite weight_at_insert_ne by done.
    destruct (decide (m ∈ concat ls)) as [Hmc|Hmc].
    + specialize (Hs' m lm Hmc Hlm). rewrite weight_at_insert_ne in Hs' by done. rewrite Hs'. apply wsum_ext.
      intros x Hx. apply Hsame. apply elem_of_concat in Hmc as (l' & Hml' & Hl').
      apply elem_of_concat. exists l'. split; [|done].
      apply list_elem_of_lookup in Hl' as [i Hi]. destruct (Forall2_lookup_r _ _ _ _ _ Hls Hi) as (c' & _ & [_ Hu] & _).
      apply Hu. eapply under_trans; [by apply Hu|]. by apply Hlm.
    + assert (m ∈ l) as Hml by set_solver. specialize (Hw' m Hmc). rewrite weight_at_insert_ne in Hw' by done.
      rewrite Hw'. unfold w2. rewrite weight_at_insert_ne by done. by apply Hs1.
  - rewrite Hn', E2, wsum_app, (wsum_ext _ _ _ Hsame). lia.
Qed.

Lemma calc_weight_run fuel n : n ∈ L -> size L <= fuel ->
  exists l, lists_subtree s n l /\ forall w, exists w', calc_weight fuel s n w = Ok w' /\ summed w w' l.
Proof using I.
  revert fuel n. apply (tree_ind_fuel (fun fuel n => exists l, lists_subtree s n l /\
    forall w, exists w', calc_weight fuel s n w = Ok w' /\ summed w w' l)).
  intros fuel n Hn IH.
  assert (exists ls, Forall2 (fun c l => lists_subtree s c l /\
    forall w, exists w', calc_weight fuel s c w = Ok w' /\ summed w w' l) (kids s n) ls) as [ls Hls].
  { apply Forall_exists_Forall2_l, Forall_forall. done. }
  assert (Hn' : lists_subtree s n (n :: concat ls)).
  { apply lists_node; [done|]. eapply Forall2_impl; [done|]. by intros ? ? [? _]. }
  exists (n :: concat ls). split; [done|]. intros w. destruct (weigh_kids fuel n (kids s n) ls w) as (w' & E & [H1 H2] & H3);
    [apply Hn'|done|].
  exists w'. split.
  { cbn [calc_weight]. unfold kids in E. destruct (wf_lookup (inv_wf _ _ _ _ _ I) n Hn) as [sh Hsh].
    apply tree_lookup_inv in Hsh as (nd & Hnd & _). rewrite (get_node_Ok _ _ _ Hnd). rewrite Hnd in E. exact E. }
  split.
  - intros m Hm. specialize (H1 m). rewrite weight_at_insert_ne in H1 by set_solver. apply H1. set_solver.
  - intros m lm Hm Hlm. apply elem_of_cons in Hm as [->|Hm].
    + rewrite (wsum_subtree w n lm _ Hlm Hn'), H3. done.
    + specialize (H2 m lm Hm Hlm). rewrite weight_at_insert_ne in H2; [done|]. destruct Hn' as [Hnd _].
      apply NoDup_cons in Hnd as [? _]. congruence.
Qed.

(** *** The order of the visit *)

(** Post-order, at every node the heavier children first. *)
Inductive dfs_order (s : RadixCache) (w : gmap nat Z) : nat -> list nat -> Prop :=
| dfs_node n cs l :
    sorted_by (fun c => [zatom (- weight_at w c)]) (kids s n) cs -> dfs_orders s w cs l -> dfs_order s w n (l ++ [n])
with dfs_orders (s : RadixCache) (w : gmap nat Z) : list nat -> list nat -> Prop :=
| dfs_nil : dfs_orders s w [] []
| dfs_cons c cs l ls : dfs_order s w c l -> dfs_orders s w cs ls -> dfs_orders s w (c :: cs) (l ++ ls).

Definition visits (fuel n : nat) : Prop := forall w queue q, exists l,
  dfs_order s w n l /\ lists_subtree s n l /\
  get_dfs_priority fuel s n w queue q = Ok (q ++ (l ≫= reqs_at queue)).

Lemma visit_kids fuel w queue q cs :
  Forall (visits fuel) cs ->
  exists ls, dfs_orders s w cs (concat ls) /\ Forall2 (lists_subtree s) cs ls /\
    foldl (fun acc child => q ← acc; get_dfs_priority fuel s child w queue q) (Ok q) cs
    = Ok (q ++ (concat ls ≫= reqs_at queue)).
Proof.
  intros Hcs. revert q. induction Hcs as [|c cs Hc Hcs IH]; intros q; simpl.
  { exists []. split; [constructor|]. split; [constructor|]. simpl. by rewrite app_nil_r. }
  destruct (Hc w queue q) as (l & Ho & Hl & ->). destruct (IH (q ++ (l ≫= reqs_at queue))) as (ls & Hos & Hls & ->).
  exists (l :: ls). split; [by constructor|]. split; [by constructor|]. simpl. by rewrite bind_app, app_assoc.
Qed.

Lemma lists_subtree_perm n l l' : l ≡ₚ l' -> lists_subtree s n l -> lists_subtree s n l'.
Proof. intros E [H1 H2]. split; [by rewrite <- E|]. intros m. by rewrite <- E. Qed.

Lemma get_dfs_run fuel n : n ∈ L -> size L <= fuel -> visits fuel n.
Proof using I.
  revert fuel n. apply tree_ind_fuel. intros fuel n Hn IH w queue q. cbn [get_dfs_priority].
  destruct (wf_lookup (inv_wf _ _ _ _ _ I) n Hn) as [sh Hsh]. apply tree_lookup_inv in Hsh as (nd & Hnd & _).
  rewrite (get_node_Ok _ _ _ Hnd). bind_step.
  assert (kids s n = (children nd).*2) as Ek by (unfold kids; by rewrite Hnd).
  destruct (py_sort_run (fun c => Ok [zatom (- weight_at w c)]) (fun c => [zatom (- weight_at w c)%Z]) (children nd).*2)
    as (cs & -> & Hs); [done|]. bind_step.
  destruct (visit_kids fuel w queue q cs) as (ls & Hos & Hls & ->).
  { rewrite (sb_perm _ _ _ Hs), <- Ek. by apply Forall_forall. }
  bind_step. exists (concat ls ++ [n]). rewrite <- Ek in Hs. split; [by econstructor|]. split.
  - pose proof (sb_perm _ _ _ Hs) as Hp. destruct (Permutation_Forall2 Hp Hls) as (ls' & Hpl & Hls').
    eapply lists_subtree_perm; [|by apply lists_node].
    rewrite (Permutation_app_comm (concat ls) [n]). simpl. constructor.
    clear -Hpl. induction Hpl; simpl; [done|by apply Permutation_app_head| |by etrans].
    rewrite !app_assoc. apply Permutation_app_tail, Permutation_app_comm.
  - rewrite bind_app. simpl. by rewrite app_nil_r, app_assoc.
Qed.

End dfs.

(** ** Matching the requests of a queue *)

(** The request after a match: its prefix slots, last node and hit count. *)
Definition with_match (idx : list Z) (ln : nat) (r : SReq) : SReq :=
  with_sreq (set_cache_fields (cache_protected_len (sreq r)) idx (Some ln) (sreq r))
    (Z.min (Z.of_nat (length idx) + 0) (compute_max_prefix_len r (length (prefix_ids r)))) r.

(** The slots a match must find: those of the longest cached prefix. *)
Definition found (force_miss : bool) (s : RadixCache) (r : SReq) (idx : list Z) : Prop :=
  disable (cfg s) = false ->
  if force_miss then idx = []
  else exists q, longest_cached s (req_extra_key (sreq r)) (key_iter (aligned s (match_key r (prefix_ids r)))) q idx.

Section runs.
Context `{Env}.

Lemma match_req_run force s L P Hd r :
  Inv_at s L P Hd None ->
  exists s' L' P' idx ln, match_prefix_for_req force (Radix s) r (prefix_ids r) = Ok (Radix s', with_match idx ln r) /\
    refines Hd s L P s' L' P' /\ ln ∈ L' /\ found force s r idx.
Proof.
  intros I. unfold match_prefix_for_req, found. destruct (disable (cfg s)) eqn:Hdis.
  - unfold match_prefix. rewrite Hdis. destruct (maybe_to_bigram_view _ _ _) as [k1 v1]. exists s, L, P, [], (root_node s).
    split; [destruct force; reflexivity|]. split; [by apply refines_core|]. split; [apply (inv_wf _ _ _ _ _ I)|done].
  - destruct (match_prefix_run s L P Hd (match_key r (prefix_ids r)) I Hdis) as (s' & L' & P' & m & q & -> & R & Hlc & Hp & _); [done|].
    bind_step. pose proof (rf_inv _ _ _ _ _ _ _ R) as I'.
    destruct (books_psize _ _ (rf_books _ _ _ _ _ _ _ R)) as (_ & Er & _). rewrite <- Er in Hp.
    exists s', L', P', (if force then [] else device_indices m), (if force then root_node s' else last_device_node m).
    split; [destruct force; reflexivity|]. split; [done|]. split.
    + destruct force; [apply (inv_wf _ _ _ _ _ I')|]. by apply (path_to_live (inv_wf _ _ _ _ _ I') _ _ _ _ Hp).
    + intros _. destruct force; [done|]. by exists q.
Qed.

(** Content decides what a match finds, so [found] can be read off any
    refinement of the tree. *)
Lemma found_refines force Hd s L P s' L' P' r idx :
  refines Hd s L P s' L' P' -> found force s' r idx -> found force s r idx.
Proof.
  intros R Hf Hdis. destruct (books_psize _ _ (rf_books _ _ _ _ _ _ _ R)) as (Eps & _ & Ec).
  unfold found in Hf. rewrite Ec in Hf. specialize (Hf Hdis). destruct force; [done|]. destruct Hf as [q [H1 H2 H3]].
  exists q. unfold aligned in *. rewrite Ec, Eps in *. split; [done|by apply (rf_content _ _ _ _ _ _ _ R)|].
  intros p vs Hc. by apply (H3 p vs), (rf_content _ _ _ _ _ _ _ R).
Qed.

Lemma prefix_ids_match idx ln r : prefix_ids (with_match idx ln r) = prefix_ids r.
Proof. done. Qed.

(** *** In-batch prefix caching *)

(** A request that was put in the simulated tree: namespace and tokens. *)
Definition rep : Type := option string * list Z.

Definition rep_of (r : SReq) : rep := (req_extra_key (sreq r), prefix_ids r).

(** [r] shares at least 32 leading tokens with [x] in the same namespace. *)
Definition shares (r : SReq) (x : rep) : bool :=
  bool_decide (x.1 = req_extra_key (sreq r)) && (32 <=? length (prefix_ids r)) &&
  bool_decide (take 32 (prefix_ids r) = take 32 x.2).

(** The rids to deprioritize: among the requests with at most 32 cached
    tokens, those that share a long prefix with an earlier such request that
    was not deprioritized itself. *)
Fixpoint in_batch_deps (force : bool) (reps : list rep) (queue : list SReq) : gset string :=
  match queue with
  | [] => ∅
  | r :: queue =>
      if length (prefix_indices (sreq r)) <=? 32 then
        if negb force && existsb (shares r) reps
        then {[rid r]} ∪ in_batch_deps force reps queue
        else in_batch_deps force (rep_of r :: reps) queue
      else in_batch_deps force reps queue
  end.

Definition sim_config : CacheConfig := mkConfig false 1 false false false false LRUStrategy.

(** The simulated tree stores exactly the prefixes of [reps]. *)
Definition sim_holds (sim : RadixCache) (reps : list rep) : Prop := forall ek p,
  (exists vs, cached sim ek p vs) <-> p = [] \/ exists x, x ∈ reps /\ x.1 = ek /\ p `prefix_of` (Tok <$> x.2).

Record sim_ok (sim : RadixCache) (reps : list rep) : Prop := {
  so_inv : Inv sim (fun _ => 0%Z);
  so_cfg : cfg sim = sim_config;
  so_holds : sim_holds sim reps;
}.

Lemma sim_aligned sim r ids :
  cfg sim = sim_config -> aligned sim (match_key r ids) = match_key r ids.
Proof. intros E. unfold aligned, psize. by rewrite E. Qed.

Lemma match_key_units r ids : key_iter (match_key r ids) = Tok <$> ids.
Proof. unfold key_iter, match_key, raw_len. simpl. by rewrite Nat.eqb_refl. Qed.

Lemma match_key_len r ids : key_len (match_key r ids) = length ids.
Proof. by rewrite <- length_key_iter, match_key_units, length_fmap. Qed.

#[local] Instance Tok_inj : Inj (=) (=) Tok.
Proof. intros ?? E. by injection E. Qed.

Lemma shared_prefix (a b : list Z) q n :
  q `prefix_of` (Tok <$> a) -> q `prefix_of` (Tok <$> b) -> n <= length q -> take n a = take n b.
Proof.
  intros [x Hx] [y Hy] Hn. apply (inj (fmap Tok)). rewrite !fmap_take, Hx, Hy.
  by rewrite !take_app_le.
Qed.

Lemma sim_dep_iff sim reps r q w :
  sim_ok sim reps -> longest_cached sim (req_extra_key (sreq r)) (Tok <$> prefix_ids r) q w ->
  (32 <=? length w) = existsb (shares r) reps.
Proof.
  intros [I Ec Hh] [Hp Hc Hmax]. destruct (cached_length _ _ _ _ _ I Hc) as [-> _].
  destruct (existsb _ _) eqn:E.
  - apply existsb_exists in E as (x & Hx & Hs). apply list_elem_of_In in Hx. unfold shares in Hs.
    apply andb_prop in Hs as [Hs Ht%bool_decide_eq_true]. apply andb_prop in Hs as [Hek%bool_decide_eq_true Hlen].
    apply Nat.leb_le in Hlen. apply Nat.leb_le.
    assert (length (Tok <$> take 32 (prefix_ids r)) = 32) as El by (rewrite length_fmap, length_take; lia).
    destruct (Hh (req_extra_key (sreq r)) (Tok <$> take 32 (prefix_ids r))) as [_ Hb]. destruct Hb as [vs Hvs].
    { right. exists x. split; [done|]. split; [done|]. rewrite Ht, fmap_take. apply prefix_take. }
    specialize (Hmax _ _ Hvs). rewrite El in Hmax. apply Hmax. rewrite fmap_take. apply prefix_take.
  - apply Nat.leb_gt. destruct (decide (length q < 32)) as [|Hlt]; [done|]. exfalso.
    destruct (Hh (req_extra_key (sreq r)) q) as [Hf _]. destruct Hf as [->|(x & Hx & Hek & Hpx)]; [eauto|simpl in Hlt; lia|].
    rewrite <- not_true_iff_false in E. apply E, existsb_exists. exists x. split; [by apply list_elem_of_In|].
    unfold shares. rewrite bool_decide_true by done. assert (length q <= length (prefix_ids r)) as Hle.
    { apply prefix_length in Hp. by rewrite length_fmap in Hp. }
    rewrite (proj2 (Nat.leb_le _ _)) by lia. simpl. apply bool_decide_eq_true.
    apply (shared_prefix _ _ q); [done|done|lia].
Qed.

Lemma sim_match sim reps r : sim_ok sim reps ->
  exists sim' m q, match_prefix (match_key r (prefix_ids r)) sim = Ok (sim', m) /\ sim_ok sim' reps /\
    longest_cached sim (req_extra_key (sreq r)) (Tok <$> prefix_ids r) q (device_indices m).
Proof.
  intros [(L & P & I) Ec Hh].
  destruct (match_prefix_run sim L P _ (match_key r (prefix_ids r)) I) as (s' & L' & P' & m & q & -> & R & Hlc & _);
    [by rewrite Ec|done|].
  rewrite (sim_aligned _ _ _ Ec), match_key_units in Hlc. exists s', m, q. split; [done|]. split; [|done].
  destruct (books_psize _ _ (rf_books _ _ _ _ _ _ _ R)) as (_ & _ & Ec'). split.
  - exists L', P'. apply R.
  - congruence.
  - intros ek p. destruct (Hh ek p) as [H1 H2]. split.
    + intros [vs Hvs]. apply H1. exists vs. by apply (rf_content _ _ _ _ _ _ _ R).
    + intros Hor. destruct (H2 Hor) as [vs Hvs]. exists vs. by apply (rf_content _ _ _ _ _ _ _ R).
Qed.

Lemma sim_insert sim reps r : sim_ok sim reps ->
  exists sim' x, insert (match_key r (prefix_ids r)) (Some (replicate (length (prefix_ids r)) 0%Z)) (Some 0%Z) false sim
    = Ok (sim', x) /\ sim_ok sim' (rep_of r :: reps).
Proof.
  intros [(L & P & I) Ec Hh].
  destruct (insert_run sim L P _ (match_key r (prefix_ids r)) (Some (replicate (length (prefix_ids r)) 0%Z)) (Some 0%Z) false I)
    as (s' & L' & P' & last & q & w & -> & R).
  - by rewrite Ec.
  - done.
  - intros He. by rewrite Ec in He.
  - intros x [= <-]. by rewrite (sim_aligned _ _ _ Ec), match_key_len, length_replicate.
  - eexists _, _. split; [done|]. rewrite (sim_aligned _ _ _ Ec), match_key_units in R. split.
    + exists L', P'. apply R.
    + destruct (is_cfg _ _ _ _ _ _ _ _ _ _ _ _ R) as [-> _]. done.
    + intros ek p. split.
      * intros [vs Hvs]. apply (is_content _ _ _ _ _ _ _ _ _ _ _ _ R) in Hvs as [Hvs|(-> & Hp & _)].
        -- destruct (Hh ek p) as [[?|(x & ? & ? & ?)] _]; [by exists vs|by left|]. right. exists x. set_solver.
        -- right. exists (rep_of r). split; [by constructor|done].
      * intros Hor. assert (p = [] \/ (exists x, x ∈ reps /\ x.1 = ek /\ p `prefix_of` (Tok <$> x.2)) \/
          (ek = req_extra_key (sreq r) /\ p `prefix_of` (Tok <$> prefix_ids r))) as [Hd|[Hd|[-> Hp]]].
        { destruct Hor as [?|(x & Hx & Hek & Hp)]; [by left|]. right. apply elem_of_cons in Hx as [->|Hx]; [by right|].
          left. by exists x. }
        -- destruct (proj2 (Hh ek p) (or_introl Hd)) as [vs Hvs]. exists vs.
           apply (is_content _ _ _ _ _ _ _ _ _ _ _ _ R). by left.
        -- destruct (proj2 (Hh ek p) (or_intror Hd)) as [vs Hvs]. exists vs.
           apply (is_content _ _ _ _ _ _ _ _ _ _ _ _ R). by left.
        -- eexists. apply (is_content _ _ _ _ _ _ _ _ _ _ _ _ R). right. split; [done|]. split; [done|]. split; [|done].
           unfold psize. rewrite Ec. apply Nat.divide_1_l.
Qed.

Lemma compute_prefix_match_run force s L P Hd sim reps r :
  Inv_at s L P Hd None -> sim_ok sim reps ->
  exists s' L' P' sim' idx ln, let r' := with_match idx ln r in
    let low := length idx <=? 32 in let dep := low && negb force && existsb (shares r') reps in
    compute_prefix_match force (Radix s) sim r = Ok (Radix s', sim', r', dep) /\
    refines Hd s L P s' L' P' /\ ln ∈ L' /\ found force s r idx /\
    sim_ok sim' (if low && negb dep then rep_of r' :: reps else reps).
Proof.
  intros I Hsim. destruct (match_req_run force s L P Hd r I) as (s' & L' & P' & idx & ln & E & R & Hln & Hf).
  exists s', L', P'. unfold compute_prefix_match. rewrite E. bind_step.
  change (prefix_indices (sreq (with_match idx ln r))) with idx. unfold IN_BATCH_PREFIX_CACHING_CHECK_THRESHOLD.
  destruct (length idx <=? 32) eqn:Elow; [|by exists sim, idx, ln; rewrite Elow].
  destruct (sim_match sim reps (with_match idx ln r) Hsim) as (sim1 & m & q & Em & Hsim1 & Hlc).
  rewrite prefix_ids_match in Em. rewrite Em. bind_step.
  destruct (sim_insert sim1 reps (with_match idx ln r) Hsim1) as (sim2 & x & Ei & Hsim2). rewrite prefix_ids_match in Ei.
  unfold IN_BATCH_PREFIX_CACHING_DEPRIORITIZE_THRESHOLD. destruct force.
  - change (32 <=? length (device_indices (if true then zero_match_result sim1 m else m))) with false. rewrite Ei. bind_step. exists sim2, idx, ln. rewrite Elow. by destruct x.
  - cbv iota. rewrite (sim_dep_iff sim reps (with_match idx ln r) q _ Hsim Hlc).
    destruct (existsb (shares (with_match idx ln r)) reps) eqn:Es.
    + exists sim1, idx, ln. by rewrite Elow, Es.
    + rewrite Ei. bind_step. exists sim2, idx, ln. rewrite Elow, Es. by destruct x.
Qed.

(** Every request of the queue after the matches. *)
Definition matched (force : bool) (s : RadixCache) (L' : gset nat) (r r' : SReq) : Prop :=
  exists idx ln, r' = with_match idx ln r /\ ln ∈ L' /\ found force s r idx.

Lemma matched_refines force Hd s L P s1 L1 P1 L2 q q' :
  refines Hd s L P s1 L1 P1 -> Forall2 (matched force s1 L2) q q' -> Forall2 (matched force s L2) q q'.
Proof.
  intros R Hq. eapply Forall2_impl; [exact Hq|]. intros r r0 (idx & ln & E & Hln & Hf). exists idx, ln.
  split; [done|]. split; [done|]. by eapply found_refines.
Qed.

Lemma compute_prefix_loop_run force s L P Hd sim reps queue :
  Inv_at s L P Hd None -> sim_ok sim reps ->
  exists s' L' P' sim' queue' reps', compute_prefix_loop force (Radix s) sim queue
      = Ok (Radix s', sim', queue', in_batch_deps force reps queue') /\
    refines Hd s L P s' L' P' /\ Forall2 (matched force s L') queue queue' /\ sim_ok sim' reps'.
Proof.
  revert s L P sim reps. induction queue as [|r queue IH]; intros s L P sim reps I Hsim.
  { exists s, L, P, sim, [], reps. split; [done|]. split; [by apply refines_core|]. by split. }
  cbn [compute_prefix_loop].
  destruct (compute_prefix_match_run force s L P Hd sim reps r I Hsim) as (s1 & L1 & P1 & sim1 & idx & ln & E & R1 & Hln & Hf & Hsim1).
  rewrite E. bind_step. clear E.
  destruct (IH s1 L1 P1 sim1 _ (rf_inv _ _ _ _ _ _ _ R1) Hsim1) as (s2 & L2 & P2 & sim2 & q2 & reps2 & -> & R2 & Hq & Hsim2).
  bind_step. exists s2, L2, P2, sim2, (with_match idx ln r :: q2), reps2. split; [|split; [by eapply refines_trans|split; [|done]]].
  - do 2 f_equal. cbn [in_batch_deps]. change (prefix_indices (sreq (with_match idx ln r))) with idx.
    destruct (length idx <=? 32); simpl; [|done]. by destruct (negb force && _).
  - constructor; [|by eapply matched_refines]. exists idx, ln. split; [done|]. split; [|done].
    apply (rf_sub _ _ _ _ _ _ _ R2), Hln.
Qed.

Lemma match_all_run force s L P Hd queue :
  Inv_at s L P Hd None ->
  exists s' L' P' queue', match_all force (Radix s) queue = Ok (Radix s', queue') /\
    refines Hd s L P s' L' P' /\ Forall2 (matched force s L') queue queue'.
Proof.
  revert s L P. induction queue as [|r queue IH]; intros s L P I.
  { exists s, L, P, []. split; [done|]. split; [by apply refines_core|constructor]. }
  cbn [match_all]. destruct (match_req_run force s L P Hd r I) as (s1 & L1 & P1 & idx & ln & -> & R1 & Hln & Hf).
  bind_step. destruct (IH s1 L1 P1 (rf_inv _ _ _ _ _ _ _ R1)) as (s2 & L2 & P2 & q2 & -> & R2 & Hq).
  bind_step. exists s2, L2, P2, (with_match idx ln r :: q2). split; [done|]. split; [by eapply refines_trans|].
  constructor; [|by eapply matched_refines]. exists idx, ln. split; [done|]. split; [|done].
  apply (rf_sub _ _ _ _ _ _ _ R2), Hln.
Qed.

(** A reset simulated tree stores nothing. *)
Lemma sim_reset_gen sim :
  cfg sim = sim_config -> (forall n nd, nodes sim !! n = Some nd -> n < counter sim) -> sim_ok (reset sim) [].
Proof.
  intros Ec Hfr. assert (cfg (reset sim) = sim_config) as Ec'.
  { unfold reset, record_all_cleared_event. simpl. by rewrite Ec. }
  assert (Inv (reset sim) (fun _ => 0%Z)) as I'.
  { apply reset_inv; [unfold psize; rewrite Ec; simpl; lia|done]. }
  split; [done..|]. intros ek p. split; [|by intros [->|(x & Hx & _)]; [exists []; constructor|set_solver]].
  intros [vs Hc]. left. destruct I' as (L' & P' & I'). pose proof (inv_wf _ _ _ _ _ I') as W.
  assert (exists nd, nodes (reset sim) !! root_node (reset sim) = Some nd /\ children nd = []) as (nd & Hnd & Hch).
  { unfold reset, record_all_cleared_event. simpl. rewrite Ec. simpl. rewrite lookup_alter_eq, lookup_insert_eq. by eexists. }
  assert (forall c cd v, ~ child_of (tree (reset sim)) ek (root_node (reset sim)) c cd v) as Hno.
  { intros c cd v [(nd' & k & Hn & Hk) _ _ _]. rewrite (tree_lookup _ _ _ Hnd) in Hn. injection Hn as <-.
    simpl in Hk. by rewrite Hch in Hk. }
  unfold cached in Hc. inversion Hc; subst; [done|..]; exfalso; eapply Hno; eassumption.
Qed.

Lemma sim_reset sim reps : sim_ok sim reps -> sim_ok (reset sim) [].
Proof.
  intros [(L & P & I) Ec _]. apply sim_reset_gen; [done|]. intros n nd Hn.
  apply (inv_fresh _ _ _ _ _ I n (shape_of nd)). by apply tree_lookup.
Qed.

Lemma sim_reset_fresh : sim_ok (reset (mkCache sim_config ∅ 0 0 0 0 ∅ [] ∅ [] 0)) [].
Proof. by apply sim_reset_gen. Qed.

End runs.

(** ** Counting requests by node *)

Definition node_in (l : list nat) (r : SReq) : bool :=
  match last_node (sreq r) with Some n => bool_decide (n ∈ l) | None => false end.

Lemma node_in_cons n l r : node_in (n :: l) r = bool_decide (last_node (sreq r) = Some n) || node_in l r.
Proof.
  unfold node_in. destruct (last_node (sreq r)) as [m|]; [|done].
  destruct (decide (m = n)) as [->|Hne]; [by rewrite !bool_decide_true by set_solver|].
  rewrite (bool_decide_false (Some m = Some n)) by congruence. simpl. apply bool_decide_ext. set_solver.
Qed.

Lemma reqs_at_bind queue l : NoDup l -> (l ≫= reqs_at queue) ≡ₚ List.filter (node_in l) queue.
Proof.
  induction 1 as [|n l Hn Hl IH]; csimpl.
  { induction queue as [|r q IH]; [done|]. cbn [List.filter]. destruct (node_in [] r) eqn:E; [|done].
    unfold node_in in E. destruct (last_node _); [|done]. apply bool_decide_eq_true in E. set_solver. }
  rewrite IH. clear IH Hl. unfold reqs_at. induction queue as [|r q IH]; [done|]. cbn [List.filter].
  rewrite node_in_cons. destruct (bool_decide _) eqn:E1, (node_in l r) eqn:E2; simpl.
  - exfalso. apply bool_decide_eq_true in E1. unfold node_in in E2. rewrite E1 in E2. by apply bool_decide_eq_true in E2.
  - by constructor.
  - rewrite <- Permutation_middle. by constructor.
  - done.
Qed.

Lemma initial_weights_at (queue todo : list SReq) n :
  (forall r, r ∈ todo -> r ∈ queue) -> (forall r, r ∈ queue -> last_node (sreq r) = Some n -> r ∈ todo) ->
  weight_at (initial_weights queue todo) n = Z.of_nat (length (reqs_at queue n)).
Proof.
  intros Hsub Hall.
  assert (forall todo : list SReq, (exists r, r ∈ todo /\ last_node (sreq r) = Some n) \/
    (forall r, r ∈ todo -> last_node (sreq r) <> Some n)) as Hdec.
  { clear. induction todo as [|r todo [(r' & ? & ?)|IH]].
    - right. set_solver.
    - left. exists r'. set_solver.
    - destruct (decide (last_node (sreq r) = Some n)); [left; exists r; set_solver|right; set_solver]. }
  assert (forall todo : list SReq, (exists r, r ∈ todo /\ last_node (sreq r) = Some n) ->
    weight_at (initial_weights queue todo) n = Z.of_nat (length (reqs_at queue n))) as Hhit.
  { clear -Hdec. induction todo as [|r todo IH]; intros (r' & Hr & Hn); [set_solver|]. cbn [initial_weights].
    destruct (last_node (sreq r)) as [m|] eqn:E; [|apply IH; exists r'; set_solver].
    destruct (decide (m = n)) as [->|Hne]; [unfold weight_at; by rewrite lookup_insert_eq|].
    unfold weight_at. rewrite lookup_insert_ne by done. apply IH. exists r'. split; [|done].
    apply elem_of_cons in Hr as [->|?]; [congruence|done]. }
  destruct (Hdec todo) as [Hex|Hno]; [by apply Hhit|].
  assert (reqs_at queue n = []) as ->.
  { unfold reqs_at. clear -Hall Hno. assert (forall r, r ∈ queue -> last_node (sreq r) <> Some n) as Hq by naive_solver.
    clear Hall Hno. induction queue as [|r q IH]; [done|]. cbn [List.filter]. rewrite bool_decide_false by (apply Hq; set_solver).
    apply IH. set_solver. }
  clear -Hno. unfold weight_at. induction todo as [|r todo IH]; [done|]. cbn [initial_weights].
  destruct (last_node (sreq r)) as [m|] eqn:E; [|apply IH; set_solver].
  rewrite lookup_insert_ne; [apply IH; set_solver|]. intros ->. apply (Hno r); [set_solver|done].
Qed.

Lemma wsum_initial queue l :
  wsum (initial_weights queue queue) l = Z.of_nat (length (l ≫= reqs_at queue)).
Proof.
  unfold wsum. induction l as [|n l IH]; csimpl; [done|]. rewrite IH, length_app, initial_weights_at by done. lia.
Qed.
