(* ===== verification/SchedPolicyClaims.v ===== *)
(** * SchedPolicyClaims: what the scheduling policies guarantee *)

From S2P Require Import Prelude RadixKey RadixNode RadixTree RadixInv RadixSteps RadixContent RadixOps RadixInsert RadixLock RadixEvict RadixSpec ReqPool ReqCache Allocator AllocatorSpec Allocation SchedDelay SchedPolicy SchedPolicySpec RadixDemo.
From Stdlib Require Import QArith.

Open Scope nat_scope.

Section claims.
Context `{Env}.

(** Computing the prefix matches of the waiting
    queue always returns on a well-formed cache.  Every request gets the slots
    of its longest cached prefix and a node of the tree; and a request is
    deprioritized exactly if it has at most 32 cached tokens and shares at
    least 32 leading tokens, in the same namespace, with an earlier request of
    the queue that has few cached tokens and is not deprioritized itself.  The
    cached content does not change. *)
Theorem in_batch_deprioritizes force s Hd sim reps queue :
  Inv s Hd -> sim_ok sim reps ->
  exists s' sim' queue' reps', compute_prefix_matches force (Radix s) sim queue
      = Ok (Radix s', sim', queue', in_batch_deps force [] queue') /\
    Forall2 (fun r r' => exists idx ln, r' = with_match idx ln r /\ live s' ln /\ found force s r idx) queue queue' /\
    Inv s' Hd /\ sim_ok sim' reps' /\ (forall ek p vs, cached s' ek p vs <-> cached s ek p vs).
Proof.
  intros (L & P & I) Hsim.
  destruct (compute_prefix_loop_run force s L P Hd (reset sim) [] queue I (sim_reset _ _ Hsim))
    as (s' & L' & P' & sim' & queue' & reps' & Hrun & R & Hq & Hsim').
  exists s', sim', queue', reps'. split; [done|]. split; [|split; [by exists L', P'; apply R|split; [done|apply R]]].
  eapply Forall2_impl; [exact Hq|]. intros r r' (idx & ln & ? & Hln & ?). exists idx, ln. split; [done|].
  split; [|done]. by apply (live_iff _ _ _ _ _ _ (rf_inv _ _ _ _ _ _ _ R)).
Qed.

Lemma dfs_run s Hd queue :
  Inv s Hd -> Forall (fun r => exists n, last_node (sreq r) = Some n /\ live s n) queue ->
  exists w order, sort_by_dfs_weight queue (Radix s) = Ok (order ≫= reqs_at queue) /\
    dfs_order s w (root_node s) order /\
    (forall n l, live s n -> lists_subtree s n l ->
       weight_at w n = Z.of_nat (length (List.filter (node_in l) queue))) /\
    (order ≫= reqs_at queue) ≡ₚ queue.
Proof.
  intros (L & P & I) Hq. assert (size L <= S (size (nodes s))) as Hf.
  { assert (L ⊆ dom (nodes s)) as Hsub.
    { intros n Hn. destruct (wf_lookup (inv_wf _ _ _ _ _ I) n Hn) as [sh Hsh].
      apply tree_lookup_inv in Hsh as (nd & Hnd & _). apply elem_of_dom. eauto. }
    apply subseteq_size in Hsub. rewrite size_dom in Hsub. lia. }
  pose proof (wf_root_in _ _ _ _ _ _ (inv_wf _ _ _ _ _ I)) as Hroot. unfold sort_by_dfs_weight.
  destruct (calc_weight_run I _ (root_node s) Hroot Hf) as (l & Hl & Hw).
  destruct (Hw (initial_weights queue queue)) as (w & -> & Hun & Hsum). bind_step.
  destruct (get_dfs_run I _ (root_node s) Hroot Hf w queue []) as (order & Ho & Hol & ->). exists w, order.
  assert (forall n, live s n -> n ∈ order) as Hlive.
  { intros n (ek & q & vq & Hp). apply Hol. clear -Hp. induction Hp as [|n c cd v q vq m Hc Hp IH]; [constructor|].
    eapply under_kid; [|done]. destruct (co_entry _ _ _ _ _ _ Hc) as (nd & k & Hnd & Hk).
    apply tree_lookup_inv in Hnd as (n0 & Hn0 & <-). unfold kids. rewrite Hn0. by eapply dict_get_value. }
  split; [done|]. split; [done|]. split.
  - intros n ln Hn Hln. rewrite (Hsum n ln); [|apply Hl, Hol; by apply Hlive|done].
    rewrite wsum_initial. f_equal. by rewrite (reqs_at_bind queue ln) by apply Hln.
  - rewrite reqs_at_bind by apply Hol. clear -Hq Hlive. induction Hq as [|r q (n & Hn & Hnl) Hq IH]; [done|].
    cbn [List.filter]. unfold node_in at 1. rewrite Hn, bool_decide_true by by apply Hlive. by constructor.
Qed.

(** Sorting by depth-first weight returns the queue
    rearranged: the requests of the tree's nodes in post-order, where the
    weight of a node is the number of queued requests in its subtree and
    heavier children are visited first. *)
Theorem dfs_weight_visits s Hd queue :
  Inv s Hd -> Forall (fun r => exists n, last_node (sreq r) = Some n /\ live s n) queue ->
  exists w order, sort_by_dfs_weight queue (Radix s) = Ok (order ≫= reqs_at queue) /\
    dfs_order s w (root_node s) order /\
    (forall n l, live s n -> lists_subtree s n l ->
       weight_at w n = Z.of_nat (length (List.filter (node_in l) queue))) /\
    (order ≫= reqs_at queue) ≡ₚ queue.
Proof. apply dfs_run. Qed.

(** ** Orders *)

Lemma zatom_leb x y : atom_leb (zatom x) (zatom y) = (x <=? y)%Z.
Proof.
  unfold zatom. simpl. apply eq_true_iff_eq. rewrite Qle_bool_iff, Z.leb_le. by rewrite Zle_Qle.
Qed.

Lemma key1_leb x y : key_leb [x] [y] = atom_leb x y.
Proof. simpl. destruct (atom_leb x y), (atom_leb y x); done. Qed.

(** The longest-prefix-match order: first the
    requests that are not deprioritized, longest match first and in queue
    order among equals; then the deprioritized ones, in queue order. *)
Theorem longest_prefix_order queue deps :
  exists front, sort_by_longest_prefix queue deps
      = Ok (front ++ List.filter (fun r => bool_decide (rid r ∈ deps)) queue) /\
    front ≡ₚ List.filter (fun r => negb (bool_decide (rid r ∈ deps))) queue /\
    StronglySorted (fun x y => (num_matched_prefix_tokens y <= num_matched_prefix_tokens x)%Z) front /\
    forall n, List.filter (fun r => num_matched_prefix_tokens r =? n)%Z front =
      List.filter (fun r => negb (bool_decide (rid r ∈ deps)) && (num_matched_prefix_tokens r =? n)%Z) queue.
Proof.
  set (key := fun r => [if decide (rid r ∈ deps) then Inf else zatom (- num_matched_prefix_tokens r)]).
  destruct (py_sort_run (longest_prefix_key deps) key queue) as (q & E & [Hp Hs Hst]); [done|].
  unfold sort_by_longest_prefix. rewrite E. set (dep := fun r : SReq => bool_decide (rid r ∈ deps)).
  pose proof (sorted_split _ dep _ Hs) as Esp. exists (List.filter (fun r => negb (dep r)) q).
  assert (List.filter dep q = List.filter dep queue) as Ed.
  { specialize (Hst [Inf]). erewrite (filter_ext_eq dep), Hst; [apply filter_ext_eq|]; intros r; unfold dep, key;
      rewrite !key1_leb; case_decide; by rewrite ?bool_decide_true, ?bool_decide_false by done. }
  split; [|split; [|split]].
  - rewrite <- Ed. f_equal. apply Esp. unfold key, dep. intros x y. rewrite key1_leb, !bool_decide_eq_true.
    intros Hle Hx. rewrite decide_True in Hle by done. by case_decide.
  - by apply filter_perm.
  - apply (StronglySorted_filter _ (fun r => negb (dep r))) in Hs.
    assert (Forall (fun r => rid r ∉ deps) (List.filter (fun r => negb (dep r)) q)) as Hn.
    { apply Forall_forall. intros r Hr%list_elem_of_In. apply filter_In in Hr as [_ Hr].
      apply negb_true_iff, bool_decide_eq_false in Hr. done. }
    clear Esp Hst Ed. revert Hn. induction Hs as [|x l Hs IH Hx]; intros Hn; [constructor|]. apply Forall_cons in Hn as [Hnx Hnl].
    constructor; [exact (IH Hnl)|]. rewrite Forall_forall in *. intros y Hy. specialize (Hx y Hy). unfold key in Hx.
    rewrite key1_leb, !decide_False, zatom_leb in Hx by auto. apply Z.leb_le in Hx. lia.
  - intros n. specialize (Hst [zatom (- n)]).
    assert (forall l, List.filter (fun r => negb (dep r) && (num_matched_prefix_tokens r =? n)%Z) l =
      List.filter (fun x => key_leb [zatom (- n)] (key x) && key_leb (key x) [zatom (- n)]) l) as Ex.
    { intros l. apply filter_ext_eq. intros r. unfold dep, key. rewrite !key1_leb. case_decide.
      - rewrite bool_decide_true by done. done.
      - rewrite bool_decide_false, !zatom_leb by done. simpl. lia. }
    etrans; [|symmetry; exact (Ex queue)]. rewrite <- Hst, <- Ex. clear. induction q as [|r q IH]; [done|]. cbn [List.filter].
    destruct (negb (dep r)); cbn [List.filter andb]; [|done]. by destruct (_ =? _)%Z; rewrite IH.
Qed.

Lemma key2_leb a b c d : key_leb [zatom a; b] [zatom c; d] = ((a <? c)%Z || ((a =? c)%Z && atom_leb b d)).
Proof.
  cbn [key_leb]. rewrite !zatom_leb. destruct (Z.leb_spec a c), (Z.leb_spec c a); simpl.
  - rewrite (proj2 (Z.ltb_ge a c)), (proj2 (Z.eqb_eq a c)) by lia. simpl. by destruct (atom_leb b d), (atom_leb d b).
  - by rewrite (proj2 (Z.ltb_lt a c)) by lia.
  - by rewrite (proj2 (Z.ltb_ge a c)), (proj2 (Z.eqb_neq a c)) by lia.
  - lia.
Qed.

(** With priorities set, the priority order is a
    rearrangement of the queue by signed priority, then by the time of entry
    into the queue, and it keeps the queue order of requests that agree on
    both. *)
Theorem priority_fcfs_order queue sign prio :
  (forall r, r ∈ queue -> req_priority (sreq r) = Some (prio r)) ->
  exists q, sort_by_priority_and_fcfs queue sign = Ok q /\ q ≡ₚ queue /\
    StronglySorted (fun x y => (prio x * sign < prio y * sign)%Z \/
      (prio x * sign = prio y * sign)%Z /\ (wait_queue_entry_time x <= wait_queue_entry_time y)%Q) q /\
    forall p t, List.filter (fun r => (prio r * sign =? p)%Z && Qeq_bool (wait_queue_entry_time r) t) q =
                List.filter (fun r => (prio r * sign =? p)%Z && Qeq_bool (wait_queue_entry_time r) t) queue.
Proof.
  intros Hprio. set (key := fun r => [zatom (prio r * sign); Num (wait_queue_entry_time r)]).
  unfold sort_by_priority_and_fcfs.
  destruct (py_sort_run (fun r => p ← signed_priority sign r; Ok [zatom p; Num (wait_queue_entry_time r)]) key queue)
    as (q & -> & [Hp Hs Hst]).
  { intros r Hr. unfold signed_priority. by rewrite (Hprio r Hr). }
  exists q. split; [done|]. split; [done|]. split.
  - eapply StronglySorted_weaken; [|exact Hs]. intros x y Hxy. unfold key in Hxy. rewrite key2_leb in Hxy.
    apply orb_prop in Hxy as [Hlt|Heq]; [left; lia|right]. apply andb_prop in Heq as [He Hq]. split; [lia|].
    by apply Qle_bool_iff.
  - intros p t. specialize (Hst [zatom p; Num t]).
    assert (forall l, List.filter (fun r => (prio r * sign =? p)%Z && Qeq_bool (wait_queue_entry_time r) t) l =
      List.filter (fun x => key_leb [zatom p; Num t] (key x) && key_leb (key x) [zatom p; Num t]) l) as Ex; [|by rewrite !Ex].
    intros l. apply filter_ext_eq. intros r. unfold key. rewrite !key2_leb. cbn [atom_leb].
    apply eq_true_iff_eq. rewrite !andb_true_iff, !orb_true_iff, !andb_true_iff, !Qle_bool_iff, Qeq_bool_iff.
    split.
    + intros [E1 E2]. split; right; (split; [lia|]); rewrite E2; apply Qle_refl.
    + intros [[?|[? ?]] [?|[? ?]]]; try lia. split; [lia|]. by apply Qle_antisym.
Qed.

(** ** The whole scheduler step *)

(** A policy object as [__init__] leaves it and [calc_priority] keeps it. *)
Definition policy_ok (s : RadixCache) (sp : SchedulePolicy) : Prop :=
  (is_aware (sp_policy sp) = true -> disable (cfg s) = false) /\
  exists reps, sim_ok (waiting_queue_radix_tree sp) reps.

Lemma init_policy_ok name s enable_priority low_first sp :
  init_policy name (Radix s) enable_priority low_first = Ok sp -> policy_ok s sp.
Proof.
  unfold init_policy, validate_and_adjust_policy. intros Hrun. split.
  - destruct (aware_of name); [|destruct (agnostic_of name)]; simpl in Hrun; try done.
    + destruct (disable (cfg s)); injection Hrun as <-; done.
    + by injection Hrun as <-.
  - exists []. assert (waiting_queue_radix_tree sp = reset (mkCache sim_config ∅ 0 0 0 0 ∅ [] ∅ [] 0)) as ->.
    { destruct (aware_of name); [destruct (cache_disable (Radix s))|destruct (agnostic_of name)]; simpl in Hrun;
        by inversion Hrun. }
    apply sim_reset_fresh.
Qed.

Lemma sorts_return {A} (f : A -> res (list atom)) l :
  (forall x, x ∈ l -> exists k, f x = Ok k) -> exists l' : list A, py_sort f l = Ok l' /\ l' ≡ₚ l.
Proof.
  intros Hf. destruct (py_sort_run f (fun x => match f x with Ok k => k | Raise _ => [] end) l) as (l' & E & S).
  - intros x Hx. destruct (Hf x Hx) as [k E]. by rewrite E.
  - exists l'. split; [done|apply S].
Qed.

Lemma matched_priority force s L queue queue' :
  Forall2 (matched force s L) queue queue' ->
  Forall (fun r => req_priority (sreq r) <> None) queue -> Forall (fun r => req_priority (sreq r) <> None) queue'.
Proof.
  induction 1 as [|r r' q q' (idx & ln & -> & _) _ IH]; intros Hp; [constructor|].
  apply Forall_cons in Hp as [? ?]. constructor; [done|auto].
Qed.

Lemma agnostic_sorts shuffle sp p queue running :
  (forall l, shuffle l ≡ₚ l) ->
  (enable_priority_scheduling sp = true -> Forall (fun r => req_priority (sreq r) <> None) queue) ->
  exists q, (match p with
             | FCFS => Ok queue
             | LOF => sort_by_longest_output queue (enable_priority_scheduling sp) (priority_sign sp)
             | RANDOM => Ok (shuffle queue)
             | ROUTING_KEY => match running with Some running => sort_by_routing_key queue running | None => Ok queue end
             end) = Ok q /\ q ≡ₚ queue.
Proof.
  intros Hsh Hp. destruct p.
  - by exists queue.
  - unfold sort_by_longest_output. destruct (enable_priority_scheduling sp) eqn:E; apply sorts_return; intros r Hr; [|eauto].
    specialize (Hp eq_refl). rewrite Forall_forall in Hp. specialize (Hp r Hr). unfold signed_priority.
    destruct (req_priority (sreq r)); [|done]. simpl. eauto.
  - exists (shuffle queue). auto.
  - destruct running as [running|]; [|by exists queue]. unfold sort_by_routing_key.
    destruct (forallb _ _); [by exists queue|]. apply sorts_return. eauto.
Qed.

Lemma aware_sorts p s L P Hd force sim reps queue :
  Inv_at s L P Hd None -> sim_ok sim reps ->
  exists s' L' P' sim' queue' deps q reps', compute_prefix_matches force (Radix s) sim queue = Ok (Radix s', sim', queue', deps) /\
    refines Hd s L P s' L' P' /\ Forall2 (matched force s L') queue queue' /\ sim_ok sim' reps' /\
    (match p with
     | LPM => sort_by_longest_prefix queue' deps
     | DFS_WEIGHT => sort_by_dfs_weight queue' (Radix s')
     end) = Ok q /\ q ≡ₚ queue'.
Proof.
  intros I Hsim.
  destruct (compute_prefix_loop_run force s L P Hd (reset sim) [] queue I (sim_reset _ _ Hsim))
    as (s' & L' & P' & sim' & queue' & reps' & Hrun & R & Hq & Hsim').
  pose proof (rf_inv _ _ _ _ _ _ _ R) as I'.
  assert (exists q, (match p with LPM => sort_by_longest_prefix queue' (in_batch_deps force [] queue')
     | DFS_WEIGHT => sort_by_dfs_weight queue' (Radix s') end) = Ok q /\ q ≡ₚ queue') as (q & E & Hp).
  { destruct p; [apply sorts_return; eauto|].
    destruct (dfs_run s' Hd queue') as (w & order & E & _ & _ & Hp); [by exists L', P'| |eauto].
    clear -Hq I'. induction Hq as [|r r' q q' (idx & ln & -> & Hln & _) _ IH]; constructor; [|done].
    exists ln. split; [done|]. by apply (live_iff _ _ _ _ _ _ I'). }
  exists s', L', P', sim', queue', (in_batch_deps force [] queue'), q, reps'. auto 6.
Qed.

(** The matches before the sort, done for cache-agnostic policies. *)
Lemma first_matches_run policy force fast decode (pri : bool) s L P Hd queue :
  Inv_at s L P Hd None -> (pri = true -> Forall (fun r => req_priority (sreq r) <> None) queue) ->
  exists s1 L1 P1 q1, (if negb (is_aware policy) && fast && negb decode then match_all force (Radix s) queue
      else Ok (Radix s, queue)) = Ok (Radix s1, q1) /\ refines Hd s L P s1 L1 P1 /\
    Forall2 (fun r r' => r' = r \/ exists idx ln, r' = with_match idx ln r) queue q1 /\
    (pri = true -> Forall (fun r => req_priority (sreq r) <> None) q1) /\ (is_aware policy = true -> q1 = queue).
Proof.
  intros I Hprio. destruct (is_aware policy) eqn:Ea; simpl; [|destruct (fast && negb decode)].
  1,3: exists s, L, P, queue; split; [done|]; split; [by apply refines_core|]; split; [|done];
    apply Forall_Forall2_diag, Forall_true; auto.
  destruct (match_all_run force s L P Hd queue I) as (s1 & L1 & P1 & q1 & -> & R & Hq). exists s1, L1, P1, q1.
  split; [done|]. split; [done|]. split; [|split; [|done]].
  - eapply Forall2_impl; [exact Hq|]. intros r r' (idx & ln & -> & _). eauto.
  - intros He. eapply matched_priority; eauto.
Qed.

(** Whatever the policy, [calc_priority] on a
    well-formed cache returns: no request is lost, duplicated or changed apart
    from its match (slots, last node, number of matched tokens), and the
    cached content and the locks held stay as they are. *)
Theorem calc_priority_permutes shuffle force fast decode sp s Hd queue running :
  Inv s Hd -> policy_ok s sp -> (forall l, shuffle l ≡ₚ l) ->
  (enable_priority_scheduling sp = true -> Forall (fun r => req_priority (sreq r) <> None) queue) ->
  exists sp' s' queue' q, calc_priority shuffle force fast decode sp (Radix s) queue running = Ok (sp', Radix s', q) /\
    q ≡ₚ queue' /\ Forall2 (fun r r' => r' = r \/ exists idx ln, r' = with_match idx ln r) queue queue' /\
    Inv s' Hd /\ policy_ok s' sp' /\ (forall ek p vs, cached s' ek p vs <-> cached s ek p vs).
Proof.
  intros (L & P & I) [Haw Hsim] Hsh Hprio. unfold calc_priority.
  set (policy := determine_active_policy (sp_policy sp) queue).
  destruct (first_matches_run policy force fast decode (enable_priority_scheduling sp) s L P Hd queue I Hprio)
    as (s1 & L1 & P1 & q1 & -> & R & Hq & Hp1 & Hsame).
  bind_step. destruct (books_psize _ _ (rf_books _ _ _ _ _ _ _ R)) as (_ & _ & Ec).
  assert (policy_ok s1 sp) as Hok1 by (split; [by rewrite Ec|done]).
  pose proof (rf_inv _ _ _ _ _ _ _ R) as I1.
  assert (Hret : forall q, q ≡ₚ q1 -> exists sp' s' queue' q', Ok (sp, Radix s1, q) = Ok (sp', Radix s', q') /\
    q' ≡ₚ queue' /\ Forall2 (fun r r' => r' = r \/ exists idx ln, r' = with_match idx ln r) queue queue' /\
    Inv s' Hd /\ policy_ok s' sp' /\ (forall ek p vs, cached s' ek p vs <-> cached s ek p vs)).
  { intros q Hpq. exists sp, s1, q1, q. split; [done|]. split; [done|]. split; [done|].
    split; [by exists L1, P1|]. split; [done|apply R]. }
  case_bool_decide as Hf.
  { destruct (enable_priority_scheduling sp) eqn:Ee; [|by apply Hret].
    destruct (sorts_return (fun r => p ← signed_priority (priority_sign sp) r; Ok [zatom p; Num (wait_queue_entry_time r)]) q1)
      as (q & E & Hpq); [|unfold sort_by_priority_and_fcfs; rewrite E; by apply Hret].
    intros r Hr. specialize (Hp1 eq_refl). rewrite Forall_forall in Hp1. specialize (Hp1 r Hr).
    unfold signed_priority. destruct (req_priority (sreq r)); [|done]. simpl. eauto. }
  destruct policy as [p|p] eqn:Epol.
  - rewrite (Hsame eq_refl) in *. destruct Hsim as [reps Hsim].
    destruct (aware_sorts p s1 L1 P1 Hd force (waiting_queue_radix_tree sp) reps queue I1 Hsim)
      as (s2 & L2 & P2 & sim' & q2 & deps & q & reps' & -> & R2 & Hq2 & Hsim' & E & Hperm).
    bind_step. rewrite E. bind_step. eexists _, s2, q2, q. split; [done|]. split; [done|].
    pose proof (refines_trans _ _ _ _ _ _ _ _ _ _ R R2) as R3. destruct (books_psize _ _ (rf_books _ _ _ _ _ _ _ R3)) as (_ & _ & Ec3).
    split; [|split; [by exists L2, P2; apply R3|split; [|apply R3]]].
    + eapply Forall2_impl; [exact Hq2|]. intros r r' (idx & ln & -> & _). eauto.
    + split; [by rewrite Ec3|by exists reps'].
  - destruct (agnostic_sorts shuffle sp p q1 running Hsh Hp1) as (q & E & Hpq). rewrite E. bind_step.
    by apply Hret.
Qed.

End claims.

(** ** Instances *)

#[local] Existing Instance demo_env.

Definition demo_req (id : string) (ids : list Z) (ln : option nat) (prio : Z) (t : Q) (m : Z) : SReq :=
  mkSReq (mkReq ids [] ids 0 None (Some prio) None false 0 [] ln None 0 None 0 0) id 8 false None t false 0 false false
    m None 0 0 0 false None.

Definition demo_queue : list SReq :=
  [demo_req "a" [11; 12; 20; 99]%Z (Some leaf2) 1 3 0; demo_req "b" [11; 12; 13; 14; 15]%Z (Some 0) 2 5 0;
   demo_req "c" [7; 8; 9]%Z (Some leaf2) 1 1 0].

Lemma demo_sim_ok : sim_ok (create_simulated false 1 false) [].
Proof. apply sim_reset_fresh. Qed.

Lemma in_batch_deprioritizes_witness :
  exists s' sim' queue' reps', compute_prefix_matches false (Radix demo2) (create_simulated false 1 false) demo_queue
      = Ok (Radix s', sim', queue', in_batch_deps false [] queue') /\
    Forall2 (fun r r' => exists idx ln, r' = with_match idx ln r /\ live s' ln /\ found false demo2 r idx) demo_queue queue' /\
    Inv s' no_locks /\ sim_ok sim' reps' /\ (forall ek p vs, cached s' ek p vs <-> cached demo2 ek p vs).
Proof. apply (in_batch_deprioritizes false demo2 no_locks _ [] demo_queue); [apply demo_inv2|apply demo_sim_ok]. Defined.

Lemma dfs_weight_visits_witness :
  exists w order, sort_by_dfs_weight demo_queue (Radix demo2) = Ok (order ≫= reqs_at demo_queue) /\
    dfs_order demo2 w (root_node demo2) order /\
    (forall n l, live demo2 n -> lists_subtree demo2 n l ->
       weight_at w n = Z.of_nat (length (List.filter (node_in l) demo_queue))) /\
    (order ≫= reqs_at demo_queue) ≡ₚ demo_queue.
Proof.
  apply (dfs_weight_visits demo2 no_locks demo_queue); [apply demo_inv2|]. repeat constructor.
  - exists leaf2. split; [reflexivity|apply demo_slots2].
  - exists 0. split; [reflexivity|]. exists None, [], []. constructor.
  - exists leaf2. split; [reflexivity|apply demo_slots2].
Defined.

Definition demo_prio (r : SReq) : Z := default 0%Z (req_priority (sreq r)).

Lemma priority_fcfs_order_witness :
  exists q, sort_by_priority_and_fcfs demo_queue (-1) = Ok q /\ q ≡ₚ demo_queue /\
    StronglySorted (fun x y => (demo_prio x * -1 < demo_prio y * -1)%Z \/
      (demo_prio x * -1 = demo_prio y * -1)%Z /\ (wait_queue_entry_time x <= wait_queue_entry_time y)%Q) q /\
    forall p t, List.filter (fun r => (demo_prio r * -1 =? p)%Z && Qeq_bool (wait_queue_entry_time r) t) q =
                List.filter (fun r => (demo_prio r * -1 =? p)%Z && Qeq_bool (wait_queue_entry_time r) t) demo_queue.
Proof.
  apply (priority_fcfs_order demo_queue (-1) demo_prio). intros r Hr. apply list_elem_of_In in Hr.
  by destruct Hr as [<-|[<-|[<-|[]]]].
Defined.

(** Priority 2 first, then the two requests of priority 1, oldest first. *)
Example priority_demo :
  match sort_by_priority_and_fcfs demo_queue (-1) with Ok q => map rid q | _ => [] end = ["b"; "c"; "a"]%string.
Proof. vm_compute. reflexivity. Qed.

Definition demo_policy : SchedulePolicy := mkSP (Aware LPM) true (-1) (create_simulated false 1 false).

Lemma calc_priority_permutes_witness :
  exists sp' s' queue' q, calc_priority reverse false false false demo_policy (Radix demo2) demo_queue None = Ok (sp', Radix s', q) /\
    q ≡ₚ queue' /\ Forall2 (fun r r' => r' = r \/ exists idx ln, r' = with_match idx ln r) demo_queue queue' /\
    Inv s' no_locks /\ policy_ok s' sp' /\ (forall ek p vs, cached s' ek p vs <-> cached demo2 ek p vs).
Proof.
  apply (calc_priority_permutes reverse false false false demo_policy demo2 no_locks demo_queue None).
  - apply demo_inv2.
  - split; [reflexivity|]. exists []. apply demo_sim_ok.
  - intros l. apply reverse_Permutation.
  - intros _. repeat constructor; done.
Defined.

(** The request with the longest cached prefix moves to the front. *)
Example lpm_demo :
  match calc_priority reverse false false false demo_policy (Radix demo2) demo_queue None
  with Ok x => map rid x.2 | _ => [] end = ["b"; "a"; "c"]%string.
Proof. vm_compute. reflexivity. Qed.
