(* ===== verification/PrefillAdder.v ===== *)
(** * PrefillAdder: which waiting requests join the next prefill batch

    Models the second half of [managers/schedule_policy.py]: class
    [PrefillAdder] with its budgets, the chunked, ignore-eos and diffusion
    paths, the admission lock and preemption, and the functions of
    [managers/schedule_batch.py] that preemption calls.

    Python numbers are [pynum]: integers are exact, a result is a float as
    soon as one operand is one, and every float operation rounds by [fl]. *)

From S2P Require Import Prelude RadixKey RadixNode RadixTree ReqPool ReqCache Allocator AllocatorSpec Allocation SchedDelay SchedPolicy.
From Stdlib Require Import QArith.

Open Scope Z_scope.

(** ** Python numbers *)

Inductive pynum := PI (z : Z) | PF (q : Q).

(** The value, for comparisons, which Python makes exactly. *)
Definition nval (x : pynum) : Q := match x with PI z => inject_Z z | PF q => q end.

Definition nleb (x y : pynum) : bool := Qle_bool (nval x) (nval y).
Definition nltb (x y : pynum) : bool := negb (nleb y x).

(** [min(x, y)]: the first of equal arguments. *)
Definition nmin (x y : pynum) : pynum := if nltb y x then y else x.

Section num.
Context `{Float}.

(** Conversion to float in mixed arithmetic. *)
Definition nflt (x : pynum) : Q := match x with PI z => fl (inject_Z z) | PF q => q end.

Definition nadd (x y : pynum) : pynum :=
  match x, y with PI a, PI b => PI (a + b) | _, _ => PF (fl (nflt x + nflt y)) end.
Definition nsub (x y : pynum) : pynum :=
  match x, y with PI a, PI b => PI (a - b) | _, _ => PF (fl (nflt x - nflt y)) end.
Definition nmul (x y : pynum) : pynum :=
  match x, y with PI a, PI b => PI (a * b) | _, _ => PF (fl (nflt x * nflt y)) end.

End num.

(** [int(x)] *)
Definition nint (x : pynum) : Z := match x with PI z => z | PF q => Qtrunc q end.

(** [sum] over floats; recent interpreters compensate the rounding, so it is a
    parameter. *)
Class PySum := { py_sum : list pynum -> pynum }.

(** ** What admission needs of cache and allocator *)

(** The methods of the tree cache and of the allocator that [PrefillAdder]
    calls, on one state [S] for both. *)
Class AdmissionOps (S : Type) := {
  lock_result : Type;
  ad_available_size : S -> Z;
  ad_evictable_size : S -> Z;
  ad_full_available_size : S -> Z;
  ad_full_evictable_size : S -> Z;
  ad_swa_available_size : S -> Z;
  ad_swa_evictable_size : S -> Z;
  ad_sliding_window_size : S -> Z;
  ad_is_hybrid_swa : S -> bool;
  ad_is_all_swa : S -> bool;
  ad_supports_mamba : S -> bool;
  ad_is_tree_cache : S -> bool;
  ad_disable : S -> bool;
  (** [mamba_slot_full_token_cost()] of a unified mamba allocator, 0 for others *)
  ad_mamba_slot_cost : S -> Z;
  ad_mamba_available_size : S -> Z;
  ad_mamba_evictable_size : S -> Z;
  ad_inc_lock_ref : option nat -> S -> res (S * lock_result);
  ad_dec_lock_ref : option nat -> option lock_result -> S -> res S;
  ad_swa_uuid : lock_result -> option Z;
  ad_init_load_back : SReq -> S -> res (S * list Z * option nat);
  (** [running_batch.release_req] of one request, given the number remaining *)
  ad_release_req : SReq -> Z -> S -> res (S * SReq);
}.

(** ** The adder *)

Inductive AddReqResult := CONTINUE | NO_TOKEN | OTHER.

#[global] Instance AddReqResult_eq_dec : EqDecision AddReqResult.
Proof. solve_decision. Defined.

(** Set once by [__init__]. *)
Record AdderConfig := mkACfg {
  a_page_size : Z;
  new_token_ratio : Q;
  dllm_block_size : option Z;
  is_hybrid_swa : bool;
  is_all_swa : bool;
  is_hybrid_ssm_cache : bool;
  mamba_slot_cost : Z;
  preemption_threshold : Z;
  dsa_prefill_cp_in_seq_split : bool;
  a_max_running_requests : Z;
  prefill_max_requests : option Z;
  a_max_prefill_bs : Z;
  a_waiting_queue_len : Z;
}.

Record Budget := mkBudget {
  rem_input_tokens : Z;
  rem_chunk_tokens : option Z;
  rem_dllm_tokens : Z;
  rem_total_token_offset : pynum;
  cur_rem_token_offset : Z;
  rem_swa_token_offset : Z;
  rem_mamba_slots : option Z;
  log_hit_tokens : Z;
  log_input_tokens : Z;
  reprocessed_log_hit_tokens : Z;
  reprocessed_log_input_tokens : Z;
}.

Record Adder := mkAdder {
  acfg : AdderConfig;
  budget : Budget;
  running_batch : option (list SReq);
  req_states : option (list (pynum * Z));
  can_run_list : list SReq;
  preempt_list : list SReq;
  new_chunked_req : option SReq;
  delayer : option Delayer.Executor;
}.

Definition with_budget x (a : Adder) := mkAdder (acfg a) x (running_batch a) (req_states a) (can_run_list a) (preempt_list a) (new_chunked_req a) (delayer a).
Definition with_req_states x (a : Adder) := mkAdder (acfg a) (budget a) (running_batch a) x (can_run_list a) (preempt_list a) (new_chunked_req a) (delayer a).
Definition with_delayer x (a : Adder) := mkAdder (acfg a) (budget a) (running_batch a) (req_states a) (can_run_list a) (preempt_list a) (new_chunked_req a) x.
Definition with_running x p (a : Adder) := mkAdder (acfg a) (budget a) x (req_states a) (can_run_list a) p (new_chunked_req a) (delayer a).
Definition with_offset x (b : Budget) := mkBudget (rem_input_tokens b) (rem_chunk_tokens b) (rem_dllm_tokens b) x (cur_rem_token_offset b) (rem_swa_token_offset b) (rem_mamba_slots b) (log_hit_tokens b) (log_input_tokens b) (reprocessed_log_hit_tokens b) (reprocessed_log_input_tokens b).

(** [self.can_run_list.append(req)] *)
Definition push_req (r : SReq) (a : Adder) :=
  mkAdder (acfg a) (budget a) (running_batch a) (req_states a) (can_run_list a ++ [r]) (preempt_list a) (new_chunked_req a) (delayer a).

(** [self.new_chunked_req = req] *)
Definition set_chunked (r : SReq) (a : Adder) :=
  mkAdder (acfg a) (budget a) (running_batch a) (req_states a) (can_run_list a) (preempt_list a) (Some r) (delayer a).

(** ** Request accessors *)

Definition fill_len (r : SReq) : Z := Z.of_nat (length (full_untruncated_fill_ids (sreq r))).
Definition prefix_len (r : SReq) : Z := Z.of_nat (length (prefix_indices (sreq r))).
Definition out_len (r : SReq) : Z := Z.of_nat (length (output_ids (sreq r))).

Definition needs_host_load_back (r : SReq) : bool :=
  (0 <? host_hit_length r)%nat || (0 <? swa_host_hit_length r)%nat || (0 <? mamba_host_hit_length r)%nat.

Definition set_extend_end x (r : Req) := mkReq (origin_input_ids r) (output_ids r) (full_untruncated_fill_ids r) x (req_extra_key r) (req_priority r) (session_id r) (skip_radix_cache_insert r) (cache_protected_len r) (prefix_indices r) (last_node r) (req_pool_idx r) (kv_committed_len r) (kv_allocated_len r) (inflight_middle_chunks r) (reasoning_tokens r).

(** The record with the fields that admission changes replaced. *)
Definition upd_req q er uuid (r : SReq) := mkSReq q (rid r) (max_new_tokens r) (ignore_eos r) (routing_key r) (wait_queue_entry_time r) (return_logprob r) (logprob_start_len r) (retracted_stain r) (req_finished r) (num_matched_prefix_tokens r) er (host_hit_length r) (swa_host_hit_length r) (mamba_host_hit_length r) (has_mamba_slot r) uuid.

Definition set_extend_range (start end_ : Z) (r : SReq) : SReq :=
  upd_req (set_extend_end (Z.to_nat end_) (sreq r)) (Some (start, end_)) (swa_uuid_for_lock r) r.

Definition CLIP_MAX_NEW_TOKENS : Z := 4096.
Definition IGNORE_EOS_RESERVE_TOKENS : Z := 1.

Section adder.
Context `{Float} `{PySum} {S : Type} `{AO : AdmissionOps S}.
Implicit Types (a : Adder) (s : S) (r : SReq).

(** ** Budgets *)

Definition get_running_request_total_token_offset (ratio : Q) (r : SReq) : pynum :=
  nmul (PI (Z.min (max_new_tokens r - out_len r) CLIP_MAX_NEW_TOKENS)) (PF ratio).

(** [__init__] *)
Definition init_adder (page_size : Z) (s : S) (running : option (list SReq)) (ratio : Q) (rem_input : Z)
    (rem_chunk : option Z) (num_mixed_decode_tokens threshold max_prefill_bs max_running : Z) (prefill_max : option Z)
    (d : option Delayer.Executor) (dllm_config : option (Z * Z)) (waiting : Z) (cp_in_seq_split : bool) : Adder :=
  let cost := ad_mamba_slot_cost s in
  let slots := if cost =? 0 then None
               else Some (ad_mamba_available_size s + (if ad_supports_mamba s then ad_mamba_evictable_size s else 0)) in
  let offset := match running with
                | Some reqs => nadd (PI num_mixed_decode_tokens)
                                 (py_sum (map (get_running_request_total_token_offset ratio) reqs))
                | None => PI num_mixed_decode_tokens
                end in
  mkAdder
    (mkACfg page_size ratio (option_map fst dllm_config) (ad_is_hybrid_swa s) (ad_is_all_swa s) (ad_supports_mamba s) cost
       threshold cp_in_seq_split max_running prefill_max max_prefill_bs waiting)
    (mkBudget (rem_input - num_mixed_decode_tokens) (option_map (fun x => x - num_mixed_decode_tokens) rem_chunk)
       (match dllm_config with Some (block, n) => n * block | None => 0 end)
       offset num_mixed_decode_tokens 0 slots 0 0 0 0)
    running None [] [] None d.

Definition available_and_evictable (c : AdderConfig) s : Z :=
  if is_all_swa c then ad_swa_available_size s + ad_swa_evictable_size s
  else if is_hybrid_swa c then ad_full_available_size s + ad_full_evictable_size s
  else if is_hybrid_ssm_cache c then ad_available_size s + ad_full_evictable_size s
  else ad_available_size s + ad_evictable_size s.

Definition rem_total_tokens a s : pynum :=
  nsub (PI (available_and_evictable (acfg a) s)) (rem_total_token_offset (budget a)).

Definition rem_swa_tokens a s : Z :=
  ad_swa_available_size s + ad_swa_evictable_size s - rem_swa_token_offset (budget a).

Definition cur_rem_tokens a s : Z := available_and_evictable (acfg a) s - cur_rem_token_offset (budget a).

Definition ceil_paged_tokens (ps tokens : Z) : Z := - (- tokens / ps) * ps.

Definition swa_budget_for_req a s (extend_input_len swa_host_hit : Z) : Z :=
  let alloc := match rem_chunk_tokens (budget a) with
               | Some c => Z.min extend_input_len c
               | None => extend_input_len
               end in
  let b := Z.max alloc (ad_sliding_window_size s) + a_page_size (acfg a) in
  if 0 <? swa_host_hit then b + ceil_paged_tokens (a_page_size (acfg a)) swa_host_hit else b.

Definition mamba_gap_budget_for_req a (r : SReq) : Z :=
  if negb (mamba_slot_cost (acfg a) =? 0) && negb (has_mamba_slot r) then mamba_slot_cost (acfg a) else 0.

Definition budget_state a s : AddReqResult :=
  let b := budget a in
  let no_token := nleb (rem_total_tokens a s) (PI 0) || (cur_rem_tokens a s <=? 0) in
  let no_token := if negb no_token && is_hybrid_swa (acfg a) then rem_swa_tokens a s <=? 0 else no_token in
  let no_token := match rem_mamba_slots b with
                  | Some n => if negb no_token then n <=? 0 else no_token
                  | None => no_token
                  end in
  if no_token then NO_TOKEN
  else if rem_input_tokens b <=? 0 then OTHER
  else match dllm_block_size (acfg a) with
       | Some _ => if rem_dllm_tokens b <=? 0 then OTHER else CONTINUE
       | None => match rem_chunk_tokens b with
                 | Some c => if c <=? 0 then OTHER else CONTINUE
                 | None => CONTINUE
                 end
       end.

Definition update_prefill_budget s (prefix extend_input_len max_new : Z) (stain : bool) (mamba_gap_reserve : Z) a : Adder :=
  let b := budget a in
  let ps := a_page_size (acfg a) in
  let extend := ceil_paged_tokens ps extend_input_len in
  let dllm := match dllm_block_size (acfg a) with Some _ => true | None => false end in
  with_budget (mkBudget
    (rem_input_tokens b - extend)
    (if dllm then rem_chunk_tokens b else option_map (fun c => c - extend) (rem_chunk_tokens b))
    (if dllm then rem_dllm_tokens b - extend else rem_dllm_tokens b)
    (nadd (rem_total_token_offset b) (PI (extend + max_new + ps + mamba_gap_reserve)))
    (cur_rem_token_offset b + (extend + ps + mamba_gap_reserve))
    (if is_hybrid_swa (acfg a) then rem_swa_token_offset b + swa_budget_for_req a s extend 0 else rem_swa_token_offset b)
    (if mamba_gap_reserve =? 0 then rem_mamba_slots b else option_map (fun n => n - 1) (rem_mamba_slots b))
    (log_hit_tokens b + prefix)
    (log_input_tokens b + extend)
    (if stain then reprocessed_log_hit_tokens b + prefix else reprocessed_log_hit_tokens b)
    (if stain then reprocessed_log_input_tokens b + extend else reprocessed_log_input_tokens b)) a.

(** ** Diffusion models *)

Definition get_dllm_remain_tokens a s : Z :=
  let block := default 0 (dllm_block_size (acfg a)) in
  let rem := Z.min (Z.min (rem_dllm_tokens (budget a)) block) (nint (rem_total_tokens a s)) in
  if rem <=? 0 then rem_dllm_tokens (budget a) else rem.

Definition add_dllm_req s (r : SReq) (prefix : Z) a : Adder * SReq :=
  let block := default 0 (dllm_block_size (acfg a)) in
  let ps := a_page_size (acfg a) in
  let trunc_len := Z.min (rem_dllm_tokens (budget a)) block / ps * ps in
  let r := set_extend_range prefix (prefix + trunc_len) r in
  (update_prefill_budget s prefix trunc_len 0 (retracted_stain r) (mamba_gap_budget_for_req a r) (push_req r a), r).

Definition add_dllm_staging_req s (r : SReq) a : res (Adder * SReq * AddReqResult) :=
  _ ← py_assert (match dllm_block_size (acfg a) with Some _ => true | None => false end);
  let rem := get_dllm_remain_tokens a s in
  if rem <=? 0 then Ok (a, r, NO_TOKEN) else
  let cand := fill_len r - prefix_len r in
  let truncated := rem <? cand in
  let new_len := Z.min cand rem in
  let r := set_extend_range (prefix_len r) (prefix_len r + new_len) r in
  let max_new := if truncated then 0 else Z.min (max_new_tokens r) CLIP_MAX_NEW_TOKENS in
  let a := update_prefill_budget s 0 new_len max_new (retracted_stain r) (mamba_gap_budget_for_req a r) (push_req r a) in
  Ok (a, r, if get_dllm_remain_tokens a s <=? 0 then NO_TOKEN else CONTINUE).

(** ** The chunked request of the previous pass *)

(** Returns the request when its prefill goes on, [None] when this is its last
    chunk. *)
Definition add_chunked_req s (r : SReq) a : res (Adder * SReq * option SReq) :=
  let b := budget a in
  let swa := is_hybrid_swa (acfg a) in
  o ← (match dllm_block_size (acfg a) with
       | Some _ => Ok (Some (get_dllm_remain_tokens a s))
       | None =>
           chunk ← or_raise TypeError (rem_chunk_tokens b);
           let rem := Z.min chunk (nint (rem_total_tokens a s)) in
           let rem := if swa then Z.min rem (rem_swa_tokens a s - a_page_size (acfg a)) else rem in
           Ok (if rem <=? 0 then (if swa then None else Some chunk) else Some rem)
       end);
  match o with
  | None => Ok (a, r, Some r)
  | Some rem =>
      let cand := fill_len r - prefix_len r in
      let truncated := rem <? cand in
      let new_len := Z.min cand rem in
      let r := set_extend_range (prefix_len r) (prefix_len r + new_len) r in
      let max_new := if truncated then 0 else Z.min (max_new_tokens r) CLIP_MAX_NEW_TOKENS in
      let a := update_prefill_budget s 0 new_len max_new (retracted_stain r) (mamba_gap_budget_for_req a r) (push_req r a) in
      Ok (a, r, if truncated then Some r else None)
  end.

(** ** Requests that ignore end-of-sequence *)

(** The pair [(tokens_left, tokens_occupied)] of a request, unless it has no
    tokens left. *)
Definition req_state_of (ratio : Q) (r : SReq) : option (pynum * Z) :=
  let ratio := if ignore_eos r then 1%Q else ratio in
  let tokens_left := nsub (nmul (PI (max_new_tokens r)) (PF ratio)) (PI (out_len r)) in
  let tokens_occupied := Z.of_nat (length (origin_input_ids (sreq r))) + out_len r in
  if nleb tokens_left (PI 0) then None else Some (tokens_left, tokens_occupied).

(** The index the loop of [add_req_state] ends with: the first entry that is
    not smaller, or else the last entry. *)
Fixpoint insert_index (x : pynum) (l : list (pynum * Z)) : nat :=
  match l with
  | [] => 0
  | [_] => 0
  | y :: l => if nleb x y.1 then 0 else Datatypes.S (insert_index x l)
  end.

Definition insert_req_state (x : pynum * Z) (l : list (pynum * Z)) : list (pynum * Z) :=
  let i := insert_index x.1 l in
  take i l ++ x :: drop i l.

(** The key of [self.req_states.sort]. *)
Definition sort_states (l : list (pynum * Z)) : res (list (pynum * Z)) :=
  py_sort (fun x => Ok [Num (nval x.1)]) l.

Definition option_list {A} (o : option A) : list A := match o with Some x => [x] | None => [] end.

Definition update_req_states (r : SReq) a : res Adder :=
  let ratio := new_token_ratio (acfg a) in
  match req_states a with
  | None =>
      l ← sort_states (omap (req_state_of ratio) (r :: default [] (running_batch a) ++ can_run_list a));
      Ok (with_req_states (Some l) a)
  | Some l =>
      Ok (with_req_states (Some (match req_state_of ratio r with Some x => insert_req_state x l | None => l end)) a)
  end.

(** The loop that runs the batch ahead: [false] where it returns [NO_TOKEN]. *)
Fixpoint enough_tokens (cur freed : Z) (l : list (pynum * Z)) : bool :=
  match l with
  | [] => true
  | (tokens_left, tokens_occupied) :: l' =>
      let bs := Z.of_nat (length l) in
      let min_free := nsub (PI (cur + freed)) (nmul tokens_left (PI bs)) in
      if nleb min_free (PI (IGNORE_EOS_RESERVE_TOKENS * bs)) then false
      else enough_tokens cur (freed + tokens_occupied) l'
  end.

Context (gather : Delayer.Info -> list Delayer.Info) (clk : Delayer.Clock).

(** [negotiate_should_allow_prefill] when there is a delayer. *)
Definition ask_delayer (batch max_bs max_run waiting : Z) a : res (Adder * bool) :=
  match delayer a with
  | None => Ok (a, true)
  | Some x =>
      '(x, allow) ← Delayer.executor_negotiate gather clk true batch max_bs max_run waiting x;
      Ok (with_delayer (Some x) a, allow)
  end.

Definition add_one_req_ignore_eos s (r : SReq) a : res (Adder * SReq * AddReqResult) :=
  let ps := a_page_size (acfg a) in
  let cand := fill_len r - prefix_len r in
  let paged_input := ceil_paged_tokens ps cand + mamba_gap_budget_for_req a r in
  if nltb (nmin (PI (cur_rem_tokens a s)) (rem_total_tokens a s)) (PI paged_input) then Ok (a, r, NO_TOKEN)
  else if is_hybrid_swa (acfg a) && (rem_swa_tokens a s <? swa_budget_for_req a s cand 0) then Ok (a, r, NO_TOKEN)
  else
  a ← update_req_states r a;
  if negb (is_hybrid_swa (acfg a)) &&
     negb (enough_tokens (cur_rem_tokens a s - ceil_paged_tokens ps cand) 0 (default [] (req_states a)))
  then Ok (a, r, NO_TOKEN) else
  '(a, allow) ← ask_delayer 0 0 0 0 a;
  if negb allow then Ok (a, r, OTHER) else
  match dllm_block_size (acfg a) with
  | Some _ =>
      if rem_dllm_tokens (budget a) <=? 0 then Ok (a, r, OTHER)
      else let '(a, r) := add_dllm_req s r 0 a in Ok (a, r, budget_state a s)
  | None =>
      match rem_chunk_tokens (budget a) with
      | Some chunk =>
          if cand <=? chunk then
            let r := set_extend_range (prefix_len r) (fill_len r) r in
            let a := update_prefill_budget s 0 (fill_len r - prefix_len r) (Z.min (max_new_tokens r) CLIP_MAX_NEW_TOKENS)
                       (retracted_stain r) (mamba_gap_budget_for_req a r) (push_req r a) in
            Ok (a, r, budget_state a s)
          else if chunk <=? 0 then Ok (a, r, OTHER)
          else
            _ ← py_assert (prefix_len r =? 0);
            let r := set_extend_range (prefix_len r) (prefix_len r + chunk) r in
            let a := update_prefill_budget s 0 chunk 0 (retracted_stain r) (mamba_gap_budget_for_req a r)
                       (set_chunked r (push_req r a)) in
            Ok (a, r, budget_state a s)
      | None =>
          let r := set_extend_range (prefix_len r) (fill_len r) r in
          let a := update_prefill_budget s 0 (fill_len r - prefix_len r) (Z.min (max_new_tokens r) CLIP_MAX_NEW_TOKENS)
                     (retracted_stain r) (mamba_gap_budget_for_req a r) (push_req r a) in
          Ok (a, r, budget_state a s)
      end
  end.

(** ** The general path *)

(** [_req_inc_lock_ref] *)
Definition req_inc_lock_ref s (r : SReq) a : res (S * SReq) :=
  '(s, l) ← ad_inc_lock_ref (last_node (sreq r)) s;
  Ok (s, if is_hybrid_swa (acfg a) then upd_req (sreq r) (extend_range r) (ad_swa_uuid l) r else r).

(** [with self._lock_node(last_node): body]: the lock is given back on every
    way out of the body. *)
Definition lock_node {A} (node : option nat) (body : S -> res (S * A)) (s : S) : res (S * A) :=
  '(s, l) ← ad_inc_lock_ref node s;
  let params := if ad_is_tree_cache s then Some l else None in
  '(s, x) ← body s;
  s ← ad_dec_lock_ref node params s;
  Ok (s, x).

(** The token demand that both gates compare with the budget. *)
Definition req_total_tokens (r : SReq) a : Z :=
  let max_new := Z.min (Z.max (max_new_tokens r - out_len r) 0) CLIP_MAX_NEW_TOKENS in
  fill_len r - prefix_len r + max_new + a_page_size (acfg a) + mamba_gap_budget_for_req a r.

(** Both gates of [add_one_req], before and under the lock. *)
Definition no_room s (r : SReq) (cand total_tokens : Z) a : bool :=
  nleb (rem_total_tokens a s) (PI total_tokens) ||
  (is_hybrid_swa (acfg a) && (rem_swa_tokens a s <=? swa_budget_for_req a s cand (Z.of_nat (swa_host_hit_length r)))).

(** Without chunked prefill a further request must fit [max_prefill_tokens]. *)
Definition input_full (input_tokens : Z) a : bool :=
  match rem_chunk_tokens (budget a) with
  | Some _ => false
  | None => negb (length (can_run_list a) =? 0)%nat && (rem_input_tokens (budget a) <=? input_tokens)
  end.

(** The length of a chunk, [None] where the source gives up. *)
Definition chunk_len (ps chunk prefix : Z) (truncation_align_size : option Z) : option Z :=
  let trunc_len := chunk / ps * ps in
  if trunc_len <=? 0 then None else
  let aligned := match truncation_align_size with
                 | Some al => if trunc_len <? al then None else Some (al * (trunc_len / al))
                 | None => Some trunc_len
                 end in
  match aligned with
  | None => None
  | Some trunc_len =>
      let trunc_len := (trunc_len + prefix) / ps * ps - prefix in
      if trunc_len <=? 0 then None else Some trunc_len
  end.

(** The part of [add_one_req] under the lock: [None] is falling through to
    [budget_state()].  The request that joins the list is the one that
    [_req_inc_lock_ref] writes its lock id to, so it is appended with it. *)
Definition admit_locked (r : SReq) (truncation_align_size : option Z) (cand total_tokens : Z) a s
    : res (S * (Adder * SReq * option AddReqResult)) :=
  let ps := a_page_size (acfg a) in
  if no_room s r cand total_tokens a then Ok (s, (a, r, Some NO_TOKEN)) else
  '(s, r) ← (if needs_host_load_back r then
               '(s, new_indices, ln) ← ad_init_load_back r s;
               let pre := prefix_indices (sreq r) ++ new_indices in
               Ok (s, upd_req (set_cache_fields (length pre) pre ln (sreq r)) (extend_range r) (swa_uuid_for_lock r) r)
             else Ok (s, r));
  let prefix := prefix_len r in
  let input_tokens := ceil_paged_tokens ps (fill_len r - prefix) in
  if input_full input_tokens a then Ok (s, (a, r, Some OTHER)) else
  match dllm_block_size (acfg a) with
  | Some _ =>
      if rem_dllm_tokens (budget a) <=? 0 then Ok (s, (a, r, Some OTHER)) else
      _ ← py_assert (match truncation_align_size with None => true | Some _ => false end);
      '(s', r) ← req_inc_lock_ref s r a;
      let '(a, r) := add_dllm_req s r prefix a in
      Ok (s', (a, r, None))
  | None =>
      let whole :=
        let r := set_extend_range prefix (fill_len r) r in
        '(s, r) ← req_inc_lock_ref s r a;
        let a := push_req r a in
        let a := update_prefill_budget s prefix input_tokens (Z.min (max_new_tokens r) CLIP_MAX_NEW_TOKENS)
                   (retracted_stain r) (mamba_gap_budget_for_req a r) a in
        Ok (s, (a, r, None)) in
      match rem_chunk_tokens (budget a) with
      | None => whole
      | Some chunk =>
          if input_tokens <=? chunk then whole
          else
            match chunk_len ps chunk prefix truncation_align_size with
            | None => Ok (s, (a, r, Some OTHER))
            | Some trunc_len =>
                let r := set_extend_range prefix (prefix + trunc_len) r in
                '(s, r) ← req_inc_lock_ref s r a;
                let a := set_chunked r (push_req r a) in
                let a := update_prefill_budget s prefix trunc_len 0 (retracted_stain r) (mamba_gap_budget_for_req a r) a in
                Ok (s, (a, r, None))
            end
      end
  end.

Definition add_one_req (r : SReq) (truncation_align_size : option Z) a s : res (S * Adder * SReq * AddReqResult) :=
  '(a, allow) ← (match delayer a with
                 | None => Ok (a, true)
                 | Some _ =>
                     running ← or_raise AttributeError (running_batch a);
                     ask_delayer (Z.of_nat (length running)) (a_max_prefill_bs (acfg a)) (a_max_running_requests (acfg a))
                       (a_waiting_queue_len (acfg a)) a
                 end);
  if negb allow then Ok (s, a, r, OTHER)
  else if dsa_prefill_cp_in_seq_split (acfg a) && (1 <=? Z.of_nat (length (can_run_list a))) then Ok (s, a, r, OTHER)
  else if match prefill_max_requests (acfg a) with
          | Some x => x <=? Z.of_nat (length (can_run_list a))
          | None => false
          end then Ok (s, a, r, OTHER)
  else if ignore_eos r && ad_disable s then
    '(a, r, x) ← add_one_req_ignore_eos s r a;
    Ok (s, a, r, x)
  else
    let cand := fill_len r - prefix_len r in
    let total_tokens := req_total_tokens r a in
    let real_input_tokens := ceil_paged_tokens (a_page_size (acfg a)) (cand - Z.of_nat (host_hit_length r)) in
    if no_room s r cand total_tokens a then Ok (s, a, r, NO_TOKEN)
    else if input_full real_input_tokens a then Ok (s, a, r, OTHER)
    else
      '(s, (a, r, early)) ← lock_node (last_node (sreq r)) (admit_locked r truncation_align_size cand total_tokens a) s;
      Ok (s, a, r, match early with Some x => x | None => budget_state a s end).

(** ** Preemption *)

(** Requests are compared by identity, here by their id. *)
Definition req_in (r : SReq) (l : list SReq) : bool := existsb (fun x => bool_decide (rid x = rid r)) l.

(** The loop that collects victims: the victims and what is still missing. *)
Fixpoint pick_victims (prio sign threshold : Z) (ratio : Q) (missing : pynum) (l : list SReq)
    : res (list SReq * pynum) :=
  match l with
  | [] => Ok ([], missing)
  | x :: l =>
      p ← or_raise TypeError (req_priority (sreq x));
      if threshold <? (prio - p) * - sign then
        let missing := nsub missing (get_running_request_total_token_offset ratio x) in
        if nleb missing (PI 0) then Ok ([x], missing)
        else
          '(vs, missing) ← pick_victims prio sign threshold ratio missing l;
          Ok (x :: vs, missing)
      else Ok ([], missing)
  end.

(** The loop that releases the victims, [n] being the size of the batch. *)
Fixpoint release_victims (victims : list SReq) (ratio : Q) (n released : Z) (l : list SReq) (offset : pynum) s
    : res (S * pynum * list SReq * list SReq) :=
  match l with
  | [] => Ok (s, offset, [], [])
  | x :: l =>
      if req_in x victims then
        let offset := nsub offset (get_running_request_total_token_offset ratio x) in
        let released := released + 1 in
        '(s, x) ← ad_release_req x (n - released) s;
        '(s, offset, kept, out) ← release_victims victims ratio n released l offset s;
        Ok (s, offset, kept, x :: out)
      else
        '(s, offset, kept, out) ← release_victims victims ratio n released l offset s;
        Ok (s, offset, x :: kept, out)
  end.

(** The victims join [preempt_list] in the order of the batch; the source takes
    them from a set, in no particular order. *)
Definition preempt_to_schedule (r : SReq) (low_priority_first : bool) a s : res (S * Adder * bool) :=
  let sign := if low_priority_first then 1 else -1 in
  let ratio := new_token_ratio (acfg a) in
  running ← or_raise AttributeError (running_batch a);
  let valid := List.filter (fun x => negb (req_in x (preempt_list a)) && negb (req_finished x)) running in
  sorted ← py_sort (fun x => p ← signed_priority (- sign) x; Ok [zatom p; Num (- wait_queue_entry_time x)]) valid;
  let missing := nsub (PI (fill_len r - prefix_len r + Z.min (max_new_tokens r) CLIP_MAX_NEW_TOKENS)) (rem_total_tokens a s) in
  '(victims, missing) ←
    (match sorted with
     | [] => Ok ([], missing)
     | _ => prio ← or_raise TypeError (req_priority (sreq r));
            pick_victims prio sign (preemption_threshold (acfg a)) ratio missing sorted
     end);
  if (length victims =? 0)%nat || nltb (PI 0) missing then Ok (s, a, false) else
  '(s, offset, kept, out) ←
    release_victims victims ratio (Z.of_nat (length running)) 0 running (rem_total_token_offset (budget a)) s;
  Ok (s, with_running (Some kept) (preempt_list a ++ out) (with_budget (with_offset offset (budget a)) a), true).

End adder.

(** ** Radix and chunk cache over the token and the paged allocator *)

Record Store := mkStore { st_cache : PrefixCache; st_alloc : KVPool; st_pool : ReqToTokenPool }.

Definition set_cache x (s : Store) := mkStore x (st_alloc s) (st_pool s).

Definition cache_evictable (tc : PrefixCache) : Z := match tc with Radix s => evictable_size_ s | Chunk _ => 0 end.

(** [reset_for_retract] of the fields modelled here. *)
Definition reset_for_retract (r : SReq) : res SReq :=
  let q := sreq r in
  _ ← py_assert (match kv_allocated_len q with None => true | Some _ => false end);
  Ok (mkSReq (mkReq (origin_input_ids q) (output_ids q) (full_untruncated_fill_ids q) 0 (req_extra_key q) (req_priority q)
        (session_id q) (skip_radix_cache_insert q) 0 [] None (req_pool_idx q) 0 None 0 (reasoning_tokens q))
      (rid r) (max_new_tokens r) (ignore_eos r) (routing_key r) (wait_queue_entry_time r) (return_logprob r)
      (logprob_start_len r) true (req_finished r) 0 None (host_hit_length r) (swa_host_hit_length r)
      (mamba_host_hit_length r) false None).

Section store.
Context `{Env}.
(** The server arguments, [SGLANG_RETRACT_DECODE_STEPS]. *)
Context (args : ServerArgs) (retract_decode_steps : Z).

(** [release_kv_cache] on either cache. *)
Definition store_release (r : Req) (s : Store) : res (Store * Req) :=
  match st_cache s with
  | Radix c =>
      '(c, al, p, r) ← release_kv_cache args r false (st_pool s) c (st_alloc s);
      Ok (mkStore (Radix c) al p, r)
  | Chunk ps =>
      _ ← py_assert (Bool.eqb (negb (has_row r)) (match kv_allocated_len r with None => true | Some _ => false end));
      allocated ← or_raise AssertionError (kv_allocated_len r);
      let n := effective_kv_committed_len (strip_thinking_cache args) r in
      al ← ChunkCache.cache_finished_req r n (st_pool s) (st_alloc s);
      al ← release_overallocated_kv_indices args r n allocated (st_pool s) al;
      '(p, r) ← pool_free r (st_pool s);
      Ok (mkStore (Chunk ps) al p, set_kv None r)
  end.

(** [release_req], without decode disaggregation and sparse caches. *)
Definition release_req (r : SReq) (remaining : Z) (s : Store) : res (Store * SReq) :=
  '(s, q) ← store_release (sreq r) s;
  '(tc, al) ← evict_for (st_cache s) (Z.to_nat (remaining * retract_decode_steps)) (st_alloc s);
  r ← reset_for_retract (upd_req q (extend_range r) (swa_uuid_for_lock r) r);
  Ok (mkStore tc al (st_pool s), r).

Definition store_inc_lock (node : option nat) (s : Store) : res (Store * unit) :=
  match st_cache s with
  | Radix c =>
      if disable (cfg c) then Ok (s, tt) else
      n ← or_raise AttributeError node;
      '(c, _) ← inc_lock_ref n c;
      Ok (set_cache (Radix c) s, tt)
  | Chunk _ => Ok (s, tt)
  end.

Definition store_dec_lock (node : option nat) (s : Store) : res Store :=
  match st_cache s with
  | Radix c =>
      if disable (cfg c) then Ok s else
      n ← or_raise AttributeError node;
      '(c, _) ← dec_lock_ref n c;
      Ok (set_cache (Radix c) s)
  | Chunk _ => Ok s
  end.

(** Neither a sliding window nor mamba states: those methods are never
    called. *)
#[export] Instance store_ops : AdmissionOps Store := {
  lock_result := unit;
  ad_available_size s := kv_available (st_alloc s);
  ad_evictable_size s := cache_evictable (st_cache s);
  ad_full_available_size _ := 0;
  ad_full_evictable_size _ := 0;
  ad_swa_available_size _ := 0;
  ad_swa_evictable_size _ := 0;
  ad_sliding_window_size _ := 0;
  ad_is_hybrid_swa _ := false;
  ad_is_all_swa _ := false;
  ad_supports_mamba _ := false;
  ad_is_tree_cache s := match st_cache s with Radix _ => true | Chunk _ => false end;
  ad_disable s := cache_disable (st_cache s);
  ad_mamba_slot_cost _ := 0;
  ad_mamba_available_size _ := 0;
  ad_mamba_evictable_size _ := 0;
  ad_inc_lock_ref := store_inc_lock;
  ad_dec_lock_ref node _ := store_dec_lock node;
  ad_swa_uuid _ := None;
  ad_init_load_back _ _ := Raise NotImplementedError;
  ad_release_req := release_req;
}.

End store.
