(* ===== verification/PrefillAdderSpec.v ===== *)
(** * PrefillAdderSpec: admission against an interface

    What admission relies on is the class [AdmissionLaws]: locks on the prefix
    cache may move tokens out of the evictable account, and the sizes depend
    only on the content and on the locks held.  The lemmas about
    [add_one_req] are proved against it; the radix and the chunk cache
    discharge it. *)

From S2P Require Import Prelude RadixKey RadixNode RadixTree RadixInv RadixSteps RadixContent RadixOps RadixInsert RadixLock RadixEvict RadixSpec ReqPool ReqCache Allocator AllocatorSpec Allocation SchedDelay SchedPolicy PrefillAdder.
From Stdlib Require Import QArith Lqa.

Open Scope Z_scope.

(** ** Numbers *)

(** Integers up to 2^53 are floats. *)
Class FloatInts `{FloatLaws} := { fl_int z : Z.abs z <= 2 ^ 53 -> (fl (inject_Z z) == inject_Z z)%Q }.

Lemma nleb_iff x y : nleb x y = true <-> (nval x <= nval y)%Q.
Proof. apply Qle_bool_iff. Qed.

Lemma nleb_false x y : nleb x y = false <-> (nval y < nval x)%Q.
Proof. rewrite <- not_true_iff_false, nleb_iff. split; [apply Qnot_le_lt|]. intros ? ?. lra. Qed.

Section num.
Context `{FloatInts}.

#[global] Instance fl_proper : Proper (Qeq ==> Qeq) fl.
Proof. intros x y E. apply Qle_antisym; apply fl_mono; rewrite E; apply Qle_refl. Qed.

(** A token demand below the float difference is below the exact one. *)
Lemma below_difference av off t :
  Z.abs av <= 2 ^ 53 -> 0 <= t -> (0 <= nval off)%Q -> nleb (nsub (PI av) off) (PI t) = false ->
  (inject_Z t < inject_Z av - nval off)%Q.
Proof.
  intros Hav Ht Hoff Hn. apply nleb_false in Hn. destruct off as [z|q]; simpl in *.
  { unfold Qminus. by rewrite <- inject_Z_opp, <- inject_Z_plus. }
  pose proof (fl_int av Hav) as Ea. apply Qnot_le_lt. intros Hle.
  assert (fl (fl (inject_Z av) - q) <= inject_Z t)%Q; [|lra].
  destruct (decide (t <= 2 ^ 53)) as [Hs|Hs].
  - rewrite <- (fl_int t) by lia. apply fl_mono. lra.
  - apply Qle_trans with (fl (inject_Z av)); [apply fl_mono; lra|]. rewrite Ea, <- Zle_Qle. lia.
Qed.

(** Charging at least [d] keeps the offset above the integer demand. *)
Lemma offset_charged D d k off :
  (inject_Z D <= nval off)%Q -> 0 <= d <= k -> 0 <= D -> D + d <= 2 ^ 53 ->
  (inject_Z (D + d) <= nval (nadd off (PI k)))%Q.
Proof.
  intros Hoff Hd HD Hs. destruct off as [z|q]; simpl in *; [rewrite <- Zle_Qle in *; lia|].
  rewrite <- (fl_int (D + d)) by lia. apply fl_mono. rewrite inject_Z_plus.
  assert (inject_Z d <= fl (inject_Z k))%Q; [|lra].
  rewrite <- (fl_int d) by lia. apply fl_mono. rewrite <- Zle_Qle. lia.
Qed.

End num.

(** ** Rounding up to pages *)

Lemma ceil_paged_bounds ps t : 0 < ps -> t <= ceil_paged_tokens ps t < t + ps.
Proof.
  intros Hps. unfold ceil_paged_tokens. pose proof (Z.div_mod (- t) ps ltac:(lia)). pose proof (Z.mod_pos_bound (- t) ps Hps). nia.
Qed.

Lemma ceil_paged_divide ps t : (ps | ceil_paged_tokens ps t).
Proof. exists (- (- t / ps)). reflexivity. Qed.

(** The least multiple of a page that is not below. *)
Lemma ceil_paged_least ps t m : 0 < ps -> (ps | m) -> t <= m -> ceil_paged_tokens ps t <= m.
Proof.
  intros Hps [k ->] Ht. unfold ceil_paged_tokens. apply Z.mul_le_mono_nonneg_r; [lia|].
  assert (- k <= - t / ps); [|lia]. apply Z.div_le_lower_bound; lia.
Qed.

Lemma floor_le ps t : 0 < ps -> t / ps * ps <= t /\ (ps | t / ps * ps).
Proof. intros. split; [pose proof (Z.div_mod t ps ltac:(lia)); pose proof (Z.mod_pos_bound t ps ltac:(lia)); nia|]. by exists (t / ps). Qed.

(** A chunk is positive, ends on a page, is within the chunk budget and,
    where the whole input would not fit, ends before the input does. *)
Lemma chunk_len_spec ps chunk prefix al n :
  0 < ps -> 0 <= prefix -> (forall x, al = Some x -> 0 < x) -> chunk_len ps chunk prefix al = Some n ->
  0 < n /\ (ps | prefix + n) /\ ceil_paged_tokens ps n <= chunk /\
  forall cand, chunk < ceil_paged_tokens ps cand -> n < cand.
Proof.
  intros Hps Hpre Hal. unfold chunk_len. destruct (Z.leb_spec (chunk / ps * ps) 0) as [|Hpos]; [done|].
  pose proof (floor_le ps chunk Hps) as [Hfl Hdv].
  set (o := match al with Some x => _ | None => _ end). assert (forall t, o = Some t -> t <= chunk / ps * ps) as Ho.
  { intros t. unfold o. destruct al as [x|]; [|by intros [= <-]]. specialize (Hal x eq_refl).
    destruct (Z.ltb_spec (chunk / ps * ps) x); [done|]. intros [= <-]. pose proof (floor_le x (chunk / ps * ps) Hal). lia. }
  destruct o as [t|]; [|done]. specialize (Ho t eq_refl).
  pose proof (floor_le ps (t + prefix) Hps) as [Hf Hd2].
  destruct (Z.leb_spec ((t + prefix) / ps * ps - prefix) 0); [done|]. intros [= <-].
  split; [done|]. split; [by replace (prefix + _) with ((t + prefix) / ps * ps) by lia|].
  assert (ceil_paged_tokens ps ((t + prefix) / ps * ps - prefix) <= chunk / ps * ps) as Hc by (apply ceil_paged_least; [done|done|lia]).
  split; [lia|]. intros cand Hcand. pose proof (ceil_paged_bounds ps cand Hps).
  destruct (decide (chunk / ps * ps < cand)); [lia|]. exfalso.
  assert (ceil_paged_tokens ps cand <= chunk / ps * ps) by (apply ceil_paged_least; [done|done|lia]). lia.
Qed.

(** ** The interface *)

(** One more lock on a node, none for the chunk cache's [None]. *)
Definition bump (n : option nat) (H : nat -> Z) : nat -> Z :=
  match n with Some n => <[n := (H n + 1)%Z]> H | None => H end.

(** [ad_ok s H]: the store is well formed and [H] are the locks held;
    [ad_lockable s n]: [n] may be locked; [ad_alike s s']: only locks differ. *)
Class AdmissionLaws (S : Type) `{AdmissionOps S} := {
  ad_ok : S -> (nat -> Z) -> Prop;
  ad_lockable : S -> option nat -> Prop;
  ad_alike : S -> S -> Prop;
  ad_alike_refl s : ad_alike s s;
  ad_alike_trans s1 s2 s3 : ad_alike s1 s2 -> ad_alike s2 s3 -> ad_alike s1 s3;
  ad_alike_lockable s s' n : ad_alike s s' -> ad_lockable s n -> ad_lockable s' n;
  ad_inc s H n : ad_ok s H -> ad_lockable s n ->
    exists s' l, ad_inc_lock_ref n s = Ok (s', l) /\ ad_ok s' (bump n H) /\ ad_alike s s' /\
      forall c, available_and_evictable c s' <= available_and_evictable c s;
  ad_nonneg s H c : ad_ok s H -> 0 <= available_and_evictable c s;
  ad_held s H k : ad_ok s H -> 0 <= H k;
  ad_dec s H n p : ad_ok s (bump n H) -> (forall k, 0 <= H k) -> ad_lockable s n ->
    exists s', ad_dec_lock_ref n p s = Ok s' /\ ad_ok s' H /\ ad_alike s s';
  ad_sizes s s' H : ad_ok s H -> ad_ok s' H -> ad_alike s s' ->
    forall c, available_and_evictable c s' = available_and_evictable c s;
}.

(** ** The invariant of the budget *)

Definition extend_len (r : SReq) : Z := match extend_range r with Some (b, e) => e - b | None => 0 end.

(** What the paged allocation of the admitted requests may need: their new
    tokens and one page each. *)
Definition demand (ps : Z) (l : list SReq) : Z := foldr (fun r acc => extend_len r + ps + acc) 0 l.

Lemma demand_app ps l l' : demand ps (l ++ l') = demand ps l + demand ps l'.
Proof. induction l as [|r l IH]; simpl; [done|]. rewrite IH. lia. Qed.

(** Admitted requests have a range. *)
Definition ranged (r : SReq) : Prop := exists b e, extend_range r = Some (b, e) /\ 0 <= b <= e.

(** [av] tokens are available or evictable: the demand is covered, and it is
    part of the offset. *)
Record adm_inv (a : Adder) (av : Z) : Prop := {
  ai_ps : 0 < a_page_size (acfg a);
  ai_dllm : dllm_block_size (acfg a) = None;
  ai_mamba : 0 <= mamba_slot_cost (acfg a);
  ai_av : 0 <= av <= 2 ^ 53;
  ai_ranges : Forall ranged (can_run_list a);
  ai_pos : 0 <= demand (a_page_size (acfg a)) (can_run_list a);
  ai_offset : (inject_Z (demand (a_page_size (acfg a)) (can_run_list a)) <= nval (rem_total_token_offset (budget a)))%Q;
  ai_fits : demand (a_page_size (acfg a)) (can_run_list a) <= av;
}.

(** A request as it comes from the waiting queue of a cache without host
    storage. *)
Record req_ok (r : SReq) : Prop := {
  ro_prefix : prefix_len r <= fill_len r;
  ro_max_new : 0 <= max_new_tokens r;
  ro_device : needs_host_load_back r = false;
}.

(** The adder [a'] and request [r'] after [r] was admitted to [a]. *)
Record admitted (r r' : SReq) (a a' : Adder) : Prop := {
  am_list : can_run_list a' = can_run_list a ++ [r'];
  am_cfg : acfg a' = acfg a;
  am_range : exists e, extend_range r' = Some (prefix_len r, e) /\
    sreq r' = set_extend_end (Z.to_nat e) (sreq r) /\ prefix_len r <= e <= fill_len r /\
    ((e = fill_len r /\ new_chunked_req a' = new_chunked_req a) \/
     (new_chunked_req a' = Some r' /\ prefix_len r < e < fill_len r /\ (a_page_size (acfg a) | e)));
}.

Section run.
Context `{FloatInts} {S : Type} `{AdmissionLaws S}.
Implicit Types (a : Adder) (s : S) (r : SReq).

Lemma mamba_gap_nonneg a av r : adm_inv a av -> 0 <= mamba_gap_budget_for_req a r.
Proof. intros I. unfold mamba_gap_budget_for_req. pose proof (ai_mamba _ _ I). destruct (_ && _); lia. Qed.

Lemma req_total_ge a av r : adm_inv a av -> req_ok r ->
  fill_len r - prefix_len r + a_page_size (acfg a) <= req_total_tokens r a.
Proof.
  intros I R. pose proof (mamba_gap_nonneg a av r I). unfold req_total_tokens, CLIP_MAX_NEW_TOKENS. lia.
Qed.

(** Tokens that are below the rest of the budget fit beside the demand. *)
Lemma room_for a s av t : adm_inv a av -> 0 <= available_and_evictable (acfg a) s <= av -> 0 <= t ->
  nleb (rem_total_tokens a s) (PI t) = false ->
  demand (a_page_size (acfg a)) (can_run_list a) + t <= available_and_evictable (acfg a) s.
Proof.
  intros I Hav Ht Hn. pose proof (ai_av _ _ I). pose proof (ai_offset _ _ I) as Ho. pose proof (ai_pos _ _ I) as Hp.
  apply (below_difference (available_and_evictable (acfg a) s)) in Hn; [|lia|lia|].
  - assert (inject_Z (demand (a_page_size (acfg a)) (can_run_list a) + t) < inject_Z (available_and_evictable (acfg a) s))%Q as Hlt.
    { rewrite inject_Z_plus. lra. }
    rewrite <- Zlt_Qlt in Hlt. lia.
  - apply Qle_trans with (inject_Z (demand (a_page_size (acfg a)) (can_run_list a))); [|done].
    change 0%Q with (inject_Z 0). rewrite <- Zle_Qle. done.
Qed.

Lemma room_left a s av r : adm_inv a av -> 0 <= available_and_evictable (acfg a) s <= av -> req_ok r ->
  no_room s r (fill_len r - prefix_len r) (req_total_tokens r a) a = false ->
  demand (a_page_size (acfg a)) (can_run_list a) + (fill_len r - prefix_len r + a_page_size (acfg a))
    <= available_and_evictable (acfg a) s.
Proof.
  intros I Hav R Hn. unfold no_room in Hn. apply orb_false_iff in Hn as [Hn _]. pose proof (req_total_ge a av r I R) as Ht.
  pose proof (ai_ps _ _ I). pose proof (ro_prefix _ R). pose proof (room_for a s av (req_total_tokens r a) I Hav ltac:(lia) Hn). lia.
Qed.

(** Charging an admitted request keeps the invariant. *)
Lemma charged_inv a a1 s av av1 r' prefix ext max_new stain gap :
  adm_inv a av -> acfg a1 = acfg a -> budget a1 = budget a -> can_run_list a1 = can_run_list a ++ [r'] ->
  ranged r' -> extend_len r' <= ceil_paged_tokens (a_page_size (acfg a)) ext -> 0 <= max_new -> 0 <= gap ->
  0 <= av1 <= 2 ^ 53 ->
  demand (a_page_size (acfg a)) (can_run_list a) + (extend_len r' + a_page_size (acfg a)) <= av1 ->
  adm_inv (update_prefill_budget s prefix ext max_new stain gap a1) av1.
Proof.
  intros I Ec Eb El Hrg Hlen Hm Hg Hav Hfit. pose proof (ai_ps _ _ I). pose proof (ai_pos _ _ I).
  assert (demand (a_page_size (acfg a)) (can_run_list a1) = demand (a_page_size (acfg a)) (can_run_list a) + (extend_len r' + a_page_size (acfg a))) as Ed.
  { rewrite El, demand_app. simpl. lia. }
  assert (0 <= extend_len r') by (destruct Hrg as (b & e & E & ?); unfold extend_len; rewrite E; lia).
  split; unfold update_prefill_budget; simpl; rewrite ?Ec, ?Eb, ?Ed; try done; try lia.
  - apply I.
  - apply I.
  - rewrite El. apply Forall_app. split; [apply I|by repeat constructor].
  - apply offset_charged; [apply I|lia|done|lia].
Qed.

Lemma req_lock_run s Hd r a :
  ad_ok s Hd -> ad_lockable s (last_node (sreq r)) ->
  exists s' r', req_inc_lock_ref s r a = Ok (s', r') /\ ad_ok s' (bump (last_node (sreq r)) Hd) /\ ad_alike s s' /\
    sreq r' = sreq r /\ extend_range r' = extend_range r /\ max_new_tokens r' = max_new_tokens r.
Proof.
  intros Hs Hl. destruct (ad_inc s Hd _ Hs Hl) as (s' & l & E & Hs' & Ha & _). unfold req_inc_lock_ref. rewrite E.
  bind_step. eexists s', _. split; [done|]. split; [done|]. split; [done|]. by destruct (is_hybrid_swa _).
Qed.

(** The common end of both admitting branches: take the request's lock, append
    the request ([mk]) and charge the budget. *)
Definition admit_end s r a (e ext : Z) (mx : SReq -> Z) (mk : SReq -> Adder) : res (S * (Adder * SReq * option AddReqResult)) :=
  '(s, r0) ← req_inc_lock_ref s (set_extend_range (prefix_len r) e r) a;
  Ok (s, (update_prefill_budget s (prefix_len r) ext (mx r0) (retracted_stain r0) (mamba_gap_budget_for_req (mk r0) r0) (mk r0), r0, None)).

Lemma admit_end_run s Hd r a av e ext mx mk :
  adm_inv a av -> available_and_evictable (acfg a) s <= av -> ad_ok s Hd -> ad_lockable s (last_node (sreq r)) ->
  (forall r', acfg (mk r') = acfg a /\ budget (mk r') = budget a /\ can_run_list (mk r') = can_run_list a ++ [r']) ->
  prefix_len r <= e -> e - prefix_len r <= ceil_paged_tokens (a_page_size (acfg a)) ext ->
  (forall r', max_new_tokens r' = max_new_tokens r -> 0 <= mx r') ->
  demand (a_page_size (acfg a)) (can_run_list a) + (e - prefix_len r + a_page_size (acfg a)) <= available_and_evictable (acfg a) s ->
  exists s' a' r', admit_end s r a e ext mx mk = Ok (s', (a', r', None)) /\ ad_alike s s' /\
    ad_ok s' (bump (last_node (sreq r)) Hd) /\ adm_inv a' (available_and_evictable (acfg a) s) /\
    acfg a' = acfg a /\ can_run_list a' = can_run_list a ++ [r'] /\ new_chunked_req a' = new_chunked_req (mk r') /\
    extend_range r' = Some (prefix_len r, e) /\ sreq r' = set_extend_end (Z.to_nat e) (sreq r).
Proof.
  intros I Hle Hs Hl Hmk He Hext Hmx Hfit. unfold admit_end. set (r1 := set_extend_range _ _ r).
  destruct (req_lock_run s Hd r1 a Hs Hl) as (s' & r' & -> & Hs' & Ha & Eq & Er & Em). bind_step.
  destruct (Hmk r') as (Ec & Eb & El). eexists s', _, r'. split; [done|]. split; [done|]. split; [done|].
  pose proof (ad_nonneg s Hd (acfg a) Hs). pose proof (ai_av _ _ I). split; [|by rewrite Er, Eq].
  assert (extend_len r' = e - prefix_len r) as Elen by (unfold extend_len; rewrite Er; done).
  assert (ranged r') by (exists (prefix_len r), e; split; [done|]; unfold prefix_len in *; lia).
  apply (charged_inv a _ s' av _ r'); rewrite ?Elen; try done; try lia; [by apply Hmx|].
  pose proof (mamba_gap_nonneg a av r' I) as Hg. unfold mamba_gap_budget_for_req in *. by rewrite Ec.
Qed.

(** What the part under the lock does. *)
Definition locked_outcome s s' Hd r r' a a' (early : option AddReqResult) : Prop :=
  ad_alike s s' /\
  match early with
  | Some x => x <> CONTINUE /\ a' = a /\ r' = r /\ ad_ok s' Hd
  | None => admitted r r' a a' /\ ad_ok s' (bump (last_node (sreq r)) Hd) /\ adm_inv a' (available_and_evictable (acfg a) s)
  end.

Lemma admit_locked_run r al a s Hd av :
  adm_inv a av -> available_and_evictable (acfg a) s <= av -> ad_ok s Hd -> ad_lockable s (last_node (sreq r)) -> req_ok r ->
  (forall x, al = Some x -> 0 < x) ->
  exists s' a' r' early, admit_locked r al (fill_len r - prefix_len r) (req_total_tokens r a) a s = Ok (s', (a', r', early)) /\
    locked_outcome s s' Hd r r' a a' early.
Proof.
  intros I Hle Hs Hl R Hal. pose proof (ad_nonneg s Hd (acfg a) Hs) as Hnn. unfold admit_locked.
  assert (Hrej : forall x, x <> CONTINUE -> exists s' a' r' early, Ok (s, (a, r, Some x)) = Ok (s', (a', r', early)) /\
    locked_outcome s s' Hd r r' a a' early).
  { intros x Hx. exists s, a, r, (Some x). split; [done|]. split; [apply ad_alike_refl|done]. }
  destruct (no_room s r _ _ a) eqn:Enr; [by apply Hrej|].
  pose proof (room_left a s av r I ltac:(lia) R Enr) as Hroom. rewrite (ro_device _ R). bind_step.
  destruct (input_full _ a); [by apply Hrej|]. rewrite (ai_dllm _ _ I).
  pose proof (ai_ps _ _ I) as Hps. set (ps := a_page_size (acfg a)) in *. pose proof (ro_prefix _ R) as Hpre.
  pose proof (ceil_paged_bounds ps (fill_len r - prefix_len r) Hps) as Hceil.
  set (ext := ceil_paged_tokens ps (fill_len r - prefix_len r)) in *. set (mx := fun r0 => Z.min (max_new_tokens r0) CLIP_MAX_NEW_TOKENS).
  assert (Hwhole : exists s' a' r' early, admit_end s r a (fill_len r) ext mx (fun r0 => push_req r0 a) = Ok (s', (a', r', early)) /\
      locked_outcome s s' Hd r r' a a' early).
  { pose proof (ceil_paged_bounds ps ext Hps).
    destruct (admit_end_run s Hd r a av (fill_len r) ext mx (fun r0 => push_req r0 a)) as (s' & a' & r' & E & Ha & Hs' & I' & Ec & El & En & Er & Eq);
      try done; fold ps; try lia.
    - intros r0 E0. unfold mx, CLIP_MAX_NEW_TOKENS. pose proof (ro_max_new _ R). lia.
    - exists s', a', r', None. split; [done|]. split; [done|]. split; [|done]. split; [done|done|].
      exists (fill_len r). split; [done|]. split; [done|]. split; [lia|by left]. }
  destruct (rem_chunk_tokens (budget a)) as [chunk|] eqn:Echunk; [|exact Hwhole].
  destruct (Z.leb_spec ext chunk); [exact Hwhole|]. clear Hwhole.
  destruct (chunk_len ps chunk (prefix_len r) al) as [n|] eqn:En; [|by apply Hrej].
  destruct (chunk_len_spec ps chunk (prefix_len r) al n Hps ltac:(unfold prefix_len; lia) Hal En) as (Hn & Hdiv & Hcl & Hlt).
  specialize (Hlt (fill_len r - prefix_len r) ltac:(done)). pose proof (ceil_paged_bounds ps n Hps).
  destruct (admit_end_run s Hd r a av (prefix_len r + n) n (fun _ => 0) (fun r0 => set_chunked r0 (push_req r0 a)))
    as (s' & a' & r' & E & Ha & Hs' & I' & Ec & El & Ech & Er & Eq); try done; fold ps; try lia.
  - exists s', a', r', None. split; [done|]. split; [done|]. split; [|done]. split; [done|done|].
    exists (prefix_len r + n). split; [done|]. split; [done|]. split; [lia|]. right. split; [done|]. split; [lia|done].
Qed.

(** *** The delayer *)

Lemma negotiate_returns (c : Delayer.Config) prev skip clk max_running info :
  info <> [] -> exists out, Delayer.negotiate_pure c prev skip clk max_running info = Ok out.
Proof.
  intros Hi. unfold Delayer.negotiate_pure, Delayer.estimate. destruct info as [|x info]; [done|]. simpl.
  repeat case_match; eauto.
Qed.

(** A delayer that can gather always answers, and changes nothing else. *)
Definition delayer_ready (gather : Delayer.Info -> list Delayer.Info) a : Prop :=
  delayer a <> None -> running_batch a <> None /\ forall i, gather i <> [].

Lemma ask_delayer_run gather clk n1 n2 n3 n4 a :
  delayer_ready gather a ->
  exists x allow, ask_delayer gather clk n1 n2 n3 n4 a = Ok (with_delayer x a, allow).
Proof.
  intros Hr. unfold ask_delayer. destruct (delayer a) as [x|] eqn:E.
  - destruct Hr as [_ Hg]; [by rewrite E|]. unfold Delayer.executor_negotiate. destruct (Delayer.x_result x) as [out|].
    + by eexists _, _.
    + unfold Delayer.negotiate. edestruct negotiate_returns as [[out sk] ->]; [apply Hg|]. by eexists _, _.
  - exists None, true. destruct a. simpl in *. by subst.
Qed.

Lemma with_delayer_inv x a av : adm_inv a av -> adm_inv (with_delayer x a) av.
Proof. intros []. by split. Qed.

(** ** The whole operation *)

Definition add_outcome s s' Hd r r' a a' (x : AddReqResult) : Prop :=
  ad_alike s s' /\ adm_inv a' (available_and_evictable (acfg a') s') /\
  ((x <> CONTINUE /\ a' = with_delayer (delayer a') a /\ r' = r /\ ad_ok s' Hd) \/
   (admitted r r' a a' /\ ad_ok s' (bump (last_node (sreq r)) Hd))).

Lemma add_one_req_run gather clk r al a s Hd :
  adm_inv a (available_and_evictable (acfg a) s) -> ad_ok s Hd -> ad_lockable s (last_node (sreq r)) -> req_ok r ->
  ignore_eos r && ad_disable s = false -> (forall x, al = Some x -> 0 < x) -> delayer_ready gather a ->
  exists s' a' r' x, add_one_req gather clk r al a s = Ok (s', a', r', x) /\ add_outcome s s' Hd r r' a a' x.
Proof.
  intros I Hs Hl R Hdis Hal Hdel. unfold add_one_req.
  assert (exists d allow, (match delayer a with
    | None => Ok (a, true)
    | Some _ => running ← or_raise AttributeError (running_batch a);
        ask_delayer gather clk (Z.of_nat (length running)) (a_max_prefill_bs (acfg a)) (a_max_running_requests (acfg a))
          (a_waiting_queue_len (acfg a)) a end) = Ok (with_delayer d a, allow)) as (d & allow & ->).
  { destruct (delayer a) as [x|] eqn:E.
    - destruct (Hdel ltac:(by rewrite E)) as [Hrun Hg]. destruct (running_batch a) as [l|]; [|done]. cbn [or_raise mbind res_bind].
      apply ask_delayer_run. done.
    - exists None, true. destruct a. simpl in *. by subst. }
  bind_step. set (a1 := with_delayer d a). assert (I1 : adm_inv a1 (available_and_evictable (acfg a) s)) by by apply with_delayer_inv.
  assert (Hrej : forall x, x <> CONTINUE -> exists s' a' r' y, Ok (s, a1, r, x) = Ok (s', a', r', y) /\ add_outcome s s' Hd r r' a a' y).
  { intros x Hx. exists s, a1, r, x. split; [done|]. split; [apply ad_alike_refl|]. split; [done|]. by left. }
  destruct (negb allow); [by apply Hrej|]. destruct (_ && (1 <=? _)); [by apply Hrej|].
  destruct (match prefill_max_requests _ with Some x => _ | None => _ end); [by apply Hrej|]. rewrite Hdis.
  destruct (no_room s r _ _ a1); [by apply Hrej|]. destruct (input_full _ a1); [by apply Hrej|].
  clear Hrej. unfold lock_node. destruct (ad_inc s Hd _ Hs Hl) as (s1 & l & -> & Hs1 & Ha1 & Hle). bind_step.
  destruct (admit_locked_run r al a1 s1 _ (available_and_evictable (acfg a) s) I1 (Hle _) Hs1) as (s2 & a2 & r2 & early & -> & Ha2 & Hout);
    [by eapply ad_alike_lockable|done|done|]. bind_step.
  assert (ad_lockable s2 (last_node (sreq r))) as Hl2 by (eapply ad_alike_lockable; [|exact Hl]; by eapply ad_alike_trans).
  destruct early as [x|].
  - destruct Hout as (Hx & -> & -> & Hs2). destruct (ad_dec s2 Hd _ (if ad_is_tree_cache s1 then Some l else None) Hs2 (fun k => ad_held _ _ k Hs) Hl2) as (s3 & -> & Hs3 & Ha3).
    bind_step. exists s3, a1, r, x. split; [done|].
    assert (ad_alike s s3) as Ha by (eapply ad_alike_trans; [|exact Ha3]; by eapply ad_alike_trans).
    split; [done|]. split; [|by left]. by rewrite (ad_sizes s s3 Hd Hs Hs3 Ha).
  - destruct Hout as (Hadm & Hs2 & I2). destruct (ad_dec s2 _ _ (if ad_is_tree_cache s1 then Some l else None) Hs2 (fun k => ad_held _ _ k Hs1) Hl2) as (s3 & -> & Hs3 & Ha3).
    bind_step. exists s3, a2, r2, (budget_state a2 s3). split; [done|].
    assert (ad_alike s1 s3) as Ha13 by by eapply ad_alike_trans.
    split; [by eapply ad_alike_trans|]. destruct Hadm as [A1 A2 A3]. split; [|right; split; [by split|done]].
    rewrite (ad_sizes s1 s3 _ Hs1 Hs3 Ha13), A2. done.
Qed.

(** ** The initial adder *)

(** Sums of amounts that are not negative are not negative. *)
Class PySumLaws `{PySum} := { py_sum_nonneg l : Forall (fun x => 0 <= nval x)%Q l -> (0 <= nval (py_sum l))%Q }.

Lemma init_adder_inv `{PySumLaws} ps s running ratio rem_input rem_chunk mixed thr mpb mrr prefill_max d waiting cp :
  0 < ps -> 0 <= ad_mamba_slot_cost s -> 0 <= mixed -> (0 <= ratio)%Q ->
  Forall (fun r => out_len r <= max_new_tokens r) (default [] running) ->
  let a := init_adder ps s running ratio rem_input rem_chunk mixed thr mpb mrr prefill_max d None waiting cp in
  0 <= available_and_evictable (acfg a) s <= 2 ^ 53 -> adm_inv a (available_and_evictable (acfg a) s).
Proof.
  intros Hps Hm Hmix Hr Hrun a Hav. split; try done.
  - assert (0 <= nval (rem_total_token_offset (budget a)))%Q as Hoff; [|exact Hoff]. simpl.
    assert (0 <= inject_Z mixed)%Q as Hmq by (change 0%Q with (inject_Z 0); by rewrite <- Zle_Qle).
    destruct running as [reqs|]; [|done]. set (l := map _ reqs).
    assert (0 <= nval (py_sum l))%Q as Hs.
    { apply py_sum_nonneg. unfold l. change (map ?f reqs) with (f <$> reqs). apply Forall_fmap. eapply Forall_impl; [exact Hrun|].
      intros r Hr'. unfold get_running_request_total_token_offset. simpl. apply fl_nonneg, Qmult_le_0_compat; [|done].
      apply fl_nonneg. change 0%Q with (inject_Z 0). rewrite <- Zle_Qle. unfold CLIP_MAX_NEW_TOKENS. cbv beta in Hr'. lia. }
    destruct (py_sum l) as [z|q]; simpl in *.
    + rewrite inject_Z_plus. lra.
    + apply fl_nonneg. pose proof (fl_nonneg _ Hmq). lra.
  - exact (proj1 Hav).
Qed.

(** ** A pass over the waiting queue *)

(** The locks held after a request was offered. *)
Definition locks_after a a' r (Hd : nat -> Z) : nat -> Z :=
  if (length (can_run_list a') =? length (can_run_list a))%nat then Hd else bump (last_node (sreq r)) Hd.

(** The chunked request of the previous pass may go on within the budget: its
    next chunk and a page pass the gate that [add_one_req] has for others.
    [add_chunked_req] itself does not ask: where nothing is left it takes the
    whole chunk all the same. *)
Record chunk_fits s r a : Prop := {
  cf_prefix : prefix_len r <= fill_len r;
  cf_max_new : 0 <= max_new_tokens r;
  cf_chunk : exists chunk, rem_chunk_tokens (budget a) = Some chunk /\ 0 < chunk /\
    nleb (rem_total_tokens a s) (PI (Z.min (fill_len r - prefix_len r) chunk + a_page_size (acfg a))) = false;
}.

Lemma add_chunked_req_run s r a av a' r' x :
  adm_inv a av -> 0 <= available_and_evictable (acfg a) s <= av -> chunk_fits s r a ->
  add_chunked_req s r a = Ok (a', r', x) ->
  adm_inv a' (available_and_evictable (acfg a) s) /\ acfg a' = acfg a.
Proof.
  intros I Hav [Hpre Hm (chunk & Hc & Hpos & Hroom)] Hrun. pose proof (ai_ps _ _ I). pose proof (ai_av _ _ I).
  apply (room_for a s av (Z.min (fill_len r - prefix_len r) chunk + a_page_size (acfg a)) I Hav ltac:(lia)) in Hroom. unfold add_chunked_req in Hrun.
  rewrite (ai_dllm _ _ I), Hc in Hrun. cbn [or_raise mbind res_bind] in Hrun.
  set (rem0 := if is_hybrid_swa (acfg a) then _ else _) in Hrun.
  assert (Hr0 : rem0 <= chunk) by (unfold rem0; destruct (is_hybrid_swa _); lia).
  set (o := if rem0 <=? 0 then _ else _) in Hrun. assert (Ho : forall n, o = Some n -> 0 < n <= chunk).
  { intros n. unfold o. destruct (Z.leb_spec rem0 0), (is_hybrid_swa _); intros [= <-]; lia. }
  destruct o as [n|]; [|injection Hrun as <- <- <-; split; [|done]; destruct I; split; try done; lia].
  specialize (Ho n eq_refl). injection Hrun as <- <- _. split; [|done].
  set (k := Z.min (fill_len r - prefix_len r) n). pose proof (ceil_paged_bounds (a_page_size (acfg a)) k ltac:(done)).
  assert (extend_len (set_extend_range (prefix_len r) (prefix_len r + k) r) = k) as Elen by (unfold extend_len; simpl; lia).
  eapply (charged_inv a _ s av); rewrite ?Elen; try done; try lia.
  - exists (prefix_len r), (prefix_len r + k). split; [done|]. unfold prefix_len in *. lia.
  - simpl. unfold CLIP_MAX_NEW_TOKENS. destruct (_ <? _); lia.
  - by apply (mamba_gap_nonneg a av).
Qed.

(** The states of a pass that starts with adder [a0]: the chunked request of
    the previous pass, if there is one and it fits, then any sequence of
    offers.  The lock of the chunked request is among [Hd0] from before. *)
Inductive pass gather clk (a0 : Adder) (s0 : S) (Hd0 : nat -> Z) : Adder -> S -> (nat -> Z) -> Prop :=
| pass_start : pass gather clk a0 s0 Hd0 a0 s0 Hd0
| pass_chunk r a' r' x :
    chunk_fits s0 r a0 -> add_chunked_req s0 r a0 = Ok (a', r', x) -> pass gather clk a0 s0 Hd0 a' s0 Hd0
| pass_offer a s Hd r al s' a' r' x :
    pass gather clk a0 s0 Hd0 a s Hd ->
    req_ok r -> ad_lockable s (last_node (sreq r)) -> ignore_eos r && ad_disable s = false ->
    (forall x, al = Some x -> 0 < x) -> delayer_ready gather a ->
    add_one_req gather clk r al a s = Ok (s', a', r', x) ->
    pass gather clk a0 s0 Hd0 a' s' (locks_after a a' r Hd).

Lemma pass_inv gather clk a0 s0 Hd0 a s Hd :
  adm_inv a0 (available_and_evictable (acfg a0) s0) -> ad_ok s0 Hd0 -> pass gather clk a0 s0 Hd0 a s Hd ->
  adm_inv a (available_and_evictable (acfg a) s) /\ ad_ok s Hd /\ acfg a = acfg a0 /\ ad_alike s0 s.
Proof.
  intros I0 Hs0 Hp. induction Hp as [|r a' r' x Hcf Hrun|a s Hd r al s' a' r' x Hp (I & Hs & Ec & Ha) R Hl Hi Hal Hdel Hrun].
  { split; [done|]. split; [done|]. split; [done|apply ad_alike_refl]. }
  { pose proof (ad_nonneg s0 Hd0 (acfg a0) Hs0). destruct (add_chunked_req_run s0 r a0 _ a' r' x I0 ltac:(lia) Hcf Hrun) as [I Ec].
    rewrite Ec. split; [done|]. split; [done|]. split; [done|apply ad_alike_refl]. }
  destruct (add_one_req_run gather clk r al a s Hd I Hs Hl R Hi Hal Hdel) as (s2 & a2 & r2 & x2 & Hrun2 & Ha2 & I2 & Hor).
  rewrite Hrun in Hrun2. injection Hrun2 as <- <- <- <-. split; [done|]. unfold locks_after.
  destruct Hor as [(Hx & E & -> & Hok)|([A1 A2 A3] & Hok)].
  - rewrite E. simpl. rewrite Nat.eqb_refl. split; [done|]. split; [done|]. by eapply ad_alike_trans.
  - rewrite A1, length_app. simpl. rewrite (proj2 (Nat.eqb_neq _ _)) by lia. split; [done|]. split; [congruence|].
    by eapply ad_alike_trans.
Qed.

End run.

(** ** The radix and the chunk cache discharge the interface *)

Definition store_ok (s : Store) (Hd : nat -> Z) : Prop :=
  0 <= kv_available (st_alloc s) /\ (forall k, 0 <= Hd k) /\
  match st_cache s with
  | Radix c => if disable (cfg c) then 0 <= evictable_size_ c else Inv c Hd
  | Chunk _ => True
  end.

Definition store_lockable (s : Store) (n : option nat) : Prop :=
  match st_cache s with
  | Radix c => disable (cfg c) = true \/ exists k, n = Some k /\ live c k
  | Chunk _ => True
  end.

(** Two radix caches that differ in their locks only. *)
Definition same_tree (c c' : RadixCache) : Prop :=
  cfg c' = cfg c /\ root_node c' = root_node c /\ content_view (tree c') = content_view (tree c) /\
  (disable (cfg c) = true -> evictable_size_ c' = evictable_size_ c).

Definition store_alike (s s' : Store) : Prop :=
  st_alloc s' = st_alloc s /\ st_pool s' = st_pool s /\
  match st_cache s, st_cache s' with
  | Radix c, Radix c' => same_tree c c'
  | Chunk p, Chunk p' => p' = p
  | _, _ => False
  end.

Lemma same_tree_live c c' n : same_tree c c' -> live c n -> live c' n.
Proof.
  intros (_ & Er & Ev & _) (ek & q & vq & Hp). exists ek, q, vq. rewrite Er. by eapply content_view_path.
Qed.

Lemma same_tree_sym c c' : same_tree c c' -> same_tree c' c.
Proof. intros (E1 & E2 & E3 & E4). split; [done|]. split; [done|]. split; [done|]. intros Hd. symmetry. apply E4. by rewrite <- E1. Qed.

Lemma same_tree_evictable c c' Hd : same_tree c c' -> Inv c Hd -> Inv c' Hd -> evictable_size_ c' = evictable_size_ c.
Proof.
  intros St (L & P & I) (L' & P' & I'). assert (L' = L) as ->.
  { apply leibniz_equiv. intros n. rewrite (live_iff _ _ _ _ _ _ I), (live_iff _ _ _ _ _ _ I'). split.
    - by apply same_tree_live, same_tree_sym.
    - by apply same_tree_live. }
  destruct St as (_ & Er & Ev & _). by destruct (same_books c c' L P P' Hd I I' Ev Er).
Qed.

Section store_laws.
Context `{Env} (args : ServerArgs) (steps : Z).
#[local] Existing Instance store_ops.

Lemma store_sizes (s : Store) c :
  available_and_evictable (AO := store_ops args steps) c s =
  if is_all_swa c || is_hybrid_swa c then 0
  else if is_hybrid_ssm_cache c then kv_available (st_alloc s)
  else kv_available (st_alloc s) + cache_evictable (st_cache s).
Proof. unfold available_and_evictable. simpl. destruct (is_all_swa c), (is_hybrid_swa c), (is_hybrid_ssm_cache c); simpl; lia. Qed.

Lemma bump_drop n (Hd : nat -> Z) m : <[n := (bump (Some n) Hd n - 1)%Z]> (bump (Some n) Hd) m = Hd m.
Proof.
  unfold bump. destruct (decide (n = m)) as [->|Hne]; [rewrite !fn_lookup_insert; lia|by rewrite !fn_lookup_insert_ne].
Qed.

Lemma bump_nonneg n Hd k : (forall k, 0 <= Hd k) -> 0 <= bump n Hd k.
Proof.
  intros Hh. destruct n as [n|]; simpl; [|done]. specialize (Hh k) as Hk.
  destruct (decide (n = k)) as [->|]; [rewrite fn_lookup_insert; lia|by rewrite fn_lookup_insert_ne].
Qed.

Lemma store_inc_law s Hd n : store_ok s Hd -> store_lockable s n ->
  exists s', store_inc_lock n s = Ok (s', tt) /\ store_ok s' (bump n Hd) /\ store_alike s s' /\
    cache_evictable (st_cache s') <= cache_evictable (st_cache s).
Proof.
  intros (Hav & Hh & Hc) Hl. unfold store_inc_lock, store_ok, store_lockable, store_alike in *.
  assert (forall k, 0 <= bump n Hd k) as Hh' by (intros; by apply bump_nonneg).
  destruct (st_cache s) as [c|ps] eqn:E; [destruct (disable (cfg c)) eqn:Edis|].
  - exists s. rewrite E, Edis. unfold same_tree. repeat split; try done.
  - destruct Hl as [?|(k & -> & Hk)]; [done|]. cbn [or_raise mbind res_bind]. destruct Hc as (L & P & I).
    apply (live_iff _ _ _ _ _ _ I) in Hk. destruct (inc_lock_ref_run c L P Hd k I Edis Hk) as (c' & d & -> & W & Hd').
    bind_step. exists (set_cache (Radix c') s). destruct (lw_cfg _ _ _ _ _ _ _ W) as [Ec Er].
    split; [done|]. split; [|split].
    + split; [done|]. split; [done|]. simpl. rewrite Ec, Edis. exists L, P. apply W.
    + split; [done|]. split; [done|]. split; [done|]. split; [done|]. split; [apply W|congruence].
    + simpl. rewrite (lw_delta _ _ _ _ _ _ _ W). lia.
  - exists s. rewrite E. repeat split; done.
Qed.

Lemma store_dec_law s Hd n : store_ok s (bump n Hd) -> (forall k, 0 <= Hd k) -> store_lockable s n ->
  exists s', store_dec_lock n s = Ok s' /\ store_ok s' Hd /\ store_alike s s'.
Proof.
  intros (Hav & _ & Hc) Hh Hl. unfold store_dec_lock, store_ok, store_lockable, store_alike in *.
  destruct (st_cache s) as [c|ps] eqn:E; [destruct (disable (cfg c)) eqn:Edis|].
  - exists s. rewrite E, Edis. unfold same_tree. repeat split; done.
  - destruct Hl as [?|(k & -> & Hk)]; [done|]. cbn [or_raise mbind res_bind]. destruct Hc as (L & P & I).
    destruct (dec_lock_ref_run c L P _ k I Edis) as (c' & d & -> & W & Hd').
    { specialize (Hh k). simpl. rewrite fn_lookup_insert. lia. }
    bind_step. exists (set_cache (Radix c') s). destruct (lw_cfg _ _ _ _ _ _ _ W) as [Ec Er].
    split; [done|]. split.
    + split; [done|]. split; [done|]. simpl. rewrite Ec, Edis. exists L, P. eapply Inv_at_ext; [|apply W].
      intros m. symmetry. apply bump_drop.
    + split; [done|]. split; [done|]. split; [done|]. split; [done|]. split; [apply W|congruence].
  - exists s. rewrite E. repeat split; done.
Qed.

Lemma store_alike_trans s1 s2 s3 : store_alike s1 s2 -> store_alike s2 s3 -> store_alike s1 s3.
Proof.
  unfold store_alike, same_tree. intros (E1 & E2 & E3) (F1 & F2 & F3). split; [congruence|]. split; [congruence|].
  destruct (st_cache s1), (st_cache s2), (st_cache s3); try done; [|congruence].
  destruct E3 as (? & ? & ? & G1), F3 as (? & ? & ? & G2). repeat split; try congruence.
  intros Hdis. rewrite G2, G1; congruence.
Qed.

Lemma store_evictable_alike s s' Hd : store_ok s Hd -> store_ok s' Hd -> store_alike s s' ->
  cache_evictable (st_cache s') = cache_evictable (st_cache s).
Proof.
  unfold store_ok, store_alike. intros (_ & _ & I) (_ & _ & I') (_ & _ & Ht).
  destruct (st_cache s) as [c|], (st_cache s') as [c'|]; try done. simpl. pose proof Ht as (Ec & _ & _ & Hdis).
  rewrite Ec in I'. destruct (disable (cfg c)); [by apply Hdis|]. by eapply same_tree_evictable.
Qed.

Lemma store_evictable_nonneg s Hd : store_ok s Hd -> 0 <= cache_evictable (st_cache s).
Proof.
  unfold store_ok. intros (_ & _ & I). destruct (st_cache s) as [c|]; simpl; [|done].
  destruct (disable (cfg c)); [done|]. destruct I as (L & P & I). by eapply evictable_nonneg.
Qed.

#[local] Obligation Tactic := idtac.

#[export] Program Instance store_laws : AdmissionLaws Store (H := store_ops args steps) := {
  ad_ok := store_ok;
  ad_lockable := store_lockable;
  ad_alike := store_alike;
}.
Next Obligation. intros s. unfold store_alike, same_tree. destruct (st_cache s); repeat split; done. Qed.
Next Obligation. apply store_alike_trans. Qed.
Next Obligation.
  intros s s' n. unfold store_alike, store_lockable. intros (_ & _ & Ht) Hl.
  destruct (st_cache s) as [c|], (st_cache s') as [c'|]; try done. destruct Hl as [Hl|(k & -> & Hk)].
  - left. destruct Ht as (-> & _). done.
  - right. exists k. split; [done|]. by eapply same_tree_live.
Qed.
Next Obligation.
  intros s Hd n Hs Hl. destruct (store_inc_law s Hd n Hs Hl) as (s' & E & Hs' & Ha & Hle). exists s', tt.
  split; [done|]. split; [done|]. split; [done|]. intros c. rewrite !store_sizes. destruct Ha as (-> & _).
  destruct (_ || _); [lia|]. destruct (is_hybrid_ssm_cache c); lia.
Qed.
Next Obligation.
  intros s Hd c Hs. rewrite store_sizes. pose proof (store_evictable_nonneg s Hd Hs). destruct Hs as (Hav & _).
  destruct (_ || _); [lia|]. destruct (is_hybrid_ssm_cache c); lia.
Qed.
Next Obligation. intros s Hd k (_ & Hh & _). done. Qed.
Next Obligation. intros s Hd n p. apply store_dec_law. Qed.
Next Obligation.
  intros s s' Hd Hs Hs' Ha c. rewrite !store_sizes, (store_evictable_alike s s' Hd Hs Hs' Ha). by destruct Ha as (-> & _).
Qed.

End store_laws.
