(* ===== verification/PrefillAdderClaims.v ===== *)
(** * PrefillAdderClaims: what admission to a prefill batch guarantees *)

From S2P Require Import Prelude RadixKey RadixNode RadixTree RadixInv RadixSteps RadixContent RadixOps RadixInsert RadixLock RadixEvict RadixSpec ReqPool ReqCache Allocator AllocatorSpec Allocation AllocatorKernel AllocatorClaims RadixDemo AllocationClaims SchedDelay SchedPolicy SchedPolicySpec PrefillAdder PrefillAdderSpec.
From Stdlib Require Import QArith Lqa.

Open Scope Z_scope.

(** ** Admission *)

Section admission.
Context `{FloatInts} {S : Type} `{AdmissionLaws S}.

(** Over any cache and allocator that keep the admission
    interface, [add_one_req] returns.  Either it admits the request: the
    request joins the batch with the extend range from its cached prefix to
    its end, or to a page boundary before it, in which case it is the new
    chunked request; and one more lock is held on its node.  Or it refuses:
    batch, budgets, request and locks stay as they were, and the answer is not
    CONTINUE.  In both cases the tokens and the extra page of every admitted
    request still fit into what is available or evictable. *)
Theorem add_one_req_sound gather clk (r : SReq) (al : option Z) (a : Adder) (s : S) Hd :
  adm_inv a (available_and_evictable (acfg a) s) -> ad_ok s Hd -> ad_lockable s (last_node (sreq r)) -> req_ok r ->
  ignore_eos r && ad_disable s = false -> (forall x, al = Some x -> 0 < x) -> delayer_ready gather a ->
  exists s' a' r' x, add_one_req gather clk r al a s = Ok (s', a', r', x) /\
    ad_alike s s' /\ adm_inv a' (available_and_evictable (acfg a') s') /\
    ((x <> CONTINUE /\ a' = with_delayer (delayer a') a /\ r' = r /\ ad_ok s' Hd) \/
     (admitted r r' a a' /\ ad_ok s' (bump (last_node (sreq r)) Hd))).
Proof. apply add_one_req_run. Qed.

(** However many requests a pass offers, and in whatever order,
    the store stays well formed with one lock per admitted request, and the
    admitted requests' new tokens plus one page each never exceed the tokens
    available or evictable. *)
Theorem pass_fits gather clk (a0 : Adder) (s0 : S) Hd0 a s Hd :
  adm_inv a0 (available_and_evictable (acfg a0) s0) -> ad_ok s0 Hd0 -> pass gather clk a0 s0 Hd0 a s Hd ->
  demand (a_page_size (acfg a)) (can_run_list a) <= available_and_evictable (acfg a) s /\
  ad_ok s Hd /\ ad_alike s0 s /\ Forall ranged (can_run_list a).
Proof.
  intros I0 Hs0 Hp. destruct (pass_inv gather clk a0 s0 Hd0 a s Hd I0 Hs0 Hp) as (I & Hs & _ & Ha).
  split; [apply I|]. split; [done|]. split; [done|]. apply I.
Qed.

End admission.

(** ** From admission to allocation *)

Lemma same_tree_slots c c' l : same_tree c c' -> tree_slots c l -> tree_slots c' l.
Proof.
  intros St (L & HL & Hl). exists L. split.
  - intros n. rewrite HL. split; [by apply same_tree_live|by apply same_tree_live, same_tree_sym].
  - destruct St as (_ & _ & Ev & _). rewrite Hl. by rewrite (content_view_owned (tree c) (tree c') L).
Qed.

Lemma same_tree_chunks {A} `{KVAllocatorLaws A} (t : A) c c' : same_tree c c' -> whole_chunks t c -> whole_chunks t c'.
Proof.
  intros St Hw n nd v Hn Hnd Hv. pose proof (same_tree_sym _ _ St) as St'. destruct St as (_ & _ & Ev & _).
  destruct (content_view_lookup _ _ n (shape_of nd) Ev (tree_lookup _ _ _ Hnd)) as (sh & Hsh & _ & _ & Evl).
  apply tree_lookup_inv in Hsh as (nd0 & Hnd0 & <-). apply (Hw n nd0 v); [by eapply same_tree_live|done|]. simpl in Evl. congruence.
Qed.

Definition range_start (r : SReq) : Z := match extend_range r with Some (b, _) => b | None => 0 end.
Definition range_end (r : SReq) : Z := match extend_range r with Some (_, e) => e | None => 0 end.

(** The lengths that the batch passes to the allocator. *)
Definition pre_lens (l : list SReq) : list nat := map (fun r => Z.to_nat (range_start r)) l.
Definition seq_lens (l : list SReq) : list nat := map (fun r => Z.to_nat (range_end r)) l.
Definition extend_tokens (l : list SReq) : nat := Z.to_nat (foldr (fun r acc => extend_len r + acc) 0 l).

Lemma extend_sum_nonneg l : Forall ranged l -> 0 <= foldr (fun r acc => extend_len r + acc) 0 l.
Proof. induction 1 as [|r l (b & e & E & Hb) _ IH]; simpl; [done|]. unfold extend_len at 1. rewrite E. lia. Qed.

Lemma batch_lens l : Forall ranged l ->
  extends (Z.of_nat <$> pre_lens l) (Z.of_nat <$> seq_lens l) /\
  Z.of_nat (extend_tokens l) = new_tokens (Z.of_nat <$> pre_lens l) (Z.of_nat <$> seq_lens l) /\
  (forall ps, Z.of_nat (extend_tokens l) + Z.of_nat (length l) * ps = demand ps l).
Proof.
  induction 1 as [|r l (b & e & E & Hb) Hl (IH1 & IH2 & IH3)].
  { split; [constructor|]. split; [done|]. intros ps. simpl. done. }
  pose proof (extend_sum_nonneg l Hl) as Hnn.
  assert (range_start r = b /\ range_end r = e /\ extend_len r = e - b) as (Eb & Ee & El).
  { unfold range_start, range_end, extend_len. by rewrite E. }
  unfold pre_lens, seq_lens, extend_tokens, new_tokens, extends, Zsum in *. cbn [map foldr length demand] in *. csimpl.
  cbn [zip_with foldr]. rewrite Eb, Ee, El in *. split; [constructor; [lia|done]|]. split; [lia|].
  intros ps. specialize (IH3 ps). unfold demand in *. lia.
Qed.

Section composition.
Context `{FloatInts} `{Env} (args : ServerArgs) (steps : Z).

#[local] Instance server_ops : AdmissionOps Store := store_ops args steps.
#[local] Instance server_laws : AdmissionLaws Store := store_laws args steps.

(** C16: Admission and allocation fit together.  Take any pass over a
    well-formed radix cache and a paged allocator that begins with the chunked
    request of the previous pass, or with none, and then offers any requests
    in any order to [add_one_req].  The allocation of the batch so admitted
    does not run out of memory: it evicts what it must and gives every new
    token a slot of its own.  Preconditions: the next chunk of the chunked
    request, with a page, is within the rest of the budget ([chunk_fits]; if
    it is not, [add_chunked_req] takes the chunk regardless); the requests need
    no load from host storage; nothing is preempted during the pass; no
    diffusion block size, sliding window or mamba state; allocator not in
    debug mode. *)
Theorem admitted_prefill_allocates gather clk a0 a c0 t pool (st : Store) Hd0 Hd l other fill uninit lasts :
  let st0 := mkStore (Radix c0) (PPag t) pool in
  let reqs := can_run_list a in
  let ps := al_page_size (pag_state t) in
  adm_inv a0 (available_and_evictable (acfg a0) st0) -> ad_ok st0 Hd0 -> pass gather clk a0 st0 Hd0 a st Hd ->
  is_all_swa (acfg a0) = false -> is_hybrid_swa (acfg a0) = false -> is_hybrid_ssm_cache (acfg a0) = false ->
  a_page_size (acfg a0) = ps -> disable (cfg c0) = false ->
  tree_slots c0 l -> kv_out (PPag t) (l ++ other) -> whole_chunks (PPag t) c0 -> debug_mode (pag_state t) = false ->
  batch_owns ps other (Z.of_nat <$> pre_lens reqs) lasts -> length uninit = extend_tokens reqs ->
  exists c c' t' x out l' newp, st_cache st = Radix c /\ st_alloc st = PPag t /\
    alloc_paged_token_slots_extend fill uninit (Radix c) (pre_lens reqs) (seq_lens reqs) lasts (extend_tokens reqs) (PPag t)
      = Ok (Radix c', PPag t', x, out) /\
    Inv c' Hd /\ tree_slots c' l' /\ kv_out (PPag t') (Paged.page_slots ps newp ++ l' ++ other) /\
    NoDup out /\ length out = extend_tokens reqs.
Proof.
  intros st0 reqs ps I0 Hs0 Hp F1 F2 F3 Eps Hdis Hl Hout Hch Hdbg Hown Hun.
  destruct (pass_inv gather clk a0 st0 Hd0 a st Hd I0 Hs0 Hp) as (I & (Hav & _ & Hs) & Ec & (Ea & _ & Ht)).
  simpl in Ea, Ht. destruct (st_cache st) as [c|] eqn:Est; [|done]. destruct Ht as (Hcfg & Hrest).
  rewrite Hcfg, Hdis in Hs. assert (same_tree c0 c) as Hst by done.
  destruct (batch_lens reqs (ai_ranges _ _ I)) as (He & Hn & Hdem).
  destruct (alloc_paged_extend_run c Hd t l other fill uninit (pre_lens reqs) (seq_lens reqs) lasts (extend_tokens reqs))
    as (c' & t' & x & out & l' & newp & E & I' & Hl' & Ho' & _ & Hnd & Hlen); try done; [congruence|..].
  - by eapply same_tree_slots.
  - by eapply same_tree_chunks.
  - pose proof (ai_fits _ _ I) as Hfit. unfold server_ops in Hfit. rewrite store_sizes, Ec, F1, F2, F3, Est, Ea, Eps in Hfit.
    fold reqs in Hfit. rewrite <- Hdem in Hfit. simpl in Hfit. pose proof (ai_ps _ _ I0). rewrite Eps in *.
    unfold seq_lens, kvp_page_size. rewrite length_map. fold ps. cbn [kv_available pool_kv paged_kv] in *. lia.
  - exists c, c', t', x, out, l', newp. done.
Qed.

End composition.

(** ** Requests that ignore end-of-sequence *)

Section ignore_eos.
Context `{FloatLaws}.

(** The states [add_req_state] makes: floats with tokens left. *)
Definition left_of (x : pynum * Z) : Q := nval x.1.
Definition float_state (x : pynum * Z) : Prop := exists q, x.1 = PF q /\ (0 < q)%Q /\ 0 <= x.2.

Definition occupied (l : list (pynum * Z)) : Z := foldr (fun x acc => x.2 + acc) 0 l.

Lemma occupied_app l l' : occupied (l ++ l') = occupied l + occupied l'.
Proof. induction l as [|x l IH]; simpl; [done|]. rewrite IH. lia. Qed.

Lemma occupied_perm l l' : l ≡ₚ l' -> occupied l = occupied l'.
Proof. induction 1; simpl; lia. Qed.

(** The tokens left over when the first of [bs] remaining requests ends. *)
Definition min_free (tokens : Z) (q : Q) (bs : nat) : Q := fl (fl (inject_Z tokens) - fl (q * fl (inject_Z (Z.of_nat bs)))).

Lemma enough_iff cur freed l : Forall float_state l ->
  enough_tokens cur freed l = true <->
  forall l1 x l2, l = l1 ++ x :: l2 ->
    (inject_Z (Z.of_nat (S (length l2))) < min_free (cur + (freed + occupied l1)) (left_of x) (S (length l2)))%Q.
Proof.
  revert freed. induction l as [|x l IH]; intros freed Hl.
  { split; [|done]. intros _ [|? ?] ? ? ?; done. }
  apply Forall_cons in Hl as [(q & Eq & Hq & Ho) Hl]. destruct x as [t occ]. simpl in Eq, Ho. subst t. cbn [enough_tokens].
  assert (nval (nsub (PI (cur + freed)) (nmul (PF q) (PI (Z.of_nat (S (length l)))))) = min_free (cur + freed) q (S (length l))) as Em by done.
  cbn [length]. destruct (nleb _ _) eqn:E.
  - split; [done|]. intros Hall. specialize (Hall [] (PF q, occ) l eq_refl). simpl in Hall. apply nleb_iff in E. rewrite Em in E. exfalso.
    rewrite Z.add_0_r in Hall. change (left_of (PF q, occ)) with q in Hall. unfold IGNORE_EOS_RESERVE_TOKENS in E. rewrite Z.mul_1_l in E.
    change (nval (PI ?z)) with (inject_Z z) in E. apply (Qlt_not_le _ _ Hall E).
  - apply nleb_false in E. rewrite Em in E. unfold IGNORE_EOS_RESERVE_TOKENS in E. rewrite Z.mul_1_l in E.
    rewrite (IH _ Hl). split.
    + intros Hall [|y l1] x l2 [= <- El]; subst; [simpl; by rewrite Z.add_0_r|]. specialize (Hall l1 x l2 eq_refl).
      simpl. by replace (freed + (occ + occupied l1)) with (freed + occ + occupied l1) by lia.
    + intros Hall l1 x l2 ->. specialize (Hall ((PF q, occ) :: l1) x l2 eq_refl). simpl in Hall.
      by replace (freed + (occ + occupied l1)) with (freed + occ + occupied l1) in Hall by lia.
Qed.

(** More tokens, fewer left to write, fewer requests: more stays free. *)
Lemma min_free_mono x y p q m n :
  x <= y -> (0 <= q)%Q -> (q <= p)%Q -> (n <= m)%nat -> (min_free x p m <= min_free y q n)%Q.
Proof.
  intros Hxy Hq Hqp Hnm. unfold min_free. apply fl_mono.
  assert (fl (inject_Z x) <= fl (inject_Z y))%Q by (apply fl_mono; by rewrite <- Zle_Qle).
  assert (0 <= fl (inject_Z (Z.of_nat n)) <= fl (inject_Z (Z.of_nat m)))%Q as [Hn Hm].
  { split; [rewrite <- fl_zero|]; apply fl_mono; [change 0%Q with (inject_Z 0)|]; rewrite <- Zle_Qle; lia. }
  assert (fl (q * fl (inject_Z (Z.of_nat n))) <= fl (p * fl (inject_Z (Z.of_nat m))))%Q; [|lra].
  apply fl_mono. apply Qle_trans with (p * fl (inject_Z (Z.of_nat n)))%Q.
  - by apply Qmult_le_compat_r.
  - rewrite !(Qmult_comm p). apply Qmult_le_compat_r; lra.
Qed.

(** Requests with fewer tokens left than [q]. *)
Definition ends_before (q : Q) (x : pynum * Z) : bool := negb (Qle_bool q (left_of x)).

Lemma occupied_filter f l : Forall float_state l -> 0 <= occupied (List.filter f l) <= occupied l.
Proof. induction 1 as [|x l (q & _ & _ & Ho) _ IH]; simpl; [done|]. destruct (f x); simpl; lia. Qed.

(** The look-ahead over the running requests may be
    made in any order: if it finds enough tokens in some order of the
    requests, it finds enough in the order in which they really end.  So a
    list of states that is not sorted never admits a request wrongly. *)
Theorem ignore_eos_order_safe cur freed l l' :
  Forall float_state l -> l' ≡ₚ l -> StronglySorted (fun x y => (left_of x <= left_of y)%Q) l' ->
  enough_tokens cur freed l = true -> enough_tokens cur freed l' = true.
Proof.
  intros Hl Hp Hs Hen. assert (Hl' : Forall float_state l') by by rewrite Hp.
  rewrite enough_iff in Hen by done. rewrite enough_iff by done. intros l1 x l2 El'.
  assert (Hx : x ∈ l) by (rewrite <- Hp, El'; set_solver). set (q := left_of x). set (f := ends_before q).
  assert (f x = false) as Hfx by (unfold f, ends_before; by rewrite (proj2 (Qle_bool_iff q (left_of x)) (Qle_refl _))).
  destruct (first_not f l x Hx Hfx) as (m1 & z & m2 & El & Hz & Hm1). specialize (Hen m1 z m2 El).
  assert (Hge : Forall (fun y => f y = false) (x :: l2)).
  { rewrite El' in Hs. clear -Hs Hfx. induction l1 as [|y l1 IH]; simpl in Hs; [|apply IH; by inversion Hs].
    constructor; [done|]. apply StronglySorted_inv in Hs as [_ Hs]. eapply Forall_impl; [exact Hs|]. intros y Hy.
    unfold f, ends_before. by rewrite (proj2 (Qle_bool_iff q (left_of y)) Hy). }
  assert (Hocc : occupied m1 <= occupied l1).
  { rewrite <- (filter_all f m1 Hm1). assert (occupied (List.filter f l) = occupied (List.filter f l')) as E by (apply occupied_perm, filter_perm; by rewrite Hp).
    rewrite El, El', !List.filter_app, !occupied_app, (filter_none f (x :: l2) Hge) in E. simpl in E. rewrite Hz in E.
    rewrite El' in Hl'. rewrite El in Hl. apply Forall_app in Hl' as [Hl1 _]. apply Forall_app in Hl as [_ Hl]. apply Forall_cons in Hl as [_ Hl].
    pose proof (occupied_filter f l1 Hl1). pose proof (occupied_filter f m2 Hl). lia. }
  assert (Hlen : (S (length l2) <= S (length m2))%nat).
  { assert (length (List.filter (fun y => negb (f y)) l) = length (List.filter (fun y => negb (f y)) l')) as E
      by (apply Permutation_length, filter_perm; by rewrite Hp).
    rewrite El, El', !List.filter_app, !length_app, (filter_none _ m1), (filter_all _ (x :: l2)) in E.
    - simpl in E. rewrite Hz in E. simpl in E. pose proof (List.filter_length_le (fun y => negb (f y)) m2). lia.
    - eapply Forall_impl; [exact Hge|]. intros y Hy. cbv beta in *. by rewrite Hy.
    - eapply Forall_impl; [exact Hm1|]. intros y Hy. cbv beta in *. by rewrite Hy. }
  assert (Hqz : (q <= left_of z)%Q).
  { unfold f, ends_before in Hz. apply negb_false_iff in Hz. by apply Qle_bool_iff. }
  assert (Hq0 : (0 <= q)%Q).
  { rewrite Forall_forall in Hl. destruct (Hl x Hx) as (q0 & E & Hq0 & _). unfold q, left_of. rewrite E. by apply Qlt_le_weak. }
  eapply Qle_lt_trans; [|eapply Qlt_le_trans; [exact Hen|]].
  - rewrite <- Zle_Qle. lia.
  - apply min_free_mono; [lia|done|done|lia].
Qed.

End ignore_eos.

(** [add_req_state] with [insert_sort] does not keep
    the states sorted: a request with more tokens left than every other is put
    before the last entry, and the look-ahead then refuses a request that it
    would accept on the sorted list. *)
Theorem req_states_misplaced :
  let l := [(PF 1, 10); (PF 2, 10)] in
  let x := (PF 8, 10) in
  insert_req_state x l = [(PF 1, 10); (PF 8, 10); (PF 2, 10)] /\
  sort_states (x :: l) = Ok [(PF 1, 10); (PF 2, 10); (PF 8, 10)] /\
  @enough_tokens exact_float 7 0 (insert_req_state x l) = false /\
  @enough_tokens exact_float 7 0 [(PF 1, 10); (PF 2, 10); (PF 8, 10)] = true.
Proof. repeat split; vm_compute; reflexivity. Qed.

(** ** The chunked request *)

Section chunked.
Context `{Float} {S : Type} `{AdmissionOps S}.
Implicit Types (a : Adder) (s : S) (r : SReq).

(** With chunked prefill on, the request left over
    from the previous pass always joins the batch with at least one new token
    and at most the chunk budget, however short memory is; it is returned for
    another pass exactly if its input does not end with this chunk. *)
Theorem add_chunked_req_advances s r a chunk :
  dllm_block_size (acfg a) = None -> is_hybrid_swa (acfg a) = false -> rem_chunk_tokens (budget a) = Some chunk ->
  0 < chunk -> prefix_len r < fill_len r ->
  exists a' r' e, add_chunked_req s r a = Ok (a', r', if e <? fill_len r then Some r' else None) /\
    can_run_list a' = can_run_list a ++ [r'] /\ extend_range r' = Some (prefix_len r, e) /\
    prefix_len r < e <= fill_len r /\ e - prefix_len r <= chunk /\
    rem_chunk_tokens (budget a') = Some (chunk - ceil_paged_tokens (a_page_size (acfg a)) (e - prefix_len r)).
Proof.
  intros Hd Hs Hc Hpos Hlt. unfold add_chunked_req. rewrite Hd, Hs, Hc. cbn [or_raise mbind res_bind].
  set (rem0 := Z.min chunk (nint (rem_total_tokens a s))). set (rem := if rem0 <=? 0 then chunk else rem0).
  assert (Hrem : 0 < rem <= chunk) by (unfold rem; destruct (Z.leb_spec rem0 0); unfold rem0 in *; lia).
  assert ((if rem0 <=? 0 then Some chunk else Some rem0) = Some rem) as -> by (unfold rem; by destruct (rem0 <=? 0)).
  set (n := Z.min (fill_len r - prefix_len r) rem). assert (Hn : 0 < n <= rem) by lia.
  eexists _, (set_extend_range (prefix_len r) (prefix_len r + n) r), (prefix_len r + n).
  assert ((prefix_len r + n <? fill_len r) = (rem <? fill_len r - prefix_len r)) as ->.
  { destruct (Z.ltb_spec rem (fill_len r - prefix_len r)); [apply Z.ltb_lt|apply Z.ltb_ge]; lia. }
  split; [done|]. split; [done|]. split; [done|]. split; [lia|]. split; [lia|].
  unfold update_prefill_budget. simpl. rewrite Hd, Hc. simpl. do 2 f_equal. unfold ceil_paged_tokens. by replace (prefix_len r + n - prefix_len r) with n by lia.
Qed.

End chunked.

(** ** Preemption *)

Section preempt.
Context `{Float} {S : Type} `{AdmissionOps S}.
Implicit Types (a : Adder) (s : S) (r : SReq).

Definition owed (ratio : Q) (missing : pynum) (l : list SReq) : pynum :=
  foldl (fun m x => nsub m (get_running_request_total_token_offset ratio x)) missing l.

(** The victims are the first requests of the sorted list. *)
Lemma pick_victims_run prio sign thr ratio missing l (p : SReq -> Z) :
  (forall x, x ∈ l -> req_priority (sreq x) = Some (p x)) ->
  exists vs rest, pick_victims prio sign thr ratio missing l = Ok (vs, owed ratio missing vs) /\ l = vs ++ rest /\
    Forall (fun x => thr < (prio - p x) * - sign) vs.
Proof.
  revert missing. induction l as [|x l IH]; intros missing Hp.
  { exists [], []. done. }
  cbn [pick_victims]. rewrite (Hp x) by set_solver. cbn [or_raise mbind res_bind].
  destruct (Z.ltb_spec thr ((prio - p x) * - sign)) as [Hlt|Hge]; [|exists [], (x :: l); done].
  destruct (nleb _ _).
  - exists [x], l. split; [done|]. split; [done|]. by repeat constructor.
  - destruct (IH (nsub missing (get_running_request_total_token_offset ratio x))) as (vs & rest & -> & -> & Hv); [set_solver|].
    bind_step. exists (x :: vs), rest. split; [done|]. split; [done|]. by constructor.
Qed.

(** What releasing relies on: requests of the batch can be released in the
    states [OK], and keep their identity. *)
Definition releasable (OK : S -> Prop) (running : list SReq) : Prop :=
  forall x k s, x ∈ running -> OK s -> exists s' x', ad_release_req x k s = Ok (s', x') /\ rid x' = rid x /\ OK s'.

Lemma release_victims_run OK victims ratio n rel l off s :
  releasable OK l -> OK s ->
  exists s' off' out, release_victims victims ratio n rel l off s
      = Ok (s', off', List.filter (fun x => negb (req_in x victims)) l, out) /\ OK s' /\
    map rid out = map rid (List.filter (fun x => req_in x victims) l).
Proof.
  revert rel off s. induction l as [|x l IH]; intros rel off s Hr Hs.
  { exists s, off, []. done. }
  assert (Hr' : releasable OK l) by (intros y k t Hy; apply Hr; set_solver).
  cbn [release_victims List.filter]. destruct (req_in x victims); simpl.
  - destruct (Hr x (n - (rel + 1)) s) as (s1 & x1 & -> & Ex & Hs1); [set_solver|done|]. bind_step.
    destruct (IH (rel + 1) (nsub off (get_running_request_total_token_offset ratio x)) s1 Hr' Hs1) as (s2 & off2 & out & -> & Hs2 & Eo).
    bind_step. exists s2, off2, (x1 :: out). split; [done|]. split; [done|]. simpl. by rewrite Ex, Eo.
  - destruct (IH rel off s Hr' Hs) as (s2 & off2 & out & -> & Hs2 & Eo). bind_step. by exists s2, off2, out.
Qed.

(** Preemption returns.  If it declines, nothing has
    changed.  If it commits, the victims are running, unfinished, not preempted
    before, and each is below the new request by more than the threshold; no
    running candidate that comes earlier in the preemption order (lowest
    priority first) is spared; the tokens the victims would still have written
    cover what the request lacks; and exactly the victims leave the batch, for
    the preemption list. *)
Theorem preempt_only_lower (OK : S -> Prop) r low a s running prio (p : SReq -> Z) :
  let sign := if low : bool then 1 else -1 in
  let candidate x := negb (req_in x (preempt_list a)) && negb (req_finished x) in
  running_batch a = Some running -> req_priority (sreq r) = Some prio ->
  (forall x, x ∈ running -> req_priority (sreq x) = Some (p x)) -> releasable OK running -> OK s ->
  exists s' a' b, preempt_to_schedule r low a s = Ok (s', a', b) /\ OK s' /\
    (b = false -> s' = s /\ a' = a) /\
    (b = true -> exists victims rest,
      victims <> [] /\ victims ++ rest ≡ₚ List.filter candidate running /\
      Forall (fun x => preemption_threshold (acfg a) < (prio - p x) * - sign) victims /\
      (forall x y, x ∈ victims -> y ∈ rest -> p x * - sign <= p y * - sign) /\
      nleb (owed (new_token_ratio (acfg a))
              (nsub (PI (fill_len r - prefix_len r + Z.min (max_new_tokens r) CLIP_MAX_NEW_TOKENS)) (rem_total_tokens a s)) victims)
           (PI 0) = true /\
      running_batch a' = Some (List.filter (fun x => negb (req_in x victims)) running) /\
      map rid (preempt_list a') = map rid (preempt_list a) ++ map rid (List.filter (fun x => req_in x victims) running) /\
      can_run_list a' = can_run_list a).
Proof.
  intros sign candidate Hrun Hprio Hp Hrel Hs. unfold preempt_to_schedule. rewrite Hrun. cbn [or_raise mbind res_bind].
  fold sign. fold candidate.
  assert (Hpc : forall x, x ∈ List.filter candidate running -> req_priority (sreq x) = Some (p x)).
  { intros x Hx%list_elem_of_In. apply filter_In in Hx as [Hx _]. apply Hp. by apply list_elem_of_In. }
  destruct (py_sort_run (fun x => p ← signed_priority (- sign) x; Ok [zatom p; Num (- wait_queue_entry_time x)])
    (fun x => [zatom (p x * - sign); Num (- wait_queue_entry_time x)]) (List.filter candidate running)) as (l & -> & [Sp Ss _]).
  { intros x Hx. unfold signed_priority. by rewrite (Hpc x Hx). }
  bind_step. set (need := nsub _ (rem_total_tokens a s)).
  destruct (pick_victims_run prio sign (preemption_threshold (acfg a)) (new_token_ratio (acfg a)) need l p) as (vs & rest & Hpick & El & Hv).
  { intros x Hx. apply Hpc. by rewrite <- Sp. }
  assert ((match l with [] => Ok ([], need) | _ => prio ← or_raise TypeError (req_priority (sreq r));
     pick_victims prio sign (preemption_threshold (acfg a)) (new_token_ratio (acfg a)) need l end)
     = Ok (vs, owed (new_token_ratio (acfg a)) need vs)) as ->.
  { rewrite Hprio. destruct l; [|exact Hpick]. destruct vs; [done|discriminate El]. }
  bind_step. destruct ((length vs =? 0)%nat || nltb (PI 0) _) eqn:Estop.
  { exists s, a, false. done. }
  apply orb_false_iff in Estop as [Hne Hcov]. apply Nat.eqb_neq in Hne.
  destruct (release_victims_run OK vs (new_token_ratio (acfg a)) (Z.of_nat (length running)) 0 running (rem_total_token_offset (budget a)) s Hrel Hs)
    as (s' & off & out & -> & Hs' & Eo). bind_step.
  eexists s', _, true. split; [done|]. split; [done|]. split; [done|]. intros _. exists vs, rest.
  split; [by destruct vs|]. split; [by rewrite <- El|]. split; [done|]. split.
  - intros x y Hx Hy. rewrite El in Ss. clear -Ss Hx Hy. induction vs as [|v vs IH]; [set_solver|]. simpl in Ss.
    apply StronglySorted_inv in Ss as [Ss Hv]. apply elem_of_cons in Hx as [->|Hx]; [|by apply IH].
    rewrite Forall_forall in Hv. specialize (Hv y ltac:(set_solver)). cbv beta in Hv. cbn [key_leb] in Hv.
    match type of Hv with (if ?b then _ else _) = _ => destruct b eqn:E; [|discriminate Hv] end.

    apply Qle_bool_iff in E. by rewrite <- Zle_Qle in E.
  - split; [by apply negb_false_iff in Hcov|]. split; [done|]. split; [|done]. simpl. by rewrite map_app, Eo.
Qed.

End preempt.

(** ** Concrete runs *)

#[local] Existing Instance exact_float.
#[local] Existing Instance exact_float_laws.
#[local] Existing Instance demo_env.

#[local] Instance exact_float_ints : FloatInts.
Proof. split. intros z _. apply Qeq_refl. Qed.

#[local] Instance exact_sum : PySum := {| py_sum l := PF (foldr (fun x acc => (nval x + acc)%Q) 0%Q l) |}.

#[local] Instance exact_sum_laws : PySumLaws.
Proof. split. intros l Hl. simpl. induction Hl as [|x l Hx _ IH]; simpl in *; [apply Qle_refl|lra]. Qed.

Definition demo_args : ServerArgs := ReqCache.mkArgs 1 None false.

#[local] Instance demo_ops : AdmissionOps Store := store_ops demo_args 20.
#[local] Instance demo_laws : AdmissionLaws Store := store_laws demo_args 20.

Definition no_gather : Delayer.Info -> list Delayer.Info := fun i => [i].
Definition clock0 : Delayer.Clock := Delayer.mkClock 0 0 0.

(** A waiting request with [pre] cached slots under node [n]. *)
Definition waiting (id : string) (ids pre : list Z) (n : option nat) (prio max_new : Z) (eos : bool) : SReq :=
  mkSReq (mkReq ids [] ids 0 None (Some prio) None false 0 pre n None 0 None 0 0) id max_new eos None 0 false 0 false false
    0 None 0 0 0 false None.

Lemma radix_store_ok c t p Hd :
  disable (cfg c) = false -> 0 <= kv_available t -> (forall k, Z.leb 0 (Hd k) = true) -> Inv c Hd ->
  store_ok (mkStore (Radix c) t p) Hd.
Proof. intros E Hav Hh HI. split; [done|]. split; [intros k; by apply Z.leb_le|]. simpl. by rewrite E. Qed.

(** Page size 1: the cache of the radix demonstration, 9 free slots. *)
Definition demo_store : Store :=
  mkStore (Radix demo2) (PTok (TokA (Token.alloc (Token.init 16 false) 7).1)) (pool_init 4 32).

Definition demo_adder : Adder := init_adder 1 demo_store (Some []) 1 64 (Some 8) 0 0 4 8 None None None 3 false.

Definition demo_wait : SReq := waiting "w" [11; 12; 20; 21; 22; 30; 31] slots2 (Some leaf2) 0 4 false.

Lemma demo_store_ok : ad_ok demo_store no_locks.
Proof. split; [vm_compute; discriminate|]. split; [done|]. apply demo_inv2. Qed.

Lemma demo_adder_inv : adm_inv demo_adder (available_and_evictable (acfg demo_adder) demo_store).
Proof.
  apply init_adder_inv; [lia|simpl; lia|lia|apply Qle_bool_iff; reflexivity|constructor|].
  vm_compute. split; discriminate.
Qed.

Lemma demo_wait_ok : req_ok demo_wait.
Proof. split; [vm_compute; discriminate|vm_compute; discriminate|reflexivity]. Qed.

Lemma demo_wait_lockable : ad_lockable demo_store (last_node (sreq demo_wait)).
Proof. right. exists leaf2. split; [reflexivity|apply demo_slots2]. Qed.

Lemma no_delayer gather a : delayer a = None -> delayer_ready gather a.
Proof. intros E Hne. by rewrite E in Hne. Qed.

Lemma no_align : forall x, @None Z = Some x -> 0 < x.
Proof. done. Qed.

Lemma add_one_req_sound_witness :
  exists s' a' r' x, add_one_req no_gather clock0 demo_wait None demo_adder demo_store = Ok (s', a', r', x) /\
    ad_alike demo_store s' /\ adm_inv a' (available_and_evictable (acfg a') s') /\
    ((x <> CONTINUE /\ a' = with_delayer (delayer a') demo_adder /\ r' = demo_wait /\ ad_ok s' no_locks) \/
     (admitted demo_wait r' demo_adder a' /\ ad_ok s' (bump (last_node (sreq demo_wait)) no_locks))).
Proof.
  apply (add_one_req_sound no_gather clock0 demo_wait None demo_adder demo_store no_locks);
    [apply demo_adder_inv|apply demo_store_ok|apply demo_wait_lockable|apply demo_wait_ok|reflexivity|apply no_align
    |by apply no_delayer].
Defined.

(** The run of this admission: the request is in, with its two new tokens. *)
Definition demo_added : Store * Adder * SReq * AddReqResult :=
  match add_one_req no_gather clock0 demo_wait None demo_adder demo_store with
  | Ok x => x
  | Raise _ => (demo_store, demo_adder, demo_wait, OTHER)
  end.

Example demo_added_range : map extend_range (can_run_list demo_added.1.1.2) = [Some (5, 7)] /\ demo_added.2 = CONTINUE.
Proof. split; vm_compute; reflexivity. Qed.

Lemma demo_pass :
  pass no_gather clock0 demo_adder demo_store no_locks demo_added.1.1.2 demo_added.1.1.1
    (locks_after demo_adder demo_added.1.1.2 demo_wait no_locks).
Proof.
  eapply (pass_offer no_gather clock0 demo_adder demo_store no_locks demo_adder demo_store no_locks demo_wait None _ _
    demo_added.1.2 demo_added.2);
    [constructor|apply demo_wait_ok|apply demo_wait_lockable|reflexivity|apply no_align|by apply no_delayer|].
  vm_compute. reflexivity.
Qed.

Lemma pass_fits_witness :
  let a := demo_added.1.1.2 in
  let s := demo_added.1.1.1 in
  demand (a_page_size (acfg a)) (can_run_list a) <= available_and_evictable (acfg a) s /\
  ad_ok s (locks_after demo_adder a demo_wait no_locks) /\ ad_alike demo_store s /\ Forall ranged (can_run_list a).
Proof.
  apply (pass_fits no_gather clock0 demo_adder demo_store no_locks); [apply demo_adder_inv|apply demo_store_ok|apply demo_pass].
Defined.

(** Page size 4, over an empty cache and the page allocator of the allocation
    demonstration: a chunked request that has two tokens goes on with its
    rest, then a new request. *)
Definition paged_store : Store := mkStore (Radix paged0) (PPag (PagA demo_pool)) (pool_init 4 32).
Definition paged_adder : Adder := init_adder 4 paged_store None 1 64 (Some 16) 0 0 4 8 None None None 2 false.
Definition wait1 : SReq := waiting "x" [1; 2; 3; 4; 5] [20; 21] (Some 0%nat) 0 1 false.
Definition wait2 : SReq := waiting "y" [6; 7; 8; 9] [] (Some 0%nat) 0 1 false.

Definition run_add (r : SReq) (x : Store * Adder * SReq * AddReqResult) : Store * Adder * SReq * AddReqResult :=
  match add_one_req no_gather clock0 r None x.1.1.2 x.1.1.1 with Ok y => y | Raise _ => x end.

Definition paged1 : Adder * SReq :=
  match add_chunked_req paged_store wait1 paged_adder with Ok y => y.1 | Raise _ => (paged_adder, wait1) end.
Definition paged2 := run_add wait2 (paged_store, paged1.1, wait2, OTHER).

Lemma root_lockable (x : Store) : st_cache x = Radix paged0 -> ad_lockable x (Some 0%nat).
Proof. intros E. unfold ad_lockable. simpl. unfold store_lockable. rewrite E. right. exists 0%nat. split; [done|]. exists None, [], []. constructor. Qed.

Lemma paged_store_ok : ad_ok paged_store no_locks.
Proof. apply radix_store_ok; [reflexivity|vm_compute; discriminate|intros; reflexivity|]. apply (init_inv paged_cfg). simpl. lia. Qed.

Lemma paged_adder_inv : adm_inv paged_adder (available_and_evictable (acfg paged_adder) paged_store).
Proof.
  apply init_adder_inv; [lia|simpl; lia|lia|apply Qle_bool_iff; reflexivity|constructor|].
  vm_compute. split; discriminate.
Qed.

Lemma paged_pass : exists Hd, pass no_gather clock0 paged_adder paged_store no_locks paged2.1.1.2 paged2.1.1.1 Hd.
Proof.
  assert (P1 : pass no_gather clock0 paged_adder paged_store no_locks paged1.1 paged_store no_locks).
  { apply (pass_chunk _ _ _ _ _ wait1 paged1.1 paged1.2 None); [|vm_compute; reflexivity].
    split; [vm_compute; discriminate|vm_compute; discriminate|]. exists 16. split; [reflexivity|]. split; [lia|]. vm_compute. reflexivity. }
  eexists. eapply (pass_offer _ _ _ _ _ paged1.1 paged_store _ wait2 None _ _ paged2.1.2 paged2.2);
    [exact P1|split; [vm_compute; discriminate|vm_compute; discriminate|reflexivity]| |reflexivity|apply no_align
    |apply no_delayer; vm_compute; reflexivity|vm_compute; reflexivity].
  apply root_lockable. vm_compute. reflexivity.
Qed.

Lemma admitted_prefill_allocates_witness :
  exists Hd c c' t' x out l' newp, st_cache paged2.1.1.1 = Radix c /\ st_alloc paged2.1.1.1 = PPag (PagA demo_pool) /\
    alloc_paged_token_slots_extend 0 (replicate 7 0) (Radix c) [2%nat; 0%nat] [5%nat; 4%nat] [21; -1] 7 (PPag (PagA demo_pool))
      = Ok (Radix c', PPag t', x, out) /\
    Inv c' Hd /\ tree_slots c' l' /\ kv_out (PPag t') (Paged.page_slots 4 newp ++ l' ++ [20; 21; 22; 23]) /\
    NoDup out /\ length out = 7%nat.
Proof.
  destruct paged_pass as [Hd Hp]. exists Hd.
  apply (admitted_prefill_allocates demo_args 20 no_gather clock0 paged_adder paged2.1.1.2 paged0 (PagA demo_pool) (pool_init 4 32)
    paged2.1.1.1 no_locks Hd [] [20; 21; 22; 23] 0 (replicate 7 0) [21; -1]);
    [apply paged_adder_inv|apply paged_store_ok|exact Hp|reflexivity|reflexivity|reflexivity|reflexivity|reflexivity
    |apply paged0_slots|apply demo_pool_out|apply paged0_chunks|reflexivity|apply demo_batch_owns|reflexivity].
Defined.

Lemma ignore_eos_order_safe_witness :
  enough_tokens 20 0 [(PF 1, 10); (PF 8, 10); (PF 2, 10)] = true /\
  enough_tokens 20 0 [(PF 1, 10); (PF 2, 10); (PF 8, 10)] = true.
Proof.
  split; [vm_compute; reflexivity|]. apply (ignore_eos_order_safe 20 0 [(PF 1, 10); (PF 8, 10); (PF 2, 10)]).
  - repeat constructor; eexists; (split; [reflexivity|]); split; [reflexivity|simpl; lia|reflexivity|simpl; lia|reflexivity|simpl; lia].
  - solve_Permutation.
  - repeat constructor; apply Qle_bool_iff; reflexivity.
  - vm_compute. reflexivity.
Defined.

Lemma add_chunked_req_advances_witness :
  exists a' r' e, add_chunked_req demo_store demo_wait demo_adder
      = Ok (a', r', if e <? fill_len demo_wait then Some r' else None) /\
    can_run_list a' = can_run_list demo_adder ++ [r'] /\ extend_range r' = Some (prefix_len demo_wait, e) /\
    prefix_len demo_wait < e <= fill_len demo_wait /\ e - prefix_len demo_wait <= 8 /\
    rem_chunk_tokens (budget a') = Some (8 - ceil_paged_tokens (a_page_size (acfg demo_adder)) (e - prefix_len demo_wait)).
Proof. apply (add_chunked_req_advances demo_store demo_wait demo_adder 8); [reflexivity|reflexivity|reflexivity|lia|vm_compute; reflexivity]. Defined.

(** A store whose requests can always be released, to run a preemption. *)
Definition free_ops : AdmissionOps Z := {|
  lock_result := unit;
  ad_available_size s := s; ad_evictable_size _ := 0; ad_full_available_size _ := 0; ad_full_evictable_size _ := 0;
  ad_swa_available_size _ := 0; ad_swa_evictable_size _ := 0; ad_sliding_window_size _ := 0;
  ad_is_hybrid_swa _ := false; ad_is_all_swa _ := false; ad_supports_mamba _ := false; ad_is_tree_cache _ := false;
  ad_disable _ := true; ad_mamba_slot_cost _ := 0; ad_mamba_available_size _ := 0; ad_mamba_evictable_size _ := 0;
  ad_inc_lock_ref _ s := Ok (s, tt); ad_dec_lock_ref _ _ s := Ok s; ad_swa_uuid _ := None;
  ad_init_load_back _ _ := Raise NotImplementedError;
  ad_release_req r _ s := Ok (s + Z.of_nat (length (prefix_indices (sreq r))), r);
|}.

#[local] Existing Instance free_ops.

Definition busy : list SReq := [waiting "p" [1; 2] [7; 8] None 1 4 false; waiting "q" [3] [9] None 5 4 false].
Definition busy_adder : Adder := init_adder 1 4 (Some busy) 1 64 None 0 0 4 8 None None None 1 false.
Definition urgent : SReq := waiting "u" [1; 2; 3] [] None 9 1 false.

Lemma preempt_only_lower_witness :
  let p x := default 0 (req_priority (sreq x)) in
  exists s' a' b, preempt_to_schedule urgent false busy_adder 4 = Ok (s', a', b) /\ 0 <= s' /\
    (b = false -> s' = 4 /\ a' = busy_adder) /\
    (b = true -> exists victims rest,
      victims <> [] /\ victims ++ rest ≡ₚ List.filter (fun x => negb (req_in x (preempt_list busy_adder)) && negb (req_finished x)) busy /\
      Forall (fun x => 0 < (9 - p x) * - -1) victims /\
      (forall x y, x ∈ victims -> y ∈ rest -> p x * - -1 <= p y * - -1) /\
      nleb (owed 1 (nsub (PI (fill_len urgent - prefix_len urgent + Z.min (max_new_tokens urgent) CLIP_MAX_NEW_TOKENS))
                      (rem_total_tokens busy_adder 4)) victims) (PI 0) = true /\
      running_batch a' = Some (List.filter (fun x => negb (req_in x victims)) busy) /\
      map rid (preempt_list a') = map rid (preempt_list busy_adder) ++ map rid (List.filter (fun x => req_in x victims) busy) /\
      can_run_list a' = can_run_list busy_adder).
Proof.
  intros p. apply (preempt_only_lower (fun s => 0 <= s) urgent false busy_adder 4 busy 9 p); [reflexivity|reflexivity| | |lia].
  - intros x Hx%list_elem_of_In. by destruct Hx as [<-|[<-|[]]].
  - intros x k s _ Hs. eexists _, _. split; [reflexivity|]. split; [reflexivity|]. lia.
Defined.

(** Here the preemption commits: both running requests are below. *)
Example preempt_demo :
  match preempt_to_schedule urgent false busy_adder 4 with Ok (_, a', b) => (map rid (preempt_list a'), b) | _ => ([], false) end
  = (["p"; "q"]%string, true).
Proof. vm_compute. reflexivity. Qed.
