(* ===== verification/Text.v ===== *)
(** * Text: Python strings as sequences of code points

    The string operations the output path uses: substring test, [find],
    [rfind] of a character, suffixes and slices with possibly negative bounds.
    A string is a list of code points, as [len] and indexing of a Python [str]
    see it. *)

From S2P Require Import Prelude.

Open Scope nat_scope.

Abbreviation text := (list Z).

(** [l[-n:]]: the last [n] elements; [-0] is [0], so [n = 0] gives all. *)
Definition py_last {A} (n : nat) (l : list A) : list A :=
  if (n =? 0) then l else drop (length l - n) l.

(** [l[n:]] for any integer [n]. *)
Definition py_from {A} (n : Z) (l : list A) : list A :=
  if (n <? 0)%Z then drop (length l - Z.to_nat (- n)) l else drop (Z.to_nat n) l.

Fixpoint starts_with (p t : text) : bool :=
  match p, t with
  | [], _ => true
  | x :: p, y :: t => (x =? y)%Z && starts_with p t
  | _ :: _, [] => false
  end.

(** [t.find(p)], [None] for [-1]. *)
Fixpoint py_find (p t : text) : option nat :=
  if starts_with p t then Some 0 else
  match t with
  | [] => None
  | _ :: t => S <$> py_find p t
  end.

(** [p in t]. *)
Definition py_in (p t : text) : bool := match py_find p t with Some _ => true | None => false end.

(** [t.rfind(c) + 1]: one past the last [c], [0] if there is none. *)
Fixpoint after_last (c : Z) (t : text) : nat :=
  match t with
  | [] => 0
  | x :: t => if (0 <? after_last c t) then S (after_last c t) else if (x =? c)%Z then 1 else 0
  end.

Definition ends_with (c : Z) (t : text) : bool :=
  match last t with Some x => (x =? c)%Z | None => false end.

(** ** Prefixes *)

Lemma prefix_take_iff {A} (p l : list A) : p `prefix_of` l <-> p = take (length p) l.
Proof.
  split; [|intros ->; apply prefix_take]. intros [k ->]. by rewrite take_app_length.
Qed.

Lemma prefix_app_cut {A} (p a b : list A) : p `prefix_of` a ++ b -> length p <= length a -> p `prefix_of` a.
Proof. rewrite !prefix_take_iff. intros Hp Hl. by rewrite take_app_le in Hp. Qed.

(** Of two prefixes of one list, the shorter is a prefix of the longer. *)
Lemma prefix_shorter {A} (p q l : list A) : p `prefix_of` l -> q `prefix_of` l -> length p <= length q -> p `prefix_of` q.
Proof. intros Hp [r ->] Hl. by eapply prefix_app_cut. Qed.

Lemma prefix_drop_app {A} (p l : list A) : p `prefix_of` l -> p ++ drop (length p) l = l.
Proof. intros [r ->]. by rewrite drop_app_length. Qed.

Lemma prefix_drop {A} (p l : list A) n : p `prefix_of` l -> drop n p `prefix_of` drop n l.
Proof. intros [r ->]. destruct (decide (n <= length p)); [rewrite drop_app_le by done; by exists r|]. rewrite drop_ge by lia. apply prefix_nil. Qed.

(** ** What they compute *)

(** [p] occurs in [t] at position [i]. *)
Definition occurs_at (p t : text) (i : nat) : Prop := p `prefix_of` drop i t /\ i + length p <= length t.

Lemma starts_with_prefix p t : starts_with p t = true <-> p `prefix_of` t.
Proof.
  revert t. induction p as [|x p IH]; intros [|y t]; simpl; split; intros Hp; try done; try apply prefix_nil.
  - by destruct (prefix_nil_not _ _ Hp).
  - apply andb_true_iff in Hp as [->%Z.eqb_eq Hp]. apply prefix_cons. by apply IH.
  - pose proof (prefix_cons_inv_1 _ _ _ _ Hp) as ->. rewrite Z.eqb_refl. apply IH. by eapply prefix_cons_inv_2.
Qed.

Lemma py_find_Some p t i : py_find p t = Some i -> occurs_at p t i /\ forall j, j < i -> ~ occurs_at p t j.
Proof.
  revert i. induction t as [|y t IH]; simpl; intros i; destruct (starts_with p _) eqn:E; intros Hf; simplify_eq.
  - apply starts_with_prefix in E. split; [|lia]. split; [by rewrite drop_0|]. by apply prefix_length in E.
  - apply starts_with_prefix in E. split; [|lia]. split; [by rewrite drop_0|]. by apply prefix_length in E.
  - apply fmap_Some in Hf as (k & Hk & ->). destruct (IH k Hk) as ((Hp & Hl) & Hmin). split.
    + split; [done|]. simpl. lia.
    + intros [|j] Hj (Hpj & Hlj).
      * rewrite drop_0, <- starts_with_prefix in Hpj. congruence.
      * apply (Hmin j); [lia|]. split; [done|]. simpl in Hlj. lia.
Qed.

Lemma py_find_None p t i : py_find p t = None -> ~ occurs_at p t i.
Proof.
  revert i. induction t as [|y t IH]; simpl; intros i; destruct (starts_with p _) eqn:E; intros Hf; simplify_eq; intros (Hp & Hl).
  - rewrite drop_nil, <- starts_with_prefix in Hp. congruence.
  - apply fmap_None in Hf. destruct i as [|i].
    + rewrite drop_0, <- starts_with_prefix in Hp. congruence.
    + apply (IH i Hf). split; [done|]. simpl in Hl. lia.
Qed.

Lemma py_in_iff p t : py_in p t = true <-> exists i, occurs_at p t i.
Proof.
  unfold py_in. destruct (py_find p t) as [i|] eqn:E; split; try done.
  - intros _. exists i. by apply py_find_Some.
  - intros [i Hi]. by destruct (py_find_None p t i E).
Qed.

Lemma occurs_at_split p t i : occurs_at p t i <-> exists s r, t = s ++ p ++ r /\ length s = i.
Proof.
  split.
  - intros ([r Hr] & Hl). exists (take i t), r. rewrite <- Hr, take_drop, length_take. split; [done|lia].
  - intros (s & r & -> & <-). split; [|rewrite !length_app; lia]. rewrite drop_app_length. by exists r.
Qed.

(** Text that has been matched stays matched when more is appended. *)
Lemma occurs_at_app p t u i : occurs_at p t i -> occurs_at p (t ++ u) i.
Proof.
  rewrite !occurs_at_split. intros (s & r & -> & Hs). exists s, (r ++ u). split; [|done]. by rewrite <- !app_assoc.
Qed.

Lemma py_find_app p t u i : py_find p t = Some i -> py_find p (t ++ u) = Some i.
Proof.
  intros (Ho & Hmin)%py_find_Some. destruct (py_find p (t ++ u)) as [j|] eqn:E.
  - apply py_find_Some in E as (Hj & Hmj). f_equal. destruct (Nat.lt_trichotomy j i) as [Hlt|[->|Hgt] ]; [|done|].
    + destruct (Hmin j Hlt). destruct Hj as (Hp & Hl), Ho as (_ & Hlo). split; [|lia].
      rewrite drop_app_le in Hp by lia. apply prefix_app_cut in Hp; [done|]. rewrite length_drop. lia.
    + by destruct (Hmj i Hgt); apply occurs_at_app.
  - by destruct (py_find_None _ _ i E); apply occurs_at_app.
Qed.
