(* ===== verification/Detokenizer.v ===== *)
(** * Detokenizer: from token ids to text

    Models [managers/detokenizer_manager.py] with [find_printable_text] of
    [sglang/utils.py] and [decode_without_hf_kwargs] of
    [utils/patch_tokenizer.py]: the state kept per request, the grouped batch
    decoding, the trimming of the matched stop and the incremental output.  The
    tokenizer is a parameter.  Of a [BatchTokenIDOutput] the columns the
    detokenizer reads are modelled, one row per request; the other columns are
    handed on unchanged. *)

From S2P Require Import Prelude Text.

Open Scope nat_scope.

(** ** Finish reasons as they arrive, [finished_reason.to_json()] *)

Inductive Matched :=
| MInt (z : Z)
| MInts (l : list Z)
| MStr (s : text).

(** The keys [type] and [matched]. *)
Record FinishJson := mkJson { j_type : string; j_matched : option Matched }.

(** [not matched]. *)
Definition falsy (m : Matched) : bool :=
  match m with
  | MInt z => (z =? 0)%Z
  | MInts l => (length l =? 0)
  | MStr s => (length s =? 0)
  end.

(** ** Printable text *)

Definition REPLACEMENT : Z := 65533.
Definition SPACE : Z := 32.
Definition NEWLINE : Z := 10.

Definition between (lo hi x : Z) : bool := (lo <=? x)%Z && (x <=? hi)%Z.

Definition is_chinese_char (cp : Z) : bool :=
  between 19968 40959 cp || between 13312 19903 cp || between 131072 173791 cp || between 173824 177983 cp ||
  between 177984 178207 cp || between 178208 183983 cp || between 63744 64255 cp || between 194560 195103 cp.

(** [t[-2]], if [len(t) > 1]. *)
Definition penultimate (t : text) : option Z := if (1 <? length t) then t !! (length t - 2) else None.

Definition is_chinese (c : option Z) : bool := match c with Some c => is_chinese_char c | None => false end.

Definition find_printable_text (t : text) : text :=
  if ends_with NEWLINE t then t
  else if is_chinese (last t) then t
  else if is_chinese (penultimate t) then take (length t - 1) t
  else take (after_last SPACE t) t.

(** ** The tokenizer *)

Class Tokenizer := {
  tk_is_fast : bool;
  tk_special_ids : option (list Z);
  tk_decode : list Z -> text;
  tk_decode_with (skip_special_tokens spaces_between_special_tokens : bool) : list Z -> text;
  tk_batch_decode (skip_special_tokens spaces_between_special_tokens : bool) : list (list Z) -> list text;
}.

(** ** State per request *)

Record DecodeStatus := mkStatus {
  decoded_text : text;
  decode_ids : list Z;
  surr_offset : nat;
  read_offset : nat;
  sent_offset : nat;
  decoded_text_len : nat;
  decoded_text_chunks : list text;
}.

Definition new_status (decoded : text) (ids : list Z) (read : nat) : DecodeStatus :=
  mkStatus decoded ids 0 read 0 (length decoded) [].

Definition extend_ids (ids : list Z) (s : DecodeStatus) : DecodeStatus :=
  mkStatus (decoded_text s) (decode_ids s ++ ids) (surr_offset s) (read_offset s) (sent_offset s) (decoded_text_len s) (decoded_text_chunks s).

Definition append_decoded_text (t : text) (s : DecodeStatus) : DecodeStatus :=
  if (length t =? 0) then s else
  mkStatus (decoded_text s) (decode_ids s) (surr_offset s) (read_offset s) (sent_offset s)
    (decoded_text_len s + length t) (decoded_text_chunks s ++ [t]).

Definition get_decoded_text (s : DecodeStatus) : DecodeStatus * text :=
  if (length (decoded_text_chunks s) =? 0) then (s, decoded_text s) else
  let t := decoded_text s ++ concat (decoded_text_chunks s) in
  (mkStatus t (decode_ids s) (surr_offset s) (read_offset s) (sent_offset s) (decoded_text_len s) [], t).

Definition set_offsets surr read sent (s : DecodeStatus) : DecodeStatus :=
  mkStatus (decoded_text s) (decode_ids s) surr read sent (decoded_text_len s) (decoded_text_chunks s).

(** [LimitedCapacityDict], oldest entry first. *)
Abbreviation status_dict := (list (string * DecodeStatus)).

Definition limited_set (capacity : nat) (rid : string) (s : DecodeStatus) (d : status_dict) : res status_dict :=
  if (capacity <=? length d) then
    match d with
    | [] => Raise KeyError
    | _ :: d => Ok (dict_set rid s d)
    end
  else Ok (dict_set rid s d).

(** ** Trimming the matched stop *)

(** [trim_matched_stop] on a string. *)
Definition trim_matched_str (output : text) (reason : option FinishJson) (no_stop_trim : bool) : text :=
  match reason ≫= j_matched with
  | Some (MStr matched) =>
      if falsy (MStr matched) then output else
      match py_find matched output with
      | None => output
      | Some pos => take (if no_stop_trim then pos + length matched else pos) output
      end
  | _ => output
  end.

Definition CALL_TOKEN : Z := 200012.

(** [trim_matched_stop] on a list of token ids. *)
Definition trim_matched_ids (is_tool_call_parser_gpt_oss : bool) (output : list Z) (reason : option FinishJson)
    (no_stop_trim : bool) : res (list Z) :=
  match reason ≫= j_matched with
  | Some (MInt matched) =>
      if falsy (MInt matched) then Ok output
      else if no_stop_trim then Ok output
      else
        x ← or_raise IndexError (last output);
        if (x =? CALL_TOKEN)%Z && is_tool_call_parser_gpt_oss then Ok output
        else
          _ ← py_assert (0 <? length output);
          Ok (take (length output - 1) output)
  | _ => Ok output
  end.

(** ** Batch decoding *)

Definition select {A} `{Inhabited A} (idx : list nat) (l : list A) : list A := (fun i => l !!! i) <$> idx.

(** [for i, t in zip(idx, ts): acc[i] = t]. *)
Definition scatter (idx : list nat) (ts : list text) (acc : list text) : list text :=
  foldl (fun acc x => <[x.1 := x.2]> acc) acc (zip idx ts).

Section with_tokenizer.
Context `{Tokenizer}.

Definition decode_without_hf_kwargs (ids : list Z) (skip_special_tokens : bool) : text :=
  if skip_special_tokens then
    match tk_special_ids with
    | Some special => tk_decode (List.filter (fun t => negb (bool_decide (t ∈ special))) ids)
    | None => tk_decode ids
    end
  else tk_decode ids.

Definition group_rows (flags : list (bool * bool)) : list (bool * bool * list nat) :=
  foldl (fun g x => dict_set x.2 (default [] (dict_get x.2 g) ++ [x.1]) g) [] (imap pair flags).

(** All rows non-empty. *)
Definition decode_rows (ids_list : list (list Z)) (skip_list space_list : list bool) : list text :=
  if negb tk_is_fast then zip_with decode_without_hf_kwargs ids_list skip_list
  else
    let first_skip := skip_list !!! 0 in
    let first_space := space_list !!! 0 in
    if forallb (fun x => Bool.eqb x.1 first_skip && Bool.eqb x.2 first_space) (zip skip_list space_list)
    then tk_batch_decode first_skip first_space ids_list
    else foldl (fun acc g => scatter g.2 (tk_batch_decode g.1.1 g.1.2 (select g.2 ids_list)) acc)
           (replicate (length ids_list) []) (group_rows (zip skip_list space_list)).

Definition non_empty (ids : list Z) : bool := negb (length ids =? 0).

Definition grouped_batch_decode (ids_list : list (list Z)) (skip_list space_list : list bool) : list text :=
  let n := length ids_list in
  if (n =? 0) then [] else
  if forallb non_empty ids_list then decode_rows ids_list skip_list space_list
  else
    let keep_idx := List.filter (fun i => non_empty (ids_list !!! i)) (seq 0 n) in
    if (length keep_idx =? 0) then replicate n []
    else scatter keep_idx (decode_rows (select keep_idx ids_list) (select keep_idx skip_list) (select keep_idx space_list))
           (replicate n []).

(** ** The handler *)

Record Row := mkRow {
  r_rid : string;
  r_finished : option FinishJson;
  r_decoded_text : text;
  r_decode_ids : list Z;
  r_read_offset : nat;
  r_skip : bool;
  r_space : bool;
  r_no_stop_trim : bool;
}.

Record DetokArgs := mkDetok {
  dt_capacity : nat;
  disable_tokenizer_batch_decode : bool;
  is_tool_call_parser_gpt_oss : bool;
}.

Context (args : DetokArgs).

(** The state of the row's request with the new ids. *)
Definition row_status (row : Row) (d : status_dict) : DecodeStatus :=
  match dict_get (r_rid row) d with
  | None => new_status (r_decoded_text row) (r_decode_ids row) (r_read_offset row)
  | Some s => extend_ids (r_decode_ids row) s
  end.

Definition store_status (row : Row) (s : DecodeStatus) (d : status_dict) : res status_dict :=
  match dict_get (r_rid row) d with
  | None => limited_set (dt_capacity args) (r_rid row) s d
  | Some _ => Ok (dict_set (r_rid row) s d)
  end.

(** The first loop: the dictionary, [read_ids] and [surr_ids]. *)
Fixpoint init_rows (rows : list Row) (d : status_dict) : res (status_dict * list (list Z) * list (list Z)) :=
  match rows with
  | [] => Ok (d, [], [])
  | row :: rows =>
      let s := row_status row d in
      d ← store_status row s d;
      read ← trim_matched_ids (is_tool_call_parser_gpt_oss args) (drop (surr_offset s) (decode_ids s)) (r_finished row) (r_no_stop_trim row);
      '(d, reads, surrs) ← init_rows rows d;
      Ok (d, read :: reads, slice (surr_offset s) (read_offset s) (decode_ids s) :: surrs)
  end.

Definition decode_all (ids_list : list (list Z)) (skip_list space_list : list bool) : list text :=
  if disable_tokenizer_batch_decode args
  then zip_with (fun ids x => tk_decode_with x.1 x.2 ids) ids_list (zip skip_list space_list)
  else grouped_batch_decode ids_list skip_list space_list.

(** A streaming step with the text decoded after the surrogate window. *)
Definition stream_step (new_text : text) (s : DecodeStatus) : DecodeStatus * text :=
  let pending := (Z.of_nat (sent_offset s) - Z.of_nat (decoded_text_len s))%Z in
  let skip t := if (pending =? 0)%Z then t else py_from pending t in
  if negb (length new_text =? 0) && negb (ends_with REPLACEMENT new_text) then
    let s := append_decoded_text new_text s in
    (set_offsets (read_offset s) (length (decode_ids s)) (decoded_text_len s) s, skip new_text)
  else
    let printable := find_printable_text new_text in
    (set_offsets (surr_offset s) (read_offset s) (decoded_text_len s + length printable) s, skip printable).

(** The last step of a request. *)
Definition finish_step (new_text : text) (reason : option FinishJson) (no_stop_trim : bool) (s : DecodeStatus) : text :=
  let '(s, t) := get_decoded_text s in
  drop (sent_offset s) (trim_matched_str (t ++ new_text) reason no_stop_trim).

Definition emit_row (row : Row) (surr_text read_text : text) (d : status_dict) : res (status_dict * text) :=
  s ← or_raise RuntimeError (dict_get (r_rid row) d);
  let new_text := drop (length surr_text) read_text in
  match r_finished row with
  | None => let '(s, out) := stream_step new_text s in Ok (dict_set (r_rid row) s d, out)
  | Some _ => Ok (dict_pop (r_rid row) d, finish_step new_text (r_finished row) (r_no_stop_trim row) s)
  end.

(** The second loop. *)
Fixpoint emit_rows (rows : list Row) (surr_texts read_texts : list text) (d : status_dict) : res (status_dict * list text) :=
  match rows with
  | [] => Ok (d, [])
  | row :: rows =>
      surr ← or_raise IndexError (head surr_texts);
      read ← or_raise IndexError (head read_texts);
      '(d, out) ← emit_row row surr read d;
      '(d, outs) ← emit_rows rows (tail surr_texts) (tail read_texts) d;
      Ok (d, out :: outs)
  end.

Definition decode_batch_token_id_output (rows : list Row) (d : status_dict) : res (status_dict * list text) :=
  '(d, read_ids, surr_ids) ← init_rows rows d;
  let surr_texts := decode_all surr_ids (r_skip <$> rows) (r_space <$> rows) in
  let read_texts := decode_all read_ids (r_skip <$> rows) (r_space <$> rows) in
  emit_rows rows surr_texts read_texts d.

Definition handle_batch_token_id_out (rows : list Row) (d : status_dict) : res (status_dict * list text) :=
  if (length rows =? 0) then Ok (d, []) else decode_batch_token_id_output rows d.

End with_tokenizer.
