(* ===== verification/DetokenizerSpec.v ===== *)
(** * DetokenizerSpec: the detokenizer request by request

    The interface of the tokenizer the proofs rely on, the row-by-row reference
    of the grouped decoding, and the machine of a single request that the
    batched handler refines. *)

From S2P Require Import Prelude Text Detokenizer.

Open Scope nat_scope.

(** A batch is decoded row by row, and no tokens are no text. *)
Class TokenizerLaws `{Tokenizer} := {
  tk_batch_rows skip space l : tk_batch_decode skip space l = tk_decode_with skip space <$> l;
  tk_with_nil skip space : tk_decode_with skip space [] = [];
  tk_decode_nil : tk_decode [] = [];
}.

Lemma Forall2_impl_in {A B} (P Q : A -> B -> Prop) l k : Forall2 P l k -> (forall x y, x ∈ l -> P x y -> Q x y) -> Forall2 Q l k.
Proof. intros HF HQ. induction HF as [|x y l k Hxy _ IH]; constructor; [apply HQ; [by left|done]|]. apply IH. intros. apply HQ; [by right|done]. Qed.

(** ** Scattering *)

Lemma scatter_length idx ts acc : length (scatter idx ts acc) = length acc.
Proof.
  unfold scatter. generalize (zip idx ts) as l. intros l. revert acc. induction l as [|[i t] l IH]; intros acc; simpl; [done|].
  by rewrite IH, length_insert.
Qed.

(** Values that depend on the index only may be written in any order. *)
Lemma scatter_lookup (f : nat -> text) idx acc i :
  scatter idx (f <$> idx) acc !! i = if decide (i ∈ idx /\ i < length acc) then Some (f i) else acc !! i.
Proof.
  unfold scatter. revert acc. induction idx as [|j idx IH]; intros acc.
  { rewrite decide_False; [done|]. intros [Hin _]. by apply elem_of_nil in Hin. }
  cbn [fmap list_fmap zip zip_with foldl fst snd]. rewrite IH, length_insert. destruct (decide (i = j)) as [->|Hne].
  - destruct (decide (j < length acc)) as [Hl|Hl].
    + rewrite (decide_True (P := j ∈ j :: idx /\ _)) by (split; [left|done]).
      destruct (decide (j ∈ idx /\ j < length acc)); [reflexivity|]. by rewrite list_lookup_insert_eq.
    + rewrite !decide_False by tauto. by rewrite list_insert_ge by lia.
  - rewrite list_lookup_insert_ne by done. apply decide_ext. rewrite elem_of_cons. tauto.
Qed.

Lemma scatter_covers (f : nat -> text) idx acc n :
  length acc = n -> (forall i, i < n -> i ∉ idx -> acc !! i = Some (f i)) -> scatter idx (f <$> idx) acc = f <$> seq 0 n.
Proof.
  intros Hn Hacc. apply list_eq_same_length with n; [by rewrite length_fmap, length_seq|by rewrite scatter_length|].
  intros i x y Hi. rewrite scatter_lookup, list_lookup_fmap, lookup_seq_lt by done. simpl. intros Hx Hy.
  simplify_eq. case_decide as Hd; [by simplify_eq|]. rewrite Hacc in Hx; [by simplify_eq|done|]. intros Hin. apply Hd. by split.
Qed.

Lemma select_all {A} `{Inhabited A} (l : list A) : select (seq 0 (length l)) l = l.
Proof.
  apply list_eq. intros i. unfold select. rewrite list_lookup_fmap. destruct (decide (i < length l)) as [Hi|Hi].
  - rewrite lookup_seq_lt by done. simpl. by rewrite list_lookup_lookup_total_lt.
  - rewrite lookup_seq_ge, (lookup_ge_None_2 l) by lia. done.
Qed.

Lemma lookup_zip_total {A B} `{Inhabited A} `{Inhabited B} (l : list A) (k : list B) i :
  i < length l -> i < length k -> zip l k !! i = Some (l !!! i, k !!! i).
Proof. intros Hl Hk. rewrite lookup_zip_with, !list_lookup_lookup_total_lt by done. done. Qed.

(** ** Groups *)

Definition member (g : list (bool * bool * list nat)) (i : nat) : Prop := exists k l, (k, l) ∈ g /\ i ∈ l.

Record groups_ok (f : nat -> bool * bool) (n : nat) (g : list (bool * bool * list nat)) : Prop := {
  go_keys : NoDup g.*1;
  go_flags : forall k l i, (k, l) ∈ g -> i ∈ l -> i < n /\ f i = k;
  go_all : forall i, i < n -> member g i;
}.

Lemma dict_set_elem {K V} `{EqDecision K} (k k' : K) (v v' : V) d :
  NoDup d.*1 -> (k', v') ∈ dict_set k v d <-> (k' = k /\ v' = v) \/ (k' <> k /\ (k', v') ∈ d).
Proof.
  induction d as [|[k1 v1] d IH]; simpl; intros Hnd; [set_solver|]. apply NoDup_cons in Hnd as [Hni Hnd].
  assert (forall x, (k1, x) ∉ d) as Hni' by (intros x Hx; apply Hni; apply list_elem_of_fmap; by exists (k1, x)).
  case_decide as Hk.
  - subst k1. rewrite elem_of_cons. split.
    + intros [Hx|Hx]; [left; by simplify_eq|]. destruct (decide (k' = k)) as [->|]; [by destruct (Hni' v')|]. right. set_solver.
    + intros [[-> ->]|[Hne Hx] ]; [by left|]. right. set_solver.
  - rewrite !elem_of_cons, (IH Hnd). split.
    + intros [Hx|[[-> ->]|[Hne Hx] ] ]; [simplify_eq; right; split; [done|by left]|by left|right; split; [done|by right] ].
    + intros [[-> ->]|[Hne [Hx|Hx] ] ]; [right; by left|by left|right; right; by split].
Qed.

Lemma group_step f n g : groups_ok f n g -> groups_ok f (S n) (dict_set (f n) (default [] (dict_get (f n) g) ++ [n]) g).
Proof.
  intros [Hk Hf Ha]. set (old := default [] (dict_get (f n) g)).
  assert (Hold : forall i, i ∈ old -> i < n /\ f i = f n).
  { intros i Hi. unfold old in Hi. destruct (dict_get (f n) g) as [l|] eqn:E; simpl in Hi; [|set_solver].
    apply (Hf _ l); [by apply dict_get_in|done]. }
  split.
  - by apply dict_set_NoDup.
  - intros k l i Hin Hi. apply dict_set_elem in Hin as [[-> ->]|[Hne Hin] ]; [| |done].
    + apply elem_of_app in Hi as [Hi|Hi]; [destruct (Hold i Hi); split; [lia|done]|].
      apply list_elem_of_singleton in Hi as ->. split; [lia|done].
    + destruct (Hf k l i Hin Hi). split; [lia|done].
  - intros i Hi. assert (i = n \/ i < n) as [->|Hlt] by lia.
    + exists (f n), (old ++ [n]). split; [apply dict_set_elem; [done|by left]|set_solver].
    + destruct (Ha i Hlt) as (k & l & Hin & Hil). destruct (decide (k = f n)) as [->|Hne].
      * exists (f n), (old ++ [n]). split; [apply dict_set_elem; [done|by left]|]. apply elem_of_app. left.
        unfold old. by rewrite (dict_in_get _ _ _ Hk Hin).
      * exists k, l. split; [|done]. apply dict_set_elem; [done|]. by right.
Qed.

Lemma group_rows_ok flags : groups_ok (fun i => flags !!! i) (length flags) (group_rows flags).
Proof.
  induction flags as [|x flags IH] using rev_ind; [by split; [constructor|set_solver|simpl; lia]|].
  unfold group_rows. rewrite imap_app, foldl_app. simpl. rewrite length_app, Nat.add_comm, Nat.add_0_r. simpl.
  fold (group_rows flags). set (f i := (flags ++ [x]) !!! i).
  assert (f (length flags) = x) as Hx by (unfold f; by rewrite lookup_total_app_r, Nat.sub_diag by lia).
  assert (groups_ok f (length flags) (group_rows flags)) as Hg.
  { destruct IH as [Hk Hf Ha]. split; [done| |done]. intros k l i Hin Hi. destruct (Hf k l i Hin Hi) as [Hb Hfi].
    split; [done|]. unfold f. by rewrite lookup_total_app_l. }
  apply group_step in Hg. by rewrite Hx in Hg.
Qed.

Section laws.
Context `{TokenizerLaws}.

(** What decoding one row means. *)
Definition decode_row (skip space : bool) (ids : list Z) : text :=
  if tk_is_fast then tk_decode_with skip space ids else decode_without_hf_kwargs ids skip.

Definition rowwise (ids_list : list (list Z)) (skip_list space_list : list bool) : list text :=
  zip_with (fun ids x => decode_row x.1 x.2 ids) ids_list (zip skip_list space_list).

Lemma decode_row_nil skip space : decode_row skip space [] = [].
Proof.
  unfold decode_row, decode_without_hf_kwargs. destruct tk_is_fast; [apply tk_with_nil|].
  destruct skip, tk_special_ids; apply tk_decode_nil.
Qed.

(** Row [i] of the reference. *)
Definition row_text (ids_list : list (list Z)) (skip_list space_list : list bool) (i : nat) : text :=
  decode_row (skip_list !!! i) (space_list !!! i) (ids_list !!! i).

Lemma rowwise_seq ids_list skip_list space_list :
  length skip_list = length ids_list -> length space_list = length ids_list ->
  rowwise ids_list skip_list space_list = row_text ids_list skip_list space_list <$> seq 0 (length ids_list).
Proof.
  intros H1 H2. apply list_eq. intros i. unfold rowwise. rewrite lookup_zip_with, list_lookup_fmap.
  destruct (decide (i < length ids_list)) as [Hi|Hi].
  - rewrite lookup_seq_lt by done. rewrite lookup_zip_total by lia. by rewrite list_lookup_lookup_total_lt.
  - rewrite lookup_seq_ge, (lookup_ge_None_2 ids_list) by lia. done.
Qed.

Lemma fold_groups ids_list (flags : list (bool * bool)) n g acc :
  tk_is_fast = true -> (forall k l i, (k, l) ∈ g -> i ∈ l -> i < n /\ flags !!! i = k) -> length acc = n ->
  let f i := tk_decode_with (flags !!! i).1 (flags !!! i).2 (ids_list !!! i) in
  forall i, i < n -> (member g i \/ acc !! i = Some (f i)) ->
  foldl (fun acc g => scatter g.2 (tk_batch_decode g.1.1 g.1.2 (select g.2 ids_list)) acc) acc g !! i = Some (f i).
Proof.
  intros Hfast Hg Hacc f i Hi. revert acc Hacc. induction g as [|[k l] g IH]; intros acc Hacc Hm; simpl.
  - destruct Hm as [(k & l & Hin & _)|Hm]; [set_solver|done].
  - assert (tk_batch_decode k.1 k.2 (select l ids_list) = f <$> l) as ->.
    { rewrite tk_batch_rows. unfold select. rewrite <- list_fmap_compose. apply list_fmap_ext. intros j x Hj. simpl.
      unfold f. destruct (Hg k l x) as [_ ->]; [by left|by eapply list_elem_of_lookup_2|done]. }
    apply IH.
    + intros k' l' j Hin. apply Hg. by right.
    + by rewrite scatter_length.
    + destruct Hm as [(k' & l' & Hin & Hil)|Hm].
      * apply elem_of_cons in Hin as [Heq|Hin]; [|left; by exists k', l'].
        simplify_eq. right. rewrite scatter_lookup. by rewrite decide_True by (split; [done|lia]).
      * right. rewrite scatter_lookup. by case_decide.
Qed.

Lemma decode_rows_rowwise ids_list skip_list space_list :
  length skip_list = length ids_list -> length space_list = length ids_list ->
  decode_rows ids_list skip_list space_list = rowwise ids_list skip_list space_list.
Proof.
  intros H1 H2. unfold decode_rows. destruct tk_is_fast eqn:Ef; simpl.
  - destruct (forallb _ _) eqn:Ea.
    + rewrite tk_batch_rows, rowwise_seq by done. rewrite <- (select_all ids_list) at 1. unfold select.
      rewrite <- list_fmap_compose. apply list_fmap_ext. intros i x Hx. apply lookup_seq in Hx as [-> Hi]. simpl.
      unfold row_text, decode_row. rewrite Ef. rewrite forallb_forall in Ea.
      destruct (andb_true_iff (Bool.eqb (skip_list !!! i) (skip_list !!! 0)) (Bool.eqb (space_list !!! i) (space_list !!! 0))) as [Hb _].
      destruct Hb as [Hs Hp].
      * apply (Ea (skip_list !!! i, space_list !!! i)). apply list_elem_of_In. eapply list_elem_of_lookup_2 with i.
        apply lookup_zip_total; lia.
      * apply Bool.eqb_prop in Hs as ->. by apply Bool.eqb_prop in Hp as ->.
    + rewrite rowwise_seq by done. pose proof (group_rows_ok (zip skip_list space_list)) as [_ Hf Ha].
      rewrite length_zip, H1, H2, Nat.min_id in Hf, Ha. apply list_eq. intros i. rewrite list_lookup_fmap.
      destruct (decide (i < length ids_list)) as [Hi|Hi].
      * assert (zip skip_list space_list !!! i = (skip_list !!! i, space_list !!! i)) as Hz
          by (apply list_lookup_total_correct, lookup_zip_total; lia).
        rewrite (fold_groups ids_list (zip skip_list space_list) (length ids_list));
          [|done|done|by rewrite length_replicate|done|by left; apply Ha].
        rewrite lookup_seq_lt by done. rewrite Hz. unfold row_text, decode_row. by rewrite Ef.
      * rewrite lookup_seq_ge by lia. simpl. apply lookup_ge_None_2.
        assert (forall g acc, length (foldl (fun acc g => scatter g.2 (tk_batch_decode g.1.1 g.1.2 (select g.2 ids_list)) acc) acc g) = length acc) as ->.
        { intros g. induction g as [|x g IH]; intros acc; simpl; [done|]. by rewrite IH, scatter_length. }
        rewrite length_replicate. lia.
  - unfold rowwise, decode_row. rewrite Ef. clear Ef. revert skip_list space_list H1 H2.
    induction ids_list as [|x l IH]; intros [|a s1] [|b s2]; simpl; intros; try done. f_equal. apply IH; lia.
Qed.

Lemma rowwise_select keep ids_list skip_list space_list :
  rowwise (select keep ids_list) (select keep skip_list) (select keep space_list) = row_text ids_list skip_list space_list <$> keep.
Proof. unfold rowwise, select. induction keep as [|i keep IH]; [done|]. simpl. f_equal. exact IH. Qed.

Lemma length_select {A} `{Inhabited A} keep (l : list A) : length (select keep l) = length keep.
Proof. apply length_fmap. Qed.

Lemma empty_row_text ids_list skip_list space_list i :
  non_empty (ids_list !!! i) = false -> row_text ids_list skip_list space_list i = [].
Proof.
  unfold non_empty, row_text. intros Hi. destruct (ids_list !!! i) as [|x l]; [|done]. apply decode_row_nil.
Qed.

(** The grouped decoding decodes row by row. *)
Lemma grouped_run ids_list skip_list space_list :
  length skip_list = length ids_list -> length space_list = length ids_list ->
  grouped_batch_decode ids_list skip_list space_list = rowwise ids_list skip_list space_list.
Proof.
  intros H1 H2. unfold grouped_batch_decode. destruct (Nat.eqb_spec (length ids_list) 0) as [E|E].
  { by destruct ids_list. }
  destruct (forallb non_empty ids_list); [by apply decode_rows_rowwise|].
  set (keep := List.filter _ _).
  assert (Hk : forall i, i < length ids_list -> i ∉ keep -> replicate (length ids_list) ([] : text) !! i = Some (row_text ids_list skip_list space_list i)).
  { intros i Hi Hni. rewrite lookup_replicate_2 by done. rewrite empty_row_text; [done|].
    apply not_true_is_false. intros Hne. apply Hni. apply list_elem_of_In, filter_In. split; [|done]. apply in_seq. lia. }
  rewrite (rowwise_seq ids_list skip_list space_list) by done.
  rewrite <- (scatter_covers _ keep (replicate (length ids_list) [])) by (done || apply length_replicate).
  destruct (Nat.eqb_spec (length keep) 0) as [E0|E0]; [by destruct keep|].
  by rewrite decode_rows_rowwise, rowwise_select by (by rewrite !length_select).
Qed.

(** ** One request at a time *)

Context (args : DetokArgs).

(** The decoder the handler uses for a row. *)
Definition row_decode (row : Row) (ids : list Z) : text :=
  if disable_tokenizer_batch_decode args then tk_decode_with (r_skip row) (r_space row) ids
  else decode_row (r_skip row) (r_space row) ids.

Definition open_status (row : Row) (s : option DecodeStatus) : DecodeStatus :=
  match s with
  | None => new_status (r_decoded_text row) (r_decode_ids row) (r_read_offset row)
  | Some s => extend_ids (r_decode_ids row) s
  end.

(** The machine of one request: the state before, if any, and a row. *)
Definition req_step (row : Row) (s : option DecodeStatus) : res (option DecodeStatus * text) :=
  let s := open_status row s in
  read ← trim_matched_ids (is_tool_call_parser_gpt_oss args) (drop (surr_offset s) (decode_ids s)) (r_finished row) (r_no_stop_trim row);
  let surr := slice (surr_offset s) (read_offset s) (decode_ids s) in
  let new_text := drop (length (row_decode row surr)) (row_decode row read) in
  match r_finished row with
  | None => let '(s, out) := stream_step new_text s in Ok (Some s, out)
  | Some _ => Ok (None, finish_step new_text (r_finished row) (r_no_stop_trim row) s)
  end.

Lemma decode_all_run ids_list (rows : list Row) :
  length ids_list = length rows ->
  decode_all args ids_list (r_skip <$> rows) (r_space <$> rows) = zip_with row_decode rows ids_list.
Proof.
  intros Hl. unfold decode_all, row_decode. destruct (disable_tokenizer_batch_decode args).
  - revert ids_list Hl. induction rows as [|r rows IH]; intros [|x l]; simpl; intros; try done. f_equal. apply IH. lia.
  - rewrite grouped_run by (by rewrite length_fmap). unfold rowwise.
    revert ids_list Hl. induction rows as [|r rows IH]; intros [|x l]; simpl; intros; try done. f_equal. apply IH. lia.
Qed.

(** The surrogate window of a row's request. *)
Definition row_surr (d : status_dict) (row : Row) : list Z :=
  let s := open_status row (dict_get (r_rid row) d) in slice (surr_offset s) (read_offset s) (decode_ids s).

(** Trimming succeeds with [read]. *)
Definition row_read (d : status_dict) (row : Row) (read : list Z) : Prop :=
  let s := open_status row (dict_get (r_rid row) d) in
  trim_matched_ids (is_tool_call_parser_gpt_oss args) (drop (surr_offset s) (decode_ids s)) (r_finished row) (r_no_stop_trim row) = Ok read.

Lemma store_status_run row s d :
  NoDup d.*1 -> length d < dt_capacity args ->
  exists d', store_status args row s d = Ok d' /\ NoDup d'.*1 /\ length d' <= S (length d) /\
    dict_get (r_rid row) d' = Some s /\ (forall k, k <> r_rid row -> dict_get k d' = dict_get k d).
Proof.
  intros Hnd Hl. exists (dict_set (r_rid row) s d). split.
  - unfold store_status, limited_set. destruct (dict_get _ d); [done|].
    assert ((dt_capacity args <=? length d) = false) as -> by (apply Nat.leb_gt; lia). done.
  - split; [by apply dict_set_NoDup|]. split.
    + rewrite <- (length_fmap fst), dict_set_keys. case_decide; [|rewrite length_app]; rewrite length_fmap; simpl; lia.
    + split; [|intros k Hk]; rewrite dict_get_set; [by rewrite decide_True|by rewrite decide_False].
Qed.

Lemma init_rows_run rows d reads :
  NoDup (r_rid <$> rows) -> NoDup d.*1 -> length d + length rows <= dt_capacity args -> Forall2 (row_read d) rows reads ->
  exists d', init_rows args rows d = Ok (d', reads, row_surr d <$> rows) /\ NoDup d'.*1 /\
    (forall row, row ∈ rows -> dict_get (r_rid row) d' = Some (open_status row (dict_get (r_rid row) d))) /\
    (forall k, k ∉ r_rid <$> rows -> dict_get k d' = dict_get k d).
Proof.
  revert d reads. induction rows as [|row rows IH]; intros d reads Hrid Hnd Hl HF.
  { inversion HF. exists d. split; [done|]. split; [done|]. split; [set_solver|done]. }
  apply Forall2_cons_inv_l in HF as (read & reads' & Hread & HF & ->). apply NoDup_cons in Hrid as [Hni Hrid].
  simpl in Hl. destruct (store_status_run row (row_status row d) d Hnd) as (d1 & E1 & Hnd1 & Hl1 & Hg1 & Ho1); [lia|].
  assert (Hsame : forall r, r ∈ rows -> dict_get (r_rid r) d1 = dict_get (r_rid r) d).
  { intros r Hr. apply Ho1. intros Heq. apply Hni. rewrite <- Heq. by apply list_elem_of_fmap_2. }
  destruct (IH d1 reads') as (d2 & E2 & Hnd2 & Hg2 & Ho2); [done|done|lia| |].
  { eapply Forall2_impl_in; [exact HF|]. intros r x Hr Hx. unfold row_read. by rewrite Hsame. }
  exists d2. change (row_status row d) with (open_status row (dict_get (r_rid row) d)) in *.
  cbn [init_rows]. change (row_status row d) with (open_status row (dict_get (r_rid row) d)).
  rewrite E1. simpl. unfold row_read in Hread. rewrite Hread. simpl.
  rewrite E2. simpl. split; [|split; [done|split] ].
  - assert (row_surr d1 <$> rows = row_surr d <$> rows) as ->; [|done].
    apply list_fmap_ext. intros i r Hr%list_elem_of_lookup_2. unfold row_surr. by rewrite Hsame.
  - intros r [->|Hr]%elem_of_cons; [|by rewrite (Hg2 r Hr), Hsame]. by rewrite Ho2.
  - intros k Hk. rewrite Ho2, Ho1; set_solver.
Qed.

(** Outcome of the second loop for one request. *)
Definition closed (row : Row) (s : DecodeStatus) (surr read : list Z) : option DecodeStatus * text :=
  let new_text := drop (length (row_decode row surr)) (row_decode row read) in
  match r_finished row with
  | None => let '(s, out) := stream_step new_text s in (Some s, out)
  | Some _ => (None, finish_step new_text (r_finished row) (r_no_stop_trim row) s)
  end.

Lemma req_step_closed row s read :
  trim_matched_ids (is_tool_call_parser_gpt_oss args) (drop (surr_offset (open_status row s)) (decode_ids (open_status row s)))
    (r_finished row) (r_no_stop_trim row) = Ok read ->
  req_step row s = Ok (closed row (open_status row s)
    (slice (surr_offset (open_status row s)) (read_offset (open_status row s)) (decode_ids (open_status row s))) read).
Proof. unfold req_step, closed. intros ->. simpl. destruct (r_finished row); [done|]. by destruct (stream_step _ _). Qed.

Lemma emit_row_run row s surr read d :
  NoDup d.*1 -> dict_get (r_rid row) d = Some s ->
  exists d', emit_row row (row_decode row surr) (row_decode row read) d = Ok (d', (closed row s surr read).2) /\
    NoDup d'.*1 /\ dict_get (r_rid row) d' = (closed row s surr read).1 /\
    (forall k, k <> r_rid row -> dict_get k d' = dict_get k d).
Proof.
  intros Hnd Hs. unfold emit_row, closed. rewrite Hs. simpl. destruct (r_finished row).
  - eexists. split; [done|]. split; [by apply dict_pop_NoDup|].
    split; [|intros k Hk]; rewrite dict_get_pop; [by rewrite decide_True|by rewrite decide_False].
  - destruct (stream_step _ s) as [s' out]. eexists. split; [done|]. split; [by apply dict_set_NoDup|].
    split; [|intros k Hk]; rewrite dict_get_set; [by rewrite decide_True|by rewrite decide_False].
Qed.

Lemma emit_rows_run rows (st : Row -> DecodeStatus) surrs reads d :
  NoDup (r_rid <$> rows) -> NoDup d.*1 -> (forall row, row ∈ rows -> dict_get (r_rid row) d = Some (st row)) ->
  length surrs = length rows -> length reads = length rows ->
  let xs := zip_with (fun row x => closed row (st row) x.1 x.2) rows (zip surrs reads) in
  exists d', emit_rows rows (zip_with row_decode rows surrs) (zip_with row_decode rows reads) d = Ok (d', xs.*2) /\
    NoDup d'.*1 /\ Forall2 (fun row x => dict_get (r_rid row) d' = x.1) rows xs /\
    (forall k, k ∉ r_rid <$> rows -> dict_get k d' = dict_get k d).
Proof.
  revert surrs reads d. induction rows as [|row rows IH]; intros [|u surrs] [|v reads] d Hrid Hnd Hst Hl1 Hl2; try done.
  { exists d. by repeat split. }
  apply NoDup_cons in Hrid as [Hni Hrid]. cbn [zip_with zip head tail emit_rows or_raise mbind res_bind fst snd].
  destruct (emit_row_run row (st row) u v d Hnd) as (d1 & E1 & Hnd1 & Hg1 & Ho1); [apply Hst; by left|].
  rewrite E1. bind_step.
  destruct (IH surrs reads d1) as (d2 & E2 & Hnd2 & HF2 & Ho2); [done|done| |simpl in *; lia|simpl in *; lia|].
  { intros r Hr. rewrite Ho1; [apply Hst; by right|]. intros Heq. apply Hni. rewrite <- Heq. by apply list_elem_of_fmap_2. }
  rewrite E2. exists d2. split; [done|]. split; [done|]. split.
  - constructor; [|done]. by rewrite Ho2.
  - intros k Hk. rewrite Ho2, Ho1; set_solver.
Qed.

Lemma steps_reads d rows xs :
  Forall2 (fun row x => req_step row (dict_get (r_rid row) d) = Ok x) rows xs ->
  exists reads, Forall2 (row_read d) rows reads /\
    xs = zip_with (fun row x => closed row (open_status row (dict_get (r_rid row) d)) x.1 x.2) rows (zip (row_surr d <$> rows) reads).
Proof.
  induction 1 as [|row x rows xs Hx _ (reads & HF & ->)]; [by exists []|].
  assert (exists read, row_read d row read) as [read Hread].
  { unfold row_read. unfold req_step in Hx. destruct (trim_matched_ids _ _ _ _) as [r|]; [by exists r|done]. }
  exists (read :: reads). split; [by constructor|]. simpl. f_equal. rewrite (req_step_closed _ _ _ Hread) in Hx. by injection Hx as <-.
Qed.

(** The handler on a batch of distinct requests that fit into the dictionary
    does to each request what its own machine does. *)
Lemma batch_run rows d xs :
  NoDup (r_rid <$> rows) -> NoDup d.*1 -> length d + length rows <= dt_capacity args ->
  Forall2 (fun row x => req_step row (dict_get (r_rid row) d) = Ok x) rows xs ->
  exists d', handle_batch_token_id_out args rows d = Ok (d', xs.*2) /\ NoDup d'.*1 /\
    Forall2 (fun row x => dict_get (r_rid row) d' = x.1) rows xs /\
    (forall k, k ∉ r_rid <$> rows -> dict_get k d' = dict_get k d).
Proof.
  intros Hrid Hnd Hl HF. unfold handle_batch_token_id_out. destruct (Nat.eqb_spec (length rows) 0) as [E|E].
  { destruct rows; [|done]. inversion HF. exists d. repeat split; try done. }
  destruct (steps_reads d rows xs HF) as (reads & HR & ->). pose proof (Forall2_length _ _ _ HR) as HRl.
  destruct (init_rows_run rows d reads Hrid Hnd Hl HR) as (d1 & E1 & Hnd1 & Hg1 & Ho1).
  unfold decode_batch_token_id_output. rewrite E1. bind_step.
  rewrite !decode_all_run by (rewrite ?length_fmap; done).
  destruct (emit_rows_run rows (fun row => open_status row (dict_get (r_rid row) d)) (row_surr d <$> rows) reads d1)
    as (d2 & E2 & Hnd2 & HF2 & Ho2); [done|done|done|by rewrite length_fmap|done|].
  rewrite E2. exists d2. split; [done|]. split; [done|]. split; [done|]. intros k Hk. by rewrite Ho2, Ho1.
Qed.

End laws.
