(* ===== verification/DetokStream.v ===== *)
(** * DetokStream: the text streamed for one request

    What the incremental output of the detokenizer adds up to.  The reference
    is the text of all tokens, decoded at once, after the text of the prompt
    tokens that come with the first row.  The decoder is assumed to be
    incremental in the sense of [IncrementalDecoder]. *)

From S2P Require Import Prelude Text Detokenizer DetokenizerSpec.

Open Scope nat_scope.

(** ** Text without trailing replacement characters *)

Fixpoint strip (t : text) : text :=
  match t with
  | [] => []
  | x :: t => if (length (strip t) =? 0) && (x =? REPLACEMENT)%Z then [] else x :: strip t
  end.

Lemma strip_prefix t : strip t `prefix_of` t.
Proof.
  induction t as [|x t IH]; simpl; [done|]. destruct (_ && _); [apply prefix_nil|]. by apply prefix_cons.
Qed.

Lemma ends_with_app c t u : u <> [] -> ends_with c (t ++ u) = ends_with c u.
Proof. intros Hu. unfold ends_with. destruct u as [|x u _] using rev_ind; [done|]. by rewrite app_assoc, !last_snoc. Qed.

Lemma ends_with_cons c x t : t <> [] -> ends_with c (x :: t) = ends_with c t.
Proof. apply (ends_with_app c [x]). Qed.

Lemma strip_clean t : ends_with REPLACEMENT (strip t) = false.
Proof.
  induction t as [|x t IH]; [done|]. simpl. destruct (strip t) as [|y l] eqn:E; simpl.
  - unfold ends_with. by destruct (x =? REPLACEMENT)%Z eqn:Ex; simpl; rewrite ?Ex.
  - by rewrite ends_with_cons.
Qed.

Lemma prefix_strip p t : p `prefix_of` t -> ends_with REPLACEMENT p = false -> p `prefix_of` strip t.
Proof.
  revert p. induction t as [|x t IH]; intros p Hp Hc; [done|]. destruct p as [|y p]; [apply prefix_nil|].
  pose proof (prefix_cons_inv_1 _ _ _ _ Hp) as ->. apply prefix_cons_inv_2 in Hp. destruct (decide (p = [])) as [->|Hne].
  - simpl. unfold ends_with in Hc. simpl in Hc. rewrite Hc, andb_false_r. apply prefix_cons, prefix_nil.
  - rewrite ends_with_cons in Hc by done. specialize (IH p Hp Hc). simpl.
    destruct (strip t) as [|z l]; [by apply prefix_nil_inv in IH|]. simpl. by apply prefix_cons.
Qed.

Lemma strip_id t : ends_with REPLACEMENT t = false -> strip t = t.
Proof. intros Ht. apply prefix_length_eq; [apply strip_prefix|]. by apply prefix_length, prefix_strip. Qed.

Lemma strip_drop k t : strip (drop k t) = drop k (strip t).
Proof.
  revert k. induction t as [|x t IH]; intros [|k]; try done. simpl. rewrite IH. destruct (strip t) as [|y l] eqn:E; simpl.
  - rewrite drop_nil. destruct (x =? REPLACEMENT)%Z; simpl; by rewrite ?drop_nil.
  - done.
Qed.

(** ** Printable text *)

Lemma after_last_le c t : after_last c t <= length t.
Proof. induction t as [|x t IH]; simpl; [done|]. destruct (Nat.ltb_spec 0 (after_last c t)); [lia|]. destruct (x =? c)%Z; lia. Qed.

Lemma after_last_char c t : 0 < after_last c t -> ends_with c (take (after_last c t) t) = true.
Proof.
  induction t as [|x t IH]; simpl; [lia|]. destruct (Nat.ltb_spec 0 (after_last c t)) as [Hl|Hl]; intros H0.
  - simpl. rewrite ends_with_cons; [by apply IH|]. intros E. apply (f_equal length) in E. rewrite length_take in E.
    pose proof (after_last_le c t). simpl in E. lia.
  - destruct (x =? c)%Z eqn:E; [|lia]. simpl. unfold ends_with. by rewrite take_0.
Qed.

Lemma ends_with_unique c c' t : ends_with c t = true -> c <> c' -> ends_with c' t = false.
Proof. unfold ends_with. destruct (last t); [|done]. intros ->%Z.eqb_eq Hne. by apply Z.eqb_neq. Qed.

(** A retry prints text that stays as it is when more tokens arrive. *)
Lemma printable_stable t : t = [] \/ ends_with REPLACEMENT t = true -> find_printable_text t `prefix_of` strip t.
Proof.
  intros [->|Ht]; [done|]. unfold find_printable_text. rewrite (ends_with_unique _ NEWLINE t Ht) by done.
  destruct t as [|x t _] using rev_ind; [done|]. unfold ends_with in Ht. rewrite last_snoc in Ht |- *.
  apply Z.eqb_eq in Ht as ->. replace (is_chinese (Some REPLACEMENT)) with false by done.
  destruct (is_chinese (penultimate (t ++ [REPLACEMENT]))) eqn:Ep.
  - rewrite length_app, Nat.add_sub, take_app_length. apply prefix_strip; [by exists [REPLACEMENT]|].
    unfold penultimate in Ep. rewrite length_app in Ep. simpl in Ep.
    destruct t as [|y t _] using rev_ind; [done|]. unfold ends_with. rewrite last_snoc. rewrite length_app in Ep. simpl in Ep.
    rewrite (proj2 (Nat.ltb_lt _ _)) in Ep by lia. replace (length t + 1 + 1 - 2) with (length t) in Ep by lia.
    rewrite lookup_app_l, lookup_app_r, Nat.sub_diag in Ep by (rewrite ?length_app; simpl; lia). simpl in Ep.
    destruct (Z.eqb_spec y REPLACEMENT) as [->|]; done.
  - set (t' := t ++ [REPLACEMENT]). destruct (decide (after_last SPACE t' = 0)) as [->|Hn]; [apply prefix_nil|].
    apply prefix_strip; [apply prefix_take|]. apply ends_with_unique with SPACE; [|done]. apply after_last_char. lia.
Qed.

(** ** Trimming *)

Lemma trim_str_prefix t reason nst : trim_matched_str t reason nst `prefix_of` t.
Proof.
  unfold trim_matched_str. destruct (reason ≫= j_matched) as [[| |m]|]; try done. destruct (falsy _); [done|].
  destruct (py_find m t); [apply prefix_take|done].
Qed.

Lemma last_drop {A} q (l : list A) : q < length l -> last (drop q l) = last l.
Proof.
  intros Hq. rewrite <- (take_drop q l) at 2. assert (drop q l <> []) as Hne.
  { intros E. apply (f_equal length) in E. rewrite length_drop in E. simpl in E. lia. }
  destruct (drop q l) as [|x k _] using rev_ind; [done|]. by rewrite app_assoc, !last_snoc.
Qed.

(** Trimming keeps all tokens or drops the last one, also on a suffix. *)
Lemma trim_ids_drop oss ids reason nst q : q < length ids ->
  exists kept, trim_matched_ids oss ids reason nst = Ok kept /\ trim_matched_ids oss (drop q ids) reason nst = Ok (drop q kept) /\
    (kept = ids \/ kept = take (length ids - 1) ids).
Proof.
  intros Hq. unfold trim_matched_ids. destruct (reason ≫= j_matched) as [[z| |]|]; try (exists ids; by auto).
  destruct (falsy _), nst; try (exists ids; by auto). rewrite last_drop by done.
  destruct (last ids) as [x|] eqn:El; [|destruct ids; [simpl in Hq; lia|by rewrite last_None in El] ]. simpl.
  destruct (_ && _); [exists ids; by auto|]. rewrite !(proj2 (Nat.ltb_lt _ _)) by (rewrite ?length_drop; lia). simpl.
  exists (take (length ids - 1) ids). split; [done|]. split; [|by right]. f_equal. rewrite length_drop, skipn_firstn_comm.
  f_equal. lia.
Qed.

(** ** Cutting a list *)

Lemma take_slice {A} q r (l : list A) : q <= r -> take q l ++ slice q r l = take r l.
Proof. intros Hq. rewrite <- !slice_0. apply slice_split. lia. Qed.

Lemma slice_drop {A} q r (l : list A) : q <= r -> slice q r l ++ drop r l = drop q l.
Proof. intros Hq. unfold slice. rewrite <- (take_drop (r - q) (drop q l)) at 2. rewrite drop_drop. do 2 f_equal. lia. Qed.

Lemma slice_take {A} q r (l : list A) : slice q r l = drop q (take r l).
Proof. unfold slice. by rewrite skipn_firstn_comm. Qed.

(** ** Incremental decoders *)

(** A decoder that keeps what it has decoded except for trailing replacement
    characters, and for which a window of tokens [w] that has brought text, up
    to the end of a complete character, determines what follows.  Nothing is
    assumed of an empty window: decoders that treat the first token apart, as
    SentencePiece ones do with its leading space, are included. *)
Class IncrementalDecoder (D : list Z -> text) : Prop := {
  id_stable y x : strip (D y) `prefix_of` D (y ++ x);
  id_window p w x : length (D p) < length (D (p ++ w)) -> ends_with REPLACEMENT (D (p ++ w)) = false ->
    D (p ++ w ++ x) = D (p ++ w) ++ drop (length (D w)) (D (w ++ x));
}.

Section stream.
Context (D : list Z -> text) `{!IncrementalDecoder D}.
Implicit Types s : DecodeStatus.

(** The reference: the text of [ids] after the text of its first [r0] tokens. *)
Definition text_after (r0 : nat) (ids : list Z) : text := drop (length (D (take r0 ids))) (D ids).

(** The text the handler decodes after the surrogate window, [ids] being the
    tokens it looks at. *)
Definition window_text (s : DecodeStatus) (ids : list Z) : text :=
  drop (length (D (slice (surr_offset s) (read_offset s) ids))) (D (drop (surr_offset s) ids)).

Definition committed (s : DecodeStatus) : text := decoded_text s ++ concat (decoded_text_chunks s).

(** [E] has been sent: the committed text and [u], which later text repeats. *)
Record streamed (r0 : nat) (s : DecodeStatus) (E : text) : Prop := {
  sd_len : decoded_text_len s = length (committed s);
  sd_read : surr_offset s <= read_offset s /\ r0 <= read_offset s <= length (decode_ids s);
  sd_text : committed s = text_after r0 (take (read_offset s) (decode_ids s));
  sd_clean : (read_offset s = r0 /\ surr_offset s = 0 /\ committed s = []) \/
             (committed s <> [] /\ ends_with REPLACEMENT (D (take (read_offset s) (decode_ids s))) = false /\
              length (D (take (surr_offset s) (decode_ids s))) < length (D (take (read_offset s) (decode_ids s))));
  sd_sent : exists u, E = committed s ++ u /\ sent_offset s = length (committed s) + length u /\
              u `prefix_of` strip (window_text s (decode_ids s));
}.

Lemma streamed_new r0 ids : r0 <= length ids -> streamed r0 (new_status [] ids r0) [].
Proof.
  intros Hr. split; simpl; [done|lia| |by left|].
  - unfold text_after. rewrite take_take, Nat.min_id. by rewrite drop_ge.
  - exists []. split; [done|]. split; [done|]. apply prefix_nil.
Qed.

Lemma window_grows s x : read_offset s <= length (decode_ids s) -> surr_offset s <= read_offset s ->
  strip (window_text s (decode_ids s)) `prefix_of` strip (window_text s (decode_ids s ++ x)).
Proof.
  intros Hr Hs. unfold window_text. rewrite !strip_drop.
  assert (slice (surr_offset s) (read_offset s) (decode_ids s ++ x) = slice (surr_offset s) (read_offset s) (decode_ids s)) as ->.
  { unfold slice. rewrite drop_app_le by lia. rewrite take_app_le; [done|]. rewrite length_drop. lia. }
  apply prefix_drop. rewrite drop_app_le by lia. apply prefix_strip; [apply id_stable|apply strip_clean].
Qed.

Lemma streamed_extend r0 s E x : streamed r0 s E -> streamed r0 (extend_ids x s) E.
Proof.
  intros [Hl Hr Ht Hc (u & HE & Hs & Hu)]. split; simpl; [done| | | |].
  - rewrite length_app. lia.
  - change (committed (extend_ids x s)) with (committed s). by rewrite take_app_le by lia.
  - change (committed (extend_ids x s)) with (committed s). by rewrite !take_app_le by lia.
  - exists u. split; [done|]. split; [done|]. etrans; [exact Hu|]. apply (window_grows s x); lia.
Qed.

(** The new text, whatever it is, continues the committed text. *)
Lemma window_continues r0 s E ids : streamed r0 s E -> read_offset s <= length ids ->
  take (read_offset s) ids = take (read_offset s) (decode_ids s) ->
  committed s ++ window_text s ids = text_after r0 ids.
Proof.
  intros [_ Hr Ht Hc _] Hl Htk. unfold window_text. destruct Hc as [(E1 & E2 & E3)|(Hne & Hcl & Hgrow)].
  - rewrite E3, E2, E1, slice_0, drop_0. done.
  - assert (Hq : take (surr_offset s) ids = take (surr_offset s) (decode_ids s)).
    { rewrite <- (Nat.min_l (surr_offset s) (read_offset s)) by lia. by rewrite <- !take_take, Htk. }
    rewrite <- Htk in Ht, Hcl. rewrite <- Htk, <- Hq in Hgrow. set (r := read_offset s) in *. set (q := surr_offset s) in *.
    assert (Hr0 : take r0 (take r ids) = take r0 ids) by (rewrite take_take; f_equal; lia).
    unfold text_after in *. rewrite Hr0 in Ht. set (k := length (D (take r0 ids))) in *.
    assert (k < length (D (take r ids))) as Hk.
    { apply Nat.nle_gt. intros Hle. rewrite drop_ge in Ht by done. done. }
    assert (D ids = D (take r ids) ++ drop (length (D (slice q r ids))) (D (drop q ids))) as ->.
    { rewrite <- (slice_drop q r ids), <- (take_slice q r ids) at 1 by lia.
      rewrite <- id_window; rewrite ?take_slice by lia; [by rewrite slice_drop, take_drop by lia|done|done]. }
    by rewrite drop_app_le, Ht by lia.
Qed.

(** What a step prints beyond what has been sent. *)
Lemma skip_sent s (u t : text) : decoded_text_len s = length (committed s) -> sent_offset s = length (committed s) + length u ->
  u `prefix_of` t ->
  let pending := (Z.of_nat (sent_offset s) - Z.of_nat (decoded_text_len s))%Z in
  u ++ (if (pending =? 0)%Z then t else py_from pending t) = t.
Proof.
  intros Hl Hs Hu pending. assert (pending = Z.of_nat (length u)) as -> by (unfold pending; lia).
  destruct (Z.eqb_spec (Z.of_nat (length u)) 0) as [E|E]; [by destruct u|]. unfold py_from.
  destruct (Z.ltb_spec (Z.of_nat (length u)) 0); [lia|]. rewrite Nat2Z.id. by apply prefix_drop_app.
Qed.

(** Tokens after the read offset that bring text make the whole text longer. *)
Lemma text_longer r0 s E new : streamed r0 s E -> new <> [] -> committed s ++ new = text_after r0 (decode_ids s) ->
  length (D (take (read_offset s) (decode_ids s))) < length (D (decode_ids s)).
Proof.
  intros [_ Hr Ht Hc _] Hn Hw. unfold text_after in *. rewrite take_take, Nat.min_l in Ht by lia.
  apply (f_equal length) in Ht, Hw. rewrite length_drop in Ht, Hw. rewrite length_app in Hw.
  assert (length new <> 0) by (by destruct new). destruct Hc as [(E1 & _ & E3)|(Hne & _)].
  - rewrite E1. lia.
  - assert (length (committed s) <> 0) by (by destruct (committed s)). lia.
Qed.

Lemma streamed_step r0 s E :
  streamed r0 s E -> let '(s', out) := stream_step (window_text s (decode_ids s)) s in
  sent_offset s <= sent_offset s' -> streamed r0 s' (E ++ out) /\ decode_ids s' = decode_ids s.
Proof.
  intros Hst. pose proof Hst as [Hl Hr Ht Hc (u & HE & Hs & Hu)].
  pose proof (window_continues r0 s E (decode_ids s) Hst) as Hw. specialize (Hw ltac:(lia) eq_refl).
  unfold stream_step. set (new := window_text s (decode_ids s)) in *.
  assert (Hun : u `prefix_of` new) by (etrans; [exact Hu|apply strip_prefix]).
  destruct (negb (length new =? 0) && negb (ends_with REPLACEMENT new)) eqn:Eb.
  - apply andb_true_iff in Eb as [En%negb_true_iff%Nat.eqb_neq Ec%negb_true_iff]. intros _.
    assert (append_decoded_text new s = mkStatus (decoded_text s) (decode_ids s) (surr_offset s) (read_offset s) (sent_offset s)
      (decoded_text_len s + length new) (decoded_text_chunks s ++ [new])) as ->.
    { unfold append_decoded_text. by rewrite (proj2 (Nat.eqb_neq _ _) En). }
    simpl. split; [|done]. set (s' := set_offsets _ _ _ _).
    assert (committed s' = committed s ++ new) as Hcs.
    { unfold committed. simpl. rewrite concat_app. simpl. by rewrite app_nil_r, app_assoc. }
    assert (new <> []) as Hnn by (by destruct new). split.
    + rewrite Hcs, length_app. simpl. lia.
    + simpl. lia.
    + simpl. by rewrite Hcs, Hw, take_ge by done.
    + right. rewrite Hcs. split; [by destruct (committed s)|]. simpl. rewrite (take_ge (decode_ids s) (length _)) by done.
      split; [|by apply (text_longer r0 s E new)].
      assert (exists z, D (decode_ids s) = z ++ new) as [z ->]; [|by rewrite ends_with_app].
      unfold text_after in Hw. rewrite <- (take_drop (length (D (take r0 (decode_ids s)))) (D (decode_ids s))), <- Hw.
      eexists. apply app_assoc.
    + exists []. rewrite Hcs, app_nil_r, HE, <- app_assoc. split; [f_equal; by apply skip_sent|].
      split; [|apply prefix_nil]. simpl. rewrite length_app. lia.
  - cbn [sent_offset set_offsets]. intros Hge. set (pr := find_printable_text new) in *.
    assert (Hpr : pr `prefix_of` strip new).
    { apply printable_stable. apply andb_false_iff in Eb as [Eb|Eb]; apply negb_false_iff in Eb; [left|by right].
      apply Nat.eqb_eq in Eb. by destruct new. }
    assert (Hup : u `prefix_of` pr) by (apply (prefix_shorter u pr (strip new)); [done|done|lia]).
    split; [|done]. split; simpl; [done|done|done|done|]. exists pr. change (committed (set_offsets _ _ _ s)) with (committed s).
    rewrite HE, <- app_assoc. split; [f_equal; by apply skip_sent|]. split; [lia|done].
Qed.

(** The last step: [kept] are the tokens without a trimmed stop token. *)
Lemma finish_text r0 s E kept reason nst :
  streamed r0 s E -> read_offset s <= length kept -> take (read_offset s) kept = take (read_offset s) (decode_ids s) ->
  E `prefix_of` committed s ++ window_text s kept ->
  let O := trim_matched_str (text_after r0 kept) reason nst in
  E ++ finish_step (window_text s kept) reason nst s = if (length E <=? length O) then O else E.
Proof.
  intros Hst Hr Htk HE O. pose proof (window_continues r0 s E kept Hst Hr Htk) as Hw. rewrite Hw in HE.
  assert (finish_step (window_text s kept) reason nst s = drop (length E) O) as ->.
  { destruct Hst as [Hl _ _ _ (u & -> & Hs & _)]. unfold finish_step, get_decoded_text. unfold committed in *.
    rewrite length_app, <- Hs. unfold O. rewrite <- Hw. destruct (decoded_text_chunks s) as [|c cs]; simpl; [|done].
    by rewrite app_nil_r. }
  assert (O `prefix_of` text_after r0 kept) as HO by apply trim_str_prefix.
  destruct (Nat.leb_spec (length E) (length O)) as [Hle|Hgt].
  - apply prefix_drop_app. by eapply prefix_shorter.
  - rewrite drop_ge by lia. by rewrite app_nil_r.
Qed.

End stream.

(** ** Text without CJK characters is streamed steadily *)

Lemma after_last_ge c p t : p `prefix_of` t -> ends_with c p = true -> length p <= after_last c t.
Proof.
  revert t. induction p as [|x p IH]; intros t Hp He; [done|]. destruct t as [|y t]; [by apply prefix_nil_not in Hp|].
  pose proof (prefix_cons_inv_1 _ _ _ _ Hp) as ->. apply prefix_cons_inv_2 in Hp. simpl.
  destruct (decide (p = [])) as [->|Hne].
  - unfold ends_with in He. simpl in He. rewrite He. destruct (_ <? _); simpl; lia.
  - rewrite ends_with_cons in He by done. specialize (IH t Hp He). destruct p; [done|]. simpl in IH.
    rewrite (proj2 (Nat.ltb_lt _ _)) by lia. simpl. lia.
Qed.

Definition no_cjk (t : text) : Prop := Forall (fun c => is_chinese_char c = false) t.

Lemma no_cjk_lookup t i : no_cjk t -> is_chinese (t !! i) = false.
Proof. intros Ht. destruct (t !! i) as [c|] eqn:E; [|done]. by apply (Forall_lookup_1 _ _ _ _ Ht E). Qed.

Lemma printable_plain t : no_cjk t -> t = [] \/ ends_with REPLACEMENT t = true -> find_printable_text t = take (after_last SPACE t) t.
Proof.
  intros Hn [->|Ht]; [done|]. unfold find_printable_text. rewrite (ends_with_unique _ NEWLINE t Ht) by done.
  rewrite last_lookup, no_cjk_lookup by done. unfold penultimate. destruct (1 <? length t); [by rewrite no_cjk_lookup|done].
Qed.

(** What is sent beyond the committed text ends with a space. *)
Definition at_space (s : DecodeStatus) (E : text) : Prop :=
  drop (length (committed s)) E = [] \/ ends_with SPACE (drop (length (committed s)) E) = true.

Lemma plain_step (D : list Z -> text) `{!IncrementalDecoder D} r0 s E :
  streamed D r0 s E -> at_space s E -> no_cjk (window_text D s (decode_ids s)) ->
  let '(s', out) := stream_step (window_text D s (decode_ids s)) s in
  sent_offset s <= sent_offset s' /\ at_space s' (E ++ out).
Proof.
  intros Hst Hsp Hn. pose proof (streamed_step D r0 s E Hst) as Hstep.
  pose proof Hst as [Hl _ _ _ (u & HE & Hs & Hu)]. unfold at_space in Hsp. rewrite HE, drop_app_length in Hsp.
  set (new := window_text D s (decode_ids s)) in *. destruct (stream_step new s) as [s' out] eqn:Est.
  assert (Hle : sent_offset s <= sent_offset s').
  { unfold stream_step in Est. destruct (negb _ && negb _) eqn:Eb; injection Est as <- _; simpl.
    - apply andb_true_iff in Eb as [En%negb_true_iff Ec%negb_true_iff]. unfold append_decoded_text. rewrite En. simpl.
      rewrite strip_id in Hu by done. apply prefix_length in Hu. lia.
    - apply andb_false_iff in Eb. rewrite printable_plain; [|done|].
      + rewrite length_take, Nat.min_l by apply after_last_le. destruct Hsp as [->|Hsp]; [simpl in *; lia|].
        pose proof (after_last_ge SPACE u new (transitivity Hu (strip_prefix new)) Hsp). lia.
      + destruct Eb as [Eb%negb_false_iff%Nat.eqb_eq|Eb%negb_false_iff]; [left; by destruct new|by right]. }
  split; [done|]. destruct (Hstep Hle) as [[Hl' _ _ _ (u' & HE' & Hs' & Hu')] _].
  unfold at_space. rewrite HE', drop_app_length. unfold stream_step in Est.
  destruct (negb _ && negb _) eqn:Eb; injection Est as <- _.
  - left. simpl in Hl', Hs'. assert (length u' = 0) as Hz by lia. by destruct u'.
  - assert (Hinc : new = [] \/ ends_with REPLACEMENT new = true).
    { apply andb_false_iff in Eb as [Eb%negb_false_iff%Nat.eqb_eq|Eb%negb_false_iff]; [left; by destruct new|by right]. }
    assert (u' = find_printable_text new) as ->.
    { apply prefix_length_eq; [|simpl in Hl', Hs'; lia].
      eapply prefix_shorter; [exact Hu'|by apply printable_stable|simpl in Hl', Hs'; lia]. }
    rewrite printable_plain by done. destruct (decide (after_last SPACE new = 0)) as [->|Hne]; [by left|].
    right. apply after_last_char. lia.
Qed.

(** ** A request from its first row to its last *)

Section runs.
Context `{Tokenizer} (args : DetokArgs).

Fixpoint run_rows (rows : list Row) (s : option DecodeStatus) : res (option DecodeStatus * list text) :=
  match rows with
  | [] => Ok (s, [])
  | row :: rows =>
      '(s, out) ← req_step args row s;
      '(s, outs) ← run_rows rows s;
      Ok (s, out :: outs)
  end.

(** No step takes back what has been announced as sent. *)
Fixpoint steady (rows : list Row) (s : option DecodeStatus) : bool :=
  match rows with
  | [] => true
  | row :: rows =>
      match req_step args row s with
      | Ok (Some s', _) => (sent_offset (open_status row s) <=? sent_offset s') && steady rows (Some s')
      | Ok (None, _) => true
      | Raise _ => false
      end
  end.

Context (D : list Z -> text) `{!IncrementalDecoder D} (r0 : nat).

(** A row of the request: decoded by [D], [r0] prompt tokens come first. *)
Record of_request (row : Row) : Prop := {
  or_decode ids : row_decode args row ids = D ids;
  or_text : r_decoded_text row = [];
  or_read : r_read_offset row = r0;
}.

Definition before (s : option DecodeStatus) (E : text) : Prop :=
  match s with None => E = [] | Some s => streamed D r0 s E end.

Definition ids_of (s : option DecodeStatus) : list Z := match s with None => [] | Some s => decode_ids s end.

(** The prompt tokens come with the first row. *)
Definition starts (s : option DecodeStatus) (rows : list Row) : Prop :=
  match s, rows with None, row :: _ => r0 <= length (r_decode_ids row) | _, _ => True end.

Lemma open_streamed row s E : of_request row -> before s E -> starts s [row] ->
  streamed D r0 (open_status row s) E /\ decode_ids (open_status row s) = ids_of s ++ r_decode_ids row.
Proof.
  intros [_ Ht Hr] Hb Hs. destruct s as [s|]; simpl in *.
  - split; [by apply streamed_extend|done].
  - subst E. rewrite Ht, Hr. split; [by apply streamed_new|done].
Qed.

Lemma stream_row_run row s : of_request row -> r_finished row = None ->
  req_step args row s = let s1 := open_status row s in
    let '(s2, out) := stream_step (window_text D s1 (decode_ids s1)) s1 in Ok (Some s2, out).
Proof. intros [Hd _ _] Hf. unfold req_step, window_text. rewrite Hf. simpl. by rewrite !Hd. Qed.

Lemma run_streaming rows s E :
  before s E -> starts s rows -> Forall (fun r => of_request r /\ r_finished r = None) rows -> steady rows s = true ->
  exists s' outs, run_rows rows s = Ok (s', outs) /\ before s' (E ++ concat outs) /\
    ids_of s' = ids_of s ++ concat (r_decode_ids <$> rows) /\ (s' = None -> rows = [] /\ s = None).
Proof.
  revert s E. induction rows as [|row rows IH]; intros s E Hb Hs HF Hst.
  { exists s, []. simpl. rewrite !app_nil_r. by repeat split. }
  apply Forall_cons in HF as [[Hrow Hnf] HF]. destruct (open_streamed row s E Hrow Hb) as [Ho Hids]; [by destruct s|].
  pose proof (streamed_step D r0 (open_status row s) E Ho) as Hstep. cbn [steady] in Hst. cbn [run_rows].
  rewrite (stream_row_run row s Hrow Hnf) in Hst |- *. cbv zeta in Hst |- *.
  destruct (stream_step _ _) as [s2 out]. apply andb_true_iff in Hst as [Hle%Nat.leb_le Hst].
  destruct (Hstep Hle) as [Hs2 Hi2]. destruct (IH (Some s2) (E ++ out) Hs2 I HF Hst) as (s' & outs & E' & Hb' & Hi' & Hn').
  exists s', (out :: outs). bind_step. rewrite E'. simpl. split; [done|]. split; [by rewrite app_assoc|].
  split; [|by intros Hx; destruct (Hn' Hx)]. rewrite Hi'. simpl. by rewrite Hi2, Hids, app_assoc.
Qed.

Lemma finish_run fin s E :
  before s E -> starts s [fin] -> of_request fin -> r_finished fin <> None -> r_decode_ids fin <> [] ->
  r0 < length (ids_of s ++ r_decode_ids fin) ->
  exists kept out, trim_matched_ids (is_tool_call_parser_gpt_oss args) (ids_of s ++ r_decode_ids fin) (r_finished fin) (r_no_stop_trim fin) = Ok kept /\
    req_step args fin s = Ok (None, out) /\
    let O := trim_matched_str (text_after D r0 kept) (r_finished fin) (r_no_stop_trim fin) in
    E ++ out = if (length E <=? length O) then O else E.
Proof.
  intros Hb Hs Hfin Hf Hne Hr. destruct (open_streamed fin s E Hfin Hb Hs) as [Ho Hids]. set (s1 := open_status fin s) in *.
  pose proof (sd_read _ _ _ _ Ho) as Hread.
  assert (Hlen : read_offset s1 <= length (ids_of s ++ r_decode_ids fin) - 1).
  { destruct s as [s0|]; simpl in Hb, s1.
    - pose proof (sd_read _ _ _ _ Hb). rewrite length_app. simpl. destruct (r_decode_ids fin); [done|]. simpl. lia.
    - simpl in Hr |- *. rewrite (or_read _ Hfin). lia. }
  destruct (trim_ids_drop (is_tool_call_parser_gpt_oss args) (ids_of s ++ r_decode_ids fin) (r_finished fin) (r_no_stop_trim fin) (surr_offset s1))
    as (kept & Ek & Ed & Hk); [lia|].
  assert (Hkl : read_offset s1 <= length kept) by (destruct Hk as [-> | ->]; rewrite ?length_take; lia).
  assert (Hkt : take (read_offset s1) kept = take (read_offset s1) (decode_ids s1)).
  { rewrite Hids. destruct Hk as [-> | ->]; [done|]. rewrite take_take. f_equal. lia. }
  exists kept, (finish_step (window_text D s1 kept) (r_finished fin) (r_no_stop_trim fin) s1). split; [done|]. split.
  - unfold req_step. fold s1. rewrite Hids, Ed. simpl. destruct (r_finished fin); [|done].
    rewrite !(or_decode _ Hfin). unfold window_text. by rewrite !slice_take, Hkt, Hids.
  - apply finish_text; [done|done|done|done|]. destruct s as [s0|]; [|simpl in Hb; subst E; apply prefix_nil].
    destruct Hb as [_ Hr0 _ _ (u & -> & _ & Hu)]. change (committed s1) with (committed s0). apply prefix_app.
    change (window_text D s1 kept) with (window_text D s0 kept). etrans; [exact Hu|].
    assert (exists x, kept = decode_ids s0 ++ x) as [x ->].
    { destruct Hk as [-> | ->]; simpl; [by eexists|]. exists (take (length (r_decode_ids fin) - 1) (r_decode_ids fin)).
      rewrite length_app. destruct (r_decode_ids fin) as [|y l]; [done|]. simpl.
      rewrite take_app_ge by lia. f_equal. f_equal. lia. }
    etrans; [apply (window_grows D s0 x); lia|apply strip_prefix].
Qed.

Definition spaced (s : option DecodeStatus) (E : text) : Prop :=
  match s with None => True | Some s => at_space s E end.

Lemma no_cjk_drop k t : no_cjk t -> no_cjk (drop k t).
Proof. apply Forall_drop. Qed.

Lemma plain_steady rows s E :
  (forall ids, no_cjk (D ids)) -> before s E -> spaced s E -> starts s rows ->
  Forall (fun r => of_request r /\ r_finished r = None) rows -> steady rows s = true.
Proof.
  intros Hn. revert s E. induction rows as [|row rows IH]; intros s E Hb Hsp Hs HF; [done|].
  apply Forall_cons in HF as [[Hrow Hnf] HF]. destruct (open_streamed row s E Hrow Hb) as [Ho _]; [by destruct s|].
  assert (Hso : at_space (open_status row s) E).
  { destruct s as [s|]; [done|]. simpl in Hb. subst E. left. apply drop_nil. }
  pose proof (plain_step D r0 (open_status row s) E Ho Hso (no_cjk_drop _ _ (Hn _))) as Hp.
  pose proof (streamed_step D r0 (open_status row s) E Ho) as Hstep. cbn [steady].
  rewrite (stream_row_run row s Hrow Hnf). cbv zeta. destruct (stream_step _ _) as [s2 out]. destruct Hp as [Hle Hp].
  destruct (Hstep Hle) as [Hs2 _]. rewrite (proj2 (Nat.leb_le _ _) Hle). by apply (IH (Some s2) (E ++ out)).
Qed.

Lemma run_rows_app rows1 rows2 s s' outs :
  run_rows rows1 s = Ok (s', outs) ->
  run_rows (rows1 ++ rows2) s = ('(s2, outs2) ← run_rows rows2 s'; Ok (s2, outs ++ outs2)).
Proof.
  revert s outs. induction rows1 as [|row rows1 IH]; intros s outs; simpl.
  - intros [= <- <-]. by destruct (run_rows rows2 s) as [[]|].
  - destruct (req_step args row s) as [[s1 out]|] eqn:E1; simpl; [|done].
    destruct (run_rows rows1 s1) as [[s2 outs1]|] eqn:E2; simpl; [|done]. intros [= -> <-].
    rewrite (IH _ _ E2). by destruct (run_rows rows2 s') as [[]|].
Qed.

End runs.

(** The rows of a request, the last one with its finish reason. *)
Lemma stream_rows_run `{Tokenizer} args (D : list Z -> text) `{!IncrementalDecoder D} r0 rows fin :
  Forall (fun r => of_request args D r0 r /\ r_finished r = None) rows -> of_request args D r0 fin ->
  r_finished fin <> None -> r_decode_ids fin <> [] -> starts r0 None (rows ++ [fin]) ->
  r0 < length (concat (r_decode_ids <$> rows) ++ r_decode_ids fin) ->
  steady args rows None = true \/ (forall ids, no_cjk (D ids)) ->
  exists outs out kept, run_rows args (rows ++ [fin]) None = Ok (None, outs ++ [out]) /\
    trim_matched_ids (is_tool_call_parser_gpt_oss args) (concat (r_decode_ids <$> rows) ++ r_decode_ids fin)
      (r_finished fin) (r_no_stop_trim fin) = Ok kept /\
    let full := trim_matched_str (text_after D r0 kept) (r_finished fin) (r_no_stop_trim fin) in
    concat (outs ++ [out]) = if (length (concat outs) <=? length full) then full else concat outs.
Proof.
  intros HF Hfin Hf Hne Hs Hr Hst. assert (starts r0 None rows) as Hs' by (by destruct rows).
  assert (steady args rows None = true) as Hst' by (destruct Hst as [|Hn]; [done|by apply (plain_steady args D r0 rows None [])]).
  destruct (run_streaming args D r0 rows None [] eq_refl Hs' HF Hst') as (s & outs & E1 & Hb & Hids & Hn).
  simpl in Hb, Hids. destruct (finish_run args D r0 fin s (concat outs)) as (kept & out & Ek & E2 & Ho); [done| |done|done|done| |].
  - destruct s; [done|]. by destruct (Hn eq_refl) as [-> _].
  - by rewrite Hids.
  - exists outs, out, kept. rewrite (run_rows_app args rows [fin] None s outs E1). simpl. rewrite E2. simpl. rewrite Hids in Ek.
    split; [done|]. split; [done|]. by rewrite concat_app; simpl; rewrite app_nil_r.
Qed.
