(* ===== verification/DetokenizerClaims.v ===== *)
(** * DetokenizerClaims: what the detokenizer promises

    The grouped decoding is the decoding row by row; a batch is handled request
    by request; the pieces streamed for a request add up to its text; and two
    places where they do not do what they are meant to. *)

From S2P Require Import Prelude Text Detokenizer DetokenizerSpec DetokStream.

Open Scope nat_scope.

Section claims.
Context `{TokenizerLaws} (args : DetokArgs).

(** The batched decoding, which leaves out empty
    rows, takes a fast path when all rows have the same flags and otherwise
    decodes group by group and scatters the results, gives every row the text
    that decoding it alone with its own flags gives. *)
Theorem grouped_decode_rowwise ids_list skip_list space_list :
  length skip_list = length ids_list -> length space_list = length ids_list ->
  grouped_batch_decode ids_list skip_list space_list =
  zip_with (fun ids x => decode_row x.1 x.2 ids) ids_list (zip skip_list space_list).
Proof. apply grouped_run. Qed.

(** C34: Handling a batch of distinct requests that fit into
    the dictionary of states returns, and refines the machine of a single
    request: every row's text and next state are what its own step gives from
    its own state, and no other request is touched. *)
Theorem detok_batch_refines rows d xs :
  NoDup (r_rid <$> rows) -> NoDup d.*1 -> length d + length rows <= dt_capacity args ->
  Forall2 (fun row x => req_step args row (dict_get (r_rid row) d) = Ok x) rows xs ->
  exists d', handle_batch_token_id_out args rows d = Ok (d', xs.*2) /\ NoDup d'.*1 /\
    Forall2 (fun row x => dict_get (r_rid row) d' = x.1) rows xs /\
    (forall k, k ∉ r_rid <$> rows -> dict_get k d' = dict_get k d).
Proof. apply batch_run. Qed.

End claims.

(** For an incremental decoder, the rows of a request
    from the first to the one with its finish reason are handled without an
    exception, and the pieces of text sent add up to the text of all its
    tokens decoded at once, after the prompt and without the matched stop.
    Only if the stop string begins inside text that has already been sent is
    that text all the client gets.  Required is that no step announces less
    text than before, which holds if the text has no CJK characters. *)
Theorem streamed_text_correct `{Tokenizer} args (D : list Z -> text) `{!IncrementalDecoder D} r0 rows fin :
  Forall (fun r => of_request args D r0 r /\ r_finished r = None) rows -> of_request args D r0 fin ->
  r_finished fin <> None -> r_decode_ids fin <> [] -> starts r0 None (rows ++ [fin]) ->
  r0 < length (concat (r_decode_ids <$> rows) ++ r_decode_ids fin) ->
  steady args rows None = true \/ (forall ids, no_cjk (D ids)) ->
  exists outs out kept, run_rows args (rows ++ [fin]) None = Ok (None, outs ++ [out]) /\
    trim_matched_ids (is_tool_call_parser_gpt_oss args) (concat (r_decode_ids <$> rows) ++ r_decode_ids fin)
      (r_finished fin) (r_no_stop_trim fin) = Ok kept /\
    let full := trim_matched_str (text_after D r0 kept) (r_finished fin) (r_no_stop_trim fin) in
    concat (outs ++ [out]) = if (length (concat outs) <=? length full) then full else concat outs.
Proof. by apply stream_rows_run. Qed.

(** ** A small tokenizer

    A token is a code point, or one of the two halves of an emoji: [-1]
    followed by [-2] is the emoji, a half on its own is U+FFFD. *)

Definition EMOJI : Z := 128512.

Fixpoint small_decode (l : list Z) : text :=
  match l with
  | [] => []
  | x :: l' =>
      if (x =? -1)%Z then
        match l' with
        | y :: l'' => if (y =? -2)%Z then EMOJI :: small_decode l'' else REPLACEMENT :: small_decode l'
        | [] => [REPLACEMENT]
        end
      else if (x =? -2)%Z then REPLACEMENT :: small_decode l'
      else x :: small_decode l'
  end.

#[local] Instance small_tokenizer : Tokenizer := {|
  tk_is_fast := true; tk_special_ids := None; tk_decode := small_decode;
  tk_decode_with _ _ := small_decode; tk_batch_decode _ _ l := small_decode <$> l;
|}.

#[local] Instance small_laws : TokenizerLaws.
Proof. by split. Qed.

Lemma small_ind (P : list Z -> Prop) :
  P [] -> (forall x l, P l -> (forall y l', l = y :: l' -> P l') -> P (x :: l)) -> forall l, P l.
Proof.
  intros H0 H1 l. cut (forall n l, length l <= n -> P l); [eauto|]. clear l. induction n as [|n IH]; intros [|x l] Hl; simpl in Hl; try done; [lia|].
  apply H1; [apply IH; lia|]. intros y l' ->. apply IH. simpl in Hl. lia.
Qed.

Definition ends_half (l : list Z) : bool := match last l with Some x => (x =? -1)%Z | None => false end.

Lemma ends_half_cons x y l : ends_half (x :: y :: l) = ends_half (y :: l).
Proof. unfold ends_half. by rewrite last_cons_cons. Qed.

(** Nothing is merged across a cut that is not inside an emoji. *)
Lemma small_app a b : ends_half a = false -> small_decode (a ++ b) = small_decode a ++ small_decode b.
Proof.
  induction a as [|x a IH1 IH2] using small_ind; [done|]. intros Hh. destruct a as [|y a].
  - unfold ends_half in Hh. simpl in *. rewrite Hh. by destruct (x =? -2)%Z.
  - rewrite ends_half_cons in Hh. specialize (IH1 Hh). simpl app in IH1. simpl app.
    cbn [small_decode] in IH1 |- *. destruct (x =? -1)%Z.
    + destruct (y =? -2)%Z eqn:Ey; [|by rewrite IH1].
      rewrite (IH2 y a eq_refl); [done|]. destruct a; [done|]. by rewrite ends_half_cons in Hh.
    + destruct (x =? -2)%Z; by rewrite IH1.
Qed.

Lemma small_half a : ends_half a = true -> exists a', a = a' ++ [(-1)%Z].
Proof.
  unfold ends_half. destruct a as [|x a _] using rev_ind; [done|]. rewrite last_snoc. intros ->%Z.eqb_eq. by exists a.
Qed.

(** A text that ends with a half ends with U+FFFD. *)
Lemma small_half_text a : ends_half a = true -> ends_with REPLACEMENT (small_decode a) = true /\
  forall b, strip (small_decode a) `prefix_of` small_decode (a ++ b).
Proof.
  induction a as [|x a IH1 IH2] using small_ind; [done|]. intros Hh. destruct a as [|y a].
  - unfold ends_half in Hh. simpl in Hh. apply Z.eqb_eq in Hh as ->. split; [done|]. intros b. apply prefix_nil.
  - rewrite ends_half_cons in Hh. destruct (IH1 Hh) as [He Hp].
    assert (forall z t, t <> [] -> ends_with REPLACEMENT t = true -> ends_with REPLACEMENT (z :: t) = true) as Hc
      by (intros; by rewrite ends_with_cons).
    assert (small_decode (y :: a) <> []) as Hne by (intros E; by rewrite E in He).
    assert (forall z, strip (z :: small_decode (y :: a)) `prefix_of` z :: strip (small_decode (y :: a))) as Hz.
    { intros z. simpl. destruct (_ && _); [apply prefix_nil|done]. }
    cbn [app small_decode] in *. destruct (x =? -1)%Z.
    + destruct (y =? -2)%Z eqn:Ey.
      * destruct (IH2 y a eq_refl) as [He2 Hp2]; [destruct a; [apply Z.eqb_eq in Ey as ->; done|by rewrite ends_half_cons in Hh]|].
        assert (small_decode a <> []) as Hne2 by (intros E; by rewrite E in He2).
        split; [by apply Hc|]. intros b. simpl. destruct (_ && _); [apply prefix_nil|]. apply prefix_cons, Hp2.
      * split; [by apply Hc|]. intros b. etrans; [apply Hz|]. apply prefix_cons, Hp.
    + destruct (x =? -2)%Z; (split; [by apply Hc|]; intros b; etrans; [apply Hz|]; apply prefix_cons, Hp).
Qed.

#[local] Instance small_incremental : IncrementalDecoder small_decode.
Proof.
  split.
  - intros y x. destruct (ends_half y) eqn:E; [by apply small_half_text|]. rewrite small_app by done.
    etrans; [apply strip_prefix|]. by exists (small_decode x).
  - intros p w x _ Hc. assert (ends_half (p ++ w) = false) as Hh.
    { apply not_true_is_false. intros Hh. destruct (small_half_text _ Hh). congruence. }
    rewrite app_assoc, small_app by done. f_equal. destruct w as [|y w _] using rev_ind; [done|].
    unfold ends_half in Hh. rewrite app_assoc, last_snoc in Hh.
    rewrite (small_app (w ++ [y]) x), drop_app_length; [done|]. unfold ends_half. by rewrite last_snoc.
Qed.

(** As SentencePiece decoders do: one leading space is taken off the text. *)
Definition lstrip1 (t : text) : text :=
  match t with x :: t' => if (x =? SPACE)%Z then t' else t | [] => [] end.

Definition spm_decode (l : list Z) : text := lstrip1 (small_decode l).

Lemma lstrip1_app t u : t <> [] -> lstrip1 (t ++ u) = lstrip1 t ++ u.
Proof. destruct t as [|x t]; [done|]. simpl. by destruct (x =? SPACE)%Z. Qed.

Lemma lstrip1_strip t u : strip t `prefix_of` u -> strip (lstrip1 t) `prefix_of` lstrip1 u.
Proof.
  destruct t as [|x t]; [intros; apply prefix_nil|]. cbn [lstrip1]. destruct (Z.eqb_spec x SPACE) as [->|Hx].
  - simpl. rewrite andb_false_r. intros Hp. destruct u as [|y u]; [by apply prefix_nil_not in Hp|].
    pose proof (prefix_cons_inv_1 _ _ _ _ Hp) as Ey. subst y. by apply prefix_cons_inv_2 in Hp.
  - cbn [strip]. destruct (_ && _); [intros; apply prefix_nil|]. intros Hp. destruct u as [|y u]; [by apply prefix_nil_not in Hp|].
    pose proof (prefix_cons_inv_1 _ _ _ _ Hp) as Ey. subst y. cbn [lstrip1]. by rewrite (proj2 (Z.eqb_neq _ _) Hx).
Qed.

Lemma small_decode_nil l : small_decode l = [] -> l = [].
Proof. destruct l as [|x [|y l]]; [done| |]; cbn [small_decode]; repeat case_match; done. Qed.

#[local] Instance spm_incremental : IncrementalDecoder spm_decode.
Proof.
  split; unfold spm_decode.
  - intros y x. apply lstrip1_strip, id_stable.
  - intros p w x Hlt Hc. assert (small_decode (p ++ w) <> []) as Hne by (intros E; rewrite E in Hlt; simpl in Hlt; lia).
    assert (ends_half (p ++ w) = false) as Hh.
    { apply not_true_is_false. intros Hh. destruct (small_half_text _ Hh) as [Hr _]. revert Hlt Hc Hr.
      destruct (small_decode (p ++ w)) as [|c t]; [done|]. simpl. destruct (Z.eqb_spec c SPACE) as [->|]; [|congruence].
      intros Hlt Hc. rewrite ends_with_cons; [congruence|]. intros ->. simpl in Hlt. lia. }
    rewrite app_assoc, small_app, lstrip1_app by done. f_equal. destruct w as [|y w _] using rev_ind; [rewrite app_nil_r in Hlt; lia|].
    unfold ends_half in Hh. rewrite app_assoc, last_snoc in Hh.
    rewrite (small_app (w ++ [y]) x), lstrip1_app, drop_app_length; [done| |unfold ends_half; by rewrite last_snoc].
    intros E%small_decode_nil. by destruct w.
Qed.

(** Without the window before it, a token that begins with a space would lose
    it. *)
Example spm_window : spm_decode [32; 105]%Z = [105]%Z /\ drop 1 (spm_decode [104; 32; 105]%Z) = [32; 105]%Z.
Proof. split; reflexivity. Qed.

(** ** Runs *)

Definition demo_detok : DetokArgs := mkDetok 4 false false.

Definition demo_row (rid : string) (ids : list Z) (reason : option FinishJson) : Row :=
  mkRow rid reason [] ids 1 true true false.

Definition stop_token (z : Z) : option FinishJson := Some (mkJson "stop" (Some (MInt z))).

Lemma demo_of_request rid ids reason : of_request demo_detok small_decode 1 (demo_row rid ids reason).
Proof. by split. Qed.

Lemma grouped_decode_rowwise_witness :
  length [true; false; true] = length [[1; 2]; []; [-1; -2]]%Z /\
  grouped_batch_decode [[1; 2]; []; [-1; -2]]%Z [true; false; true] [true; true; false] = [[1; 2]; []; [EMOJI]]%Z.
Proof.
  split; [reflexivity|]. rewrite (grouped_decode_rowwise [[1; 2]; []; [-1; -2]]%Z [true; false; true] [true; true; false]) by reflexivity.
  reflexivity.
Defined.

(** Prompt token 65, then "hi " and half an emoji, then its other half, then a
    stop token. *)
Definition plain_rows : list Row :=
  [demo_row "a" [65; 104; 105; 32; -1]%Z None; demo_row "a" [-2]%Z None].
Definition plain_fin : Row := demo_row "a" [33; 7]%Z (stop_token 7).

Lemma streamed_text_correct_witness :
  exists outs out kept, run_rows demo_detok (plain_rows ++ [plain_fin]) None = Ok (None, outs ++ [out]) /\
    trim_matched_ids false [65; 104; 105; 32; -1; -2; 33; 7]%Z (stop_token 7) false = Ok kept /\
    let full := trim_matched_str (text_after small_decode 1 kept) (stop_token 7) false in
    concat (outs ++ [out]) = if (length (concat outs) <=? length full) then full else concat outs.
Proof.
  apply (streamed_text_correct demo_detok small_decode 1 plain_rows plain_fin).
  - repeat constructor.
  - apply demo_of_request.
  - discriminate.
  - discriminate.
  - vm_compute. lia.
  - vm_compute. lia.
  - left. vm_compute. reflexivity.
Defined.

Example plain_run : run_rows demo_detok (plain_rows ++ [plain_fin]) None = Ok (None, [[104; 105; 32]; [EMOJI]; [33]])%Z.
Proof. vm_compute. reflexivity. Qed.

Definition batch_rows : list Row := [demo_row "a" [65; 66]%Z None; demo_row "b" [65; 67]%Z (stop_token 9)].

Lemma detok_batch_refines_witness :
  exists d', handle_batch_token_id_out demo_detok batch_rows [] = Ok (d', [[66]; []])%Z /\ NoDup d'.*1 /\
    Forall2 (fun row x => dict_get (r_rid row) d' = x.1) batch_rows
      [(Some (mkStatus [] [65; 66] 1 2 1 1 [[66] ])%Z, [66]%Z); (None, [])] /\
    (forall k, k ∉ r_rid <$> batch_rows -> dict_get k d' = dict_get k []).
Proof.
  apply (detok_batch_refines demo_detok batch_rows []
    [(Some (mkStatus [] [65; 66] 1 2 1 1 [[66] ])%Z, [66]%Z); (None, [])]).
  - apply (bool_decide_unpack _). vm_compute. exact I.
  - constructor.
  - vm_compute. lia.
  - repeat constructor; vm_compute; reflexivity.
Defined.

(** An incomplete character after a CJK character makes
    the detokenizer announce text that it takes back when the next incomplete
    character follows another one, and then sends again: the client receives
    the CJK character twice, although the decoder is incremental. *)
Theorem cjk_text_repeated :
  let rows := [demo_row "a" [65; 20013; -1]%Z None; demo_row "a" [-2; -1]%Z None; demo_row "a" [-2]%Z None] in
  run_rows demo_detok rows None
    = Ok (Some (mkStatus [] [65; 20013; -1; -2; -1; -2] 1 6 3 3 [[20013; EMOJI; EMOJI] ])%Z, [[20013]; []; [20013; EMOJI; EMOJI] ])%Z /\
  text_after small_decode 1 (concat (r_decode_ids <$> rows)) = [20013; EMOJI; EMOJI]%Z /\
  steady demo_detok rows None = false.
Proof. repeat split; vm_compute; reflexivity. Qed.

(** A matched stop token is cut off the output, unless
    it is token 0, which counts as no match and stays in the output. *)
Theorem stop_token_zero_kept ids z :
  trim_matched_ids false (ids ++ [z]) (stop_token z) false = Ok (if (z =? 0)%Z then ids ++ [z] else ids).
Proof.
  unfold trim_matched_ids. simpl. destruct (z =? 0)%Z; [done|]. rewrite last_snoc. simpl. rewrite andb_false_r, length_app. simpl.
  rewrite (proj2 (Nat.ltb_lt _ _)) by lia. simpl. by rewrite Nat.add_sub, take_app_length.
Qed.
