(* ===== verification/ReqFinish.v ===== *)
(** * ReqFinish: when a request ends, and what it sends

    Models the stop checks of [Req] in [managers/schedule_batch.py]
    ([update_finish_state] and what it calls), the incremental token ids it
    hands out ([init_incremental_detokenize], [output_ids_through_stop]) and
    the decision and offsets of [_GenerationStreamAccumulator.accept] in
    [managers/scheduler_components/output_streamer.py]; of
    [batch_result_processor.py] how new tokens reach a request, and of
    [managers/scheduler.py] how an abort does.  The tokenizer, the grammar and
    the search for a regular expression are parameters. *)

From S2P Require Import Prelude Text Detokenizer.

Open Scope nat_scope.

(** ** Finish reasons *)

Inductive FinishReason :=
| FINISH_MATCHED_TOKEN (matched : Z)
| FINISH_MATCHED_STR (matched : text)
| FINISHED_MATCHED_REGEX (matched : text)
| FINISH_LENGTH (len : nat)
| FINISH_ABORT (message : string).

Definition to_json (r : FinishReason) : FinishJson :=
  match r with
  | FINISH_MATCHED_TOKEN z => mkJson "stop" (Some (MInt z))
  | FINISH_MATCHED_STR s => mkJson "stop" (Some (MStr s))
  | FINISHED_MATCHED_REGEX s => mkJson "stop" (Some (MStr s))
  | FINISH_LENGTH _ => mkJson "length" None
  | FINISH_ABORT _ => mkJson "abort" None
  end.

(** ** The request *)

(** The sampling parameters the checks read; [stop_token_ids] in the order in
    which the set is iterated. *)
Record Sampling := mkSampling {
  sp_max_new_tokens : nat;
  sp_ignore_eos : bool;
  stop_token_ids : list Z;
  stop_strs : list text;
  stop_regex_strs : list text;
  stop_str_max_len : nat;
  stop_regex_max_len : nat;
  stream_interval : option nat;
  skip_special_tokens : bool;
  spaces_between_special_tokens : bool;
  no_stop_trim : bool;
}.

Record ReqTokenizer := mkReqTok {
  rt_decode : list Z -> text;
  rt_eos_token_id : option Z;
  rt_additional_stop_token_ids : list Z;
}.

(** The output side of [Req]; [o_grammar] holds [grammar.is_terminated()]. *)
Record OReq := mkOReq {
  o_rid : string;
  o_origin_input_ids : list Z;
  o_output_ids : list Z;
  o_sampling : Sampling;
  o_tokenizer : option ReqTokenizer;
  o_eos_token_ids : list Z;
  o_vocab_size : Z;
  o_grammar : option bool;
  o_stream : bool;
  finished_reason : option FinishReason;
  finished_len : option nat;
  finished_output : bool;
  to_finish : option FinishReason;
  o_decoded_text : text;
  o_surr_offset : option nat;
  o_read_offset : option nat;
  surr_and_decode_ids : list Z;
  cur_decode_ids_len : nat;
  send_token_offset : nat;
  send_decode_id_offset : nat;
}.

Definition set_finish reason len (r : OReq) : OReq :=
  mkOReq (o_rid r) (o_origin_input_ids r) (o_output_ids r) (o_sampling r) (o_tokenizer r) (o_eos_token_ids r) (o_vocab_size r)
    (o_grammar r) (o_stream r) reason len (finished_output r) (to_finish r) (o_decoded_text r) (o_surr_offset r) (o_read_offset r)
    (surr_and_decode_ids r) (cur_decode_ids_len r) (send_token_offset r) (send_decode_id_offset r).

Definition set_output ids (r : OReq) : OReq :=
  mkOReq (o_rid r) (o_origin_input_ids r) ids (o_sampling r) (o_tokenizer r) (o_eos_token_ids r) (o_vocab_size r)
    (o_grammar r) (o_stream r) (finished_reason r) (finished_len r) (finished_output r) (to_finish r) (o_decoded_text r)
    (o_surr_offset r) (o_read_offset r) (surr_and_decode_ids r) (cur_decode_ids_len r) (send_token_offset r) (send_decode_id_offset r).

Definition set_to_finish x (r : OReq) : OReq :=
  mkOReq (o_rid r) (o_origin_input_ids r) (o_output_ids r) (o_sampling r) (o_tokenizer r) (o_eos_token_ids r) (o_vocab_size r)
    (o_grammar r) (o_stream r) (finished_reason r) (finished_len r) (finished_output r) x (o_decoded_text r)
    (o_surr_offset r) (o_read_offset r) (surr_and_decode_ids r) (cur_decode_ids_len r) (send_token_offset r) (send_decode_id_offset r).

Definition clear_to_finish (r : OReq) : OReq := set_to_finish None r.

(** The grammar, if there is one, has or has not terminated. *)
Definition set_terminated (b : bool) (r : OReq) : OReq :=
  mkOReq (o_rid r) (o_origin_input_ids r) (o_output_ids r) (o_sampling r) (o_tokenizer r) (o_eos_token_ids r) (o_vocab_size r)
    ((fun _ => b) <$> o_grammar r) (o_stream r) (finished_reason r) (finished_len r) (finished_output r) (to_finish r) (o_decoded_text r)
    (o_surr_offset r) (o_read_offset r) (surr_and_decode_ids r) (cur_decode_ids_len r) (send_token_offset r) (send_decode_id_offset r).

Definition finished (r : OReq) : bool := match finished_reason r with Some _ => true | None => false end.

Definition out_length (r : OReq) : nat := length (o_output_ids r).

Definition output_ids_through_stop (r : OReq) : list Z :=
  match finished_len r with Some n => take n (o_output_ids r) | None => o_output_ids r end.

(** ** Stop checks *)

Section checks.
(** [re.search(pattern, text) is not None]. *)
Context (re_search : text -> text -> bool).

Definition stop_match_tail_len (new_accepted_len : nat) (r : OReq) : nat :=
  let sp := o_sampling r in
  let max_len_tail_str := Nat.max (stop_str_max_len sp + 1) (stop_regex_max_len sp + 1) in
  Nat.min (max_len_tail_str + (new_accepted_len - 1)) (out_length r).

Definition decode_text (r : OReq) (ids : list Z) : res text :=
  tk ← or_raise AttributeError (o_tokenizer r);
  Ok (rt_decode tk ids).

Definition tail_str (new_accepted_len : nat) (r : OReq) : res text :=
  let sp := o_sampling r in
  if (length (stop_strs sp) =? 0) && (length (stop_regex_strs sp) =? 0) then Ok [] else
  decode_text r (py_last (stop_match_tail_len new_accepted_len r) (o_output_ids r)).

(** Some suffix of [tail] of length [1..n] is a prefix of [s]. *)
Definition overlaps (tail s : text) : bool :=
  existsb (fun i => bool_decide (py_last i tail = take i s)) (seq 1 (Nat.min (length tail) (length s))).

Definition check_match_stop_str_prefix (r : OReq) : res bool :=
  let strs := stop_strs (o_sampling r) in
  if (length strs =? 0) then Ok false else
  tail ← tail_str 1 r;
  if (length tail =? 0) then Ok false else
  Ok (existsb (fun s => negb (length s =? 0) && (py_in s tail || overlaps tail s)) strs).

(** The tests on one token id. *)
Definition is_stop_token (r : OReq) (token_id : Z) : bool :=
  existsb (Z.eqb token_id) (stop_token_ids (o_sampling r)) ||
  existsb (Z.eqb token_id) (o_eos_token_ids r) ||
  match o_tokenizer r with
  | Some tk =>
      match rt_eos_token_id tk with Some e => (token_id =? e)%Z | None => false end ||
      existsb (Z.eqb token_id) (rt_additional_stop_token_ids tk)
  | None => false
  end.

(** The first index at which a test on the new tokens succeeds. *)
Fixpoint first_index (f : Z -> bool) (l : list Z) (i : nat) : option (nat * Z) :=
  match l with
  | [] => None
  | x :: l => if f x then Some (i, x) else first_index f l (S i)
  end.

Definition check_token_based_finish (new_tokens : list Z) (r : OReq) : OReq * bool :=
  if sp_ignore_eos (o_sampling r) then (r, false) else
  match first_index (is_stop_token r) new_tokens 0 with
  | Some (i, token_id) =>
      let matched_pos := out_length r - length new_tokens + i in
      (set_finish (Some (FINISH_MATCHED_TOKEN token_id)) (Some (matched_pos + 1)) r, true)
  | None => (r, false)
  end.

(** The loop of [_locate_str_stop_finished_len] over token counts. *)
Fixpoint locate (matched : text -> bool) (decode : list Z -> text) (window : list Z) (counts : list nat) : option nat :=
  match counts with
  | [] => None
  | c :: counts => if matched (decode (take c window)) then Some c else locate matched decode window counts
  end.

Definition locate_str_stop_finished_len (new_accepted_len : nat) (matched : text -> bool) (r : OReq) : res nat :=
  tk ← or_raise AttributeError (o_tokenizer r);
  let tail_len := stop_match_tail_len new_accepted_len r in
  let start := out_length r - tail_len in
  let window := drop start (o_output_ids r) in
  let lo := Nat.max 1 (length window + 1 - new_accepted_len) in
  Ok (match locate matched (rt_decode tk) window (seq lo (length window - lo)) with
      | Some c => start + c
      | None => out_length r
      end).

(** The stop strings, in order. *)
Fixpoint check_stop_strs (new_accepted_len : nat) (tail : text) (strs : list text) (r : OReq) : res (OReq * bool) :=
  match strs with
  | [] => Ok (r, false)
  | s :: strs =>
      let in_tail := py_in s tail in
      if in_tail || py_in s (o_decoded_text r) then
        if in_tail then
          n ← locate_str_stop_finished_len new_accepted_len (py_in s) r;
          Ok (set_finish (Some (FINISH_MATCHED_STR s)) (Some n) r, true)
        else Ok (set_finish (Some (FINISH_MATCHED_STR s)) (finished_len r) r, true)
      else check_stop_strs new_accepted_len tail strs r
  end.

Fixpoint check_stop_regexes (new_accepted_len : nat) (tail : text) (strs : list text) (r : OReq) : res (OReq * bool) :=
  match strs with
  | [] => Ok (r, false)
  | s :: strs =>
      if re_search s tail then
        n ← locate_str_stop_finished_len new_accepted_len (re_search s) r;
        Ok (set_finish (Some (FINISHED_MATCHED_REGEX s)) (Some n) r, true)
      else check_stop_regexes new_accepted_len tail strs r
  end.

Definition check_str_based_finish (new_accepted_len : nat) (r : OReq) : res (OReq * bool) :=
  let sp := o_sampling r in
  if (length (stop_strs sp) =? 0) && (length (stop_regex_strs sp) =? 0) then Ok (r, false) else
  tail ← tail_str new_accepted_len r;
  '(r, b) ← check_stop_strs new_accepted_len tail (stop_strs sp) r;
  if b : bool then Ok (r, true) else check_stop_regexes new_accepted_len tail (stop_regex_strs sp) r.

Definition NAN_HAPPENED : text := [78; 97; 78; 32; 104; 97; 112; 112; 101; 110; 101; 100]%Z.

Definition out_of_vocab (r : OReq) (token_id : Z) : bool := (o_vocab_size r <=? token_id)%Z || (token_id <? 0)%Z.

(** [next(iter(ids))] written over the bad token, if there are any. *)
Definition overwrite (ids : list Z) (offset : nat) (out : list Z) : list Z :=
  match ids with [] => out | x :: _ => <[offset := x]> out end.

Definition check_vocab_boundary_finish (new_tokens : list Z) (r : OReq) : OReq * bool :=
  match first_index (out_of_vocab r) new_tokens 0 with
  | Some (i, _) =>
      let offset := out_length r - length new_tokens + i in
      let out := overwrite (o_eos_token_ids r) offset (overwrite (stop_token_ids (o_sampling r)) offset (o_output_ids r)) in
      (set_finish (Some (FINISH_MATCHED_STR NAN_HAPPENED)) (Some (offset + 1)) (set_output out r), true)
  | None => (r, false)
  end.

Definition update_finish_state (new_accepted_len : nat) (r : OReq) : res OReq :=
  if finished r then Ok r else
  match to_finish r with
  | Some reason => Ok (clear_to_finish (set_finish (Some reason) (finished_len r) r))
  | None =>
      let max_new := sp_max_new_tokens (o_sampling r) in
      if (max_new <=? out_length r) then Ok (set_finish (Some (FINISH_LENGTH max_new)) (Some max_new) r) else
      if (match o_grammar r with Some true => true | _ => false end) then
        x ← or_raise IndexError (last (o_output_ids r));
        Ok (set_finish (Some (FINISH_MATCHED_TOKEN x)) (finished_len r) r)
      else
        let new_tokens := py_last new_accepted_len (o_output_ids r) in
        let '(r, b) := check_vocab_boundary_finish new_tokens r in
        if b then Ok r else
        '(r, b) ← check_str_based_finish new_accepted_len r;
        if b : bool then Ok r else
        Ok (check_token_based_finish new_tokens r).1
  end.

(** What [process_batch_result_decode] does with the tokens of one request.  A
    request that has finished is passed over: with the overlap schedule one
    more step of it is on its way. *)
Definition process_tokens (new : list Z) (r : OReq) : res OReq :=
  if finished r then Ok r else
  update_finish_state (length new) (set_output (o_output_ids r ++ new) r).

End checks.

(** [abort_request] on a request of a running batch. *)
Definition abort_running (r : OReq) : OReq :=
  if finished r then r else set_to_finish (Some (FINISH_ABORT "Aborted")) r.

(** ** Handing out tokens *)

Definition INIT_INCREMENTAL_DETOKENIZATION_OFFSET : nat := 5.

Definition set_detok read surr ids cur (r : OReq) : OReq :=
  mkOReq (o_rid r) (o_origin_input_ids r) (o_output_ids r) (o_sampling r) (o_tokenizer r) (o_eos_token_ids r) (o_vocab_size r)
    (o_grammar r) (o_stream r) (finished_reason r) (finished_len r) (finished_output r) (to_finish r) (o_decoded_text r)
    surr read ids cur (send_token_offset r) (send_decode_id_offset r).

Definition set_sent token_offset decode_offset (r : OReq) : OReq :=
  mkOReq (o_rid r) (o_origin_input_ids r) (o_output_ids r) (o_sampling r) (o_tokenizer r) (o_eos_token_ids r) (o_vocab_size r)
    (o_grammar r) (o_stream r) (finished_reason r) (finished_len r) (finished_output r) (to_finish r) (o_decoded_text r)
    (o_surr_offset r) (o_read_offset r) (surr_and_decode_ids r) (cur_decode_ids_len r) token_offset decode_offset.

Definition set_finished_output (r : OReq) : OReq :=
  mkOReq (o_rid r) (o_origin_input_ids r) (o_output_ids r) (o_sampling r) (o_tokenizer r) (o_eos_token_ids r) (o_vocab_size r)
    (o_grammar r) (o_stream r) (finished_reason r) (finished_len r) true (to_finish r) (o_decoded_text r)
    (o_surr_offset r) (o_read_offset r) (surr_and_decode_ids r) (cur_decode_ids_len r) (send_token_offset r) (send_decode_id_offset r).

(** [o_origin_input_ids] stands for [origin_input_ids_unpadded]. *)
Definition init_incremental_detokenize (r : OReq) : OReq * list Z * nat :=
  let output_ids := output_ids_through_stop r in
  match o_surr_offset r, o_read_offset r with
  | Some surr, Some read =>
      let ids := surr_and_decode_ids r ++ drop (cur_decode_ids_len r) output_ids in
      (set_detok (Some read) (Some surr) ids (length output_ids) r, ids, read - surr)
  | _, _ =>
      let read := length (o_origin_input_ids r) in
      let surr := read - INIT_INCREMENTAL_DETOKENIZATION_OFFSET in
      let ids := drop surr (o_origin_input_ids r) ++ output_ids in
      (set_detok (Some read) (Some surr) ids (length output_ids) r, ids, read - surr)
  end.

(** What is sent for one request: the row the detokenizer reads, and
    [output_ids]. *)
Record Payload := mkPayload { p_row : Row; p_output_ids : list Z }.

(** [x % n]. *)
Definition py_mod (x n : nat) : res nat := if (n =? 0) then Raise ZeroDivisionError else Ok (x mod n).

Section streaming.
(** [default_stream_interval], [default_force_stream_interval]. *)
Context (default_interval force_interval : nat).

Definition should_stream (r : OReq) : res bool :=
  if o_stream r then
    let interval := match stream_interval (o_sampling r) with Some (S n) => S n | _ => default_interval end in
    m ← py_mod (out_length r) interval;
    if (m =? (if 1 <? interval then 1 else 0)) then
      hold ← check_match_stop_str_prefix r;
      Ok (negb hold)
    else Ok false
  else
    m ← py_mod (out_length r) force_interval;
    Ok (m =? 0).

(** The part of [accept] after the decision to send. *)
Definition send (r : OReq) : OReq * Payload :=
  let offset := send_decode_id_offset r in
  let token_offset := send_token_offset r in
  let '(r, ids, read) := init_incremental_detokenize r in
  let out := output_ids_through_stop r in
  let sp := o_sampling r in
  (set_sent (length out) (length ids) r,
   mkPayload (mkRow (o_rid r) (to_json <$> finished_reason r) (o_decoded_text r) (drop offset ids) read
                (skip_special_tokens sp) (spaces_between_special_tokens sp) (no_stop_trim sp))
     (drop token_offset out)).

Definition accept (r : OReq) : res (OReq * option Payload) :=
  if finished r then
    _ ← py_assert (negb (finished_output r));
    let r := set_finished_output r in
    let r := match finished_len r with None => set_finish (finished_reason r) (Some (out_length r)) r | Some _ => r end in
    let '(r, p) := send r in Ok (r, Some p)
  else
    b ← should_stream r;
    if b : bool then let '(r, p) := send r in Ok (r, Some p) else Ok (r, None).

(** The loop over the requests of a batch; [skip] is [skip_req]. *)
Fixpoint stream_output_generation (skip : option string) (reqs : list OReq) : res (list OReq * list Payload) :=
  match reqs with
  | [] => Ok ([], [])
  | r :: reqs =>
      if bool_decide (skip = Some (o_rid r)) || (finished r && finished_output r) then
        '(rs, ps) ← stream_output_generation skip reqs;
        Ok (r :: rs, ps)
      else
        '(r, p) ← accept r;
        '(rs, ps) ← stream_output_generation skip reqs;
        Ok (r :: rs, match p with Some p => p :: ps | None => ps end)
  end.

End streaming.
