(* ===== verification/ReqFinishSpec.v ===== *)
(** * ReqFinishSpec: the order of stop causes and the life of a request

    What stops a request, in the order of precedence, and that the stop checks
    decide by it; then the events of a request (tokens, streamer runs, aborts)
    and the invariant of what has been sent for it. *)

From S2P Require Import Prelude Text Detokenizer DetokenizerSpec DetokStream ReqFinish.

Open Scope nat_scope.

(** ** First matching token *)

Lemma first_index_Some f l i j x :
  first_index f l i = Some (j, x) ->
  exists a b, l = a ++ x :: b /\ j = i + length a /\ f x = true /\ Forall (fun y => f y = false) a.
Proof.
  revert i. induction l as [|y l IH]; intros i; simpl; [done|]. destruct (f y) eqn:E.
  - intros [= <- <-]. exists [], l. repeat split; [simpl; lia|done|constructor].
  - intros (a & b & -> & -> & Hx & Ha)%IH. exists (y :: a), b. repeat split; [simpl; lia|done|by constructor].
Qed.

Lemma first_index_None f l i : first_index f l i = None -> Forall (fun y => f y = false) l.
Proof. revert i. induction l as [|y l IH]; intros i; simpl; [constructor|]. destruct (f y) eqn:E; [done|]. intros H. constructor; eauto. Qed.

Lemma py_last_drop {A} n (l : list A) : 1 <= n -> py_last n l = drop (length l - n) l.
Proof. intros Hn. unfold py_last. by rewrite (proj2 (Nat.eqb_neq _ _)) by lia. Qed.

Lemma length_py_last {A} n (l : list A) : 1 <= n <= length l -> length (py_last n l) = n.
Proof. intros Hn. rewrite py_last_drop by lia. rewrite length_drop. lia. Qed.

(** ** Holding back a possible stop string *)

Lemma overlaps_iff tail s :
  overlaps tail s = true <-> exists a b c, tail = a ++ b /\ s = b ++ c /\ b <> [].
Proof.
  unfold overlaps. rewrite existsb_exists. split.
  - intros (i & Hi%in_seq & Hb%bool_decide_eq_true). rewrite py_last_drop in Hb by lia.
    exists (take (length tail - i) tail), (take i s), (drop i s). rewrite take_drop, <- Hb, take_drop. split; [done|]. split; [done|].
    intros E. apply (f_equal length) in E. rewrite length_drop in E. simpl in E. lia.
  - intros (a & b & c & -> & -> & Hb). exists (length b). split.
    + apply in_seq. rewrite !length_app. destruct b; [done|]. simpl. lia.
    + apply bool_decide_eq_true. rewrite py_last_drop by (destruct b; [done|simpl; lia]).
      rewrite length_app, Nat.add_sub, drop_app_length, take_app_length. done.
Qed.

(** ** Locating the stop *)

Lemma locate_Some m dec w counts c :
  locate m dec w counts = Some c ->
  exists a b, counts = a ++ c :: b /\ m (dec (take c w)) = true /\ Forall (fun k => m (dec (take k w)) = false) a.
Proof.
  induction counts as [|k counts IH]; simpl; [done|]. destruct (m (dec (take k w))) eqn:E.
  - intros [= <-]. exists [], counts. by repeat split.
  - intros (a & b & -> & Hm & Ha)%IH. exists (k :: a), b. repeat split; [done|]. by constructor.
Qed.

Lemma locate_None m dec w counts : locate m dec w counts = None -> Forall (fun k => m (dec (take k w)) = false) counts.
Proof. induction counts as [|k counts IH]; simpl; [constructor|]. destruct (m (dec (take k w))) eqn:E; [done|]. intros H. constructor; auto. Qed.

Section checks.
Context (re_search : text -> text -> bool).

(** The tokens a stop check looks at. *)
Definition stop_window (n : nat) (r : OReq) : list Z := drop (out_length r - stop_match_tail_len n r) (o_output_ids r).

(** The stop is found at the first count of new tokens whose text matches, and
    at the end of the output if there is none before. *)
Lemma locate_run n m r tk : o_tokenizer r = Some tk -> 1 <= n <= out_length r ->
  exists k, locate_str_stop_finished_len n m r = Ok k /\ out_length r - n < k <= out_length r /\
    (forall j, out_length r - n < j < k -> out_length r - stop_match_tail_len n r < j ->
       m (rt_decode tk (take (j - (out_length r - stop_match_tail_len n r)) (stop_window n r))) = false) /\
    (k < out_length r -> m (rt_decode tk (take (k - (out_length r - stop_match_tail_len n r)) (stop_window n r))) = true).
Proof.
  intros Htk Hn. unfold locate_str_stop_finished_len. rewrite Htk. cbn [or_raise mbind res_bind].
  fold (stop_window n r). set (t := stop_match_tail_len n r).
  assert (Ht : n <= t <= out_length r) by (unfold t, stop_match_tail_len; lia).
  assert (Hw : length (stop_window n r) = t) by (unfold stop_window; fold t; rewrite length_drop; unfold out_length in *; lia).
  set (w := stop_window n r) in *. rewrite Hw. set (lo := Nat.max 1 (t + 1 - n)).
  destruct (locate m (rt_decode tk) w (seq lo (t - lo))) as [c|] eqn:E; eexists; (split; [done|]).
  - apply locate_Some in E as (a & b & Es & Hm & Ha). assert (lo <= c < lo + (t - lo)) as Hc.
    { apply in_seq. rewrite Es. apply in_or_app. right. by left. }
    assert (Hlen : length a = c - lo).
    { pose proof (f_equal (fun l => l !! length a) Es) as El. rewrite lookup_app_r, Nat.sub_diag in El by lia. simpl in El.
      apply lookup_seq in El. lia. }
    split; [lia|]. split.
    + intros j Hj Hj'. rewrite Forall_forall in Ha. apply (Ha (j - (out_length r - t))).
      assert (j - (out_length r - t) ∈ seq lo (t - lo)) as Hin by (apply list_elem_of_In, in_seq; lia).
      apply list_elem_of_lookup in Hin as [i Hi]. pose proof Hi as Hi'. apply lookup_seq in Hi' as [Hi1 Hi2].
      rewrite Es, lookup_app_l in Hi by lia. by eapply list_elem_of_lookup_2.
    + intros _. by replace (out_length r - t + c - (out_length r - t)) with c by lia.
  - apply locate_None in E. split; [lia|]. split; [|lia]. intros j Hj Hj'. rewrite Forall_forall in E.
    apply E. apply list_elem_of_In, in_seq. lia.
Qed.

(** The position [k] at which a match is located: the first count of new
    tokens whose decoded window matches, or the end of the output. *)
Definition located (n : nat) (m : text -> bool) (r : OReq) (k : nat) : Prop :=
  let start := out_length r - stop_match_tail_len n r in
  exists tk, o_tokenizer r = Some tk /\ out_length r - n < k <= out_length r /\
    (forall j, out_length r - n < j < k -> m (rt_decode tk (take (j - start) (stop_window n r))) = false) /\
    (k < out_length r -> m (rt_decode tk (take (k - start) (stop_window n r))) = true).

Lemma locate_located n m r tk : o_tokenizer r = Some tk -> 1 <= n <= out_length r ->
  exists k, locate_str_stop_finished_len n m r = Ok k /\ located n m r k.
Proof.
  intros Htk Hn. destruct (locate_run n m r tk Htk Hn) as (k & E & Hk & Hlt & Heq). exists k. split; [done|]. exists tk.
  split; [done|]. split; [done|]. split; [|done]. intros j Hj. apply Hlt; [done|]. unfold stop_match_tail_len. lia.
Qed.

(** *** What stops a request, in the order of precedence *)

Abbreviation new_ids n r := (py_last n (o_output_ids r)).

(** [s] is in the tail, or in text decoded before. *)
Definition string_hit (tail : text) (r : OReq) (s : text) : bool := py_in s tail || py_in s (o_decoded_text r).

(** Neither length nor grammar nor vocabulary stops the request. *)
Record passes (n : nat) (r : OReq) : Prop := {
  pa_length : out_length r < sp_max_new_tokens (o_sampling r);
  pa_grammar : o_grammar r <> Some true;
  pa_vocab : Forall (fun x => out_of_vocab r x = false) (new_ids n r);
}.

(** Nor does any text. *)
Record no_text_stop (n : nat) (r : OReq) : Prop := {
  nt_passes : passes n r;
  nt_text : exists tail, tail_str n r = Ok tail /\
    Forall (fun s => string_hit tail r s = false) (stop_strs (o_sampling r)) /\
    Forall (fun s => re_search s tail = false) (stop_regex_strs (o_sampling r));
}.

(** No stop condition holds. *)
Record goes_on (n : nat) (r : OReq) : Prop := {
  go_text : no_text_stop n r;
  go_tokens : sp_ignore_eos (o_sampling r) = false -> Forall (fun x => is_stop_token r x = false) (new_ids n r);
}.

(** A token id that the model does not know is replaced by an end-of-sequence
    id, by a stop token id if there is none, and else stays. *)
Definition sanitized (p : nat) (r : OReq) : list Z :=
  match head (o_eos_token_ids r ++ stop_token_ids (o_sampling r)) with
  | Some x => <[p := x]> (o_output_ids r)
  | None => o_output_ids r
  end.

(** [stop_cause n r reason k out]: after [n] new tokens the request [r] stops
    for [reason] behind token [k], and its output is [out].  A case excludes
    the ones before it: the length limit, the grammar, a token outside the
    vocabulary, a stop string, a stop expression, a stop token; within each,
    the first in order. *)
Inductive stop_cause (n : nat) (r : OReq) : FinishReason -> nat -> list Z -> Prop :=
| cause_length :
    sp_max_new_tokens (o_sampling r) <= out_length r ->
    stop_cause n r (FINISH_LENGTH (sp_max_new_tokens (o_sampling r))) (sp_max_new_tokens (o_sampling r)) (o_output_ids r)
| cause_grammar z :
    out_length r < sp_max_new_tokens (o_sampling r) -> o_grammar r = Some true -> last (o_output_ids r) = Some z ->
    stop_cause n r (FINISH_MATCHED_TOKEN z) (out_length r) (o_output_ids r)
| cause_vocab a z b :
    out_length r < sp_max_new_tokens (o_sampling r) -> o_grammar r <> Some true ->
    new_ids n r = a ++ z :: b -> Forall (fun x => out_of_vocab r x = false) a -> out_of_vocab r z = true ->
    stop_cause n r (FINISH_MATCHED_STR NAN_HAPPENED) (out_length r - n + S (length a)) (sanitized (out_length r - n + length a) r)
| cause_string tail a s b k :
    passes n r -> tail_str n r = Ok tail ->
    stop_strs (o_sampling r) = a ++ s :: b -> Forall (fun x => string_hit tail r x = false) a ->
    (py_in s tail = true /\ located n (py_in s) r k \/
     py_in s tail = false /\ py_in s (o_decoded_text r) = true /\ k = out_length r) ->
    stop_cause n r (FINISH_MATCHED_STR s) k (o_output_ids r)
| cause_regex tail a s b k :
    passes n r -> tail_str n r = Ok tail ->
    Forall (fun x => string_hit tail r x = false) (stop_strs (o_sampling r)) ->
    stop_regex_strs (o_sampling r) = a ++ s :: b -> Forall (fun x => re_search x tail = false) a ->
    re_search s tail = true -> located n (re_search s) r k ->
    stop_cause n r (FINISHED_MATCHED_REGEX s) k (o_output_ids r)
| cause_token a z b :
    no_text_stop n r -> sp_ignore_eos (o_sampling r) = false ->
    new_ids n r = a ++ z :: b -> Forall (fun x => is_stop_token r x = false) a -> is_stop_token r z = true ->
    stop_cause n r (FINISH_MATCHED_TOKEN z) (out_length r - n + S (length a)) (o_output_ids r).

(** The request stops behind token [k], one of the new ones; nothing else
    changes.  The length is left out where the stop is the end. *)
Definition stops (n : nat) (r r' : OReq) (k : nat) : Prop :=
  exists reason out len, stop_cause n r reason k out /\ r' = set_finish (Some reason) len (set_output out r) /\
    (len = Some k \/ len = None /\ k = out_length r) /\ out_length r - n < k <= out_length r.

(** What the stop checks need of a request. *)
Definition can_decode (r : OReq) : Prop :=
  stop_strs (o_sampling r) = [] /\ stop_regex_strs (o_sampling r) = [] \/ exists tk, o_tokenizer r = Some tk.

Lemma tail_str_run n r : can_decode r -> exists tail, tail_str n r = Ok tail.
Proof.
  unfold tail_str, decode_text. intros [[-> ->]|[tk ->] ]; simpl; [eauto|]. destruct (_ && _); eauto.
Qed.

Lemma stops_finish n r reason len k :
  stop_cause n r reason k (o_output_ids r) ->
  len = Some k \/ len = None /\ k = out_length r -> out_length r - n < k <= out_length r ->
  stops n r (set_finish (Some reason) len r) k.
Proof. intros Hc Hl Hk. exists reason, (o_output_ids r), len. split; [done|]. split; [by destruct r|done]. Qed.

Lemma check_strs_run n tail r tk pre strs :
  o_tokenizer r = Some tk -> 1 <= n <= out_length r -> tail_str n r = Ok tail -> finished_len r = None -> passes n r ->
  stop_strs (o_sampling r) = pre ++ strs -> Forall (fun s => string_hit tail r s = false) pre ->
  exists r' b, check_stop_strs n tail strs r = Ok (r', b) /\
    (b = true /\ (exists k, stops n r r' k) \/ b = false /\ r' = r /\ Forall (fun s => string_hit tail r s = false) strs).
Proof.
  intros Htk Hn Ht Hl Hp. revert pre. induction strs as [|s strs IH]; intros pre Hpre HF; cbn [check_stop_strs].
  { eexists _, _. split; [done|]. right. by repeat split. }
  fold (string_hit tail r s). destruct (string_hit tail r s) eqn:Eh.
  - unfold string_hit in Eh. destruct (py_in s tail) eqn:Ei.
    + destruct (locate_located n (py_in s) r tk Htk Hn) as (k & -> & Hk). bind_step. eexists _, _. split; [done|]. left.
      split; [done|]. exists k. apply stops_finish; [|by left|by destruct Hk as (? & _ & ? & _)].
      eapply cause_string; [done|done|exact Hpre|done|by left].
    + simpl in Eh. eexists _, _. split; [done|]. left. split; [done|]. exists (out_length r). apply stops_finish; [|by right|lia].
      eapply cause_string; [done|done|exact Hpre|done|by right].
  - destruct (IH (pre ++ [s])) as (r' & b & -> & Hb).
    { by rewrite <- app_assoc. } { apply Forall_app. by repeat constructor. }
    eexists _, _. split; [done|]. destruct Hb as [Hb|(-> & -> & HF')]; [by left|]. right. repeat split. by constructor.
Qed.

Lemma check_regexes_run n tail r tk pre strs :
  o_tokenizer r = Some tk -> 1 <= n <= out_length r -> tail_str n r = Ok tail -> passes n r ->
  Forall (fun x => string_hit tail r x = false) (stop_strs (o_sampling r)) ->
  stop_regex_strs (o_sampling r) = pre ++ strs -> Forall (fun s => re_search s tail = false) pre ->
  exists r' b, check_stop_regexes re_search n tail strs r = Ok (r', b) /\
    (b = true /\ (exists k, stops n r r' k) \/ b = false /\ r' = r /\ Forall (fun s => re_search s tail = false) strs).
Proof.
  intros Htk Hn Ht Hp Hs. revert pre. induction strs as [|s strs IH]; intros pre Hpre HF; cbn [check_stop_regexes].
  { eexists _, _. split; [done|]. right. by repeat split. }
  destruct (re_search s tail) eqn:Ei.
  - destruct (locate_located n (re_search s) r tk Htk Hn) as (k & -> & Hk). bind_step. eexists _, _. split; [done|]. left.
    split; [done|]. exists k. apply stops_finish; [|by left|by destruct Hk as (? & _ & ? & _)]. by eapply cause_regex.
  - destruct (IH (pre ++ [s])) as (r' & b & -> & Hb).
    { by rewrite <- app_assoc. } { apply Forall_app. by repeat constructor. }
    eexists _, _. split; [done|]. destruct Hb as [Hb|(-> & -> & HF')]; [by left|]. right. repeat split. by constructor.
Qed.

Lemma check_str_run n r :
  can_decode r -> 1 <= n <= out_length r -> finished_len r = None -> passes n r ->
  exists r' b, check_str_based_finish re_search n r = Ok (r', b) /\
    (b = true /\ (exists k, stops n r r' k) \/ b = false /\ r' = r /\ no_text_stop n r).
Proof.
  intros Hc Hn Hl Hp. unfold check_str_based_finish. destruct (tail_str_run n r Hc) as [tail Ht].
  destruct (_ && _) eqn:Eb.
  { apply andb_true_iff in Eb as [E1%Nat.eqb_eq E2%Nat.eqb_eq]. eexists _, _. split; [done|]. right. split; [done|]. split; [done|].
    split; [done|]. exists tail. destruct (stop_strs _); [|done]. destruct (stop_regex_strs _); [|done]. by repeat split. }
  rewrite Ht. bind_step. destruct Hc as [[E1 E2]|[tk Htk] ]; [by rewrite E1, E2 in Eb|].
  destruct (check_strs_run n tail r tk [] (stop_strs (o_sampling r)) Htk Hn Ht Hl Hp eq_refl) as (r1 & b1 & -> & H1); [done|].
  bind_step. destruct H1 as [[-> Hk]|(-> & -> & HF1)]; [eexists _, _; split; [done|by left]|].
  destruct (check_regexes_run n tail r tk [] (stop_regex_strs (o_sampling r)) Htk Hn Ht Hp HF1 eq_refl) as (r2 & b2 & -> & H2); [done|].
  eexists _, _. split; [done|]. destruct H2 as [?|(-> & -> & HF2)]; [by left|]. right. split; [done|]. split; [done|].
  split; [done|]. by exists tail.
Qed.

(** Position of a token among the new ones. *)
Lemma new_token_pos n r a x b : 1 <= n <= out_length r -> new_ids n r = a ++ x :: b ->
  let p := out_length r - n + length a in
  o_output_ids r !! p = Some x /\ out_length r - n <= p < out_length r.
Proof.
  intros Hn Hl p. rewrite py_last_drop in Hl by lia. fold (out_length r) in Hl.
  assert (length (a ++ x :: b) = n) as Hlen by (rewrite <- Hl, length_drop; unfold out_length in *; lia).
  rewrite length_app in Hlen. simpl in Hlen. split; [|unfold p; lia].
  pose proof (f_equal (fun l => l !! length a) Hl) as Hx. rewrite lookup_drop, lookup_app_r, Nat.sub_diag in Hx by lia. done.
Qed.

Lemma overwrite_sanitized p r :
  overwrite (o_eos_token_ids r) p (overwrite (stop_token_ids (o_sampling r)) p (o_output_ids r)) = sanitized p r.
Proof.
  unfold overwrite, sanitized. destruct (o_eos_token_ids r), (stop_token_ids (o_sampling r)); simpl; try done. apply list_insert_insert_eq.
Qed.

Lemma sanitized_facts p r : length (sanitized p r) = out_length r /\ forall m, m <= p -> take m (sanitized p r) = take m (o_output_ids r).
Proof.
  unfold sanitized. destruct (head _); [|done]. split; [apply length_insert|]. intros m Hm. rewrite take_insert. by rewrite decide_False by lia.
Qed.

Lemma check_vocab_run n r :
  1 <= n <= out_length r -> out_length r < sp_max_new_tokens (o_sampling r) -> o_grammar r <> Some true ->
  let '(r', b) := check_vocab_boundary_finish (new_ids n r) r in
  b = true /\ (exists k, stops n r r' k) \/ b = false /\ r' = r /\ passes n r.
Proof.
  intros Hn Hm Hg. unfold check_vocab_boundary_finish. destruct (first_index _ _ 0) as [[i x]|] eqn:E.
  - left. split; [done|]. apply first_index_Some in E as (a & b & Hl & -> & Hx & Ha).
    rewrite length_py_last by (unfold out_length in Hn; lia). rewrite Nat.add_0_l, overwrite_sanitized.
    destruct (new_token_pos n r a x b Hn Hl) as (Hp & Hb). exists (out_length r - n + S (length a)).
    eexists _, _, _. split; [by apply (cause_vocab n r a x b)|]. split; [done|]. split; [left; f_equal; lia|lia].
  - right. apply first_index_None in E. by repeat split.
Qed.

Lemma check_token_run n r :
  1 <= n <= out_length r -> no_text_stop n r ->
  let '(r', b) := check_token_based_finish (new_ids n r) r in
  b = true /\ (exists k, stops n r r' k) \/ b = false /\ r' = r /\ goes_on n r.
Proof.
  intros Hn Ht. unfold check_token_based_finish. destruct (sp_ignore_eos (o_sampling r)) eqn:Ei.
  { right. split; [done|]. split; [done|]. split; [done|]. by rewrite Ei. }
  destruct (first_index _ _ 0) as [[i x]|] eqn:E.
  - left. split; [done|]. apply first_index_Some in E as (a & b & Hl & -> & Hx & Ha).
    rewrite length_py_last by (unfold out_length in Hn; lia). rewrite Nat.add_0_l.
    destruct (new_token_pos n r a x b Hn Hl) as (Hp & Hb). exists (out_length r - n + S (length a)).
    apply stops_finish; [by apply (cause_token n r a x b)|left; f_equal; lia|lia].
  - right. apply first_index_None in E. split; [done|]. split; [done|]. by split.
Qed.

(** The whole check on a running request whose last [n] tokens are new. *)
Lemma update_finish_run n r :
  finished r = false -> to_finish r = None -> finished_len r = None -> can_decode r ->
  1 <= n <= out_length r -> out_length r - n < sp_max_new_tokens (o_sampling r) ->
  exists r', update_finish_state re_search n r = Ok r' /\ (r' = r /\ goes_on n r \/ exists k, stops n r r' k).
Proof.
  intros Hf Hto Hl Hc Hn Hm. unfold update_finish_state. rewrite Hf, Hto.
  destruct (Nat.leb_spec (sp_max_new_tokens (o_sampling r)) (out_length r)) as [Hle|Hgt].
  { eexists. split; [done|]. right. eexists. apply stops_finish; [by apply cause_length|by left|lia]. }
  destruct (match o_grammar r with Some true => true | _ => false end) eqn:Eg.
  { destruct (last (o_output_ids r)) as [x|] eqn:Ex; [|unfold out_length in Hn; apply last_None in Ex; rewrite Ex in Hn; simpl in Hn; lia].
    eexists. split; [done|]. right. eexists. apply stops_finish; [apply cause_grammar; [done| |done]|by right|lia].
    by destruct (o_grammar r) as [[]|]. }
  assert (Hg : o_grammar r <> Some true) by (intros Eg'; by rewrite Eg' in Eg).
  pose proof (check_vocab_run n r Hn Hgt Hg) as Hv. destruct (check_vocab_boundary_finish _ r) as [r1 b1].
  destruct Hv as [[-> Hk]|(-> & -> & Hv)]; [eexists; split; [done|by right]|].
  destruct (check_str_run n r Hc Hn Hl Hv) as (r2 & b2 & -> & Hs). bind_step.
  destruct Hs as [[-> Hk]|(-> & -> & Hs)]; [eexists; split; [done|by right]|].
  pose proof (check_token_run n r Hn Hs) as Hk. destruct (check_token_based_finish _ r) as [r3 b3]. eexists. split; [done|]. simpl.
  destruct Hk as [[-> Hk]|(-> & -> & Hk)]; [by right|]. by left.
Qed.

(** The tokens before the new ones stay. *)
Lemma stops_out n r r' k : stops n r r' k ->
  finished r' = true /\ out_length r' = out_length r /\ take (out_length r - n) (o_output_ids r') = take (out_length r - n) (o_output_ids r).
Proof.
  intros (reason & out & len & Hc & -> & _). split; [done|]. unfold out_length at 1. simpl.
  destruct Hc; try done. destruct (sanitized_facts (out_length r - n + length a) r) as [-> ->]; [done|lia].
Qed.

End checks.

(** ** Tokens handed out *)

Definition prompt_tail (r : OReq) : list Z :=
  drop (length (o_origin_input_ids r) - INIT_INCREMENTAL_DETOKENIZATION_OFFSET) (o_origin_input_ids r).

(** [ids] have gone to the detokenizer, [out] to the client. *)
Definition handed (r : OReq) (ids out : list Z) : Prop :=
  (o_surr_offset r = None /\ ids = [] /\ out = [] /\ send_decode_id_offset r = 0 /\ send_token_offset r = 0) \/
  (o_read_offset r = Some (length (o_origin_input_ids r)) /\
   o_surr_offset r = Some (length (o_origin_input_ids r) - INIT_INCREMENTAL_DETOKENIZATION_OFFSET) /\
   ids = prompt_tail r ++ out /\ surr_and_decode_ids r = ids /\ cur_decode_ids_len r = length out /\
   send_token_offset r = length out /\ send_decode_id_offset r = length ids).

Lemma length_prompt_tail r :
  length (prompt_tail r) = length (o_origin_input_ids r) - (length (o_origin_input_ids r) - INIT_INCREMENTAL_DETOKENIZATION_OFFSET).
Proof. unfold prompt_tail. apply length_drop. Qed.

(** The row is one of the request's, with the request's flags. *)
Record row_of (r : OReq) (row : Row) : Prop := {
  ro_rid : r_rid row = o_rid r;
  ro_reason : r_finished row = to_json <$> finished_reason r;
  ro_text : r_decoded_text row = o_decoded_text r;
  ro_read : r_read_offset row = length (prompt_tail r);
  ro_flags : r_skip row = skip_special_tokens (o_sampling r) /\ r_space row = spaces_between_special_tokens (o_sampling r) /\
             r_no_stop_trim row = no_stop_trim (o_sampling r);
}.

(** [r'] is [r] with other hand-out fields. *)
Definition same_req (r r' : OReq) : Prop :=
  r' = set_sent (send_token_offset r') (send_decode_id_offset r')
         (set_detok (o_read_offset r') (o_surr_offset r') (surr_and_decode_ids r') (cur_decode_ids_len r') r).

(** Sending continues both streams up to the end of the output. *)
Lemma send_run r ids out :
  handed r ids out -> out `prefix_of` output_ids_through_stop r ->
  let '(r', p) := send r in
  same_req r r' /\ row_of r (p_row p) /\ handed r' (ids ++ r_decode_ids (p_row p)) (output_ids_through_stop r) /\
  ids ++ r_decode_ids (p_row p) = prompt_tail r ++ output_ids_through_stop r /\
  out ++ p_output_ids p = output_ids_through_stop r.
Proof.
  intros Hh Hp. unfold send, init_incremental_detokenize.
  destruct Hh as [(Es & -> & -> & Ed & Et)|(Er & Es & -> & Ei & Ec & Et & Ed)]; rewrite Es, ?Er; cbn -[INIT_INCREMENTAL_DETOKENIZATION_OFFSET].
  - rewrite Ed, Et, !drop_0. fold (prompt_tail r). change (output_ids_through_stop (set_detok _ _ _ _ r)) with (output_ids_through_stop r).
    split; [done|]. split; [split; [done|done|done|by rewrite length_prompt_tail|done]|]. split; [|done].
    right. repeat split; try done.
  - change (output_ids_through_stop (set_detok _ _ _ _ r)) with (output_ids_through_stop r). rewrite Ed, Et, Ec, Ei.
    assert (Eall : (prompt_tail r ++ out) ++ drop (length out) (output_ids_through_stop r) = prompt_tail r ++ output_ids_through_stop r).
    { by rewrite <- app_assoc, prefix_drop_app. }
    rewrite drop_app_length. split; [done|]. split; [split; [done|done|done|by rewrite length_prompt_tail|done]|].
    rewrite Eall. split; [|split; [done|by apply prefix_drop_app] ]. right. repeat split; done.
Qed.

Lemma same_req_facts r r' : same_req r r' ->
  o_output_ids r' = o_output_ids r /\ o_sampling r' = o_sampling r /\ finished_reason r' = finished_reason r /\
  finished_len r' = finished_len r /\ to_finish r' = to_finish r /\ finished_output r' = finished_output r /\
  prompt_tail r' = prompt_tail r /\ o_tokenizer r' = o_tokenizer r /\ o_decoded_text r' = o_decoded_text r.
Proof. intros ->. done. Qed.

Lemma hold_back_run r : can_decode r -> exists b, check_match_stop_str_prefix r = Ok b.
Proof.
  intros Hc. unfold check_match_stop_str_prefix. destruct (_ =? 0); [eauto|]. destruct (tail_str_run 1 r Hc) as [tail ->].
  simpl. destruct (_ =? 0); eauto.
Qed.

Lemma should_stream_run di fi r : can_decode r -> 0 < di -> 0 < fi -> exists b, should_stream di fi r = Ok b.
Proof.
  intros Hc Hd Hf. unfold should_stream, py_mod. destruct (hold_back_run r Hc) as [b Eb]. destruct (o_stream r).
  - set (n := match stream_interval _ with Some (S n) => S n | _ => di end).
    assert (n <> 0) as Hn by (unfold n; destruct (stream_interval _) as [[]|]; lia).
    rewrite (proj2 (Nat.eqb_neq _ _) Hn). bind_step. destruct (_ =? _); [|eauto]. rewrite Eb. simpl. eauto.
  - rewrite (proj2 (Nat.eqb_neq fi 0)) by lia. simpl. eauto.
Qed.

(** ** The life of a request, event by event *)

(** The fields that never change. *)
Record fixed (r r' : OReq) : Prop := {
  fx_sampling : o_sampling r' = o_sampling r;
  fx_tokenizer : o_tokenizer r' = o_tokenizer r;
  fx_prompt : prompt_tail r' = prompt_tail r;
  fx_text : o_decoded_text r' = o_decoded_text r;
}.

(** A row with the fixed fields of the request. *)
Definition row_for (r : OReq) (row : Row) : Prop :=
  r_decoded_text row = o_decoded_text r /\ r_read_offset row = length (prompt_tail r) /\
  r_skip row = skip_special_tokens (o_sampling r) /\ r_space row = spaces_between_special_tokens (o_sampling r) /\
  r_no_stop_trim row = no_stop_trim (o_sampling r).

Lemma row_of_for r r' row : fixed r r' -> row_of r' row -> row_for r row.
Proof.
  intros [E1 E2 E3 E4] [Q1 Q2 Q3 Q4 (Q5 & Q6 & Q7)]. unfold row_for. by rewrite Q3, Q4, Q5, Q6, Q7, E4, E3, E1.
Qed.

Lemma fixed_decode r r' : fixed r r' -> can_decode r -> can_decode r'.
Proof. intros [E1 E2 _ _]. unfold can_decode. by rewrite E1, E2. Qed.

(** What has gone to the detokenizer and to the client. *)
Definition sent_ids (ps : list Payload) : list Z := concat ((r_decode_ids ∘ p_row) <$> ps).
Definition sent_out (ps : list Payload) : list Z := concat (p_output_ids <$> ps).

Lemma sent_ids_snoc ps p : sent_ids (ps ++ [p]) = sent_ids ps ++ r_decode_ids (p_row p).
Proof. unfold sent_ids. rewrite fmap_app, concat_app. simpl. by rewrite app_nil_r. Qed.

Lemma sent_out_snoc ps p : sent_out (ps ++ [p]) = sent_out ps ++ p_output_ids p.
Proof. unfold sent_out. rewrite fmap_app, concat_app. simpl. by rewrite app_nil_r. Qed.

Definition unfinished (p : Payload) : Prop := r_finished (p_row p) = None.

(** What the payloads [ps] of the request [r0] and its state [r] have in common
    at any time. *)
Record sending (r0 r : OReq) (ps : list Payload) : Prop := {
  se_fixed : fixed r0 r;
  se_rows : Forall (fun p => row_for r0 (p_row p)) ps;
  se_handed : handed r (sent_ids ps) (sent_out ps);
  se_ids : ps <> [] -> sent_ids ps = prompt_tail r0 ++ sent_out ps;
  se_starts : starts (length (prompt_tail r0)) None (p_row <$> ps);
}.

Lemma send_sending r0 r ps : sending r0 r ps -> sent_out ps `prefix_of` output_ids_through_stop r ->
  let '(r', p) := send r in
  same_req r r' /\ row_of r (p_row p) /\ sending r0 r' (ps ++ [p]) /\ sent_out (ps ++ [p]) = output_ids_through_stop r.
Proof.
  intros [[X1 X2 X3 X4] H2 H3 H4 H5] Hp. pose proof (send_run r _ _ H3 Hp) as Hs. destruct (send r) as [r' p].
  destruct Hs as (Hsame & Hrow & Hh & Hi & Ho). split; [done|]. split; [done|]. rewrite sent_out_snoc, Ho. split; [|done].
  destruct (same_req_facts r r' Hsame) as (F1 & F2 & F3 & F4 & F5 & F6 & F7 & F8 & F9). split.
  - split; congruence.
  - apply Forall_app. split; [done|]. constructor; [|done]. by apply (row_of_for r0 r).
  - by rewrite sent_ids_snoc, sent_out_snoc, Ho.
  - intros _. by rewrite sent_ids_snoc, sent_out_snoc, Ho, Hi, X3.
  - destruct ps as [|q ps]; [|done]. simpl in Hi |- *. unfold sent_ids in Hi. simpl in Hi. rewrite Hi, X3, length_app. lia.
Qed.

(** A request is at work, at its end, or closed: its last payload is out. *)
Inductive stage (r : OReq) (ps : list Payload) : Prop :=
| at_work :
    finished_reason r = None -> finished_len r = None -> finished_output r = false ->
    out_length r < sp_max_new_tokens (o_sampling r) ->
    Forall unfinished ps -> sent_out ps `prefix_of` o_output_ids r -> stage r ps
| at_end :
    finished r = true -> finished_output r = false ->
    Forall unfinished ps -> sent_out ps `prefix_of` output_ids_through_stop r ->
    length (sent_out ps) < length (output_ids_through_stop r) -> stage r ps
| closed rows fin :
    finished r = true -> finished_output r = true ->
    ps = rows ++ [fin] -> Forall unfinished rows -> r_finished (p_row fin) = to_json <$> finished_reason r ->
    output_ids_through_stop r <> [] -> r_decode_ids (p_row fin) <> [] -> sent_out ps = output_ids_through_stop r -> stage r ps.

Section generate.
Context (re_search : text -> text -> bool) (di fi : nat).

(** What happens to a request: a forward pass brings tokens, its grammar having
    terminated or not; the streamer runs over its batch; it is aborted. *)
Inductive req_event :=
| TokensIn (new : list Z) (terminated : bool)
| StreamOut
| AbortIn.

Definition req_step_event (e : req_event) (r : OReq) : res (OReq * list Payload) :=
  match e with
  | TokensIn new t => r ← process_tokens re_search new (set_terminated t r); Ok (r, [])
  | StreamOut =>
      '(rs, ps) ← stream_output_generation di fi None [r];
      r ← or_raise IndexError (head rs);
      Ok (r, ps)
  | AbortIn => Ok (abort_running r, [])
  end.

Fixpoint req_run (es : list req_event) (r : OReq) : res (OReq * list Payload) :=
  match es with
  | [] => Ok (r, [])
  | e :: es =>
      '(r, ps) ← req_step_event e r;
      '(r, ps') ← req_run es r;
      Ok (r, ps ++ ps')
  end.

(** The tokens an event brings; every pass brings at least one. *)
Definition tokens_of (e : req_event) : list Z := match e with TokensIn new _ => new | _ => [] end.
Definition brings (e : req_event) : Prop := match e with TokensIn new _ => new <> [] | _ => True end.

(** Tokens for a request at work. *)
Lemma tokens_step r0 r ps new :
  sending r0 r ps -> can_decode r -> new <> [] ->
  finished_reason r = None -> finished_len r = None -> finished_output r = false ->
  out_length r < sp_max_new_tokens (o_sampling r) -> Forall unfinished ps -> sent_out ps `prefix_of` o_output_ids r ->
  exists r', process_tokens re_search new r = Ok r' /\ sending r0 r' ps /\ stage r' ps /\
    (finished r' = false -> o_output_ids r' = o_output_ids r ++ new).
Proof.
  intros HS Hc Hne H1 H2 H3 H4 H5 H6. assert (Hf : finished r = false) by (unfold finished; by rewrite H1).
  unfold process_tokens. rewrite Hf.
  set (r1 := set_output (o_output_ids r ++ new) r).
  assert (HS1 : sending r0 r1 ps) by (destruct HS as [[] ? ? ? ?]; by repeat split).
  assert (Hlen : out_length r1 = out_length r + length new) by (unfold out_length; simpl; apply length_app).
  assert (Hnz : 0 < length new) by (destruct new; [done|simpl; lia]).
  pose proof (prefix_length _ _ H6) as Hpl. fold (out_length r) in Hpl.
  destruct (to_finish r) as [reason|] eqn:Et.
  - unfold update_finish_state. change (finished r1) with (finished r). change (to_finish r1) with (to_finish r). rewrite Hf, Et. eexists. split; [done|]. split; [by destruct HS1 as [[] ? ? ? ?]; repeat split|].
    split; [|done]. assert (output_ids_through_stop (clear_to_finish (set_finish (Some reason) (finished_len r1) r1)) = o_output_ids r ++ new) as Eo.
    { unfold output_ids_through_stop. simpl. by rewrite H2. }
    apply at_end; rewrite ?Eo; try done; [by apply prefix_app_r|rewrite length_app; unfold out_length in Hpl; lia].
  - destruct (update_finish_run re_search (length new) r1) as (r2 & -> & Hu); [unfold finished; simpl; by rewrite H1|done|done|done|lia|simpl; lia|].
    exists r2. split; [done|]. destruct Hu as [[-> [[[Hlt _ _] _] _] ]|[k Hst] ].
    + split; [done|]. split; [|done]. apply at_work; try done. simpl. by apply prefix_app_r.
    + destruct (stops_out re_search _ _ _ _ Hst) as (Hfin & Hol & Htk). split.
      { destruct Hst as (? & ? & ? & _ & -> & _). by destruct HS1 as [[] ? ? ? ?]; repeat split. }
      split; [|by rewrite Hfin]. destruct Hst as (reason & out & len & _ & Er & Hl & Hk).
      assert (output_ids_through_stop r2 = take k (o_output_ids r2)) as Eo.
      { rewrite Er. unfold output_ids_through_stop. simpl. destruct Hl as [-> |[-> ->] ]; [done|].
        rewrite take_ge; [done|]. rewrite Er in Hol. by rewrite <- Hol. }
      assert (Eold : take (out_length r1 - length new) (o_output_ids r1) = o_output_ids r).
      { rewrite Hlen, Nat.add_sub. simpl. apply take_app_length. }
      apply at_end; rewrite ?Eo; try done; [by rewrite Er| |].
      * etrans; [exact H6|]. rewrite <- Eold, <- Htk. replace (out_length r1 - length new) with (Nat.min (out_length r1 - length new) k) by lia.
        rewrite <- take_take. apply prefix_take.
      * rewrite length_take. unfold out_length in *. lia.
Qed.

(** The streamer on one request. *)
Lemma stream_one r : req_step_event StreamOut r =
  if finished r && finished_output r then Ok (r, []) else
  '(r, p) ← accept di fi r; Ok (r, match p with Some p => [p] | None => [] end).
Proof.
  simpl. destruct (finished r && finished_output r); [done|]. destruct (accept di fi r) as [[r' [p|] ]|e]; done.
Qed.

Lemma stream_work r0 r ps :
  sending r0 r ps -> can_decode r -> 0 < di -> 0 < fi ->
  finished_reason r = None -> finished_len r = None -> finished_output r = false ->
  out_length r < sp_max_new_tokens (o_sampling r) -> Forall unfinished ps -> sent_out ps `prefix_of` o_output_ids r ->
  exists r' ps', req_step_event StreamOut r = Ok (r', ps') /\ sending r0 r' (ps ++ ps') /\ stage r' (ps ++ ps') /\
    finished r' = false /\ o_output_ids r' = o_output_ids r.
Proof.
  intros HS Hc Hd Hf H1 H2 H3 H4 H5 H6. rewrite stream_one. unfold accept. assert (Hfin : finished r = false) by (unfold finished; by rewrite H1). rewrite Hfin. cbn [andb].
  destruct (should_stream_run di fi r Hc Hd Hf) as [b ->]. bind_step. destruct b.
  - assert (output_ids_through_stop r = o_output_ids r) as Eo by (unfold output_ids_through_stop; by rewrite H2).
    pose proof (send_sending r0 r ps HS) as Hs. rewrite Eo in Hs. specialize (Hs H6). destruct (send r) as [r' p]. bind_step.
    destruct Hs as (Hsame & Hrow & HS' & Ho). destruct (same_req_facts r r' Hsame) as (F1 & F2 & F3 & F4 & F5 & F6 & F7 & F8 & F9).
    eexists r', [p]. split; [done|]. split; [done|]. split; [|unfold finished; by rewrite F3, H1].
    apply at_work; rewrite ?Ho, ?F1, ?F2; try congruence; try done.
    + unfold out_length. by rewrite F1.
    + apply Forall_app. split; [done|]. constructor; [|done]. unfold unfinished. rewrite (ro_reason _ _ Hrow), H1. done.
  - exists r, []. bind_step. rewrite app_nil_r. split; [done|]. split; [done|]. split; [by apply at_work|]. done.
Qed.

(** A payload that brings output brings ids for the detokenizer. *)
Lemma last_brings r0 r r' ps p : sending r0 r ps -> sending r0 r' (ps ++ [p]) ->
  length (sent_out ps) < length (sent_out (ps ++ [p])) -> r_decode_ids (p_row p) <> [].
Proof.
  intros HS HS' Hlt En. pose proof (se_ids _ _ _ HS' ltac:(by destruct ps)) as Hi. rewrite sent_ids_snoc, En, app_nil_r in Hi.
  destruct (decide (ps = [])) as [->|Hne].
  - symmetry in Hi. apply app_eq_nil in Hi as [_ Hi]. rewrite Hi in Hlt. simpl in Hlt. lia.
  - rewrite (se_ids _ _ _ HS Hne) in Hi. apply app_inv_head in Hi. rewrite <- Hi in Hlt. lia.
Qed.

Lemma stream_end r0 r ps :
  sending r0 r ps -> finished r = true -> finished_output r = false -> Forall unfinished ps ->
  sent_out ps `prefix_of` output_ids_through_stop r -> length (sent_out ps) < length (output_ids_through_stop r) ->
  exists r' ps', req_step_event StreamOut r = Ok (r', ps') /\ sending r0 r' (ps ++ ps') /\ stage r' (ps ++ ps') /\
    finished r' = true /\ finished_output r' = true.
Proof.
  intros HS H1 H2 H3 H4 H5. rewrite stream_one, H1, H2. cbn [andb]. unfold accept. rewrite H1, H2. cbn [negb py_assert mbind res_bind].
  set (r2 := match finished_len _ with None => _ | Some _ => _ end).
  assert (Hr2 : r2 = set_finish (finished_reason r) (Some (default (out_length r) (finished_len r))) (set_finished_output r)).
  { unfold r2. change (finished_len (set_finished_output r)) with (finished_len r). destruct (finished_len r) eqn:El; [|done]. simpl. rewrite <- El. by destruct r. }
  assert (Eo : output_ids_through_stop r2 = output_ids_through_stop r).
  { rewrite Hr2. unfold output_ids_through_stop. simpl. destruct (finished_len r); [done|]. simpl. by apply take_ge. }
  assert (HS2 : sending r0 r2 ps) by (rewrite Hr2; destruct HS as [[] ? ? ? ?]; by repeat split).
  pose proof (send_sending r0 r2 ps HS2) as Hs. rewrite Eo in Hs. specialize (Hs H4). destruct (send r2) as [r' p]. bind_step.
  destruct Hs as (Hsame & Hrow & HS' & Ho). destruct (same_req_facts r2 r' Hsame) as (F1 & F2 & F3 & F4 & F5 & F6 & F7 & F8 & F9).
  assert (Ef : finished_reason r' = finished_reason r) by (rewrite F3, Hr2; done).
  assert (Efin : finished r' = true) by (unfold finished in *; by rewrite Ef).
  assert (Efo : finished_output r' = true) by (rewrite F6, Hr2; done).
  assert (Er' : output_ids_through_stop r' = output_ids_through_stop r) by (rewrite <- Eo; unfold output_ids_through_stop; by rewrite F4, F1).
  exists r', [p]. split; [done|]. split; [done|]. split; [|done].
  apply (closed _ _ ps p); try done.
  - rewrite (ro_reason _ _ Hrow), Hr2, Ef. done.
  - rewrite Er'. intros E. by rewrite E in H5; simpl in H5; lia.
  - apply (last_brings r0 r r' ps p HS HS'). by rewrite Ho.
  - by rewrite Er'.
Qed.

(** Every event keeps the invariant. *)
Lemma event_step e r0 r ps :
  sending r0 r ps -> can_decode r0 -> stage r ps -> brings e -> 0 < di -> 0 < fi ->
  exists r' ps', req_step_event e r = Ok (r', ps') /\ sending r0 r' (ps ++ ps') /\ stage r' (ps ++ ps') /\
    (finished r' = false -> finished r = false /\ o_output_ids r' = o_output_ids r ++ tokens_of e) /\
    (e = StreamOut -> finished r' = true -> finished_output r' = true).
Proof.
  intros HS Hc0 Hst Hb Hd Hf. pose proof (fixed_decode _ _ (se_fixed _ _ _ HS) Hc0) as Hc.
  assert (Hstay : forall t, finished r = true -> e <> StreamOut -> req_step_event e r = Ok (t, []) -> sending r0 t ps -> stage t ps -> finished t = true ->
    exists r' ps', req_step_event e r = Ok (r', ps') /\ sending r0 r' (ps ++ ps') /\ stage r' (ps ++ ps') /\
      (finished r' = false -> finished r = false /\ o_output_ids r' = o_output_ids r ++ tokens_of e) /\
      (e = StreamOut -> finished r' = true -> finished_output r' = true)).
  { intros t H1 Hne E HSt Hstt Hft. exists t, []. rewrite app_nil_r. split; [done|]. split; [done|]. split; [done|]. by rewrite Hft. }
  destruct Hst as [H1 H2 H3 H4 H5 H6|H1 H2 H3 H4 H5|rows fin H1 H2 H3 H4 H5 H6 H7 H8].
  - assert (Hfin : finished r = false) by (unfold finished; by rewrite H1). destruct e as [new t| |].
    + destruct (tokens_step r0 (set_terminated t r) ps new) as (r' & E & HS' & Hst' & Ho); try done.
      { destruct HS as [[] ? ? ? ?]; by repeat split. }
      exists r', []. rewrite app_nil_r. simpl. rewrite E. bind_step. split; [done|]. split; [done|]. split; [done|].
      split; [|done]. intros Hf'. split; [done|]. by apply Ho.
    + destruct (stream_work r0 r ps HS Hc Hd Hf H1 H2 H3 H4 H5 H6) as (r' & ps' & -> & HS' & Hst' & Hf' & Ho).
      exists r', ps'. split; [done|]. split; [done|]. split; [done|]. rewrite Hf'. split; [|done]. intros _. simpl. by rewrite app_nil_r.
    + exists (abort_running r), []. rewrite app_nil_r. cbn [req_step_event]. unfold abort_running. rewrite Hfin. split; [done|].
      split; [destruct HS as [[] ? ? ? ?]; by repeat split|]. split; [by apply at_work|]. split; [|done]. intros _. cbn [tokens_of]. by rewrite app_nil_r.
  - destruct e as [new t| |].
    + apply (Hstay (set_terminated t r)); [done|done| |by destruct HS as [[] ? ? ? ?]; repeat split|by apply at_end|done].
      simpl. unfold process_tokens. change (finished (set_terminated t r)) with (finished r). by rewrite H1.
    + destruct (stream_end r0 r ps HS H1 H2 H3 H4 H5) as (r' & ps' & -> & HS' & Hst' & Hf' & Ho).
      exists r', ps'. split; [done|]. split; [done|]. split; [done|]. by rewrite Hf'.
    + apply (Hstay r); [done|done| |done|by apply at_end|done]. simpl. unfold abort_running. by rewrite H1.
  - destruct e as [new t| |].
    + apply (Hstay (set_terminated t r)); [done|done| |by destruct HS as [[] ? ? ? ?]; repeat split|by apply (closed _ _ rows fin)|done].
      simpl. unfold process_tokens. change (finished (set_terminated t r)) with (finished r). by rewrite H1.
    + exists r, []. rewrite stream_one, H1, H2, app_nil_r. split; [done|]. split; [done|]. split; [by apply (closed _ _ rows fin)|]. done.
    + apply (Hstay r); [done|done| |done|by apply (closed _ _ rows fin)|done]. simpl. unfold abort_running. by rewrite H1.
Qed.

Lemma req_run_inv es r0 r ps :
  sending r0 r ps -> can_decode r0 -> stage r ps -> Forall brings es -> 0 < di -> 0 < fi ->
  exists r' ps', req_run es r = Ok (r', ps') /\ sending r0 r' (ps ++ ps') /\ stage r' (ps ++ ps') /\
    (finished r' = false -> finished r = false /\ o_output_ids r' = o_output_ids r ++ concat (tokens_of <$> es)) /\
    (last es = Some StreamOut -> finished r' = true -> finished_output r' = true).
Proof.
  intros HS Hc Hst HF Hd Hf. revert r ps HS Hst. induction HF as [|e es Hb HF IH]; intros r ps HS Hst.
  { exists r, []. simpl. rewrite !app_nil_r. split; [done|]. split; [done|]. split; [done|]. by split. }
  destruct (event_step e r0 r ps HS Hc Hst Hb Hd Hf) as (r1 & ps1 & E1 & HS1 & Hst1 & Ho1 & Hl1).
  destruct (IH r1 (ps ++ ps1) HS1 Hst1) as (r' & ps' & E2 & HS2 & Hst2 & Ho2 & Hl2).
  exists r', (ps1 ++ ps'). cbn [req_run]. rewrite E1. bind_step. rewrite E2. bind_step. rewrite app_assoc.
  split; [done|]. split; [done|]. split; [done|]. split.
  - intros Hf'. destruct (Ho2 Hf') as [Hf1 ->]. destruct (Ho1 Hf1) as [Hf0 ->]. split; [done|]. simpl. by rewrite app_assoc.
  - destruct es as [|e' es].
    + simpl in E2 |- *. injection E2 as <- <-. intros [= ->]. by apply Hl1.
    + intros Hl. apply Hl2. by rewrite <- Hl.
Qed.

End generate.
