(* ===== verification/ReqFinishClaims.v ===== *)
(** * ReqFinishClaims: stopping and streaming a request

    When a running request stops and where; which text is held back; that every
    token is handed out once; and, with the detokenizer, that the client
    receives the text of the output. *)

From S2P Require Import Prelude Text Detokenizer DetokenizerSpec DetokStream DetokenizerClaims ReqFinish ReqFinishSpec.

Open Scope nat_scope.

(** C32: On a request whose last [n] tokens are new, the stop check returns,
    and its reasons have an order.  A request that has finished stays as it is.
    A pending abort ([to_finish]) comes before everything else: it becomes the
    reason and is cleared, the length is left open.  Otherwise the first of
    these that applies decides: the length limit; a terminated grammar, with
    the last token; the first new token outside the vocabulary, which is
    replaced by an end-of-sequence or stop token id; the first stop string, in
    the order given, that is in the decoded tail or in earlier text; the first
    stop expression that matches the tail; the first new stop token, unless
    end-of-sequence is ignored.  The stop is behind a new token: that token,
    or for text the first new token up to which the decoded window matches.
    If none applies the request is unchanged. *)
Theorem update_finish_state_correct re_search n r :
  finished_len r = None -> can_decode r -> 1 <= n <= out_length r -> out_length r - n < sp_max_new_tokens (o_sampling r) ->
  exists r', update_finish_state re_search n r = Ok r' /\
    if finished r then r' = r else
    match to_finish r with
    | Some reason => r' = clear_to_finish (set_finish (Some reason) None r)
    | None => r' = r /\ goes_on re_search n r \/ exists k, stops re_search n r r' k
    end.
Proof.
  intros Hl Hc Hn Hm. destruct (finished r) eqn:Ef; [exists r; unfold update_finish_state; by rewrite Ef|].
  destruct (to_finish r) as [reason|] eqn:Et; [|by apply update_finish_run].
  eexists. unfold update_finish_state. by rewrite Ef, Et, Hl.
Qed.

(** The position of a matched stop string or expression
    is the first count of new tokens whose decoded window matches, and the end
    of the output if none before it does. *)
Theorem stop_located_first n matched r tk : o_tokenizer r = Some tk -> 1 <= n <= out_length r ->
  exists k, locate_str_stop_finished_len n matched r = Ok k /\ out_length r - n < k <= out_length r /\
    (forall j, out_length r - n < j < k -> out_length r - stop_match_tail_len n r < j ->
       matched (rt_decode tk (take (j - (out_length r - stop_match_tail_len n r)) (stop_window n r))) = false) /\
    (k < out_length r -> matched (rt_decode tk (take (k - (out_length r - stop_match_tail_len n r)) (stop_window n r))) = true).
Proof. apply locate_run. Qed.

(** Streaming is held back exactly when the decoded
    tail contains a stop string or ends with a proper beginning of one. *)
Theorem stop_prefix_held_back r tail : can_decode r -> tail_str 1 r = Ok tail ->
  exists b, check_match_stop_str_prefix r = Ok b /\
    (b = true <-> exists s, s ∈ stop_strs (o_sampling r) /\ s <> [] /\ tail <> [] /\
       ((exists i, occurs_at s tail i) \/ exists a u c, tail = a ++ u /\ s = u ++ c /\ u <> [])).
Proof.
  intros Hc Ht. unfold check_match_stop_str_prefix. rewrite Ht. bind_step.
  destruct (Nat.eqb_spec (length (stop_strs (o_sampling r))) 0) as [E|E].
  { exists false. split; [done|]. split; [done|]. intros (s & Hs & _). destruct (stop_strs _); [by apply elem_of_nil in Hs|done]. }
  destruct (Nat.eqb_spec (length tail) 0) as [El|El].
  { exists false. split; [done|]. split; [done|]. intros (s & _ & _ & Hne & _). by destruct tail. }
  eexists. split; [done|]. rewrite existsb_exists. split.
  - intros (s & Hs & Hb). apply andb_true_iff in Hb as [Hn%negb_true_iff%Nat.eqb_neq Hb]. exists s.
    split; [by apply list_elem_of_In|]. split; [by destruct s|]. split; [by destruct tail|].
    apply orb_true_iff in Hb as [Hb|Hb]; [left; by apply py_in_iff|right; by apply overlaps_iff].
  - intros (s & Hs & Hn & _ & Hb). exists s. split; [by apply list_elem_of_In|]. apply andb_true_iff. split.
    + apply negb_true_iff, Nat.eqb_neq. by destruct s.
    + apply orb_true_iff. destruct Hb as [Hb|Hb]; [left; by apply py_in_iff|right; by apply overlaps_iff].
Qed.

(** A new request. *)
Record fresh (r : OReq) : Prop := {
  fr_output : o_output_ids r = [];
  fr_finished : finished_reason r = None;
  fr_to_finish : to_finish r = None;
  fr_len : finished_len r = None;
  fr_sent : finished_output r = false;
  fr_decode : can_decode r;
  fr_room : 0 < sp_max_new_tokens (o_sampling r);
  fr_text : o_decoded_text r = [];
  fr_offsets : o_surr_offset r = None /\ send_decode_id_offset r = 0 /\ send_token_offset r = 0;
}.

Lemma fresh_sending r : fresh r -> sending r r [] /\ stage r [].
Proof.
  intros [H1 H2 H3 H4 H5 H6 H7 H8 (H9 & H10 & H11)]. split.
  - split; [done|done|by left|done|done].
  - apply at_work; try done; [unfold out_length; by rewrite H1|apply prefix_nil].
Qed.

(** C33: Whatever happens to a request, in whatever order - passes bring one
    or more tokens, the streamer runs, also several times in a row and after
    the end, an abort comes in - and whatever the stream intervals, no step
    raises, and no token is sent twice or left out.  At any time the token ids
    sent to the client are a beginning of the output (up to the stop, once
    there is one), and those sent to the detokenizer are the end of the prompt
    followed by the same tokens.  While the request is not finished its output
    is all that came in.  A payload with a finish reason is sent at most once,
    as the last payload; then all of the output up to the stop is out.  After
    the end it is out as soon as the streamer has run. *)
Theorem tokens_handed_out_once re_search di fi es r :
  fresh r -> Forall brings es -> 0 < di -> 0 < fi ->
  exists r' ps, req_run re_search di fi es r = Ok (r', ps) /\
    sent_out ps `prefix_of` output_ids_through_stop r' /\
    (ps <> [] -> sent_ids ps = prompt_tail r ++ sent_out ps) /\
    (finished r' = false -> o_output_ids r' = concat (tokens_of <$> es)) /\
    (if finished_output r' then
       finished r' = true /\ sent_out ps = output_ids_through_stop r' /\
       exists rows fin, ps = rows ++ [fin] /\ Forall unfinished rows /\ r_finished (p_row fin) = to_json <$> finished_reason r'
     else Forall unfinished ps) /\
    (finished r' = true -> last es = Some StreamOut -> finished_output r' = true).
Proof.
  intros Hr HF Hd Hf. destruct (fresh_sending r Hr) as [HS Hst].
  destruct (req_run_inv re_search di fi es r r [] HS (fr_decode _ Hr) Hst HF Hd Hf) as (r' & ps & E & HS' & Hst' & Ho & Hl).
  simpl in HS', Hst'. exists r', ps. split; [done|]. split.
  { destruct Hst' as [? H2 ? ? ? H6| |? ? ? ? ? ? ? ? ? H7]; [|done|by rewrite H7]. unfold output_ids_through_stop. by rewrite H2. }
  split; [apply HS'|]. split; [intros Hf'; destruct (Ho Hf') as [_ ->]; by rewrite (fr_output _ Hr)|]. split; [|by auto].
  destruct Hst' as [? ? H3 ? ? ?|? H2 ? ? ?|rows fin H1 H2 H3 H4 H5 _ _ H7]; [by rewrite H3|by rewrite H2|].
  rewrite H2. split; [done|]. split; [done|]. by exists rows, fin.
Qed.

(** The decoder the detokenizer uses for a request. *)
Definition request_decode `{Tokenizer} (args : DetokArgs) (r : OReq) : list Z -> text :=
  let sp := o_sampling r in
  if disable_tokenizer_batch_decode args then tk_decode_with (skip_special_tokens sp) (spaces_between_special_tokens sp)
  else decode_row (skip_special_tokens sp) (spaces_between_special_tokens sp).

Lemma row_for_request `{Tokenizer} args r row :
  o_decoded_text r = [] -> row_for r row -> of_request args (request_decode args r) (length (prompt_tail r)) row.
Proof.
  intros Ht (E1 & E2 & E3 & E4 & E5). split; [|by rewrite E1|done]. intros ids. unfold row_decode, request_decode. rewrite E3, E4.
  by destruct (disable_tokenizer_batch_decode args).
Qed.

(** C31: From the scheduler to the client.  Take a fresh request and any run
    of events - steps of one or more tokens, runs of the streamer, an abort -
    after which its last payload is out.  The detokenizer handles all the rows
    sent for it without an exception, and forgets the request.  With [full] the
    text of the whole output up to the stop, decoded at once after the text of
    the last prompt tokens and without the matched stop, the pieces of text
    the client receives add up to [full]; if the stop string begins inside
    text that was sent before it was complete, the pieces are longer than
    [full], and the client keeps what it was sent.  Conditions: the decoder is
    incremental ([IncrementalDecoder]: it keeps complete characters, and a
    window of tokens that brought text determines what follows, as for
    byte-level and SentencePiece decoders); and no step takes back text it has
    announced ([steady]), which holds if the decoder's text has no CJK
    characters. *)
Theorem client_text_end_to_end `{Tokenizer} args re_search di fi es r r' ps :
  let D := request_decode args r in
  fresh r -> Forall brings es -> 0 < di -> 0 < fi -> IncrementalDecoder D ->
  req_run re_search di fi es r = Ok (r', ps) -> finished_output r' = true ->
  steady args (p_row <$> removelast ps) None = true \/ (forall ids, no_cjk (D ids)) ->
  exists outs out kept, run_rows args (p_row <$> ps) None = Ok (None, outs ++ [out]) /\
    let reason := to_json <$> finished_reason r' in
    let trim := no_stop_trim (o_sampling r) in
    trim_matched_ids (is_tool_call_parser_gpt_oss args) (prompt_tail r ++ output_ids_through_stop r') reason trim = Ok kept /\
    let full := trim_matched_str (text_after D (length (prompt_tail r)) kept) reason trim in
    concat (outs ++ [out]) = if (length (concat outs) <=? length full) then full else concat outs.
Proof.
  intros D Hr HF Hd Hf HD E Hfo Hst. destruct (fresh_sending r Hr) as [HS Hstage].
  destruct (req_run_inv re_search di fi es r r [] HS (fr_decode _ Hr) Hstage HF Hd Hf) as (r1 & ps1 & E1 & HS' & Hst' & _).
  rewrite E in E1. injection E1 as <- <-. simpl in HS', Hst'.
  destruct Hst' as [? ? H3 ? ? ?|? H2 ? ? ?|rows fin H1 _ -> H4 H5 Hout Hfne H7]; [congruence|congruence|].
  rewrite removelast_last in Hst. rewrite fmap_app. cbn [fmap list_fmap].
  destruct HS' as [_ HR Hh Hids Hs]. specialize (Hids ltac:(by destruct rows)). apply Forall_app in HR as [HR Hfin]. apply Forall_cons in Hfin as [Hfin _].
  assert (Hcat : concat (r_decode_ids <$> (p_row <$> rows)) ++ r_decode_ids (p_row fin) = prompt_tail r ++ output_ids_through_stop r').
  { rewrite <- H7, <- Hids, sent_ids_snoc. by rewrite <- list_fmap_compose. }
  destruct (stream_rows_run args D (length (prompt_tail r)) (p_row <$> rows) (p_row fin)) as (outs & out & kept & E2 & Ek & Eo); try done.
  - apply Forall_fmap. apply Forall_forall. intros p Hp. rewrite Forall_forall in HR, H4. split; [|by apply H4].
    apply row_for_request; [apply Hr|by apply HR].
  - apply row_for_request; [apply Hr|exact Hfin].
  - rewrite H5. unfold finished in H1. by destruct (finished_reason r').
  - by rewrite fmap_app in Hs.
  - rewrite Hcat, length_app. destruct (output_ids_through_stop r'); [done|]. simpl. lia.
  - exists outs, out, kept. split; [done|]. rewrite Hcat, H5 in Ek. rewrite H5 in Eo.
    destruct Hfin as (_ & _ & _ & _ & Et). rewrite Et in Ek, Eo. done.
Qed.

(** A step that brings a stop token and then more
    tokens up to the length limit ends for the length: the output sent keeps
    the tokens after the stop token, and the reason says length. *)
Theorem stop_before_limit_ignored re_search r a z b :
  finished r = false -> to_finish r = None -> is_stop_token r z = true ->
  o_output_ids r = a ++ z :: b -> b <> [] -> sp_max_new_tokens (o_sampling r) = out_length r ->
  exists r', update_finish_state re_search (S (length b)) r = Ok r' /\
    finished_reason r' = Some (FINISH_LENGTH (out_length r)) /\ output_ids_through_stop r' = a ++ z :: b.
Proof.
  intros Hf Ht Hz Ho Hb Hm. unfold update_finish_state. rewrite Hf, Ht, Hm, Nat.leb_refl. eexists. split; [done|]. split; [done|].
  unfold output_ids_through_stop. simpl. unfold out_length. rewrite take_ge by done. done.
Qed.

(** ** Concrete runs *)

(** A tokenizer whose decoder takes off one leading space. *)
#[local] Instance spm_tokenizer : Tokenizer := {|
  tk_is_fast := true; tk_special_ids := None; tk_decode := spm_decode;
  tk_decode_with _ _ := spm_decode; tk_batch_decode _ _ l := spm_decode <$> l;
|}.

Definition plain_search (pattern t : text) : bool := py_in pattern t.

(** Stop string "ok", stop token 7, vocabulary of 200 tokens. *)
Definition demo_sampling : Sampling := mkSampling 6 false [7%Z] [[111; 107]%Z] [] 2 0 None true true false.
Definition demo_tk : ReqTokenizer := mkReqTok spm_decode (Some 9%Z) [].

Definition demo_out (out : list Z) : OReq :=
  mkOReq "a" [65; 66]%Z out demo_sampling (Some demo_tk) [] 200 None true None None false None [] None None [] 0 0 0.

Lemma demo_fresh : fresh (demo_out []).
Proof. split; try done; [right; by exists demo_tk|vm_compute; lia]. Qed.

Lemma demo_can_decode out : can_decode (demo_out out).
Proof. right. by exists demo_tk. Qed.

Lemma update_finish_state_correct_witness :
  exists r', update_finish_state plain_search 2 (demo_out [104; 7; 105]%Z) = Ok r' /\
    (r' = demo_out [104; 7; 105]%Z /\ goes_on plain_search 2 (demo_out [104; 7; 105]%Z) \/
     exists k, stops plain_search 2 (demo_out [104; 7; 105]%Z) r' k).
Proof.
  apply (update_finish_state_correct plain_search 2 (demo_out [104; 7; 105]%Z));
    [reflexivity|apply demo_can_decode|vm_compute; lia|vm_compute; lia].
Defined.

(** A stop token and a stop string in one step: the stop string wins. *)
Example demo_precedence : exists r', update_finish_state plain_search 3 (demo_out [7; 111; 107]%Z) = Ok r' /\
  finished_reason r' = Some (FINISH_MATCHED_STR [111; 107]%Z) /\ finished_len r' = Some 3.
Proof. eexists. split; [vm_compute; reflexivity|]. split; reflexivity. Qed.

Example demo_stop : exists r', update_finish_state plain_search 2 (demo_out [104; 7; 105]%Z) = Ok r' /\
  finished_reason r' = Some (FINISH_MATCHED_TOKEN 7) /\ output_ids_through_stop r' = [104; 7]%Z.
Proof. eexists. split; [vm_compute; reflexivity|]. split; reflexivity. Qed.

Lemma stop_located_first_witness :
  let r := demo_out [104; 111; 107; 105]%Z in
  exists k, locate_str_stop_finished_len 2 (py_in [111; 107]%Z) r = Ok k /\ out_length r - 2 < k <= out_length r /\
    (forall j, out_length r - 2 < j < k -> out_length r - stop_match_tail_len 2 r < j ->
       py_in [111; 107]%Z (rt_decode demo_tk (take (j - (out_length r - stop_match_tail_len 2 r)) (stop_window 2 r))) = false) /\
    (k < out_length r -> py_in [111; 107]%Z (rt_decode demo_tk (take (k - (out_length r - stop_match_tail_len 2 r)) (stop_window 2 r))) = true).
Proof.
  apply (stop_located_first 2 (py_in [111; 107]%Z) (demo_out [104; 111; 107; 105]%Z) demo_tk); [reflexivity|vm_compute; lia].
Defined.

Lemma stop_prefix_held_back_witness :
  exists b, check_match_stop_str_prefix (demo_out [104; 111]%Z) = Ok b /\
    (b = true <-> exists s, s ∈ stop_strs demo_sampling /\ s <> [] /\ [104; 111]%Z <> ([] : text) /\
       ((exists i, occurs_at s [104; 111]%Z i) \/ exists a u c, [104; 111]%Z = a ++ u /\ s = u ++ c /\ u <> [])).
Proof. apply (stop_prefix_held_back (demo_out [104; 111]%Z) [104; 111]%Z); [apply demo_can_decode|vm_compute; reflexivity]. Defined.

(** "h", a space, "o", which is held back, then "k" in the same step as a
    further token; the streamer runs after every step, and once more at the
    end; an abort comes too late. *)
Definition demo_events : list req_event :=
  [TokensIn [104]%Z false; StreamOut; TokensIn [32]%Z false; StreamOut; TokensIn [111]%Z false; StreamOut;
   TokensIn [107; 33]%Z false; AbortIn; StreamOut; StreamOut].

Lemma demo_brings : Forall brings demo_events.
Proof. repeat constructor; discriminate. Qed.

(** The run: the state at the end, and what was sent. *)
Definition demo_end : OReq * list Payload :=
  match req_run plain_search 1 50 demo_events (demo_out []) with Ok x => x | Raise _ => (demo_out [], []) end.

Example demo_end_stop : finished_reason demo_end.1 = Some (FINISH_MATCHED_STR [111; 107]%Z) /\
  map p_output_ids demo_end.2 = [[104]; [32]; [111; 107] ]%Z.
Proof. split; vm_compute; reflexivity. Qed.

Lemma tokens_handed_out_once_witness :
  exists r' ps, req_run plain_search 1 50 demo_events (demo_out []) = Ok (r', ps) /\
    sent_out ps `prefix_of` output_ids_through_stop r' /\
    (ps <> [] -> sent_ids ps = prompt_tail (demo_out []) ++ sent_out ps) /\
    (finished r' = false -> o_output_ids r' = concat (tokens_of <$> demo_events)) /\
    (if finished_output r' then
       finished r' = true /\ sent_out ps = output_ids_through_stop r' /\
       exists rows fin, ps = rows ++ [fin] /\ Forall unfinished rows /\ r_finished (p_row fin) = to_json <$> finished_reason r'
     else Forall unfinished ps) /\
    (finished r' = true -> last demo_events = Some StreamOut -> finished_output r' = true).
Proof. apply (tokens_handed_out_once plain_search 1 50 demo_events (demo_out [])); [apply demo_fresh|apply demo_brings|lia|lia]. Defined.

Lemma client_text_end_to_end_witness :
  exists outs out kept, run_rows demo_detok (p_row <$> demo_end.2) None = Ok (None, outs ++ [out]) /\
    let reason := to_json <$> finished_reason demo_end.1 in
    let trim := no_stop_trim (o_sampling (demo_out [])) in
    trim_matched_ids (is_tool_call_parser_gpt_oss demo_detok) (prompt_tail (demo_out []) ++ output_ids_through_stop demo_end.1) reason trim
      = Ok kept /\
    let full := trim_matched_str (text_after (request_decode demo_detok (demo_out [])) (length (prompt_tail (demo_out []))) kept) reason trim in
    concat (outs ++ [out]) = if (length (concat outs) <=? length full) then full else concat outs.
Proof.
  apply (client_text_end_to_end demo_detok plain_search 1 50 demo_events (demo_out []) demo_end.1 demo_end.2);
    [apply demo_fresh|apply demo_brings|lia|lia|apply spm_incremental|vm_compute; reflexivity|vm_compute; reflexivity|].
  left. vm_compute. reflexivity.
Defined.

Example client_gets : run_rows demo_detok (p_row <$> demo_end.2) None = Ok (None, [[104]; [32]; [] ])%Z.
Proof. vm_compute. reflexivity. Qed.

Lemma stop_before_limit_ignored_witness :
  exists r', update_finish_state plain_search 2 (demo_out [1; 2; 3; 4; 7; 5]%Z) = Ok r' /\
    finished_reason r' = Some (FINISH_LENGTH 6) /\ output_ids_through_stop r' = [1; 2; 3; 4; 7; 5]%Z.
Proof.
  apply (stop_before_limit_ignored plain_search (demo_out [1; 2; 3; 4; 7; 5]%Z) [1; 2; 3; 4]%Z 7 [5]%Z);
    [reflexivity|reflexivity|reflexivity|reflexivity|discriminate|reflexivity].
Defined.
