(* ===== verification/ScheduleBatch.v ===== *)
(** * ScheduleBatch: the batch of requests that runs on the model

    Models class [ScheduleBatch] of [managers/schedule_batch.py]: preparing a
    batch for prefill and for decode, filtering, merging and mixing batches,
    the memory check before a decode step, and the retraction of requests when
    memory is short.  The tensors that mirror the requests are lists kept beside
    them, as in the code.  Left out are the fields of multimodal,
    encoder-decoder, mamba and sparse-attention batches, the sampling tensors,
    and the statistics of cached tokens. *)

From S2P Require Import Prelude RadixKey RadixNode RadixTree ReqPool ReqCache Allocator Allocation SchedDelay SchedPolicy PrefillAdder.
From Stdlib Require Import QArith.
Import RecvSkipper.

Open Scope nat_scope.

(** ** The batch *)

Record SBatch := mkSB {
  sb_reqs : list SReq;
  sb_forward_mode : option ForwardMode;
  sb_req_pool_indices : list nat;
  sb_seq_lens : list nat;
  sb_orig_seq_lens : list nat;
  sb_out_cache_loc : option (list Z);
  sb_seq_lens_sum : option nat;
  sb_prefix_lens : list nat;
  sb_extend_lens : list nat;
  sb_extend_num_tokens : nat;
  sb_extend_logprob_start_lens : list Z;
  sb_mix_running_indices : option (list nat);
  sb_return_logprob : bool;
  sb_top_logprobs_nums : option (list nat);
  sb_is_prefill_only : bool;
  sb_prefill_input_ids : list Z;
  sb_extend_input_logprob_token_ids : option (list Z);
}.

Definition batch_size (b : SBatch) : nat := length (sb_reqs b).
Definition is_empty (b : SBatch) : bool := (length (sb_reqs b) =? 0).

(** ** Logprobs of the prompt *)

Definition compute_extend_logprob_start_len (logprob_start_len : Z) (prefix_len extend_len full_len : nat) : Z :=
  let resolved_start :=
    if (logprob_start_len =? -1)%Z then Z.of_nat full_len else Z.max logprob_start_len (Z.of_nat prefix_len) in
  Z.min (resolved_start - Z.of_nat prefix_len) (Z.of_nat extend_len).

(** [l[a:b]] of a list, [a] and [b] not negative. *)
Definition zslice {A} (a b : Z) (l : list A) : list A := slice (Z.to_nat a) (Z.to_nat b) l.

(** The tokens whose logprobs the pass computes for one request, padded. *)
Definition logprob_token_ids (r : SReq) (extend_len : nat) (start_len : Z) : list Z :=
  let q := sreq r in
  let start := Z.of_nat (length (prefix_indices q)) in
  let logprob_start := if (logprob_start_len r =? -1)%Z then Z.of_nat (length (origin_input_ids q)) else logprob_start_len r in
  let start := if (start <? logprob_start)%Z then logprob_start else start in
  let ids := zslice (start + 1) (Z.of_nat (extend_end q) + 1) (origin_input_ids q) in
  ids ++ replicate (Z.to_nat (Z.of_nat extend_len - start_len - Z.of_nat (length ids))) 0%Z.

(** [clamp_(0, vocab_size - 1)]. *)
Definition clamp (vocab_size x : Z) : Z := Z.min (Z.max x 0) (vocab_size - 1).

(** ** Prefill *)

Definition range_length (r : SReq) : nat :=
  match extend_range r with Some (a, b) => Z.to_nat (b - a) | None => 0 end.

Definition set_committed n (r : Req) : Req :=
  mkReq (origin_input_ids r) (output_ids r) (full_untruncated_fill_ids r) (extend_end r) (req_extra_key r) (req_priority r) (session_id r)
    (skip_radix_cache_insert r) (cache_protected_len r) (prefix_indices r) (last_node r) (req_pool_idx r) n (kv_allocated_len r)
    (inflight_middle_chunks r) (reasoning_tokens r).

Definition put_req (q : Req) (r : SReq) : SReq := upd_req q (extend_range r) (swa_uuid_for_lock r) r.

Section with_env.
Context `{Env}.
(** The contents of uninitialised memory; [r.logprob.top_logprobs_num]. *)
Context (fill : Z) (uninit : list Z) (top_logprobs_num : SReq -> nat).

(** The loop over the requests after the allocation. *)
Fixpoint commit_extend (rs : list Req) (reqs : list SReq) (seq_lens prefix_lens : list nat) : res (list SReq) :=
  match rs, reqs, seq_lens, prefix_lens with
  | q :: rs, r :: reqs, seq_len :: seq_lens, pre_len :: prefix_lens =>
      _ ← py_assert (Z.of_nat seq_len - Z.of_nat pre_len =? Z.of_nat (range_length r))%Z;
      reqs ← commit_extend rs reqs seq_lens prefix_lens;
      Ok (put_req (set_committed seq_len q) r :: reqs)
  | _, _, _, _ => Ok []
  end.

Definition prepare_for_extend (dllm : bool) (vocab_size : Z) (b : SBatch) (s : Store) : res (SBatch * Store) :=
  let reqs := sb_reqs b in
  let qs := sreq <$> reqs in
  let input_ids := (fun q => drop (length (prefix_indices q)) (get_fill_ids q)) <$> qs in
  let extend_num_tokens := length (concat input_ids) in
  let seq_lens := extend_end <$> qs in
  let orig_seq_lens := (fun q => Nat.max (extend_end q) (length (origin_input_ids q))) <$> qs in
  let prefix_lens := (fun q => length (prefix_indices q)) <$> qs in
  let extend_lens := range_length <$> reqs in
  let start_lens := (fun r => compute_extend_logprob_start_len (logprob_start_len r) (length (prefix_indices (sreq r)))
                                (range_length r) (length (full_untruncated_fill_ids (sreq r)))) <$> reqs in
  '(tc, al, p, rs, out_cache_loc) ←
    alloc_for_extend fill uninit (mkBatch qs prefix_lens extend_lens seq_lens extend_num_tokens) (st_pool s) (st_cache s) (st_alloc s);
  reqs' ← commit_extend rs reqs seq_lens prefix_lens;
  rows ← mapM (fun q => or_raise TypeError (req_pool_idx q)) rs;
  let logprob_ids :=
    if sb_return_logprob b
    then Some (clamp vocab_size <$> concat (zip_with (fun r x => logprob_token_ids r (range_length r) x) reqs start_lens))
    else None in
  Ok (mkSB reqs' (Some (if dllm then DLLM_EXTEND else EXTEND)) rows seq_lens orig_seq_lens (Some out_cache_loc)
        (Some (sum_list seq_lens)) prefix_lens extend_lens extend_num_tokens start_lens (sb_mix_running_indices b)
        (sb_return_logprob b) (if sb_return_logprob b then Some (top_logprobs_num <$> reqs) else sb_top_logprobs_nums b)
        (sb_is_prefill_only b) (concat input_ids) logprob_ids,
      mkStore tc al p).

(** ** Decode *)

(** Without speculative decoding. *)
Definition prepare_for_decode (b : SBatch) (s : Store) : res (SBatch * Store) :=
  '(tc, al, p, rs, out_cache_loc) ←
    alloc_for_decode fill uninit (sreq <$> sb_reqs b) (sb_req_pool_indices b) (sb_seq_lens b) 1 (st_pool s) (st_cache s) (st_alloc s);
  let reqs := zip_with (fun q r => put_req (set_committed (kv_committed_len q + 1) q) r) rs (sb_reqs b) in
  Ok (mkSB reqs (Some DECODE) (sb_req_pool_indices b) (S <$> sb_seq_lens b) (S <$> sb_orig_seq_lens b) (Some out_cache_loc) None
        (sb_prefix_lens b) (sb_extend_lens b) (sb_extend_num_tokens b) (sb_extend_logprob_start_lens b) (sb_mix_running_indices b)
        (sb_return_logprob b) (sb_top_logprobs_nums b) (sb_is_prefill_only b) (sb_prefill_input_ids b) (sb_extend_input_logprob_token_ids b),
      mkStore tc al p).

End with_env.

(** ** Filtering and merging *)

Definition pick {A} (keep : list nat) (l : list A) : res (list A) := mapM (fun i => or_raise IndexError (l !! i)) keep.

Definition keep_unfinished (exclude : list string) (b : SBatch) : list nat :=
  List.filter (fun i => match sb_reqs b !! i with
                        | Some r => negb (req_finished r) && negb (bool_decide (rid r ∈ exclude))
                        | None => false
                        end) (seq 0 (length (sb_reqs b))).

Definition set_reqs x (b : SBatch) : SBatch :=
  mkSB x (sb_forward_mode b) (sb_req_pool_indices b) (sb_seq_lens b) (sb_orig_seq_lens b) (sb_out_cache_loc b) (sb_seq_lens_sum b)
    (sb_prefix_lens b) (sb_extend_lens b) (sb_extend_num_tokens b) (sb_extend_logprob_start_lens b) (sb_mix_running_indices b)
    (sb_return_logprob b) (sb_top_logprobs_nums b) (sb_is_prefill_only b) (sb_prefill_input_ids b) (sb_extend_input_logprob_token_ids b).

(** [filter_batch]; [exclude] are the ids of the chunked requests. *)
Definition filter_batch (exclude : list string) (keep_indices : option (list nat)) (b : SBatch) : res SBatch :=
  let keep := match keep_indices with Some k => k | None => keep_unfinished exclude b end in
  if (length keep =? 0) then Ok (set_reqs [] b)
  else if (length keep =? length (sb_reqs b)) then Ok b
  else
    reqs ← pick keep (sb_reqs b);
    rows ← pick keep (sb_req_pool_indices b);
    seq_lens ← pick keep (sb_seq_lens b);
    orig ← pick keep (sb_orig_seq_lens b);
    let lp := existsb return_logprob reqs in
    tops ← (if lp then
              l ← or_raise TypeError (sb_top_logprobs_nums b);
              l ← pick keep l;
              Ok (Some l)
            else Ok None);
    Ok (mkSB reqs (sb_forward_mode b) rows seq_lens orig None None (sb_prefix_lens b) (sb_extend_lens b) (sb_extend_num_tokens b)
          (sb_extend_logprob_start_lens b) (sb_mix_running_indices b) lp tops (sb_is_prefill_only b) (sb_prefill_input_ids b)
          (sb_extend_input_logprob_token_ids b)).

Definition merge_tops (b other : SBatch) : res (option (list nat)) :=
  if sb_return_logprob b && sb_return_logprob other then
    x ← or_raise TypeError (sb_top_logprobs_nums b);
    y ← or_raise TypeError (sb_top_logprobs_nums other);
    Ok (Some (x ++ y))
  else if sb_return_logprob b then
    x ← or_raise TypeError (sb_top_logprobs_nums b);
    Ok (Some (x ++ replicate (length (sb_reqs other)) 0))
  else if sb_return_logprob other then
    y ← or_raise TypeError (sb_top_logprobs_nums other);
    Ok (Some (replicate (length (sb_reqs b)) 0 ++ y))
  else Ok (sb_top_logprobs_nums b).

Definition merge_batch (b other : SBatch) : res SBatch :=
  tops ← merge_tops b other;
  Ok (mkSB (sb_reqs b ++ sb_reqs other) (sb_forward_mode b) (sb_req_pool_indices b ++ sb_req_pool_indices other)
        (sb_seq_lens b ++ sb_seq_lens other) (sb_orig_seq_lens b ++ sb_orig_seq_lens other) None None
        (sb_prefix_lens b) (sb_extend_lens b) (sb_extend_num_tokens b) (sb_extend_logprob_start_lens b) (sb_mix_running_indices b)
        (sb_return_logprob b || sb_return_logprob other) tops (sb_is_prefill_only b && sb_is_prefill_only other)
        (sb_prefill_input_ids b) (sb_extend_input_logprob_token_ids b)).

(** The requests of the running batch extend by their last token; none is
    empty, so the lengths below are positive. *)
Definition mix_req (r : SReq) : SReq :=
  let q := refresh_fill_ids false (sreq r) in
  let full_len := Z.of_nat (length (full_untruncated_fill_ids q)) in
  set_extend_range (full_len - 1) full_len (put_req q r).

Definition mix_with_running (enable_overlap : bool) (b running : SBatch) : res SBatch :=
  let running := set_reqs (mix_req <$> sb_reqs running) running in
  let running_bs := batch_size running in
  x ← or_raise TypeError (sb_out_cache_loc b);
  y ← or_raise TypeError (sb_out_cache_loc running);
  m ← merge_batch b running;
  let delta := if enable_overlap then 0 else 1 in
  Ok (mkSB (sb_reqs m) (Some MIXED) (sb_req_pool_indices m) (sb_seq_lens m) (sb_orig_seq_lens m) (Some (x ++ y)) (sb_seq_lens_sum m)
        (sb_prefix_lens b ++ ((fun r => length (origin_input_ids (sreq r)) + length (output_ids (sreq r)) - delta) <$> sb_reqs running))
        (sb_extend_lens b ++ replicate running_bs 1) (sb_extend_num_tokens b + running_bs)
        (sb_extend_logprob_start_lens b ++ replicate running_bs 0%Z) (Some (sb_req_pool_indices running))
        (sb_return_logprob m) (sb_top_logprobs_nums m) false (sb_prefill_input_ids m) (sb_extend_input_logprob_token_ids m)).

(** ** Memory for the next decode step *)

Section memory.
Context `{Env}.

(** [None]: no speculative decoding. *)
Definition new_tokens_required_next_decode (spec : option SpecArgs) (page_size : nat) (reqs : list SReq) : res nat :=
  match spec with
  | None => Ok (length (List.filter (fun r => (kv_committed_len (sreq r) mod page_size =? 0)) reqs) * page_size)
  | Some sa =>
      reserve ← get_alloc_reserve_per_decode sa;
      ns ← mapM (fun r =>
             cur ← or_raise AttributeError (kv_allocated_len (sreq r));
             let x := kv_committed_len (sreq r) + reserve - cur in
             Ok (ceil_align (cur + x) page_size - ceil_align cur page_size)) reqs;
      Ok (sum_list ns)
  end.

(** [check_decode_mem] on the requests at [selected]. *)
Definition check_decode_mem (spec : option SpecArgs) (reqs : list SReq) (selected : list nat) (s : Store) : res (Store * bool) :=
  rs ← pick selected reqs;
  num_tokens ← new_tokens_required_next_decode spec (kvp_page_size (st_alloc s)) rs;
  '(tc, al) ← evict_for (st_cache s) num_tokens (st_alloc s);
  Ok (mkStore tc al (st_pool s), (Z.of_nat num_tokens <=? kv_available al)%Z).

(** ** Retraction *)

Inductive RetractionPolicy := ByLength | ByPriority.

Definition length_key (r : SReq) : list atom :=
  [zatom (Z.of_nat (length (output_ids (sreq r)))); zatom (- Z.of_nat (length (origin_input_ids (sreq r))))].

Definition MAXSIZE : Z := 2 ^ 63 - 1.

Definition retraction_key (policy : RetractionPolicy) (low_first : bool) (r : SReq) : list atom :=
  match policy with
  | ByLength => length_key r
  | ByPriority =>
      let sign := if low_first then 1%Z else (-1)%Z in
      let p := match req_priority (sreq r) with Some p => p | None => if low_first then MAXSIZE else (- MAXSIZE - 1)%Z end in
      zatom (p * - sign) :: length_key r
  end.

(** [sort(key, reverse=True)]: descending, equal keys in their order. *)
Definition py_sort_reverse {A} (key : A -> res (list atom)) (l : list A) : res (list A) :=
  l ← py_sort key (reverse l);
  Ok (reverse l).

(** From the most to the least preferred to keep. *)
Definition get_decode_retraction_order (policy : RetractionPolicy) (low_first allow_policy_sort : bool) (reqs : list SReq) : res (list nat) :=
  let idx := seq 0 (length reqs) in
  if negb allow_policy_sort then Ok idx else
  py_sort_reverse (fun i => r ← or_raise IndexError (reqs !! i); Ok (retraction_key policy low_first r)) idx.

Context (args : ServerArgs) (retract_decode_steps : Z).

(** [release_req(idx, ...)] of the batch. *)
Definition release_at (idx : nat) (remaining : Z) (reqs : list SReq) (s : Store) : res (list SReq * Store) :=
  r ← or_raise IndexError (reqs !! idx);
  '(s, r) ← release_req args retract_decode_steps r remaining s;
  Ok (<[idx := r]> reqs, s).

(** The loop: the indices still kept, the requests, the indices retracted. *)
Fixpoint retract_loop (fuel : nat) (spec : option SpecArgs) (first : bool) (sorted : list nat) (reqs : list SReq) (s : Store)
    : res (list nat * list SReq * list nat * Store) :=
  match fuel with
  | 0 => Raise Diverges
  | S fuel =>
      '(s, fits) ← (if first then Ok (s, false) else check_decode_mem spec reqs sorted s);
      if fits : bool then Ok (sorted, reqs, [], s)
      else if (length sorted =? 1) then Ok (sorted, reqs, [], s)
      else
        idx ← or_raise IndexError (last sorted);
        let sorted := take (length sorted - 1) sorted in
        '(reqs, s) ← release_at idx (Z.of_nat (length sorted)) reqs s;
        '(sorted, reqs, out, s) ← retract_loop fuel spec false sorted reqs s;
        Ok (sorted, reqs, idx :: out, s)
  end.

(** After the loop: when even the last request does not fit, it is released and
    aborted.  The request is marked by being in the list that is returned. *)
Definition abort_last (spec : option SpecArgs) (sorted : list nat) (reqs : list SReq) (s : Store)
    : res (list nat * list SReq * list nat * Store) :=
  if (length sorted <=? 1) then
    '(s, fits) ← check_decode_mem spec reqs sorted s;
    if fits : bool then Ok (sorted, reqs, [], s)
    else
      idx ← or_raise IndexError (last sorted);
      '(reqs, s) ← release_at idx 0 reqs s;
      Ok (take (length sorted - 1) sorted, reqs, [idx], s)
  else Ok (sorted, reqs, [], s).

(** The requests retracted, the new ratio and the request aborted, if any. *)
Record RetractResult := mkRetract { rr_retracted : list SReq; rr_ratio : Q; rr_aborted : list SReq }.

Definition retract_decode `{Float} (spec : option SpecArgs) (policy : RetractionPolicy) (low_first : bool) (b : SBatch) (s : Store)
    : res (SBatch * RetractResult * Store) :=
  let no_spec := match spec with None => true | Some _ => false end in
  order ← get_decode_retraction_order policy low_first no_spec (sb_reqs b);
  '(sorted, reqs, out, s) ← retract_loop (S (length order)) spec true order (sb_reqs b) s;
  '(sorted, reqs, aborted, s) ← abort_last spec sorted reqs s;
  retracted ← pick out reqs;
  dead ← pick aborted reqs;
  b ← filter_batch [] (Some sorted) (set_reqs reqs b);
  let ratio := Ratio.estimate_new_token_ratio_after_retract retract_decode_steps
                 ((fun r => (Z.of_nat (length (output_ids (sreq r))), max_new_tokens r)) <$> sb_reqs b) in
  Ok (b, mkRetract retracted ratio dead, s).

(** [retract_all]: every request of a list, in order. *)
Fixpoint retract_all (reqs : list SReq) (s : Store) : res (list SReq * Store) :=
  match reqs with
  | [] => Ok ([], s)
  | r :: reqs =>
      '(s, r) ← release_req args retract_decode_steps r (Z.of_nat (S (length reqs))) s;
      '(reqs, s) ← retract_all reqs s;
      Ok (r :: reqs, s)
  end.

End memory.
