(* ===== verification/ScheduleBatchSpec.v ===== *)
(** * ScheduleBatchSpec: lemmas on batches and retraction

    Picking by index, the retraction order, and the retraction loop over any
    store whose requests can be released one after the other. *)

From S2P Require Import Prelude RadixKey RadixNode RadixTree ReqPool ReqCache Allocator Allocation SchedDelay SchedPolicy SchedPolicySpec PrefillAdder ScheduleBatch.
From Stdlib Require Import QArith.

Open Scope nat_scope.

(** ** Picking *)

(** [xs] are the elements of [l] at [idx]. *)
Definition at_indices {A} (idx : list nat) (l xs : list A) : Prop := Forall2 (fun i x => l !! i = Some x) idx xs.

Lemma pick_run {A} idx (l xs : list A) : at_indices idx l xs -> pick idx l = Ok xs.
Proof. unfold pick. induction 1 as [|i x idx xs Hi _ IH]; [done|]. simpl. rewrite Hi. simpl. by rewrite IH. Qed.

Lemma at_indices_exists {A} idx (l : list A) : Forall (fun i => i < length l) idx -> exists xs, at_indices idx l xs.
Proof.
  induction 1 as [|i idx Hi _ [xs IH] ]; [by exists []; constructor|]. destruct (lookup_lt_is_Some_2 l i Hi) as [x Hx].
  exists (x :: xs). by constructor.
Qed.

Lemma at_indices_length {A} idx (l xs : list A) : at_indices idx l xs -> length xs = length idx.
Proof. intros HF. symmetry. by eapply Forall2_length. Qed.

(** Changes elsewhere do not matter. *)
Lemma at_indices_ext {A} idx (l l' xs : list A) : (forall i, i ∈ idx -> l' !! i = l !! i) -> at_indices idx l xs -> at_indices idx l' xs.
Proof.
  intros He HF. induction HF as [|i x idx xs Hi _ IH]; constructor; [rewrite He by left; done|].
  apply IH. intros j Hj. apply He. by right.
Qed.

Lemma at_indices_snoc {A} idx i (l xs : list A) :
  at_indices (idx ++ [i]) l xs -> exists ys y, xs = ys ++ [y] /\ at_indices idx l ys /\ l !! i = Some y.
Proof.
  intros HF. apply Forall2_app_inv_l in HF as (ys & zs & H1 & H2 & ->).
  apply Forall2_cons_inv_l in H2 as (y & k & Hy & H2 & ->). apply Forall2_nil_inv_l in H2 as ->. by exists ys, y.
Qed.

Lemma at_indices_seq {A} (l : list A) : at_indices (seq 0 (length l)) l l.
Proof.
  unfold at_indices. apply Forall2_lookup. intros i. destruct (decide (i < length l)) as [Hi|Hi].
  - rewrite lookup_seq_lt by done. destruct (lookup_lt_is_Some_2 l i Hi) as [x Hx]. rewrite Hx. by constructor.
  - rewrite lookup_seq_ge, (lookup_ge_None_2 l) by lia. constructor.
Qed.

Lemma at_indices_perm {A} idx idx' (l xs : list A) :
  idx ≡ₚ idx' -> at_indices idx l xs -> exists xs', at_indices idx' l xs' /\ xs ≡ₚ xs'.
Proof.
  intros Hp. revert xs. induction Hp as [|i idx idx' _ IH|i j idx|idx1 idx2 idx3 _ IH1 _ IH2]; intros xs HF.
  - exists xs. done.
  - apply Forall2_cons_inv_l in HF as (x & k & Hx & HF & ->). destruct (IH k HF) as (k' & HF' & Hp').
    exists (x :: k'). split; [by constructor|by constructor].
  - apply Forall2_cons_inv_l in HF as (x & k & Hx & HF & ->). apply Forall2_cons_inv_l in HF as (y & k' & Hy & HF & ->).
    exists (y :: x :: k'). split; [by repeat constructor|constructor].
  - destruct (IH1 xs HF) as (ys & H1 & P1). destruct (IH2 ys H1) as (zs & H2 & P2). exists zs. split; [done|by trans ys].
Qed.

Lemma at_indices_fun {A} idx (l xs ys : list A) : at_indices idx l xs -> at_indices idx l ys -> xs = ys.
Proof.
  intros H1. revert ys. induction H1 as [|i x idx xs Hi _ IH]; intros ys H2; [by apply Forall2_nil_inv_l in H2|].
  apply Forall2_cons_inv_l in H2 as (y & k & Hy & H2 & ->). f_equal; [congruence|auto].
Qed.

Lemma at_indices_Forall2 {A B} (R : A -> B -> Prop) idx l k xs :
  Forall2 R l k -> at_indices idx l xs -> exists ys, at_indices idx k ys /\ Forall2 R xs ys.
Proof.
  intros HR. induction 1 as [|i x idx xs Hi _ (ys & IH1 & IH2)]; [by exists []; repeat constructor|].
  destruct (Forall2_lookup_l _ _ _ _ _ HR Hi) as (y & Hy & Hxy). exists (y :: ys). split; by constructor.
Qed.

Lemma at_indices_lt {A} idx (l xs : list A) : at_indices idx l xs -> Forall (fun i => i < length l) idx.
Proof. induction 1 as [|i x idx xs Hi _ IH]; constructor; [by eapply lookup_lt_Some|done]. Qed.

Lemma at_indices_elem {A} idx (l xs : list A) x : at_indices idx l xs -> x ∈ xs -> x ∈ l.
Proof. induction 1 as [|i y idx xs Hi _ IH]; [set_solver|]. intros [->|Hx]%elem_of_cons; [by eapply list_elem_of_lookup_2|auto]. Qed.

(** ** Batches whose tensors mirror their requests *)

Record batch_aligned (b : SBatch) : Prop := {
  al_rows : Forall2 (fun r i => req_pool_idx (sreq r) = Some i) (sb_reqs b) (sb_req_pool_indices b);
  al_seq : Forall2 (fun r n => kv_committed_len (sreq r) = n) (sb_reqs b) (sb_seq_lens b);
  al_orig : length (sb_orig_seq_lens b) = length (sb_reqs b);
  al_logprob : sb_return_logprob b = existsb return_logprob (sb_reqs b);
  al_tops : sb_return_logprob b = true -> exists l, sb_top_logprobs_nums b = Some l /\ length l = length (sb_reqs b);
}.

(** Filtering with requests that have changed only where they are dropped. *)
Lemma filter_batch_run keep b reqs held :
  batch_aligned b -> length reqs = length (sb_reqs b) -> (forall i, i ∈ keep -> reqs !! i = sb_reqs b !! i) ->
  at_indices keep (sb_reqs b) held -> keep <> [] -> length keep <> length (sb_reqs b) ->
  exists b', filter_batch [] (Some keep) (set_reqs reqs b) = Ok b' /\ sb_reqs b' = held /\ batch_aligned b'.
Proof.
  intros [Hr Hs Ho Hlp Ht] Hlen Hsame Hat Hne Hl. unfold filter_batch. cbn [sb_reqs set_reqs sb_req_pool_indices sb_seq_lens sb_orig_seq_lens sb_top_logprobs_nums].
  assert ((length keep =? 0) = false) as -> by (by destruct keep).
  assert ((length keep =? length reqs) = false) as -> by (apply Nat.eqb_neq; lia).
  rewrite (pick_run keep reqs held) by (by eapply at_indices_ext).
  destruct (at_indices_Forall2 _ _ _ _ _ Hr Hat) as (rows & Hrows & Hr').
  destruct (at_indices_Forall2 _ _ _ _ _ Hs Hat) as (seqs & Hseqs & Hs').
  pose proof (at_indices_lt _ _ _ Hat) as Hlt.
  destruct (at_indices_exists keep (sb_orig_seq_lens b)) as [origs Horigs]; [by rewrite Ho|].
  rewrite (pick_run _ _ _ Hrows), (pick_run _ _ _ Hseqs), (pick_run _ _ _ Horigs). bind_step.
  pose proof (at_indices_length _ _ _ Hat) as Hhl. pose proof (at_indices_length _ _ _ Horigs) as Hol.
  destruct (existsb return_logprob held) eqn:El.
  - assert (sb_return_logprob b = true) as Hb.
    { rewrite Hlp. apply existsb_exists in El as (x & Hx & Hrx). apply existsb_exists. exists x. split; [|done].
      apply list_elem_of_In. eapply at_indices_elem; [exact Hat|]. by apply list_elem_of_In. }
    destruct (Ht Hb) as (l & -> & Hll). destruct (at_indices_exists keep l) as [ls Hls]; [by rewrite Hll|].
    cbn [or_raise mbind res_bind]. rewrite (pick_run _ _ _ Hls). bind_step. eexists. split; [done|]. split; [done|].
    split; simpl; [done|done|congruence|done|]. intros _. exists ls. split; [done|]. rewrite (at_indices_length _ _ _ Hls). done.
  - bind_step. eexists. split; [done|]. split; [done|]. split; simpl; [done|done|congruence|done|done].
Qed.

Lemma set_reqs_id b : set_reqs (sb_reqs b) b = b.
Proof. by destruct b. Qed.

(** The same for any selection; a selection of all is in the order of the batch. *)
Lemma filter_kept_run keep b reqs held :
  batch_aligned b -> length reqs = length (sb_reqs b) -> (forall i, i ∈ keep -> reqs !! i = sb_reqs b !! i) ->
  at_indices keep (sb_reqs b) held -> (length keep = length (sb_reqs b) -> keep = seq 0 (length (sb_reqs b))) ->
  exists b', filter_batch [] (Some keep) (set_reqs reqs b) = Ok b' /\ sb_reqs b' = held /\ (held <> [] -> batch_aligned b').
Proof.
  intros Hal Hlen Hsame Hat Hall. destruct (decide (keep = [])) as [->|Hne].
  { apply Forall2_nil_inv_l in Hat as ->. eexists. by split. }
  destruct (decide (length keep = length (sb_reqs b))) as [He|He].
  - specialize (Hall He). subst keep. rewrite (at_indices_fun _ _ _ _ Hat (at_indices_seq _)) in *.
    assert (reqs = sb_reqs b) as ->.
    { apply list_eq. intros i. destruct (decide (i < length reqs)) as [Hi|Hi]; [apply Hsame, elem_of_seq; lia|].
      rewrite !lookup_ge_None_2 by lia. done. }
    exists b. rewrite set_reqs_id. unfold filter_batch. rewrite He, Nat.eqb_refl.
    destruct (Nat.eqb_spec (length (sb_reqs b)) 0) as [E|_]; [|by split].
    apply nil_length_inv in E. rewrite E in Hne. done.
  - destruct (filter_batch_run keep b reqs held Hal Hlen Hsame Hat Hne He) as (b' & -> & Hr & Hal'). by exists b'.
Qed.

(** ** The retraction order *)

Lemma StronglySorted_rev {A} (R : A -> A -> Prop) l : StronglySorted R l -> StronglySorted (fun x y => R y x) (reverse l).
Proof.
  induction 1 as [|x l _ IH HF]; [constructor|]. rewrite reverse_cons. apply StronglySorted_app. split; [|by split; [done|repeat constructor] ].
  intros y z Hy Hz. apply list_elem_of_singleton in Hz as ->. rewrite Forall_forall in HF. apply HF. by apply elem_of_reverse.
Qed.

(** Descending keys, equal keys in the order of the batch. *)
Lemma retraction_order_run policy low allow reqs :
  exists order, get_decode_retraction_order policy low allow reqs = Ok order /\ order ≡ₚ seq 0 (length reqs) /\
    (allow = true -> StronglySorted (fun i j => forall x y, reqs !! i = Some x -> reqs !! j = Some y ->
       key_leb (retraction_key policy low y) (retraction_key policy low x) = true) order).
Proof.
  unfold get_decode_retraction_order. destruct allow; [|by exists (seq 0 (length reqs))]. simpl. unfold py_sort_reverse.
  set (key i := default [] (retraction_key policy low <$> reqs !! i)).
  destruct (py_sort_run (fun i => r ← or_raise IndexError (reqs !! i); Ok (retraction_key policy low r)) key (reverse (seq 0 (length reqs))))
    as (l & -> & [Hp Hs _]).
  { intros i Hi. apply elem_of_reverse, list_elem_of_In, in_seq in Hi. destruct (lookup_lt_is_Some_2 reqs i) as [x Hx]; [lia|].
    unfold key. rewrite Hx. done. }
  exists (reverse l). split; [done|]. split; [by rewrite reverse_Permutation, Hp, reverse_Permutation|]. intros _. apply StronglySorted_rev in Hs.
  eapply StronglySorted_weaken; [|exact Hs]. intros i j Hij x y Hx Hy. unfold key in Hij. by rewrite Hx, Hy in Hij.
Qed.

(** ** Retraction over a store *)

(** [OK held s]: the requests of [held], and no others of the batch, can be
    released in [s].  Any of them may be released next, the others stay so;
    eviction changes nothing of this. *)
Class Retractable `{Env} (args : ServerArgs) (steps : Z) (spec : option SpecArgs) (OK : list SReq -> Store -> Prop) : Prop := {
  ok_perm held held' s : held ≡ₚ held' -> OK held s -> OK held' s;
  ok_release r held s k : OK (r :: held) s ->
    exists s' r', release_req args steps r k s = Ok (s', r') /\ OK held s';
  ok_evict held s n : OK held s ->
    exists tc al, evict_for (st_cache s) n (st_alloc s) = Ok (tc, al) /\ OK held (mkStore tc al (st_pool s)) /\
      kvp_page_size al = kvp_page_size (st_alloc s);
  ok_required held s : OK held s -> exists n, new_tokens_required_next_decode spec (kvp_page_size (st_alloc s)) held = Ok n;
}.

Section retract.
Context `{Retractable args steps spec OK}.

(** The next decode step of [held] fits into what is available. *)
Definition fits (held : list SReq) (s : Store) : Prop :=
  exists n, new_tokens_required_next_decode spec (kvp_page_size (st_alloc s)) held = Ok n /\
    (Z.of_nat n <= kv_available (st_alloc s))%Z.

Lemma check_decode_run reqs sorted held s : at_indices sorted reqs held -> OK held s ->
  exists s' b, check_decode_mem spec reqs sorted s = Ok (s', b) /\ OK held s' /\ (b = true -> fits held s').
Proof.
  intros Hat Hok. unfold check_decode_mem. rewrite (pick_run _ _ _ Hat). bind_step.
  destruct (ok_required held s Hok) as [n Hn]. rewrite Hn. bind_step.
  destruct (ok_evict held s n Hok) as (tc & al & -> & Hok' & Hps). bind_step.
  eexists _, _. split; [done|]. split; [done|]. intros Hb%Z.leb_le. exists n. simpl. by rewrite Hps.
Qed.

Lemma release_at_run reqs i r held s k : reqs !! i = Some r -> OK (r :: held) s ->
  exists r' s', release_at args steps i k reqs s = Ok (<[i := r']> reqs, s') /\ OK held s'.
Proof.
  intros Hi Hok. unfold release_at. rewrite Hi. cbn [or_raise mbind res_bind].
  destruct (ok_release r held s k Hok) as (s' & r' & -> & Hok'). bind_step. by exists r', s'.
Qed.

Lemma retract_loop_run fuel first sorted reqs held s :
  NoDup sorted -> sorted <> [] -> length sorted < fuel -> at_indices sorted reqs held -> OK held s ->
  exists sorted' reqs' out held' s', retract_loop args steps fuel spec first sorted reqs s = Ok (sorted', reqs', out, s') /\
    sorted = sorted' ++ reverse out /\ sorted' <> [] /\ length reqs' = length reqs /\
    (forall i, i ∉ out -> reqs' !! i = reqs !! i) /\ at_indices sorted' reqs held' /\ OK held' s' /\
    (length sorted' = 1 \/ fits held' s') /\ (first = true -> 1 < length sorted -> out <> []).
Proof.
  revert first sorted reqs held s. induction fuel as [|fuel IH]; intros first sorted reqs held s Hnd Hne Hf Hat Hok; [lia|].
  cbn [retract_loop].
  assert (exists s1 b, (if first then Ok (s, false) else check_decode_mem spec reqs sorted s) = Ok (s1, b) /\ OK held s1 /\
    (b = true -> fits held s1 /\ first = false)) as (s1 & b & -> & Hok1 & Hb).
  { destruct first; [by exists s, false|]. destruct (check_decode_run reqs sorted held s Hat Hok) as (s1 & b & -> & Hok1 & Hb).
    exists s1, b. auto. }
  bind_step. assert (Hkeep : (length sorted = 1 \/ fits held s1) -> (first = true -> length sorted = 1) ->
    exists sorted' reqs' out held' s', Ok (sorted, reqs, [], s1) = Ok (sorted', reqs', out, s') /\
    sorted = sorted' ++ reverse out /\ sorted' <> [] /\ length reqs' = length reqs /\
    (forall i, i ∉ out -> reqs' !! i = reqs !! i) /\ at_indices sorted' reqs held' /\ OK held' s' /\
    (length sorted' = 1 \/ fits held' s') /\ (first = true -> 1 < length sorted -> out <> [])).
  { intros Hfit Hone. exists sorted, reqs, [], held, s1. split; [done|]. split; [by rewrite app_nil_r|]. repeat split; try done.
    intros Ht Hl. rewrite (Hone Ht) in Hl. lia. }
  destruct b; [destruct (Hb eq_refl) as [Hfit ->]; apply Hkeep; [by right|done]|].
  destruct (Nat.eqb_spec (length sorted) 1) as [E1|E1]; [apply Hkeep; [by left|done]|]. clear Hkeep.
  destruct sorted as [|i rest _] using rev_ind; [done|]. rewrite last_snoc. cbn [or_raise mbind res_bind].
  rewrite length_app in *. simpl in E1, Hf. rewrite Nat.add_sub, take_app_length.
  apply at_indices_snoc in Hat as (ys & y & -> & Hat & Hy).
  destruct (release_at_run reqs i y ys s1 (Z.of_nat (length rest)) Hy) as (r' & s2 & -> & Hok2).
  { eapply ok_perm; [|exact Hok1]. solve_Permutation. }
  bind_step. apply NoDup_app in Hnd as (Hnd & Hni & _).
  assert (Hi : i ∉ rest) by (intros Hi; apply (Hni i Hi); by left).
  destruct (IH false rest (<[i := r']> reqs) ys s2) as (sorted' & reqs' & out & held' & s' & -> & -> & Hne' & Hl' & Hsame & Hat' & Hok' & Hfit & _).
  { done. } { destruct rest; [simpl in E1; lia|done]. } { lia. }
  { eapply at_indices_ext; [|exact Hat]. intros j Hj. apply list_lookup_insert_ne. by intros ->. }
  { done. }
  bind_step. exists sorted', reqs', (i :: out), held', s'. split; [done|]. split; [by rewrite reverse_cons, app_assoc|].
  split; [done|]. split; [by rewrite Hl', length_insert|]. split.
  - intros j Hj. rewrite Hsame by set_solver. apply list_lookup_insert_ne. set_solver.
  - split; [|by repeat split]. eapply at_indices_ext; [|exact Hat']. intros j Hj. symmetry. apply list_lookup_insert_ne.
    intros ->. apply Hi. apply elem_of_app. by left.
Qed.

Lemma abort_last_run sorted reqs held s :
  sorted <> [] -> at_indices sorted reqs held -> OK held s -> (length sorted = 1 \/ fits held s) ->
  exists sorted' reqs' ab held' s', abort_last args steps spec sorted reqs s = Ok (sorted', reqs', ab, s') /\
    sorted = sorted' ++ ab /\ length reqs' = length reqs /\ (forall i, i ∉ ab -> reqs' !! i = reqs !! i) /\
    at_indices sorted' reqs held' /\ OK held' s' /\
    (ab = [] /\ fits held' s' \/ sorted' = [] /\ held' = [] /\ length ab = 1).
Proof.
  intros Hne Hat Hok Hfit. unfold abort_last.
  assert (Hsame : forall s', OK held s' -> fits held s' -> exists sorted' reqs' ab held' s2, Ok (sorted, reqs, [], s') = Ok (sorted', reqs', ab, s2) /\
    sorted = sorted' ++ ab /\ length reqs' = length reqs /\ (forall i, i ∉ ab -> reqs' !! i = reqs !! i) /\
    at_indices sorted' reqs held' /\ OK held' s2 /\ (ab = [] /\ fits held' s2 \/ sorted' = [] /\ held' = [] /\ length ab = 1)).
  { intros s' Hok' Hf. exists sorted, reqs, [], held, s'. rewrite app_nil_r. split; [done|]. repeat split; auto. }
  destruct (Nat.leb_spec (length sorted) 1) as [Hl|Hl].
  - destruct sorted as [|i [|j l] ]; [done| |simpl in Hl; lia]. clear Hfit.
    destruct (check_decode_run reqs [i] held s Hat Hok) as (s1 & b & -> & Hok1 & Hb). bind_step.
    destruct b; [by apply Hsame; auto|]. apply Forall2_cons_inv_l in Hat as (r & k & Hr & Hk & ->). apply Forall2_nil_inv_l in Hk as ->.
    cbn [last or_raise mbind res_bind length take Nat.sub].
    destruct (release_at_run reqs i r [] s1 0 Hr Hok1) as (r' & s2 & -> & Hok2). bind_step.
    exists [], (<[i := r']> reqs), [i], [], s2. split; [done|]. split; [done|]. split; [by rewrite length_insert|]. split.
    + intros j Hj. apply list_lookup_insert_ne. set_solver.
    + split; [constructor|]. split; [done|]. by right.
  - apply Hsame; [done|]. destruct Hfit as [Hf|Hf]; [lia|done].
Qed.

Lemma retract_all_run reqs s : OK reqs s ->
  exists reqs' s', retract_all args steps reqs s = Ok (reqs', s') /\ length reqs' = length reqs /\ OK [] s'.
Proof.
  revert s. induction reqs as [|r reqs IH]; intros s Hok; [by exists [], s|]. cbn [retract_all].
  destruct (ok_release r reqs s (Z.of_nat (S (length reqs))) Hok) as (s1 & r' & -> & Hok1). bind_step.
  destruct (IH s1 Hok1) as (reqs' & s2 & -> & Hl & Hok2). bind_step. exists (r' :: reqs'), s2. split; [done|]. split; [simpl; by f_equal|done].
Qed.

(** What is left after retraction. *)
Record retracted `{Float} (policy : RetractionPolicy) (low : bool) (b b' : SBatch) (rr : RetractResult) (s' : Store) (order : list nat) (k : nat) : Prop := {
  re_order : get_decode_retraction_order policy low (match spec with None => true | Some _ => false end) (sb_reqs b) = Ok order;
  re_kept : at_indices (take k order) (sb_reqs b) (sb_reqs b');
  re_len : k + length (rr_retracted rr) + length (rr_aborted rr) = length (sb_reqs b);
  re_ok : OK (sb_reqs b') s';
  re_aligned : sb_reqs b' <> [] -> batch_aligned b';
  re_room : rr_aborted rr = [] /\ 0 < k /\ fits (sb_reqs b') s' \/ k = 0 /\ sb_reqs b' = [] /\ length (rr_aborted rr) = 1;
  re_progress : 1 < length (sb_reqs b) -> rr_retracted rr <> [];
}.

Lemma retract_decode_run `{Float} policy low b s : batch_aligned b -> sb_reqs b <> [] -> OK (sb_reqs b) s ->
  exists b' rr s' order k, retract_decode args steps spec policy low b s = Ok (b', rr, s') /\ retracted policy low b b' rr s' order k.
Proof.
  intros Hal Hne Hok. unfold retract_decode. set (no_spec := match spec with None => true | Some _ => false end).
  destruct (retraction_order_run policy low no_spec (sb_reqs b)) as (order & Eo & Hp & _). rewrite Eo. bind_step.
  set (n := length (sb_reqs b)) in *. assert (Hn : length order = n) by (rewrite Hp; apply length_seq).
  assert (Hnd : NoDup order) by (rewrite Hp; apply NoDup_seq).
  destruct (at_indices_perm _ order _ _ (symmetry Hp) (at_indices_seq (sb_reqs b))) as (held & Hat & Hph).
  destruct (retract_loop_run (S (length order)) true order (sb_reqs b) held s)
    as (sorted & reqs & out & held' & s1 & -> & Hsplit & Hne' & Hl & Hsame & Hat' & Hok1 & Hfit & Hprog).
  { done. } { intros ->. simpl in Hn. by destruct (sb_reqs b). } { lia. } { done. } { by eapply ok_perm. }
  bind_step. destruct (abort_last_run sorted reqs held' s1) as (kept & reqs2 & ab & held2 & s2 & -> & Hsplit2 & Hl2 & Hsame2 & Hat2 & Hok2 & Hend).
  { done. } { eapply at_indices_ext; [|exact Hat']. intros i Hi. apply Hsame. rewrite Hsplit in Hnd. apply NoDup_app in Hnd as (_ & Hni & _).
    intros Hout. apply (Hni i Hi). by apply elem_of_reverse. } { done. } { done. }
  bind_step. assert (Ho : order = kept ++ ab ++ reverse out) by (by rewrite Hsplit, Hsplit2, app_assoc).
  assert (Hin : forall i, i ∈ order -> i < n) by (intros i Hi; rewrite Hp in Hi; apply elem_of_seq in Hi; lia).
  assert (Hkn : length kept + length ab + length out = n) by (rewrite <-Hn, Ho, !length_app, length_reverse; lia).
  destruct (at_indices_exists out reqs2) as [gone Hgone].
  { apply Forall_forall. intros i Hi. rewrite Hl2, Hl. apply Hin. rewrite Ho, !elem_of_app, elem_of_reverse. auto. }
  destruct (at_indices_exists ab reqs2) as [dead Hdead].
  { apply Forall_forall. intros i Hi. rewrite Hl2, Hl. apply Hin. rewrite Ho, !elem_of_app. auto. }
  rewrite (pick_run _ _ _ Hgone), (pick_run _ _ _ Hdead). bind_step.
  apply at_indices_length in Hgone, Hdead.
  assert (Hdis : forall i, i ∈ kept -> (i ∉ ab) /\ (i ∉ out)).
  { intros i Hi. rewrite Ho in Hnd. apply NoDup_app in Hnd as (_ & Hni & _). specialize (Hni i Hi). rewrite elem_of_app, elem_of_reverse in Hni. tauto. }
  assert (Hat3 : at_indices kept (sb_reqs b) held2).
  { eapply at_indices_ext; [|exact Hat2]. intros i Hi. symmetry. apply Hsame, Hdis, Hi. }
  destruct (filter_kept_run kept b reqs2 held2) as (b' & -> & <- & Hal').
  { done. } { congruence. } { intros i Hi. rewrite Hsame2, Hsame; [done|apply Hdis, Hi..]. } { done. }
  { intros Hk. assert (out = [] /\ ab = []) as [-> ->] by (split; apply nil_length_inv; lia).
    rewrite app_nil_r in Ho. subst kept. destruct (decide (1 < n)) as [Hgt|Hgt]; [by destruct Hprog; [|lia|]|].
    assert (Hn1 : length (sb_reqs b) = 1) by (destruct (sb_reqs b); [done|unfold n in Hgt; simpl in *; lia]).
    unfold n in Hp. rewrite Hn1 in *. by apply Permutation_singleton_r in Hp. }
  bind_step. eexists _, _, _, order, (length kept). split; [done|]. split; simpl.
  - done.
  - by rewrite Ho, take_app_length.
  - lia.
  - done.
  - done.
  - destruct Hend as [ [-> Hf]|(-> & -> & Hab) ]; [left|right].
    + apply nil_length_inv in Hdead. split; [done|]. split; [|done]. rewrite app_nil_r in Hsplit2. subst kept.
      destruct sorted; [done|simpl; lia].
    + split; [done|]. split; [done|]. congruence.
  - intros Hgt ->. simpl in Hgone. apply Hprog; [done|lia|]. by apply nil_length_inv.
Qed.

End retract.
