(* ===== verification/DecodeStep.v ===== *)
(** * DecodeStep: retraction, a decode step and the invariant of the running batch

    The requests of a decode batch hold rows, slots and, on a radix cache, a
    lock each.  Releasing any of them and evicting what is free leaves the
    others as they are: the store meets the contract the retraction loop needs.

    With pages of one token, a batch that fits gets one slot per request, and
    the requests go on holding exactly what they held and the new slot. *)

From S2P Require Import Prelude RadixKey RadixNode RadixTree RadixInv RadixSteps RadixContent RadixOps RadixInsert RadixLock RadixEvict RadixSpec ReqPool ReqCache ReqCacheSpec Allocator AllocatorSpec Allocation AllocationClaims SchedDelay SchedPolicy PrefillAdder ScheduleBatch ScheduleBatchSpec.

Open Scope nat_scope.

Section store.
Context `{Env}.
Implicit Types (c : RadixCache) (Hd : nat -> Z) (al : KVPool).

(** ** What eviction and locks keep *)

Lemma fixed_cover al al' x y : kvp_fixed al' = kvp_fixed al -> kv_cover al x y -> kv_cover al' x y.
Proof.
  destruct al as [t|t], al' as [t'|t']; simpl; intros Hf; try done. injection Hf as _ E _ _ _. unfold pag_cover. by rewrite E.
Qed.

Lemma fixed_chunk al al' x : kvp_fixed al' = kvp_fixed al -> kv_chunk al x -> kv_chunk al' x.
Proof.
  destruct al as [t|t], al' as [t'|t']; simpl; intros Hf; try done. injection Hf as _ E _ _ _. unfold pag_chunk. by rewrite E.
Qed.

Lemma fixed_page_size al al' : kvp_fixed al' = kvp_fixed al -> kvp_page_size al' = kvp_page_size al.
Proof. destruct al as [t|t], al' as [t'|t']; simpl; intros Hf; try done; by injection Hf as _ -> _ _ _. Qed.

Lemma evict_steps_chunks Hd P c L al xs c' L' al' :
  Inv_at c L P Hd None -> evict_steps Hd P c L al xs c' L' al' -> chunks_ok al c L -> chunks_ok al' c' L'.
Proof.
  intros I Hst. revert I. induction Hst as [c L al|c L al x xd v a1 c1 p pd ck c2 xs c' L' al' Hx _ Hxd Hv Hfree D Ec En Hst IH]; intros I Hch; [done|].
  destruct (deleted_frame _ _ _ _ _ _ _ _ _ _ _ D Ec) as (I2 & _). apply IH; [done|].
  intros n nd w Hn Hnd Hw. rewrite En in Hnd.
  eapply (chunks_ok_deleted al a1); [exact I|exact D|exact Hch| |exact Hn|exact Hnd|exact Hw].
  intros y. apply fixed_chunk. by eapply kv_free_fixed.
Qed.

Lemma evict_whole_chunks c Hd al l other num c' al' k :
  Inv c Hd -> disable (cfg c) = false -> tree_slots c l -> kv_out al (l ++ other) -> whole_chunks al c ->
  evict num c al = Ok (c', al', k) -> whole_chunks al' c'.
Proof.
  intros (L & P & I) Hdis Hl Hout Hch Hrun. rewrite (tree_slots_iff _ _ _ _ _ _ I) in Hl.
  destruct (evict_run c L P Hd al other num I Hdis) as (xs & c2 & L' & al2 & k2 & Hrun2 & Hst & _ & _ & _ & I' & _).
  { eapply kv_out_perm; [|exact Hout]. by rewrite Hl. }
  { by eapply whole_chunks_at. }
  assert (c2 = c' /\ al2 = al') as [-> ->] by (split; congruence).
  intros n nd v Hn. apply (evict_steps_chunks Hd P c L al xs c' L' al' I Hst); [by eapply whole_chunks_at|].
  by apply (live_iff _ _ _ _ _ _ I').
Qed.

(** Making room keeps the chunks. *)
Lemma evict_for_chunks c Hd al l other num c' al' :
  Inv c Hd -> disable (cfg c) = false -> tree_slots c l -> kv_out al (l ++ other) -> whole_chunks al c ->
  evict_for (Radix c) num al = Ok (Radix c', al') -> whole_chunks al' c'.
Proof.
  intros I Hdis Hl Hout Hch. unfold evict_for, evict_from_tree_cache. destruct (kv_available al <? Z.of_nat num)%Z.
  - destruct (evict (Z.of_nat num) c al) as [ [ [c2 al2] k]|] eqn:E; [|done]. intros [= -> ->]. by eapply evict_whole_chunks.
  - by intros [= <- <-].
Qed.

Lemma unlock_chunks Hd Hd' c c' L P d al : Inv_at c L P Hd None -> lock_walked Hd Hd' c c' L P d -> whole_chunks al c -> whole_chunks al c'.
Proof.
  intros I W Hch n nd v Hn Hnd Hv. apply (live_iff _ _ _ _ _ _ (lw_inv _ _ _ _ _ _ _ W)) in Hn.
  destruct (content_view_lookup (tree c') (tree c) n (shape_of nd) (lw_view _ _ _ _ _ _ _ W)) as (sh & Hsh & _ & _ & Ev).
  { by apply tree_lookup. }
  apply tree_lookup_inv in Hsh as (nd0 & Hnd0 & <-). simpl in Ev. apply (Hch n nd0); [by apply (live_iff _ _ _ _ _ _ I)|done|congruence].
Qed.

(** ** What a request of the batch holds *)

(** The slots request [q], with the first [kv_committed_len] entries [kv] of its
    row, gives back when it is released. *)
Definition own_slots (tc : PrefixCache) al (q : Req) (kv own : list Z) : Prop :=
  match tc with
  | Chunk _ => kv_cover al kv own
  | Radix c =>
      let klen := key_len (req_key c (take (kv_committed_len q) (origin_input_ids q ++ output_ids q)) q) in
      session_id q = None /\ kv_committed_len q <= length (origin_input_ids q ++ output_ids q) /\ cache_protected_len q <= klen /\
      is_Some (last_node q) /\ exists tail, own = slice (cache_protected_len q) klen kv ++ tail /\
        kv_chunk al (slice (cache_protected_len q) klen kv) /\ kv_cover al (drop klen kv) tail
  end.

Record holds (s : Store) (r : SReq) (own : list Z) : Prop := {
  ho_row : exists (i : nat) (row : list Z), req_pool_idx (sreq r) = Some i /\ req_to_token (st_pool s) !! i = Some row /\
    own_slots (st_cache s) (st_alloc s) (sreq r) (take (kv_committed_len (sreq r)) row) own;
  ho_len : kv_allocated_len (sreq r) = Some (kv_committed_len (sreq r));
}.

(** The locks the requests hold on a node. *)
Definition locks (held : list SReq) (n : nat) : Z :=
  Z.of_nat (length (List.filter (fun r => bool_decide (last_node (sreq r) = Some n)) held)).

Definition cache_holds (tc : PrefixCache) al (held : list SReq) (l : list Z) : Prop :=
  match tc with
  | Chunk _ => kv_out al l
  | Radix c => exists Hd t, Inv c Hd /\ disable (cfg c) = false /\ tree_slots c t /\ whole_chunks al c /\ kv_out al (t ++ l) /\
      forall n, (locks held n <= Hd n)%Z
  end.

(** What no operation changes: the configuration of the cache, the parameters
    of the allocator, the width of a row. *)
Definition cache_kind (tc : PrefixCache) : CacheConfig + nat := match tc with Radix c => inl (cfg c) | Chunk ps => inr ps end.
Definition kind_of (s : Store) : (CacheConfig + nat) * (bool * (Z * Z * Z * bool * bool)) * nat :=
  (cache_kind (st_cache s), kvp_fixed (st_alloc s), max_context_len (st_pool s)).

(** The requests [held] have their rows, their slots and their locks; what
    others hold is kept apart; the store is of the kind of [s0]. *)
Definition store_holds (s0 : Store) (held : list SReq) (s : Store) : Prop :=
  kind_of s = kind_of s0 /\
  exists owns other rows, pool_inv (st_pool s) (rows_of (sreq <$> held) ++ rows) /\ Forall2 (holds s) held owns /\
    cache_holds (st_cache s) (st_alloc s) held (concat owns ++ other).

Lemma holds_keep_row s s' r own :
  kind_of s' = kind_of s -> (forall i, req_pool_idx (sreq r) = Some i -> req_to_token (st_pool s') !! i = req_to_token (st_pool s) !! i) ->
  holds s r own -> holds s' r own.
Proof.
  intros Hk Ht [ (i & row & Hi & Hrow & Ho) Hl]. injection Hk as Hk Hf _. split; [|done]. exists i, row. rewrite Ht by done. split; [done|]. split; [done|].
  unfold own_slots in *. destruct (st_cache s) as [c|], (st_cache s') as [c'|]; try done; [|by eapply fixed_cover].
  injection Hk as Hk. unfold req_key, psize in *. rewrite Hk. destruct Ho as (? & ? & ? & ? & tail & ? & ? & ?).
  do 4 (split; [done|]). exists tail. split; [done|]. split; [by eapply fixed_chunk|by eapply fixed_cover].
Qed.

Lemma holds_keep s s' r own :
  kind_of s' = kind_of s -> req_to_token (st_pool s') = req_to_token (st_pool s) -> holds s r own -> holds s' r own.
Proof. intros Hk Ht. apply holds_keep_row; [done|]. intros i _. by rewrite Ht. Qed.

(** ** Eviction *)

Lemma store_evict s0 held s n : store_holds s0 held s ->
  exists tc al, evict_for (st_cache s) n (st_alloc s) = Ok (tc, al) /\ store_holds s0 held (mkStore tc al (st_pool s)) /\
    kvp_page_size al = kvp_page_size (st_alloc s).
Proof.
  intros (Hk0 & owns & other & rows & Hp & Hh & Hc). unfold cache_holds in Hc.
  assert (Hkeep : forall tc al, cache_kind tc = cache_kind (st_cache s) -> kvp_fixed al = kvp_fixed (st_alloc s) -> cache_holds tc al held (concat owns ++ other) ->
    store_holds s0 held (mkStore tc al (st_pool s)) /\ kvp_page_size al = kvp_page_size (st_alloc s)).
  { intros tc al Hk Hf Hc'. split; [|by apply fixed_page_size].
    assert (Hk' : kind_of (mkStore tc al (st_pool s)) = kind_of s) by (unfold kind_of; simpl; by rewrite Hk, Hf).
    split; [congruence|]. exists owns, other, rows. split; [done|]. split; [|done].
    eapply Forall2_impl; [exact Hh|]. intros r own. by apply holds_keep. }
  destruct (st_cache s) as [c|ps] eqn:Ec.
  - destruct Hc as (Hd & t & I & Hdis & Ht & Hch & Hout & Hlk).
    destruct (evict_for_run c Hd (st_alloc s) t _ n I Hdis Ht Hout Hch) as (c' & al' & t' & Hrun & I' & Ecfg & Ht' & Hout' & Hf & _).
    exists (Radix c'), al'. split; [done|]. apply Hkeep; [simpl; congruence|done|]. exists Hd, t'. rewrite Ecfg.
    do 3 (split; [done|]). split; [exact (evict_for_chunks c Hd _ t _ n c' al' I Hdis Ht Hout Hch Hrun)|done].
  - exists (Chunk ps), (st_alloc s). split; [done|]. by apply Hkeep.
Qed.

(** ** Releasing one request *)

Lemma take_ids_length q : kv_committed_len q <= length (origin_input_ids q ++ output_ids q) ->
  length (take (kv_committed_len q) (origin_input_ids q ++ output_ids q)) = kv_committed_len q.
Proof. intros Hle. rewrite length_take. lia. Qed.

(** Dropping a request from the tree without inserting it. *)
Lemma drop_req_run c Hd p q i row own t l al n0 :
  Inv c Hd -> disable (cfg c) = false -> tree_slots c t -> whole_chunks al c -> last_node q = Some n0 -> (0 < Hd n0)%Z ->
  req_pool_idx q = Some i -> req_to_token p !! i = Some row ->
  own_slots (Radix c) al q (take (kv_committed_len q) row) own -> kv_out al (t ++ own ++ l) ->
  exists c' al', cache_finished_req q false (kv_committed_len q) p c al = Ok (c', al') /\ Inv c' (<[n0 := (Hd n0 - 1)%Z]> Hd) /\
    cfg c' = cfg c /\ tree_slots c' t /\ whole_chunks al' c' /\ kv_out al' (t ++ l) /\ kvp_fixed al' = kvp_fixed al.
Proof.
  intros (L & P & I) Hdis Ht Hch Hn0 Hpos Hi Hrow (Hs & Hle & _ & _ & tail & -> & Hc & Hc2) Hout. unfold cache_finished_req.
  rewrite Hdis. cbv zeta. rewrite take_ids_length by done. unfold kv_row, req_row. rewrite Hi. cbn [or_raise mbind res_bind].
  rewrite Hrow. cbn [or_raise mbind res_bind]. assert ((if disable_finished_insert (cfg c) then false else false) = false) as -> by (by destruct (disable_finished_insert (cfg c))).
  apply kv_chunk_cover in Hc. match type of Hc with kv_cover _ _ ?w => set (pages := w) in * end.
  destruct (kv_cover_law al pages pages (tail ++ t ++ l)) as (a1 & Hf1 & Hout1 & _ & _ & Hcov).
  { eapply kv_out_perm; [|exact Hout]. solve_Permutation. } { done. }
  rewrite Hf1. bind_step. destruct (kv_cover_law a1 _ _ _ Hout1 (Hcov _ _ Hc2)) as (a2 & Hf2 & Hout2 & _).
  rewrite Hf2. bind_step.
  assert (Hf : kvp_fixed a2 = kvp_fixed al) by (trans (kvp_fixed a1); by eapply kv_free_fixed).
  unfold tag_session_leaf. rewrite Hs. assert (forall b : bool, (if b then Ok c else Ok c) = Ok c) as -> by (by intros []).
  bind_step. rewrite Hn0. destruct (dec_lock_ref_run c L P Hd n0 I Hdis Hpos) as (c' & d & -> & W & _). bind_step.
  destruct (lw_cfg _ _ _ _ _ _ _ W) as [Ec _]. exists c', a2. split; [done|]. split; [exists L, P; apply W|]. split; [done|]. split.
  { apply (tree_slots_iff _ _ _ _ _ _ (lw_inv _ _ _ _ _ _ _ W)). rewrite (lock_walked_owned _ _ _ _ _ _ _ W).
    by apply (tree_slots_iff _ _ _ _ _ _ I). }
  split; [|done]. intros n nd v Hn Hnd Hv. eapply fixed_chunk; [exact Hf|]. by apply (unlock_chunks _ _ _ _ _ _ _ _ I W Hch n nd v).
Qed.

Context (args : ServerArgs) (steps : Z).
Context (Hspec : speculative_algorithm args = None) (Hstrip : strip_thinking_cache args = false).

Lemma no_overallocation q p al : release_overallocated_kv_indices args q (kv_committed_len q) (kv_committed_len q) p al = Ok al.
Proof.
  unfold release_overallocated_kv_indices. rewrite Hspec, Hstrip, Nat.eqb_refl. cbn [negb andb py_assert mbind res_bind].
  assert (forall x, kv_committed_len q <= x -> (x <? kv_committed_len q) = false) as Hlt by (intros x Hx; apply Nat.ltb_ge; lia).
  rewrite Hlt; [done|]. destruct (Nat.ltb_spec 1 (args_page_size args)); [|done]. unfold ceil_align.
  pose proof (Nat.div_mod (kv_committed_len q + args_page_size args - 1) (args_page_size args) ltac:(lia)).
  pose proof (Nat.mod_upper_bound (kv_committed_len q + args_page_size args - 1) (args_page_size args) ltac:(lia)). lia.
Qed.

Lemma locks_cons r held n : locks (r :: held) n = ((if bool_decide (last_node (sreq r) = Some n) then 1 else 0) + locks held n)%Z.
Proof. unfold locks. simpl. destruct (bool_decide _); simpl; lia. Qed.

Lemma store_release_run s0 r held s : store_holds s0 (r :: held) s ->
  exists s' q, store_release args (sreq r) s = Ok (s', q) /\ store_holds s0 held s' /\ kv_allocated_len q = None.
Proof.
  intros (Hk0 & owns & other & rows & Hp & Hh & Hc). apply Forall2_cons_inv_l in Hh as (own & owns' & [ (i & row & Hi & Hrow & Ho) Hal] & Hh & ->).
  unfold rows_of in Hp. csimpl in Hp. rewrite Hi in Hp. simpl in Hp. destruct (pool_free_run (sreq r) i (st_pool s) _ Hi Hp) as [Hfree Hp'].
  assert (Hkeep : forall tc al, cache_kind tc = cache_kind (st_cache s) -> kvp_fixed al = kvp_fixed (st_alloc s) -> cache_holds tc al held (concat owns' ++ other) ->
    store_holds s0 held (mkStore tc al (set_slots (free_slots (st_pool s) ++ [i]) (req_generation (st_pool s)) (st_pool s)))).
  { intros tc al Hk Hf Hc'. split; [rewrite <-Hk0; unfold kind_of; simpl; by rewrite Hk, Hf|]. exists owns', other, rows. split; [done|]. split; [|done].
    eapply Forall2_impl; [exact Hh|]. intros r' own'. apply holds_keep; [|done]. unfold kind_of. simpl. by rewrite Hk, Hf. }
  assert (Heff : effective_kv_committed_len (strip_thinking_cache args) (sreq r) = kv_committed_len (sreq r)) by (unfold effective_kv_committed_len; by rewrite Hstrip).
  unfold store_release. destruct (st_cache s) as [c|ps] eqn:Ec.
  - destruct Hc as (Hd & t & I & Hdis & Ht & Hch & Hout & Hlk). assert (exists n0, last_node (sreq r) = Some n0) as [n0 Hn0] by apply Ho.
    assert (Hlk0 : forall n, ((if decide (n = n0) then 1 else 0) + locks held n <= Hd n)%Z).
    { intros n. specialize (Hlk n). rewrite locks_cons, Hn0 in Hlk. repeat case_decide; simplify_eq; try case_bool_decide; simplify_eq; lia. }
    pose proof (Hlk0 n0) as H0. rewrite decide_True in H0 by done. assert (0 <= locks held n0)%Z by (unfold locks; lia).
    cbn [concat] in Hout. rewrite <-app_assoc in Hout.
    destruct (drop_req_run c Hd (st_pool s) (sreq r) i row own t _ (st_alloc s) n0 I Hdis Ht Hch Hn0 ltac:(lia) Hi Hrow Ho Hout)
      as (c' & al' & Hrun & I' & Ec' & Ht' & Hch' & Hout' & Hf').
    unfold release_kv_cache, has_row. rewrite Hi, Hal, Heff. cbn [negb Bool.eqb py_assert mbind res_bind andb]. rewrite Hrun. bind_step.
    rewrite no_overallocation. bind_step. rewrite Hfree. bind_step. eexists _, _. split; [done|]. split; [|done].
    apply Hkeep; [simpl; congruence|done|]. exists (<[n0 := (Hd n0 - 1)%Z]> Hd), t. rewrite Ec'. do 5 (split; [done|]). intros n. specialize (Hlk0 n).
    destruct (decide (n = n0)) as [->|Hne]; [rewrite fn_lookup_insert; lia|rewrite fn_lookup_insert_ne by done; lia].
  - unfold has_row. rewrite Hi, Hal, Heff. cbn [negb Bool.eqb py_assert or_raise mbind res_bind]. unfold ChunkCache.cache_finished_req, kv_row, req_row.
    rewrite Hi. cbn [or_raise mbind res_bind]. rewrite Hrow. cbn [or_raise mbind res_bind]. unfold cache_holds in Hc. cbn [concat] in Hc. rewrite <-app_assoc in Hc.
    destruct (kv_cover_law (st_alloc s) _ _ _ Hc Ho) as (al' & Hf & Hout' & _). rewrite Hf. bind_step.
    rewrite no_overallocation. bind_step. rewrite Hfree. bind_step. eexists _, _. split; [done|]. split; [|done].
    apply Hkeep; [done|by eapply kv_free_fixed|done].
Qed.

Lemma store_holds_perm s0 held held' s : held ≡ₚ held' -> store_holds s0 held s -> store_holds s0 held' s.
Proof.
  intros E (Hk0 & owns & other & rows & Hp & Hh & Hc). destruct (Permutation_Forall2 E Hh) as (owns' & Eo & Hh').
  split; [done|]. exists owns', other, rows. split; [|split; [done|] ].
  - destruct Hp as [P1 P2 P3]. split; [|done|done]. rewrite <-P1. apply Permutation_app_head, Permutation_app_tail.
    unfold rows_of. by rewrite E.
  - assert (El : concat owns ++ other ≡ₚ concat owns' ++ other) by (by rewrite Eo). unfold cache_holds in *.
    destruct (st_cache s); [|by eapply kv_out_perm]. destruct Hc as (Hd & t & ? & ? & ? & ? & Hout & Hlk). exists Hd, t.
    do 4 (split; [done|]). split; [eapply kv_out_perm; [|exact Hout]; by rewrite El|]. intros n. unfold locks in *.
    rewrite <-(filter_perm _ _ _ E). apply Hlk.
Qed.

(** The store of either cache can be retracted from. *)
#[export] Instance store_retractable s0 : Retractable args steps None (store_holds s0).
Proof.
  split.
  - apply store_holds_perm.
  - intros r held s k Hok. unfold release_req. destruct (store_release_run s0 r held s Hok) as (s1 & q & -> & Hok1 & Hq). bind_step.
    destruct (store_evict s0 held s1 (Z.to_nat (k * steps)) Hok1) as (tc & al & -> & Hok2 & _). bind_step.
    unfold reset_for_retract. simpl. rewrite Hq. cbn [py_assert mbind res_bind]. eauto.
  - apply store_evict.
  - intros held s _. simpl. eauto.
Qed.

End store.

Section step.
Context `{Env}.

(** ** Slots of single tokens *)

(** Where the slots a request owns itself begin. *)
Definition own_from (tc : PrefixCache) (q : Req) : nat := match tc with Radix _ => cache_protected_len q | Chunk _ => 0 end.

(** The length of the key under which a request's tokens are cached. *)
Definition req_klen (c : RadixCache) (q : Req) : nat :=
  key_len (req_key c (take (kv_committed_len q) (origin_input_ids q ++ output_ids q)) q).

Lemma slice_rest {A} a b (l : list A) : a <= b -> slice a b l ++ drop b l = drop a l.
Proof. intros Hle. unfold slice. rewrite <-(take_drop (b - a) (drop a l)) at 2. rewrite drop_drop. by replace (a + (b - a)) with b by lia. Qed.

(** On single-token slots, what a request owns is a suffix of its row. *)
Lemma own_slots_token tc t q kv own : own_slots tc (PTok t) q kv own <->
  own = drop (own_from tc q) kv /\
  (forall c, tc = Radix c -> session_id q = None /\ kv_committed_len q <= length (origin_input_ids q ++ output_ids q) /\
     cache_protected_len q <= req_klen c q /\ is_Some (last_node q)).
Proof.
  destruct tc as [c|ps]; cbn [own_from own_slots].
  - split.
    + intros (? & ? & Hle & ? & tail & -> & _ & Ht). cbn in Ht. subst tail. split; [by apply slice_rest|]. by intros ? [= <-].
    + intros [-> Hq]. destruct (Hq c eq_refl) as (? & ? & Hle & ?). do 4 (split; [done|]).
      exists (drop (req_klen c q) kv). split; [by rewrite <-(slice_rest (cache_protected_len q) (req_klen c q))|done].
  - split; [|by intros [-> _] ]. intros Hc. cbn in Hc. subst. by split.
Qed.

Lemma req_key_mono c l n m q : n <= m -> key_len (req_key c (take n l) q) <= key_len (req_key c (take m l) q).
Proof.
  intros Hle. unfold req_key. rewrite !page_aligned_len. apply page_floor_mono. unfold key_len, raw_len. simpl.
  rewrite !length_take. destruct (is_eagle (cfg c)); repeat case_match; rewrite ?Nat.ltb_lt, ?Nat.ltb_ge in *; lia.
Qed.

(** The slots after one more token. *)
Lemma own_slots_extend tc t t' q row own x alloc :
  own_slots tc (PTok t) q (take (kv_committed_len q) row) own -> kv_committed_len q < length row ->
  kv_committed_len q < length (origin_input_ids q ++ output_ids q) ->
  own_slots tc (PTok t') (set_committed (S (kv_committed_len q)) (set_kv alloc q))
    (take (S (kv_committed_len q)) (<[kv_committed_len q := x]> row)) (own ++ [x]).
Proof.
  intros [-> Hq]%own_slots_token Hrow Hids. set (n := kv_committed_len q) in *.
  assert (Et : take (S n) (<[n := x]> row) = take n row ++ [x]).
  { rewrite (take_S_r _ _ x) by (by apply list_lookup_insert_eq). by rewrite take_insert_ge by lia. }
  assert (own_from tc q <= n) as Hfrom.
  { destruct tc as [c|ps]; simpl; [|lia]. destruct (Hq c eq_refl) as (_ & _ & Hle & _).
    destruct (req_key_facts c (take n (origin_input_ids q ++ output_ids q)) q) as (_ & _ & _ & _ & _ & Hk & _).
    rewrite length_take in Hk. unfold req_klen in Hle. fold n in Hle. lia. }
  apply own_slots_token. split.
  - rewrite Et. assert (own_from tc (set_committed (S n) (set_kv alloc q)) = own_from tc q) as -> by (by destruct tc).
    by rewrite drop_app_le by lens.
  - intros c ->. destruct (Hq c eq_refl) as (? & ? & Hle & ?). split; [done|]. split; [simpl in *; lia|]. split; [|done].
    pose proof (req_key_mono c (origin_input_ids q ++ output_ids q) n (S n) q ltac:(lia)) as Hm.
    etrans; [exact Hle|]. exact Hm.
Qed.

(** ** The cells written *)

Lemma write_cells_run rows locs vals p :
  NoDup rows -> length locs = length rows -> length vals = length rows ->
  (forall k i n, rows !! k = Some i -> locs !! k = Some n -> exists row, req_to_token p !! i = Some row /\ n < length row) ->
  exists tbl, write_cells rows locs vals p = Ok (set_table tbl p) /\ length tbl = length (req_to_token p) /\
    (forall w, Forall (fun row => length row = w) (req_to_token p) -> Forall (fun row => length row = w) tbl) /\
    (forall i, i ∉ rows -> tbl !! i = req_to_token p !! i) /\
    (forall k i n x row, rows !! k = Some i -> locs !! k = Some n -> vals !! k = Some x -> req_to_token p !! i = Some row ->
       tbl !! i = Some (<[n := x]> row)).
Proof.
  revert locs vals p. induction rows as [|i rows IH]; intros [|n locs] [|x vals] p Hnd Hl Hv Hok; try done.
  { exists (req_to_token p). split; [by destruct p|]. by repeat split. }
  apply NoDup_cons in Hnd as [Hi Hnd]. destruct (Hok 0 i n eq_refl eq_refl) as (row & Hrow & Hn). cbn [write_cells].
  rewrite Hrow. cbn [or_raise mbind res_bind]. rewrite (proj2 (Nat.ltb_lt _ _) Hn).
  destruct (IH locs vals (set_table (<[i := <[n := x]> row]> (req_to_token p)) p) Hnd) as (tbl & -> & Hlen & Hw & Hout & Hin).
  { simpl in Hl. lia. } { simpl in Hv. lia. }
  { intros k j m Hj Hm. destruct (Hok (S k) j m Hj Hm) as (row' & Hr' & ?). exists row'. split; [|done]. simpl.
    rewrite list_lookup_insert_ne; [done|]. intros ->. apply Hi. by eapply list_elem_of_lookup_2. }
  assert (Hlt : i < length (req_to_token p)) by (by eapply lookup_lt_Some).
  exists tbl. split; [done|]. split; [by rewrite Hlen; simpl; rewrite length_insert|]. split; [|split].
  - intros w HF. apply Hw. simpl. apply Forall_insert; [done|]. rewrite length_insert. by apply (Forall_lookup_1 _ _ _ _ HF Hrow).
  - intros j Hj. rewrite elem_of_cons in Hj. rewrite Hout by tauto. simpl. apply list_lookup_insert_ne. intros ->. tauto.
  - intros [|k] j m y r Hj Hm Hy Hr; simpl in Hj, Hm, Hy.
    + injection Hj as <-. injection Hm as <-. injection Hy as <-. rewrite Hout by done. simpl. assert (r = row) as -> by congruence.
      by apply list_lookup_insert_eq.
    + apply (Hin k j m y r Hj Hm Hy). simpl. rewrite list_lookup_insert_ne; [done|]. intros ->. apply Hi. by eapply list_elem_of_lookup_2.
Qed.

(** ** The slots allocated *)

Lemma cache_holds_perm tc al held l l' : l ≡ₚ l' -> cache_holds tc al held l -> cache_holds tc al held l'.
Proof.
  intros E. destruct tc; [|by apply kv_out_perm]. intros (Hd & t & ? & ? & ? & ? & Hout & ?). exists Hd, t. do 4 (split; [done|]).
  split; [eapply kv_out_perm; [|exact Hout]; by rewrite E|done].
Qed.

Lemma token_slots_run tc t held l n :
  cache_holds tc (PTok t) held l -> (Z.of_nat n <= kv_available (PTok t))%Z ->
  exists t' st out, alloc_token_slots tc n (PTok t) = Ok (tc, PTok t', st, out) /\ kvp_fixed (PTok t') = kvp_fixed (PTok t) /\
    length out = n /\ cache_holds tc (PTok t') held (out ++ l).
Proof.
  intros Hc Hav. unfold alloc_token_slots.
  assert (evict_for tc n (PTok t) = Ok (tc, PTok t)) as ->.
  { unfold evict_for, evict_from_tree_cache. destruct tc; [|done]. apply Z.ltb_ge in Hav. by rewrite Hav. }
  cbn [mbind res_bind kvp_alloc].
  assert (Hrun : forall m, tok_out t m -> exists t' out, Token.alloc (tok_state t) n = (t', Some out) /\ tok_out (TokA t') (out ++ m) /\
    length out = n /\ al_fixed t' = al_fixed (tok_state t)).
  { intros m [I Hg]. pose proof (tok_alloc_run (tok_state t) m n I) as Hr. pose proof (token_alloc_group (tok_state t) n) as Hgr.
    destruct (Token.alloc (tok_state t) n) as [t' [out|] ]; [|simpl in Hav; lia]. destruct Hr as (I' & Hl & Hf & _).
    exists t', out. split; [done|]. split; [split; [done|simpl in *; congruence]|done]. }
  destruct tc as [c|ps]; cbn [cache_holds] in *.
  - destruct Hc as (Hd & tt & I & Hdis & Ht & Hch & Hout & Hlk). destruct (Hrun _ Hout) as (t' & out & -> & Ho' & Hl & Hf).
    bind_step. exists (TokA t'), (kvp_backup_state (PTok t)), out. split; [done|]. split; [simpl; congruence|]. split; [done|].
    exists Hd, tt. do 3 (split; [done|]). split; [by intros ? ? ? ? ? ?|]. split; [|done].
    eapply (kv_out_perm (PTok (TokA t'))); [|exact Ho']. solve_Permutation.
  - destruct (Hrun _ Hc) as (t' & out & -> & Ho' & Hl & Hf). bind_step.
    exists (TokA t'), (kvp_backup_state (PTok t)), out. split; [done|]. split; [simpl; congruence|]. done.
Qed.

(** ** The step *)

(** Pages of one token; a place for the next token of every request. *)
Record decodable (s : Store) (reqs : list SReq) : Prop := {
  dc_token : exists t, st_alloc s = PTok t;
  dc_page : kvp_page_size (st_alloc s) = 1 /\ cache_page_size (st_cache s) = 1;
  dc_room : Forall (fun r => kv_committed_len (sreq r) < length (origin_input_ids (sreq r) ++ output_ids (sreq r)) /\
    kv_committed_len (sreq r) < max_context_len (st_pool s)) reqs;
}.

(** A request after the step. *)
Definition stepped (r : SReq) : SReq :=
  put_req (set_committed (S (kv_committed_len (sreq r))) (set_kv (S <$> kv_allocated_len (sreq r)) (sreq r))) r.

Lemma stepped_list reqs :
  zip_with (fun q r => put_req (set_committed (kv_committed_len q + 1) q) r)
    ((fun r => set_kv ((fun n => n + 1) <$> kv_allocated_len r) r) <$> (sreq <$> reqs)) reqs = stepped <$> reqs.
Proof.
  induction reqs as [|r reqs IH]; [done|]. csimpl. rewrite IH. f_equal. unfold stepped. rewrite Nat.add_1_r.
  by destruct (kv_allocated_len (sreq r)); simpl; rewrite ?Nat.add_1_r.
Qed.

Lemma concat_snoc (owns : list (list Z)) out : length out = length owns ->
  concat (zip_with (fun o x => o ++ [x]) owns out) ≡ₚ out ++ concat owns.
Proof.
  revert out. induction owns as [|o owns IH]; intros [|x out] Hl; try done. simpl. rewrite IH by (simpl in Hl; lia). solve_Permutation.
Qed.

Lemma rows_stepped reqs : rows_of (sreq <$> (stepped <$> reqs)) = rows_of (sreq <$> reqs).
Proof. unfold rows_of. induction reqs as [|r reqs IH]; [done|]. csimpl. by rewrite IH. Qed.

Lemma cache_holds_stepped tc al reqs l : cache_holds tc al reqs l -> cache_holds tc al (stepped <$> reqs) l.
Proof.
  destruct tc; [|done]. intros (Hd & t & ? & ? & ? & ? & ? & Hlk). exists Hd, t. do 5 (split; [done|]). intros n.
  assert (locks (stepped <$> reqs) n = locks reqs n) as ->; [|done].
  induction reqs as [|r reqs IH]; [done|]. csimpl. rewrite !locks_cons. f_equal. apply IH. intros m. specialize (Hlk m). rewrite locks_cons in Hlk.
  case_bool_decide; lia.
Qed.

Lemma rows_of_idx (reqs : list SReq) rows :
  Forall2 (fun r i => req_pool_idx (sreq r) = Some i) reqs rows -> rows = rows_of (sreq <$> reqs).
Proof. unfold rows_of. induction 1 as [|r i reqs rows Hi _ IH]; [done|]. csimpl. rewrite Hi. simpl. by f_equal. Qed.

Lemma rows_nodup p rows other : pool_inv p (rows ++ other) -> NoDup rows.
Proof.
  intros [Hp _ _]. assert (NoDup (free_slots p ++ rows ++ other)) as Hn by (rewrite Hp; apply NoDup_seq).
  apply NoDup_app in Hn as (_ & _ & Hn). by apply NoDup_app in Hn as (Hn & _).
Qed.

(** The tensors of the batch after the step. *)
Lemma aligned_stepped b rows' seqs orig loc :
  batch_aligned b -> rows' = sb_req_pool_indices b -> seqs = S <$> sb_seq_lens b -> orig = S <$> sb_orig_seq_lens b ->
  batch_aligned (mkSB (stepped <$> sb_reqs b) (Some RecvSkipper.DECODE) rows' seqs orig loc None (sb_prefix_lens b) (sb_extend_lens b) (sb_extend_num_tokens b)
    (sb_extend_logprob_start_lens b) (sb_mix_running_indices b) (sb_return_logprob b) (sb_top_logprobs_nums b) (sb_is_prefill_only b)
    (sb_prefill_input_ids b) (sb_extend_input_logprob_token_ids b)).
Proof.
  intros [A1 A2 A3 A4 A5] -> -> ->. split; simpl.
  - apply Forall2_fmap_l. eapply Forall2_impl; [exact A1|]. done.
  - apply Forall2_fmap. eapply Forall2_impl; [exact A2|]. simpl. by intros ? ? ->.
  - by rewrite !length_fmap.
  - rewrite A4. clear. induction (sb_reqs b) as [|r l IH]; [done|]. csimpl. by rewrite IH.
  - intros Hr. destruct (A5 Hr) as (l & ? & ?). exists l. by rewrite length_fmap.
Qed.

(** The rows after the step, at the request with index [k]. *)
Lemma holds_stepped s s' t t' r own x i row :
  st_alloc s = PTok t -> st_alloc s' = PTok t' -> st_cache s' = st_cache s -> req_pool_idx (sreq r) = Some i ->
  req_to_token (st_pool s) !! i = Some row -> req_to_token (st_pool s') !! i = Some (<[kv_committed_len (sreq r) := x]> row) ->
  kv_committed_len (sreq r) < length (origin_input_ids (sreq r) ++ output_ids (sreq r)) -> kv_committed_len (sreq r) < length row ->
  holds s r own -> holds s' (stepped r) (own ++ [x]).
Proof.
  intros Ea Ea' Ec Hi Hrow Hrow' Hids Hlen [ (i' & row' & Hi' & Hr' & Ho) Hal]. assert (i' = i) as -> by congruence. assert (row' = row) as -> by congruence.
  split; [|simpl; by rewrite Hal]. exists i, (<[kv_committed_len (sreq r) := x]> row). split; [done|]. split; [done|].
  rewrite Ec, Ea'. rewrite Ea in Ho. exact (own_slots_extend _ t t' (sreq r) row own x _ Ho Hlen Hids).
Qed.

Lemma decode_run fill uninit s0 b s :
  batch_aligned b -> store_holds s0 (sb_reqs b) s -> decodable s (sb_reqs b) -> fits (spec := None) (sb_reqs b) s ->
  exists b' s' out, prepare_for_decode fill uninit b s = Ok (b', s') /\ sb_reqs b' = stepped <$> sb_reqs b /\
    sb_out_cache_loc b' = Some out /\ batch_aligned b' /\ store_holds s0 (sb_reqs b') s' /\
    Forall2 (fun r x => exists i row, req_pool_idx (sreq r) = Some i /\ req_to_token (st_pool s') !! i = Some row /\
      row !! kv_committed_len (sreq r) = Some x) (sb_reqs b) out.
Proof.
  intros Hal (Hk & owns & other & rows & Hp & Hh & Hc) [ [t Et] [Hps Hcps] Hroom] (n & Hn & Hav).
  pose proof (al_rows _ Hal) as Hrows. pose proof (al_seq _ Hal) as Hseq. pose proof (rows_of_idx _ _ Hrows) as Er.
  unfold new_tokens_required_next_decode in Hn. rewrite Hps in Hn. injection Hn as Hn. rewrite Nat.mul_1_r in Hn.
  assert (n = length (sb_seq_lens b)) as ->.
  { rewrite <-Hn, <-(Forall2_length _ _ _ Hseq). clear. induction (sb_reqs b) as [|r l IH]; [done|]. cbn [List.filter].
    cbn [length]. by rewrite IH. }
  assert (Hrow : forall k r, sb_reqs b !! k = Some r -> exists i row, sb_req_pool_indices b !! k = Some i /\ sb_seq_lens b !! k = Some (kv_committed_len (sreq r)) /\
    req_pool_idx (sreq r) = Some i /\ req_to_token (st_pool s) !! i = Some row /\ kv_committed_len (sreq r) < length row /\
    kv_committed_len (sreq r) < length (origin_input_ids (sreq r) ++ output_ids (sreq r))).
  { intros k r Hr. destruct (Forall2_lookup_l _ _ _ _ _ Hrows Hr) as (i & Hi & Hri). destruct (Forall2_lookup_l _ _ _ _ _ Hseq Hr) as (m & Hm & <-).
    destruct (Forall2_lookup_l _ _ _ _ _ Hh Hr) as (own & _ & [ (j & row & Hj & Hrow & _) _]). assert (j = i) as -> by congruence.
    exists i, row. do 4 (split; [done|]). destruct (Forall_lookup_1 _ _ _ _ Hroom Hr) as [? ?]. split; [|done].
    by rewrite (Forall_lookup_1 _ _ _ _ (po_width _ _ Hp) Hrow). }
  unfold prepare_for_decode, alloc_for_decode. rewrite Hcps, Nat.eqb_refl, Nat.mul_1_r. rewrite Et in *.
  destruct (token_slots_run (st_cache s) t (sb_reqs b) _ _ Hc Hav) as (t' & st & out & -> & Hf & Hlo & Hc'). bind_step.
  destruct (write_cells_run (sb_req_pool_indices b) (sb_seq_lens b) out (st_pool s)) as (tbl & -> & Htl & Htw & Hto & Hti).
  { rewrite Er. by eapply rows_nodup. } { by rewrite <-(Forall2_length _ _ _ Hseq), <-(Forall2_length _ _ _ Hrows). }
  { by rewrite Hlo, <-(Forall2_length _ _ _ Hseq), <-(Forall2_length _ _ _ Hrows). }
  { intros k i m Hi Hm. destruct (Forall2_lookup_r _ _ _ _ _ Hrows Hi) as (r & Hr & _).
    destruct (Hrow k r Hr) as (i' & row & ? & ? & _ & ? & ? & _). exists row. simplify_eq. done. }
  assert (Hcell : forall k r x, sb_reqs b !! k = Some r -> out !! k = Some x -> exists i row, req_pool_idx (sreq r) = Some i /\
    req_to_token (st_pool s) !! i = Some row /\ tbl !! i = Some (<[kv_committed_len (sreq r) := x]> row) /\ kv_committed_len (sreq r) < length row /\
    kv_committed_len (sreq r) < length (origin_input_ids (sreq r) ++ output_ids (sreq r))).
  { intros k r x Hr Hx. destruct (Hrow k r Hr) as (i & row & Hi & Hm & Hri & Htb & ? & ?). exists i, row. do 2 (split; [done|]).
    split; [by apply (Hti k i _ x row)|done]. }
  pose proof (Forall2_length _ _ _ Hh) as Hlh. pose proof (Forall2_length _ _ _ Hseq) as Hls.
  bind_step. rewrite stepped_list. eexists _, _, out. split; [done|]. split; [done|]. split; [done|]. split; [by apply aligned_stepped|].
  split; [split|].
  - rewrite <-Hk. unfold kind_of. simpl. by rewrite Et, <-Hf.
  - exists (zip_with (fun o x => o ++ [x]) owns out), other, rows. split; [|split].
    + cbn [sb_reqs st_pool]. rewrite rows_stepped. destruct Hp as [P1 P2 P3]. split; [done|exact (eq_trans Htl P2)|simpl; by apply Htw].
    + apply Forall2_lookup. intros k. cbn [sb_reqs]. rewrite list_lookup_fmap, lookup_zip_with.
      destruct (sb_reqs b !! k) as [r|] eqn:Hr; simpl.
      * destruct (Forall2_lookup_l _ _ _ _ _ Hh Hr) as (own & Ho & Hhr). rewrite Ho. simpl.
        destruct (lookup_lt_is_Some_2 out k) as [x Hx]; [rewrite Hlo, <-Hls; by eapply lookup_lt_Some|]. rewrite Hx. constructor.
        destruct (Hcell k r x Hr Hx) as (i & row & ? & ? & ? & ? & ?). by eapply (holds_stepped s _ t t' r own x i row).
      * rewrite (lookup_ge_None_2 owns k); [constructor|]. rewrite <-Hlh. by apply lookup_ge_None_1.
    + apply cache_holds_stepped. assert (concat (zip_with (fun o x => o ++ [x]) owns out) ++ other ≡ₚ out ++ concat owns ++ other) as Ep
        by (rewrite concat_snoc by congruence; by rewrite app_assoc).
      by eapply cache_holds_perm; [symmetry; exact Ep|].
  - apply Forall2_same_length_lookup_2; [congruence|]. intros k r x Hr Hx. destruct (Hcell k r x Hr Hx) as (i & row & Hi & _ & Htb & Hlt & _).
    exists i. eexists. split; [done|]. split; [exact Htb|]. by apply list_lookup_insert_eq.
Qed.

End step.
