(* ===== verification/ExtendStep.v ===== *)
(** * ExtendStep: a prefill step and the invariant of the running batch

    With pages of one token, a prefill batch for which there are rows and slots,
    free or evictable, gets them: its requests then hold what the decode steps
    rely on, and the requests already running keep what they held. *)

From S2P Require Import Prelude RadixKey RadixNode RadixTree RadixInv RadixSteps RadixContent RadixOps RadixInsert RadixLock RadixEvict RadixSpec ReqPool ReqCache ReqCacheSpec Allocator AllocatorSpec Allocation AllocationClaims SchedDelay SchedPolicy PrefillAdder ScheduleBatch ScheduleBatchSpec DecodeStep.

Open Scope nat_scope.

Section step.
Context `{Env}.

(** ** Rows for fresh requests *)

Definition give_row (i : nat) (q : Req) : Req := set_pool_idx (Some i) q.

Lemma assign_fresh qs sel gen : Forall (fun q => req_pool_idx q = None) qs -> length sel = length qs ->
  exists gen', assign_rows qs sel gen = Ok (zip_with give_row sel qs, gen').
Proof.
  intros Hf. revert sel gen. induction Hf as [|q qs Hq _ IH]; intros [|i sel] gen Hl; try done; simpl; [by eexists|].
  rewrite Hq. simpl in Hl. destruct (IH sel (alter S i gen) ltac:(lia)) as (gen' & ->). bind_step. by eexists.
Qed.

Lemma alloc_fresh qs p other :
  pool_inv p other -> Forall (fun q => req_pool_idx q = None) qs -> length qs <= pool_available_size p ->
  exists p' rows, alloc_req_slots qs p = Ok (p', zip_with give_row rows qs, Some <$> rows) /\ length rows = length qs /\
    pool_inv p' (rows ++ other) /\ req_to_token p' = req_to_token p /\ max_context_len p' = max_context_len p.
Proof.
  intros [P1 P2 P3] Hf Hroom. unfold alloc_req_slots, pool_alloc.
  assert (List.filter has_row qs = []) as ->.
  { clear -Hf. induction Hf as [|q qs Hq _ IH]; [done|]. simpl. unfold has_row. by rewrite Hq. }
  cbn [forallb py_assert mbind res_bind length]. rewrite Nat.sub_0_r. unfold pool_available_size in Hroom.
  rewrite (proj2 (Nat.ltb_ge _ _) Hroom). set (rows := take (length qs) (free_slots p)).
  assert (Hl : length rows = length qs) by (unfold rows; rewrite length_take; lia).
  destruct (assign_fresh qs rows (req_generation p) Hf Hl) as (gen & ->). bind_step.
  assert (map req_pool_idx (zip_with give_row rows qs) = Some <$> rows) as ->.
  { clear -Hl. generalize dependent rows. intros rows. clear. revert qs. induction rows as [|i rows IH]; intros [|q qs] Hl; try done.
    simpl. f_equal. apply IH. simpl in Hl. lia. }
  eexists _, rows. split; [done|]. split; [done|]. split; [|done]. split; simpl; [|done|done].
  trans (free_slots p ++ other); [|done]. rewrite <-(take_drop (length qs) (free_slots p)) at 2. fold rows. solve_Permutation.
Qed.

(** ** Slots, evicting what is needed *)

Lemma token_slots_evict_run tc t held l n :
  cache_holds tc (PTok t) held l -> (Z.of_nat n <= kv_available (PTok t) + cache_evictable tc)%Z ->
  exists tc' t' st out, alloc_token_slots tc n (PTok t) = Ok (tc', PTok t', st, out) /\ cache_kind tc' = cache_kind tc /\
    kvp_fixed (PTok t') = kvp_fixed (PTok t) /\ length out = n /\ cache_holds tc' (PTok t') held (out ++ l).
Proof.
  intros Hc Hroom.
  assert (exists tc1 t1, evict_for tc n (PTok t) = Ok (tc1, PTok t1) /\ cache_kind tc1 = cache_kind tc /\ kvp_fixed (PTok t1) = kvp_fixed (PTok t) /\
    cache_holds tc1 (PTok t1) held l /\ (Z.of_nat n <= kv_available (PTok t1))%Z) as (tc1 & t1 & Hev & Hk & Hf & Hc1 & Hav).
  { destruct tc as [c|ps]; [|exists (Chunk ps), t; simpl in Hroom; rewrite Z.add_0_r in Hroom; done].
    destruct Hc as (Hd & tt & I & Hdis & Ht & Hch & Hout & Hlk).
    destruct (evict_for_run c Hd (PTok t) tt _ n I Hdis Ht Hout Hch) as (c' & a' & t' & Hrun & I' & Ec & Ht' & Hout' & Hf & _ & Hr & _).
    destruct a' as [t1|t1]; [|done]. exists (Radix c'), t1. split; [done|]. split; [simpl; congruence|]. split; [done|]. split; [|by apply Hr].
    exists Hd, t'. rewrite Ec. do 3 (split; [done|]). split; [by intros ? ? ? ? ? ?|done]. }
  destruct (token_slots_run tc1 t1 held l n Hc1 Hav) as (t' & st & out & Hrun & Hf' & Hl & Hc').
  exists tc1, t', st, out. split; [|split; [done|split; [congruence|done] ] ].
  unfold alloc_token_slots in *. rewrite Hev. bind_step.
  assert (evict_for tc1 n (PTok t1) = Ok (tc1, PTok t1)) as E.
  { unfold evict_for, evict_from_tree_cache. destruct tc1; [|done]. apply Z.ltb_ge in Hav. by rewrite Hav. }
  rewrite E in Hrun. exact Hrun.
Qed.

(** ** The table *)

Lemma jobs_table_other out jobs pt tbl i : i ∉ j_row <$> jobs -> jobs_table out pt jobs tbl !! i = tbl !! i.
Proof.
  revert pt tbl. induction jobs as [|j jobs IH]; intros pt tbl Hi; [done|]. csimpl in Hi. rewrite elem_of_cons in Hi. simpl.
  rewrite IH by tauto. apply list_lookup_alter_ne. intros E. apply Hi. by left.
Qed.

Lemma jobs_table_width out jobs pt p w :
  Forall (job_ok p) jobs -> pt + sum_list (j_extend_len <$> jobs) <= length out -> Forall (fun row => length row = w) (req_to_token p) ->
  Forall (fun row => length row = w) (jobs_table out pt jobs (req_to_token p)) /\
  length (jobs_table out pt jobs (req_to_token p)) = length (req_to_token p).
Proof.
  revert pt p. induction jobs as [|j jobs IH]; intros pt p Hok Ho Hw; [done|]. apply Forall_cons in Hok as [Hj Hok]. rewrite fmap_cons in Ho. cbn [sum_list_with] in Ho.
  change (id (j_extend_len j)) with (j_extend_len j) in Ho.
  cbn [jobs_table]. destruct (IH (pt + j_extend_len j) (set_table (alter (job_row out pt j) (j_row j) (req_to_token p)) p)) as [H1 H2].
  - eapply Forall_impl; [exact Hok|]. intros j' Hj'. apply job_ok_alter; [done|done|lia].
  - lia.
  - simpl. apply Forall_alter; [done|]. intros row Hr Hlen. destruct Hj as (Hp & Hs & row' & Hr' & Hle). rewrite Hr in Hr'. injection Hr' as <-.
    unfold job_row. lens.
  - simpl in H1, H2. split; [done|]. by rewrite H2, length_alter.
Qed.

(** Consecutive pieces of the slots. *)
Fixpoint cut (lens : list nat) (l : list Z) : list (list Z) :=
  match lens with
  | [] => []
  | n :: lens => take n l :: cut lens (drop n l)
  end.

Lemma cut_concat lens l : length l = sum_list lens -> concat (cut lens l) = l.
Proof.
  revert l. induction lens as [|n lens IH]; intros l Hl; cbn [cut concat sum_list_with] in *; [by apply nil_length_inv in Hl|].
  change (id n) with n in Hl. rewrite IH by lens. apply take_drop.
Qed.

Lemma cut_length lens l : length (cut lens l) = length lens.
Proof. revert l. induction lens as [|n lens IH]; intros l; [done|]. simpl. by rewrite IH. Qed.

Lemma sum_take_le lens k n : lens !! k = Some n -> sum_list (take k lens) + n <= sum_list lens.
Proof.
  revert k. induction lens as [|m lens IH]; intros [|k] Hk; try done.
  - injection Hk as <-. simpl. unfold id. lia.
  - specialize (IH k Hk). cbn [take sum_list_with]. change (id m) with m. lia.
Qed.

Lemma cut_lookup lens l k n : lens !! k = Some n -> cut lens l !! k = Some (slice (sum_list (take k lens)) (sum_list (take k lens) + n) l).
Proof.
  revert l k. induction lens as [|m lens IH]; intros l [|k] Hk; try done.
  - injection Hk as <-. simpl. by rewrite slice_0.
  - cbn [cut take lookup list_lookup sum_list_with]. change (id m) with m. rewrite (IH _ _ Hk). unfold slice. rewrite drop_drop.
    f_equal. f_equal. lia.
Qed.

(** ** The step *)

(** A request admitted for prefill: no row yet, the slots of its cached prefix,
    and a range to compute that ends inside its tokens and its row. *)
Record admissible (tc : PrefixCache) (width : nat) (r : SReq) : Prop := {
  as_fresh : req_pool_idx (sreq r) = None;
  as_range : extend_range r = Some (Z.of_nat (length (prefix_indices (sreq r))), Z.of_nat (extend_end (sreq r)));
  as_len : length (prefix_indices (sreq r)) <= extend_end (sreq r) <= width /\
    extend_end (sreq r) <= length (full_untruncated_fill_ids (sreq r));
  as_from : own_from tc (sreq r) = length (prefix_indices (sreq r));
  as_radix c : tc = Radix c -> session_id (sreq r) = None /\ is_Some (last_node (sreq r)) /\
    extend_end (sreq r) <= length (origin_input_ids (sreq r) ++ output_ids (sreq r)) /\
    cache_protected_len (sreq r) <= key_len (req_key c (take (extend_end (sreq r)) (origin_input_ids (sreq r) ++ output_ids (sreq r))) (sreq r));
}.

(** The requests of the batch hold their locks only; [held] are running. *)
Definition store_waits (s0 : Store) (waiting held : list SReq) (s : Store) : Prop :=
  kind_of s = kind_of s0 /\
  exists owns other rows, pool_inv (st_pool s) (rows_of (sreq <$> held) ++ rows) /\ Forall2 (holds s) held owns /\
    cache_holds (st_cache s) (st_alloc s) (waiting ++ held) (concat owns ++ other).

Definition extended (i : nat) (r : SReq) : SReq :=
  put_req (set_committed (extend_end (sreq r)) (set_kv (Some (extend_end (sreq r))) (give_row i (sreq r)))) r.

Definition job_of (i : nat) (r : SReq) : row_job :=
  mkJob i (length (prefix_indices (sreq r))) (extend_end (sreq r)) (range_length r) (prefix_indices (sreq r)).

Definition extend_batch (reqs : list SReq) (n : nat) : Batch :=
  mkBatch (sreq <$> reqs) ((fun q => length (prefix_indices q)) <$> (sreq <$> reqs)) (range_length <$> reqs) (extend_end <$> (sreq <$> reqs)) n.

Lemma batch_jobs_eq reqs rows n : length rows = length reqs ->
  batch_jobs (extend_batch reqs n) (omap (fun x => x) (Some <$> rows)) = zip_with job_of rows reqs.
Proof.
  assert (omap (fun x => x) (Some <$> rows) = rows) as -> by (induction rows as [|i rows IH]; [done|]; csimpl; by rewrite IH).
  unfold batch_jobs, extend_batch. cbn [b_reqs b_prefix_lens b_seq_lens b_extend_lens]. revert rows.
  induction reqs as [|r reqs IH]; intros [|i rows] Hl; try done. csimpl. f_equal. apply IH. simpl in Hl. lia.
Qed.

Lemma range_length_eq tc w r : admissible tc w r -> range_length r = extend_end (sreq r) - length (prefix_indices (sreq r)).
Proof. intros A. unfold range_length. rewrite (as_range _ _ _ A). lia. Qed.

Lemma extend_tokens tc w reqs : Forall (admissible tc w) reqs ->
  length (concat ((fun q => drop (length (prefix_indices q)) (get_fill_ids q)) <$> (sreq <$> reqs))) = sum_list (range_length <$> reqs).
Proof.
  induction 1 as [|r reqs A _ IH]; [done|]. csimpl. rewrite length_app, IH. unfold id. f_equal. rewrite (range_length_eq _ _ _ A).
  unfold get_fill_ids. rewrite length_drop, length_take. destruct (as_len _ _ _ A). lia.
Qed.

Lemma commit_run tc w reqs rows : Forall (admissible tc w) reqs -> length rows = length reqs ->
  commit_extend (zip_with (fun r n => set_kv (Some n) r) (zip_with give_row rows (sreq <$> reqs)) (extend_end <$> (sreq <$> reqs))) reqs
    (extend_end <$> (sreq <$> reqs)) ((fun q => length (prefix_indices q)) <$> (sreq <$> reqs)) = Ok (zip_with extended rows reqs).
Proof.
  intros HF. revert rows. induction HF as [|r reqs A _ IH]; intros [|i rows] Hl; try done. csimpl. rewrite (range_length_eq _ _ _ A).
  destruct (as_len _ _ _ A) as [ [Hle _] _]. rewrite (proj2 (Z.eqb_eq _ _)) by lia. cbn [py_assert mbind res_bind].
  rewrite IH by (simpl in Hl; lia). done.
Qed.

Lemma extended_rows reqs rows : length rows = length reqs -> rows_of (sreq <$> zip_with extended rows reqs) = rows.
Proof.
  unfold rows_of. revert rows. induction reqs as [|r reqs IH]; intros [|i rows] Hl; try done. csimpl. f_equal. apply IH. simpl in Hl. lia.
Qed.

Lemma pool_rows_run reqs rows : length rows = length reqs ->
  mapM (fun q => or_raise TypeError (req_pool_idx q))
    (zip_with (fun r n => set_kv (Some n) r) (zip_with give_row rows (sreq <$> reqs)) (extend_end <$> (sreq <$> reqs))) = Ok rows.
Proof.
  revert rows. induction reqs as [|r reqs IH]; intros [|i rows] Hl; try done. csimpl.
  rewrite IH by (simpl in Hl; lia). done.
Qed.

Lemma locks_extended reqs rows held n : length rows = length reqs -> locks (zip_with extended rows reqs ++ held) n = locks (reqs ++ held) n.
Proof.
  revert rows. induction reqs as [|r reqs IH]; intros [|i rows] Hl; try done. csimpl. rewrite !locks_cons. simpl. f_equal.
  apply IH. simpl in Hl. lia.
Qed.

Lemma cache_holds_extended tc al reqs rows held l : length rows = length reqs ->
  cache_holds tc al (reqs ++ held) l -> cache_holds tc al (zip_with extended rows reqs ++ held) l.
Proof.
  intros Hl. destruct tc; [|done]. intros (Hd & t & ? & ? & ? & ? & ? & Hlk). exists Hd, t. do 5 (split; [done|]).
  intros n. rewrite locks_extended by done. apply Hlk.
Qed.

(** One request of the batch after the step. *)
Lemma holds_extended s s' t r i row own :
  admissible (st_cache s) (max_context_len (st_pool s)) r -> cache_kind (st_cache s') = cache_kind (st_cache s) -> st_alloc s' = PTok t ->
  req_to_token (st_pool s') !! i = Some (prefix_indices (sreq r) ++ own ++ drop (extend_end (sreq r)) row) -> length own = range_length r ->
  holds s' (extended i r) own.
Proof.
  intros A Hk Et Hrow Hlen. rewrite (range_length_eq _ _ _ A) in Hlen. destruct (as_len _ _ _ A) as [ [Hle _] _]. split; [|done].
  eexists i, _. split; [done|]. split; [exact Hrow|]. rewrite Et. cbn [kv_committed_len sreq extended put_req upd_req set_committed].
  rewrite app_assoc, take_app_length' by lens. apply own_slots_token. split.
  - assert (own_from (st_cache s') (sreq (extended i r)) = length (prefix_indices (sreq r))) as Hfrom.
    { rewrite <-(as_from _ _ _ A). destruct (st_cache s), (st_cache s'); done. }
    cbn [sreq extended put_req upd_req] in Hfrom. rewrite Hfrom. by rewrite drop_app_length.
  - intros c' Ec. destruct (st_cache s) as [c|] eqn:Es; [|by rewrite Ec in Hk]. rewrite Ec in Hk. injection Hk as Hk.
    destruct (as_radix _ _ _ A c eq_refl) as (? & ? & ? & Hc). do 2 (split; [done|]). split; [|done].
    unfold req_klen, req_key, psize in *. cbn. by rewrite Hk.
Qed.

Lemma jobs_lens reqs rows : length rows = length reqs -> j_extend_len <$> zip_with job_of rows reqs = range_length <$> reqs /\ j_row <$> zip_with job_of rows reqs = rows.
Proof.
  revert rows. induction reqs as [|r reqs IH]; intros [|i rows] Hl; try done. simpl in Hl. destruct (IH rows ltac:(lia)) as [E1 E2].
  csimpl. by rewrite E1, E2.
Qed.

Lemma jobs_fit tc p reqs rows other : length rows = length reqs -> Forall (admissible tc (max_context_len p)) reqs -> pool_inv p (rows ++ other) ->
  Forall (job_ok p) (zip_with job_of rows reqs).
Proof.
  intros Hl HA [P1 P2 P3]. apply Forall_lookup. intros k j Hj. apply lookup_zip_with_Some in Hj as (i & r & -> & Hi & Hr).
  pose proof (Forall_lookup_1 _ _ _ _ HA Hr) as A. destruct (as_len _ _ _ A) as [ [Hle Hwd] _].
  split; [done|]. split; [cbn; rewrite (range_length_eq _ _ _ A); lia|]. cbn.
  assert (Hin : i ∈ seq 1 (pool_size p)).
  { rewrite <-P1, !elem_of_app. right. left. by eapply list_elem_of_lookup_2. }
  apply elem_of_seq in Hin. destruct (lookup_lt_is_Some_2 (req_to_token p) i) as [row Hrow]; [unfold alloc_size in P2; lia|].
  exists row. split; [done|]. by rewrite (Forall_lookup_1 _ _ _ _ P3 Hrow).
Qed.

(** The requests of the batch hold their pieces of the slots. *)
Lemma holds_new s s' t p1 reqs rows out :
  let jobs := zip_with job_of rows reqs in
  Forall (admissible (st_cache s) (max_context_len (st_pool s))) reqs -> length rows = length reqs ->
  cache_kind (st_cache s') = cache_kind (st_cache s) -> st_alloc s' = PTok t ->
  req_to_token (st_pool s') = jobs_table out 0 jobs (req_to_token p1) -> Forall (job_ok p1) jobs /\ NoDup rows ->
  length out = sum_list (range_length <$> reqs) ->
  Forall2 (holds s') (zip_with extended rows reqs) (cut (range_length <$> reqs) out).
Proof.
  intros jobs HA Hlr Hkind Et Htbl [Hfit Hnd] Hlo. destruct (jobs_lens reqs rows Hlr) as [El Er]. fold jobs in El, Er.
  apply Forall2_same_length_lookup_2.
  { rewrite length_zip_with, cut_length, length_fmap. lia. }
  intros k r' own Hr' Ho. apply lookup_zip_with_Some in Hr' as (i & r & -> & Hi & Hr).
  assert (Hk' : (range_length <$> reqs) !! k = Some (range_length r)) by (by rewrite list_lookup_fmap, Hr).
  rewrite (cut_lookup _ _ _ _ Hk') in Ho. injection Ho as <-.
  assert (Hj : jobs !! k = Some (job_of i r)) by (unfold jobs; apply lookup_zip_with_Some; by exists i, r).
  destruct (Forall_lookup_1 _ _ _ _ Hfit Hj) as (_ & _ & row & Hrow & _). cbn in Hrow.
  assert (Hst : job_start jobs k = sum_list (take k (range_length <$> reqs))) by (unfold job_start; by rewrite fmap_take, El).
  eapply (holds_extended s _ t r i row); [by eapply (Forall_lookup_1 _ _ _ _ HA)|done|done| |].
  - rewrite Htbl, <-Hst. exact (jobs_table_lookup out 0 jobs _ k (job_of i r) row ltac:(by rewrite Er) Hj Hrow).
  - rewrite length_slice. pose proof (sum_take_le (range_length <$> reqs) k _ Hk'). lia.
Qed.

(** The others keep their rows. *)
Lemma holds_others s s' held owns rows :
  kind_of s' = kind_of s -> (forall i, i ∉ rows -> req_to_token (st_pool s') !! i = req_to_token (st_pool s) !! i) ->
  NoDup (rows ++ rows_of (sreq <$> held)) -> Forall2 (holds s) held owns -> Forall2 (holds s') held owns.
Proof.
  intros Hk Ht (_ & Hn & _)%NoDup_app Hh. apply Forall2_same_length_lookup_2; [by eapply Forall2_length|]. intros k r own Hr Ho.
  pose proof (Forall2_lookup_lr _ _ _ _ _ _ Hh Hr Ho) as Hold. revert Hold. apply holds_keep_row; [done|]. intros i Hi. apply Ht. intros Hin.
  apply (Hn i Hin). unfold rows_of. apply list_elem_of_omap. exists (sreq r).
  split; [|done]. apply list_elem_of_fmap. exists r. split; [done|]. by eapply list_elem_of_lookup_2.
Qed.

Lemma aligned_extended fm reqs rows orig loc sum pl el en sl mix lp tops po ids lids :
  length rows = length reqs -> length orig = length reqs -> lp = existsb return_logprob reqs ->
  (lp = true -> exists l, tops = Some l /\ length l = length reqs) ->
  batch_aligned (mkSB (zip_with extended rows reqs) fm rows (extend_end <$> (sreq <$> reqs)) orig loc sum pl el en sl mix lp tops po ids lids).
Proof.
  intros Hl Ho -> Ht. assert (Hz : length (zip_with extended rows reqs) = length reqs) by lens. split; cbn.
  - clear -Hl. revert rows Hl. induction reqs as [|r reqs IH]; intros [|i rows] Hl; try done; constructor; [done|]. apply IH. simpl in Hl. lia.
  - clear -Hl. revert rows Hl. induction reqs as [|r reqs IH]; intros [|i rows] Hl; try done; constructor; [done|]. apply IH. simpl in Hl. lia.
  - congruence.
  - clear -Hl. revert rows Hl. induction reqs as [|r reqs IH]; intros [|i rows] Hl; try done. cbn. f_equal. apply IH. simpl in Hl. lia.
  - intros Hlp. destruct (Ht Hlp) as (l & -> & ?). exists l. split; [done|congruence].
Qed.

Lemma extend_run fill uninit tops dllm vocab s0 b held s t :
  Forall (admissible (st_cache s) (max_context_len (st_pool s))) (sb_reqs b) -> store_waits s0 (sb_reqs b) held s ->
  st_alloc s = PTok t -> cache_page_size (st_cache s) = 1 -> sb_return_logprob b = existsb return_logprob (sb_reqs b) ->
  length (sb_reqs b) <= pool_available_size (st_pool s) ->
  (Z.of_nat (sum_list (range_length <$> sb_reqs b)) <= kv_available (st_alloc s) + cache_evictable (st_cache s))%Z ->
  exists b' s' rows, prepare_for_extend fill uninit tops dllm vocab b s = Ok (b', s') /\ length rows = length (sb_reqs b) /\
    sb_reqs b' = zip_with extended rows (sb_reqs b) /\ batch_aligned b' /\ store_holds s0 (sb_reqs b' ++ held) s'.
Proof.
  intros HA (Hk & owns & other & prows & Hp & Hh & Hc) Et Hps Hlp Hrows Hroom. unfold prepare_for_extend.
  rewrite (extend_tokens _ _ _ HA). set (reqs := sb_reqs b) in *. set (n := sum_list (range_length <$> reqs)) in *.
  fold (extend_batch reqs n). unfold alloc_for_extend. cbn [b_reqs extend_batch b_extend_num_tokens b_seq_lens].
  destruct (alloc_fresh (sreq <$> reqs) (st_pool s) _ Hp) as (p1 & rows & -> & Hlr & Hp1 & Htb & Hw).
  { apply Forall_fmap. eapply Forall_impl; [exact HA|]. by intros r A; apply A. } { by rewrite length_fmap. }
  rewrite length_fmap in Hlr. bind_step. rewrite Hps, Nat.eqb_refl. rewrite Et in *.
  destruct (token_slots_evict_run (st_cache s) t _ _ n Hc Hroom) as (tc & t' & st & out & -> & Hkind & Hf & Hlo & Hc'). bind_step.
  fold (extend_batch reqs n). rewrite batch_jobs_eq by done. set (jobs := zip_with job_of rows reqs).
  destruct (jobs_lens reqs rows Hlr) as [El Er]. fold jobs in El, Er.
  assert (Hfit : Forall (job_ok p1) jobs) by (eapply jobs_fit; [done|by rewrite Hw|done]).
  assert (Hnd : NoDup rows) by (by eapply rows_nodup).
  rewrite (write_cache_indices_run out jobs 0 p1) by (rewrite ?El; done || (unfold n in Hlo; lia)). bind_step.
  rewrite (commit_run _ _ _ _ HA Hlr). bind_step. rewrite pool_rows_run by done. bind_step.
  eexists _, _, rows. split; [done|]. split; [done|]. split; [done|]. split.
  { apply aligned_extended; [done|by rewrite !length_fmap|done|]. intros ->. eexists. split; [done|]. by rewrite length_fmap. }
  assert (Hks : kind_of (mkStore tc (PTok t') (set_table (jobs_table out 0 jobs (req_to_token p1)) p1)) = kind_of s).
  { unfold kind_of. cbn [st_cache st_alloc st_pool max_context_len set_table]. by rewrite Hkind, Hf, Hw, Et. }
  split; [congruence|]. exists (cut (range_length <$> reqs) out ++ owns), other, prows.
  destruct (jobs_table_width out jobs 0 p1 (max_context_len p1) Hfit ltac:(rewrite El; unfold n in Hlo; lia) (po_width _ _ Hp1)) as [Hw1 Hl1].
  cbn [sb_reqs st_pool st_cache st_alloc]. split; [|split].
  - rewrite fmap_app. unfold rows_of. rewrite omap_app. fold (rows_of (sreq <$> zip_with extended rows reqs)). rewrite extended_rows by done.
    destruct Hp1 as [Q1 Q2 Q3]. split; cbn; [rewrite <-app_assoc; exact Q1|exact (eq_trans Hl1 Q2)|done].
  - apply Forall2_app.
    + apply (holds_new s _ t' p1); [done|done|done|done|done|done|by rewrite Hlo].
    + apply (holds_others s _ held owns rows); [done| | |done].
      * intros i Hi. cbn. rewrite <-Htb. apply jobs_table_other. by rewrite Er.
      * eapply (rows_nodup p1 _ prows). by rewrite <-app_assoc.
  - apply cache_holds_extended; [done|]. rewrite concat_app, cut_concat by done. by rewrite <-app_assoc.
Qed.

End step.
