(* ===== verification/ScheduleBatchClaims.v ===== *)
(** * ScheduleBatchClaims: what batches and retraction promise

    The tensors of a batch mirror its requests through filtering, merging and
    decoding; retraction keeps the preferred requests and makes room for the
    next decode step, which then succeeds. *)

From S2P Require Import Prelude RadixKey RadixNode RadixTree RadixInv RadixSpec ReqPool ReqCache Allocator AllocatorSpec Allocation AllocationClaims RadixDemo SchedDelay SchedPolicy SchedPolicySpec SchedPolicyClaims PrefillAdder ScheduleBatch ScheduleBatchSpec DecodeStep ExtendStep.
From Stdlib Require Import QArith.

Open Scope nat_scope.

(** ** Filtering and merging *)

Definition unfinished (exclude : list string) (r : SReq) : bool := negb (req_finished r) && negb (bool_decide (rid r ∈ exclude)).

Lemma keep_unfinished_at exclude b : at_indices (keep_unfinished exclude b) (sb_reqs b) (List.filter (unfinished exclude) (sb_reqs b)).
Proof.
  unfold keep_unfinished, at_indices. set (l := sb_reqs b).
  assert (Hgen : forall post pre, l = pre ++ post -> Forall2 (fun i x => l !! i = Some x)
    (List.filter (fun i => match l !! i with Some r => negb (req_finished r) && negb (bool_decide (rid r ∈ exclude)) | None => false end)
       (seq (length pre) (length post))) (List.filter (unfinished exclude) post)); [|by apply (Hgen l [])].
  induction post as [|r post IH]; intros pre Hl; [constructor|]. cbn [length seq List.filter].
  assert (Hr : l !! length pre = Some r) by (by rewrite Hl, list_lookup_middle). rewrite Hr. fold (unfinished exclude r).
  specialize (IH (pre ++ [r])). rewrite length_app, Nat.add_1_r in IH. specialize (IH ltac:(by rewrite <-app_assoc)).
  destruct (unfinished exclude r); [by constructor|done].
Qed.

Lemma keep_all exclude b : length (keep_unfinished exclude b) = length (sb_reqs b) -> List.filter (unfinished exclude) (sb_reqs b) = sb_reqs b.
Proof.
  intros Hl. rewrite <-(at_indices_length _ _ _ (keep_unfinished_at exclude b)) in Hl. revert Hl. generalize (sb_reqs b).
  induction l as [|r l IH]; [done|]. simpl. destruct (unfinished exclude r); simpl; intros Hl; [f_equal; auto|].
  pose proof (List.filter_length_le (unfinished exclude) l). lia.
Qed.

(** Filtering out the finished requests returns, keeps
    exactly the others in their order, and leaves the row, length and logprob
    tensors of the batch those of the requests that stay. *)
Theorem filter_batch_aligned exclude b :
  batch_aligned b ->
  exists b', filter_batch exclude None b = Ok b' /\ sb_reqs b' = List.filter (unfinished exclude) (sb_reqs b) /\
    (sb_reqs b' <> [] -> batch_aligned b').
Proof.
  intros Hal. pose proof (keep_unfinished_at exclude b) as Hat.
  assert (E : filter_batch exclude None b = filter_batch [] (Some (keep_unfinished exclude b)) b) by done. rewrite E.
  destruct (decide (keep_unfinished exclude b = [])) as [Hn|Hn].
  { rewrite Hn in *. apply Forall2_nil_inv_l in Hat as ->. eexists. by split. }
  destruct (decide (length (keep_unfinished exclude b) = length (sb_reqs b))) as [He|He].
  - exists b. unfold filter_batch. rewrite He, Nat.eqb_refl. rewrite keep_all by done.
    destruct (Nat.eqb_spec (length (sb_reqs b)) 0); [|done]. by destruct (keep_unfinished exclude b); [|simpl in He; lia].
  - destruct (filter_batch_run (keep_unfinished exclude b) b (sb_reqs b) _ Hal eq_refl ltac:(done) Hat Hn He) as (b' & Hrun & Hr & Hal').
    rewrite set_reqs_id in Hrun. rewrite Hrun. by exists b'.
Qed.

Lemma merge_run b1 b2 :
  batch_aligned b1 -> batch_aligned b2 ->
  exists b', merge_batch b1 b2 = Ok b' /\ sb_reqs b' = sb_reqs b1 ++ sb_reqs b2 /\ batch_aligned b'.
Proof.
  intros [A1 A2 A3 A4 A5] [B1 B2 B3 B4 B5]. unfold merge_batch.
  assert (exists o, merge_tops b1 b2 = Ok o /\ (sb_return_logprob b1 || sb_return_logprob b2 = true ->
    exists l, o = Some l /\ length l = length (sb_reqs b1) + length (sb_reqs b2))) as (o & -> & Ho).
  { unfold merge_tops. destruct (sb_return_logprob b1) eqn:E1, (sb_return_logprob b2) eqn:E2; simpl.
    - destruct (A5 eq_refl) as (x & -> & Hx), (B5 eq_refl) as (y & -> & Hy). eexists. split; [done|]. intros _. eexists. split; [done|].
      lens.
    - destruct (A5 eq_refl) as (x & -> & Hx). eexists. split; [done|]. intros _. eexists. split; [done|]. lens.
    - destruct (B5 eq_refl) as (y & -> & Hy). eexists. split; [done|]. intros _. eexists. split; [done|]. lens.
    - by eexists. }
  bind_step. eexists. split; [done|]. split; [done|]. split; simpl.
  - by apply Forall2_app.
  - by apply Forall2_app.
  - lens.
  - by rewrite existsb_app, A4, B4.
  - intros Hr. destruct (Ho Hr) as (l & -> & Hl). exists l. by rewrite length_app.
Qed.

(** Merging two batches returns and keeps the tensors
    those of the requests, the logprob settings of either side included. *)
Theorem merge_batch_aligned b1 b2 :
  batch_aligned b1 -> batch_aligned b2 ->
  exists b', merge_batch b1 b2 = Ok b' /\ sb_reqs b' = sb_reqs b1 ++ sb_reqs b2 /\ batch_aligned b'.
Proof. apply merge_run. Qed.

(** ** Which requests are kept *)

(** [y] is not preferred to [x]: a less urgent priority first, then fewer output
    tokens, then a longer prompt. *)
Definition kept_before (policy : RetractionPolicy) (low : bool) (x y : SReq) : Prop :=
  let p r := match req_priority (sreq r) with Some p => p | None => if low then MAXSIZE else (- MAXSIZE - 1)%Z end in
  let out r := length (output_ids (sreq r)) in
  let inp r := length (origin_input_ids (sreq r)) in
  let shorter := out y < out x \/ out y = out x /\ inp x <= inp y in
  match policy with
  | ByLength => shorter
  | ByPriority => (if low then p x < p y else p y < p x)%Z \/ p x = p y /\ shorter
  end.

Lemma length_key_leb x y : key_leb (length_key y) (length_key x) = true ->
  length (output_ids (sreq y)) < length (output_ids (sreq x)) \/
  length (output_ids (sreq y)) = length (output_ids (sreq x)) /\ length (origin_input_ids (sreq x)) <= length (origin_input_ids (sreq y)).
Proof. unfold length_key. rewrite key2_leb, zatom_leb. lia. Qed.

Lemma retraction_key_leb policy low x y :
  key_leb (retraction_key policy low y) (retraction_key policy low x) = true -> kept_before policy low x y.
Proof.
  destruct policy; [apply length_key_leb|]. unfold retraction_key, kept_before. cbv zeta. cbn [key_leb]. rewrite !zatom_leb.
  set (px := match req_priority (sreq x) with Some p => p | None => _ end). set (py := match req_priority (sreq y) with Some p => p | None => _ end).
  destruct (Z.leb_spec (py * - (if low then 1 else -1)) (px * - (if low then 1 else -1))) as [H1|H1]; [|done].
  destruct (Z.leb_spec (px * - (if low then 1 else -1)) (py * - (if low then 1 else -1))) as [H2|H2].
  - intros Hk. right. split; [destruct low; lia|]. by apply length_key_leb.
  - intros _. left. destruct low; lia.
Qed.

(** The retraction order lists every request once,
    the ones to keep first: by priority under that policy, then by more output
    tokens, then by a shorter prompt.  Under speculative decoding it is the
    order of the batch. *)
Theorem retraction_order_sorted policy low allow reqs :
  exists order, get_decode_retraction_order policy low allow reqs = Ok order /\ order ≡ₚ seq 0 (length reqs) /\
    (allow = false -> order = seq 0 (length reqs)) /\
    (allow = true -> StronglySorted (fun i j => forall x y, reqs !! i = Some x -> reqs !! j = Some y -> kept_before policy low x y) order).
Proof.
  destruct (retraction_order_run policy low allow reqs) as (order & Hrun & Hp & Hs). exists order. split; [done|]. split; [done|]. split.
  - intros ->. by injection Hrun as <-.
  - intros Ha. eapply StronglySorted_weaken; [|exact (Hs Ha)]. intros i j Hij x y Hx Hy. apply retraction_key_leb. by apply Hij.
Qed.

Section retraction.
Context `{Env} `{Float} (args : ServerArgs) (steps : Z).

(** Retraction on a store in order returns.  It
    keeps a prefix of the retraction order; every other request is released
    (rows, slots and locks) and is either retracted or, if not even one fits,
    aborted.  What is kept fits: the next decode step's slots are available.
    With two requests or more at least one is retracted. *)
Theorem retract_decode_makes_room policy low b s :
  speculative_algorithm args = None -> strip_thinking_cache args = false ->
  batch_aligned b -> sb_reqs b <> [] -> store_holds s (sb_reqs b) s ->
  exists b' rr s' order k, retract_decode args steps None policy low b s = Ok (b', rr, s') /\
    retracted (OK := store_holds s) (spec := None) policy low b b' rr s' order k.
Proof.
  intros Hsp Hst Hal Hne Hok. pose proof (store_retractable args steps Hsp Hst s) as HR. by apply (retract_decode_run policy low b s).
Qed.

(** Retracting every request returns and leaves the
    store with nothing of theirs. *)
Theorem retract_all_releases reqs s :
  speculative_algorithm args = None -> strip_thinking_cache args = false -> store_holds s reqs s ->
  exists reqs' s', retract_all args steps reqs s = Ok (reqs', s') /\ length reqs' = length reqs /\ store_holds s [] s'.
Proof.
  intros Hsp Hst. pose proof (store_retractable args steps Hsp Hst s) as HR. apply retract_all_run.
Qed.

Context (fill : Z) (uninit : list Z).

(** With pages of one token, preparing the decode
    step of a batch that fits succeeds: every request gets one slot, written
    into its row at its committed length, and the batch and the store are in
    order again with the requests one token longer. *)
Theorem decode_step_invariant s0 b s :
  batch_aligned b -> store_holds s0 (sb_reqs b) s -> decodable s (sb_reqs b) -> fits (spec := None) (sb_reqs b) s ->
  exists b' s' out, prepare_for_decode fill uninit b s = Ok (b', s') /\ sb_reqs b' = stepped <$> sb_reqs b /\
    sb_out_cache_loc b' = Some out /\ batch_aligned b' /\ store_holds s0 (sb_reqs b') s' /\
    Forall2 (fun r x => exists i row, req_pool_idx (sreq r) = Some i /\ req_to_token (st_pool s') !! i = Some row /\
      row !! kv_committed_len (sreq r) = Some x) (sb_reqs b) out.
Proof. apply decode_run. Qed.

(** C14: With the token allocator and pages of one token, a prefill batch of
    requests that are new to the pool (none has a row yet, so none continues a
    chunked prefill) is prepared without error, provided that the pool has a
    free row for each of them and that slots, free or evictable, are there for
    their new tokens.  Merged into the running batch it leaves the tensors
    those of the requests, and every request of the merged batch, running or
    new, holds its row, its slots and its lock, each slot once.  The paged
    allocation of a batch is the subject of [AllocationClaims] and
    [PrefillAdderClaims]. *)
Theorem prefill_joins_running tops dllm vocab s0 running b s t :
  batch_aligned running -> Forall (admissible (st_cache s) (max_context_len (st_pool s))) (sb_reqs b) ->
  store_waits s0 (sb_reqs b) (sb_reqs running) s -> st_alloc s = PTok t -> cache_page_size (st_cache s) = 1 ->
  sb_return_logprob b = existsb return_logprob (sb_reqs b) -> length (sb_reqs b) <= pool_available_size (st_pool s) ->
  (Z.of_nat (sum_list (range_length <$> sb_reqs b)) <= kv_available (st_alloc s) + cache_evictable (st_cache s))%Z ->
  exists b' s' rows m, prepare_for_extend fill uninit tops dllm vocab b s = Ok (b', s') /\ length rows = length (sb_reqs b) /\
    merge_batch running b' = Ok m /\ sb_reqs m = sb_reqs running ++ zip_with extended rows (sb_reqs b) /\
    batch_aligned m /\ store_holds s0 (sb_reqs m) s'.
Proof.
  intros Hal HA Hw Et Hps Hlp Hr Hroom.
  destruct (extend_run fill uninit tops dllm vocab s0 b (sb_reqs running) s t HA Hw Et Hps Hlp Hr Hroom) as (b' & s' & rows & Hrun & Hl & Eb & Hal' & Hh).
  destruct (merge_run running b' Hal Hal') as (m & Hm & Em & Halm). exists b', s', rows, m. split; [done|]. split; [done|]. split; [done|].
  split; [by rewrite Em, Eb|]. split; [done|]. eapply store_holds_perm; [|exact Hh]. rewrite Em. apply Permutation_app_comm.
Qed.

Lemma decodable_sub s s' reqs reqs' :
  kind_of s' = kind_of s -> (forall r, r ∈ reqs' -> r ∈ reqs) -> decodable s reqs -> decodable s' reqs'.
Proof.
  intros Hk Hsub [ [t Et] [Hp1 Hp2] Hr]. injection Hk as E1 E2 E3. split.
  - rewrite Et in E2. destruct (st_alloc s') as [t'|t']; [by exists t'|done].
  - split; [by rewrite (fixed_page_size _ _ E2)|]. destruct (st_cache s), (st_cache s'); try done; injection E1 as E1; cbn in *; unfold psize in *; congruence.
  - rewrite E3. apply Forall_forall. intros r Hin. by apply (proj1 (Forall_forall _ _) Hr r), Hsub.
Qed.

(** C15: Retraction and the decode step together, with the token allocator
    and pages of one token, without speculative decoding, with
    [strip_thinking_cache] off, and with requests that have a sampled token
    not yet committed and a place for it in their rows: after retracting, either nothing fitted and
    the one request left is aborted, or the step of the requests kept succeeds
    and leaves batch and store in order.  In this configuration decoding does
    not run out of memory after a retraction; for larger pages
    [retract_decode_makes_room] says what retraction frees, and nothing is
    claimed of the step. *)
Theorem decode_after_retraction policy low b s :
  speculative_algorithm args = None -> strip_thinking_cache args = false ->
  batch_aligned b -> sb_reqs b <> [] -> store_holds s (sb_reqs b) s -> decodable s (sb_reqs b) ->
  exists b1 rr s1, retract_decode args steps None policy low b s = Ok (b1, rr, s1) /\
    (sb_reqs b1 = [] /\ length (rr_aborted rr) = 1 /\ store_holds s [] s1 \/
     rr_aborted rr = [] /\ sb_reqs b1 <> [] /\ (1 < length (sb_reqs b) -> rr_retracted rr <> []) /\
     exists b2 s2, prepare_for_decode fill uninit b1 s1 = Ok (b2, s2) /\ sb_reqs b2 = stepped <$> sb_reqs b1 /\
       batch_aligned b2 /\ store_holds s (sb_reqs b2) s2).
Proof.
  intros Hsp Hst Hal Hne Hok Hdec. pose proof (store_retractable args steps Hsp Hst s) as HR.
  destruct (retract_decode_run policy low b s Hal Hne Hok) as (b1 & rr & s1 & order & k & Hrun & [R1 R2 R3 R4 R5 R6 R7]).
  exists b1, rr, s1. split; [done|]. destruct R6 as [ (Ha & Hk & Hfit)|(-> & Hb & Ha)].
  - right. assert (Hb1 : sb_reqs b1 <> []).
    { intros E. rewrite E in R2. apply Forall2_length in R2. rewrite length_take in R2. simpl in R2.
      destruct (retraction_order_run policy low true (sb_reqs b)) as (o & Ho & Hp & _). simpl in R1. rewrite R1 in Ho. injection Ho as <-.
      apply Permutation_length in Hp. rewrite length_seq in Hp. destruct (sb_reqs b); [done|]. simpl in Hp. lia. }
    split; [done|]. split; [done|]. split; [done|].
    destruct (decode_run fill uninit s b1 s1 (R5 Hb1) R4) as (b2 & s2 & out & H1 & H2 & _ & H4 & H5 & _); [|done|by exists b2, s2].
    apply (decodable_sub s s1 (sb_reqs b)); [apply R4| |done]. intros r Hr. by eapply at_indices_elem.
  - left. rewrite Hb in R4. done.
Qed.

End retraction.

(** ** A concrete batch *)

#[local] Existing Instance demo_env.
#[local] Existing Instance exact_float.

(** Two requests that decode over the cache of [RadixDemo]: each has two tokens
    committed and a third sampled, and holds a lock on the root. *)
Definition run_cache : RadixCache := run_state demo1 ('(c, _) ← inc_lock_ref 0 demo1; inc_lock_ref 0 c).
Definition one_lock : nat -> Z := <[0 := (no_locks 0 + 1)%Z]> no_locks.
Definition run_locks : nat -> Z := <[0 := (one_lock 0 + 1)%Z]> one_lock.
Definition run_pool : ReqToTokenPool := mkPool 2 4 [[0; 0; 0; 0]; [5; 6; 0; 0]; [7; 8; 0; 0]]%Z [] [0; 1; 1].
Definition run_req (id : string) (row : nat) (out : list Z) : SReq :=
  mkSReq (mkReq [31; 32]%Z out [31; 32]%Z 2 None (Some 1%Z) None false 0 [] (Some 0) (Some row) 2 (Some 2) 0 0) id 8 false None 0 false 0 false false
    0 None 0 0 0 false None.
Definition run_a : SReq := run_req "a" 1 [33%Z].
Definition run_b : SReq := run_req "b" 2 [34; 35]%Z.
Definition run_alloc (size : Z) : TokenAllocator := TokA (Token.alloc (Token.init size true) 8).1.
Definition store_of (size : Z) : Store := mkStore (Radix run_cache) (PTok (run_alloc size)) run_pool.

(** All slots taken, and four free. *)
Definition run_store : Store := store_of 8.
Definition roomy_store : Store := store_of 12.
Definition run_batch : SBatch :=
  mkSB [run_a; run_b] (Some RecvSkipper.DECODE) [1; 2] [2; 2] [2; 2] None None [] [] 0 [] None false None false [] None.

Lemma run_aligned : batch_aligned run_batch.
Proof. split; try reflexivity; try discriminate; repeat constructor. Qed.

Lemma run_cache_facts : Inv run_cache run_locks /\ tree_slots run_cache slots1.
Proof.
  set (c1 := run_state demo1 (inc_lock_ref 0 demo1)).
  assert (R1 : reach demo_cfg c1 one_lock).
  { apply (reach_lock _ demo1 _ 0 c1 0%Z); [apply demo_reach1|exists None, [], []; constructor|vm_compute; reflexivity]. }
  assert (S1 : tree_slots c1 slots1).
  { apply (inc_lock_slots demo1 no_locks 0 c1 0%Z); [apply demo_inv1|reflexivity|exists None, [], []; constructor|vm_compute; reflexivity|apply demo_slots1]. }
  split.
  - apply (reach_step demo_cfg); [done|simpl; lia|].
    apply (reach_lock _ c1 _ 0 run_cache 0%Z); [exact R1|exists None, [], []; constructor|vm_compute; reflexivity].
  - apply (inc_lock_slots c1 one_lock 0 run_cache 0%Z);
      [|reflexivity|exists None, [], []; constructor|vm_compute; reflexivity|exact S1].
    apply (reach_step demo_cfg); [done|simpl; lia|exact R1].
Qed.

Lemma holds_of size : kv_out (PTok (run_alloc size)) (slots1 ++ [5; 6; 7; 8]%Z) -> store_holds (store_of size) [run_a; run_b] (store_of size).
Proof.
  intros Hout. split; [reflexivity|]. exists [[5; 6]; [7; 8]]%Z, [], []. split; [split; [vm_compute; solve_Permutation|reflexivity|repeat constructor]|]. split.
  - assert (Hown : forall r kv, r ∈ [run_a; run_b] -> own_slots (Radix run_cache) (PTok (run_alloc size)) (sreq r) kv kv).
    { intros r kv Hr. apply own_slots_token. split; [by apply list_elem_of_In in Hr as [<-|[<-|[]]]|]. intros c Hc.
      assert (run_cache = c) as <- by congruence. apply list_elem_of_In in Hr as [<-|[<-|[]]];
      (split; [reflexivity|]); (split; [simpl; lia|]); (split; [simpl; lia|by eexists]). }
    apply Forall2_cons. split; [|apply Forall2_cons; split; [|constructor] ]; split; try reflexivity.
    + exists 1, [5; 6; 0; 0]%Z. split; [reflexivity|]. split; [reflexivity|]. by apply (Hown run_a [5; 6]%Z); left.
    + exists 2, [7; 8; 0; 0]%Z. split; [reflexivity|]. split; [reflexivity|]. by apply (Hown run_b [7; 8]%Z); right; left.
  - destruct run_cache_facts as [I S]. exists run_locks, slots1. split; [exact I|]. split; [reflexivity|]. split; [exact S|].
    split; [by intros ? ? ? ? ? ?|]. split; [exact Hout|]. intros [|n]; vm_compute; discriminate.
Qed.

Lemma run_holds : store_holds run_store [run_a; run_b] run_store.
Proof. apply holds_of. split; [split; [vm_compute; solve_Permutation|reflexivity]|reflexivity]. Qed.

Lemma roomy_holds : store_holds roomy_store [run_a; run_b] roomy_store.
Proof. apply holds_of. split; [split; [vm_compute; solve_Permutation|reflexivity]|reflexivity]. Qed.

Lemma run_decodable size : kvp_page_size (PTok (run_alloc size)) = 1 -> decodable (store_of size) [run_a; run_b].
Proof. intros Hp. split; [by eexists|by split|repeat constructor]. Qed.

Definition run_args : ServerArgs := mkArgs 1 None false.

Lemma filter_batch_aligned_witness :
  exists b', filter_batch ["a"]%string None run_batch = Ok b' /\ sb_reqs b' = List.filter (unfinished ["a"]%string) (sb_reqs run_batch) /\
    (sb_reqs b' <> [] -> batch_aligned b').
Proof. apply (filter_batch_aligned ["a"]%string run_batch). apply run_aligned. Defined.

Lemma merge_batch_aligned_witness :
  exists b', merge_batch run_batch run_batch = Ok b' /\ sb_reqs b' = sb_reqs run_batch ++ sb_reqs run_batch /\ batch_aligned b'.
Proof. apply (merge_batch_aligned run_batch run_batch); apply run_aligned. Defined.

Lemma retract_decode_makes_room_witness :
  exists b' rr s' order k, retract_decode run_args 20 None ByLength false run_batch run_store = Ok (b', rr, s') /\
    retracted (OK := store_holds run_store) (spec := None) ByLength false run_batch b' rr s' order k.
Proof.
  apply (retract_decode_makes_room run_args 20 ByLength false run_batch run_store); [reflexivity|reflexivity|apply run_aligned|discriminate|apply run_holds].
Defined.

(** The request with fewer output tokens is retracted, the other one kept. *)
Example retract_demo :
  match retract_decode run_args 20 None ByLength false run_batch run_store with
  | Ok (b', rr, _) => (rid <$> sb_reqs b', rid <$> rr_retracted rr, sb_req_pool_indices b')
  | Raise _ => ([], [], [])
  end = (["b"], ["a"], [2])%string.
Proof. vm_compute. reflexivity. Qed.

Lemma retract_all_releases_witness :
  exists reqs' s', retract_all run_args 20 [run_a; run_b] run_store = Ok (reqs', s') /\ length reqs' = 2 /\ store_holds run_store [] s'.
Proof. apply (retract_all_releases run_args 20 [run_a; run_b] run_store); [reflexivity|reflexivity|apply run_holds]. Defined.

(** Request [a] runs, [c] waits with three tokens: two slots are free, the rest
    must be evicted. *)
Definition join_pool : ReqToTokenPool := mkPool 2 4 [[0; 0; 0; 0]; [5; 6; 0; 0]; [0; 0; 0; 0]]%Z [2] [0; 1; 0].
Definition join_alloc : TokenAllocator := TokA (Token.alloc (Token.init 8 true) 6).1.
Definition join_store : Store := mkStore (Radix run_cache) (PTok join_alloc) join_pool.
Definition run_c : SReq :=
  mkSReq (mkReq [41; 42; 43]%Z [] [41; 42; 43]%Z 3 None (Some 1%Z) None false 0 [] (Some 0) None 0 None 0 0) "c" 8 false None 0 false 0 false false
    0 (Some (0, 3)%Z) 0 0 0 false None.
Definition batch_of (r : SReq) (rows lens : list nat) : SBatch :=
  mkSB [r] None rows lens lens None None [] [] 0 [] None false None false [] None.

Lemma join_waits : store_waits join_store [run_c] [run_a] join_store.
Proof.
  split; [reflexivity|]. exists [[5; 6]]%Z, [], []. split; [split; [vm_compute; solve_Permutation|reflexivity|repeat constructor]|]. split.
  - apply Forall2_cons. split; [|constructor]. split; [|reflexivity]. exists 1, [5; 6; 0; 0]%Z. split; [reflexivity|]. split; [reflexivity|].
    apply own_slots_token. split; [reflexivity|]. intros c Hc. change (Radix run_cache = Radix c) in Hc. assert (run_cache = c) as <- by congruence.
    split; [reflexivity|]. split; [simpl; lia|]. split; [simpl; lia|by eexists].
  - destruct run_cache_facts as [I S]. exists run_locks, slots1. split; [exact I|]. split; [reflexivity|]. split; [exact S|].
    split; [by intros ? ? ? ? ? ?|]. split; [split; [split; [vm_compute; solve_Permutation|reflexivity]|reflexivity]|].
    intros [|n]; vm_compute; discriminate.
Qed.

Lemma join_admissible : Forall (admissible (Radix run_cache) 4) [run_c].
Proof.
  constructor; [|constructor]. split; try reflexivity; [simpl; lia|]. intros c Hc. split; [reflexivity|]. split; [by eexists|]. simpl. lia.
Qed.

Lemma running_aligned : batch_aligned (batch_of run_a [1] [2]).
Proof. split; cbn; [by repeat constructor|by repeat constructor|reflexivity|reflexivity|discriminate]. Qed.

Lemma prefill_joins_running_witness :
  exists b' s' rows m, prepare_for_extend 0 [] (fun _ => 0) false 100 (batch_of run_c [] []) join_store = Ok (b', s') /\ length rows = 1 /\
    merge_batch (batch_of run_a [1] [2]) b' = Ok m /\ sb_reqs m = [run_a] ++ zip_with extended rows [run_c] /\
    batch_aligned m /\ store_holds join_store (sb_reqs m) s'.
Proof.
  apply (prefill_joins_running 0 [] (fun _ => 0) false 100 join_store (batch_of run_a [1] [2]) (batch_of run_c [] []) join_store join_alloc);
    [apply running_aligned|apply join_admissible|apply join_waits|reflexivity|reflexivity|reflexivity
    |vm_compute; lia|vm_compute; discriminate].
Defined.

Lemma decode_step_invariant_witness :
  exists b' s' out, prepare_for_decode 0 [] run_batch roomy_store = Ok (b', s') /\ sb_reqs b' = stepped <$> [run_a; run_b] /\
    sb_out_cache_loc b' = Some out /\ batch_aligned b' /\ store_holds roomy_store (sb_reqs b') s' /\
    Forall2 (fun r x => exists i row, req_pool_idx (sreq r) = Some i /\ req_to_token (st_pool s') !! i = Some row /\
      row !! kv_committed_len (sreq r) = Some x) [run_a; run_b] out.
Proof.
  apply (decode_step_invariant 0 [] roomy_store run_batch roomy_store); [apply run_aligned|apply roomy_holds|apply run_decodable; reflexivity|].
  exists 2. split; [reflexivity|vm_compute; discriminate].
Defined.

Lemma decode_after_retraction_witness :
  exists b1 rr s1, retract_decode run_args 20 None ByLength false run_batch run_store = Ok (b1, rr, s1) /\
    (sb_reqs b1 = [] /\ length (rr_aborted rr) = 1 /\ store_holds run_store [] s1 \/
     rr_aborted rr = [] /\ sb_reqs b1 <> [] /\ (1 < 2 -> rr_retracted rr <> []) /\
     exists b2 s2, prepare_for_decode 0 [] b1 s1 = Ok (b2, s2) /\ sb_reqs b2 = stepped <$> sb_reqs b1 /\
       batch_aligned b2 /\ store_holds run_store (sb_reqs b2) s2).
Proof.
  apply (decode_after_retraction run_args 20 0 [] ByLength false run_batch run_store);
    [reflexivity|reflexivity|apply run_aligned|discriminate|apply run_holds|apply run_decodable; reflexivity].
Defined.
