(* ===== verification/SamplingParams.v ===== *)
(** * SamplingParams: the parameters a client sends

    Models [sampling/sampling_params.py]: filling in defaults, checking the
    ranges, turning the stop arguments into lists with the number of tokens to
    look back, and the bound on the length of a match of a stop expression.
    Floating-point numbers are exact rationals, infinities and NaN; the
    Python parser of regular expressions and the tokenizer are parameters. *)

From Stdlib Require Import QArith.
From S2P Require Import Prelude SchedDelay Text Detokenizer ReqFinish ReqFinishSpec.

Open Scope nat_scope.

(** ** Floats *)

Inductive pyfloat := Fin (q : Q) | Inf (negative : bool) | NaN.

Definition flt (x y : pyfloat) : bool :=
  match x, y with
  | NaN, _ | _, NaN => false
  | Fin a, Fin b => Qltb a b
  | Inf true, Inf true => false
  | Inf true, _ => true
  | Inf false, _ => false
  | Fin _, Inf neg => negb neg
  end.

Definition fle (x y : pyfloat) : bool :=
  match x, y with
  | NaN, _ | _, NaN => false
  | Fin a, Fin b => Qle_bool a b
  | Inf true, _ => true
  | Inf false, Inf false => true
  | Inf false, _ => false
  | Fin _, Inf neg => negb neg
  end.

Definition isfinite (x : pyfloat) : bool := match x with Fin _ => true | _ => false end.

(** [1e-6], the double nearest to it. *)
Definition eps : Q := 4722366482869645 # 4722366482869645213696.
Definition SAMPLING_EPS : pyfloat := Fin eps.
Definition TOP_K_ALL : Z := 2 ^ 30.

(** ** Regular expressions as the parser returns them *)

(** The tokens the bound distinguishes.  A set is given by its members, a
    missing maximum of a repeat is [MAXREPEAT], a branch has at least one
    alternative; group references, assertions, conditionals, atomic groups and
    possessive repeats are [OTHER]. *)
Inductive sre :=
| LITERAL (c : Z)
| NOT_LITERAL (c : Z)
| IN (members : Z -> bool)
| ANY
| SUBPATTERN (inner : list sre)
| BRANCH (first : list sre) (rest : list (list sre))
| MAX_REPEAT (lo : nat) (hi : option nat) (inner : list sre)
| MIN_REPEAT (lo : nat) (hi : option nat) (inner : list sre)
| AT
| OTHER.

Definition MAX_LEN : Z := 2 ^ 30.

Definition zsum (l : list Z) : Z := foldr Z.add 0%Z l.
Definition zmax (x : Z) (l : list Z) : Z := foldr Z.max x l.

Definition repeat_len (hi : option nat) (inner : Z) : Z :=
  match hi with None => MAX_LEN | Some n => (Z.of_nat n * inner)%Z end.

(** What one token adds. *)
Fixpoint token_len (t : sre) : Z :=
  match t with
  | LITERAL _ | IN _ | ANY => 1
  | SUBPATTERN inner => zsum (map token_len inner)
  | BRANCH first rest => zmax (zsum (map token_len first)) (map (fun b => zsum (map token_len b)) rest)
  | MAX_REPEAT _ hi inner | MIN_REPEAT _ hi inner => repeat_len hi (zsum (map token_len inner))
  | AT => 0
  | NOT_LITERAL _ | OTHER => MAX_LEN
  end.

Definition max_length_from_subpattern (p : list sre) : Z := zsum (map token_len p).

(** [sre_parse.parse], which raises on a malformed expression. *)
Class RegexParser := { sre_parse : text -> res (list sre) }.

Definition get_max_seq_length `{RegexParser} (regex_str : text) : res Z :=
  p ← sre_parse regex_str;
  Ok (max_length_from_subpattern p).

(** ** The parameters *)

Inductive StopArg := One (s : text) | Many (l : list text).

Inductive JsonScalar := JNull | JBool (b : bool) | JInt (z : Z) | JFloat (x : pyfloat) | JStr (s : text).
Inductive CustomParamValue := JOne (x : JsonScalar) | JList (l : list JsonScalar) | JDict (d : list (text * JsonScalar)).

(** [None] in a field that is not optional stands for JSON null; a key of
    [logit_bias] is its integer value, [None] if it has none. *)
Record SamplingParams := mkParams {
  max_new_tokens : option Z;
  stop : option StopArg;
  stop_token_ids : option (list (option Z));
  stop_regex : option StopArg;
  temperature : option pyfloat;
  top_p : option pyfloat;
  top_k : option Z;
  min_p : option pyfloat;
  frequency_penalty : option pyfloat;
  presence_penalty : option pyfloat;
  repetition_penalty : option pyfloat;
  min_new_tokens : option Z;
  n_ : option Z;
  json_schema : option text;
  regex : option text;
  ebnf : option text;
  structural_tag : option text;
  ignore_eos : option bool;
  skip_special_tokens : option bool;
  spaces_between_special_tokens : option bool;
  no_stop_trim : option bool;
  custom_params : option (list (text * CustomParamValue));
  stream_interval : option Z;
  logit_bias : option (list (option Z * pyfloat));
  sampling_seed : option Z;
  stop_strs : option StopArg;
  stop_regex_strs : option StopArg;
  stop_str_max_len : Z;
  stop_regex_max_len : Z;
  is_normalized : bool;
}.

Definition or_else {A} (d : A) (o : option A) : option A := Some (default d o).

(** [{int(t) for t in ids if t is not None} or None]. *)
Definition filter_stop_token_ids (o : option (list (option Z))) : option (list (option Z)) :=
  match o with
  | None | Some [] => None
  | Some l =>
      match remove_dups (omap (fun x => x) l) with
      | [] => None
      | ids => Some (Some <$> ids)
      end
  end.

Definition post_init (p : SamplingParams) : SamplingParams :=
  if is_normalized p then p else
  let t := default (Fin 1) (temperature p) in
  let k := default (-1)%Z (top_k p) in
  let '(t, k) := if fle (Fin 0) t && flt t SAMPLING_EPS then (Fin 1, 1%Z) else (t, k) in
  let k := if (k =? -1)%Z then TOP_K_ALL else k in
  mkParams (max_new_tokens p) (stop p) (filter_stop_token_ids (stop_token_ids p)) (stop_regex p) (Some t)
    (or_else (Fin 1) (top_p p)) (Some k) (or_else (Fin 0) (min_p p)) (or_else (Fin 0) (frequency_penalty p))
    (or_else (Fin 0) (presence_penalty p)) (or_else (Fin 1) (repetition_penalty p)) (or_else 0%Z (min_new_tokens p))
    (or_else 1%Z (n_ p)) (json_schema p) (regex p) (ebnf p) (structural_tag p) (or_else false (ignore_eos p)) (or_else true (skip_special_tokens p))
    (or_else true (spaces_between_special_tokens p)) (or_else false (no_stop_trim p)) (custom_params p) (stream_interval p) (logit_bias p)
    (sampling_seed p) (stop p) (stop_regex p)
    (stop_str_max_len p) (stop_regex_max_len p) (is_normalized p).

(** ** Checking *)

(** [if not c: raise ValueError(...)]. *)
Definition require (c : bool) : res unit := if c then Ok tt else Raise ValueError.

(** A field that must be a number by now. *)
Definition num {A} (o : option A) : res A := or_raise TypeError o.

Fixpoint check_bias (vocab_size : Z) (l : list (option Z * pyfloat)) : res unit :=
  match l with
  | [] => Ok tt
  | (k, _) :: l =>
      k ← or_raise ValueError k;
      _ ← require ((0 <=? k)%Z && (k <? vocab_size)%Z);
      check_bias vocab_size l
  end.

Definition is_set {A} (o : option A) : nat := match o with Some _ => 1 | None => 0 end.

Definition verify (vocab_size : Z) (p : SamplingParams) : res unit :=
  t ← num (temperature p);
  _ ← require (isfinite t && negb (flt t (Fin 0)));
  tp ← num (top_p p);
  _ ← require (flt (Fin 0) tp && fle tp (Fin 1));
  mp ← num (min_p p);
  _ ← require (fle (Fin 0) mp && fle mp (Fin 1));
  k ← num (top_k p);
  _ ← require (negb ((k <? 1)%Z || (k =? -1)%Z));
  fp ← num (frequency_penalty p);
  _ ← require (fle (Fin (-2)) fp && fle fp (Fin 2));
  pp ← num (presence_penalty p);
  _ ← require (fle (Fin (-2)) pp && fle pp (Fin 2));
  rp ← num (repetition_penalty p);
  _ ← require (flt (Fin 0) rp && fle rp (Fin 2));
  mn ← num (min_new_tokens p);
  _ ← require (0 <=? mn)%Z;
  _ ← (match max_new_tokens p with
       | None => Ok tt
       | Some mx =>
           _ ← require (negb (mx <? 0)%Z);
           require (mn <=? mx)%Z
       end);
  _ ← (match logit_bias p with None => Ok tt | Some l => check_bias vocab_size l end);
  require (is_set (json_schema p) + is_set (regex p) + is_set (ebnf p) <=? 1).

(** ** Stop conditions *)

Definition stop_list (s : StopArg) : list text := match s with One s => [s] | Many l => l end.

Definition text_empty (l : list text) : bool := match l with [] => true | _ => false end.

(** [tokenizer] is [encode(_, add_special_tokens=False)] of one, if there is one. *)
Definition raise_if_tokenizer_required (tokenizer : option (text -> list Z)) (strs regexes : list text) (min_new : option Z) : res unit :=
  match tokenizer with
  | Some _ => Ok tt
  | None =>
      _ ← require (text_empty strs);
      _ ← require (text_empty regexes);
      mn ← num min_new;
      require (negb (0 <? mn)%Z)
  end.

Definition stop_str_len (tokenizer : option (text -> list Z)) (s : text) : nat :=
  match tokenizer with Some encode => length (encode s) | None => length s end.

Fixpoint regex_max_len `{RegexParser} (acc : Z) (l : list text) : res Z :=
  match l with
  | [] => Ok acc
  | s :: l =>
      k ← get_max_seq_length s;
      regex_max_len (Z.max acc k) l
  end.

Definition normalize `{RegexParser} (tokenizer : option (text -> list Z)) (p : SamplingParams) : res SamplingParams :=
  let strs := match stop_strs p with None => [] | Some s => stop_list s end in
  let str_len := foldl Nat.max 0 (stop_str_len tokenizer <$> strs) in
  let regexes := match stop_regex_strs p with None => [] | Some s => stop_list s end in
  regex_len ← regex_max_len 0 regexes;
  _ ← raise_if_tokenizer_required tokenizer strs regexes (min_new_tokens p);
  Ok (mkParams (max_new_tokens p) None (stop_token_ids p) None (temperature p) (top_p p) (top_k p) (min_p p) (frequency_penalty p)
        (presence_penalty p) (repetition_penalty p) (min_new_tokens p) (n_ p) (json_schema p) (regex p) (ebnf p) (structural_tag p) (ignore_eos p)
        (skip_special_tokens p) (spaces_between_special_tokens p) (no_stop_trim p) (custom_params p) (stream_interval p) (logit_bias p)
        (sampling_seed p) (Some (Many strs)) (Some (Many regexes))
        (Z.of_nat str_len) regex_len true).

(** ** What checked and normalized parameters guarantee

    The ranges a checked request is in; that a match of a stop expression is no
    longer than the bound computed for it, that the window of tokens the stop
    check decodes then contains the match, and that the check ends the
    request. *)

(** ** Matches *)

(** [w] is a concatenation of texts in the predicates, in order. *)
Fixpoint in_order (l : list (text -> Prop)) (w : text) : Prop :=
  match l with
  | [] => w = []
  | P :: l => exists u v, w = u ++ v /\ P u /\ in_order l v
  end.

Definition repeated (lo : nat) (hi : option nat) (P : text -> Prop) (w : text) : Prop :=
  exists ws, w = concat ws /\ Forall P ws /\ lo <= length ws /\ (forall k, hi = Some k -> length ws <= k).

(** The texts a token can consume.  Without flags; what the bound does not
    look into ([OTHER]) may consume anything. *)
Fixpoint consumes (t : sre) (w : text) : Prop :=
  match t with
  | LITERAL c => w = [c]
  | NOT_LITERAL c => exists x, w = [x] /\ x <> c
  | IN f => exists x, w = [x] /\ f x = true
  | ANY => exists x, w = [x]
  | SUBPATTERN inner => in_order (map consumes inner) w
  | BRANCH first rest => in_order (map consumes first) w \/ exists b, In b (map (fun b => in_order (map consumes b)) rest) /\ b w
  | MAX_REPEAT lo hi inner | MIN_REPEAT lo hi inner => repeated lo hi (in_order (map consumes inner)) w
  | AT => w = []
  | OTHER => True
  end.

Definition matches (p : list sre) (w : text) : Prop := in_order (map consumes p) w.

(** Induction over the nested lists. *)
Fixpoint sre_ind' (P : sre -> Prop)
  (Hlit : forall c, P (LITERAL c)) (Hnot : forall c, P (NOT_LITERAL c)) (Hin : forall f, P (IN f)) (Hany : P ANY)
  (Hsub : forall l, Forall P l -> P (SUBPATTERN l))
  (Hbr : forall l ls, Forall P l -> Forall (Forall P) ls -> P (BRANCH l ls))
  (Hmax : forall lo hi l, Forall P l -> P (MAX_REPEAT lo hi l)) (Hmin : forall lo hi l, Forall P l -> P (MIN_REPEAT lo hi l))
  (Hat : P AT) (Hother : P OTHER) (t : sre) : P t :=
  let rec_list := fix go (l : list sre) : Forall P l :=
    match l with
    | [] => Forall_nil_2 P
    | t :: l => Forall_cons_2 P t l (sre_ind' P Hlit Hnot Hin Hany Hsub Hbr Hmax Hmin Hat Hother t) (go l)
    end in
  match t with
  | LITERAL c => Hlit c
  | NOT_LITERAL c => Hnot c
  | IN f => Hin f
  | ANY => Hany
  | SUBPATTERN l => Hsub l (rec_list l)
  | BRANCH l ls => Hbr l ls (rec_list l)
      ((fix go (ls : list (list sre)) : Forall (Forall P) ls :=
          match ls with [] => Forall_nil_2 _ | l :: ls => Forall_cons_2 _ l ls (rec_list l) (go ls) end) ls)
  | MAX_REPEAT lo hi l => Hmax lo hi l (rec_list l)
  | MIN_REPEAT lo hi l => Hmin lo hi l (rec_list l)
  | AT => Hat
  | OTHER => Hother
  end.

Lemma zsum_nonneg l : Forall (fun x => 0 <= x)%Z l -> (0 <= zsum l)%Z.
Proof. induction 1; simpl; lia. Qed.

Lemma zmax_ge x l : (x <= zmax x l)%Z /\ Forall (fun y => y <= zmax x l)%Z l.
Proof.
  induction l as [|y l [IH1 IH2]]; simpl; [split; [lia|constructor]|]. split; [lia|]. constructor; [lia|].
  eapply Forall_impl; [exact IH2|]. simpl. lia.
Qed.

Lemma MAX_LEN_pos : (0 <= MAX_LEN)%Z.
Proof. unfold MAX_LEN. lia. Qed.

Lemma repeat_len_nonneg hi x : (0 <= x)%Z -> (0 <= repeat_len hi x)%Z.
Proof. intros. destruct hi; simpl; [nia|apply MAX_LEN_pos]. Qed.

Lemma token_len_nonneg t : (0 <= token_len t)%Z.
Proof.
  induction t using sre_ind'; simpl; try lia; try apply MAX_LEN_pos; try (apply repeat_len_nonneg); try (apply zsum_nonneg; by apply Forall_map).
  etrans; [|apply zmax_ge]. apply zsum_nonneg. by apply Forall_map.
Qed.

Definition bounded (P : text -> Prop) (k : Z) : Prop := (k < MAX_LEN)%Z -> forall w, P w -> (Z.of_nat (length w) <= k)%Z.

Lemma in_order_bounded l : Forall (fun t => bounded (consumes t) (token_len t)) l -> bounded (in_order (map consumes l)) (zsum (map token_len l)).
Proof.
  induction 1 as [|t l Ht Hl IH]; intros Hk w; simpl in *; [by intros ->|]. intros (u & v & -> & Hu & Hv).
  pose proof (token_len_nonneg t). assert (0 <= zsum (map token_len l))%Z.
  { apply zsum_nonneg, Forall_map, Forall_forall. intros x _. apply token_len_nonneg. }
  rewrite length_app. specialize (Ht ltac:(lia) u Hu). specialize (IH ltac:(lia) v Hv). lia.
Qed.

Lemma repeated_bounded lo hi P k : (0 <= k)%Z -> bounded P k -> bounded (repeated lo hi P) (repeat_len hi k).
Proof.
  intros Hk HP Hlt w (ws & -> & Hws & _ & Hhi). destruct hi as [m|]; simpl in *; [|lia]. specialize (Hhi m eq_refl).
  destruct (decide (m = 0)) as [->|Hm].
  { destruct ws; [|simpl in Hhi; lia]. simpl. lia. }
  specialize (HP ltac:(nia)). assert (Z.of_nat (length (concat ws)) <= Z.of_nat (length ws) * k)%Z; [|nia].
  clear -Hws HP. induction Hws as [|w ws Hw _ IH]; [simpl; lia|]. simpl. rewrite length_app. specialize (HP w Hw). lia.
Qed.

Lemma consumes_bounded t : bounded (consumes t) (token_len t).
Proof.
  induction t using sre_ind'; simpl.
  - intros _ w ->. done.
  - intros Hk. unfold bounded, MAX_LEN in Hk. lia.
  - intros _ w (x & -> & _). done.
  - by intros _ w (x & ->).
  - by apply in_order_bounded.
  - intros Hk w Hw. destruct (zmax_ge (zsum (map token_len l)) (map (fun b => zsum (map token_len b)) ls)) as [H1 H2].
    destruct Hw as [Hw|(P & HP & Hw)].
    + apply in_order_bounded in H. specialize (H ltac:(lia) w Hw). lia.
    + apply in_map_iff in HP as (b & <- & Hb). apply list_elem_of_In in Hb. rewrite Forall_forall in H0. specialize (H0 b Hb).
      rewrite Forall_map, Forall_forall in H2. specialize (H2 b Hb). apply in_order_bounded in H0. specialize (H0 ltac:(lia) w Hw). lia.
  - apply repeated_bounded; [|by apply in_order_bounded]. apply zsum_nonneg, Forall_map, Forall_forall. intros x _. apply token_len_nonneg.
  - apply repeated_bounded; [|by apply in_order_bounded]. apply zsum_nonneg, Forall_map, Forall_forall. intros x _. apply token_len_nonneg.
  - intros _ w ->. done.
  - intros Hk. lia.
Qed.

Lemma matches_bounded p w : matches p w -> (max_length_from_subpattern p < MAX_LEN)%Z -> (Z.of_nat (length w) <= max_length_from_subpattern p)%Z.
Proof. intros Hm Hk. apply (in_order_bounded p); [|done|done]. apply Forall_forall. intros t _. apply consumes_bounded. Qed.

(** ** Normalized parameters *)

Section normalize.
Context `{RegexParser}.

Lemma regex_max_len_ge acc l m : regex_max_len acc l = Ok m ->
  (acc <= m)%Z /\ forall s, s ∈ l -> exists k, get_max_seq_length s = Ok k /\ (k <= m)%Z.
Proof.
  revert acc. induction l as [|s l IH]; intros acc Hrun; simpl in Hrun.
  { injection Hrun as ->. split; [lia|]. by intros s ?%elem_of_nil. }
  destruct (get_max_seq_length s) as [k|] eqn:Ek; [|done]. simpl in Hrun. destruct (IH _ Hrun) as [H1 H2]. split; [lia|].
  intros s' [->|Hs']%elem_of_cons; [exists k; split; [done|lia]|by apply H2].
Qed.

Definition arg_list (o : option StopArg) : list text := match o with None => [] | Some s => stop_list s end.

(** What normalized parameters hold. *)
Lemma normalize_run tokenizer p p' :
  is_normalized p = false -> normalize tokenizer (post_init p) = Ok p' ->
  SamplingParams.stop_regex_strs p' = Some (Many (arg_list (stop_regex p))) /\
  forall s, s ∈ arg_list (stop_regex p) -> exists k, get_max_seq_length s = Ok k /\ (k <= SamplingParams.stop_regex_max_len p')%Z.
Proof.
  intros Hn Hrun. assert (SamplingParams.stop_regex_strs (post_init p) = stop_regex p) as E2 by (unfold post_init; rewrite Hn; by destruct (_ && _)).
  unfold normalize in Hrun. rewrite E2 in Hrun. fold (arg_list (stop_regex p)) in Hrun.
  destruct (regex_max_len 0 (arg_list (stop_regex p))) as [m|] eqn:Em; [|done]. cbn [mbind res_bind] in Hrun.
  destruct (raise_if_tokenizer_required _ _ _ _) as [ []|]; [|done]. cbn [mbind res_bind] in Hrun. injection Hrun as <-.
  split; [done|]. intros s Hs. by apply (regex_max_len_ge _ _ _ Em).
Qed.

(** ** The window of the stop check *)

(** A request that reads its parameters from [p]. *)
Record reads (sp : Sampling) (p : SamplingParams) : Prop := {
  rd_strs : SamplingParams.stop_strs p = Some (Many (ReqFinish.stop_strs sp));
  rd_regex : SamplingParams.stop_regex_strs p = Some (Many (ReqFinish.stop_regex_strs sp));
  rd_str_len : SamplingParams.stop_str_max_len p = Z.of_nat (ReqFinish.stop_str_max_len sp);
  rd_regex_len : SamplingParams.stop_regex_max_len p = Z.of_nat (ReqFinish.stop_regex_max_len sp);
}.

Lemma concat_map_length (f : Z -> text) l : (forall x, f x <> []) -> length l <= length (concat (map f l)).
Proof.
  intros Hf. induction l as [|x l IH]; [done|]. simpl. rewrite length_app. destruct (f x) eqn:E; [by destruct (Hf x)|simpl; lia].
Qed.

(** The last [m + n] tokens hold whatever ends in the last [n] and has at most
    [m] characters. *)
Lemma window_holds (f : Z -> text) ids m n a w z :
  (forall x, f x <> []) -> n <= length ids -> length w <= m ->
  concat (map f ids) = a ++ w ++ z -> length (concat (map f (take (length ids - n) ids))) < length (a ++ w) ->
  exists v u, a = v ++ u /\ concat (map f (drop (length ids - (m + n)) ids)) = u ++ w ++ z.
Proof.
  intros Hf Hn Hw Htext Hend. set (d := length ids - (m + n)) in *. set (D := concat (map f (take d ids))).
  assert (Hsplit : D ++ concat (map f (drop d ids)) = a ++ w ++ z) by (unfold D; by rewrite <-concat_app, <-map_app, take_drop).
  assert (HD : length D <= length a).
  { destruct (decide (length ids <= m + n)) as [Hle|Hle]; [unfold D; replace d with 0 by lia; simpl; lia|].
    assert (take (length ids - n) ids = take d ids ++ take m (drop d ids)) as E.
    { rewrite take_take_drop. f_equal. lia. }
    rewrite E, map_app, concat_app, !length_app in Hend. fold D in Hend.
    pose proof (concat_map_length f (take m (drop d ids)) Hf) as Hm. rewrite length_take, length_drop in Hm. lia. }
  exists (take (length D) a), (drop (length D) a). split; [by rewrite take_drop|].
  apply (f_equal (drop (length D))) in Hsplit. rewrite drop_app_length, drop_app_le in Hsplit by done. done.
Qed.

(** If every token decodes to at least one character, the tail the stop check
    decodes contains every text within the bound that ends inside the new
    tokens, whatever the tokens before it. *)
Lemma match_in_tail r tk f s ps n a w z :
  s ∈ ReqFinish.stop_regex_strs (o_sampling r) ->
  (max_length_from_subpattern ps <= Z.of_nat (ReqFinish.stop_regex_max_len (o_sampling r)))%Z ->
  o_tokenizer r = Some tk -> (forall ids, rt_decode tk ids = concat (map f ids)) -> (forall x, f x <> []) ->
  1 <= n <= out_length r -> (Z.of_nat (out_length r) <= MAX_LEN)%Z ->
  rt_decode tk (o_output_ids r) = a ++ w ++ z -> matches ps w ->
  length (rt_decode tk (take (out_length r - n) (o_output_ids r))) < length (a ++ w) ->
  exists tail v u, tail_str n r = Ok tail /\ tail = u ++ w ++ z /\ a = v ++ u.
Proof.
  intros Hs Hbound Htk Hdec Hf Hn Hmax Htext Hm Hend. rewrite !Hdec in *.
  set (T := stop_match_tail_len n r). assert (HT : 0 < T) by (unfold T, stop_match_tail_len; lia).
  assert (tail_str n r = Ok (concat (map f (drop (out_length r - T) (o_output_ids r))))) as ->.
  { unfold tail_str. destruct (ReqFinish.stop_regex_strs (o_sampling r)) as [|s0 l0] eqn:E; [by apply elem_of_nil in Hs|].
    cbn [length Nat.eqb]. rewrite andb_false_r. unfold decode_text. rewrite Htk. cbn [or_raise mbind res_bind]. rewrite Hdec. fold T.
    unfold py_last. destruct (Nat.eqb_spec T 0); [lia|done]. }
  destruct (decide (T = out_length r)) as [->|HL].
  { rewrite Nat.sub_diag. exists (a ++ w ++ z), [], a. by rewrite <-Htext. }
  assert (HR : ReqFinish.stop_regex_max_len (o_sampling r) + n <= T < out_length r) by (unfold T, stop_match_tail_len in *; lia).
  assert (Hw : length w <= T - n) by (pose proof (matches_bounded ps w Hm ltac:(lia)); lia).
  destruct (window_holds f (o_output_ids r) (T - n) n a w z) as (v & u & -> & Ht); [done|unfold out_length in *; lia|done|done|done|].
  replace (T - n + n) with T in Ht by lia. eexists _, v, u. split; [done|]. by split.
Qed.

(** The search for [s] finds a match wherever it is in the text: so for
    expressions without anchors and other assertions. *)
Definition finds (re_search : text -> text -> bool) (s : text) (ps : list sre) : Prop :=
  forall u w z, matches ps w -> re_search s (u ++ w ++ z) = true.

(** C38: From the client's argument to the end of the request: no match of a
    stop expression is missed.  Let the parameters a client sends be
    normalized, let the request read them, and let one of its stop expressions
    be found by the search wherever it matches.  If the text of the output has
    a match that ends in the newly accepted tokens, the stop check of this
    step ends the request, so the number of tokens to look back that is
    computed from the parsed expression is never too small.  This holds for
    decoders that give every token at least one character of its own and for
    outputs of at most 2^30 tokens; for a character spelled by several tokens
    it does not ([multi_token_stop_missed]). *)
Theorem regex_stop_not_missed re_search tokenizer p p' r tk f s ps n a w z :
  is_normalized p = false -> normalize tokenizer (post_init p) = Ok p' -> reads (o_sampling r) p' ->
  s ∈ arg_list (stop_regex p) -> sre_parse s = Ok ps -> finds re_search s ps ->
  o_tokenizer r = Some tk -> (forall ids, rt_decode tk ids = concat (map f ids)) -> (forall x, f x <> []) ->
  finished_len r = None -> 1 <= n <= out_length r -> out_length r - n < sp_max_new_tokens (o_sampling r) ->
  (Z.of_nat (out_length r) <= MAX_LEN)%Z ->
  rt_decode tk (o_output_ids r) = a ++ w ++ z -> matches ps w ->
  length (rt_decode tk (take (out_length r - n) (o_output_ids r))) < length (a ++ w) ->
  exists r', update_finish_state re_search n r = Ok r' /\ finished r' = true.
Proof.
  intros Hn Hnorm Hrd Hs Hps Hfind Htk Hdec Hf Hl Hlen Hroom Hmax Htext Hm Hend.
  destruct (normalize_run tokenizer p p' Hn Hnorm) as [E Hk]. destruct Hrd as [_ R2 _ R4]. rewrite E in R2. injection R2 as R2.
  destruct (Hk s Hs) as (k & Ek & Hle). unfold get_max_seq_length in Ek. rewrite Hps in Ek. injection Ek as <-.
  rewrite R2 in Hs. rewrite R4 in Hle.
  destruct (match_in_tail r tk f s ps n a w z Hs Hle Htk Hdec Hf Hlen Hmax Htext Hm Hend) as (tail & v & u & Ht & Et & _).
  destruct (finished r) eqn:Ef; [exists r; unfold update_finish_state; by rewrite Ef|].
  destruct (to_finish r) as [reason|] eqn:Eto; [unfold update_finish_state; rewrite Ef, Eto; by eexists|].
  destruct (update_finish_run re_search n r) as (r' & -> & Hu); [done|done|done|right; by exists tk|done|done|].
  exists r'. split; [done|]. destruct Hu as [(_ & [[_ (tail' & Ht' & _ & Hre)] _])|[k Hst]]; [|by apply (stops_out re_search n r r' k)].
  rewrite Ht in Ht'. injection Ht' as <-. rewrite Forall_forall in Hre. specialize (Hre s Hs). rewrite Et, Hfind in Hre; done.
Qed.

End normalize.

(** ** Checked parameters *)

(** [m] returns exactly when [P] holds, and raises ValueError otherwise. *)
Definition checks (m : res unit) (P : Prop) : Prop := (m = Ok tt <-> P) /\ (m = Ok tt \/ m = Raise ValueError).

Lemma checks_require c P : (c = true <-> P) -> checks (require c) P.
Proof. intros Hc. unfold checks, require. destruct c; split; auto; rewrite <-Hc; split; done. Qed.

Lemma checks_seq m k P Q : checks m P -> checks k Q -> checks (_ ← m; k) (P /\ Q).
Proof.
  intros [Hm1 Hm2] [Hk1 Hk2]. destruct Hm2 as [->| ->]; bind_step.
  - split; [|done]. rewrite Hk1. split; [intros HQ; split; [by apply Hm1|done]|by intros [_ ?] ].
  - split; [|by right]. split; [done|]. intros [HP _]. by apply Hm1 in HP.
Qed.

Lemma checks_iff m P Q : (P <-> Q) -> checks m P -> checks m Q.
Proof. intros HPQ [H1 H2]. split; [by rewrite H1|done]. Qed.

Definition closed (lo hi : Q) (x : pyfloat) : Prop := exists q, x = Fin q /\ (lo <= q <= hi)%Q.
Definition half_open (lo hi : Q) (x : pyfloat) : Prop := exists q, x = Fin q /\ (lo < q)%Q /\ (q <= hi)%Q.

Lemma Qltb_lt a b : Qltb a b = true <-> (a < b)%Q.
Proof.
  unfold Qltb. rewrite negb_true_iff. split.
  - intros E. apply Qnot_le_lt. intros Hle. apply Qle_bool_iff in Hle. congruence.
  - intros Hlt. apply not_true_iff_false. rewrite Qle_bool_iff. by apply Qlt_not_le.
Qed.

Lemma closed_iff lo hi x : fle (Fin lo) x && fle x (Fin hi) = true <-> closed lo hi x.
Proof.
  unfold closed. destruct x as [q|[]|]; simpl; rewrite ?andb_false_r; split; try done; try (by intros (? & ? & _)).
  - intros [H1%Qle_bool_iff H2%Qle_bool_iff]%andb_true_iff. eauto.
  - intros (q' & [= <-] & H1 & H2). apply andb_true_iff. by rewrite !Qle_bool_iff.
Qed.

Lemma half_open_iff lo hi x : flt (Fin lo) x && fle x (Fin hi) = true <-> half_open lo hi x.
Proof.
  unfold half_open. destruct x as [q|[]|]; simpl; rewrite ?andb_false_r; split; try done; try (by intros (? & ? & _)).
  - intros [H1%Qltb_lt H2%Qle_bool_iff]%andb_true_iff. eauto.
  - intros (q' & [= <-] & H1 & H2). apply andb_true_iff. by rewrite Qltb_lt, Qle_bool_iff.
Qed.

Lemma temperature_iff x : isfinite x && negb (flt x (Fin 0)) = true <-> exists q, x = Fin q /\ (0 <= q)%Q.
Proof.
  destruct x as [q|[]|]; simpl; split; try done; try (by intros (? & ? & _)).
  - unfold Qltb. rewrite negb_involutive, Qle_bool_iff. eauto.
  - intros (q' & [= <-] & Hq). unfold Qltb. by rewrite negb_involutive, Qle_bool_iff.
Qed.

Lemma check_bias_spec v l : checks (check_bias v l) (Forall (fun kv => exists k, kv.1 = Some k /\ (0 <= k < v)%Z) l).
Proof.
  induction l as [|[ [k|] x] l IH]; cbn [check_bias or_raise mbind res_bind].
  - split; [|by left]. split; [constructor|done].
  - eapply checks_iff; [|apply checks_seq; [by apply checks_require|exact IH] ]. rewrite Forall_cons, andb_true_iff, Z.leb_le, Z.ltb_lt. simpl.
    split; intros [H1 H2]; (split; [|done]); [by exists k|]. destruct H1 as (k' & [= <-] & ?). done.
  - split; [|by right]. split; [done|]. rewrite Forall_cons. by intros [(k & ? & _) _].
Qed.

(** The ranges, for parameters whose defaults are filled in. *)
Record in_range (v : Z) (t tp mp fp pp rp : pyfloat) (k mn : Z) (mx : option Z) (bias : option (list (option Z * pyfloat)))
    (grammars : nat) : Prop := {
  ir_temperature : exists q, t = Fin q /\ (0 <= q)%Q;
  ir_top_p : half_open 0 1 tp;
  ir_min_p : closed 0 1 mp;
  ir_top_k : (1 <= k)%Z;
  ir_frequency : closed (-2) 2 fp;
  ir_presence : closed (-2) 2 pp;
  ir_repetition : half_open 0 2 rp;
  ir_min_new : (0 <= mn)%Z;
  ir_max_new m : mx = Some m -> (mn <= m)%Z;
  ir_bias l : bias = Some l -> Forall (fun kv => exists k, kv.1 = Some k /\ (0 <= k < v)%Z) l;
  ir_grammars : grammars <= 1;
}.

Lemma verify_spec v p t tp mp fp pp rp k mn :
  temperature p = Some t -> top_p p = Some tp -> min_p p = Some mp -> top_k p = Some k -> frequency_penalty p = Some fp ->
  presence_penalty p = Some pp -> repetition_penalty p = Some rp -> min_new_tokens p = Some mn ->
  checks (verify v p) (in_range v t tp mp fp pp rp k mn (max_new_tokens p) (logit_bias p)
    (is_set (json_schema p) + is_set (regex p) + is_set (ebnf p))).
Proof.
  intros E1 E2 E3 E4 E5 E6 E7 E8. unfold verify. rewrite E1, E2, E3, E4, E5, E6, E7, E8. cbn [num or_raise mbind res_bind].
  assert (Hmx : checks (match max_new_tokens p with None => Ok tt | Some mx => _ ← require (negb (mx <? 0)%Z); require (mn <=? mx)%Z end)
    (forall m, max_new_tokens p = Some m -> (0 <= m)%Z /\ (mn <= m)%Z)).
  { destruct (max_new_tokens p) as [mx|]; [|split; [done|by left] ]. eapply checks_iff; [|apply checks_seq; by apply checks_require].
    rewrite negb_true_iff, Z.ltb_ge, Z.leb_le. split; [by intros Hm m [= <-]|]. intros Hm. by apply Hm. }
  assert (Hb : checks (match logit_bias p with None => Ok tt | Some l => check_bias v l end)
    (forall l, logit_bias p = Some l -> Forall (fun kv => exists k, kv.1 = Some k /\ (0 <= k < v)%Z) l)).
  { destruct (logit_bias p) as [l|]; [|split; [done|by left] ]. eapply checks_iff; [|apply check_bias_spec]. split; [by intros Hl l' [= <-]|auto]. }
  eapply checks_iff; [|repeat (apply checks_seq; [first [by apply checks_require|exact Hmx|exact Hb]|]); by apply checks_require].
  rewrite temperature_iff, !half_open_iff, !closed_iff, negb_true_iff, orb_false_iff, Z.ltb_ge, Z.eqb_neq, Z.leb_le, Nat.leb_le.
  split.
  - intros (? & ? & ? & [? _] & ? & ? & ? & ? & Hm & ? & ?). split; try done. intros m Hx. by apply Hm.
  - intros [? ? ? ? ? ? ? ? Hm ? ?]. repeat (split; [first [done|lia]|]). split; [intros m Hx; specialize (Hm m Hx); lia|]. done.
Qed.

(** C37: Filling in the defaults leaves no number missing,
    and the check then accepts exactly the parameters in range and raises
    ValueError on all others.  Accepted parameters never have a temperature
    below the smallest one: zero and what is close to it has become greedy
    sampling, so the division by the temperature is safe. *)
Theorem verify_checks_ranges v p :
  is_normalized p = false ->
  let q := post_init p in
  exists t tp mp fp pp rp k mn,
    temperature q = Some t /\ top_p q = Some tp /\ min_p q = Some mp /\ frequency_penalty q = Some fp /\ presence_penalty q = Some pp /\
    repetition_penalty q = Some rp /\ top_k q = Some k /\ min_new_tokens q = Some mn /\
    checks (verify v q) (in_range v t tp mp fp pp rp k mn (max_new_tokens p) (logit_bias p)
      (is_set (json_schema p) + is_set (regex p) + is_set (ebnf p))) /\
    (verify v q = Ok tt -> exists x, t = Fin x /\ (eps <= x)%Q) /\
    (forall x, temperature p = Some (Fin x) -> (0 <= x < eps)%Q -> k = 1%Z).
Proof.
  intros Hn q. set (t0 := default (Fin 1) (temperature p)). set (greedy := fle (Fin 0) t0 && flt t0 SAMPLING_EPS).
  set (t := if greedy then Fin 1 else t0). set (k0 := if greedy then 1%Z else default (-1)%Z (top_k p)).
  set (k := if (k0 =? -1)%Z then TOP_K_ALL else k0).
  assert (temperature q = Some t /\ top_k q = Some k) as [Et Ek].
  { unfold q, post_init, t, k, k0, greedy, t0. rewrite Hn. by destruct (_ && _). }
  assert (max_new_tokens q = max_new_tokens p /\ logit_bias q = logit_bias p /\ json_schema q = json_schema p /\ regex q = regex p /\ ebnf q = ebnf p) as (E1 & E2 & E3 & E4 & E5).
  { unfold q, post_init. rewrite Hn. by destruct (_ && _). }
  assert (top_p q = Some (default (Fin 1) (top_p p)) /\ min_p q = Some (default (Fin 0) (min_p p)) /\
    frequency_penalty q = Some (default (Fin 0) (frequency_penalty p)) /\ presence_penalty q = Some (default (Fin 0) (presence_penalty p)) /\
    repetition_penalty q = Some (default (Fin 1) (repetition_penalty p)) /\ min_new_tokens q = Some (default 0%Z (min_new_tokens p)))
    as (F1 & F2 & F3 & F4 & F5 & F6).
  { unfold q, post_init. rewrite Hn. by destruct (_ && _). }
  pose proof (verify_spec v q _ _ _ _ _ _ _ _ Et F1 F2 Ek F3 F4 F5 F6) as Hc. rewrite E1, E2, E3, E4, E5 in Hc.
  exists t, (default (Fin 1) (top_p p)), (default (Fin 0) (min_p p)), (default (Fin 0) (frequency_penalty p)), (default (Fin 0) (presence_penalty p)),
    (default (Fin 1) (repetition_penalty p)), k, (default 0%Z (min_new_tokens p)).
  do 8 (split; [done|]). split; [done|]. split.
  - intros Hok. apply Hc in Hok. destruct (ir_temperature _ _ _ _ _ _ _ _ _ _ _ _ Hok) as (x & Ex & Hx). exists x. split; [done|].
    unfold t in Ex. destruct greedy eqn:Eg; [injection Ex as <-; unfold eps, Qle; simpl; lia|].
    unfold greedy in Eg. rewrite Ex in Eg. cbn [fle flt SAMPLING_EPS] in Eg. apply andb_false_iff in Eg as [Eg|Eg].
    + apply not_true_iff_false in Eg. by rewrite Qle_bool_iff in Eg.
    + unfold Qltb in Eg. apply negb_false_iff in Eg. by apply Qle_bool_iff in Eg.
  - intros x Hx [H0 H1]. unfold k, k0, greedy, t0. rewrite Hx. cbn [default fle flt SAMPLING_EPS from_option id].
    rewrite (proj2 (Qle_bool_iff _ _) H0), (proj2 (Qltb_lt _ _) H1). done.
Qed.

(** ** A character of several tokens *)

(** Token 1, 2, 3 in a row are one character; alone they are incomplete. *)
Fixpoint party_decode (ids : list Z) : text :=
  match ids with
  | 1%Z :: 2%Z :: 3%Z :: ids => 127881%Z :: party_decode ids
  | x :: ids => (if (x <=? 3)%Z then REPLACEMENT else x) :: party_decode ids
  | [] => []
  end.

(** Expressions of literals only. *)
#[local] Instance literal_parser : RegexParser := {| sre_parse s := Ok (LITERAL <$> s) |}.

Definition raw_params (s r : option StopArg) : SamplingParams :=
  mkParams (Some 16%Z) s None r None None None None None None None None None None None None None None None None None None None None None None None 0 0 false.

Definition party_encode (t : text) : list Z := t ≫= fun c => if (c =? 127881)%Z then [1; 2; 3]%Z else [c].
Definition party_params : res SamplingParams := normalize (Some party_encode) (post_init (raw_params None (Some (One [127881]%Z)))).

Definition party_sampling (len : nat) : Sampling := mkSampling 16 false [] [] [[127881]%Z] 0 len None true true false.
Definition party_req (out : list Z) : OReq :=
  mkOReq "a" [65; 66]%Z out (party_sampling 1) (Some (mkReqTok party_decode None [])) [] 200 None true None None false None [] None None [] 0 0 0.

(** Two tokens at the end that are not a whole one of these characters. *)
Lemma missed_step a x y : (2 <= x < 200)%Z -> (3 <= y < 200)%Z -> length a + 2 < 16 ->
  update_finish_state (fun s t => py_in s t) 1 (party_req (a ++ [x; y])) = Ok (party_req (a ++ [x; y])).
Proof.
  intros Hx Hy Hl. assert (Hlen : out_length (party_req (a ++ [x; y])) = length a + 2) by (unfold out_length; simpl; rewrite length_app; done).
  assert (Hlast : forall k, k = 1 \/ k = 2 -> py_last k (a ++ [x; y]) = drop (2 - k) [x; y]).
  { intros k Hk. unfold py_last. rewrite length_app. cbn [length]. destruct (Nat.eqb_spec k 0); [lia|].
    rewrite drop_app_ge by lia. f_equal. lia. }
  set (r := party_req (a ++ [x; y])) in *. change (o_output_ids r) with (a ++ [x; y]) in *.
  assert (Hv : check_vocab_boundary_finish [y] r = (r, false)).
  { unfold check_vocab_boundary_finish, out_of_vocab. cbn [first_index]. change (o_vocab_size r) with 200%Z.
    rewrite (proj2 (Z.leb_gt _ _)), (proj2 (Z.ltb_ge _ _)) by lia. done. }
  assert (Hs : check_str_based_finish (fun s t => py_in s t) 1 r = Ok (r, false)).
  { unfold check_str_based_finish, tail_str. assert (stop_match_tail_len 1 r = 2) as -> by (unfold stop_match_tail_len; rewrite Hlen; apply (Nat.min_l 2); lia).
    change (o_output_ids r) with (a ++ [x; y]). rewrite (Hlast 2) by lia. cbn [Nat.sub drop]. unfold decode_text.
    change (o_tokenizer r) with (Some (mkReqTok party_decode None [])). change (ReqFinish.stop_strs (o_sampling r)) with (@nil text).
    change (ReqFinish.stop_regex_strs (o_sampling r)) with [[127881%Z]]. cbn [length Nat.eqb andb or_raise mbind res_bind rt_decode check_stop_strs check_stop_regexes].
    assert (party_decode [x; y] = [(if (x <=? 3)%Z then REPLACEMENT else x); (if (y <=? 3)%Z then REPLACEMENT else y)]) as ->.
    { destruct x as [|[ | |]|], y as [|[ | |]|]; try lia; reflexivity. }
    assert (py_in [127881%Z] [(if (x <=? 3)%Z then REPLACEMENT else x); (if (y <=? 3)%Z then REPLACEMENT else y)] = false) as ->; [|done].
    unfold py_in. cbn [py_find starts_with]. rewrite !andb_true_r. destruct (Z.eqb_spec 127881 (if (x <=? 3)%Z then REPLACEMENT else x)) as [E|_].
    { unfold REPLACEMENT in E. destruct (x <=? 3)%Z; lia. }
    destruct (Z.eqb_spec 127881 (if (y <=? 3)%Z then REPLACEMENT else y)) as [E|_]; [|done]. unfold REPLACEMENT in E. destruct (y <=? 3)%Z; lia. }
  unfold update_finish_state. change (finished r) with false. change (to_finish r) with (None (A := FinishReason)).
  change (sp_max_new_tokens (o_sampling r)) with 16. rewrite Hlen, (proj2 (Nat.leb_gt _ _)) by lia. change (o_grammar r) with (None (A := bool)).
  change (o_output_ids r) with (a ++ [x; y]). rewrite (Hlast 1) by lia. cbn [Nat.sub drop]. rewrite Hv, Hs. bind_step.
  unfold check_token_based_finish. cbn. done.
Qed.

(** A stop expression of one character that the
    tokenizer spells with three tokens is never seen: the bound counts one
    token per character, so the check decodes two tokens and finds an
    incomplete character, although the output contains the match. *)
Theorem multi_token_stop_missed :
  (exists p, party_params = Ok p /\ SamplingParams.stop_regex_max_len p = 1%Z /\ reads (party_sampling 1) p) /\
  matches [LITERAL 127881] [127881%Z] /\ party_decode [104; 1; 2; 3]%Z = [104; 127881]%Z /\
  forall ids, length ids < 12 -> Forall (fun x => 4 <= x < 200)%Z ids ->
    update_finish_state (fun s t => py_in s t) 1 (party_req ([104; 1; 2; 3]%Z ++ ids)) = Ok (party_req ([104; 1; 2; 3]%Z ++ ids)).
Proof.
  split; [|split; [|split; [reflexivity|] ] ].
  - eexists. split; [vm_compute; reflexivity|]. split; [reflexivity|]. by split.
  - exists [127881%Z], []. by repeat split.
  - intros ids Hl HF. set (out := [104; 1; 2; 3]%Z ++ ids).
    assert (exists a x y, out = a ++ [x; y] /\ (2 <= x < 200)%Z /\ (3 <= y < 200)%Z) as (a & x & y & Eo & Hx & Hy).
    { unfold out. destruct ids as [|y ids _] using rev_ind; [exists [104; 1]%Z, 2%Z, 3%Z; done|].
      apply Forall_app in HF as [HF Hy]. apply Forall_cons_1 in Hy as [Hy _].
      destruct ids as [|x ids _] using rev_ind; [exists [104; 1; 2]%Z, 3%Z, y; split; [done|lia]|].
      apply Forall_app in HF as [HF Hx]. apply Forall_cons_1 in Hx as [Hx _].
      exists ([104; 1; 2; 3]%Z ++ ids), x, y. split; [by rewrite <-!app_assoc|lia]. }
    assert (Hlt : length a + 2 < 16).
    { assert (length out = length a + 2) by (rewrite Eo, length_app; done). assert (length out = 4 + length ids) by done. lia. }
    rewrite Eo. by apply missed_step.
Qed.

(** ** Witnesses *)

Definition stop_params : SamplingParams := raw_params (Some (One [83; 84]%Z)) (Some (Many [[79; 75]%Z])).
Definition char_encode (t : text) : list Z := t.
Definition stop_normalized : SamplingParams :=
  match normalize (Some char_encode) (post_init stop_params) with Ok p => p | Raise _ => stop_params end.

Definition window_sampling : Sampling := mkSampling 16 false [] [[83; 84]%Z] [[79; 75]%Z] 2 2 None true true false.
Definition window_tk : ReqTokenizer := mkReqTok (fun ids => concat (map (fun x => [x]) ids)) None [].
Definition window_req : OReq :=
  mkOReq "a" [65; 66]%Z [104; 105; 106; 79; 75; 33]%Z window_sampling (Some window_tk) [] 200 None true None None false None [] None None [] 0 0 0.

(** The search for expressions of literals only. *)
Definition literal_search (s t : text) : bool := py_in s t.

Lemma literal_matches s w : matches (LITERAL <$> s) w -> w = s.
Proof.
  revert w. induction s as [|c s IH]; intros w; [done|]. intros (u & v & -> & Hu & Hv). simpl in Hu. subst u. simpl. f_equal. by apply IH.
Qed.

Lemma literal_finds s : finds literal_search s (LITERAL <$> s).
Proof.
  intros u w z ->%literal_matches. apply py_in_iff. exists (length u). unfold occurs_at.
  rewrite drop_app_length, !length_app. split; [by exists z|lia].
Qed.

Lemma regex_stop_not_missed_witness :
  exists r', update_finish_state literal_search 2 window_req = Ok r' /\ finished r' = true.
Proof.
  apply (regex_stop_not_missed literal_search (Some char_encode) stop_params stop_normalized window_req window_tk (fun x => [x]) [79; 75]%Z
    [LITERAL 79; LITERAL 75] 2 [104; 105; 106]%Z [79; 75]%Z [33]%Z);
    [reflexivity|vm_compute; reflexivity|by split|set_solver|reflexivity|exact (literal_finds [79; 75]%Z)|reflexivity|reflexivity|discriminate
    |reflexivity|vm_compute; lia|vm_compute; lia|vm_compute; discriminate|reflexivity| |vm_compute; lia].
  exists [79%Z], [75%Z]. split; [reflexivity|]. split; [reflexivity|]. exists [75%Z], []. by repeat split.
Defined.

Lemma verify_checks_ranges_witness :
  let q := post_init stop_params in
  exists t tp mp fp pp rp k mn,
    temperature q = Some t /\ top_p q = Some tp /\ min_p q = Some mp /\ frequency_penalty q = Some fp /\ presence_penalty q = Some pp /\
    repetition_penalty q = Some rp /\ top_k q = Some k /\ min_new_tokens q = Some mn /\
    checks (verify 200 q) (in_range 200 t tp mp fp pp rp k mn (Some 16%Z) None 0) /\
    (verify 200 q = Ok tt -> exists x, t = Fin x /\ (eps <= x)%Q) /\
    (forall x, temperature stop_params = Some (Fin x) -> (0 <= x < eps)%Q -> k = 1%Z).
Proof. apply (verify_checks_ranges 200 stop_params). reflexivity. Defined.
