(* ===== verification/Num.v ===== *)
(** * Numbers of the tensor programs

    The sparse-attention code computes with floating-point tensors.  The model
    takes the numbers as a class: an ordered field with the base-2 exponential
    and the square root.  Arithmetic is exact, rounding is not modelled; the
    special values the kernels rely on (minus infinity for a masked logit, and
    what IEEE arithmetic makes of it) are written out in [xf].  Rationals and
    real numbers are the instances. *)

From Stdlib Require Import QArith Qcanon Qround Reals Lra Field.
From S2P Require Import Prelude.

Class Num (F : Type) := {
  nzero : F; none : F;
  nadd : F -> F -> F; nsub : F -> F -> F; nmul : F -> F -> F; ndiv : F -> F -> F;
  nopp : F -> F; ninv : F -> F;
  nleb : F -> F -> bool;
  of_Z : Z -> F;
  nfloor : F -> Z }.

Declare Scope num_scope.
Delimit Scope num_scope with num.
Module NumNotations.
  Notation "0" := nzero : num_scope.
  Notation "1" := none : num_scope.
  Infix "+" := nadd : num_scope.
  Infix "-" := nsub : num_scope.
  Infix "*" := nmul : num_scope.
  Infix "/" := ndiv : num_scope.
  Notation "- x" := (nopp x) : num_scope.
  Infix "<=?" := nleb : num_scope.
End NumNotations.
Import NumNotations.

Definition nltb {F} `{Num F} (x y : F) : bool := negb (nleb y x).
Definition nmax {F} `{Num F} (x y : F) : F := if nleb x y then y else x.
Definition nmin {F} `{Num F} (x y : F) : F := if nleb x y then x else y.
Infix "<?" := nltb : num_scope.

(** [sum] of a list of numbers. *)
Definition nsum {F} `{Num F} (l : list F) : F := foldr nadd nzero l.

(** [round] of Python: to the nearest integer, halves to the even one. *)
Definition nround {F} `{Num F} (x : F) : Z :=
  let f := nfloor x in
  let d := (of_Z 2 * (x - of_Z f))%num in
  if (d <? 1)%num then f else if (1 <? d)%num then (f + 1)%Z
  else if Z.even f then f else (f + 1)%Z.

(** [int] of Python: towards zero. *)
Definition ntrunc {F} `{Num F} (x : F) : Z :=
  if (0 <=? x)%num then nfloor x else Z.opp (nfloor (- x)%num).

(** The laws: an ordered field in which [nfloor] is the floor. *)
Class NumLaws (F : Type) `{Num F} := {
  num_field : field_theory nzero none nadd nmul nsub nopp ndiv ninv eq;
  nle_refl x : nleb x x = true;
  nle_trans x y z : nleb x y = true -> nleb y z = true -> nleb x z = true;
  nle_antisym x y : nleb x y = true -> nleb y x = true -> x = y;
  nle_total x y : nleb x y = true \/ nleb y x = true;
  nle_add x y z : nleb x y = true -> nleb (nadd z x) (nadd z y) = true;
  nle_mul x y : nleb nzero x = true -> nleb nzero y = true -> nleb nzero (nmul x y) = true;
  of_Z_1 : of_Z 1 = none;
  of_Z_add a b : of_Z (a + b) = nadd (of_Z a) (of_Z b);
  nfloor_spec x : nleb (of_Z (nfloor x)) x = true /\ nltb x (of_Z (nfloor x + 1)) = true }.

(** The exponentials and the square root. *)
Class NumExp (F : Type) `{Num F} := { exp2 : F -> F; nexp : F -> F; nsqrt : F -> F }.

Class NumExpLaws (F : Type) `{NumExp F} := {
  exp2_add x y : exp2 (nadd x y) = nmul (exp2 x) (exp2 y);
  exp2_pos x : nltb nzero (exp2 x) = true;
  nexp_pos x : nltb nzero (nexp x) = true;
  nsqrt_pos x : nltb nzero x = true -> nltb nzero (nsqrt x) = true }.

(** ** Order and sums *)

Section laws.
Context {F : Type} `{NumLaws F}.
Local Open Scope num_scope.

Add Field NumField : num_field.

(** Order facts as propositions. *)
Definition nle (x y : F) : Prop := nleb x y = true.
Definition nlt (x y : F) : Prop := nltb x y = true.

Lemma nltb_false x y : (x <? y) = false <-> nle y x.
Proof. unfold nltb, nle. rewrite negb_false_iff. done. Qed.

Lemma nlt_alt x y : nlt x y <-> nleb y x = false.
Proof. unfold nlt, nltb. by rewrite negb_true_iff. Qed.

Lemma nlt_le x y : nlt x y -> nle x y.
Proof. rewrite nlt_alt. intros E. destruct (nle_total x y); [done|congruence]. Qed.

Lemma nlt_ne x y : nlt x y -> x <> y.
Proof. rewrite nlt_alt. intros E ->. by rewrite nle_refl in E. Qed.

Lemma nle_lt_trans x y z : nle x y -> nlt y z -> nlt x z.
Proof.
  rewrite !nlt_alt. intros Hxy Hyz. destruct (z <=? x) eqn:E; [|done].
  rewrite <- Hyz. symmetry. by eapply nle_trans.
Qed.

Lemma nlt_le_trans x y z : nlt x y -> nle y z -> nlt x z.
Proof.
  rewrite !nlt_alt. intros Hxy Hyz. destruct (z <=? x) eqn:E; [|done].
  rewrite <- Hxy. symmetry. by eapply nle_trans.
Qed.

Lemma nle_lt_eq x y : nle x y -> x <> y -> nlt x y.
Proof.
  intros Hle Hne. apply nlt_alt. destruct (y <=? x) eqn:E; [|done].
  by destruct Hne; apply nle_antisym.
Qed.

Lemma nle_add_mono a b c d : nle a b -> nle c d -> nle (a + c) (b + d).
Proof.
  intros Hab Hcd. unfold nle. eapply nle_trans; [apply nle_add, Hcd|].
  replace (a + d) with (d + a) by ring. replace (b + d) with (d + b) by ring. by apply nle_add.
Qed.

Lemma nle_sub x y : nle x y <-> nle 0 (y - x).
Proof.
  split; intros Hle.
  - replace 0 with (nopp x + x) by ring. replace (y - x) with (nopp x + y) by ring. by apply nle_add.
  - replace x with (x + 0) by ring. replace y with (x + (y - x)) by ring. by apply nle_add.
Qed.

Lemma nlt_sub x y : nlt x y <-> nlt 0 (y - x).
Proof.
  split; intros Hlt; apply nle_lt_eq.
  - by apply (nle_sub x y), nlt_le.
  - intros E. apply (nlt_ne _ _ Hlt). replace y with (y - x + x) by ring. rewrite <- E. ring.
  - by apply nle_sub, nlt_le.
  - intros ->. apply (nlt_ne _ _ Hlt). ring.
Qed.

Lemma nmul_pos x y : nlt 0 x -> nlt 0 y -> nlt 0 (x * y).
Proof.
  intros Hx Hy. apply nle_lt_eq; [by apply nle_mul; apply nlt_le|].
  intros E. apply (nlt_ne _ _ Hx). assert (y <> 0) by (symmetry; by apply (nlt_ne 0 y)).
  replace x with (x * y / y) by (by field). rewrite <- E. by field.
Qed.

Lemma nmul_le_mono c x y : nle 0 c -> nle x y -> nle (c * x) (c * y).
Proof.
  intros Hc Hxy. apply nle_sub. replace (c * y - c * x) with (c * (y - x)) by ring.
  apply nle_mul; [done|]. by apply nle_sub in Hxy.
Qed.

Lemma nle_0_1 : nle 0 1.
Proof.
  destruct (nle_total 0 1) as [|E]; [done|].
  replace 1 with ((nopp 1) * (nopp 1)) by ring.
  assert (nle 0 (nopp 1)) by (replace (nopp 1) with (0 - 1) by ring; by apply (nle_sub 1 0)).
  by apply nle_mul.
Qed.

Lemma nlt_0_1 : nlt 0 1.
Proof. apply nle_lt_eq; [apply nle_0_1|]. intros E. by apply (F_1_neq_0 num_field). Qed.

Lemma nadd_pos x y : nlt 0 x -> nle 0 y -> nlt 0 (x + y).
Proof.
  intros Hx Hy. eapply nlt_le_trans; [done|]. replace x with (x + 0) at 1 by ring. by apply nle_add.
Qed.

Lemma nle_inv x : nlt 0 x -> nlt 0 (ninv x).
Proof.
  intros Hx. assert (x <> 0) as Hne by (symmetry; by apply (nlt_ne 0 x)).
  apply nle_lt_eq.
  - destruct (nle_total 0 (ninv x)) as [|E]; [done|].
    assert (nle 0 (0 - ninv x)) as E' by by apply (nle_sub (ninv x) 0).
    pose proof (nle_mul _ _ (nlt_le _ _ Hx) E') as M.
    replace (x * (0 - ninv x)) with (nopp 1) in M by (by field).
    assert (nle 1 0) as C by (apply nle_sub; replace (0 - 1) with (nopp 1) by ring; done).
    pose proof nlt_0_1 as O. rewrite nlt_alt in O. unfold nle in C. congruence.
  - intros E. assert (x * ninv x = 1) by (by field). rewrite <- E in *.
    apply (F_1_neq_0 num_field). rewrite <- H1. ring.
Qed.

Lemma nle_div x y z : nlt 0 z -> nle x y -> nle (x / z) (y / z).
Proof.
  intros Hz Hle. assert (z <> 0) as Hne by (symmetry; by apply (nlt_ne 0 z)).
  replace (x / z) with (ninv z * x) by (by field). replace (y / z) with (ninv z * y) by (by field).
  apply nmul_le_mono; [by apply nlt_le, nle_inv|done].
Qed.

(** *** Integers among the numbers *)

Lemma of_Z_0 : of_Z 0 = 0.
Proof.
  pose proof (of_Z_add 0 0) as E. change (0 + 0)%Z with 0%Z in E.
  replace (of_Z 0) with (of_Z 0 + of_Z 0 - of_Z 0) by ring. rewrite <- E. ring.
Qed.

Lemma of_Z_opp a : of_Z (- a) = nopp (of_Z a).
Proof.
  pose proof (of_Z_add (- a) a) as E. rewrite Z.add_opp_diag_l, of_Z_0 in E.
  replace (of_Z (- a)) with (of_Z (- a) + of_Z a - of_Z a) by ring. rewrite <- E. ring.
Qed.

Lemma of_Z_sub a b : of_Z (a - b) = of_Z a - of_Z b.
Proof. unfold Z.sub. rewrite of_Z_add, of_Z_opp. ring. Qed.

Lemma of_Z_mul a b : of_Z (a * b) = of_Z a * of_Z b.
Proof.
  revert a. induction b using Z.peano_ind; intros a.
  - rewrite Z.mul_0_r, of_Z_0. ring.
  - rewrite Z.mul_succ_r, of_Z_add, IHb. unfold Z.succ. rewrite of_Z_add, of_Z_1. ring.
  - rewrite Z.mul_pred_r, of_Z_sub, IHb, <- Z.sub_1_r, of_Z_sub, of_Z_1. ring.
Qed.

Lemma of_Z_le_0 n : (0 <= n)%Z -> nle 0 (of_Z n).
Proof.
  intros Hn. pattern n. apply natlike_ind; [..|done].
  - rewrite of_Z_0. apply nle_refl.
  - intros x _ IH. unfold Z.succ. rewrite of_Z_add, of_Z_1.
    replace 0 with (0 + 0) by ring. apply nle_add_mono; [done|apply nle_0_1].
Qed.

Lemma of_Z_le a b : (a <= b)%Z -> nle (of_Z a) (of_Z b).
Proof. intros. apply nle_sub. rewrite <- of_Z_sub. apply of_Z_le_0. lia. Qed.

Lemma of_Z_lt a b : (a < b)%Z -> nlt (of_Z a) (of_Z b).
Proof.
  intros. apply nlt_sub. rewrite <- of_Z_sub. replace (b - a)%Z with (1 + (b - a - 1))%Z by lia.
  rewrite of_Z_add, of_Z_1. apply nadd_pos; [apply nlt_0_1|apply of_Z_le_0; lia].
Qed.

Lemma of_Z_le_iff a b : nle (of_Z a) (of_Z b) <-> (a <= b)%Z.
Proof.
  split; [|apply of_Z_le]. intros Hle. destruct (Z_lt_le_dec b a) as [Hlt|]; [|lia].
  apply of_Z_lt in Hlt. rewrite nlt_alt in Hlt. unfold nle in Hle. congruence.
Qed.

Lemma of_Z_lt_iff a b : nlt (of_Z a) (of_Z b) <-> (a < b)%Z.
Proof.
  split; [|apply of_Z_lt]. intros Hlt. destruct (Z_lt_le_dec a b) as [|Hle]; [lia|].
  apply of_Z_le in Hle. rewrite nlt_alt in Hlt. unfold nle in Hle. congruence.
Qed.

(** [nround] is at most one half away. *)
Lemma nround_spec x : nle (of_Z 2 * of_Z (nround x)) (of_Z 2 * x + 1) /\ nle (of_Z 2 * x) (of_Z 2 * of_Z (nround x) + 1).
Proof.
  unfold nround. destruct (nfloor_spec x) as [Hlo Hhi]. set (f := nfloor x) in *. set (d := of_Z 2 * (x - of_Z f)).
  assert (nle 0 d) as Hd0.
  { unfold d. apply nle_mul; [apply of_Z_le_0; lia|]. by apply (nle_sub (of_Z f) x). }
  assert (nle d (of_Z 2)) as Hd2.
  { unfold d. apply (nle_sub (of_Z f) x) in Hlo. rewrite of_Z_add, of_Z_1 in Hhi. apply nlt_le, nle_sub in Hhi.
    apply nle_sub. replace (of_Z 2 - of_Z 2 * (x - of_Z f)) with (of_Z 2 * (of_Z f + 1 - x)) by ring.
    apply nle_mul; [apply of_Z_le_0; lia|done]. }
  assert (of_Z 2 = 1 + 1 :> F) as E2 by (change 2%Z with (1 + 1)%Z; by rewrite of_Z_add, of_Z_1).
  assert (of_Z 2 * x = of_Z 2 * of_Z f + d) as Ex by (unfold d; ring).
  assert (forall z, nle z 1 -> nle (of_Z 2 * of_Z f + z) (of_Z 2 * of_Z f + 1)) as Hup by (intros; by apply nle_add).
  assert (nle (of_Z 2 * of_Z f) (of_Z 2 * x + 1)) as L1.
  { rewrite Ex. apply nle_sub. replace (of_Z 2 * of_Z f + d + 1 - of_Z 2 * of_Z f) with (d + 1) by ring.
    replace 0 with (0 + 0) by ring. apply nle_add_mono; [done|apply nle_0_1]. }
  assert (nle (of_Z 2 * x) (of_Z 2 * of_Z (f + 1) + 1)) as L2.
  { rewrite Ex, of_Z_add, of_Z_1. apply nle_sub. apply nle_sub in Hd2. rewrite E2 in *.
    replace ((1 + 1) * (of_Z f + 1) + 1 - ((1 + 1) * of_Z f + d)) with ((1 + 1 - d) + 1) by ring.
    replace 0 with (0 + 0) by ring. apply nle_add_mono; [done|apply nle_0_1]. }
  assert (nle d 1 -> nle (of_Z 2 * x) (of_Z 2 * of_Z f + 1)) as L3 by (intros; rewrite Ex; by apply Hup).
  assert (nle 1 d -> nle (of_Z 2 * of_Z (f + 1)) (of_Z 2 * x + 1)) as L4.
  { intros Hd. rewrite Ex, of_Z_add, of_Z_1, E2. apply nle_sub. apply nle_sub in Hd.
    replace ((1 + 1) * of_Z f + d + 1 - (1 + 1) * (of_Z f + 1)) with (d - 1) by ring. done. }
  destruct (d <? 1) eqn:E; [split; [done|by apply L3, nlt_le]|]. apply nltb_false in E.
  destruct (1 <? d) eqn:E'; [split; [by apply L4|done]|]. apply nltb_false in E'.
  destruct (Z.even f); split; auto.
Qed.

(** *** Sums *)

Lemma nsum_app l1 l2 : nsum (l1 ++ l2) = nsum l1 + nsum l2.
Proof. induction l1 as [|x l IH]; simpl; [ring|]. rewrite IH. ring. Qed.

Lemma nsum_scale {A} c (f : A -> F) l : nsum ((fun x => c * f x) <$> l) = c * nsum (f <$> l).
Proof. induction l as [|x l IH]; csimpl; [cbn; ring|]. cbn [nsum foldr] in *. change (foldr nadd 0) with (nsum (F:=F)). rewrite IH. ring. Qed.

Lemma nsum_add {A} (f g : A -> F) l : nsum ((fun x => f x + g x) <$> l) = nsum (f <$> l) + nsum (g <$> l).
Proof. induction l as [|x l IH]; csimpl; [cbn; ring|]. cbn [nsum foldr] in *. change (foldr nadd 0) with (nsum (F:=F)). rewrite IH. ring. Qed.

#[global] Instance nsum_perm : Proper ((≡ₚ) ==> eq) (nsum (F:=F)).
Proof. induction 1; simpl; [done|congruence|ring|congruence]. Qed.

Lemma nsum_nonneg l : Forall (nle 0) l -> nle 0 (nsum l).
Proof.
  induction 1 as [|x l Hx _ IH]; simpl; [apply nle_refl|].
  replace 0 with (0 + 0) by ring. by apply nle_add_mono.
Qed.

Lemma nsum_pos l : l <> [] -> Forall (nlt 0) l -> nlt 0 (nsum l).
Proof.
  intros Hne Hl. destruct Hl as [|x l Hx Hl]; [done|]. simpl.
  apply nadd_pos; [done|]. apply nsum_nonneg. eapply Forall_impl; [done|]. apply nlt_le.
Qed.

End laws.

(** ** The rationals *)

#[export] Instance Num_Qc : Num Qc := {
  nzero := 0%Qc; none := 1%Qc; nadd := Qcplus; nsub := Qcminus; nmul := Qcmult; ndiv := Qcdiv;
  nopp := Qcopp; ninv := Qcinv; nleb x y := Qle_bool x y;
  of_Z z := Q2Qc (inject_Z z); nfloor x := Qfloor x }.

Lemma Qc_leb_iff (x y : Qc) : nleb x y = true <-> (x <= y)%Qc.
Proof. apply Qle_bool_iff. Qed.

Lemma of_Z_Qc_le (z : Z) (x : Qc) : (Q2Qc (inject_Z z) <= x)%Qc <-> (inject_Z z <= x)%Q.
Proof. unfold Qcle. cbn [this Q2Qc]. by rewrite Qred_correct. Qed.

Lemma of_Z_Qc_ge (z : Z) (x : Qc) : (x <= Q2Qc (inject_Z z))%Qc <-> (x <= inject_Z z)%Q.
Proof. unfold Qcle. cbn [this Q2Qc]. by rewrite Qred_correct. Qed.

#[export] Instance NumLaws_Qc : NumLaws Qc.
Proof.
  split.
  - exact Qcft.
  - intros x. apply Qc_leb_iff, Qcle_refl.
  - intros x y z. rewrite !Qc_leb_iff. apply Qcle_trans.
  - intros x y. rewrite !Qc_leb_iff. apply Qcle_antisym.
  - intros x y. rewrite !Qc_leb_iff. destruct (Qclt_le_dec x y); [left; by apply Qclt_le_weak|by right].
  - intros x y z. rewrite !Qc_leb_iff. intros. apply Qcplus_le_compat; [apply Qcle_refl|done].
  - intros x y. rewrite !Qc_leb_iff. intros Hx Hy. pose proof (Qcmult_le_compat_r 0 x y Hx Hy) as E.
    by rewrite Qcmult_0_l in E.
  - done.
  - intros a b. cbn [of_Z nadd Num_Qc]. apply Qc_is_canon. cbn [this Q2Qc Qcplus].
    rewrite !Qred_correct. by rewrite inject_Z_plus.
  - intros x. split; [apply Qc_leb_iff, of_Z_Qc_le, Qfloor_le|].
    unfold nltb. apply negb_true_iff, not_true_iff_false. rewrite Qc_leb_iff.
    cbn [of_Z Num_Qc nfloor]. rewrite of_Z_Qc_le. apply Qlt_not_le, Qlt_floor.
Qed.

(** ** The real numbers *)

#[export] Instance Num_R : Num R := {
  nzero := 0%R; none := 1%R; nadd := Rplus; nsub := Rminus; nmul := Rmult; ndiv := Rdiv;
  nopp := Ropp; ninv := Rinv; nleb x y := if Rle_dec x y then true else false;
  of_Z := IZR; nfloor := Int_part }.

Lemma R_leb_iff (x y : R) : nleb x y = true <-> (x <= y)%R.
Proof. cbn. by destruct (Rle_dec x y). Qed.

Lemma R_ltb_iff (x y : R) : nltb x y = true <-> (x < y)%R.
Proof. unfold nltb. rewrite negb_true_iff, <- not_true_iff_false, R_leb_iff. lra. Qed.

#[export] Instance NumLaws_R : NumLaws R.
Proof.
  split.
  - exact Rfield.
  - intros x. apply R_leb_iff. lra.
  - intros x y z. rewrite !R_leb_iff. lra.
  - intros x y. rewrite !R_leb_iff. lra.
  - intros x y. rewrite !R_leb_iff. lra.
  - intros x y z. rewrite !R_leb_iff. cbn. lra.
  - intros x y. rewrite !R_leb_iff. apply Rmult_le_pos.
  - done.
  - intros a b. apply plus_IZR.
  - intros x. pose proof (base_Int_part x) as [? ?]. rewrite R_leb_iff, R_ltb_iff. cbn. rewrite plus_IZR. lra.
Qed.

#[export] Instance NumExp_R : NumExp R := { exp2 := Rpower 2; nexp := exp; nsqrt := sqrt }.

#[export] Instance NumExpLaws_R : NumExpLaws R.
Proof.
  split.
  - intros x y. apply Rpower_plus.
  - intros x. apply R_ltb_iff, exp_pos.
  - intros x. apply R_ltb_iff, exp_pos.
  - intros x. rewrite !R_ltb_iff. apply sqrt_lt_R0.
Qed.

(** Exponentials that are constantly one satisfy the laws on the rationals;
    programs run with them. *)
Definition NumExp_one : NumExp Qc := {| exp2 _ := 1%Qc; nexp _ := 1%Qc; nsqrt x := x |}.

Definition NumExpLaws_one : @NumExpLaws Qc _ NumExp_one.
Proof. by split. Qed.
