(* ===== verification/SparsePlan.v ===== *)
(** * SparsePlan: plans of the sparse attention kernel

    Models the planning half of
    [src/python/sglang/multimodal_gen/runtime/layers/attention/sparse/kernel.py]:
    the plan object, the Triton kernel that turns a row of a segment mask into
    merged key ranges, and the three ways to build a plan.  Indices of lanes,
    rows and segments are naturals, token positions are integers; an int32 or
    bool tensor is a nested list, a buffer written by a kernel a flat list. *)

From S2P Require Import Prelude.

Open Scope Z_scope.

(** [range(a, b)] and [range(a, b, step)]. *)
Definition zrange (a b : Z) : list Z := seqZ a (b - a).
Definition cdiv (a b : Z) : Z := - (- a / b).
Definition zrange_step (a b step : Z) : list Z := (fun i => a + i * step) <$> zrange 0 (cdiv (b - a) step).

(** A flat buffer viewed as [n] rows of [k] elements. *)
Definition rows_of {A} (n k : nat) (l : list A) : list (list A) := (fun i => take k (drop (i * k) l)) <$> seq 0 n.
Definition reshape3 {A} (a b c : nat) (l : list A) : list (list (list A)) := rows_of b c <$> rows_of a (b * c) l.

(** Masked load with [other]: outside the mask nothing is read. *)
Definition load {A} (other : A) (buf : list A) (i : nat) (mask : bool) : A :=
  if mask then default other (buf !! i) else other.

(** Stores of a kernel, in order. *)
Definition store_all {A} (buf : list A) (ws : list (nat * A)) : list A :=
  foldl (fun b w => <[w.1 := w.2]> b) buf ws.

(** ** The plan *)

Record SparseAttentionPlan (F : Type) := mkPlan {
  range_starts : list (list (list Z));  (* [heads, q_blocks, max_ranges] *)
  range_ends : list (list (list Z));
  range_counts : list (list nat);       (* [heads, q_blocks] *)
  block_m : Z;
  logit_bias : option (list (list F)) }.
Arguments mkPlan {F}.
Arguments range_starts {F}.
Arguments range_ends {F}.
Arguments range_counts {F}.
Arguments block_m {F}.
Arguments logit_bias {F}.

Section plan.
Context {F : Type}.
Implicit Types p : SparseAttentionPlan F.

(** [self.range_starts.shape[1]]. *)
Definition q_blocks p : nat := length (default [] (head (range_starts p))).

Definition shared_q_block p : bool := Nat.eqb (q_blocks p) 1.

(** The ranges of one (head, query block) row as the kernel reads them. *)
Definition row_ranges (starts ends : list Z) (count : nat) : list (Z * Z) := take count (zip starts ends).

Definition kept_tokens_row (starts ends : list Z) (count : nat) : Z :=
  foldr Z.add 0 (zip_with (fun i len => if Nat.ltb i count then len else 0)
    (seq 0 (length starts)) (zip_with (fun s e => Z.max 0 (e - s)) starts ends)).

Definition kept_tokens p : list (list Z) :=
  zip_with (fun se cs => zip_with (fun se c => kept_tokens_row se.1 se.2 c) se cs)
    (zip_with zip (range_starts p) (range_ends p)) (range_counts p).

(** [plan_key_mask]: the keys a row keeps. *)
Definition key_mask_row (starts ends : list Z) (count : nat) (kv_len : Z) : list bool :=
  (fun pos => existsb (fun ise => (Nat.ltb ise.1 count) && ((ise.2.1 <=? pos) && (pos <? ise.2.2)))
    (zip (seq 0 (length starts)) (zip starts ends))) <$> zrange 0 kv_len.

Definition plan_key_mask p (kv_len : Z) : list (list (list bool)) :=
  zip_with (fun se cs => zip_with (fun se c => key_mask_row se.1 se.2 c kv_len) se cs)
    (zip_with zip (range_starts p) (range_ends p)) (range_counts p).

(** ** Plans from ranges *)

Definition plan_from_shared_ranges (ranges : list (list (Z * Z))) (bm : Z) : res (SparseAttentionPlan F) :=
  match ranges with
  | [] => Raise ValueError  (* [max] of no lengths *)
  | _ =>
    let num_heads := length ranges in
    let max_ranges := (1 `max` max_list (length <$> ranges))%nat in
    let fill (f : Z * Z -> Z) (r : list (Z * Z)) := [store_all (replicate max_ranges 0) (zip (seq 0 (length r)) (f <$> r))] in
    Ok (mkPlan (fill fst <$> ranges) (fill snd <$> ranges) ((fun r => [length r]) <$> ranges) bm None)
  end.

(** ** Plans from a mask of segments *)

(** Bounds of the segments: shared by every head, or per head. *)
Inductive seg_bounds := Shared (l : list Z) | PerHead (l : list (list Z)).

Definition seg_flat (b : seg_bounds) : list Z := match b with Shared l => l | PerHead l => concat l end.
Definition stride_segment_head (b : seg_bounds) (num_segments : nat) : nat :=
  match b with Shared _ => 0%nat | PerHead _ => num_segments end.

(** One program of [_mask_to_ranges_kernel]; it returns the stores to
    [starts_ptr], [ends_ptr] and [counts_ptr]. *)
Section mask_to_ranges_kernel.
Context (mask_buf : list bool) (segment_start segment_end : list Z).
Context (stride_mask_row stride_segment stride_out_row qb num_segments BLOCK row : nat).

Definition k_valid (off : nat) : bool := Nat.ltb off num_segments.
Definition k_selected (off : nat) : bool := load false mask_buf (row * stride_mask_row + off) (k_valid off).
Definition k_previous (off : nat) : bool :=
  load false mask_buf (row * stride_mask_row + off - 1) (k_valid off && Nat.ltb 0 off).
Definition k_following (off : nat) : bool :=
  load false mask_buf (row * stride_mask_row + off + 1) (k_valid off && Nat.ltb off (num_segments - 1)).
Definition k_is_start (off : nat) : bool := k_selected off && negb (k_previous off).
Definition k_is_end (off : nat) : bool := k_selected off && negb (k_following off).

(** [tl.cumsum(is_start) - 1]. *)
Definition k_slot (off : nat) : Z := Z.of_nat (length (filter (fun o => k_is_start o = true) (seq 0 (S off)))) - 1.

Definition k_range_start (off : nat) : Z :=
  load 0 segment_start (row / qb * stride_segment + off) (k_valid off).
Definition k_range_end (off : nat) : Z :=
  load 0 segment_end (row / qb * stride_segment + off) (k_valid off).

Definition k_stores (pred : nat -> bool) (val : nat -> Z) : list (nat * Z) :=
  (fun off => (Z.to_nat (Z.of_nat (row * stride_out_row) + k_slot off), val off)) <$>
    filter (fun off => pred off && k_valid off = true) (seq 0 BLOCK).

Definition mask_to_ranges_kernel : list (nat * Z) * list (nat * Z) * (nat * nat) :=
  (k_stores k_is_start k_range_start, k_stores k_is_end k_range_end,
   (row, length (filter (fun o => k_is_start o = true) (seq 0 BLOCK)))).
End mask_to_ranges_kernel.

(** [triton.next_power_of_2]. *)
Definition next_pow2 (n : nat) : nat := (2 ^ Nat.log2_up n)%nat.

(** The launch over [heads * q_blocks] programs.  [garbage] is the content of
    the uninitialised [counts]. *)
Definition plan_from_segment_mask (garbage : nat) (segment_mask : list (list (list bool)))
    (segment_starts segment_ends : seg_bounds) (bm : Z) (bias : option (list (list F))) : SparseAttentionPlan F :=
  let num_heads := length segment_mask in
  let qb := length (default [] (head segment_mask)) in
  let num_segments := length (default [] (head (default [] (head segment_mask)))) in
  let max_ranges := (1 `max` ((num_segments + 1) / 2))%nat in
  let starts := replicate (num_heads * (qb * max_ranges)) 0 in
  let program := mask_to_ranges_kernel (concat (concat segment_mask)) (seg_flat segment_starts) (seg_flat segment_ends)
    num_segments (stride_segment_head segment_starts num_segments) max_ranges qb num_segments (next_pow2 num_segments) in
  let run := program <$> seq 0 (num_heads * qb) in
  mkPlan
    (reshape3 num_heads qb max_ranges (store_all starts (concat ((fun r => r.1.1) <$> run))))
    (reshape3 num_heads qb max_ranges (store_all starts (concat ((fun r => r.1.2) <$> run))))
    (rows_of num_heads qb (store_all (replicate (num_heads * qb) garbage) (snd <$> run)))
    bm bias.

Definition plan_from_block_mask (garbage : nat) (block_mask : list (list (list bool))) (block_n kv_len bm : Z)
    (bias : option (list (list F))) : SparseAttentionPlan F :=
  let kv_blocks := length (default [] (head (default [] (head block_mask)))) in
  let block_ids := zrange 0 (Z.of_nat kv_blocks) in
  plan_from_segment_mask garbage block_mask
    (Shared ((fun i => i * block_n) <$> block_ids))
    (Shared ((fun i => Z.min ((i + 1) * block_n) kv_len) <$> block_ids)) bm bias.

End plan.
