(* ===== verification/SparsePlanSpec.v ===== *)
(** * SparsePlanSpec: plans keep exactly the masked segments

    The runs of a mask row, the kernel that numbers and stores them, and the
    view of a plan as a set of keys. *)

From S2P Require Import Prelude SparsePlan.

Open Scope Z_scope.

Lemma zrange_app a b d : a <= b <= d -> zrange a b ++ zrange b d = zrange a d.
Proof.
  intros H. unfold zrange. replace (d - a) with ((b - a) + (d - b)) by lia. rewrite seqZ_app by lia. do 2 f_equal. lia.
Qed.

Lemma cdiv_spec a b : 0 < b -> (cdiv a b - 1) * b < a <= cdiv a b * b.
Proof. intros. unfold cdiv. pose proof (Z.div_mod (- a) b). pose proof (Z.mod_pos_bound (- a) b). nia. Qed.

(** ** Runs of selected segments *)

Definition nthb (m : list bool) (i : nat) : bool := default false (m !! i).

(** Flattening rows of equal length. *)
Lemma lookup_bind_uniform {A B} (l : list A) (f : A -> list B) n i j : (forall x, x ∈ l -> length (f x) = n) -> (j < n)%nat ->
  (l ≫= f) !! (i * n + j)%nat = l !! i ≫= fun x => f x !! j.
Proof.
  intros Hf Hj. revert i. induction l as [|x l IH]; intros i; csimpl; [done|].
  assert (length (f x) = n) as Hx by (apply Hf; constructor). destruct i as [|i]; cbn.
  - rewrite lookup_app_l by lia. done.
  - rewrite lookup_app_r by lia. replace (n + i * n + j - length (f x))%nat with (i * n + j)%nat by lia. apply IH.
    intros y Hy. apply Hf. by constructor.
Qed.

Lemma length_bind_uniform {A B} (l : list A) (f : A -> list B) n : (forall x, x ∈ l -> length (f x) = n) -> length (l ≫= f) = (length l * n)%nat.
Proof.
  induction l as [|x l IH]; intros Hf; csimpl; [done|]. rewrite length_app, Hf, IH; [done| |constructor]. intros y Hy. apply Hf. by constructor.
Qed.

(** The maximal runs of [true], as first and last index. *)
Fixpoint runs (i : nat) (m : list bool) : list (nat * nat) :=
  match m with
  | [] => []
  | false :: m => runs (S i) m
  | true :: m =>
      if nthb m 0 then match runs (S i) m with (_, e) :: rs => (i, e) :: rs | [] => [] end
      else (i, i) :: runs (S i) m
  end.

(** Runs in ascending order, at least one unselected index between them. *)
Inductive runs_ok : nat -> list (nat * nat) -> Prop :=
| runs_nil i : runs_ok i []
| runs_cons i s e rs : (i <= s <= e)%nat -> runs_ok (S (S e)) rs -> runs_ok i ((s, e) :: rs).

Lemma runs_ok_mono i j rs : (j <= i)%nat -> runs_ok i rs -> runs_ok j rs.
Proof. intros Hij Hr. destruct Hr; constructor; [lia|done]. Qed.

Lemma runs_true i m : exists e rs, runs i (true :: m) = (i, e) :: rs.
Proof.
  revert i. induction m as [|b m IH]; intros i; simpl; [eauto|].
  destruct b; simpl; [|eauto]. destruct (IH (S i)) as (e & rs & E). simpl in E. rewrite E. eauto.
Qed.

Lemma runs_head i m : nthb m 0 = true -> exists e rs, runs i m = (i, e) :: rs.
Proof. destruct m as [|[] m]; intros E; [done|apply runs_true|done]. Qed.

Lemma runs_wf i m : runs_ok i (runs i m) /\ (nthb m 0 = false -> runs_ok (S i) (runs i m)).
Proof.
  revert i. induction m as [|b m IH]; intros i; [split; constructor|]. destruct b; simpl.
  - split; [|done]. destruct (IH (S i)) as [Hok Hf]. destruct (nthb m 0) eqn:E.
    + destruct (runs_head (S i) m E) as (e & rs & Er). rewrite Er in *.
      inversion Hok; subst. constructor; [lia|done].
    + constructor; [lia|auto].
  - destruct (IH (S i)) as [Hok _]. split; [|done]. eapply runs_ok_mono; [|done]. lia.
Qed.

(** A run covers [x]. *)
Definition in_run (x : nat) (r : nat * nat) : Prop := (r.1 <= x <= r.2)%nat.

Lemma runs_ok_ge i rs r : runs_ok i rs -> r ∈ rs -> (i <= r.1 <= r.2)%nat.
Proof.
  induction 1 as [|i s e rs Hi Hrs IH]; [set_solver|]. rewrite elem_of_cons.
  intros [->|Hr]; simpl; [lia|]. specialize (IH Hr). lia.
Qed.

Lemma runs_cover i m x : (i <= x)%nat -> nthb m (x - i) = true <-> Exists (in_run x) (runs i m).
Proof.
  revert i. induction m as [|b m IH]; intros i Hx; simpl; [by rewrite Exists_nil|].
  pose proof (runs_wf (S i) m) as [Hok _].
  assert (Hsplit : nthb (b :: m) (x - i) = if decide (x = i) then b else nthb m (x - S i)).
  { case_decide; [subst; by rewrite Nat.sub_diag|]. unfold nthb.
    by replace (x - i)%nat with (S (x - S i)) by lia. }
  assert (Hge : Exists (in_run i) (runs (S i) m) -> False).
  { rewrite Exists_exists. intros (r & Hr & Hin). pose proof (runs_ok_ge _ _ _ Hok Hr). unfold in_run in Hin. lia. }
  rewrite Hsplit. destruct b.
  - destruct (nthb m 0) eqn:E.
    + destruct (runs_head (S i) m E) as (e & rs & Er). rewrite Er in *. rewrite Exists_cons. unfold in_run at 1. simpl.
      case_decide; subst.
      * split; [|done]. intros _. left. inversion Hok; subst. lia.
      * rewrite IH, Er, Exists_cons by lia. unfold in_run at 1. simpl.
        split; (intros [|]; [left; lia|by right]).
    + rewrite Exists_cons. unfold in_run at 1. simpl. case_decide; [split; [by left; lia|done]|].
      rewrite IH by lia. split; [by right|intros [|]; [lia|done]].
  - case_decide; [subst; split; [done|by intros ?%Hge]|]. apply IH. lia.
Qed.

(** *** The first and last indices of the runs *)

Definition start_at (m : list bool) (o : nat) : bool :=
  nthb m o && negb (match o with O => false | S o' => nthb m o' end).
Definition end_at (m : list bool) (o : nat) : bool := nthb m o && negb (nthb m (S o)).

Lemma run_at m x : nthb m x = true <-> Exists (in_run x) (runs 0 m).
Proof. rewrite <- runs_cover by lia. by rewrite Nat.sub_0_r. Qed.

(** Between two runs of the list nothing is selected. *)
Lemma runs_split i rs l1 s e l2 : runs_ok i rs -> rs = l1 ++ (s, e) :: l2 ->
  (i <= s <= e)%nat /\ Forall (fun r => (S (S r.2) <= s)%nat) l1 /\ Forall (fun r => (S (S e) <= r.1)%nat) l2.
Proof.
  intros Hok. revert l1. induction Hok as [|i s' e' rs Hi Hrs IH]; intros l1 E; [destruct l1; discriminate|].
  destruct l1 as [|r l1]; simplify_eq/=.
  - repeat split; [lia..|constructor|]. apply Forall_forall. intros r Hr. pose proof (runs_ok_ge _ _ _ Hrs Hr). lia.
  - destruct (IH l1 eq_refl) as (Hse & H1 & H2). split_and!; [lia..| |done].
    constructor; [simpl; lia|done].
Qed.

Lemma start_at_run m l1 s e l2 : runs 0 m = l1 ++ (s, e) :: l2 -> start_at m s = true.
Proof.
  intros E. destruct (runs_split 0 _ _ _ _ _ (proj1 (runs_wf 0 m)) E) as (Hse & H1 & H2).
  unfold start_at. apply andb_true_iff. split.
  - apply run_at. rewrite E. apply Exists_app. right. left. unfold in_run. simpl. lia.
  - apply negb_true_iff. destruct s as [|s]; [done|]. apply not_true_iff_false. rewrite run_at, E.
    rewrite Forall_forall in H1, H2. rewrite Exists_exists. intros (r & Hr & Hin). unfold in_run in Hin.
    apply elem_of_app in Hr as [Hr|[->|Hr]%elem_of_cons]; [specialize (H1 _ Hr)| |specialize (H2 _ Hr)]; simpl in *; lia.
Qed.

Lemma end_at_run m l1 s e l2 : runs 0 m = l1 ++ (s, e) :: l2 -> end_at m e = true.
Proof.
  intros E. destruct (runs_split 0 _ _ _ _ _ (proj1 (runs_wf 0 m)) E) as (Hse & H1 & H2).
  unfold end_at. apply andb_true_iff. split.
  - apply run_at. rewrite E. apply Exists_app. right. left. unfold in_run. simpl. lia.
  - apply negb_true_iff, not_true_iff_false. rewrite run_at, E.
    rewrite Forall_forall in H1, H2. rewrite Exists_exists. intros (r & Hr & Hin). unfold in_run in Hin.
    apply elem_of_app in Hr as [Hr|[->|Hr]%elem_of_cons]; [specialize (H1 _ Hr)| |specialize (H2 _ Hr)]; simpl in *; lia.
Qed.

Lemma selected_run m x : nthb m x = true -> exists l1 s e l2, runs 0 m = l1 ++ (s, e) :: l2 /\ (s <= x <= e)%nat.
Proof.
  rewrite run_at, Exists_exists. intros ([s e] & (l1 & l2 & E)%list_elem_of_split & Hin). unfold in_run in Hin. eauto 10.
Qed.

Lemma start_at_iff m x : start_at m x = true <-> x ∈ (runs 0 m).*1.
Proof.
  split.
  - intros Hs. unfold start_at in Hs. apply andb_true_iff in Hs as [Hx Hp].
    destruct (selected_run _ _ Hx) as (l1 & s & e & l2 & E & Hin).
    destruct (decide (x = s)) as [->|]; [rewrite E, fmap_app; apply elem_of_app; right; by left|]. exfalso.
    destruct x as [|x]; [lia|]. apply negb_true_iff in Hp. apply not_true_iff_false in Hp. apply Hp.
    apply run_at. rewrite E. apply Exists_app. right. left. unfold in_run. simpl. lia.
  - intros ([s e] & -> & (l1 & l2 & E)%list_elem_of_split)%list_elem_of_fmap. by eapply start_at_run.
Qed.

Lemma end_at_iff m x : end_at m x = true <-> x ∈ (runs 0 m).*2.
Proof.
  split.
  - intros Hs. unfold end_at in Hs. apply andb_true_iff in Hs as [Hx Hp].
    destruct (selected_run _ _ Hx) as (l1 & s & e & l2 & E & Hin).
    destruct (decide (x = e)) as [->|]; [rewrite E, fmap_app; apply elem_of_app; right; by left|]. exfalso.
    apply negb_true_iff in Hp. apply not_true_iff_false in Hp. apply Hp.
    apply run_at. rewrite E. apply Exists_app. right. left. unfold in_run. simpl. lia.
  - intros ([s e] & -> & (l1 & l2 & E)%list_elem_of_split)%list_elem_of_fmap. by eapply end_at_run.
Qed.

(** *** Numbering the runs *)

Lemma StronglySorted_fst i rs : runs_ok i rs -> StronglySorted Nat.lt rs.*1.
Proof.
  induction 1 as [|i s e rs Hi Hrs IH]; [constructor|]. constructor; [done|].
  apply Forall_forall. intros x ([s' e'] & -> & Hr)%list_elem_of_fmap. pose proof (runs_ok_ge _ _ _ Hrs Hr). simpl in *. lia.
Qed.

Lemma StronglySorted_snd i rs : runs_ok i rs -> StronglySorted Nat.lt rs.*2.
Proof.
  induction 1 as [|i s e rs Hi Hrs IH]; [constructor|]. constructor; [done|].
  apply Forall_forall. intros x ([s' e'] & -> & Hr)%list_elem_of_fmap. pose proof (runs_ok_ge _ _ _ Hrs Hr). simpl in *. lia.
Qed.

Lemma StronglySorted_lt_ext (l k : list nat) :
  StronglySorted Nat.lt l -> StronglySorted Nat.lt k -> (forall x, x ∈ l <-> x ∈ k) -> l = k.
Proof.
  intros Hl Hk E. assert (forall l, StronglySorted Nat.lt l -> NoDup l) as Hnd.
  { clear. induction 1 as [|x l Hs IH Hx]; constructor; [|done]. rewrite Forall_forall in Hx. intros Hin%Hx. lia. }
  assert (AntiSymm eq Nat.lt) by (intros x y; unfold Nat.lt; lia).
  apply (StronglySorted_unique Nat.lt); [done|done|]. apply NoDup_Permutation; auto.
Qed.

Lemma StronglySorted_seq a n : StronglySorted Nat.lt (seq a n).
Proof.
  revert a. induction n as [|n IH]; intros a; simpl; constructor; [done|].
  apply Forall_forall. intros x Hx%elem_of_seq. lia.
Qed.

Lemma StronglySorted_bfilter (f : nat -> bool) l :
  StronglySorted Nat.lt l -> StronglySorted Nat.lt (filter (fun x => f x = true) l).
Proof.
  induction 1 as [|x l Hs IH Hx]; [constructor|]. rewrite filter_cons. case_decide; [|done].
  constructor; [done|]. rewrite Forall_forall in *. intros y [_ ?]%list_elem_of_filter. auto.
Qed.

Lemma filter_seq_ext (f : nat -> bool) n l :
  StronglySorted Nat.lt l -> (forall x, x ∈ l <-> f x = true /\ (x < n)%nat) -> filter (fun x => f x = true) (seq 0 n) = l.
Proof.
  intros Hl E. apply StronglySorted_lt_ext; [apply StronglySorted_bfilter, StronglySorted_seq|done|].
  intros x. rewrite E, list_elem_of_filter, elem_of_seq. intuition lia.
Qed.

Lemma nthb_lt m x : nthb m x = true -> (x < length m)%nat.
Proof.
  unfold nthb. destruct (m !! x) eqn:E; [|done]. intros _. by apply lookup_lt_Some in E.
Qed.

Lemma filter_starts m n : (length m <= n)%nat -> filter (fun x => start_at m x = true) (seq 0 n) = (runs 0 m).*1.
Proof.
  intros Hn. apply filter_seq_ext; [exact (StronglySorted_fst 0 _ (proj1 (runs_wf 0 m)))|]. intros x. rewrite <- start_at_iff.
  split; [|by intros [? _]]. intros Hs. split; [done|]. unfold start_at in Hs. apply andb_true_iff in Hs as [Hs%nthb_lt _]. lia.
Qed.

Lemma filter_ends m n : (length m <= n)%nat -> filter (fun x => end_at m x = true) (seq 0 n) = (runs 0 m).*2.
Proof.
  intros Hn. apply filter_seq_ext; [exact (StronglySorted_snd 0 _ (proj1 (runs_wf 0 m)))|]. intros x. rewrite <- end_at_iff.
  split; [|by intros [? _]]. intros Hs. split; [done|]. unfold end_at in Hs. apply andb_true_iff in Hs as [Hs%nthb_lt _]. lia.
Qed.

(** Up to any index of a run, as many runs have started as its number says. *)
Lemma slot_of_run m l1 s e l2 x : runs 0 m = l1 ++ (s, e) :: l2 -> (s <= x <= e)%nat ->
  length (filter (fun o => start_at m o = true) (seq 0 (S x))) = S (length l1).
Proof.
  intros E Hx. destruct (runs_split 0 _ _ _ _ _ (proj1 (runs_wf 0 m)) E) as (Hse & H1 & H2).
  rewrite (filter_seq_ext _ _ ((l1 ++ [(s, e)]).*1)).
  - rewrite length_fmap, length_app. simpl. lia.
  - pose proof (StronglySorted_fst _ _ (proj1 (runs_wf 0 m))) as Hs. rewrite E in Hs.
    rewrite cons_middle, app_assoc, fmap_app in Hs. by apply StronglySorted_app_1_l in Hs.
  - intros y. rewrite start_at_iff, E, !fmap_app, !elem_of_app. csimpl. rewrite !elem_of_cons.
    rewrite Forall_forall in H1, H2. split.
    + intros [([s' e'] & -> & Hr)%list_elem_of_fmap|[->|?%elem_of_nil]]; [|split; [auto|lia]|done].
      split; [left; apply list_elem_of_fmap; by eexists|]. specialize (H1 _ Hr).
      assert (s' <= e')%nat; [|simpl in *; lia].
      assert ((s', e') ∈ runs 0 m) as Hin by (rewrite E; set_solver).
      pose proof (runs_ok_ge _ _ _ (proj1 (runs_wf 0 m)) Hin). simpl in *. lia.
    + intros [[?|[->|([s' e'] & -> & Hr)%list_elem_of_fmap]] Hy]; [by left|right; by left|].
      specialize (H2 _ Hr). simpl in *. lia.
Qed.

(** At most every second index starts a run. *)
Lemma runs_count i rs n : runs_ok i rs -> Forall (fun r => (r.2 < n)%nat) rs -> (2 * length rs <= n - i + 1)%nat.
Proof.
  intros Hok. induction Hok as [|i s e rs Hi Hrs IH]; intros Hn; simpl; [lia|].
  apply Forall_cons in Hn as [He Hn]. specialize (IH Hn). simpl in He. lia.
Qed.

Lemma runs_lt m : Forall (fun r => (r.2 < length m)%nat) (runs 0 m).
Proof.
  apply Forall_forall. intros [s e] (l1 & l2 & E)%list_elem_of_split. apply end_at_run in E.
  unfold end_at in E. apply andb_true_iff in E as [E%nthb_lt _]. done.
Qed.

(** ** Buffers *)

Lemma lookup_concat_rows {A} (ls : list (list A)) n i j :
  Forall (fun l => length l = n) ls -> (j < n)%nat -> concat ls !! (i * n + j)%nat = ls !! i ≫= fun l => l !! j.
Proof.
  intros Hls Hj. revert i. induction Hls as [|l ls Hl Hls IH]; intros i; [done|]. simpl.
  destruct i as [|i]; simpl.
  - rewrite lookup_app_l by lia. done.
  - rewrite lookup_app_r by lia. rewrite <- IH. f_equal. lia.
Qed.

Lemma length_concat_rows {A} (ls : list (list A)) n : Forall (fun l => length l = n) ls -> length (concat ls) = (length ls * n)%nat.
Proof. induction 1 as [|l ls Hl _ IH]; simpl; [done|]. rewrite length_app, IH. lia. Qed.

Lemma lookup_rows_of {A} n k (l : list A) i : (i < n)%nat -> rows_of n k l !! i = Some (take k (drop (i * k) l)).
Proof. intros Hi. unfold rows_of. rewrite list_lookup_fmap, lookup_seq_lt by done. done. Qed.

Lemma lookup_reshape3 {A} a b c (l : list A) i j : (i < a)%nat -> (j < b)%nat ->
  reshape3 a b c l !! i ≫= (fun r => r !! j) = Some (take c (drop ((i * b + j) * c) l)).
Proof.
  intros Hi Hj. unfold reshape3. rewrite list_lookup_fmap, lookup_rows_of by done. cbn. rewrite lookup_rows_of by done.
  f_equal. apply list_eq. intros x. destruct (decide (x < c)%nat).
  - rewrite !lookup_take_lt, !lookup_drop, lookup_take_lt, lookup_drop by nia. f_equal. lia.
  - rewrite !lookup_take_ge by lia. done.
Qed.

Lemma length_reshape3 {A} a b c (l : list A) : length (reshape3 a b c l) = a.
Proof. unfold reshape3, rows_of. by rewrite !length_fmap, length_seq. Qed.

Lemma length_store_all {A} (buf : list A) ws : length (store_all buf ws) = length buf.
Proof. revert buf. induction ws as [|w ws IH]; intros buf; simpl; [done|]. unfold store_all in *. rewrite IH. apply length_insert. Qed.

Lemma lookup_store_other {A} (buf : list A) ws a : a ∉ ws.*1 -> store_all buf ws !! a = buf !! a.
Proof.
  revert buf. induction ws as [|[b v] ws IH]; intros buf; simpl; [done|]. csimpl. rewrite not_elem_of_cons.
  intros [Hne Hws]. unfold store_all in *. rewrite IH by done. by rewrite list_lookup_insert_ne.
Qed.

Lemma lookup_store {A} (buf : list A) ws a v : NoDup ws.*1 -> (a, v) ∈ ws -> (a < length buf)%nat ->
  store_all buf ws !! a = Some v.
Proof.
  revert buf. induction ws as [|[b w] ws IH]; intros buf; csimpl; [set_solver|].
  rewrite NoDup_cons, elem_of_cons. intros [Hb Hnd] [E|Hin] Ha; simplify_eq.
  - change (store_all (<[b:=w]> buf) ws !! b = Some w). rewrite lookup_store_other by done.
    by apply list_lookup_insert_eq.
  - change (store_all (<[b:=w]> buf) ws !! a = Some v). apply IH; [done|done|]. by rewrite length_insert.
Qed.

(** Rows of stores: program [r] writes the first cells of row [r]. *)
Definition row_stores {A} (k : nat) (vals : nat -> list A) (r : nat) : list (nat * A) :=
  imap (fun j v => ((r * k + j)%nat, v)) (vals r).

Lemma elem_of_row_stores {A} k (vals : nat -> list A) r a v :
  (a, v) ∈ row_stores k vals r <-> exists j, vals r !! j = Some v /\ a = (r * k + j)%nat.
Proof.
  unfold row_stores. rewrite list_elem_of_lookup. setoid_rewrite list_lookup_imap_Some.
  split; [intros (j & w & ? & E); simplify_eq; eauto|intros (j & ? & ->); eauto].
Qed.

Lemma row_stores_NoDup {A} k (vals : nat -> list A) n : (forall r, (length (vals r) <= k)%nat) ->
  NoDup (concat (row_stores k vals <$> seq 0 n)).*1.
Proof.
  intros Hk. assert (forall r, (row_stores k vals r).*1 = (fun j => (r * k + j)%nat) <$> seq 0 (length (vals r))) as Hrow.
  { intros r. apply list_eq. intros j. rewrite !list_lookup_fmap. unfold row_stores. rewrite list_lookup_imap.
    destruct (decide (j < length (vals r))%nat) as [Hj|Hj].
    - rewrite lookup_seq_lt by done. destruct (lookup_lt_is_Some_2 _ _ Hj) as [v ->]. done.
    - rewrite lookup_seq_ge, lookup_ge_None_2 by lia. done. }
  assert (forall s, NoDup (concat (row_stores k vals <$> seq s n)).*1 /\
    Forall (fun a => (s * k <= a)%nat) (concat (row_stores k vals <$> seq s n)).*1) as Hs; [|apply (Hs 0%nat)].
  induction n as [|n IH]; intros s; [split; constructor|]. cbn [seq fmap list_fmap concat].
  rewrite fmap_app, Hrow. destruct (IH (S s)) as [Hnd Hge]. split.
  - apply NoDup_app. split_and!; [apply NoDup_fmap_2; [intros ???; lia|apply NoDup_seq]| |done].
    intros x (j & -> & Hj%elem_of_seq)%list_elem_of_fmap Hx. rewrite Forall_forall in Hge. specialize (Hge _ Hx).
    specialize (Hk s). nia.
  - apply Forall_app. split; [|eapply Forall_impl; [done|]; simpl; intros; nia].
    apply Forall_forall. intros x (j & -> & _)%list_elem_of_fmap. lia.
Qed.

(** What row [r] of the buffer holds in the end. *)
Lemma lookup_rows_stored {A} k (vals : nat -> list A) n (d : A) r : (forall r, (length (vals r) <= k)%nat) -> (r < n)%nat ->
  take k (drop (r * k) (store_all (replicate (n * k) d) (concat (row_stores k vals <$> seq 0 n)))) =
  vals r ++ replicate (k - length (vals r)) d.
Proof.
  intros Hk Hr. pose proof (Hk r) as Hkr. pose proof (row_stores_NoDup k vals n Hk) as Hnd.
  apply list_eq. intros j. destruct (decide (j < k)%nat) as [Hj|Hj].
  2:{ rewrite lookup_take_ge by lia. symmetry. apply lookup_ge_None_2. rewrite length_app, length_replicate. lia. }
  rewrite lookup_take_lt, lookup_drop by done. destruct (decide (j < length (vals r))%nat) as [Hl|Hl].
  - rewrite lookup_app_l by done. destruct (lookup_lt_is_Some_2 _ _ Hl) as [v Ev]. rewrite Ev.
    apply lookup_store; [done| |rewrite length_replicate; nia].
    apply elem_of_concat. exists (row_stores k vals r). split; [apply elem_of_row_stores; eauto|].
    apply list_elem_of_fmap. exists r. split; [done|]. apply elem_of_seq. lia.
  - rewrite lookup_store_other.
    + rewrite lookup_replicate_2 by nia. rewrite lookup_app_r by lia. by rewrite lookup_replicate_2 by lia.
    + intros ([a v] & E & (l & Hin & (r' & -> & _)%list_elem_of_fmap)%elem_of_concat)%list_elem_of_fmap. simpl in E.
      apply elem_of_row_stores in Hin as (j' & Hj' & ->). apply lookup_lt_Some in Hj'. specialize (Hk r').
      assert (r = r') as -> by nia. nia.
Qed.

(** ** The kernel *)

(** A [heads x q_blocks x segments] mask. *)
Definition mask_shape (H Q n : nat) (sm : list (list (list bool))) : Prop :=
  length sm = H /\ Forall (fun hm => length hm = Q /\ Forall (fun m => length m = n) hm) sm /\ (0 < H)%nat /\ (0 < Q)%nat.

Definition bounds_shape (H n : nat) (b : seg_bounds) : Prop :=
  match b with Shared l => length l = n | PerHead ll => length ll = H /\ Forall (fun l => length l = n) ll end.

(** The bound of segment [o] for head [h]. *)
Definition seg_at (b : seg_bounds) (h o : nat) : Z :=
  match b with Shared l => default 0 (l !! o) | PerHead ll => default 0 (ll !! h ≫= fun l => l !! o) end.

Definition same_kind (a b : seg_bounds) : Prop :=
  match a, b with Shared _, Shared _ | PerHead _, PerHead _ => True | _, _ => False end.

Definition mask_at (sm : list (list (list bool))) (h q : nat) : list bool := default [] (sm !! h ≫= fun hm => hm !! q).

Section kernel_row.
Context (H Q n : nat) (sm : list (list (list bool))) (Hsm : mask_shape H Q n sm).
Context (h q : nat) (Hh : (h < H)%nat) (Hq : (q < Q)%nat).
Local Abbreviation m := (mask_at sm h q).
Local Abbreviation row := (h * Q + q)%nat.
Local Abbreviation mbuf := (concat (concat sm)).

Lemma mask_rows : Forall (fun m => length m = n) (concat sm) /\ Forall (fun hm => length hm = Q) sm.
Proof.
  destruct Hsm as (_ & Hf & _). split.
  - apply Forall_concat. eapply Forall_impl; [exact Hf|]. by intros ? [_ ?].
  - eapply Forall_impl; [exact Hf|]. by intros ? [? _].
Qed.

Lemma mask_at_length : length m = n.
Proof.
  unfold mask_at. destruct Hsm as (Hl & Hf & _). destruct (lookup_lt_is_Some_2 sm h) as [hm Ehm]; [lia|].
  rewrite Ehm. simpl. pose proof (Forall_lookup_1 _ _ _ _ Hf Ehm) as [HQ Hm].
  destruct (lookup_lt_is_Some_2 hm q) as [m Em]; [lia|]. rewrite Em. simpl. exact (Forall_lookup_1 _ _ _ _ Hm Em).
Qed.

Lemma mask_buf_lookup o : (o < n)%nat -> mbuf !! (row * n + o)%nat = m !! o.
Proof.
  intros Ho. destruct mask_rows as [H1 H2]. rewrite lookup_concat_rows by done.
  rewrite lookup_concat_rows by done. unfold mask_at. destruct (sm !! h) as [hm|]; simpl; [|done].
  by destruct (hm !! q).
Qed.

Lemma k_selected_eq o : k_selected mbuf n n row o = nthb m o.
Proof.
  unfold k_selected, load, k_valid, nthb. destruct (Nat.ltb_spec o n) as [Ho|Ho].
  - by rewrite mask_buf_lookup.
  - by rewrite lookup_ge_None_2 by (rewrite mask_at_length; lia).
Qed.

Lemma k_previous_eq o : nthb m o = true -> k_previous mbuf n n row o = match o with O => false | S o' => nthb m o' end.
Proof.
  intros Hm%nthb_lt. rewrite mask_at_length in Hm. unfold k_previous, load, k_valid.
  destruct o as [|o]; [by rewrite andb_false_r|]. destruct (Nat.ltb_spec (S o) n); [|lia]. cbn [andb Nat.ltb Nat.leb].
  replace (row * n + S o - 1)%nat with (row * n + o)%nat by lia. rewrite mask_buf_lookup by lia. done.
Qed.

Lemma k_following_eq o : nthb m o = true -> k_following mbuf n n row o = nthb m (S o).
Proof.
  intros Hm%nthb_lt. rewrite mask_at_length in Hm. unfold k_following, load, k_valid, nthb.
  destruct (Nat.ltb_spec o n); [|lia]. destruct (Nat.ltb_spec o (n - 1)) as [Ho|Ho]; simpl.
  - replace (row * n + o + 1)%nat with (row * n + S o)%nat by lia. rewrite mask_buf_lookup by lia. done.
  - rewrite lookup_ge_None_2 by (rewrite mask_at_length; lia). done.
Qed.

Lemma k_is_start_eq o : k_is_start mbuf n n row o = start_at m o.
Proof.
  unfold k_is_start, start_at. rewrite k_selected_eq. destruct (nthb m o) eqn:E; [|done]. by rewrite k_previous_eq.
Qed.

Lemma k_is_end_eq o : k_is_end mbuf n n row o = end_at m o.
Proof.
  unfold k_is_end, end_at. rewrite k_selected_eq. destruct (nthb m o) eqn:E; [|done]. by rewrite k_following_eq.
Qed.

Lemma filter_eq {A} (f g : A -> bool) (l : list A) : (forall x, f x = g x) ->
  filter (fun x => f x = true) l = filter (fun x => g x = true) l.
Proof. intros E. apply list_filter_iff. intros x. by rewrite E. Qed.

Lemma k_slot_eq l1 s e l2 x : runs 0 m = l1 ++ (s, e) :: l2 -> (s <= x <= e)%nat ->
  k_slot mbuf n n row x = Z.of_nat (length l1).
Proof.
  intros E Hx. unfold k_slot. rewrite (filter_eq _ _ _ k_is_start_eq), (slot_of_run _ _ _ _ _ _ E Hx). lia.
Qed.

Lemma k_bound_eq b r : bounds_shape H n b -> r ∈ runs 0 m -> forall o, (o <= r.2)%nat ->
  load 0 (seg_flat b) (row / Q * stride_segment_head b n + o) (k_valid n o) = seg_at b h o.
Proof.
  intros Hb Hr o Ho. pose proof (proj1 (Forall_forall _ _) (runs_lt m) _ Hr) as Hr2. simpl in Hr2.
  rewrite mask_at_length in Hr2. unfold load, k_valid. destruct (Nat.ltb_spec o n); [|lia].
  rewrite Nat.div_add_l, Nat.div_small, Nat.add_0_r by lia.
  destruct b as [l|ll]; simpl in *; [by rewrite Nat.mul_0_r|]. destruct Hb as [_ Hll]. by rewrite lookup_concat_rows.
Qed.

Context (k BLOCK : nat) (HB : (n <= BLOCK)%nat).

(** The stores of the program are the runs, numbered from the start of its row. *)
Lemma k_stores_runs (sel : nat * nat -> nat) pred val :
  (forall o, pred o = true -> (o < n)%nat) ->
  filter (fun x => pred x = true) (seq 0 BLOCK) = sel <$> runs 0 m ->
  (forall r, r.1 <= r.2 -> r.1 <= sel r <= r.2)%nat ->
  k_stores mbuf n k n BLOCK row pred val =
  imap (fun j r => ((row * k + j)%nat, val (sel r))) (runs 0 m).
Proof.
  intros Hpred Hf Hsel. unfold k_stores.
  rewrite (filter_eq (fun o => pred o && k_valid n o) pred).
  2:{ intros o. destruct (pred o) eqn:E; [|done]. unfold k_valid. apply Hpred in E. destruct (Nat.ltb_spec o n); [done|lia]. }
  rewrite Hf. apply list_eq. intros j. rewrite !list_lookup_fmap, list_lookup_imap.
  destruct (runs 0 m !! j) as [[s e]|] eqn:Ej; [|done]. simpl. f_equal. f_equal.
  pose proof (take_drop_middle _ _ _ Ej) as E. symmetry in E.
  destruct (runs_split 0 _ _ _ _ _ (proj1 (runs_wf 0 m)) E) as (Hse & _ & _).
  rewrite (k_slot_eq _ _ _ _ (sel (s, e)) E) by (apply (Hsel (s, e)); simpl; lia).
  rewrite length_take_le by (apply lookup_lt_Some in Ej; lia). lia.
Qed.

Lemma k_start_stores val : k_stores mbuf n k n BLOCK row (k_is_start mbuf n n row) val =
  imap (fun j r => ((row * k + j)%nat, val r.1)) (runs 0 m).
Proof.
  apply (k_stores_runs fst).
  - intros o. rewrite k_is_start_eq. unfold start_at. intros [E%nthb_lt _]%andb_true_iff. by rewrite mask_at_length in E.
  - rewrite (filter_eq _ _ _ k_is_start_eq). apply filter_starts. rewrite mask_at_length. done.
  - intros [s e]. simpl. lia.
Qed.

Lemma k_end_stores val : k_stores mbuf n k n BLOCK row (k_is_end mbuf n n row) val =
  imap (fun j r => ((row * k + j)%nat, val r.2)) (runs 0 m).
Proof.
  apply (k_stores_runs snd).
  - intros o. rewrite k_is_end_eq. unfold end_at. intros [E%nthb_lt _]%andb_true_iff. by rewrite mask_at_length in E.
  - rewrite (filter_eq _ _ _ k_is_end_eq). apply filter_ends. rewrite mask_at_length. done.
  - intros [s e]. simpl. lia.
Qed.

Lemma k_count_eq : length (filter (fun o => k_is_start mbuf n n row o = true) (seq 0 BLOCK)) = length (runs 0 m).
Proof.
  rewrite (filter_eq _ _ _ k_is_start_eq), filter_starts by (rewrite mask_at_length; done). apply length_fmap.
Qed.

End kernel_row.

(** ** The plan of a mask *)

(** What the attention kernel reads for a (head, query block). *)
Definition starts_at {F} (p : SparseAttentionPlan F) (h q : nat) : list Z := default [] (range_starts p !! h ≫= fun r => r !! q).
Definition ends_at {F} (p : SparseAttentionPlan F) (h q : nat) : list Z := default [] (range_ends p !! h ≫= fun r => r !! q).
Definition count_at {F} (p : SparseAttentionPlan F) (h q : nat) : nat := default 0%nat (range_counts p !! h ≫= fun r => r !! q).
Definition kept_ranges {F} (p : SparseAttentionPlan F) (h q : nat) : list (Z * Z) :=
  row_ranges (starts_at p h q) (ends_at p h q) (count_at p h q).

Lemma max_ranges_enough n m : length m = n -> (length (runs 0 m) <= 1 `max` ((n + 1) / 2))%nat.
Proof.
  intros <-. pose proof (runs_count 0 _ _ (proj1 (runs_wf 0 m)) (runs_lt m)) as Hc. set (n := length m) in *.
  assert (length (runs 0 m) <= (n + 1) / 2)%nat by (apply Nat.div_le_lower_bound; lia). lia.
Qed.

Lemma next_pow2_ge n : (n <= next_pow2 n)%nat.
Proof. unfold next_pow2. destruct n as [|[|n]]; [lia|simpl; lia|]. pose proof (Nat.log2_up_spec (S (S n))). lia. Qed.

Lemma mask_shape_dims H Q n sm : mask_shape H Q n sm ->
  length (default [] (head sm)) = Q /\ length (default [] (head (default [] (head sm)))) = n.
Proof.
  intros Hsm. pose proof Hsm as (Hl & Hf & HH & HQ). destruct sm as [|hm sm]; [simpl in *; lia|]. simpl.
  apply Forall_cons in Hf as [[Hhm Hms] _]. destruct hm as [|m hm]; [simpl in *; lia|]. simpl.
  apply Forall_cons in Hms as [Hm _]. done.
Qed.

Lemma list_fmap_seq_ext {A} (f g : nat -> A) n : (forall i, (i < n)%nat -> f i = g i) -> f <$> seq 0 n = g <$> seq 0 n.
Proof. intros E. apply list_fmap_ext. intros i x [-> Hx]%lookup_seq. by apply E. Qed.

Section plan_rows.
Context {F : Type} (g : nat) (H Q n : nat) (sm : list (list (list bool))) (ss se : seg_bounds) (bm : Z) (bias : option (list (list F))).
Context (Hsm : mask_shape H Q n sm) (Hss : bounds_shape H n ss) (Hse : bounds_shape H n se) (Hk : same_kind ss se).
Local Abbreviation p := (plan_from_segment_mask g sm ss se bm bias).
Local Abbreviation mr := (1 `max` ((n + 1) / 2))%nat.

Definition row_runs (r : nat) : list (nat * nat) := runs 0 (mask_at sm (r / Q) (r mod Q)).

Lemma row_runs_at h q : (q < Q)%nat -> row_runs (h * Q + q) = runs 0 (mask_at sm h q).
Proof.
  intros Hq. unfold row_runs. rewrite Nat.div_add_l, Nat.div_small, Nat.add_0_r by lia.
  by rewrite Nat.add_comm, Nat.Div0.mod_add, Nat.mod_small.
Qed.

Lemma row_div_lt r : (r < H * Q)%nat -> (r / Q < H)%nat /\ (r mod Q < Q)%nat /\ r = (r / Q * Q + r mod Q)%nat.
Proof.
  intros Hr. destruct Hsm as (_ & _ & _ & HQ). split; [apply Nat.Div0.div_lt_upper_bound; lia|].
  split; [apply Nat.mod_upper_bound; lia|]. pose proof (Nat.div_mod_eq r Q). lia.
Qed.

Lemma row_runs_len r : (r < H * Q)%nat -> (length (row_runs r) <= mr)%nat.
Proof.
  intros Hr. destruct (row_div_lt r Hr) as (H1 & H2 & _). apply max_ranges_enough. by apply (mask_at_length H Q n).
Qed.

Lemma program_eq r : (r < H * Q)%nat ->
  mask_to_ranges_kernel (concat (concat sm)) (seg_flat ss) (seg_flat se) n (stride_segment_head ss n) mr Q n (next_pow2 n) r =
  (imap (fun j x => ((r * mr + j)%nat, seg_at ss (r / Q) x.1)) (row_runs r),
   imap (fun j x => ((r * mr + j)%nat, seg_at se (r / Q) x.2)) (row_runs r), (r, length (row_runs r))).
Proof.
  intros Hr. destruct (row_div_lt r Hr) as (H1 & H2 & E). unfold row_runs in *.
  set (h := (r / Q)%nat) in *. set (q := (r mod Q)%nat) in *. clearbody h q. subst r. unfold mask_to_ranges_kernel.
  rewrite (k_start_stores H Q n sm Hsm h q H1 H2 _ _ (next_pow2_ge n)), (k_end_stores H Q n sm Hsm h q H1 H2 _ _ (next_pow2_ge n)),
    (k_count_eq H Q n sm Hsm h q H1 H2 _ (next_pow2_ge n)).
  assert (stride_segment_head ss n = stride_segment_head se n) as Est by (destruct ss, se; done).
  f_equal. f_equal; apply imap_ext; intros j x Hx; simpl; f_equal.
  - unfold k_range_start. apply (k_bound_eq H Q n sm Hsm h q H1 H2 _ x Hss); [by eapply list_elem_of_lookup_2|].
    apply list_elem_of_lookup_2 in Hx. pose proof (runs_ok_ge _ _ _ (proj1 (runs_wf 0 _)) Hx). lia.
  - unfold k_range_end. rewrite Est.
    apply (k_bound_eq H Q n sm Hsm h q H1 H2 _ x Hse); [by eapply list_elem_of_lookup_2|]. lia.
Qed.

Lemma launch_eq : mask_to_ranges_kernel (concat (concat sm)) (seg_flat ss) (seg_flat se) n (stride_segment_head ss n) mr Q n (next_pow2 n)
    <$> seq 0 (H * Q) =
  (fun r => (row_stores mr (fun r => (fun x => seg_at ss (r / Q) x.1) <$> row_runs r) r,
    row_stores mr (fun r => (fun x => seg_at se (r / Q) x.2) <$> row_runs r) r, (r, length (row_runs r)))) <$> seq 0 (H * Q).
Proof.
  apply list_fmap_seq_ext. intros r Hr. rewrite program_eq by done. unfold row_stores. by rewrite !imap_fmap.
Qed.

(** Runs of the whole grid, cut to the rows that exist. *)
Definition grid_vals (val : nat -> nat * nat -> Z) (r : nat) : list Z := if decide (r < H * Q)%nat then val (r / Q)%nat <$> row_runs r else [].

Lemma stored_rows (val : nat -> nat * nat -> Z) h q : (h < H)%nat -> (q < Q)%nat ->
  reshape3 H Q mr (store_all (replicate (H * (Q * mr)) 0)
    (concat (row_stores mr (fun r => val (r / Q)%nat <$> row_runs r) <$> seq 0 (H * Q)))) !! h ≫= (fun r => r !! q) =
  Some ((val h <$> runs 0 (mask_at sm h q)) ++ replicate (mr - length (runs 0 (mask_at sm h q))) 0).
Proof.
  intros Hh Hq. rewrite lookup_reshape3 by done. f_equal.
  rewrite (list_fmap_seq_ext _ (row_stores mr (grid_vals val))).
  2:{ intros r Hr. unfold row_stores, grid_vals. by rewrite decide_True. }
  replace (H * (Q * mr))%nat with (H * Q * mr)%nat by lia. rewrite lookup_rows_stored; [|intros r; unfold grid_vals; case_decide|nia].
  - unfold grid_vals. rewrite decide_True by nia. rewrite length_fmap, row_runs_at by done.
    by rewrite Nat.div_add_l, Nat.div_small, Nat.add_0_r by lia.
  - rewrite length_fmap. by apply row_runs_len.
  - simpl. lia.
Qed.

Lemma plan_starts_at h q : (h < H)%nat -> (q < Q)%nat ->
  starts_at p h q = ((fun x => seg_at ss h x.1) <$> runs 0 (mask_at sm h q)) ++ replicate (mr - length (runs 0 (mask_at sm h q))) 0.
Proof.
  intros Hh Hq. destruct (mask_shape_dims _ _ _ _ Hsm) as [EQ En]. unfold starts_at, plan_from_segment_mask.
  cbn [range_starts]. rewrite EQ, En, (proj1 Hsm), launch_eq. rewrite <- list_fmap_compose. unfold compose. cbn [fst snd].
  by rewrite (stored_rows (fun h x => seg_at ss h x.1)).
Qed.

Lemma plan_ends_at h q : (h < H)%nat -> (q < Q)%nat ->
  ends_at p h q = ((fun x => seg_at se h x.2) <$> runs 0 (mask_at sm h q)) ++ replicate (mr - length (runs 0 (mask_at sm h q))) 0.
Proof.
  intros Hh Hq. destruct (mask_shape_dims _ _ _ _ Hsm) as [EQ En]. unfold ends_at, plan_from_segment_mask.
  cbn [range_ends]. rewrite EQ, En, (proj1 Hsm), launch_eq. rewrite <- list_fmap_compose. unfold compose. cbn [fst snd].
  by rewrite (stored_rows (fun h x => seg_at se h x.2)).
Qed.

Lemma plan_count_at h q : (h < H)%nat -> (q < Q)%nat -> count_at p h q = length (runs 0 (mask_at sm h q)).
Proof.
  intros Hh Hq. destruct (mask_shape_dims _ _ _ _ Hsm) as [EQ En]. unfold count_at, plan_from_segment_mask.
  cbn [range_counts]. rewrite EQ, En, (proj1 Hsm), launch_eq. rewrite <- list_fmap_compose. unfold compose. cbn [fst snd].
  rewrite lookup_rows_of by done. cbn [mbind option_bind]. rewrite lookup_take_lt, lookup_drop by done.
  rewrite (lookup_store _ _ _ (length (row_runs (h * Q + q)))); [by rewrite row_runs_at| | |rewrite length_replicate; nia].
  - rewrite <- list_fmap_compose. unfold compose. simpl. rewrite list_fmap_id. apply NoDup_seq.
  - apply list_elem_of_fmap. exists (h * Q + q)%nat. split; [done|]. apply elem_of_seq. nia.
Qed.

(** The ranges the attention kernel walks are the runs of the mask row. *)
Lemma plan_ranges h q : (h < H)%nat -> (q < Q)%nat ->
  kept_ranges p h q = (fun r => (seg_at ss h r.1, seg_at se h r.2)) <$> runs 0 (mask_at sm h q).
Proof.
  intros Hh Hq. unfold kept_ranges, row_ranges. rewrite plan_starts_at, plan_ends_at, plan_count_at by done.
  rewrite zip_with_app by (by rewrite !length_fmap). rewrite take_app_length'; [|by rewrite length_zip_with, !length_fmap, Nat.min_id].
  clear. induction (runs 0 _) as [|r rs IH]; csimpl; [done|]. by rewrite IH.
Qed.

End plan_rows.

(** ** Keys *)

Definition in_ranges (rs : list (Z * Z)) (pos : Z) : bool := existsb (fun r => (r.1 <=? pos) && (pos <? r.2)) rs.

(** The keys the ranges list, in the order of the walk. *)
Definition keys_of (rs : list (Z * Z)) : list Z := rs ≫= fun r => zrange r.1 r.2.

Lemma elem_of_zrange x a b : x ∈ zrange a b <-> a <= x < b.
Proof. unfold zrange. rewrite elem_of_seqZ. lia. Qed.

Lemma in_ranges_spec rs pos : in_ranges rs pos = true <-> exists r, r ∈ rs /\ r.1 <= pos < r.2.
Proof.
  unfold in_ranges. rewrite existsb_exists. setoid_rewrite list_elem_of_In. setoid_rewrite andb_true_iff.
  by setoid_rewrite Z.leb_le; setoid_rewrite Z.ltb_lt.
Qed.

Lemma elem_of_keys_of rs pos : pos ∈ keys_of rs <-> in_ranges rs pos = true.
Proof.
  rewrite in_ranges_spec. unfold keys_of. rewrite list_elem_of_bind. setoid_rewrite elem_of_zrange. naive_solver.
Qed.

(** Ranges that follow one another inside [lo, hi). *)
Inductive ranges_ok : Z -> Z -> list (Z * Z) -> Prop :=
| ranges_nil lo hi : ranges_ok lo hi []
| ranges_cons lo hi s e rs : lo <= s -> s <= e -> e <= hi -> ranges_ok e hi rs -> ranges_ok lo hi ((s, e) :: rs).

Lemma ranges_ok_in lo hi rs r : ranges_ok lo hi rs -> r ∈ rs -> lo <= r.1 /\ r.1 <= r.2 /\ r.2 <= hi.
Proof.
  induction 1 as [|lo hi s e rs H1 H2 H3 _ IH]; [set_solver|]. rewrite elem_of_cons. intros [->|Hr]; simpl; [lia|].
  specialize (IH Hr). lia.
Qed.

Lemma StronglySorted_zrange a b : StronglySorted Z.lt (zrange a b).
Proof.
  unfold zrange. remember (Z.to_nat (b - a)) as n eqn:E. revert a E. induction n as [|n IH]; intros a E.
  - rewrite seqZ_nil by lia. constructor.
  - rewrite seqZ_cons by lia. constructor; [replace (Z.pred (b - a)) with (b - Z.succ a) by lia; apply IH; lia|].
    apply Forall_forall. intros x ?%elem_of_seqZ. lia.
Qed.

Lemma StronglySorted_appZ (l k : list Z) : StronglySorted Z.lt l -> StronglySorted Z.lt k ->
  (forall x y, x ∈ l -> y ∈ k -> x < y) -> StronglySorted Z.lt (l ++ k).
Proof.
  induction 1 as [|x l Hs IH Hx]; intros Hk Hlk; [done|]. simpl. constructor; [apply IH; [done|set_solver]|].
  apply Forall_app. split; [done|]. apply Forall_forall. intros y Hy. apply Hlk; [constructor|done].
Qed.

Lemma keys_of_sorted lo hi rs : ranges_ok lo hi rs -> StronglySorted Z.lt (keys_of rs).
Proof.
  induction 1 as [|lo hi s e rs H1 H2 H3 Hrs IH]; [constructor|]. cbn. apply StronglySorted_appZ; [apply StronglySorted_zrange|done|].
  intros x y Hx%elem_of_zrange Hy%elem_of_keys_of. apply in_ranges_spec in Hy as (r & Hr & Hy).
  pose proof (ranges_ok_in _ _ _ _ Hrs Hr). simpl in *. lia.
Qed.

Lemma StronglySorted_ltZ_ext (l k : list Z) :
  StronglySorted Z.lt l -> StronglySorted Z.lt k -> (forall x, x ∈ l <-> x ∈ k) -> l = k.
Proof.
  intros Hl Hk E. assert (forall l, StronglySorted Z.lt l -> NoDup l) as Hnd.
  { clear. induction 1 as [|x l Hs IH Hx]; constructor; [|done]. rewrite Forall_forall in Hx. intros Hin%Hx. lia. }
  assert (AntiSymm eq Z.lt) by (intros x y; lia).
  apply (StronglySorted_unique Z.lt); [done|done|]. apply NoDup_Permutation; auto.
Qed.

Lemma StronglySorted_Zfilter (f : Z -> bool) l : StronglySorted Z.lt l -> StronglySorted Z.lt (filter (fun x => f x = true) l).
Proof.
  induction 1 as [|x l Hs IH Hx]; [constructor|]. rewrite filter_cons. case_decide; [|done].
  constructor; [done|]. rewrite Forall_forall in *. intros y [_ ?]%list_elem_of_filter. auto.
Qed.

(** A walk over ranges in order visits each key of its mask once, in order. *)
Lemma keys_of_filter lo kv rs (f : Z -> bool) : 0 <= lo -> ranges_ok lo kv rs ->
  (forall pos, 0 <= pos < kv -> in_ranges rs pos = f pos) -> keys_of rs = filter (fun x => f x = true) (zrange 0 kv).
Proof.
  intros Hlo Hrs E. apply StronglySorted_ltZ_ext; [by eapply keys_of_sorted|apply StronglySorted_Zfilter, StronglySorted_zrange|].
  intros x. rewrite elem_of_keys_of, list_elem_of_filter, elem_of_zrange. split.
  - intros Hx. assert (0 <= x < kv).
    { apply in_ranges_spec in Hx as (r & Hr & Hx). pose proof (ranges_ok_in _ _ _ _ Hrs Hr). lia. }
    split; [by rewrite <- E|done].
  - intros [Hx Hr]. by rewrite E.
Qed.

(** *** Segments that partition an interval *)

Definition segments_ok (s e : nat -> Z) (n : nat) : Prop :=
  (forall o, (o < n)%nat -> s o <= e o) /\ (forall o, (S o < n)%nat -> e o = s (S o)).

Lemma segments_mono s e n a b : segments_ok s e n -> (a <= b < n)%nat -> s a <= s b /\ e a <= e b.
Proof.
  intros [Hle Heq] [Hab Hb]. induction Hab as [|b Hab IH]; [lia|]. destruct IH as [I1 I2]; [lia|].
  pose proof (Heq b Hb). pose proof (Hle b). pose proof (Hle (S b) Hb). lia.
Qed.

Lemma run_keys s e n a b pos : segments_ok s e n -> (a <= b < n)%nat ->
  s a <= pos < e b <-> exists o, (a <= o <= b)%nat /\ s o <= pos < e o.
Proof.
  intros Hok Hab. split.
  - intros Hpos. remember (b - a)%nat as d eqn:Ed. revert a Hab Hpos Ed. induction d as [|d IH]; intros a Hab Hpos Ed.
    { assert (a = b) as -> by lia. exists b. lia. }
    destruct (Z_lt_le_dec pos (e a)); [exists a; lia|].
    destruct (IH (S a)) as (o & Ho & Hp); [lia| |lia|exists o; lia].
    rewrite <- (proj2 Hok a) by lia. lia.
  - intros (o & Ho & Hp). pose proof (segments_mono _ _ _ a o Hok). pose proof (segments_mono _ _ _ o b Hok). lia.
Qed.

Lemma runs_ranges_ok s e n i rs : segments_ok s e n -> runs_ok i rs -> Forall (fun r => (r.2 < n)%nat) rs -> (i < n)%nat \/ rs = [] ->
  ranges_ok (s i) (e (n - 1)%nat) ((fun r => (s r.1, e r.2)) <$> rs).
Proof.
  intros Hok Hrs. induction Hrs as [|i a b rs Hi Hrs IH]; intros Hn Hin; csimpl; [constructor|].
  apply Forall_cons in Hn as [Hb Hn]. simpl in Hb.
  constructor.
  - apply (segments_mono s e n); [done|lia].
  - simpl. apply Z.le_trans with (s b); [apply (segments_mono s e n); [done|lia]|]. apply Hok; lia.
  - apply (segments_mono s e n); [done|lia].
  - destruct rs as [|[a' b'] rs]; [constructor|]. pose proof (runs_ok_ge _ _ (a', b') Hrs ltac:(constructor)) as Ha. simpl in Ha.
    pose proof Hn as [Hb' _]%Forall_cons. simpl in Hb'.
    assert (ranges_ok (s (S (S b))) (e (n - 1)%nat) ((fun r => (s r.1, e r.2)) <$> (a', b') :: rs)) as Hr by (apply IH; [done|lia]).
    inversion Hr; subst. constructor; [|done..].
    rewrite (proj2 Hok b) by lia. apply Z.le_trans with (s (S (S b))); [|done]. apply (segments_mono s e n); [done|lia].
Qed.

(** [pos] lies in a selected segment. *)
Definition seg_selected (m : list bool) (s e : nat -> Z) (pos : Z) : bool :=
  existsb (fun o => nthb m o && ((s o <=? pos) && (pos <? e o))) (seq 0 (length m)).

Lemma seg_selected_spec m s e pos : seg_selected m s e pos = true <-> exists o, nthb m o = true /\ s o <= pos < e o.
Proof.
  unfold seg_selected. rewrite existsb_exists. setoid_rewrite andb_true_iff. setoid_rewrite andb_true_iff.
  setoid_rewrite Z.leb_le. setoid_rewrite Z.ltb_lt. split.
  - intros (o & _ & Ho & Hp). eauto.
  - intros (o & Ho & Hp). exists o. split; [|done]. apply list_elem_of_In, elem_of_seq. apply nthb_lt in Ho. lia.
Qed.

Lemma runs_in_ranges m s e pos : segments_ok s e (length m) ->
  in_ranges ((fun r => (s r.1, e r.2)) <$> runs 0 m) pos = seg_selected m s e pos.
Proof.
  intros Hok. apply Bool.eq_iff_eq_true. rewrite in_ranges_spec, seg_selected_spec. split.
  - intros (r & ([a b] & -> & Hr)%list_elem_of_fmap & Hp). simpl in Hp.
    pose proof (runs_ok_ge _ _ _ (proj1 (runs_wf 0 m)) Hr) as Hab. pose proof (proj1 (Forall_forall _ _) (runs_lt m) _ Hr) as Hb. simpl in *.
    apply (run_keys s e (length m)) in Hp as (o & Ho & Hp); [|done|lia]. exists o. split; [|done].
    apply run_at, Exists_exists. exists (a, b). done.
  - intros (o & Ho & Hp). apply run_at, Exists_exists in Ho as ([a b] & Hr & Ho). unfold in_run in Ho. simpl in Ho.
    pose proof (proj1 (Forall_forall _ _) (runs_lt m) _ Hr) as Hb. simpl in Hb.
    exists (s a, e b). split; [apply list_elem_of_fmap; by exists (a, b)|]. simpl.
    apply (run_keys s e (length m)); [done|lia|]. eauto.
Qed.

Lemma runs_keys m s e kv : segments_ok s e (length m) -> (0 < length m)%nat -> 0 <= s 0%nat -> e (length m - 1)%nat <= kv ->
  ranges_ok 0 kv ((fun r => (s r.1, e r.2)) <$> runs 0 m) /\
  keys_of ((fun r => (s r.1, e r.2)) <$> runs 0 m) = filter (fun pos => seg_selected m s e pos = true) (zrange 0 kv).
Proof.
  intros Hok Hn H0 Hkv.
  assert (ranges_ok 0 kv ((fun r => (s r.1, e r.2)) <$> runs 0 m)) as Hr.
  { pose proof (runs_ranges_ok s e _ 0 _ Hok (proj1 (runs_wf 0 m)) (runs_lt m) (or_introl Hn)) as Hr.
    remember (fmap _ _) as rs. clear -Hr H0 Hkv. revert H0. generalize dependent (s 0%nat). intros lo Hr Hlo.
    remember (e (length m - 1)%nat) as hi. clear Heqhi. assert (exists lo', 0 <= lo' /\ lo' <= lo) as (lo' & H1 & H2) by (exists 0; lia).
    assert (forall lo', lo' <= lo -> ranges_ok lo' kv rs) as HH; [|apply HH; lia]. clear lo' H1 H2.
    induction Hr as [|lo hi s' e' rs I1 I2 I3 Hr IH]; intros lo' Hl; [constructor|].
    constructor; [lia|lia|lia|]. apply IH; lia. }
  split; [done|]. eapply keys_of_filter; [|exact Hr|]; [lia|]. intros. by apply runs_in_ranges.
Qed.

(** *** The mask a plan denotes *)

Lemma key_mask_row_spec starts ends count kv : length starts = length ends ->
  key_mask_row starts ends count kv = in_ranges (row_ranges starts ends count) <$> zrange 0 kv.
Proof.
  intros Hl. unfold key_mask_row. apply list_fmap_ext. intros _ pos _. apply Bool.eq_iff_eq_true.
  rewrite in_ranges_spec, existsb_exists. setoid_rewrite andb_true_iff. setoid_rewrite andb_true_iff.
  setoid_rewrite Z.leb_le. setoid_rewrite Z.ltb_lt. setoid_rewrite Nat.ltb_lt. unfold row_ranges. split.
  - intros ([i [s e]] & Hin & Hi & Hp). apply list_elem_of_In in Hin. apply list_elem_of_lookup in Hin as [j Hj].
    apply lookup_zip_with_Some in Hj as (i' & [s' e'] & Ej & [-> _]%lookup_seq & Hj). simplify_eq/=.
    exists (s', e'). split; [|done]. apply list_elem_of_lookup. exists j. rewrite lookup_take_lt by lia. done.
  - intros ([s e] & Hin & Hp). apply list_elem_of_lookup in Hin as [j Hj].
    apply lookup_take_Some in Hj as [Hj Hjc]. exists (j, (s, e)). split; [|done]. apply list_elem_of_In.
    apply list_elem_of_lookup. exists j. apply lookup_zip_with_Some. exists j, (s, e). split_and!; [done| |done].
    apply lookup_seq_lt. apply lookup_zip_with_Some in Hj as (? & ? & _ & Hs & _). by apply lookup_lt_Some in Hs.
Qed.
