(* ===== verification/SparseKernel.v ===== *)
(** * SparseKernel: the attention kernels

    Models the Triton kernels of the sparse attention package: the range
    kernel of [kernel.py] with its wrapper [sparse_attention], the uniform
    block kernel of [block_kernel.py] with its plans and its wrapper, and the
    two kernels of [msa_kernel.py].  A tensor [batch, tokens, heads, head_dim]
    is a function from batch, token and head to a vector; strides and warps
    are the business of the compiler.  All operations of a program act on the
    rows of its query tile independently, so a program maps one query row to
    its output.  Numbers are exact ([Num]); the special values of IEEE
    arithmetic are kept, because the kernels start from minus infinity. *)

From S2P Require Import Prelude Num SparsePlan.
Import NumNotations.

Open Scope Z_scope.

(** ** Special values *)

Inductive xf (F : Type) := Fin (x : F) | NInf | PInf | NaN.
Arguments Fin {F}.
Arguments NInf {F}.
Arguments PInf {F}.
Arguments NaN {F}.

Section xf.
Context {F : Type} `{Num F}.

Definition nis0 (x : F) : bool := (nleb x nzero && nleb nzero x).

Definition xopp (a : xf F) : xf F :=
  match a with Fin x => Fin (nopp x) | NInf => PInf | PInf => NInf | NaN => NaN end.

Definition xadd (a b : xf F) : xf F :=
  match a, b with
  | NaN, _ | _, NaN | NInf, PInf | PInf, NInf => NaN
  | Fin x, Fin y => Fin (nadd x y)
  | NInf, _ | _, NInf => NInf
  | PInf, _ | _, PInf => PInf
  end.

Definition xsub (a b : xf F) : xf F := xadd a (xopp b).

(** The sign of a value times an infinity. *)
Definition xinf_mul (x : F) (pos : bool) : xf F :=
  if nis0 x then NaN else if Bool.eqb (nltb nzero x) pos then PInf else NInf.

Definition xmul (a b : xf F) : xf F :=
  match a, b with
  | NaN, _ | _, NaN => NaN
  | Fin x, Fin y => Fin (nmul x y)
  | Fin x, PInf | PInf, Fin x => xinf_mul x true
  | Fin x, NInf | NInf, Fin x => xinf_mul x false
  | PInf, PInf | NInf, NInf => PInf
  | PInf, NInf | NInf, PInf => NInf
  end.

Definition xdiv (a b : xf F) : xf F :=
  match a, b with
  | NaN, _ | _, NaN | PInf, PInf | PInf, NInf | NInf, PInf | NInf, NInf => NaN
  | Fin x, Fin y => if nis0 y then (if nis0 x then NaN else if nltb nzero x then PInf else NInf) else Fin (ndiv x y)
  | Fin _, _ => Fin nzero
  | PInf, Fin y => if nltb y nzero then NInf else PInf
  | NInf, Fin y => if nltb y nzero then PInf else NInf
  end.

(** [tl.maximum]: a NaN operand is ignored. *)
Definition xmax (a b : xf F) : xf F :=
  match a, b with
  | NaN, c | c, NaN => c
  | PInf, _ | _, PInf => PInf
  | NInf, c | c, NInf => c
  | Fin x, Fin y => Fin (nmax x y)
  end.

Definition xis0 (a : xf F) : bool := match a with Fin x => nis0 x | _ => false end.

Definition xsum (l : list (xf F)) : xf F := foldr xadd (Fin nzero) l.
Definition xmaximum (l : list (xf F)) : xf F := foldr xmax NInf l.

Definition xexp2 `{!NumExp F} (a : xf F) : xf F :=
  match a with Fin x => Fin (exp2 x) | NInf => Fin nzero | PInf => PInf | NaN => NaN end.

End xf.

(** ** Online softmax *)

Section kernels.
Context {F : Type} `{NumExp F}.

(** [batch, token, head] to a vector of [head_dim] numbers. *)
Definition tensor4 : Type := nat -> Z -> nat -> list F.

Definition LOG2_E : F := ndiv (of_Z 14426950408889634) (of_Z 10000000000000000).

Definition dot (a b : list F) : F := nsum (zip_with nmul a b).
Definition zeros (d : nat) : list F := replicate d nzero.

(** The running maximum, normaliser and accumulator of one query row. *)
Record row_state := mkRow { row_max : xf F; row_sum : xf F; acc : list (xf F) }.

Definition row_init (d : nat) : row_state := mkRow NInf (Fin nzero) (replicate d (Fin nzero)).

(** [tl.dot(probs, v_tile)] for one row. *)
Definition dot_pv (d : nat) (probs : list (xf F)) (v_tile : list (list F)) : list (xf F) :=
  (fun j => xsum (zip_with (fun p v => xmul p (Fin (default nzero (v !! j)))) probs v_tile)) <$> seq 0 d.

(** The recurrence of one key tile, given its logits and values. *)
Definition softmax_step (d : nat) (qk : list (xf F)) (v_tile : list (list F)) (st : row_state) : row_state :=
  let new_max := xmax (row_max st) (xmaximum qk) in
  let rescale := xexp2 (xsub (row_max st) new_max) in
  let probs := (fun x => xexp2 (xsub x new_max)) <$> qk in
  mkRow new_max (xadd (xmul (row_sum st) rescale) (xsum probs))
    (zip_with xadd ((fun a => xmul a rescale) <$> acc st) (dot_pv d probs v_tile)).

(** [acc / where(row_sum == 0, 1, row_sum)]. *)
Definition row_finish (st : row_state) : list (xf F) :=
  (fun a => xdiv a (if xis0 (row_sum st) then Fin none else row_sum st)) <$> acc st.

(** ** The range kernel (kernel.py) *)

Section range_kernel.
Context (BLOCK_N : Z) (HEAD_DIM : nat) (qk_scale : F).
Context (k v : Z -> list F) (bias : option (Z -> F)).

(** The tile at [tile_start] of a range that ends at [range_end]. *)
Definition masked_tile_step (base tile_start range_end : Z) (q : list F) (st : row_state) : row_state :=
  let lanes := (fun c => (base + tile_start + c, tile_start + c <? range_end)) <$> zrange 0 BLOCK_N in
  let k_tile := (fun n : Z * bool => if n.2 then k n.1 else zeros HEAD_DIM) <$> lanes in
  let qk := (fun kn => nmul (dot q kn) qk_scale) <$> k_tile in
  let qk := match bias with
            | Some b => zip_with (fun x (n : Z * bool) => nadd x (nmul (if n.2 then b n.1 else nzero) LOG2_E)) qk lanes
            | None => qk
            end in
  let qk := zip_with (fun x (n : Z * bool) => if n.2 then Fin x else NInf) qk lanes in
  let v_tile := (fun n : Z * bool => if n.2 then v n.1 else zeros HEAD_DIM) <$> lanes in
  softmax_step HEAD_DIM qk v_tile st.

Definition range_step (base : Z) (q : list F) (st : row_state) (r : Z * Z) : row_state :=
  foldl (fun st tile_start => masked_tile_step base tile_start r.2 q st) st (zrange_step r.1 r.2 BLOCK_N).

Definition range_row (ranges : list (Z * Z)) (q : list F) : list (xf F) :=
  row_finish (foldl (range_step 0 q) (row_init HEAD_DIM) ranges).
End range_kernel.

(** Stores of a launch: the programs run in some order. *)
Definition store_out (m : gmap (nat * Z * nat) (list (xf F))) (ws : list ((nat * Z * nat) * list (xf F))) :=
  foldl (fun m w => <[w.1 := w.2]> m) m ws.

Definition run_grid {P} (prog : P -> list ((nat * Z * nat) * list (xf F))) (order : list P) : gmap (nat * Z * nat) (list (xf F)) :=
  foldl (fun m pid => store_out m (prog pid)) ∅ order.

(** [grid = (a, b)]. *)
Definition grid2 (a b : nat) : list (nat * nat) := seq 0 b ≫= fun y => (fun x => (x, y)) <$> seq 0 a.

(** The constant [_BLOCK_N] of the package. *)
Definition RANGE_BLOCK_N : Z := 64.

(** One program of [_range_sparse_attn_kernel]. *)
Definition range_sparse_attn_kernel (query key value : tensor4) (p : SparseAttentionPlan F)
    (num_heads : nat) (q_len : Z) (softmax_scale : F) (HEAD_DIM : nat) (pid : nat * nat) : list ((nat * Z * nat) * list (xf F)) :=
  let '(pid_m, pid_bh) := pid in
  let batch := (pid_bh / num_heads)%nat in
  let head := (pid_bh mod num_heads)%nat in
  let qk_scale := nmul softmax_scale LOG2_E in
  let q_block := if shared_q_block p then 0%nat else pid_m in
  let starts := default [] (range_starts p !! head ≫= fun r => r !! q_block) in
  let ends := default [] (range_ends p !! head ≫= fun r => r !! q_block) in
  let num_ranges := default 0%nat (range_counts p !! head ≫= fun r => r !! q_block) in
  let bias := match logit_bias p with
              | Some b => Some (fun n => default nzero (b !! head ≫= fun r => r !! Z.to_nat n))
              | None => None
              end in
  omap (fun r =>
    let offs_m := Z.of_nat pid_m * block_m p + r in
    if offs_m <? q_len
    then Some ((batch, offs_m, head),
      range_row RANGE_BLOCK_N HEAD_DIM qk_scale (fun n => key batch n head) (fun n => value batch n head) bias
        (row_ranges starts ends num_ranges) (query batch offs_m head))
    else None) (zrange 0 (block_m p)).

(** [sparse_attention]; [order] is the order the programs of the grid run in. *)
Definition sparse_attention (order : list (nat * nat) -> list (nat * nat)) (batch num_heads : nat) (q_len : Z) (head_dim : nat)
    (query key value : tensor4) (p : SparseAttentionPlan F) (softmax_scale : F) : res (gmap (nat * Z * nat) (list (xf F))) :=
  if negb (shared_q_block p) && negb (Z.of_nat (q_blocks p) =? cdiv q_len (block_m p)) then Raise ValueError
  else Ok (run_grid (range_sparse_attn_kernel query key value p num_heads q_len softmax_scale head_dim)
    (order (grid2 (Z.to_nat (cdiv q_len (block_m p))) (batch * num_heads)))).

(** ** The block kernel (block_kernel.py) *)

Section block_kernel.
Context (BLOCK_N : Z) (HEAD_DIM : nat) (qk_scale : F) (k v : Z -> list F).

(** One full block of keys on one chain: no masking. *)
Definition block_step (q : list F) (s : Z) (st : row_state) : row_state :=
  let n := (fun c => s + c) <$> zrange 0 BLOCK_N in
  softmax_step HEAD_DIM ((fun i => Fin (nmul (dot q (k i)) qk_scale)) <$> n) (v <$> n) st.

(** The exact merge of the two chains. *)
Definition merge_chains (s0 s1 : row_state) : row_state :=
  let m := xmax (row_max s0) (row_max s1) in
  let w0 := xexp2 (xsub (row_max s0) m) in
  let w1 := xexp2 (xsub (row_max s1) m) in
  mkRow m (xadd (xmul (row_sum s0) w0) (xmul (row_sum s1) w1))
    (zip_with xadd ((fun a => xmul a w0) <$> acc s0) ((fun a => xmul a w1) <$> acc s1)).

Definition block_row (starts : list Z) (q : list F) : list (xf F) :=
  let n_blocks := length starts in
  let s i := default 0 (starts !! i) in
  let half := (n_blocks / 2)%nat in
  let '(c0, c1) := foldl (fun c index => (block_step q (s (2 * index)%nat) c.1, block_step q (s (2 * index + 1)%nat) c.2))
    (row_init HEAD_DIM, row_init HEAD_DIM) (seq 0 half) in
  let c0 := if Nat.eqb (n_blocks mod 2) 1 then block_step q (s (n_blocks - 1)%nat) c0 else c0 in
  row_finish (merge_chains c0 c1).
End block_kernel.

Record BlockSparsePlan := mkBlockPlan {
  starts : list (list (list Z));  (* [heads, q_tiles_per_frame, n_blocks] *)
  q_tiles_per_frame : nat;
  bp_frame_seqlen : Z;
  query_tile : Z;
  key_tile : Z;
  bp_kept_tokens : Z;
  bp_density : F }.

(** One program of [_block_sparse_attn_kernel]. *)
Definition block_sparse_attn_kernel (query key value : tensor4) (p : BlockSparsePlan) (num_heads num_q_frames : nat)
    (softmax_scale : F) (HEAD_DIM : nat) (pid : nat * nat) : list ((nat * Z * nat) * list (xf F)) :=
  let '(pid_m, pid_bh) := pid in
  let batch := (pid_bh / num_heads)%nat in
  let head := (pid_bh mod num_heads)%nat in
  let q_tile := (pid_m / num_q_frames)%nat in
  let q_frame := (pid_m mod num_q_frames)%nat in
  let tile_base := Z.of_nat q_tile * query_tile p in
  let qk_scale := nmul softmax_scale LOG2_E in
  let row := default [] (starts p !! head ≫= fun r => r !! q_tile) in
  omap (fun r =>
    let offs_m := Z.of_nat q_frame * bp_frame_seqlen p + tile_base + r in
    if tile_base + r <? bp_frame_seqlen p
    then Some ((batch, offs_m, head),
      block_row (key_tile p) HEAD_DIM qk_scale (fun n => key batch n head) (fun n => value batch n head) row (query batch offs_m head))
    else None) (zrange 0 (query_tile p)).

Definition block_sparse_attention (order : list (nat * nat) -> list (nat * nat)) (batch heads : nat) (q_len : Z) (head_dim : nat)
    (query key value : tensor4) (p : BlockSparsePlan) (softmax_scale : F) : res (gmap (nat * Z * nat) (list (xf F))) :=
  let query_frames := q_len / bp_frame_seqlen p in
  let ragged := q_len mod bp_frame_seqlen p in
  if negb (ragged =? 0) then Raise ValueError
  else Ok (run_grid (block_sparse_attn_kernel query key value p heads (Z.to_nat query_frames) softmax_scale head_dim)
    (order (grid2 (Z.to_nat query_frames * q_tiles_per_frame p) (batch * heads)))).

(** *** Block plans *)

Definition zsort (l : list Z) : list Z := merge_sort Z.le l.

(** Starts of the full tiles of whole frames. *)
Definition whole_frame_starts (whole_offsets : list Z) (frame_seqlen kt : Z) : list Z :=
  let full_tiles := frame_seqlen / kt in
  let within := (fun i => i * kt) <$> zrange 0 full_tiles in
  whole_offsets ≫= fun o => (fun w => o + w) <$> within.

Definition build_block_plan (tiles : list (list (list Z))) (hist_offsets whole_offsets : list Z) (frame_seqlen qt kt kv_len : Z)
    (hist_tile_counts : option (list Z)) : BlockSparsePlan :=
  let whole_starts := whole_frame_starts whole_offsets frame_seqlen kt in
  let hist_starts (row : list Z) :=
    match hist_tile_counts with
    | None => hist_offsets ≫= fun o => (fun t => o + t * kt) <$> zsort row
    | Some counts => concat (zip_with (fun index o =>
        (fun t => o + t * kt) <$> zsort (take (Z.to_nat (default 0 (counts !! index))) row))
        (seq 0 (length hist_offsets)) hist_offsets)
    end in
  let st : list (list (list Z)) := (fun h : list (list Z) => (fun row => whole_starts ++ hist_starts row) <$> h) <$> tiles in
  let n := length (default [] (head (default [] (head st)))) in
  let kept := Z.of_nat n * kt in
  mkBlockPlan st (length (default [] (head tiles))) frame_seqlen qt kt kept (ndiv (of_Z kept) (of_Z kv_len)).

Definition build_measured_block_plan (tile_starts : list (list (list Z))) (whole_offsets : list Z) (frame_seqlen qt kt kv_len : Z) : BlockSparsePlan :=
  let whole_starts := whole_frame_starts whole_offsets frame_seqlen kt in
  let st : list (list (list Z)) := (fun h : list (list Z) => (fun row => zsort (whole_starts ++ row)) <$> h) <$> tile_starts in
  let n := length (default [] (head (default [] (head st)))) in
  let kept := Z.of_nat n * kt in
  mkBlockPlan st (length (default [] (head tile_starts))) frame_seqlen qt kt kept (ndiv (of_Z kept) (of_Z kv_len)).

(** ** The kernels of mixed sparse attention (msa_kernel.py) *)

(** The static kernel replicates within-frame ranges over the frames. *)
Definition msa_static_row (HEAD_DIM : nat) (qk_scale : F) (k v : Z -> list F)
    (frame_lo frame_step frame_tail num_frames frame_seqlen : Z) (ranges : list (Z * Z)) (q : list F) : list (xf F) :=
  let frame_body st frame := foldl (range_step RANGE_BLOCK_N HEAD_DIM qk_scale k v None (frame * frame_seqlen) q) st ranges in
  let st := foldl frame_body (row_init HEAD_DIM) (zrange_step frame_lo (num_frames - frame_tail) frame_step) in
  row_finish (foldl frame_body st (zrange (num_frames - frame_tail) num_frames)).

(** One program of [_msa_static_kernel]. *)
Definition msa_static_kernel (query key value : tensor4) (head_ids : list nat) (frame_lo frame_step frame_tail : list Z)
    (ranges : list (list (list (Z * Z)))) (counts : list (list nat)) (num_frames frame_seqlen q_len : Z)
    (softmax_scale : F) (bm : Z) (HEAD_DIM : nat) (pid : nat * nat) : list ((nat * Z * nat) * list (xf F)) :=
  let '(pid_m, pid_bg) := pid in
  let num_groups := length head_ids in
  let batch := (pid_bg / num_groups)%nat in
  let group := (pid_bg mod num_groups)%nat in
  let head := default 0%nat (head_ids !! group) in
  let qk_scale := nmul softmax_scale LOG2_E in
  let row := default [] (ranges !! group ≫= fun r => r !! pid_m) in
  let num_ranges := default 0%nat (counts !! group ≫= fun r => r !! pid_m) in
  omap (fun r =>
    let offs_m := Z.of_nat pid_m * bm + r in
    if offs_m <? q_len
    then Some ((batch, offs_m, head),
      msa_static_row HEAD_DIM qk_scale (fun n => key batch n head) (fun n => value batch n head)
        (default 0 (frame_lo !! group)) (default 0 (frame_step !! group)) (default 0 (frame_tail !! group))
        num_frames frame_seqlen (take num_ranges row) (query batch offs_m head))
    else None) (zrange 0 bm).

(** One program of [_msa_content_kernel]. *)
Definition msa_content_kernel (query key value : tensor4) (head_ids : list nat)
    (rstarts rends : list (list (list Z))) (rcounts : list (list nat)) (q_len : Z)
    (softmax_scale : F) (bm : Z) (HEAD_DIM : nat) (pid : nat * nat) : list ((nat * Z * nat) * list (xf F)) :=
  let '(pid_m, pid_bg) := pid in
  let num_groups := length head_ids in
  let batch := (pid_bg / num_groups)%nat in
  let group := (pid_bg mod num_groups)%nat in
  let head := default 0%nat (head_ids !! group) in
  let qk_scale := nmul softmax_scale LOG2_E in
  let st := default [] (rstarts !! group ≫= fun r => r !! pid_m) in
  let en := default [] (rends !! group ≫= fun r => r !! pid_m) in
  let num_ranges := default 0%nat (rcounts !! group ≫= fun r => r !! pid_m) in
  omap (fun r =>
    let offs_m := Z.of_nat pid_m * bm + r in
    if offs_m <? q_len
    then Some ((batch, offs_m, head),
      range_row RANGE_BLOCK_N HEAD_DIM qk_scale (fun n => key batch n head) (fun n => value batch n head) None
        (row_ranges st en num_ranges) (query batch offs_m head))
    else None) (zrange 0 bm).

Definition msa_static_attention (order : list (nat * nat) -> list (nat * nat)) (out : gmap (nat * Z * nat) (list (xf F)))
    (batch : nat) (q_len : Z) (head_dim : nat) (query key value : tensor4) (head_ids : list nat)
    (frame_lo frame_step frame_tail : list Z) (ranges : list (list (list (Z * Z)))) (counts : list (list nat))
    (num_frames frame_seqlen bm : Z) (softmax_scale : F) : gmap (nat * Z * nat) (list (xf F)) :=
  foldl (fun m pid => store_out m (msa_static_kernel query key value head_ids frame_lo frame_step frame_tail ranges counts
    num_frames frame_seqlen q_len softmax_scale bm head_dim pid)) out
    (order (grid2 (Z.to_nat (cdiv q_len bm)) (batch * length head_ids))).

Definition msa_content_attention (order : list (nat * nat) -> list (nat * nat)) (out : gmap (nat * Z * nat) (list (xf F)))
    (batch : nat) (q_len : Z) (head_dim : nat) (query key value : tensor4) (head_ids : list nat)
    (rstarts rends : list (list (list Z))) (rcounts : list (list nat)) (bm : Z) (softmax_scale : F) : gmap (nat * Z * nat) (list (xf F)) :=
  foldl (fun m pid => store_out m (msa_content_kernel query key value head_ids rstarts rends rcounts q_len softmax_scale bm head_dim pid)) out
    (order (grid2 (Z.to_nat (cdiv q_len bm)) (batch * length head_ids))).

End kernels.
Arguments tensor4 : clear implicits.
Arguments row_state : clear implicits.
Arguments BlockSparsePlan : clear implicits.
