(* ===== verification/SparseKernelSpec.v ===== *)
(** * SparseKernelSpec: online softmax is softmax

    The running maximum of the kernels never matters for the result: after
    any number of tiles the state of a row stands for the sums over the keys
    visited so far, scaled by the exponential of some finite number. *)

From Stdlib Require Import Field.
From S2P Require Import Prelude Num SparsePlan SparsePlanSpec SparseKernel.
Import NumNotations.

Open Scope Z_scope.

Section softmax.
Context {F : Type} `{!Num F} `{!NumExp F} `{!NumLaws F} `{!NumExpLaws F}.
Add Field NumFieldK : (num_field (F:=F)).
Implicit Types (ps : list (F * list F)) (st : row_state F).

Lemma exp2_shift (s M M' : F) : nmul (exp2 (nadd M (nopp M'))) (exp2 (nadd s (nopp M))) = exp2 (nadd s (nopp M')).
Proof. rewrite <- exp2_add. f_equal. ring. Qed.

Lemma exp2_0 : exp2 (nzero (F:=F)) = none.
Proof.
  pose proof (exp2_add nzero nzero) as E. replace (nadd nzero nzero) with (nzero (F:=F)) in E by ring.
  pose proof (nlt_ne _ _ (exp2_pos nzero)) as Hne.
  replace (exp2 nzero) with (ndiv (nmul (exp2 nzero) (exp2 nzero)) (exp2 nzero)) by (by field; symmetry).
  rewrite <- E. by field; symmetry.
Qed.

(** Weighted sums of the visited keys, relative to [M]. *)
Definition wsum (M : F) ps : F := nsum ((fun p => exp2 (nadd p.1 (nopp M))) <$> ps).
Definition coord (v : list F) (j : nat) : F := default nzero (v !! j).
Definition vsum (M : F) (j : nat) ps : F := nsum ((fun p => nmul (exp2 (nadd p.1 (nopp M))) (coord p.2 j)) <$> ps).

Lemma wsum_shift M M' ps : nmul (wsum M ps) (exp2 (nadd M (nopp M'))) = wsum M' ps.
Proof.
  unfold wsum. induction ps as [|p ps IH]; csimpl; [cbn; ring|]. cbn [nsum foldr] in *.
  change (foldr nadd nzero) with (nsum (F:=F)) in *. rewrite <- IH, <- (exp2_shift p.1 M M'). ring.
Qed.

Lemma vsum_shift M M' j ps : nmul (vsum M j ps) (exp2 (nadd M (nopp M'))) = vsum M' j ps.
Proof.
  unfold vsum. induction ps as [|p ps IH]; csimpl; [cbn; ring|]. cbn [nsum foldr] in *.
  change (foldr nadd nzero) with (nsum (F:=F)) in *. rewrite <- IH, <- (exp2_shift p.1 M M'). ring.
Qed.

Lemma wsum_concat M ps ps' : wsum M (ps ++ ps') = nadd (wsum M ps) (wsum M ps').
Proof. unfold wsum. by rewrite fmap_app, nsum_app. Qed.

Lemma vsum_app M j ps ps' : vsum M j (ps ++ ps') = nadd (vsum M j ps) (vsum M j ps').
Proof. unfold vsum. by rewrite fmap_app, nsum_app. Qed.

Lemma wsum_pos M ps : ps <> [] -> nlt nzero (wsum M ps).
Proof.
  intros Hps. unfold wsum. apply nsum_pos; [by destruct ps|]. apply Forall_fmap, Forall_true. intros p. apply exp2_pos.
Qed.

(** The state of a row after visiting [ps]. *)
Definition row_at (d : nat) (M : F) ps st : Prop :=
  row_max st = Fin M /\ row_sum st = Fin (wsum M ps) /\ acc st = (fun j => Fin (vsum M j ps)) <$> seq 0 d.

Definition row_inv (d : nat) ps st : Prop := (ps = [] /\ st = row_init d) \/ (ps <> [] /\ exists M, row_at d M ps st).

(** Lanes of a tile: [None] is masked out. *)
Definition lane_qk (o : option (F * list F)) : xf F := match o with Some p => Fin p.1 | None => NInf end.
Definition lane_v (d : nat) (o : option (F * list F)) : list F := match o with Some p => p.2 | None => zeros d end.

Lemma xmax_fin (a : xf F) (M : F) : (exists x, a = Fin x) \/ a = NInf -> exists M', xmax a (Fin M) = Fin M'.
Proof. intros [[x ->]| ->]; simpl; eauto. Qed.

Lemma xmaximum_lanes lanes : omap id lanes <> [] -> exists M, xmaximum (lane_qk <$> lanes) = Fin M.
Proof.
  induction lanes as [|o lanes IH]; csimpl; [done|]. destruct o as [p|]; simpl; intros Hne.
  - change (exists M, xmax (Fin p.1) (xmaximum (lane_qk <$> lanes)) = Fin M).
    destruct (decide (omap id lanes = [])) as [E|Hne'].
    + assert (xmaximum (lane_qk <$> lanes) = NInf) as ->; [|simpl; eauto].
      clear -E. induction lanes as [|[p|] lanes IH]; csimpl in *; [done|done|].
      change (xmax NInf (xmaximum (lane_qk <$> lanes)) = NInf). by rewrite (IH E).
    + destruct (IH Hne') as [M ->]. simpl. eauto.
  - change (exists M, xmax NInf (xmaximum (lane_qk <$> lanes)) = Fin M). destruct (IH Hne) as [M ->]. simpl. eauto.
Qed.

Lemma xsum_lanes M lanes : xsum ((fun x => xexp2 (xsub x (Fin M))) <$> (lane_qk <$> lanes)) = Fin (wsum M (omap id lanes)).
Proof.
  unfold wsum. induction lanes as [|o lanes IH]; csimpl; [done|]. cbn [xsum foldr] in *. change (foldr xadd (Fin nzero)) with (xsum (F:=F)).
  rewrite IH. destruct o as [p|]; csimpl; [done|]. cbn. f_equal. ring.
Qed.

Lemma dot_pv_lanes d M lanes :
  dot_pv d ((fun x => xexp2 (xsub x (Fin M))) <$> (lane_qk <$> lanes)) (lane_v d <$> lanes) =
  (fun j => Fin (vsum M j (omap id lanes))) <$> seq 0 d.
Proof.
  unfold dot_pv. apply list_fmap_ext. intros _ j _. unfold vsum. induction lanes as [|o lanes IH]; csimpl; [done|].
  cbn [xsum foldr zip_with] in *. change (foldr xadd (Fin nzero)) with (xsum (F:=F)). rewrite IH.
  destruct o as [p|]; csimpl; [done|]. cbn. f_equal. unfold zeros.
  replace (default nzero (replicate d (nzero (F:=F)) !! j)) with (nzero (F:=F)).
  2:{ destruct (decide (j < d)%nat); [by rewrite lookup_replicate_2|]. rewrite lookup_ge_None_2; [done|]. rewrite length_replicate. lia. }
  ring.
Qed.

Lemma zip_with_fmap_seq {A B C} (f : A -> B -> C) (g : nat -> A) (h : nat -> B) d :
  zip_with f (g <$> seq 0 d) (h <$> seq 0 d) = (fun j => f (g j) (h j)) <$> seq 0 d.
Proof. rewrite zip_with_fmap_l, zip_with_fmap_r. induction (seq 0 d) as [|x l IH]; csimpl; [done|]. by rewrite IH. Qed.

Lemma row_init_acc d : acc (row_init d) = (fun _ => Fin nzero) <$> seq 0 d :> list (xf F).
Proof. cbn. apply list_eq. intros j. rewrite list_lookup_fmap. destruct (decide (j < d)%nat).
  - by rewrite lookup_replicate_2, lookup_seq_lt by done.
  - rewrite lookup_seq_ge, lookup_ge_None_2; [done|rewrite length_replicate|]; lia.
Qed.

(** One tile: the maximum becomes some finite number, the sums grow by the valid lanes. *)
Lemma softmax_step_inv d ps st lanes : row_inv d ps st -> omap id lanes <> [] ->
  row_inv d (ps ++ omap id lanes) (softmax_step d (lane_qk <$> lanes) (lane_v d <$> lanes) st).
Proof.
  intros Hst Hne. destruct (xmaximum_lanes lanes Hne) as [M0 E0].
  right. split; [by destruct ps, (omap id lanes)|]. unfold softmax_step. rewrite E0.
  destruct Hst as [[-> ->]|(Hps & M & EM & ES & EA)].
  - exists M0. cbn [row_init row_max row_sum xmax app xsub xopp xadd xexp2]. unfold row_at. cbn [row_max row_sum acc].
    rewrite xsum_lanes, dot_pv_lanes. split_and!; [done|cbn; f_equal; ring|].
    change (replicate d (Fin nzero)) with (acc (row_init (F:=F) d)). rewrite row_init_acc, <- list_fmap_compose, zip_with_fmap_seq.
    apply list_fmap_ext. intros _ j _. cbn. f_equal. ring.
  - rewrite EM, ES, EA. cbn [xmax]. set (M' := nmax M M0). exists M'.
    cbn [xsub xopp xadd xexp2]. unfold row_at. cbn [row_max row_sum acc]. fold (xsub (F:=F)).
    rewrite xsum_lanes, dot_pv_lanes, wsum_concat. split_and!; [done|cbn; by rewrite wsum_shift|].
    rewrite <- list_fmap_compose, zip_with_fmap_seq. apply list_fmap_ext. intros _ j _. cbn. by rewrite vsum_app, vsum_shift.
Qed.

(** *** The softmax reference *)

(** Attention over a list of keys: values weighted by the exponentials of the logits. *)
Definition attend_keys (d : nat) (logit : Z -> F) (v : Z -> list F) (keys : list Z) : list (xf F) :=
  (fun j => Fin (ndiv (nsum ((fun n => nmul (exp2 (logit n)) (coord (v n) j)) <$> keys)) (nsum ((fun n => exp2 (logit n)) <$> keys))))
    <$> seq 0 d.

#[global] Instance attend_keys_perm d logit v : Proper ((≡ₚ) ==> eq) (attend_keys d logit v).
Proof. intros l k E. unfold attend_keys. apply list_fmap_ext. intros _ j _. by rewrite E. Qed.

Definition item (logit : Z -> F) (v : Z -> list F) (n : Z) : F * list F := (logit n, v n).

Lemma nis0_false x : nlt nzero x -> nis0 x = false :> bool.
Proof. intros Hx. unfold nis0. rewrite nlt_alt in Hx. by rewrite Hx. Qed.

Lemma row_finish_inv d logit v keys st : row_inv d (item logit v <$> keys) st -> keys <> [] ->
  row_finish st = attend_keys d logit v keys.
Proof.
  intros [[E _]|(Hne & M & EM & ES & EA)] Hk; [by destruct keys|]. unfold row_finish, attend_keys. rewrite ES, EA.
  pose proof (wsum_pos M _ Hne) as HW. cbn [xis0]. rewrite (nis0_false _ HW). rewrite <- list_fmap_compose. apply list_fmap_ext.
  intros _ j _. cbn [compose xdiv]. rewrite (nis0_false _ HW). f_equal.
  assert (forall l, wsum nzero (item logit v <$> l) = nsum ((fun n => exp2 (logit n)) <$> l)) as E1.
  { intros l. unfold wsum. rewrite <- list_fmap_compose. f_equal. apply list_fmap_ext. intros _ x _. cbn. f_equal. ring. }
  assert (forall l, vsum nzero j (item logit v <$> l) = nsum ((fun n => nmul (exp2 (logit n)) (coord (v n) j)) <$> l)) as E2.
  { intros l. unfold vsum. rewrite <- list_fmap_compose. f_equal. apply list_fmap_ext. intros _ x _. cbn. f_equal. f_equal. ring. }
  rewrite <- E1, <- E2, <- (wsum_shift M nzero), <- (vsum_shift M nzero).
  pose proof (nlt_ne _ _ HW). pose proof (nlt_ne _ _ (exp2_pos (nadd M (nopp nzero)))). field. split; congruence.
Qed.

Lemma row_finish_empty d : row_finish (row_init d) = replicate d (Fin nzero) :> list (xf F).
Proof.
  unfold row_finish. cbn. assert (nis0 (nzero (F:=F)) = true) as -> by (unfold nis0; by rewrite nle_refl).
  rewrite fmap_replicate. f_equal. cbn. rewrite (nis0_false none nlt_0_1). f_equal. field. apply (F_1_neq_0 num_field).
Qed.

(** ** Tiles of a range *)

Lemma zrange_cons a b : a < b -> zrange a b = a :: zrange (a + 1) b.
Proof. intros. unfold zrange. rewrite seqZ_cons by lia. repeat f_equal; lia. Qed.

Lemma zrange_nil a b : b <= a -> zrange a b = [].
Proof. intros. unfold zrange. apply seqZ_nil. lia. Qed.

Lemma cdiv_nonpos a b : 0 < b -> a <= 0 -> cdiv a b <= 0.
Proof. intros. unfold cdiv. assert (0 <= - a / b) by (apply Z.div_pos; lia). lia. Qed.

Lemma cdiv_step a b : 0 < b -> cdiv a b = cdiv (a - b) b + 1.
Proof. intros. unfold cdiv. replace (- (a - b)) with (- a + 1 * b) by lia. rewrite Z.div_add by lia. lia. Qed.

Lemma cdiv_pos a b : 0 < b -> 0 < a -> 0 < cdiv a b.
Proof. intros. unfold cdiv. assert (- a / b < 0) by (apply Z.div_lt_upper_bound; lia). lia. Qed.

Lemma fmap_zrange_shift {A} (f : Z -> A) a b d : (fun i => f (i + d)) <$> zrange a b = f <$> zrange (a + d) (b + d).
Proof.
  unfold zrange. replace (b + d - (a + d)) with (b - a) by lia. apply list_eq. intros i. rewrite !list_lookup_fmap.
  destruct (decide (Z.of_nat i < b - a)); [rewrite !lookup_seqZ_lt by done; cbn; do 2 f_equal; lia|by rewrite !lookup_seqZ_ge by lia].
Qed.

Lemma zrange_step_cons a b s : 0 < s -> a < b -> zrange_step a b s = a :: zrange_step (a + s) b s.
Proof.
  intros Hs Hab. unfold zrange_step. pose proof (cdiv_pos (b - a) s Hs). rewrite (cdiv_step (b - a)) by done.
  pose proof (cdiv_step (b - a) s Hs). rewrite zrange_cons by lia. csimpl. f_equal; [lia|].
  replace (b - a - s) with (b - (a + s)) by lia. set (c := cdiv (b - (a + s)) s) in *.
  replace (0 + 1) with (0 + 1) by lia. rewrite <- (fmap_zrange_shift (fun i => a + i * s) 0 c 1).
  apply list_fmap_ext. intros _ x _. lia.
Qed.

Lemma zrange_step_nil a b s : 0 < s -> b <= a -> zrange_step a b s = [].
Proof. intros. unfold zrange_step. pose proof (cdiv_nonpos (b - a) s). by rewrite zrange_nil by lia. Qed.

(** The tiles of a range, cut at its end, list the range. *)
Lemma zrange_tiles a b s : 0 < s -> (zrange_step a b s ≫= fun t => zrange t (Z.min (t + s) b)) = zrange a b.
Proof.
  intros Hs. remember (Z.to_nat (b - a)) as n eqn:E. revert a E. induction n as [n IH] using lt_wf_ind. intros a E.
  destruct (Z_lt_le_dec a b) as [Hab|Hab].
  - rewrite zrange_step_cons by done. cbn. rewrite (IH (Z.to_nat (b - (a + s)))) by lia.
    destruct (Z_le_gt_dec (a + s) b).
    + rewrite Z.min_l by lia. apply zrange_app. lia.
    + rewrite Z.min_r, (zrange_nil (a + s)) by lia. apply app_nil_r.
  - by rewrite zrange_step_nil, zrange_nil.
Qed.

(** ** The range kernel *)

Section range_kernel.
Context (BLOCK_N : Z) (HEAD_DIM : nat) (qk_scale : F) (k v : Z -> list F) (bias : option (Z -> F)) (q : list F).
Context (HBN : 0 < BLOCK_N).

(** The scaled logit of key [n]. *)
Definition key_logit (n : Z) : F :=
  match bias with
  | Some b => nadd (nmul (dot q (k n)) qk_scale) (nmul (b n) LOG2_E)
  | None => nmul (dot q (k n)) qk_scale
  end.

Lemma masked_tile_lanes base t e st : masked_tile_step BLOCK_N HEAD_DIM qk_scale k v bias base t e q st =
  softmax_step HEAD_DIM (lane_qk <$> ((fun c => if t + c <? e then Some (item key_logit v (base + t + c)) else None) <$> zrange 0 BLOCK_N))
    (lane_v HEAD_DIM <$> ((fun c => if t + c <? e then Some (item key_logit v (base + t + c)) else None) <$> zrange 0 BLOCK_N)) st.
Proof.
  unfold masked_tile_step. f_equal.
  - destruct bias as [b|] eqn:Eb; induction (zrange 0 BLOCK_N) as [|c l IH]; csimpl; try done;
      (f_equal; [|exact IH]); unfold key_logit; rewrite ?Eb; by destruct (t + c <? e).
  - rewrite <- !list_fmap_compose. apply list_fmap_ext. intros _ c _. cbn. by destruct (t + c <? e).
Qed.

Lemma omap_lanes (f : Z -> F * list F) t e n :
  omap id ((fun c => if t + c <? e then Some (f (t + c)) else None) <$> zrange 0 n) = f <$> zrange t (Z.min (t + n) e).
Proof.
  assert (forall a, omap id ((fun c => if t + c <? e then Some (f (t + c)) else None) <$> zrange a n) = f <$> zrange (t + a) (Z.min (t + n) e)) as Ha;
    [|by rewrite Ha, Z.add_0_r].
  intros a. remember (Z.to_nat (n - a)) as m eqn:E. revert a E. induction m as [|m IH]; intros a E.
  - rewrite !zrange_nil by lia. done.
  - rewrite (zrange_cons a) by lia. csimpl. destruct (Z.ltb_spec (t + a) e).
    + cbn. rewrite (zrange_cons (t + a)) by lia. csimpl. f_equal. rewrite IH by lia. do 2 f_equal. lia.
    + cbn. rewrite IH by lia. by rewrite !zrange_nil by lia.
Qed.

Lemma masked_tile_inv base t e st ps : t < e -> row_inv HEAD_DIM ps st ->
  row_inv HEAD_DIM (ps ++ (item key_logit v <$> ((fun n => base + n) <$> zrange t (Z.min (t + BLOCK_N) e))))
    (masked_tile_step BLOCK_N HEAD_DIM qk_scale k v bias base t e q st).
Proof.
  intros Ht Hst. rewrite masked_tile_lanes.
  assert (omap id ((fun c => if t + c <? e then Some (item key_logit v (base + t + c)) else None) <$> zrange 0 BLOCK_N) =
    item key_logit v <$> ((fun n => base + n) <$> zrange t (Z.min (t + BLOCK_N) e))) as E.
  { rewrite <- list_fmap_compose. rewrite <- (omap_lanes (item key_logit v ∘ Z.add base)). f_equal. apply list_fmap_ext.
    intros _ c _. cbn. by rewrite Z.add_assoc. }
  rewrite <- E. apply softmax_step_inv; [done|]. rewrite E, zrange_cons by lia. done.
Qed.

Lemma range_step_inv base s e st ps : row_inv HEAD_DIM ps st ->
  row_inv HEAD_DIM (ps ++ (item key_logit v <$> ((fun n => base + n) <$> zrange s e)))
    (range_step BLOCK_N HEAD_DIM qk_scale k v bias base q st (s, e)).
Proof.
  intros Hst. unfold range_step. cbn [fst snd]. rewrite <- (zrange_tiles s e BLOCK_N HBN).
  assert (Forall (fun t => t < e) (zrange_step s e BLOCK_N)) as Hts.
  { unfold zrange_step. apply Forall_fmap, Forall_forall. intros i Hi%elem_of_zrange. cbn.
    pose proof (cdiv_spec (e - s) BLOCK_N HBN). nia. }
  revert ps st Hst. induction Hts as [|t ts Ht _ IH]; intros ps st Hst; csimpl; [by rewrite app_nil_r|].
  rewrite !fmap_app, app_assoc. apply IH. by apply masked_tile_inv.
Qed.

Lemma ranges_inv base rs st ps : row_inv HEAD_DIM ps st ->
  row_inv HEAD_DIM (ps ++ (item key_logit v <$> ((fun n => base + n) <$> keys_of rs)))
    (foldl (range_step BLOCK_N HEAD_DIM qk_scale k v bias base q) st rs).
Proof.
  revert ps st. induction rs as [|[s e] rs IH]; intros ps st Hst; csimpl; [by rewrite app_nil_r|].
  cbn [keys_of mbind list_bind fst snd]. fold (keys_of rs). rewrite !fmap_app, app_assoc. apply IH. by apply range_step_inv.
Qed.

(** A row of the range kernel is the softmax over the keys of its ranges, or
    zero when there are none. *)
Lemma range_row_spec rs : range_row BLOCK_N HEAD_DIM qk_scale k v bias rs q =
  if decide (keys_of rs = []) then replicate HEAD_DIM (Fin nzero) else attend_keys HEAD_DIM key_logit v (keys_of rs).
Proof.
  unfold range_row. pose proof (ranges_inv 0 rs (row_init HEAD_DIM) [] (or_introl (conj eq_refl eq_refl))) as Hinv.
  cbn [app] in Hinv. assert ((fun n => 0 + n) <$> keys_of rs = keys_of rs) as E by (etrans; [|apply list_fmap_id]; by apply list_fmap_ext).
  rewrite E in Hinv. case_decide as Ek.
  - rewrite Ek in Hinv. destruct Hinv as [[_ ->]|[? _]]; [apply row_finish_empty|done].
  - by apply row_finish_inv.
Qed.

End range_kernel.

(** ** The block kernel *)

Section block_kernel.
Context (BLOCK_N : Z) (HEAD_DIM : nat) (qk_scale : F) (k v : Z -> list F) (q : list F).
Context (HBN : 0 < BLOCK_N).

Local Abbreviation logit := (key_logit qk_scale k None q).

(** The keys of blocks of [BLOCK_N] tokens. *)
Definition block_keys (starts : list Z) : list Z := starts ≫= fun s => zrange s (s + BLOCK_N).

Lemma block_step_inv s st ps : row_inv HEAD_DIM ps st ->
  row_inv HEAD_DIM (ps ++ (item logit v <$> zrange s (s + BLOCK_N))) (block_step BLOCK_N HEAD_DIM qk_scale k v q s st).
Proof.
  intros Hst. unfold block_step. set (n := (fun c => s + c) <$> zrange 0 BLOCK_N).
  assert (n = zrange s (s + BLOCK_N)) as En.
  { unfold n. pose proof (fmap_zrange_shift id 0 BLOCK_N s) as E. rewrite list_fmap_id in E.
    replace (0 + s) with s in E by lia. replace (BLOCK_N + s) with (s + BLOCK_N) in E by lia. rewrite <- E.
    apply list_fmap_ext. intros _ c _. cbn. lia. }
  pose proof (softmax_step_inv HEAD_DIM ps st (Some <$> (item logit v <$> n)) Hst) as Hi.
  assert (omap id (Some <$> (item logit v <$> n)) = item logit v <$> n) as Eo.
  { clear. induction n as [|x n IH]; csimpl; [done|]. cbn. by rewrite IH. }
  rewrite Eo in Hi. rewrite <- !list_fmap_compose in Hi. rewrite <- En. apply Hi.
  rewrite En, zrange_cons by lia. done.
Qed.

Lemma merge_chains_inv s0 s1 ps0 ps1 : ps0 <> [] -> row_inv HEAD_DIM ps0 s0 -> row_inv HEAD_DIM ps1 s1 ->
  row_inv HEAD_DIM (ps0 ++ ps1) (merge_chains s0 s1).
Proof.
  intros Hne [[-> _]|(_ & M0 & E1 & E2 & E3)] H1; [done|]. right. split; [by destruct ps0|].
  unfold merge_chains. rewrite E1, E2, E3. destruct H1 as [[-> ->]|(_ & M1 & F1 & F2 & F3)].
  - exists M0. cbn [row_init row_max row_sum xmax xsub xopp xadd xexp2 xmul]. rewrite app_nil_r. unfold row_at. cbn [row_max row_sum acc].
    assert (nadd M0 (nopp M0) = nzero) as -> by ring. rewrite exp2_0. split_and!; [done|f_equal; ring|].
    change (replicate HEAD_DIM (Fin nzero)) with (acc (row_init (F:=F) HEAD_DIM)). rewrite row_init_acc, <- !list_fmap_compose, zip_with_fmap_seq.
    apply list_fmap_ext. intros _ j _. cbn. f_equal. ring.
  - rewrite F1, F2, F3. cbn [xmax]. set (M := nmax M0 M1). exists M. cbn [xsub xopp xadd xexp2 xmul]. unfold row_at. cbn [row_max row_sum acc].
    rewrite !wsum_shift, wsum_concat. split_and!; [done..|]. rewrite <- !list_fmap_compose, zip_with_fmap_seq.
    apply list_fmap_ext. intros _ j _. cbn. by rewrite !vsum_shift, vsum_app.
Qed.

Section chains.
Context (starts : list Z).
Local Abbreviation s := (fun i : nat => default 0 (starts !! i)).

(** The two chains walk the even and the odd blocks. *)
Lemma chains_inv n : (2 * n <= length starts)%nat ->
  let c := foldl (fun c index => (block_step BLOCK_N HEAD_DIM qk_scale k v q (s (2 * index)%nat) c.1,
      block_step BLOCK_N HEAD_DIM qk_scale k v q (s (2 * index + 1)%nat) c.2)) (row_init HEAD_DIM, row_init HEAD_DIM) (seq 0 n) in
  exists l0 l1, l0 ++ l1 ≡ₚ take (2 * n) starts /\ length l0 = n /\ length l1 = n /\
    row_inv HEAD_DIM (item logit v <$> block_keys l0) c.1 /\ row_inv HEAD_DIM (item logit v <$> block_keys l1) c.2.
Proof.
  induction n as [|n IH]; intros Hn c.
  - exists [], []. split_and!; [done..| |]; by left.
  - destruct IH as (l0 & l1 & Hp & H0 & H1 & I0 & I1); [lia|].
    destruct (lookup_lt_is_Some_2 starts (2 * n)) as [a Ea]; [lia|]. destruct (lookup_lt_is_Some_2 starts (2 * n + 1)) as [b Eb]; [lia|].
    exists (l0 ++ [a]), (l1 ++ [b]). unfold c. rewrite seq_S, foldl_app. cbn [foldl fst snd]. rewrite Nat.add_0_l, Ea, Eb. cbn [default].
    rewrite !length_app. cbn [length]. split_and!; [|lia|lia| |].
    + replace (2 * S n)%nat with (S (S (2 * n))) by lia. rewrite (take_S_r _ _ b), (take_S_r _ _ a); [|done|by rewrite <- Eb; f_equal; lia].
      rewrite <- Hp. solve_Permutation.
    + unfold block_keys. rewrite bind_app, fmap_app. cbn. rewrite app_nil_r. by apply block_step_inv.
    + unfold block_keys. rewrite bind_app, fmap_app. cbn. rewrite app_nil_r. by apply block_step_inv.
Qed.
End chains.

#[global] Instance block_keys_perm : Proper ((≡ₚ) ==> (≡ₚ)) block_keys.
Proof. intros l l' E. unfold block_keys. by rewrite E. Qed.

(** A row of the block kernel is the softmax over the keys of its blocks. *)
Lemma block_row_spec starts : starts <> [] ->
  block_row BLOCK_N HEAD_DIM qk_scale k v starts q = attend_keys HEAD_DIM logit v (block_keys starts).
Proof.
  intros Hne. unfold block_row. set (n := length starts). pose proof (Nat.div_mod_eq n 2) as Hn. pose proof (Nat.mod_upper_bound n 2) as Hm.
  assert (0 < n)%nat by (unfold n; destruct starts; [done|simpl; lia]).
  destruct (chains_inv starts (n / 2)) as (l0 & l1 & Hp & H0 & H1 & I0 & I1); [unfold n in *; lia|].
  destruct (foldl _ _ _) as [c0 c1]. cbn [fst snd] in *.
  assert (forall ls, ls <> [] -> block_keys ls <> []) as Hbk.
  { intros [|x ls]; [done|]. intros _. cbn. rewrite zrange_cons by lia. done. }
  assert (forall la, la ++ l1 ≡ₚ starts -> la <> [] -> forall st, row_inv HEAD_DIM (item logit v <$> block_keys la) st ->
    row_finish (merge_chains st c1) = attend_keys HEAD_DIM logit v (block_keys starts)) as Hfin.
  { intros la Hla Hlne st Hst. rewrite <- Hla. unfold block_keys. rewrite bind_app. fold (block_keys la) (block_keys l1).
    apply row_finish_inv; [|destruct (block_keys la) eqn:E; [by apply Hbk in E|done]]. rewrite fmap_app. apply merge_chains_inv; [|done|done].
    intros E%fmap_nil_inv. by apply Hbk in E. }
  destruct (Nat.eqb_spec (n mod 2) 1) as [Hodd|Heven].
  - destruct (lookup_lt_is_Some_2 starts (n - 1)) as [a Ea]; [unfold n in *; lia|]. rewrite Ea. cbn [default].
    apply (Hfin (l0 ++ [a])); [|by destruct l0|].
    + rewrite <- (take_drop (2 * (n / 2)) starts). rewrite <- Hp.
      assert (drop (2 * (n / 2)) starts = [a]) as ->; [|solve_Permutation].
      rewrite (drop_S _ a) by (rewrite <- Ea; f_equal; unfold n in *; lia). rewrite drop_ge by (unfold n in *; lia). done.
    + unfold block_keys. rewrite bind_app, fmap_app. cbn. rewrite app_nil_r. by apply block_step_inv.
  - apply (Hfin l0); [|intros ->; simpl in *; lia|done]. rewrite Hp, take_ge; [done|]. unfold n in *. lia.
Qed.

(** Without blocks the merge of two empty chains is not a number. *)
Lemma block_row_no_blocks : block_row BLOCK_N HEAD_DIM qk_scale k v [] q = replicate HEAD_DIM NaN.
Proof.
  unfold block_row. cbn. unfold row_finish, merge_chains. cbn. induction HEAD_DIM as [|d IH]; cbn; [done|]. by f_equal.
Qed.

End block_kernel.

(** ** Launches *)

Section launch.
Context {P : Type} (prog : P -> list ((nat * Z * nat) * list (xf F))).

Lemma run_grid_store order : run_grid prog order = store_out (F:=F) ∅ (order ≫= prog).
Proof.
  unfold run_grid, store_out. generalize (∅ : gmap (nat * Z * nat) (list (xf F))). induction order as [|pid order IH]; intros m; csimpl; [done|].
  rewrite IH, foldl_app. done.
Qed.

Lemma store_out_lookup (ws : list ((nat * Z * nat) * list (xf F))) m key val : NoDup ws.*1 -> (key, val) ∈ ws -> store_out m ws !! key = Some val.
Proof.
  revert m. induction ws as [|[k' v'] ws IH]; intros m; csimpl; [set_solver|]. rewrite NoDup_cons, elem_of_cons.
  intros [Hk Hnd] [E|Hin]; simplify_eq; cbn.
  - clear IH. change (store_out (<[k':=v']> m) ws !! k' = Some v').
    assert (forall m, m !! k' = Some v' -> store_out m ws !! k' = Some v') as Hs; [|apply Hs, lookup_insert_eq].
    clear m Hnd. induction ws as [|[k2 v2] ws IH]; intros m Hm; cbn; [done|]. csimpl in Hk. rewrite not_elem_of_cons in Hk. destruct Hk as [Hne Hk].
    apply IH; [done|]. by rewrite lookup_insert_ne.
  - by apply IH.
Qed.

(** Programs that write disjoint cells may run in any order. *)
Lemma run_grid_lookup (owner : nat * Z * nat -> P) grid order pid key val :
  NoDup grid -> order ≡ₚ grid -> pid ∈ grid ->
  (forall pid, NoDup (prog pid).*1) -> (forall pid key, pid ∈ grid -> key ∈ (prog pid).*1 -> owner key = pid) ->
  (key, val) ∈ prog pid -> run_grid prog order !! key = Some val.
Proof.
  intros Hnd Hp Hpid Hprog Hown Hin. rewrite run_grid_store. apply store_out_lookup.
  - assert (NoDup order) as Ho by by rewrite Hp.
    assert (forall pid key, pid ∈ order -> key ∈ (prog pid).*1 -> owner key = pid) as Hown' by (intros ??; rewrite Hp; auto).
    clear -Ho Hprog Hown'. induction Ho as [|x l Hx Hl IH]; csimpl; [constructor|]. rewrite fmap_app. apply NoDup_app. split_and!; [done| |].
    + intros key H1 ([k v] & -> & (y & Hy & Hl')%list_elem_of_bind)%list_elem_of_fmap. cbn in H1.
      assert (owner k = x) by (apply Hown'; [constructor|done]).
      assert (owner k = y) by (apply Hown'; [by constructor|apply list_elem_of_fmap; by exists (k, v)]). congruence.
    + apply IH. intros ?? Hp. apply Hown'. by constructor.
  - apply list_elem_of_bind. exists pid. split; [done|]. by rewrite Hp.
Qed.

End launch.

Lemma grid2_NoDup a b : NoDup (grid2 a b).
Proof.
  unfold grid2. apply NoDup_bind; [|intros y _; apply NoDup_fmap_2; [by intros ?? [= ->]|apply NoDup_seq]|apply NoDup_seq].
  intros x y z _ _ (i & -> & _)%list_elem_of_fmap (j & [= _ ->] & _)%list_elem_of_fmap. done.
Qed.

Lemma elem_of_grid2 a b x y : (x, y) ∈ grid2 a b <-> (x < a)%nat /\ (y < b)%nat.
Proof.
  unfold grid2. rewrite list_elem_of_bind. setoid_rewrite list_elem_of_fmap. setoid_rewrite elem_of_seq. split.
  - intros (y' & (x' & [= -> ->] & ?) & ?). lia.
  - intros [? ?]. exists y. split; [exists x; split; [done|lia]|lia].
Qed.

(** Keys written by a program that walks rows [0 .. n). *)
Lemma row_writes_NoDup (key : Z -> nat * Z * nat) (ok : Z -> bool) (val : Z -> list (xf F)) n :
  (forall r r', key r = key r' -> r = r') -> NoDup (omap (fun r => if ok r then Some (key r, val r) else None) (zrange 0 n)).*1.
Proof.
  intros Hinj. unfold zrange. pose proof (NoDup_seqZ 0 (n - 0)) as Hnd. induction Hnd as [|x l Hx Hl IH]; csimpl; [constructor|].
  destruct (ok x); [|done]. csimpl. constructor; [|done].
  intros ([k v] & E & (r & Hr & Er)%list_elem_of_omap)%list_elem_of_fmap. destruct (ok r); simplify_eq/=. apply Hx.
  by rewrite (Hinj x r).
Qed.

Lemma elem_of_row_writes (key : Z -> nat * Z * nat) (ok : Z -> bool) (val : Z -> list (xf F)) n kv :
  kv ∈ omap (fun r => if ok r then Some (key r, val r) else None) (zrange 0 n) <->
  exists r, 0 <= r < n /\ ok r = true /\ kv = (key r, val r).
Proof.
  rewrite list_elem_of_omap. setoid_rewrite elem_of_zrange. split.
  - intros (r & Hr & E). destruct (ok r) eqn:Eo; [|done]. simplify_eq. eauto.
  - intros (r & Hr & Eo & ->). exists r. by rewrite Eo.
Qed.

Section range_launch.
Context (order : list (nat * nat) -> list (nat * nat)) (batch heads : nat) (q_len : Z) (head_dim : nat).
Context (query key value : tensor4 F) (p : SparseAttentionPlan F) (scale : F).
Context (Horder : forall l, order l ≡ₚ l) (Hh : (0 < heads)%nat) (Hbm : 0 < block_m p).

(** The bias of the plan for head [h]. *)
Definition plan_bias (h : nat) : option (Z -> F) :=
  match logit_bias p with Some b => Some (fun n => default nzero (b !! h ≫= fun r => r !! Z.to_nat n)) | None => None end.

(** The logit the kernel uses for query [m] and key [n]. *)
Definition plan_logit (b : nat) (m : Z) (h : nat) : Z -> F :=
  key_logit (nmul scale LOG2_E) (fun n => key b n h) (plan_bias h) (query b m h).

(** Which row of the plan serves query [m]. *)
Definition plan_block (m : Z) : nat := if shared_q_block p then 0%nat else Z.to_nat (m / block_m p).

Lemma sparse_attention_row out b m h : sparse_attention order batch heads q_len head_dim query key value p scale = Ok out ->
  (b < batch)%nat -> 0 <= m < q_len -> (h < heads)%nat ->
  out !! (b, m, h) = Some (if decide (keys_of (kept_ranges p h (plan_block m)) = []) then replicate head_dim (Fin nzero)
    else attend_keys head_dim (plan_logit b m h) (fun n => value b n h) (keys_of (kept_ranges p h (plan_block m)))).
Proof.
  unfold sparse_attention. intros E Hb Hm Hhd. destruct (negb _ && negb _); [done|]. injection E as <-.
  set (BM := block_m p) in *. set (pm := Z.to_nat (m / BM)).
  assert (0 <= m / BM) by (apply Z.div_pos; lia). pose proof (Z.div_mod m BM ltac:(lia)) as Edm. pose proof (Z.mod_pos_bound m BM Hbm).
  assert (Z.of_nat pm = m / BM) as Epm by (unfold pm; lia).
  apply (run_grid_lookup _ (fun key => let '(b', m', h') := key in (Z.to_nat (m' / BM), (b' * heads + h')%nat)) _ _ (pm, (b * heads + h)%nat) _ _
    (grid2_NoDup (Z.to_nat (cdiv q_len BM)) (batch * heads)) (Horder _)).
  - apply elem_of_grid2. split; [|nia]. pose proof (cdiv_spec q_len BM Hbm). assert (m / BM < cdiv q_len BM) by nia. lia.
  - intros [x y]. unfold range_sparse_attn_kernel.
    apply (row_writes_NoDup (fun r => ((y / heads)%nat, Z.of_nat x * block_m p + r, (y mod heads)%nat)) (fun r => Z.of_nat x * block_m p + r <? q_len)).
    intros r r' [=]. lia.
  - intros [x y] key' _ ([k' v'] & -> & Hin)%list_elem_of_fmap. unfold range_sparse_attn_kernel in Hin.
    apply (elem_of_row_writes (fun r => ((y / heads)%nat, Z.of_nat x * block_m p + r, (y mod heads)%nat)) (fun r => Z.of_nat x * block_m p + r <? q_len)) in Hin
      as (r & Hr & _ & E). injection E as -> _. cbn. f_equal.
    + fold BM. rewrite Z.add_comm, Z.div_add, Z.div_small by lia. lia.
    + pose proof (Nat.div_mod_eq y heads). lia.
  - unfold range_sparse_attn_kernel.
    apply (elem_of_row_writes (fun r => (((b * heads + h) / heads)%nat, Z.of_nat pm * block_m p + r, ((b * heads + h) mod heads)%nat))
      (fun r => Z.of_nat pm * block_m p + r <? q_len)). exists (m mod BM). fold BM.
    assert (Z.of_nat pm * BM + m mod BM = m) as -> by lia.
    split; [done|]. split; [apply Z.ltb_lt; lia|].
    rewrite Nat.div_add_l, Nat.div_small, Nat.add_0_r by lia.
    rewrite (Nat.add_comm (b * heads)), Nat.Div0.mod_add, Nat.mod_small by done. f_equal.
    rewrite range_row_spec by (unfold RANGE_BLOCK_N; lia). done.
Qed.

End range_launch.

Section block_launch.
Context (order : list (nat * nat) -> list (nat * nat)) (batch heads : nat) (q_len : Z) (head_dim : nat).
Context (query key value : tensor4 F) (p : BlockSparsePlan F) (scale : F).
Context (Horder : forall l, order l ≡ₚ l) (Hh : (0 < heads)%nat) (Hqt : 0 < query_tile p) (HL : 0 < bp_frame_seqlen p) (Hkt : 0 < key_tile p).
Context (Hcover : bp_frame_seqlen p <= Z.of_nat (q_tiles_per_frame p) * query_tile p).

(** The row of the plan that serves query [m]: its tile within its frame. *)
Definition block_plan_row (h : nat) (m : Z) : list Z :=
  default [] (starts p !! h ≫= fun r => r !! Z.to_nat (m mod bp_frame_seqlen p / query_tile p)).

Definition block_logit (b : nat) (m : Z) (h : nat) : Z -> F :=
  key_logit (nmul scale LOG2_E) (fun n => key b n h) None (query b m h).

Lemma block_sparse_attention_row out b m h : block_sparse_attention order batch heads q_len head_dim query key value p scale = Ok out ->
  (b < batch)%nat -> 0 <= m < q_len -> (h < heads)%nat ->
  out !! (b, m, h) = Some (if decide (block_plan_row h m = []) then replicate head_dim NaN
    else attend_keys head_dim (block_logit b m h) (fun n => value b n h) (block_keys (key_tile p) (block_plan_row h m))).
Proof.
  unfold block_sparse_attention. intros E Hb Hm Hhd. set (L := bp_frame_seqlen p) in *. set (QT := query_tile p) in *.
  destruct (Z.eqb_spec (q_len mod L) 0) as [Er|Er]; [|done]. cbn [negb] in E. injection E as <-.
  set (nf := Z.to_nat (q_len / L)).
  pose proof (Z.div_mod q_len L ltac:(lia)) as Eq. pose proof (Z.div_mod m L ltac:(lia)) as Edm. pose proof (Z.mod_pos_bound m L HL) as Hmm.
  assert (0 <= q_len / L) by (apply Z.div_pos; lia). assert (0 <= m / L) by (apply Z.div_pos; lia).
  assert (m / L < q_len / L) by nia.
  set (w := m mod L) in *. pose proof (Z.div_mod w QT ltac:(lia)) as Ew. pose proof (Z.mod_pos_bound w QT Hqt). assert (0 <= w / QT) by (apply Z.div_pos; lia).
  set (qf := Z.to_nat (m / L)). set (qt := Z.to_nat (w / QT)).
  assert (0 < nf)%nat by (unfold nf; lia). assert (qf < nf)%nat by (unfold qf, nf; lia).
  assert (Z.of_nat qt < Z.of_nat (q_tiles_per_frame p)) by (unfold qt; nia).
  assert (((qt * nf + qf) / nf)%nat = qt) as Eqt by (rewrite Nat.div_add_l, Nat.div_small by lia; lia).
  assert (((qt * nf + qf) mod nf)%nat = qf) as Eqf by (rewrite Nat.add_comm, Nat.Div0.mod_add, Nat.mod_small by done; done).
  apply (run_grid_lookup _ (fun key => let '(b', m', h') := key in
      ((Z.to_nat (m' mod L / QT) * nf + Z.to_nat (m' / L))%nat, (b' * heads + h')%nat)) _ _ ((qt * nf + qf)%nat, (b * heads + h)%nat) _ _
    (grid2_NoDup (nf * q_tiles_per_frame p) (batch * heads)) (Horder _)).
  - apply elem_of_grid2. split; nia.
  - intros [x y]. unfold block_sparse_attn_kernel. fold L QT.
    apply (row_writes_NoDup (fun r => ((y / heads)%nat, Z.of_nat (x mod nf) * L + Z.of_nat (x / nf) * QT + r, (y mod heads)%nat))
      (fun r => Z.of_nat (x / nf) * QT + r <? L)).
    intros r r' [=]. lia.
  - intros [x y] key' _ ([k' v'] & -> & Hin)%list_elem_of_fmap. unfold block_sparse_attn_kernel in Hin. fold L QT nf in Hin.
    apply (elem_of_row_writes (fun r => ((y / heads)%nat, Z.of_nat (x mod nf) * L + Z.of_nat (x / nf) * QT + r, (y mod heads)%nat))
      (fun r => Z.of_nat (x / nf) * QT + r <? L)) in Hin as (r & Hr & Hlt & E). apply Z.ltb_lt in Hlt.
    injection E as -> _. cbn. f_equal; [|pose proof (Nat.div_mod_eq y heads); lia].
    set (xt := Z.of_nat (x / nf)) in *. set (xf := Z.of_nat (x mod nf)) in *. assert (0 <= xt) by (unfold xt; lia).
    replace (xf * L + xt * QT + r) with ((xt * QT + r) + xf * L) by lia.
    rewrite Z.div_add, Z_mod_plus_full, Z.mod_small, (Z.div_small (xt * QT + r) L) by lia.
    replace (xt * QT + r) with (r + xt * QT) by lia. rewrite Z.div_add, Z.div_small by lia.
    pose proof (Nat.div_mod_eq x nf). unfold xt, xf. lia.
  - unfold block_sparse_attn_kernel. fold L QT. rewrite Eqt, Eqf.
    apply (elem_of_row_writes (fun r => (((b * heads + h) / heads)%nat, Z.of_nat qf * L + Z.of_nat qt * QT + r, ((b * heads + h) mod heads)%nat))
      (fun r => Z.of_nat qt * QT + r <? L)). exists (w mod QT).
    assert (Z.of_nat qf * L + Z.of_nat qt * QT + w mod QT = m) as -> by (unfold qf, qt; lia).
    split; [done|]. split; [apply Z.ltb_lt; unfold qt; lia|].
    rewrite Nat.div_add_l, Nat.div_small, Nat.add_0_r by lia.
    rewrite (Nat.add_comm (b * heads)), Nat.Div0.mod_add, Nat.mod_small by done. f_equal.
    unfold block_plan_row. fold L QT w qt. case_decide as Ek.
    + rewrite Ek. by rewrite block_row_no_blocks.
    + by rewrite block_row_spec.
Qed.

End block_launch.

End softmax.
