(* ===== verification/SparseClaims.v ===== *)
(** * SparseClaims: a plan from a mask gives masked attention *)

From Stdlib Require Import QArith Qcanon.
From S2P Require Import Prelude Num SparsePlan SparsePlanSpec SparseKernel SparseKernelSpec.

Open Scope Z_scope.

Section claims.
Context {F : Type} `{!Num F} `{!NumExp F} `{!NumLaws F} `{!NumExpLaws F}.

(** A mask over segments that cover an interval of the keys of each head. *)
Record segmented (H Q n : nat) (sm : list (list (list bool))) (ss se : seg_bounds) (kv : Z) : Prop := {
  sg_mask : mask_shape H Q n sm;
  sg_starts : bounds_shape H n ss;
  sg_ends : bounds_shape H n se;
  sg_kind : same_kind ss se;
  sg_some : (0 < n)%nat;
  sg_cover : forall h, (h < H)%nat -> segments_ok (seg_at ss h) (seg_at se h) n /\ 0 <= seg_at ss h 0 /\ seg_at se h (n - 1) <= kv }.

(** The keys the mask row of a (head, query block) selects. *)
Definition mask_keys (sm : list (list (list bool))) (ss se : seg_bounds) (h q : nat) (kv : Z) : list Z :=
  filter (fun pos => seg_selected (mask_at sm h q) (seg_at ss h) (seg_at se h) pos = true) (zrange 0 kv).

Section rows.
Context (g : nat) (H Q n : nat) sm ss se (kv bm : Z) (bias : option (list (list F))) (Hsg : segmented H Q n sm ss se kv).
Local Abbreviation p := (plan_from_segment_mask g sm ss se bm bias).

Lemma segmented_keys h q : (h < H)%nat -> (q < Q)%nat -> keys_of (kept_ranges p h q) = mask_keys sm ss se h q kv.
Proof.
  intros Hh Hq. destruct Hsg as [Hm Hs He Hk Hn Hc]. destruct (Hc h Hh) as (Hok & H0 & Hkv).
  rewrite (plan_ranges g H Q n) by done. unfold mask_keys.
  assert (length (mask_at sm h q) = n) as El by (by apply (mask_at_length H Q n)).
  apply (runs_keys (mask_at sm h q) (seg_at ss h) (seg_at se h) kv); by rewrite ?El.
Qed.

Lemma segmented_q_blocks : q_blocks p = Q.
Proof.
  destruct Hsg as [Hm _ _ _ _ _]. destruct (mask_shape_dims _ _ _ _ Hm) as [EQ En]. destruct Hm as (Hl & _ & HH & _).
  unfold q_blocks, plan_from_segment_mask. cbn [range_starts]. rewrite EQ, En, Hl. unfold reshape3, rows_of. destruct H; [lia|].
  cbn. by rewrite length_fmap, length_seq.
Qed.

End rows.

Lemma segmented_attention (order : list (nat * nat) -> list (nat * nat)) g (H Q n : nat) sm ss se kv bm bias batch q_len head_dim
    (query key value : tensor4 F) scale :
  (forall l, order l ≡ₚ l) -> segmented H Q n sm ss se kv -> 0 < bm -> Q = 1%nat \/ Z.of_nat Q = cdiv q_len bm ->
  let p := plan_from_segment_mask g sm ss se bm bias in
  exists out, sparse_attention order batch H q_len head_dim query key value p scale = Ok out /\
  forall b m h, (b < batch)%nat -> 0 <= m < q_len -> (h < H)%nat ->
    let keys := mask_keys sm ss se h (if Nat.eqb Q 1 then 0 else Z.to_nat (m / bm))%nat kv in
    out !! (b, m, h) = Some (if decide (keys = []) then replicate head_dim (Fin nzero)
      else attend_keys head_dim (plan_logit query key p scale b m h) (fun n => value b n h) keys).
Proof.
  intros Hord Hsg Hbm HQ p. pose proof (segmented_q_blocks g H Q n sm ss se kv bm bias Hsg) as EQ. fold p in EQ.
  destruct (sg_mask _ _ _ _ _ _ _ Hsg) as (_ & _ & HH & HQ0).
  destruct (sparse_attention order batch H q_len head_dim query key value p scale) as [out|e] eqn:E.
  2:{ exfalso. unfold sparse_attention, shared_q_block in E. rewrite EQ in E. change (block_m p) with bm in E.
      destruct HQ as [->|HQ]; [done|]. rewrite <- HQ, Z.eqb_refl, andb_false_r in E. done. }
  exists out. split; [done|]. intros b m h Hb Hm Hh keys.
  rewrite (sparse_attention_row order batch H q_len head_dim query key value p scale Hord HH Hbm out b m h E Hb Hm Hh).
  assert (plan_block p m = (if Nat.eqb Q 1 then 0 else Z.to_nat (m / bm))%nat) as Epb by (unfold plan_block, shared_q_block; by rewrite EQ).
  rewrite Epb. unfold p. rewrite (segmented_keys g H Q n sm ss se kv bm bias Hsg h); [done|done|].
  destruct (Nat.eqb_spec Q 1); [lia|]. destruct HQ as [?|HQ]; [done|].
  pose proof (cdiv_spec q_len bm Hbm). pose proof (Z.div_mod m bm ltac:(lia)). pose proof (Z.mod_pos_bound m bm Hbm).
  assert (0 <= m / bm) by (apply Z.div_pos; lia). assert (m / bm < cdiv q_len bm) by nia. lia.
Qed.

(** C2: The range kernel under a plan built from a mask
    of segments computes exact softmax attention over the keys whose segment
    the mask selects, and zeros where it selects none, in whatever order the
    programs of the grid run. *)
Theorem segment_mask_attention (order : list (nat * nat) -> list (nat * nat)) g (H Q n : nat) sm ss se kv bm bias batch q_len head_dim
    (query key value : tensor4 F) scale :
  (forall l, order l ≡ₚ l) -> segmented H Q n sm ss se kv -> 0 < bm -> Q = 1%nat \/ Z.of_nat Q = cdiv q_len bm ->
  let p := plan_from_segment_mask g sm ss se bm bias in
  exists out, sparse_attention order batch H q_len head_dim query key value p scale = Ok out /\
  forall b m h, (b < batch)%nat -> 0 <= m < q_len -> (h < H)%nat ->
    let keys := mask_keys sm ss se h (if Nat.eqb Q 1 then 0 else Z.to_nat (m / bm))%nat kv in
    out !! (b, m, h) = Some (if decide (keys = []) then replicate head_dim (Fin nzero)
      else attend_keys head_dim (plan_logit query key p scale b m h) (fun n => value b n h) keys).
Proof. apply segmented_attention. Qed.

(** C40: A query whose row of the plan is empty
    gets zeros from the range kernel and not-a-number from the block kernel. *)
Theorem kernels_disagree_on_empty_rows BN d (qk : F) k v q bias : 0 < BN ->
  range_row BN d qk k v bias [] q = replicate d (Fin nzero) /\ block_row BN d qk k v [] q = replicate d NaN.
Proof. intros HB. split; [by rewrite range_row_spec|apply block_row_no_blocks]. Qed.

End claims.

(** ** A concrete run *)

Section run.
#[local] Existing Instance NumExp_one.
#[local] Existing Instance NumExpLaws_one.

Lemma kernels_disagree_on_empty_rows_witness :
  range_row 64 1 1%Qc (fun _ => [1%Qc]) (fun _ => [1%Qc]) None [] [1%Qc] = [Fin 0%Qc] /\
  block_row 64 1 1%Qc (fun _ => [1%Qc]) (fun _ => [1%Qc]) [] [1%Qc] = [NaN].
Proof. exact (kernels_disagree_on_empty_rows 64 1 1%Qc (fun _ => [1%Qc]) (fun _ => [1%Qc]) [1%Qc] None ltac:(lia)). Defined.

Lemma ex_segmented : segmented 1 2 3 [[[true; false; true]; [false; false; false]]] (Shared [0; 2; 4]) (Shared [2; 4; 5]) 5.
Proof.
  split; [by vm_compute; repeat constructor|by vm_compute|by vm_compute|done|lia|]. intros [|h] Hh; [|lia]. split; [|by vm_compute].
  split; intros [|[|[|o]]] Ho; (by vm_compute) || lia.
Qed.

Lemma segment_mask_attention_witness :
  exists out, sparse_attention id 1 1 4 1 (fun _ _ _ => [1%Qc]) (fun _ _ _ => [1%Qc]) (fun _ n _ => [of_Z n])
    (plan_from_segment_mask 0 [[[true; false; true]; [false; false; false]]] (Shared [0; 2; 4]) (Shared [2; 4; 5]) 2 None) 1%Qc = Ok out /\
  out !! (0%nat, 1, 0%nat) = Some (attend_keys 1 (plan_logit (fun _ _ _ => [1%Qc]) (fun _ _ _ => [1%Qc])
    (plan_from_segment_mask 0 [[[true; false; true]; [false; false; false]]] (Shared [0; 2; 4]) (Shared [2; 4; 5]) 2 None) 1%Qc 0 1 0)
    (fun n => [of_Z n]) [0; 1; 4]) /\
  out !! (0%nat, 3, 0%nat) = Some [Fin 0%Qc].
Proof.
  destruct (segment_mask_attention id 0 1 2 3 [[[true; false; true]; [false; false; false]]] (Shared [0; 2; 4]) (Shared [2; 4; 5]) 5 2 None
    1 4 1 (fun _ _ _ => [1%Qc]) (fun _ _ _ => [1%Qc]) (fun _ n _ => [of_Z n]) 1%Qc ltac:(done) ex_segmented ltac:(lia) ltac:(by right)) as (out & E & Hout).
  exists out. split; [exact E|]. split; [apply (Hout 0%nat 1 0%nat); lia|apply (Hout 0%nat 3 0%nat); lia].
Defined.
End run.
