(* ===== verification/SparseContext.v ===== *)
(** * SparseContext: geometry of a sparse attention call

    Models [context.py] (the visible key axis in frame and chunk coordinates)
    and [blocks.py] (fixed-size blocks and their intra-frame offsets) of
    [src/python/sglang/multimodal_gen/runtime/layers/attention/sparse].  Numpy
    integer arrays are lists of integers, boolean arrays lists of booleans.
    The second half has the lemmas on matrices, blocks and the blocks a token
    lies in. *)

From S2P Require Import Prelude SparsePlan SparsePlanSpec.

Open Scope Z_scope.

(** ** Geometry *)

Record ChunkGeometry := mkGeometry {
  g_frame_seqlen : Z;
  g_frames_per_block : Z;
  g_query_token_start : Z;
  grid_height : Z;
  grid_width : Z }.

#[global] Instance ChunkGeometry_eq_dec : EqDecision ChunkGeometry.
Proof. solve_decision. Defined.

Definition chunk_tokens (g : ChunkGeometry) : Z := g_frame_seqlen g * g_frames_per_block g.

(** [//] with the exception for a zero divisor. *)
Definition py_div (a b : Z) : res Z := if b =? 0 then Raise ZeroDivisionError else Ok (a / b).
Definition py_mod (a b : Z) : res Z := if b =? 0 then Raise ZeroDivisionError else Ok (a mod b).

Definition query_chunk_index (g : ChunkGeometry) : res Z := py_div (g_query_token_start g) (chunk_tokens g).

Record VisibleLayout := mkLayout {
  global_frame_ids : list Z;
  chunk_offsets : list Z;
  positional_frame_ids : list Z;
  frame_seqlen : Z;
  frames_per_block : Z;
  query_frames : Z;
  layout_chunk_index : Z }.

Definition num_frames (l : VisibleLayout) : Z := Z.of_nat (length (global_frame_ids l)).
Definition kv_len (l : VisibleLayout) : Z := num_frames l * frame_seqlen l.
Definition frames_of_offset (l : VisibleLayout) (offset : Z) : list bool := (fun o => o =? offset) <$> chunk_offsets l.
Definition own_frames (l : VisibleLayout) : list bool := frames_of_offset l 0.
Definition sink_frames (l : VisibleLayout) (num_sink_frames : Z) : list bool := (fun f => f <? num_sink_frames) <$> global_frame_ids l.

Definition num_past_chunks (l : VisibleLayout) : Z :=
  match filter (fun o => o < 0) (chunk_offsets l) with
  | [] => 0
  | o :: os => - foldl Z.min o os
  end.

Definition KeySegments : Type := list (Z * Z).

(** The frames of a segment list: [np.arange(start // F, (start + length) // F)]. *)
Definition segment_frames (F start length : Z) : list Z := zrange (start / F) ((start + length) / F).

Definition visible_layout (key_segments : KeySegments) (g : ChunkGeometry) (query_tokens : Z) (rope_starts : option (list Z)) :
    res (option VisibleLayout) :=
  let F := g_frame_seqlen g in
  m ← py_mod (g_query_token_start g) F;
  if negb (m =? 0) || negb (query_tokens mod F =? 0) then Ok None
  else if existsb (fun seg => negb (seg.1 mod F =? 0) || negb (seg.2 mod F =? 0)) key_segments then Ok None
  else if match rope_starts with
          | Some rs => negb (Nat.eqb (length rs) (length key_segments)) || existsb (fun s => negb (s mod F =? 0)) rs
          | None => false
          end then Ok None
  else
    (* [np.concatenate] of no arrays raises *)
    global ← match key_segments with [] => Raise ValueError | _ => Ok (concat ((fun seg => segment_frames F seg.1 seg.2) <$> key_segments)) end;
    let positional := match rope_starts with
                      | None => global
                      | Some rs => concat (zip_with (fun s seg => segment_frames F s seg.2) rs key_segments)
                      end in
    query_chunk ← query_chunk_index g;
    Ok (Some (mkLayout global ((fun f => f / g_frames_per_block g - query_chunk) <$> global) positional F
      (g_frames_per_block g) (query_tokens / F) query_chunk)).

(** ** Frame masks to ranges *)

(** [np.diff] of a padded mask row. *)
Definition edges (keep : list bool) : list Z :=
  let padded := [false] ++ keep ++ [false] in
  zip_with (fun a b => Z.b2z b - Z.b2z a) padded (tail padded).

Definition flatnonzero (f : Z -> bool) (l : list Z) : list Z :=
  omap (fun ix => if f ix.2 then Some (Z.of_nat ix.1) else None) (zip (seq 0 (length l)) l).

Definition frame_mask_row (keep : list bool) (F : Z) : res (list (Z * Z)) :=
  let e := edges keep in
  let starts := flatnonzero (fun x => x =? 1) e in
  let ends := flatnonzero (fun x => x =? -1) e in
  if negb (Nat.eqb (length starts) (length ends)) then Raise ValueError  (* [zip(strict=True)] *)
  else Ok (zip_with (fun s e => (s * F, e * F)) starts ends).

Definition frame_mask_to_ranges (keep : list (list bool)) (F : Z) : res (list (list (Z * Z))) :=
  mapM (fun row => frame_mask_row row F) keep.

(** ** Blocks (blocks.py) *)

Definition num_blocks (length block : Z) : Z := cdiv length block.
Definition block_lo (length block : Z) : list Z := (fun i => i * block) <$> zrange 0 (num_blocks length block).
Definition block_hi (length block : Z) : list Z := (fun lo => Z.min (lo + block) length) <$> block_lo length block.
Definition block_bounds (length block : Z) : list Z * list Z := (block_lo length block, block_hi length block).

Definition frame_span (lo hi : list Z) (F : Z) : list Z * list Z :=
  ((fun a => a / F) <$> lo, (fun b => (b - 1) / F) <$> hi).

(** One row of [intra_frame_coverage]: the offsets block [lo, hi) covers. *)
Definition coverage_row (F lo hi : Z) : list bool :=
  let span := hi - lo in
  let start := lo mod F in
  let en := start + span in
  (fun o => ((start <=? o) && (o <? en) || (o <? en - F)) || (F <=? span)) <$> zrange 0 F.

Definition intra_frame_coverage (lo hi : list Z) (F : Z) : list (list bool) := zip_with (coverage_row F) lo hi.

(** [max_pool1d] of window [2 * radius + 1], stride 1, padding [radius]. *)
Definition dilate_row (radius : Z) (row : list bool) : list bool :=
  (fun i => existsb (fun j => default false (if j <? 0 then None else row !! Z.to_nat j)) (zrange (i - radius) (i + radius + 1)))
    <$> zrange 0 (Z.of_nat (length row)).

Definition dilate_coverage (coverage : list (list bool)) (radius : Z) : list (list bool) :=
  if radius <=? 0 then coverage else dilate_row radius <$> coverage.

(** The product of two 0/1 rows is positive. *)
Definition overlap_row (a b : list bool) : bool := 0 <? foldr Z.add 0 (zip_with (fun x y => Z.b2z x * Z.b2z y) a b).

Definition coverage_overlap (qc kc : list (list bool)) : list (list bool) := (fun a => overlap_row a <$> kc) <$> qc.

Definition own_block_mask (q_lo q_hi k_lo k_hi : list Z) (query_offset_in_view : Z) : list (list bool) :=
  zip_with (fun qs qe => zip_with (fun ks ke => (qs <? ke) && (ks <? qe)) k_lo k_hi)
    ((fun x => x + query_offset_in_view) <$> q_lo) ((fun x => x + query_offset_in_view) <$> q_hi).

(** ** What the functions mean *)

Lemma py_mod_Ok a b : b <> 0 -> py_mod a b = Ok (a mod b).
Proof. intros Hb. unfold py_mod. by destruct (Z.eqb_spec b 0). Qed.

Lemma py_div_Ok a b : b <> 0 -> py_div a b = Ok (a / b).
Proof. intros Hb. unfold py_div. by destruct (Z.eqb_spec b 0). Qed.

(** * Matrices, blocks and their own tokens *)

(** Entry of a matrix. *)
Definition at2 {A} (m : list (list A)) (i j : nat) : option A := m !! i ≫= fun r => r !! j.

(** All rows of a matrix have [n] columns. *)
Definition width {A} (m : list (list A)) (n : nat) : Prop := Forall (fun r => length r = n) m.

Lemma length_zr a b : length (zrange a b) = Z.to_nat (b - a).
Proof. unfold zrange. apply length_seqZ. Qed.

Lemma filter_ext_in {A} (P Q : A -> Prop) `{!forall x, Decision (P x), !forall x, Decision (Q x)} (l : list A) :
  (forall x, x ∈ l -> P x <-> Q x) -> filter P l = filter Q l.
Proof.
  induction l as [|x l IH]; intros E; [done|]. rewrite !filter_cons. rewrite IH by (intros; apply E; by constructor).
  pose proof (E x ltac:(constructor)). repeat case_decide; tauto || done.
Qed.

(** ** Blocks *)

Lemma cdiv_bounds a b : 0 < b -> (cdiv a b - 1) * b < a <= cdiv a b * b.
Proof. intros Hb. unfold cdiv. pose proof (Z.div_mod (- a) b). pose proof (Z.mod_pos_bound (- a) b Hb). nia. Qed.

Lemma block_lo_at len block i : 0 <= i < num_blocks len block -> block_lo len block !! Z.to_nat i = Some (i * block).
Proof. intros Hi. unfold block_lo. rewrite list_lookup_fmap. unfold zrange. rewrite lookup_seqZ_lt by lia. cbn. do 2 f_equal. lia. Qed.

Lemma block_hi_at len block i : 0 <= i < num_blocks len block -> block_hi len block !! Z.to_nat i = Some (Z.min (i * block + block) len).
Proof. intros Hi. unfold block_hi. by rewrite list_lookup_fmap, block_lo_at. Qed.

Lemma length_block_lo len block : length (block_lo len block) = Z.to_nat (num_blocks len block).
Proof. unfold block_lo. rewrite length_fmap, length_zr. lia. Qed.

Lemma length_block_hi len block : length (block_hi len block) = Z.to_nat (num_blocks len block).
Proof. unfold block_hi. by rewrite length_fmap, length_block_lo. Qed.

(** The block of a token. *)
Lemma token_block len block m : 0 < block -> 0 <= m < len -> 0 <= m / block < num_blocks len block /\
  m / block * block <= m < Z.min (m / block * block + block) len.
Proof.
  intros Hb Hm. pose proof (cdiv_bounds len block Hb). unfold num_blocks. pose proof (Z.div_mod m block ltac:(lia)). pose proof (Z.mod_pos_bound m block Hb).
  assert (0 <= m / block) by (apply Z.div_pos; lia). split; [split; nia|lia].
Qed.

Definition own_mask (q_len kv block : Z) : list (list bool) :=
  own_block_mask (block_lo q_len block) (block_hi q_len block) (block_lo kv block) (block_hi kv block) (kv - q_len).

Lemma own_mask_shape q_len kv block : length (own_mask q_len kv block) = Z.to_nat (num_blocks q_len block) /\
  width (own_mask q_len kv block) (Z.to_nat (num_blocks kv block)).
Proof.
  unfold own_mask, own_block_mask. split.
  - rewrite length_zip_with, !length_fmap, length_block_lo, length_block_hi. lia.
  - apply Forall_forall. intros r (i & a & b & -> & _ & _)%elem_of_lookup_zip_with. rewrite length_zip_with, length_block_lo, length_block_hi. lia.
Qed.

(** Blocks of queries and keys that share a token are marked. *)
Lemma own_mask_at q_len kv block r c : 0 <= r < num_blocks q_len block -> 0 <= c < num_blocks kv block ->
  at2 (own_mask q_len kv block) (Z.to_nat r) (Z.to_nat c) =
  Some ((r * block + (kv - q_len) <? Z.min (c * block + block) kv) && (c * block <? Z.min (r * block + block) q_len + (kv - q_len))).
Proof.
  intros Hr Hc. unfold at2, own_mask, own_block_mask. rewrite lookup_zip_with, !list_lookup_fmap, block_lo_at, block_hi_at by done. cbn.
  rewrite lookup_zip_with, block_lo_at, block_hi_at by done. done.
Qed.

Lemma own_mask_token q_len kv block m : 0 < block -> q_len <= kv -> 0 <= m < q_len ->
  at2 (own_mask q_len kv block) (Z.to_nat (m / block)) (Z.to_nat ((kv - q_len + m) / block)) = Some true.
Proof.
  intros Hb Hk Hm. destruct (token_block q_len block m Hb Hm) as [H1 H2]. destruct (token_block kv block (kv - q_len + m) Hb ltac:(lia)) as [H3 H4].
  rewrite own_mask_at by done. f_equal. apply andb_true_iff. rewrite !Z.ltb_lt. lia.
Qed.

(** ** Disjunction of masks *)

Lemma zip_orb_at a b i j x y : at2 a i j = Some x -> at2 b i j = Some y -> at2 (zip_with (zip_with orb) a b) i j = Some (x || y).
Proof.
  unfold at2. intros Ha Hb. rewrite lookup_zip_with. destruct (a !! i); [|done]. destruct (b !! i); [|done]. cbn in *.
  by rewrite lookup_zip_with, Ha, Hb.
Qed.

Lemma at2_width {A} (m : list (list A)) n i j : width m n -> (i < length m)%nat -> (j < n)%nat -> is_Some (at2 m i j).
Proof.
  intros Hw Hi Hj. unfold at2. destruct (lookup_lt_is_Some_2 m i Hi) as [r Er]. rewrite Er. cbn. apply lookup_lt_is_Some_2.
  by rewrite (Forall_lookup_1 _ _ _ _ Hw Er).
Qed.
