(* ===== verification/SparseBackend.v ===== *)
(** * SparseBackend: the contract of the sparse attention methods

    Models [base.py] of the sparse attention package: the call object, the
    guards that map a call to a layout or decline it, the density accounting,
    the cache of plans per layer, and [attend], which runs the plan of a
    method through the range kernel and undoes the method's permutation of
    the queries.  A method is a function [prepare] on its own state.  Also the
    factory of [__init__.py] and the backend it keeps for the process. *)

From stdpp Require Import pretty.
From S2P Require Import Prelude Num SparsePlan SparseKernel SparseContext.

Open Scope Z_scope.

(** ** Calls and executions *)

Section backend.
Context {F : Type} `{NumExp F}.

(** One layer's self-attention call; shapes are fields. *)
Record SparseAttentionCall := mkCall {
  layer_index : Z;
  query : tensor4 F;
  key : tensor4 F;
  value : tensor4 F;
  c_batch : nat;
  c_q_len : Z;       (* query.shape[1] *)
  c_kv_len : Z;      (* key.shape[1] *)
  head_dim : Z;      (* query.shape[-1] *)
  key_segments : option KeySegments;
  head_start : Z;
  num_local_heads : nat;
  softmax_scale : F;
  key_segment_rope_starts : option (list Z) }.

(** What a method decided to run.  [query_permutation b i h] is the original
    row of permuted row [i]. *)
Record SparseAttentionExecution := mkExecution {
  e_plan : SparseAttentionPlan F;
  e_query : tensor4 F;
  e_key : tensor4 F;
  e_value : tensor4 F;
  query_permutation : option (nat -> Z -> nat -> Z) }.

(** ** State of the base class *)

Record base_state := mkBase {
  b_geometry : option ChunkGeometry;
  warned : list string;
  sampled_density_sum : option F;
  density_samples : Z;
  sparse_calls : Z;
  dense_calls : Z;
  calls_since_report : Z;
  in_cache_update : bool }.

Definition base_init : base_state := mkBase None [] None 0 0 0 0 false.

Definition set_geometry g (s : base_state) := mkBase (Some g) (warned s) (sampled_density_sum s) (density_samples s) (sparse_calls s) (dense_calls s) (calls_since_report s) (in_cache_update s).
Definition set_in_cache_update b (s : base_state) := mkBase (b_geometry s) (warned s) (sampled_density_sum s) (density_samples s) (sparse_calls s) (dense_calls s) (calls_since_report s) b.

Definition warn_dense_once (reason : string) (s : base_state) : base_state :=
  if bool_decide (reason ∈ warned s) then s
  else mkBase (b_geometry s) (reason :: warned s) (sampled_density_sum s) (density_samples s) (sparse_calls s) (dense_calls s) (calls_since_report s) (in_cache_update s).

(** [cache_update_scope]: the flag holds inside the block and is restored
    whatever the block does. *)
Definition cache_update_scope {S A} (get : S -> base_state) (put : base_state -> S -> S) (body : S -> S * res A) (s : S) : S * res A :=
  let previous := in_cache_update (get s) in
  let '(s', r) := body (put (set_in_cache_update true (get s)) s) in
  (put (set_in_cache_update previous (get s')) s', r).

(** ** Density accounting *)

Definition DENSITY_SAMPLE_INTERVAL : Z := 64.
Definition DENSITY_REPORT_INTERVAL : Z := 512.

(** The share of keys a plan reads. *)
Definition plan_density (p : SparseAttentionPlan F) (kv : Z) : F :=
  let heads := Z.of_nat (length (range_counts p)) in
  let qb := Z.of_nat (length (default [] (head (range_counts p)))) in
  ndiv (of_Z (foldr Z.add 0 (concat (kept_tokens p)))) (of_Z (heads * qb * kv)).

Definition record_density (plan : option (SparseAttentionPlan F)) (kv : Z) (fraction : option F) (s : base_state) : base_state :=
  let s :=
    match plan, fraction with
    | None, None => mkBase (b_geometry s) (warned s) (sampled_density_sum s) (density_samples s) (sparse_calls s) (dense_calls s + 1) (calls_since_report s) (in_cache_update s)
    | _, _ =>
      let calls := sparse_calls s + 1 in
      let s := mkBase (b_geometry s) (warned s) (sampled_density_sum s) (density_samples s) calls (dense_calls s) (calls_since_report s) (in_cache_update s) in
      if calls mod DENSITY_SAMPLE_INTERVAL =? 1 then
        let sampled := match fraction, plan with
                       | Some f, _ => nmin f none
                       | None, Some p => nmin (plan_density p kv) none
                       | None, None => nzero
                       end in
        let sum := nadd (default nzero (sampled_density_sum s)) sampled in
        mkBase (b_geometry s) (warned s) (Some sum) (density_samples s + 1) calls (dense_calls s) (calls_since_report s) (in_cache_update s)
      else s
    end in
  let n := calls_since_report s + 1 in
  mkBase (b_geometry s) (warned s) (sampled_density_sum s) (density_samples s) (sparse_calls s) (dense_calls s)
    (if n <? DENSITY_REPORT_INTERVAL then n else 0) (in_cache_update s).

Definition density (s : base_state) : F :=
  let calls := sparse_calls s + dense_calls s in
  if calls =? 0 then none
  else
    let sampled := if density_samples s =? 0 then none
                   else ndiv (default nzero (sampled_density_sum s)) (of_Z (density_samples s)) in
    ndiv (nadd (of_Z (dense_calls s)) (nmul (of_Z (sparse_calls s)) sampled)) (of_Z calls).

(** ** Guards *)

(** [_layout]: the layout of a call, or a reason to run it dense. *)
Definition layout_of (call : SparseAttentionCall) (s : base_state) : res (option VisibleLayout * base_state) :=
  match b_geometry s with
  | None => Ok (None, warn_dense_once "no forward geometry was stamped" s)
  | Some geometry =>
    match key_segments call with
    | None => Ok (None, warn_dense_once "this KV-cache view is not mapped to latent frames" s)
    | Some segments =>
      if negb (Z.land (head_dim call) (head_dim call - 1) =? 0) || (head_dim call <? 16)
      then Ok (None, warn_dense_once ("head_dim " +:+ pretty (head_dim call) +:+ " is not a power of two >= 16") s)
      else if negb (foldr Z.add 0 segments.*2 =? c_kv_len call)
      then Ok (None, warn_dense_once "key segments disagree with the KV view length" s)
      else
        l ← visible_layout segments geometry (c_q_len call) (key_segment_rope_starts call);
        match l with
        | None => Ok (None, warn_dense_once "the KV view is not aligned to whole latent frames" s)
        | Some l => Ok (Some l, s)
        end
    end
  end.

(** ** The cache of plans *)

Section layout_cache.
Context {Sig V : Type} `{EqDecision Sig}.
Definition LayoutCache : Type := gmap Z (Sig * V).
Definition cache_get (c : LayoutCache) (layer : Z) (signature : Sig) : option V :=
  match c !! layer with
  | Some (s, v) => if decide (s = signature) then Some v else None
  | None => None
  end.
Definition cache_put (c : LayoutCache) (layer : Z) (signature : Sig) (v : V) : LayoutCache := <[layer := (signature, v)]> c.
End layout_cache.

(** ** attend *)

(** [restored.scatter_(1, index, out)]. *)
Definition scatter_rows (perm : nat -> Z -> nat -> Z) (out : gmap (nat * Z * nat) (list (xf F))) : gmap (nat * Z * nat) (list (xf F)) :=
  store_out ∅ ((fun kv : (nat * Z * nat) * list (xf F) => let '(b, i, h) := kv.1 in ((b, perm b i h, h), kv.2)) <$> map_to_list out).

(** The method: its state, with the base state inside, and [prepare]. *)
Context {S : Type} (get_base : S -> base_state) (put_base : base_state -> S -> S).
Context (prepare : SparseAttentionCall -> VisibleLayout -> S -> res (option SparseAttentionExecution * S)).
Context (order : list (nat * nat) -> list (nat * nat)).

Definition attend (call : SparseAttentionCall) (s : S) : res (option (gmap (nat * Z * nat) (list (xf F))) * S) :=
  lb ← layout_of call (get_base s);
  let s := put_base lb.2 s in
  match lb.1 with
  | None => Ok (None, s)
  | Some layout =>
    es ← prepare call layout s;
    let s := es.2 in
    match es.1 with
    | None => Ok (None, put_base (record_density None (c_kv_len call) None (get_base s)) s)
    | Some ex =>
      let s := put_base (record_density (Some (e_plan ex)) (c_kv_len call) None (get_base s)) s in
      out ← sparse_attention order (c_batch call) (num_local_heads call) (c_q_len call) (Z.to_nat (head_dim call))
        (e_query ex) (e_key ex) (e_value ex) (e_plan ex) (softmax_scale call);
      Ok (Some (match query_permutation ex with None => out | Some perm => scatter_rows perm out end), s)
    end
  end.

(** [begin_forward] stamps the geometry and runs the hook of the method. *)
Definition begin_forward (hook : ChunkGeometry -> S -> res S) (g : ChunkGeometry) (s : S) : res S :=
  hook g (put_base (set_geometry g (get_base s)) s).

(** A method without state per forward has the empty hook. *)
Definition on_begin_forward (g : ChunkGeometry) (s : S) : res S := Ok s.

(** ** Runs of a method *)

Inductive backend_event :=
| Forward (g : ChunkGeometry)
| Refreshing (b : bool)               (* entering or leaving [cache_update_scope] *)
| Attending (call : SparseAttentionCall).

Context (begin : ChunkGeometry -> S -> res S) (run_call : SparseAttentionCall -> S -> res (option (gmap (nat * Z * nat) (list (xf F))) * S)).

Definition backend_step (e : backend_event) (s : S) : res S :=
  match e with
  | Forward g => begin g s
  | Refreshing b => Ok (put_base (set_in_cache_update b (get_base s)) s)
  | Attending call => r ← run_call call s; Ok r.2
  end.

Fixpoint backend_run (es : list backend_event) (s : S) : res S :=
  match es with [] => Ok s | e :: es => s' ← backend_step e s; backend_run es s' end.

End backend.
Arguments SparseAttentionCall : clear implicits.
Arguments SparseAttentionExecution : clear implicits.
Arguments base_state : clear implicits.
Arguments backend_event : clear implicits.
Arguments LayoutCache : clear implicits.

(** ** The factory and the process-wide backend ([__init__.py]) *)

(** Methods with the keys their configuration accepts. *)
Definition METHODS : list (string * list string) := [
  ("osa", ["density"; "sparsity"; "sink_chunks"; "sink_latent_frames"; "num_recent_frames"; "keep_own_chunk_full"; "keep_sink_full"; "keep_recent_frames_full";
    "dense_first_steps"; "dense_cache_update"; "chunk_schedule"; "schedule_num_frames"; "schedule_window_frames"; "schedule_floor_density"; "demand_weighted";
    "demand_w_own"; "demand_w_recent"; "demand_w_sink"; "demand_w_hist_scale"; "charge_exempt_frames"; "replan_each_chunk"; "replan_query_stride"; "flat_row_dense";
    "flat_row_retention"; "flat_row_max_fraction"; "spatial_tile"; "query_tile"; "calibration_query_stride"]);
  ("xattention", ["block"; "stride"; "threshold"]);
  ("svg1", ["block"; "band_frames"; "dense_sink_frames"; "num_sampled_blocks"; "key_tile"]);
  ("svg2", ["block"; "cluster_size"; "kmeans_iters"; "kmeans_warm_iters"; "top_p"]);
  ("radial", ["block"; "decay_factor"; "dense_sink_frames"]);
  ("sta", ["kernel_t"; "kernel_h"; "kernel_w"; "tile_h"; "tile_w"; "block"; "dense_sink_frames"]);
  ("fastar", ["block"; "merge_threshold"; "hash_bits"; "probe_hamming"; "dense_steps"; "seed"]);
  ("lightforcing", ["block_q"; "block_k"; "sparsity"; "sparsity_base"; "keep_frames"; "keep_sink"; "keep_near"; "num_output_frames"; "local_attn_size"]);
  ("msa", ["taxonomy_path"; "content_density"; "diffuse_density"; "block_q"; "block_k"; "keep_frames"; "keep_sink"; "keep_near"; "replan_each_step"; "replan_interval";
    "step_density_scale"; "content_schedule"; "schedule_num_frames"; "schedule_floor_density"; "schedule_window_frames"; "lf_sparsity"; "lf_sparsity_base";
    "lf_num_output_frames"; "lf_local_attn_size"])]%string.

Section factory.
Context {V B : Type}.
(** [backend_cls(msgspec.convert(...))] of a method. *)
Context (make : string -> gmap string V -> res B).

Definition build_sparse_attention_backend (method : option string) (config : option (gmap string V)) : res (option B) :=
  match method with
  | None => Ok None
  | Some m =>
      if bool_decide (m = "none"%string) then Ok None
      else match list_find (fun e : string * list string => e.1 = m) METHODS with
           | None => Raise ValueError
           | Some (_, (_, known)) =>
               let config := default ∅ config in
               if forallb (fun k => bool_decide (k ∈ known)) (map_to_list config).*1 then b ← make m config; Ok (Some b) else Raise ValueError
           end
  end.

(** [_backend] and [_resolved]. *)
Record factory_state := mkFactory { f_backend : option B; f_resolved : bool }.

Definition get_sparse_attention_backend (method : option string) (config : option (gmap string V)) (f : factory_state) : res (option B * factory_state) :=
  if f_resolved f then Ok (f_backend f, f)
  else b ← build_sparse_attention_backend method config; Ok (b, mkFactory b true).

Definition set_sparse_attention_backend (b : option B) (_ : factory_state) : factory_state := mkFactory b true.
Definition reset_sparse_attention_backend (_ : factory_state) : factory_state := mkFactory None false.

(** A configuration is used as written: a backend is only built for a method of
    the table and from keys that the method has. *)
Lemma built_backend_known m config b : build_sparse_attention_backend (Some m) config = Ok (Some b) ->
  exists known, (m, known) ∈ METHODS /\ make m (default ∅ config) = Ok b /\ forall k, is_Some (default ∅ config !! k) -> k ∈ known.
Proof.
  unfold build_sparse_attention_backend. intros E. case_bool_decide; [done|]. destruct (list_find _ METHODS) as [[i [m' known]]|] eqn:Ef; [|done].
  apply list_find_Some in Ef as (Hi & Em & _). cbn in Em. subst m'. destruct (forallb _ _) eqn:Ek; [|done]. destruct (make m _) as [b'|] eqn:Eb; [|done]. injection E as <-.
  exists known. split; [by eapply list_elem_of_lookup_2|]. split; [done|]. intros k [v Hk]. rewrite forallb_forall in Ek. specialize (Ek k). apply bool_decide_eq_true in Ek; [done|].
  apply list_elem_of_In, list_elem_of_fmap. exists (k, v). split; [done|]. by apply elem_of_map_to_list.
Qed.

(** Once resolved, the backend stays the same object whatever the arguments. *)
Lemma get_backend_once method config method' config' f b f' : get_sparse_attention_backend method config f = Ok (b, f') -> get_sparse_attention_backend method' config' f' = Ok (b, f').
Proof.
  unfold get_sparse_attention_backend. destruct (f_resolved f) eqn:E; [intros [= <- <-]; by rewrite E|]. destruct (build_sparse_attention_backend method config); [|done]. by intros [= <- <-].
Qed.

End factory.
