(* ===== verification/SparseBackendSpec.v ===== *)
(** * SparseBackendSpec: running a plan undoes the permutation of the queries *)

From Stdlib Require Import Field.
From S2P Require Import Prelude Num SparsePlan SparsePlanSpec SparseKernel SparseKernelSpec SparseClaims SparseContext SparseBackend.

Open Scope Z_scope.

Section spec.
Context {F : Type} `{!Num F} `{!NumExp F} `{!NumLaws F} `{!NumExpLaws F}.
Add Field NumFieldB : (num_field (F:=F)).
Implicit Types out : gmap (nat * Z * nat) (list (xf F)).

(** ** Scattered rows *)

Lemma store_out_dom (ws : list ((nat * Z * nat) * list (xf F))) m key : is_Some (store_out m ws !! key) -> is_Some (m !! key) \/ key ∈ ws.*1.
Proof.
  revert m. induction ws as [|[k v] ws IH]; intros m; [by left|]. intros [Hk|Hk]%IH; [|right; by constructor].
  cbn in Hk. destruct (decide (k = key)) as [->|Hne]; [right; by constructor|]. rewrite lookup_insert_ne in Hk by done. by left.
Qed.

Lemma sparse_attention_dom order batch heads q_len d (query key value : tensor4 F) p scale out b i h : 0 < block_m p ->
  sparse_attention order batch heads q_len d query key value p scale = Ok out -> is_Some (out !! (b, i, h)) -> 0 <= i < q_len.
Proof.
  unfold sparse_attention. intros Hbm E Ho. destruct (_ && _); [done|]. injection E as <-. rewrite run_grid_store in Ho.
  apply store_out_dom in Ho as [[? Ho]|Ho]; [by rewrite lookup_empty in Ho|].
  apply list_elem_of_fmap in Ho as ([k v] & Ek & ([x y] & Hin & Hxy)%list_elem_of_bind). cbn in Ek. subst k.
  unfold range_sparse_attn_kernel in Hin. apply list_elem_of_omap in Hin as (r & Hr & E). apply elem_of_zrange in Hr.
  destruct (Z.ltb_spec (Z.of_nat x * block_m p + r) q_len); [|done]. simplify_eq. lia.
Qed.

Lemma scatter_rows_lookup (perm : nat -> Z -> nat -> Z) out q_len b i h v :
  (forall b i h, is_Some (out !! (b, i, h)) -> 0 <= i < q_len) ->
  (forall b h i j, 0 <= i < q_len -> 0 <= j < q_len -> perm b i h = perm b j h -> i = j) ->
  out !! (b, i, h) = Some v -> scatter_rows perm out !! (b, perm b i h, h) = Some v.
Proof.
  intros Hdom Hinj Hv. unfold scatter_rows. apply store_out_lookup.
  - rewrite <- list_fmap_compose. apply NoDup_fmap_2_strong; [|apply NoDup_map_to_list].
    intros [[[b1 i1] h1] v1] [[[b2 i2] h2] v2] H1%elem_of_map_to_list H2%elem_of_map_to_list E. cbn in E. injection E as -> E ->.
    assert (i1 = i2) as -> by (eapply Hinj; [eapply Hdom; by eexists|eapply Hdom; by eexists|done]). congruence.
  - apply list_elem_of_fmap. exists ((b, i, h), v). split; [done|]. by apply elem_of_map_to_list.
Qed.

(** ** The cache of plans *)

Lemma cache_put_lookup {Sig V} `{EqDecision Sig} (c : LayoutCache Sig V) layer sg v l x : cache_put c layer sg v !! l = Some x ->
  (l = layer /\ x = (sg, v)) \/ (l <> layer /\ c !! l = Some x).
Proof. unfold cache_put, LayoutCache in *. rewrite lookup_insert_Some. naive_solver. Qed.

(** ** The base state *)

Lemma warn_same (w : string) (b : base_state F) : b_geometry (warn_dense_once w b) = b_geometry b /\ in_cache_update (warn_dense_once w b) = in_cache_update b.
Proof. unfold warn_dense_once. by case_match. Qed.

Lemma layout_of_same (call : SparseAttentionCall F) b l b' : layout_of call b = Ok (l, b') -> b_geometry b' = b_geometry b /\ in_cache_update b' = in_cache_update b.
Proof.
  unfold layout_of. intros E. destruct (b_geometry b) as [g|] eqn:Eg; [|injection E as _ <-; rewrite <- Eg; apply warn_same]. rewrite <- Eg. clear Eg.
  destruct (key_segments call); [|injection E as _ <-; apply warn_same]. destruct (_ || _); [injection E as _ <-; apply warn_same|].
  destruct (negb _); [injection E as _ <-; apply warn_same|]. apply bind_Ok_inv in E as ([] & _ & E); injection E as _ <-; [done|apply warn_same].
Qed.

Lemma record_density_same p kv f (b : base_state F) : b_geometry (record_density p kv f b) = b_geometry b /\ in_cache_update (record_density p kv f b) = in_cache_update b.
Proof. unfold record_density. by repeat case_match. Qed.

(** ** The layout of a call *)

Lemma sum_segment_frames L segs : 0 < L -> Forall (fun seg => seg.1 mod L = 0 /\ seg.2 mod L = 0 /\ 0 <= seg.2) segs ->
  Z.of_nat (length (concat ((fun seg => segment_frames L seg.1 seg.2) <$> segs))) * L = foldr Z.add 0 segs.*2.
Proof.
  intros HF. induction 1 as [|[st len] segs (H1 & H2 & H3) _ IH]; csimpl; [done|]. rewrite length_app. cbn in *.
  unfold segment_frames at 1, zrange. rewrite length_seqZ. pose proof (Z.div_mod st L). pose proof (Z.div_mod len L).
  assert ((st + len) / L = st / L + len / L) as ->.
  { rewrite (Z.div_mod st L) at 1 by lia. rewrite H1, Z.add_0_r, Z.mul_comm, Z.div_add_l by lia. done. }
  assert (0 <= len / L) by (apply Z.div_pos; lia). nia.
Qed.

Lemma layout_of_kv_len (call : SparseAttentionCall F) b b' l segs : layout_of call b = Ok (Some l, b') -> key_segments call = Some segs ->
  Forall (fun seg => 0 <= seg.2) segs -> 0 < frame_seqlen l -> kv_len l = c_kv_len call.
Proof.
  unfold layout_of. intros E Es Hpos Hfs. destruct (b_geometry b) as [g|]; [|done]. rewrite Es in E. destruct (_ || _); [done|].
  destruct (Z.eqb_spec (foldr Z.add 0 segs.*2) (c_kv_len call)) as [<-|]; [|done]. cbn in E.
  apply bind_Ok_inv in E as ([l'|] & El & E); [|done]. injection E as -> _.
  unfold visible_layout, query_chunk_index, py_div, py_mod in El. destruct (g_frame_seqlen g =? 0); [done|]. cbn in El.
  destruct (_ || _); [done|]. destruct (existsb _ segs) eqn:Ex; [done|]. destruct (match key_segment_rope_starts call with Some _ => _ | None => _ end); [done|].
  assert (exists gl, gl = concat ((fun seg => segment_frames (g_frame_seqlen g) seg.1 seg.2) <$> segs)) as [gl Egl] by eauto.
  destruct segs as [|sg segs]; [done|]. rewrite <- Egl in El. cbn in El. destruct (chunk_tokens g =? 0); [done|]. cbn in El. injection El as <-.
  unfold kv_len, num_frames. cbn [global_frame_ids frame_seqlen] in *. rewrite Egl. apply sum_segment_frames; [done|].
  apply Forall_forall. intros seg Hseg. rewrite Forall_forall in Hpos. split_and!; [| |by apply Hpos];
    apply dec_stable; intros Hne; assert (existsb (fun seg => negb (seg.1 mod g_frame_seqlen g =? 0) || negb (seg.2 mod g_frame_seqlen g =? 0)) (sg :: segs) = true);
    try congruence; apply existsb_exists; exists seg; (split; [by apply list_elem_of_In|]); apply orb_true_iff; [left|right]; apply negb_true_iff, Z.eqb_neq; done.
Qed.

Lemma visible_layout_query segs g q rope l : visible_layout segs g q rope = Ok (Some l) ->
  q mod frame_seqlen l = 0 /\ query_frames l = q / frame_seqlen l.
Proof.
  unfold visible_layout, query_chunk_index, py_div, py_mod. intros E. destruct (g_frame_seqlen g =? 0); [done|]. cbn in E.
  destruct (negb _ || negb (q mod _ =? 0)) eqn:E1; [done|]. apply orb_false_iff in E1 as [_ E1]. apply negb_false_iff, Z.eqb_eq in E1.
  destruct (existsb _ segs); [done|]. destruct (match rope with Some _ => _ | None => false end); [done|].
  destruct segs; [done|]. cbn in E. destruct (chunk_tokens g =? 0); [done|]. cbn in E. by injection E as <-.
Qed.

(** ** Density *)

(** What [record_density] keeps: the samples lie in the unit interval. *)
Record density_ok (s : base_state F) : Prop := {
  do_calls : 0 <= sparse_calls s /\ 0 <= dense_calls s /\ 0 <= density_samples s;
  do_sum : nle nzero (default nzero (sampled_density_sum s)) /\ nle (default nzero (sampled_density_sum s)) (of_Z (density_samples s)) }.

Lemma nmin_le x y : nle (nmin x y) y.
Proof. unfold nmin. destruct (nleb x y) eqn:E; [done|apply nle_refl]. Qed.

Lemma nmin_nonneg x y : nle nzero x -> nle nzero y -> nle nzero (nmin x y).
Proof. unfold nmin. by destruct (nleb x y). Qed.

Lemma nadd_nonneg x y : nle nzero x -> nle nzero y -> nle nzero (nadd x y).
Proof. intros Hx Hy. pose proof (nle_add_mono _ _ _ _ Hx Hy) as E. by replace (nadd nzero (nzero (F:=F))) with (nzero (F:=F)) in E by ring. Qed.

Lemma ndiv_unit x z : nlt nzero z -> nle nzero x -> nle x z -> nle nzero (ndiv x z) /\ nle (ndiv x z) none.
Proof.
  intros Hz Hx Hxz. pose proof (nlt_ne _ _ Hz). pose proof (nle_div _ _ _ Hz Hx) as H0. pose proof (nle_div _ _ _ Hz Hxz) as H1.
  replace (ndiv nzero z) with (nzero (F:=F)) in H0 by (field; congruence). by replace (ndiv z z) with (none (F:=F)) in H1 by (field; congruence).
Qed.

Lemma foldr_add_nonneg l : Forall (fun x => 0 <= x) l -> 0 <= foldr Z.add 0 l.
Proof. induction 1; simpl; lia. Qed.

Lemma plan_density_nonneg (p : SparseAttentionPlan F) kv : 0 < kv -> (0 < length (range_counts p))%nat ->
  (0 < length (default [] (head (range_counts p))))%nat -> nle nzero (plan_density p kv).
Proof.
  intros Hkv Hh Hq. unfold plan_density. set (den := of_Z (_ * _ * kv)). assert (nlt nzero den) as Hd.
  { unfold den. rewrite <- of_Z_0. apply of_Z_lt. nia. }
  replace nzero with (ndiv nzero den) by (field; apply nlt_ne in Hd; congruence). apply nle_div; [done|]. apply of_Z_le_0.
  apply foldr_add_nonneg, Forall_forall. intros x (row & Hx & Hrow)%list_elem_of_In%in_concat.
  unfold kept_tokens in Hx. apply list_elem_of_In, elem_of_lookup_zip_with in Hx as (i & se & cs & -> & _ & _).
  apply list_elem_of_In, elem_of_lookup_zip_with in Hrow as (j & se' & c & -> & _ & _).
  unfold kept_tokens_row. apply foldr_add_nonneg, Forall_forall. intros x (k & i' & len & -> & _ & Hl)%elem_of_lookup_zip_with.
  apply lookup_zip_with_Some in Hl as (s & e & -> & _ & _). case_match; lia.
Qed.

(** One recorded call: dense, a fraction, or a plan. *)
Definition recorded (r : option (SparseAttentionPlan F) * Z * option F) : Prop :=
  match r with
  | (_, _, Some f) => nle nzero f
  | (Some p, kv, None) => 0 < kv /\ (0 < length (range_counts p))%nat /\ (0 < length (default [] (head (range_counts p))))%nat
  | (None, _, None) => True
  end.

Lemma record_density_ok r s : recorded r -> density_ok s -> density_ok (record_density r.1.1 r.1.2 r.2 s).
Proof.
  destruct r as [[plan kv] frac]. cbn [fst snd recorded]. intros Hr [(Hs & Hd & Hn) [Hs0 Hs1]]. unfold record_density.
  set (sampled := match frac with Some f => nmin f none | None => match plan with Some p => nmin (plan_density p kv) none | None => nzero end end).
  assert (nle nzero sampled /\ nle sampled none) as [Hl Hu].
  { pose proof (nle_0_1 (F:=F)). unfold sampled. destruct frac as [f|]; [split; [apply nmin_nonneg; [by destruct plan|done]|apply nmin_le]|].
    destruct plan as [p|]; [|by split; [apply nle_refl|]]. split; [|apply nmin_le]. apply nmin_nonneg; [|done]. destruct Hr as (? & ? & ?). by apply plan_density_nonneg. }
  assert (nle nzero (nadd (default nzero (sampled_density_sum s)) sampled) /\
    nle (nadd (default nzero (sampled_density_sum s)) sampled) (of_Z (density_samples s + 1))) as Hsum.
  { rewrite of_Z_add, of_Z_1. split; [by apply nadd_nonneg|by apply nle_add_mono]. }
  destruct plan, frac; cbn [sparse_calls dense_calls density_samples sampled_density_sum];
    repeat match goal with |- context [(?a mod ?b =? 1)] => destruct (a mod b =? 1) end; by split; cbn; [split_and!; lia|].
Qed.

Lemma density_ok_unit s : density_ok s -> nle nzero (density s) /\ nle (density s) none.
Proof.
  intros [(Hs & Hd & Hn) [Hs0 Hs1]]. unfold density. pose proof (nle_0_1 (F:=F)).
  destruct (Z.eqb_spec (sparse_calls s + dense_calls s) 0) as [|Hc]; [by split; [|apply nle_refl]|].
  set (sampled := if density_samples s =? 0 then none else _). assert (nle nzero sampled /\ nle sampled none) as [Hl Hu].
  { unfold sampled. destruct (Z.eqb_spec (density_samples s) 0); [by split; [|apply nle_refl]|].
    apply ndiv_unit; [rewrite <- of_Z_0; apply of_Z_lt; lia|done..]. }
  pose proof (of_Z_le_0 _ Hs). pose proof (of_Z_le_0 _ Hd). apply ndiv_unit; [rewrite <- of_Z_0; apply of_Z_lt; lia| |].
  - apply nadd_nonneg; [done|]. by apply nle_mul.
  - rewrite of_Z_add.
    replace (nadd (of_Z (sparse_calls s)) (of_Z (dense_calls s))) with (nadd (of_Z (dense_calls s)) (nmul (of_Z (sparse_calls s)) none)) by ring.
    apply nle_add_mono; [apply nle_refl|]. by apply nmul_le_mono.
Qed.

End spec.
