(* ===== verification/CausalCache.v ===== *)
(** * CausalCache: the rolling K/V cache of a causal video model

    Models [src/python/sglang/multimodal_gen/runtime/layers/kvcache/causal_attention_cache.py]
    and, of [runtime/models/dits/causal_wanvideo.py], [visible_key_segments] and
    the block-causal mask of attention without a cache.  A
    buffer is a list of token rows, a row a list of heads; a head of type [A]
    stands for the vectors of all batch elements.  An update that raises ends
    the run: what it wrote before raising is not modelled. *)

From S2P Require Import Prelude SparsePlan.

Open Scope Z_scope.

(** Rows of heads. *)
Abbreviation rows A := (list (list A)).

Section cache.
Context {A : Type}.
(** Content of fresh memory ([new_zeros]). *)
Context (zero : A).

Record CausalSelfAttentionKVCache := mkKVCache {
  kc_k : rows A;
  kc_v : rows A;
  kc_heads : nat;                     (* k.shape[2] *)
  global_end_index : Z;
  local_end_index : Z;
  global_end_index_int : option Z;
  local_end_index_int : option Z;
  cache_size : Z;
  sink_tokens : Z;
  attention_window_size : Z;
  allow_growth : bool;
  global_sink_tokens : Z;
  pinned_start : Z;
  pinned_len : Z }.

Implicit Types c : CausalSelfAttentionKVCache.

Definition put_kv k v c := mkKVCache k v (kc_heads c) (global_end_index c) (local_end_index c) (global_end_index_int c) (local_end_index_int c) (cache_size c) (sink_tokens c) (attention_window_size c) (allow_growth c) (global_sink_tokens c) (pinned_start c) (pinned_len c).
Definition put_pinned st len c := mkKVCache (kc_k c) (kc_v c) (kc_heads c) (global_end_index c) (local_end_index c) (global_end_index_int c) (local_end_index_int c) (cache_size c) (sink_tokens c) (attention_window_size c) (allow_growth c) (global_sink_tokens c) st len.
Definition put_indices g l gi li c := mkKVCache (kc_k c) (kc_v c) (kc_heads c) g l gi li (cache_size c) (sink_tokens c) (attention_window_size c) (allow_growth c) (global_sink_tokens c) (pinned_start c) (pinned_len c).
Definition put_sizes size window c := mkKVCache (kc_k c) (kc_v c) (kc_heads c) (global_end_index c) (local_end_index c) (global_end_index_int c) (local_end_index_int c) size (sink_tokens c) window (allow_growth c) (global_sink_tokens c) (pinned_start c) (pinned_len c).

Definition kv_post_init c : CausalSelfAttentionKVCache :=
  let size := if cache_size c =? 0 then Z.of_nat (length (kc_k c)) else cache_size c in
  put_sizes size (if attention_window_size c =? 0 then size else attention_window_size c) c.

Definition reset_pinned_sink c := put_pinned (-1) 0 c.

Definition reset_indices c : CausalSelfAttentionKVCache :=
  reset_pinned_sink (put_indices 0 0 ((fun _ => 0) <$> global_end_index_int c) ((fun _ => 0) <$> local_end_index_int c) c).

(** [_read_indices] fills the host copies. *)
Definition read_indices c : (Z * Z) * CausalSelfAttentionKVCache :=
  match global_end_index_int c, local_end_index_int c with
  | Some g, Some l => ((g, l), c)
  | _, _ => ((global_end_index c, local_end_index c),
             put_indices (global_end_index c) (local_end_index c) (Some (global_end_index c)) (Some (local_end_index c)) c)
  end.

Definition write_indices (g l : Z) c : CausalSelfAttentionKVCache :=
  if bool_decide (global_end_index_int c = Some g) && bool_decide (local_end_index_int c = Some l) then c
  else put_indices g l ((fun _ => g) <$> global_end_index_int c) ((fun _ => l) <$> local_end_index_int c) c.

Definition pin_current_chunk (current_num_tokens : Z) c : CausalSelfAttentionKVCache :=
  if (sink_tokens c <=? 0) || (current_num_tokens <=? 0) then reset_pinned_sink c
  else
    let '((_, l), c) := read_indices c in
    put_pinned (l - current_num_tokens) (Z.min (sink_tokens c) current_num_tokens) c.

Definition has_pinned_sink c : bool := (0 <=? pinned_start c) && (0 <? pinned_len c).

Definition effective_sink_tokens c : Z :=
  if has_pinned_sink c then
    if pinned_start c =? global_sink_tokens c then global_sink_tokens c + pinned_len c else global_sink_tokens c
  else Z.max (global_sink_tokens c) (sink_tokens c).

(** ** Buffers *)

(** [buf[:, a:b]] for non-negative bounds. *)
Definition slice_rows {B} (a b : Z) (buf : list B) : list B := take (Z.to_nat (b - a)) (drop (Z.to_nat a) buf).

(** Heads [st .. st + n) of a row, and their replacement. *)
Definition head_slice (hs : option Z) (n : nat) (row : list A) : list A :=
  match hs with None => row | Some st => take n (drop (Z.to_nat st) row) end.
Definition set_heads (hs : option Z) (old new : list A) : list A :=
  match hs with None => new | Some st => take (Z.to_nat st) old ++ new ++ drop (Z.to_nat st + length new) old end.

(** [buf[:, a:b(, heads)] = src]: the slice is cut at the end of the buffer and
    must have as many rows as the source. *)
Definition assign_rows (hs : option Z) (a b : Z) (src buf : rows A) : res (rows A) :=
  let old := slice_rows a b buf in
  if negb (Nat.eqb (length old) (length src)) then Raise RuntimeError
  else Ok (take (Z.to_nat a) buf ++ zip_with (set_heads hs) old src ++ drop (Z.to_nat a + length src) buf).

Definition grow_to_fit (required_tokens : Z) c : CausalSelfAttentionKVCache :=
  if required_tokens <=? cache_size c then c
  else
    let old := cache_size c in
    let new := Z.max required_tokens (old * 2) in
    let grow buf := buf ++ replicate (Z.to_nat new - length buf) (replicate (kc_heads c) zero) in
    put_sizes new (if attention_window_size c =? old then new else attention_window_size c) (put_kv (grow (kc_k c)) (grow (kc_v c)) c).

Definition can_direct_current_attention (num_new_tokens : Z) c : bool :=
  (sink_tokens c =? 0) && (cache_size c =? num_new_tokens) && (attention_window_size c =? num_new_tokens).

(** ** Views *)

Record CausalAttentionKVView := mkView {
  view_k : rows A;
  view_v : rows A;
  view_local_start : Z;
  view_local_end : Z;
  visible_local_end : Z;
  visible_global_end : Z }.

Definition cache_slice (hs : option Z) (n : nat) (ab : Z * Z) c : rows A * rows A :=
  (head_slice hs n <$> slice_rows ab.1 ab.2 (kc_k c), head_slice hs n <$> slice_rows ab.1 ab.2 (kc_v c)).

Definition cat_cache_slices (hs : option Z) (n : nat) (slices : list (Z * Z)) c : rows A * rows A :=
  (concat ((fun ab => (cache_slice hs n ab c).1) <$> slices), concat ((fun ab => (cache_slice hs n ab c).2) <$> slices)).

Definition pinned_attention_view (hs : option Z) (n : nat) (attn_start updated_local_end : Z) c : rows A * rows A :=
  let sink := effective_sink_tokens c in
  let prepend_sink := (0 <? sink) && (0 <? attn_start) in
  let prepend_pinned := has_pinned_sink c && (sink <=? pinned_start c) && (pinned_start c <? attn_start) in
  let pinned := (pinned_start c, pinned_start c + pinned_len c) in
  if prepend_sink && prepend_pinned then
    let window := Z.max 0 (attention_window_size c - (sink + pinned_len c)) in
    cat_cache_slices hs n [(0, sink); pinned; (Z.max sink (updated_local_end - window), updated_local_end)] c
  else if prepend_sink then
    let window := Z.max 0 (attention_window_size c - sink) in
    cat_cache_slices hs n [(0, sink); (Z.max sink (updated_local_end - window), updated_local_end)] c
  else if prepend_pinned then
    let window := Z.max 0 (attention_window_size c - pinned_len c) in
    cat_cache_slices hs n [pinned; (Z.max 0 (updated_local_end - window), updated_local_end)] c
  else cache_slice hs n (attn_start, updated_local_end) c.

Definition visible_attention_kv (hs : option Z) (n : nat) (local_start updated_local_end attn_start : Z) (recent_window_tokens : option Z) c :
    res (rows A * rows A) :=
  match recent_window_tokens with
  | None =>
      if (0 <? global_sink_tokens c) || has_pinned_sink c then Ok (pinned_attention_view hs n attn_start updated_local_end c)
      else Ok (cache_slice hs n (attn_start, updated_local_end) c)
  | Some w =>
      if w <? 0 then Raise ValueError
      else
        let sink_end := Z.min (effective_sink_tokens c) updated_local_end in
        let recent_start := Z.max sink_end (local_start - w) in
        if recent_start <=? sink_end then Ok (cache_slice hs n (0, updated_local_end) c)
        else
          let slices := (if 0 <? sink_end then [(0, sink_end)] else []) ++
            (if has_pinned_sink c && (sink_end <=? pinned_start c) && (pinned_start c <? recent_start)
             then [(pinned_start c, pinned_start c + pinned_len c)] else []) ++ [(recent_start, updated_local_end)] in
          Ok (cat_cache_slices hs n slices c)
  end.

(** ** Updates *)

(** Roll the rows after the sink to the front; a failing copy stops. *)
Definition roll (hs : option Z) (n : nat) (sink evicted rolled : Z) c : res CausalSelfAttentionKVCache :=
  if 0 <? rolled then
    let move buf := assign_rows hs sink (sink + rolled) (head_slice hs n <$> slice_rows (sink + evicted) (sink + evicted + rolled) buf) buf in
    k ← move (kc_k c);
    v ← move (kc_v c);
    Ok (put_kv k v c)
  else Ok c.

(** Where the chunk goes: local start and end, the new ends, and the cache
    after growth and eviction. *)
Definition place_chunk (hs : option Z) (n : nat) (num_new chunk_start : Z) c : res (Z * Z * Z * Z * CausalSelfAttentionKVCache) :=
  let chunk_end := chunk_start + num_new in
  let sink := effective_sink_tokens c in
  let '((g, l), c) := read_indices c in
  if chunk_end <=? g then
    let local_start := chunk_start - (g - l) in
    Ok (local_start, local_start + num_new, l, g, c)
  else
    let appended := chunk_end - g in
    let c := if allow_growth c then grow_to_fit (l + appended) c else c in
    if cache_size c <? l + appended then
      let evicted := l + appended - cache_size c in
      c ← roll hs n sink evicted (Z.max 0 (l - evicted - sink)) c;
      let c := if has_pinned_sink c && (sink <=? pinned_start c) then put_pinned (pinned_start c - evicted) (pinned_len c) c else c in
      Ok (cache_size c - num_new, cache_size c, cache_size c, chunk_end, c)
    else Ok (l + appended - num_new, l + appended, l + appended, chunk_end, c).

Definition update_and_get_attention_kv (key value : rows A) (num_input_heads : nat) (chunk_start : Z) (cache_head_start recent_window_tokens : option Z) c :
    res (CausalAttentionKVView * CausalSelfAttentionKVCache) :=
  let num_new := Z.of_nat (length key) in
  hs ← (if Nat.eqb (kc_heads c) num_input_heads then Ok None
        else match cache_head_start with None => Raise ValueError | Some st => Ok (Some st) end);
  p ← place_chunk hs num_input_heads num_new chunk_start c;
  let '(local_start, local_end, updated_local_end, updated_global_end, c) := p in
  if (local_start <? 0) || (cache_size c <? local_end) || negb (local_end - local_start =? num_new) then Raise RuntimeError
  else
    let attn_start := Z.max 0 (updated_local_end - attention_window_size c) in
    k ← assign_rows hs local_start local_end key (kc_k c);
    v ← assign_rows hs local_start local_end value (kc_v c);
    let c := put_kv k v c in
    kv ← visible_attention_kv hs num_input_heads local_start updated_local_end attn_start recent_window_tokens c;
    Ok (mkView kv.1 kv.2 local_start local_end updated_local_end updated_global_end, write_indices updated_global_end updated_local_end c).

(** ** Global positions of a view (causal_wanvideo.py) *)

Definition visible_key_segments c (view : CausalAttentionKVView) : option (list (Z * Z)) :=
  if negb (global_sink_tokens c =? 0) || (0 <? pinned_len c) then None
  else
    let num_keys := Z.of_nat (length (view_k view)) in
    let local_end := visible_local_end view in
    let local_start := local_end - num_keys in
    let shift := visible_global_end view - local_end in
    let sink := Z.min (sink_tokens c) local_end in
    if sink <=? local_start then Some [(local_start + shift, num_keys)]
    else if local_end <=? sink then Some [(local_start, num_keys)]
    else Some [(local_start, sink - local_start); (sink + shift, local_end - sink)].

(** [CausalWanSelfAttention.forward] with a cache: the keys and values a layer
    attends over, where they are in the video, and the cache after the pass.
    When the chunk fills cache and window and there is no sink, the cache is
    neither written nor read. *)
Definition self_attention_kv (key value : rows A) (num_input_heads : nat) (current_start : Z) (cache_head_start : option Z) c :
    res ((rows A * rows A * option (list (Z * Z))) * CausalSelfAttentionKVCache) :=
  let num_new := Z.of_nat (length key) in
  if can_direct_current_attention num_new c then Ok ((key, value, Some [(current_start, num_new)]), c)
  else
    r ← update_and_get_attention_kv key value num_input_heads current_start cache_head_start None c;
    Ok ((view_k r.1, view_v r.1, visible_key_segments r.2 r.1), r.2).

End cache.
Arguments CausalSelfAttentionKVCache : clear implicits.
Arguments CausalAttentionKVView : clear implicits.

(** ** Attention without a cache (causal_wanvideo.py) *)

(** Tokens are padded to a multiple of 128 on the right. *)
Definition padded_length (n : Z) : Z := cdiv n 128 * 128 - n.

(** [x[:, :, :-padded]]; [-0] is [0]. *)
Definition drop_padding {X} (padded : Z) (out : list X) : list X := if padded =? 0 then [] else take (length out - Z.to_nat padded) out.

(** [ends[tmp : tmp + block] = tmp + block]. *)
Definition fill_block (block tmp : Z) (ends : list Z) : list Z :=
  imap (fun i e => if (tmp <=? Z.of_nat i) && (Z.of_nat i <? tmp + block) then tmp + block else e) ends.

(** The end of the block of every token, 0 for padding. *)
Definition blockwise_ends (num_frames frame_seqlen num_frame_per_block : Z) : res (list Z) :=
  let total := num_frames * frame_seqlen in
  let block := frame_seqlen * num_frame_per_block in
  if block <=? 0 then Raise RuntimeError
  else Ok (foldl (fun ends tmp => fill_block block tmp ends) (replicate (Z.to_nat (total + padded_length total)) 0) (zrange_step 0 total block)).

(** [attention_mask] of [_prepare_blockwise_causal_attn_mask]. *)
Definition attention_mask (ends : list Z) (local_attn_size frame_seqlen q_idx kv_idx : Z) : bool :=
  let e := default 0 (ends !! Z.to_nat q_idx) in
  if local_attn_size =? -1 then (kv_idx <? e) || (q_idx =? kv_idx)
  else ((kv_idx <? e) && (e - local_attn_size * frame_seqlen <=? kv_idx)) || (q_idx =? kv_idx).
