(* ===== verification/CausalCacheSpec.v ===== *)
(** * CausalCacheSpec: what the rolling cache holds

    The history is the list of the latest rows of all tokens of the video.  The
    buffer holds its sink rows in place and the rest shifted by what was
    evicted. *)

From S2P Require Import Prelude SparsePlan SparsePlanSpec CausalCache.

Open Scope Z_scope.

Section spec.
Context {A : Type} (zero : A).
Implicit Types (c : CausalSelfAttentionKVCache A) (K V buf src : rows A).

(** ** Overwriting rows *)

Definition overwrite {B} (a : Z) (src buf : list B) : list B := take (Z.to_nat a) buf ++ src ++ drop (Z.to_nat a + length src) buf.

Lemma overwrite_lookup {B} a (src buf : list B) i : 0 <= a <= Z.of_nat (length buf) -> 0 <= i ->
  overwrite a src buf !! Z.to_nat i = if decide (a <= i < a + Z.of_nat (length src)) then src !! Z.to_nat (i - a) else buf !! Z.to_nat i.
Proof.
  intros Ha Hi. unfold overwrite. assert (length (take (Z.to_nat a) buf) = Z.to_nat a) as Hl by (rewrite length_take; lia). case_decide as Hd.
  - rewrite lookup_app_r by lia. rewrite lookup_app_l by lia. f_equal. lia.
  - destruct (decide (i < a)).
    + rewrite lookup_app_l by lia. by rewrite lookup_take_lt by lia.
    + rewrite lookup_app_r by lia. rewrite lookup_app_r by lia. rewrite lookup_drop. f_equal. lia.
Qed.

Lemma length_overwrite {B} a (src buf : list B) : 0 <= a <= Z.of_nat (length buf) ->
  Z.of_nat (length (overwrite a src buf)) = Z.max (Z.of_nat (length buf)) (a + Z.of_nat (length src)).
Proof. intros Ha. unfold overwrite. rewrite !length_app, length_take, length_drop. lia. Qed.

Lemma slice_rows_lookup {B} a b (buf : list B) i : 0 <= a -> 0 <= i -> slice_rows a b buf !! Z.to_nat i = if decide (i < b - a) then buf !! Z.to_nat (a + i) else None.
Proof.
  intros Ha Hi. unfold slice_rows. case_decide.
  - rewrite lookup_take_lt, lookup_drop by lia. f_equal. lia.
  - apply lookup_take_ge. lia.
Qed.

Lemma length_slice_rows {B} a b (buf : list B) : 0 <= a <= b -> b <= Z.of_nat (length buf) -> Z.of_nat (length (slice_rows a b buf)) = b - a.
Proof. intros. unfold slice_rows. rewrite length_take, length_drop. lia. Qed.

Lemma zip_with_snd {B C} (l : list B) (k : list C) : length l = length k -> zip_with (fun _ y => y) l k = k.
Proof. revert k. induction l as [|x l IH]; intros [|y k] E; try done. simpl. f_equal. apply IH. simpl in E. lia. Qed.

Lemma assign_rows_Ok a b src buf : 0 <= a <= b -> b <= Z.of_nat (length buf) -> Z.of_nat (length src) = b - a ->
  assign_rows None a b src buf = Ok (overwrite a src buf).
Proof.
  intros Ha Hb Hs. unfold assign_rows. pose proof (length_slice_rows a b buf Ha Hb).
  replace (Nat.eqb (length (slice_rows a b buf)) (length src)) with true by (symmetry; apply Nat.eqb_eq; lia). cbn [negb].
  unfold overwrite. f_equal. f_equal. f_equal. change (set_heads None) with (fun _ y : list A => y). apply zip_with_snd. lia.
Qed.

(** ** The invariant *)

(** The global position of local row [i]. *)
Definition global_pos (sink shift i : Z) : Z := if i <? sink then i else i + shift.

Definition holds (K buf : rows A) (sink shift l : Z) : Prop :=
  forall i, 0 <= i < l -> buf !! Z.to_nat i = K !! Z.to_nat (global_pos sink shift i).

Definition ends c : Z * Z := (read_indices c).1.

Record cache_ok c K V : Prop := {
  ck_len : Z.of_nat (length (kc_k c)) = cache_size c /\ Z.of_nat (length (kc_v c)) = cache_size c;
  ck_hist : Z.of_nat (length K) = (ends c).1 /\ Z.of_nat (length V) = (ends c).1;
  ck_ends : 0 <= (ends c).2 <= (ends c).1 /\ (ends c).2 <= cache_size c;
  ck_sink : 0 <= sink_tokens c /\ global_sink_tokens c = 0 /\ pinned_start c = -1 /\ pinned_len c = 0;
  ck_window : 0 <= attention_window_size c;
  ck_full : allow_growth c = false -> (ends c).2 = Z.min (ends c).1 (cache_size c);
  ck_k : holds K (kc_k c) (sink_tokens c) ((ends c).1 - (ends c).2) (ends c).2;
  ck_v : holds V (kc_v c) (sink_tokens c) ((ends c).1 - (ends c).2) (ends c).2 }.

(** A chunk of [n] rows at [start] that the cache can take. *)
Definition chunk_ok c (start n : Z) : Prop :=
  0 <= start <= (ends c).1 /\ 0 < n /\ (allow_growth c = true \/ sink_tokens c + n <= cache_size c) /\
  ((ends c).1 = (ends c).2 \/ sink_tokens c + ((ends c).1 - (ends c).2) <= start).

(** Rows written in place keep the rest. *)
Lemma holds_write K buf sink shift l l' start n src : holds K buf sink shift l -> 0 <= sink -> 0 <= shift -> 0 <= l <= l' ->
  Z.of_nat (length src) = n -> 0 <= start <= Z.of_nat (length K) -> start = l' - n + shift \/ (l' = l /\ start + n - shift <= l) ->
  l' - n <= l -> l' <= Z.of_nat (length buf) -> 0 <= start - shift -> shift = 0 \/ sink + shift <= start ->
  holds (overwrite start src K) (overwrite (start - shift) src buf) sink shift l'.
Proof.
  intros Hh Hs Hsh Hl Hn HK Hst Hl' Hb Hp Hsk i Hi. unfold global_pos.
  assert (0 <= start - shift <= Z.of_nat (length buf)) by lia.
  rewrite overwrite_lookup by lia. destruct (Z.ltb_spec i sink).
  - rewrite overwrite_lookup by lia. destruct Hsk as [->|Hsk].
    + rewrite !Z.sub_0_r. case_decide; [done|]. rewrite Hh by lia. unfold global_pos. by destruct (Z.ltb_spec i sink); [|lia].
    + rewrite !decide_False by lia. rewrite Hh by lia. unfold global_pos. by destruct (Z.ltb_spec i sink); [|lia].
  - rewrite overwrite_lookup by lia. destruct (decide (start - shift <= i < start - shift + Z.of_nat (length src))).
    + rewrite decide_True by lia. f_equal. lia.
    + rewrite decide_False by lia. rewrite Hh by lia. unfold global_pos. by destruct (Z.ltb_spec i sink); [lia|].
Qed.

(** Rolling by [e] keeps the sink and shifts the rest. *)
Lemma holds_roll K buf sink shift l e : holds K buf sink shift l -> 0 <= sink -> 0 <= shift -> 0 <= e -> sink + e <= l -> l <= Z.of_nat (length buf) ->
  holds K (overwrite sink (slice_rows (sink + e) l buf) buf) sink (shift + e) (l - e).
Proof.
  intros Hh Hs Hsh He Hl Hb i Hi. pose proof (length_slice_rows (sink + e) l buf ltac:(lia) Hb) as Hsl.
  rewrite overwrite_lookup by lia. unfold global_pos. destruct (Z.ltb_spec i sink).
  - rewrite decide_False by lia. rewrite Hh by lia. unfold global_pos. by destruct (Z.ltb_spec i sink); [|lia].
  - rewrite decide_True by lia. rewrite slice_rows_lookup by lia. rewrite decide_True by lia. rewrite Hh by lia. unfold global_pos.
    destruct (Z.ltb_spec (sink + e + (i - sink)) sink); [lia|]. f_equal. lia.
Qed.

(** ** Placing a chunk *)

(** Settings that updates keep. *)
Definition same_settings c c' : Prop :=
  kc_heads c' = kc_heads c /\ sink_tokens c' = sink_tokens c /\ global_sink_tokens c' = global_sink_tokens c /\
  pinned_start c' = pinned_start c /\ pinned_len c' = pinned_len c /\ allow_growth c' = allow_growth c /\
  (allow_growth c = false -> cache_size c' = cache_size c /\ attention_window_size c' = attention_window_size c).

(** Both host copies of the ends are set. *)
Definition host_ends c : Prop := global_end_index_int c = Some (ends c).1 /\ local_end_index_int c = Some (ends c).2.

(** The cache before the chunk is written: the buffers hold the history up to
    local row [l0] under the shift the chunk will have. *)
Record placed c c1 K V (start n ls l' g' l0 : Z) : Prop := {
  pl_settings : same_settings c c1;
  pl_host : is_Some (global_end_index_int c1) /\ is_Some (local_end_index_int c1);
  pl_len : Z.of_nat (length (kc_k c1)) = cache_size c1 /\ Z.of_nat (length (kc_v c1)) = cache_size c1;
  pl_window : 0 <= attention_window_size c1;
  pl_end : g' = Z.max (ends c).1 (start + n) /\ ls = start - (g' - l') /\ 0 <= g' - l' /\ 0 <= ls;
  pl_room : 0 <= l0 <= l' /\ l' <= cache_size c1 /\ l' - n <= l0;
  pl_tail : start = l' - n + (g' - l') \/ (l' = l0 /\ start + n - (g' - l') <= l0);
  pl_sink : g' - l' = 0 \/ sink_tokens c + (g' - l') <= start;
  pl_fill : allow_growth c = false -> l' = Z.min g' (cache_size c);
  pl_k : holds K (kc_k c1) (sink_tokens c) (g' - l') l0;
  pl_v : holds V (kc_v c1) (sink_tokens c) (g' - l') l0 }.

Lemma read_indices_same c : let c0 := (read_indices c).2 in
  same_settings c c0 /\ kc_k c0 = kc_k c /\ kc_v c0 = kc_v c /\ cache_size c0 = cache_size c /\ attention_window_size c0 = attention_window_size c /\
  global_end_index_int c0 = Some (ends c).1 /\ local_end_index_int c0 = Some (ends c).2.
Proof. unfold ends, read_indices, same_settings. destruct (global_end_index_int c) eqn:E1, (local_end_index_int c) eqn:E2; cbn; by split_and!. Qed.

Lemma ck_unpinned c K V : cache_ok c K V -> has_pinned_sink c = false /\ effective_sink_tokens c = sink_tokens c.
Proof.
  intros Hc. destruct (ck_sink _ _ _ Hc) as (H0 & Hg & Hp & Hpl). unfold effective_sink_tokens, has_pinned_sink. rewrite Hp, Hg. cbn. split; [done|]. lia.
Qed.

Lemma holds_less K buf sink shift l l2 : holds K buf sink shift l -> l2 <= l -> holds K buf sink shift l2.
Proof. intros Hh Hl i Hi. apply Hh. lia. Qed.

Lemma holds_app K buf more sink shift l : holds K buf sink shift l -> l <= Z.of_nat (length buf) -> holds K (buf ++ more) sink shift l.
Proof. intros Hh Hl i Hi. rewrite lookup_app_l by lia. by apply Hh. Qed.

(** Eviction: a roll by [e] leaves the buffers as [holds_roll] says. *)
Lemma roll_ok c K V n sink shift l e : holds K (kc_k c) sink shift l -> holds V (kc_v c) sink shift l -> 0 <= sink -> 0 <= shift -> 0 <= e -> sink + e <= l ->
  l <= Z.of_nat (length (kc_k c)) -> l <= Z.of_nat (length (kc_v c)) ->
  exists k v, roll None n sink e (Z.max 0 (l - e - sink)) c = Ok (put_kv k v c) /\ length k = length (kc_k c) /\ length v = length (kc_v c) /\
    holds K k sink (shift + e) (l - e) /\ holds V v sink (shift + e) (l - e).
Proof.
  intros Hk Hv Hs Hsh He Hl Hlk Hlv. unfold roll. destruct (Z.ltb_spec 0 (Z.max 0 (l - e - sink))) as [Hr|Hr].
  - replace (Z.max 0 (l - e - sink)) with (l - e - sink) by lia. replace (sink + e + (l - e - sink)) with l by lia.
    change (head_slice (A:=A) None n) with (@id (list A)). rewrite !list_fmap_id.
    pose proof (length_slice_rows (sink + e) l (kc_k c) ltac:(lia) Hlk) as H1. pose proof (length_slice_rows (sink + e) l (kc_v c) ltac:(lia) Hlv) as H2.
    rewrite !assign_rows_Ok by lia. cbn [mbind res_bind]. eexists _, _. split; [done|].
    pose proof (length_overwrite sink (slice_rows (sink + e) l (kc_k c)) (kc_k c) ltac:(lia)).
    pose proof (length_overwrite sink (slice_rows (sink + e) l (kc_v c)) (kc_v c) ltac:(lia)).
    split; [lia|]. split; [lia|]. split; apply holds_roll; done || lia.
  - exists (kc_k c), (kc_v c). split; [by destruct c|]. split; [done|]. split; [done|]. assert (l - e = sink) as -> by lia.
    split; intros i Hi; [rewrite Hk by lia|rewrite Hv by lia]; unfold global_pos; by destruct (Z.ltb_spec i sink); [|lia].
Qed.

Lemma grow_to_fit_ok req c K V sink shift l : Z.of_nat (length (kc_k c)) = cache_size c -> Z.of_nat (length (kc_v c)) = cache_size c -> 0 <= attention_window_size c ->
  holds K (kc_k c) sink shift l -> holds V (kc_v c) sink shift l -> l <= cache_size c ->
  let c' := grow_to_fit zero req c in
  Z.of_nat (length (kc_k c')) = cache_size c' /\ Z.of_nat (length (kc_v c')) = cache_size c' /\ 0 <= attention_window_size c' /\
  holds K (kc_k c') sink shift l /\ holds V (kc_v c') sink shift l /\ req <= cache_size c' /\ cache_size c <= cache_size c' /\
  (allow_growth c = true -> same_settings c c') /\ global_end_index_int c' = global_end_index_int c /\ local_end_index_int c' = local_end_index_int c.
Proof.
  intros Hlk Hlv Hw Hk Hv Hl. unfold grow_to_fit. cbv zeta. destruct (Z.leb_spec req (cache_size c)); [by split_and!|]. cbn.
  rewrite !length_app, !length_replicate. split_and!; try lia; try done; [case_match; lia|apply holds_app; [done|lia]|apply holds_app; [done|lia]|].
  intros Hg. unfold same_settings. cbn. split_and!; try done; congruence.
Qed.

Lemma place_chunk_ok c K V n start hn : cache_ok c K V -> chunk_ok c start n ->
  exists ls l' g' l0 c1, place_chunk zero None hn n start c = Ok (ls, ls + n, l', g', c1) /\ placed c c1 K V start n ls l' g' l0.
Proof.
  intros Hc (Hst & Hn & Hfit & Hcov). pose proof Hc as [[Hlk Hlv] [HK HV] [Hl Hls] (Hsk & Hgs & Hps & Hpl) Hw Hfull Hk Hv].
  destruct (ck_unpinned _ _ _ Hc) as [Hun Heff]. destruct (read_indices_same c) as (Hset & Ek & Ev & Ecs & Eaw & Egi & Eli). revert Hset Ek Ev Ecs Eaw Egi Eli.
  unfold place_chunk. rewrite Heff. change (read_indices c).1 with (ends c) in *.
  destruct (read_indices c) as [gl c0] eqn:Er. assert (gl = ends c) as -> by (unfold ends; by rewrite Er). cbn [fst snd].
  destruct (ends c) as [g l] eqn:Ee. cbn [fst snd] in *. intros Hset Ek Ev Ecs Eaw Egi Eli. set (sink := sink_tokens c) in *.
  destruct (Z.leb_spec (start + n) g) as [Hin|Hout].
  { exists (start - (g - l)), l, g, l, c0. split; [done|]. split; rewrite ?Ee, ?Ek, ?Ev, ?Ecs, ?Eaw; cbn [fst snd]; try done; try (by rewrite ?Egi, ?Eli); try lia. }
  assert (allow_growth c0 = allow_growth c) as Eag by apply Hset.
  destruct (allow_growth c) eqn:Ega; rewrite Eag.
  - destruct (grow_to_fit_ok (l + (start + n - g)) c0 K V sink (g - l) l) as (G1 & G2 & G3 & G4 & G5 & G6 & G7 & G8 & G9 & G10);
      [congruence|congruence|congruence|by rewrite Ek|by rewrite Ev|lia|]. specialize (G8 ltac:(congruence)).
    set (c2 := grow_to_fit zero (l + (start + n - g)) c0) in *. destruct (Z.ltb_spec (cache_size c2) (l + (start + n - g))); [lia|].
    exists (l + (start + n - g) - n), (l + (start + n - g)), (start + n), l, c2. split; [by rewrite Z.sub_add|].
    split; rewrite ?Ee; cbn [fst snd]; try done; try lia; [|by rewrite G9, G10, Egi, Eli|congruence| |].
    + destruct Hset as (?&?&?&?&?&?&?), G8 as (?&?&?&?&?&?&?). unfold same_settings. split_and!; try congruence.
    + by replace (start + n - (l + (start + n - g))) with (g - l) by lia.
    + by replace (start + n - (l + (start + n - g))) with (g - l) by lia.
  - destruct Hfit as [?|Hfit]; [done|]. rewrite Ecs. destruct (Z.ltb_spec (cache_size c) (l + (start + n - g))) as [Hev|Hno].
    + set (e := l + (start + n - g) - cache_size c). destruct (roll_ok c0 K V hn sink (g - l) l e) as (k & v & Er' & Lk & Lv & R1 & R2);
        [by rewrite Ek|by rewrite Ev|lia|lia|lia|lia|by rewrite Ek; lia|by rewrite Ev; lia|].
      rewrite Er'. cbn [mbind res_bind]. assert (has_pinned_sink (put_kv k v c0) = false) as ->.
      { destruct Hset as (_ & _ & _ & Hp0 & _). unfold has_pinned_sink. cbn. by rewrite Hp0, Hps. }
      cbn [andb]. exists (cache_size c - n), (cache_size c), (start + n), (l - e), (put_kv k v c0).
      split; [cbn [cache_size put_kv]; by rewrite Ecs, Z.sub_add|].
      split; rewrite ?Ee; cbn [fst snd kc_k kc_v put_kv cache_size attention_window_size global_end_index_int local_end_index_int]; try done; try lia.
      * rewrite Lk, Lv, Ek, Ev, Ecs. done.
      * by replace (start + n - cache_size c) with (g - l + e) by lia.
      * by replace (start + n - cache_size c) with (g - l + e) by lia.
    + exists (l + (start + n - g) - n), (l + (start + n - g)), (start + n), l, c0. split; [by rewrite Z.sub_add|].
      split; rewrite ?Ee, ?Ek, ?Ev; cbn [fst snd]; try done; try lia.
      * by replace (start + n - (l + (start + n - g))) with (g - l) by lia.
      * by replace (start + n - (l + (start + n - g))) with (g - l) by lia.
Qed.

(** ** One update *)

(** Positions named by segments, in order. *)
Definition segment_positions (segs : list (Z * Z)) : list Z := segs ≫= fun s => zrange s.1 (s.1 + s.2).

(** The rows of the history at these positions. *)
Definition rows_at K (ps : list Z) : list (option (list A)) := (fun p => K !! Z.to_nat p) <$> ps.

Lemma zrange_shift a b x : (fun i => i + x) <$> zrange a b = zrange (a + x) (b + x).
Proof.
  unfold zrange. replace (b + x - (a + x)) with (b - a) by lia. replace (a + x) with (x + a) by lia. rewrite <- (fmap_add_seqZ x a). apply list_fmap_ext. intros. lia.
Qed.

(** The segments of a view name the global positions of its rows. *)
Lemma segments_global c view a l g : global_sink_tokens c = 0 -> pinned_len c = 0 -> 0 <= sink_tokens c -> 0 <= a <= l ->
  Z.of_nat (length (view_k view)) = l - a -> visible_local_end view = l -> visible_global_end view = g ->
  exists segs, visible_key_segments c view = Some segs /\ segment_positions segs = global_pos (sink_tokens c) (g - l) <$> zrange a l.
Proof.
  intros Hg Hp Hs Ha Hn Hl Hge. unfold visible_key_segments. rewrite Hg, Hp, Hn, Hl, Hge. cbn [Z.eqb Z.ltb Z.compare negb orb].
  replace (l - (l - a)) with a by lia. set (sink := sink_tokens c) in *.
  assert (forall x y, 0 <= x -> (y <= sink -> global_pos sink (g - l) <$> zrange x y = zrange x y)) as Hlow.
  { intros x y Hx Hy. etrans; [|apply list_fmap_id]. apply list_fmap_ext. intros i z Hz%list_elem_of_lookup_2%elem_of_zrange. unfold global_pos.
    destruct (Z.ltb_spec z sink); [done|lia]. }
  assert (forall x y, sink <= x -> global_pos sink (g - l) <$> zrange x y = zrange (x + (g - l)) (y + (g - l))) as Hhigh.
  { intros x y Hx. rewrite <- zrange_shift. apply list_fmap_ext. intros i z Hz%list_elem_of_lookup_2%elem_of_zrange. unfold global_pos.
    destruct (Z.ltb_spec z sink); [lia|done]. }
  destruct (Z.leb_spec (Z.min sink l) a) as [H1|H1].
  - eexists. split; [done|]. unfold segment_positions. cbn. rewrite app_nil_r. destruct (decide (sink <= a)).
    + rewrite Hhigh by lia. f_equal. lia.
    + assert (a = l) as -> by lia. unfold zrange. by rewrite !seqZ_nil by lia.
  - destruct (Z.leb_spec l (Z.min sink l)) as [H2|H2]; (eexists; split; [done|]); unfold segment_positions; cbn; rewrite app_nil_r.
    + rewrite Hlow by lia. f_equal. lia.
    + replace (Z.min sink l) with sink by lia. rewrite <- (zrange_app a sink l) by lia. rewrite fmap_app, Hlow, Hhigh by lia. f_equal; f_equal; lia.
Qed.

Lemma slice_rows_at K buf sink shift l a : holds K buf sink shift l -> 0 <= a -> l <= Z.of_nat (length buf) ->
  Some <$> slice_rows a l buf = rows_at K (global_pos sink shift <$> zrange a l).
Proof.
  intros Hh Ha Hl. apply list_eq. intros j. unfold rows_at. rewrite !list_lookup_fmap.
  replace j with (Z.to_nat (Z.of_nat j)) at 1 by lia. rewrite slice_rows_lookup by lia. unfold zrange. case_decide as Hj.
  - rewrite lookup_seqZ_lt by lia. cbn. destruct (lookup_lt_is_Some_2 buf (Z.to_nat (a + Z.of_nat j))) as [r Er]; [lia|]. rewrite Er. cbn.
    rewrite <- Hh by lia. by rewrite Er.
  - by rewrite lookup_seqZ_ge by lia.
Qed.

Lemma write_indices_ends g l c : is_Some (global_end_index_int c) -> is_Some (local_end_index_int c) ->
  ends (write_indices g l c) = (g, l) /\ kc_k (write_indices g l c) = kc_k c /\ kc_v (write_indices g l c) = kc_v c /\
  same_settings c (write_indices g l c) /\ cache_size (write_indices g l c) = cache_size c /\ attention_window_size (write_indices g l c) = attention_window_size c.
Proof.
  intros [g0 Eg] [l0 El]. unfold write_indices. rewrite Eg, El. destruct (_ && _) eqn:E.
  - apply andb_true_iff in E as [E1%bool_decide_eq_true E2%bool_decide_eq_true]. injection E1 as ->. injection E2 as ->.
    unfold ends, read_indices, same_settings. rewrite Eg, El. by split_and!.
  - unfold ends, read_indices, same_settings. by split_and!.
Qed.

Record updated c c' (view : CausalAttentionKVView A) K V K' V' (g' : Z) : Prop := {
  up_ok : cache_ok c' K' V';
  up_settings : same_settings c c';
  up_ends : (ends c').1 = g' /\ visible_local_end view = (ends c').2 /\ visible_global_end view = g';
  up_view : exists segs, visible_key_segments c' view = Some segs /\
    segment_positions segs = global_pos (sink_tokens c) (g' - (ends c').2) <$> zrange (Z.max 0 ((ends c').2 - attention_window_size c')) (ends c').2 /\
    Some <$> view_k view = rows_at K' (segment_positions segs) /\ Some <$> view_v view = rows_at V' (segment_positions segs) }.

Lemma update_ok c K V key value start ch : cache_ok c K V -> chunk_ok c start (Z.of_nat (length key)) -> length value = length key ->
  exists view c', update_and_get_attention_kv zero key value (kc_heads c) start ch None c = Ok (view, c') /\
    updated c c' view K V (overwrite start key K) (overwrite start value V) (Z.max (ends c).1 (start + Z.of_nat (length key))).
Proof.
  intros Hc Hch Hlen. destruct (place_chunk_ok c K V (Z.of_nat (length key)) start (kc_heads c) Hc Hch) as (ls & l' & g' & l0 & c1 & Ep & Hp).
  destruct Hp as [Hset [Hgi Hli] [Hlk Hlv] Hw (Eg' & Els & Hsh & Hls) (Hl0 & Hl1 & Hl2) Htail Hsink Hfill Hk Hv].
  destruct Hch as (Hst & Hn & _). set (n := Z.of_nat (length key)) in *. pose proof (ck_hist _ _ _ Hc) as [HK HV].
  assert (ls + n <= l') as Hend by lia.
  unfold update_and_get_attention_kv. rewrite Nat.eqb_refl. cbn [mbind res_bind]. fold n. rewrite Ep. cbn [mbind res_bind].
  destruct (Z.ltb_spec ls 0); [lia|]. destruct (Z.ltb_spec (cache_size c1) (ls + n)); [lia|].
  replace (ls + n - ls =? n) with true by (symmetry; apply Z.eqb_eq; lia). cbn [orb negb].
  rewrite !assign_rows_Ok by lia. cbn [mbind res_bind].
  set (k' := overwrite ls key (kc_k c1)). set (v' := overwrite ls value (kc_v c1)). set (a := Z.max 0 (l' - attention_window_size c1)).
  pose proof (ck_sink _ _ _ Hc) as (Hsk & Hgs & Hps & Hpl). pose proof Hset as (S1 & S2 & S3 & S4 & S5 & S6 & S7).
  unfold visible_attention_kv, has_pinned_sink. cbn [global_sink_tokens pinned_start pinned_len put_kv]. rewrite S3, Hgs, S4, Hps. cbn [Z.ltb Z.leb Z.compare orb andb mbind res_bind].
  pose proof (length_overwrite ls key (kc_k c1) ltac:(lia)) as Lk. pose proof (length_overwrite ls value (kc_v c1) ltac:(lia)) as Lv. fold k' in Lk. fold v' in Lv.
  assert (holds (overwrite start key K) k' (sink_tokens c) (g' - l') l') as Hk'.
  { unfold k'. rewrite Els. eapply holds_write; try done; lia. }
  assert (holds (overwrite start value V) v' (sink_tokens c) (g' - l') l') as Hv'.
  { unfold v'. rewrite Els. eapply (holds_write _ _ _ _ _ _ _ n); try done; lia. }
  destruct (write_indices_ends g' l' (put_kv k' v' c1) Hgi Hli) as (We & Wk & Wv & Ws & Wc & Ww). set (c' := write_indices g' l' (put_kv k' v' c1)) in *.
  eexists _, c'. split; [done|]. rewrite <- Eg'. unfold cache_slice. cbn [fst snd kc_k kc_v put_kv].
  change (head_slice (A:=A) None (kc_heads c)) with (@id (list A)). rewrite !list_fmap_id.
  assert (sink_tokens c' = sink_tokens c) as Esk by (destruct Ws as (_ & -> & _); exact S2).
  assert (Z.of_nat (length (slice_rows a l' k')) = l' - a) as Lsl by (apply length_slice_rows; lia).
  assert (global_sink_tokens c' = 0 /\ pinned_start c' = -1 /\ pinned_len c' = 0) as (Eg0 & Ep0 & Epl0).
  { destruct Ws as (_ & _ & -> & -> & -> & _). cbn. split_and!; congruence. }
  assert (same_settings c c') as Hsc.
  { destruct Ws as (W1 & W2 & W3 & W4 & W5 & W6 & W7). cbn in *. unfold same_settings. split_and!; try congruence.
    intros Hag. destruct (S7 Hag), W7; [congruence|]. split; congruence. }
  split.
  - split; rewrite ?We, ?Wk, ?Wv, ?Wc, ?Ww, ?Esk; cbn [fst snd kc_k kc_v put_kv cache_size attention_window_size]; try done; try lia.
    + pose proof (length_overwrite start key K ltac:(lia)). pose proof (length_overwrite start value V ltac:(lia)). lia.
    + intros Hag. destruct Hsc as (_ & _ & _ & _ & _ & Ea & Hsz). rewrite Hfill by congruence. destruct (S7 ltac:(congruence)) as [-> _]. done.
  - done.
  - by rewrite We.
  - rewrite We. cbn [fst snd]. destruct (segments_global c' (mkView (slice_rows a l' k') (slice_rows a l' v') ls (ls + n) l' g') a l' g') as (segs & Es & Epos);
      [done|done|lia|lia|done|done|done|]. exists segs. rewrite Ww. cbn [attention_window_size put_kv]. fold a. rewrite <- Esk. split_and!; [done|done| |].
    + cbn [view_k]. rewrite Epos. apply slice_rows_at; rewrite ?Esk; done || lia.
    + cbn [view_v]. rewrite Epos. apply slice_rows_at; rewrite ?Esk; done || lia.
Qed.

End spec.
