(* ===== verification/CausalCacheClaims.v ===== *)
(** * CausalCacheClaims: the view of the rolling cache over a whole video *)

From S2P Require Import Prelude SparsePlan SparsePlanSpec SparseContext CausalCache CausalCacheSpec.

Open Scope Z_scope.

Section claims.
Context {A : Type} (zero : A).
Implicit Types (c : CausalSelfAttentionKVCache A) (K V : rows A).

(** ** Streams of chunks *)

(** One pass over a chunk: its start, keys and values. *)
Definition pass : Type := Z * rows A * rows A.

(** Passes of a video of [n]-token chunks: the next chunk, or the last one
    again (the next denoising step, or the cache update). *)
Inductive stream (n : Z) : Z -> list pass -> Prop :=
| stream_nil g : stream n g []
| stream_next g k v es : Z.of_nat (length k) = n -> length v = length k -> stream n (g + n) es -> stream n g ((g, k, v) :: es)
| stream_again g k v es : n <= g -> Z.of_nat (length k) = n -> length v = length k -> stream n g es -> stream n g ((g - n, k, v) :: es).

Definition kv_step (e : pass) c : res (CausalAttentionKVView A * CausalSelfAttentionKVCache A) :=
  update_and_get_attention_kv zero e.1.2 e.2 (kc_heads c) e.1.1 None None c.

Fixpoint kv_run (es : list pass) c : res (option (CausalAttentionKVView A) * CausalSelfAttentionKVCache A) :=
  match es with
  | [] => Ok (None, c)
  | e :: es => r ← kv_step e c; match es with [] => Ok (Some r.1, r.2) | _ => kv_run es r.2 end
  end.

(** The latest rows of every token. *)
Definition history (sel : pass -> rows A) (es : list pass) (K : rows A) : rows A := foldl (fun K e => overwrite e.1.1 (sel e) K) K es.

(** A cache before the first chunk. *)
Definition fresh_cache (n : Z) c : Prop :=
  Z.of_nat (length (kc_k c)) = cache_size c /\ Z.of_nat (length (kc_v c)) = cache_size c /\ ends c = (0, 0) /\
  0 <= sink_tokens c /\ global_sink_tokens c = 0 /\ pinned_start c = -1 /\ pinned_len c = 0 /\ 0 <= attention_window_size c /\
  allow_growth c = false /\ sink_tokens c + n <= cache_size c.

Lemma fresh_ok n c : 0 < n -> fresh_cache n c -> cache_ok c [] [].
Proof.
  intros Hn (H1 & H2 & H3 & H4 & H5 & H6 & H7 & H8 & H9 & H10). split; rewrite ?H3; cbn [fst snd length]; try done; try lia; intros i Hi; lia.
Qed.

(** What is known between passes. *)
Record streaming (n : Z) c0 c K V (g : Z) : Prop := {
  sr_ok : cache_ok c K V;
  sr_end : (ends c).1 = g;
  sr_settings : same_settings c0 c;
  sr_room : 0 < n /\ allow_growth c0 = false /\ sink_tokens c0 + n <= cache_size c0 }.

Lemma streaming_chunk_ok n c0 c K V g start : streaming n c0 c K V g -> 0 <= start -> start = g \/ start = g - n -> chunk_ok c start n.
Proof.
  intros [Hok Hend (_ & S2 & _ & _ & _ & S6 & S7) (Hn & Hag & Hfit)] H0 Hst. destruct (S7 Hag) as [E1 E2]. pose proof (ck_sink _ _ _ Hok) as (Hs & _).
  pose proof (ck_full _ _ _ Hok ltac:(congruence)) as Hf. pose proof (ck_ends _ _ _ Hok). unfold chunk_ok. rewrite S2, E1 in *. split_and!; [lia|lia|lia|by right; lia|].
  destruct (Z.le_ge_cases (ends c).1 (cache_size c0)); [left; lia|right; lia].
Qed.

Lemma same_settings_trans c1 c2 c3 : same_settings c1 c2 -> same_settings c2 c3 -> same_settings c1 c3.
Proof.
  intros (?&?&?&?&?&?&H7) (?&?&?&?&?&?&H7'). unfold same_settings. split_and!; try congruence.
  intros Ha. destruct (H7 Ha), H7'; [congruence|]. split; congruence.
Qed.

Lemma streaming_step n c0 c K V g start k v : streaming n c0 c K V g -> 0 <= start -> start = g \/ start = g - n ->
  Z.of_nat (length k) = n -> length v = length k ->
  exists view c', kv_step (start, k, v) c = Ok (view, c') /\ streaming n c0 c' (overwrite start k K) (overwrite start v V) (Z.max g (start + n)) /\
    updated c c' view K V (overwrite start k K) (overwrite start v V) (Z.max g (start + n)).
Proof.
  intros Hs H0 Hst Hk Hv. pose proof (streaming_chunk_ok _ _ _ _ _ _ start Hs H0 Hst) as Hch. rewrite <- Hk in Hch.
  destruct (update_ok zero c K V k v start None (sr_ok _ _ _ _ _ _ Hs) Hch Hv) as (view & c' & E & Hu). rewrite (sr_end _ _ _ _ _ _ Hs), Hk in Hu.
  exists view, c'. split; [exact E|]. split; [|done]. split.
  - exact (up_ok _ _ _ _ _ _ _ _ Hu).
  - apply (up_ends _ _ _ _ _ _ _ _ Hu).
  - eapply same_settings_trans; [exact (sr_settings _ _ _ _ _ _ Hs)|exact (up_settings _ _ _ _ _ _ _ _ Hu)].
  - exact (sr_room _ _ _ _ _ _ Hs).
Qed.

(** A whole stream: it never raises, and its last view shows the history. *)
Lemma stream_run n c0 c K V g es : streaming n c0 c K V g -> 0 <= g -> stream n g es -> es <> [] ->
  exists view c1 c' K0 V0 g', kv_run es c = Ok (Some view, c') /\
    streaming n c0 c' (history (fun e => e.1.2) es K) (history snd es V) g' /\ same_settings c0 c1 /\
    updated c1 c' view K0 V0 (history (fun e => e.1.2) es K) (history snd es V) g'.
Proof.
  intros Hs Hg Hes. revert c K V Hs. induction Hes as [g|g k v es Hk Hv Hes IH|g k v es Hn Hk Hv Hes IH]; intros c K V Hs Hne; [done| |].
  - destruct (streaming_step n c0 c K V g g k v Hs Hg ltac:(by left) Hk Hv) as (view & c1 & E & Hs1 & Hu).
    destruct (sr_room _ _ _ _ _ _ Hs) as (Hn0 & _). rewrite Z.max_r in Hs1, Hu by lia. cbn [kv_run]. rewrite E. cbn [mbind res_bind fst snd].
    destruct es as [|e es].
    + exists view, c, c1, K, V, (g + n). split_and!; [done|exact Hs1|exact (sr_settings _ _ _ _ _ _ Hs)|exact Hu].
    + apply (IH ltac:(lia) c1); [exact Hs1|done].
  - destruct (streaming_step n c0 c K V g (g - n) k v Hs ltac:(lia) ltac:(by right) Hk Hv) as (view & c1 & E & Hs1 & Hu).
    rewrite Z.max_l in Hs1, Hu by lia. cbn [kv_run]. rewrite E. cbn [mbind res_bind fst snd].
    destruct es as [|e es].
    + exists view, c, c1, K, V, g. split_and!; [done|exact Hs1|exact (sr_settings _ _ _ _ _ _ Hs)|exact Hu].
    + apply (IH ltac:(lia) c1); [exact Hs1|done].
Qed.

Lemma visible_segments_nonneg c view segs : visible_key_segments c view = Some segs -> Forall (fun s => 0 <= s.2) segs.
Proof.
  unfold visible_key_segments. intros E. destruct (_ || _); [done|]. destruct (Z.leb_spec (Z.min (sink_tokens c) (visible_local_end view))
    (visible_local_end view - Z.of_nat (length (view_k view)))); [injection E as <-; repeat constructor; cbn; lia|].
  destruct (Z.leb_spec (visible_local_end view) (Z.min (sink_tokens c) (visible_local_end view))); injection E as <-; repeat constructor; cbn; lia.
Qed.

(** The view of the last pass. *)
Lemma kv_cache_view n c es : 0 < n -> fresh_cache n c -> stream n 0 es -> es <> [] ->
  let K := history (fun e => e.1.2) es [] in
  let V := history snd es [] in
  let g := Z.of_nat (length K) in
  let l := Z.min g (cache_size c) in
  exists view c' segs, kv_run es c = Ok (Some view, c') /\ visible_key_segments c' view = Some segs /\
    segment_positions segs = global_pos (sink_tokens c) (g - l) <$> zrange (Z.max 0 (l - attention_window_size c)) l /\
    Some <$> view_k view = rows_at K (segment_positions segs) /\ Some <$> view_v view = rows_at V (segment_positions segs) /\
    Forall (fun s => 0 <= s.2) segs.
Proof.
  intros Hn Hf Hes Hne K V g l. destruct (stream_run n c c [] [] 0 es) as (view & c1 & c' & K0 & V0 & g' & E & Hs & Hset & Hu); [|lia|done|done|].
  { destruct Hf as (F1 & F2 & F3 & F4 & F5 & F6 & F7 & F8 & F9 & F10). split; [by eapply fresh_ok|by rewrite F3|done|done]. }
  destruct Hu as [Hok Hset' (He & _) (segs & Es & Epos & Ek & Ev)]. exists view, c', segs. split_and!; [done|done| |done|done|by eapply visible_segments_nonneg].
  pose proof (ck_hist _ _ _ Hok) as [HK _]. fold K in HK, Hs. assert (g' = g) as -> by (unfold g; lia).
  destruct Hs as [_ _ (_ & Hsk & _ & _ & _ & Hag & Hsz) (_ & Hg & _)]. destruct (Hsz Hg) as [Esz Ewin].
  pose proof (ck_full _ _ _ Hok ltac:(congruence)) as Hfull. rewrite He, Esz in Hfull. fold l in Hfull. rewrite Epos, Hfull, Ewin.
  destruct Hset as (_ & -> & _). done.
Qed.

(** ** Passes of a layer *)

Definition attended : Type := rows A * rows A * option (list (Z * Z)).

Definition layer_step (e : pass) c : res (attended * CausalSelfAttentionKVCache A) := self_attention_kv zero e.1.2 e.2 (kc_heads c) e.1.1 None c.

Fixpoint layer_run (es : list pass) c : res (option attended * CausalSelfAttentionKVCache A) :=
  match es with
  | [] => Ok (None, c)
  | e :: es => r ← layer_step e c; match es with [] => Ok (Some r.1, r.2) | _ => layer_run es r.2 end
  end.

(** Chunks that fill cache and window are attended as they come. *)
Lemma layer_run_direct n c K V g es : 0 < n -> can_direct_current_attention n c = true -> 0 <= g -> Z.of_nat (length K) = g -> length V = length K -> stream n g es -> es <> [] ->
  let K' := history (fun e => e.1.2) es K in let V' := history snd es V in let g' := Z.of_nat (length K') in
  exists k v, layer_run es c = Ok (Some (k, v, Some [(g' - n, n)]), c) /\ n <= g' /\
    Some <$> k = rows_at K' (zrange (g' - n) g') /\ Some <$> v = rows_at V' (zrange (g' - n) g').
Proof.
  intros Hn Hd Hg HK HV Hes. cbv zeta. revert K V HK HV.
  assert (forall start k v K V, Z.of_nat (length k) = n -> length v = length k -> length V = length K -> 0 <= start <= Z.of_nat (length K) -> Z.of_nat (length K) <= start + n ->
    layer_step (start, k, v) c = Ok ((k, v, Some [(start, n)]), c) /\ Z.of_nat (length (overwrite start k K)) = start + n /\ length (overwrite start v V) = length (overwrite start k K) /\
    Some <$> k = rows_at (overwrite start k K) (zrange start (start + n)) /\ Some <$> v = rows_at (overwrite start v V) (zrange start (start + n))) as Hstep.
  { intros start k v K V Hk Hv HKV Hst Hle. unfold layer_step, self_attention_kv. cbn [fst snd]. rewrite Hk, Hd. split; [done|].
    pose proof (length_overwrite start k K ltac:(lia)). pose proof (length_overwrite start v V ltac:(lia)). split; [lia|]. split; [lia|].
    assert (forall x K, Z.of_nat (length x) = n -> start <= Z.of_nat (length K) -> Some <$> x = rows_at (overwrite start x K) (zrange start (start + n))) as Hrows; [|split; apply Hrows; lia].
    intros x K0 Hx HK0. apply list_eq. intros i. unfold rows_at. rewrite !list_lookup_fmap. unfold zrange. destruct (decide (i < length x)%nat) as [Hi|Hi].
    - rewrite lookup_seqZ_lt by lia. cbn. rewrite overwrite_lookup by lia. rewrite decide_True by lia. replace (Z.to_nat (start + Z.of_nat i - start)) with i by lia.
      destruct (lookup_lt_is_Some_2 x i Hi) as [y ->]. done.
    - rewrite (lookup_ge_None_2 x) by lia. rewrite lookup_ge_None_2; [done|]. rewrite length_seqZ. lia. }
  induction Hes as [g|g k v es Hk Hv Hes IH|g k v es Hle Hk Hv Hes IH]; intros K V HK HV Hne; [done| |].
  - destruct (Hstep g k v K V Hk Hv HV ltac:(lia) ltac:(lia)) as (E & L1 & L2 & R1 & R2). cbn [layer_run]. rewrite E. cbn [mbind res_bind fst snd]. destruct es as [|e es].
    + cbn [history foldl fst snd]. exists k, v. rewrite L1. replace (g + n - n) with g by lia. split_and!; [done|lia|done|done].
    + apply (IH ltac:(lia) (overwrite g k K) (overwrite g v V)); [lia|done|done].
  - destruct (Hstep (g - n) k v K V Hk Hv HV ltac:(lia) ltac:(lia)) as (E & L1 & L2 & R1 & R2). cbn [layer_run]. rewrite E. cbn [mbind res_bind fst snd]. destruct es as [|e es].
    + cbn [history foldl fst snd]. exists k, v. rewrite L1. replace (g - n + n - n) with (g - n) by lia. split_and!; [done|lia|done|done].
    + apply (IH ltac:(lia) (overwrite (g - n) k K) (overwrite (g - n) v V)); [lia|done|done].
Qed.

(** Otherwise every pass goes through the cache. *)
Lemma layer_run_cached n c0 c K V g es : can_direct_current_attention n c0 = false -> streaming n c0 c K V g -> 0 <= g -> stream n g es ->
  layer_run es c = (r ← kv_run es c; Ok (option_map (fun view => (view_k view, view_v view, visible_key_segments r.2 view)) r.1, r.2)).
Proof.
  intros Hd Hs Hg Hes. revert c K V Hs.
  assert (forall c K V g start k v, streaming n c0 c K V g -> Z.of_nat (length k) = n ->
    layer_step (start, k, v) c = (r ← kv_step (start, k, v) c; Ok ((view_k r.1, view_v r.1, visible_key_segments r.2 r.1), r.2))) as Hstep.
  { intros c K V g' start k v Hs Hk. destruct (sr_settings _ _ _ _ _ _ Hs) as (_ & S2 & _ & _ & _ & _ & S7). destruct (sr_room _ _ _ _ _ _ Hs) as (_ & Hag & _). destruct (S7 Hag) as [E1 E2].
    unfold layer_step, self_attention_kv. cbn [fst snd]. rewrite Hk. unfold can_direct_current_attention in *. by rewrite S2, E1, E2, Hd. }
  induction Hes as [g|g k v es Hk Hv Hes IH|g k v es Hn Hk Hv Hes IH]; intros c K V Hs; [done| |].
  - destruct (streaming_step n c0 c K V g g k v Hs Hg ltac:(by left) Hk Hv) as (view & c1 & E & Hs1 & Hu). destruct (sr_room _ _ _ _ _ _ Hs) as (Hn0 & _).
    cbn [layer_run kv_run]. rewrite (Hstep c K V g), E by done. cbn [mbind res_bind fst snd]. destruct es as [|e es]; [done|]. rewrite Z.max_r in Hs1 by lia. by eapply (IH ltac:(lia)).
  - destruct (streaming_step n c0 c K V g (g - n) k v Hs ltac:(lia) ltac:(by right) Hk Hv) as (view & c1 & E & Hs1 & Hu).
    cbn [layer_run kv_run]. rewrite (Hstep c K V g), E by done. cbn [mbind res_bind fst snd]. destruct es as [|e es]; [done|]. rewrite Z.max_l in Hs1 by lia. by eapply (IH ltac:(lia)).
Qed.

(** What a layer attends over in its last pass, cached or not. *)
Lemma layer_view n c es : 0 < n -> fresh_cache n c -> stream n 0 es -> es <> [] ->
  let K := history (fun e => e.1.2) es [] in
  let V := history snd es [] in
  let g := Z.of_nat (length K) in
  let l := Z.min g (cache_size c) in
  exists k v segs c', layer_run es c = Ok (Some (k, v, Some segs), c') /\
    segment_positions segs = global_pos (sink_tokens c) (g - l) <$> zrange (Z.max 0 (l - attention_window_size c)) l /\
    Some <$> k = rows_at K (segment_positions segs) /\ Some <$> v = rows_at V (segment_positions segs) /\
    same_settings c c' /\ Z.of_nat (length (kc_k c')) = cache_size c' /\ Z.of_nat (length (kc_v c')) = cache_size c'.
Proof.
  intros Hn Hf Hes Hne K V g l. destruct (can_direct_current_attention n c) eqn:Hd.
  - destruct (layer_run_direct n c [] [] 0 es Hn Hd ltac:(lia) ltac:(done) ltac:(done) Hes Hne) as (k & v & E & Hg & Hk & Hv). fold K in E, Hg, Hk, Hv. fold V in Hv. fold g in E, Hg, Hk, Hv.
    unfold can_direct_current_attention in Hd. rewrite !andb_true_iff, !Z.eqb_eq in Hd. destruct Hd as [[D1 D2] D3].
    assert (segment_positions [(g - n, n)] = zrange (g - n) g) as Epos by (unfold segment_positions; cbn; rewrite app_nil_r; f_equal; lia).
    exists k, v, [(g - n, n)], c. split_and!; [done| |by rewrite Epos|by rewrite Epos|done|apply Hf|apply Hf].
    rewrite Epos, D1, D3. unfold l. rewrite D2, Z.min_r by lia. replace (Z.max 0 (n - n)) with 0 by lia. replace (zrange (g - n) g) with (zrange (0 + (g - n)) (n + (g - n))) by (f_equal; lia).
    rewrite <- zrange_shift. apply list_fmap_ext. intros i p Hp. apply list_elem_of_lookup_2, elem_of_zrange in Hp. unfold global_pos. destruct (Z.ltb_spec p 0); lia.
  - destruct (stream_run n c c [] [] 0 es) as (view & c1 & c' & K0 & V0 & g' & E & Hs & _); [|lia|done|done|].
    { destruct Hf as (F1 & F2 & F3 & F4 & F5 & F6 & F7 & F8 & F9 & F10). split; [by eapply fresh_ok|by rewrite F3|done|done]. }
    destruct (kv_cache_view n c es Hn Hf Hes Hne) as (view' & c'' & segs & E' & Es & Epos & Ek & Ev & _). rewrite E in E'. injection E' as <- <-.
    assert (streaming n c c [] [] 0) as H0. { destruct Hf as (F1 & F2 & F3 & F4 & F5 & F6 & F7 & F8 & F9 & F10). split; [by eapply fresh_ok|by rewrite F3|done|done]. }
    exists (view_k view), (view_v view), segs, c'. rewrite (layer_run_cached n c c [] [] 0 es Hd H0 ltac:(lia) Hes), E. cbn [mbind res_bind fst snd fmap option_fmap option_map]. rewrite Es.
    pose proof (ck_len _ _ _ (sr_ok _ _ _ _ _ _ Hs)). split_and!; try done; [exact (sr_settings _ _ _ _ _ _ Hs)|tauto..].
Qed.

(** C5: Over any video of chunks, each passed any number of
    times, the cache never raises and the view of the last pass holds the
    latest rows of the positions its segments name: the sink in place and the
    newest tokens that fit, oldest first, cut to the attention window. *)
Theorem kv_cache_stream n c es : 0 < n -> fresh_cache n c -> stream n 0 es -> es <> [] ->
  let K := history (fun e => e.1.2) es [] in
  let V := history snd es [] in
  let g := Z.of_nat (length K) in
  let l := Z.min g (cache_size c) in
  exists view c' segs, kv_run es c = Ok (Some view, c') /\ visible_key_segments c' view = Some segs /\
    segment_positions segs = global_pos (sink_tokens c) (g - l) <$> zrange (Z.max 0 (l - attention_window_size c)) l /\
    Some <$> view_k view = rows_at K (segment_positions segs) /\ Some <$> view_v view = rows_at V (segment_positions segs).
Proof.
  intros Hn Hf Hes Hne. destruct (kv_cache_view n c es Hn Hf Hes Hne) as (view & c' & segs & H1 & H2 & H3 & H4 & H5 & _). by exists view, c', segs.
Qed.

(** ** Frames of a view *)

Lemma zrange_frames L a b : 0 < L -> a <= b -> zrange (a * L) (b * L) = zrange a b ≫= fun f => zrange (f * L) (f * L + L).
Proof.
  intros HL Hab. remember (Z.to_nat (b - a)) as k eqn:Ek. revert a Hab Ek. induction k as [|k IH]; intros a Hab Ek.
  - assert (a = b) as -> by lia. assert (forall x, zrange x x = []) as Hnil by (intros x; apply seqZ_nil; lia). by rewrite !Hnil.
  - rewrite <- (zrange_app (a * L) ((a + 1) * L) (b * L)) by nia. rewrite (IH (a + 1)) by lia.
    assert (zrange a b = a :: zrange (a + 1) b) as ->.
    { unfold zrange. rewrite seqZ_cons by lia. f_equal. f_equal; lia. }
    csimpl. f_equal. f_equal. lia.
Qed.

(** The segments of an aligned view list the tokens of its frames. *)
Lemma segments_frames segs g q lay : visible_layout segs g q None = Ok (Some lay) -> 0 < frame_seqlen lay -> Forall (fun s => 0 <= s.2) segs ->
  segment_positions segs = global_frame_ids lay ≫= fun f => zrange (f * frame_seqlen lay) (f * frame_seqlen lay + frame_seqlen lay).
Proof.
  unfold visible_layout, query_chunk_index, py_div, py_mod. intros E HF Hpos. destruct (g_frame_seqlen g =? 0); [done|]. cbn in E.
  destruct (_ || _); [done|]. destruct (existsb _ segs) eqn:Ex; [done|].
  assert (exists gl, gl = concat ((fun seg => segment_frames (g_frame_seqlen g) seg.1 seg.2) <$> segs)) as [gl Egl] by eauto.
  assert (segs <> []) as Hne by (by destruct segs).
  assert (global_frame_ids lay = gl /\ frame_seqlen lay = g_frame_seqlen g) as [-> EL].
  { destruct segs; [done|]. rewrite <- Egl in E. cbn in E. destruct (chunk_tokens g =? 0); [done|]. cbn in E. by injection E as <-. }
  rewrite EL in *. set (L := g_frame_seqlen g) in *. clear E Hne EL. subst gl. unfold segment_positions.
  induction Hpos as [|[st len] segs Hl Hpos IH]; [done|]. cbn in Ex. apply orb_false_iff in Ex as [Ex1 Ex2].
  apply orb_false_iff in Ex1 as [E1%negb_false_iff%Z.eqb_eq E2%negb_false_iff%Z.eqb_eq]. csimpl. rewrite IH by done. rewrite bind_app. f_equal. cbn in Hl.
  unfold segment_frames. cbn. pose proof (Z.div_mod st L ltac:(lia)). pose proof (Z.div_mod len L ltac:(lia)).
  assert (0 <= len / L) by (apply Z.div_pos; lia).
  assert ((st + len) / L = st / L + len / L) as ->.
  { rewrite (Z.div_mod st L) at 1 by lia. rewrite E1, Z.add_0_r, Z.mul_comm, Z.div_add_l by lia. done. }
  rewrite <- zrange_frames by lia. f_equal; lia.
Qed.

(** C18: The layout the sparse methods derive from the segments of
    a view is right: row [j] of the view is the latest row of token
    [j mod L] of the global frame the layout gives to row [j]. *)
Theorem kv_view_frames n c es geometry q view c' segs lay j f : 0 < n -> fresh_cache n c -> stream n 0 es ->
  kv_run es c = Ok (Some view, c') -> visible_key_segments c' view = Some segs -> visible_layout segs geometry q None = Ok (Some lay) ->
  0 < frame_seqlen lay -> 0 <= j < kv_len lay -> global_frame_ids lay !! Z.to_nat (j / frame_seqlen lay) = Some f ->
  view_k view !! Z.to_nat j = history (fun e => e.1.2) es [] !! Z.to_nat (f * frame_seqlen lay + j mod frame_seqlen lay).
Proof.
  intros Hn Hf Hes E Es Hlay HL Hj Hfr. assert (es <> []) as Hne by (intros ->; discriminate E).
  destruct (kv_cache_view n c es Hn Hf Hes Hne) as (view' & c2 & segs' & E' & Es' & Hpos & Ek & _ & Hlen). rewrite E in E'. injection E' as <- <-.
  rewrite Es in Es'. injection Es' as <-. set (K := history (fun e => e.1.2) es []) in *. set (L := frame_seqlen lay) in *.
  rewrite (segments_frames _ _ _ _ Hlay HL Hlen) in Ek. fold L in Ek.
  pose proof (f_equal (fun l => l !! Z.to_nat j) Ek) as Ej. cbn in Ej. unfold rows_at in Ej. rewrite !list_lookup_fmap in Ej.
  pose proof (Z.div_mod j L ltac:(lia)). pose proof (Z.mod_pos_bound j L HL). assert (0 <= j / L) by (apply Z.div_pos; lia).
  replace (Z.to_nat j) with (Z.to_nat (j / L) * Z.to_nat L + Z.to_nat (j mod L))%nat in Ej at 2 by nia.
  rewrite (lookup_bind_uniform _ _ (Z.to_nat L)) in Ej; [|intros; unfold zrange; rewrite length_seqZ; lia|lia].
  rewrite Hfr in Ej. cbn in Ej. unfold zrange in Ej. rewrite lookup_seqZ_lt in Ej by lia. cbn in Ej.
  replace (f * L + Z.of_nat (Z.to_nat (j mod L))) with (f * L + j mod L) in Ej by lia.
  destruct (view_k view !! Z.to_nat j); cbn in Ej; [congruence|discriminate Ej].
Qed.

End claims.

(** ** The mask of attention without a cache *)

Section mask.
Context (block : Z) (Hb : 0 < block).

Lemma fill_block_lookup tmp ends i : fill_block block tmp ends !! i = (fun e => if (tmp <=? Z.of_nat i) && (Z.of_nat i <? tmp + block) then tmp + block else e) <$> ends !! i.
Proof. unfold fill_block. apply list_lookup_imap. Qed.

(** Every token has the end of its block once its block is filled. *)
Lemma filled_ends ks ends i : 0 <= i -> NoDup ks ->
  foldl (fun ends tmp => fill_block block tmp ends) ends ((fun k => 0 + k * block) <$> ks) !! Z.to_nat i =
  (fun e => if decide (i / block ∈ ks) then (i / block + 1) * block else e) <$> ends !! Z.to_nat i.
Proof.
  intros Hi. pose proof (Z.div_mod i block ltac:(lia)) as E. pose proof (Z.mod_pos_bound i block Hb) as Hm. revert ends. induction ks as [|k ks IH]; intros ends Hnd.
  - cbn. destruct (ends !! Z.to_nat i); cbn; [|done]. rewrite decide_False by (by intros ?%elem_of_nil). done.
  - cbn [fmap list_fmap foldl]. apply NoDup_cons in Hnd as [Hk Hnd]. rewrite IH by done. rewrite fill_block_lookup, Z2Nat.id by lia. destruct (ends !! Z.to_nat i) as [e|]; cbn; [|done]. f_equal.
    destruct (decide (i / block = k)) as [<-|Hne].
    + rewrite decide_False by done. rewrite decide_True by (by left). destruct (Z.leb_spec (0 + i / block * block) i), (Z.ltb_spec i (0 + i / block * block + block)); cbn; nia.
    + assert (((0 + k * block <=? i) && (i <? 0 + k * block + block)) = false) as ->.
      { apply andb_false_iff. destruct (Z.leb_spec (0 + k * block) i), (Z.ltb_spec i (0 + k * block + block)); auto. exfalso. apply Hne. symmetry. apply (Z.div_unique_pos i block k (i - k * block)); lia. }
      destruct (decide (i / block ∈ ks)); [rewrite decide_True by (by right)|rewrite decide_False by (intros [?|?]%elem_of_cons; done)]; done.
Qed.

End mask.

Lemma filter_nothing {X} (P : X -> Prop) `{!forall x, Decision (P x)} (l : list X) : Forall (fun x => ~ P x) l -> filter P l = [].
Proof. induction 1 as [|x l Hx Hl IH]; [done|]. by rewrite filter_cons_False. Qed.

Lemma filter_every {X} (P : X -> Prop) `{!forall x, Decision (P x)} (l : list X) : Forall P l -> filter P l = l.
Proof. induction 1 as [|x l Hx Hl IH]; [done|]. rewrite filter_cons_True by done. by rewrite IH. Qed.

(** The keys that a range of positions of a mask keeps. *)
Lemma filter_range a b n : 0 <= a -> b <= n -> filter (fun k => a <= k < b) (zrange 0 n) = zrange a b.
Proof.
  intros Ha Hb. destruct (decide (a <= b)) as [Hab|Hab].
  - rewrite <- (zrange_app 0 a n), <- (zrange_app a b n) by lia. rewrite !filter_app.
    assert (forall x y, (forall k, x <= k < y -> ~ a <= k < b) -> filter (fun k => a <= k < b) (zrange x y) = []) as Hout.
    { intros x y Hxy. apply filter_nothing, Forall_forall. intros k Hk%elem_of_zrange. by apply Hxy. }
    rewrite (Hout 0 a), (Hout b n) by lia. rewrite app_nil_r. cbn. apply filter_every, Forall_forall. intros k Hk%elem_of_zrange. lia.
  - unfold zrange at 2. rewrite seqZ_nil by lia. apply filter_nothing, Forall_forall. intros k _. lia.
Qed.

Lemma blockwise_end num_frames fs nfpb ends q : 0 < fs -> 0 < nfpb -> blockwise_ends num_frames fs nfpb = Ok ends -> 0 <= q < num_frames * fs ->
  ends !! Z.to_nat q = Some ((q / (fs * nfpb) + 1) * (fs * nfpb)) /\ num_frames * fs <= num_frames * fs + padded_length (num_frames * fs).
Proof.
  intros Hfs Hn E Hq. assert (0 < fs * nfpb) as Hb by nia. unfold blockwise_ends in E. destruct (Z.leb_spec (fs * nfpb) 0); [lia|]. injection E as <-. set (total := num_frames * fs) in *.
  pose proof (cdiv_spec total 128 ltac:(lia)) as Hp. pose proof (cdiv_spec total (fs * nfpb) Hb) as Hc. unfold padded_length. split; [|lia]. unfold zrange_step. rewrite (filled_ends (fs * nfpb) Hb) by (lia || apply NoDup_seqZ).
  rewrite lookup_replicate_2 by lia. cbn. rewrite decide_True; [done|]. apply elem_of_zrange. rewrite Z.sub_0_r. split; [apply Z.div_pos; lia|]. apply Z.div_lt_upper_bound; lia.
Qed.

(** C19: Streaming a video through the cache and masking it
    without a cache agree: for a query of block [b], the mask keeps exactly the
    positions that the view after block [b] shows, when the cache has no sink
    and as many rows as the local window (or the video). *)
Theorem mask_matches_cache {A} (zero : A) num_frames fs nfpb local ends c es q : 0 < fs -> 0 < nfpb -> blockwise_ends num_frames fs nfpb = Ok ends -> (nfpb | num_frames) ->
  0 <= q < num_frames * fs -> fresh_cache (fs * nfpb) c -> sink_tokens c = 0 -> cache_size c = (if local =? -1 then num_frames else local) * fs -> attention_window_size c = cache_size c ->
  stream (fs * nfpb) 0 es -> Z.of_nat (length (history (fun e => e.1.2) es [])) = (q / (fs * nfpb) + 1) * (fs * nfpb) ->
  exists view c' segs, kv_run zero es c = Ok (Some view, c') /\ visible_key_segments c' view = Some segs /\
    segment_positions segs = filter (fun kv => attention_mask ends local fs q kv = true) (zrange 0 (num_frames * fs + padded_length (num_frames * fs))).
Proof.
  intros Hfs Hn Hends [m Hm] Hq Hc Hsk Hsz Hwin Hst Hlen. set (n := fs * nfpb) in *. assert (0 < n) as Hn0 by (unfold n; nia). destruct (blockwise_end _ _ _ _ _ Hfs Hn Hends Hq) as [Eq Hpad]. fold n in Eq.
  assert (es <> []) as Hne by (intros ->; cbn in Hlen; pose proof (Z.div_pos q n); nia).
  destruct (kv_cache_view zero n c es Hn0 Hc Hst Hne) as (view & c' & segs & E1 & E2 & E3 & _). exists view, c', segs. split; [done|]. split; [done|]. rewrite E3, Hlen, Hsk, Hwin.
  set (g := (q / n + 1) * n) in *. pose proof (Z.div_mod q n ltac:(lia)) as Ed. pose proof (Z.mod_pos_bound q n Hn0). assert (q < g /\ g - n <= q /\ n <= g) as (Hqg & Hgq & Hng) by (unfold g; pose proof (Z.div_pos q n); nia).
  assert (g <= num_frames * fs) as Hgt.
  { assert (num_frames * fs = m * n) as Et by (unfold n; lia). assert (q / n < m) by (apply Z.div_lt_upper_bound; lia). unfold g. nia. }
  assert (n <= cache_size c) as Hfit by (destruct Hc as (_ & _ & _ & _ & _ & _ & _ & _ & _ & H10); lia).
  rewrite (Z.max_l 0) by lia. transitivity (zrange (Z.max 0 (g - cache_size c)) g).
  - transitivity ((fun i => i + (g - Z.min g (cache_size c))) <$> zrange 0 (Z.min g (cache_size c))).
    + apply list_fmap_ext. intros i x Hx%list_elem_of_lookup_2%elem_of_zrange. unfold global_pos. destruct (Z.ltb_spec x 0); [lia|done].
    + rewrite zrange_shift. f_equal; lia.
  - rewrite <- (filter_range (Z.max 0 (g - cache_size c)) g (num_frames * fs + padded_length (num_frames * fs))) by lia. apply filter_ext_in. intros k Hk%elem_of_zrange. unfold attention_mask. rewrite Eq. cbn [from_option id]. fold g.
    destruct (Z.eqb_spec local (-1)); rewrite orb_true_iff, ?andb_true_iff, ?Z.ltb_lt, ?Z.leb_le, Z.eqb_eq; lia.
Qed.

(** ** A concrete stream *)

(** Two-token chunks, a sink of two tokens in a buffer of six: the second chunk
    is passed twice, the fourth evicts it. *)
Definition ex_row (x : Z) : list Z := [x].
Definition ex_pass (start x : Z) : pass (A:=Z) := (start, [ex_row x; ex_row (x + 1)], [ex_row x; ex_row (x + 1)]).
Definition ex_stream : list (pass (A:=Z)) := [ex_pass 0 10; ex_pass 2 20; ex_pass 2 30; ex_pass 4 40; ex_pass 6 50].
Definition ex_cache : CausalSelfAttentionKVCache Z :=
  kv_post_init (mkKVCache (replicate 6 [0]) (replicate 6 [0]) 1 0 0 None None 0 2 0 false 0 (-1) 0).

Lemma ex_cache_fresh : fresh_cache 2 ex_cache.
Proof. by vm_compute. Qed.

Lemma ex_stream_ok : stream 2 0 ex_stream.
Proof.
  apply (stream_next 2 0); [done|done|]. apply (stream_next 2 2); [done|done|]. apply (stream_again 2 4); [lia|done|done|].
  apply (stream_next 2 4); [done|done|]. apply (stream_next 2 6); [done|done|]. constructor.
Qed.

Lemma kv_cache_stream_witness : exists view c' segs, kv_run 0 ex_stream ex_cache = Ok (Some view, c') /\ visible_key_segments c' view = Some segs /\
  segment_positions segs = [0; 1; 4; 5; 6; 7].
Proof.
  destruct (kv_cache_stream 0 2 ex_cache ex_stream ltac:(lia) ex_cache_fresh ex_stream_ok ltac:(done)) as (view & c' & segs & E & Es & Hpos & _).
  exists view, c', segs. split; [exact E|]. split; [exact Es|]. rewrite Hpos. vm_compute. reflexivity.
Defined.

(** Frames of one token: row 2 of the view is token 4, the first of the third chunk. *)
Lemma kv_view_frames_witness : exists view c', kv_run 0 ex_stream ex_cache = Ok (Some view, c') /\ view_k view !! 2%nat = Some [40].
Proof.
  destruct (kv_run 0 ex_stream ex_cache) as [[[view|] c']|e] eqn:E; [|vm_compute in E; discriminate|vm_compute in E; discriminate].
  exists view, c'. split; [done|].
  change 2%nat with (Z.to_nat 2). rewrite (kv_view_frames 0 2 ex_cache ex_stream (mkGeometry 1 2 6 1 1) 2 view c' [(0, 2); (4, 4)]
    (mkLayout [0; 1; 4; 5; 6; 7] [-3; -3; -1; -1; 0; 0] [0; 1; 4; 5; 6; 7] 1 2 2 3) 2 4 ltac:(lia) ex_cache_fresh ex_stream_ok E);
    [reflexivity| |vm_compute; reflexivity|cbn; lia|vm_compute; split; congruence|reflexivity].
  vm_compute in E. injection E as <- <-. vm_compute. reflexivity.
Defined.

(** Chunks of two tokens, a local window of three. *)
Definition mx_cache : CausalSelfAttentionKVCache Z :=
  mkKVCache (replicate 3 [0]) (replicate 3 [0]) 1 0 0 (Some 0) (Some 0) 3 0 3 false 0 (-1) 0.
Definition mx_stream : list (pass (A:=Z)) := [ex_pass 0 10; ex_pass 2 20; ex_pass 4 30].

Lemma mask_matches_cache_witness : exists view c' segs, kv_run 0 mx_stream mx_cache = Ok (Some view, c') /\ visible_key_segments c' view = Some segs /\ segment_positions segs = [3; 4; 5].
Proof.
  destruct (blockwise_ends 6 1 2) as [ends|] eqn:Ee; [|discriminate].
  destruct (mask_matches_cache 0 6 1 2 3 ends mx_cache mx_stream 5) as (view & c' & segs & E1 & E2 & E3); [lia|lia|done|by exists 3|lia|unfold fresh_cache; split_and!; (done || by vm_compute)|done|done|done| |done|].
  - apply (stream_next 2 0); [done|done|]. apply (stream_next 2 2); [done|done|]. apply (stream_next 2 4); [done|done|]. constructor.
  - exists view, c', segs. split; [exact E1|]. split; [exact E2|]. rewrite E3. injection Ee as <-. vm_compute. reflexivity.
Defined.

(** When the tokens need no padding, dropping the padding drops everything. *)
Lemma no_padding_drops_all {X} n (out : list X) : (128 | n) -> drop_padding (padded_length n) out = [].
Proof.
  intros [m ->]. unfold drop_padding, padded_length, cdiv. rewrite <- Z.mul_opp_l, Z.div_mul by lia. by replace (- - m * 128 - m * 128) with 0 by lia.
Qed.
