(* ===== verification/RollingCache.v ===== *)
(** * RollingCache: the cache protocol of Rolling Forcing

    Models [src/python/sglang/multimodal_gen/runtime/models/dits/rolling_forcing_wanvideo.py]
    and the subclass of the key-value cache in [causal_attention_cache.py].  A
    forward covers a window of blocks; only its first block is written to the
    cache.  The first block of the video is stored without rotary embedding
    and rotated when it is read.  A rotary table is the list of the token
    positions it encodes (frame times frame length plus cell); the rotation of
    a row is a parameter.  The projections of a layer are inputs: what a layer
    hands to attention is the result. *)

From S2P Require Import Prelude SparsePlan SparseContext CausalCache.

Open Scope Z_scope.

(** Cache write and read plan of one forward. *)
Record RollingCacheLayout := mkRollingLayout {
  updating_cache : bool;
  num_new_tokens : Z;
  num_evicted_tokens : Z;
  num_rolled_tokens : Z;
  local_start_index : Z;
  rl_local_end_index : Z;
  global_end_after : Z;
  local_end_after : Z;
  working_start : Z;
  working_end : Z;
  anchor_start_frame : Z;
  anchor_rope_start : Z }.

(** Working range of the cache and frame of the sink. *)
Definition working_range (current_start block_tokens max_attention q_tokens fs num_frames_per_block local_start new_local_end : Z) (updating : bool) : res (Z * Z * Z) :=
  if 0 <? local_start then
    if updating then
      let start := Z.max 0 (new_local_end - max_attention) in
      Ok (start, new_local_end, if start =? 0 then 0 else -1)
    else
      let working_cache_max := max_attention - q_tokens - block_tokens in
      let start := Z.max block_tokens (local_start - working_cache_max) in
      working_frames ← py_div (local_start - start) fs;
      current_start_frame ← py_div current_start fs;
      let anchor := current_start_frame - working_frames - num_frames_per_block in
      if anchor <? 0 then Raise AssertionError else Ok (start, local_start, anchor)
  else Ok (0, 0, -1).

Definition compute_rolling_cache_layout (global_end local_end size current_start block_tokens sink max_attention q_tokens fs num_frames_per_block : Z) (updating : bool) :
    res RollingCacheLayout :=
  let cache_end := current_start + block_tokens in
  let new := cache_end - global_end in
  if new <? 0 then Raise AssertionError
  else
    let full := (0 <? new) && (size <? new + local_end) in
    let evicted := if full then new + local_end - size else 0 in
    let rolled := if full then local_end - evicted - sink else 0 in
    let new_local_end := if full then local_end + new - evicted else local_end + new in
    let local_start := new_local_end - block_tokens in
    w ← working_range current_start block_tokens max_attention q_tokens fs num_frames_per_block local_start new_local_end updating;
    let '(wstart, wend, anchor) := w in
    Ok (mkRollingLayout updating new evicted rolled local_start new_local_end
          (if 0 <? new then cache_end else global_end) (if 0 <? new then new_local_end else local_end)
          wstart wend anchor (if 0 <=? anchor then anchor * fs else -1)).

(** Global ranges of a range of the buffer. *)
Definition cache_range_segments (local_start local_end sink window_start : Z) : list (Z * Z) :=
  (if local_start <? sink then [(local_start, Z.min local_end sink - local_start)] else []) ++
  (if sink <? local_end then let start := Z.max local_start sink in [(window_start + start, local_end - start)] else []).

(** [visible_key_segments]. *)
Definition rolling_key_segments (layout : RollingCacheLayout) (sink block_tokens current_start num_query_tokens : Z) : list (Z * Z) :=
  if local_start_index layout =? 0 then [(current_start, num_query_tokens)]
  else
    let window_start := global_end_after layout - local_end_after layout in
    let working := cache_range_segments (working_start layout) (working_end layout) sink window_start in
    if updating_cache layout then working
    else [(0, block_tokens)] ++ working ++ [(current_start, num_query_tokens)].

Definition visible_key_rope_starts (layout : RollingCacheLayout) (key_segments : list (Z * Z)) : option (list Z) :=
  if updating_cache layout || (local_start_index layout =? 0) then None
  else if anchor_rope_start layout <=? 0 then None
  else Some (anchor_rope_start layout :: (tail key_segments).*1).

Section rolling.
Context {A : Type}.
(** Rotary embedding of a row of heads at a token position. *)
Context (rotate : Z -> list A -> list A).

Record RollingForcingSelfAttentionKVCache := mkRollingCache {
  rc_base : CausalSelfAttentionKVCache A;
  rolling_layout : option RollingCacheLayout;
  rolling_block_tokens : Z;
  rolling_anchor_freqs : option (list Z) }.

Implicit Types c : RollingForcingSelfAttentionKVCache.

Definition put_base b c := mkRollingCache b (rolling_layout c) (rolling_block_tokens c) (rolling_anchor_freqs c).
Definition rolling_read_indices c : (Z * Z) * RollingForcingSelfAttentionKVCache :=
  let '(gl, b) := read_indices (rc_base c) in (gl, put_base b c).
Definition rolling_write_indices (g l : Z) c := put_base (write_indices g l (rc_base c)) c.

(** [get_rotary_pos_embed]: positions of the tokens of [frames] frames. *)
Definition rotary_table (start_frame frames fs : Z) : list Z := (fun i => start_frame * fs + i) <$> zrange 0 (frames * fs).

(** [_apply_rotary_emb]. *)
Definition apply_rotary (freqs : list Z) (rs : rows A) : res (rows A) :=
  if negb (Nat.eqb (length freqs) (length rs)) then Raise RuntimeError else Ok (zip_with rotate freqs rs).

(** Negative bounds of a slice count from the end. *)
Definition py_bound (len i : Z) : Z := if i <? 0 then Z.max 0 (len + i) else i.

Definition write_first_block (layout : RollingCacheLayout) (key roped_key value : rows A) c : res RollingForcingSelfAttentionKVCache :=
  let block := Z.to_nat (rolling_block_tokens c) in
  let sink := sink_tokens (rc_base c) in
  let evicted := num_evicted_tokens layout in
  let rolled := num_rolled_tokens layout in
  b ← (if (0 <? evicted) && (0 <? rolled) then roll None 0 sink evicted rolled (rc_base c) else Ok (rc_base c));
  let bound buf i := py_bound (Z.of_nat (length buf)) i in
  let write (src buf : rows A) := assign_rows None (bound buf (local_start_index layout)) (bound buf (rl_local_end_index layout)) src buf in
  k ← write (take block (if local_start_index layout =? 0 then key else roped_key)) (kc_k b);
  v ← write (take block value) (kc_v b);
  Ok (rolling_write_indices (global_end_after layout) (local_end_after layout) (put_base (put_kv k v b) c)).

(** The sink, rotated to its position in this forward. *)
Definition rerope_anchor c : res (rows A) :=
  match rolling_anchor_freqs c with
  | None => Raise AssertionError
  | Some freqs => apply_rotary freqs (take (Z.to_nat (rolling_block_tokens c)) (kc_k (rc_base c)))
  end.

(** What a layer hands to attention. *)
Record rolling_call := mkRollingCall {
  rl_query : rows A;
  rl_key : rows A;
  rl_value : rows A;
  rl_segments : list (Z * Z);
  rl_rope_starts : option (list Z) }.

(** [RollingForcingWanSelfAttention.forward] with a cache. *)
Definition rolling_attention (freqs : list Z) (current_start : Z) (q k v : rows A) c : res (rolling_call * RollingForcingSelfAttentionKVCache) :=
  roped_query ← apply_rotary freqs q;
  roped_key ← apply_rotary freqs k;
  layout ← or_raise AssertionError (rolling_layout c);
  c ← write_first_block layout k roped_key v c;
  let block := Z.to_nat (rolling_block_tokens c) in
  let segments := rolling_key_segments layout (sink_tokens (rc_base c)) (rolling_block_tokens c) current_start (Z.of_nat (length q)) in
  let rope_starts := visible_key_rope_starts layout segments in
  if local_start_index layout =? 0 then Ok (mkRollingCall roped_query roped_key v segments rope_starts, c)
  else
    let working_k := slice_rows (working_start layout) (working_end layout) (kc_k (rc_base c)) in
    let working_v := slice_rows (working_start layout) (working_end layout) (kc_v (rc_base c)) in
    if updating_cache layout then
      working_k ← (if 0 <=? anchor_start_frame layout then
                     anchor ← rerope_anchor c; assign_rows None 0 (rolling_block_tokens c) anchor working_k
                   else Ok working_k);
      Ok (mkRollingCall roped_query working_k working_v segments rope_starts, c)
    else
      anchor_k ← rerope_anchor c;
      let anchor_v := take block (kc_v (rc_base c)) in
      Ok (mkRollingCall roped_query (anchor_k ++ working_k ++ roped_key) (anchor_v ++ working_v ++ v) segments rope_starts, c).

(** ** One forward of the model *)

(** [num_frames_per_block] and [max_attention_num_frames] of the architecture,
    and the tokens of a frame. *)
Record rolling_arch := mkArch {
  ar_frames_per_block : Z;
  ar_max_attention_frames : Z;
  ar_frame_seqlen : Z }.

Definition prepare_rolling_forward (a : rolling_arch) (num_frames current_start : Z) (updating : bool) (caches : list RollingForcingSelfAttentionKVCache) :
    res (list RollingForcingSelfAttentionKVCache) :=
  match caches with
  | [] => Raise IndexError
  | template :: others =>
      let fs := ar_frame_seqlen a in
      let block_tokens := ar_frames_per_block a * fs in
      let '((g, l), template) := rolling_read_indices template in
      layout ← compute_rolling_cache_layout g l (cache_size (rc_base template)) current_start block_tokens (sink_tokens (rc_base template))
                 (ar_max_attention_frames a * fs) (num_frames * fs) fs (ar_frames_per_block a) updating;
      let freqs := if 0 <=? anchor_start_frame layout then Some (rotary_table (anchor_start_frame layout) (ar_frames_per_block a) fs) else None in
      Ok ((fun c => mkRollingCache (rc_base c) (Some layout) block_tokens freqs) <$> template :: others)
  end.

(** The layers in turn, each with its queries, keys and values. *)
Fixpoint attend_layers (freqs : list Z) (current_start : Z) (inputs : list (rows A * rows A * rows A)) (caches : list RollingForcingSelfAttentionKVCache) :
    res (list rolling_call * list RollingForcingSelfAttentionKVCache) :=
  match inputs, caches with
  | [], _ => Ok ([], caches)
  | _, [] => Raise IndexError
  | (q, k, v) :: inputs, c :: caches =>
      o ← rolling_attention freqs current_start q k v c;
      r ← attend_layers freqs current_start inputs caches;
      Ok (o.1 :: r.1, o.2 :: r.2)
  end.

(** [start_frame] gives the rotary positions, [current_start] the tokens. *)
Definition rolling_model_forward (a : rolling_arch) (num_frames start_frame current_start : Z) (updating : bool) (inputs : list (rows A * rows A * rows A))
    (caches : list RollingForcingSelfAttentionKVCache) : res (list rolling_call * list RollingForcingSelfAttentionKVCache) :=
  caches ← prepare_rolling_forward a num_frames current_start updating caches;
  attend_layers (rotary_table start_frame num_frames (ar_frame_seqlen a)) current_start inputs caches.

End rolling.
Arguments RollingForcingSelfAttentionKVCache : clear implicits.
Arguments rolling_call : clear implicits.

(** ** Cross attention *)

(** Keys and values of the condition, computed once per reset. *)
Record CrossAttentionKVCache (T : Type) := mkCross { cross_k : T; cross_v : T; is_init : bool }.
Arguments mkCross {_} _ _ _.
Arguments cross_k {_} _.
Arguments cross_v {_} _.
Arguments is_init {_} _.

Definition cross_store {T} (k v : T) (_ : CrossAttentionKVCache T) : CrossAttentionKVCache T := mkCross k v true.
Definition cross_reset {T} (c : CrossAttentionKVCache T) : CrossAttentionKVCache T := mkCross (cross_k c) (cross_v c) false.
