(* ===== verification/Denoising.v ===== *)
(** * Denoising: the causal denoising stages of video pipelines

    Models the loops of
    [src/python/sglang/multimodal_gen/runtime/pipelines_core/stages/rolling_forcing_denoising.py]
    and of [causal_denoising.py].  A latent frame of type [L] stands for that
    frame of all batch elements; a video is a list of frames.  The transformer,
    the conversion of its prediction to a clean frame, the noise schedule and
    the random generator are parameters; the transformer changes a state of
    its own (its caches). *)

From S2P Require Import Prelude SparsePlan SparseContext CausalCache.

Open Scope Z_scope.

(** [video[:, :, a:b]] for non-negative bounds, and its assignment. *)
Definition frames_of {L} (a b : Z) (v : list L) : list L := slice_rows a b v.
Definition put_frames {L} (a b : Z) (src v : list L) : res (list L) :=
  if negb (Nat.eqb (length (frames_of a b v)) (length src)) then Raise RuntimeError
  else Ok (take (Z.to_nat a) v ++ src ++ drop (Z.to_nat a + length src) v).

(** [l[-n:]] for positive [n]. *)
Definition last_frames {L} (n : Z) (v : list L) : list L := drop (length v - Z.to_nat n) v.

Fixpoint zip3_with {A B C D} (f : A -> B -> C -> D) (l : list A) (k : list B) (m : list C) : list D :=
  match l, k, m with
  | x :: l, y :: k, z :: m => f x y z :: zip3_with f l k m
  | _, _, _ => []
  end.

(** A forward of the transformer. *)
Record dit_call (L T : Type) := mkDit {
  d_latents : list L;
  d_timestep : list T;
  d_start_tokens : Z;
  d_start_frame : Z;
  d_updating : bool }.
Arguments mkDit {_ _} _ _ _ _ _.
Arguments d_latents {_ _} _.
Arguments d_timestep {_ _} _.
Arguments d_start_tokens {_ _} _.
Arguments d_start_frame {_ _} _.
Arguments d_updating {_ _} _.

(** The same transformer with a log of its calls and results. *)
Definition logged {L T S} (tr : dit_call L T -> S -> res (list L * S)) (c : dit_call L T) (s : S * list (dit_call L T * list L)) :
    res (list L * (S * list (dit_call L T * list L))) :=
  o ← tr c s.1; Ok (o.1, (o.2, s.2 ++ [(c, o.1)])).

(** ** Rolling Forcing *)

Definition build_rolling_window_bounds (num_blocks window_length : Z) : list (Z * Z) :=
  (fun w => (Z.max 0 (w - window_length + 1), Z.min (num_blocks - 1) w)) <$> zrange 0 (num_blocks + window_length - 1).

Definition build_staggered_timesteps {T} (timesteps : list T) (blk : Z) : list T :=
  reverse timesteps ≫= fun t => replicate (Z.to_nat blk) t.

Section stages.
Context {L T S G : Type}.
Context (transformer : dit_call L T -> S -> res (list L * S)).
(** [pred_noise_to_pred_video] and [scheduler.add_noise], per frame. *)
Context (pred_to_x0 : L -> L -> T -> L) (noised : L -> L -> T -> L).
Context (randn : nat -> G -> list L * G).
(** A frame of zeros and timestep 0. *)
Context (zero_frame : L) (zero_t : T).

(** Settings of the stage: frames per block and tokens per frame. *)
Record stage_config := mkStage { blk : Z; num_token_per_frame : Z }.
Context (st : stage_config).

Definition pred_noise_to_pred_video (pred noisy : list L) (ts : list T) : res (list L) :=
  if negb (Nat.eqb (length ts) (length noisy)) then Raise AssertionError
  else if negb (Nat.eqb (length pred) (length noisy)) then Raise RuntimeError
  else Ok (zip3_with pred_to_x0 pred noisy ts).

Definition forward_rolling_transformer (latents : list L) (ts : list T) (start_frame : Z) (updating : bool) (s : S) : res (list L * S) :=
  transformer (mkDit latents ts (start_frame * num_token_per_frame st) start_frame updating) s.

(** The loop of [_renoise_unfinished_blocks]. *)
Fixpoint renoise_blocks (timesteps : list T) (x0 : list L) (window_index start_block : Z) (blocks : list Z) (cache : list L) (g : G) : res (list L * G) :=
  match blocks with
  | [] => Ok (cache, g)
  | b :: blocks =>
      let step_index := window_index - b in
      if step_index =? Z.of_nat (length timesteps) - 1 then renoise_blocks timesteps x0 window_index start_block blocks cache g
      else
        next ← or_raise IndexError (timesteps !! Z.to_nat (step_index + 1));
        let x0_block := frames_of ((b - start_block) * blk st) ((b - start_block + 1) * blk st) x0 in
        let '(noise, g) := randn (length x0_block) g in
        cache ← put_frames (b * blk st) ((b + 1) * blk st) (zip_with (fun x n => noised x n next) x0_block noise) cache;
        renoise_blocks timesteps x0 window_index start_block blocks cache g
  end.

Definition renoise_unfinished_blocks (timesteps : list T) (x0 : list L) (window_index start_block end_block : Z) :=
  renoise_blocks timesteps x0 window_index start_block (zrange start_block (end_block + 1)).

(** What the stage changes during the loop. *)
Record rolling_state := mkRolling {
  r_dit : S;
  r_gen : G;
  noisy_cache : list L;
  r_output : list L }.

(** Input of a window: re-noised blocks and fresh noise for a new one. *)
Definition window_input (noise cache : list L) (window_frames start_frame end_frame : Z) : list L :=
  if (end_frame - start_frame =? window_frames) || (start_frame =? 0)
  then frames_of start_frame (end_frame - blk st) cache ++ frames_of (end_frame - blk st) end_frame noise
  else frames_of start_frame end_frame cache.

Definition window_timestep (shared : list T) (start_frame end_frame total_frames : Z) : res (list T) :=
  let frames := end_frame - start_frame in
  if frames =? Z.of_nat (length shared) then Ok shared
  else if start_frame =? 0 then Ok (last_frames frames shared)
  else if end_frame =? total_frames then Ok (take (Z.to_nat frames) shared)
  else Raise ValueError.

Definition run_rolling_window (timesteps shared : list T) (noise : list L) (total_frames window_index start_block end_block : Z) (r : rolling_state) : res rolling_state :=
  let start_frame := start_block * blk st in
  let end_frame := (end_block + 1) * blk st in
  let noisy_input := window_input noise (noisy_cache r) (Z.of_nat (length shared)) start_frame end_frame in
  current_timestep ← window_timestep shared start_frame end_frame total_frames;
  p ← forward_rolling_transformer noisy_input current_timestep start_frame false (r_dit r);
  x0 ← pred_noise_to_pred_video p.1 noisy_input current_timestep;
  output ← put_frames start_frame end_frame x0 (r_output r);
  n ← renoise_unfinished_blocks timesteps x0 window_index start_block end_block (noisy_cache r) (r_gen r);
  let clean_first_block := take (Z.to_nat (blk st)) x0 in
  u ← forward_rolling_transformer clean_first_block (replicate (Z.to_nat (blk st)) zero_t) start_frame true p.2;
  Ok (mkRolling u.2 n.2 n.1 output).

Fixpoint run_windows (timesteps shared : list T) (noise : list L) (total_frames window_index : Z) (bounds : list (Z * Z)) (r : rolling_state) : res rolling_state :=
  match bounds with
  | [] => Ok r
  | (s, e) :: bounds =>
      r ← run_rolling_window timesteps shared noise total_frames window_index s e r;
      run_windows timesteps shared noise total_frames (window_index + 1) bounds r
  end.

(** [RollingForcingDenoisingStage.forward]; [reset] stands for the allocation
    or the reset of the caches. *)
Definition rolling_forward (reset : S -> S) (timesteps : list T) (latents : list L) (s : S) (g : G) : res rolling_state :=
  let total_frames := Z.of_nat (length latents) in
  rest ← py_mod total_frames (blk st);
  if negb (rest =? 0) then Raise ValueError
  else
    num_blocks ← py_div total_frames (blk st);
    let bounds := build_rolling_window_bounds num_blocks (Z.of_nat (length timesteps)) in
    let shared := build_staggered_timesteps timesteps (blk st) in
    let zeros := replicate (length latents) zero_frame in
    run_windows timesteps shared latents total_frames 0 bounds (mkRolling (reset s) g zeros zeros).

(** ** Causal DMD: one block after the other *)

(** Settings: size and sink of the cache in frames, and the flag of the
    transformer; [context_noise] is the timestep of a cache refresh. *)
Record dmd_config := mkDmd {
  local_attn_size : Z;
  sliding_window_num_frames : option Z;
  sink_size : Z;
  independent_first_frame : bool;
  context_noise : T }.
Context (dc : dmd_config).

Definition get_causal_kv_cache_size (total_num_frames : option Z) : res Z :=
  if negb (local_attn_size dc =? -1) then Ok (local_attn_size dc * num_token_per_frame st)
  else match sliding_window_num_frames dc with
       | Some n => Ok (num_token_per_frame st * n)
       | None => match total_num_frames with None => Raise ValueError | Some t => Ok (num_token_per_frame st * t) end
       end.

Definition get_causal_sink_tokens : Z := sink_size dc * num_token_per_frame st.

(** One prediction; the timestep is shared by the frames of the block. *)
Definition predict_x0 (input noisy : list L) (t : T) (start_tokens start_frame : Z) (s : S) : res (list L * S) :=
  p ← transformer (mkDit input [t] start_tokens start_frame false) s;
  x0 ← pred_noise_to_pred_video p.1 noisy (replicate (length noisy) t);
  Ok (x0, p.2).

(** The denoising steps of a block: its latents so far, clean after the last. *)
Fixpoint denoise_causal_dmd_chunk (timesteps : list T) (prepare : list L -> list L) (start_tokens start_frame : Z) (current : list L) (s : S) (g : G) : res (list L * S * G) :=
  match timesteps with
  | [] => Ok (current, s, g)
  | t :: rest =>
      o ← predict_x0 (prepare current) current t start_tokens start_frame s;
      match rest with
      | [] => Ok (o.1, o.2, g)
      | next :: _ =>
          let '(noise, g) := randn (length current) g in
          denoise_causal_dmd_chunk rest prepare start_tokens start_frame (zip_with (fun x n => noised x n next) o.1 noise) o.2 g
      end
  end.

Definition update_causal_context_cache (context : list L) (start_tokens start_frame : Z) (s : S) : res S :=
  o ← transformer (mkDit context [context_noise dc] start_tokens start_frame true) s; Ok o.2.

Definition warm_up_causal_context_cache (context : list L) (start_frame : Z) (s : S) : res S :=
  update_causal_context_cache context (start_frame * num_token_per_frame st) start_frame s.

Definition denoise_and_update_causal_block (timesteps : list T) (prepare : list L -> list L) (start_tokens start_frame : Z) (chunk : list L) (s : S) (g : G) : res (list L * S * G) :=
  o ← denoise_causal_dmd_chunk timesteps prepare start_tokens start_frame chunk s g;
  let '(current, s, g) := o in
  s ← update_causal_context_cache current start_tokens start_frame s;
  Ok (current, s, g).

(** The loop over the given frames, with fuel for one frame per round. *)
Fixpoint warm_up_loop (fuel : nat) (image : list L) (start_frame remaining : Z) (s : S) : res (Z * S) :=
  if remaining <=? 0 then Ok (start_frame, s)
  else match fuel with
       | O => Raise Diverges
       | Datatypes.S fuel =>
           let block := Z.min (blk st) remaining in
           s ← warm_up_causal_context_cache (frames_of start_frame (start_frame + block) image) start_frame s;
           warm_up_loop fuel image (start_frame + block) (remaining - block) s
       end.

Definition warm_up (image : list L) (s : S) : res (Z * S) :=
  let input_frames := Z.of_nat (length image) in
  if independent_first_frame dc && (1 <=? input_frames) then
    s ← warm_up_causal_context_cache (frames_of 0 1 image) 0 s;
    warm_up_loop (length image) image 1 (input_frames - 1) s
  else warm_up_loop (length image) image 0 input_frames s.

(** Sizes of the blocks in frames. *)
Definition block_sizes (t : Z) (has_image : bool) : res (list Z) :=
  let first := if negb (independent_first_frame dc) || has_image then 0 else 1 in
  rest ← py_mod (t - first) (blk st);
  if negb (rest =? 0) then Raise ValueError
  else n ← py_div (t - first) (blk st); Ok (replicate (Z.to_nat first) 1 ++ replicate (Z.to_nat n) (blk st)).

Fixpoint denoise_blocks (timesteps : list T) (image : option (list L)) (base start_index : Z) (sizes : list Z) (latents : list L) (s : S) (g : G) : res (list L * S * G) :=
  match sizes with
  | [] => Ok (latents, s, g)
  | n :: sizes =>
      let prepare current := match image with
        | Some im => if independent_first_frame dc && (start_index =? 0) then current ++ im else current
        | None => current
        end in
      o ← denoise_and_update_causal_block timesteps prepare ((base + start_index) * num_token_per_frame st) start_index (frames_of start_index (start_index + n) latents) s g;
      let '(current, s, g) := o in
      latents ← put_frames start_index (start_index + n) current latents;
      denoise_blocks timesteps image base (start_index + n) sizes latents s g
  end.

(** [CausalDMDDenoisingStage.forward]; [reset] allocates or resets caches of
    the given number of rows. *)
Definition dmd_forward (reset : Z -> S -> S) (timesteps : list T) (image : option (list L)) (latents : list L) (s : S) (g : G) : res (list L * S * G) :=
  let t := Z.of_nat (length latents) in
  size ← get_causal_kv_cache_size (Some (match image with Some im => Z.of_nat (length im) | None => 0 end + t));
  w ← (match image with Some im => warm_up im (reset size s) | None => Ok (0, reset size s) end);
  sizes ← block_sizes t (match image with Some _ => true | None => false end);
  denoise_blocks timesteps image w.1 0 sizes latents w.2 g.

End stages.

(** ** The caches of the causal stage

    One layer's cache; the stage keeps one per transformer block. *)

Section caches.
Context {T A : Type} (st : stage_config) (dc : dmd_config (T:=T)) (zero : A) (num_attention_heads : nat) (use_int_indices : bool).

Definition allocate_causal_kv_cache (kv_cache_size sink global_sink : Z) (window : option Z) (growth : bool) : CausalSelfAttentionKVCache A :=
  let int_index := if use_int_indices then Some 0 else None in
  let window := match window with None => kv_cache_size | Some w => w end in
  let zeros := replicate (Z.to_nat kv_cache_size) (replicate num_attention_heads zero) in
  kv_post_init (mkKVCache zeros zeros num_attention_heads 0 0 int_index int_index kv_cache_size sink window growth global_sink (-1) 0).

Definition get_causal_attention_window_size (kv_cache_size : Z) : Z := kv_cache_size.

Definition initialize_kv_cache (kv_cache_size : Z) : CausalSelfAttentionKVCache A :=
  allocate_causal_kv_cache kv_cache_size (get_causal_sink_tokens st dc) 0 (Some (get_causal_attention_window_size kv_cache_size)) false.

(** [forward] allocates the caches, or resets those of the request before when
    they have the size this request needs. *)
Definition initialize_or_reset_kv_cache (expected_kv_cache_size : Z) (cache : option (CausalSelfAttentionKVCache A)) : CausalSelfAttentionKVCache A :=
  match cache with
  | Some c => if negb (cache_size c =? expected_kv_cache_size) then initialize_kv_cache expected_kv_cache_size else reset_indices c
  | None => initialize_kv_cache expected_kv_cache_size
  end.
End caches.
