(* ===== verification/RollingClaims.v ===== *)
(** * RollingClaims: what a Rolling Forcing layer attends to

    The history of a layer is the list of the latest key and value rows of all
    tokens of the video that were written.  The buffer holds the first block in
    place and without rotary embedding, the rest shifted by what was evicted
    and rotated at its global position.  Over the windows of a video, every
    attention call gets the rows its segments name, rotated at the positions
    it reports. *)

From S2P Require Import Prelude SparsePlan SparsePlanSpec SparseContext CausalCache CausalCacheSpec RollingCache Denoising.

Open Scope Z_scope.

Lemma zrange_from s n : (fun i => s + i) <$> zrange 0 n = zrange s (s + n).
Proof. unfold zrange. change (fun i => s + i) with (Z.add s). rewrite fmap_add_seqZ. f_equal; lia. Qed.

Section spec.
Context {A : Type} (rotate : Z -> list A -> list A).
Implicit Types (K V H X : rows A).

(** ** Reading rows at positions *)

(** [X] holds the rows of [H] at positions [ps], rotated at [rs]. *)
Definition reads H X (ps rs : list Z) : Prop := Some <$> X = zip_with (fun p r => rotate r <$> H !! Z.to_nat p) ps rs.

Lemma reads_app H X1 X2 ps1 ps2 rs1 rs2 : length ps1 = length rs1 -> reads H X1 ps1 rs1 -> reads H X2 ps2 rs2 -> reads H (X1 ++ X2) (ps1 ++ ps2) (rs1 ++ rs2).
Proof. unfold reads. intros Hl H1 H2. rewrite fmap_app, H1, H2. by rewrite zip_with_app. Qed.

Lemma reads_rotated H X ps rs : length ps = length rs -> Some <$> X = rows_at H ps -> reads H (zip_with rotate rs X) ps rs.
Proof.
  unfold reads, rows_at. revert X rs. induction ps as [|p ps IH]; intros [|x X] [|r rs] Hl E; try done. cbn in E |- *. injection E as <- E. f_equal. apply IH; [|done]. by injection Hl.
Qed.

(** ** The stored keys *)

Context (bt : Z).

(** Rows of a history from position [s] on as the buffer holds them. *)
Definition stored_from (s : Z) K : rows A := imap (fun i r => let p := s + Z.of_nat i in if p <? bt then r else rotate p r) K.
Definition stored K : rows A := stored_from 0 K.

Lemma stored_from_lookup s K i : 0 <= i -> stored_from s K !! Z.to_nat i = (fun r => if s + i <? bt then r else rotate (s + i) r) <$> K !! Z.to_nat i.
Proof. intros Hi. unfold stored_from. rewrite list_lookup_imap. destruct (K !! Z.to_nat i); cbn; [|done]. by rewrite Z2Nat.id. Qed.

Lemma length_stored_from s K : length (stored_from s K) = length K.
Proof. apply length_imap. Qed.

Lemma stored_overwrite s src K : 0 <= s <= Z.of_nat (length K) -> stored (overwrite s src K) = overwrite s (stored_from s src) (stored K).
Proof.
  intros Hs. apply list_eq. intros i. replace i with (Z.to_nat (Z.of_nat i)) by lia. unfold stored. rewrite stored_from_lookup by lia.
  rewrite !overwrite_lookup by (rewrite ?length_stored_from; lia). rewrite length_stored_from. case_decide.
  - rewrite stored_from_lookup by lia. by replace (s + (Z.of_nat i - s)) with (0 + Z.of_nat i) by lia.
  - by rewrite stored_from_lookup by lia.
Qed.

(** Rotated rows of a block that is not the first. *)
Lemma stored_block s src : bt <= s -> stored_from s src = zip_with rotate ((fun i => s + i) <$> zrange 0 (Z.of_nat (length src))) src.
Proof.
  intros Hs. apply list_eq. intros i. replace i with (Z.to_nat (Z.of_nat i)) by lia. rewrite stored_from_lookup by lia. rewrite lookup_zip_with, list_lookup_fmap. unfold zrange.
  destruct (src !! Z.to_nat (Z.of_nat i)) as [r|] eqn:E; cbn.
  - apply lookup_lt_Some in E. rewrite lookup_seqZ_lt by lia. cbn. rewrite Z.add_0_l, !Nat2Z.id. by destruct (Z.ltb_spec (s + Z.of_nat i) bt); [lia|].
  - by destruct (seqZ _ _ !! _).
Qed.

Lemma stored_first src : Z.of_nat (length src) <= bt -> stored_from 0 src = src.
Proof.
  intros Hl. apply list_eq. intros i. replace i with (Z.to_nat (Z.of_nat i)) by lia. rewrite stored_from_lookup by lia.
  destruct (src !! Z.to_nat (Z.of_nat i)) as [r|] eqn:E; cbn; [|done]. apply lookup_lt_Some in E. by destruct (Z.ltb_spec (0 + Z.of_nat i) bt); [|lia].
Qed.

(** Stored rows at positions of the first block are plain, at others rotated. *)
Lemma stored_plain K ps : Forall (fun p => 0 <= p < bt) ps -> rows_at (stored K) ps = rows_at K ps.
Proof.
  intros HF. apply list_fmap_ext. intros i p Hp. rewrite Forall_lookup in HF. specialize (HF i p Hp). cbn in HF. unfold stored. rewrite stored_from_lookup by lia.
  destruct (K !! Z.to_nat p); cbn; [|done]. by destruct (Z.ltb_spec (0 + p) bt); [|lia].
Qed.

Lemma stored_rotated K X ps : Forall (fun p => bt <= p /\ 0 <= p) ps -> Some <$> X = rows_at (stored K) ps -> reads K X ps ps.
Proof.
  intros HF E. unfold reads. rewrite E. unfold rows_at. clear E. induction HF as [|p ps [Hp H0] HF IH]; [done|]. cbn. f_equal; [|apply IH]. unfold stored. rewrite stored_from_lookup by lia.
  destruct (K !! Z.to_nat p); cbn; [|done]. by destruct (Z.ltb_spec (0 + p) bt); [lia|].
Qed.

(** A longer write at the same place agrees with the shorter one below its end. *)
Lemma overwrite_take s n src K p : 0 <= s <= Z.of_nat (length K) -> 0 <= n <= Z.of_nat (length src) -> Z.of_nat (length K) <= s + n -> 0 <= p < s + n ->
  overwrite s (take (Z.to_nat n) src) K !! Z.to_nat p = overwrite s src K !! Z.to_nat p.
Proof.
  intros Hs Hn HK Hp. rewrite !overwrite_lookup by lia. rewrite length_take. case_decide.
  - rewrite decide_True by lia. apply lookup_take_lt. lia.
  - by rewrite decide_False by lia.
Qed.

Lemma reads_ext H H' X ps rs : Forall (fun p => H !! Z.to_nat p = H' !! Z.to_nat p) ps -> reads H X ps rs -> reads H' X ps rs.
Proof.
  unfold reads. intros HF ->. revert rs. induction HF as [|p ps Hp HF IH]; intros [|r rs]; try done. cbn. by rewrite Hp, IH.
Qed.

Lemma rows_at_ext H H' ps : Forall (fun p => H !! Z.to_nat p = H' !! Z.to_nat p) ps -> rows_at H ps = rows_at H' ps.
Proof. intros HF. apply list_fmap_ext. intros i p Hp. rewrite Forall_lookup in HF. by apply (HF i). Qed.

End spec.

(** ** The layout of a forward *)

Section layout.
Context (fs nfpb size ma : Z).
Local Abbreviation bt := (nfpb * fs).
(** Whole blocks fit into the cache, two at least, and into the attention
    limit. *)
Record geometry_ok : Prop := {
  go_pos : 0 < fs /\ 0 < nfpb;
  go_size : (bt | size) /\ 2 * bt <= size;
  go_max : (bt | ma) /\ 0 < ma }.
Context (Hgeo : geometry_ok).

(** Tokens written and rows filled after block [b], and the history tokens a
    denoising pass of [q] queries sees besides the sink. *)
Definition written (b : Z) : Z := (b + 1) * bt.
Definition filled (b : Z) : Z := Z.min (written b) size.
Definition history_seen (b q : Z) : Z := Z.min (ma - q - bt) (filled b - 2 * bt).

(** A pass over [q] tokens from block [b]: the block last written, or the next. *)
Record pass_ok (g b q : Z) (updating : bool) : Prop := {
  po_next : 0 <= b /\ (g = written (b - 1) \/ g = written b);
  po_frames : (fs | q) /\ bt <= q;
  po_update : updating = true -> q = bt;
  po_limit : updating = false -> 0 < b -> q + bt <= ma }.

(** What the layout of such a pass holds. *)
Record layout_ok (g b q : Z) (updating : bool) (lay : RollingCacheLayout) : Prop := {
  lo_upd : updating_cache lay = updating;
  lo_evicted : Z.min g size + (written b - g) = filled b + num_evicted_tokens lay /\ 0 <= num_evicted_tokens lay;
  lo_rolled : 0 < num_evicted_tokens lay -> num_rolled_tokens lay = Z.min g size - num_evicted_tokens lay - bt;
  lo_local : local_start_index lay = filled b - bt /\ rl_local_end_index lay = filled b;
  lo_after : global_end_after lay = written b /\ local_end_after lay = filled b;
  lo_updating : updating = true -> 0 < b -> working_start lay = Z.max 0 (filled b - ma) /\ working_end lay = filled b /\
    anchor_start_frame lay = if working_start lay =? 0 then 0 else -1;
  lo_denoise : updating = false -> 0 < b -> 0 <= history_seen b q /\ working_start lay = filled b - bt - history_seen b q /\ working_end lay = filled b - bt /\
    0 <= anchor_start_frame lay /\ anchor_start_frame lay * fs = b * bt - history_seen b q - bt;
  lo_rope : anchor_rope_start lay = if 0 <=? anchor_start_frame lay then anchor_start_frame lay * fs else -1 }.

Lemma bt_pos : 0 < bt.
Proof. destruct Hgeo as [[? ?] _ _]. nia. Qed.

(** A full cache holds a whole number of blocks, so it is full exactly. *)
Lemma filled_full b : 0 <= b -> size < written b -> size <= written (b - 1).
Proof.
  destruct Hgeo as [_ [[m ->] _] _]. pose proof bt_pos. unfold written. intros Hb Hlt. assert (m < b + 1) by (apply (Z.mul_lt_mono_pos_r bt); lia). nia.
Qed.

Lemma filled_ge b : 0 < b -> 2 * bt <= filled b.
Proof. intros Hb. pose proof bt_pos. destruct Hgeo as [_ [_ H2] _]. unfold filled, written. nia. Qed.

Lemma filled_0 : filled 0 = bt.
Proof. pose proof bt_pos. destruct Hgeo as [_ [_ H2] _]. unfold filled, written. lia. Qed.

Lemma filled_divide b : (bt | filled b).
Proof. unfold filled. destruct Hgeo as [_ [Hs _] _]. destruct (Z.min_spec (written b) size) as [[_ ->]|[_ ->]]; [by exists (b + 1)|done]. Qed.

Lemma filled_step b : 0 <= b -> filled (b - 1) <= filled b <= filled (b - 1) + bt.
Proof. intros Hb. unfold filled, written. pose proof bt_pos. lia. Qed.

(** The working range of a denoising pass is a whole number of frames. *)
Lemma denoise_range b q : 0 < b -> (fs | q) -> q + bt <= ma ->
  0 <= history_seen b q /\ (fs | history_seen b q) /\ history_seen b q <= b * bt - bt /\
  working_range (b * bt) bt ma q fs nfpb (filled b - bt) (filled b) false =
    Ok (filled b - bt - history_seen b q, filled b - bt, (b * bt - history_seen b q - bt) / fs).
Proof.
  intros Hb Hq Hlim. pose proof bt_pos as Hbt. pose proof (filled_ge b Hb) as Hge. destruct Hgeo as [[Hfs Hn] _ [Hma _]].
  assert (0 <= history_seen b q) as H0 by (unfold history_seen; lia).
  assert (history_seen b q <= b * bt - bt) as Hle by (unfold history_seen, filled, written; lia).
  assert (fs | bt) as Hd by (exists nfpb; lia).
  assert (fs | history_seen b q) as Hh.
  { unfold history_seen. destruct (Z.min_spec (ma - q - bt) (filled b - 2 * bt)) as [[_ ->]|[_ ->]].
    - repeat apply Z.divide_sub_r; try done. by apply (Z.divide_trans _ bt).
    - apply Z.divide_sub_r; [|by apply Z.divide_mul_r]. apply (Z.divide_trans _ bt); [done|apply filled_divide]. }
  split_and!; try done. unfold working_range. destruct (Z.ltb_spec 0 (filled b - bt)); [|lia].
  assert (Z.max bt (filled b - bt - (ma - q - bt)) = filled b - bt - history_seen b q) as -> by (unfold history_seen; lia).
  unfold py_div. destruct (Z.eqb_spec fs 0); [lia|]. cbn [mbind res_bind]. destruct Hh as [hf Ehf].
  assert (b * bt / fs = b * nfpb) as -> by (replace (b * bt) with (b * nfpb * fs) by lia; by rewrite Z.div_mul).
  assert ((filled b - bt - (filled b - bt - history_seen b q)) / fs = hf) as -> by (replace (filled b - bt - (filled b - bt - history_seen b q)) with (hf * fs) by lia; by rewrite Z.div_mul).
  assert ((b * bt - history_seen b q - bt) / fs = b * nfpb - hf - nfpb) as ->.
  { replace (b * bt - history_seen b q - bt) with ((b * nfpb - hf - nfpb) * fs) by lia. by rewrite Z.div_mul. }
  assert (0 <= b * nfpb - hf - nfpb) by nia. destruct (Z.ltb_spec (b * nfpb - hf - nfpb) 0); [lia|done].
Qed.

Lemma compute_layout_ok g b q updating : pass_ok g b q updating ->
  exists lay, compute_rolling_cache_layout g (Z.min g size) size (b * bt) bt bt ma q fs nfpb updating = Ok lay /\ layout_ok g b q updating lay.
Proof.
  intros [[Hb Hg] [Hq1 Hq2] Hu Hlim]. pose proof bt_pos as Hbt. pose proof (filled_step b Hb) as Hst. pose proof (filled_full b Hb) as Hfull. unfold compute_rolling_cache_layout.
  assert (b * bt + bt = written b) as Ew by (unfold written; lia). rewrite Ew.
  assert (written (b - 1) = written b - bt) as Ew1 by (unfold written; lia).
  destruct (Z.ltb_spec (written b - g) 0); [lia|].
  set (full := (0 <? written b - g) && (size <? written b - g + Z.min g size)). cbv zeta. set (evicted := if full then _ else 0).
  assert ((if full then Z.min g size + (written b - g) - evicted else Z.min g size + (written b - g)) = filled b /\ Z.min g size + (written b - g) = filled b + evicted /\ 0 <= evicted) as (-> & Hev & Hev0).
  { unfold evicted, full, filled. destruct (Z.ltb_spec 0 (written b - g)), (Z.ltb_spec size (written b - g + Z.min g size)); cbn [andb]; lia. }
  assert (0 < evicted -> (if full then Z.min g size - evicted - bt else 0) = Z.min g size - evicted - bt) as Hrol by (unfold evicted; destruct full; lia).
  assert ((if 0 <? written b - g then written b else g) = written b /\ (if 0 <? written b - g then filled b else Z.min g size) = filled b) as [Ega Ela].
  { unfold filled. destruct (Z.ltb_spec 0 (written b - g)); [done|]. lia. }
  destruct updating; [|destruct (decide (b = 0)) as [->|Hb0] ].
  - unfold working_range. destruct (Z.ltb_spec 0 (filled b - bt)) as [Hpos|Hpos]; bind_step; (eexists; split; [reflexivity|]); split; cbn; try done.
    + intros _ Hb1. pose proof (filled_ge b Hb1). lia.
  - unfold working_range. pose proof filled_0. destruct (Z.ltb_spec 0 (filled 0 - bt)); [lia|]. bind_step. eexists; split; [reflexivity|]. split; cbn; done || lia.
  - destruct (denoise_range b q ltac:(lia) Hq1 (Hlim eq_refl ltac:(lia))) as (H0 & [hf Ehf] & Hle & ->). bind_step. destruct Hgeo as [[Hfs Hn] _ _].
    assert ((b * bt - history_seen b q - bt) / fs = b * nfpb - hf - nfpb) as E.
    { replace (b * bt - history_seen b q - bt) with ((b * nfpb - hf - nfpb) * fs) by lia. apply Z.div_mul. lia. }
    rewrite E. eexists; split; [reflexivity|]. split; cbn; try done. intros _ _. split_and!; try done; [|lia]. nia.
Qed.

End layout.

(** ** Writing a block *)

Section cache.
Context {A : Type} (rotate : Z -> list A -> list A).
Context (fs nfpb size ma : Z) (Hgeo : geometry_ok fs nfpb size ma).
Local Abbreviation bt := (nfpb * fs).
Local Abbreviation written := (written fs nfpb).
Local Abbreviation filled := (filled fs nfpb size).
Implicit Types (K V H X : rows A) (c : RollingForcingSelfAttentionKVCache A).

(** The cache of a layer after [g] tokens whose latest rows are [K] and [V]. *)
Record rolling_ok (g : Z) c K V : Prop := {
  ro_len : Z.of_nat (length (kc_k (rc_base c))) = size /\ Z.of_nat (length (kc_v (rc_base c))) = size /\ cache_size (rc_base c) = size;
  ro_hist : Z.of_nat (length K) = g /\ Z.of_nat (length V) = g;
  ro_ends : global_end_index_int (rc_base c) = Some g /\ local_end_index_int (rc_base c) = Some (Z.min g size);
  ro_sink : sink_tokens (rc_base c) = bt;
  ro_k : holds (stored rotate bt K) (kc_k (rc_base c)) bt (g - Z.min g size) (Z.min g size);
  ro_v : holds V (kc_v (rc_base c)) bt (g - Z.min g size) (Z.min g size) }.

(** The rows after eviction. *)
Lemma evict_rows g b q updating lay c K V : pass_ok fs nfpb ma g b q updating -> layout_ok fs nfpb size ma g b q updating lay -> rolling_ok g c K V ->
  exists b', (if (0 <? num_evicted_tokens lay) && (0 <? num_rolled_tokens lay) then roll None 0 bt (num_evicted_tokens lay) (num_rolled_tokens lay) (rc_base c) else Ok (rc_base c)) =
    Ok (put_kv (kc_k b') (kc_v b') (rc_base c)) /\
  Z.of_nat (length (kc_k b')) = size /\ Z.of_nat (length (kc_v b')) = size /\
  exists l0, filled b - bt <= l0 <= filled b /\ holds (stored rotate bt K) (kc_k b') bt (written b - filled b) l0 /\ holds V (kc_v b') bt (written b - filled b) l0.
Proof.
  intros [[Hb Hg] _ _ _] [_ [Hl He] Hr _ _ _ _ _] [(Lk & Lv & _) _ _ _ Hk Hv]. pose proof (bt_pos _ _ _ _ Hgeo) as Hbt.
  pose proof (filled_step _ _ _ _ Hgeo b Hb) as Hst. assert (written (b - 1) = written b - bt) as Ew by (unfold RollingClaims.written; lia).
  pose proof (filled_full _ _ _ _ Hgeo b Hb) as Hfull. destruct Hgeo as [_ [_ H2] _]. set (e := num_evicted_tokens lay) in *.
  assert (e = 0 \/ (0 < e /\ g = written b - bt /\ size <= g /\ e = bt)) as [E0|(Hpos & Eg & Hge & Ee)].
  { unfold RollingClaims.filled in *. destruct Hg; subst g; lia. }
  - rewrite E0. cbn [Z.ltb Z.compare andb]. exists (rc_base c). split; [by destruct (rc_base c)|]. split; [done|]. split; [done|]. exists (Z.min g size). split; [lia|].
    assert (written b - filled b = g - Z.min g size) as -> by (unfold RollingClaims.filled in *; destruct Hg; subst g; lia). done.
  - assert ((if (0 <? e) && (0 <? num_rolled_tokens lay) then roll None 0 bt e (num_rolled_tokens lay) (rc_base c) else Ok (rc_base c)) =
      roll None 0 bt e (Z.max 0 (Z.min g size - e - bt)) (rc_base c)) as ->.
    { rewrite Hr by done. unfold roll. destruct (Z.ltb_spec 0 e); [|lia]. cbn [andb]. destruct (Z.ltb_spec 0 (Z.min g size - e - bt)), (Z.ltb_spec 0 (Z.max 0 (Z.min g size - e - bt))); try lia; [|done].
      by rewrite (Z.max_r 0) by lia. }
    destruct (roll_ok (rc_base c) (stored rotate bt K) V 0 bt (g - Z.min g size) (Z.min g size) e) as (k & v & -> & L1 & L2 & R1 & R2); try done; try lia.
    exists (put_kv k v (rc_base c)). cbn [kc_k kc_v put_kv]. split; [done|]. split; [lia|]. split; [lia|]. exists (Z.min g size - e). split; [lia|].
    replace (written b - filled b) with (g - Z.min g size + e) by (unfold RollingClaims.filled in *; lia). done.
Qed.

(** Rows rotated at consecutive positions. *)
Definition roped (s : Z) (k : rows A) : rows A := zip_with rotate ((fun i => s + i) <$> zrange 0 (Z.of_nat (length k))) k.

Lemma apply_rotary_ok start n k : Z.of_nat (length k) = n * fs -> apply_rotary rotate (rotary_table start n fs) k = Ok (roped (start * fs) k).
Proof.
  intros Hl. unfold apply_rotary, rotary_table, roped. rewrite length_fmap, length_zr, <- Hl.
  replace (Nat.eqb (Z.to_nat (Z.of_nat (length k) - 0)) (length k)) with true by (symmetry; apply Nat.eqb_eq; lia). done.
Qed.

Lemma take_roped s n k : take n (roped s k) = roped s (take n k).
Proof.
  unfold roped. rewrite zip_with_take, <- fmap_take. f_equal. f_equal. rewrite length_take. unfold zrange. rewrite !Z.sub_0_r.
  apply list_eq. intros i. destruct (decide (i < n)%nat).
  - rewrite lookup_take_lt by done. destruct (decide (i < length k)%nat); [by rewrite !lookup_seqZ_lt by lia|by rewrite !lookup_seqZ_ge by lia].
  - rewrite lookup_take_ge by lia. by rewrite lookup_seqZ_ge by lia.
Qed.

Lemma write_indices_same g l (b : CausalSelfAttentionKVCache A) : kc_k (write_indices g l b) = kc_k b /\ kc_v (write_indices g l b) = kc_v b /\
  cache_size (write_indices g l b) = cache_size b /\ sink_tokens (write_indices g l b) = sink_tokens b.
Proof. unfold write_indices. by case_match. Qed.

(** The block a pass writes. *)
Definition cached_block (b : Z) (k : rows A) K : rows A := overwrite (b * bt) (take (Z.to_nat bt) k) K.

Lemma write_block_ok g b q updating lay c K V k v : pass_ok fs nfpb ma g b q updating -> layout_ok fs nfpb size ma g b q updating lay -> rolling_ok g c K V ->
  rolling_block_tokens c = bt -> Z.of_nat (length k) = q -> Z.of_nat (length v) = q ->
  exists c', write_first_block lay k (roped (b * bt) k) v c = Ok c' /\ rolling_ok (written b) c' (cached_block b k K) (cached_block b v V) /\
    rolling_layout c' = rolling_layout c /\ rolling_block_tokens c' = bt /\ rolling_anchor_freqs c' = rolling_anchor_freqs c.
Proof.
  intros Hp Hlay Hro Hbt' Hk Hv. destruct (evict_rows _ _ _ _ _ _ _ _ Hp Hlay Hro) as (b' & Eev & L1 & L2 & l0 & Hl0 & Hhk & Hhv).
  pose proof Hp as [[Hb Hg] [_ Hq] _ _]. pose proof Hlay as [_ _ _ [Els Ele] [Ega Ela] _ _ _]. pose proof Hro as [_ [LK LV] [Egi Eli] Hsk _ _].
  pose proof (bt_pos _ _ _ _ Hgeo) as Hbt. assert (written (b - 1) = b * bt /\ written b = b * bt + bt) as [Ew1 Ew] by (unfold RollingClaims.written; lia).
  assert (bt <= filled b <= size /\ filled b <= written b /\ (b = 0 -> filled b = bt) /\ (0 < b -> 2 * bt <= filled b)) as (Hfl & Hfw & Hf0 & Hf1).
  { split_and!; [| | |intros ->; by eapply filled_0|by apply (filled_ge _ _ _ _ Hgeo)]; unfold RollingClaims.filled; try lia. destruct Hgeo as [_ [_ ?] _]. nia. }
  set (src := take (Z.to_nat bt) k). assert (Z.of_nat (length src) = bt) as Hsrc by (unfold src; rewrite length_take; lia).
  assert (take (Z.to_nat bt) (if local_start_index lay =? 0 then k else roped (b * bt) k) = stored_from rotate bt (b * bt) src) as Esrc.
  { rewrite Els. destruct (Z.eqb_spec (filled b - bt) 0) as [E|E].
    - assert (b = 0) as -> by (destruct (decide (b = 0)); [done|]; specialize (Hf1 ltac:(lia)); lia). rewrite Z.mul_0_l, stored_first by lia. done.
    - assert (0 < b) by (destruct (decide (b = 0)) as [->|]; [lia|lia]). rewrite take_roped, stored_block by nia. done. }
  assert (Z.of_nat (length (take (Z.to_nat bt) v)) = bt) as Hsv by (rewrite length_take; lia).
  unfold write_first_block. rewrite Hbt', Hsk, Eev. bind_step. cbn [kc_k kc_v put_kv]. rewrite Esrc, Els, Ele, L1, L2. unfold py_bound.
  destruct (Z.ltb_spec (filled b - bt) 0); [lia|]. destruct (Z.ltb_spec (filled b) 0); [lia|].
  rewrite !assign_rows_Ok by (rewrite ?length_stored_from; lia). bind_step. eexists. split; [reflexivity|].
  assert (written b - filled b = 0 \/ bt + (written b - filled b) <= b * bt) as Hsh by (unfold RollingClaims.filled in *; destruct Hgeo as [_ [_ ?] _]; lia).
  assert (filled b - bt = b * bt - (written b - filled b)) as Eloc by lia.
  assert (0 <= b * bt - (written b - filled b)) as Hge by lia. rewrite Eloc.
  pose proof (length_overwrite (b * bt - (written b - filled b)) (stored_from rotate bt (b * bt) src) (kc_k b') ltac:(lia)) as N1. rewrite length_stored_from in N1.
  pose proof (length_overwrite (b * bt - (written b - filled b)) (take (Z.to_nat bt) v) (kc_v b') ltac:(lia)) as N2.
  split; [|done]. split; cbn [rc_base rolling_write_indices put_base]; rewrite ?(proj1 (write_indices_same _ _ _)), ?(proj1 (proj2 (write_indices_same _ _ _))),
    ?(proj1 (proj2 (proj2 (write_indices_same _ _ _)))), ?(proj2 (proj2 (proj2 (write_indices_same _ _ _)))); cbn [kc_k kc_v cache_size sink_tokens put_kv].
  - split_and!; [lia|lia|apply Hro].
  - unfold cached_block. fold src. pose proof (length_overwrite (b * bt) src K ltac:(lia)). pose proof (length_overwrite (b * bt) (take (Z.to_nat bt) v) V ltac:(lia)). lia.
  - unfold write_indices. rewrite Ega, Ela. cbn [global_end_index_int local_end_index_int put_kv]. rewrite Egi, Eli. destruct (bool_decide (Some g = _) && _) eqn:E; cbn; [|done].
    apply andb_true_iff in E as [E1%bool_decide_eq_true_1 E2%bool_decide_eq_true_1]. by rewrite Egi, Eli, E1, E2.
  - done.
  - change (Z.min (written b) size) with (filled b). unfold cached_block. fold src. rewrite stored_overwrite by lia.
    eapply (holds_write _ _ _ _ l0 (filled b) _ bt); rewrite ?length_stored_from; try done; try lia. unfold stored. rewrite length_stored_from. lia.
  - change (Z.min (written b) size) with (filled b). unfold cached_block. eapply (holds_write _ _ _ _ l0 (filled b) _ bt); try done; lia.
Qed.

(** ** What a layer attends to *)

(** Positions a pass from block [b] with [q] queries sees, in order: the window
    itself while the first block is in it; the sink and the newest rows of the
    cache when the cache is refreshed, without the sink once it no longer fits;
    the sink, the history and the window when it is denoised. *)
Definition view_positions (b q : Z) (updating : bool) : list Z :=
  let h := history_seen fs nfpb size ma b q in
  if b =? 0 then zrange 0 q
  else if updating then
    if filled b <=? ma then zrange 0 bt ++ zrange (written b - (filled b - bt)) (written b) else zrange (written b - ma) (written b)
  else zrange 0 bt ++ zrange (b * bt - h) (b * bt) ++ zrange (b * bt) (b * bt + q).

(** Positions of the rotary embedding: a denoising pass puts the sink right
    before the history. *)
Definition view_ropes (b q : Z) (updating : bool) : list Z :=
  let h := history_seen fs nfpb size ma b q in
  if (b =? 0) || updating then view_positions b q updating
  else zrange (b * bt - h - bt) (b * bt - h) ++ zrange (b * bt - h) (b * bt) ++ zrange (b * bt) (b * bt + q).

Definition rope_positions (segs : list (Z * Z)) (starts : option (list Z)) : list Z :=
  match starts with
  | None => segment_positions segs
  | Some ss => concat (zip_with (fun s (seg : Z * Z) => zrange s (s + seg.2)) ss segs)
  end.

(** The call of a layer whose latest rows with the window's own are [H], [HV]. *)
Record call_ok (b q : Z) (updating : bool) (qr H HV : rows A) (call : rolling_call A) : Prop := {
  co_query : rl_query call = roped (b * bt) qr;
  co_positions : segment_positions (rl_segments call) = view_positions b q updating;
  co_ropes : rope_positions (rl_segments call) (rl_rope_starts call) = view_ropes b q updating;
  co_key : reads rotate H (rl_key call) (view_positions b q updating) (view_ropes b q updating);
  co_value : Some <$> rl_value call = rows_at HV (view_positions b q updating) }.

Lemma own_rows s q (k K : rows A) : Z.of_nat (length k) = q -> 0 <= s <= Z.of_nat (length K) -> Some <$> k = rows_at (overwrite s k K) (zrange s (s + q)).
Proof.
  intros Hk Hs. apply list_eq. intros i. unfold rows_at. rewrite !list_lookup_fmap. unfold zrange. destruct (decide (i < length k)%nat) as [Hi|Hi].
  - rewrite lookup_seqZ_lt by lia. cbn. rewrite overwrite_lookup by lia. rewrite decide_True by lia. replace (Z.to_nat (s + Z.of_nat i - s)) with i by lia.
    destruct (lookup_lt_is_Some_2 k i Hi) as [r ->]. done.
  - rewrite lookup_seqZ_ge by lia. by rewrite lookup_ge_None_2 by lia.
Qed.

Lemma roped_reads s q (k K : rows A) : Z.of_nat (length k) = q -> 0 <= s <= Z.of_nat (length K) -> reads rotate (overwrite s k K) (roped s k) (zrange s (s + q)) (zrange s (s + q)).
Proof.
  intros Hk Hs. unfold roped. rewrite Hk. rewrite zrange_from. apply reads_rotated; [done|]. by apply own_rows.
Qed.

(** Rows of the buffer behind the sink and of the sink. *)
Section after.
Context (b : Z) (Hb : 0 <= b) (c : RollingForcingSelfAttentionKVCache A) (K V : rows A) (Hro : rolling_ok (written b) c K V).
Local Abbreviation shift := (written b - filled b).

Lemma after_sizes : bt <= filled b <= size /\ filled b <= written b.
Proof. pose proof (bt_pos _ _ _ _ Hgeo). destruct Hgeo as [_ [_ ?] _]. unfold RollingClaims.filled, RollingClaims.written. nia. Qed.

Lemma behind_sink (X : rows A) buf a e : holds X buf bt shift (filled b) -> Z.of_nat (length buf) = size -> bt <= a -> e <= filled b ->
  Some <$> slice_rows a e buf = rows_at X (zrange (a + shift) (e + shift)).
Proof.
  intros Hh Hl Ha He. pose proof after_sizes. pose proof (bt_pos _ _ _ _ Hgeo). rewrite (slice_rows_at X buf bt shift e a); [|by eapply holds_less|lia|lia]. f_equal. rewrite <- zrange_shift. apply list_fmap_ext.
  intros i z Hz%list_elem_of_lookup_2%elem_of_zrange. unfold global_pos. by destruct (Z.ltb_spec z bt); [lia|].
Qed.

Lemma in_sink (X : rows A) buf : holds X buf bt shift (filled b) -> Z.of_nat (length buf) = size -> Some <$> take (Z.to_nat bt) buf = rows_at X (zrange 0 bt).
Proof.
  intros Hh Hl. pose proof after_sizes. pose proof (bt_pos _ _ _ _ Hgeo). assert (take (Z.to_nat bt) buf = slice_rows 0 bt buf) as -> by (unfold slice_rows; by rewrite Z.sub_0_r, drop_0).
  rewrite (slice_rows_at X buf bt shift bt 0); [|eapply holds_less; [done|lia]|lia|lia]. f_equal. etrans; [|apply list_fmap_id]. apply list_fmap_ext.
  intros i z Hz%list_elem_of_lookup_2%elem_of_zrange. unfold global_pos. by destruct (Z.ltb_spec z bt); [|lia].
Qed.

Lemma ro_holds : holds (stored rotate bt K) (kc_k (rc_base c)) bt shift (filled b) /\ holds V (kc_v (rc_base c)) bt shift (filled b).
Proof. split; apply Hro. Qed.

(** The history, read in place. *)
Lemma working_reads a e : bt <= a -> e <= filled b ->
  reads rotate K (slice_rows a e (kc_k (rc_base c))) (zrange (a + shift) (e + shift)) (zrange (a + shift) (e + shift)) /\
  Some <$> slice_rows a e (kc_v (rc_base c)) = rows_at V (zrange (a + shift) (e + shift)).
Proof.
  intros Ha He. destruct ro_holds as [Hk Hv]. pose proof (ro_len _ _ _ _ Hro) as (L1 & L2 & _). pose proof after_sizes. pose proof (bt_pos _ _ _ _ Hgeo). split; [|by apply behind_sink].
  apply (stored_rotated rotate bt); [|by apply behind_sink]. apply Forall_forall. intros p Hp%elem_of_zrange. lia.
Qed.

(** The sink, rotated to any place. *)
Lemma anchor_reads frame : rolling_block_tokens c = bt -> rolling_anchor_freqs c = Some (rotary_table frame nfpb fs) ->
  exists anchor, rerope_anchor rotate c = Ok anchor /\ Z.of_nat (length anchor) = bt /\ reads rotate K anchor (zrange 0 bt) (zrange (frame * fs) (frame * fs + bt)).
Proof.
  intros Ebt Ef. destruct ro_holds as [Hk _]. pose proof (ro_len _ _ _ _ Hro) as (L1 & _ & _). pose proof after_sizes. pose proof (bt_pos _ _ _ _ Hgeo).
  set (sink := take (Z.to_nat bt) (kc_k (rc_base c))). assert (Z.of_nat (length sink) = bt) as Hl by (unfold sink; rewrite length_take; lia).
  exists (roped (frame * fs) sink). unfold rerope_anchor. rewrite Ef, Ebt. split; [by apply apply_rotary_ok|]. split.
  { unfold roped. rewrite length_zip_with, length_fmap, length_zr. lia. }
  unfold roped. rewrite Hl. rewrite zrange_from. apply reads_rotated; [rewrite !length_zr; lia|]. unfold sink. rewrite (in_sink (stored rotate bt K)) by done. apply stored_plain. apply Forall_forall. intros p Hp%elem_of_zrange. lia.
Qed.

End after.

(** The block written agrees with the window's rows below its end. *)
Lemma cached_agrees g b (k K : rows A) ps : 0 <= b -> g = written (b - 1) \/ g = written b -> Z.of_nat (length K) = g -> bt <= Z.of_nat (length k) ->
  Forall (fun p => 0 <= p < written b) ps -> Forall (fun p => cached_block b k K !! Z.to_nat p = overwrite (b * bt) k K !! Z.to_nat p) ps.
Proof.
  intros Hb Hg HK Hk HF. pose proof (bt_pos _ _ _ _ Hgeo). eapply Forall_impl; [exact HF|]. intros p Hp. cbn in Hp. unfold cached_block. unfold RollingClaims.written in *. apply overwrite_take; lia.
Qed.

Section views.
Context (g b q : Z) (updating : bool) (lay : RollingCacheLayout) (Hp : pass_ok fs nfpb ma g b q updating) (Hlay : layout_ok fs nfpb size ma g b q updating lay).
Context (c : RollingForcingSelfAttentionKVCache A) (qr k v K V : rows A).
Context (HK : Z.of_nat (length K) = g /\ Z.of_nat (length V) = g) (Hk : Z.of_nat (length k) = q) (Hv : Z.of_nat (length v) = q).
Context (Hro : rolling_ok (written b) c (cached_block b k K) (cached_block b v V)).
Context (Hfreqs : rolling_block_tokens c = bt /\ rolling_anchor_freqs c = if 0 <=? anchor_start_frame lay then Some (rotary_table (anchor_start_frame lay) nfpb fs) else None).
Local Abbreviation h := (history_seen fs nfpb size ma b q).
Local Abbreviation segments := (rolling_key_segments lay bt bt (b * bt) q).

Lemma views_at ps : Forall (fun p => 0 <= p < written b) ps -> forall X rs, reads rotate (cached_block b k K) X ps rs -> reads rotate (overwrite (b * bt) k K) X ps rs.
Proof. intros HF X rs. pose proof Hp as [[Hb Hg] [_ Hq] _ _]. apply reads_ext. eapply cached_agrees; [done..|apply HK|lia|done]. Qed.

Lemma values_at ps : Forall (fun p => 0 <= p < written b) ps -> rows_at (cached_block b v V) ps = rows_at (overwrite (b * bt) v V) ps.
Proof. intros HF. pose proof Hp as [[Hb Hg] [_ Hq] _ _]. apply rows_at_ext. eapply cached_agrees; [done..|apply HK|lia|done]. Qed.

(** What the segments of a denoising pass name. *)
Lemma denoise_segments : updating = false -> 0 < b ->
  segment_positions segments = view_positions b q updating /\ rope_positions segments (visible_key_rope_starts lay segments) = view_ropes b q updating.
Proof.
  intros Hu Hb. pose proof Hlay as [Eu _ _ [Els _] [Ega Ela] _ Hd Hrope]. specialize (Hd Hu Hb) as (Hh & Ews & Ewe & Han & Ean).
  pose proof (bt_pos _ _ _ _ Hgeo) as Hbt. pose proof (filled_ge _ _ _ _ Hgeo b Hb) as Hf. assert (written b = b * bt + bt) as Ew by (unfold RollingClaims.written; lia).
  set (rest := (if bt <? working_end lay then [(b * bt - h, h)] else []) ++ [(b * bt, q)]).
  assert (segments = (0, bt) :: rest) as Esegs.
  { unfold rolling_key_segments. rewrite Els. destruct (Z.eqb_spec (filled b - bt) 0); [lia|]. rewrite Eu, Hu. unfold cache_range_segments.
    assert (bt <= working_start lay) by (unfold history_seen in *; lia). destruct (Z.ltb_spec (working_start lay) bt); [lia|]. unfold rest. cbn [app]. f_equal. f_equal.
    destruct (Z.ltb_spec bt (working_end lay)); [|done]. rewrite Z.max_l by lia. rewrite Ega, Ela. f_equal. f_equal; lia. }
  assert (segment_positions rest = zrange (b * bt - h) (b * bt) ++ zrange (b * bt) (b * bt + q)) as Erest.
  { unfold segment_positions, rest. destruct (Z.ltb_spec bt (working_end lay)); cbn [app mbind list_bind fst snd]; rewrite app_nil_r.
    - by replace (b * bt - h + h) with (b * bt) by lia.
    - assert (h = 0) as E0 by (unfold history_seen in *; lia). rewrite E0, Z.sub_0_r. unfold zrange at 2. by rewrite Z.sub_diag. }
  assert (segment_positions segments = zrange 0 bt ++ segment_positions rest) as Epos by (by rewrite Esegs).
  unfold view_ropes, view_positions. rewrite Hu. destruct (Z.eqb_spec b 0); [lia|]. cbn [orb]. rewrite <- Erest. split; [done|].
  unfold visible_key_rope_starts. rewrite Eu, Hu, Els, Hrope. destruct (Z.eqb_spec (filled b - bt) 0); [lia|]. cbn [orb]. destruct (Z.leb_spec 0 (anchor_start_frame lay)); [|lia]. rewrite Ean.
  destruct (Z.leb_spec (b * bt - h - bt) 0); cbn [rope_positions].
  - rewrite Epos. f_equal. assert (h <= b * bt - bt) by (unfold history_seen, RollingClaims.filled in *; lia). f_equal; lia.
  - rewrite Esegs. cbn [tail zip_with concat snd]. replace (b * bt - h - bt + bt) with (b * bt - h) by lia. f_equal. unfold rest, segment_positions. destruct (bt <? working_end lay); cbn; by rewrite ?app_nil_r.
Qed.

(** Denoising a later window. *)
Lemma denoise_view : updating = false -> 0 < b ->
  exists anchor, rerope_anchor rotate c = Ok anchor /\
  let working := slice_rows (working_start lay) (working_end lay) in
  call_ok b q updating qr (overwrite (b * bt) k K) (overwrite (b * bt) v V)
    (mkRollingCall (roped (b * bt) qr) (anchor ++ working (kc_k (rc_base c)) ++ roped (b * bt) k) (take (Z.to_nat bt) (kc_v (rc_base c)) ++ working (kc_v (rc_base c)) ++ v)
      segments (visible_key_rope_starts lay segments)).
Proof.
  intros Hu Hb. destruct (denoise_segments Hu Hb) as [Epos Erope]. pose proof Hlay as [_ _ _ _ _ _ Hd _]. specialize (Hd Hu Hb) as (Hh & Ews & Ewe & Han & Ean). pose proof (bt_pos _ _ _ _ Hgeo) as Hbt.
  pose proof (filled_ge _ _ _ _ Hgeo b Hb) as Hf. assert (rolling_anchor_freqs c = Some (rotary_table (anchor_start_frame lay) nfpb fs)) as Ef by (rewrite (proj2 Hfreqs); by destruct (Z.leb_spec 0 (anchor_start_frame lay)); [|lia]).
  pose proof Hp as [[_ Hg] [_ Hq] _ _]. assert (written b = b * bt + bt) as Ew by (unfold RollingClaims.written; lia).
  assert (h <= b * bt - bt) as Hle by (unfold history_seen, RollingClaims.filled in *; lia). assert (0 <= b * bt <= g) as Hg' by (destruct Hg; subst g; unfold RollingClaims.written in *; nia).
  destruct (anchor_reads b ltac:(lia) c _ _ Hro (anchor_start_frame lay) (proj1 Hfreqs) Ef) as (anchor & Ea & La & Ra). rewrite Ean in Ra. replace (b * bt - h - bt + bt) with (b * bt - h) in Ra by lia.
  exists anchor. split; [done|]. cbv zeta.
  destruct (working_reads b ltac:(lia) c _ _ Hro (working_start lay) (working_end lay) ltac:(unfold history_seen in *; lia) ltac:(lia)) as [Rk Rv].
  replace (working_start lay + (written b - filled b)) with (b * bt - h) in Rk, Rv by lia. replace (working_end lay + (written b - filled b)) with (b * bt) in Rk, Rv by lia.
  assert (forall x y, 0 <= x -> y <= written b -> Forall (fun p => 0 <= p < written b) (zrange x y)) as Hin by (intros; apply Forall_forall; intros p Hpp%elem_of_zrange; lia).
  split; cbn [rl_query rl_key rl_value rl_segments rl_rope_starts]; [done|done|done|..]; unfold view_ropes, view_positions; destruct (Z.eqb_spec b 0); try lia; rewrite Hu; cbn [orb].
  - apply reads_app; [rewrite !length_zr; lia| |apply reads_app; [done| |apply roped_reads; [done|lia] ] ]; (apply views_at; [apply Hin; lia|done]).
  - destruct (ro_holds b c _ _ Hro) as [_ Hhv]. pose proof (ro_len _ _ _ _ Hro) as (_ & L2 & _). rewrite !fmap_app, Rv, (in_sink b ltac:(lia) (cached_block b v V)) by done.
    rewrite !values_at by (apply Hin; lia). rewrite (own_rows (b * bt) q v V) by (done || lia). unfold rows_at. by rewrite !fmap_app.
Qed.

Lemma slice_sink (e : Z) (buf : rows A) : bt <= e -> slice_rows 0 e buf = take (Z.to_nat bt) buf ++ slice_rows bt e buf.
Proof.
  intros He. pose proof (bt_pos _ _ _ _ Hgeo). unfold slice_rows. rewrite Z.sub_0_r, drop_0, take_take_drop. f_equal. lia.
Qed.

(** What the segments of a refresh of the cache name. *)
Lemma update_segments : updating = true -> 0 < b ->
  segment_positions segments = view_positions b q updating /\ rope_positions segments (visible_key_rope_starts lay segments) = view_ropes b q updating.
Proof.
  intros Hu Hb. pose proof Hlay as [Eu _ _ [Els _] [Ega Ela] Hd _ _]. specialize (Hd Hu Hb) as (Ews & Ewe & _). pose proof (bt_pos _ _ _ _ Hgeo) as Hbt.
  pose proof (filled_ge _ _ _ _ Hgeo b Hb) as Hf. unfold visible_key_rope_starts, view_ropes. rewrite Eu, Hu, orb_true_r. cbn [orb rope_positions].
  assert (segment_positions segments = view_positions b q true); [|done]. unfold rolling_key_segments, view_positions. rewrite Els, Eu, Hu, Ega, Ela, Ewe.
  destruct (Z.eqb_spec (filled b - bt) 0); [lia|]. destruct (Z.eqb_spec b 0); [lia|]. unfold cache_range_segments. destruct (Z.ltb_spec bt (filled b)); [|lia].
  destruct (Z.leb_spec (filled b) ma).
  - assert (working_start lay = 0) as -> by lia. destruct (Z.ltb_spec 0 bt); [|lia]. unfold segment_positions. cbn [app mbind list_bind fst snd]. rewrite app_nil_r, (Z.min_r (filled b)), (Z.max_r 0) by lia. f_equal; f_equal; lia.
  - assert (bt <= working_start lay) as Hws.
    { destruct (filled_divide _ _ _ _ Hgeo b) as [x Ex]. destruct Hgeo as [_ _ [[y Ey] _] ]. assert (y < x) by (apply (Z.mul_lt_mono_pos_r bt); lia). nia. }
    destruct (Z.ltb_spec (working_start lay) bt); [lia|]. unfold segment_positions. cbn [app mbind list_bind fst snd]. rewrite app_nil_r, Z.max_l by lia. f_equal; lia.
Qed.

(** Refreshing the cache with a later block. *)
Lemma update_view : updating = true -> 0 < b ->
  let working := slice_rows (working_start lay) (working_end lay) in
  exists wk, (if 0 <=? anchor_start_frame lay then anchor ← rerope_anchor rotate c; assign_rows None 0 bt anchor (working (kc_k (rc_base c))) else Ok (working (kc_k (rc_base c)))) = Ok wk /\
  call_ok b q updating qr (overwrite (b * bt) k K) (overwrite (b * bt) v V) (mkRollingCall (roped (b * bt) qr) wk (working (kc_v (rc_base c))) segments (visible_key_rope_starts lay segments)).
Proof.
  intros Hu Hb working. destruct (update_segments Hu Hb) as [Epos Erope]. pose proof Hlay as [_ _ _ _ _ Hd _ _]. specialize (Hd Hu Hb) as (Ews & Ewe & Ean).
  pose proof (bt_pos _ _ _ _ Hgeo) as Hbt. pose proof (filled_ge _ _ _ _ Hgeo b Hb) as Hf. destruct (after_sizes b ltac:(lia)) as [Hfs Hfw]. destruct (ro_holds b c _ _ Hro) as [_ Hhv].
  pose proof (ro_len _ _ _ _ Hro) as (L1 & L2 & _). subst working. cbv beta. rewrite Ewe.
  assert (forall x y, 0 <= x -> y <= written b -> Forall (fun p => 0 <= p < written b) (zrange x y)) as Hin by (intros; apply Forall_forall; intros p Hpp%elem_of_zrange; lia).
  assert (view_ropes b q updating = view_positions b q updating) as Evr by (unfold view_ropes; by rewrite Hu, orb_true_r).
  destruct (decide (filled b <= ma)) as [Hle|Hgt].
  - assert (working_start lay = 0) as E0 by lia. rewrite E0 in Ean |- *. cbn in Ean. rewrite Ean. cbn [Z.leb Z.compare].
    assert (rolling_anchor_freqs c = Some (rotary_table 0 nfpb fs)) as Ef by (rewrite (proj2 Hfreqs), Ean; done).
    destruct (anchor_reads b ltac:(lia) c _ _ Hro 0 (proj1 Hfreqs) Ef) as (anchor & -> & La & Ra). rewrite Z.mul_0_l, Z.add_0_l in Ra. bind_step.
    rewrite assign_rows_Ok by (rewrite ?length_slice_rows; lia). eexists. split; [reflexivity|].
    assert (overwrite 0 anchor (slice_rows 0 (filled b) (kc_k (rc_base c))) = anchor ++ slice_rows bt (filled b) (kc_k (rc_base c))) as ->.
    { unfold overwrite. rewrite take_0, (slice_sink (filled b)) by lia. cbn [app]. f_equal. rewrite drop_app_length'; [done|]. rewrite length_take. lia. }
    destruct (working_reads b ltac:(lia) c _ _ Hro bt (filled b) ltac:(lia) ltac:(lia)) as [Rk Rv].
    replace (bt + (written b - filled b)) with (written b - (filled b - bt)) in Rk, Rv by lia. replace (filled b + (written b - filled b)) with (written b) in Rk, Rv by lia.
    assert (view_positions b q updating = zrange 0 bt ++ zrange (written b - (filled b - bt)) (written b)) as Evp.
    { unfold view_positions. rewrite Hu. destruct (Z.eqb_spec b 0); [lia|]. destruct (Z.leb_spec (filled b) ma); [done|lia]. }
    split; cbn [rl_query rl_key rl_value rl_segments rl_rope_starts]; [done|done|done|..]; rewrite ?Evr, Evp.
    + apply reads_app; [done|..]; (apply views_at; [apply Hin; lia|done]).
    + rewrite (slice_sink (filled b)) by lia. rewrite fmap_app, Rv, (in_sink b ltac:(lia) (cached_block b v V)) by done. rewrite !values_at by (apply Hin; lia). unfold rows_at. by rewrite fmap_app.
  - destruct (Z.eqb_spec (working_start lay) 0); [lia|]. rewrite Ean. cbn [Z.leb Z.compare]. eexists. split; [reflexivity|].
    assert (bt <= working_start lay) as Hws.
    { destruct (filled_divide _ _ _ _ Hgeo b) as [x Ex]. destruct (go_max _ _ _ _ Hgeo) as [[y Ey] _]. assert (y < x) by (apply (Z.mul_lt_mono_pos_r bt); lia). nia. }
    destruct (working_reads b ltac:(lia) c _ _ Hro (working_start lay) (filled b) ltac:(lia) ltac:(lia)) as [Rk Rv]. pose proof (go_max _ _ _ _ Hgeo) as [_ Hma].
    replace (working_start lay + (written b - filled b)) with (written b - ma) in Rk, Rv by lia. replace (filled b + (written b - filled b)) with (written b) in Rk, Rv by lia.
    assert (view_positions b q updating = zrange (written b - ma) (written b)) as Evp.
    { unfold view_positions. rewrite Hu. destruct (Z.eqb_spec b 0); [lia|]. destruct (Z.leb_spec (filled b) ma); [lia|done]. }
    split; cbn [rl_query rl_key rl_value rl_segments rl_rope_starts]; [done|done|done|..]; rewrite ?Evr, Evp; [apply views_at; [apply Hin; lia|done]|rewrite Rv; apply values_at, Hin; lia].
Qed.

End views.

(** A prepared cache. *)
Definition prepared (lay : RollingCacheLayout) c : Prop :=
  rolling_layout c = Some lay /\ rolling_block_tokens c = bt /\
  rolling_anchor_freqs c = if 0 <=? anchor_start_frame lay then Some (rotary_table (anchor_start_frame lay) nfpb fs) else None.

Lemma attention_ok g b n updating lay c qr k v K V : let q := n * fs in
  pass_ok fs nfpb ma g b q updating -> layout_ok fs nfpb size ma g b q updating lay -> rolling_ok g c K V -> prepared lay c ->
  Z.of_nat (length qr) = q -> Z.of_nat (length k) = q -> Z.of_nat (length v) = q ->
  exists call c', rolling_attention rotate (rotary_table (b * nfpb) n fs) (b * bt) qr k v c = Ok (call, c') /\
    call_ok b q updating qr (overwrite (b * bt) k K) (overwrite (b * bt) v V) call /\ rolling_ok (written b) c' (cached_block b k K) (cached_block b v V).
Proof.
  intros q Hp Hlay Hro (El & Ebt & Ef) Hqr Hk Hv. destruct (write_block_ok _ _ _ _ _ _ _ _ _ _ Hp Hlay Hro Ebt Hk Hv) as (c' & Ew & Hro' & _ & Ebt' & Ef').
  pose proof (ro_hist _ _ _ _ Hro) as HKV. pose proof (ro_sink _ _ _ _ Hro') as Esk. rewrite Ef in Ef'. pose proof (bt_pos _ _ _ _ Hgeo) as Hbt.
  unfold rolling_attention. rewrite !apply_rotary_ok by done. bind_step. rewrite El. cbn [or_raise mbind res_bind]. replace (b * nfpb * fs) with (b * bt) by lia. rewrite Ew. bind_step.
  rewrite Esk, Ebt', Hqr. pose proof Hlay as [Eu _ _ [Els _] _ _ _ _]. pose proof Hp as [[Hb Hg] _ _ _]. rewrite Els.
  destruct (decide (b = 0)) as [->|Hb0].
  - rewrite (filled_0 _ _ _ _ Hgeo), Z.sub_diag. cbn [Z.eqb]. eexists _, _. split; [reflexivity|]. split; [|done].
    assert (rolling_key_segments lay bt bt (0 * bt) q = [(0, q)]) as Es by (unfold rolling_key_segments; rewrite Els, (filled_0 _ _ _ _ Hgeo), Z.sub_diag; by rewrite Z.mul_0_l).
    assert (visible_key_rope_starts lay [(0, q)] = None) as Er by (unfold visible_key_rope_starts; rewrite Els, (filled_0 _ _ _ _ Hgeo), Z.sub_diag, orb_true_r; done).
    fold q. rewrite Es, Er. split; cbn; try done; [by rewrite app_nil_r, Z.add_0_l..|apply (roped_reads 0 q); [done|lia]|apply (own_rows 0 q); [done|lia] ].
  - pose proof (filled_ge _ _ _ _ Hgeo b ltac:(lia)). destruct (Z.eqb_spec (filled b - bt) 0); [lia|]. rewrite Eu. destruct updating.
    + destruct (update_view g b q true lay Hp Hlay c' qr k v K V HKV Hk Hv Hro' (conj Ebt' Ef') eq_refl ltac:(lia)) as (wk & -> & Hcall). bind_step. eexists _, _. split; [reflexivity|done].
    + destruct (denoise_view g b q false lay Hp Hlay c' qr k v K V HKV Hk Hv Hro' (conj Ebt' Ef') eq_refl ltac:(lia)) as (anchor & -> & Hcall). bind_step. eexists _, _. split; [reflexivity|done].
Qed.

(** ** All layers *)

(** Queries, keys and values of a layer, and its history. *)
Definition layer_in : Type := rows A * rows A * rows A.
Definition layer_hist : Type := rows A * rows A.

Definition input_ok (q : Z) (x : layer_in) : Prop := Z.of_nat (length x.1.1) = q /\ Z.of_nat (length x.1.2) = q /\ Z.of_nat (length x.2) = q.
Definition hist_ok g c (x : layer_hist) : Prop := rolling_ok g c x.1 x.2.
Definition hist_after (b : Z) (x : layer_in) (y : layer_hist) : layer_hist := (cached_block b x.1.2 y.1, cached_block b x.2 y.2).
Definition layer_call_ok (b q : Z) (updating : bool) (x : layer_in) (y : layer_hist) (call : rolling_call A) : Prop :=
  call_ok b q updating x.1.1 (overwrite (b * bt) x.1.2 y.1) (overwrite (b * bt) x.2 y.2) call.

Lemma attend_layers_ok g b n updating lay inputs : let q := n * fs in
  pass_ok fs nfpb ma g b q updating -> layout_ok fs nfpb size ma g b q updating lay ->
  forall caches hists, Forall (input_ok q) inputs -> Forall2 (hist_ok g) caches hists -> Forall (prepared lay) caches -> length inputs = length caches ->
  exists calls caches', attend_layers rotate (rotary_table (b * nfpb) n fs) (b * bt) inputs caches = Ok (calls, caches') /\
    Forall3 (layer_call_ok b q updating) inputs hists calls /\ Forall2 (hist_ok (written b)) caches' (zip_with (hist_after b) inputs hists).
Proof.
  intros q Hp Hlay. induction inputs as [|[[qr k] v] inputs IH]; intros caches hists Hin Hh Hpr Hlen.
  - destruct caches; [|done]. inversion Hh; subst. eexists _, _. split; [done|]. split; constructor.
  - destruct caches as [|c caches]; [done|]. destruct hists as [|[K V] hists]; [inversion Hh|]. apply Forall_cons in Hin as [(I1 & I2 & I3) Hin]. apply Forall2_cons in Hh as [Hc Hh]. apply Forall_cons in Hpr as [Hpc Hpr].
    cbn [fst snd] in I1, I2, I3. destruct (attention_ok _ _ _ _ _ _ _ _ _ _ _ Hp Hlay Hc Hpc I1 I2 I3) as (call & c' & E & Hcall & Hro'). destruct (IH caches hists Hin Hh Hpr ltac:(by injection Hlen)) as (calls & caches' & E' & Hcalls & Hros).
    cbn [attend_layers]. rewrite E. bind_step. rewrite E'. bind_step. eexists _, _. split; [reflexivity|]. cbn. split; constructor; done.
Qed.

Lemma model_forward_ok a g b n updating inputs caches hists : let q := n * fs in
  ar_frames_per_block a = nfpb -> ar_frame_seqlen a = fs -> ar_max_attention_frames a * fs = ma ->
  pass_ok fs nfpb ma g b q updating -> Forall (input_ok q) inputs -> Forall2 (hist_ok g) caches hists -> length inputs = length caches -> caches <> [] ->
  exists calls caches', rolling_model_forward rotate a n (b * nfpb) (b * bt) updating inputs caches = Ok (calls, caches') /\
    Forall3 (layer_call_ok b q updating) inputs hists calls /\ Forall2 (hist_ok (written b)) caches' (zip_with (hist_after b) inputs hists).
Proof.
  intros q Ea1 Ea2 Ea3 Hp Hin Hh Hlen Hne. destruct caches as [|c caches]; [done|]. destruct (compute_layout_ok _ _ _ _ Hgeo _ _ _ _ Hp) as (lay & Elay & Hlay).
  assert (exists x, hist_ok g c x) as [x Hc] by (inversion Hh; subst; eauto). pose proof (ro_ends _ _ _ _ Hc) as [Eg El]. pose proof (ro_len _ _ _ _ Hc) as (_ & _ & Esz). pose proof (ro_sink _ _ _ _ Hc) as Esk.
  unfold rolling_model_forward, prepare_rolling_forward, rolling_read_indices, read_indices. rewrite Eg, El, Ea1, Ea2, Ea3. cbn [rc_base put_base]. rewrite Esz, Esk. fold q. rewrite Elay. bind_step.
  eapply attend_layers_ok; try done; [|apply Forall_fmap, Forall_forall; done|by rewrite length_fmap].
  apply Forall2_fmap_l. destruct hists as [|y hists]; [inversion Hh|]. apply Forall2_cons in Hh as [Hy Hh]. unfold hist_ok in *.
  constructor; [destruct Hy; split; done|]. eapply Forall2_impl; [exact Hh|]. intros c0 z Hz. destruct Hz. split; done.
Qed.

(** ** A video *)

(** A pass: first block, frames of the window, kind, inputs of the layers. *)
Definition rolling_pass : Type := Z * Z * bool * list layer_in.

(** The passes of a video one after the other. *)
Fixpoint rolling_run (a : rolling_arch) (passes : list rolling_pass) (caches : list (RollingForcingSelfAttentionKVCache A)) :
    res (list (list (rolling_call A)) * list (RollingForcingSelfAttentionKVCache A)) :=
  match passes with
  | [] => Ok ([], caches)
  | (b, n, updating, inputs) :: passes =>
      o ← rolling_model_forward rotate a n (b * nfpb) (b * bt) updating inputs caches;
      r ← rolling_run a passes o.2;
      Ok (o.1 :: r.1, r.2)
  end.

(** Every call is right for the rows written before it. *)
Fixpoint calls_ok (passes : list rolling_pass) (hists : list layer_hist) (calls : list (list (rolling_call A))) : Prop :=
  match passes, calls with
  | [], [] => True
  | (b, n, updating, inputs) :: passes, cs :: calls =>
      Forall3 (layer_call_ok b (n * fs) updating) inputs hists cs /\ calls_ok passes (zip_with (hist_after b) inputs hists) calls
  | _, _ => False
  end.

(** Passes that stay at the block last written or go to the next. *)
Fixpoint passes_ok (layers : nat) (g : Z) (passes : list rolling_pass) : Prop :=
  match passes with
  | [] => True
  | (b, n, updating, inputs) :: passes =>
      pass_ok fs nfpb ma g b (n * fs) updating /\ Forall (input_ok (n * fs)) inputs /\ length inputs = layers /\ passes_ok layers (written b) passes
  end.

Lemma rolling_run_ok a passes : ar_frames_per_block a = nfpb -> ar_frame_seqlen a = fs -> ar_max_attention_frames a * fs = ma ->
  forall g caches hists, passes_ok (length caches) g passes -> Forall2 (hist_ok g) caches hists -> caches <> [] ->
  exists calls caches', rolling_run a passes caches = Ok (calls, caches') /\ calls_ok passes hists calls.
Proof.
  intros Ea1 Ea2 Ea3. induction passes as [|[[[b n] updating] inputs] passes IH]; intros g caches hists Hps Hh Hne.
  - by eexists _, _.
  - destruct Hps as (Hp & Hin & Hlen & Hps). destruct (model_forward_ok a g b n updating inputs caches hists) as (calls & caches1 & E & Hc & Hh1); try done.
    assert (length caches1 = length caches) as Hl1.
    { pose proof (Forall2_length _ _ _ Hh1) as E1. pose proof (Forall2_length _ _ _ Hh) as E2. rewrite length_zip_with in E1. lia. }
    destruct (IH (written b) caches1 (zip_with (hist_after b) inputs hists)) as (rest & caches' & E' & Hr); [by rewrite Hl1|done|by destruct caches1, caches|].
    cbn [rolling_run]. rewrite E. bind_step. cbn [snd]. rewrite E'. bind_step. eexists _, _. split; [reflexivity|]. done.
Qed.

(** The passes the denoising stage makes for a window: the window, then a
    refresh with its first block. *)
Definition window_shapes (w : Z * Z) : list (Z * Z * bool) := [(w.1, (w.2 - w.1 + 1) * nfpb, false); (w.1, nfpb, true)].

Definition fresh_rolling c : Prop :=
  Z.of_nat (length (kc_k (rc_base c))) = size /\ Z.of_nat (length (kc_v (rc_base c))) = size /\ cache_size (rc_base c) = size /\ sink_tokens (rc_base c) = bt /\
  global_end_index_int (rc_base c) = Some 0 /\ local_end_index_int (rc_base c) = Some 0.

Lemma fresh_rolling_ok c : fresh_rolling c -> hist_ok 0 c ([], []).
Proof.
  intros (L1 & L2 & Hsz & Hsk & Hg & Hl). pose proof (bt_pos _ _ _ _ Hgeo). assert (Z.min 0 size = 0) as E0 by (destruct Hgeo as [_ [_ ?] _]; lia).
  split; rewrite ?E0; try done; intros i Hi; lia.
Qed.

(** Inputs of the right size for every layer. *)
Definition pass_inputs_ok (layers : nat) (p : rolling_pass) : Prop := Forall (input_ok (p.1.1.2 * fs)) p.2 /\ length p.2 = layers.

Lemma windows_in_order N W layers n : 1 <= N -> 1 <= W -> (W + 1) * bt <= ma ->
  forall w0 g passes, 0 <= w0 -> w0 + Z.of_nat n = N + W - 1 -> let s := Z.max 0 (w0 - W + 1) in g = written (s - 1) \/ g = written s ->
  passes.*1 = ((fun w => (Z.max 0 (w - W + 1), Z.min (N - 1) w)) <$> seqZ w0 (Z.of_nat n)) ≫= window_shapes -> Forall (pass_inputs_ok layers) passes -> passes_ok layers g passes.
Proof.
  intros HN HW Hlim. pose proof (bt_pos _ _ _ _ Hgeo) as Hbt. destruct (go_pos _ _ _ _ Hgeo) as [Hfs Hnf]. induction n as [|n IH]; intros w0 g passes Hw Hn s Hg Hps Hin.
  - cbn in Hps. by destruct passes.
  - rewrite seqZ_cons in Hps by lia. cbn [fmap list_fmap mbind list_bind window_shapes app fst snd] in Hps.
    destruct passes as [|[[[b1 n1] u1] i1] passes]; [done|]. destruct passes as [|[[[b2 n2] u2] i2] passes]; [done|]. cbn in Hps. injection Hps as -> -> -> -> -> -> Hps. fold s in Hps |- *.
    apply Forall_cons in Hin as [[I1 I2] Hin]. apply Forall_cons in Hin as [[J1 J2] Hin]. cbn [fst snd] in *. set (e := Z.min (N - 1) w0) in *.
    assert (0 <= e - s < W) as He by lia.
    split; [|split; [done|split; [done|split; [|split; [done|split; [done|] ] ] ] ] ].
    + split; [lia| |done|]; [split; [exists ((e - s + 1) * nfpb); lia|nia]|]. intros _ _. nia.
    + split; [split; [lia|by right]|split; [by exists nfpb|lia]|done|intros [=] ].
    + eapply (IH (w0 + 1)); try done; try lia.
      * assert (Z.max 0 (w0 + 1 - W + 1) = s \/ Z.max 0 (w0 + 1 - W + 1) = s + 1) as [->| ->] by lia; [by right|left; f_equal; lia].
      * rewrite Hps. unfold Z.succ. by replace (Z.pred (Z.of_nat (S n))) with (Z.of_nat n) by lia.
Qed.

End cache.

(** C6: Over the windows of a video, no forward of Rolling Forcing
    raises, and every layer attends to exactly these rows, in this order: the
    window itself while the first block is in it; when a later window is
    denoised the sink, the newest cached tokens that fit the attention limit
    and the window, the sink rotated to just before the history; when the cache
    is refreshed the sink and everything cached, or the newest tokens of the
    limit.  Each row is the latest one of its token, rotated at the position
    reported with the segments; only first blocks of windows are remembered. *)
Theorem rolling_views {A} (rotate : Z -> list A -> list A) (a : rolling_arch) size N W passes caches :
  let fs := ar_frame_seqlen a in let nfpb := ar_frames_per_block a in let ma := ar_max_attention_frames a * fs in
  geometry_ok fs nfpb size ma -> 1 <= N -> 1 <= W -> W + 1 <= ar_max_attention_frames a / nfpb ->
  passes.*1 = build_rolling_window_bounds N W ≫= window_shapes nfpb -> Forall (pass_inputs_ok fs (length caches)) passes ->
  Forall (fresh_rolling fs nfpb size) caches -> caches <> [] ->
  exists calls caches', rolling_run rotate fs nfpb a passes caches = Ok (calls, caches') /\
    calls_ok rotate fs nfpb size ma passes (replicate (length caches) ([], [])) calls.
Proof.
  intros fs nfpb ma Hgeo HN HW Hlim Hps Hin Hfr Hne. destruct (go_pos _ _ _ _ Hgeo) as [Hfs Hnf]. apply (rolling_run_ok rotate fs nfpb size ma Hgeo a passes eq_refl eq_refl eq_refl 0); try done.
  - apply (windows_in_order fs nfpb size ma Hgeo N W (length caches) (Z.to_nat (N + W - 1))) with (w0 := 0); try done; try lia.
    + assert ((W + 1) * nfpb <= ar_max_attention_frames a) by (pose proof (Z.mul_div_le (ar_max_attention_frames a) nfpb Hnf); nia). unfold ma. nia.
    + left. rewrite Z.max_l by lia. unfold written. lia.
    + unfold build_rolling_window_bounds, zrange in Hps. rewrite Z2Nat.id by lia. by rewrite Z.sub_0_r in Hps.
  - induction Hfr as [|c caches' Hc Hfr IH]; cbn; constructor; [by eapply fresh_rolling_ok|]. clear - Hgeo Hfr. induction Hfr; cbn; constructor; [by eapply fresh_rolling_ok|done].
Qed.

(** ** Concrete runs *)

(** A row is a token number and the position it is rotated at. *)
Definition rx_rotate (p : Z) (r : list Z) : list Z := match r with [x] => [x; p] | _ => r end.
(** Blocks of one frame of one token, four cached, four attended. *)
Definition rx_arch : rolling_arch := mkArch 1 4 1.
Definition rx_base (size sink : Z) : CausalSelfAttentionKVCache Z :=
  mkKVCache (replicate (Z.to_nat size) [-1]) (replicate (Z.to_nat size) [-1]) 1 0 0 (Some 0) (Some 0) size sink size false 0 (-1) 0.
Definition rx_cache (size sink : Z) : RollingForcingSelfAttentionKVCache Z := mkRollingCache (rx_base size sink) None 0 None.
(** The rows of a window that starts at token [first]. *)
Definition rx_rows (first n : Z) : rows Z := (fun i => [first + i]) <$> zrange 0 n.
Definition rx_passes (nfpb fs : Z) (shapes : list (Z * Z * bool)) : list (rolling_pass (A:=Z)) :=
  (fun sh => let r := rx_rows (sh.1.1 * nfpb * fs) (sh.1.2 * fs) in (sh, [(r, r, r)])) <$> shapes.

Lemma rolling_views_witness : exists calls caches', rolling_run rx_rotate 1 1 rx_arch (rx_passes 1 1 (build_rolling_window_bounds 6 3 ≫= window_shapes 1)) [rx_cache 4 1] = Ok (calls, caches') /\
  rl_key <$> (calls !! 14%nat ≫= fun cs : list (rolling_call Z) => head cs) = Some [[0; 2]; [3; 3]; [4; 4]; [5; 5]].
Proof.
  destruct (rolling_views rx_rotate rx_arch 4 6 3 (rx_passes 1 1 (build_rolling_window_bounds 6 3 ≫= window_shapes 1)) [rx_cache 4 1]) as (calls & caches' & E & _);
    [split; (split; [first [by exists 4|by vm_compute]|by vm_compute])|lia|lia|by vm_compute| | |repeat constructor|done|].
  - unfold rx_passes. rewrite <- list_fmap_compose. apply list_fmap_id.
  - vm_compute. repeat constructor.
  - exists calls, caches'. split; [exact E|]. vm_compute in E. injection E as <- _. reflexivity.
Defined.

(** When the attention limit is not a whole number of blocks, a refresh can see
    part of the sink: it is read as stored, not rotated, and reported at its
    global position. *)
Lemma rolling_partial_sink : exists calls caches', rolling_run rx_rotate 1 2 (mkArch 2 3 1) (rx_passes 2 1 [(0, 2, false); (0, 2, true); (1, 2, true)]) [rx_cache 4 2] = Ok (calls, caches') /\
  (fun c => (rl_key c, rl_segments c, rl_rope_starts c)) <$> (calls !! 2%nat ≫= fun cs : list (rolling_call Z) => head cs) = Some ([[1]; [2; 2]; [3; 3]], [(1, 1); (2, 2)], None).
Proof. eexists _, _. split; vm_compute; reflexivity. Qed.

(** A cache allocated for smaller frames is kept: here frames of two tokens run
    on a sink of one token.  Rolling the buffer then overwrites the second token
    of the sink with token 3, and the call reports it as token 1. *)
Lemma rolling_stale_cache : exists calls caches', rolling_run rx_rotate 2 1 (mkArch 1 4 2) (rx_passes 1 2 [(0, 1, false); (1, 1, false); (2, 1, false)]) [rx_cache 4 1] = Ok (calls, caches') /\
  (fun c => (rl_key c, rl_segments c)) <$> (calls !! 2%nat ≫= fun cs : list (rolling_call Z) => head cs) = Some ([[0; 2]; [3; 3]; [4; 4]; [5; 5]], [(0, 2); (4, 0); (4, 2)]).
Proof. eexists _, _. split; vm_compute; reflexivity. Qed.
