(* ===== verification/DenoisingClaims.v ===== *)
(** * DenoisingClaims: every frame is denoised once per timestep

    The schedule of the rolling window: which frames a forward gets, at which
    timestep, from which noise, and where the output comes from.  The calls of
    the transformer are read from a log of them. *)

From S2P Require Import Prelude SparsePlan SparsePlanSpec SparseContext CausalCache CausalCacheSpec CausalCacheClaims Denoising.

Open Scope Z_scope.

(** ** Frames *)

Lemma frames_lookup {L} a b (v : list L) i : 0 <= a -> 0 <= i -> frames_of a b v !! Z.to_nat i = if decide (i < b - a) then v !! Z.to_nat (a + i) else None.
Proof. apply slice_rows_lookup. Qed.

Lemma put_frames_ok {L} a b (src v : list L) : 0 <= a <= b -> b <= Z.of_nat (length v) -> Z.of_nat (length src) = b - a -> put_frames a b src v = Ok (overwrite a src v).
Proof.
  intros Ha Hb Hs. unfold put_frames. pose proof (length_slice_rows a b v Ha Hb). unfold frames_of.
  by replace (Nat.eqb (length (slice_rows a b v)) (length src)) with true by (symmetry; apply Nat.eqb_eq; lia).
Qed.

Lemma length_zip3 {A B C D} (f : A -> B -> C -> D) l k m : length k = length l -> length m = length l -> length (zip3_with f l k m) = length l.
Proof. revert k m. induction l as [|x l IH]; intros [|y k] [|z m] H1 H2; try done. cbn in *. by rewrite IH by lia. Qed.

(** ** Windows *)

Section schedule.
Context {T : Type} (N blk : Z) (ts : list T).
Local Abbreviation W := (Z.of_nat (length ts)).
Context (Hblk : 0 < blk) (HW : 1 <= W) (HN : W <= N).

Definition win_start (w : Z) : Z := Z.max 0 (w - W + 1).
Definition win_end (w : Z) : Z := Z.min (N - 1) w.
Definition in_window (w f : Z) : Prop := win_start w * blk <= f < (win_end w + 1) * blk.

Lemma windows_bounds w : 0 <= w < N + W - 1 -> 0 <= win_start w <= win_end w /\ win_end w < N /\ win_end w <= w /\ w - win_start w < W.
Proof. unfold win_start, win_end. lia. Qed.

Lemma in_window_block w f : 0 <= w < N + W - 1 -> in_window w f <-> win_start w <= f / blk <= win_end w.
Proof.
  intros Hw. unfold in_window. split.
  - intros [H1 H2]. split; [apply Z.div_le_lower_bound; lia|]. assert (f / blk < win_end w + 1); [|lia]. apply Z.div_lt_upper_bound; lia.
  - intros [H1 H2]. pose proof (Z.div_mod f blk ltac:(lia)). pose proof (Z.mod_pos_bound f blk Hblk). nia.
Qed.

Lemma length_staggered : Z.of_nat (length (build_staggered_timesteps ts blk)) = W * blk.
Proof. unfold build_staggered_timesteps. rewrite (length_bind_uniform _ _ (Z.to_nat blk)), length_reverse by (intros; apply length_replicate). lia. Qed.

(** The newest position is noisiest. *)
Lemma staggered_at j : 0 <= j < W * blk -> build_staggered_timesteps ts blk !! Z.to_nat j = ts !! Z.to_nat (W - 1 - j / blk).
Proof.
  intros Hj. pose proof (Z.div_mod j blk ltac:(lia)) as E. pose proof (Z.mod_pos_bound j blk Hblk). assert (0 <= j / blk < W) by (split; [apply Z.div_pos; lia|apply Z.div_lt_upper_bound; lia]).
  unfold build_staggered_timesteps. replace (Z.to_nat j) with (Z.to_nat (j / blk) * Z.to_nat blk + Z.to_nat (j mod blk))%nat by nia.
  rewrite (lookup_bind_uniform _ _ (Z.to_nat blk)) by (intros; rewrite ?length_replicate; lia). rewrite reverse_lookup by lia.
  replace (length ts - S (Z.to_nat (j / blk)))%nat with (Z.to_nat (W - 1 - j / blk)) by lia.
  destruct (ts !! Z.to_nat (W - 1 - j / blk)) as [t|]; cbn; [|done]. apply lookup_replicate_2. lia.
Qed.

(** Every frame of a window gets the timestep of the steps it has done. *)
Lemma window_timestep_ok w : 0 <= w < N + W - 1 ->
  exists cur, window_timestep (build_staggered_timesteps ts blk) (win_start w * blk) ((win_end w + 1) * blk) (N * blk) = Ok cur /\
    Z.of_nat (length cur) = (win_end w + 1 - win_start w) * blk /\
    forall f, in_window w f -> cur !! Z.to_nat (f - win_start w * blk) = ts !! Z.to_nat (w - f / blk).
Proof.
  intros Hw. pose proof length_staggered as Hl. destruct (windows_bounds w Hw) as (Hs & He & Hew & Hlen). unfold window_timestep. rewrite Hl.
  assert (forall f, in_window w f -> 0 <= f - win_start w * blk < (win_end w + 1 - win_start w) * blk /\ (f - win_start w * blk) / blk = f / blk - win_start w) as Hf.
  { intros f Hf. unfold in_window in Hf. split; [lia|]. replace (f - win_start w * blk) with (f + (- win_start w) * blk) by lia. rewrite Z.div_add by lia. lia. }
  destruct (Z.eqb_spec ((win_end w + 1) * blk - win_start w * blk) (W * blk)) as [E|E].
  { assert (win_end w + 1 - win_start w = W) as E1 by nia. eexists. split; [done|]. split; [lia|]. intros f Hin. destruct (Hf f Hin) as [H1 H2]. rewrite staggered_at, H2 by nia. f_equal. f_equal. unfold win_start, win_end in *. lia. }
  assert (win_end w + 1 - win_start w < W) as Hlt by nia.
  destruct (Z.eqb_spec (win_start w * blk) 0) as [E0|E0].
  - assert (win_start w = 0) as Es by nia. assert (win_end w = w) as Ee by (unfold win_start, win_end in *; lia). eexists. split; [done|]. unfold last_frames. split; [rewrite length_drop; nia|].
    intros f Hin. destruct (Hf f Hin) as [H1 H2]. rewrite lookup_drop. rewrite Es, Ee in *.
    replace (length (build_staggered_timesteps ts blk) - Z.to_nat ((w + 1) * blk - 0 * blk) + Z.to_nat (f - 0 * blk))%nat with (Z.to_nat (f + (W - 1 - w) * blk)) by nia.
    rewrite staggered_at by nia. rewrite Z.div_add by lia. f_equal. f_equal. lia.
  - assert (win_end w = N - 1) as Ee by (unfold win_start, win_end in *; nia). destruct (Z.eqb_spec ((win_end w + 1) * blk) (N * blk)); [|nia]. eexists. split; [done|]. split; [rewrite length_take; nia|].
    intros f Hin. destruct (Hf f Hin) as [H1 H2]. rewrite lookup_take_lt by nia. rewrite staggered_at, H2 by nia. f_equal. f_equal. unfold win_start in *. nia.
Qed.

(** New blocks come from the noise, the others from the re-noised latents. *)
Lemma window_input_ok {L} tok (noise cache : list L) w : 0 <= w < N + W - 1 -> Z.of_nat (length noise) = N * blk -> Z.of_nat (length cache) = N * blk ->
  let input := window_input (mkStage blk tok) noise cache (W * blk) (win_start w * blk) ((win_end w + 1) * blk) in
  Z.of_nat (length input) = (win_end w + 1 - win_start w) * blk /\
  forall f, in_window w f -> input !! Z.to_nat (f - win_start w * blk) = if f / blk =? w then noise !! Z.to_nat f else cache !! Z.to_nat f.
Proof.
  intros Hw Hn Hc. cbv zeta. destruct (windows_bounds w Hw) as (Hs & He & Hew & Hlen). unfold window_input. cbn [Denoising.blk].
  assert (forall f, in_window w f -> 0 <= f - win_start w * blk) as Hpos by (unfold in_window; lia).
  destruct (_ || _) eqn:E.
  - assert (win_end w = w) as Ee.
    { apply orb_true_iff in E as [E%Z.eqb_eq|E%Z.eqb_eq]; [assert (win_end w + 1 - win_start w = W) by nia; unfold win_start, win_end in *; lia|assert (win_start w = 0) by nia; unfold win_start, win_end in *; lia]. }
    assert (Z.of_nat (length (frames_of (win_start w * blk) ((win_end w + 1) * blk - blk) cache)) = (w - win_start w) * blk) as L1 by (unfold frames_of; rewrite length_slice_rows; nia).
    assert (Z.of_nat (length (frames_of ((win_end w + 1) * blk - blk) ((win_end w + 1) * blk) noise)) = blk) as L2 by (unfold frames_of; rewrite length_slice_rows; nia).
    split; [rewrite length_app; lia|]. intros f Hin. specialize (Hpos f Hin). pose proof (proj1 (in_window_block w f Hw) Hin) as Hfb. unfold in_window in Hin.
    pose proof (Z.div_mod f blk ltac:(lia)). pose proof (Z.mod_pos_bound f blk Hblk). destruct (Z.eqb_spec (f / blk) w) as [Ew|Ew].
    + rewrite lookup_app_r by nia. replace (Z.to_nat (f - win_start w * blk) - length (frames_of (win_start w * blk) ((win_end w + 1) * blk - blk) cache))%nat with (Z.to_nat (f - w * blk)) by nia.
      rewrite frames_lookup by nia. rewrite decide_True by nia. f_equal. nia.
    + rewrite lookup_app_l by nia. rewrite frames_lookup by nia. rewrite decide_True by nia. f_equal. lia.
  - assert (win_end w < w) as Ee.
    { apply orb_false_iff in E as [E1%Z.eqb_neq E2%Z.eqb_neq]. unfold win_start, win_end in *. nia. }
    split; [unfold frames_of; rewrite length_slice_rows; nia|]. intros f Hin. specialize (Hpos f Hin). pose proof (proj1 (in_window_block w f Hw) Hin) as Hfb. unfold in_window in Hin.
    destruct (Z.eqb_spec (f / blk) w); [lia|]. rewrite frames_lookup by nia. rewrite decide_True by lia. f_equal. lia.
Qed.

(** ** Re-noising *)

Section renoise.
Context {L G : Type} (noised : L -> L -> T -> L) (randn : nat -> G -> list L * G) (Hrandn : forall n g, length (randn n g).1 = n) (tok : Z).

(** [y] is frame [f] of [x0], noised to the timestep of [step] with a frame of
    a fresh draw. *)
Definition renoised_from (x0 : list L) (offset step f : Z) (y : L) : Prop :=
  exists x n g t, x0 !! Z.to_nat (f - offset) = Some x /\ (randn (Z.to_nat blk) g).1 !! Z.to_nat (f mod blk) = Some n /\ ts !! Z.to_nat step = Some t /\ y = noised x n t.

Lemma renoise_ok w x0 : 0 <= w < N + W - 1 -> Z.of_nat (length x0) = (win_end w + 1 - win_start w) * blk ->
  forall n b cache g, win_start w <= b -> b + Z.of_nat n = win_end w + 1 -> Z.of_nat (length cache) = N * blk ->
  exists cache' g', renoise_blocks noised randn (mkStage blk tok) ts x0 w (win_start w) (seqZ b (Z.of_nat n)) cache g = Ok (cache', g') /\ Z.of_nat (length cache') = N * blk /\
    forall f, 0 <= f -> if decide (b <= f / blk <= win_end w /\ w - f / blk < W - 1) then exists y, cache' !! Z.to_nat f = Some y /\ renoised_from x0 (win_start w * blk) (w - f / blk + 1) f y
      else cache' !! Z.to_nat f = cache !! Z.to_nat f.
Proof.
  intros Hw Hx0. destruct (windows_bounds w Hw) as (Hs & He & Hew & Hlen). induction n as [|n IH]; intros b cache g Hb Hn Hc.
  { cbn. eexists _, _. split; [done|]. split; [done|]. intros f Hf. rewrite decide_False by lia. done. }
  rewrite seqZ_cons by lia. cbn [renoise_blocks]. replace (Z.pred (Z.of_nat (S n))) with (Z.of_nat n) by lia. cbn [Denoising.blk].
  destruct (Z.eqb_spec (w - b) (W - 1)) as [Elast|Elast].
  { destruct (IH (Z.succ b) cache g ltac:(lia) ltac:(lia) Hc) as (cache' & g' & E & Hc' & Hf). eexists _, _. split; [done|]. split; [done|]. intros f Hf0. specialize (Hf f Hf0).
    destruct (decide (b <= f / blk <= win_end w /\ w - f / blk < W - 1)); [rewrite decide_True in Hf by lia|rewrite decide_False in Hf by lia]; done. }
  destruct (lookup_lt_is_Some_2 ts (Z.to_nat (w - b + 1))) as [t Et]; [lia|]. rewrite Et. cbn [or_raise mbind res_bind].
  set (xb := frames_of _ _ x0). assert (Z.of_nat (length xb) = blk) as Lxb by (unfold xb, frames_of; rewrite length_slice_rows; nia).
  destruct (randn (length xb) g) as [noise g1] eqn:Eg. assert (length noise = length xb) as Ln by (pose proof (Hrandn (length xb) g) as H; by rewrite Eg in H).
  rewrite put_frames_ok by (rewrite ?length_zip_with; nia). bind_step. set (cache1 := overwrite _ _ cache).
  assert (Z.of_nat (length cache1) = N * blk) as L1.
  { unfold cache1. rewrite length_overwrite by nia. rewrite length_zip_with. nia. }
  destruct (IH (Z.succ b) cache1 g1 ltac:(lia) ltac:(lia) L1) as (cache' & g' & E & Hc' & Hf). eexists _, _. split; [done|]. split; [done|]. intros f Hf0. specialize (Hf f Hf0).
  pose proof (Z.div_mod f blk ltac:(lia)) as Ed. pose proof (Z.mod_pos_bound f blk Hblk) as Hm.
  assert (cache1 !! Z.to_nat f = if decide (f / blk = b) then zip_with (fun x n => noised x n t) xb noise !! Z.to_nat (f - b * blk) else cache !! Z.to_nat f) as E1.
  { unfold cache1. rewrite overwrite_lookup by nia. rewrite length_zip_with. destruct (decide (f / blk = b)); [rewrite decide_True by nia; done|]. rewrite decide_False; [done|]. nia. }
  destruct (decide (f / blk = b)) as [Eb|Eb].
  - rewrite decide_False in Hf by lia. rewrite decide_True by lia. rewrite Hf, E1, lookup_zip_with.
    destruct (lookup_lt_is_Some_2 xb (Z.to_nat (f - b * blk))) as [x Ex]; [nia|]. destruct (lookup_lt_is_Some_2 noise (Z.to_nat (f - b * blk))) as [z Ez]; [nia|]. rewrite Ex, Ez. cbn.
    eexists. split; [done|]. exists x, z, g, t. split_and!; [|by (replace (Z.to_nat blk) with (length xb) by lia; rewrite Eg; replace (f mod blk) with (f - b * blk) by nia)|by rewrite Eb|done].
    unfold xb in Ex. rewrite frames_lookup in Ex by nia. rewrite decide_True in Ex by nia. rewrite <- Ex. f_equal. nia.
  - rewrite E1 in Hf. destruct (decide (b <= f / blk <= win_end w /\ w - f / blk < W - 1)); [rewrite decide_True in Hf by lia|rewrite decide_False in Hf by lia]; done.
Qed.

End renoise.

End schedule.

(** ** The run *)

Section run.
Context {L T S G : Type} (tr : dit_call L T -> S -> res (list L * S)) (pred_to_x0 : L -> L -> T -> L) (noised : L -> L -> T -> L) (randn : nat -> G -> list L * G) (zero_frame : L) (zero_t : T).
(** The transformer returns as many frames as it gets; a draw has its size. *)
Context (Htr : forall c s, exists out s', tr c s = Ok (out, s') /\ length out = length (d_latents c)) (Hrandn : forall n g, length (randn n g).1 = n).
Context (N blk tok : Z) (ts : list T) (noise : list L).
Local Abbreviation W := (Z.of_nat (length ts)).
Context (Hblk : 0 < blk) (HW : 1 <= W) (HN : W <= N) (Hnoise : Z.of_nat (length noise) = N * blk).
Local Abbreviation s w := (win_start ts w).
Local Abbreviation e w := (win_end N w).
Local Abbreviation log_of := (list (dit_call L T * list L)).
Implicit Types log : log_of.

(** The clean frames predicted by a logged call. *)
Definition x0_of (x : dit_call L T * list L) : list L := zip3_with pred_to_x0 x.2 (d_latents x.1) (d_timestep x.1).

(** The log shows window [w]: the call that denoises it and the one that
    refreshes the cache. *)
Record window_done log (w : Z) (x u : dit_call L T * list L) : Prop := {
  wd_at : log !! Z.to_nat (2 * w) = Some x /\ log !! Z.to_nat (2 * w + 1) = Some u;
  wd_call : d_start_frame x.1 = s w * blk /\ d_start_tokens x.1 = s w * blk * tok /\ d_updating x.1 = false;
  wd_length : Z.of_nat (length (d_latents x.1)) = (e w + 1 - s w) * blk /\ length (d_timestep x.1) = length (d_latents x.1) /\ length x.2 = length (d_latents x.1);
  wd_timestep : forall f, in_window N blk ts w f -> d_timestep x.1 !! Z.to_nat (f - s w * blk) = ts !! Z.to_nat (w - f / blk);
  wd_fresh : forall f, in_window N blk ts w f -> f / blk = w -> d_latents x.1 !! Z.to_nat (f - s w * blk) = noise !! Z.to_nat f;
  wd_renoised : forall f, in_window N blk ts w f -> f / blk < w -> exists prev y, log !! Z.to_nat (2 * (w - 1)) = Some prev /\
    d_latents x.1 !! Z.to_nat (f - s w * blk) = Some y /\ renoised_from blk ts noised randn (x0_of prev) (s (w - 1) * blk) (w - f / blk) f y;
  wd_update : u.1 = mkDit (take (Z.to_nat blk) (x0_of x)) (replicate (Z.to_nat blk) zero_t) (s w * blk * tok) (s w * blk) true }.

(** The last window that denoised frame [f] after [w] windows. *)
Definition last_window (w f : Z) : Z := Z.min (w - 1) (f / blk + W - 1).

Record run_ok (w : Z) (r : rolling_state) log : Prop := {
  rn_log : Z.of_nat (length log) = 2 * w;
  rn_length : Z.of_nat (length (noisy_cache r : list L)) = N * blk /\ Z.of_nat (length (r_output (S:=S * log_of) (G:=G) r)) = N * blk;
  rn_dit : (r_dit r).2 = log;
  rn_done : forall w', 0 <= w' < w -> exists x u, window_done log w' x u;
  rn_output : forall f, 0 <= f < N * blk -> f / blk < w -> exists x, log !! Z.to_nat (2 * last_window w f) = Some x /\
    r_output r !! Z.to_nat f = x0_of x !! Z.to_nat (f - s (last_window w f) * blk);
  rn_cache : forall f, 0 <= f < N * blk -> f / blk < w -> w - f / blk < W -> exists x y, log !! Z.to_nat (2 * (w - 1)) = Some x /\
    noisy_cache r !! Z.to_nat f = Some y /\ renoised_from blk ts noised randn (x0_of x) (s (w - 1) * blk) (w - f / blk) f y }.

Lemma length_x0 log w x u : window_done log w x u -> length (x0_of x) = length (d_latents x.1).
Proof. intros Hd. destruct (wd_length _ _ _ _ Hd) as (_ & H1 & H2). unfold x0_of. rewrite length_zip3; congruence. Qed.

(** The log only grows. *)
Lemma window_done_app log more w x u : 0 <= w -> window_done log w x u -> window_done (log ++ more) w x u.
Proof.
  intros Hw [[H1 H2] H3 H4 H5 H6 H7 H8]. split; try done; [by split; apply lookup_app_l_Some|]. intros f Hf Hlt. destruct (H7 f Hf Hlt) as (prev & y & H & Hr). exists prev, y. split; [by apply lookup_app_l_Some|done].
Qed.

Lemma window_step w (r : rolling_state) log : 0 <= w < N + W - 1 -> run_ok w r log ->
  exists r' log', run_rolling_window (logged tr) pred_to_x0 noised randn zero_t (mkStage blk tok) ts (build_staggered_timesteps ts blk) noise (N * blk) w (s w) (e w) r = Ok r' /\
    run_ok (w + 1) r' log'.
Proof.
  intros Hw [Hlog [Hnc Hout] Hdit Hdone Houtp Hcache]. destruct (windows_bounds N ts HW HN w Hw) as (Hs & He & Hew & Hlen). unfold run_rolling_window. cbn [Denoising.blk].
  destruct (window_timestep_ok N blk ts Hblk HW HN w Hw) as (cur & -> & Hcl & Hct). bind_step. rewrite (length_staggered blk ts Hblk).
  destruct (window_input_ok N blk ts Hblk HW HN tok noise (noisy_cache r) w Hw Hnoise Hnc) as [Hil Hif]. set (input := window_input _ _ _ _ _ _) in *.
  unfold forward_rolling_transformer, logged. cbn [num_token_per_frame]. set (call := mkDit input cur (s w * blk * tok) (s w * blk) false).
  destruct (Htr call (r_dit r).1) as (out & s1 & Etr & Lout). rewrite Etr. cbn [mbind res_bind fst snd]. cbn [d_latents call] in Lout.
  unfold pred_noise_to_pred_video. replace (Nat.eqb (length cur) (length input)) with true by (symmetry; apply Nat.eqb_eq; lia). rewrite Lout, Nat.eqb_refl. cbn [negb mbind res_bind].
  set (x := (call, out)). change (zip3_with pred_to_x0 out input cur) with (x0_of x). assert (length (x0_of x) = length input) as Lx by (unfold x0_of; cbn; rewrite length_zip3; lia).
  rewrite put_frames_ok by nia. bind_step. unfold renoise_unfinished_blocks, zrange.
  destruct (renoise_ok N blk ts Hblk HW HN noised randn Hrandn tok w (x0_of x) Hw ltac:(lia) (Z.to_nat (e w + 1 - s w)) (s w) (noisy_cache r) (r_gen r) ltac:(lia) ltac:(lia) Hnc) as (cache' & g' & Ern & Lc' & Hc').
  rewrite Z2Nat.id in Ern by lia. rewrite Ern. bind_step. set (call' := mkDit _ _ _ _ true). destruct (Htr call' s1) as (out' & s2 & Etr' & _). cbn [fst snd]. rewrite Etr'. cbn [mbind res_bind fst snd].
  rewrite Hdit. set (u := (call', out')). set (log' := (log ++ [x]) ++ [u]). eexists _, log'. split; [reflexivity|].
  assert (log' !! Z.to_nat (2 * w) = Some x /\ log' !! Z.to_nat (2 * w + 1) = Some u) as [Ax Au].
  { unfold log'. split; [rewrite lookup_app_l by (rewrite length_app; cbn; lia)|]; (rewrite lookup_app_r by (rewrite ?length_app; cbn; lia)); rewrite ?length_app; cbn [length]; apply list_lookup_singleton_Some; split; [lia|done|lia|done]. }
  assert (window_done log' w x u) as Hnew.
  { split; cbn [x call fst snd d_start_frame d_start_tokens d_updating d_latents d_timestep]; try done; try lia.
    - intros f Hf Ef. rewrite Hif by done. destruct (Z.eqb_spec (f / blk) w); [done|lia].
    - intros f Hf Hlt. pose proof (proj1 (in_window_block N blk ts Hblk w f Hw) Hf) as Hb. unfold in_window in Hf. destruct (Hcache f ltac:(nia) Hlt ltac:(lia)) as (prev & y & E1 & E2 & Hr).
      exists prev, y. split; [unfold log'; rewrite <- app_assoc; by apply lookup_app_l_Some|]. split; [|done]. rewrite Hif by done. destruct (Z.eqb_spec (f / blk) w); [lia|done]. }
  split; cbn [r_dit r_output noisy_cache snd].
  - unfold log'. rewrite !length_app. cbn. lia.
  - split; [done|]. rewrite length_overwrite by nia. nia.
  - done.
  - intros w' Hw'. destruct (decide (w' = w)) as [->|]; [by exists x, u|]. destruct (Hdone w' ltac:(lia)) as (x' & u' & Hd). exists x', u'. unfold log'. rewrite <- app_assoc. apply window_done_app; [lia|done].
  - intros f Hf Hfb. assert (0 <= f / blk) by (apply Z.div_pos; lia). rewrite overwrite_lookup by nia. destruct (decide (s w <= f / blk)) as [Hin|Hout'].
    + assert (in_window N blk ts w f) as Hiw by (apply in_window_block; try done; assert (f / blk < N) by (apply Z.div_lt_upper_bound; lia); unfold win_end in *; lia).
      assert (last_window (w + 1) f = w) as -> by (unfold last_window, win_start in *; lia). exists x. split; [done|]. unfold in_window in Hiw. rewrite decide_True by nia. done.
    + assert (~ in_window N blk ts w f) as Hniw by (rewrite in_window_block by done; lia). assert (last_window (w + 1) f = last_window w f) as -> by (unfold last_window, win_start in *; lia).
      destruct (Houtp f Hf) as (x' & E1 & E2); [unfold win_start in *; lia|]. exists x'. split; [unfold log'; rewrite <- app_assoc; by apply lookup_app_l_Some|]. unfold in_window in Hniw. rewrite decide_False by nia. done.
  - intros f Hf Hfb Hst. assert (0 <= f / blk) by (apply Z.div_pos; lia). assert (f / blk < N) by (apply Z.div_lt_upper_bound; lia). specialize (Hc' f ltac:(lia)).
    rewrite decide_True in Hc' by (unfold win_start, win_end in *; lia). destruct Hc' as (y & Ey & Hr). exists x, y. replace (w + 1 - 1) with w by lia. split; [done|]. split; [done|]. by replace (w + 1 - f / blk) with (w - f / blk + 1) by lia.
Qed.

Lemma run_windows_ok n : forall w r log, 0 <= w -> w + Z.of_nat n = N + W - 1 -> run_ok w r log ->
  exists r' log', run_windows (logged tr) pred_to_x0 noised randn zero_t (mkStage blk tok) ts (build_staggered_timesteps ts blk) noise (N * blk) w
      ((fun w => (s w, e w)) <$> seqZ w (Z.of_nat n)) r = Ok r' /\ run_ok (N + W - 1) r' log'.
Proof.
  induction n as [|n IH]; intros w r log Hw Hn Hr.
  - exists r, log. split; [done|]. by replace (N + W - 1) with w by lia.
  - rewrite seqZ_cons by lia. cbn [fmap list_fmap run_windows]. destruct (window_step w r log ltac:(lia) Hr) as (r1 & log1 & -> & Hr1). bind_step.
    replace (Z.pred (Z.of_nat (Datatypes.S n))) with (Z.of_nat n) by lia. apply (IH (w + 1) r1 log1); [lia|lia|done].
Qed.

Lemma rolling_forward_ok (reset : S -> S) s0 g :
  exists r log, rolling_forward (logged tr) pred_to_x0 noised randn zero_frame zero_t (mkStage blk tok) (fun p => (reset p.1, p.2)) ts noise (s0, []) g = Ok r /\ run_ok (N + W - 1) r log.
Proof.
  unfold rolling_forward, py_mod, py_div. cbn [Denoising.blk]. rewrite Hnoise. destruct (Z.eqb_spec blk 0); [lia|]. bind_step. rewrite Z.mod_mul, Z.div_mul by lia. cbn [Z.eqb negb fst snd]. bind_step.
  unfold build_rolling_window_bounds, zrange. rewrite Z.sub_0_r.
  destruct (run_windows_ok (Z.to_nat (N + W - 1)) 0 (mkRolling (reset s0, []) g (replicate (length noise) zero_frame) (replicate (length noise) zero_frame)) []) as (r' & log' & E & Hr); [lia|lia| |].
  - split; cbn; try done; try (intros; exfalso; lia).
    + rewrite length_replicate. lia.
    + intros f Hf Hlt. assert (0 <= f / blk) by (apply Z.div_pos; lia). lia.
    + intros f Hf Hlt. assert (0 <= f / blk) by (apply Z.div_pos; lia). lia.
  - rewrite Z2Nat.id in E by lia. exists r', log'. split; [exact E|done].
Qed.

End run.

(** C7: With at least as many blocks as timesteps, the rolling
    window denoises every frame once per timestep, noisiest first: step [k] of
    a frame is window [block + k], which gets it at timestep [k], first as the
    given noise, then as the clean prediction of the window before, noised to
    timestep [k] with a fresh draw; its cache refresh gets the clean first
    block at timestep 0.  The output is the prediction of the last step. *)
Theorem rolling_schedule {L T S G} (tr : dit_call L T -> S -> res (list L * S)) pred_to_x0 noised (randn : nat -> G -> list L * G) zero_frame zero_t N blk tok ts noise (reset : S -> S) s0 g :
  let W := Z.of_nat (length ts) in
  (forall c s, exists out s', tr c s = Ok (out, s') /\ length out = length (d_latents c)) -> (forall n g, length (randn n g).1 = n) ->
  0 < blk -> 1 <= W <= N -> Z.of_nat (length noise) = N * blk ->
  exists r log, rolling_forward (logged tr) pred_to_x0 noised randn zero_frame zero_t (mkStage blk tok) (fun p => (reset p.1, p.2)) ts noise (s0, []) g = Ok r /\
    (r_dit r).2 = log /\ Z.of_nat (length log) = 2 * (N + W - 1) /\
    forall f, 0 <= f < N * blk ->
      (forall k, 0 <= k < W -> in_window N blk ts (f / blk + k) f /\ exists x u, window_done pred_to_x0 noised randn zero_t N blk tok ts noise log (f / blk + k) x u) /\
      exists x, log !! Z.to_nat (2 * (f / blk + W - 1)) = Some x /\ r_output r !! Z.to_nat f = x0_of pred_to_x0 x !! Z.to_nat (f - win_start ts (f / blk + W - 1) * blk).
Proof.
  cbv zeta. intros Htr Hrandn Hblk [HW HN] Hnoise. destruct (rolling_forward_ok tr pred_to_x0 noised randn zero_frame zero_t Htr Hrandn N blk tok ts noise Hblk HW HN Hnoise reset s0 g) as (r & log & E & [Hlog _ Hdit Hdone Hout _]).
  exists r, log. split; [done|]. split; [done|]. split; [done|]. intros f Hf. assert (0 <= f / blk < N) by (split; [apply Z.div_pos; lia|apply Z.div_lt_upper_bound; lia]). split.
  - intros k Hk. split; [|apply Hdone; lia]. apply in_window_block; [done|lia|]. unfold win_start, win_end. lia.
  - destruct (Hout f Hf ltac:(lia)) as (x & E1 & E2). assert (last_window blk ts (N + Z.of_nat (length ts) - 1) f = f / blk + Z.of_nat (length ts) - 1) as El by (unfold last_window; lia). rewrite El in E1, E2. by exists x.
Qed.

(** ** Causal DMD and the cache it fills *)

Section dmd.
Context {L T S G A : Type} (tr : dit_call L T -> S -> res (list L * S)) (pred_to_x0 : L -> L -> T -> L) (noised : L -> L -> T -> L) (randn : nat -> G -> list L * G).
Context (Htr : forall c s, exists out s', tr c s = Ok (out, s') /\ length out = length (d_latents c)) (Hrandn : forall n g, length (randn n g).1 = n).
Context (blk tok : Z) (Hblk : 0 < blk) (Htok : 0 < tok).
Local Abbreviation entry := (dit_call L T * list L)%type.
(** The rows a layer writes for the tokens of a forward. *)
Context (rows_of : entry -> rows A) (Hrows : forall x, Z.of_nat (length (rows_of x)) = Z.of_nat (length (d_latents x.1)) * tok).

(** A forward over one block that starts at token [g]. *)
Definition forward_at (g : Z) (x : entry) : Prop := d_start_tokens x.1 = g /\ Z.of_nat (length (d_latents x.1)) = blk.

(** Calls over blocks from token [g] on: some forwards over each block, the
    last of them, in [us], a refresh of the cache. *)
Inductive block_run : Z -> list entry -> list entry -> Prop :=
| block_run_nil g : block_run g [] []
| block_run_cons g lg u log us : Forall (forward_at g) lg -> forward_at g u -> d_updating u.1 = true -> block_run (g + blk * tok) log us ->
    block_run g (lg ++ u :: log) (u :: us).

Lemma block_run_app g log1 us1 log2 us2 : block_run g log1 us1 -> block_run (g + Z.of_nat (length us1) * (blk * tok)) log2 us2 -> block_run g (log1 ++ log2) (us1 ++ us2).
Proof.
  induction 1 as [g|g lg u log us Hlg Hu Hup Hr IH]; intros H2; [by replace (g + Z.of_nat (length (@nil entry)) * (blk * tok)) with g in H2 by (cbn; lia)|].
  rewrite <- app_assoc. cbn [app]. apply block_run_cons; [done..|]. apply IH. cbn [length] in H2. by replace (g + blk * tok + Z.of_nat (length us) * (blk * tok)) with (g + Z.of_nat (Datatypes.S (length us)) * (blk * tok)) by lia.
Qed.

(** The last write of a block stays. *)
Lemma write_end (s : Z) (src : rows A) K : Z.of_nat (length K) = s -> overwrite s src K = K ++ src.
Proof. intros <-. unfold overwrite. rewrite Nat2Z.id, firstn_all, drop_ge by lia. by rewrite app_nil_r. Qed.

Lemma write_again (s : Z) (src new : rows A) K : Z.of_nat (length K) = s -> length new = length src -> overwrite s new (K ++ src) = K ++ new.
Proof. intros <- Hl. unfold overwrite. rewrite Nat2Z.id, take_app_length, drop_ge by (rewrite length_app; lia). by rewrite app_nil_r. Qed.

Lemma block_history g lg u K : Forall (forward_at g) lg -> forward_at g u -> Z.of_nat (length K) = g ->
  foldl (fun K x => overwrite (d_start_tokens x.1) (rows_of x) K) K (lg ++ [u]) = K ++ rows_of u.
Proof.
  intros Hlg [Eu Lu] HK. rewrite foldl_app. cbn. rewrite Eu. pose proof (Hrows u) as Hu.
  assert (foldl (fun K x => overwrite (d_start_tokens x.1) (rows_of x) K) K lg = K \/
    exists src, length src = length (rows_of u) /\ foldl (fun K x => overwrite (d_start_tokens x.1) (rows_of x) K) K lg = K ++ src) as [->|(src & Hs & ->)]; [|by apply write_end|by apply write_again].
  induction lg as [|x lg IH] using rev_ind; [by left|]. apply Forall_app in Hlg as [Hlg [[Ex Lx] _]%Forall_cons]. right. exists (rows_of x). pose proof (Hrows x). split; [lia|].
  rewrite foldl_app. cbn. rewrite Ex. destruct (IH Hlg) as [->|(src & Hs & ->)]; [by apply write_end|apply write_again; [done|lia] ].
Qed.

(** The cache remembers the rows of the refreshes, in order. *)
Lemma block_run_history g log us K : block_run g log us -> Z.of_nat (length K) = g ->
  foldl (fun K x => overwrite (d_start_tokens x.1) (rows_of x) K) K log = K ++ (us ≫= rows_of).
Proof.
  intros Hr. revert K. induction Hr as [g|g lg u log us Hlg Hu Hup Hr IH]; intros K HK; [by rewrite app_nil_r|].
  replace (lg ++ u :: log) with ((lg ++ [u]) ++ log) by (by rewrite <- app_assoc). rewrite foldl_app, (block_history g) by done. rewrite IH; [by rewrite <- app_assoc|].
  rewrite length_app. pose proof (Hrows u). destruct Hu. nia.
Qed.

(** What the cache of a layer gets from a log. *)
Definition passes_of (vrows : entry -> rows A) (log : list entry) : list (pass (A:=A)) := (fun x => (d_start_tokens x.1, rows_of x, vrows x)) <$> log.

Lemma block_run_stream vrows g log us : (forall x, length (vrows x) = length (rows_of x)) -> 0 <= g -> block_run g log us -> stream (blk * tok) g (passes_of vrows log).
Proof.
  intros Hv Hg Hr. assert (0 < blk * tok) by nia. induction Hr as [g|g lg u log us Hlg Hu Hup Hr IH]; [constructor|].
  assert (forall x rest, forward_at g x -> stream (blk * tok) (g + blk * tok) rest -> stream (blk * tok) (g + blk * tok) ((d_start_tokens x.1, rows_of x, vrows x) :: rest)) as Hagain.
  { intros x rest [Ex Lx] Hrest. rewrite Ex. replace g with (g + blk * tok - blk * tok) at 2 by lia. pose proof (Hrows x). apply stream_again; [lia|lia|apply Hv|done]. }
  assert (forall x rest, forward_at g x -> stream (blk * tok) (g + blk * tok) rest -> stream (blk * tok) g ((d_start_tokens x.1, rows_of x, vrows x) :: rest)) as Hnext.
  { intros x rest [Ex Lx] Hrest. rewrite Ex. pose proof (Hrows x). apply stream_next; [lia|apply Hv|done]. }
  specialize (IH ltac:(lia)). unfold passes_of in *. rewrite fmap_app. cbn [fmap list_fmap]. destruct lg as [|x lg]; [by apply Hnext|]. apply Forall_cons in Hlg as [Hx Hlg]. cbn [fmap list_fmap app]. apply Hnext; [done|].
  induction Hlg as [|y lg Hy Hlg IHl]; cbn [fmap list_fmap app]; by apply Hagain.
Qed.

(** ** The stage *)

Section stage.
Context (dc : dmd_config (T:=T)) (ts : list T) (Hts : ts <> []).
Local Abbreviation st := (mkStage blk tok).
Local Abbreviation lstate := (S * list entry)%type.

Lemma logged_ok (c : dit_call L T) (s : lstate) : exists out s1, logged tr c s = Ok (out, (s1, s.2 ++ [(c, out)])) /\ length out = length (d_latents c).
Proof. destruct (Htr c s.1) as (out & s1 & E & Hl). exists out, s1. unfold logged. by rewrite E. Qed.

Lemma chunk_log : forall cur (s : lstate) g tokens frame, exists res s' g' lg,
  denoise_causal_dmd_chunk (logged tr) pred_to_x0 noised randn ts id tokens frame cur s g = Ok (res, (s', s.2 ++ lg), g') /\
  length res = length cur /\ Forall (fun x => d_start_tokens x.1 = tokens /\ length (d_latents x.1) = length cur) lg.
Proof.
  clear Hrows rows_of. induction ts as [|t rest IH]; [done|]. intros cur s g tokens frame. cbn [denoise_causal_dmd_chunk]. unfold predict_x0.
  set (call := mkDit (id cur) [t] tokens frame false). destruct (logged_ok call s) as (out & s1 & Etr & Lout). cbn [d_latents call id] in Lout. rewrite Etr. cbn [mbind res_bind fst snd].
  unfold pred_noise_to_pred_video. rewrite length_replicate, Nat.eqb_refl, Lout, Nat.eqb_refl. cbn [negb mbind res_bind fst snd].
  set (x0 := zip3_with _ _ _ _). assert (length x0 = length cur) as Lx by (unfold x0; rewrite length_zip3; rewrite ?length_replicate; congruence).
  destruct rest as [|t' rest]; [eexists _, _, _, _; split; [reflexivity|]; split; [done|by repeat constructor]|].
  destruct (randn (length cur) g) as [n g1] eqn:Eg. assert (length n = length cur) as Ln by (pose proof (Hrandn (length cur) g) as H; by rewrite Eg in H).
  destruct (IH ltac:(done) (zip_with (fun x z => noised x z t') x0 n) (s1, s.2 ++ [(call, out)]) g1 tokens frame) as (res & s' & g' & lg & E & Lr & HF).
  exists res, s', g', ((call, out) :: lg). assert (length (zip_with (fun x z => noised x z t') x0 n) = length cur) as Lz by (rewrite length_zip_with; lia). rewrite Lz in Lr, HF.
  split; [rewrite E; cbn [snd]; by rewrite <- app_assoc|]. split; [done|]. constructor; done.
Qed.

(** A block: its steps, then the refresh with the clean frames. *)
Lemma block_log cur (s : lstate) g tokens frame : exists res s' g' lg u,
  denoise_and_update_causal_block (logged tr) pred_to_x0 noised randn dc ts id tokens frame cur s g = Ok (res, (s', s.2 ++ lg ++ [u]), g') /\ length res = length cur /\
  Forall (fun x => d_start_tokens x.1 = tokens /\ length (d_latents x.1) = length cur) lg /\ d_start_tokens u.1 = tokens /\ d_latents u.1 = res /\ d_updating u.1 = true.
Proof.
  clear Hrows rows_of. unfold denoise_and_update_causal_block. destruct (chunk_log cur s g tokens frame) as (res & s1 & g' & lg & -> & Lr & HF). bind_step. unfold update_causal_context_cache.
  set (call := mkDit res _ _ _ _). destruct (logged_ok call (s1, s.2 ++ lg)) as (out & s2 & -> & _). cbn [mbind res_bind fst snd]. eexists _, _, _, lg, (call, out). rewrite <- app_assoc. split; [reflexivity|done].
Qed.

Lemma denoise_blocks_log m image base : independent_first_frame dc = false -> forall start latents (s : lstate) g, 0 <= start -> start + Z.of_nat m * blk = Z.of_nat (length latents) ->
  exists out s' g' log us, denoise_blocks (logged tr) pred_to_x0 noised randn st dc ts image base start (replicate m blk) latents s g = Ok (out, (s', s.2 ++ log), g') /\
  block_run ((base + start) * tok) log us /\ length us = m /\ out = take (Z.to_nat start) latents ++ (us ≫= fun u => d_latents u.1).
Proof.
  intros Hind. induction m as [|m IH]; intros start latents s g Hs Hl.
  { exists latents, s.1, g, [], []. cbn. rewrite !app_nil_r. split; [by destruct s|]. split; [constructor|]. split; [done|]. by rewrite take_ge by lia. }
  cbn [replicate denoise_blocks]. rewrite Hind. cbn [andb num_token_per_frame].
  assert (Z.of_nat (length (frames_of start (start + blk) latents)) = blk) as Lf by (unfold frames_of; rewrite length_slice_rows; lia).
  replace (fun current : list L => match image with Some _ | _ => current end) with (@id (list L)) by (by destruct image).
  destruct (block_log (frames_of start (start + blk) latents) s g ((base + start) * tok) start) as (res & s1 & g1 & lg & u & -> & Lr & HF & Eu & Elu & Hup). bind_step.
  rewrite put_frames_ok by lia. bind_step. set (latents1 := overwrite start res latents). assert (Z.of_nat (length latents1) = Z.of_nat (length latents)) as Ll by (unfold latents1; rewrite length_overwrite; lia).
  destruct (IH (start + blk) latents1 (s1, s.2 ++ lg ++ [u]) g1 ltac:(lia) ltac:(lia)) as (out & s' & g' & log & us & -> & Hrun & Lus & Eout).
  exists out, s', g', (lg ++ u :: log), (u :: us). cbn [snd]. split; [do 3 f_equal; by rewrite <- !app_assoc|]. split.
  { apply block_run_cons; [|split; [done|rewrite Elu; lia]|done|by replace ((base + start) * tok + blk * tok) with ((base + (start + blk)) * tok) by lia].
    eapply Forall_impl; [exact HF|]. intros x [? ?]. split; [done|lia]. }
  split; [cbn; lia|]. rewrite Eout. cbn [mbind list_bind]. rewrite Elu, app_assoc. f_equal. unfold latents1, overwrite.
  assert (length (take (Z.to_nat start) latents) = Z.to_nat start) as Lt by (rewrite length_take; lia).
  rewrite take_app, (take_ge (take (Z.to_nat start) latents)) by lia. f_equal. rewrite Lt, take_app_le by lia. apply take_ge. lia.
Qed.

Lemma frames_step {X} (v : list X) a b : 0 <= a -> 0 <= b -> drop (Z.to_nat a) v = frames_of a (a + b) v ++ drop (Z.to_nat (a + b)) v.
Proof.
  intros Ha Hb. unfold frames_of, slice_rows. replace (Z.to_nat (a + b - a)) with (Z.to_nat b) by lia. rewrite <- (take_drop (Z.to_nat b) (drop (Z.to_nat a) v)) at 1. rewrite drop_drop. do 2 f_equal. lia.
Qed.

Lemma warm_up_log m image : forall fuel start (s : lstate), 0 <= start -> start + Z.of_nat m * blk = Z.of_nat (length image) -> (Z.to_nat (Z.of_nat m * blk) <= fuel)%nat ->
  exists s' log us, warm_up_loop (logged tr) st dc fuel image start (Z.of_nat m * blk) s = Ok (Z.of_nat (length image), (s', s.2 ++ log)) /\
  block_run (start * tok) log us /\ length us = m /\ (us ≫= fun u => d_latents u.1) = drop (Z.to_nat start) image.
Proof.
  induction m as [|m IH]; intros fuel start s Hs Hl Hf.
  { exists s.1, [], []. assert (start = Z.of_nat (length image)) as -> by lia. rewrite Nat2Z.id, drop_all. destruct fuel; cbn; rewrite app_nil_r; (split; [by destruct s|]; split; [constructor|done]). }
  destruct fuel as [|fuel]; [nia|]. cbn [warm_up_loop]. destruct (Z.leb_spec (Z.of_nat (Datatypes.S m) * blk) 0); [nia|]. cbn [Denoising.blk]. rewrite Z.min_l by nia.
  unfold warm_up_causal_context_cache, update_causal_context_cache. cbn [num_token_per_frame]. set (call := mkDit _ _ _ _ _). destruct (logged_ok call s) as (out & s1 & -> & _). cbn [mbind res_bind fst snd].
  replace (Z.of_nat (Datatypes.S m) * blk - blk) with (Z.of_nat m * blk) by lia.
  destruct (IH fuel (start + blk) (s1, s.2 ++ [(call, out)]) ltac:(lia) ltac:(lia) ltac:(nia)) as (s' & log & us & -> & Hrun & Lus & Eus).
  exists s', ((call, out) :: log), ((call, out) :: us). cbn [snd]. rewrite <- app_assoc. split; [done|].
  assert (Z.of_nat (length (frames_of start (start + blk) image)) = blk) as Lf by (unfold frames_of; rewrite length_slice_rows; lia).
  split; [|split; [cbn; lia|] ].
  - apply (block_run_cons _ []); [constructor|done|done|]. by replace (start * tok + blk * tok) with ((start + blk) * tok) by lia.
  - cbn [mbind list_bind fst d_latents call]. rewrite Eus. symmetry. apply frames_step; lia.
Qed.

Lemma block_run_updates g log us : block_run g log us -> Forall (fun u => u ∈ log /\ d_updating u.1 = true) us.
Proof.
  induction 1 as [g|g lg u log us Hlg Hu Hup Hr IH]; constructor; [split; [|done]; apply elem_of_app; right; constructor|]. eapply Forall_impl; [exact IH|]. intros x [Hx ?]. split; [|done]. apply elem_of_app. right. by constructor.
Qed.

Lemma dmd_forward_log (reset : Z -> S -> S) image latents N M s0 g : independent_first_frame dc = false -> 0 < N -> Z.of_nat (length latents) = N * blk -> 0 <= M ->
  Z.of_nat (length (default [] image)) = M * blk ->
  exists out s' g' log us, dmd_forward (logged tr) pred_to_x0 noised randn st dc (fun n p => (reset n p.1, p.2)) ts image latents (s0, []) g = Ok (out, (s', log), g') /\
    block_run 0 log us /\ us <> [] /\ (us ≫= fun u => d_latents u.1) = default [] image ++ out.
Proof.
  intros Hind HN Hl HM Him. unfold dmd_forward. assert (exists size, get_causal_kv_cache_size st dc (Some ((match image with Some im => Z.of_nat (length im) | None => 0 end) + Z.of_nat (length latents))) = Ok size) as [size ->].
  { unfold get_causal_kv_cache_size. destruct (negb _); [eauto|]. destruct (sliding_window_num_frames dc); eauto. }
  bind_step. assert (exists s1 log us, (match image with Some im => warm_up (logged tr) st dc im (reset size s0, []) | None => Ok (0, (reset size s0, [])) end) = Ok (M * blk, (s1, log)) /\
    block_run 0 log us /\ length us = Z.to_nat M /\ (us ≫= fun u => d_latents u.1) = default [] image) as (s1 & log1 & us1 & Ew & Hr1 & L1 & E1).
  { destruct image as [im|]; cbn [from_option id] in Him |- *.
    - unfold warm_up. rewrite Hind. cbn [andb]. destruct (warm_up_log (Z.to_nat M) im (length im) 0 (reset size s0, [])) as (s1 & log & us & E & Hr & Lu & Eu); [lia|rewrite Z2Nat.id by lia; lia|rewrite Z2Nat.id by lia; lia|].
      rewrite Z2Nat.id, <- Him in E by lia. exists s1, log, us. rewrite <- Him. split; [exact E|]. split; [done|]. split; [done|]. by rewrite Eu, drop_0.
    - assert (M = 0) as -> by (cbn in Him; nia). exists (reset size s0), [], []. split; [done|]. split; [constructor|done]. }
  cbn [fst snd]. rewrite Ew. bind_step. unfold block_sizes. rewrite Hind. cbn [negb orb]. unfold py_mod, py_div. cbn [Denoising.blk]. destruct (Z.eqb_spec blk 0); [lia|]. rewrite Z.sub_0_r, Hl, Z.mod_mul, Z.div_mul by lia. cbn [Z.eqb negb mbind res_bind fst snd]. change (replicate (Z.to_nat 0) 1) with (@nil Z). cbn [app].
  destruct (denoise_blocks_log (Z.to_nat N) image (M * blk) Hind 0 latents (s1, log1) g ltac:(lia) ltac:(rewrite Z2Nat.id by lia; lia)) as (out & s' & g' & log2 & us2 & -> & Hr2 & L2 & E2).
  exists out, s', g', (log1 ++ log2), (us1 ++ us2). split; [done|]. split; [|split].
  - apply block_run_app; [done|]. rewrite L1, Z2Nat.id by lia. by replace (0 + M * (blk * tok)) with ((M * blk + 0) * tok) by lia.
  - destruct us1, us2; cbn in *; try done. lia.
  - rewrite bind_app, E1, E2. done.
Qed.

End stage.

End dmd.

(** A cache as the stage allocates it, whatever has been written to it. *)
Definition stage_cache {T A} (st : stage_config) (dc : dmd_config (T:=T)) (c : CausalSelfAttentionKVCache A) : Prop :=
  Z.of_nat (length (kc_k c)) = cache_size c /\ Z.of_nat (length (kc_v c)) = cache_size c /\ sink_tokens c = get_causal_sink_tokens st dc /\
  global_sink_tokens c = 0 /\ attention_window_size c = cache_size c /\ allow_growth c = false.

Lemma prepared_cache {T A} st (dc : dmd_config (T:=T)) (zero : A) heads ints size old n : 0 < n -> 0 <= get_causal_sink_tokens st dc -> get_causal_sink_tokens st dc + n <= size ->
  (forall c, old = Some c -> stage_cache st dc c) ->
  let c := initialize_or_reset_kv_cache st dc zero heads ints size old in
  fresh_cache n c /\ stage_cache st dc c /\ cache_size c = size.
Proof.
  intros Hn Hs Hsize Hold. assert (let c := initialize_kv_cache st dc zero heads ints size in fresh_cache n c /\ stage_cache st dc c /\ cache_size c = size) as Hinit.
  { unfold initialize_kv_cache, allocate_causal_kv_cache, kv_post_init, get_causal_attention_window_size. cbn. destruct (Z.eqb_spec size 0); [lia|].
    unfold fresh_cache, stage_cache, ends, read_indices. cbn. rewrite length_replicate. split_and!; try done; try lia. by destruct ints. }
  unfold initialize_or_reset_kv_cache. destruct old as [c|]; [|exact Hinit]. destruct (Z.eqb_spec (cache_size c) size) as [E|]; cbn [negb]; [|exact Hinit].
  destruct (Hold c eq_refl) as (H1 & H2 & H3 & H4 & H5 & H6). unfold fresh_cache, stage_cache, reset_indices, ends, read_indices. cbn.
  split_and!; try done; try lia. by destruct (global_end_index_int c), (local_end_index_int c).
Qed.

(** C8: For frames in whole blocks, a transformer whose first frame is no
    block of its own, and a cache that holds the sink and a block, the causal
    stage never raises and drives the cache of every layer, which it has
    allocated or reset for the request, correctly: the passes of the layer never
    raise, and what the layer attends over in the last pass are the keys and
    values of the refresh passes over clean frames, the given image frames and
    then the output; no row of a denoising step is left.  It sees the sink and
    the newest tokens the cache has room for (also where a cache of just one
    block is bypassed), and the cache it leaves is fit for the next request. *)
Theorem dmd_caches_clean {L T S G A} (tr : dit_call L T -> S -> res (list L * S)) pred_to_x0 noised (randn : nat -> G -> list L * G) blk tok dc ts reset image latents s0 g
    (krows vrows : dit_call L T * list L -> rows A) (zero : A) heads ints old size :
  let st := mkStage blk tok in let sink := get_causal_sink_tokens st dc in
  (forall c s, exists out s', tr c s = Ok (out, s') /\ length out = length (d_latents c)) -> (forall n g, length (randn n g).1 = n) ->
  0 < blk -> 0 < tok -> ts <> [] -> independent_first_frame dc = false -> latents <> [] ->
  (blk | Z.of_nat (length latents)) -> (blk | Z.of_nat (length (default [] image))) ->
  (forall x, Z.of_nat (length (krows x)) = Z.of_nat (length (d_latents x.1)) * tok /\ length (vrows x) = length (krows x)) ->
  get_causal_kv_cache_size st dc (Some (Z.of_nat (length (default [] image)) + Z.of_nat (length latents))) = Ok size ->
  0 <= sink -> sink + blk * tok <= size -> (forall c, old = Some c -> stage_cache st dc c) ->
  exists out s' g' log us, dmd_forward (logged tr) pred_to_x0 noised randn st dc (fun n p => (reset n p.1, p.2)) ts image latents (s0, []) g = Ok (out, (s', log), g') /\
    Forall (fun u => u ∈ log /\ d_updating u.1 = true) us /\ (us ≫= fun u => d_latents u.1) = default [] image ++ out /\
    let total := Z.of_nat (length (us ≫= krows)) in let l := Z.min total size in
    exists k v segs c', layer_run zero (passes_of krows vrows log) (initialize_or_reset_kv_cache st dc zero heads ints size old) = Ok (Some (k, v, Some segs), c') /\
      segment_positions segs = global_pos sink (total - l) <$> zrange 0 l /\
      Some <$> k = rows_at (us ≫= krows) (segment_positions segs) /\ Some <$> v = rows_at (us ≫= vrows) (segment_positions segs) /\ stage_cache st dc c'.
Proof.
  cbv zeta. intros Htr Hrandn Hblk Htok Hts Hind Hne [N HN] [M HM] Hrows Hsz Hsk Hfit Hold. assert (0 < N) by (destruct latents; [done|]; cbn [length] in HN; nia). assert (0 <= M) by nia.
  destruct (dmd_forward_log tr pred_to_x0 noised randn Htr Hrandn blk tok Hblk Htok dc ts Hts reset image latents N M s0 g) as (out & s' & g' & log & us & E & Hr & Hus & Elat); try done.
  exists out, s', g', log, us. split; [done|]. split; [by eapply block_run_updates|]. split; [done|].
  assert (stream (blk * tok) 0 (passes_of krows vrows log)) as Hst by (eapply block_run_stream; [done..|apply Hrows|intros; apply Hrows|lia|done]).
  assert (passes_of krows vrows log <> []) as Hpn by (destruct Hr; [done|]; unfold passes_of; rewrite fmap_app; by destruct lg).
  destruct (prepared_cache (mkStage blk tok) dc zero heads ints size old (blk * tok) ltac:(nia) Hsk Hfit Hold) as (Hc & (_ & _ & C3 & C4 & C5 & C6) & Ec). set (c := initialize_or_reset_kv_cache _ _ _ _ _ _ _) in *.
  destruct (layer_view zero (blk * tok) c (passes_of krows vrows log) ltac:(nia) Hc Hst Hpn) as (k & v & segs & c' & H1 & H2 & H4 & H5 & (S1 & S2 & S3 & _ & _ & S6 & S7) & L1 & L2).
  assert (forall rs (sel : pass (A:=A) -> rows A), (forall x, Z.of_nat (length (rs x)) = Z.of_nat (length (d_latents x.1)) * tok) -> (forall x, sel (d_start_tokens x.1, krows x, vrows x) = rs x) ->
    history sel (passes_of krows vrows log) [] = us ≫= rs) as Hh.
  { intros rs sel Hrs Hsel. unfold history, passes_of. rewrite foldl_fmap. change (us ≫= rs) with ([] ++ (us ≫= rs)). rewrite <- (block_run_history blk tok Htok rs Hrs 0 log us []) by done.
    clear - Hsel. generalize (@nil (list A)). induction log as [|x log IH]; intros K; cbn; [done|]. by rewrite Hsel, IH. }
  assert (history (fun e => e.1.2) (passes_of krows vrows log) [] = us ≫= krows) as Ek by (apply Hh; [|done]; intros x; apply Hrows).
  assert (history snd (passes_of krows vrows log) [] = us ≫= vrows) as Ev by (apply Hh; [|done]; intros x; destruct (Hrows x) as [H6 H7]; lia).
  rewrite Ek, Ev in *. rewrite Ec, C3, C5, Ec in H2. exists k, v, segs, c'. split; [done|]. split; [by replace (Z.max 0 (Z.min (Z.of_nat (length (us ≫= krows))) size - size)) with 0 in H2 by lia|].
  split; [done|]. split; [done|]. destruct (S7 C6). unfold stage_cache. split_and!; congruence.
Qed.

(** ** Concrete runs *)

(** A frame is its history: the number of its noise, a timestep for each
    prediction, 1000 and the timestep for each re-noising. *)
Definition dx_tr (c : dit_call (list Z) Z) (n : Z) : res (list (list Z) * Z) := Ok (d_latents c, n + 1).
Definition dx_run (blocks steps : Z) := rolling_forward (logged dx_tr) (fun _ x t => x ++ [t]) (fun x _ t => x ++ [1000 + t]) (fun n (g : Z) => (replicate n [], g)) [] 0
  (mkStage 1 1) (fun p => (p.1, p.2)) (zrange 1 (steps + 1)) ((fun b => [100 * b]) <$> zrange 0 blocks) (0, []) 0.

Lemma rolling_schedule_witness : exists r, dx_run 4 3 = Ok r /\ Z.of_nat (length (r_dit r).2) = 12 /\ r_output r !! 1%nat = Some [100; 1; 1002; 2; 1003; 3].
Proof.
  destruct (rolling_schedule dx_tr (fun _ x t => x ++ [t]) (fun x _ t => x ++ [1000 + t]) (fun n (g : Z) => (replicate n [], g)) [] 0 4 1 1 (zrange 1 4) ((fun b => [100 * b]) <$> zrange 0 4) id 0 0)
    as (r & log & E & E1 & E2 & _); [intros c n; by eexists _, _|intros; apply length_replicate|lia|change (length (zrange 1 4)) with 3%nat; lia|done|].
  exists r. split; [exact E|]. rewrite E1. split; [exact E2|]. vm_compute in E. injection E as <-. done.
Defined.

(** With fewer blocks than timesteps the stage takes the growing window for
    one that still ramps up: the last block restarts from noise, and the first
    one, noised to timestep 3, is predicted at timestep 2. *)
Lemma rolling_short_video : exists r, dx_run 2 3 = Ok r /\ r_output r = [[0; 1; 1002; 2; 1003; 2]; [100; 1; 1003; 3]].
Proof. eexists. split; [vm_compute; reflexivity|reflexivity]. Qed.

Definition dx_dmd := dmd_forward (logged dx_tr) (fun _ x t => x ++ [t]) (fun x _ t => x ++ [1000 + t]) (fun n (g : Z) => (replicate n [], g)) (mkStage 1 1) (mkDmd (-1) (Some 3) 1 false 0)
  (fun _ p => (p.1, p.2)) [1; 2] (Some [[7]; [8]]) [[100]; [200]] (0, []) 0.

Lemma dmd_caches_clean_witness : exists out s g log k v segs c', dx_dmd = Ok (out, (s, log), g) /\
  layer_run 0 (passes_of (fun x => d_latents x.1) (fun x => d_latents x.1) log) (initialize_or_reset_kv_cache (mkStage 1 1) (mkDmd (T:=Z) (-1) (Some 3) 1 false 0) 0 1 true 3 None) = Ok (Some (k, v, segs), c') /\
  k = [[7]; [100; 1; 1002; 2]; [200; 1; 1002; 2]].
Proof.
  destruct (dmd_caches_clean dx_tr (fun _ x t => x ++ [t]) (fun x _ t => x ++ [1000 + t]) (fun n (g : Z) => (replicate n [], g)) 1 1 (mkDmd (-1) (Some 3) 1 false 0) [1; 2] (fun _ n => n)
    (Some [[7]; [8]]) [[100]; [200]] 0 0 (fun x => d_latents x.1) (fun x => d_latents x.1) 0 1 true None 3) as (out & s & g & log & us & E & _ & _ & k & v & segs & c' & Ek & _);
    [intros c n; by eexists _, _|intros; apply length_replicate|lia|lia|done|done|done|by exists 2|by exists 2|intros x; split; [lia|done]|done|by vm_compute|by vm_compute|done|].
  exists out, s, g, log, k, v, (Some segs), c'. split; [exact E|]. split; [exact Ek|]. vm_compute in E. injection E as <- <- <- <-. vm_compute in Ek. injection Ek as <- _ _ _. reflexivity.
Defined.

(** After given image frames the blocks are cached behind them, but their
    rotary positions start at frame 0 again: tokens and start frame of the
    calls for two image frames and two generated ones. *)
Lemma dmd_rope_restarts : exists out s log g, dx_dmd = Ok (out, (s, log), g) /\
  (fun x : dit_call (list Z) Z * list (list Z) => (d_start_tokens x.1, d_start_frame x.1)) <$> log = [(0, 0); (1, 1); (2, 0); (2, 0); (2, 0); (3, 1); (3, 1); (3, 1)].
Proof. eexists _, _, _, _. split; [vm_compute; reflexivity|reflexivity]. Qed.
