(* ===== verification/Sta.v ===== *)
(** * Sta: sliding tile attention

    Models [sta.py] of the sparse attention package: the choice of a tile, the
    tile-major order of a frame, the clamped windows and the mask they make,
    and the plan with its cache.  The mask is a nested list in row-major
    order, so a reshape that merges axes is a concatenation. *)

From stdpp Require Import pretty.
From S2P Require Import Prelude Num SparsePlan SparseKernel SparseContext SparseBackend.

Open Scope Z_scope.

Record StaConfig := mkStaConfig {
  kernel_t : Z;
  kernel_h : Z;
  kernel_w : Z;
  tile_h : Z;
  tile_w : Z;
  sta_block : Z;
  sta_dense_sink_frames : Z }.

(** ** The tile *)

Definition divisors (n : Z) : list Z := filter (fun d => n mod d = 0) (zrange 1 (n + 1)).

Section pick.
Context {F : Type} `{Num F}.

Definition tile_score (degenerate : bool) (th tw : Z) : F :=
  let ratio := if degenerate then none else ndiv (of_Z (Z.max th tw)) (of_Z (Z.min th tw)) in
  nadd (of_Z (Z.abs (th * tw - 64))) (nmul (of_Z 2) (nsub ratio none)).

Definition pick_tile (extent other_extent : Z) : res (Z * Z) :=
  let degenerate := Z.min extent other_extent =? 1 in
  let consider (best : option (F * Z * Z)) (tile : Z * Z) :=
    let score := tile_score degenerate tile.1 tile.2 in
    match best with
    | None => Some (score, tile.1, tile.2)
    | Some (b, _, _) => if nltb score b then Some (score, tile.1, tile.2) else best
    end in
  match foldl consider None (divisors extent ≫= fun th => (fun tw => (th, tw)) <$> divisors other_extent) with
  | None => Raise AssertionError
  | Some (_, th, tw) => Ok (th, tw)
  end.
End pick.

(** ** Tile-major order *)

(** [np.argsort(kind="stable")]: by value, then by index. *)
Definition arg_le (l : list Z) (i j : Z) : Prop :=
  let v x := default 0 (l !! Z.to_nat x) in v i < v j \/ (v i = v j /\ i <= j).
#[global] Instance arg_le_dec l : RelDecision (arg_le l).
Proof. intros i j. unfold arg_le. apply _. Defined.
Definition np_argsort (l : list Z) : list Z := merge_sort (arg_le l) (zrange 0 (Z.of_nat (length l))).

Definition tile_major_key (grid_w th tw i : Z) : Z :=
  let row := i / grid_w in
  let col := i mod grid_w in
  let tiles_w := grid_w / tw in
  let tile_id := row / th * tiles_w + col / tw in
  let within := row mod th * tw + col mod tw in
  tile_id * (th * tw) + within.

Definition tile_major_permutation (grid_h grid_w th tw : Z) : list Z :=
  np_argsort (tile_major_key grid_w th tw <$> zrange 0 (grid_h * grid_w)).

(** ** The mask *)

(** [np.clip]: with crossed bounds the upper one wins. *)
Definition np_clip (x lo hi : Z) : Z := Z.min (Z.max x lo) hi.

Definition clamped_window (positions : list Z) (extent kernel : Z) : list (list bool) :=
  if extent <=? kernel then (fun _ => replicate (Z.to_nat extent) true) <$> positions
  else
    let half := kernel / 2 in
    (fun p => let center := np_clip p half (extent - 1 - half) in
      (fun x => Z.abs (center - x) <=? half) <$> zrange 0 extent) <$> positions.

(** Conjunction of two masks over the product of their axes, flattened. *)
Definition mask_product (a b : list (list bool)) : list (list bool) :=
  a ≫= fun ra : list bool => (fun rb : list bool => ra ≫= fun x => andb x <$> rb) <$> b.

(** [time_keep[:, :n] = True]; a negative [n] counts from the end. *)
Definition keep_leading (n : Z) (row : list bool) : list bool :=
  let k := Z.to_nat (if n <? 0 then Z.max 0 (Z.of_nat (length row) + n) else Z.min n (Z.of_nat (length row))) in
  replicate k true ++ drop k row.

Definition build_sta_tile_mask (layout : VisibleLayout) (grid_h grid_w th tw : Z) (config : StaConfig) : list (list bool) :=
  let tiles_h := grid_h / th in
  let tiles_w := grid_w / tw in
  let nf := num_frames layout in
  let time_keep := clamped_window (zrange (nf - query_frames layout) nf) nf (kernel_t config) in
  let time_keep := if sta_dense_sink_frames config =? 0 then time_keep else keep_leading (sta_dense_sink_frames config) <$> time_keep in
  let row_keep := clamped_window (zrange 0 tiles_h) tiles_h (kernel_h config) in
  let col_keep := clamped_window (zrange 0 tiles_w) tiles_w (kernel_w config) in
  mask_product time_keep (mask_product row_keep col_keep).

(** [mask.any(axis=0)] of rows of [n] columns. *)
Definition any_rows (n : nat) (rows : list (list bool)) : list bool := foldr (zip_with orb) (replicate n false) rows.

(** ** The method *)

Section sta.
Context {F : Type} `{NumExp F}.
(** What uninitialised memory holds. *)
Context (garbage : nat).

Record sta_state := mkSta {
  st_base : base_state F;
  st_config : StaConfig;
  st_plans : LayoutCache (Z * Z * nat) (option (SparseAttentionPlan F * list Z * list Z));
  st_tiling : option ((Z * Z) * (Z * Z * list Z)) }.

Definition put_sta_base b s := mkSta b (st_config s) (st_plans s) (st_tiling s).

Definition sta_init (config : StaConfig) : sta_state := mkSta base_init config ∅ None.

Definition frame_tiling (grid_h grid_w : Z) (s : sta_state) : res (option (Z * Z * list Z) * sta_state) :=
  match match st_tiling s with Some (g, t) => if bool_decide (g = (grid_h, grid_w)) then Some t else None | None => None end with
  | Some t => Ok (Some t, s)
  | None =>
    let c := st_config s in
    tile ← (if (tile_h c <=? 0) || (tile_w c <=? 0) then pick_tile (F:=F) grid_h grid_w else Ok (tile_h c, tile_w c));
    let '(th, tw) := tile in
    if negb (grid_h mod th =? 0) || negb (grid_w mod tw =? 0) then Ok (None, s)
    else
      let t := (th, tw, tile_major_permutation grid_h grid_w th tw) in
      Ok (Some t, mkSta (st_base s) c (st_plans s) (Some ((grid_h, grid_w), t)))
  end.

(** Offsets of [n] frames, each in the order of the permutation. *)
Definition frame_index (n fs : Z) (perm : list Z) : list Z := zrange 0 n ≫= fun f => (fun p => f * fs + p) <$> perm.

(** The block-quantised mask: the union of the windows of a block's tiles. *)
Definition sta_block_mask (tile_mask : list (list bool)) (q_len block tile_tokens : Z) : res (list (list bool)) :=
  q_blocks ← (if block =? 0 then Raise ZeroDivisionError else Ok (cdiv q_len block));
  let key_tiles := length (default [] (head tile_mask)) in
  let row_tile := (fun i => Z.min (i / tile_tokens) (Z.of_nat (length tile_mask) - 1)) <$> zrange 0 q_len in
  mapM (fun b =>
    let tiles := take (Z.to_nat block) (drop (Z.to_nat (b * block)) row_tile) in
    first ← or_raise IndexError (head tiles);
    lst ← or_raise IndexError (last tiles);
    Ok (any_rows key_tiles (take (Z.to_nat (lst + 1 - first)) (drop (Z.to_nat first) tile_mask)))) (zrange 0 q_blocks).

Definition build_sta_plan (config : StaConfig) (layout : VisibleLayout) (grid_h grid_w th tw : Z) (frame_permutation : list Z) (num_heads : nat) :
    res (option (SparseAttentionPlan F * list Z * list Z)) :=
  let tile_tokens := th * tw in
  let tile_mask := build_sta_tile_mask layout grid_h grid_w th tw config in
  if forallb (forallb id) tile_mask then Ok None
  else
    let fs := frame_seqlen layout in
    mask ← sta_block_mask tile_mask (query_frames layout * fs) (sta_block config) tile_tokens;
    let tile_ids := zrange 0 (Z.of_nat (length (default [] (head tile_mask)))) in
    let plan := plan_from_segment_mask garbage (replicate num_heads mask)
      (Shared ((fun t => t * tile_tokens) <$> tile_ids)) (Shared ((fun t => (t + 1) * tile_tokens) <$> tile_ids)) (sta_block config) None in
    Ok (Some (plan, frame_index (query_frames layout) fs frame_permutation, frame_index (num_frames layout) fs frame_permutation)).

(** [index_select] on the token axis. *)
Definition at_index (index : list Z) (i : Z) : Z := default 0 (index !! Z.to_nat i).
Definition index_select (t : tensor4 F) (index : list Z) : tensor4 F := fun b i h => t b (at_index index i) h.

Definition sta_prepare (call : SparseAttentionCall F) (layout : VisibleLayout) (s : sta_state) :
    res (option (SparseAttentionExecution F) * sta_state) :=
  let q_len := c_q_len call in
  if c_kv_len call <=? q_len then Ok (None, s)
  else
    match b_geometry (st_base s) with
    | None => Raise AssertionError
    | Some g =>
      let gh := grid_height g in
      let gw := grid_width g in
      if negb (gh * gw =? frame_seqlen layout)
      then Ok (None, put_sta_base (warn_dense_once "frame tokens do not form the stamped grid" (st_base s)) s)
      else
        ts ← frame_tiling gh gw s;
        let s := ts.2 in
        match ts.1 with
        | None => Ok (None, put_sta_base (warn_dense_once ("configured tile " +:+ pretty (tile_h (st_config s)) +:+ "x" +:+ pretty (tile_w (st_config s))
            +:+ " does not divide the " +:+ pretty gh +:+ "x" +:+ pretty gw +:+ " grid") (st_base s)) s)
        | Some (th, tw, perm) =>
          let sg := (num_frames layout, q_len, num_local_heads call) in
          cs ← match cache_get (st_plans s) (num_frames layout) sg with
               | Some cached => Ok (cached, s)
               | None =>
                 cached ← build_sta_plan (st_config s) layout gh gw th tw perm (num_local_heads call);
                 Ok (cached, mkSta (st_base s) (st_config s) (cache_put (st_plans s) (num_frames layout) sg cached) (st_tiling s))
               end;
          match cs.1 with
          | None => Ok (None, cs.2)
          | Some (plan, query_index, key_index) =>
              Ok (Some (mkExecution plan (index_select (query call) query_index) (index_select (key call) key_index)
                (index_select (value call) key_index) (Some (fun _ i _ => at_index query_index i))), cs.2)
          end
        end
    end.

Definition sta_attend (order : list (nat * nat) -> list (nat * nat)) := attend st_base put_sta_base sta_prepare order.

End sta.
Arguments sta_state : clear implicits.
