(* ===== verification/StaSpec.v ===== *)
(** * StaSpec: what sliding tile attention reads

    The tile-major order is a permutation whose inverse is the key it sorts
    by; the mask of a block is the union of the windows of its rows. *)

From S2P Require Import Prelude Num SparsePlan SparsePlanSpec SparseKernel SparseKernelSpec SparseClaims SparseContext SparseBackend SparseBackendSpec Sta.

Open Scope Z_scope.

(** ** Flattened axes *)

Lemma mask_product_width a b n n' : width a n -> width b n' -> width (mask_product a b) (n * n').
Proof.
  intros Ha Hb. unfold mask_product. apply Forall_forall. intros r (ra & (rb & -> & Hrb)%list_elem_of_fmap & Hra)%list_elem_of_bind.
  rewrite (length_bind_uniform _ _ n'); [|intros x _; rewrite length_fmap; by apply (proj1 (Forall_forall _ _) Hb)].
  f_equal. by apply (proj1 (Forall_forall _ _) Ha).
Qed.

Lemma length_mask_product a b : length (mask_product a b) = (length a * length b)%nat.
Proof. unfold mask_product. apply length_bind_uniform. intros x _. apply length_fmap. Qed.

Lemma mask_product_at a b n n' i j i' j' : width a n -> width b n' -> (i' < length b)%nat -> (j' < n')%nat ->
  at2 (mask_product a b) (i * length b + i') (j * n' + j') = (x ← at2 a i j; y ← at2 b i' j'; Some (x && y)).
Proof.
  intros Ha Hb Hi Hj. unfold at2, mask_product. rewrite (lookup_bind_uniform _ _ (length b)); [|intros x _; apply length_fmap|done].
  destruct (a !! i) as [ra|] eqn:Ea; cbn; [|done]. rewrite list_lookup_fmap.
  destruct (lookup_lt_is_Some_2 b i' Hi) as [rb Eb]. rewrite Eb. cbn. assert (length rb = n') as Hrb by exact (Forall_lookup_1 _ _ _ _ Hb Eb).
  rewrite (lookup_bind_uniform _ _ n'); [|intros x _; by rewrite length_fmap|done].
  destruct (ra !! j) as [x|]; cbn; [|done]. rewrite list_lookup_fmap. destruct (rb !! j'); done.
Qed.

(** ** Windows *)

Definition in_window (extent kernel p x : Z) : bool :=
  (extent <=? kernel) || (Z.abs (np_clip p (kernel / 2) (extent - 1 - kernel / 2) - x) <=? kernel / 2).

Lemma clamped_window_width ps extent kernel : width (clamped_window ps extent kernel) (Z.to_nat extent).
Proof.
  unfold clamped_window, width. destruct (extent <=? kernel); apply Forall_fmap, Forall_true; intros p; cbn;
    [apply length_replicate|]. rewrite length_fmap. unfold zrange. rewrite length_seqZ. lia.
Qed.

Lemma length_clamped_window ps extent kernel : length (clamped_window ps extent kernel) = length ps.
Proof. unfold clamped_window. destruct (extent <=? kernel); apply length_fmap. Qed.

Lemma clamped_window_at ps extent kernel i p x : ps !! i = Some p -> 0 <= x < extent ->
  at2 (clamped_window ps extent kernel) i (Z.to_nat x) = Some (in_window extent kernel p x).
Proof.
  intros Hp Hx. unfold at2, clamped_window, in_window. destruct (Z.leb_spec extent kernel); rewrite list_lookup_fmap, Hp; cbn.
  - by rewrite lookup_replicate_2 by lia.
  - rewrite list_lookup_fmap. unfold zrange. rewrite lookup_seqZ_lt by lia. cbn. by rewrite Z2Nat.id by lia.
Qed.

Lemma in_window_self extent kernel p : 0 <= kernel -> 0 <= p < extent -> in_window extent kernel p p = true.
Proof.
  intros Hk Hp. unfold in_window, np_clip. apply orb_true_iff. destruct (Z.leb_spec extent kernel); [by left|right].
  apply Z.leb_le. pose proof (Z.div_mod kernel 2). pose proof (Z.mod_pos_bound kernel 2). lia.
Qed.

Lemma length_filter_band (P : Z -> Prop) `{!forall x, Decision (P x)} (lo hi : Z) n : 0 <= lo -> hi < n -> lo <= hi + 1 ->
  (forall x, 0 <= x < n -> P x <-> lo <= x <= hi) -> length (filter P (zrange 0 n)) = Z.to_nat (hi - lo + 1).
Proof.
  intros Hlo Hhi Hlh HP. assert (filter P (zrange 0 n) ≡ₚ zrange lo (hi + 1)) as ->.
  { apply NoDup_Permutation; [apply NoDup_filter, NoDup_seqZ|apply NoDup_seqZ|]. intros x. rewrite list_elem_of_filter, !elem_of_zrange. split.
    - intros [Hx Hr]. apply HP in Hx; lia.
    - intros Hx. split; [apply HP; lia|lia]. }
  unfold zrange. rewrite length_seqZ. lia.
Qed.

(** Every position keeps the same number of places. *)
Lemma window_count extent kernel p : 0 <= kernel -> 0 <= extent ->
  Z.of_nat (length (filter (fun x => in_window extent kernel p x = true) (zrange 0 extent))) = Z.min extent (2 * (kernel / 2) + 1).
Proof.
  intros Hk He. pose proof (Z.div_mod kernel 2). pose proof (Z.mod_pos_bound kernel 2). unfold in_window.
  destruct (Z.leb_spec extent kernel) as [Hle|Hlt].
  - rewrite (length_filter_band _ 0 (extent - 1)); [lia|lia|lia|lia|]. intros x Hx. rewrite orb_true_l. split; [lia|done].
  - set (c := np_clip p (kernel / 2) (extent - 1 - kernel / 2)).
    assert (kernel / 2 <= c <= extent - 1 - kernel / 2) as Hc by (unfold c, np_clip; lia).
    rewrite (length_filter_band _ (c - kernel / 2) (c + kernel / 2)) by (lia || (intros x _; rewrite orb_false_l, Z.leb_le; lia)). lia.
Qed.

(** ** The tile-major order *)

Section tile_major.
Context (gh gw th tw : Z) (Hth : 0 < th) (Htw : 0 < tw) (Hgh : 0 <= gh) (Hgw : 0 < gw) (Eh : gh mod th = 0) (Ew : gw mod tw = 0).
Local Abbreviation κ := (tile_major_key gw th tw).

Lemma tiles_w_mul : gw = gw / tw * tw.
Proof. pose proof (Z.div_mod gw tw). lia. Qed.
Lemma tiles_h_mul : gh = gh / th * th.
Proof. pose proof (Z.div_mod gh th). lia. Qed.

(** The key names the tile, then the place in it. *)
Lemma tile_major_key_div i : 0 <= i -> κ i / (th * tw) = i / gw / th * (gw / tw) + i mod gw / tw /\ 0 <= κ i mod (th * tw).
Proof.
  intros Hi. unfold tile_major_key. pose proof (Z.mod_pos_bound (i / gw) th Hth). pose proof (Z.mod_pos_bound (i mod gw) tw Htw).
  split; [|apply Z.mod_pos_bound; nia]. rewrite Z.div_add_l by nia. rewrite (Z.div_small (_ mod th * tw + _)); [lia|nia].
Qed.

Lemma tile_major_key_range i : 0 <= i < gh * gw -> 0 <= κ i < gh * gw.
Proof.
  intros Hi. assert (0 <= i / gw < gh) as Hr by (split; [apply Z.div_pos|apply Z.div_lt_upper_bound]; lia).
  pose proof (Z.mod_pos_bound i gw Hgw). pose proof tiles_w_mul. pose proof tiles_h_mul.
  assert (0 <= i / gw / th < gh / th) by (split; [apply Z.div_pos|apply Z.div_lt_upper_bound]; lia).
  assert (0 <= i mod gw / tw < gw / tw) by (split; [apply Z.div_pos|apply Z.div_lt_upper_bound]; lia).
  unfold tile_major_key. pose proof (Z.mod_pos_bound (i / gw) th Hth). pose proof (Z.mod_pos_bound (i mod gw) tw Htw).
  set (R := gh / th) in *. set (W := gw / tw) in *. set (a := i / gw / th) in *. set (b := i mod gw / tw) in *.
  set (c := (i / gw) mod th) in *. set (d := (i mod gw) mod tw) in *. rewrite H0, H1.
  assert (0 <= a * W + b < R * W) by nia. assert (0 <= c * tw + d < th * tw) by nia.
  replace (R * th * (W * tw)) with (R * W * (th * tw)) by ring. set (t := a * W + b) in *. set (w := c * tw + d) in *.
  assert (0 < th * tw) by nia. nia.
Qed.

Lemma tile_major_key_inj i j : 0 <= i -> 0 <= j -> κ i = κ j -> i = j.
Proof.
  intros Hi Hj E. pose proof tiles_w_mul as EW.
  destruct (tile_major_key_div i Hi) as [Di _]. destruct (tile_major_key_div j Hj) as [Dj _].
  assert (0 < th * tw) as Htt by nia.
  assert (i / gw / th * (gw / tw) + i mod gw / tw = j / gw / th * (gw / tw) + j mod gw / tw) as Et by congruence.
  assert ((i / gw) mod th * tw + (i mod gw) mod tw = (j / gw) mod th * tw + (j mod gw) mod tw) as Ein.
  { unfold tile_major_key in E. rewrite Et in E. lia. }
  assert (forall x, 0 <= x mod gw / tw < gw / tw) as Hb.
  { intros x. pose proof (Z.mod_pos_bound x gw Hgw). split; [apply Z.div_pos|apply Z.div_lt_upper_bound]; lia. }
  assert (0 < gw / tw) by (pose proof (Hb 0); lia).
  destruct (Z.div_mod_unique (gw / tw) (i / gw / th) (j / gw / th) (i mod gw / tw) (j mod gw / tw)) as [E1 E2]; [left; auto|left; auto|lia|].
  destruct (Z.div_mod_unique tw ((i / gw) mod th) ((j / gw) mod th) ((i mod gw) mod tw) ((j mod gw) mod tw)) as [E3 E4];
    [left; by apply Z.mod_pos_bound|left; by apply Z.mod_pos_bound|lia|].
  assert (i / gw = j / gw) by (rewrite (Z.div_mod (i / gw) th), (Z.div_mod (j / gw) th) by lia; congruence).
  assert (i mod gw = j mod gw) by (rewrite (Z.div_mod (i mod gw) tw), (Z.div_mod (j mod gw) tw) by lia; congruence).
  rewrite (Z.div_mod i gw), (Z.div_mod j gw) by lia. congruence.
Qed.

Local Abbreviation G := (gh * gw).

Lemma tile_major_keys_perm : κ <$> zrange 0 G ≡ₚ zrange 0 G.
Proof.
  apply submseteq_length_Permutation; [|by rewrite length_fmap]. apply NoDup_submseteq.
  - apply NoDup_fmap_2_strong; [|apply NoDup_seqZ]. intros i j Hi%elem_of_zrange Hj%elem_of_zrange. apply tile_major_key_inj; lia.
  - intros x (i & -> & Hi%elem_of_zrange)%list_elem_of_fmap. apply elem_of_zrange. by apply tile_major_key_range.
Qed.

#[local] Instance arg_le_trans l : Transitive (arg_le l).
Proof. intros i j k. unfold arg_le. lia. Qed.
#[local] Instance arg_le_total l : Total (arg_le l).
Proof. intros i j. unfold arg_le. lia. Qed.

(** Sorted by the key, the keys are consecutive. *)
Lemma tile_major_sorted : κ <$> tile_major_permutation gh gw th tw = zrange 0 G.
Proof.
  unfold tile_major_permutation, np_argsort. rewrite length_fmap. set (keys := κ <$> zrange 0 G).
  assert (zrange 0 (Z.of_nat (length (zrange 0 G))) = zrange 0 G) as ->.
  { f_equal. unfold zrange. rewrite length_seqZ. nia. }
  set (l := merge_sort (arg_le keys) (zrange 0 G)). assert (l ≡ₚ zrange 0 G) as Hp by apply merge_sort_Permutation.
  assert (StronglySorted (arg_le keys) l) as Hs by (apply StronglySorted_merge_sort; apply _).
  assert (StronglySorted Z.le (κ <$> l)) as Hk.
  { assert (Forall (fun i => 0 <= i < G) l) as Hr by (rewrite Hp; apply Forall_forall; intros x; apply elem_of_zrange).
    clear Hp. clearbody l. induction Hs as [|i l Hs IH Hi]; csimpl; [constructor|]. apply Forall_cons in Hr as [Hi0 Hr].
    constructor; [by apply IH|]. apply Forall_fmap. rewrite Forall_forall in *. intros j Hj. specialize (Hi j Hj). specialize (Hr j Hj). cbn in Hi0, Hr |- *.
    unfold arg_le, keys in Hi. rewrite !list_lookup_fmap in Hi. unfold zrange in Hi. rewrite !lookup_seqZ_lt in Hi by lia.
    repeat match type of Hi with context [default 0 (κ <$> Some ?x)] => change (default 0 (κ <$> Some x)) with (κ x) in Hi end.
    rewrite !Z.add_0_l, !Z2Nat.id in Hi by lia. lia. }
  apply (StronglySorted_unique Z.le); [done| |].
  - pose proof (StronglySorted_zrange 0 G) as Hz. clear -Hz. induction Hz as [|x r Hz IH Hx]; constructor; [done|]. eapply Forall_impl; [done|]. cbn. lia.
  - rewrite Hp. apply tile_major_keys_perm.
Qed.

Lemma tile_major_at n : 0 <= n < G -> 0 <= at_index (tile_major_permutation gh gw th tw) n < G /\ κ (at_index (tile_major_permutation gh gw th tw) n) = n.
Proof.
  intros Hn. pose proof (f_equal (fun l => l !! Z.to_nat n) tile_major_sorted) as E. cbn in E. rewrite list_lookup_fmap in E.
  unfold zrange in E. rewrite lookup_seqZ_lt in E by lia. unfold at_index. destruct (_ !! Z.to_nat n) as [x|] eqn:Ex; [|done]. cbn in *.
  split; [|injection E; lia]. apply list_elem_of_lookup_2 in Ex. unfold tile_major_permutation, np_argsort in Ex.
  rewrite merge_sort_Permutation in Ex. rewrite length_fmap in Ex. apply elem_of_zrange in Ex. unfold zrange in Ex. rewrite length_seqZ in Ex. lia.
Qed.

Lemma tile_major_inv x : 0 <= x < G -> at_index (tile_major_permutation gh gw th tw) (κ x) = x.
Proof.
  intros Hx. destruct (tile_major_at (κ x)) as [Hr E]; [by apply tile_major_key_range|]. apply tile_major_key_inj in E; lia.
Qed.

Lemma length_tile_major : Z.of_nat (length (tile_major_permutation gh gw th tw)) = G.
Proof. pose proof (f_equal length tile_major_sorted) as E. rewrite length_fmap in E. rewrite E. unfold zrange. rewrite length_seqZ. nia. Qed.

(** *** Frames in tile-major order *)

(** The place of token [m] once its frame is in tile-major order. *)
Definition tile_pos (m : Z) : Z := m / G * G + κ (m mod G).

Context (HG : 0 < G).

Lemma frame_index_at n i : 0 <= i < n * G ->
  at_index (frame_index n G (tile_major_permutation gh gw th tw)) i = i / G * G + at_index (tile_major_permutation gh gw th tw) (i mod G).
Proof.
  intros Hi. pose proof length_tile_major as Hl. pose proof (Z.div_mod i G ltac:(lia)). pose proof (Z.mod_pos_bound i G HG).
  assert (0 <= i / G < n) by (split; [apply Z.div_pos|apply Z.div_lt_upper_bound]; lia).
  unfold at_index at 1, frame_index. set (perm := tile_major_permutation gh gw th tw) in *.
  replace (Z.to_nat i) with (Z.to_nat (i / G) * length perm + Z.to_nat (i mod G))%nat by nia.
  rewrite (lookup_bind_uniform _ _ (length perm)); [|intros; apply length_fmap|lia]. unfold zrange. rewrite lookup_seqZ_lt by lia. cbn.
  rewrite list_lookup_fmap. destruct (lookup_lt_is_Some_2 perm (Z.to_nat (i mod G))) as [x Ex]; [lia|]. unfold at_index. rewrite Ex. cbn. lia.
Qed.

Lemma tile_pos_range n m : 0 <= m < n * G -> 0 <= tile_pos m < n * G /\ tile_pos m / G = m / G /\ tile_pos m mod G = κ (m mod G).
Proof.
  intros Hm. unfold tile_pos. pose proof (tile_major_key_range (m mod G) (Z.mod_pos_bound m G HG)).
  assert (0 <= m / G < n) by (split; [apply Z.div_pos|apply Z.div_lt_upper_bound]; lia). split; [nia|]. split.
  - rewrite Z.div_add_l by lia. rewrite (Z.div_small (κ (m mod G))) by lia. lia.
  - rewrite Z.add_comm, Z.mod_add by lia. by apply Z.mod_small.
Qed.

Lemma frame_index_pos n m : 0 <= m < n * G -> at_index (frame_index n G (tile_major_permutation gh gw th tw)) (tile_pos m) = m.
Proof.
  intros Hm. destruct (tile_pos_range n m Hm) as (Hr & Ed & Em). rewrite frame_index_at, Ed, Em by done.
  rewrite tile_major_inv by (by apply Z.mod_pos_bound). pose proof (Z.div_mod m G ltac:(lia)). lia.
Qed.

Lemma pos_frame_index n i : 0 <= i < n * G ->
  0 <= at_index (frame_index n G (tile_major_permutation gh gw th tw)) i < n * G /\
  tile_pos (at_index (frame_index n G (tile_major_permutation gh gw th tw)) i) = i.
Proof.
  intros Hi. rewrite frame_index_at by done. pose proof (Z.mod_pos_bound i G HG) as Hm. destruct (tile_major_at (i mod G) Hm) as [Hr Hk].
  assert (0 <= i / G < n) by (split; [apply Z.div_pos|apply Z.div_lt_upper_bound]; lia). split; [nia|].
  unfold tile_pos. rewrite Z.div_add_l, (Z.div_small (at_index _ _)) by lia. rewrite Z.add_0_r.
  rewrite (Z.add_comm _ (at_index _ _)), Z.mod_add, (Z.mod_small (at_index _ _)), Hk by lia. pose proof (Z.div_mod i G ltac:(lia)). lia.
Qed.

(** Reading permuted keys. *)
Lemma frame_index_keys n (P : Z -> Prop) `{!forall x, Decision (P x)} :
  at_index (frame_index n G (tile_major_permutation gh gw th tw)) <$> filter P (zrange 0 (n * G))
    ≡ₚ filter (fun m => P (tile_pos m)) (zrange 0 (n * G)).
Proof.
  apply NoDup_Permutation; [|apply NoDup_filter, NoDup_seqZ|].
  - apply NoDup_fmap_2_strong; [|apply NoDup_filter, NoDup_seqZ].
    intros i j [_ Hi%elem_of_zrange]%list_elem_of_filter [_ Hj%elem_of_zrange]%list_elem_of_filter E.
    rewrite <- (proj2 (pos_frame_index n i Hi)), <- (proj2 (pos_frame_index n j Hj)). by rewrite E.
  - intros m. rewrite list_elem_of_fmap, list_elem_of_filter, elem_of_zrange. setoid_rewrite list_elem_of_filter. setoid_rewrite elem_of_zrange. split.
    + intros (i & -> & HP & Hi). destruct (pos_frame_index n i Hi) as [Hr E]. by rewrite E.
    + intros [HP Hm]. exists (tile_pos m). rewrite frame_index_pos by done. destruct (tile_pos_range n m Hm) as [Hr _]. done.
Qed.

End tile_major.

(** ** The mask over tiles *)

Section tile_mask.
Context (layout : VisibleLayout) (gh gw th tw : Z) (config : StaConfig).
Context (Hth : 0 < th) (Htw : 0 < tw) (Hgh : 0 < gh) (Hgw : 0 < gw) (Eh : gh mod th = 0) (Ew : gw mod tw = 0).
Context (Hsink : 0 <= sta_dense_sink_frames config) (Hqf : 0 <= query_frames layout <= num_frames layout).
Local Abbreviation R := (gh / th).
Local Abbreviation W := (gw / tw).
Local Abbreviation nf := (num_frames layout).
Local Abbreviation qf := (query_frames layout).
Local Abbreviation tile_mask := (build_sta_tile_mask layout gh gw th tw config).

(** The window of a tile: frames near the query frame on the visible axis and
    the leading ones, tile rows and columns near its own. *)
Definition sta_window (f a b f' a' b' : Z) : bool :=
  ((f' <? sta_dense_sink_frames config) || in_window nf (kernel_t config) (nf - qf + f) f') &&
  (in_window R (kernel_h config) a a' && in_window W (kernel_w config) b b').

Lemma keep_leading_at n row x : 0 <= n -> (x < length row)%nat -> keep_leading n row !! x = Some ((Z.of_nat x <? n) || default false (row !! x)).
Proof.
  intros Hn Hx. unfold keep_leading. destruct (Z.ltb_spec n 0); [lia|]. destruct (Z.ltb_spec (Z.of_nat x) n).
  - rewrite lookup_app_l by (rewrite length_replicate; lia). rewrite lookup_replicate_2 by lia. done.
  - rewrite lookup_app_r by (rewrite length_replicate; lia). rewrite length_replicate, lookup_drop. rewrite orb_false_l.
    replace (Z.to_nat (Z.min n (Z.of_nat (length row))) + (x - Z.to_nat (Z.min n (Z.of_nat (length row)))))%nat with x by lia.
    destruct (lookup_lt_is_Some_2 row x Hx) as [v ->]. done.
Qed.

Lemma length_keep_leading n row : length (keep_leading n row) = length row.
Proof. unfold keep_leading. rewrite length_app, length_replicate, length_drop. destruct (Z.ltb_spec n 0); lia. Qed.

Definition time_keep : list (list bool) :=
  let t := clamped_window (zrange (nf - qf) nf) nf (kernel_t config) in
  if sta_dense_sink_frames config =? 0 then t else keep_leading (sta_dense_sink_frames config) <$> t.

Lemma time_keep_width : width time_keep (Z.to_nat nf).
Proof.
  unfold time_keep. pose proof (clamped_window_width (zrange (nf - qf) nf) nf (kernel_t config)) as Hw. case_match; [done|].
  apply Forall_fmap. eapply Forall_impl; [exact Hw|]. intros r Hr. cbn. by rewrite length_keep_leading.
Qed.

Lemma length_time_keep : length time_keep = Z.to_nat qf.
Proof. unfold time_keep. case_match; rewrite ?length_fmap, length_clamped_window; unfold zrange; rewrite length_seqZ; lia. Qed.

Lemma time_keep_at f f' : 0 <= f < qf -> 0 <= f' < nf ->
  at2 time_keep (Z.to_nat f) (Z.to_nat f') = Some ((f' <? sta_dense_sink_frames config) || in_window nf (kernel_t config) (nf - qf + f) f').
Proof.
  intros Hf Hf'. assert (zrange (nf - qf) nf !! Z.to_nat f = Some (nf - qf + f)) as Hp.
  { unfold zrange. rewrite lookup_seqZ_lt by lia. f_equal. lia. }
  pose proof (clamped_window_at _ nf (kernel_t config) _ _ f' Hp Hf') as Ht. unfold time_keep.
  destruct (Z.eqb_spec (sta_dense_sink_frames config) 0) as [E|].
  { rewrite Ht, E. by destruct (Z.ltb_spec f' 0); [lia|]. }
  unfold at2 in *. rewrite list_lookup_fmap. destruct (clamped_window _ _ _ !! Z.to_nat f) as [row|]; [|done]. cbn in *.
  rewrite keep_leading_at by (done || (by eapply lookup_lt_Some)). by rewrite Ht, Z2Nat.id by lia.
Qed.

Lemma tiles_pos : 0 <= R /\ 0 <= W.
Proof. split; apply Z.div_pos; lia. Qed.

Definition space_keep : list (list bool) :=
  mask_product (clamped_window (zrange 0 R) R (kernel_h config)) (clamped_window (zrange 0 W) W (kernel_w config)).

Lemma space_keep_at a b a' b' : 0 <= a < R -> 0 <= b < W -> 0 <= a' < R -> 0 <= b' < W ->
  at2 space_keep (Z.to_nat (a * W + b)) (Z.to_nat (a' * W + b')) = Some (in_window R (kernel_h config) a a' && in_window W (kernel_w config) b b').
Proof.
  intros Ha Hb Ha' Hb'. unfold space_keep. pose proof (length_clamped_window (zrange 0 W) W (kernel_w config)) as Hl. rewrite length_zr, Z.sub_0_r in Hl.
  replace (Z.to_nat (a * W + b)) with (Z.to_nat a * length (clamped_window (zrange 0 W) W (kernel_w config)) + Z.to_nat b)%nat by (rewrite Hl; nia).
  replace (Z.to_nat (a' * W + b')) with (Z.to_nat a' * Z.to_nat W + Z.to_nat b')%nat by nia.
  rewrite (mask_product_at _ _ (Z.to_nat R) (Z.to_nat W)) by (apply clamped_window_width || lia).
  rewrite (clamped_window_at _ _ _ _ a a'), (clamped_window_at _ _ _ _ b b'); [done| |done| |done]; unfold zrange; rewrite lookup_seqZ_lt by lia; f_equal; lia.
Qed.

Lemma tile_mask_at f a b f' a' b' : 0 <= f < qf -> 0 <= a < R -> 0 <= b < W -> 0 <= f' < nf -> 0 <= a' < R -> 0 <= b' < W ->
  at2 tile_mask (Z.to_nat (f * (R * W) + (a * W + b))) (Z.to_nat (f' * (R * W) + (a' * W + b'))) = Some (sta_window f a b f' a' b').
Proof.
  intros Hf Ha Hb Hf' Ha' Hb'. change tile_mask with (mask_product time_keep space_keep).
  assert (length space_keep = Z.to_nat (R * W)) as Hl.
  { unfold space_keep. rewrite length_mask_product, !length_clamped_window, !length_zr. lia. }
  assert (width space_keep (Z.to_nat (R * W))) as Hw.
  { replace (Z.to_nat (R * W)) with (Z.to_nat R * Z.to_nat W)%nat by lia. apply mask_product_width; apply clamped_window_width. }
  assert (0 <= a * W + b < R * W) by nia. assert (0 <= a' * W + b' < R * W) by nia.
  replace (Z.to_nat (f * (R * W) + (a * W + b))) with (Z.to_nat f * length space_keep + Z.to_nat (a * W + b))%nat by (rewrite Hl; nia).
  replace (Z.to_nat (f' * (R * W) + (a' * W + b'))) with (Z.to_nat f' * Z.to_nat (R * W) + Z.to_nat (a' * W + b'))%nat by nia.
  rewrite (mask_product_at _ _ (Z.to_nat nf) (Z.to_nat (R * W))); [|apply time_keep_width|done|lia|lia].
  rewrite time_keep_at, space_keep_at by done. done.
Qed.

Lemma tile_mask_shape : length tile_mask = Z.to_nat (qf * (R * W)) /\ width tile_mask (Z.to_nat (nf * (R * W))).
Proof.
  change tile_mask with (mask_product time_keep space_keep). pose proof tiles_pos. split.
  - rewrite length_mask_product, length_time_keep. unfold space_keep. rewrite length_mask_product, !length_clamped_window, !length_zr. nia.
  - replace (Z.to_nat (nf * (R * W))) with (Z.to_nat nf * (Z.to_nat R * Z.to_nat W))%nat by (unfold num_frames in *; nia).
    apply mask_product_width; [apply time_keep_width|]. apply mask_product_width; apply clamped_window_width.
Qed.

(** In tokens: whether the tile of query token [m] sees the tile of key token [n]. *)
Local Abbreviation G := (gh * gw).
Definition sta_sees (m n : Z) : bool :=
  sta_window (m / G) (m mod G / gw / th) ((m mod G) mod gw / tw) (n / G) (n mod G / gw / th) ((n mod G) mod gw / tw).

Lemma tile_tokens_mul : G = R * W * (th * tw).
Proof. pose proof (tiles_w_mul gw tw Htw Ew). pose proof (tiles_h_mul gh th Hth Eh). nia. Qed.

(** The tile of a token is its place in tile-major order, by tiles. *)
Lemma tile_pos_div n m : 0 <= m < n * G -> tile_pos gh gw th tw m / (th * tw) =
  m / G * (R * W) + (m mod G / gw / th * W + (m mod G) mod gw / tw) /\
  0 <= m / G < n /\ 0 <= m mod G / gw / th < R /\ 0 <= (m mod G) mod gw / tw < W.
Proof.
  intros Hm. pose proof tile_tokens_mul as EG. assert (0 < G) as HG by nia. pose proof (Z.mod_pos_bound m G HG) as Hx.
  split.
  - unfold tile_pos. rewrite EG at 2. replace (m / G * (R * W * (th * tw))) with (m / G * (R * W) * (th * tw)) by ring.
    rewrite Z.div_add_l by nia. f_equal. edestruct tile_major_key_div as [-> _]; [exact Hth|exact Htw|lia|done].
  - split; [split; [apply Z.div_pos|apply Z.div_lt_upper_bound]; lia|]. pose proof (tiles_w_mul gw tw Htw Ew). pose proof (tiles_h_mul gh th Hth Eh).
    pose proof (Z.mod_pos_bound (m mod G) gw Hgw).
    assert (0 <= m mod G / gw < gh) by (split; [apply Z.div_pos|apply Z.div_lt_upper_bound]; lia).
    split; (split; [apply Z.div_pos|apply Z.div_lt_upper_bound]; lia).
Qed.

Lemma tile_mask_tokens m n : 0 <= m < qf * G -> 0 <= n < nf * G ->
  at2 tile_mask (Z.to_nat (tile_pos gh gw th tw m / (th * tw))) (Z.to_nat (tile_pos gh gw th tw n / (th * tw))) = Some (sta_sees m n).
Proof.
  intros Hm Hn. destruct (tile_pos_div qf m Hm) as (-> & ? & ? & ?). destruct (tile_pos_div nf n Hn) as (-> & ? & ? & ?). by apply tile_mask_at.
Qed.

End tile_mask.

(** ** The mask over blocks *)

Lemma take_drop_zrange (n d k : Z) : 0 <= d -> 0 <= k -> take (Z.to_nat k) (drop (Z.to_nat d) (zrange 0 n)) = zrange d (Z.min (d + k) n).
Proof.
  intros Hd Hk. apply list_eq. intros i. unfold zrange. destruct (decide (Z.of_nat i < Z.min (d + k) n - d)).
  - rewrite lookup_take_lt, lookup_drop, !lookup_seqZ_lt by lia. f_equal. lia.
  - rewrite (lookup_seqZ_ge d) by lia. destruct (decide (Z.of_nat i < k)).
    + rewrite lookup_take_lt, lookup_drop, lookup_seqZ_ge by lia. done.
    + apply lookup_take_ge. lia.
Qed.

Lemma head_fmap {A B} (f : A -> B) l : head (f <$> l) = f <$> head l.
Proof. by destruct l. Qed.

Lemma head_zrange a b : a < b -> head (zrange a b) = Some a.
Proof. intros H. unfold zrange. rewrite seqZ_cons by lia. done. Qed.

Lemma last_zrange a b : a < b -> last (zrange a b) = Some (b - 1).
Proof.
  intros H. rewrite last_lookup, length_zr. unfold zrange. rewrite lookup_seqZ_lt by lia. f_equal. lia.
Qed.

Lemma any_rows_at n rows j : width rows n -> (j < n)%nat ->
  any_rows n rows !! j = Some (existsb (fun r => default false (r !! j)) rows) /\ length (any_rows n rows) = n.
Proof.
  intros Hw Hj. induction Hw as [|r rows Hr Hw [IH IHl]]; cbn.
  - rewrite lookup_replicate_2, length_replicate by done. done.
  - destruct (lookup_lt_is_Some_2 r j) as [v Ev]; [lia|]. fold (any_rows n rows). split.
    + by rewrite lookup_zip_with, Ev, IH.
    + rewrite length_zip_with, IHl. lia.
Qed.

Section block_mask.
Context (tile_mask : list (list bool)) (K : nat) (q_len block tt : Z).
Context (Hw : width tile_mask K) (Htt : 0 < tt) (Hb : 0 < block) (Hq : 0 < q_len) (Hl : Z.of_nat (length tile_mask) * tt = q_len).

(** Rows of query block [b] see key tile [kt]. *)
Definition block_sees (b : Z) (kt : nat) : bool :=
  existsb (fun i => default false (at2 tile_mask (Z.to_nat (i / tt)) kt)) (zrange (b * block) (Z.min ((b + 1) * block) q_len)).

Definition block_row (b : Z) : list bool :=
  let first := b * block / tt in
  let lst := (Z.min ((b + 1) * block) q_len - 1) / tt in
  any_rows K (take (Z.to_nat (lst + 1 - first)) (drop (Z.to_nat first) tile_mask)).

Lemma key_tiles_eq : length (default [] (head tile_mask)) = K.
Proof. destruct tile_mask as [|r m]; [simpl in Hl; lia|]. by apply Forall_cons in Hw as [? _]. Qed.

Lemma sta_block_mask_Ok : sta_block_mask tile_mask q_len block tt = Ok (block_row <$> zrange 0 (cdiv q_len block)).
Proof.
  unfold sta_block_mask. destruct (Z.eqb_spec block 0); [lia|]. cbn [mbind res_bind]. rewrite key_tiles_eq. apply mapM_Ok.
  intros b Hbr%elem_of_zrange. pose proof (cdiv_spec q_len block Hb) as Hc. rewrite <- fmap_drop, <- fmap_take, take_drop_zrange by nia.
  replace (b * block + block) with ((b + 1) * block) by ring. set (e := Z.min ((b + 1) * block) q_len).
  assert (b * block < e) as He by (unfold e; nia). rewrite head_fmap, fmap_last, head_zrange, last_zrange by done. cbn.
  assert (forall i, 0 <= i < q_len -> Z.min (i / tt) (Z.of_nat (length tile_mask) - 1) = i / tt) as Hm.
  { intros i Hi. assert (i / tt < Z.of_nat (length tile_mask)) by (apply Z.div_lt_upper_bound; lia). lia. }
  rewrite !Hm by (unfold e in *; nia). done.
Qed.

Lemma block_row_at b kt : 0 <= b < cdiv q_len block -> (kt < K)%nat -> block_row b !! kt = Some (block_sees b kt) /\ length (block_row b) = K.
Proof.
  intros Hbr Hkt. pose proof (cdiv_spec q_len block Hb) as Hc. unfold block_row. set (e := Z.min ((b + 1) * block) q_len).
  assert (b * block < e <= q_len) as He by (unfold e; nia).
  assert (forall i, 0 <= i < q_len -> 0 <= i / tt < Z.of_nat (length tile_mask)) as Hm
    by (intros i Hi; split; [apply Z.div_pos|apply Z.div_lt_upper_bound]; lia).
  destruct (any_rows_at K (take (Z.to_nat ((e - 1) / tt + 1 - b * block / tt)) (drop (Z.to_nat (b * block / tt)) tile_mask)) kt) as [-> ->];
    [by apply Forall_take, Forall_drop|done|]. split; [|done]. f_equal. apply Bool.eq_iff_eq_true.
  unfold block_sees. rewrite !existsb_exists. setoid_rewrite <- list_elem_of_In. split.
  - intros (r & Hr & Hv). apply list_elem_of_lookup in Hr as [i Hi]. apply lookup_take_Some in Hi as [Hi Hlt]. rewrite lookup_drop in Hi.
    set (t := b * block / tt + Z.of_nat i). assert (0 <= b * block / tt) by (apply Hm; nia).
    exists (Z.max (b * block) (t * tt)). assert (t <= (e - 1) / tt) by (unfold t; lia). pose proof (Z.mul_div_le (e - 1) tt Htt).
    pose proof (Z.mul_succ_div_gt (b * block) tt Htt). assert (t * tt <= e - 1) by nia.
    rewrite elem_of_zrange. split; [fold e; lia|]. assert (Z.max (b * block) (t * tt) / tt = t) as ->.
    { symmetry. apply (Z.div_unique _ _ _ (Z.max (b * block) (t * tt) - t * tt)); [left; unfold t in *; nia|ring]. }
    unfold at2. replace (Z.to_nat t) with (Z.to_nat (b * block / tt) + i)%nat by (unfold t; lia). by rewrite Hi.
  - intros (i & Hi%elem_of_zrange & Hv). fold e in Hi. assert (0 <= b * block) by nia. destruct (Hm i) as [H1 H2]; [lia|].
    unfold at2 in Hv. destruct (lookup_lt_is_Some_2 tile_mask (Z.to_nat (i / tt))) as [r Hr]; [lia|]. rewrite Hr in Hv. exists r. split; [|done].
    pose proof (Z.div_le_mono (b * block) i tt Htt ltac:(lia)). pose proof (Z.div_le_mono i (e - 1) tt Htt ltac:(lia)).
    assert (0 <= b * block / tt) by (apply Z.div_pos; lia).
    apply list_elem_of_lookup. exists (Z.to_nat (i / tt - b * block / tt)). rewrite lookup_take_lt by lia. rewrite lookup_drop, <- Hr. f_equal. lia.
Qed.

End block_mask.

(** ** Permuted attention *)

Lemma attend_keys_fmap {F} `{Num F} `{!NumExp F} d (logit : Z -> F) (v : Z -> list F) f keys :
  attend_keys d (fun n => logit (f n)) (fun n => v (f n)) keys = attend_keys d logit v (f <$> keys).
Proof. unfold attend_keys. apply list_fmap_ext. intros _ j _. by rewrite <- !list_fmap_compose. Qed.
