(* ===== verification/StaClaims.v ===== *)
(** * StaClaims: sliding tile attention computes windowed attention *)

From Stdlib Require Import QArith Qcanon.
From S2P Require Import Prelude Num SparsePlan SparsePlanSpec SparseKernel SparseKernelSpec SparseClaims SparseContext SparseBackend SparseBackendSpec Sta StaSpec.

Open Scope Z_scope.

(** Every position of an axis keeps the same number of
    places, itself among them: the window is clamped, not cut. *)
Theorem sta_window_size ps extent kernel i p row : 0 <= kernel -> 0 <= p < extent -> ps !! i = Some p -> clamped_window ps extent kernel !! i = Some row ->
  Z.of_nat (length row) = extent /\ row !! Z.to_nat p = Some true /\
  Z.of_nat (length (filter (fun b => b = true) row)) = Z.min extent (2 * (kernel / 2) + 1).
Proof.
  intros Hk Hp Hi Hrow. assert (row = in_window extent kernel p <$> zrange 0 extent) as ->.
  { apply list_eq. intros j. pose proof (Forall_lookup_1 _ _ _ _ (clamped_window_width ps extent kernel) Hrow) as Hl. cbn in Hl.
    rewrite list_lookup_fmap. unfold zrange. destruct (decide (Z.of_nat j < extent)).
    - pose proof (clamped_window_at ps extent kernel i p (Z.of_nat j) Hi ltac:(lia)) as Ha. unfold at2 in Ha. rewrite Hrow, Nat2Z.id in Ha. cbn in Ha.
      rewrite Ha, lookup_seqZ_lt by lia. done.
    - rewrite lookup_seqZ_ge, lookup_ge_None_2 by lia. done. }
  split; [rewrite length_fmap, length_zr; lia|]. split.
  - rewrite list_lookup_fmap. unfold zrange. rewrite lookup_seqZ_lt by lia. cbn. rewrite Z2Nat.id by lia. by rewrite in_window_self.
  - rewrite <- (window_count extent kernel p) by lia. f_equal. clear. induction (zrange 0 extent) as [|x l IH]; csimpl; [done|].
    rewrite !filter_cons. destruct (in_window extent kernel p x); simpl; by rewrite IH.
Qed.

(** Reading a frame through the tile-major permutation lists
    every token once, tile by tile in row-major order and row by row inside a
    tile. *)
Theorem sta_tile_major gh gw th tw a b r c : 0 < th -> 0 < tw -> gh mod th = 0 -> gw mod tw = 0 ->
  0 <= a < gh / th -> 0 <= b < gw / tw -> 0 <= r < th -> 0 <= c < tw ->
  tile_major_permutation gh gw th tw ≡ₚ zrange 0 (gh * gw) /\
  tile_major_permutation gh gw th tw !! Z.to_nat ((a * (gw / tw) + b) * (th * tw) + (r * tw + c)) = Some ((a * th + r) * gw + (b * tw + c)).
Proof.
  intros Hth Htw Eh Ew Ha Hb Hr Hc. pose proof (tiles_w_mul gw tw Htw Ew) as EW. pose proof (tiles_h_mul gh th Hth Eh) as EH.
  assert (0 < gw) as Hgw by nia. assert (0 <= gh) as Hgh by nia. split.
  { unfold tile_major_permutation, np_argsort. rewrite merge_sort_Permutation, length_fmap, length_zr. replace (Z.of_nat (Z.to_nat (gh * gw - 0))) with (gh * gw) by nia. done. }
  set (x := (a * th + r) * gw + (b * tw + c)). assert (0 <= b * tw + c < gw) by nia. assert (0 <= a * th + r < gh) by nia.
  assert (0 <= x < gh * gw) as Hx by (unfold x; nia).
  assert (x / gw = a * th + r) as Ed by (unfold x; rewrite Z.div_add_l, (Z.div_small (b * tw + c)) by lia; lia).
  assert (x mod gw = b * tw + c) as Em by (unfold x; rewrite Z.add_comm, Z.mod_add by lia; by apply Z.mod_small).
  assert (tile_major_key gw th tw x = (a * (gw / tw) + b) * (th * tw) + (r * tw + c)) as Ek.
  { unfold tile_major_key. rewrite Ed, Em, !Z.div_add_l, (Z.div_small r), (Z.div_small c), !Z.add_0_r by lia.
    rewrite (Z.add_comm (a * th)), (Z.add_comm (b * tw)), !Z.mod_add, !Z.mod_small by lia. done. }
  pose proof (tile_major_inv gh gw th tw Hth Htw Hgh Hgw Eh Ew x Hx) as Hat. rewrite Ek in Hat. unfold at_index in Hat.
  pose proof (tile_major_key_range gh gw th tw Hth Htw Hgh Hgw Eh Ew x Hx) as Hkr. rewrite Ek in Hkr.
  pose proof (length_tile_major gh gw th tw Hth Htw Hgh Hgw Eh Ew) as Hl.
  destruct (lookup_lt_is_Some_2 (tile_major_permutation gh gw th tw) (Z.to_nat ((a * (gw / tw) + b) * (th * tw) + (r * tw + c)))) as [y Ey]; [lia|].
  rewrite Ey in Hat |- *. cbn in Hat. by rewrite Hat.
Qed.

Section claims.
Context {F : Type} `{!Num F} `{!NumExp F} `{!NumLaws F} `{!NumExpLaws F}.
Implicit Types s : sta_state F.

(** ** The tiling *)

Lemma divisors_pos n d : d ∈ divisors n -> 0 < d /\ n mod d = 0.
Proof. unfold divisors. rewrite list_elem_of_filter, elem_of_zrange. lia. Qed.

(** A picked tile divides the grid. *)
Lemma pick_tile_divides e o th tw : pick_tile (F:=F) e o = Ok (th, tw) -> 0 < th /\ 0 < tw /\ e mod th = 0 /\ o mod tw = 0.
Proof.
  unfold pick_tile. set (step := fun _ _ => _). set (tiles := divisors e ≫= _).
  assert (Forall (fun t => 0 < t.1 /\ 0 < t.2 /\ e mod t.1 = 0 /\ o mod t.2 = 0) tiles) as Ht.
  { apply Forall_forall. intros [a b] (a' & (b' & [= -> ->] & Hb%divisors_pos)%list_elem_of_fmap & Ha%divisors_pos)%list_elem_of_bind. cbn. tauto. }
  assert (forall best, match best with Some (_, a, b) => 0 < a /\ 0 < b /\ e mod a = 0 /\ o mod b = 0 | None => True end ->
    match foldl step best tiles with Some (_, a, b) => 0 < a /\ 0 < b /\ e mod a = 0 /\ o mod b = 0 | None => True end) as Hf.
  { induction Ht as [|[a b] l Hab Ht IH]; intros best Hbest; [done|]. apply IH. cbn in Hab. unfold step.
    destruct best as [[[sc a'] b']|]; [|done]. destruct (nltb _ _); [exact Hab|exact Hbest]. }
  specialize (Hf None I). destruct (foldl step None tiles) as [[[sc a] b]|]; [|done]. by intros [= <- <-].
Qed.

(** The cached tiling is the tiling of its grid. *)
Definition tiling_ok s : Prop :=
  forall gh gw th tw perm, st_tiling s = Some ((gh, gw), (th, tw, perm)) ->
    0 < th /\ 0 < tw /\ gh mod th = 0 /\ gw mod tw = 0 /\ perm = tile_major_permutation gh gw th tw.

Lemma frame_tiling_ok gh gw s th tw perm s' : tiling_ok s -> frame_tiling gh gw s = Ok (Some (th, tw, perm), s') ->
  0 < th /\ 0 < tw /\ gh mod th = 0 /\ gw mod tw = 0 /\ perm = tile_major_permutation gh gw th tw /\ tiling_ok s' /\
  st_base s' = st_base s /\ st_config s' = st_config s /\ st_plans s' = st_plans s.
Proof.
  intros Hok E. unfold frame_tiling in E. destruct (match st_tiling s with Some (g, t) => _ | None => None end) as [t|] eqn:Et.
  - injection E as -> <-. destruct (st_tiling s) as [[g t]|] eqn:Es; [|done]. case_bool_decide as Eg; [|done]. injection Et as ->. subst g.
    destruct (Hok _ _ _ _ _ Es) as (?&?&?&?&->). by split_and!.
  - apply bind_Ok_inv in E as ([a b] & Ep & E). assert (0 < a /\ 0 < b) as [Ha Hb].
    { destruct (Z.leb_spec (tile_h (st_config s)) 0); [apply pick_tile_divides in Ep; tauto|].
      destruct (Z.leb_spec (tile_w (st_config s)) 0); [apply pick_tile_divides in Ep; tauto|]. injection Ep as <- <-. done. }
    destruct (Z.eqb_spec (gh mod a) 0) as [E1|]; [|done]. destruct (Z.eqb_spec (gw mod b) 0) as [E2|]; [|done]. cbn in E. injection E as <- <- <- <-.
    split_and!; try done. intros ????? [= <- <- <- <- <-]. done.
Qed.

(** ** A call that plans *)

Record sta_call (call : SparseAttentionCall F) s (layout : VisibleLayout) (g : ChunkGeometry) (segs : KeySegments) (th tw : Z) s1 : Prop := {
  sc_layout : layout_of call (st_base s) = Ok (Some layout, st_base s);
  sc_segments : key_segments call = Some segs /\ Forall (fun seg => 0 <= seg.2) segs;
  sc_history : c_q_len call < c_kv_len call;
  sc_geometry : b_geometry (st_base s) = Some g /\ 0 < grid_height g /\ 0 < grid_width g /\ grid_height g * grid_width g = frame_seqlen layout;
  sc_tiling : tiling_ok s /\ frame_tiling (grid_height g) (grid_width g) s = Ok (Some (th, tw, tile_major_permutation (grid_height g) (grid_width g) th tw), s1);
  sc_miss : st_plans s !! num_frames layout = None;
  sc_sparse : forallb (forallb id) (build_sta_tile_mask layout (grid_height g) (grid_width g) th tw (st_config s)) = false;
  sc_sizes : 0 < c_q_len call /\ (0 < num_local_heads call)%nat /\ 0 < sta_block (st_config s) /\ 0 <= sta_dense_sink_frames (st_config s);
  sc_kernel : 0 <= kernel_t (st_config s) /\ 0 <= kernel_h (st_config s) /\ 0 <= kernel_w (st_config s) }.

(** Keys that some query of [m]'s kernel block sees. *)
Definition sta_block_sees (layout : VisibleLayout) (g : ChunkGeometry) (th tw : Z) (c : StaConfig) (q_len m n : Z) : bool :=
  let pos := tile_pos (grid_height g) (grid_width g) th tw in
  existsb (fun m' => (pos m' / sta_block c =? pos m / sta_block c) && sta_sees layout (grid_height g) (grid_width g) th tw c m' n) (zrange 0 q_len).

Section planned.
Context (garbage : nat) (call : SparseAttentionCall F) s layout g segs th tw s1 (Hc : sta_call call s layout g segs th tw s1).
Local Abbreviation c := (st_config s).
Local Abbreviation gh := (grid_height g).
Local Abbreviation gw := (grid_width g).
Local Abbreviation tt := (th * tw).
Local Abbreviation q_len := (c_q_len call).
Local Abbreviation kv := (c_kv_len call).
Local Abbreviation qf := (query_frames layout).
Local Abbreviation nf := (num_frames layout).
Local Abbreviation block := (sta_block c).
Local Abbreviation R := (gh / th).
Local Abbreviation W := (gw / tw).
Local Abbreviation tile_mask := (build_sta_tile_mask layout gh gw th tw c).
Local Abbreviation K := (Z.to_nat (nf * (R * W))).
Local Abbreviation perm := (tile_major_permutation gh gw th tw).
Local Abbreviation mask := (block_row tile_mask K q_len block tt <$> zrange 0 (cdiv q_len block)).
Local Abbreviation ss := (Shared ((fun t => t * tt) <$> zrange 0 (Z.of_nat K))).
Local Abbreviation se := (Shared ((fun t => (t + 1) * tt) <$> zrange 0 (Z.of_nat K))).
Local Abbreviation sm := (replicate (num_local_heads call) mask).
Local Abbreviation the_plan := (plan_from_segment_mask (F:=F) garbage sm ss se block None).

(** The arithmetic of the call. *)
Record sta_sizes : Prop := {
  ss_tile : 0 < th /\ 0 < tw /\ gh mod th = 0 /\ gw mod tw = 0;
  ss_grid : 0 < gh /\ 0 < gw /\ gh * gw = frame_seqlen layout;
  ss_q : q_len = qf * (gh * gw) /\ 0 < q_len;
  ss_kv : kv = nf * (gh * gw);
  ss_frames : 0 < qf < nf;
  ss_G : gh * gw = R * W * tt /\ 0 < R * W /\ 0 < tt }.

Lemma sta_call_sizes : sta_sizes.
Proof.
  destruct Hc as [HL [Hsg Hpos] Hh (Hg & Hgh & Hgw & HG) (Htok & Ht) Hm Hs (Hq & HH & Hb & Hsk) _].
  destruct (frame_tiling_ok _ _ _ _ _ _ _ Htok Ht) as (Hth & Htw & Eh & Ew & _).
  assert (0 < gh * gw) as HGp by nia. assert (q_len mod frame_seqlen layout = 0 /\ qf = q_len / frame_seqlen layout) as [Hmod Hqf].
  { unfold layout_of in HL. rewrite Hg, Hsg in HL. destruct (_ || _); [done|]. destruct (negb _); [done|].
    apply bind_Ok_inv in HL as ([l|] & El & E); [|done]. injection E as ->. by destruct (visible_layout_query _ _ _ _ _ El). }
  pose proof (layout_of_kv_len _ _ _ _ _ HL Hsg Hpos ltac:(lia)) as Hkv. unfold kv_len in Hkv. rewrite <- HG in *.
  pose proof (Z.div_mod q_len (gh * gw) ltac:(lia)) as Edm. rewrite Hmod, <- Hqf in Edm.
  pose proof (tiles_w_mul gw tw Htw Ew) as EW. pose proof (tiles_h_mul gh th Hth Eh) as EH.
  assert (0 < R /\ 0 < W) as [HR HW] by nia.
  split; [done|done|lia|lia|nia|nia].
Qed.

Lemma sta_block_mask_planned : sta_block_mask tile_mask (qf * frame_seqlen layout) block tt = Ok mask /\ length tile_mask = Z.to_nat (qf * (R * W)) /\ width tile_mask K.
Proof.
  destruct sta_call_sizes as [(Hth & Htw & Eh & Ew) (Hgh & Hgw & HG) (Hq & Hq0) Hkv Hfr (EG & HRW & Htt)].
  destruct (sc_sizes _ _ _ _ _ _ _ _ Hc) as (_ & HH & Hb & Hsk).
  destruct (tile_mask_shape layout gh gw th tw c Hth Htw Hgh Hgw Hsk ltac:(lia)) as [Hl Hw]. split; [|split; [exact Hl|exact Hw]].
  rewrite <- HG, <- Hq. apply sta_block_mask_Ok; try done. rewrite Hl. nia.
Qed.

Lemma sta_planned : exists s2, sta_prepare garbage call layout s = Ok (Some (mkExecution the_plan
  (index_select (query call) (frame_index qf (frame_seqlen layout) perm)) (index_select (key call) (frame_index nf (frame_seqlen layout) perm))
  (index_select (value call) (frame_index nf (frame_seqlen layout) perm))
  (Some (fun _ i _ => at_index (frame_index qf (frame_seqlen layout) perm) i))), s2).
Proof.
  destruct Hc as [HL [Hsg Hpos] Hh (Hg & Hgh & Hgw & HG) (Htok & Ht) Hm Hs (Hq & HH & Hb & Hsk) _].
  destruct (frame_tiling_ok _ _ _ _ _ _ _ Htok Ht) as (_ & _ & _ & _ & _ & _ & Eb & Ec & Ep).
  destruct sta_block_mask_planned as (Hbm & Hl & Hw). destruct sta_call_sizes as [_ _ (Hq1 & _) _ Hfr (_ & HRW & _)].
  unfold sta_prepare. destruct (Z.leb_spec (c_kv_len call) (c_q_len call)); [lia|]. rewrite Hg, HG, Z.eqb_refl, Ht. cbn [negb mbind res_bind fst snd].
  assert (cache_get (st_plans s1) (num_frames layout) (num_frames layout, c_q_len call, num_local_heads call) = None) as -> by (unfold cache_get; by rewrite Ep, Hm).
  unfold build_sta_plan. rewrite Ec, Hs, Hbm. cbn [mbind res_bind fst snd].
  assert (length (default [] (head tile_mask)) = K) as ->.
  { destruct tile_mask as [|r m]; [simpl in Hl; nia|]. by apply Forall_cons in Hw as [? _]. }
  eexists. done.
Qed.

Lemma sta_segmented : segmented (num_local_heads call) (Z.to_nat (cdiv q_len block)) K sm ss se kv.
Proof.
  destruct sta_call_sizes as [(Hth & Htw & Eh & Ew) (Hgh & Hgw & HG) (Hq & Hq0) Hkv Hfr (EG & HRW & Htt)].
  destruct (sc_sizes _ _ _ _ _ _ _ _ Hc) as (_ & HH & Hb & Hsk). destruct sta_block_mask_planned as (_ & Hl & Hw).
  pose proof (cdiv_spec q_len block Hb) as Hcd. assert (0 < cdiv q_len block) as Hcp by nia.
  assert (0 < nf * (R * W)) as HK by nia. assert (Z.of_nat (length tile_mask) * tt = q_len) as Hlt by (rewrite Hl; nia).
  assert (forall h o, (o < K)%nat -> seg_at ss h o = Z.of_nat o * tt /\ seg_at se h o = (Z.of_nat o + 1) * tt) as Hat.
  { intros h o Ho. unfold seg_at. rewrite !list_lookup_fmap. unfold zrange. rewrite lookup_seqZ_lt by lia. done. }
  split; [|cbn; rewrite length_fmap, length_zr; lia|cbn; rewrite length_fmap, length_zr; lia|done|lia|].
  - split; [apply length_replicate|]. split; [|lia]. apply Forall_replicate. rewrite length_fmap, length_zr. split; [lia|].
    apply Forall_fmap, Forall_forall. intros b Hbr%elem_of_zrange. cbn.
    apply (block_row_at tile_mask K q_len block tt Hw Htt Hb Hq0 Hlt b 0); lia.
  - intros h _. split; [split|].
    + intros o Ho. destruct (Hat h o Ho) as [-> ->]. lia.
    + intros o Ho. destruct (Hat h o ltac:(lia)) as [_ ->]. destruct (Hat h (S o) Ho) as [-> _]. lia.
    + destruct (Hat h 0%nat ltac:(lia)) as [-> _]. destruct (Hat h (K - 1)%nat ltac:(lia)) as [_ ->]. nia.
Qed.

Lemma seg_selected_tiles row h pos : 0 <= pos < Z.of_nat K * tt -> 0 < tt -> length row = K ->
  seg_selected row (seg_at ss h) (seg_at se h) pos = true <-> nthb row (Z.to_nat (pos / tt)) = true.
Proof.
  intros Hp Htt Hl. rewrite seg_selected_spec.
  assert (forall o, (o < K)%nat -> seg_at ss h o = Z.of_nat o * tt /\ seg_at se h o = (Z.of_nat o + 1) * tt) as Hat.
  { intros o Ho. unfold seg_at. rewrite !list_lookup_fmap. unfold zrange. rewrite lookup_seqZ_lt by lia. done. }
  split.
  - intros (o & Ho & Hpos). pose proof (nthb_lt _ _ Ho) as Hlt. destruct (Hat o ltac:(lia)) as [E1 E2]. rewrite E1, E2 in Hpos.
    replace (Z.to_nat (pos / tt)) with o; [done|]. assert (pos / tt = Z.of_nat o) by (symmetry; apply (Z.div_unique _ _ _ (pos - Z.of_nat o * tt)); lia). lia.
  - intros Ho. exists (Z.to_nat (pos / tt)). split; [done|]. pose proof (nthb_lt _ _ Ho) as Hlt. destruct (Hat (Z.to_nat (pos / tt)) ltac:(lia)) as [-> ->].
    assert (0 <= pos / tt) by (apply Z.div_pos; lia). rewrite Z2Nat.id by done.
    pose proof (Z.mul_div_le pos tt Htt). pose proof (Z.mul_succ_div_gt pos tt Htt). lia.
Qed.

(** The keys of a plan row, read back through the permutation. *)
Lemma sta_row_keys h m : (h < num_local_heads call)%nat -> 0 <= m < q_len ->
  at_index (frame_index nf (frame_seqlen layout) perm) <$> mask_keys sm ss se h (Z.to_nat (tile_pos gh gw th tw m / block)) kv ≡ₚ
  filter (fun n => sta_block_sees layout g th tw c q_len m n = true) (zrange 0 kv).
Proof.
  intros Hh Hm. destruct sta_call_sizes as [(Hth & Htw & Eh & Ew) (Hgh & Hgw & HG) (Hq & Hq0) Hkv Hfr (EG & HRW & Htt)].
  destruct (sc_sizes _ _ _ _ _ _ _ _ Hc) as (_ & HH & Hb & Hsk). destruct sta_block_mask_planned as (_ & Hl & Hw).
  assert (Z.of_nat (length tile_mask) * tt = q_len) as Hlt by (rewrite Hl; nia). assert (0 < gh * gw) as HGp by nia.
  unfold mask_keys. rewrite <- HG, Hkv. rewrite (frame_index_keys gh gw th tw Hth Htw ltac:(lia) Hgw Eh Ew HGp nf).
  erewrite filter_ext_in; [reflexivity|]. intros n Hn%elem_of_zrange.
  destruct (tile_pos_range gh gw th tw Hth Htw ltac:(lia) Hgw Eh Ew HGp qf m ltac:(lia)) as (Hpm & _).
  destruct (tile_pos_range gh gw th tw Hth Htw ltac:(lia) Hgw Eh Ew HGp nf n ltac:(lia)) as (Hpn & _).
  set (pm := tile_pos gh gw th tw m) in *. set (pn := tile_pos gh gw th tw n) in *.
  pose proof (cdiv_spec q_len block Hb) as Hcd. pose proof (Z.div_mod pm block ltac:(lia)). pose proof (Z.mod_pos_bound pm block Hb).
  assert (0 <= pm / block < cdiv q_len block) as Hbl by (split; [apply Z.div_pos; lia|nia]).
  assert (0 <= pn / tt < nf * (R * W)) as Hkt by (split; [apply Z.div_pos; lia|apply Z.div_lt_upper_bound; nia]).
  assert (mask_at sm h (Z.to_nat (pm / block)) = block_row tile_mask K q_len block tt (pm / block)) as ->.
  { unfold mask_at. rewrite lookup_replicate_2 by done. cbn. rewrite list_lookup_fmap. unfold zrange. rewrite lookup_seqZ_lt by lia. cbn. f_equal. lia. }
  destruct (block_row_at tile_mask K q_len block tt Hw Htt Hb Hq0 Hlt (pm / block) (Z.to_nat (pn / tt)) Hbl ltac:(lia)) as [Hrow Hrl].
  assert (seg_selected (block_row tile_mask K q_len block tt (pm / block)) (seg_at ss h) (seg_at se h) pn = true <->
    block_sees tile_mask q_len block tt (pm / block) (Z.to_nat (pn / tt)) = true) as ->.
  { assert (Z.of_nat K * tt = nf * (gh * gw)) by nia. rewrite seg_selected_tiles by (exact Hrl || lia). unfold nthb. by rewrite Hrow. }
  unfold block_sees, sta_block_sees. fold pm. rewrite !existsb_exists. setoid_rewrite <- list_elem_of_In. setoid_rewrite elem_of_zrange. split.
  - intros (i & Hi & Hv). set (m' := at_index (frame_index qf (gh * gw) perm) i).
    destruct (pos_frame_index gh gw th tw Hth Htw ltac:(lia) Hgw Eh Ew HGp qf i ltac:(nia)) as [Hm' Epos]. fold m' in Hm', Epos.
    exists m'. split; [lia|]. rewrite Epos. apply andb_true_iff. split.
    + apply Z.eqb_eq. symmetry. apply (Z.div_unique _ _ _ (i - pm / block * block)); lia.
    + rewrite <- Epos in Hv. unfold pn in Hv. rewrite (tile_mask_tokens layout gh gw th tw c) in Hv by (done || lia). done.
  - intros (m' & Hm' & [Ebl%Z.eqb_eq Hv]%andb_true_iff). exists (tile_pos gh gw th tw m').
    destruct (tile_pos_range gh gw th tw Hth Htw ltac:(lia) Hgw Eh Ew HGp qf m' ltac:(lia)) as (Hpm' & _). split.
    + pose proof (Z.div_mod (tile_pos gh gw th tw m') block ltac:(lia)). pose proof (Z.mod_pos_bound (tile_pos gh gw th tw m') block Hb). nia.
    + unfold pn. rewrite (tile_mask_tokens layout gh gw th tw c) by (done || lia). done.
Qed.

(** A query sees its own place in the view. *)
Lemma sta_sees_itself m : 0 <= m < q_len -> sta_block_sees layout g th tw c q_len m (kv - q_len + m) = true.
Proof.
  intros Hm. destruct sta_call_sizes as [(Hth & Htw & Eh & Ew) (Hgh & Hgw & HG) (Hq & Hq0) Hkv Hfr (EG & HRW & Htt)].
  destruct (sc_kernel _ _ _ _ _ _ _ _ Hc) as (Hkt & Hkh & Hkw). assert (0 < gh * gw) as HGp by nia.
  unfold sta_block_sees. apply existsb_exists. exists m. split; [by apply list_elem_of_In, elem_of_zrange|]. rewrite Z.eqb_refl. cbn [andb].
  unfold sta_sees. set (G := gh * gw) in *. replace (kv - q_len + m) with (m + (nf - qf) * G) by lia.
  rewrite Z.mod_add, Z.div_add by lia. destruct (tile_pos_div gh gw th tw Hth Htw Hgh Hgw Eh Ew qf m ltac:(fold G; lia)) as (_ & Hf & Ha & Hb). fold G in Hf, Ha, Hb.
  unfold sta_window. replace (m / G + (nf - qf)) with (nf - qf + m / G) by ring. rewrite !in_window_self by lia. by rewrite orb_true_r.
Qed.

End planned.

(** C21: On a call that plans, sliding tile attention gives
    every query exact softmax attention over the keys that the windows of its
    kernel block cover, in the original token order: the permutations of
    queries, keys and rows cancel, whatever order the programs run in. *)
Theorem sta_attends_windows (order : list (nat * nat) -> list (nat * nat)) garbage call s layout g segs th tw s1 :
  (forall l, order l ≡ₚ l) -> sta_call call s layout g segs th tw s1 ->
  exists out s', sta_attend garbage order call s = Ok (Some out, s') /\
  forall b m h, (b < c_batch call)%nat -> 0 <= m < c_q_len call -> (h < num_local_heads call)%nat ->
    out !! (b, m, h) = Some (attend_keys (Z.to_nat (head_dim call)) (block_logit (query call) (key call) (softmax_scale call) b m h)
      (fun n => value call b n h)
      (filter (fun n => sta_block_sees layout g th tw (st_config s) (c_q_len call) m n = true) (zrange 0 (c_kv_len call)))).
Proof.
  intros Hord Hc. destruct (sta_planned garbage _ _ _ _ _ _ _ _ Hc) as [s2 Hp]. pose proof (sta_segmented _ _ _ _ _ _ _ _ Hc) as Hsg.
  pose proof (sta_call_sizes _ _ _ _ _ _ _ _ Hc) as [(Hth & Htw & Eh & Ew) (Hgh & Hgw & HG) (Hq & Hq0) Hkv Hfr (EG & HRW & Htt)].
  destruct (sc_sizes _ _ _ _ _ _ _ _ Hc) as (_ & HH & Hb & Hsk). assert (0 < grid_height g * grid_width g) as HGp by nia.
  set (K := Z.to_nat (num_frames layout * (grid_height g / th * (grid_width g / tw)))) in *.
  set (mask := block_row _ K _ _ _ <$> _) in *. set (plan := plan_from_segment_mask garbage _ _ _ _ None) in *.
  set (qi := frame_index (query_frames layout) _ _) in *. set (ki := frame_index (num_frames layout) _ _) in *.
  destruct (segmented_attention order garbage _ _ _ _ _ _ _ (sta_block (st_config s)) None (c_batch call) (c_q_len call) (Z.to_nat (head_dim call))
    (index_select (query call) qi) (index_select (key call) ki) (index_select (value call) ki) (softmax_scale call) Hord Hsg Hb) as (out & Eout & Hout).
  { right. pose proof (cdiv_spec (c_q_len call) (sta_block (st_config s)) Hb). rewrite Z2Nat.id by nia. done. }
  fold plan in Eout. eexists (scatter_rows (fun _ i _ => at_index qi i) out), _. split.
  { unfold sta_attend, attend. rewrite (sc_layout _ _ _ _ _ _ _ _ Hc). cbn [mbind res_bind fst snd].
    assert (put_sta_base (st_base s) s = s) as -> by (by destruct s). rewrite Hp. cbn [mbind res_bind fst snd e_plan e_query e_key e_value query_permutation].
    rewrite Eout. done. }
  intros b m h Hbb Hm Hh. set (pm := tile_pos (grid_height g) (grid_width g) th tw m).
  destruct (tile_pos_range (grid_height g) (grid_width g) th tw Hth Htw ltac:(lia) Hgw Eh Ew HGp (query_frames layout) m ltac:(lia)) as (Hpm & _). fold pm in Hpm.
  assert (at_index qi pm = m) as Em by (unfold qi; rewrite <- HG; apply frame_index_pos; done || lia).
  rewrite <- Em at 1. apply (scatter_rows_lookup (fun _ i _ => at_index qi i) out (c_q_len call) b pm h).
  { intros b' i h' Hs. eapply sparse_attention_dom; [|exact Eout|exact Hs]. done. }
  { intros _ _ i j Hi Hj E. unfold qi in E. rewrite <- HG in E.
    destruct (pos_frame_index (grid_height g) (grid_width g) th tw Hth Htw ltac:(lia) Hgw Eh Ew HGp (query_frames layout) i ltac:(lia)) as [_ <-].
    destruct (pos_frame_index (grid_height g) (grid_width g) th tw Hth Htw ltac:(lia) Hgw Eh Ew HGp (query_frames layout) j ltac:(lia)) as [_ <-]. by rewrite E. }
  rewrite (Hout b pm h Hbb ltac:(lia) Hh). f_equal.
  assert ((if (Z.to_nat (cdiv (c_q_len call) (sta_block (st_config s))) =? 1)%nat then 0%nat else Z.to_nat (pm / sta_block (st_config s)))
    = Z.to_nat (pm / sta_block (st_config s))) as ->.
  { destruct (Nat.eqb_spec (Z.to_nat (cdiv (c_q_len call) (sta_block (st_config s)))) 1) as [E1|]; [|done].
    pose proof (cdiv_spec (c_q_len call) (sta_block (st_config s)) Hb). rewrite Z.div_small by nia. done. }
  pose proof (sta_row_keys _ _ _ _ _ _ _ _ Hc h m Hh Hm) as Hkeys. fold K in Hkeys. fold mask in Hkeys. fold ki pm in Hkeys.
  rewrite decide_False.
  - rewrite <- Hkeys, <- attend_keys_fmap. unfold plan_logit, block_logit, key_logit, index_select. cbn. by rewrite Em.
  - intros E0. rewrite E0 in Hkeys. cbn in Hkeys. symmetry in Hkeys. apply Permutation_nil_r in Hkeys.
    assert (c_kv_len call - c_q_len call + m ∈ ([] : list Z)) as Hin; [|by apply not_elem_of_nil in Hin].
    rewrite <- Hkeys. apply list_elem_of_filter. split; [by apply (sta_sees_itself _ _ _ _ _ _ _ _ Hc)|]. apply elem_of_zrange. nia.
Qed.

End claims.

(** ** Concrete runs *)

Section runs.
#[local] Existing Instance NumExp_one.
#[local] Existing Instance NumExpLaws_one.

Definition sx_config : StaConfig := mkStaConfig 1 1 1 2 2 4 0.
Definition sx_tensor : tensor4 Qc := fun _ n _ => replicate 16 (of_Z n).
(** Two frames of eight tokens visible, the second one queried. *)
Definition sx_call : SparseAttentionCall Qc := mkCall 0 sx_tensor sx_tensor sx_tensor 1 8 16 16 (Some [(0, 16)]) 0 1 1%Qc None.
Definition sx_geometry (gh gw : Z) : ChunkGeometry := mkGeometry 8 1 8 gh gw.
Definition sx_layout : VisibleLayout := mkLayout [0; 1] [-1; 0] [0; 1] 8 1 1 1.
Definition sx_state (gh gw : Z) : sta_state Qc := put_sta_base (set_geometry (sx_geometry gh gw) base_init) (sta_init sx_config).
Definition sx_tiled : sta_state Qc := mkSta (st_base (sx_state 2 4)) sx_config ∅ (Some ((2, 4), (2, 2, tile_major_permutation 2 4 2 2))).

Lemma sta_window_size_witness : Z.of_nat (length (filter (fun b => b = true) [true; true; true; false; false])) = 3.
Proof. apply (sta_window_size [0] 5 3 0 0 [true; true; true; false; false]); done || lia. Defined.

Lemma sta_tile_major_witness : tile_major_permutation 4 4 2 2 !! 6%nat = Some 6.
Proof. apply (sta_tile_major 4 4 2 2 0 1 1 0); done || lia. Defined.

Lemma sx_planned : sta_call sx_call (sx_state 2 4) sx_layout (sx_geometry 2 4) [(0, 16)] 2 2 sx_tiled.
Proof.
  split.
  - vm_compute. reflexivity.
  - split; [done|repeat constructor; cbn; lia].
  - cbn. lia.
  - split; [done|cbn; lia].
  - split; [|vm_compute; reflexivity]. intros ????? E. discriminate E.
  - reflexivity.
  - vm_compute. reflexivity.
  - cbn. lia.
  - cbn. lia.
Qed.

Lemma sta_attends_windows_witness : exists out s', sta_attend 0 id sx_call (sx_state 2 4) = Ok (Some out, s') /\
  out !! (0%nat, 0, 0%nat) = Some (attend_keys 16 (block_logit sx_tensor sx_tensor 1%Qc 0 0 0) (fun n => sx_tensor 0%nat n 0%nat) [8; 9; 12; 13]).
Proof.
  destruct (sta_attends_windows id 0 sx_call (sx_state 2 4) sx_layout (sx_geometry 2 4) [(0, 16)] 2 2 sx_tiled ltac:(done) sx_planned) as (out & s' & E & Hout).
  exists out, s'. split; [exact E|]. apply (Hout 0%nat 0 0%nat); cbn; lia.
Defined.

(** Turn the state of one video to the grid of the next. *)
Definition sx_next (s : sta_state Qc) (gh gw : Z) : sta_state Qc := put_sta_base (set_geometry (sx_geometry gh gw) (st_base s)) s.

(** The query rows a prepared execution restores, in order. *)
Definition sx_permutation (s : sta_state Qc) : option (list Z) :=
  match sta_prepare 0 sx_call sx_layout s with
  | Ok (Some ex, _) => match query_permutation ex with Some p => Some ((fun i => p 0%nat i 0%nat) <$> zrange 0 8) | None => None end
  | _ => None
  end.

(** The cache of plans does not see the shape of the
    grid: after a video of 2x4 tokens per frame, a video of 4x2 reuses its plan
    and reads its frames in the tile order of the wrong grid. *)
Theorem sta_plan_ignores_grid :
  exists ex s', sta_prepare 0 sx_call sx_layout (sx_state 2 4) = Ok (Some ex, s') /\
    sx_permutation (sx_next s' 4 2) = sx_permutation (sx_state 2 4) /\ sx_permutation (sx_state 4 2) <> sx_permutation (sx_state 2 4).
Proof.
  destruct (sta_prepare 0 sx_call sx_layout (sx_state 2 4)) as [[[ex|] s']|e] eqn:E; [|vm_compute in E; discriminate|vm_compute in E; discriminate].
  exists ex, s'. split; [done|]. vm_compute in E. injection E as _ <-. split; vm_compute; congruence.
Qed.
End runs.
