(* ===== verification/Radial.v ===== *)
(** * Radial: radial attention

    Models [radial.py] of the sparse attention package: the width of the band
    at a temporal distance, the decimation of frames, the shrinking of a token
    mask to blocks and the mask of a visible layout, with its cache.  Widths
    are exact numbers where the code has floats.  The second half shows what
    the mask depends on and always keeps. *)

From Stdlib Require Import QArith Qcanon.
From S2P Require Import Prelude Num SparsePlan SparsePlanSpec SparseKernel SparseContext SparseBackend SparseBackendSpec.

Open Scope Z_scope.

(** [int.bit_length] of a non-negative number. *)
Definition bit_length (n : Z) : Z := if n =? 0 then 0 else Z.log2 n + 1.

Section radial.
Context {F : Type} `{NumExp F}.
Context (garbage : nat).

Record RadialConfig := mkRadialConfig {
  radial_block : Z;
  decay_factor : F;
  radial_dense_sink_frames : Z }.

Definition radial_window_width (distance frame_seqlen : Z) (decay : F) (block : Z) : F :=
  if distance <=? 1 then of_Z frame_seqlen
  else
    let decay_length := nmul (ndiv (of_Z (2 ^ bit_length frame_seqlen)) (of_Z (2 ^ bit_length distance))) decay in
    if nleb (of_Z block) decay_length then decay_length else of_Z block.

Definition radial_frame_is_kept (distance frame_seqlen block : Z) : res bool :=
  if distance <=? 1 then Ok true
  else
    let decay_length : F := ndiv (of_Z (2 ^ bit_length frame_seqlen)) (of_Z (2 ^ bit_length distance)) in
    if nleb (of_Z block) decay_length then Ok true
    else m ← py_mod distance (ntrunc (ndiv (of_Z block) decay_length)); Ok (m =? 0).

(** A token mask as a function on row and column, [L] rows of it. *)
Definition shrink_mask_strict (L : Z) (mask : Z -> Z -> bool) (block : Z) : list (list bool) :=
  let blocks := L / block in
  (fun r => (fun c =>
    let columns := zrange (c * block) (c * block + block) in
    let column_density j := ndiv (of_Z (foldr Z.add 0 ((fun i => Z.b2z (mask i j)) <$> zrange (r * block) (r * block + block)))) (of_Z block) in
    let non_zero := Z.of_nat (length (filter (fun j => nltb nzero (column_density j) = true) columns)) in
    let high := Z.of_nat (length (filter (fun j => nltb (ndiv none (of_Z 3)) (column_density j) = true) columns)) in
    let fraction := ndiv (of_Z high) (nadd (of_Z non_zero) (ndiv none (of_Z 1000000000))) in
    nltb (ndiv (of_Z 3) (of_Z 5)) fraction) <$> zrange 0 blocks) <$> zrange 0 blocks.

(** [mask[r0:, c0:] |= shrunk], cut at the edges of the mask. *)
Definition or_at (r0 c0 : Z) (shrunk mask : list (list bool)) : list (list bool) :=
  imap (fun r row => imap (fun c b =>
    b || match shrunk !! Z.to_nat (Z.of_nat r - r0) with
         | Some srow => (r0 <=? Z.of_nat r) && ((c0 <=? Z.of_nat c) && default false (srow !! Z.to_nat (Z.of_nat c - c0)))
         | None => false
         end) row) mask.

(** The mask of one frame pair, block-aligned. *)
Definition frame_pair_mask (config : RadialConfig) (fs query_index key_index : Z) (local : Z -> Z -> bool) : list (list bool) :=
  let block := radial_block config in
  let rr := (query_index * fs) mod block in
  let cr := (key_index * fs) mod block in
  let canvas i j := (rr <=? i) && (i <? rr + fs) && ((cr <=? j) && (j <? cr + fs)) && local (i - rr) (j - cr) in
  shrink_mask_strict (rr + cdiv fs block * block) canvas block.

(** [l[-n:]]. *)
Definition py_suffix {A} (n : Z) (l : list A) : list A :=
  if 0 <? n then drop (length l - Z.to_nat n) l else drop (Z.to_nat (- n)) l.

(** One step of the double loop: query frame [qi] at position [qp] and key
    frame [ki], sink or not, at position [kp]. *)
Definition radial_pair (config : RadialConfig) (fs : Z) (mask : list (list bool)) (q : Z * Z) (k : Z * (bool * Z)) : res (list (list bool)) :=
  let '(qi, qp) := q in
  let '(ki, (sink, kp)) := k in
  let block := radial_block config in
  let distance := Z.abs (qp - kp) in
  kept ← (if sink then Ok true else radial_frame_is_kept distance fs block);
  if negb kept then Ok mask
  else
    let local i j := sink || nleb (of_Z (Z.abs (j - i))) (radial_window_width distance fs (decay_factor config) block) in
    Ok (or_at (qi * fs / block) (ki * fs / block) (frame_pair_mask config fs qi ki local) mask).

(** Loops that thread the mask. *)
Fixpoint fold_res {A B} (f : A -> B -> res A) (a : A) (l : list B) : res A :=
  match l with [] => Ok a | x :: l => a ← f a x; fold_res f a l end.

Definition mask_or2 (a b : list (list bool)) : list (list bool) := zip_with (zip_with orb) a b.

Definition build_radial_block_mask (layout : VisibleLayout) (q_len kv : Z) (config : RadialConfig) : res (list (list bool)) :=
  let block := radial_block config in
  let fs := frame_seqlen layout in
  let mask := replicate (Z.to_nat (num_blocks q_len block)) (replicate (Z.to_nat (num_blocks kv block)) false) in
  let query_positions := py_suffix (query_frames layout) (positional_frame_ids layout) in
  let sinks := (fun f => f <? radial_dense_sink_frames config) <$> global_frame_ids layout in
  if negb (Nat.eqb (length (global_frame_ids layout)) (length (positional_frame_ids layout))) then Raise ValueError
  else
    let keys := zip (zrange 0 (Z.of_nat (length sinks))) (zip sinks (positional_frame_ids layout)) in
    mask ← fold_res (fun mask q => fold_res (fun mask k => radial_pair config fs mask q k) mask keys) mask
      (zip (zrange 0 (Z.of_nat (length query_positions))) query_positions);
    let '(q_lo, q_hi) := block_bounds q_len block in
    let '(k_lo, k_hi) := block_bounds kv block in
    Ok (mask_or2 mask (own_block_mask q_lo q_hi k_lo k_hi (kv - q_len))).

(** ** The method *)

Definition radial_signature : Type := list Z * list bool * Z * nat.

Record radial_state := mkRadial {
  ra_base : base_state F;
  ra_config : RadialConfig;
  ra_plans : LayoutCache radial_signature (option (SparseAttentionPlan F)) }.

Definition put_radial_base b s := mkRadial b (ra_config s) (ra_plans s).
Definition radial_init (config : RadialConfig) : radial_state := mkRadial base_init config ∅.

Definition layout_signature (config : RadialConfig) (layout : VisibleLayout) (q_len : Z) (heads : nat) : res radial_signature :=
  anchor ← or_raise IndexError (last (positional_frame_ids layout));
  Ok ((fun f => f - anchor) <$> positional_frame_ids layout,
      (fun f => f <? radial_dense_sink_frames config) <$> global_frame_ids layout, q_len, heads).

Definition radial_prepare (call : SparseAttentionCall F) (layout : VisibleLayout) (s : radial_state) :
    res (option (SparseAttentionExecution F) * radial_state) :=
  let q_len := c_q_len call in
  let kv := c_kv_len call in
  if kv <=? q_len then Ok (None, s)
  else
    sg ← layout_signature (ra_config s) layout q_len (num_local_heads call);
    cs ← match cache_get (ra_plans s) (num_frames layout) sg with
         | Some cached => Ok (cached, s)
         | None =>
           mask ← build_radial_block_mask layout q_len kv (ra_config s);
           let block := radial_block (ra_config s) in
           let cached := if forallb (forallb id) mask then None
                         else Some (plan_from_block_mask garbage (replicate (num_local_heads call) mask) block kv block None) in
           Ok (cached, mkRadial (ra_base s) (ra_config s) (cache_put (ra_plans s) (num_frames layout) sg cached))
         end;
    Ok (match cs.1 with None => None | Some plan => Some (mkExecution plan (query call) (key call) (value call) None) end, cs.2).

Definition radial_begin_forward := begin_forward ra_base put_radial_base on_begin_forward.

Definition radial_attend (order : list (nat * nat) -> list (nat * nat)) := attend ra_base put_radial_base radial_prepare order.

End radial.
Arguments RadialConfig : clear implicits.
Arguments radial_state : clear implicits.

(** * What the mask depends on and always keeps *)

Section claims.
Context {F : Type} `{NumExp F}.
Implicit Types (config : RadialConfig F).

(** ** The mask depends on relative positions only *)

Lemma fold_res_ext {A B C} (f : A -> B -> res A) (g : A -> C -> res A) (h : C -> B) l a : (forall a x, x ∈ l -> f a (h x) = g a x) -> fold_res f a (h <$> l) = fold_res g a l.
Proof.
  revert a. induction l as [|x l IH]; intros a E; [done|]. csimpl. cbn. rewrite E by constructor. destruct (g a x) as [a'|e]; [|done]. cbn.
  apply IH. intros. apply E. by constructor.
Qed.

Lemma zip_fmap_snd {A B C} (l : list A) (g : B -> C) (k : list B) : zip l (g <$> k) = (fun p => (p.1, g p.2)) <$> zip l k.
Proof. revert k. induction l as [|x l IH]; intros [|y k]; csimpl; try done. by rewrite IH. Qed.

Lemma py_suffix_fmap {A B} (g : A -> B) n l : py_suffix n (g <$> l) = g <$> py_suffix n l.
Proof. unfold py_suffix. destruct (0 <? n); by rewrite ?length_fmap, fmap_drop. Qed.

Lemma build_radial_relative layout1 layout2 q_len kv config d : frame_seqlen layout1 = frame_seqlen layout2 -> query_frames layout1 = query_frames layout2 ->
  positional_frame_ids layout2 = (fun f => f + d) <$> positional_frame_ids layout1 ->
  (fun f => f <? radial_dense_sink_frames config) <$> global_frame_ids layout1 = (fun f => f <? radial_dense_sink_frames config) <$> global_frame_ids layout2 ->
  build_radial_block_mask layout2 q_len kv config = build_radial_block_mask layout1 q_len kv config.
Proof.
  intros Efs Eqf Epos Esk. unfold build_radial_block_mask. rewrite <- Efs, <- Eqf, Epos, <- Esk, py_suffix_fmap, !length_fmap.
  assert (length (global_frame_ids layout2) = length (global_frame_ids layout1)) as ->.
  { pose proof (f_equal length Esk) as E. rewrite !length_fmap in E. lia. }
  destruct (negb _); [done|]. f_equal. rewrite !zip_fmap_snd. apply fold_res_ext. intros mask [qi qp] _.
  apply fold_res_ext. intros mask' [ki [sink kp]] _. cbn. by replace (qp + d - (kp + d)) with (qp - kp) by lia.
Qed.

Lemma signature_mask config layout1 layout2 q_len kv heads sg :
  layout_signature config layout1 q_len heads = Ok sg -> layout_signature config layout2 q_len heads = Ok sg ->
  frame_seqlen layout1 = frame_seqlen layout2 -> query_frames layout1 = query_frames layout2 ->
  build_radial_block_mask layout2 q_len kv config = build_radial_block_mask layout1 q_len kv config.
Proof.
  unfold layout_signature. intros E1 E2 Efs Eqf. apply bind_Ok_inv in E1 as (a1 & _ & E1). apply bind_Ok_inv in E2 as (a2 & _ & E2).
  injection E1 as <-. injection E2 as Epos Esk. apply (build_radial_relative _ _ _ _ _ (a2 - a1)); [done|done| |done].
  clear -Epos. revert Epos. generalize (positional_frame_ids layout2). induction (positional_frame_ids layout1) as [|x l IH]; intros [|y k] E; try done.
  csimpl in E. injection E as E0 E. csimpl. f_equal; [lia|by apply IH].
Qed.

(** ** Runs *)

Section runs.
Context (garbage : nat) (order : list (nat * nat) -> list (nat * nat)) (config : RadialConfig F) (fs : Z) (Hfs : 0 < fs).
Local Abbreviation event := (backend_event F).
Local Abbreviation run := (backend_run ra_base put_radial_base radial_begin_forward (radial_attend garbage order)).

(** Forwards of one frame length, calls whose segments have lengths. *)
Definition one_frame_length (e : event) : Prop :=
  match e with
  | Forward g => g_frame_seqlen g = fs
  | Refreshing _ => True
  | Attending call => forall segs, key_segments call = Some segs -> Forall (fun seg => 0 <= seg.2) segs
  end.

(** What a call caches for its layout. *)
Definition radial_entry (layout : VisibleLayout) (q_len kv : Z) (heads : nat) : res (option (SparseAttentionPlan F)) :=
  mask ← build_radial_block_mask layout q_len kv config;
  Ok (if forallb (forallb id) mask then None
      else Some (plan_from_block_mask garbage (replicate heads mask) (radial_block config) kv (radial_block config) None)).

(** Every cached plan is one a call of its signature and frame count builds. *)
Record radial_inv (s : radial_state F) : Prop := {
  ri_config : ra_config s = config;
  ri_geometry : forall g, b_geometry (ra_base s) = Some g -> g_frame_seqlen g = fs;
  ri_plans : forall nf sg cached, ra_plans s !! nf = Some (sg, cached) -> exists layout q_len heads,
    num_frames layout = nf /\ frame_seqlen layout = fs /\ query_frames layout = q_len / fs /\ layout_signature config layout q_len heads = Ok sg /\
    radial_entry layout q_len (nf * fs) heads = Ok cached }.

Lemma radial_layout s call layout b : radial_inv s -> one_frame_length (Attending call) -> layout_of call (ra_base s) = Ok (Some layout, b) ->
  b = ra_base s /\ frame_seqlen layout = fs /\ query_frames layout = c_q_len call / fs /\ c_kv_len call = num_frames layout * fs.
Proof.
  intros Hi He HL. pose proof HL as HL'. unfold layout_of in HL'. destruct (b_geometry (ra_base s)) as [g|] eqn:Eg; [|done]. destruct (key_segments call) as [segs|] eqn:Es; [|done].
  destruct (_ || _); [done|]. destruct (negb _); [done|]. apply bind_Ok_inv in HL' as ([l|] & El & HL'); [|done]. injection HL' as -> ->.
  destruct (visible_layout_query _ _ _ _ _ El) as [_ Eq]. assert (frame_seqlen layout = fs) as Ef.
  { rewrite <- (ri_geometry _ Hi g Eg). unfold visible_layout, query_chunk_index, py_div, py_mod in El. repeat (case_match; try discriminate; cbn in El). all: by injection El as <-. }
  split; [done|]. split; [done|]. split; [by rewrite <- Ef|]. rewrite <- (layout_of_kv_len _ _ _ _ _ HL Es (He _ Es)) by (by rewrite Ef). unfold kv_len. by rewrite Ef.
Qed.

(** Looking a plan up gives what building it gives. *)
Lemma radial_prepare_fresh s call layout : radial_inv s -> frame_seqlen layout = fs -> query_frames layout = c_q_len call / fs -> c_kv_len call = num_frames layout * fs ->
  (r ← radial_prepare garbage call layout s; Ok r.1) = (r ← radial_prepare garbage call layout (mkRadial (ra_base s) config ∅); Ok r.1) /\
  (forall r s', radial_prepare garbage call layout s = Ok (r, s') -> radial_inv s' /\ ra_base s' = ra_base s).
Proof.
  intros [Ec Hg Hp] Ef Eq Ekv. unfold radial_prepare. cbn [ra_config ra_plans ra_base]. rewrite Ec. destruct (_ <=? _).
  { split; [done|]. intros r s' [= <- <-]. by split. }
  destruct (layout_signature config layout (c_q_len call) (num_local_heads call)) as [sg|e] eqn:Esg; [|done]. cbn [mbind res_bind].
  assert (cache_get (∅ : LayoutCache radial_signature (option (SparseAttentionPlan F))) (num_frames layout) sg = None) as -> by (unfold cache_get, LayoutCache; by rewrite lookup_empty).
  assert ((mask ← build_radial_block_mask layout (c_q_len call) (c_kv_len call) config; Ok (if forallb (forallb id) mask then None
      else Some (plan_from_block_mask (F:=F) garbage (replicate (num_local_heads call) mask) (radial_block config) (c_kv_len call) (radial_block config) None))) =
    radial_entry layout (c_q_len call) (num_frames layout * fs) (num_local_heads call)) as Ee by (unfold radial_entry; by rewrite Ekv).
  assert (forall c, radial_entry layout (c_q_len call) (num_frames layout * fs) (num_local_heads call) = Ok c ->
    radial_inv (mkRadial (ra_base s) config (cache_put (ra_plans s) (num_frames layout) sg c))) as Hput.
  { intros c Hc. split; [done|done|]. intros nf sg0 c0 [[-> [= -> ->]]|[_ E0]]%cache_put_lookup; [|eauto]. by exists layout, (c_q_len call), (num_local_heads call). }
  unfold cache_get. destruct (ra_plans s !! num_frames layout) as [[sg' cached]|] eqn:Epl; [case_decide as Es|].
  - subst sg'. destruct (Hp _ _ _ Epl) as (l0 & q0 & h0 & En & Ef0 & Eq0 & Esg0 & Ec0). split; [|intros r s' [= <- <-]; by split].
    assert (q0 = c_q_len call /\ h0 = num_local_heads call) as [-> ->].
    { unfold layout_signature in Esg0, Esg. apply bind_Ok_inv in Esg0 as (? & _ & Esg0). apply bind_Ok_inv in Esg as (? & _ & Esg). split; congruence. }
    assert (radial_entry layout (c_q_len call) (num_frames layout * fs) (num_local_heads call) = Ok cached) as Ecached.
    { rewrite <- Ec0. unfold radial_entry. by rewrite (signature_mask config l0 layout _ _ _ _ Esg0 Esg) by congruence. }
    rewrite Ecached in Ee. destruct (build_radial_block_mask _ _ _ _) as [mask|]; [|done]. cbn [mbind res_bind fst snd] in *. injection Ee as <-. done.
  - destruct (build_radial_block_mask _ _ _ _) as [mask|] eqn:Em; [|done]. cbn [mbind res_bind fst snd] in *. split; [done|]. intros r s' [= <- <-]. split; [|done].
    apply Hput. by rewrite <- Ee.
  - destruct (build_radial_block_mask _ _ _ _) as [mask|] eqn:Em; [|done]. cbn [mbind res_bind fst snd] in *. split; [done|]. intros r s' [= <- <-]. split; [|done].
    apply Hput. by rewrite <- Ee.
Qed.

Lemma radial_inv_base s b : radial_inv s -> b_geometry b = b_geometry (ra_base s) -> radial_inv (put_radial_base b s).
Proof. intros [] E. split; [done|by rewrite <- E in *|done]. Qed.

(** A call keeps the invariant and gives what it gives with an empty cache. *)
Lemma radial_attend_fresh s call : radial_inv s -> one_frame_length (Attending call) ->
  (r ← radial_attend garbage order call s; Ok r.1) = (r ← radial_attend garbage order call (mkRadial (ra_base s) config ∅); Ok r.1) /\
  (forall r s', radial_attend garbage order call s = Ok (r, s') -> radial_inv s').
Proof.
  intros Hi He. unfold radial_attend, attend. cbn [ra_base]. destruct (layout_of call (ra_base s)) as [[[layout|] b]|e] eqn:HL; [| |done]; cbn [mbind res_bind fst snd].
  2:{ split; [done|]. intros r s' [= _ <-]. apply radial_inv_base; [done|]. by eapply layout_of_same. }
  destruct (radial_layout _ _ _ _ Hi He HL) as (-> & Ef & Eq & Ekv). assert (put_radial_base (ra_base s) s = s) as -> by (by destruct s).
  change (put_radial_base (ra_base s) (mkRadial (ra_base s) config ∅)) with (mkRadial (ra_base s) config ∅).
  destruct (radial_prepare_fresh s call layout Hi Ef Eq Ekv) as [Hsame Hinv]. split.
  - destruct (radial_prepare garbage call layout s) as [[ex s1]|e] eqn:E1, (radial_prepare garbage call layout (mkRadial (ra_base s) config ∅)) as [[ex2 s2]|e2]; try done; cbn in Hsame; simplify_eq; [|done].
    cbn [mbind res_bind fst snd]. destruct ex2 as [ex2|]; [|done]. by destruct (sparse_attention _ _ _ _ _ _ _ _ _ _).
  - intros r s' E. apply bind_Ok_inv in E as ([ex s1] & E1 & E). destruct (Hinv _ _ E1) as [Hi1 Eb]. cbn [fst snd] in E. destruct ex as [ex|].
    + apply bind_Ok_inv in E as (out & _ & E). injection E as _ <-. apply radial_inv_base; [done|]. apply record_density_same.
    + injection E as _ <-. apply radial_inv_base; [done|]. apply record_density_same.
Qed.

Lemma radial_inv_run es s s' : Forall one_frame_length es -> radial_inv s -> run es s = Ok s' -> radial_inv s'.
Proof.
  intros Hes. revert s. induction Hes as [|e es He Hes IH]; intros s Hi E; cbn in E; [by injection E as <-|]. apply bind_Ok_inv in E as (s1 & E1 & E). apply (IH s1); [|done].
  destruct e as [g|u|call]; cbn in E1.
  - injection E1 as <-. destruct Hi. split; [done| |done]. by intros g' [= <-].
  - injection E1 as <-. by apply radial_inv_base.
  - apply bind_Ok_inv in E1 as ([r s2] & E1 & [= <-]). by eapply radial_attend_fresh.
Qed.

End runs.

(** C28: After any run of forwards, refreshes and calls with frames of one
    length, a call gives exactly the output it gives with an empty cache of
    plans: a plan found under the relative signature is the plan the method
    would build.  (The signature itself has neither the frame length nor the
    number of query frames; with one frame length the latter follows from the
    number of queries.) *)
Theorem radial_cache_sound garbage order config fs es s call : 0 < fs -> Forall (one_frame_length fs) (es ++ [Attending call]) ->
  backend_run ra_base put_radial_base radial_begin_forward (radial_attend garbage order) es (radial_init config) = Ok s ->
  (r ← radial_attend garbage order call s; Ok r.1) = (r ← radial_attend garbage order call (mkRadial (ra_base s) config ∅); Ok r.1).
Proof.
  intros Hfs [Hes He]%Forall_app Hrun. rewrite Forall_singleton in He. refine (proj1 (radial_attend_fresh garbage order config fs Hfs s call _ He)).
  apply (radial_inv_run garbage order config fs Hfs es (radial_init config)); [done| |done]. split; [done|done|]. intros nf sg c E. discriminate E.
Qed.

(** ** Own blocks *)

(** The mask keeps its shape through the loops. *)
Definition shaped (n k : nat) (m : list (list bool)) : Prop := length m = n /\ width m k.

Lemma or_at_shaped n k r0 c0 sh m : shaped n k m -> shaped n k (or_at r0 c0 sh m).
Proof.
  intros [Hl Hw]. unfold or_at. split; [by rewrite length_imap|]. apply Forall_forall. intros r Hr. apply elem_of_lookup_imap in Hr as (i & row & -> & Hrow).
  rewrite length_imap. exact (Forall_lookup_1 _ _ _ _ Hw Hrow).
Qed.

Lemma fold_res_shaped {B} n k (f : list (list bool) -> B -> res (list (list bool))) l m m' :
  (forall m x m', shaped n k m -> f m x = Ok m' -> shaped n k m') -> shaped n k m -> fold_res f m l = Ok m' -> shaped n k m'.
Proof.
  intros Hf. revert m. induction l as [|x l IH]; intros m Hm E; cbn in E; [by injection E as <-|].
  apply bind_Ok_inv in E as (m1 & E1 & E). eapply IH; [|exact E]. by eapply Hf.
Qed.

Lemma radial_pair_shaped n k config fs m q kk m' : shaped n k m -> radial_pair config fs m q kk = Ok m' -> shaped n k m'.
Proof.
  destruct q as [qi qp], kk as [ki [sink kp]]. intros Hm E. cbn in E. apply bind_Ok_inv in E as (kept & _ & E).
  destruct kept; injection E as <-; [by apply or_at_shaped|done].
Qed.

(** C29: Whatever the layout, a mask that is built lets every
    query see its own token. *)
Theorem radial_keeps_own layout q_len kv config mask m : 0 < radial_block config -> q_len <= kv -> 0 <= m < q_len ->
  build_radial_block_mask layout q_len kv config = Ok mask ->
  at2 mask (Z.to_nat (m / radial_block config)) (Z.to_nat ((kv - q_len + m) / radial_block config)) = Some true.
Proof.
  intros Hb Hk Hm E. unfold build_radial_block_mask in E. destruct (negb _); [done|]. apply bind_Ok_inv in E as (m1 & E1 & E).
  cbn [block_bounds] in E. injection E as <-. fold (own_mask q_len kv (radial_block config)).
  destruct (token_block q_len (radial_block config) m Hb Hm) as [H1 _]. destruct (token_block kv (radial_block config) (kv - q_len + m) Hb ltac:(lia)) as [H3 _].
  assert (shaped (Z.to_nat (num_blocks q_len (radial_block config))) (Z.to_nat (num_blocks kv (radial_block config))) m1) as [Hl Hw].
  { eapply fold_res_shaped; [|split; [apply length_replicate|]|exact E1].
    - intros m0 q m2 Hm0 E0. eapply fold_res_shaped; [|exact Hm0|exact E0]. intros ma xa mb Hma Emb. exact (radial_pair_shaped _ _ _ _ _ _ _ _ Hma Emb).
    - apply Forall_replicate. apply length_replicate. }
  destruct (at2_width m1 _ (Z.to_nat (m / radial_block config)) (Z.to_nat ((kv - q_len + m) / radial_block config)) Hw) as [x Ex]; [lia|lia|].
  unfold mask_or2. rewrite (zip_orb_at _ _ _ _ x true Ex); [by rewrite orb_true_r|]. by apply own_mask_token.
Qed.

End claims.

(** ** Concrete masks *)

Section runs.
#[local] Existing Instance NumExp_one.

Definition rx_config : RadialConfig Qc := mkRadialConfig 8 1%Qc 1.

(** Frames of 15 tokens: the last three of five visible frames are queried. *)
Definition rx_layout (first : Z) : VisibleLayout :=
  let frames := [0; first; first + 1; first + 2; first + 3] in mkLayout frames [-1; -1; 0; 0; 0] frames 15 3 3 1.

(** Frames of four tokens; every call sees the two last frames, the last one
    its own. *)
Definition rx_tensor : tensor4 Qc := fun _ n _ => replicate 16 (of_Z n).
Definition rx_call (frame : Z) : SparseAttentionCall Qc := mkCall 0 rx_tensor rx_tensor rx_tensor 1 4 8 16 (Some [(4 * (frame - 1), 8)]) 0 1 1%Qc None.
Definition rx_forward (frame : Z) : backend_event Qc := Forward (mkGeometry 4 1 (4 * frame) 2 2).
Definition rx_events : list (backend_event Qc) := [rx_forward 3; Attending (rx_call 3); rx_forward 4].
Definition rx_small : RadialConfig Qc := mkRadialConfig 2 1%Qc 1.

(** The second call finds the plan of the first and gives what it would build. *)
Lemma radial_cache_sound_witness : exists s,
  backend_run ra_base put_radial_base radial_begin_forward (radial_attend 0 id) rx_events (radial_init rx_small) = Ok s /\ size (ra_plans s) = 1%nat /\
  (r ← radial_attend 0 id (rx_call 4) s; Ok r.1) = (r ← radial_attend 0 id (rx_call 4) (mkRadial (ra_base s) rx_small ∅); Ok r.1).
Proof.
  destruct (backend_run ra_base put_radial_base radial_begin_forward (radial_attend 0 id) rx_events (radial_init rx_small)) as [s|e] eqn:E; [|vm_compute in E; discriminate].
  exists s. split; [done|]. split; [vm_compute in E; injection E as <-; vm_compute; reflexivity|]. apply (radial_cache_sound 0 id rx_small 4 rx_events s (rx_call 4)); [lia| |exact E].
  assert (forall frame, one_frame_length 4 (Attending (rx_call frame))) as Hcall by (intros frame segs [= <-]; apply Forall_singleton; cbn; lia).
  unfold rx_events. cbn [app]. repeat (apply Forall_cons_2; [done || apply Hcall|]). apply Forall_nil_2.
Defined.

Lemma radial_keeps_own_witness : exists mask, build_radial_block_mask (mkLayout [1; 2] [0; 0] [1; 2] 4 1 1 2) 4 8 rx_config = Ok mask /\
  at2 mask 0 0 = Some true.
Proof.
  destruct (build_radial_block_mask (mkLayout [1; 2] [0; 0] [1; 2] 4 1 1 2) 4 8 rx_config) as [mask|e] eqn:E; [|vm_compute in E; discriminate].
  exists mask. split; [done|]. apply (radial_keeps_own (mkLayout [1; 2] [0; 0] [1; 2] 4 1 1 2) 4 8 rx_config mask 0); [vm_compute; done|lia|lia|exact E].
Defined.

(** Video frame 0 is not always attended: with frames of
    15 tokens and blocks of 8, query block 3 sees no block of frame 0, which
    covers key blocks 0 and 1. *)
Theorem radial_drops_sink :
  exists mask, build_radial_block_mask (rx_layout 1) 45 75 rx_config = Ok mask /\
    at2 mask 3 0 = Some false /\ at2 mask 3 1 = Some false /\ at2 mask 2 0 = Some true.
Proof.
  destruct (build_radial_block_mask (rx_layout 1) 45 75 rx_config) as [mask|e] eqn:E; [|vm_compute in E; discriminate].
  exists mask. split; [done|]. vm_compute in E. injection E as <-. by vm_compute.
Qed.

(** The cache does not see the length of a frame: after a call with four frames
    of 8 tokens, two of them queried, a call with four frames of 16 tokens and
    one queried gets its plan, and no query reads a key from 32 on; its own keys
    are the last 16 of 64. *)
Definition rx_wide (q kv : Z) : SparseAttentionCall Qc := mkCall 0 rx_tensor rx_tensor rx_tensor 1 q kv 16 (Some [(0, kv)]) 0 1 1%Qc None.

Definition rx_first : res (option (SparseAttentionExecution Qc) * radial_state Qc) :=
  radial_prepare 0 (rx_wide 16 32) (mkLayout [1; 2; 3; 4] [-2; -1; 0; 0] [1; 2; 3; 4] 8 1 2 2) (radial_init rx_small).
Definition rx_second (s1 : radial_state Qc) : res (option (SparseAttentionExecution Qc) * radial_state Qc) :=
  radial_prepare 0 (rx_wide 16 64) (mkLayout [1; 2; 3; 4] [-3; -2; -1; 0] [1; 2; 3; 4] 16 1 1 3) s1.
Definition rx_reads_below (ex : SparseAttentionExecution Qc) (n : Z) : bool := forallb (fun q => forallb (fun r => snd r <=? n) (kept_ranges (e_plan ex) 0 q)) (seq 0 8).

Lemma radial_plans_ignore_frames : exists ex1 s1 ex2 s2, rx_first = Ok (Some ex1, s1) /\ rx_second s1 = Ok (Some ex2, s2) /\ rx_reads_below ex2 32 = true.
Proof.
  assert (match rx_first with Ok (Some _, s1) => match rx_second s1 with Ok (Some ex2, _) => rx_reads_below ex2 32 | _ => false end | _ => false end = true) as E by (vm_compute; reflexivity).
  destruct rx_first as [[[ex1|] s1]|e]; [|discriminate..]. destruct (rx_second s1) as [[[ex2|] s2]|e] eqn:E2; [|discriminate..]. by exists ex1, s1, ex2, s2.
Qed.
End runs.
