(* ===== verification/Osa.v ===== *)
(** * Osa: Oracle Sparse Attention

    Models [osa.py] of the sparse attention package: the measurement of
    attention mass on chunk 0, the frozen order of key tiles, the plan of a
    chunk under its density budget, and the state machine around them.
    Sorting of the tensor library is a parameter ([TorchOrder]) because ties
    are unspecified; so is its dense attention. *)

From stdpp Require Import pretty.
From S2P Require Import Prelude Num SparsePlan SparseKernel SparseContext SparseBackend.

Open Scope Z_scope.

(** ** Sorting in the tensor library *)

Class TorchOrder (F : Type) := {
  argsort_desc : list F -> list Z;
  argsort_asc : list F -> list Z;
  topk : list F -> nat -> list Z }.

(** The value at an index. *)
Definition nth_num {F} `{Num F} (l : list F) (i : Z) : F := default nzero (l !! Z.to_nat i).

(** Sorting lists the indices by value; the first [k] are the top [k]. *)
Class TorchOrderLaws (F : Type) `{Num F} `{!TorchOrder F} := {
  argsort_desc_perm l : argsort_desc l ≡ₚ zrange 0 (Z.of_nat (length l));
  argsort_desc_sorted l : StronglySorted (fun i j => nleb (nth_num l j) (nth_num l i) = true) (argsort_desc l);
  argsort_asc_perm l : argsort_asc l ≡ₚ zrange 0 (Z.of_nat (length l));
  argsort_asc_sorted l : StronglySorted (fun i j => nleb (nth_num l i) (nth_num l j) = true) (argsort_asc l);
  topk_nodup l k : NoDup (topk l k) /\ topk l k ⊆ zrange 0 (Z.of_nat (length l));
  topk_length l k : (k <= length l)%nat -> length (topk l k) = k;
  topk_best l k i j : i ∈ topk l k -> j ∈ zrange 0 (Z.of_nat (length l)) -> j ∉ topk l k -> nleb (nth_num l j) (nth_num l i) = true }.

Section osa.
Context {F : Type} `{NumExp F} `{!TorchOrder F}.

(** ** Configuration *)

Record OsaConfig := mkOsaConfig {
  oc_density : option F;
  oc_sparsity : option F;
  sink_chunks : Z;
  sink_latent_frames : option Z;
  num_recent_frames : Z;
  keep_own_chunk_full : bool;
  keep_sink_full : bool;
  keep_recent_frames_full : bool;
  dense_first_steps : Z;
  dense_cache_update : bool;
  chunk_schedule : string;
  schedule_num_frames : option Z;
  schedule_window_frames : Z;
  schedule_floor_density : F;
  demand_weighted : bool;
  demand_w_own : F;
  demand_w_recent : F;
  demand_w_sink : F;
  demand_w_hist_scale : F;
  charge_exempt_frames : bool;
  replan_each_chunk : bool;
  replan_query_stride : Z;
  flat_row_dense : bool;
  flat_row_retention : F;
  flat_row_max_fraction : F;
  spatial_tile : Z;
  oc_query_tile : Z;
  calibration_query_stride : Z }.

(** ** Measuring attention mass *)

(** [torch.softmax]. *)
Definition softmax (l : list F) : list F :=
  let e := nexp <$> l in let s := nsum e in (fun x => ndiv x s) <$> e.

Definition vadd (a b : list F) : list F := zip_with nadd a b.

(** Sum of the elements of tile [t] of a row cut into [tiles] tiles. *)
Definition tile_sums (tile : Z) (tiles : Z) (row : list F) : list F :=
  (fun t => nsum (take (Z.to_nat tile) (drop (Z.to_nat (t * tile)) row))) <$> zrange 0 tiles.

(** Sum over the frames of a row of [num_frames * frame_seqlen] probabilities. *)
Definition fold_frames (nf fs : Z) (row : list F) : list F :=
  (fun o => nsum ((fun f => nth_num row (f * fs + o)) <$> zrange 0 nf)) <$> zrange 0 fs.

(** Scores of query row [m] of head [h] against every key, batch 0. *)
Definition score_row (q k : tensor4 F) (kv : Z) (scale : F) (h : nat) (m : Z) : list F :=
  (fun n => nmul (dot (q 0%nat m h) (k 0%nat n h)) scale) <$> zrange 0 kv.

(** [index_add_] of the rows of one head into their buckets. *)
Definition index_add (buckets : nat) (acc : list (list F)) (idx : list Z) (rows : list (list F)) : list (list F) :=
  foldl (fun acc br => match acc !! Z.to_nat br.1 with
                       | Some a => <[Z.to_nat br.1 := vadd a br.2]> acc
                       | None => acc
                       end) acc (zip idx rows).

(** Rows of a list in blocks of [n]: the loop over query blocks. *)
Definition blocks_of {A} (n : nat) (l : list A) : list (list A) :=
  (fun i => take n (drop (i * n) l)) <$> seq 0 ((length l + n - 1) / n).

Definition measure_section_tile_mass (q k : tensor4 F) (heads : nat) (q_len : Z) (layout : VisibleLayout) (scale : F)
    (query_stride qt st : Z) : list (list (list F)) :=
  let fs := frame_seqlen layout in
  let k_tiles := (fs + st - 1) / st in
  let q_tiles := (fs + qt - 1) / qt in
  let positions := zrange_step 0 q_len query_stride in
  let bucket m := (m mod fs) / qt in
  let counts := (fun b => of_Z (Z.of_nat (length (filter (fun m => bucket m = b) positions)))) <$> zrange 0 q_tiles in
  (fun h =>
    let per_tile m :=
      let probs := softmax (score_row q k (kv_len layout) scale h m) in
      let folded := fold_frames (num_frames layout) fs probs in
      let padded := folded ++ replicate (Z.to_nat (k_tiles * st) - length folded) nzero in
      tile_sums st k_tiles padded in
    let mass := foldl (fun mass block => index_add (Z.to_nat q_tiles) mass (bucket <$> block) (per_tile <$> block))
      (replicate (Z.to_nat q_tiles) (zeros (Z.to_nat k_tiles))) (blocks_of 256 positions) in
    zip_with (fun row c => (fun x => ndiv x (nmax c none)) <$> row) mass counts) <$> seq 0 heads.

(** The fold is a product with a 0/1 matrix, so tiles of a frame are summed. *)
Definition measure_visible_tile_mass (q k : tensor4 F) (heads : nat) (q_len : Z) (layout : VisibleLayout) (scale : F)
    (query_stride qt st : Z) : list (list (list (list F))) :=
  let fs := frame_seqlen layout in
  let nf := num_frames layout in
  let k_tiles := (fs + st - 1) / st in
  let q_tiles := (fs + qt - 1) / qt in
  let positions := zrange_step 0 q_len query_stride in
  let bucket m := (m mod fs) / qt in
  let counts := (fun b => of_Z (Z.of_nat (length (filter (fun m => bucket m = b) positions)))) <$> zrange 0 q_tiles in
  let block := Z.max 16 (Z.min 256 (800000000 / (Z.of_nat heads * kv_len layout * 4))) in
  (fun h =>
    let scaled b m h := (fun x => nmul x scale) <$> q b m h in
    let per_tile m :=
      let probs := softmax (score_row scaled k (kv_len layout) none h m) in
      concat ((fun f => (fun t => nsum ((fun o => nth_num probs (f * fs + o)) <$> filter (fun o => o / st = t) (zrange 0 fs)))
        <$> zrange 0 k_tiles) <$> zrange 0 nf) in
    let mass := foldl (fun mass block => index_add (Z.to_nat q_tiles) mass (bucket <$> block) (per_tile <$> block))
      (replicate (Z.to_nat q_tiles) (zeros (Z.to_nat (nf * k_tiles)))) (blocks_of (Z.to_nat block) positions) in
    let mass := zip_with (fun row c => (fun x => ndiv x (nmax c none)) <$> row) mass counts in
    rows_of (Z.to_nat nf) (Z.to_nat k_tiles) <$> mass) <$> seq 0 heads.

(** ** The density schedule *)

Definition flops_matched_densities (nframes fpb window : Z) (mean_density floor_density : F) : list F :=
  let counts := zrange_step (2 * fpb) (nframes + 1) fpb in
  let kv := (fun c => if window <? 0 then c else Z.min c window) <$> counts in
  let alphas := (fun c => ndiv none (nsqrt (of_Z c))) <$> counts in
  let target := nsum ((fun k => nmul mean_density (of_Z k)) <$> kv) in
  let base := nsum ((fun k => nmul floor_density (of_Z k)) <$> kv) in
  let weighted := nsum (zip_with (fun a k => nmul a (of_Z k)) alphas kv) in
  if nis0 weighted then none :: replicate (length counts) mean_density
  else
    let beta := ndiv (nsub target base) weighted in
    none :: ((fun a => nmin none (nmax floor_density (nadd floor_density (nmul a beta)))) <$> alphas).

(** Values of a list under a mask. *)
Definition masked {A} (m : list bool) (l : list A) : list A := omap (fun bl : bool * A => if bl.1 then Some bl.2 else None) (zip m l).

Definition zmin_list (l : list Z) : res Z := match l with [] => Raise ValueError | x :: l => Ok (foldl Z.min x l) end.

Definition frame_ages (layout : VisibleLayout) (query_chunk_offset : Z) : res (list Z) :=
  let own := frames_of_offset layout query_chunk_offset in
  own_start ← zmin_list (masked own (global_frame_ids layout));
  Ok ((fun f => own_start - f) <$> global_frame_ids layout).

(** ** State *)

Inductive plan_entry :=
| SinglePlan (p : BlockSparsePlan F) (flat_index : option (list Z))
| WindowPlans (ps : list (option (BlockSparsePlan F))).

Definition signature : Type := option KeySegments * Z * Z * Z.

Record osa_state := mkOsa {
  o_base : base_state F;
  o_density : F;
  o_config : OsaConfig;
  o_schedule : option (list F);
  section_mass : gmap Z (list (list (list F)));
  section_order : gmap Z (list (list (list Z)));
  retention : gmap Z (list (list (list F)));
  o_plans : LayoutCache signature (option plan_entry);
  last_chunk_index : Z;
  forwards_this_chunk : Z;
  logged_summary : bool;
  pending_measure_charge : F }.

Definition put_base b s := mkOsa b (o_density s) (o_config s) (o_schedule s) (section_mass s) (section_order s) (retention s) (o_plans s) (last_chunk_index s) (forwards_this_chunk s) (logged_summary s) (pending_measure_charge s).
Definition put_schedule x s := mkOsa (o_base s) (o_density s) (o_config s) x (section_mass s) (section_order s) (retention s) (o_plans s) (last_chunk_index s) (forwards_this_chunk s) (logged_summary s) (pending_measure_charge s).
Definition put_mass x s := mkOsa (o_base s) (o_density s) (o_config s) (o_schedule s) x (section_order s) (retention s) (o_plans s) (last_chunk_index s) (forwards_this_chunk s) (logged_summary s) (pending_measure_charge s).
Definition put_order x s := mkOsa (o_base s) (o_density s) (o_config s) (o_schedule s) (section_mass s) x (retention s) (o_plans s) (last_chunk_index s) (forwards_this_chunk s) (logged_summary s) (pending_measure_charge s).
Definition put_retention x s := mkOsa (o_base s) (o_density s) (o_config s) (o_schedule s) (section_mass s) (section_order s) x (o_plans s) (last_chunk_index s) (forwards_this_chunk s) (logged_summary s) (pending_measure_charge s).
Definition put_plans x s := mkOsa (o_base s) (o_density s) (o_config s) (o_schedule s) (section_mass s) (section_order s) (retention s) x (last_chunk_index s) (forwards_this_chunk s) (logged_summary s) (pending_measure_charge s).
Definition put_chunk c f s := mkOsa (o_base s) (o_density s) (o_config s) (o_schedule s) (section_mass s) (section_order s) (retention s) (o_plans s) c f (logged_summary s) (pending_measure_charge s).
Definition put_logged x s := mkOsa (o_base s) (o_density s) (o_config s) (o_schedule s) (section_mass s) (section_order s) (retention s) (o_plans s) (last_chunk_index s) (forwards_this_chunk s) x (pending_measure_charge s).
Definition put_charge x s := mkOsa (o_base s) (o_density s) (o_config s) (o_schedule s) (section_mass s) (section_order s) (retention s) (o_plans s) (last_chunk_index s) (forwards_this_chunk s) (logged_summary s) x.

Definition osa_init (config : OsaConfig) : res osa_state :=
  if bool_decide (is_Some (oc_density config)) && bool_decide (is_Some (oc_sparsity config)) then Raise ValueError
  else
    let density := match oc_density config with
                   | Some d => Some d
                   | None => match oc_sparsity config with Some s => Some (nsub none s) | None => None end
                   end in
    match density with
    | None => Raise ValueError
    | Some density =>
      if negb (nltb nzero density && nleb density none) then Raise ValueError
      else if negb (bool_decide (chunk_schedule config ∈ ["constant"; "flops_matched"])) then Raise ValueError
      else if bool_decide (chunk_schedule config = "flops_matched")
          && match schedule_num_frames config with None => true | Some n => n =? 0 end then Raise ValueError
      else if replan_each_chunk config && (demand_weighted config || flat_row_dense config) then Raise ValueError
      else Ok (mkOsa base_init density config None ∅ ∅ ∅ ∅ (-1) 0 false nzero)
    end.

Definition osa_reset (s : osa_state) : osa_state :=
  put_charge nzero (put_logged false (put_chunk (-1) 0 (put_plans ∅ (put_retention ∅ (put_order ∅ (put_mass ∅ s)))))).

Definition osa_on_begin_forward (g : ChunkGeometry) (s : osa_state) : res osa_state :=
  chunk_index ← query_chunk_index g;
  let s := if chunk_index <? last_chunk_index s then osa_reset s else s in
  let f := if negb (chunk_index =? last_chunk_index s) then 0 else forwards_this_chunk s + 1 in
  Ok (put_chunk chunk_index f s).

Definition osa_begin_forward (g : ChunkGeometry) (s : osa_state) : res osa_state :=
  osa_on_begin_forward g (put_base (set_geometry g (o_base s)) s).

(** ** Planning *)

Definition osa_sink_frames (s : osa_state) : res Z :=
  match sink_latent_frames (o_config s) with
  | Some n => Ok n
  | None => match b_geometry (o_base s) with
            | Some g => Ok (sink_chunks (o_config s) * g_frames_per_block g)
            | None => Raise AttributeError
            end
  end.

Definition mask_or (a b : list bool) : list bool := zip_with orb a b.
Definition recent_mask (ages : list Z) (n : Z) : list bool := (fun a => (0 <? a) && (a <=? n)) <$> ages.

Definition whole_frame_mask (layout : VisibleLayout) (own : list bool) (ages : list Z) (s : osa_state) : res (list bool) :=
  let c := o_config s in
  let full := replicate (length (global_frame_ids layout)) false in
  let full := if keep_own_chunk_full c then mask_or full own else full in
  full ← (if keep_sink_full c then n ← osa_sink_frames s; Ok (mask_or full (sink_frames layout n)) else Ok full);
  Ok (if keep_recent_frames_full c then mask_or full (recent_mask ages (num_recent_frames c)) else full).

Definition call_density (layout : VisibleLayout) (s : osa_state) : res (F * osa_state) :=
  let c := o_config s in
  if bool_decide (chunk_schedule c = "constant") then Ok (o_density s, s)
  else
    let sched := match o_schedule s with
                 | Some l => l
                 | None => flops_matched_densities (default 0 (schedule_num_frames c)) (frames_per_block layout)
                     (schedule_window_frames c) (o_density s) (schedule_floor_density c)
                 end in
    let index := Z.min (Z.max (layout_chunk_index layout) 0) (Z.of_nat (length sched) - 1) in
    d ← or_raise IndexError (sched !! Z.to_nat index);
    Ok (d, put_schedule (Some sched) s).

Definition demand_weights (layout : VisibleLayout) (own : list bool) (ages : list Z) (full : list bool) (s : osa_state) : res (list F) :=
  let c := o_config s in
  sink ← osa_sink_frames s;
  let hist a := nmin (demand_w_recent c) (nmax none (ndiv (demand_w_hist_scale c) (of_Z (Z.max a 1)))) in
  let w (oas : bool * (Z * bool)) :=
    let '(o, (a, sk)) := oas in
    let recent := (0 <? a) && (a <=? num_recent_frames c) in
    if sk && negb o && negb recent then demand_w_sink c
    else if recent then demand_w_recent c
    else if o then demand_w_own c else hist a in
  let weights := w <$> zip own (zip ages (sink_frames layout sink)) in
  Ok (masked (negb <$> full) weights).

(** Query rows below the retention threshold, worst first, capped. *)
Definition flat_rows (ret : option (list (list (list F)))) (k_ref : Z) (s : osa_state) : list Z :=
  match ret with
  | None => []
  | Some r =>
    let c := o_config s in
    let q_tiles := length (default [] (head r)) in
    let per_row := (fun t => ndiv (nsum ((fun h => nth_num (default [] (h !! t)) (k_ref - 1)) <$> r)) (of_Z (Z.of_nat (length r)))) <$> seq 0 q_tiles in
    let below := (fun x => nltb x (flat_row_retention c)) <$> per_row in
    let cap := ntrunc (nmul (of_Z (Z.of_nat q_tiles)) (flat_row_max_fraction c)) in
    if (cap =? 0) || negb (existsb id below) then []
    else
      let rows := masked below (zrange 0 (Z.of_nat q_tiles)) in
      if cap <? Z.of_nat (length rows)
      then (fun i => default 0 (rows !! Z.to_nat i)) <$> take (Z.to_nat cap) (argsort_asc (nth_num per_row <$> rows))
      else rows
  end.

Definition flat_token_index (layout : VisibleLayout) (rows : list Z) (s : osa_state) : option (list Z) :=
  match rows with
  | [] => None
  | _ =>
    let qt := oc_query_tile (o_config s) in
    let fs := frame_seqlen layout in
    Some (zrange 0 (query_frames layout) ≫= fun frame => rows ≫= fun row =>
      zrange (frame * fs + row * qt) (frame * fs + Z.min ((row + 1) * qt) fs))
  end.

Definition num_full (full : list bool) : Z := Z.of_nat (length (filter (fun b => b = true) full)).
Definition num_other (layout : VisibleLayout) (full : list bool) : Z := num_frames layout - num_full full.

(** What is left of the budget, or [None] when everything is kept. *)
Definition pattern_budget (layout : VisibleLayout) (full : list bool) (density : F) (s : osa_state) : option F :=
  let fs := frame_seqlen layout in
  let budget := nmul (nmul density (of_Z (num_frames layout))) (of_Z fs) in
  let budget := if charge_exempt_frames (o_config s) then nsub budget (of_Z (num_full full * fs)) else budget in
  if (num_other layout full =? 0) || nleb (of_Z (num_other layout full * fs)) budget then None else Some budget.

(** Offsets of the frames a mask selects. *)
Definition frame_offsets (m : list bool) (layout : VisibleLayout) : list Z :=
  (fun f => f * frame_seqlen layout) <$> masked m (zrange 0 (num_frames layout)).

Definition chunk_plan (layout : VisibleLayout) (order : list (list (list Z))) (query_chunk_offset : Z) (ret : option (list (list (list F))))
    (s : osa_state) : res ((option (BlockSparsePlan F) * list Z) * osa_state) :=
  let c := o_config s in
  let fs := frame_seqlen layout in
  let ts := spatial_tile c in
  let num_tiles := Z.of_nat (length (default [] (head (default [] (head order))))) in
  let own := frames_of_offset layout query_chunk_offset in
  if negb (existsb id own) then Ok ((None, []), s)
  else
    ages ← frame_ages layout query_chunk_offset;
    full ← whole_frame_mask layout own ages s;
    ds ← call_density layout s;
    let s := ds.2 in
    match pattern_budget layout full ds.1 s with
    | None => Ok ((None, []), s)
    | Some budget =>
      let hist := frame_offsets (negb <$> full) layout in
      let whole := frame_offsets full layout in
      if demand_weighted c then
        weights ← demand_weights layout own ages full s;
        let total := nsum weights in
        let counts := (fun w => Z.min num_tiles (Z.max 1 (nround (ndiv (ndiv (nmul budget w) total) (of_Z ts))))) <$> weights in
        let plan := build_block_plan order hist whole fs (oc_query_tile c) ts (kv_len layout) (Some counts) in
        let mean := ndiv (of_Z (foldr Z.add 0 counts)) (of_Z (Z.of_nat (length counts))) in
        let k_ref := Z.min num_tiles (Z.max 1 (nround mean)) in
        Ok ((Some plan, flat_rows ret k_ref s), s)
      else
        let tiles_kept := Z.min (Z.max 1 (nround (ndiv budget (of_Z (num_other layout full * ts))))) num_tiles in
        let plan := build_block_plan ((fun h : list (list Z) => take (Z.to_nat tiles_kept) <$> h) <$> order) hist whole fs (oc_query_tile c) ts (kv_len layout) None in
        Ok ((Some plan, flat_rows ret tiles_kept s), s)
    end.

Definition measured_chunk_plan (call : SparseAttentionCall F) (layout : VisibleLayout) (s : osa_state) :
    res (option (BlockSparsePlan F) * osa_state) :=
  let c := o_config s in
  let ts := spatial_tile c in
  let fs := frame_seqlen layout in
  let nf := num_frames layout in
  let full_tiles := fs / ts in
  let own := frames_of_offset layout 0 in
  if negb (existsb id own) then Ok (None, s)
  else
    ages ← frame_ages layout 0;
    full ← whole_frame_mask layout own ages s;
    ds ← call_density layout s;
    let s := ds.2 in
    match pattern_budget layout full ds.1 s with
    | None => Ok (None, s)
    | Some budget =>
      let stride := replan_query_stride c in
      let mass := measure_visible_tile_mass (query call) (key call) (num_local_heads call) (c_q_len call) layout (softmax_scale call)
        stride (oc_query_tile c) ts in
      let s := put_charge (ndiv none (of_Z stride)) s in
      let total_kept := Z.min (Z.max 1 (nround (ndiv budget (of_Z ts)))) (num_other layout full * full_tiles) in
      let other_offsets := frame_offsets (negb <$> full) layout in
      let pick (row : list (list F)) :=
        let flat := concat (take (Z.to_nat full_tiles) <$> masked (negb <$> full) row) in
        (fun i => default 0 (other_offsets !! Z.to_nat (i / full_tiles)) + i mod full_tiles * ts) <$> topk flat (Z.to_nat total_kept) in
      let tile_starts : list (list (list Z)) := (fun h : list (list (list F)) => pick <$> h) <$> mass in
      Ok (Some (build_measured_block_plan tile_starts (frame_offsets full layout) fs (oc_query_tile c) ts (kv_len layout)), s)
    end.

Definition replan_entry (call : SparseAttentionCall F) (layout : VisibleLayout) (s : osa_state) : res (option plan_entry * osa_state) :=
  qc ← py_div (query_frames layout) (frames_per_block layout);
  let ragged := query_frames layout mod frames_per_block layout in
  if negb (ragged =? 0) || negb (qc =? 1)
  then Ok (None, put_base (warn_dense_once ("replan_each_chunk needs a single-chunk query (got " +:+ pretty (query_frames layout)
    +:+ " frames of " +:+ pretty (frames_per_block layout) +:+ ")") (o_base s)) s)
  else
    let sg := (key_segments call, query_frames layout, head_start call, Z.of_nat (num_local_heads call)) in
    match cache_get (o_plans s) (layer_index call) sg with
    | Some cached => Ok (cached, s)
    | None =>
      ps ← measured_chunk_plan call layout s;
      let entry := match ps.1 with None => None | Some p => Some (SinglePlan p None) end in
      Ok (entry, put_logged true (put_plans (cache_put (o_plans ps.2) (layer_index call) sg entry) ps.2))
    end.

(** Freezing: the order of the key tiles of a layer, and its retention curve. *)
Definition freeze_order (mass : list (list (list F))) (full_tiles : Z) : list (list (list Z)) :=
  (fun h : list (list F) => (fun row => argsort_desc (take (Z.to_nat full_tiles) row)) <$> h) <$> mass.

Fixpoint cumsum_from (a : F) (l : list F) : list F := match l with [] => [] | x :: l => nadd a x :: cumsum_from (nadd a x) l end.
Definition cumsum (l : list F) : list F := cumsum_from nzero l.

Definition retention_curve (mass : list (list (list F))) (full_tiles : Z) : list (list (list F)) :=
  (fun h : list (list F) => (fun row =>
    let body := take (Z.to_nat full_tiles) row in
    let cumulative := cumsum (nth_num body <$> argsort_desc body) in
    let total := nmax (default nzero (last cumulative)) (ndiv none (of_Z 1000000000)) in
    (fun x => ndiv x total) <$> cumulative) <$> h) <$> mass.

(** The order of a layer: frozen already, or frozen now from its mass. *)
Definition layer_order (call : SparseAttentionCall F) (layout : VisibleLayout) (s : osa_state) : option (list (list (list Z))) * osa_state :=
  let layer := layer_index call in
  match section_order s !! layer with
  | Some order => (Some order, s)
  | None =>
    match section_mass s !! layer with
    | None => (None, put_base (warn_dense_once ("layer " +:+ pretty layer +:+ " was never calibrated (chunk 0 not seen)") (o_base s)) s)
    | Some mass =>
      let full_tiles := frame_seqlen layout / spatial_tile (o_config s) in
      let order := freeze_order mass full_tiles in
      let s := put_order (<[layer := order]> (section_order s)) s in
      let s := if flat_row_dense (o_config s) then put_retention (<[layer := retention_curve mass full_tiles]> (retention s)) s else s in
      (Some order, put_mass (delete layer (section_mass s)) s)
    end
  end.

(** [_log_summary]: logs once, two chunks after the calibration. *)
Definition log_summary (layout : VisibleLayout) (s : osa_state) : osa_state :=
  if logged_summary s || (layout_chunk_index layout <? 2) then s else put_logged true s.

(** The plans of the query chunks of a rolling window. *)
Fixpoint window_plans (layout : VisibleLayout) (order : list (list (list Z))) (offsets : list Z) (s : osa_state) :
    res (list (option (BlockSparsePlan F)) * osa_state) :=
  match offsets with
  | [] => Ok ([], s)
  | o :: os =>
    ps ← chunk_plan layout order o None s;
    rest ← window_plans layout order os ps.2;
    Ok (ps.1.1 :: rest.1, rest.2)
  end.

Definition prepare_plan (call : SparseAttentionCall F) (layout : VisibleLayout) (s : osa_state) : res (option plan_entry * osa_state) :=
  let c := o_config s in
  let upd := in_cache_update (o_base s) in
  if dense_cache_update c && upd then Ok (None, s)
  else if (0 <? dense_first_steps c) && negb upd && (forwards_this_chunk s <? dense_first_steps c) then Ok (None, s)
  else if layout_chunk_index layout =? 0 then
    if negb upd && negb (replan_each_chunk c) then
      Ok (None, put_mass (<[layer_index call := measure_section_tile_mass (query call) (key call) (num_local_heads call) (c_q_len call) layout
        (softmax_scale call) (calibration_query_stride c) (oc_query_tile c) (spatial_tile c)]> (section_mass s)) s)
    else Ok (None, s)
  else if replan_each_chunk c then replan_entry call layout s
  else
    let '(order, s) := layer_order call layout s in
    match order with
    | None => Ok (None, s)
    | Some order =>
      num_query_chunks ← py_div (query_frames layout) (frames_per_block layout);
      if negb (query_frames layout mod frames_per_block layout =? 0)
      then Ok (None, put_base (warn_dense_once ("query spans " +:+ pretty (query_frames layout) +:+ " frames, not a whole number of "
        +:+ pretty (frames_per_block layout) +:+ "-frame chunks") (o_base s)) s)
      else
        let sg := (key_segments call, query_frames layout, head_start call, Z.of_nat (num_local_heads call)) in
        match cache_get (o_plans s) (layer_index call) sg with
        | Some cached => Ok (cached, s)
        | None =>
          if negb (Nat.eqb (length order) (num_local_heads call))
          then Ok (None, put_base (warn_dense_once ("calibrated " +:+ pretty (length order) +:+ " heads but layer " +:+ pretty (layer_index call)
            +:+ " has " +:+ pretty (num_local_heads call)) (o_base s)) s)
          else
            es ← (if num_query_chunks =? 1 then
                    ps ← chunk_plan layout order 0 (retention s !! layer_index call) s;
                    Ok (match ps.1.1 with None => None | Some p => Some (SinglePlan p (flat_token_index layout ps.1.2 ps.2)) end, ps.2)
                  else
                    ps ← window_plans layout order (zrange 0 num_query_chunks) s;
                    Ok (if forallb (fun p => match p with None => true | Some _ => false end) ps.1 then None else Some (WindowPlans ps.1), ps.2));
            let s := put_plans (cache_put (o_plans es.2) (layer_index call) sg es.1) es.2 in
            Ok (es.1, log_summary layout s)
        end
    end.

(** ** attend *)

(** The rows of a result, moved along the token axis. *)
Definition shift_rows (d : Z) (out : gmap (nat * Z * nat) (list (xf F))) : list ((nat * Z * nat) * list (xf F)) :=
  (fun kv : (nat * Z * nat) * list (xf F) => let '(b, m, h) := kv.1 in ((b, m + d, h), kv.2)) <$> map_to_list out.

Section attend.
Context (order : list (nat * nat) -> list (nat * nat)).
(** [scaled_dot_product_attention] of the tensor library: batch, query row, head. *)
Context (sdpa : SparseAttentionCall F -> nat -> Z -> nat -> list (xf F)).

Definition block_attention (call : SparseAttentionCall F) (q : tensor4 F) (q_len : Z) (p : BlockSparsePlan F) : res (gmap (nat * Z * nat) (list (xf F))) :=
  block_sparse_attention order (c_batch call) (num_local_heads call) q_len (Z.to_nat (head_dim call)) q (key call) (value call) p (softmax_scale call).

(** Overwrite the flat rows by dense attention. *)
Definition overwrite_flat (call : SparseAttentionCall F) (flat_index : list Z) (out : gmap (nat * Z * nat) (list (xf F))) :=
  store_out out (seq 0 (c_batch call) ≫= fun b => flat_index ≫= fun m => (fun h => ((b, m, h), sdpa call b m h)) <$> seq 0 (num_local_heads call)).

Definition osa_attend (call : SparseAttentionCall F) (s : osa_state) : res (option (gmap (nat * Z * nat) (list (xf F))) * osa_state) :=
  lb ← layout_of call (o_base s);
  let s := put_base lb.2 s in
  match lb.1 with
  | None => Ok (None, s)
  | Some layout =>
    es ← prepare_plan call layout s;
    let s := es.2 in
    let dense s := put_base (record_density None (c_kv_len call) None (o_base s)) s in
    match es.1 with
    | None => Ok (None, dense s)
    | Some (SinglePlan plan flat_index) =>
      out ← block_attention call (query call) (c_q_len call) plan;
      let fraction := bp_density plan in
      let '(fraction, s) := if nis0 (pending_measure_charge s) then (fraction, s)
                            else (nmin none (nadd fraction (pending_measure_charge s)), put_charge nzero s) in
      let '(out, fraction) :=
        match flat_index with
        | Some (i :: fi) =>
            (overwrite_flat call (i :: fi) out,
             nmin none (nadd fraction (ndiv (of_Z (Z.of_nat (length (i :: fi)))) (of_Z (c_q_len call)))))
        | _ => (out, fraction)
        end in
      Ok (Some out, put_base (record_density None (c_kv_len call) (Some fraction) (o_base s)) s)
    | Some (WindowPlans plans) =>
      if existsb (fun p => match p with None => true | Some _ => false end) plans then Ok (None, dense s)
      else
        let tokens := frames_per_block layout * frame_seqlen layout in
        let plans := omap id plans in
        outs ← mapM (fun ip : nat * BlockSparsePlan F =>
          let start := Z.of_nat ip.1 * tokens in
          (* the slice [start : start + tokens] of the queries, cut at the end *)
          out ← block_attention call (fun b m h => query call b (start + m) h) (Z.min tokens (c_q_len call - start)) ip.2;
          Ok (shift_rows start out)) (zip (seq 0 (length plans)) plans);
        let fraction := ndiv (nsum (bp_density <$> plans)) (of_Z (Z.of_nat (length plans))) in
        Ok (Some (store_out ∅ (concat outs)), put_base (record_density None (c_kv_len call) (Some fraction) (o_base s)) s)
    end
  end.
End attend.

End osa.
Arguments OsaConfig : clear implicits.
Arguments osa_state : clear implicits.
Arguments plan_entry : clear implicits.
