(* ===== verification/OsaSpec.v ===== *)
(** * OsaSpec: what the plans of Oracle Sparse Attention read

    A plan row lists whole frames by their full tiles and every other frame by
    the kept tiles of the head and query tile; no key is listed twice.  The last section
    sorts by merging, one way the tensor library may sort: it shows that the laws
    the planners rely on can hold, and lets the planners run. *)

From S2P Require Import Prelude Num SparsePlan SparsePlanSpec SparseKernel SparseKernelSpec SparseContext SparseBackend Osa.

Open Scope Z_scope.

(** ** Tiles of frames *)

Section tiles.
Context (fs ts : Z) (Hfs : 0 < fs) (Hts : 0 < ts).
Local Abbreviation FT := (fs / ts).

(** A token of tile [t] of frame [f]. *)
Lemma tile_token f t n : 0 <= t < FT -> f * fs + t * ts <= n < f * fs + t * ts + ts -> n / fs = f /\ n mod fs / ts = t.
Proof.
  intros Ht Hn. pose proof (Z.mul_div_le fs ts Hts). assert (t * ts + ts <= fs) by nia.
  assert (n / fs = f) as Ef by (symmetry; apply (Z.div_unique n fs f (n - f * fs)); lia). split; [done|].
  pose proof (Z.div_mod n fs). symmetry. apply (Z.div_unique _ ts t (n mod fs - t * ts)); lia.
Qed.

Lemma token_tile n : n mod fs / ts < FT -> 0 <= n mod fs / ts /\ n / fs * fs + n mod fs / ts * ts <= n < n / fs * fs + n mod fs / ts * ts + ts.
Proof.
  intros Ht. pose proof (Z.mod_pos_bound n fs Hfs). split; [apply Z.div_pos; lia|].
  pose proof (Z.div_mod n fs). pose proof (Z.div_mod (n mod fs) ts). pose proof (Z.mod_pos_bound (n mod fs) ts Hts). lia.
Qed.

Lemma elem_of_block_keys bn starts n : n ∈ block_keys bn starts <-> exists s, s ∈ starts /\ s <= n < s + bn.
Proof. unfold block_keys. rewrite list_elem_of_bind. setoid_rewrite elem_of_zrange. naive_solver. Qed.

(** Starts of a list of (frame, tile) pairs. *)
Definition pair_start (ft : Z * Z) : Z := ft.1 * fs + ft.2 * ts.

Lemma block_keys_pairs_NoDup pairs : NoDup pairs -> Forall (fun ft => 0 <= ft.2 < FT) pairs -> NoDup (block_keys ts (pair_start <$> pairs)).
Proof.
  intros Hnd Hp. unfold block_keys. rewrite list_fmap_bind. unfold compose.
  induction Hnd as [|[f t] pairs Hin Hnd IH]; [constructor|]. apply Forall_cons in Hp as [Ht Hp]. csimpl. apply NoDup_app. split_and!; [|intros n Hn|auto].
  - unfold zrange. apply NoDup_seqZ.
  - apply elem_of_zrange in Hn. unfold pair_start in Hn. simpl in *. intros ([f' t'] & Hn' & Hft)%list_elem_of_bind.
    apply elem_of_zrange in Hn'. unfold pair_start in Hn'. simpl in *. rewrite Forall_forall in Hp. pose proof (Hp _ Hft) as Ht'. simpl in Ht'.
    destruct (tile_token f t n Ht) as [E1 E2]; [lia|]. destruct (tile_token f' t' n Ht') as [E3 E4]; [lia|].
    apply Hin. by replace (f, t) with (f', t') by congruence.
Qed.

Lemma elem_of_pair_keys pairs n : Forall (fun ft => 0 <= ft.2 < FT) pairs ->
  n ∈ block_keys ts (pair_start <$> pairs) <-> n mod fs / ts < FT /\ (n / fs, n mod fs / ts) ∈ pairs.
Proof.
  intros Hp. rewrite elem_of_block_keys. setoid_rewrite list_elem_of_fmap. split.
  - intros (s & ([f t] & -> & Hin) & Hn). rewrite Forall_forall in Hp. pose proof (Hp _ Hin) as Ht. unfold pair_start in Hn. simpl in *.
    destruct (tile_token f t n Ht) as [-> ->]; [lia|]. split; [lia|done].
  - intros [Ht Hin]. exists (pair_start (n / fs, n mod fs / ts)). split; [eauto|]. unfold pair_start. simpl. apply token_tile in Ht. lia.
Qed.

(** *** A row of the plan *)

(** Whole frames and, per other frame, its kept tiles. *)
Definition row_pairs (whole : list Z) (hist : list (Z * list Z)) : list (Z * Z) :=
  (whole ≫= fun f => (fun t => (f, t)) <$> zrange 0 FT) ++ (hist ≫= fun fl => (fun t => (fl.1, t)) <$> fl.2).

Lemma elem_of_row_pairs whole hist f t : (f, t) ∈ row_pairs whole hist <-> (f ∈ whole /\ 0 <= t < FT) \/ (exists l, (f, l) ∈ hist /\ t ∈ l).
Proof.
  unfold row_pairs. rewrite elem_of_app, !list_elem_of_bind. setoid_rewrite list_elem_of_fmap. setoid_rewrite elem_of_zrange. split.
  - intros [(f' & (t' & [= -> ->] & ?) & ?)|([f' l] & (t' & [= -> ->] & ?) & ?)]; [by left|]. right. eauto.
  - intros [[? ?]|(l & ? & ?)]; [left; eauto|right]. exists (f, l). simpl. eauto.
Qed.

Definition hist_ok (whole : list Z) (hist : list (Z * list Z)) : Prop :=
  NoDup whole /\ NoDup hist.*1 /\ (forall f, f ∈ whole -> f ∉ hist.*1) /\ Forall (fun fl => NoDup fl.2 /\ Forall (fun t => 0 <= t < FT) fl.2) hist.

Lemma row_pairs_ok whole hist : hist_ok whole hist -> NoDup (row_pairs whole hist) /\ Forall (fun ft => 0 <= ft.2 < FT) (row_pairs whole hist).
Proof.
  intros (Hw & Hh & Hd & Hl). split.
  - unfold row_pairs. apply NoDup_app. split_and!.
    + apply NoDup_bind; [|intros f _; apply NoDup_fmap_2; [by intros ?? [= ->]|apply NoDup_seqZ]|done].
      intros f f' [x y] _ _ (? & [= -> _] & _)%list_elem_of_fmap (? & [= -> _] & _)%list_elem_of_fmap. done.
    + intros [f t] (f' & (t' & [= -> ->] & _)%list_elem_of_fmap & Hin)%list_elem_of_bind ([f2 l] & (t2 & [= -> ->] & _)%list_elem_of_fmap & Hin2)%list_elem_of_bind.
      apply (Hd f2 Hin). apply list_elem_of_fmap. by exists (f2, l).
    + clear Hd Hw. induction hist as [|[f l] hist IH]; csimpl; [constructor|]. csimpl in Hh. apply NoDup_cons in Hh as [Hf Hh].
      apply Forall_cons in Hl as [[Hl Hr] Hl']. apply NoDup_app. split_and!; [apply NoDup_fmap_2; [by intros ?? [= ->]|done]| |auto].
      intros [x y] (t & [= -> ->] & _)%list_elem_of_fmap ([f2 l2] & (t2 & [= -> ->] & _)%list_elem_of_fmap & Hin2)%list_elem_of_bind.
      apply Hf. apply list_elem_of_fmap. by exists (f2, l2).
  - apply Forall_forall. intros [f t] [[_ ?]|(l & Hin & Ht)]%elem_of_row_pairs; simpl; [done|].
    rewrite Forall_forall in Hl. destruct (Hl _ Hin) as [_ Hr]. simpl in Hr. rewrite Forall_forall in Hr. auto.
Qed.

Lemma whole_starts_pairs whole :
  whole_frame_starts ((fun f => f * fs) <$> whole) fs ts = pair_start <$> (whole ≫= fun f => (fun t => (f, t)) <$> zrange 0 FT).
Proof.
  unfold whole_frame_starts. rewrite list_fmap_bind. induction whole as [|f whole IH]; csimpl; [done|]. rewrite fmap_app, <- IH. f_equal.
  rewrite <- !list_fmap_compose. done.
Qed.

Lemma hist_starts_pairs (hist : list (Z * list Z)) :
  (hist ≫= fun fl => (fun t => fl.1 * fs + t * ts) <$> fl.2) = pair_start <$> (hist ≫= fun fl => (fun t => (fl.1, t)) <$> fl.2).
Proof. induction hist as [|[f l] hist IH]; csimpl; [done|]. rewrite fmap_app, <- IH. f_equal. rewrite <- list_fmap_compose. done. Qed.

(** The keys a row of the plan reads, each once. *)
Lemma row_keys nf whole (hist : list (Z * list Z)) (sel : Z -> bool) : hist_ok whole hist -> Forall (fun f => 0 <= f < nf) whole -> Forall (fun fl => 0 <= fl.1 < nf) hist ->
  (forall n, 0 <= n < nf * fs -> sel n = true <-> n mod fs / ts < FT /\ (n / fs ∈ whole \/ exists l, (n / fs, l) ∈ hist /\ n mod fs / ts ∈ l)) ->
  block_keys ts (whole_frame_starts ((fun f => f * fs) <$> whole) fs ts ++ (hist ≫= fun fl => (fun t => fl.1 * fs + t * ts) <$> fl.2))
    ≡ₚ filter (fun n => sel n = true) (zrange 0 (nf * fs)).
Proof.
  intros Hok Hw Hh Hsel. destruct (row_pairs_ok _ _ Hok) as [Hnd Hr].
  rewrite whole_starts_pairs, hist_starts_pairs, <- fmap_app. fold (row_pairs whole hist).
  apply NoDup_Permutation; [by apply block_keys_pairs_NoDup|apply NoDup_filter, NoDup_seqZ|]. intros n.
  rewrite elem_of_pair_keys, elem_of_row_pairs, list_elem_of_filter, elem_of_zrange by done.
  assert (0 <= n mod fs / ts) by (apply Z.div_pos; [apply Z.mod_pos_bound|]; lia).
  split.
  - intros [Ht Hin]. assert (0 <= n / fs < nf) as Hf.
    { rewrite Forall_forall in Hw. pose proof (proj1 (Forall_forall _ _) Hh) as Hh2. destruct Hin as [[Hin _]|(l & Hin & _)]; [auto|]. apply (Hh2 _ Hin). }
    assert (0 <= n < nf * fs) by (pose proof (Z.div_mod n fs); pose proof (Z.mod_pos_bound n fs Hfs); nia).
    split; [|done]. apply Hsel; [done|]. split; [done|]. naive_solver.
  - intros [Hs Hn]. apply Hsel in Hs as [Ht Hin]; [|done]. split; [done|]. naive_solver.
Qed.

End tiles.

(** ** The plan of a chunk *)

Lemma elem_of_masked {A} (m : list bool) (l : list A) x : x ∈ masked m l <-> exists i, m !! i = Some true /\ l !! i = Some x.
Proof.
  unfold masked. rewrite list_elem_of_omap. setoid_rewrite list_elem_of_lookup. setoid_rewrite lookup_zip_with_Some. split.
  - intros ([b y] & (i & b' & y' & [= -> ->] & Hb & Hy) & E). simpl in E. destruct b'; simplify_eq. eauto.
  - intros (i & Hm & Hl). exists (true, x). split; [|done]. eauto 10.
Qed.

Lemma elem_of_masked_zrange m n f : length m = Z.to_nat n ->
  f ∈ masked m (zrange 0 n) <-> 0 <= f < n /\ m !! Z.to_nat f = Some true.
Proof.
  intros Hl. rewrite elem_of_masked. unfold zrange. split.
  - intros (i & Hm & Hi). apply lookup_seqZ in Hi as [-> Hi]. split; [lia|]. by replace (Z.to_nat (0 + Z.of_nat i)) with i by lia.
  - intros [Hf Hm]. exists (Z.to_nat f). split; [done|]. apply lookup_seqZ. lia.
Qed.

Lemma NoDup_masked {A} (m : list bool) (l : list A) : NoDup l -> NoDup (masked m l).
Proof.
  intros Hl. revert m. induction Hl as [|x l Hx Hl IH]; intros [|b m]; try constructor.
  destruct b; [change (NoDup (x :: masked m l))|by apply (IH m)]. constructor; [|apply IH]. rewrite elem_of_masked. intros (i & _ & Hi). apply Hx. by eapply list_elem_of_lookup_2.
Qed.

Lemma zsort_perm l : zsort l ≡ₚ l.
Proof. apply merge_sort_Permutation. Qed.

Section plan.
Context {F : Type} `{!Num F} `{!NumExp F} `{!NumLaws F} `{!NumExpLaws F} `{!TorchOrder F} `{!TorchOrderLaws F}.
Implicit Types s : osa_state F.

(** An order of key tiles for [H] heads and [T] query tiles. *)
Definition order_ok (H T : nat) (FT : Z) (order : list (list (list Z))) : Prop :=
  length order = H /\ Forall (fun h => length h = T /\ Forall (fun row => row ≡ₚ zrange 0 FT) h) order.

Definition order_row (order : list (list (list Z))) (h t : nat) : list Z := default [] (order !! h ≫= fun r => r !! t).

Lemma order_row_perm H T FT order h t : order_ok H T FT order -> (h < H)%nat -> (t < T)%nat -> order_row order h t ≡ₚ zrange 0 FT.
Proof.
  intros [Hl Hf] Hh Ht. unfold order_row. destruct (lookup_lt_is_Some_2 order h) as [hm E]; [lia|]. rewrite E. simpl.
  destruct (Forall_lookup_1 _ _ _ _ Hf E) as [HT Hrows]. destruct (lookup_lt_is_Some_2 hm t) as [row Er]; [lia|]. rewrite Er. simpl.
  exact (Forall_lookup_1 _ _ _ _ Hrows Er).
Qed.

Lemma freeze_order_ok mass H T kt FT : length mass = H -> Forall (fun h => length h = T /\ Forall (fun row => length row = kt) h) mass ->
  0 <= FT <= Z.of_nat kt -> order_ok H T FT (freeze_order mass FT).
Proof.
  intros HH Hm HFT. unfold freeze_order, order_ok. rewrite length_fmap. split; [done|]. apply Forall_fmap. eapply Forall_impl; [exact Hm|].
  intros h [Ht Hrows]. simpl. rewrite length_fmap. split; [done|]. apply Forall_fmap. eapply Forall_impl; [exact Hrows|]. intros row Hrow. simpl.
  rewrite argsort_desc_perm, length_take, Hrow. by replace (Z.of_nat (Z.to_nat FT `min` kt)) with FT by lia.
Qed.

(** Key [n] is read by query tile [t] of head [h]: its tile is whole, and its
    frame is kept whole or its tile is among the first [k] of the order. *)
Definition osa_reads (layout : VisibleLayout) (ts : Z) (full : list bool) (k : Z) (row : list Z) (n : Z) : bool :=
  let fs := frame_seqlen layout in
  let tile := n mod fs / ts in
  (tile <? fs / ts) && (default false (full !! Z.to_nat (n / fs)) || bool_decide (tile ∈ take (Z.to_nat k) row)).

Lemma build_block_plan_row tiles hist_offs whole_offs fs qt ts kv h t :
  (h < length tiles)%nat -> (t < length (default [] (tiles !! h)))%nat ->
  starts (build_block_plan (F:=F) tiles hist_offs whole_offs fs qt ts kv None) !! h ≫= (fun r => r !! t) =
  Some (whole_frame_starts whole_offs fs ts ++ (hist_offs ≫= fun o => (fun x => o + x * ts) <$> zsort (order_row tiles h t))).
Proof.
  intros Hh Ht. unfold build_block_plan, order_row. cbn [starts]. rewrite list_lookup_fmap.
  destruct (lookup_lt_is_Some_2 tiles h Hh) as [hm Ehm]. rewrite Ehm in Ht |- *. cbn in *. rewrite list_lookup_fmap.
  destruct (lookup_lt_is_Some_2 hm t Ht) as [row ->]. done.
Qed.

Lemma order_row_take order k h t : order_row ((fun h : list (list Z) => take k <$> h) <$> order) h t = take k (order_row order h t).
Proof.
  unfold order_row. rewrite list_lookup_fmap. destruct (order !! h) as [hm|]; simpl; [|by rewrite take_nil].
  rewrite list_lookup_fmap. destruct (hm !! t); simpl; [done|]. by rewrite take_nil.
Qed.

(** The uniform plan: every row reads exactly [osa_reads], each key once. *)
Lemma uniform_plan_keys layout order full k qt ts H T h t :
  0 < frame_seqlen layout -> 0 < ts -> order_ok H T (frame_seqlen layout / ts) order -> (h < H)%nat -> (t < T)%nat ->
  length full = length (global_frame_ids layout) ->
  let p := build_block_plan (F:=F) ((fun h : list (list Z) => take (Z.to_nat k) <$> h) <$> order)
    (frame_offsets (negb <$> full) layout) (frame_offsets full layout) (frame_seqlen layout) qt ts (kv_len layout) None in
  block_keys ts (default [] (starts p !! h ≫= fun r => r !! t)) ≡ₚ
  filter (fun n => osa_reads layout ts full k (order_row order h t) n = true) (zrange 0 (kv_len layout)).
Proof.
  intros Hfs Hts Hord Hh Ht Hfull p. unfold p. set (fs := frame_seqlen layout) in *. set (nf := num_frames layout).
  pose proof (order_row_perm _ _ _ _ h t Hord Hh Ht) as Hrow. destruct Hord as [Hlen Hord].
  rewrite build_block_plan_row; [|by rewrite length_fmap, Hlen|].
  2:{ rewrite list_lookup_fmap. destruct (lookup_lt_is_Some_2 order h) as [hm E]; [lia|]. rewrite E. simpl. rewrite length_fmap.
      destruct (Forall_lookup_1 _ _ _ _ Hord E). lia. }
  cbn [default]. rewrite order_row_take. set (row := order_row order h t) in *.
  assert (length full = Z.to_nat nf) as Hfl by (unfold nf, num_frames; lia).
  assert (length (negb <$> full) = Z.to_nat nf) as Hnl by (by rewrite length_fmap).
  set (whole := masked full (zrange 0 nf)). set (other := masked (negb <$> full) (zrange 0 nf)).
  set (hist := (fun f => (f, zsort (take (Z.to_nat k) row))) <$> other).
  assert (NoDup row /\ Forall (fun x => 0 <= x < fs / ts) row) as [Hrnd Hrr].
  { rewrite Hrow. split; [apply NoDup_seqZ|]. apply Forall_forall. intros x ?%elem_of_zrange. done. }
  assert (hist_ok fs ts whole hist) as Hok.
  { split_and!; [apply NoDup_masked, NoDup_seqZ| | |].
    - unfold hist. rewrite <- list_fmap_compose. cbn. rewrite list_fmap_id. apply NoDup_masked, NoDup_seqZ.
    - intros f Hf. unfold hist. rewrite <- list_fmap_compose. cbn. rewrite list_fmap_id.
      unfold whole, other in *. rewrite elem_of_masked_zrange in * by done. rewrite list_lookup_fmap. destruct Hf as [_ ->]. by intros [_ [= ]].
    - apply Forall_fmap, Forall_true. intros f. cbn. rewrite zsort_perm. split.
      + rewrite <- (take_drop (Z.to_nat k) row) in Hrnd. by apply NoDup_app in Hrnd as (? & _).
      + by apply Forall_take. }
  unfold kv_len. fold fs nf. unfold frame_offsets. fold fs nf whole other.
  replace (((fun f => f * fs) <$> other) ≫= fun o => (fun x => o + x * ts) <$> zsort (take (Z.to_nat k) row))
    with (hist ≫= fun fl => (fun t => fl.1 * fs + t * ts) <$> fl.2) by (unfold hist; rewrite !list_fmap_bind; done).
  apply (row_keys fs ts Hfs Hts nf); [done| | |].
  - apply Forall_forall. intros f Hf. unfold whole in Hf. rewrite elem_of_masked_zrange in Hf by done. tauto.
  - apply Forall_fmap, Forall_forall. intros f Hf. unfold other in Hf. rewrite elem_of_masked_zrange in Hf by done. cbn. tauto.
  - intros n Hn. unfold osa_reads. fold fs. rewrite andb_true_iff, orb_true_iff, Z.ltb_lt, bool_decide_eq_true.
    assert (0 <= n / fs < nf) by (split; [apply Z.div_pos; lia|apply Z.div_lt_upper_bound; lia]).
    destruct (lookup_lt_is_Some_2 full (Z.to_nat (n / fs))) as [b Eb]; [lia|].
    apply and_iff_compat_l. unfold whole, hist, other. setoid_rewrite list_elem_of_fmap. rewrite elem_of_masked_zrange, Eb by done. change (default false (Some b)) with b. split.
    + intros [->|Hin]; [by left|]. destruct b; [by left|]. right. exists (zsort (take (Z.to_nat k) row)). split; [|by rewrite zsort_perm].
      exists (n / fs). split; [done|]. rewrite elem_of_masked_zrange, list_lookup_fmap, Eb by done. done.
    + intros [[_ [= ->]]|(l & (f & [= <- ->] & _) & Hin)]; [by left|]. right. by rewrite zsort_perm in Hin.
Qed.

(** *** Sizes *)

Lemma length_masked {A} (m : list bool) (l : list A) : length m = length l -> length (masked m l) = length (filter (fun b => b = true) m).
Proof.
  revert l. induction m as [|b m IH]; intros [|x l] Hl; try discriminate; [done|]. simpl in Hl. rewrite filter_cons. destruct b.
  - change (length (x :: masked m l) = length (true :: filter (fun b => b = true) m)). simpl. rewrite IH; lia.
  - change (length (masked m l) = length (filter (fun b => b = true) m)). apply IH. lia.
Qed.

Lemma length_filter_negb (m : list bool) :
  (length (filter (fun b => b = true) (negb <$> m)) + length (filter (fun b => b = true) m) = length m)%nat.
Proof. induction m as [|b m IH]; [done|]. csimpl. rewrite !filter_cons. destruct b; simpl in *; lia. Qed.

Lemma length_bind_const {A B} (l : list A) (f : A -> list B) n : (forall x, x ∈ l -> length (f x) = n) -> length (l ≫= f) = (length l * n)%nat.
Proof.
  induction l as [|x l IH]; intros Hf; csimpl; [done|]. rewrite length_app, Hf, IH; [done| |constructor]. intros y Hy. apply Hf. by constructor.
Qed.

Lemma length_zrange a b : length (zrange a b) = Z.to_nat (b - a).
Proof. unfold zrange. apply length_seqZ. Qed.

Lemma uniform_row_length layout order full k qt ts H T h t :
  0 < frame_seqlen layout -> 0 < ts -> order_ok H T (frame_seqlen layout / ts) order -> (h < H)%nat -> (t < T)%nat ->
  length full = length (global_frame_ids layout) -> 0 <= k <= frame_seqlen layout / ts ->
  Z.of_nat (length (default [] (starts (build_block_plan (F:=F) ((fun h : list (list Z) => take (Z.to_nat k) <$> h) <$> order)
    (frame_offsets (negb <$> full) layout) (frame_offsets full layout) (frame_seqlen layout) qt ts (kv_len layout) None) !! h ≫= fun r => r !! t))) =
  num_full full * (frame_seqlen layout / ts) + num_other layout full * k.
Proof.
  intros Hfs Hts Hord Hh Ht Hfull Hk. pose proof (order_row_perm _ _ _ _ h t Hord Hh Ht) as Hrow. destruct Hord as [Hlen Hord].
  rewrite build_block_plan_row; [|by rewrite length_fmap, Hlen|].
  2:{ rewrite list_lookup_fmap. destruct (lookup_lt_is_Some_2 order h) as [hm E]; [lia|]. rewrite E. simpl. rewrite length_fmap.
      destruct (Forall_lookup_1 _ _ _ _ Hord E). lia. }
  match goal with |- context [default [] (Some ?x)] => change (default [] (Some x)) with x end. rewrite order_row_take. set (row := order_row order h t) in *. set (FT := frame_seqlen layout / ts) in *.
  assert (0 <= FT) by (apply Z.div_pos; lia). assert (Z.of_nat (length row) = FT) as Hrl by (rewrite Hrow, length_zrange; lia).
  assert (length (zrange 0 (num_frames layout)) = length full) as Hz by (rewrite length_zrange; unfold num_frames; lia).
  rewrite length_app. unfold whole_frame_starts, frame_offsets. rewrite !list_fmap_bind.
  rewrite (length_bind_const _ _ (Z.to_nat FT)) by (intros; cbn; rewrite !length_fmap, length_zrange; unfold FT; lia).
  rewrite (length_bind_const _ _ (Z.to_nat k)).
  2:{ intros x _. cbn. rewrite length_fmap. rewrite zsort_perm, length_take. lia. }
  rewrite !length_masked by (by rewrite ?length_fmap). pose proof (length_filter_negb full) as Hneg.
  unfold num_other, num_full, num_frames. rewrite <- Hfull. nia.
Qed.

(** ** Calls that plan afresh *)

Lemma visible_layout_Some segs g q rope l : visible_layout segs g q rope = Ok (Some l) ->
  frame_seqlen l = g_frame_seqlen g /\ q mod frame_seqlen l = 0 /\ query_frames l = q / frame_seqlen l /\
  length (chunk_offsets l) = length (global_frame_ids l).
Proof.
  unfold visible_layout, query_chunk_index, py_div, py_mod. intros E.
  destruct (g_frame_seqlen g =? 0); [done|]. cbn in E.
  destruct (negb _ || negb (q mod _ =? 0)) eqn:E1; [done|]. apply orb_false_iff in E1 as [_ E1]. apply negb_false_iff, Z.eqb_eq in E1.
  destruct (existsb _ segs); [done|]. destruct (match rope with Some _ => _ | None => false end); [done|].
  destruct segs; [done|]. cbn in E. destruct (chunk_tokens g =? 0); [done|]. cbn in E. injection E as <-. cbn. by rewrite length_fmap.
Qed.

Lemma layout_of_Some (call : SparseAttentionCall F) (b b' : base_state F) l : layout_of call b = Ok (Some l, b') ->
  b' = b /\ c_q_len call mod frame_seqlen l = 0 /\ query_frames l = c_q_len call / frame_seqlen l /\
  length (chunk_offsets l) = length (global_frame_ids l).
Proof.
  unfold layout_of. intros E. destruct (b_geometry b) as [g|]; [|done]. destruct (key_segments call) as [segs|]; [|done].
  destruct (_ || _); [done|]. destruct (negb _); [done|]. apply bind_Ok_inv in E as (ol & El & E). destruct ol as [l'|]; [|done].
  injection E as -> ->. apply visible_layout_Some in El. tauto.
Qed.

Lemma whole_frame_mask_length layout own ages s full : whole_frame_mask layout own ages s = Ok full ->
  length own = length (global_frame_ids layout) -> length ages = length (global_frame_ids layout) -> length full = length (global_frame_ids layout).
Proof.
  intros E Ho Ha. unfold whole_frame_mask in E. apply bind_Ok_inv in E as (f1 & E1 & E). injection E as <-.
  assert (length f1 = length (global_frame_ids layout)) as Hf1.
  { assert (length (if keep_own_chunk_full (o_config s) then mask_or (replicate (length (global_frame_ids layout)) false) own
      else replicate (length (global_frame_ids layout)) false) = length (global_frame_ids layout)) as H0.
    { destruct (keep_own_chunk_full _); [unfold mask_or; rewrite length_zip_with|]; rewrite length_replicate; lia. }
    destruct (keep_sink_full _); [|by injection E1 as <-]. apply bind_Ok_inv in E1 as (n & _ & E1). injection E1 as <-.
    unfold mask_or at 1, sink_frames. rewrite length_zip_with, length_fmap, H0. lia. }
  destruct (keep_recent_frames_full _); [|done]. unfold mask_or, recent_mask. rewrite length_zip_with, length_fmap. lia.
Qed.

(** The tiles the uniform budget buys in every patterned frame. *)
Definition tiles_kept (layout : VisibleLayout) (full : list bool) (ts num_tiles : Z) (budget : F) : Z :=
  Z.min (Z.max 1 (nround (ndiv budget (of_Z (num_other layout full * ts))))) num_tiles.

End plan.

(** ** Sorting indices by value *)

Section merging.
Context {F : Type} `{NumLaws F}.

Definition desc (l : list F) (i j : Z) : Prop := nleb (nth_num l j) (nth_num l i) = true.
Definition asc (l : list F) (i j : Z) : Prop := nleb (nth_num l i) (nth_num l j) = true.

#[local] Instance desc_dec l : RelDecision (desc l) := fun i j => decide (nleb (nth_num l j) (nth_num l i) = true).
#[local] Instance asc_dec l : RelDecision (asc l) := fun i j => decide (nleb (nth_num l i) (nth_num l j) = true).
#[local] Instance desc_trans l : Transitive (desc l).
Proof. intros i j k Hij Hjk. unfold desc in *. by eapply nle_trans. Qed.
#[local] Instance desc_total l : Total (desc l).
Proof. intros i j. unfold desc. apply nle_total. Qed.
#[local] Instance asc_trans l : Transitive (asc l).
Proof. intros i j k Hij Hjk. unfold asc in *. by eapply nle_trans. Qed.
#[local] Instance asc_total l : Total (asc l).
Proof. intros i j. unfold asc. apply nle_total. Qed.

Definition indices (l : list F) : list Z := zrange 0 (Z.of_nat (length l)).

#[global] Instance merge_order : TorchOrder F := {
  argsort_desc l := merge_sort (desc l) (indices l);
  argsort_asc l := merge_sort (asc l) (indices l);
  topk l k := take k (merge_sort (desc l) (indices l)) }.

Lemma StronglySorted_take_drop {A} (R : A -> A -> Prop) (l : list A) k i j :
  StronglySorted R l -> i ∈ take k l -> j ∈ drop k l -> R i j.
Proof.
  intros Hs. revert k. induction Hs as [|x l Hs IH Hx]; intros k; [rewrite take_nil; set_solver|].
  destruct k as [|k]; [set_solver|]. simpl. rewrite elem_of_cons. intros [->|Hi] Hj; [|by apply (IH k)].
  rewrite Forall_forall in Hx. apply Hx. rewrite <- (take_drop k l). set_solver.
Qed.

#[global] Instance merge_order_laws : TorchOrderLaws F.
Proof.
  assert (forall l, NoDup (merge_sort (desc l) (indices l))) as Hnd.
  { intros l. rewrite merge_sort_Permutation. apply NoDup_seqZ. }
  split.
  - intros l. apply merge_sort_Permutation.
  - intros l. apply (StronglySorted_merge_sort (desc l)).
  - intros l. apply merge_sort_Permutation.
  - intros l. apply (StronglySorted_merge_sort (asc l)).
  - intros l k. cbn [topk merge_order]. split.
    + specialize (Hnd l). rewrite <- (take_drop k (merge_sort _ _)) in Hnd. by apply NoDup_app in Hnd as (? & _).
    + intros i Hi. change (i ∈ indices l). rewrite <- (merge_sort_Permutation (desc l)), <- (take_drop k (merge_sort _ _)). set_solver.
  - intros l k Hk. cbn [topk merge_order]. rewrite length_take_le; [done|]. rewrite merge_sort_Permutation.
    unfold indices, zrange. rewrite length_seqZ. lia.
  - intros l k i j Hi Hj Hnj. cbn [topk merge_order] in *. apply (StronglySorted_take_drop (desc l) (merge_sort (desc l) (indices l)) k);
      [apply StronglySorted_merge_sort; apply _|done|].
    change (j ∈ indices l) in Hj. rewrite <- (merge_sort_Permutation (desc l)), <- (take_drop k (merge_sort _ _)) in Hj. set_solver.
Qed.

End merging.
