(* ===== verification/OsaTrace.v ===== *)
(** * OsaTrace: what a layer is calibrated by

    Runs of an Oracle Sparse Attention backend as sequences of events, and the
    calibration they are meant to have: the mass of a layer is what its last
    denoising call of chunk 0 of the current video measured, the order of key
    tiles used later is the order of that mass, and a plan found in the cache
    is one that was built from it. *)

From S2P Require Import Prelude Num SparsePlan SparseKernel SparseContext SparseBackend SparseBackendSpec Osa.

Open Scope Z_scope.

Section trace.
Context {F : Type} `{NumExp F} `{!TorchOrder F}.
Context (order : list (nat * nat) -> list (nat * nat)).
Context (sdpa : SparseAttentionCall F -> nat -> Z -> nat -> list (xf F)).
Implicit Types s : osa_state F.

(** ** Events *)

Inductive osa_event :=
| BeginForward (g : ChunkGeometry)
| CacheUpdate (b : bool)            (* entering or leaving [cache_update_scope] *)
| Attend (call : SparseAttentionCall F).

Definition osa_step (e : osa_event) s : res (osa_state F) :=
  match e with
  | BeginForward g => osa_begin_forward g s
  | CacheUpdate b => Ok (put_base (set_in_cache_update b (o_base s)) s)
  | Attend call => r ← osa_attend order sdpa call s; Ok r.2
  end.

Fixpoint osa_run (es : list osa_event) s : res (osa_state F) :=
  match es with [] => Ok s | e :: es => s' ← osa_step e s; osa_run es s' end.

(** ** The calibration that is meant *)

Record calibration := mkCalibration {
  k_geometry : option ChunkGeometry;
  k_chunk : Z;
  k_update : bool;
  k_mass : gmap Z (list (list (list F))) }.

Definition calibration_init : calibration := mkCalibration None (-1) false ∅.

Definition call_layout (g : option ChunkGeometry) (call : SparseAttentionCall F) : option VisibleLayout :=
  match layout_of call (mkBase g [] None 0 0 0 0 false) with Ok (l, _) => l | Raise _ => None end.

Definition chunk_mass (c : OsaConfig F) (call : SparseAttentionCall F) (layout : VisibleLayout) : list (list (list F)) :=
  measure_section_tile_mass (query call) (key call) (num_local_heads call) (c_q_len call) layout (softmax_scale call)
    (calibration_query_stride c) (oc_query_tile c) (spatial_tile c).

Definition calibrate (c : OsaConfig F) (k : calibration) (e : osa_event) : calibration :=
  match e with
  | BeginForward g =>
      let chunk := g_query_token_start g / chunk_tokens g in
      mkCalibration (Some g) chunk (k_update k) (if chunk <? k_chunk k then ∅ else k_mass k)
  | CacheUpdate b => mkCalibration (k_geometry k) (k_chunk k) b (k_mass k)
  | Attend call =>
      match call_layout (k_geometry k) call with
      | Some layout =>
          if (layout_chunk_index layout =? 0) && negb (k_update k)
          then mkCalibration (k_geometry k) (k_chunk k) (k_update k) (<[layer_index call := chunk_mass c call layout]> (k_mass k))
          else k
      | None => k
      end
  end.

(** ** Planning keeps the calibration *)

Definition same_calibration s s' : Prop :=
  o_config s' = o_config s /\ b_geometry (o_base s') = b_geometry (o_base s) /\ in_cache_update (o_base s') = in_cache_update (o_base s) /\
  last_chunk_index s' = last_chunk_index s /\ section_mass s' = section_mass s /\ section_order s' = section_order s.

#[local] Instance same_calibration_refl : Reflexive same_calibration.
Proof. by intros s. Qed.

#[local] Instance same_calibration_trans : Transitive same_calibration.
Proof. intros s1 s2 s3 (?&?&?&?&?&?) (?&?&?&?&?&?). split_and!; congruence. Qed.

Lemma put_warn_same w s : same_calibration s (put_base (warn_dense_once w (o_base s)) s).
Proof. destruct (warn_same w (o_base s)). by split_and!. Qed.

Lemma record_same p kv f s : same_calibration s (put_base (record_density p kv f (o_base s)) s).
Proof. unfold record_density. repeat case_match; by split_and!. Qed.

Lemma call_density_same layout s d s' : call_density layout s = Ok (d, s') -> same_calibration s s'.
Proof. unfold call_density. intros E. case_match; [by injection E as _ <-|]. apply bind_Ok_inv in E as (x & _ & E). injection E as _ <-. by split_and!. Qed.

Lemma chunk_plan_same layout o off ret s r s' : chunk_plan layout o off ret s = Ok (r, s') -> same_calibration s s'.
Proof.
  unfold chunk_plan. intros E. case_match; [by injection E as _ <-|]. apply bind_Ok_inv in E as (ages & _ & E).
  apply bind_Ok_inv in E as (full & _ & E). apply bind_Ok_inv in E as ([d s1] & Ed & E). apply call_density_same in Ed. cbn in E.
  case_match; [|by injection E as _ <-]. case_match; [|by injection E as _ <-]. apply bind_Ok_inv in E as (w & _ & E). by injection E as _ <-.
Qed.

Lemma window_plans_same layout o offs s r s' : window_plans layout o offs s = Ok (r, s') -> same_calibration s s'.
Proof.
  revert s r. induction offs as [|off offs IH]; intros s r E; cbn in E; [by injection E as _ <-|].
  apply bind_Ok_inv in E as ([p s1] & Ep & E). apply bind_Ok_inv in E as ([rest s2] & Er & E). injection E as _ <-.
  apply chunk_plan_same in Ep. apply IH in Er. by etrans.
Qed.

Lemma log_summary_same layout s : same_calibration s (log_summary layout s).
Proof. unfold log_summary. case_match; by split_and!. Qed.

Lemma layout_of_call (call : SparseAttentionCall F) (b b' : base_state F) l : layout_of call b = Ok (l, b') ->
  call_layout (b_geometry b) call = l /\ b_geometry b' = b_geometry b /\ in_cache_update b' = in_cache_update b.
Proof.
  unfold call_layout, layout_of. cbn [b_geometry]. intros E.
  remember (b_geometry b) as g eqn:Eg.
  assert (forall w, Ok (None, warn_dense_once w b) = Ok (l, b') -> None = l /\ b_geometry b' = g /\ in_cache_update b' = in_cache_update b) as Hw.
  { intros w [= <- <-]. destruct (warn_same w b). rewrite Eg. by split_and!. }
  destruct g; [|by eapply Hw]. destruct (key_segments call); [|by eapply Hw].
  destruct (_ || _); [by eapply Hw|]. destruct (negb _); [by eapply Hw|].
  apply bind_Ok_inv in E as (ol & -> & E). cbn. destruct ol; [by injection E as <- <-|by eapply Hw].
Qed.

Lemma call_layout_Some g call layout : call_layout g call = Some layout -> exists g', g = Some g' /\ frame_seqlen layout = g_frame_seqlen g' /\
  layout_chunk_index layout = g_query_token_start g' / chunk_tokens g'.
Proof.
  unfold call_layout. destruct (layout_of _ _) as [[l b]|e] eqn:E; [|done]. intros ->. unfold layout_of in E. cbn in E. repeat case_match; try discriminate.
  apply bind_Ok_inv in E as ([l|] & E & El); [|done]. injection El as -> _. eexists. split; [done|].
  unfold visible_layout, query_chunk_index, py_div, py_mod in E. repeat (case_match; try discriminate; cbn in E).
  all: injection E as <-; done.
Qed.

(** ** One step *)

(** The settings of a plain calibration: planned once, from the first step. *)
Definition calibrated_once (c : OsaConfig F) : Prop := dense_first_steps c = 0 /\ replan_each_chunk c = false.

(** What planning does to the calibration of its layer. *)
Lemma prepare_plan_effect call layout s r s' : calibrated_once (o_config s) -> prepare_plan call layout s = Ok (r, s') ->
  if layout_chunk_index layout =? 0 then
    s' = if in_cache_update (o_base s) then s else put_mass (<[layer_index call := chunk_mass (o_config s) call layout]> (section_mass s)) s
  else same_calibration s s' \/ same_calibration (layer_order call layout s).2 s'.
Proof.
  intros [Hst Hre] E. unfold prepare_plan in E. rewrite Hst, Hre in E. cbn [Z.ltb Z.compare andb] in E. rewrite andb_true_r in E.
  destruct (layout_chunk_index layout =? 0).
  - destruct (in_cache_update (o_base s)); [|rewrite andb_false_r in E; by injection E as _ <-].
    destruct (dense_cache_update _); by injection E as _ <-.
  - destruct (dense_cache_update _ && _); [injection E as _ <-; by left|]. right. destruct (layer_order call layout s) as [[o|] s1]; cbn [snd].
    2:{ by injection E as _ <-. }
    apply bind_Ok_inv in E as (n & _ & E). destruct (negb _); [injection E as _ <-; apply put_warn_same|].
    destruct (cache_get _ _ _); [by injection E as _ <-|]. destruct (negb _); [injection E as _ <-; apply put_warn_same|].
    apply bind_Ok_inv in E as ([entry s2] & Ee & E). injection E as _ <-. trans s2; [|etrans; [|apply log_summary_same]; by split_and!].
    destruct (n =? 1); apply bind_Ok_inv in Ee as ([p s3] & Ep & Ee); injection Ee as _ <-; [by eapply chunk_plan_same|by eapply window_plans_same].
Qed.

Lemma osa_attend_effect call s out s' : calibrated_once (o_config s) -> osa_attend order sdpa call s = Ok (out, s') ->
  match call_layout (b_geometry (o_base s)) call with
  | None => same_calibration s s'
  | Some layout =>
    if layout_chunk_index layout =? 0 then
      same_calibration (if in_cache_update (o_base s) then s
        else put_mass (<[layer_index call := chunk_mass (o_config s) call layout]> (section_mass s)) s) s'
    else same_calibration s s' \/ same_calibration (layer_order call layout s).2 s'
  end.
Proof.
  intros Hc E. unfold osa_attend in E. apply bind_Ok_inv in E as ([l b] & Hl & E). cbn [fst snd] in E.
  destruct (layout_of_call _ _ _ _ Hl) as (-> & Hg & Hu). destruct l as [layout|]; [|injection E as _ <-; by split_and!].
  assert (put_base b s = s) as Hb.
  { unfold layout_of in Hl. repeat case_match; try discriminate. apply bind_Ok_inv in Hl as ([] & _ & Hl); [|done]. injection Hl as _ <-. by destruct s. }
  rewrite Hb in E. apply bind_Ok_inv in E as ([en s1] & Hp & E). cbn [fst snd] in E. apply prepare_plan_effect in Hp; [|done].
  assert (same_calibration s1 s') as Hs.
  { destruct en as [[plan fi|plans]|].
    - apply bind_Ok_inv in E as (o & _ & E). destruct (nis0 _).
      + destruct fi as [[|]|]; injection E as _ <-; apply record_same.
      + destruct fi as [[|]|]; injection E as _ <-; (trans (put_charge nzero s1); [by split_and!|exact (record_same _ _ _ (put_charge nzero s1))]).
    - destruct (existsb _ _); [injection E as _ <-; apply record_same|]. apply bind_Ok_inv in E as (o & _ & E). injection E as _ <-. apply record_same.
    - injection E as _ <-. apply record_same. }
  destruct (layout_chunk_index layout =? 0); [by subst s1|]. destruct Hp; [left|right]; by etrans.
Qed.

(** ** The invariant *)

Context (c : OsaConfig F) (fs : Z).

(** Starts of forwards as the pipeline stamps them. *)
Definition stamped (e : osa_event) : Prop :=
  match e with BeginForward g => g_frame_seqlen g = fs /\ 0 <= g_query_token_start g /\ 0 < chunk_tokens g | _ => True end.

Definition frozen_order (mass : list (list (list F))) : list (list (list Z)) := freeze_order mass (fs / spatial_tile c).

Record calibrated s (k : calibration) : Prop := {
  cal_config : o_config s = c;
  cal_geometry : b_geometry (o_base s) = k_geometry k;
  cal_update : in_cache_update (o_base s) = k_update k;
  cal_chunk : last_chunk_index s = k_chunk k;
  cal_stamp : forall g, k_geometry k = Some g -> g_frame_seqlen g = fs /\ 0 < chunk_tokens g /\ k_chunk k = g_query_token_start g / chunk_tokens g /\ 0 <= k_chunk k;
  cal_mass : forall l, section_order s !! l = None -> section_mass s !! l = k_mass k !! l;
  cal_order : forall l o, section_order s !! l = Some o -> exists m, k_mass k !! l = Some m /\ o = frozen_order m;
  cal_first : k_chunk k <= 0 -> section_order s = ∅ }.

Lemma calibrated_same s s' k : same_calibration s s' -> calibrated s k -> calibrated s' k.
Proof. intros (?&?&?&?&Hm&Ho) []. split; rewrite ?Hm, ?Ho; try done; congruence. Qed.

Lemma layer_order_calibrated call layout s k : frame_seqlen layout = fs -> k_chunk k <> 0 -> calibrated s k -> 0 <= k_chunk k ->
  calibrated (layer_order call layout s).2 k /\ (layer_order call layout s).1 = frozen_order <$> k_mass k !! layer_index call.
Proof.
  intros Hfs Hch Hk Hpos. unfold layer_order. destruct (section_order s !! layer_index call) as [o|] eqn:Eo.
  { split; [done|]. destruct (cal_order _ _ Hk _ _ Eo) as (m & -> & ->). done. }
  rewrite <- (cal_mass _ _ Hk _ Eo). destruct (section_mass s !! layer_index call) as [m|] eqn:Em.
  2:{ split; [|done]. eapply calibrated_same; [apply put_warn_same|done]. }
  cbn. rewrite Hfs, !(cal_config _ _ Hk). cbn.
  split; [|done]. pose proof Hk as [????? Hm Ho _].
  destruct (flat_row_dense c); (split; cbn; try done; [| |lia]).
  1,3: intros l [Hl El]%lookup_insert_None; rewrite lookup_delete_ne by done; auto.
  all: intros l o El; destruct (decide (layer_index call = l)) as [<-|Hne];
    [rewrite lookup_insert_eq in El; injection El as <-; exists m; split; [by rewrite <- (Hm _ Eo)|done]|rewrite lookup_insert_ne in El by done; eauto].
Qed.

Lemma calibrated_step e s s' k : calibrated_once c -> stamped e -> calibrated s k -> osa_step e s = Ok s' -> calibrated s' (calibrate c k e).
Proof.
  intros Hc Hst Hk E. destruct e as [g|b|call].
  - destruct Hst as (Hfs & Hpos & Hct). cbn in E. unfold osa_begin_forward, osa_on_begin_forward, query_chunk_index in E.
    rewrite py_div_Ok in E by lia. cbn in E. injection E as <-. destruct Hk as [Ec _ Eu Ek _ Hm Ho Hf].
    pose proof (Z.div_pos _ _ Hpos Hct). cbn. rewrite Ek. destruct (Z.ltb_spec (g_query_token_start g / chunk_tokens g) (k_chunk k)).
    + by split; cbn; try done; intros g' [= <-].
    + split; cbn; try done; [by intros g' [= <-]|]. intros ?. apply Hf. lia.
  - injection E as <-. destruct Hk. by split.
  - apply bind_Ok_inv in E as ([out s1] & E & [= <-]). apply osa_attend_effect in E; [|by rewrite (cal_config _ _ Hk)].
    cbn [snd calibrate]. rewrite (cal_geometry _ _ Hk), (cal_update _ _ Hk), (cal_config _ _ Hk) in E.
    destruct (call_layout (k_geometry k) call) as [layout|] eqn:El; [|by eapply calibrated_same].
    assert (exists g, k_geometry k = Some g /\ frame_seqlen layout = g_frame_seqlen g /\ layout_chunk_index layout = g_query_token_start g / chunk_tokens g)
      as (g & Eg & Efs & Ech) by (by apply (call_layout_Some _ call)).
    destruct (cal_stamp _ _ Hk g Eg) as (Hfs & Hct & Hchunk & Hpos). destruct (Z.eqb_spec (layout_chunk_index layout) 0) as [E0|E0]; cbn [andb].
    + eapply calibrated_same; [exact E|]. destruct (k_update k) eqn:Eu; [done|]. cbn [negb]. destruct Hk as [Ec Egg Eup Ekk Hsk Hm Ho Hf].
      assert (section_order s = ∅) as Hso by (apply Hf; lia). split; cbn; try done; try congruence.
      * intros l _. destruct (decide (layer_index call = l)) as [<-|]; [by rewrite !lookup_insert_eq|]. rewrite !lookup_insert_ne by done. apply Hm. by rewrite Hso.
      * intros l o. by rewrite Hso.
    + destruct E as [E|E]; (eapply calibrated_same; [exact E|]); [done|]. apply layer_order_calibrated; [congruence|lia|done|lia].
Qed.

Lemma calibrated_run es s s' k : calibrated_once c -> Forall stamped es -> calibrated s k -> osa_run es s = Ok s' -> calibrated s' (foldl (calibrate c) k es).
Proof.
  intros Hc Hes. revert s k. induction Hes as [|e es He Hes IH]; intros s k Hk E; cbn in E |- *; [by injection E as <-|].
  apply bind_Ok_inv in E as (s1 & E1 & E). eapply IH; [|done]. by eapply calibrated_step.
Qed.

Lemma calibrated_init s : osa_init c = Ok s -> calibrated s calibration_init.
Proof.
  unfold osa_init. intros E. repeat case_match; try discriminate; injection E as <-; (split; cbn; try done; intros l; by rewrite ?lookup_empty).
Qed.

(** ** Plans over a run

    With one density and one pattern per chunk, a plan depends on the view of
    the call and on the mass of its layer only, so a cached plan is the plan the
    call would build. *)

Context (fpb : Z).

Definition pattern_config : Prop :=
  calibrated_once c /\ demand_weighted c = false /\ flat_row_dense c = false /\ chunk_schedule c = "constant"%string.

(** The view of a call ends with the rows of its own queries. *)
Definition own_last (g : ChunkGeometry) (call : SparseAttentionCall F) : Prop :=
  forall segs, key_segments call = Some segs -> exists seg, last segs = Some seg /\ seg.1 + seg.2 = g_query_token_start g + c_q_len call.

(** Events of videos of one frame length and chunk length, whose calls see
    their own rows last. *)
Fixpoint visible_run (g : option ChunkGeometry) (es : list osa_event) : Prop :=
  match es with
  | [] => True
  | BeginForward g' :: es => stamped (BeginForward g') /\ g_frames_per_block g' = fpb /\ visible_run (Some g') es
  | CacheUpdate _ :: es => visible_run g es
  | Attend call :: es => (forall g', g = Some g' -> own_last g' call) /\ visible_run g es
  end.

Lemma visible_run_app k es1 es2 : visible_run (k_geometry k) (es1 ++ es2) <-> visible_run (k_geometry k) es1 /\ visible_run (k_geometry (foldl (calibrate c) k es1)) es2.
Proof.
  clear order sdpa. revert k. induction es1 as [|[g|b|call] es1 IH]; intros k; cbn [app visible_run foldl]; [tauto| | |].
  - pose proof (IH (calibrate c k (BeginForward g))) as Hi. change (k_geometry (calibrate c k (BeginForward g))) with (Some g) in Hi. tauto.
  - apply (IH (calibrate c k (CacheUpdate b))).
  - assert (k_geometry (calibrate c k (Attend call)) = k_geometry k) as Eg by (cbn; repeat case_match; done). pose proof (IH (calibrate c k (Attend call))) as Hi. rewrite Eg in Hi. tauto.
Qed.

Lemma visible_run_stamped g es : visible_run g es -> Forall stamped es.
Proof. revert g. induction es as [|[g'|b|call] es IH]; intros g; cbn; [done|intros (? & _ & ?)|intros ?|intros [_ ?]]; constructor; eauto; done. Qed.

(** Positions play no role in a plan. *)
Definition no_position (l : VisibleLayout) : VisibleLayout :=
  mkLayout (global_frame_ids l) (chunk_offsets l) [] (frame_seqlen l) (frames_per_block l) (query_frames l) (layout_chunk_index l).

(** The view a plan is cached for. *)
Definition sig_layout (sg : signature) (l : VisibleLayout) : Prop :=
  exists g call layout, call_layout (Some g) call = Some layout /\ own_last g call /\ g_frame_seqlen g = fs /\ g_frames_per_block g = fpb /\
    sg.1.1.1 = key_segments call /\ sg.1.1.2 = query_frames layout /\ l = no_position layout.

Lemma call_layout_inv g call layout : call_layout (Some g) call = Some layout -> exists segs, key_segments call = Some segs /\
  visible_layout segs g (c_q_len call) (key_segment_rope_starts call) = Ok (Some layout).
Proof.
  unfold call_layout. destruct (layout_of _ _) as [[l b]|e] eqn:E; [|done]. intros ->. unfold layout_of in E. cbn [b_geometry] in E. destruct (key_segments call) as [segs|]; [|done].
  destruct (_ || _); [done|]. destruct (negb _); [done|]. apply bind_Ok_inv in E as ([l|] & E & El); [|done]. injection El as -> _. by exists segs.
Qed.

Lemma visible_layout_inv segs g q rope l : visible_layout segs g q rope = Ok (Some l) -> g_frame_seqlen g <> 0 /\ q mod g_frame_seqlen g = 0 /\
  no_position l = mkLayout (concat ((fun seg => segment_frames (g_frame_seqlen g) seg.1 seg.2) <$> segs))
    ((fun f => f / g_frames_per_block g - g_query_token_start g / chunk_tokens g) <$> concat ((fun seg => segment_frames (g_frame_seqlen g) seg.1 seg.2) <$> segs)) []
    (g_frame_seqlen g) (g_frames_per_block g) (q / g_frame_seqlen g) (g_query_token_start g / chunk_tokens g).
Proof.
  unfold visible_layout, query_chunk_index, py_div, py_mod. intros E. destruct (Z.eqb_spec (g_frame_seqlen g) 0); [done|]. cbn in E.
  destruct (negb _ || negb (q mod _ =? 0)) eqn:E1; [done|]. apply orb_false_iff in E1 as [_ E1]. apply negb_false_iff, Z.eqb_eq in E1.
  destruct (existsb _ segs); [done|]. destruct (match rope with Some _ => _ | None => false end); [done|].
  destruct segs as [|sg segs]; [done|]. cbn [mbind res_bind] in E. destruct (chunk_tokens g =? 0); [done|]. cbn in E. injection E as <-. done.
Qed.

Lemma sig_layout_fun sg l1 l2 : sig_layout sg l1 -> sig_layout sg l2 -> l1 = l2.
Proof.
  intros (g1 & c1 & y1 & E1 & O1 & F1 & B1 & S1 & Q1 & ->) (g2 & c2 & y2 & E2 & O2 & F2 & B2 & S2 & Q2 & ->).
  destruct (call_layout_inv _ _ _ E1) as (segs & Es1 & V1). destruct (call_layout_inv _ _ _ E2) as (segs' & Es2 & V2). assert (segs' = segs) as -> by congruence.
  destruct (visible_layout_inv _ _ _ _ _ V1) as (Hf & M1 & P1). destruct (visible_layout_inv _ _ _ _ _ V2) as (_ & M2 & P2).
  destruct (O1 _ Es1) as (seg & L1 & W1). destruct (O2 _ Es2) as (seg' & L2 & W2). assert (seg' = seg) as -> by congruence.
  assert (query_frames y1 = c_q_len c1 / g_frame_seqlen g1) as Y1 by exact (f_equal query_frames P1). assert (query_frames y2 = c_q_len c2 / g_frame_seqlen g2) as Y2 by exact (f_equal query_frames P2).
  rewrite F1 in *. rewrite F2 in *. assert (c_q_len c1 = c_q_len c2) as Eq by (pose proof (Z.div_mod (c_q_len c1) fs Hf); pose proof (Z.div_mod (c_q_len c2) fs Hf); congruence || lia).
  assert (g_query_token_start g1 = g_query_token_start g2) as Eg by lia. rewrite P1, P2. unfold chunk_tokens. by rewrite F1, F2, B1, B2, Eg, Eq.
Qed.

(** The plan of a chunk as a function of view and mass. *)
Definition pattern_state (d : F) : osa_state F :=
  mkOsa (mkBase (Some (mkGeometry fs fpb 0 0 0)) [] None 0 0 0 0 false) d c None ∅ ∅ ∅ ∅ (-1) 0 false nzero.
Definition pattern_entry (d : F) (l : VisibleLayout) (mass : list (list (list F))) : res (option (plan_entry F)) :=
  r ← chunk_plan l (frozen_order mass) 0 None (pattern_state d);
  Ok (match r.1.1 with None => None | Some p => Some (SinglePlan p None) end).

Lemma chunk_plan_pattern layout mass d s : pattern_config -> o_config s = c -> o_density s = d -> (exists g, b_geometry (o_base s) = Some g /\ g_frames_per_block g = fpb) ->
  chunk_plan layout (frozen_order mass) 0 None s = (r ← chunk_plan (no_position layout) (frozen_order mass) 0 None (pattern_state d); Ok (r.1, s)) /\
  (forall r s', chunk_plan layout (frozen_order mass) 0 None s = Ok (r, s') -> r.2 = [] /\ s' = s).
Proof.
  intros (_ & Hdw & _ & Hcs) Ec Ed (g & Eg & Ef). assert (osa_sink_frames s = osa_sink_frames (pattern_state d)) as Es.
  { unfold osa_sink_frames. rewrite Ec, Eg. cbn. by rewrite Ef. }
  unfold chunk_plan. change (frames_of_offset (no_position layout) 0) with (frames_of_offset layout 0). change (frame_ages (no_position layout) 0) with (frame_ages layout 0).
  destruct (negb _); [split; [done|by intros r s' [= <- <-]]|]. destruct (frame_ages layout 0) as [ages|e]; [|done]. cbn [mbind res_bind].
  assert (whole_frame_mask layout (frames_of_offset layout 0) ages s = whole_frame_mask (no_position layout) (frames_of_offset layout 0) ages (pattern_state d)) as ->.
  { unfold whole_frame_mask. rewrite Ec, Es. done. }
  destruct (whole_frame_mask _ _ _ _) as [full|e]; [|done]. cbn [mbind res_bind]. unfold call_density. rewrite Ec. cbn [o_config pattern_state]. rewrite bool_decide_eq_true_2 by done. cbn [mbind res_bind fst snd].
  assert (pattern_budget layout full (o_density s) s = pattern_budget (no_position layout) full (o_density (pattern_state d)) (pattern_state d)) as -> by (unfold pattern_budget; by rewrite Ec, Ed).
  destruct (pattern_budget _ _ _ _); [|split; [done|by intros r s' [= <- <-]]]. rewrite Hdw. cbn [flat_rows]. split; [done|by intros r s' [= <- <-]].
Qed.

(** A constant schedule is not stored. *)
Lemma chunk_plan_state layout o off ret s r s' : chunk_schedule (o_config s) = "constant"%string -> chunk_plan layout o off ret s = Ok (r, s') -> s' = s.
Proof.
  intros Hcs E. unfold chunk_plan in E. destruct (negb _); [by injection E as _ <-|]. apply bind_Ok_inv in E as (ages & _ & E). apply bind_Ok_inv in E as (full & _ & E).
  unfold call_density in E. rewrite bool_decide_eq_true_2 in E by done. cbn [mbind res_bind fst snd] in E. destruct (pattern_budget _ _ _ _); [|by injection E as _ <-].
  destruct (demand_weighted _); [|by injection E as _ <-]. apply bind_Ok_inv in E as (w & _ & E). by injection E as _ <-.
Qed.

Lemma window_plans_state layout o offs s r s' : chunk_schedule (o_config s) = "constant"%string -> window_plans layout o offs s = Ok (r, s') -> s' = s.
Proof.
  intros Hcs. revert r. induction offs as [|off offs IH]; intros r E; cbn in E; [by injection E as _ <-|]. apply bind_Ok_inv in E as ([p s1] & Ep & E). apply (chunk_plan_state _ _ _ _ _ _ _ Hcs) in Ep as ->.
  apply bind_Ok_inv in E as ([rest s2] & Er & E). injection E as _ <-. by eapply IH.
Qed.

(** *** The invariant of the plans *)

Record planned (d : F) s (k : calibration) : Prop := {
  pl_density : o_density s = d;
  pl_geometry : forall g, b_geometry (o_base s) = Some g -> g_frames_per_block g = fpb;
  pl_retention : retention s = ∅;
  pl_charge : pending_measure_charge s = nzero;
  pl_first : k_chunk k <= 0 -> o_plans s = ∅;
  pl_plans : forall layer sg e, o_plans s !! layer = Some (sg, e) -> sg.1.1.2 = fpb ->
    exists mass l, k_mass k !! layer = Some mass /\ sig_layout sg l /\ pattern_entry d l mass = Ok e }.

(** States with the same plans. *)
Definition same_plans s s' : Prop :=
  o_density s' = o_density s /\ b_geometry (o_base s') = b_geometry (o_base s) /\ retention s' = retention s /\ o_plans s' = o_plans s /\
  (pending_measure_charge s' = pending_measure_charge s \/ pending_measure_charge s' = nzero).

Lemma planned_same d s s' k : same_plans s s' -> planned d s k -> planned d s' k.
Proof. intros (E1 & E2 & E3 & E4 & E5) []. split; rewrite ?E1, ?E2, ?E3, ?E4; try done. destruct E5; congruence. Qed.

Lemma put_warn_plans w s : same_plans s (put_base (warn_dense_once w (o_base s)) s).
Proof. destruct (warn_same w (o_base s)). split_and!; try done. by left. Qed.

Lemma record_plans p kv f s : same_plans s (put_base (record_density p kv f (o_base s)) s).
Proof. destruct (record_density_same p kv f (o_base s)). split_and!; try done. by left. Qed.

Lemma layer_order_plans call layout s : flat_row_dense (o_config s) = false -> same_plans s (layer_order call layout s).2.
Proof.
  intros Hf. unfold layer_order. destruct (section_order s !! _); [split_and!; try done; by left|]. destruct (section_mass s !! _); [|apply put_warn_plans].
  cbn. rewrite Hf. split_and!; try done. by left.
Qed.

(** A plan beyond chunk 0: found or built, it is the plan of the view and the
    mass of the layer, and planning keeps the invariant. *)
Lemma prepare_plan_pattern d s k call layout r s' : pattern_config -> calibrated s k -> planned d s k -> call_layout (k_geometry k) call = Some layout ->
  (forall g, k_geometry k = Some g -> own_last g call) -> layout_chunk_index layout <> 0 -> frames_per_block layout <> 0 ->
  prepare_plan call layout s = Ok (r, s') ->
  planned d s' k /\
  (dense_cache_update c && k_update k = false -> query_frames layout = fpb -> forall mass, k_mass k !! layer_index call = Some mass -> length mass = num_local_heads call ->
    pattern_entry d (no_position layout) mass = Ok r).
Proof.
  intros Hpc Hk Hp Hl Hown Hch Hfb E. pose proof Hpc as ([Hst Hre] & Hdw & Hfl & Hcs). pose proof (cal_config _ _ Hk) as Ec.
  destruct (call_layout_Some _ _ _ Hl) as (g & Eg & Efs & Ech). destruct (cal_stamp _ _ Hk g Eg) as (Hfs & Hct & Hchunk & Hpos).
  pose proof Hl as Hlg. rewrite Eg in Hlg. pose proof (pl_geometry _ _ _ Hp g ltac:(by rewrite (cal_geometry _ _ Hk))) as Hfpb.
  destruct (layer_order_calibrated call layout s k ltac:(congruence) ltac:(lia) Hk Hpos) as [Hk1 Eo].
  pose proof (layer_order_plans call layout s ltac:(by rewrite Ec)) as Hsame. pose proof (planned_same d _ _ k Hsame Hp) as Hp1.
  unfold prepare_plan in E. rewrite Ec, Hst, Hre in E. cbn [Z.ltb Z.compare andb] in E. rewrite (cal_update _ _ Hk) in E. destruct (dense_cache_update c && k_update k); [injection E as <- <-; by split|].
  destruct (Z.eqb_spec (layout_chunk_index layout) 0); [done|]. destruct (layer_order call layout s) as [o s1] eqn:Elo. cbn [fst snd] in *. subst o.
  destruct (k_mass k !! layer_index call) as [mass|] eqn:Em; cbn [fmap option_fmap option_map] in E; [|injection E as <- <-; split; [done|by intros _ _ m]].
  rewrite py_div_Ok in E by done. cbn [mbind res_bind] in E.
  assert (query_frames layout = fpb -> (query_frames layout mod frames_per_block layout =? 0) = true /\ (query_frames layout / frames_per_block layout =? 1) = true) as Hone.
  { intros Hq. destruct (call_layout_inv _ _ _ Hlg) as (segs & _ & V). destruct (visible_layout_inv _ _ _ _ _ V) as (_ & _ & P).
    assert (frames_per_block layout = g_frames_per_block g) as Eb by exact (f_equal frames_per_block P). rewrite Eb, Hfpb in *. rewrite Hq, Z.mod_same, Z.div_same by done. done. }
  destruct (negb (query_frames layout mod _ =? 0)) eqn:Emod.
  { injection E as <- <-. split; [eapply planned_same; [apply put_warn_plans|done]|]. intros _ Hq. destruct (Hone Hq) as [H1 _]. by rewrite H1 in Emod. }
  set (sg := (key_segments call, query_frames layout, head_start call, Z.of_nat (num_local_heads call))) in E.
  assert (sig_layout sg (no_position layout)) as Hsig by (exists g, call, layout; split_and!; try done; by apply Hown).
  destruct (cache_get (o_plans s1) (layer_index call) sg) as [cached|] eqn:Ecg.
  { injection E as <- <-. split; [done|]. intros _ Hq m [= <-] _. unfold cache_get in Ecg. destruct (o_plans s1 !! layer_index call) as [[sg' e]|] eqn:Epl; [|done]. case_decide as Esg; [|done].
    injection Ecg as ->. subst sg'. destruct (pl_plans _ _ _ Hp1 _ _ _ Epl Hq) as (m' & l & Em' & Hl' & He). assert (m' = mass) as -> by congruence. by rewrite (sig_layout_fun _ _ _ Hsig Hl'). }
  destruct (negb (Nat.eqb _ _)) eqn:Elen.
  { injection E as <- <-. split; [eapply planned_same; [apply put_warn_plans|done]|]. intros _ _ m [= <-] Hm. unfold frozen_order, freeze_order in Elen. rewrite length_fmap, Hm, Nat.eqb_refl in Elen. done. }
  apply bind_Ok_inv in E as ([en s2] & Ee & E). injection E as <- <-.
  assert (same_plans s1 s2 /\ (query_frames layout = fpb -> pattern_entry d (no_position layout) mass = Ok en)) as [Hs2 Hen].
  { destruct (_ =? 1) eqn:E1.
    - apply bind_Ok_inv in Ee as ([p s3] & Ep & Ee). injection Ee as <- <-. rewrite (pl_retention _ _ _ Hp1), lookup_empty in Ep.
      destruct (chunk_plan_pattern layout mass d s1 Hpc (cal_config _ _ Hk1) (pl_density _ _ _ Hp1)) as [Hcp Hnil]; [exists g; split; [by rewrite (cal_geometry _ _ Hk1)|done]|].
      destruct (Hnil _ _ Ep) as [Ep2 ->]. split; [split_and!; try done; by left|]. intros _. unfold pattern_entry. rewrite Ep in Hcp. destruct (chunk_plan (no_position layout) _ _ _ _) as [[q s4]|e]; [|done].
      cbn [mbind res_bind fst snd] in *. injection Hcp as <-. rewrite Ep2. cbn [flat_token_index]. done.
    - apply bind_Ok_inv in Ee as ([ps s3] & Ep & Ee). injection Ee as _ <-. split; [|intros Hq; destruct (Hone Hq); congruence].
      rewrite (window_plans_state layout _ _ s1 _ _ ltac:(by rewrite (cal_config _ _ Hk1)) Ep). split_and!; try done; by left. }
  split.
  - cbn [fst snd]. unfold log_summary. assert (planned d (put_plans (cache_put (o_plans s2) (layer_index call) sg en) s2) k) as Hfin; [|destruct (_ || _); [exact Hfin|eapply planned_same; [|exact Hfin]; split_and!; try done; by left]].
    pose proof (planned_same d _ _ k Hs2 Hp1) as [P1 P2 P3 P4 P5 P6]. split; try done; [cbn; lia|]. cbn [put_plans o_plans]. intros layer sg' e He Hq.
    apply cache_put_lookup in He as [[-> [= -> ->]]|[_ He]]; [|eauto]. exists mass, (no_position layout). split; [done|]. split; [done|]. by apply Hen.
  - intros _ Hq m [= <-] _. by apply Hen.
Qed.

(** A call whose plan can be built does not raise. *)
Lemma prepare_plan_ok d s k call layout mass e : pattern_config -> calibrated s k -> planned d s k -> call_layout (k_geometry k) call = Some layout ->
  layout_chunk_index layout <> 0 -> frames_per_block layout = fpb -> fpb <> 0 -> query_frames layout = fpb -> k_mass k !! layer_index call = Some mass ->
  pattern_entry d (no_position layout) mass = Ok e -> exists r, prepare_plan call layout s = Ok r.
Proof.
  intros Hpc Hk Hp Hl Hch Hfb Hne Hqf Em He. pose proof Hpc as ([Hst Hre] & Hdw & Hfl & Hcs). pose proof (cal_config _ _ Hk) as Ec.
  destruct (call_layout_Some _ _ _ Hl) as (g & Eg & Efs & Ech). destruct (cal_stamp _ _ Hk g Eg) as (Hfs & Hct & Hchunk & Hpos).
  pose proof (pl_geometry _ _ _ Hp g ltac:(by rewrite (cal_geometry _ _ Hk))) as Hfpb.
  destruct (layer_order_calibrated call layout s k ltac:(congruence) ltac:(lia) Hk Hpos) as [Hk1 Eo].
  pose proof (planned_same d _ _ k (layer_order_plans call layout s ltac:(by rewrite Ec)) Hp) as Hp1.
  unfold prepare_plan. rewrite Ec, Hst, Hre. cbn [Z.ltb Z.compare andb]. destruct (_ && _); [by eexists|]. destruct (Z.eqb_spec (layout_chunk_index layout) 0); [done|].
  destruct (layer_order call layout s) as [o s1]. cbn [fst snd] in *. subst o. rewrite Em. cbn [fmap option_fmap option_map]. rewrite py_div_Ok by congruence. cbn [mbind res_bind].
  rewrite Hfb, Hqf, Z.mod_same, Z.div_same by done. cbn [Z.eqb negb]. destruct (cache_get _ _ _); [by eexists|]. destruct (negb _); [by eexists|]. rewrite (pl_retention _ _ _ Hp1), lookup_empty.
  destruct (chunk_plan_pattern layout mass d s1 Hpc (cal_config _ _ Hk1) (pl_density _ _ _ Hp1)) as [-> _]; [exists g; split; [by rewrite (cal_geometry _ _ Hk1)|done]|].
  unfold pattern_entry in He. destruct (chunk_plan (no_position layout) _ _ _ _) as [[q s4]|]; [by eexists|done].
Qed.

Lemma call_layout_of (call : SparseAttentionCall F) (b : base_state F) l : call_layout (b_geometry b) call = Some l -> layout_of call b = Ok (Some l, b).
Proof.
  unfold call_layout, layout_of. cbn [b_geometry]. destruct (b_geometry b); [|done]. destruct (key_segments call); [|done]. destruct (_ || _); [done|]. destruct (negb _); [done|].
  destruct (visible_layout _ _ _ _) as [[y|]|e]; [|done..]. cbn. by intros [= ->].
Qed.

Lemma osa_attend_planned d s k call out s' : pattern_config -> 0 < fpb -> calibrated s k -> planned d s k -> (forall g, k_geometry k = Some g -> own_last g call) ->
  osa_attend order sdpa call s = Ok (out, s') -> planned d s' (calibrate c k (Attend call)).
Proof.
  intros Hpc Hfp Hk Hp Hown E. unfold osa_attend in E. apply bind_Ok_inv in E as ([l b] & Hl & E). cbn [fst snd] in E.
  destruct (layout_of_call _ _ _ _ Hl) as (El & Hg & Hu). cbn [calibrate]. rewrite (cal_geometry _ _ Hk) in El. rewrite El.
  assert (same_plans s (put_base b s)) as Hb by (split_and!; try done; by left). destruct l as [layout|]; [|injection E as _ <-; by eapply planned_same].
  pose proof (planned_same d _ _ k Hb Hp) as Hp0. assert (calibrated (put_base b s) k) as Hk0 by (eapply calibrated_same; [|exact Hk]; by split_and!).
  apply bind_Ok_inv in E as ([en s1] & Hpr & E). cbn [fst snd] in E.
  assert (same_plans s1 s') as Hs'.
  { destruct en as [[plan fi|plans]|].
    - apply bind_Ok_inv in E as (o & _ & E). destruct (nis0 _).
      + destruct fi as [[|]|]; injection E as _ <-; apply record_plans.
      + destruct fi as [[|]|]; injection E as _ <-; (unfold record_density; repeat case_match; split_and!; try done; by right).
    - destruct (existsb _ _); [injection E as _ <-; apply record_plans|]. apply bind_Ok_inv in E as (o & _ & E). injection E as _ <-. apply record_plans.
    - injection E as _ <-. apply record_plans. }
  destruct (Z.eqb_spec (layout_chunk_index layout) 0) as [E0|E0]; cbn [andb].
  - eapply planned_same; [exact Hs'|]. apply prepare_plan_effect in Hpr; [|rewrite (cal_config _ _ Hk0); apply Hpc]. destruct (Z.eqb_spec (layout_chunk_index layout) 0); [|done]. rewrite (cal_update _ _ Hk0) in Hpr. subst s1.
    destruct (call_layout_Some _ _ _ El) as (g & Eg & _ & Ech). destruct (cal_stamp _ _ Hk g Eg) as (_ & _ & Hchunk & _). pose proof (pl_first _ _ _ Hp0 ltac:(lia)) as Hpl.
    destruct (k_update k); cbn [negb]; [done|]. destruct Hp0 as [P1 P2 P3 P4 P5 P6]. split; try done. cbn [put_mass o_plans]. intros layer sg ent He. rewrite Hpl in He. discriminate He.
  - eapply planned_same; [exact Hs'|]. eapply prepare_plan_pattern; try done. destruct (call_layout_Some _ _ _ El) as (g & Eg & _). rewrite Eg in El.
    destruct (call_layout_inv _ _ _ El) as (segs & _ & V). destruct (visible_layout_inv _ _ _ _ _ V) as (_ & _ & P). assert (frames_per_block layout = g_frames_per_block g) as -> by exact (f_equal frames_per_block P).
    rewrite (pl_geometry _ _ _ Hp g ltac:(by rewrite (cal_geometry _ _ Hk))). lia.
Qed.

Lemma planned_run d es s s' k : pattern_config -> 0 < fpb -> visible_run (k_geometry k) es -> calibrated s k -> planned d s k -> osa_run es s = Ok s' ->
  calibrated s' (foldl (calibrate c) k es) /\ planned d s' (foldl (calibrate c) k es).
Proof.
  intros Hpc Hfp. revert s k. induction es as [|e es IH]; intros s k Hv Hk Hp E; cbn in E |- *; [by injection E as <-|]. apply bind_Ok_inv in E as (s1 & E1 & E).
  assert (stamped e /\ visible_run (k_geometry (calibrate c k e)) es /\ planned d s1 (calibrate c k e)) as (Hst & Hv1 & Hp1); [|apply (IH s1); try done; by eapply calibrated_step; try apply Hpc].
  destruct e as [g|b|call]; cbn [visible_run] in Hv.
  - destruct Hv as (Hst & Hfb & Hv). split; [done|]. split; [done|]. cbn in E1. unfold osa_begin_forward, osa_on_begin_forward, query_chunk_index in E1. destruct Hst as (Hfs & Hpos & Hct).
    rewrite py_div_Ok in E1 by lia. cbn in E1. injection E1 as <-. rewrite (cal_chunk _ _ Hk). destruct Hp as [P1 P2 P3 P4 P5 P6]. cbn. destruct (Z.ltb_spec (g_query_token_start g / chunk_tokens g) (k_chunk k)).
    + split; cbn; try done. by intros g' [= <-].
    + split; cbn; try done; [by intros g' [= <-]|]. intros ?. apply P5. lia.
  - split; [done|]. split; [done|]. cbn in E1. injection E1 as <-. destruct Hp. by split.
  - destruct Hv as [Hown Hv]. split; [done|]. split; [cbn; repeat case_match; done|]. cbn in E1. apply bind_Ok_inv in E1 as ([out s2] & E1 & [= <-]). by eapply osa_attend_planned.
Qed.

Lemma planned_init s : osa_init c = Ok s -> planned (o_density s) s calibration_init.
Proof.
  unfold osa_init. intros E. repeat case_match; try discriminate; injection E as <-; by split.
Qed.

(** ** The shape of a measured mass *)

(** Rows of query tiles, columns of key tiles. *)
Definition mass_shape (mass : list (list (list F))) : Prop :=
  Forall (fun h => length h = Z.to_nat (cdiv fs (oc_query_tile c)) /\ Forall (fun row => length row = Z.to_nat (cdiv fs (spatial_tile c))) h) mass.

Lemma index_add_shape n m acc idx rows : length acc = n /\ Forall (fun r => length r = m) acc -> Forall (fun r => length r = m) rows ->
  length (index_add (F:=F) n acc idx rows) = n /\ Forall (fun r => length r = m) (index_add n acc idx rows).
Proof.
  unfold index_add. revert acc rows. induction idx as [|i idx IH]; intros acc [|r rows] Ha Hr; cbn; try done. apply Forall_cons in Hr as [Hr Hrs]. apply IH; [|done].
  destruct (acc !! Z.to_nat i) as [a|] eqn:E; [|done]. destruct Ha as [Hl Hf]. split; [by rewrite length_insert|]. apply Forall_insert; [done|]. unfold vadd. rewrite length_zip_with, (Forall_lookup_1 _ _ _ _ Hf E). lia.
Qed.

Lemma chunk_mass_shape call layout : frame_seqlen layout = fs -> 0 < fs -> 0 < oc_query_tile c -> 0 < spatial_tile c ->
  length (chunk_mass c call layout) = num_local_heads call /\ mass_shape (chunk_mass c call layout).
Proof.
  intros Ef Hfs Hq Ht. unfold chunk_mass, measure_section_tile_mass. split; [by rewrite length_fmap, length_seq|]. apply Forall_fmap, Forall_forall. intros h _. unfold compose. cbv beta zeta. rewrite Ef.
  assert (forall a, 0 < a -> (fs + a - 1) / a = cdiv fs a) as Hcd.
  { intros a Ha. unfold cdiv. symmetry. apply (Z.div_unique (fs + a - 1) a (- (- fs / a)) (fs + a - 1 - a * - (- fs / a))); [|lia].
    pose proof (Z.div_mod (- fs) a ltac:(lia)). pose proof (Z.mod_pos_bound (- fs) a Ha). lia. }
  rewrite !Hcd by done. set (T := Z.to_nat (cdiv fs (oc_query_tile c))). set (K := Z.to_nat (cdiv fs (spatial_tile c))).
  assert (forall per_tile : Z -> list F, (forall m, length (per_tile m) = K) -> forall bs acc, length acc = T /\ Forall (fun r => length r = K) acc ->
    let r := foldl (fun mass block => index_add T mass ((fun m => m mod fs / oc_query_tile c) <$> block) (per_tile <$> block)) acc bs in length r = T /\ Forall (fun r => length r = K) r) as Hfold.
  { intros per_tile Hper. induction bs as [|b bs IH]; intros acc Ha; cbn; [done|]. apply IH. apply index_add_shape; [done|]. apply Forall_fmap, Forall_forall. intros m _. apply Hper. }
  match goal with |- context [foldl ?f ?a ?bs] => assert (length (foldl f a bs) = T /\ Forall (fun r => length r = K) (foldl f a bs)) as [Hl Hf] end.
  { apply Hfold; [intros m; unfold tile_sums; rewrite length_fmap; unfold zrange; rewrite length_seqZ; unfold K; lia|].
    split; [apply length_replicate|]. apply Forall_replicate. unfold zeros. apply length_replicate. }
  split.
  - rewrite length_zip_with, Hl, length_fmap. unfold zrange. rewrite length_seqZ. unfold T. lia.
  - apply Forall_forall. intros r (i & row & n & -> & Hrow & _)%elem_of_lookup_zip_with. rewrite length_fmap. exact (Forall_lookup_1 _ _ _ _ Hf Hrow).
Qed.

Lemma calibrated_shape es k : 0 < fs -> 0 < oc_query_tile c -> 0 < spatial_tile c -> Forall stamped es ->
  (forall g, k_geometry k = Some g -> g_frame_seqlen g = fs) /\ (forall l m, k_mass k !! l = Some m -> mass_shape m) ->
  forall l m, k_mass (foldl (calibrate c) k es) !! l = Some m -> mass_shape m.
Proof.
  intros Hfs Hq Ht Hes. revert k. induction Hes as [|e es He Hes IH]; intros k [Hg Hm]; cbn [foldl]; [done|]. apply IH. destruct e as [g|b|call]; cbn [calibrate].
  - split; cbn; [intros g' [= <-]; apply He|]. intros l m. case_match; [by rewrite lookup_empty|apply Hm].
  - by split.
  - destruct (call_layout (k_geometry k) call) as [layout|] eqn:El; [|done]. destruct (_ && _); [|done]. split; [done|]. cbn. intros l m [[<- <-]|[_ Hl]]%lookup_insert_Some; [|eauto].
    destruct (call_layout_Some _ _ _ El) as (g & Eg & Ef & _). apply chunk_mass_shape; try done. rewrite Ef. by apply Hg.
Qed.

End trace.
