(* ===== verification/OsaClaims.v ===== *)
(** * OsaClaims: Oracle Sparse Attention computes the attention it plans *)

From Stdlib Require Import Field QArith Qcanon.
From S2P Require Import Prelude Num SparsePlan SparsePlanSpec SparseKernel SparseKernelSpec SparseContext SparseBackend Osa OsaSpec OsaTrace.

Open Scope Z_scope.

Section claims.
Context {F : Type} `{!Num F} `{!NumExp F} `{!NumLaws F} `{!NumExpLaws F} `{!TorchOrder F} `{!TorchOrderLaws F}.
Add Field NumFieldO : (num_field (F:=F)).
Implicit Types s : osa_state F.

(** A call that plans on a layer calibrated by chunk 0, with the default
    settings of the method. *)
Record fresh_call (call : SparseAttentionCall F) s (layout : VisibleLayout) (mass : list (list (list F))) (ages : list Z)
    (full : list bool) (budget : F) (T kt : nat) : Prop := {
  fc_layout : layout_of call (o_base s) = Ok (Some layout, o_base s);
  fc_upd : in_cache_update (o_base s) = false;
  fc_steps : dense_first_steps (o_config s) = 0;
  fc_modes : replan_each_chunk (o_config s) = false /\ demand_weighted (o_config s) = false /\ flat_row_dense (o_config s) = false /\
    chunk_schedule (o_config s) = "constant"%string;
  fc_chunk : layout_chunk_index layout <> 0;
  fc_mass : section_order s !! layer_index call = None /\ section_mass s !! layer_index call = Some mass /\ retention s !! layer_index call = None;
  fc_shape : length mass = num_local_heads call /\ Forall (fun h => length h = T /\ Forall (fun row => length row = kt) h) mass;
  fc_single : query_frames layout = frames_per_block layout /\ frames_per_block layout <> 0;
  fc_miss : o_plans s !! layer_index call = None;
  fc_own : existsb id (frames_of_offset layout 0) = true;
  fc_ages : frame_ages layout 0 = Ok ages;
  fc_full : whole_frame_mask layout (frames_of_offset layout 0) ages s = Ok full;
  fc_budget : pattern_budget layout full (o_density s) s = Some budget;
  fc_sizes : 0 < frame_seqlen layout /\ 0 < spatial_tile (o_config s) /\ 0 < oc_query_tile (o_config s) /\ (0 < num_local_heads call)%nat /\ (0 < T)%nat /\
    frame_seqlen layout <= Z.of_nat T * oc_query_tile (o_config s) /\
    1 <= frame_seqlen layout / spatial_tile (o_config s) <= Z.of_nat kt }.

Section fresh.
Context (call : SparseAttentionCall F) s layout mass ages full budget (T kt : nat) (Hc : fresh_call call s layout mass ages full budget T kt).
Local Abbreviation fs := (frame_seqlen layout).
Local Abbreviation ts := (spatial_tile (o_config s)).
Local Abbreviation order := (freeze_order mass (fs / ts)).
Local Abbreviation k := (tiles_kept layout full ts (fs / ts) budget).
Local Abbreviation the_plan := (build_block_plan (F:=F) ((fun h : list (list Z) => take (Z.to_nat k) <$> h) <$> order)
  (frame_offsets (negb <$> full) layout) (frame_offsets full layout) fs (oc_query_tile (o_config s)) ts (kv_len layout) None).

Lemma fresh_order : order_ok (num_local_heads call) T (fs / ts) order.
Proof. destruct Hc as [????????????? Hsz]. destruct fc_shape0 as [H1 H2]. eapply freeze_order_ok; [done|done|lia]. Qed.

Lemma fresh_num_tiles : Z.of_nat (length (default [] (head (default [] (head order))))) = fs / ts.
Proof.
  destruct fresh_order as [Hl Hf]. pose proof (fc_sizes _ _ _ _ _ _ _ _ _ Hc) as (_ & _ & _ & HH & HT & _ & HFT).
  destruct order as [|h0 o]; [simpl in Hl; lia|]. simpl. apply Forall_cons in Hf as [[HT0 Hrows] _].
  destruct h0 as [|r0 h0]; [simpl in HT0; lia|]. simpl. apply Forall_cons in Hrows as [Hr _]. rewrite Hr, length_zrange. lia.
Qed.

Lemma fresh_plan s' : o_config s' = o_config s -> o_base s' = o_base s -> o_density s' = o_density s ->
  chunk_plan layout order 0 None s' = Ok ((Some the_plan, []), s').
Proof.
  intros Ec Eb Ed. pose proof Hc as [HL Hu Hst (Hre & Hdw & Hfr & Hcs) Hch Hms Hsh Hsi Hmi Hown Hag Hfu Hbu Hsz].
  unfold chunk_plan. rewrite Hown. cbn [negb]. rewrite Hag. cbn [mbind res_bind].
  assert (whole_frame_mask layout (frames_of_offset layout 0) ages s' = Ok full) as ->.
  { rewrite <- Hfu. unfold whole_frame_mask, osa_sink_frames. by rewrite Ec, Eb. }
  cbn [mbind res_bind]. unfold call_density. rewrite Ec, Ed, Hcs. cbn [bool_decide]. rewrite bool_decide_eq_true_2 by done. cbn [mbind res_bind fst snd].
  assert (pattern_budget layout full (o_density s) s' = Some budget) as -> by (rewrite <- Hbu; unfold pattern_budget; by rewrite Ec).
  rewrite Hdw. cbn [flat_rows]. unfold tiles_kept. by rewrite fresh_num_tiles.
Qed.

(** The state after the layer's order is frozen. *)
Definition frozen : osa_state F := put_mass (delete (layer_index call) (section_mass s)) (put_order (<[layer_index call := order]> (section_order s)) s).

Lemma fresh_prepare : exists s', prepare_plan call layout s = Ok (Some (SinglePlan the_plan None), s') /\
  pending_measure_charge s' = pending_measure_charge s /\ section_order s' !! layer_index call = Some order.
Proof.
  pose proof Hc as [HL Hu Hst (Hre & Hdw & Hfr & Hcs) Hch (Ho & Hm & Hret) (Hsh & _) (Hqf & Hfp) Hmi Hown Hag Hfu Hbu Hsz].
  unfold prepare_plan. rewrite Hu, andb_false_r, Hst, Hre. cbn [Z.ltb Z.compare andb].
  destruct (Z.eqb_spec (layout_chunk_index layout) 0) as [|_]; [done|].
  assert (layer_order call layout s = (Some order, frozen)) as ->.
  { unfold layer_order. rewrite Ho, Hm. cbn. rewrite Hfr. done. }
  rewrite py_div_Ok by done. cbn [mbind res_bind]. rewrite Hqf, Z.mod_same, Z.div_same by done. cbn [Z.eqb negb].
  assert (cache_get (o_plans frozen) (layer_index call)
    (key_segments call, frames_per_block layout, head_start call, Z.of_nat (num_local_heads call)) = None) as -> by (unfold cache_get; cbn; by rewrite Hmi).
  destruct (fresh_order) as [Hlen _]. rewrite Hlen, Nat.eqb_refl. cbn [negb].
  change (retention frozen) with (retention s). rewrite Hret, fresh_plan by done. cbn [mbind res_bind fst snd flat_token_index].
  eexists. split; [done|]. unfold log_summary. case_match; cbn; (split; [done|]); by rewrite lookup_insert_eq.
Qed.

End fresh.

(** The tiles a frozen order ranks first carry at
    least as much mass of chunk 0 as the tiles it leaves out. *)
Lemma freeze_order_top (mass : list (list (list F))) FT h t row (k : nat) i j :
  mass !! h ≫= (fun r => r !! t) = Some row ->
  i ∈ take k (order_row (freeze_order mass FT) h t) -> j ∈ zrange 0 (Z.of_nat (length (take (Z.to_nat FT) row))) ->
  j ∉ take k (order_row (freeze_order mass FT) h t) -> nle (nth_num row j) (nth_num row i).
Proof.
  intros Hm. unfold order_row, freeze_order. rewrite list_lookup_fmap. destruct (mass !! h) as [hm|]; [|done]. cbn in *.
  rewrite list_lookup_fmap, Hm. cbn. set (body := take (Z.to_nat FT) row). intros Hi Hj Hnj.
  assert (j ∈ drop k (argsort_desc body)) as Hjd.
  { rewrite <- (argsort_desc_perm body), <- (take_drop k (argsort_desc body)) in Hj. set_solver. }
  assert (i ∈ zrange 0 (Z.of_nat (length body))) as Hir.
  { rewrite <- (argsort_desc_perm body), <- (take_drop k (argsort_desc body)). set_solver. }
  assert (nleb (nth_num body j) (nth_num body i) = true) as Hle.
  { pose proof (argsort_desc_sorted body) as Hs. rewrite <- (take_drop k (argsort_desc body)) in Hs. revert Hs Hi Hjd.
    generalize (take k (argsort_desc body)) (drop k (argsort_desc body)). intros l1 l2 Hs Hi Hjd. induction l1 as [|x l1 IH]; [set_solver|].
    simpl in Hs. apply StronglySorted_cons in Hs as [Hx Hs]. apply elem_of_cons in Hi as [->|Hi]; [|by apply IH].
    rewrite Forall_forall in Hx. apply Hx. set_solver. }
  assert (forall x, x ∈ zrange 0 (Z.of_nat (length body)) -> nth_num body x = nth_num row x) as Hb.
  { intros x Hx%elem_of_zrange. unfold nth_num, body in *. rewrite lookup_take_lt; [done|]. rewrite length_take in Hx. lia. }
  unfold nle. by rewrite <- !Hb.
Qed.

(** ** Attention under a pattern *)

(** A call that runs the plan of the first [k] tiles of an order. *)
Lemma pattern_attention (order : list (nat * nat) -> list (nat * nat)) sdpa call s s' layout tiles full (T : nat) k :
  let fs := frame_seqlen layout in let ts := spatial_tile (o_config s) in let qt := oc_query_tile (o_config s) in
  let p := build_block_plan (F:=F) ((fun h : list (list Z) => take (Z.to_nat k) <$> h) <$> tiles) (frame_offsets (negb <$> full) layout) (frame_offsets full layout) fs qt ts (kv_len layout) None in
  (forall l, order l ≡ₚ l) -> layout_of call (o_base s) = Ok (Some layout, o_base s) -> prepare_plan call layout s = Ok (Some (SinglePlan p None), s') ->
  order_ok (num_local_heads call) T (fs / ts) tiles -> length full = length (global_frame_ids layout) -> num_other layout full <> 0 -> 1 <= k <= fs / ts ->
  0 < fs -> 0 < ts -> 0 < qt -> (0 < num_local_heads call)%nat -> fs <= Z.of_nat T * qt ->
  exists out s'', osa_attend order sdpa call s = Ok (Some out, s'') /\
  forall b m h, (b < c_batch call)%nat -> 0 <= m < c_q_len call -> (h < num_local_heads call)%nat ->
    let t := Z.to_nat (m mod fs / qt) in (t < T)%nat /\
    out !! (b, m, h) = Some (attend_keys (Z.to_nat (head_dim call)) (block_logit (query call) (key call) (softmax_scale call) b m h) (fun n => value call b n h)
      (filter (fun n => osa_reads layout ts full k (order_row tiles h t) n = true) (zrange 0 (kv_len layout)))).
Proof.
  intros fs ts qt p Hord HL Hprep Hok Hfl Hno Hk Hfs Hts Hqt HH Hcov. destruct (layout_of_Some _ _ _ _ HL) as (_ & Hmod & _). fold fs in Hmod.
  destruct (block_sparse_attention order (c_batch call) (num_local_heads call) (c_q_len call) (Z.to_nat (head_dim call))
    (query call) (key call) (value call) p (softmax_scale call)) as [out|e] eqn:Eout.
  2:{ exfalso. unfold block_sparse_attention in Eout. change (bp_frame_seqlen p) with fs in Eout. by rewrite Hmod in Eout. }
  exists out. assert (exists s'', osa_attend order sdpa call s = Ok (Some out, s'')) as [s'' E].
  { unfold osa_attend. rewrite HL. cbn [mbind res_bind fst snd]. assert (put_base (o_base s) s = s) as -> by (by destruct s). rewrite Hprep. cbn [mbind res_bind fst snd].
    unfold block_attention. rewrite Eout. cbn [mbind res_bind]. destruct (nis0 _); by eexists. }
  exists s''. split; [done|]. intros b m h Hb Hm Hh t. pose proof (Z.mod_pos_bound m fs Hfs) as Hmm.
  assert (0 <= m mod fs / qt < Z.of_nat T) as Hqtile by (split; [apply Z.div_pos; lia|apply Z.div_lt_upper_bound; lia]). assert (t < T)%nat as Ht by (unfold t; lia). split; [done|].
  assert (q_tiles_per_frame p = T) as Etpf.
  { unfold p, build_block_plan. cbn [q_tiles_per_frame]. destruct Hok as [Hlen Hf]. destruct tiles as [|h0 o]; [simpl in Hlen; lia|]. cbn. rewrite length_fmap. apply Forall_cons in Hf as [[? _] _]. done. }
  rewrite (block_sparse_attention_row order _ _ _ _ _ _ _ p _ Hord HH Hqt Hfs Hts) with (out := out) by (done || (rewrite Etpf; exact Hcov)). f_equal.
  assert (0 <= k <= frame_seqlen layout / ts) as Hk0 by (fold fs; lia).
  assert (Z.of_nat (length (block_plan_row p h m)) = num_full full * (fs / ts) + num_other layout full * k) as Hlen
    by exact (uniform_row_length layout _ full k qt ts _ _ h t Hfs Hts Hok Hh Ht Hfl Hk0).
  assert (block_keys ts (block_plan_row p h m) ≡ₚ filter (fun n => osa_reads layout ts full k (order_row tiles h t) n = true) (zrange 0 (kv_len layout))) as Hkeys
    by exact (uniform_plan_keys layout _ full k qt ts _ _ h t Hfs Hts Hok Hh Ht Hfl).
  rewrite decide_False; [by apply attend_keys_perm|]. intros E0. rewrite E0 in Hlen. simpl in Hlen.
  assert (0 <= num_other layout full) by (unfold num_other, num_full, num_frames; pose proof (length_filter_negb full); rewrite <- Hfl; lia).
  assert (0 <= num_full full) by (unfold num_full; lia). nia.
Qed.

(** *** Frames kept whole *)

(** The first visible frame of the queries' own chunk. *)
Definition first_own (layout : VisibleLayout) (f0 : Z) : Prop :=
  (exists i, chunk_offsets layout !! i = Some 0 /\ global_frame_ids layout !! i = Some f0) /\
  (forall i f, chunk_offsets layout !! i = Some 0 -> global_frame_ids layout !! i = Some f -> f0 <= f).

(** The frames of the own chunk, of the sink, and the latest ones before the
    own chunk, each where the settings keep them whole. *)
Definition whole_frames (c : OsaConfig F) (layout : VisibleLayout) (f0 : Z) : list bool :=
  let sink := match sink_latent_frames c with Some n => n | None => sink_chunks c * frames_per_block layout end in
  zip_with (fun f o => keep_own_chunk_full c && (o =? 0) || keep_sink_full c && (f <? sink) || keep_recent_frames_full c && ((0 <? f0 - f) && (f0 - f <=? num_recent_frames c)))
    (global_frame_ids layout) (chunk_offsets layout).

Lemma zmin_list_spec l f0 : f0 ∈ l -> (forall f, f ∈ l -> f0 <= f) -> zmin_list l = Ok f0.
Proof.
  assert (forall l x, let m := foldl Z.min x l in m ∈ x :: l /\ Forall (fun f => m <= f) (x :: l)) as Hmin.
  { clear. induction l as [|y l IH]; intros x; cbn; [by repeat constructor|]. destruct (IH (Z.min x y)) as [H1 H2]. apply Forall_cons in H2 as [H2 H3]. split.
    - apply elem_of_cons in H1 as [->|H1]; [|set_solver]. destruct (Z.min_spec x y) as [[_ ->]|[_ ->]]; set_solver.
    - repeat constructor; [lia..|done]. }
  destruct l as [|x l]; [set_solver|]. intros H1 H2. cbn. f_equal. destruct (Hmin l x) as [M1 M2]. rewrite Forall_forall in M2. pose proof (M2 _ H1). pose proof (H2 _ M1). lia.
Qed.

Lemma first_own_ages layout f0 : length (chunk_offsets layout) = length (global_frame_ids layout) -> first_own layout f0 ->
  existsb id (frames_of_offset layout 0) = true /\ frame_ages layout 0 = Ok ((fun f => f0 - f) <$> global_frame_ids layout).
Proof.
  intros Hl [(i & Ho & Hf) Hmin]. split.
  - apply existsb_exists. exists true. split; [|done]. apply list_elem_of_In, list_elem_of_lookup. exists i. unfold frames_of_offset. by rewrite list_lookup_fmap, Ho.
  - unfold frame_ages. rewrite (zmin_list_spec _ f0); [done| |].
    + apply elem_of_masked. exists i. split; [unfold frames_of_offset; by rewrite list_lookup_fmap, Ho|done].
    + intros f (j & Hj & Hfj)%elem_of_masked. unfold frames_of_offset in Hj. rewrite list_lookup_fmap in Hj. destruct (chunk_offsets layout !! j) as [o|] eqn:Eo; [|done].
      cbn in Hj. injection Hj as Hj. apply Z.eqb_eq in Hj as ->. by apply (Hmin j).
Qed.

Lemma whole_frame_mask_whole layout f0 s g : length (chunk_offsets layout) = length (global_frame_ids layout) -> b_geometry (o_base s) = Some g -> g_frames_per_block g = frames_per_block layout ->
  whole_frame_mask layout (frames_of_offset layout 0) ((fun f => f0 - f) <$> global_frame_ids layout) s = Ok (whole_frames (o_config s) layout f0).
Proof.
  intros Hl Eg Ef. unfold whole_frame_mask, whole_frames, osa_sink_frames, frames_of_offset, sink_frames, recent_mask, mask_or. rewrite Eg, Ef. set (c := o_config s).
  set (sink := match sink_latent_frames c with Some n => n | None => sink_chunks c * frames_per_block layout end).
  assert (match sink_latent_frames c with Some n => Ok n | None => Ok (sink_chunks c * frames_per_block layout) end = Ok sink) as -> by (unfold sink; by destruct (sink_latent_frames c)).
  cbn [mbind res_bind]. clearbody sink.
  destruct (keep_own_chunk_full c), (keep_sink_full c), (keep_recent_frames_full c); cbn [mbind res_bind]; f_equal; revert Hl; generalize (chunk_offsets layout);
    induction (global_frame_ids layout) as [|f fs IH]; intros [|o os] Hl; try done; csimpl in *; (f_equal; first [apply IH; lia|by rewrite ?orb_false_r, ?orb_false_l]).
Qed.

(** *** The pattern of a view *)

Lemma pattern_entry_built (c : OsaConfig F) fpb d layout mass f0 budget (T kt : nat) :
  let fs := frame_seqlen layout in let ts := spatial_tile c in let full := whole_frames c layout f0 in let k := tiles_kept layout full ts (fs / ts) budget in
  pattern_config c -> frames_per_block layout = fpb -> length (chunk_offsets layout) = length (global_frame_ids layout) -> first_own layout f0 ->
  pattern_budget layout full d (pattern_state c fs fpb d) = Some budget -> order_ok (length mass) T (fs / ts) (freeze_order mass (fs / ts)) -> (0 < length mass)%nat -> (0 < T)%nat -> 0 <= fs / ts ->
  pattern_entry c fs fpb d (no_position layout) mass = Ok (Some (SinglePlan (build_block_plan (F:=F) ((fun h : list (list Z) => take (Z.to_nat k) <$> h) <$> freeze_order mass (fs / ts))
    (frame_offsets (negb <$> full) layout) (frame_offsets full layout) fs (oc_query_tile c) ts (kv_len layout) None) None)).
Proof.
  intros fs ts full k (_ & Hdw & _ & Hcs) Hfb Hl Hf0 Hb Hok HH HT Hft. destruct (first_own_ages layout f0 Hl Hf0) as [Hown Hages]. unfold pattern_entry, chunk_plan.
  change (frames_of_offset (no_position layout) 0) with (frames_of_offset layout 0). change (frame_ages (no_position layout) 0) with (frame_ages layout 0). rewrite Hown, Hages. cbn [negb mbind res_bind].
  assert (whole_frame_mask (no_position layout) (frames_of_offset layout 0) ((fun f => f0 - f) <$> global_frame_ids layout) (pattern_state c fs fpb d) = Ok full) as ->
    by exact (whole_frame_mask_whole layout f0 (pattern_state c fs fpb d) _ Hl eq_refl (eq_sym Hfb)).
  cbn [mbind res_bind]. unfold call_density. cbn [o_config pattern_state]. rewrite bool_decide_eq_true_2 by done. cbn [mbind res_bind fst snd].
  assert (pattern_budget (no_position layout) full (o_density (pattern_state c fs fpb d)) (pattern_state c fs fpb d) = Some budget) as -> by exact Hb.
  rewrite Hdw. cbn [mbind res_bind fst snd]. unfold frozen_order.
  assert (Z.of_nat (length (default [] (head (default [] (head (freeze_order mass (fs / ts))))))) = fs / ts) as En; [|fold ts; by rewrite En].
  destruct Hok as [Hlen Hf]. destruct (freeze_order mass (fs / ts)) as [|h0 o]; [simpl in Hlen; lia|]. simpl. apply Forall_cons in Hf as [[HT0 Hrows] _].
  destruct h0 as [|r0 h0]; [simpl in HT0; lia|]. simpl. apply Forall_cons in Hrows as [Hr _]. rewrite Hr, length_zrange. lia.
Qed.

(** The mass of key tile [i] for query tile [t] of head [h]. *)
Definition tile_mass (mass : list (list (list F))) (h t : nat) (i : Z) : F := nth_num (default [] (mass !! h ≫= fun r => r !! t)) i.

(** [k] tiles of a frame none of the others outweighs. *)
Record heaviest (mass : list (list (list F))) (h t : nat) (tiles k : Z) (kept : list Z) : Prop := {
  hv_nodup : NoDup kept;
  hv_range : Forall (fun i => 0 <= i < tiles) kept;
  hv_count : Z.of_nat (length kept) = k;
  hv_best : forall i j, i ∈ kept -> 0 <= j < tiles -> j ∉ kept -> nle (tile_mass mass h t j) (tile_mass mass h t i) }.

Lemma freeze_order_heaviest mass H T kt FT h t k : length mass = H -> Forall (fun h => length h = T /\ Forall (fun row => length row = kt) h) mass -> 0 <= FT <= Z.of_nat kt -> (h < H)%nat -> (t < T)%nat -> 0 <= k <= FT ->
  heaviest mass h t FT k (take (Z.to_nat k) (order_row (freeze_order mass FT) h t)).
Proof.
  intros HH Hm HFT Hh Ht Hk. pose proof (order_row_perm _ _ _ _ h t (freeze_order_ok mass H T kt FT HH Hm HFT) Hh Ht) as Hp.
  destruct (lookup_lt_is_Some_2 mass h) as [hm Ehm]; [lia|]. destruct (Forall_lookup_1 _ _ _ _ Hm Ehm) as [HT Hrows]. destruct (lookup_lt_is_Some_2 hm t) as [row Erow]; [lia|].
  assert (mass !! h ≫= (fun r => r !! t) = Some row) as Em by (rewrite Ehm; exact Erow). pose proof (Forall_lookup_1 _ _ _ _ Hrows Erow) as Hrow. cbn in Hrow.
  set (l := order_row (freeze_order mass FT) h t) in *. assert (NoDup l) as Hnd by (rewrite Hp; apply NoDup_seqZ). split.
  - rewrite <- (take_drop (Z.to_nat k) l) in Hnd. by apply NoDup_app in Hnd as (? & _).
  - apply Forall_take. rewrite Hp. apply Forall_forall. intros i ?%elem_of_zrange. done.
  - rewrite length_take, Hp, length_zrange. lia.
  - intros i j Hi Hj Hnj. unfold tile_mass. rewrite Em. cbn [default]. apply (freeze_order_top mass FT h t row (Z.to_nat k) i j Em Hi); [|done].
    rewrite length_take. apply elem_of_zrange. lia.
Qed.

(** C1: After any run of forwards, cache updates and calls (frames and chunks of
    one length, calls that see their own rows last, settings with one density
    and the chunk-0 pattern), a denoising call of one chunk beyond chunk 0, on a
    layer that was measured and under a budget that does not buy everything,
    computes exact softmax attention, in whatever order the programs of the
    kernel run, over the full tiles of the frames kept whole (own chunk, sink
    and recent frames as the settings say) and, in every other frame, of the
    same [tiles_kept] tiles: ones none of the other tiles outweighs in the mass
    that the last denoising call of chunk 0 of this video measured for the
    query's tile and head.  Whether the plan is built now or found in the cache
    makes no difference. *)
Theorem osa_attends_pattern (order : list (nat * nat) -> list (nat * nat)) sdpa (c : OsaConfig F) fs fpb es s0 s call layout mass f0 budget :
  (forall l, order l ≡ₚ l) -> osa_init c = Ok s0 -> pattern_config c -> 0 < fs -> 0 < fpb -> 0 < spatial_tile c <= fs -> 0 < oc_query_tile c ->
  visible_run fs fpb None (es ++ [Attend call]) -> osa_run order sdpa es s0 = Ok s ->
  let k := foldl (calibrate c) calibration_init es in
  call_layout (k_geometry k) call = Some layout -> layout_chunk_index layout <> 0 -> query_frames layout = fpb -> dense_cache_update c && k_update k = false ->
  k_mass k !! layer_index call = Some mass -> length mass = num_local_heads call -> (0 < num_local_heads call)%nat -> first_own layout f0 ->
  let ts := spatial_tile c in let full := whole_frames c layout f0 in
  pattern_budget layout full (o_density s0) s0 = Some budget ->
  exists out s', osa_attend order sdpa call s = Ok (Some out, s') /\
  forall b m h, (b < c_batch call)%nat -> 0 <= m < c_q_len call -> (h < num_local_heads call)%nat ->
  exists kept, heaviest mass h (Z.to_nat (m mod fs / oc_query_tile c)) (fs / ts) (tiles_kept layout full ts (fs / ts) budget) kept /\
    out !! (b, m, h) = Some (attend_keys (Z.to_nat (head_dim call)) (block_logit (query call) (key call) (softmax_scale call) b m h) (fun n => value call b n h)
      (filter (fun n => let tile := n mod fs / ts in tile < fs / ts /\ (full !! Z.to_nat (n / fs) = Some true \/ tile ∈ kept)) (zrange 0 (kv_len layout)))).
Proof.
  cbv zeta. intros Hord Hinit Hpc Hfs Hfp Hts Hqt Hvis Hrun Hl Hch Hqf Hupd Hmass Hheads HH Hf0 Hbud.
  pose proof (visible_run_app c fs fpb calibration_init es [Attend call]) as Hva. cbn [k_geometry calibration_init] in Hva. apply Hva in Hvis as [Hvis [Hown _]].
  set (k := foldl (calibrate c) calibration_init es) in *. destruct (planned_run order sdpa c fs fpb (o_density s0) es s0 s calibration_init Hpc Hfp Hvis) as [Hk Hp]; [by apply calibrated_init|by apply planned_init|done|]. fold k in Hk, Hp.
  destruct (call_layout_Some _ _ _ Hl) as (g & Eg & Efs & Ech). destruct (cal_stamp _ _ _ _ Hk g Eg) as (Hgfs & _ & _ & _). assert (frame_seqlen layout = fs) as Ef by congruence.
  pose proof (pl_geometry _ _ _ _ _ _ Hp g ltac:(by rewrite (cal_geometry _ _ _ _ Hk))) as Hgfb. pose proof Hl as Hlg. rewrite Eg in Hlg.
  destruct (call_layout_inv _ _ _ Hlg) as (segs & _ & V). destruct (visible_layout_inv _ _ _ _ _ V) as (_ & _ & P). assert (frames_per_block layout = fpb) as Efb by (rewrite <- Hgfb; exact (f_equal frames_per_block P)).
  assert (length (chunk_offsets layout) = length (global_frame_ids layout)) as Hlen.
  { pose proof (f_equal chunk_offsets P) as P1. pose proof (f_equal global_frame_ids P) as P2. cbn in P1, P2. by rewrite P1, P2, length_fmap. }
  assert (mass_shape c fs mass) as Hsh by (eapply (calibrated_shape c fs es calibration_init); [lia..|by eapply visible_run_stamped|split; [done|by intros l m]|exact Hmass]).
  pose proof (cdiv_spec fs (oc_query_tile c) Hqt). pose proof (cdiv_spec fs (spatial_tile c) ltac:(lia)) as Hck. assert (1 <= fs / spatial_tile c <= Z.of_nat (Z.to_nat (cdiv fs (spatial_tile c)))) as Hft.
  { split; [apply Z.div_le_lower_bound; lia|]. pose proof (Z.mul_div_le fs (spatial_tile c) ltac:(lia)). nia. }
  set (T := Z.to_nat (cdiv fs (oc_query_tile c))) in *. assert (order_ok (length mass) T (fs / spatial_tile c) (freeze_order mass (fs / spatial_tile c))) as Hok by (eapply freeze_order_ok; [done|exact Hsh|lia]).
  assert (0 < T)%nat as HT by (unfold T; nia). assert (o_config s0 = c) as Ec0 by exact (cal_config _ _ _ _ (calibrated_init c fs s0 Hinit)).
  assert (pattern_budget layout (whole_frames c layout f0) (o_density s0) (pattern_state c (frame_seqlen layout) fpb (o_density s0)) = Some budget) as Hbud' by (rewrite <- Hbud; unfold pattern_budget; by rewrite Ec0).
  pose proof (pattern_entry_built c fpb (o_density s0) layout mass f0 budget T 0 Hpc Efb Hlen Hf0 Hbud') as Hentry. cbv zeta in Hentry. rewrite Ef in Hentry. specialize (Hentry Hok ltac:(lia) HT ltac:(lia)).
  assert (layout_of call (o_base s) = Ok (Some layout, o_base s)) as HL.
  { apply call_layout_of. by rewrite (cal_geometry _ _ _ _ Hk). }
  pose proof (prepare_plan_ok c fs fpb (o_density s0) s k call layout mass _ Hpc Hk Hp Hl Hch Efb ltac:(lia) Hqf Hmass Hentry) as [[r s1] Eprep].
  destruct (prepare_plan_pattern c fs fpb (o_density s0) s k call layout r s1 Hpc Hk Hp Hl Hown Hch ltac:(lia) Eprep) as [_ Hr]. rewrite (Hr Hupd Hqf mass Hmass Hheads) in Hentry. injection Hentry as ->.
  assert (o_config s = c) as Ec by exact (cal_config _ _ _ _ Hk). assert (1 <= tiles_kept layout (whole_frames c layout f0) (spatial_tile c) (fs / spatial_tile c) budget <= fs / spatial_tile c) as Hkk by (unfold tiles_kept; lia).
  assert (length (whole_frames c layout f0) = length (global_frame_ids layout)) as Hfl by (unfold whole_frames; rewrite length_zip_with; lia).
  assert (num_other layout (whole_frames c layout f0) <> 0) as Hno by (unfold pattern_budget in Hbud; by destruct (Z.eqb_spec (num_other layout (whole_frames c layout f0)) 0)).
  pose proof (pattern_attention order sdpa call s s1 layout (freeze_order mass (fs / spatial_tile c)) (whole_frames c layout f0) T
    (tiles_kept layout (whole_frames c layout f0) (spatial_tile c) (fs / spatial_tile c) budget)) as Hatt. cbv zeta in Hatt. rewrite Ec, Ef, <- Hheads in Hatt.
  destruct (Hatt Hord HL Eprep Hok Hfl Hno Hkk Hfs ltac:(lia) Hqt ltac:(lia) ltac:(unfold T; lia)) as (out & s2 & Eout & Hout). exists out, s2. split; [done|].
  intros b m h Hb Hm Hh. destruct (Hout b m h Hb Hm ltac:(lia)) as [Ht ->]. eexists. split; [eapply freeze_order_heaviest; [done|exact Hsh|lia|lia|exact Ht|lia]|]. f_equal. f_equal. apply filter_ext_in. intros n _.
  unfold osa_reads. rewrite Ef, andb_true_iff, Z.ltb_lt, orb_true_iff, bool_decide_eq_true. destruct (whole_frames c layout f0 !! Z.to_nat (n / fs)) as [[]|]; cbn; naive_solver.
Qed.

(** *** The budget *)

Lemma head_head_lookup {A} (l : list (list (list A))) : default [] (head (default [] (head l))) = default [] (l !! 0%nat ≫= fun r => r !! 0%nat).
Proof. destruct l as [|[|r h] l]; done. Qed.

Lemma tiles_kept_round layout full ts budget num_tiles : 0 < num_other layout full * ts ->
  1 <= nround (ndiv budget (of_Z (num_other layout full * ts))) <= num_tiles ->
  let k := tiles_kept layout full ts num_tiles budget in
  nle (nmul (of_Z 2) (of_Z (num_other layout full * k * ts))) (nadd (nmul (of_Z 2) budget) (of_Z (num_other layout full * ts))) /\
  nle (nmul (of_Z 2) budget) (nadd (nmul (of_Z 2) (of_Z (num_other layout full * k * ts))) (of_Z (num_other layout full * ts))).
Proof.
  intros Hpos Hr k. assert (k = nround (ndiv budget (of_Z (num_other layout full * ts)))) as -> by (unfold k, tiles_kept; lia).
  set (n := num_other layout full) in *. set (x := ndiv budget (of_Z (n * ts))) in *. destruct (nround_spec x) as [H1 H2].
  set (r := nround x) in *. clearbody r. assert (nlt nzero (of_Z (n * ts))) as Hp by (rewrite <- of_Z_0; by apply of_Z_lt).
  pose proof (nlt_ne _ _ Hp) as Hne.
  assert (budget = nmul (of_Z (n * ts)) x) as Eb by (unfold x; field; congruence).
  apply (nmul_le_mono (of_Z (n * ts))) in H1; [|by apply nlt_le]. apply (nmul_le_mono (of_Z (n * ts))) in H2; [|by apply nlt_le].
  rewrite Eb. replace (n * r * ts) with (n * ts * r) by lia. rewrite (of_Z_mul (n * ts) r). split.
  - replace (nmul (of_Z 2) (nmul (of_Z (n * ts)) (of_Z r))) with (nmul (of_Z (n * ts)) (nmul (of_Z 2) (of_Z r))) by ring.
    replace (nadd (nmul (of_Z 2) (nmul (of_Z (n * ts)) x)) (of_Z (n * ts))) with (nmul (of_Z (n * ts)) (nadd (nmul (of_Z 2) x) none)) by ring. done.
  - replace (nmul (of_Z 2) (nmul (of_Z (n * ts)) x)) with (nmul (of_Z (n * ts)) (nmul (of_Z 2) x)) by ring.
    replace (nadd (nmul (of_Z 2) (nmul (of_Z (n * ts)) (of_Z r))) (of_Z (n * ts)))
      with (nmul (of_Z (n * ts)) (nadd (nmul (of_Z 2) (of_Z r)) none)) by ring. done.
Qed.

(** C17: Every row of a fresh plan has the same number of
    blocks, the plan reports exactly the tokens they span, and unless the
    rounding is clamped the patterned frames read the budget up to half a tile
    per frame. *)
Theorem osa_meets_budget call s layout mass ages full budget (T kt : nat) :
  fresh_call call s layout mass ages full budget T kt ->
  let fs := frame_seqlen layout in let ts := spatial_tile (o_config s) in
  let k := tiles_kept layout full ts (fs / ts) budget in
  exists p s', prepare_plan call layout s = Ok (Some (SinglePlan p None), s') /\
    (forall h t, (h < num_local_heads call)%nat -> (t < T)%nat ->
      Z.of_nat (length (default [] (starts p !! h ≫= fun r => r !! t))) = num_full full * (fs / ts) + num_other layout full * k) /\
    bp_kept_tokens p = (num_full full * (fs / ts) + num_other layout full * k) * ts /\
    bp_density p = ndiv (of_Z (bp_kept_tokens p)) (of_Z (kv_len layout)) /\
    (1 <= nround (ndiv budget (of_Z (num_other layout full * ts))) <= fs / ts ->
      nle (nmul (of_Z 2) (of_Z (num_other layout full * k * ts))) (nadd (nmul (of_Z 2) budget) (of_Z (num_other layout full * ts))) /\
      nle (nmul (of_Z 2) budget) (nadd (nmul (of_Z 2) (of_Z (num_other layout full * k * ts))) (of_Z (num_other layout full * ts)))).
Proof.
  intros Hc fs ts k. pose proof (fresh_prepare _ _ _ _ _ _ _ _ _ Hc) as (s' & Hprep & _).
  pose proof (fresh_order _ _ _ _ _ _ _ _ _ Hc) as Hok. pose proof (fc_sizes _ _ _ _ _ _ _ _ _ Hc) as (Hfs & Hts & Hqt & HH & HT & Hcov & HFT).
  pose proof (fc_layout _ _ _ _ _ _ _ _ _ Hc) as HL. destruct (layout_of_Some _ _ _ _ HL) as (_ & _ & _ & Hco).
  assert (length full = length (global_frame_ids layout)) as Hfl.
  { eapply whole_frame_mask_length; [exact (fc_full _ _ _ _ _ _ _ _ _ Hc)|unfold frames_of_offset; by rewrite length_fmap|].
    pose proof (fc_ages _ _ _ _ _ _ _ _ _ Hc) as Ea. unfold frame_ages in Ea. apply bind_Ok_inv in Ea as (o & _ & Ea). injection Ea as <-. by rewrite length_fmap. }
  fold fs ts in Hfs, Hts, Hcov, HFT. assert (0 <= k <= fs / ts) as Hk by (unfold k, tiles_kept; lia).
  assert (num_other layout full <> 0) as Hno.
  { pose proof (fc_budget _ _ _ _ _ _ _ _ _ Hc) as Eb. unfold pattern_budget in Eb. by destruct (Z.eqb_spec (num_other layout full) 0). }
  assert (0 <= num_other layout full) by (unfold num_other, num_full, num_frames; pose proof (length_filter_negb full); rewrite <- Hfl; lia).
  eexists _, s'. split; [exact Hprep|].
  assert (forall h t, (h < num_local_heads call)%nat -> (t < T)%nat -> _) as Hrows
    by exact (fun h t Hh Ht => uniform_row_length layout _ full k (oc_query_tile (o_config s)) ts _ _ h t Hfs Hts Hok Hh Ht Hfl Hk).
  split; [exact Hrows|]. split_and!; [|done|].
  - unfold build_block_plan. cbn [bp_kept_tokens]. specialize (Hrows 0%nat 0%nat HH HT). fold fs in Hrows |- *. rewrite <- Hrows. by rewrite head_head_lookup.
  - intros Hr. apply tiles_kept_round; [nia|done].
Qed.

(** *** The schedule *)

Lemma zip_with_fmap_diag {A B C D} (f : B -> C -> D) (g : A -> B) (h : A -> C) l : zip_with f (g <$> l) (h <$> l) = (fun x => f (g x) (h x)) <$> l.
Proof. induction l; csimpl; congruence. Qed.

(** The key frames of the chunks after the first. *)
Definition schedule_kv (nframes fpb window : Z) : list Z :=
  (fun c => if window <? 0 then c else Z.min c window) <$> zrange_step (2 * fpb) (nframes + 1) fpb.

Lemma inv_sqrt_pos c : 0 < c -> nlt nzero (ndiv none (nsqrt (of_Z (F:=F) c))).
Proof.
  intros Hc. assert (nlt nzero (nsqrt (of_Z c))) as Hs by (apply nsqrt_pos; rewrite <- of_Z_0; by apply of_Z_lt).
  replace (ndiv none (nsqrt (of_Z c))) with (ninv (nsqrt (of_Z c))) by (field; apply nlt_ne in Hs; congruence). by apply nle_inv.
Qed.

(** Clipping to [floor, 1] does nothing below one. *)
Lemma nclip_inside floor x : nle nzero x -> nlt (nmin none (nmax floor (nadd floor x))) none -> nmin none (nmax floor (nadd floor x)) = nadd floor x.
Proof.
  intros Hx. unfold nmax. replace (nleb floor (nadd floor x)) with true.
  2:{ symmetry. apply nle_sub. by replace (nsub (nadd floor x) floor) with x by ring. }
  unfold nmin. destruct (nleb none _) eqn:E1; [|done]. intros Hlt. exfalso. by apply (nlt_ne _ _ Hlt).
Qed.

(** The schedule spends the mean density exactly, weighted
    by the key frames of the chunks, when no chunk reaches density one. *)
Theorem flops_matched_mean nframes fpb window (mean floor : F) :
  0 < fpb -> window <> 0 -> nle floor mean ->
  let ds := tail (flops_matched_densities nframes fpb window mean floor) in
  Forall (fun d => nlt d none) ds ->
  nsum (zip_with (fun d k => nmul d (of_Z k)) ds (schedule_kv nframes fpb window)) =
  nmul mean (nsum (of_Z <$> schedule_kv nframes fpb window)).
Proof.
  intros Hf Hw Hfm. unfold flops_matched_densities, schedule_kv. cbv zeta.
  set (counts := zrange_step (2 * fpb) (nframes + 1) fpb). set (kvf c := if window <? 0 then c else Z.min c window).
  assert (forall c, c ∈ counts -> 0 < c) as Hpos.
  { unfold counts, zrange_step. intros c (i & -> & Hi)%list_elem_of_fmap. apply elem_of_zrange in Hi. nia. }
  assert (forall c, c ∈ counts -> 0 < kvf c) as Hkpos by (intros c ?%Hpos; unfold kvf; destruct (Z.ltb_spec window 0); lia).
  rewrite zip_with_fmap_diag, nsum_scale, nsum_scale. set (w := fun c => nmul (ndiv none (nsqrt (of_Z c))) (of_Z (kvf c))).
  destruct (nis0 (nsum (w <$> counts))) eqn:E0; cbn [tail].
  { intros _. rewrite <- nsum_scale. f_equal. 
    assert (replicate (length counts) mean = (fun _ => mean) <$> counts) as -> by (generalize counts as l; intros l; induction l; csimpl; congruence).
    rewrite zip_with_fmap_diag, <- list_fmap_compose. done. }
  set (beta := ndiv _ _). rewrite <- list_fmap_compose, zip_with_fmap_diag, Forall_fmap. unfold compose. intros Hlt.
  assert (nle nzero (nsum (w <$> counts))) as Hw0.
  { apply nsum_nonneg, Forall_fmap, Forall_forall. intros c Hc. apply nlt_le. unfold w. cbn.
    apply nmul_pos; [|rewrite <- of_Z_0; apply of_Z_lt]; auto using inv_sqrt_pos. }
  assert (nlt nzero (nsum (w <$> counts))) as Hwp.
  { apply nle_lt_eq; [done|]. intros Ew. rewrite <- Ew in E0. unfold nis0 in E0. by rewrite nle_refl in E0. }
  set (K := nsum (of_Z <$> (kvf <$> counts))) in *. set (W := nsum (w <$> counts)) in *.
  assert (nle nzero K) as HK.
  { apply nsum_nonneg. unfold K. rewrite <- list_fmap_compose. apply Forall_fmap, Forall_forall. intros c Hc%Hkpos. apply of_Z_le_0. lia. }
  assert (nle nzero beta) as Hb.
  { unfold beta. replace nzero with (ndiv nzero W) by (field; apply nlt_ne in Hwp; congruence). apply nle_div; [done|].
    replace (nsub (nmul mean K) (nmul floor K)) with (nmul K (nsub mean floor)) by ring. apply nle_mul; [done|]. by apply nle_sub in Hfm. }
  assert (forall c, c ∈ counts -> nmin none (nmax floor (nadd floor (nmul (ndiv none (nsqrt (of_Z c))) beta))) =
    nadd floor (nmul (ndiv none (nsqrt (of_Z c))) beta)) as Hd.
  { intros c Hc. rewrite Forall_forall in Hlt. apply nclip_inside; [|by apply Hlt]. apply nle_mul; [apply nlt_le|]; auto using inv_sqrt_pos. }
  replace (nsum _) with (nsum ((fun c => nadd (nmul floor (of_Z (kvf c))) (nmul beta (w c))) <$> counts)).
  2:{ f_equal. apply list_fmap_ext. intros i c Hc. rewrite Hd by (by eapply list_elem_of_lookup_2). unfold w. ring. }
  rewrite nsum_add, !nsum_scale. fold W. unfold beta, K. rewrite <- list_fmap_compose. unfold compose. field. apply nlt_ne in Hwp. congruence.
Qed.

(** *** Calibration *)

(** C3: After any run of forwards, cache updates and attention
    calls, a layer that plans beyond chunk 0 ranks its key tiles by the mass
    its last denoising call of chunk 0 of the current video measured, and runs
    dense when there was none. *)
Theorem osa_calibration order sdpa (c : OsaConfig F) fs es s0 s call layout :
  osa_init c = Ok s0 -> calibrated_once c -> Forall (stamped fs) es -> osa_run order sdpa es s0 = Ok s ->
  let k := foldl (calibrate c) calibration_init es in
  call_layout (k_geometry k) call = Some layout -> layout_chunk_index layout <> 0 ->
  (layer_order call layout s).1 = frozen_order c fs <$> k_mass k !! layer_index call.
Proof.
  intros Hi Hc Hes Hrun k Hl Hch. assert (calibrated c fs s k) as Hk by (eapply calibrated_run; [done|done|by apply calibrated_init|done]).
  destruct (call_layout_Some _ _ _ Hl) as (g & Eg & Efs & Ech). destruct (cal_stamp _ _ _ _ Hk g Eg) as (Hfs & _ & Hchunk & Hpos).
  apply (layer_order_calibrated c fs); [congruence|congruence|done|done].
Qed.

End claims.

(** ** Concrete runs *)

Section runs.
#[local] Existing Instance NumExp_one.
#[local] Existing Instance NumExpLaws_one.

Definition ex_config : OsaConfig Qc := mkOsaConfig (Some (Q2Qc (2 # 3)%Q)) None 1 None 1 true false false 0 true "constant" None (-1) (Q2Qc (1 # 10)%Q)
  false 1%Qc 1%Qc 1%Qc 1%Qc true false 1 false (Q2Qc (1 # 2)%Q) (Q2Qc (1 # 2)%Q) 2 2 1.

(** Frames of four tokens, one frame per chunk. *)
Definition ex_geometry (chunk : Z) : ChunkGeometry := mkGeometry 4 1 (4 * chunk) 2 2.
Definition ex_tensor : tensor4 Qc := fun _ n _ => replicate 16 (of_Z (n mod 3)).
Definition ex_call (chunk : Z) : SparseAttentionCall Qc :=
  mkCall 0 ex_tensor ex_tensor ex_tensor 1 4 (4 * (chunk + 1)) 16 (Some [(0, 4 * (chunk + 1))]) 0 1 1%Qc None.
Definition ex_layout : VisibleLayout := mkLayout [0; 1; 2] [-2; -1; 0] [0; 1; 2] 4 1 1 2.
Definition ex_mass : list (list (list Qc)) := [[[1%Qc; of_Z 2]; [of_Z 3; 1%Qc]]].
Definition ex_base : base_state Qc := set_geometry (ex_geometry 2) base_init.
Definition ex_state : osa_state Qc := mkOsa ex_base (Q2Qc (2 # 3)%Q) ex_config None {[0 := ex_mass]} ∅ ∅ ∅ 2 0 false 0%Qc.

Definition ex_events : list (osa_event (F:=Qc)) := [BeginForward (ex_geometry 0); Attend (ex_call 0); BeginForward (ex_geometry 2)].

Lemma ex_fresh : fresh_call (ex_call 2) ex_state ex_layout ex_mass [2; 1; 0] [false; false; true] (of_Z 4) 2 2.
Proof. split; try (vm_compute; done); split_and!; (vm_compute; done) || (repeat constructor). Qed.

(** The plan is built by the first call of chunk 2 and found by the second. *)
Definition ex_steps : list (osa_event (F:=Qc)) := ex_events ++ [Attend (ex_call 2)].

Lemma osa_attends_pattern_witness : exists s0 s out s' kept, osa_init ex_config = Ok s0 /\ osa_run id (fun _ _ _ _ => []) ex_steps s0 = Ok s /\
  osa_attend id (fun _ _ _ _ => []) (ex_call 2) s = Ok (Some out, s') /\ Z.of_nat (length kept) = 1 /\
  out !! (0%nat, 0, 0%nat) = Some (attend_keys 16 (block_logit ex_tensor ex_tensor 1%Qc 0 0 0) (fun n => ex_tensor 0%nat n 0%nat)
    (filter (fun n => n mod 4 / 2 < 2 /\ ([false; false; true] !! Z.to_nat (n / 4) = Some true \/ n mod 4 / 2 ∈ kept)) (zrange 0 12))).
Proof.
  destruct (osa_init ex_config) as [s0|e] eqn:E0; [|vm_compute in E0; discriminate]. exists s0.
  destruct (osa_run id (fun _ _ _ _ => []) ex_steps s0) as [s|e] eqn:E.
  2:{ exfalso. vm_compute in E0. injection E0 as <-. vm_compute in E. discriminate. }
  assert (exists mass, k_mass (foldl (calibrate ex_config) calibration_init ex_steps) !! 0 = Some mass /\ length mass = 1%nat) as (mass & Em & Lm) by (eexists; split; [vm_compute; reflexivity|reflexivity]).
  destruct (osa_attends_pattern id (fun _ _ _ _ => []) ex_config 4 1 ex_steps s0 s (ex_call 2) ex_layout mass 2 (of_Z 4) ltac:(done) E0) as (out & s' & Ea & Hout); [|lia|lia|cbn; lia|cbn; lia| |exact E|vm_compute; reflexivity|done|done|vm_compute; reflexivity|exact Em|exact Lm|cbn; lia| | |].
  - by repeat split.
  - cbn. assert (forall g n, g_query_token_start g = 4 * n -> own_last g (ex_call n)) as Hown by (intros g n Hg segs [= <-]; exists (0, 4 * (n + 1)); split; [done|cbn; lia]).
    split_and!; try done; intros g' [= <-]; by apply Hown.
  - split; [by exists 2%nat|]. intros [|[|[|i] ] ] f; cbn; try done. by intros _ [= <-].
  - vm_compute in E0. injection E0 as <-. vm_compute. reflexivity.
  - destruct (Hout 0%nat 0 0%nat ltac:(cbn; lia) ltac:(cbn; lia) ltac:(cbn; lia)) as (kept & Hkept & Ho). exists s, out, s', kept.
    split; [reflexivity|]. split; [reflexivity|]. split; [exact Ea|]. split; [exact (hv_count _ _ _ _ _ _ Hkept)|exact Ho].
Defined.

Lemma osa_meets_budget_witness : exists p s', prepare_plan (ex_call 2) ex_layout ex_state = Ok (Some (SinglePlan p None), s') /\ bp_kept_tokens p = 8.
Proof.
  destruct (osa_meets_budget (ex_call 2) ex_state ex_layout ex_mass [2; 1; 0] [false; false; true] (of_Z 4) 2 2 ex_fresh) as (p & s' & E & _ & Hk & _).
  exists p, s'. split; [exact E|]. rewrite Hk. vm_compute. reflexivity.
Defined.

Lemma flops_matched_mean_witness :
  let ds := tail (flops_matched_densities 6 2 (-1) (Q2Qc (1 # 2)%Q) (Q2Qc (1 # 10)%Q)) in
  nsum (zip_with (fun d k => nmul d (of_Z k)) ds (schedule_kv 6 2 (-1))) = of_Z 5.
Proof.
  cbv zeta. rewrite (flops_matched_mean 6 2 (-1) (Q2Qc (1 # 2)%Q) (Q2Qc (1 # 10)%Q));
    [by apply Qc_is_canon|lia|lia|vm_compute; reflexivity|vm_compute; repeat constructor].
Defined.

Lemma osa_calibration_witness : exists s0 s, osa_init ex_config = Ok s0 /\
  osa_run id (fun _ _ _ _ => []) ex_events s0 = Ok s /\
  (layer_order (ex_call 2) ex_layout s).1 = Some [[[0; 1]; [0; 1]]].
Proof.
  destruct (osa_init ex_config) as [s0|e] eqn:E0; [|vm_compute in E0; discriminate]. exists s0.
  destruct (osa_run id (fun _ _ _ _ => []) ex_events s0) as [s|e] eqn:E.
  2:{ exfalso. vm_compute in E0. injection E0 as <-. vm_compute in E. discriminate. }
  exists s. split; [done|]. split; [done|].
  rewrite (osa_calibration id (fun _ _ _ _ => []) ex_config 4 ex_events s0 s (ex_call 2) ex_layout E0); [| |repeat constructor; cbn; lia|exact E| |].
  - vm_compute. reflexivity.
  - by split.
  - vm_compute. reflexivity.
  - vm_compute. lia.
Defined.
End runs.
