(* ===== verification/XAttention.v ===== *)
(** * XAttention: the antidiagonal estimator and its block selection

    Models [xattention.py] of the sparse attention package. *)

From Stdlib Require Import Field QArith Qcanon.
From S2P Require Import Prelude Num SparsePlan SparsePlanSpec SparseKernel SparseKernelSpec SparseContext SparseBackend SparseBackendSpec Radial Osa OsaSpec.

Open Scope Z_scope.

Section xattention.
Context {F : Type} `{NumExp F} `{!TorchOrder F}.
Context (garbage : nat).

Record XAttentionConfig := mkXConfig {
  x_block : Z;
  x_stride : Z;
  x_threshold : F }.

(** One token of a head: averaged over the batch when there is one. *)
Definition batch_token (batch : nat) (dim : nat) (t : tensor4 F) (h : nat) (n : Z) : list F :=
  if Nat.ltb 1 batch then (fun x => ndiv x (of_Z (Z.of_nat batch))) <$> foldr vadd (zeros dim) ((fun b => t b n h) <$> seq 0 batch)
  else t 0%nat n h.

(** Row [u] of the strided reshape of head [h]: [stride] tokens side by side,
    zeros beyond the length. *)
Definition strided_row (batch dim : nat) (t : tensor4 F) (h : nat) (length stride : Z) (backwards : bool) (u : Z) : list F :=
  let offsets := if backwards then reverse (zrange 0 stride) else zrange 0 stride in
  concat ((fun a => let n := u * stride + a in if n <? length then batch_token batch dim t h n else zeros dim) <$> offsets).

Definition antidiagonal_block_scores (batch heads dim : nat) (query key : tensor4 F) (q_len kv block stride : Z) : list (list (list F)) :=
  let padded_q := cdiv q_len block * block in
  let padded_kv := cdiv kv block * block in
  let reduced_q := padded_q / stride in
  let reduced_k := padded_kv / stride in
  let scale := nmul (nsqrt (of_Z (Z.of_nat dim))) (of_Z stride) in
  let pad_rows := (padded_q - q_len) / stride in
  let rows_per_block := block / stride in
  (fun h =>
    let probabilities u :=
      if (0 <? pad_rows) && (reduced_q - pad_rows <=? u) then zeros (Z.to_nat reduced_k)
      else softmax ((fun v => ndiv (dot (strided_row batch dim query h q_len stride true u) (strided_row batch dim key h kv stride false v)) scale)
        <$> zrange 0 reduced_k) in
    (fun qb => foldr vadd (zeros (Z.to_nat (reduced_k / rows_per_block)))
        ((fun r => tile_sums rows_per_block (reduced_k / rows_per_block) (probabilities (qb * rows_per_block + r))) <$> zrange 0 rows_per_block))
      <$> zrange 0 (reduced_q / rows_per_block)) <$> seq 0 heads.

(** [cat([0, ordered[:-1]]).cumsum()]. *)
Definition exclusive_sums (l : list F) : list F := cumsum (take (length l) (nzero :: l)).

(** [keep.scatter(-1, order, True)]. *)
Definition scatter_true (n : nat) (idx : list Z) : list bool := foldl (fun keep i => <[Z.to_nat i := true]> keep) (replicate n false) idx.

Definition select_row (threshold : F) (scores : list F) : list bool :=
  let required := nmul (nsum scores) threshold in
  let order := argsort_desc scores in
  let ordered := nth_num scores <$> order in
  let keep_ordered := (fun e => nltb e required) <$> exclusive_sums ordered in
  scatter_true (length scores) (zip_with (fun (k : bool) i => if k then i else 0) keep_ordered order).

Definition select_blocks_by_cumulative_mass (threshold : F) (scores : list (list (list F))) : list (list (list bool)) :=
  (fun h : list (list F) => select_row threshold <$> h) <$> scores.

Record xattention_state := mkX { xs_base : base_state F; xs_config : XAttentionConfig }.
Definition put_x_base b s := mkX b (xs_config s).
Definition xattention_init (config : XAttentionConfig) : xattention_state := mkX base_init config.

Definition xattention_mask (config : XAttentionConfig) (call : SparseAttentionCall F) : list (list (list bool)) :=
  let q_len := c_q_len call in
  let kv := c_kv_len call in
  let scores := antidiagonal_block_scores (c_batch call) (num_local_heads call) (Z.to_nat (head_dim call)) (query call) (key call) q_len kv
    (x_block config) (x_stride config) in
  let keep := select_blocks_by_cumulative_mass (x_threshold config) scores in
  let '(q_lo, q_hi) := block_bounds q_len (x_block config) in
  let '(k_lo, k_hi) := block_bounds kv (x_block config) in
  (fun h => mask_or2 h (own_block_mask q_lo q_hi k_lo k_hi (kv - q_len))) <$> keep.

Definition xattention_prepare (call : SparseAttentionCall F) (layout : VisibleLayout) (s : xattention_state) :
    res (option (SparseAttentionExecution F) * xattention_state) :=
  if c_kv_len call <=? c_q_len call then Ok (None, s)
  else
    let keep := xattention_mask (xs_config s) call in
    if forallb (forallb (forallb id)) keep then Ok (None, s)
    else
      let plan := plan_from_block_mask garbage keep (x_block (xs_config s)) (c_kv_len call) (x_block (xs_config s)) None in
      Ok (Some (mkExecution plan (query call) (key call) (value call) None), s).

Definition xattention_attend (order : list (nat * nat) -> list (nat * nat)) := attend xs_base put_x_base xattention_prepare order.

End xattention.
Arguments XAttentionConfig : clear implicits.
Arguments xattention_state : clear implicits.

(** ** The estimator reads antidiagonals, the selection keeps its mass *)

Section claims.
Context {F : Type} `{!Num F} `{!NumExp F} `{!NumLaws F} `{!NumExpLaws F} `{!TorchOrder F} `{!TorchOrderLaws F}.
Add Field NumFieldX : (num_field (F:=F)).

(** ** The estimator *)

Lemma dot_app (a b c d : list F) : length a = length c -> dot (a ++ b) (c ++ d) = nadd (dot a c) (dot b d).
Proof. intros E. unfold dot. by rewrite zip_with_app, nsum_app. Qed.

Lemma dot_concat {A} (f g : A -> list F) l : (forall x, x ∈ l -> length (f x) = length (g x)) -> dot (concat (f <$> l)) (concat (g <$> l)) = nsum ((fun x => dot (f x) (g x)) <$> l).
Proof.
  induction l as [|x l IH]; intros E; csimpl; [done|]. rewrite dot_app by (apply E; constructor). rewrite IH by (intros; apply E; by constructor). done.
Qed.

Lemma reverse_zrange n : reverse (zrange 0 n) = (fun a => n - 1 - a) <$> zrange 0 n.
Proof.
  destruct (Z.le_gt_cases n 0) as [Hn|Hn]; [unfold zrange; by rewrite seqZ_nil by lia|].
  apply list_eq. intros i. destruct (decide (Z.of_nat i < n)).
  - rewrite reverse_lookup by (rewrite length_zr; lia). rewrite list_lookup_fmap, length_zr. unfold zrange. rewrite !lookup_seqZ_lt by lia. cbn. f_equal. lia.
  - rewrite !lookup_ge_None_2; [done|rewrite length_fmap, length_zr; lia|rewrite length_reverse, length_zr; lia].
Qed.

(** C27: An entry of the reduced score matrix is the sum of
    the antidiagonal of its [stride] x [stride] sub-block of the true scores. *)
Theorem antidiagonal_score dim (query key : tensor4 F) h q_len kv stride u v :
  (forall b n, length (query b n h) = dim) -> (forall b n, length (key b n h) = dim) ->
  0 <= u -> 0 <= v -> (u + 1) * stride <= q_len -> (v + 1) * stride <= kv ->
  dot (strided_row 1 dim query h q_len stride true u) (strided_row 1 dim key h kv stride false v) =
  nsum ((fun a => dot (query 0%nat (u * stride + (stride - 1 - a)) h) (key 0%nat (v * stride + a) h)) <$> zrange 0 stride).
Proof.
  intros Hq Hk Hu Hv Hqu Hkv. unfold strided_row. rewrite reverse_zrange, <- list_fmap_compose. unfold compose.
  rewrite dot_concat.
  - f_equal. apply list_fmap_ext. intros i a Ha%list_elem_of_lookup_2%elem_of_zrange. unfold batch_token. cbn.
    destruct (Z.ltb_spec (u * stride + (stride - 1 - a)) q_len); [|nia]. destruct (Z.ltb_spec (v * stride + a) kv); [|nia]. done.
  - intros a _. unfold batch_token. cbn. do 2 case_match; rewrite ?Hq, ?Hk; unfold zeros; by rewrite ?length_replicate.
Qed.

(** ** The selection *)

Lemma scatter_true_at n idx i : (i < n)%nat -> (exists z, z ∈ idx /\ Z.to_nat z = i) -> scatter_true n idx !! i = Some true.
Proof.
  intros Hi. unfold scatter_true. assert (forall k, length k = n -> (k !! i = Some true \/ exists z, z ∈ idx /\ Z.to_nat z = i) ->
    foldl (fun keep i => <[Z.to_nat i := true]> keep) k idx !! i = Some true) as Hgen.
  { induction idx as [|z idx IH]; intros k Hk Hor; cbn; [destruct Hor as [?|(? & ?%not_elem_of_nil & _)]; done|].
    apply IH; [by rewrite length_insert|]. destruct (decide (Z.to_nat z = i)) as [<-|Hne]; [left; by rewrite list_lookup_insert_eq by lia|].
    destruct Hor as [Hk0|(z' & [->|Hz]%elem_of_cons & Ez)]; [left; by rewrite list_lookup_insert_ne|done|right; eauto]. }
  intros Hz. apply Hgen; [apply length_replicate|by right].
Qed.

Lemma cumsum_from_at a l j : (j < length l)%nat -> cumsum_from a l !! j = Some (nadd a (nsum (take (S j) l))).
Proof.
  revert a j. induction l as [|x l IH]; intros a [|j] Hj; cbn in *; try lia.
  - f_equal. rewrite take_0. cbn. ring.
  - rewrite IH by lia. f_equal. unfold nsum. cbn. ring.
Qed.

Lemma length_cumsum_from a l : length (cumsum_from a l) = length l.
Proof. revert a. induction l; intros; cbn; auto. Qed.

Lemma exclusive_sums_at (l : list F) j : (j < length l)%nat -> exclusive_sums l !! j = Some (nsum (take j l)).
Proof.
  intros Hj. unfold exclusive_sums, cumsum. rewrite cumsum_from_at by (rewrite length_take; cbn; lia). f_equal.
  rewrite take_take, Nat.min_l by lia. unfold nsum. cbn. ring.
Qed.

Lemma length_exclusive_sums (l : list F) : length (exclusive_sums l) = length l.
Proof. unfold exclusive_sums, cumsum. rewrite length_cumsum_from, length_take. cbn. lia. Qed.

Lemma first_false (bs : list bool) : exists j, (j <= length bs)%nat /\ (forall i, (i < j)%nat -> bs !! i = Some true) /\ (j = length bs \/ bs !! j = Some false).
Proof.
  induction bs as [|b bs (j & Hj & Hpre & Hor)]; [exists 0%nat; split_and!; [done|lia|by left]|].
  destruct b; [|exists 0%nat; split_and!; [lia|lia|by right]]. exists (S j). cbn. split_and!; [lia| |].
  - intros [|i] Hi; [done|]. apply Hpre. lia.
  - destruct Hor as [->|Hf]; [by left|by right].
Qed.

(** The blocks a row keeps. *)
Definition kept_blocks (keep : list bool) : list Z := filter (fun i => keep !! Z.to_nat i = Some true) (zrange 0 (Z.of_nat (length keep))).

Lemma kept_mass_ge (scores : list F) keep idx : Forall (nle nzero) scores -> NoDup idx -> length keep = length scores ->
  (forall i, i ∈ idx -> 0 <= i < Z.of_nat (length keep) /\ keep !! Z.to_nat i = Some true) -> nle (nsum (nth_num scores <$> idx)) (nsum (nth_num scores <$> kept_blocks keep)).
Proof.
  intros Hpos Hnd Hl Hidx. assert (idx ⊆+ kept_blocks keep) as [rest Hrest]%submseteq_Permutation.
  { apply NoDup_submseteq; [done|]. intros i Hi. destruct (Hidx i Hi). apply list_elem_of_filter. split; [done|]. by apply elem_of_zrange. }
  rewrite Hrest, fmap_app, nsum_app. set (s := nsum (nth_num scores <$> idx)). replace s with (nadd s nzero) at 1 by ring.
  apply nle_add_mono; [apply nle_refl|]. apply nsum_nonneg, Forall_fmap, Forall_forall. intros i _. cbn. unfold nth_num.
  destruct (scores !! Z.to_nat i) as [x|] eqn:Ex; cbn; [exact (Forall_lookup_1 _ _ _ _ Hpos Ex)|apply nle_refl].
Qed.

Lemma length_scatter_true n idx : length (scatter_true n idx) = n.
Proof.
  unfold scatter_true. assert (forall k, length (foldl (fun keep i => <[Z.to_nat i := true]> keep) k idx) = length k) as Hg.
  { induction idx as [|z idx IH]; intros k; cbn; [done|]. by rewrite IH, length_insert. }
  rewrite Hg. apply length_replicate.
Qed.

Lemma nsum_nth (l : list F) : nsum (nth_num l <$> zrange 0 (Z.of_nat (length l))) = nsum l.
Proof.
  f_equal. apply list_eq. intros i. rewrite list_lookup_fmap. unfold zrange. destruct (decide (i < length l)%nat).
  - rewrite lookup_seqZ_lt by lia. change (Some (nth_num l (0 + Z.of_nat i)) = l !! i). unfold nth_num. rewrite Z.add_0_l, Nat2Z.id. destruct (lookup_lt_is_Some_2 l i) as [x ->]; done.
  - rewrite lookup_seqZ_ge by lia. cbn. by rewrite lookup_ge_None_2 by lia.
Qed.

(** C26: The key blocks selected for a query block carry at
    least the threshold share of its estimated mass, and key block 0 is always
    among them. *)
Theorem xattention_keeps_mass threshold (scores : list F) : Forall (nle nzero) scores -> nle threshold none -> scores <> [] ->
  let keep := select_row threshold scores in
  nle (nmul (nsum scores) threshold) (nsum (nth_num scores <$> kept_blocks keep)) /\ keep !! 0%nat = Some true.
Proof.
  intros Hpos Hthr Hne keep. set (n := length scores). assert (0 < n)%nat as Hn by (unfold n; destruct scores; [done|simpl; lia]).
  pose proof (argsort_desc_perm scores) as Hperm. unfold keep, select_row. set (order := argsort_desc scores) in *.
  assert (length order = n) as Hlo by (rewrite Hperm, length_zr; unfold n; lia). set (ordered := nth_num scores <$> order).
  set (required := nmul (nsum scores) threshold). set (bs := (fun e => nltb e required) <$> exclusive_sums ordered).
  assert (length bs = n) as Hbs by (unfold bs, ordered; rewrite length_fmap, length_exclusive_sums, length_fmap; done).
  set (idx := zip_with _ bs order). set (kp := scatter_true (length scores) idx).
  assert (forall i z, bs !! i = Some true -> order !! i = Some z -> z ∈ idx) as Hin.
  { intros i z Hb Hz. apply list_elem_of_lookup. exists i. unfold idx. rewrite lookup_zip_with, Hb, Hz. done. }
  assert (forall z, z ∈ order -> 0 <= z < Z.of_nat n) as Hr by (intros z; rewrite Hperm; apply elem_of_zrange).
  destruct (first_false bs) as (j & Hj & Hpre & Hor).
  assert (nle (nsum (nth_num scores <$> take j order)) (nsum (nth_num scores <$> kept_blocks kp))) as Hmass.
  { apply kept_mass_ge; [done| |apply length_scatter_true|].
    - assert (NoDup order) as Hnd by (rewrite Hperm; apply NoDup_seqZ). rewrite <- (take_drop j order) in Hnd. by apply NoDup_app in Hnd as (? & _).
    - intros z (i & Hi)%list_elem_of_lookup. apply lookup_take_Some in Hi as [Hi Hij]. pose proof (Hr z ltac:(by eapply list_elem_of_lookup_2)) as Hz.
      assert (length kp = n) as -> by apply length_scatter_true. split; [lia|]. apply scatter_true_at; [fold n; lia|]. exists z. split; [|done]. apply (Hin i); [by apply Hpre|done]. }
  split.
  - eapply nle_trans; [|exact Hmass]. destruct Hor as [->|Hf].
    + rewrite take_ge by lia. assert (nsum (nth_num scores <$> order) = nsum scores) as -> by (rewrite Hperm; apply nsum_nth).
      unfold required. set (t := nsum scores). replace t with (nmul t none) at 2 by ring. apply nmul_le_mono; [by apply nsum_nonneg|done].
    + assert (j < n)%nat as Hjn by (apply lookup_lt_Some in Hf; lia). unfold bs in Hf. rewrite list_lookup_fmap in Hf.
      rewrite exclusive_sums_at in Hf by (unfold ordered; rewrite length_fmap; lia). cbn in Hf. injection Hf as Hf. apply nltb_false in Hf.
      unfold ordered in Hf. by rewrite <- fmap_take in Hf.
  - apply scatter_true_at; [lia|]. destruct Hor as [Hall|Hf].
    + assert (0 ∈ order) as (i & Hi)%list_elem_of_lookup by (rewrite Hperm; apply elem_of_zrange; lia). exists 0. split; [|done].
      apply (Hin i); [apply Hpre; apply lookup_lt_Some in Hi; lia|done].
    + exists 0. split; [|done]. apply list_elem_of_lookup. exists j. unfold idx. rewrite lookup_zip_with, Hf.
      destruct (lookup_lt_is_Some_2 order j) as [z ->]; [apply lookup_lt_Some in Hf; lia|]. done.
Qed.

End claims.

(** ** Concrete rows *)

Section runs.
#[local] Existing Instance NumExp_one.

Lemma antidiagonal_score_witness :
  dot (strided_row 1 1 (fun _ n _ => [of_Z n]) 0 4 2 true 1) (strided_row 1 1 (fun _ n _ => [of_Z n]) 0 4 2 false 0) = (of_Z 2 : Qc).
Proof.
  rewrite (antidiagonal_score 1 (fun _ n _ => [of_Z n]) (fun _ n _ => [of_Z n]) 0 4 4 2 1 0); [by apply Qc_is_canon|done|done|lia..].
Defined.

Lemma xattention_keeps_mass_witness :
  let keep := select_row (Q2Qc (1 # 2)%Q) [1%Qc; of_Z 2; of_Z 3] in
  keep = [true; false; true] /\
  nle (nmul (nsum [1%Qc; of_Z 2; of_Z 3]) (Q2Qc (1 # 2)%Q)) (nsum (nth_num [1%Qc; of_Z 2; of_Z 3] <$> kept_blocks keep)).
Proof.
  split; [vm_compute; reflexivity|].
  apply (xattention_keeps_mass (Q2Qc (1 # 2)%Q) [1%Qc; of_Z 2; of_Z 3]); [repeat constructor|vm_compute; reflexivity|done].
Defined.
End runs.
