(* ===== verification/FastAr.v ===== *)
(** * FastAr: temporal cache compression and bucketed attention

    Models [fastar.py] of the sparse attention package.  The merge of keys
    along time is written per head and spatial position (the tensor program is
    elementwise on both), history tensors per head.  Random projections and
    the logarithm are parameters. *)

From Stdlib Require Import Field QArith Qcanon.
From S2P Require Import Prelude Num SparsePlan SparsePlanSpec SparseKernel SparseKernelSpec SparseContext SparseBackend Sta Osa.

Open Scope Z_scope.

Section fastar.
Context {F : Type} `{NumExp F}.
Context (garbage : nat).
(** [torch.log], and [torch.randn] seeded: seed, heads, head dim and bits. *)
Context (nlog : F -> F) (randn : Z -> nat -> Z -> Z -> list (list (list F))).

Record FastArConfig := mkFastArConfig {
  fa_block : Z;
  merge_threshold : F;
  hash_bits : Z;
  probe_hamming : Z;
  dense_steps : Z;
  fa_seed : Z }.

Record CompressedHistory := mkHistory {
  ch_key : list (list (list F));      (* [heads, kept, head_dim] *)
  ch_value : list (list (list F));
  ch_logit_bias : list (list F);      (* [heads, kept + q_len] *)
  bucket_starts : list (list Z);      (* [heads, buckets + 1] *)
  bucket_ends : list (list Z);
  projection : list (list (list F));  (* [heads, bits, head_dim] *)
  ch_kept : Z }.

(** ** TempCache *)

(** [normalize]: divided by the norm, at least 1e-12. *)
Definition normalized (x : list F) : list F :=
  let norm := nmax (nsqrt (dot x x)) (ndiv none (of_Z 1000000000000)) in (fun a => ndiv a norm) <$> x.

(** Which keys of a column merge into the next frame. *)
Definition column_merges (threshold : F) (keys : list (list F)) : list bool :=
  zip_with (fun a b => nleb threshold (dot (normalized a) (normalized b))) keys (tail keys).

(** Sizes of the groups that end at frames 1, 2, ...; [prev] is the size at the frame before. *)
Fixpoint carry_sizes (prev : F) (merges : list bool) : list F :=
  match merges with
  | [] => []
  | m :: ms => let s := nadd none (if m then prev else nzero) in s :: carry_sizes s ms
  end.

Fixpoint carry_values (prev : list F) (merges : list bool) (values : list (list F)) : list (list F) :=
  match merges, values with
  | m :: ms, v :: vs => let s := if m then vadd v prev else v in s :: carry_values s ms vs
  | _, _ => []
  end.

(** One column of [temporal_merge]: what is kept, group sizes, merged values. *)
Definition temporal_merge_column (merges : list bool) (values : list (list F)) : list bool * list F * list (list F) :=
  match values with
  | [] => ([], [], [])
  | v :: vs =>
    let sizes := none :: carry_sizes none merges in
    let sums := v :: carry_values v merges vs in
    ((negb <$> merges) ++ [true], sizes, zip_with (fun s g => (fun x => ndiv x g) <$> s) sums sizes)
  end.

(** All positions of a head: [frames * fs] tokens in token order. *)
Definition temporal_merge (fs nf : Z) (threshold : F) (keys values : list (list F)) : list bool * list F * list (list F) :=
  let at_pos {A} (l : list A) (p : Z) : list A := omap (fun f => l !! Z.to_nat (f * fs + p)) (zrange 0 nf) in
  let columns := (fun p => temporal_merge_column (column_merges threshold (at_pos keys p)) (at_pos values p)) <$> zrange 0 fs in
  let token {A} (sel : list bool * list F * list (list F) -> list A) : list A :=
    zrange 0 nf ≫= fun f => omap (fun col => sel col !! Z.to_nat f) columns in
  (token (fun c => c.1.1), token (fun c => c.1.2), token (fun c => c.2)).

(** ** AnnSA *)

Definition sign_lsh_bucket (proj : list (list F)) (v : list F) : Z :=
  foldr Z.add 0 (zip_with (fun i p => if nltb nzero (dot v p) then 2 ^ i else 0) (zrange 0 (Z.of_nat (length proj))) proj).

Definition hamming_step (bits : Z) (present : list bool) : list bool :=
  (fun b => existsb (fun bit => default false (present !! Z.to_nat (Z.lxor b (Z.shiftl 1 bit)))) (zrange 0 bits) || default false (present !! Z.to_nat b))
    <$> zrange 0 (Z.of_nat (length present)).

Definition hamming_expand (present : list bool) (bits radius : Z) : list bool := Nat.iter (Z.to_nat radius) (hamming_step bits) present.

(** ** The history of a layer *)

(** One head: packed keys, values and bias, starts and ends of its buckets. *)
Definition pack_head (config : FastArConfig) (proj : list (list F)) (fs nf : Z) (keys values : list (list F)) : list Z * list (list F) * list F * list Z * nat :=
  let '(keep, sizes, merged) := temporal_merge fs nf (merge_threshold config) keys values in
  let num_buckets := 2 ^ hash_bits config in
  let buckets := sign_lsh_bucket proj <$> keys in
  let order := np_argsort (zip_with (fun (k : bool) b => if k then b else num_buckets) keep buckets) in
  let counts := (fun b => Z.of_nat (length (filter (fun kb => kb.1 = true /\ kb.2 = b) (zip keep buckets)))) <$> zrange 0 num_buckets in
  (order, merged, nlog <$> sizes, counts, length (filter (fun k => k = true) keep)).

Fixpoint prefix_sums (a : Z) (l : list Z) : list Z := match l with [] => [] | x :: l => (a + x) :: prefix_sums (a + x) l end.

Definition build_compressed_history (config : FastArConfig) (call : SparseAttentionCall F) (layout : VisibleLayout) (history_len : Z) : CompressedHistory :=
  let fs := frame_seqlen layout in
  let nf := history_len / fs in
  let heads := num_local_heads call in
  let keys h := (fun n => key call 0%nat n h) <$> zrange 0 history_len in
  let values h := (fun n => value call 0%nat n h) <$> zrange 0 history_len in
  let proj := randn (fa_seed config * 1013 + layer_index call) heads (head_dim call) (hash_bits config) in
  let packed := (fun h => pack_head config (default [] (proj !! h)) fs nf (keys h) (values h)) <$> seq 0 heads in
  let kept := max_list ((fun p : list Z * list (list F) * list F * list Z * nat => p.2) <$> packed) in
  let own_len := c_kv_len call - history_len in
  let gather {A} (d : A) (l : list A) (order : list Z) : list A := (fun i => default d (l !! Z.to_nat i)) <$> take kept order in
  mkHistory
    (zip_with (fun h p => let '(order, _, _, _, _) := p in gather [] (keys h) order) (seq 0 heads) packed)
    ((fun p => let '(order, merged, _, _, _) := p in gather [] merged order) <$> packed)
    ((fun p => let '(order, _, bias, _, n) := p in
        zip_with (fun i b => if Nat.ltb i n then b else nzero) (seq 0 kept) (gather nzero bias order) ++ replicate (Z.to_nat own_len) nzero) <$> packed)
    ((fun p : list Z * list (list F) * list F * list Z * nat => let counts := p.1.2 in
        zip_with Z.sub (prefix_sums 0 counts) counts ++ [Z.of_nat kept]) <$> packed)
    ((fun p : list Z * list (list F) * list F * list Z * nat => prefix_sums 0 p.1.2 ++ [Z.of_nat kept + own_len]) <$> packed)
    proj (Z.of_nat kept).

(** ** State *)

Definition fa_signature : Type := option KeySegments * Z * nat.

Record fastar_state := mkFastAr {
  fa_base : base_state F;
  fa_config : FastArConfig;
  fa_history : gmap Z (fa_signature * CompressedHistory);
  step_of_layer : gmap Z (Z * Z) }.

Definition put_fa_base b s := mkFastAr b (fa_config s) (fa_history s) (step_of_layer s).
Definition fastar_init (config : FastArConfig) : fastar_state := mkFastAr base_init config ∅ ∅.

Definition advance_step (call : SparseAttentionCall F) (layout : VisibleLayout) (s : fastar_state) : Z * fastar_state :=
  let '(chunk, step) := default (-1, -1) (step_of_layer s !! layer_index call) in
  let '(chunk, step) := if negb (chunk =? layout_chunk_index layout) then (layout_chunk_index layout, 0) else (chunk, step + 1) in
  (step, mkFastAr (fa_base s) (fa_config s) (fa_history s) (<[layer_index call := (chunk, step)]> (step_of_layer s))).

Definition compressed_history (call : SparseAttentionCall F) (layout : VisibleLayout) (history_len : Z) (s : fastar_state) : CompressedHistory * fastar_state :=
  let sg := (key_segments call, history_len, num_local_heads call) in
  match match fa_history s !! layer_index call with Some (sg', h) => if decide (sg' = sg) then Some h else None | None => None end with
  | Some h => (h, s)
  | None =>
    let h := build_compressed_history (fa_config s) call layout history_len in
    (h, mkFastAr (fa_base s) (fa_config s) (<[layer_index call := (sg, h)]> (fa_history s)) (step_of_layer s))
  end.

(** ** Selection *)

(** The queries of a head sorted by bucket. *)
Definition query_order (call : SparseAttentionCall F) (proj : list (list F)) (h : nat) : list Z :=
  np_argsort (sign_lsh_bucket proj <$> ((fun m => query call 0%nat m h) <$> zrange 0 (c_q_len call))).

Definition select_buckets (config : FastArConfig) (call : SparseAttentionCall F) (proj : list (list F)) (h : nat) : list (list bool) :=
  let order := query_order call proj h in
  let bucket i := sign_lsh_bucket proj (query call 0%nat i h) in
  let sorted := bucket <$> order in
  (fun b =>
    let here := take (Z.to_nat (fa_block config)) (drop (Z.to_nat (b * fa_block config)) sorted) in
    let present := (fun k => bool_decide (k ∈ here)) <$> zrange 0 (2 ^ hash_bits config) in
    hamming_expand present (hash_bits config) (probe_hamming config) ++ [true]) <$> zrange 0 (cdiv (c_q_len call) (fa_block config)).

(** Keys of the packed history followed by the chunk's own. *)
Definition with_current_chunk (kept : Z) (history : list (list (list F))) (own : tensor4 F) (history_len : Z) : tensor4 F :=
  fun b n h => if n <? kept then default [] (history !! h ≫= fun r => r !! Z.to_nat n) else own b (history_len + (n - kept)) h.

Definition fastar_prepare (call : SparseAttentionCall F) (layout : VisibleLayout) (s : fastar_state) :
    res (option (SparseAttentionExecution F) * fastar_state) :=
  let history_len := c_kv_len call - c_q_len call in
  if history_len <=? 0 then Ok (None, s)
  else
    let '(step, s) := advance_step call layout s in
    if step <? dense_steps (fa_config s) then Ok (None, s)
    else
      let '(history, s) := compressed_history call layout history_len s in
      let proj h := default [] (projection history !! h) in
      let keep := (fun h => select_buckets (fa_config s) call (proj h) h) <$> seq 0 (num_local_heads call) in
      let perm := fun _ i h => at_index (query_order call (proj h) h) i in
      let plan := plan_from_segment_mask garbage keep (PerHead (bucket_starts history)) (PerHead (bucket_ends history))
        (fa_block (fa_config s)) (Some (ch_logit_bias history)) in
      Ok (Some (mkExecution plan (fun b i h => query call b (perm b i h) h)
        (with_current_chunk (ch_kept history) (ch_key history) (key call) history_len)
        (with_current_chunk (ch_kept history) (ch_value history) (value call) history_len) (Some perm)), s).

Definition fastar_attend (order : list (nat * nat) -> list (nat * nat)) := attend fa_base put_fa_base fastar_prepare order.

End fastar.
Arguments FastArConfig : clear implicits.
Arguments CompressedHistory : clear implicits.
Arguments fastar_state : clear implicits.

(** ** Merging identical keys is exact, padding is not skipped *)

Section claims.
Context {F : Type} `{!Num F} `{!NumExp F} `{!NumLaws F} `{!NumExpLaws F}.
Add Field NumFieldA : (num_field (F:=F)).

(** ** The merge *)

(** Sum of a weight over the kept frames of a column, times group size. *)
Fixpoint kept_sum (keep : list bool) (terms : list F) : F :=
  match keep, terms with
  | k :: ks, t :: ts => nadd (if k then t else nzero) (kept_sum ks ts)
  | _, _ => nzero
  end.

(** Weights that agree along merges. *)
Fixpoint agree (w : F) (merges : list bool) (ws : list F) : Prop :=
  match merges, ws with
  | m :: ms, w' :: ws => (m = true -> w = w') /\ agree w' ms ws
  | [], [] => True
  | _, _ => False
  end.

Lemma carry_sizes_sum prev w merges ws : agree w merges ws ->
  kept_sum ((negb <$> merges) ++ [true]) (nmul prev w :: zip_with nmul (carry_sizes prev merges) ws) = nadd (nmul prev w) (nsum ws).
Proof.
  revert prev w ws. induction merges as [|m ms IH]; intros prev w [|w' ws] Ha; try done; cbn in *. destruct Ha as [Hm Ha].
  specialize (IH (nadd none (if m then prev else nzero)) w' ws Ha). cbn in IH. destruct m; cbn in *.
  - rewrite <- (Hm eq_refl) in *. rewrite IH. unfold nsum. cbn. ring.
  - rewrite IH. unfold nsum. cbn. ring.
Qed.

(** Coordinate [d] of the value sums. *)
Lemma carry_values_sum d prev merges vs w ws : agree w merges ws -> length vs = length merges ->
  Forall (fun v => length v = length prev) vs ->
  kept_sum ((negb <$> merges) ++ [true]) (nmul w (coord prev d) :: zip_with (fun w v => nmul w (coord v d)) ws (carry_values prev merges vs)) =
  nadd (nmul w (coord prev d)) (nsum (zip_with (fun w v => nmul w (coord v d)) ws vs)).
Proof.
  revert prev vs w ws. induction merges as [|m ms IH]; intros prev [|v vs] w [|w' ws] Ha Hl Hlen; try done; cbn in *.
  destruct Ha as [Hm Ha]. apply Forall_cons in Hlen as [Hv Hlen].
  assert (length (if m then vadd v prev else v) = length prev) as Hs by (destruct m; [unfold vadd; rewrite length_zip_with; lia|done]).
  specialize (IH (if m then vadd v prev else v) vs w' ws Ha ltac:(lia)). rewrite Hs in IH. specialize (IH Hlen). cbn in IH.
  assert (m = true -> coord (vadd v prev) d = nadd (coord v d) (coord prev d)) as Hadd.
  { intros _. unfold coord, vadd. rewrite lookup_zip_with. destruct (decide (d < length v)%nat) as [Hd|Hd].
    - destruct (lookup_lt_is_Some_2 v d Hd) as [x ->]. destruct (lookup_lt_is_Some_2 prev d) as [y ->]; [lia|]. done.
    - rewrite (lookup_ge_None_2 v) by lia. rewrite (lookup_ge_None_2 prev) by lia. cbn. ring. }
  destruct m; cbn in *.
  - rewrite IH, Hadd by done. rewrite <- (Hm eq_refl). unfold nsum. cbn. ring.
  - rewrite IH. unfold nsum. cbn. ring.
Qed.

Lemma carry_sizes_pos prev merges : nlt nzero prev -> Forall (nlt nzero) (carry_sizes prev merges).
Proof.
  revert prev. induction merges as [|m ms IH]; intros prev Hp; cbn; [constructor|].
  assert (nlt nzero (nadd none (if m then prev else nzero))) as Hs by (apply nadd_pos; [apply nlt_0_1|destruct m; [by apply nlt_le|apply nle_refl]]).
  constructor; [done|by apply IH].
Qed.

Lemma length_carry prev p merges vs : length vs = length merges -> length (carry_sizes prev merges) = length merges /\ length (carry_values p merges vs) = length merges.
Proof.
  revert prev p vs. induction merges as [|m ms IH]; intros prev p [|v vs] Hl; try done; cbn in *.
  destruct (IH (nadd none (if m then prev else nzero)) (if m then vadd v p else v) vs ltac:(lia)) as [-> ->]. done.
Qed.

(** Weights times sizes times means are weights times sums. *)
Lemma kept_sum_means keep d (sizes ws : list F) (sums : list (list F)) : Forall (nlt nzero) sizes -> length sums = length sizes ->
  kept_sum keep (zip_with (fun gw m => nmul gw (coord m d)) (zip_with nmul sizes ws) (zip_with (fun s g => (fun x => ndiv x g) <$> s) sums sizes)) =
  kept_sum keep (zip_with (fun w v => nmul w (coord v d)) ws sums).
Proof.
  intros Hp. revert keep ws sums. induction Hp as [|g sizes Hg Hp IH]; intros [|k keep] [|w ws] [|v sums] Hl; try done. cbn.
  rewrite IH by (cbn in Hl; lia). f_equal. destruct k; [|done]. unfold coord. rewrite list_lookup_fmap. apply nlt_ne in Hg.
  destruct (v !! d); cbn; [field; congruence|ring].
Qed.

(** C25: Merging keys of a column is lossless when merged
    keys have equal weights: kept keys weighted by their group size (the logit
    bias is its logarithm) with merged values give the same normaliser and the
    same weighted sum of values as all keys. *)
Theorem temporal_merge_exact merges (values : list (list F)) w ws d dim keep sizes merged :
  agree w merges ws -> length values = S (length merges) -> Forall (fun v => length v = dim) values ->
  temporal_merge_column merges values = (keep, sizes, merged) ->
  let biased := zip_with nmul sizes (w :: ws) in
  kept_sum keep biased = nsum (w :: ws) /\
  kept_sum keep (zip_with (fun gw m => nmul gw (coord m d)) biased merged) = nsum (zip_with (fun w v => nmul w (coord v d)) (w :: ws) values).
Proof.
  intros Ha Hl Hv E biased. destruct values as [|v vs]; [done|]. cbn in Hl. cbn [temporal_merge_column] in E. injection E as <- <- <-.
  apply Forall_cons in Hv as [Hv Hvs]. unfold biased. destruct (length_carry none v merges vs ltac:(lia)) as [L1 L2]. split.
  - pose proof (carry_sizes_sum none w merges ws Ha) as Hs. cbn [zip_with]. rewrite Hs. unfold nsum. cbn. ring.
  - etrans; [apply (kept_sum_means ((negb <$> merges) ++ [true]) d (none :: carry_sizes none merges) (w :: ws) (v :: carry_values v merges vs));
      [constructor; [apply nlt_0_1|apply carry_sizes_pos, nlt_0_1]|cbn; lia]|].
    cbn [zip_with]. rewrite carry_values_sum; [done|done|lia|]. eapply Forall_impl; [exact Hvs|]. cbn. intros ? ->. done.
Qed.

End claims.

(** ** Concrete runs *)

Section runs.
#[local] Existing Instance NumExp_one.

Lemma temporal_merge_exact_witness :
  let '(keep, sizes, _) := temporal_merge_column [true] [[of_Z 4]; [of_Z 6]] in kept_sum keep (zip_with nmul sizes [1%Qc; 1%Qc]) = of_Z 2.
Proof.
  destruct (temporal_merge_column [true] [[of_Z 4]; [of_Z 6]]) as [[keep sizes] merged] eqn:E.
  rewrite (proj1 (temporal_merge_exact [true] [[of_Z 4]; [of_Z 6]] 1%Qc [1%Qc] 0 1 keep sizes merged ltac:(by split) ltac:(done) ltac:(repeat constructor) E)).
  by apply Qc_is_canon.
Defined.

(** One token per frame, two history frames, two heads: the keys of head 0
    repeat, those of head 1 do not. *)
Definition fx_config : FastArConfig Qc := mkFastArConfig 16 (Q2Qc (9 # 10)%Q) 1 0 0 0.
Definition fx_key : tensor4 Qc := fun _ n h => match h with O => [1%Qc] | _ => [if n =? 0 then 1%Qc else Qcopp 1%Qc] end.
Definition fx_value : tensor4 Qc := fun _ n _ => [of_Z n].
Definition fx_randn (_ : Z) (heads : nat) (_ _ : Z) : list (list (list Qc)) := replicate heads [[1%Qc]].
Definition fx_call : SparseAttentionCall Qc := mkCall 0 (fun _ _ _ => [1%Qc]) fx_key fx_value 1 1 3 1 (Some [(0, 3)]) 0 2 1%Qc None.
Definition fx_layout : VisibleLayout := mkLayout [0; 1; 2] [-2; -1; 0] [0; 1; 2] 1 1 1 2.

(** A head that keeps fewer keys than another one
    is padded with keys it dropped, and a query in the last bucket reads them:
    the last bucket and the chunk's own segment are merged into one range.
    Head 0 keeps one key (its buckets end at 1) and reads rows 0 to 3; row 1
    is the key merged away. *)
Theorem fastar_padding_reachable :
  exists ex s', fastar_prepare 0 id fx_randn fx_call fx_layout (fastar_init fx_config) = Ok (Some ex, s') /\
    kept_ranges (e_plan ex) 0 0 = [(0, 3)] /\
    (exists h, snd <$> fa_history s' !! 0 = Some h /\ bucket_ends h !! 0%nat = Some [0; 1; 3] /\ ch_kept h = 2) /\
    this <$> e_value ex 0%nat 1 0%nat = [0%Q].
Proof.
  assert (match fastar_prepare 0 id fx_randn fx_call fx_layout (fastar_init fx_config) with
    | Ok (Some ex, s') => kept_ranges (e_plan ex) 0 0 = [(0, 3)] /\
        match fa_history s' !! 0 with Some (_, h) => bucket_ends h !! 0%nat = Some [0; 1; 3] /\ ch_kept h = 2 | None => False end /\
        this <$> e_value ex 0%nat 1 0%nat = [0%Q]
    | _ => False end) as Hc by (vm_compute; by split_and!).
  destruct (fastar_prepare _ _ _ _ _ _) as [[[ex|] s']|e]; [|done|done]. exists ex, s'. split; [done|].
  destruct Hc as (H1 & H2 & H3). split; [done|]. split; [|done]. destruct (fa_history s' !! 0) as [[sg h]|]; [|done]. by exists h.
Qed.

(** The compressed history of a layer is found by
    segments, length and heads alone: once it is cached, the same segments of
    another video give back the keys of the first. *)
Theorem fastar_keeps_old_history {F} `{NumExp F} (nlog : F -> F) randn call call' layout layout' n s h s' :
  compressed_history nlog randn call layout n s = (h, s') ->
  layer_index call' = layer_index call -> key_segments call' = key_segments call -> num_local_heads call' = num_local_heads call ->
  compressed_history nlog randn call' layout' n s' = (h, s').
Proof.
  unfold compressed_history. intros E -> -> ->. destruct (fa_history s !! layer_index call) as [[sg h0]|] eqn:El.
  - destruct (decide (sg = (key_segments call, n, num_local_heads call))) as [Eq|Hne].
    + injection E as -> <-. rewrite El. by rewrite decide_True.
    + injection E as <- <-. cbn [fa_history]. rewrite lookup_insert_eq. by rewrite decide_True.
  - injection E as <- <-. cbn [fa_history]. rewrite lookup_insert_eq. by rewrite decide_True.
Qed.

Definition fx_other : SparseAttentionCall Qc := mkCall 0 (fun _ _ _ => [1%Qc]) (fun _ _ _ => [of_Z 7]) fx_value 1 1 3 1 (Some [(0, 3)]) 0 2 1%Qc None.

Lemma fastar_keeps_old_history_witness :
  let '(h, s) := compressed_history id fx_randn fx_call fx_layout 2 (fastar_init fx_config) in
  compressed_history id fx_randn fx_other fx_layout 2 s = (h, s).
Proof.
  destruct (compressed_history id fx_randn fx_call fx_layout 2 (fastar_init fx_config)) as [h s] eqn:E.
  apply (fastar_keeps_old_history id fx_randn fx_call fx_other fx_layout fx_layout 2 (fastar_init fx_config) h s E); reflexivity.
Defined.
End runs.
