(* ===== verification/LightForcing.v ===== *)
(** * LightForcing: chunk-aware sparsity and hierarchical block selection

    Models [lightforcing.py] of the sparse attention package.  A score is
    [None] when it is minus infinity. *)

From S2P Require Import Prelude Num SparsePlan SparseKernel SparseContext SparseBackend Osa XAttention.

Open Scope Z_scope.

Section lightforcing.
Context {F : Type} `{NumExp F} `{!TorchOrder F} `{!TorchOrder (option F)}.
Context (garbage : nat).

Record LightForcingConfig := mkLFConfig {
  block_q : Z;
  block_k : Z;
  lf_sparsity : F;
  sparsity_base : F;
  keep_frames : Z;
  keep_sink : Z;
  keep_near : Z;
  num_output_frames : Z;
  local_attn_size : Z }.

(** ** The schedule *)

Definition calculate_chunk_sparsities (nframes fpb window : Z) (sparsity base : F) : list F :=
  let counts := zrange_step (2 * fpb) (nframes + 1) fpb in
  let kv := (fun c => if window =? -1 then c else Z.min c window) <$> counts in
  let alphas := (fun c => ndiv none (nsqrt (of_Z c))) <$> counts in
  let target_flops := nsum ((fun k => nmul (nsub none sparsity) (of_Z k)) <$> kv) in
  let base_flops := nsum ((fun k => nmul (nsub none base) (of_Z k)) <$> kv) in
  let weighted := nsum (zip_with (fun a k => nmul a (of_Z k)) alphas kv) in
  if nis0 weighted then nzero :: replicate (length alphas) base
  else
    let beta := ndiv (nsub target_flops base_flops) weighted in
    nzero :: ((fun a => nsub base (nmul a beta)) <$> alphas).

(** ** Blocks *)

Definition frame_aligned_block_lo (nf fs block : Z) : list Z :=
  zrange 0 nf ≫= fun f => (fun b => f * fs + Z.min (b * block) fs) <$> zrange 0 (cdiv fs block).

Definition frame_aligned_block_bounds (nf fs block : Z) : list Z * list Z :=
  let lo := frame_aligned_block_lo nf fs block in
  (lo, (fun x => Z.min x (nf * fs)) <$> (tail lo ++ [nf * fs])).

(** Block means of the tokens [a .. a + len) of one head, per row of [group] tokens. *)
Definition mean_pool_blocks (dim : nat) (token : Z -> list F) (len block group : Z) : list (list F) :=
  let blocks_per_row := cdiv group block in
  zrange 0 (len / group) ≫= fun row => (fun b =>
    let lo := row * group + b * block in
    let hi := row * group + Z.min ((b + 1) * block) group in
    let count := if b =? blocks_per_row - 1 then group - (blocks_per_row - 1) * block else block in
    (fun x => ndiv x (of_Z count)) <$> foldr vadd (zeros dim) (token <$> zrange lo hi)) <$> zrange 0 blocks_per_row.

(** ** Selection *)

(** [bias[..., a:b] = 0] and [scatter_] as sets of eligible frames. *)
Definition select_middle_frames (q : list F) (pooled_frames : list (list F)) (past keep_f keep_s keep_n : Z) : res (list Z) :=
  if (keep_s <? 0) || (keep_n <? 0) then Raise ValueError
  else if keep_f <? keep_s + keep_n then Raise ValueError
  else
    let middle := keep_f - keep_s - keep_n in
    if middle =? 0 then Ok []
    else
      let scores := dot q <$> take (Z.to_nat (past - keep_n - keep_s)) (drop (Z.to_nat keep_s) pooled_frames) in
      (* [torch.topk] of more than there are raises *)
      if Z.of_nat (length scores) <? middle then Raise RuntimeError
      else Ok ((fun i => i + keep_s) <$> topk scores (Z.to_nat middle)).

Definition frame_means (bpf : Z) (dim : nat) (pooled_key : list (list F)) : list (list F) :=
  (fun f => (fun x => ndiv x (of_Z bpf)) <$> foldr vadd (zeros dim) (take (Z.to_nat bpf) (drop (Z.to_nat (f * bpf)) pooled_key)))
    <$> zrange 0 (Z.of_nat (length pooled_key) / bpf).

(** One row: the scores of a query block, its eligible frames, the kept blocks. *)
Definition eligible_frame (past keep_s keep_n : Z) (middle : list Z) (f : Z) : bool :=
  bool_decide (f ∈ middle) || (f <? keep_s) || ((past - keep_n <=? f) && (f <? past)) || (past <=? f).

Definition lightforcing_row (dim : nat) (q : list F) (pooled_key : list (list F)) (bpf past keep_f keep_s keep_n : Z) (k : nat) : res (list bool) :=
  let scores := dot q <$> pooled_key in
  biased ← (if keep_f <? past then
              middle ← select_middle_frames q (frame_means bpf dim pooled_key) past keep_f keep_s keep_n;
              Ok (imap (fun i s => if eligible_frame past keep_s keep_n middle (Z.of_nat i / bpf) then Some s else None) scores)
            else Ok (Some <$> scores));
  Ok (scatter_true (length scores) (topk biased k)).

Definition lightforcing_block_mask (dim : nat) (pooled_query pooled_key : list (list (list F))) (bpf past keep_f keep_s keep_n : Z) (k : nat) :
    res (list (list (list bool))) :=
  mapM (fun qk => mapM (fun q => lightforcing_row dim q qk.2 bpf past keep_f keep_s keep_n k) qk.1) (zip pooled_query pooled_key).

(** ** The method *)

Definition lf_signature : Type := option KeySegments * Z * Z.

Record lightforcing_state := mkLF {
  lf_base : base_state F;
  lf_config : LightForcingConfig;
  lf_schedules : gmap Z (list F);
  pooled_history : LayoutCache lf_signature (list (list (list F)));   (* [heads, blocks, dim] *)
  lf_last_chunk : Z }.

Definition put_lf_base b s := mkLF b (lf_config s) (lf_schedules s) (pooled_history s) (lf_last_chunk s).

Definition lightforcing_init (config : LightForcingConfig) : res lightforcing_state :=
  if (block_q config <? 16) || negb (Z.land (block_q config) (block_q config - 1) =? 0) then Raise ValueError
  else if (keep_sink config <? 0) || (keep_near config <? 0) then Raise ValueError
  else if keep_frames config <? keep_sink config + keep_near config then Raise ValueError
  else Ok (mkLF base_init config ∅ ∅ (-1)).

Definition lightforcing_begin_forward (g : ChunkGeometry) (s : lightforcing_state) : res lightforcing_state :=
  let s := put_lf_base (set_geometry g (lf_base s)) s in
  chunk ← query_chunk_index g;
  let history := if chunk <? lf_last_chunk s then ∅ else pooled_history s in
  Ok (mkLF (lf_base s) (lf_config s) (lf_schedules s) history chunk).

Definition chunk_sparsity (layout : VisibleLayout) (s : lightforcing_state) : res (F * lightforcing_state) :=
  let c := lf_config s in
  let fpb := frames_per_block layout in
  let schedule := match lf_schedules s !! fpb with
                  | Some l => l
                  | None => calculate_chunk_sparsities (num_output_frames c) fpb (local_attn_size c) (lf_sparsity c) (sparsity_base c)
                  end in
  let i := Z.min (layout_chunk_index layout) (Z.of_nat (length schedule) - 1) in
  d ← or_raise IndexError (schedule !! Z.to_nat (if i <? 0 then i + Z.of_nat (length schedule) else i));
  Ok (d, mkLF (lf_base s) c (<[fpb := schedule]> (lf_schedules s)) (pooled_history s) (lf_last_chunk s)).

Definition lightforcing_prepare (call : SparseAttentionCall F) (layout : VisibleLayout) (s : lightforcing_state) :
    res (option (SparseAttentionExecution F) * lightforcing_state) :=
  let c := lf_config s in
  let q_len := c_q_len call in
  let kv := c_kv_len call in
  if kv <=? q_len then Ok (None, s)
  else
    ss ← chunk_sparsity layout s;
    let '(sparsity, s) := ss in
    if nleb sparsity nzero then Ok (None, s)
    else
      let fs := frame_seqlen layout in
      let dim := Z.to_nat (head_dim call) in
      let bpf := cdiv fs (block_k c) in
      let kv_blocks := num_frames layout * bpf in
      let k := Z.min kv_blocks (ntrunc (nmul (nsub none sparsity) (of_Z kv_blocks))) in
      if (k <=? 0) || (kv_blocks <=? k) then Ok (None, s)
      else
        let past := num_frames layout - query_frames layout in
        let history_len := past * fs in
        let qtoken h n := batch_token (c_batch call) dim (query call) h n in
        let ktoken h n := batch_token (c_batch call) dim (key call) h n in
        let pooled_query := (fun h => mean_pool_blocks dim (qtoken h) q_len (block_q c) q_len) <$> seq 0 (num_local_heads call) in
        let sg := (key_segments call, kv, fs) in
        let '(history, s) :=
          match cache_get (pooled_history s) (layer_index call) sg with
          | Some h => (h, s)
          | None =>
            let h := (fun h => mean_pool_blocks dim (ktoken h) history_len (block_k c) fs) <$> seq 0 (num_local_heads call) in
            (h, mkLF (lf_base s) c (lf_schedules s) (cache_put (pooled_history s) (layer_index call) sg h) (lf_last_chunk s))
          end in
        let own := (fun h => mean_pool_blocks dim (fun n => ktoken h (history_len + n)) (kv - history_len) (block_k c) fs) <$> seq 0 (num_local_heads call) in
        mask ← lightforcing_block_mask dim pooled_query (zip_with app history own) bpf past (keep_frames c) (keep_sink c) (keep_near c) (Z.to_nat k);
        let '(lo, hi) := frame_aligned_block_bounds (num_frames layout) fs (block_k c) in
        Ok (Some (mkExecution (plan_from_segment_mask garbage mask (Shared lo) (Shared hi) (block_q c) None) (query call) (key call) (value call) None), s).

Definition lightforcing_attend (order : list (nat * nat) -> list (nat * nat)) := attend lf_base put_lf_base lightforcing_prepare order.

End lightforcing.
Arguments LightForcingConfig : clear implicits.
Arguments lightforcing_state : clear implicits.
