(* ===== verification/LightForcingSpec.v ===== *)
(** * LightForcingSpec: frame-aligned blocks and the top blocks of a row *)

From S2P Require Import Prelude Num SparsePlan SparsePlanSpec SparseKernel SparseKernelSpec SparseClaims SparseContext Osa OsaSpec XAttention LightForcing.

Open Scope Z_scope.

(** ** Frame-aligned blocks *)

Section bounds.
Context (nf fs block : Z) (Hnf : 0 <= nf) (Hfs : 0 < fs) (Hb : 0 < block).
Local Abbreviation bpf := (cdiv fs block).
Local Abbreviation lo := (frame_aligned_block_lo nf fs block).
Local Abbreviation hi := ((frame_aligned_block_bounds nf fs block).2).

Lemma bpf_pos : 0 < bpf.
Proof. pose proof (cdiv_spec fs block Hb). nia. Qed.

Lemma length_aligned_lo : length lo = Z.to_nat (nf * bpf).
Proof.
  unfold frame_aligned_block_lo. rewrite (length_bind_uniform _ _ (Z.to_nat bpf)).
  - rewrite length_zr. pose proof bpf_pos. rewrite Z.sub_0_r, Z2Nat.inj_mul by lia. done.
  - intros f _. rewrite length_fmap, length_zr. f_equal. lia.
Qed.

Lemma aligned_lo_at f b : 0 <= f < nf -> 0 <= b < bpf -> lo !! Z.to_nat (f * bpf + b) = Some (f * fs + Z.min (b * block) fs).
Proof.
  intros Hf Hbb. pose proof bpf_pos. unfold frame_aligned_block_lo.
  replace (Z.to_nat (f * bpf + b)) with (Z.to_nat f * Z.to_nat bpf + Z.to_nat b)%nat by nia.
  rewrite (lookup_bind_uniform _ _ (Z.to_nat bpf)); [|intros x _; rewrite length_fmap, length_zr; f_equal; lia|lia].
  unfold zrange. rewrite lookup_seqZ_lt by lia. cbn. rewrite list_lookup_fmap, lookup_seqZ_lt by lia. cbn. f_equal. rewrite !Z2Nat.id by lia. lia.
Qed.

(** Block [b] of frame [f] covers its tokens up to the end of the frame. *)
Lemma aligned_at f b h : 0 <= f < nf -> 0 <= b < bpf ->
  seg_at (Shared lo) h (Z.to_nat (f * bpf + b)) = f * fs + b * block /\
  seg_at (Shared hi) h (Z.to_nat (f * bpf + b)) = f * fs + Z.min ((b + 1) * block) fs.
Proof.
  intros Hf Hbb. pose proof bpf_pos. pose proof (cdiv_spec fs block Hb) as Hc. cbn [seg_at]. rewrite (aligned_lo_at f b) by lia. cbn. assert (b * block < fs) by nia.
  split; [lia|]. unfold frame_aligned_block_bounds. cbn [snd]. rewrite list_lookup_fmap.
  destruct (decide (f * bpf + b + 1 < nf * bpf)) as [Hlt|Hge].
  - rewrite lookup_app_l by (rewrite length_tl, length_aligned_lo; lia). rewrite lookup_tail. replace (S (Z.to_nat (f * bpf + b))) with (Z.to_nat (f * bpf + b + 1)) by nia.
    destruct (decide (b + 1 < bpf)).
    + replace (f * bpf + b + 1) with (f * bpf + (b + 1)) by lia. rewrite aligned_lo_at by lia. cbn. nia.
    + assert (b + 1 = bpf) as Eb by lia. replace (f * bpf + b + 1) with ((f + 1) * bpf + 0) by lia.
      assert (f + 1 < nf) by nia. rewrite aligned_lo_at by lia. cbn. rewrite Eb. nia.
  - assert (f = nf - 1 /\ b = bpf - 1) as [-> ->] by nia.
    rewrite lookup_app_r by (rewrite length_tl, length_aligned_lo; lia). rewrite length_tl, length_aligned_lo.
    replace (Z.to_nat ((nf - 1) * bpf + (bpf - 1)) - (Z.to_nat (nf * bpf) - 1))%nat with 0%nat by nia. cbn. nia.
Qed.

Lemma block_split o : (Z.of_nat o < nf * bpf) -> exists f b, 0 <= f < nf /\ 0 <= b < bpf /\ o = Z.to_nat (f * bpf + b).
Proof.
  intros Ho. pose proof bpf_pos. exists (Z.of_nat o / bpf), (Z.of_nat o mod bpf). pose proof (Z.div_mod (Z.of_nat o) bpf). pose proof (Z.mod_pos_bound (Z.of_nat o) bpf).
  assert (0 <= Z.of_nat o / bpf) by (apply Z.div_pos; lia). split_and!; try nia.
Qed.

Lemma aligned_segments h : 0 < nf -> segments_ok (seg_at (Shared lo) h) (seg_at (Shared hi) h) (Z.to_nat (nf * bpf)) /\
  0 <= seg_at (Shared lo) h 0 /\ seg_at (Shared hi) h (Z.to_nat (nf * bpf) - 1) <= nf * fs.
Proof.
  intros Hn. pose proof bpf_pos. pose proof (cdiv_spec fs block Hb) as Hc. split; [split|split].
  - intros o Ho. destruct (block_split o) as (f & b & Hf & Hbb & ->); [nia|]. destruct (aligned_at f b h Hf Hbb) as [-> ->]. nia.
  - intros o Ho. destruct (block_split o) as (f & b & Hf & Hbb & ->); [nia|]. destruct (aligned_at f b h Hf Hbb) as [_ ->].
    destruct (decide (b + 1 < bpf)).
    + replace (S (Z.to_nat (f * bpf + b))) with (Z.to_nat (f * bpf + (b + 1))) by nia. destruct (aligned_at f (b + 1) h) as [-> _]; [lia..|]. nia.
    + assert (b + 1 = bpf) as Eb by lia. assert (f + 1 < nf) by nia. replace (S (Z.to_nat (f * bpf + b))) with (Z.to_nat ((f + 1) * bpf + 0)) by nia.
      destruct (aligned_at (f + 1) 0 h) as [-> _]; [lia..|]. rewrite Eb. nia.
  - change 0%nat with (Z.to_nat (0 * bpf + 0)) at 1. destruct (aligned_at 0 0 h) as [-> _]; lia.
  - replace (Z.to_nat (nf * bpf) - 1)%nat with (Z.to_nat ((nf - 1) * bpf + (bpf - 1))) by nia. destruct (aligned_at (nf - 1) (bpf - 1) h) as [_ ->]; [nia..|]. nia.
Qed.

(** The block of a token. *)
Definition token_aligned_block (n : Z) : Z := n / fs * bpf + n mod fs / block.

Lemma aligned_selected row h n : 0 <= n < nf * fs -> length row = Z.to_nat (nf * bpf) ->
  seg_selected row (seg_at (Shared lo) h) (seg_at (Shared hi) h) n = true <-> nthb row (Z.to_nat (token_aligned_block n)) = true.
Proof.
  intros Hn Hl. pose proof bpf_pos. pose proof (cdiv_spec fs block Hb) as Hc. rewrite seg_selected_spec. unfold token_aligned_block.
  pose proof (Z.div_mod n fs ltac:(lia)) as En. pose proof (Z.mod_pos_bound n fs Hfs) as Hm. set (r := n mod fs) in *. set (f := n / fs) in *.
  pose proof (Z.div_mod r block ltac:(lia)) as Er. pose proof (Z.mod_pos_bound r block Hb) as Hrm. set (b := r / block) in *. assert (0 <= b < bpf) by (split; [apply Z.div_pos; lia|nia]).
  assert (0 <= f < nf) by (split; [apply Z.div_pos; lia|nia]). split.
  - intros (o & Ho & Hpos). pose proof (nthb_lt _ _ Ho) as Hlt. destruct (block_split o) as (f' & b' & Hf' & Hb' & ->); [nia|].
    destruct (aligned_at f' b' h Hf' Hb') as [E1 E2]. rewrite E1, E2 in Hpos. assert (f' = f) as -> by (apply (Z.div_unique_pos n fs _ (n - f' * fs)); [pose proof (Z.mul_nonneg_nonneg b' block ltac:(lia) ltac:(lia)); lia|ring]). assert (b' = b) as -> by (apply (Z.div_unique_pos r block _ (r - b' * block)); [lia|ring]). done.
  - intros Ho. exists (Z.to_nat (f * bpf + b)). split; [done|]. destruct (aligned_at f b h) as [-> ->]; [lia..|]. nia.
Qed.

End bounds.

(** ** The top blocks *)

(** Order on values with minus infinity: [None] is below everything. *)
Definition oleb {A} (leb : A -> A -> bool) (a b : option A) : bool :=
  match a, b with None, _ => true | Some _, None => false | Some x, Some y => leb x y end.

(** What [torch.topk] promises on a row of values ordered by [leb]. *)
Class TopkLaws (A : Type) (leb : A -> A -> bool) `{!TorchOrder A} := {
  top_nodup (l : list A) k : NoDup (topk l k) /\ topk l k ⊆ zrange 0 (Z.of_nat (length l));
  top_length (l : list A) k : (k <= length l)%nat -> length (topk l k) = k;
  top_best (l : list A) k i j x y : i ∈ topk l k -> j ∉ topk l k -> l !! Z.to_nat i = Some x -> l !! Z.to_nat j = Some y -> 0 <= j -> leb y x = true }.

(** A merge sort keeps the promise. *)
Section merging.
Context {A : Type} (leb : A -> A -> bool).
Context (Htotal : forall x y, leb x y = true \/ leb y x = true) (Htrans : forall x y z, leb x y = true -> leb y z = true -> leb x z = true).

Definition by_value (l : list A) (i j : Z) : Prop := oleb leb (l !! Z.to_nat j) (l !! Z.to_nat i) = true.
#[local] Instance by_value_dec l : RelDecision (by_value l) := fun i j => decide (oleb leb (l !! Z.to_nat j) (l !! Z.to_nat i) = true).

Definition sorted_indices (l : list A) : list Z := merge_sort (by_value l) (zrange 0 (Z.of_nat (length l))).
Definition topk_order : TorchOrder A := {|
  argsort_desc := sorted_indices; argsort_asc l := reverse (sorted_indices l); topk l k := take k (sorted_indices l) |}.

Lemma sorted_indices_perm l : sorted_indices l ≡ₚ zrange 0 (Z.of_nat (length l)).
Proof. apply merge_sort_Permutation. Qed.

Lemma sorted_indices_sorted l : StronglySorted (by_value l) (sorted_indices l).
Proof.
  apply StronglySorted_merge_sort.
  - intros i j k. unfold by_value. destruct (l !! Z.to_nat i), (l !! Z.to_nat j), (l !! Z.to_nat k); cbn; try done. intros. by eapply Htrans.
  - intros i j. unfold by_value. destruct (l !! Z.to_nat i), (l !! Z.to_nat j); cbn; auto.
Qed.

Lemma topk_order_laws : @TopkLaws A leb topk_order.
Proof.
  assert (forall l, NoDup (sorted_indices l)) as Hnd by (intros l; rewrite sorted_indices_perm; apply NoDup_seqZ).
  split; cbn [topk topk_order].
  - intros l k. specialize (Hnd l). rewrite <- (take_drop k (sorted_indices l)) in Hnd. split; [by apply NoDup_app in Hnd as (? & _)|].
    intros i Hi. rewrite <- sorted_indices_perm, <- (take_drop k (sorted_indices l)). set_solver.
  - intros l k Hk. rewrite length_take_le; [done|]. rewrite sorted_indices_perm, length_zr. lia.
  - intros l k i j x y Hi Hj Ex Ey Hj0. assert (j ∈ sorted_indices l) as Hjs.
    { rewrite sorted_indices_perm. apply elem_of_zrange. apply lookup_lt_Some in Ey. lia. }
    rewrite <- (take_drop k (sorted_indices l)) in Hjs. apply elem_of_app in Hjs as [?|Hjs]; [done|].
    pose proof (StronglySorted_take_drop _ _ _ _ _ (sorted_indices_sorted l) Hi Hjs) as E. unfold by_value in E. by rewrite Ex, Ey in E.
Qed.
End merging.

(** ** Scattered indices *)

Lemma scatter_true_lookup n idx i : (i < n)%nat -> scatter_true n idx !! i = Some (bool_decide (i ∈ Z.to_nat <$> idx)).
Proof.
  intros Hi. case_bool_decide as E.
  - apply scatter_true_at; [done|]. apply list_elem_of_fmap in E as (z & -> & Hz). eauto.
  - unfold scatter_true. assert (forall k : list bool, k !! i = Some false -> foldl (fun keep i => <[Z.to_nat i := true]> keep) k idx !! i = Some false) as Hg.
    { induction idx as [|z idx IH]; intros k Hk; cbn; [done|]. csimpl in E. apply not_elem_of_cons in E as [E1 E2]. apply IH; [done|]. by rewrite list_lookup_insert_ne. }
    apply Hg. by apply lookup_replicate_2.
Qed.

Lemma kept_scattered n idx : NoDup idx -> idx ⊆ zrange 0 (Z.of_nat n) -> kept_blocks (scatter_true n idx) ≡ₚ idx.
Proof.
  intros Hnd Hsub. apply NoDup_Permutation; [apply NoDup_filter, NoDup_seqZ|done|]. intros i. unfold kept_blocks. rewrite list_elem_of_filter, elem_of_zrange, length_scatter_true. split.
  - intros [E Hi]. rewrite scatter_true_lookup in E by lia. injection E as E. apply bool_decide_eq_true, list_elem_of_fmap in E as (z & E & Hz).
    specialize (Hsub z Hz). apply elem_of_zrange in Hsub. by replace i with z by lia.
  - intros Hi. pose proof (Hsub i Hi) as Hr. apply elem_of_zrange in Hr. split; [|done]. rewrite scatter_true_lookup by lia. f_equal. apply bool_decide_eq_true, list_elem_of_fmap. eauto.
Qed.
