(* ===== verification/LightForcingClaims.v ===== *)
(** * LightForcingClaims: the schedule meets its target, the blocks kept are the best eligible ones *)

From Stdlib Require Import Field QArith Qcanon.
From S2P Require Import Prelude Num SparsePlan SparsePlanSpec SparseKernel SparseKernelSpec SparseClaims SparseContext SparseBackend SparseBackendSpec Osa OsaSpec OsaClaims XAttention LightForcing LightForcingSpec.

Open Scope Z_scope.

Section claims.
Context {F : Type} `{!Num F} `{!NumExp F} `{!NumLaws F} `{!NumExpLaws F} `{!TorchOrder F} `{!TorchOrderLaws F}.
Context `{!TorchOrder (option F)} `{!TopkLaws (option F) (oleb nleb)}.
Add Field NumFieldL : (num_field (F:=F)).

(** ** The schedule *)

(** The key frames of the chunks after the first. *)
Definition lf_schedule_kv (nframes fpb window : Z) : list Z :=
  (fun c => if window =? -1 then c else Z.min c window) <$> zrange_step (2 * fpb) (nframes + 1) fpb.

Lemma lf_weights_pos fpb window c nframes : 0 < fpb -> window = -1 \/ 0 < window -> c ∈ zrange_step (2 * fpb) (nframes + 1) fpb ->
  0 < c /\ 0 < (if window =? -1 then c else Z.min c window).
Proof.
  intros Hf Hw (i & -> & Hi)%list_elem_of_fmap. apply elem_of_zrange in Hi. destruct (Z.eqb_spec window (-1)); nia.
Qed.

(** The first chunk is dense and the later chunks
    spend exactly the target sparsity, weighted by their key frames; no chunk
    is sparser than the base when the target is not. *)
Theorem chunk_sparsities_mean nframes fpb window (sparsity base : F) : 0 < fpb -> window = -1 \/ 0 < window ->
  exists rest, calculate_chunk_sparsities nframes fpb window sparsity base = nzero :: rest /\
  nsum (zip_with (fun s k => nmul s (of_Z k)) rest (lf_schedule_kv nframes fpb window)) =
    nmul sparsity (nsum (of_Z <$> lf_schedule_kv nframes fpb window)) /\
  (nle sparsity base -> Forall (fun s => nle s base) rest).
Proof.
  intros Hf Hw. unfold calculate_chunk_sparsities, lf_schedule_kv. cbv zeta.
  pose proof (fun c => lf_weights_pos fpb window c nframes Hf Hw) as Hpos. set (counts := zrange_step _ _ _) in *.
  set (kvf := fun c => if window =? -1 then c else Z.min c window) in *.
  rewrite zip_with_fmap_diag, !nsum_scale. set (w := fun c => nmul (ndiv none (nsqrt (of_Z c))) (of_Z (kvf c))). set (W := nsum (w <$> counts)). set (K := nsum (of_Z <$> (kvf <$> counts))).
  assert (Forall (nlt nzero) (w <$> counts)) as Hwpos.
  { apply Forall_fmap, Forall_forall. intros c Hc. destruct (Hpos c Hc). unfold w. cbn. apply nmul_pos; [by apply inv_sqrt_pos|]. rewrite <- of_Z_0. by apply of_Z_lt. }
  destruct (decide (counts = [])) as [E|Hne].
  { eexists. assert (W = nzero) as EW by (unfold W; by rewrite E). rewrite EW. unfold nis0. rewrite nle_refl. cbn [andb]. split; [done|]. rewrite length_fmap.
    unfold K. rewrite E. cbn. split; [ring|by constructor]. }
  assert (nlt nzero W) as HW by (apply nsum_pos; [by destruct counts|done]).
  assert (nis0 W = false) as -> by (unfold nis0; rewrite nlt_alt in HW; by rewrite HW).
  assert (W <> nzero) as HW0 by (apply nlt_ne in HW; congruence). set (beta := ndiv _ W).
  assert (beta = ndiv (nmul (nsub base sparsity) K) W) as Eb by (unfold beta; field; done).
  eexists. split; [done|]. split.
  - rewrite <- list_fmap_compose, zip_with_fmap_diag. unfold compose.
    transitivity (nsub (nmul base K) (nmul beta W)); [|rewrite Eb; field; done].
    transitivity (nsum ((fun c => nadd (nmul base (of_Z (kvf c))) (nmul (nopp beta) (w c))) <$> counts)).
    { f_equal. apply list_fmap_ext. intros _ c _. unfold w. ring. }
    rewrite nsum_add, !nsum_scale. unfold K, W. rewrite <- list_fmap_compose. unfold compose. ring.
  - intros Hle. apply Forall_fmap, Forall_fmap, Forall_forall. intros c Hc. destruct (Hpos c Hc) as [Hc0 _]. cbn. apply nle_sub.
    replace (nsub base (nsub base (nmul (ndiv none (nsqrt (of_Z c))) beta))) with (nmul (ndiv none (nsqrt (of_Z c))) beta) by ring.
    apply nle_mul; [by apply nlt_le, inv_sqrt_pos|]. rewrite Eb. replace nzero with (ndiv nzero W) by (by field). apply nle_div; [done|].
    apply nle_mul; [by apply nle_sub in Hle|]. apply nsum_nonneg. unfold K. rewrite <- list_fmap_compose. apply Forall_fmap, Forall_forall.
    intros c' Hc'. destruct (Hpos c' Hc'). apply of_Z_le_0, Z.lt_le_incl. done.
Qed.

(** ** The selection *)

Section row.
Context (dim : nat) (q : list F) (pooled_key : list (list F)) (bpf nf past kf ks kn : Z) (k : nat).
Context (Hbpf : 0 < bpf) (Hlen : length pooled_key = Z.to_nat (nf * bpf)) (Hks : 0 <= ks) (Hkn : 0 <= kn) (Hkf : ks + kn <= kf) (Hpast : past <= nf) (Hnf : 0 <= nf).

(** The kept frames between the sink and the near window. *)
Definition middle_frames : list Z :=
  if kf - ks - kn =? 0 then [] else
  (fun i => i + ks) <$> topk (dot q <$> take (Z.to_nat (past - kn - ks)) (drop (Z.to_nat ks) (frame_means bpf dim pooled_key))) (Z.to_nat (kf - ks - kn)).

Lemma length_frame_means : length (frame_means bpf dim pooled_key) = Z.to_nat nf.
Proof. unfold frame_means. rewrite length_fmap, length_zr, Hlen, Z2Nat.id by nia. rewrite Z.div_mul by lia. f_equal. lia. Qed.

Lemma select_middle_Ok : kf < past -> select_middle_frames q (frame_means bpf dim pooled_key) past kf ks kn = Ok middle_frames.
Proof.
  intros Hp. unfold select_middle_frames, middle_frames. destruct (Z.ltb_spec ks 0); [lia|]. destruct (Z.ltb_spec kn 0); [lia|]. destruct (Z.ltb_spec kf (ks + kn)); [lia|].
  cbn [orb]. destruct (Z.eqb_spec (kf - ks - kn) 0) as [|]; [done|]. rewrite length_fmap, length_take, length_drop, length_frame_means.
  destruct (Z.ltb_spec (Z.of_nat (Z.to_nat (past - kn - ks) `min` (Z.to_nat nf - Z.to_nat ks))) (kf - ks - kn)); [lia|done].
Qed.

Lemma middle_frames_ok : kf < past -> NoDup middle_frames /\ Z.of_nat (length middle_frames) = kf - ks - kn /\ forall f, f ∈ middle_frames -> ks <= f < past - kn.
Proof.
  intros Hp. unfold middle_frames. destruct (Z.eqb_spec (kf - ks - kn) 0) as [E|].
  { split_and!; [constructor|by rewrite E|]. intros f Hf. by apply not_elem_of_nil in Hf. }
  set (scores := dot q <$> _). assert (length scores = Z.to_nat (past - kn - ks)) as Hl.
  { unfold scores. rewrite length_fmap, length_take, length_drop, length_frame_means. lia. }
  destruct (topk_nodup scores (Z.to_nat (kf - ks - kn))) as [Hnd Hsub]. split_and!.
  - apply NoDup_fmap_2; [intros ? ? ?; lia|done].
  - rewrite length_fmap, topk_length by lia. lia.
  - intros f (i & -> & Hi)%list_elem_of_fmap. specialize (Hsub i Hi). apply elem_of_zrange in Hsub. lia.
Qed.

Definition eligible (f : Z) : bool := if kf <? past then eligible_frame past ks kn middle_frames f else true.

Lemma eligible_frames : kf < past -> filter (fun f => eligible f = true) (zrange 0 nf) ≡ₚ zrange 0 ks ++ middle_frames ++ zrange (past - kn) nf.
Proof.
  intros Hp. destruct (middle_frames_ok Hp) as (Hnd & Hl & Hr). apply NoDup_Permutation.
  - apply NoDup_filter, NoDup_seqZ.
  - apply NoDup_app. split_and!; [apply NoDup_seqZ| |].
    + intros f Hf [Hm|Hz]%elem_of_app; apply elem_of_zrange in Hf; [apply Hr in Hm; lia|apply elem_of_zrange in Hz; lia].
    + apply NoDup_app. split_and!; [done| |apply NoDup_seqZ]. intros f Hm%Hr Hz%elem_of_zrange. lia.
  - intros f. rewrite list_elem_of_filter, !elem_of_app, !elem_of_zrange. unfold eligible, eligible_frame. destruct (Z.ltb_spec kf past); [|lia].
    rewrite !orb_true_iff, bool_decide_eq_true, andb_true_iff, Z.ltb_lt, !Z.leb_le, Z.ltb_lt. split; [|intros [?|[Hm|?]]; [lia| |lia]; pose proof (Hr f Hm); split; [tauto|lia]].
    intros [[[[Hm|?]|?]|?] ?]; [tauto|lia..].
Qed.

Lemma num_eligible : kf < past -> Z.of_nat (length (filter (fun f => eligible f = true) (zrange 0 nf))) = kf + (nf - past).
Proof.
  intros Hp. destruct (middle_frames_ok Hp) as (_ & Hl & _). rewrite eligible_frames by done. rewrite !length_app, !length_zr. lia.
Qed.

(** Blocks of the eligible frames. *)
Definition eligible_blocks : list Z := filter (fun f => eligible f = true) (zrange 0 nf) ≫= fun f => (fun b => f * bpf + b) <$> zrange 0 bpf.

Lemma elem_of_eligible_blocks i : i ∈ eligible_blocks <-> 0 <= i < nf * bpf /\ eligible (i / bpf) = true.
Proof.
  unfold eligible_blocks. rewrite list_elem_of_bind. split.
  - intros (f & (b & -> & Hb)%list_elem_of_fmap & Hf). apply list_elem_of_filter in Hf as [He Hf]. apply elem_of_zrange in Hf, Hb.
    replace ((f * bpf + b) / bpf) with f; [split; [nia|done]|]. apply (Z.div_unique _ _ _ b); lia.
  - intros [Hi He]. pose proof (Z.div_mod i bpf ltac:(lia)). pose proof (Z.mod_pos_bound i bpf Hbpf). exists (i / bpf). split.
    + apply list_elem_of_fmap. exists (i mod bpf). rewrite elem_of_zrange. lia.
    + apply list_elem_of_filter. split; [done|]. apply elem_of_zrange. split; [apply Z.div_pos; lia|]. apply Z.div_lt_upper_bound; lia.
Qed.

Lemma eligible_blocks_count : kf < past -> NoDup eligible_blocks /\ Z.of_nat (length eligible_blocks) = (kf + (nf - past)) * bpf.
Proof.
  intros Hp. split.
  - unfold eligible_blocks. apply NoDup_bind; [|intros f _; apply NoDup_fmap_2; [intros ? ? ?; lia|apply NoDup_seqZ]|apply NoDup_filter, NoDup_seqZ].
    intros f f' x _ _ (b & -> & Hb)%list_elem_of_fmap (b' & E & Hb')%list_elem_of_fmap. apply elem_of_zrange in Hb, Hb'. nia.
  - unfold eligible_blocks. rewrite (length_bind_const _ _ (Z.to_nat bpf)); [|intros; rewrite length_fmap, length_zr; f_equal; lia]. rewrite <- num_eligible by done. nia.
Qed.

(** The biased scores of the row. *)
Definition biased : list (option F) := imap (fun i kv => if eligible (Z.of_nat i / bpf) then Some (dot q kv) else None) pooled_key.

Lemma row_eq : lightforcing_row dim q pooled_key bpf past kf ks kn k = Ok (scatter_true (length pooled_key) (topk biased k)).
Proof.
  unfold lightforcing_row, biased, eligible. rewrite length_fmap. destruct (Z.ltb_spec kf past) as [Hp|Hp]; bind_step.
  - rewrite select_middle_Ok by done. bind_step. by rewrite imap_fmap.
  - do 3 f_equal. clear. induction pooled_key as [|x l IH]; [done|]. csimpl. by rewrite IH.
Qed.

Context (Hk : (k <= length pooled_key)%nat).

Lemma length_biased : length biased = length pooled_key.
Proof. apply length_imap. Qed.

Lemma row_kept : kept_blocks (scatter_true (length pooled_key) (topk biased k)) ≡ₚ topk biased k /\ length (topk biased k) = k.
Proof.
  destruct (top_nodup biased k) as [Hnd Hsub]. rewrite length_biased in Hsub. split; [by apply kept_scattered|]. apply top_length. by rewrite length_biased.
Qed.

Lemma biased_at i : 0 <= i < nf * bpf -> exists kv, pooled_key !! Z.to_nat i = Some kv /\ biased !! Z.to_nat i = Some (if eligible (i / bpf) then Some (dot q kv) else None).
Proof.
  intros Hi. destruct (lookup_lt_is_Some_2 pooled_key (Z.to_nat i)) as [kv E]; [lia|]. exists kv. split; [done|]. unfold biased. rewrite list_lookup_imap, E. cbn. by rewrite Z2Nat.id by lia.
Qed.

(** Within the budget only eligible blocks are kept. *)
Lemma kept_eligible : kf < past -> Z.of_nat k <= (kf + (nf - past)) * bpf -> topk biased k ⊆ eligible_blocks.
Proof.
  intros Hp Hkb i Hi. destruct (top_nodup biased k) as [Hnd Hsub]. pose proof (Hsub i Hi) as Hr. rewrite length_biased, Hlen in Hr. apply elem_of_zrange in Hr.
  apply elem_of_eligible_blocks. split; [lia|]. destruct (eligible (i / bpf)) eqn:Ee; [done|]. exfalso.
  assert (i :: eligible_blocks ⊆+ topk biased k) as Hsm%submseteq_length.
  { destruct (eligible_blocks_count Hp) as [Hnde _]. apply NoDup_submseteq.
    - constructor; [|done]. rewrite elem_of_eligible_blocks. intros [_ E]. congruence.
    - intros j [->|Hj]%elem_of_cons; [done|]. destruct (decide (j ∈ topk biased k)) as [|Hn]; [done|]. exfalso.
      apply elem_of_eligible_blocks in Hj as [Hj Ej]. destruct (biased_at i ltac:(lia)) as (x & _ & Ei). destruct (biased_at j Hj) as (y & _ & Ejb). rewrite Ee in Ei. rewrite Ej in Ejb.
      pose proof (top_best biased k i j _ _ Hi Hn Ei Ejb ltac:(lia)) as C. done. }
  cbn in Hsm. destruct row_kept as [_ Hlk]. destruct (eligible_blocks_count Hp) as [_ Hle]. lia.
Qed.

End row.

(** With more past frames than the frame budget, a row
    keeps exactly [k] blocks; exactly the budgeted frames and the chunk's own
    are eligible, the sink, the near window and the own frames always; if [k]
    fits into them every kept block lies in an eligible frame, and no eligible
    block that was left out scores above a kept one. *)
Theorem lightforcing_selects dim (q : list F) pooled_key bpf nf past kf ks kn (k : nat) :
  0 < bpf -> length pooled_key = Z.to_nat (nf * bpf) -> 0 <= ks -> 0 <= kn -> ks + kn <= kf -> kf < past <= nf ->
  Z.of_nat k <= (kf + (nf - past)) * bpf ->
  exists middle keep, lightforcing_row dim q pooled_key bpf past kf ks kn k = Ok keep /\
    length keep = length pooled_key /\ length (kept_blocks keep) = k /\
    Z.of_nat (length (filter (fun f => eligible_frame past ks kn middle f = true) (zrange 0 nf))) = kf + (nf - past) /\
    (forall f, 0 <= f < ks \/ past - kn <= f < nf -> eligible_frame past ks kn middle f = true) /\
    (forall i, i ∈ kept_blocks keep -> eligible_frame past ks kn middle (i / bpf) = true) /\
    (forall i j ki kj, i ∈ kept_blocks keep -> 0 <= j -> j ∉ kept_blocks keep -> eligible_frame past ks kn middle (j / bpf) = true ->
      pooled_key !! Z.to_nat i = Some ki -> pooled_key !! Z.to_nat j = Some kj -> nle (dot q kj) (dot q ki)).
Proof.
  intros Hb Hl Hs Hn Hk Hp Hkb. assert (0 <= nf) as Hnf by lia. assert (k <= length pooled_key)%nat as Hkl by nia.
  exists (middle_frames dim q pooled_key bpf past kf ks kn). eexists. split; [apply (row_eq dim q pooled_key bpf nf); done || lia|].
  set (bs := biased _ _ _ _ _ _ _ _). destruct (row_kept dim q pooled_key bpf past kf ks kn k Hkl) as [Hkept Hlk]. fold bs in Hkept, Hlk.
  assert (forall f, eligible dim q pooled_key bpf past kf ks kn f = eligible_frame past ks kn (middle_frames dim q pooled_key bpf past kf ks kn) f) as Ee
    by (intros f; unfold eligible; destruct (Z.ltb_spec kf past); [done|lia]).
  assert (topk bs k ⊆ eligible_blocks dim q pooled_key bpf nf past kf ks kn) as Hsub by (apply kept_eligible; done || lia).
  assert (forall i, i ∈ topk bs k -> 0 <= i < nf * bpf /\ eligible_frame past ks kn (middle_frames dim q pooled_key bpf past kf ks kn) (i / bpf) = true) as Hin.
  { intros i Hi%Hsub. rewrite <- Ee. by apply elem_of_eligible_blocks in Hi. }
  split_and!.
  - by rewrite length_scatter_true.
  - by rewrite Hkept.
  - erewrite filter_ext_in; [apply (num_eligible dim q pooled_key bpf nf past kf ks kn); done || lia|]. intros f _. cbn. by rewrite Ee.
  - intros f Hf. unfold eligible_frame. rewrite !orb_true_iff, andb_true_iff, !Z.ltb_lt, !Z.leb_le. lia.
  - intros i Hi. rewrite Hkept in Hi. by apply Hin.
  - intros i j ki kj Hi Hj Hnj Hej Eki Ekj. rewrite Hkept in Hi, Hnj. destruct (Hin i Hi) as [Hi0 Hei].
    destruct (biased_at dim q pooled_key bpf nf past kf ks kn k Hl Hkl i Hi0) as (x & Ex & Ebi). fold bs in Ebi. rewrite Ee, Hei in Ebi.
    destruct (biased_at dim q pooled_key bpf nf past kf ks kn k Hl Hkl j) as (y & Ey & Ebj); [apply lookup_lt_Some in Ekj; lia|]. fold bs in Ebj. rewrite Ee, Hej in Ebj.
    pose proof (top_best bs k i j _ _ Hi Hnj Ebi Ebj Hj) as C. cbn in C. by simplify_eq.
Qed.

(** ** A call *)

Local Abbreviation lf_state := (lightforcing_state F).

Definition lf_pooled_query (c : LightForcingConfig F) (call : SparseAttentionCall F) (h : nat) : list (list F) :=
  mean_pool_blocks (Z.to_nat (head_dim call)) (fun n => batch_token (c_batch call) (Z.to_nat (head_dim call)) (query call) h n) (c_q_len call) (block_q c) (c_q_len call).

(** Block means of the whole key axis of a head, frame by frame. *)
Definition lf_pooled_part (c : LightForcingConfig F) (call : SparseAttentionCall F) (layout : VisibleLayout) (from len : Z) (h : nat) : list (list F) :=
  mean_pool_blocks (Z.to_nat (head_dim call)) (fun n => batch_token (c_batch call) (Z.to_nat (head_dim call)) (key call) h (from + n)) len (block_k c) (frame_seqlen layout).

Definition lf_past (layout : VisibleLayout) : Z := num_frames layout - query_frames layout.

Definition lf_pooled_key (c : LightForcingConfig F) (call : SparseAttentionCall F) (layout : VisibleLayout) (h : nat) : list (list F) :=
  lf_pooled_part c call layout 0 (lf_past layout * frame_seqlen layout) h ++
  lf_pooled_part c call layout (lf_past layout * frame_seqlen layout) (c_kv_len call - lf_past layout * frame_seqlen layout) h.

Definition lf_budget (c : LightForcingConfig F) (layout : VisibleLayout) (sparsity : F) : Z :=
  let blocks := num_frames layout * cdiv (frame_seqlen layout) (block_k c) in
  Z.min blocks (ntrunc (nmul (nsub none sparsity) (of_Z blocks))).

(** A call that plans. *)
Record lf_call (call : SparseAttentionCall F) (s : lf_state) (layout : VisibleLayout) (segs : KeySegments) (sparsity : F) (s1 : lf_state) : Prop := {
  lc_layout : layout_of call (lf_base s) = Ok (Some layout, lf_base s);
  lc_segs : key_segments call = Some segs /\ Forall (fun seg => 0 <= seg.2) segs;
  lc_past : 0 < c_q_len call < c_kv_len call;
  lc_sparsity : chunk_sparsity layout s = Ok (sparsity, s1) /\ nleb sparsity nzero = false;
  lc_budget : 0 < lf_budget (lf_config s) layout sparsity < num_frames layout * cdiv (frame_seqlen layout) (block_k (lf_config s));
  lc_config : 0 <= keep_sink (lf_config s) /\ 0 <= keep_near (lf_config s) /\ keep_sink (lf_config s) + keep_near (lf_config s) <= keep_frames (lf_config s);
  lc_sizes : 0 < frame_seqlen layout /\ 0 < block_k (lf_config s) /\ 0 < block_q (lf_config s) /\ (0 < num_local_heads call)%nat;
  lc_history : forall h, cache_get (pooled_history s1) (layer_index call) (key_segments call, c_kv_len call, frame_seqlen layout) = Some h ->
    h = lf_pooled_part (lf_config s) call layout 0 (lf_past layout * frame_seqlen layout) <$> seq 0 (num_local_heads call) }.

(** The mask row of a head and a query block. *)
Definition lf_row (c : LightForcingConfig F) (call : SparseAttentionCall F) (layout : VisibleLayout) (sparsity : F) (h : nat) (qb : Z) : res (list bool) :=
  lightforcing_row (Z.to_nat (head_dim call)) (default [] (lf_pooled_query c call h !! Z.to_nat qb)) (lf_pooled_key c call layout h)
    (cdiv (frame_seqlen layout) (block_k c)) (lf_past layout) (keep_frames c) (keep_sink c) (keep_near c) (Z.to_nat (lf_budget c layout sparsity)).

Lemma length_mean_pool dim token len block group : 0 < group -> 0 < block -> 0 <= len ->
  length (mean_pool_blocks (F:=F) dim token len block group) = Z.to_nat (len / group * cdiv group block).
Proof.
  intros Hg Hb Hl. unfold mean_pool_blocks. cbv zeta. pose proof (cdiv_spec group block Hb). assert (0 <= len / group) by (apply Z.div_pos; lia).
  rewrite (length_bind_const _ _ (Z.to_nat (cdiv group block))); [|intros; rewrite length_fmap, length_zr; f_equal; lia].
  rewrite length_zr, Z.sub_0_r, <- Z2Nat.inj_mul by nia. done.
Qed.

Section call.
Context (garbage : nat) (call : SparseAttentionCall F) (s : lf_state) (layout : VisibleLayout) (segs : KeySegments) (sparsity : F) (s1 : lf_state).
Context (Hc : lf_call call s layout segs sparsity s1).
Local Abbreviation c := (lf_config s).
Local Abbreviation fs := (frame_seqlen layout).
Local Abbreviation nf := (num_frames layout).
Local Abbreviation bpf := (cdiv fs (block_k c)).
Local Abbreviation dim := (Z.to_nat (head_dim call)).
Local Abbreviation nh := (num_local_heads call).
Local Abbreviation pk := (lf_pooled_key c call layout).
Local Abbreviation pq := (lf_pooled_query c call).
Local Abbreviation k := (Z.to_nat (lf_budget c layout sparsity)).

Definition lf_keep (q : list F) (keys : list (list F)) : list bool :=
  scatter_true (length keys) (topk (biased dim q keys bpf (lf_past layout) (keep_frames c) (keep_sink c) (keep_near c)) k).

Definition lf_mask : list (list (list bool)) := (fun h => (fun q => lf_keep q (pk h)) <$> pq h) <$> seq 0 nh.

Lemma lf_call_frames : c_kv_len call = nf * fs /\ c_q_len call = query_frames layout * fs /\ 0 < query_frames layout < nf.
Proof.
  destruct Hc as [HL (Es & Hpos) Hq _ _ _ (Hfs & _) _]. pose proof (layout_of_kv_len _ _ _ _ _ HL Es Hpos Hfs) as Hkv. unfold kv_len in Hkv.
  destruct (layout_of_Some _ _ _ _ HL) as (_ & Hmod & Hqf & _). rewrite Hqf. pose proof (Z.div_mod (c_q_len call) fs ltac:(lia)). split_and!; nia.
Qed.

Lemma length_pooled_key h : length (pk h) = Z.to_nat (nf * bpf).
Proof.
  destruct lf_call_frames as (Ekv & Eq & Hqf). destruct Hc as [_ _ _ _ _ _ (Hfs & Hbk & _) _]. unfold lf_pooled_key, lf_pooled_part. unfold lf_past.
  pose proof (cdiv_spec fs (block_k c) Hbk). rewrite length_app, !length_mean_pool by nia. rewrite Ekv, Z.div_mul by lia.
  replace (nf * fs - (nf - query_frames layout) * fs) with (query_frames layout * fs) by lia. rewrite Z.div_mul by lia. nia.
Qed.

Lemma length_pooled_query h : length (pq h) = Z.to_nat (cdiv (c_q_len call) (block_q c)).
Proof.
  destruct Hc as [_ _ Hq _ _ _ (_ & _ & Hbq & _) _]. unfold lf_pooled_query. rewrite length_mean_pool, Z.div_same by lia. by rewrite Z.mul_1_l.
Qed.

Lemma lf_row_keep q h : lightforcing_row dim q (pk h) bpf (lf_past layout) (keep_frames c) (keep_sink c) (keep_near c) k = Ok (lf_keep q (pk h)).
Proof.
  destruct lf_call_frames as (Ekv & Eq & Hqf). destruct Hc as [_ _ _ _ _ (Hks & Hkn & Hkf) (Hfs & Hbk & _) _].
  apply (row_eq dim q (pk h) bpf nf); try done; [by apply bpf_pos|apply length_pooled_key|unfold lf_past; lia|lia].
Qed.

Lemma lf_mask_eq : lightforcing_block_mask dim (pq <$> seq 0 nh) (pk <$> seq 0 nh) bpf (lf_past layout) (keep_frames c) (keep_sink c) (keep_near c) k = Ok lf_mask.
Proof.
  unfold lightforcing_block_mask. rewrite zip_with_fmap_diag.
  rewrite (mapM_Ok _ (fun qk => (fun q => lf_keep q qk.2) <$> qk.1)).
  - rewrite <- list_fmap_compose. done.
  - intros qk (h & -> & _)%list_elem_of_fmap. cbn. apply mapM_Ok. intros q _. apply lf_row_keep.
Qed.

Local Abbreviation lo := (frame_aligned_block_bounds nf fs (block_k c)).1.
Local Abbreviation hi := (frame_aligned_block_bounds nf fs (block_k c)).2.

Lemma lf_planned : exists s2, lightforcing_prepare garbage call layout s =
  Ok (Some (mkExecution (plan_from_segment_mask garbage lf_mask (Shared lo) (Shared hi) (block_q c) None) (query call) (key call) (value call) None), s2).
Proof.
  pose proof lf_mask_eq as Hmask. destruct Hc as [_ _ Hq (Es & Hpos) Hb _ _ Hh].
  assert (lf_config s1 = c) as Ec by (unfold chunk_sparsity in Es; apply bind_Ok_inv in Es as (d & _ & Es); by injection Es as _ <-).
  unfold lightforcing_prepare. destruct (Z.leb_spec (c_kv_len call) (c_q_len call)); [lia|]. rewrite Es. bind_step. rewrite Hpos.
  unfold lf_budget in Hb. destruct (Z.leb_spec (Z.min (nf * bpf) (ntrunc (nmul (nsub none sparsity) (of_Z (nf * bpf))))) 0); [lia|].
  destruct (Z.leb_spec (nf * bpf) (Z.min (nf * bpf) (ntrunc (nmul (nsub none sparsity) (of_Z (nf * bpf)))))); [lia|]. cbn [orb].
  set (hist := lf_pooled_part c call layout 0 (lf_past layout * fs) <$> seq 0 nh) in Hh.
  assert (exists s2, match cache_get (pooled_history s1) (layer_index call) (key_segments call, c_kv_len call, fs) with
    | Some h => (h, s1)
    | None => (hist, mkLF (lf_base s1) c (lf_schedules s1) (cache_put (pooled_history s1) (layer_index call) (key_segments call, c_kv_len call, fs) hist) (lf_last_chunk s1))
    end = (hist, s2)) as [s2 E2].
  { destruct (cache_get _ _ _) as [h|] eqn:E; [rewrite (Hh h eq_refl); by eexists|by eexists]. }
  exists s2. change (fun h : nat => mean_pool_blocks dim (fun n : Z => batch_token (c_batch call) dim (key call) h n) ((nf - query_frames layout) * fs) (block_k c) fs)
    with (lf_pooled_part c call layout 0 (lf_past layout * fs)). fold hist. rewrite E2.
  assert (zip_with app hist ((fun h : nat => mean_pool_blocks dim (fun n : Z => batch_token (c_batch call) dim (key call) h ((nf - query_frames layout) * fs + n))
    (c_kv_len call - (nf - query_frames layout) * fs) (block_k c) fs) <$> seq 0 nh) = pk <$> seq 0 nh) as -> by (unfold hist; rewrite zip_with_fmap_diag; done).
  change (nf - query_frames layout) with (lf_past layout). unfold lf_budget in Hmask. cbv zeta in Hmask. unfold lf_pooled_query in Hmask. rewrite Hmask. bind_step. done.
Qed.

End call.

Section call_keys.
Context (call : SparseAttentionCall F) (s : lf_state) (layout : VisibleLayout) (segs : KeySegments) (sparsity : F) (s1 : lf_state).
Context (Hc : lf_call call s layout segs sparsity s1).
Local Abbreviation c := (lf_config s).
Local Abbreviation fs := (frame_seqlen layout).
Local Abbreviation nf := (num_frames layout).
Local Abbreviation bpf := (cdiv fs (block_k c)).
Local Abbreviation mask := (lf_mask call s layout sparsity).
Local Abbreviation lo := (frame_aligned_block_bounds nf fs (block_k c)).1.
Local Abbreviation hi := (frame_aligned_block_bounds nf fs (block_k c)).2.
Local Abbreviation Q := (Z.to_nat (cdiv (c_q_len call) (block_q c))).

Lemma length_lf_keep q h : length (lf_keep call s layout sparsity q (lf_pooled_key c call layout h)) = Z.to_nat (nf * bpf).
Proof. unfold lf_keep. rewrite length_scatter_true. by eapply length_pooled_key. Qed.

Lemma lf_segmented : segmented (num_local_heads call) Q (Z.to_nat (nf * bpf)) mask (Shared lo) (Shared hi) (c_kv_len call).
Proof.
  destruct (lf_call_frames _ _ _ _ _ _ Hc) as (Ekv & Eq & Hqf). destruct (lc_sizes _ _ _ _ _ _ Hc) as (Hfs & Hbk & Hbq & HH). destruct (lc_past _ _ _ _ _ _ Hc) as [Hq0 _].
  pose proof (bpf_pos fs (block_k c) Hfs Hbk) as Hbpf. pose proof (cdiv_spec (c_q_len call) (block_q c) Hbq).
  assert (length lo = Z.to_nat (nf * bpf)) as Hlo by (apply length_aligned_lo; lia). split.
  - split_and!; [unfold lf_mask; by rewrite length_fmap, length_seq| |done|nia].
    apply Forall_fmap, Forall_forall. intros h _. cbn. split; [rewrite length_fmap; by eapply length_pooled_query|]. apply Forall_fmap, Forall_forall. intros q _. apply length_lf_keep.
  - exact Hlo.
  - cbn. rewrite length_fmap, length_app, length_tl. cbn. change (frame_aligned_block_lo nf fs (block_k c)) with lo. rewrite Hlo. nia.
  - done.
  - nia.
  - intros h _. rewrite Ekv. apply aligned_segments; lia.
Qed.

Lemma lf_row_keys h m keep : (h < num_local_heads call)%nat -> 0 <= m < c_q_len call -> lf_row c call layout sparsity h (m / block_q c) = Ok keep ->
  mask_keys mask (Shared lo) (Shared hi) h (Z.to_nat (m / block_q c)) (c_kv_len call) =
    filter (fun n => nthb keep (Z.to_nat (token_aligned_block fs (block_k c) n)) = true) (zrange 0 (c_kv_len call)) /\
  keep = mask_at mask h (Z.to_nat (m / block_q c)) /\ length keep = Z.to_nat (nf * bpf) /\ length (kept_blocks keep) = Z.to_nat (lf_budget c layout sparsity).
Proof.
  intros Hh Hm Ek. destruct (lf_call_frames _ _ _ _ _ _ Hc) as (Ekv & Eq & Hqf). destruct (lc_sizes _ _ _ _ _ _ Hc) as (Hfs & Hbk & Hbq & HH).
  pose proof (lc_budget _ _ _ _ _ _ Hc) as Hbud. unfold lf_row in Ek. rewrite (lf_row_keep _ _ _ _ _ _ Hc) in Ek. injection Ek as <-.
  set (q := default [] _) in *. pose proof (length_lf_keep q h) as Hl. set (keep := lf_keep _ _ _ _ _ _) in *.
  assert (keep = mask_at mask h (Z.to_nat (m / block_q c))) as Emask.
  { unfold mask_at, lf_mask. rewrite list_lookup_fmap, lookup_seq_lt by lia. cbn. rewrite list_lookup_fmap. unfold keep, q.
    destruct (lookup_lt_is_Some_2 (lf_pooled_query c call h) (Z.to_nat (m / block_q c))) as [x ->]; [|done].
    rewrite (length_pooled_query _ _ _ _ _ _ Hc). pose proof (cdiv_spec (c_q_len call) (block_q c) Hbq).
    assert (m / block_q c < cdiv (c_q_len call) (block_q c)) by (apply Z.div_lt_upper_bound; nia). assert (0 <= m / block_q c) by (apply Z.div_pos; lia). lia. }
  split_and!; [|done|done|].
  - unfold mask_keys. rewrite <- Emask. apply filter_ext_in. intros n Hn%elem_of_zrange. apply aligned_selected; done || lia.
  - destruct (row_kept (Z.to_nat (head_dim call)) q (lf_pooled_key c call layout h) bpf (lf_past layout) (keep_frames c) (keep_sink c) (keep_near c)
      (Z.to_nat (lf_budget c layout sparsity))) as [E1 E2]; [|unfold keep, lf_keep; by rewrite E1].
    rewrite (length_pooled_key _ _ _ _ _ _ Hc). lia.
Qed.

Lemma lf_keys_ne keep : length keep = Z.to_nat (nf * bpf) -> kept_blocks keep <> [] ->
  filter (fun n => nthb keep (Z.to_nat (token_aligned_block fs (block_k c) n)) = true) (zrange 0 (c_kv_len call)) <> [].
Proof.
  intros Hl Hne E. destruct (lf_call_frames _ _ _ _ _ _ Hc) as (Ekv & Eq & Hqf). destruct (lc_sizes _ _ _ _ _ _ Hc) as (Hfs & Hbk & Hbq & HH).
  pose proof (bpf_pos fs (block_k c) Hfs Hbk) as Hbpf. pose proof (cdiv_spec fs (block_k c) Hbk).
  destruct (kept_blocks keep) as [|i l] eqn:Ek; [done|]. assert (i ∈ kept_blocks keep) as Hi by (rewrite Ek; constructor).
  apply list_elem_of_filter in Hi as [Hi Hr]. rewrite Hl in Hr. apply elem_of_zrange in Hr.
  pose proof (Z.div_mod i bpf ltac:(lia)). pose proof (Z.mod_pos_bound i bpf Hbpf). set (f := i / bpf) in *. set (b := i mod bpf) in *.
  assert (0 <= f < nf) by (split; [apply Z.div_pos; lia|]; apply Z.div_lt_upper_bound; lia).
  assert (f * fs + b * block_k c ∈ ([] : list Z)) as Hin; [|by apply not_elem_of_nil in Hin].
  rewrite <- E. apply list_elem_of_filter. split; [|apply elem_of_zrange; nia].
  assert (token_aligned_block fs (block_k c) (f * fs + b * block_k c) = i) as ->; [|unfold nthb; by rewrite Hi].
  unfold token_aligned_block. replace (f * fs + b * block_k c) with (b * block_k c + f * fs) by lia.
  rewrite Z.div_add, Z_mod_plus_full, Z.mod_small, (Z.div_small (b * block_k c) fs), Z.div_mul by nia. lia.
Qed.

End call_keys.

(** C20: On a call that plans, every query gets exact
    softmax attention over the keys of the frame-aligned blocks its row keeps,
    as many blocks as the chunk's sparsity leaves, in whatever order the
    programs of the kernel run. *)
Theorem lightforcing_attends (order : list (nat * nat) -> list (nat * nat)) garbage call s layout segs sparsity s1 :
  (forall l, order l ≡ₚ l) -> lf_call call s layout segs sparsity s1 ->
  exists out s', lightforcing_attend garbage order call s = Ok (Some out, s') /\
  forall b m h, (b < c_batch call)%nat -> 0 <= m < c_q_len call -> (h < num_local_heads call)%nat ->
  exists keep, lf_row (lf_config s) call layout sparsity h (m / block_q (lf_config s)) = Ok keep /\
    length (kept_blocks keep) = Z.to_nat (lf_budget (lf_config s) layout sparsity) /\
    out !! (b, m, h) = Some (attend_keys (Z.to_nat (head_dim call)) (block_logit (query call) (key call) (softmax_scale call) b m h) (fun n => value call b n h)
      (filter (fun n => nthb keep (Z.to_nat (token_aligned_block (frame_seqlen layout) (block_k (lf_config s)) n)) = true) (zrange 0 (c_kv_len call)))).
Proof.
  intros Hord Hc. destruct (lf_planned garbage _ _ _ _ _ _ Hc) as [s2 Hp]. pose proof (lf_segmented _ _ _ _ _ _ Hc) as Hsg.
  destruct (lc_sizes _ _ _ _ _ _ Hc) as (Hfs & Hbk & Hbq & HH). destruct (lc_past _ _ _ _ _ _ Hc) as [Hq0 _]. pose proof (lc_budget _ _ _ _ _ _ Hc) as Hbud.
  pose proof (cdiv_spec (c_q_len call) (block_q (lf_config s)) Hbq) as Hcd.
  destruct (segmented_attention order garbage _ _ _ _ _ _ _ (block_q (lf_config s)) None (c_batch call) (c_q_len call) (Z.to_nat (head_dim call))
    (query call) (key call) (value call) (softmax_scale call) Hord Hsg Hbq) as (out & Eout & Hout); [right; rewrite Z2Nat.id by nia; done|].
  eexists out, _. split.
  { unfold lightforcing_attend, attend. rewrite (lc_layout _ _ _ _ _ _ Hc). bind_step. cbn [fst snd].
    assert (put_lf_base (lf_base s) s = s) as -> by (by destruct s). rewrite Hp. bind_step. cbn [fst snd e_plan e_query e_key e_value query_permutation]. rewrite Eout. done. }
  intros b m h Hbb Hm Hh. eexists. split; [by apply (lf_row_keep _ _ _ _ _ _ Hc)|]. set (keep := lf_keep _ _ _ _ _ _).
  destruct (lf_row_keys _ _ _ _ _ _ Hc h m keep Hh Hm) as (Hkeys & Emask & Hl & Hk); [by apply (lf_row_keep _ _ _ _ _ _ Hc)|]. split; [done|].
  rewrite (Hout b m h Hbb Hm Hh). f_equal.
  assert ((if (Z.to_nat (cdiv (c_q_len call) (block_q (lf_config s))) =? 1)%nat then 0%nat else Z.to_nat (m / block_q (lf_config s))) = Z.to_nat (m / block_q (lf_config s))) as ->.
  { destruct (Nat.eqb_spec (Z.to_nat (cdiv (c_q_len call) (block_q (lf_config s)))) 1) as [E1|]; [|done]. rewrite Z.div_small by nia. done. }
  rewrite Hkeys, decide_False; [done|]. apply (lf_keys_ne _ _ _ _ _ _ Hc); [done|]. intros E0. rewrite E0 in Hk. cbn in Hk. lia.
Qed.

(** A forward of an earlier chunk than the last one
    drops the pooled history of the previous video before any call. *)
Lemma lightforcing_new_video g (s s' : lf_state) chunk : query_chunk_index g = Ok chunk -> chunk < lf_last_chunk s ->
  lightforcing_begin_forward g s = Ok s' -> pooled_history s' = ∅ /\ lf_last_chunk s' = chunk /\ b_geometry (lf_base s') = Some g.
Proof.
  intros Ec Hlt. unfold lightforcing_begin_forward. rewrite Ec. bind_step. cbn [put_lf_base lf_last_chunk pooled_history].
  destruct (Z.ltb_spec chunk (lf_last_chunk s)); [|lia]. intros [= <-]. done.
Qed.

End claims.

(** ** Concrete runs *)

Section runs.
#[local] Existing Instance NumExp_one.
#[local] Existing Instance NumExpLaws_one.
#[local] Instance option_order : TorchOrder (option Qc) := topk_order (oleb nleb).
#[local] Instance option_topk : TopkLaws (option Qc) (oleb nleb).
Proof.
  apply topk_order_laws.
  - intros [x|] [y|]; cbn [oleb]; auto. apply nle_total.
  - intros [x|] [y|] [z|]; cbn [oleb]; try done. apply nle_trans.
Qed.

Lemma chunk_sparsities_mean_witness : exists rest, calculate_chunk_sparsities 6 2 (-1) (Q2Qc (1 # 2)%Q) (Q2Qc (9 # 10)%Q) = nzero :: rest /\
  nsum (zip_with (fun s k => nmul s (of_Z k)) rest [4; 6]) = of_Z 5.
Proof.
  destruct (chunk_sparsities_mean 6 2 (-1) (Q2Qc (1 # 2)%Q) (Q2Qc (9 # 10)%Q) ltac:(lia) ltac:(by left)) as (rest & E & Hs & _).
  exists rest. split; [exact E|]. change [4; 6] with (lf_schedule_kv 6 2 (-1)). rewrite Hs. by apply Qc_is_canon.
Defined.

(** Five frames of one block, two eligible past frames, one own frame. *)
Definition lx_keys : list (list Qc) := (fun x => [of_Z x]) <$> [3; 9; 1; 5; 2].

Lemma lightforcing_selects_witness : exists keep, lightforcing_row 1 [1%Qc] lx_keys 1 4 2 1 0 2 = Ok keep /\
  keep = [true; true; false; false; false] /\ length (kept_blocks keep) = 2%nat.
Proof.
  destruct (lightforcing_selects 1 [1%Qc] lx_keys 1 5 4 2 1 0 2) as (middle & keep & E & _ & Hk & _); [done || lia..|].
  exists keep. split; [exact E|]. split; [|exact Hk]. vm_compute in E. by injection E as <-.
Defined.

Definition lx_config : LightForcingConfig Qc := mkLFConfig 16 16 (Q2Qc (1 # 2)%Q) (Q2Qc (1 # 2)%Q) 1 1 0 4 (-1).
Definition lx_tensor : tensor4 Qc := fun _ n _ => replicate 16 (of_Z n).
Definition lx_call : SparseAttentionCall Qc := mkCall 0 lx_tensor lx_tensor lx_tensor 1 16 64 16 (Some [(0, 64)]) 0 1 1%Qc None.
Definition lx_layout : VisibleLayout := mkLayout [0; 1; 2; 3] [-3; -2; -1; 0] [0; 1; 2; 3] 16 1 1 3.
Definition lx_state : lightforcing_state Qc := mkLF (set_geometry (mkGeometry 16 1 48 4 4) base_init) lx_config ∅ ∅ (-1).

Lemma lx_planned : exists sp s1, lf_call lx_call lx_state lx_layout [(0, 64)] sp s1 /\ lf_budget lx_config lx_layout sp = 2.
Proof.
  destruct (chunk_sparsity lx_layout lx_state) as [[sp s1]|e] eqn:E; [|vm_compute in E; discriminate]. exists sp, s1.
  assert (sp = nth 3 (calculate_chunk_sparsities 4 1 (-1) (Q2Qc (1 # 2)%Q) (Q2Qc (1 # 2)%Q)) 0%Qc /\ pooled_history s1 = ∅) as [-> Eh].
  { vm_compute in E. injection E as <- <-. split; [vm_compute|]; reflexivity. }
  split; [|vm_compute; reflexivity]. split; [vm_compute; reflexivity|split; [done|repeat constructor; cbn; lia]|cbn; lia|split; [exact E|vm_compute; reflexivity]|vm_compute; split; reflexivity
    |cbn; lia|cbn; lia|]. rewrite Eh. done.
Qed.

Lemma lightforcing_attends_witness : exists out s' keep, lightforcing_attend 0 id lx_call lx_state = Ok (Some out, s') /\ length (kept_blocks keep) = 2%nat /\
  out !! (0%nat, 3, 0%nat) = Some (attend_keys 16 (block_logit lx_tensor lx_tensor 1%Qc 0 3 0) (fun n => lx_tensor 0%nat n 0%nat)
    (filter (fun n => nthb keep (Z.to_nat (token_aligned_block 16 16 n)) = true) (zrange 0 64))).
Proof.
  destruct lx_planned as (sp & s1 & Hc & Hb). destruct (lightforcing_attends id 0 lx_call lx_state lx_layout [(0, 64)] sp s1 ltac:(done) Hc) as (out & s' & E & Hout).
  destruct (Hout 0%nat 3 0%nat ltac:(cbn; lia) ltac:(cbn; lia) ltac:(cbn; lia)) as (keep & _ & Hk & Ho). exists out, s', keep.
  split; [exact E|]. split; [|exact Ho]. rewrite Hk. change (lf_config lx_state) with lx_config. rewrite Hb. reflexivity.
Defined.
End runs.
