(* ===== verification/Msa.v ===== *)
(** * Msa: mixed sparse attention

    Models [msa.py] of the sparse attention package: heads split by an offline
    taxonomy into static families, planned once per layout, and content heads,
    planned from pooled scores; the two kernels write one output.  The JSON
    file of the taxonomy is read by the environment; [torch.topk] in sorted
    order is a parameter. *)

From stdpp Require Import pretty.
From S2P Require Import Prelude Num SparsePlan SparseKernel SparseContext SparseBackend Osa XAttention LightForcing.

Open Scope Z_scope.

(** [torch.topk(sorted=True)]: the best [k] indices, best first. *)
Class TorchRank (A : Type) := { topk_sorted : list A -> nat -> list Z }.

(** ** The taxonomy *)

Record HeadSpec := mkSpec { family : string; spec_r : Z; spec_m : Z }.

(** A head's JSON record; absent fields are [None]. *)
Record raw_head := mkRaw { raw_family : option string; raw_r : option Z; raw_m : option Z }.

(** The document: the heads themselves, or an object with a ["heads"] field. *)
Inductive raw_taxonomy := WithHeads (heads : list (string * raw_head)) | Bare (heads : list (string * raw_head)).

Definition head_spec (r : raw_head) : res HeadSpec :=
  f ← or_raise KeyError (raw_family r);
  let f := if bool_decide (f = "frozen"%string) then "content"%string else f in
  Ok (mkSpec f (default 0 (raw_r r)) (default 0 (raw_m r))).

Definition load_taxonomy (read : string -> res raw_taxonomy) (path : string) : res (gmap string HeadSpec) :=
  if bool_decide (path = ""%string) then Raise ValueError
  else
    raw ← read path;
    let heads := match raw with WithHeads h => h | Bare h => h end in
    foldl (fun acc kr => out ← acc; spec ← head_spec kr.2; Ok (<[kr.1 := spec]> out)) (Ok ∅) heads.

Definition STATIC_FAMILIES : list string := ["local"; "shortwin"; "diffuse"]%string.
Definition MAX_STATIC_RANGES : nat := 8.

(** ** Spans and windows *)

(** The [while] loop; running out of fuel is divergence. *)
Fixpoint query_spans_loop (fuel : nat) (fs lo hi : Z) (spans : list (Z * Z)) : res (list (Z * Z)) :=
  if lo <? hi then
    match fuel with
    | O => Raise Diverges
    | S fuel =>
      row ← py_div lo fs;
      let step := Z.min hi ((row + 1) * fs) in
      query_spans_loop fuel fs step hi (spans ++ [(lo mod fs, (step - 1) mod fs + 1)])
    end
  else Ok spans.

Definition within_frame_query_spans (q_block bm q_len fs : Z) : res (list (Z * Z)) :=
  let lo := q_block * bm in
  let hi := Z.min q_len ((q_block + 1) * bm) in
  query_spans_loop (Z.to_nat (hi - lo)) fs lo hi [].

(** Tuples compare lexicographically. *)
Definition tuple_le (a b : Z * Z) : Prop := a.1 < b.1 \/ (a.1 = b.1 /\ a.2 <= b.2).
#[global] Instance tuple_le_dec : RelDecision tuple_le.
Proof. intros a b. unfold tuple_le. apply _. Defined.

(** One step of the merge; the list is kept last range first. *)
Definition merge_step (merged : list (Z * Z)) (r : Z * Z) : list (Z * Z) :=
  match merged with
  | (lo, hi) :: rest => if r.1 <=? hi then (lo, Z.max hi r.2) :: rest else r :: merged
  | [] => [r]
  end.

Definition row_window (radius gh gw : Z) (span : Z * Z) : res (Z * Z) :=
  a ← py_div span.1 gw;
  b ← py_div (span.2 - 1) gw;
  let row_lo := Z.max 0 (a - radius) in
  let row_hi := Z.min (gh - 1) (b + radius) in
  Ok (row_lo * gw, (row_hi + 1) * gw).

Definition local_ranges (q_block radius bm q_len fs gh gw : Z) : res (list (Z * Z)) :=
  spans ← within_frame_query_spans q_block bm q_len fs;
  ranges ← mapM (row_window radius gh gw) spans;
  Ok (reverse (foldl merge_step [] (merge_sort tuple_le ranges))).

Section msa.
Context {F : Type} `{NumExp F} `{!TorchOrder F} `{!TorchRank (option F)}.
Context (garbage : nat).

Record MsaConfig := mkMsaConfig {
  taxonomy_path : string;
  content_density : F;
  diffuse_density : F;
  m_block_q : Z;
  m_block_k : Z;
  m_keep_frames : Z;
  m_keep_sink : Z;
  m_keep_near : Z;
  replan_each_step : bool;
  replan_interval : Z;
  step_density_scale : list F;
  content_schedule : string;
  m_schedule_num_frames : option Z;
  m_schedule_floor_density : F;
  m_schedule_window_frames : Z;
  m_lf_sparsity : F;
  m_lf_sparsity_base : F;
  m_lf_num_output_frames : Z;
  m_lf_local_attn_size : Z }.

Definition diffuse_frame_step (density : F) : res Z :=
  if nis0 density then Raise ZeroDivisionError else Ok (Z.max 1 (nround (ndiv none density))).

(** ** State *)

Record MsaStaticPlan := mkStatic {
  head_ids : list nat;
  frame_lo : list Z;
  frame_step : list Z;
  frame_tail : list Z;
  sp_ranges : list (list (list (Z * Z)));   (* [groups, q_blocks, max_ranges] pairs *)
  sp_counts : list (list nat);
  fraction_sum : F }.

(** The plans of the denoising steps, their block counts, the number of
    blocks, and how often the entry was used. *)
Definition content_entry : Type := list (SparseAttentionPlan F) * list Z * Z * Z.
Definition head_split : Type := list (nat * HeadSpec) * list nat.

Record msa_state := mkMsa {
  ms_base : base_state F;
  ms_config : MsaConfig;
  taxonomy : gmap string HeadSpec;
  static_cache : LayoutCache (Z * Z * Z) MsaStaticPlan;
  ms_history : LayoutCache lf_signature (list (list (list F)));
  content_cache : LayoutCache (option KeySegments * Z) content_entry;
  content_ids : gmap (Z * Z) (list nat);
  ms_schedule : option (list F);
  layer_split : gmap (Z * Z * nat) head_split }.

Definition put_ms_base b s := mkMsa b (ms_config s) (taxonomy s) (static_cache s) (ms_history s) (content_cache s) (content_ids s) (ms_schedule s) (layer_split s).
Definition put_static p s := mkMsa (ms_base s) (ms_config s) (taxonomy s) p (ms_history s) (content_cache s) (content_ids s) (ms_schedule s) (layer_split s).
Definition put_ms_history h s := mkMsa (ms_base s) (ms_config s) (taxonomy s) (static_cache s) h (content_cache s) (content_ids s) (ms_schedule s) (layer_split s).
Definition put_content c s := mkMsa (ms_base s) (ms_config s) (taxonomy s) (static_cache s) (ms_history s) c (content_ids s) (ms_schedule s) (layer_split s).
Definition put_ids i s := mkMsa (ms_base s) (ms_config s) (taxonomy s) (static_cache s) (ms_history s) (content_cache s) i (ms_schedule s) (layer_split s).
Definition put_ms_schedule l s := mkMsa (ms_base s) (ms_config s) (taxonomy s) (static_cache s) (ms_history s) (content_cache s) (content_ids s) l (layer_split s).
Definition put_split m s := mkMsa (ms_base s) (ms_config s) (taxonomy s) (static_cache s) (ms_history s) (content_cache s) (content_ids s) (ms_schedule s) m.

Definition msa_init (read : string -> res raw_taxonomy) (config : MsaConfig) : res msa_state :=
  tx ← load_taxonomy read (taxonomy_path config);
  let sched := content_schedule config in
  if negb (bool_decide (sched ∈ ["constant"; "flops_matched"; "lightforcing"]%string)) then Raise ValueError
  else if bool_decide (sched = "flops_matched"%string) && (match m_schedule_num_frames config with None => true | Some n => n =? 0 end) then Raise ValueError
  else if bool_decide (sched = "lightforcing"%string) && (nis0 (m_lf_sparsity config) || (m_lf_num_output_frames config =? 0)) then Raise ValueError
  else Ok (mkMsa base_init config tx ∅ ∅ ∅ ∅ None ∅).

(** ** Heads of a layer *)

(** [f"L{layer_index:02d}_h{head}"]. *)
Definition pad2 (n : Z) : string := let s := pretty n in if Nat.ltb (String.length s) 2 then String.append "0" s else s.
Definition head_key (layer head : Z) : string := String.append "L" (String.append (pad2 layer) (String.append "_h" (pretty head))).

Fixpoint split_loop (tx : gmap string HeadSpec) (layer start : Z) (heads : list nat) (acc : head_split) : res head_split :=
  match heads with
  | [] => Ok acc
  | h :: heads =>
    spec ← or_raise ValueError (tx !! head_key layer (start + Z.of_nat h));
    split_loop tx layer start heads
      (if bool_decide (family spec ∈ STATIC_FAMILIES) then (acc.1 ++ [(h, spec)], acc.2) else (acc.1, acc.2 ++ [h]))
  end.

Definition split_heads (layer start : Z) (heads : nat) (s : msa_state) : res (head_split * msa_state) :=
  match layer_split s !! (layer, start, heads) with
  | Some c => Ok (c, s)
  | None =>
    c ← split_loop (taxonomy s) layer start (seq 0 heads) ([], []);
    Ok (c, put_split (<[(layer, start, heads) := c]> (layer_split s)) s)
  end.

(** ** The static plan *)

(** One group: frame walk and the ranges of every query block. *)
Definition static_group (config : MsaConfig) (g : ChunkGeometry) (layout : VisibleLayout) (q_len : Z) (spec : HeadSpec) :
    res (Z * Z * Z * list (list (Z * Z))) :=
  let fs := frame_seqlen layout in
  let nf := num_frames layout in
  let blocks := zrange 0 (cdiv q_len (m_block_q config)) in
  let whole := (fun _ => [(0, fs)]) <$> blocks in
  if bool_decide (family spec = "shortwin"%string) then
    Ok (Z.max 0 (nf - Z.max (spec_m spec) (query_frames layout)), 1, 0, whole)
  else if bool_decide (family spec = "diffuse"%string) then
    step ← diffuse_frame_step (diffuse_density config);
    Ok (0, step, Z.min (query_frames layout) nf, whole)
  else
    rs ← mapM (fun qb => local_ranges qb (spec_r spec) (m_block_q config) q_len fs (grid_height g) (grid_width g)) blocks;
    Ok (0, 1, 0, rs).

(** Ranges written into their slots. *)
Definition slots (rs : list (Z * Z)) : list (Z * Z) := store_all (replicate MAX_STATIC_RANGES (0, 0)) (zip (seq 0 (length rs)) rs).
Definition span_tokens (rs : list (Z * Z)) : Z := foldr Z.add 0 ((fun r => r.2 - r.1) <$> rs).

Definition add_group (config : MsaConfig) (g : ChunkGeometry) (layout : VisibleLayout) (q_len : Z) (plan : MsaStaticPlan) (hs : nat * HeadSpec) : res MsaStaticPlan :=
  w ← static_group config g layout q_len hs.2;
  let '(lo, step, tail, rs) := w in
  _ ← py_assert (forallb (fun r => Nat.leb (length r) MAX_STATIC_RANGES) rs);
  let kept := foldr Z.add 0 (span_tokens <$> rs) in
  let blocks := cdiv q_len (m_block_q config) in
  if (blocks =? 0) || (kv_len layout =? 0) then Raise ZeroDivisionError
  else
    let visible := tail + Z.of_nat (length (zrange_step lo (num_frames layout - tail) step)) in
    let share := ndiv (nmul (ndiv (of_Z kept) (of_Z blocks)) (of_Z visible)) (of_Z (kv_len layout)) in
    Ok (mkStatic (head_ids plan ++ [hs.1]) (frame_lo plan ++ [lo]) (frame_step plan ++ [step]) (frame_tail plan ++ [tail])
      (sp_ranges plan ++ [slots <$> rs]) (sp_counts plan ++ [length <$> rs]) (nadd (fraction_sum plan) share)).

Fixpoint add_groups (config : MsaConfig) (g : ChunkGeometry) (layout : VisibleLayout) (q_len : Z) (plan : MsaStaticPlan) (static : list (nat * HeadSpec)) : res MsaStaticPlan :=
  match static with
  | [] => Ok plan
  | hs :: static => p ← add_group config g layout q_len plan hs; add_groups config g layout q_len p static
  end.

Definition empty_static : MsaStaticPlan := mkStatic [] [] [] [] [] [] nzero.

Definition static_plan (layer : Z) (static : list (nat * HeadSpec)) (layout : VisibleLayout) (q_len : Z) (s : msa_state) : res (MsaStaticPlan * msa_state) :=
  let sg := (num_frames layout, frame_seqlen layout, q_len) in
  match cache_get (static_cache s) layer sg with
  | Some p => Ok (p, s)
  | None =>
    g ← or_raise AttributeError (b_geometry (ms_base s));
    p ← add_groups (ms_config s) g layout q_len empty_static static;
    Ok (p, put_static (cache_put (static_cache s) layer sg p) s)
  end.

(** ** Content heads *)

Definition schedule_at (l : list F) (layout : VisibleLayout) : res F :=
  or_raise IndexError (l !! Z.to_nat (Z.min (Z.max (layout_chunk_index layout) 0) (Z.of_nat (length l) - 1))).

Definition call_density (layout : VisibleLayout) (s : msa_state) : res (F * msa_state) :=
  let c := ms_config s in
  if bool_decide (content_schedule c = "constant"%string) then Ok (content_density c, s)
  else
    l ← match ms_schedule s with
        | Some l => Ok l
        | None =>
          if bool_decide (content_schedule c = "lightforcing"%string) then
            Ok ((fun sp => if nleb sp nzero then none else nmax nzero (nsub none sp)) <$>
              calculate_chunk_sparsities (m_lf_num_output_frames c) (frames_per_block layout) (m_lf_local_attn_size c) (m_lf_sparsity c) (m_lf_sparsity_base c))
          else
            n ← or_raise TypeError (m_schedule_num_frames c);
            Ok (flops_matched_densities n (frames_per_block layout) (m_schedule_window_frames c) (content_density c) (m_schedule_floor_density c))
        end;
    d ← schedule_at l layout;
    Ok (d, put_ms_schedule (Some l) s).

(** The number of blocks kept, capped by the eligible frames. *)
Definition content_topk (c : MsaConfig) (layout : VisibleLayout) (density : F) : Z :=
  let bpf := cdiv (frame_seqlen layout) (m_block_k c) in
  let blocks := num_frames layout * bpf in
  let topk := Z.min blocks (Z.max 1 (ntrunc (nmul density (of_Z blocks)))) in
  if m_keep_frames c <? num_frames layout - query_frames layout then
    Z.min topk ((m_keep_frames c + m_keep_sink c + m_keep_near c + query_frames layout) * bpf)
  else topk.

(** The scores of one row, minus infinity outside the eligible frames, ranked. *)
Definition content_row (c : MsaConfig) (dim : nat) (past : Z) (bpf : Z) (k : nat) (q : list F) (pooled_key : list (list F)) : res (list Z) :=
  let scores := dot q <$> pooled_key in
  biased ← (if m_keep_frames c <? past then
              middle ← select_middle_frames q (frame_means bpf dim pooled_key) past (m_keep_frames c) (m_keep_sink c) (m_keep_near c);
              Ok (imap (fun i s => if eligible_frame past (m_keep_sink c) (m_keep_near c) middle (Z.of_nat i / bpf) then Some s else None) scores)
            else Ok (Some <$> scores));
  Ok (topk_sorted biased k).

Definition content_lut (call : SparseAttentionCall F) (layout : VisibleLayout) (content : list nat) (s : msa_state) :
    res (list (list (list Z)) * Z * Z * msa_state) :=
  let c := ms_config s in
  let fs := frame_seqlen layout in
  let dim := Z.to_nat (head_dim call) in
  let bpf := cdiv fs (m_block_k c) in
  let kv_blocks := num_frames layout * bpf in
  ds ← call_density layout s;
  let '(density, s) := ds in
  let topk := content_topk c layout density in
  let past := num_frames layout - query_frames layout in
  let history_len := past * fs in
  let qtoken h n := batch_token (c_batch call) dim (query call) h n in
  let ktoken h n := batch_token (c_batch call) dim (key call) h n in
  let pooled_query := (fun h => mean_pool_blocks dim (qtoken h) (c_q_len call) (m_block_q c) (c_q_len call)) <$> seq 0 (num_local_heads call) in
  let sg := (key_segments call, kv_len layout, fs) in
  let '(history, s) :=
    match cache_get (ms_history s) (layer_index call) sg with
    | Some h => (h, s)
    | None =>
      let h := (fun h => mean_pool_blocks dim (ktoken h) history_len (m_block_k c) fs) <$> seq 0 (num_local_heads call) in
      (h, put_ms_history (cache_put (ms_history s) (layer_index call) sg h) s)
    end in
  let own := (fun h => mean_pool_blocks dim (fun n => ktoken h (history_len + n)) (c_kv_len call - history_len) (m_block_k c) fs) <$> seq 0 (num_local_heads call) in
  let pooled_key := zip_with app history own in
  (* [index_select] of the content heads *)
  lut ← mapM (fun h =>
      pq ← or_raise IndexError (pooled_query !! h);
      pk ← or_raise IndexError (pooled_key !! h);
      mapM (fun q => content_row c dim past bpf (Z.to_nat topk) q pk) pq) content;
  Ok (lut, topk, kv_blocks, s).

(** The plans of the denoising steps: prefixes of one ranking. *)
Definition step_topk (c : MsaConfig) (topk kv_blocks : Z) (scale : F) : Z :=
  let floor_blocks := Z.max 1 (nround (nmul (m_schedule_floor_density c) (of_Z kv_blocks))) in
  Z.min topk (Z.max floor_blocks (nround (nmul (of_Z topk) scale))).

Definition step_plan (c : MsaConfig) (layout : VisibleLayout) (lut : list (list (list Z))) (kv_blocks k : Z) : SparseAttentionPlan F :=
  let '(lo, hi) := frame_aligned_block_bounds (num_frames layout) (frame_seqlen layout) (m_block_k c) in
  plan_from_segment_mask garbage ((fun h : list (list Z) => (fun row => scatter_true (Z.to_nat kv_blocks) (take (Z.to_nat k) row)) <$> h) <$> lut)
    (Shared lo) (Shared hi) (m_block_q c) None.

Definition content_plan (call : SparseAttentionCall F) (layout : VisibleLayout) (content : list nat) (s : msa_state) : res (content_entry * msa_state) :=
  let c := ms_config s in
  let sg := (key_segments call, c_kv_len call) in
  let cached := cache_get (content_cache s) (layer_index call) sg in
  let replan := match cached with
                | Some (_, _, _, calls) => replan_each_step c || ((0 <? replan_interval c) && (calls mod replan_interval c =? 0))
                | None => true
                end in
  let calls := match cached with Some (_, _, _, calls) => calls | None => 0 end in
  es ← (if replan then
          l ← content_lut call layout content s;
          let '(lut, topk, kv_blocks, s) := l in
          let scales := match step_density_scale c with [] => [none] | l => l end in
          let topks := step_topk c topk kv_blocks <$> scales in
          Ok (step_plan c layout lut kv_blocks <$> topks, topks, kv_blocks, s)
        else
          match cached with
          | Some (plans, topks, kv_blocks, _) => Ok (plans, topks, kv_blocks, s)
          | None => Raise RuntimeError
          end);
  let '(plans, topks, kv_blocks, s) := es in
  Ok ((plans, topks, kv_blocks, calls), put_content (cache_put (content_cache s) (layer_index call) sg (plans, topks, kv_blocks, calls + 1)) s).

(** ** attend *)

Definition msa_dense (call : SparseAttentionCall F) (s : msa_state) : res (option (gmap (nat * Z * nat) (list (xf F))) * msa_state) :=
  Ok (None, put_ms_base (record_density None (c_kv_len call) None (ms_base s)) s).

Definition msa_static_part (order : list (nat * nat) -> list (nat * nat)) (call : SparseAttentionCall F) (layout : VisibleLayout) (static : list (nat * HeadSpec))
    (s : msa_state) : res (gmap (nat * Z * nat) (list (xf F)) * F * msa_state) :=
  match static with
  | [] => Ok (∅, nzero, s)
  | _ =>
    ps ← static_plan (layer_index call) static layout (c_q_len call) s;
    let '(p, s) := ps in
    Ok (msa_static_attention order ∅ (c_batch call) (c_q_len call) (Z.to_nat (head_dim call)) (query call) (key call) (value call)
          (head_ids p) (frame_lo p) (frame_step p) (frame_tail p) (sp_ranges p) (sp_counts p)
          (num_frames layout) (frame_seqlen layout) (m_block_q (ms_config s)) (softmax_scale call),
        nadd nzero (fraction_sum p), s)
  end.

Definition msa_content_part (order : list (nat * nat) -> list (nat * nat)) (call : SparseAttentionCall F) (layout : VisibleLayout) (content : list nat)
    (out : gmap (nat * Z * nat) (list (xf F))) (fraction : F) (s : msa_state) : res (gmap (nat * Z * nat) (list (xf F)) * F * msa_state) :=
  match content with
  | [] => Ok (out, fraction, s)
  | _ =>
    es ← content_plan call layout content s;
    let '((plans, topks, kv_blocks, calls), s) := (es : content_entry * msa_state) in
    let step := if in_cache_update (ms_base s) then 0 else Z.min calls (Z.of_nat (length plans) - 1) in
    p ← or_raise IndexError (plans !! Z.to_nat step);
    topk ← or_raise IndexError (topks !! Z.to_nat step);
    let idk := (layer_index call, head_start call) in
    let ids := match content_ids s !! idk with Some i => i | None => content end in
    let s := put_ids (<[idk := ids]> (content_ids s)) s in
    Ok (msa_content_attention order out (c_batch call) (c_q_len call) (Z.to_nat (head_dim call)) (query call) (key call) (value call)
          ids (range_starts p) (range_ends p) (range_counts p) (m_block_q (ms_config s)) (softmax_scale call),
        nadd fraction (ndiv (nmul (of_Z (Z.of_nat (length content))) (of_Z topk)) (of_Z kv_blocks)), s)
  end.

Definition msa_attend (order : list (nat * nat) -> list (nat * nat)) (call : SparseAttentionCall F) (s : msa_state) :
    res (option (gmap (nat * Z * nat) (list (xf F))) * msa_state) :=
  lb ← layout_of call (ms_base s);
  let s := put_ms_base lb.2 s in
  match lb.1 with
  | None => Ok (None, s)
  | Some layout =>
    if c_kv_len call <=? c_q_len call then msa_dense call s
    else
      g ← or_raise AttributeError (b_geometry (ms_base s));
      if negb (grid_height g * grid_width g =? frame_seqlen layout) then
        msa_dense call (put_ms_base (warn_dense_once "latent grid does not match the frame length" (ms_base s)) s)
      else
        ds ← (if bool_decide (content_schedule (ms_config s) = "lightforcing"%string) then
                d ← call_density layout s; Ok (nleb none d.1, d.2)
              else Ok (false, s));
        let '(dense, s) := (ds : bool * msa_state) in
        if dense then msa_dense call s
        else
          cs ← split_heads (layer_index call) (head_start call) (num_local_heads call) s;
          let '((static, content), s) := (cs : head_split * msa_state) in
          st ← msa_static_part order call layout static s;
          let '(out, fraction, s) := st in
          ct ← msa_content_part order call layout content out fraction s;
          let '(out, fraction, s) := ct in
          if Nat.eqb (num_local_heads call) 0 then Raise ZeroDivisionError
          else
            let share := ndiv fraction (of_Z (Z.of_nat (num_local_heads call))) in
            Ok (Some out, put_ms_base (record_density None (c_kv_len call) (Some share) (ms_base s)) s)
  end.

(** The method has no hook of its own. *)
Definition msa_begin_forward := begin_forward ms_base put_ms_base on_begin_forward.

End msa.
Arguments MsaConfig : clear implicits.
Arguments msa_state : clear implicits.
Arguments MsaStaticPlan : clear implicits.
