(* ===== verification/MsaSpec.v ===== *)
(** * MsaSpec: windows of rows, static plans and launches into a shared output *)

From S2P Require Import Prelude Num SparsePlan SparsePlanSpec SparseKernel SparseKernelSpec SparseClaims SparseContext SparseBackend SparseBackendSpec Osa XAttention LightForcing Msa.

Open Scope Z_scope.

(** ** Spans *)

Section spans.
Context (fs : Z) (Hfs : 0 < fs).

Lemma next_frame lo : 0 <= lo -> lo < (lo / fs + 1) * fs /\ lo = lo / fs * fs + lo mod fs /\ 0 <= lo mod fs < fs.
Proof. intros Hlo. pose proof (Z.div_mod lo fs ltac:(lia)). pose proof (Z.mod_pos_bound lo fs Hfs). lia. Qed.

(** What the loop adds: spans inside the frame that hold exactly the offsets
    of the tokens, whole frames but for the first and the last. *)
Record spans_of (lo hi : Z) (rs : list (Z * Z)) : Prop := {
  so_inside : Forall (fun r => 0 <= r.1 < r.2 /\ r.2 <= fs) rs;
  so_cover : forall o, in_ranges rs o = true <-> exists n, lo <= n < hi /\ n mod fs = o;
  so_whole : (lo mod fs = 0 -> (length rs <= 1)%nat \/ (0, fs) ∈ rs) /\ ((length rs <= 2)%nat \/ (0, fs) ∈ rs) }.

Lemma spans_step lo hi step rs : 0 <= lo < hi -> step = Z.min hi ((lo / fs + 1) * fs) -> spans_of step hi rs ->
  spans_of lo hi ((lo mod fs, (step - 1) mod fs + 1) :: rs).
Proof.
  intros Hlo -> [Hin Hcov [Hw1 Hw2]]. set (step := Z.min hi _) in *. destruct (next_frame lo) as (Hnx & Elo & Hm); [lia|].
  assert ((step - 1) mod fs = step - 1 - lo / fs * fs) as Es.
  { symmetry. apply (Z.mod_unique _ _ (lo / fs)); [left; unfold step; lia|unfold step; lia]. }
  rewrite Es. split.
  - constructor; [cbn; unfold step; lia|done].
  - intros o. cbn [in_ranges existsb]. rewrite orb_true_iff. change (existsb _ rs) with (in_ranges rs o). rewrite Hcov. cbn [fst snd]. rewrite andb_true_iff, Z.leb_le, Z.ltb_lt. split.
    + intros [Ho|(n & Hn & <-)]; [|exists n; split; [unfold step in *; lia|done]]. exists (lo / fs * fs + o). split; [unfold step in *; lia|].
      symmetry. apply (Z.mod_unique _ _ (lo / fs)); unfold step in *; lia.
    + intros (n & Hn & <-). destruct (Z_lt_le_dec n step) as [Hl|Hg]; [|right; exists n; unfold step in *; lia].
      left. assert (n mod fs = n - lo / fs * fs) as ->; [|lia]. symmetry. apply (Z.mod_unique _ _ (lo / fs)); unfold step in *; lia.
  - destruct (Z_le_gt_dec hi ((lo / fs + 1) * fs)) as [Hle|Hgt].
    + assert (rs = []) as ->.
      { destruct rs as [|r rs]; [done|]. exfalso. apply Forall_cons in Hin as [Hr _]. assert (in_ranges (r :: rs) r.1 = true) as E.
        { apply in_ranges_spec. exists r. split; [constructor|lia]. } apply Hcov in E as (n & Hn & _). unfold step in Hn. lia. }
      cbn. split; intros; left; lia.
    + assert (step mod fs = 0) as E0 by (unfold step; rewrite Z.min_r by lia; apply Z_mod_mult). specialize (Hw1 E0). split.
      * intros Em. right. rewrite Em. unfold step. rewrite Z.min_r by lia. replace ((lo / fs + 1) * fs - 1 - lo / fs * fs + 1) with fs by lia. constructor.
      * destruct Hw1 as [|Hw1]; [left; cbn; lia|right; by constructor].
Qed.

Lemma query_spans_loop_ok fuel lo hi acc : 0 <= lo -> (Z.to_nat (hi - lo) <= fuel)%nat ->
  exists rs, query_spans_loop fuel fs lo hi acc = Ok (acc ++ rs) /\ spans_of lo hi rs.
Proof.
  revert lo acc. induction fuel as [|fuel IH]; intros lo acc Hlo Hf; cbn [query_spans_loop]; destruct (Z.ltb_spec lo hi).
  1: lia.
  2: { destruct (next_frame lo Hlo) as (Hnx & _ & _). rewrite py_div_Ok by lia. bind_step. set (step := Z.min hi _).
       destruct (IH step (acc ++ [(lo mod fs, (step - 1) mod fs + 1)])) as (rs & -> & Hrs); [unfold step; lia..|].
       exists ((lo mod fs, (step - 1) mod fs + 1) :: rs). rewrite <- app_assoc. split; [done|]. by apply spans_step. }
  all: exists []; rewrite app_nil_r; split; [done|]; split; [constructor| |cbn; split; intros; left; lia];
    intros o; cbn; (split; [done|]); intros (n & Hn & _); lia.
Qed.

End spans.

(** ** Windows of rows *)

Section windows.
Context (gh gw radius : Z) (Hgh : 0 < gh) (Hgw : 0 < gw) (Hr : 0 <= radius).

Lemma row_of o : 0 <= o < gh * gw -> 0 <= o / gw < gh.
Proof. intros Ho. split; [apply Z.div_pos; lia|apply Z.div_lt_upper_bound; lia]. Qed.

Lemma in_rows a b o : a * gw <= o < (b + 1) * gw <-> a <= o / gw <= b.
Proof. pose proof (Z.div_mod o gw ltac:(lia)). pose proof (Z.mod_pos_bound o gw Hgw). split; intros; nia. Qed.

(** The window of a span: the rows within the radius of a row of the span. *)
Lemma row_window_ok span : 0 <= span.1 < span.2 -> span.2 <= gh * gw ->
  exists w, row_window radius gh gw span = Ok w /\ 0 <= w.1 < w.2 /\ w.2 <= gh * gw /\
    (forall o, 0 <= o < gh * gw -> w.1 <= o < w.2 <-> exists x, span.1 <= x < span.2 /\ Z.abs (o / gw - x / gw) <= radius) /\
    (span = (0, gh * gw) -> w = (0, gh * gw)).
Proof.
  destruct span as [a b]. cbn [fst snd]. intros Ha Hb. unfold row_window. cbn [fst snd]. rewrite !py_div_Ok by lia. bind_step. eexists. split; [done|]. cbn [fst snd].
  pose proof (row_of a ltac:(lia)) as Hra. pose proof (row_of (b - 1) ltac:(lia)) as Hrb. assert (a / gw <= (b - 1) / gw) by (apply Z.div_le_mono; lia).
  split_and!; [nia|nia|nia| |].
  - intros o Ho. pose proof (row_of o Ho). rewrite in_rows. split.
    + intros Hrow. exists (Z.max a (Z.min (b - 1) o)). split; [lia|]. destruct (Z_lt_le_dec o a).
      * rewrite Z.max_l by lia. pose proof (Z.div_le_mono o a gw). lia.
      * destruct (Z_lt_le_dec (b - 1) o); [|rewrite Z.min_r, Z.max_r by lia; lia].
        rewrite Z.min_l, Z.max_r by lia. pose proof (Z.div_le_mono (b - 1) o gw). lia.
    + intros (x & Hx & Habs). pose proof (Z.div_le_mono a x gw). pose proof (Z.div_le_mono x (b - 1) gw). lia.
  - intros [= -> ->]. rewrite Z.div_0_l by lia. assert ((gh * gw - 1) / gw = gh - 1) as ->.
    { symmetry. apply (Z.div_unique _ _ _ (gw - 1)); nia. } f_equal; nia.
Qed.

End windows.

(** ** Merging *)

(** Separated ranges, last first. *)
Fixpoint separated (merged : list (Z * Z)) : Prop :=
  match merged with
  | [] => True
  | (lo, hi) :: rest => 0 <= lo < hi /\ match rest with [] => True | (_, hi') :: _ => hi' < lo end /\ separated rest
  end.

Lemma separated_below lo hi rest r : separated ((lo, hi) :: rest) -> r ∈ rest -> r.2 < lo.
Proof.
  revert lo hi. induction rest as [|[lo' hi'] rest IH]; intros lo hi; [set_solver|]. intros (_ & Hlt & Hs) [->|Hr]%elem_of_cons; [done|].
  specialize (IH _ _ Hs Hr). destruct Hs as (? & _). lia.
Qed.

Lemma merge_step_ok merged r fs : separated merged -> 0 <= r.1 < r.2 -> r.2 <= fs -> Forall (fun x => x.2 <= fs) merged ->
  match merged with [] => True | (lo, _) :: _ => lo <= r.1 end ->
  separated (merge_step merged r) /\ Forall (fun x => x.2 <= fs) (merge_step merged r) /\ (length (merge_step merged r) <= S (length merged))%nat /\
  match merge_step merged r with [] => True | (lo, _) :: _ => lo <= r.1 end /\
  forall o, in_ranges (merge_step merged r) o = in_ranges merged o || ((r.1 <=? o) && (o <? r.2)).
Proof.
  intros Hs Hr Hfs Hall Hlo. destruct merged as [|[lo hi] rest]; cbn [merge_step].
  { split; [|split; [|split; [|split]]]; [destruct r; cbn in *; by split_and!; try lia|by constructor|done|destruct r; cbn; lia|].
    intros o. cbn. by rewrite orb_false_r. }
  destruct Hs as (H0 & Hgap & Hrest). apply Forall_cons in Hall as [Hhi Hall]. cbn in Hhi. destruct (Z.leb_spec r.1 hi) as [Hle|Hgt].
  - split; [|split; [|split; [|split]]]; [by cbn; split_and!; try lia|constructor; [cbn; lia|done]|cbn; lia|done|].
    intros o. cbn [in_ranges existsb fst snd]. change (existsb _ rest) with (in_ranges rest o). apply Bool.eq_iff_eq_true.
    rewrite !orb_true_iff, !andb_true_iff, !Z.leb_le, !Z.ltb_lt. destruct (in_ranges rest o); lia.
  - split; [|split; [|split; [|split]]]; [|constructor; [done|by constructor]|cbn; lia|destruct r; cbn; lia|].
    + destruct r as [a b]. cbn in *. by split_and!; try lia.
    + intros o. cbn [in_ranges existsb]. by rewrite orb_comm.
Qed.

Lemma merge_all l : forall merged fs, separated merged -> Forall (fun x => x.2 <= fs) merged -> StronglySorted tuple_le l ->
  Forall (fun r => 0 <= r.1 < r.2 /\ r.2 <= fs) l -> (forall r, r ∈ l -> match merged with [] => True | (lo, _) :: _ => lo <= r.1 end) ->
  let out := foldl merge_step merged l in
  separated out /\ Forall (fun x => x.2 <= fs) out /\ (length out <= length merged + length l)%nat /\ forall o, in_ranges out o = in_ranges merged o || in_ranges l o.
Proof.
  induction l as [|r l IH]; intros merged fs Hs Hall Hsort Hin Hhd; cbn [foldl].
  { split_and!; [done|done|lia|]. intros o. cbn. by rewrite orb_false_r. }
  apply StronglySorted_inv in Hsort as [Hsort Hle]. apply Forall_cons in Hin as [[Hr Hrf] Hin].
  destruct (merge_step_ok merged r fs Hs Hr Hrf Hall) as (Hs' & Hall' & Hlen & Hhd' & Hcov); [apply Hhd; constructor|].
  destruct (IH (merge_step merged r) fs Hs' Hall' Hsort Hin) as (? & ? & ? & Hc).
  { intros r' Hr'. rewrite Forall_forall in Hle. specialize (Hle r' Hr'). destruct (merge_step merged r) as [|[lo hi] ?]; [done|]. destruct Hle; lia. }
  split_and!; [done|done|cbn in *; lia|]. intros o. rewrite Hc, Hcov. cbn [in_ranges existsb]. by rewrite orb_assoc.
Qed.

(** Ranges that cover the frame have merged into one. *)
Lemma separated_full merged fs : separated merged -> Forall (fun x => x.2 <= fs) merged -> (forall o, 0 <= o < fs -> in_ranges merged o = true) -> (length merged <= 1)%nat.
Proof.
  intros Hs Hall Hcov. destruct merged as [|[l1 h1] [|[l2 h2] rest]]; [cbn; lia|cbn; lia|]. exfalso.
  destruct Hs as (H1 & Hgap & Hs2). apply Forall_cons in Hall as [Hh1 _]. cbn in Hh1. assert (0 <= l2 < h2) as H2 by (by destruct Hs2).
  specialize (Hcov h2 ltac:(lia)). apply in_ranges_spec in Hcov as (r & [->|[->|Hr]%elem_of_cons]%elem_of_cons & Hin); cbn in *; [lia..|].
  pose proof (separated_below _ _ _ _ Hs2 Hr). lia.
Qed.

Lemma ranges_ok_snoc lo hi rs s e : ranges_ok lo hi rs -> hi <= s -> s <= e -> lo <= s -> ranges_ok lo e (rs ++ [(s, e)]).
Proof.
  induction 1 as [|lo hi a b rs H1 H2 H3 Hrs IH]; intros; cbn; (constructor; try lia); [constructor|]. apply IH; lia.
Qed.

Lemma separated_ranges_ok merged : separated merged -> ranges_ok 0 (match merged with [] => 0 | (_, hi) :: _ => hi end) (reverse merged).
Proof.
  induction merged as [|[lo hi] rest IH]; [constructor|]. intros (H0 & Hgap & Hs). rewrite reverse_cons. specialize (IH Hs).
  eapply ranges_ok_snoc; [exact IH| |lia|lia]. destruct rest as [|[? ?] ?]; lia.
Qed.

Lemma in_ranges_perm l k o : l ≡ₚ k -> in_ranges l o = in_ranges k o.
Proof. intros E. apply Bool.eq_iff_eq_true. rewrite !in_ranges_spec. by setoid_rewrite E. Qed.

#[global] Instance tuple_le_trans : Transitive tuple_le.
Proof. intros [] [] []. unfold tuple_le. cbn. lia. Qed.
#[global] Instance tuple_le_total : Total tuple_le.
Proof. intros [] []. unfold tuple_le. cbn. lia. Qed.

(** The windows of a query block: at most two merged ranges, which hold the
    offsets whose row is within the radius of the row of a query. *)
Lemma local_ranges_ok qb radius bm q_len gh gw : 0 < gh -> 0 < gw -> 0 <= radius -> 0 <= qb -> 0 < bm ->
  exists rs, local_ranges qb radius bm q_len (gh * gw) gh gw = Ok rs /\ (length rs <= 2)%nat /\ ranges_ok 0 (gh * gw) rs /\
    Forall (fun r => r.1 < r.2) rs /\
    forall o, 0 <= o < gh * gw -> in_ranges rs o = true <->
      exists n, qb * bm <= n < Z.min q_len ((qb + 1) * bm) /\ Z.abs (o / gw - n mod (gh * gw) / gw) <= radius.
Proof.
  intros Hgh Hgw Hr Hqb Hbm. unfold local_ranges, within_frame_query_spans. set (lo := qb * bm). set (hi := Z.min _ _). set (fs := gh * gw). assert (0 < fs) as Hfs by (unfold fs; nia).
  destruct (query_spans_loop_ok fs Hfs (Z.to_nat (hi - lo)) lo hi []) as (spans & -> & [Hin Hcov [_ Hw]]); [unfold lo; nia|lia|]. bind_step. cbn [app].
  set (win := fun sp => match row_window radius gh gw sp with Ok w => w | Raise _ => (0, 0) end).
  assert (forall sp, sp ∈ spans -> row_window radius gh gw sp = Ok (win sp) /\ 0 <= (win sp).1 < (win sp).2 /\ (win sp).2 <= fs /\
    (forall o, 0 <= o < fs -> (win sp).1 <= o < (win sp).2 <-> exists x, sp.1 <= x < sp.2 /\ Z.abs (o / gw - x / gw) <= radius) /\ (sp = (0, fs) -> win sp = (0, fs))) as Hwin.
  { intros sp Hsp. rewrite Forall_forall in Hin. destruct (Hin sp Hsp) as [Ha Hb]. destruct (row_window_ok gh gw radius Hgh Hgw Hr sp Ha Hb) as (w & E & Hw'). unfold win. by rewrite E. }
  rewrite (mapM_Ok _ win) by (intros; by apply Hwin). bind_step. eexists. split; [done|]. set (l := merge_sort tuple_le (win <$> spans)).
  assert (l ≡ₚ win <$> spans) as Hl by apply merge_sort_Permutation.
  assert (Forall (fun r => 0 <= r.1 < r.2 /\ r.2 <= fs) l) as Hlin.
  { rewrite Hl. apply Forall_fmap, Forall_forall. intros sp Hsp. destruct (Hwin sp Hsp) as (_ & ? & ? & _). done. }
  destruct (merge_all l [] fs I ltac:(constructor) ltac:(apply StronglySorted_merge_sort; apply _) Hlin ltac:(done)) as (Hs & Hall & Hlen & Hc).
  set (out := foldl merge_step [] l) in *.
  assert (forall o, 0 <= o < fs -> in_ranges out o = true <-> exists n, lo <= n < hi /\ Z.abs (o / gw - n mod fs / gw) <= radius) as Hspec.
  { intros o Ho. rewrite Hc, (in_ranges_perm l _ o Hl). cbn [in_ranges existsb orb]. change (existsb _ (win <$> spans)) with (in_ranges (win <$> spans) o).
    rewrite in_ranges_spec. split.
    - intros (w & (sp & -> & Hsp)%list_elem_of_fmap & Ho'). destruct (Hwin sp Hsp) as (_ & _ & _ & Hiff & _). apply Hiff in Ho' as (x & Hx & Habs); [|done].
      assert (in_ranges spans x = true) as (n & Hn & <-)%Hcov by (apply in_ranges_spec; eauto). eauto.
    - intros (n & Hn & Habs). assert (in_ranges spans (n mod fs) = true) as (sp & Hsp & Hx)%in_ranges_spec by (apply Hcov; eauto).
      exists (win sp). split; [apply list_elem_of_fmap; eauto|]. destruct (Hwin sp Hsp) as (_ & _ & _ & Hiff & _). apply Hiff; eauto. }
  rewrite length_reverse. split_and!.
  - destruct Hw as [Hw|Hw]; [assert (length l = length spans) as El by (rewrite Hl; apply length_fmap); cbn in Hlen; lia|].
    assert (length out <= 1)%nat; [|lia]. apply (separated_full out fs Hs Hall). intros o Ho. rewrite Hc, (in_ranges_perm l _ o Hl). cbn.
    apply in_ranges_spec. exists (0, fs). split; [|cbn; lia]. apply list_elem_of_fmap. exists (0, fs). split; [|done]. symmetry. by apply (Hwin (0, fs)).
  - pose proof (separated_ranges_ok out Hs) as Hro. assert (forall lo' a b rs, ranges_ok lo' a rs -> a <= b -> ranges_ok lo' b rs) as Hmono.
    { clear. intros lo' a b rs Hro. induction Hro; intros; constructor; try lia; auto. }
    eapply Hmono; [exact Hro|]. destruct out as [|[? ?] ?]; [lia|]. by apply Forall_cons in Hall as [? _].
  - apply Forall_forall. intros r Hr'. rewrite reverse_Permutation in Hr'. clear -Hs Hr'. induction out as [|[a b] out IH]; [by apply not_elem_of_nil in Hr'|].
    destruct Hs as (? & _ & Hs). apply elem_of_cons in Hr' as [->|?]; [cbn; lia|auto].
  - intros o Ho. rewrite (in_ranges_perm _ out o (reverse_Permutation out)). by apply Hspec.
Qed.

(** ** Launches by groups of heads *)

Section groups.
Context {F : Type} `{!Num F} `{!NumExp F} `{!NumLaws F} `{!NumExpLaws F}.
Context (ids : list nat) (q_len bm : Z) (val : nat -> nat -> nat -> Z -> list (xf F)).

(** The shape of both kernels: program [(pid_m, pid_bg)] writes the rows of
    query block [pid_m] of head [ids[group]]. *)
Definition group_prog (pid : nat * nat) : list ((nat * Z * nat) * list (xf F)) :=
  let batch := (pid.2 / length ids)%nat in
  let group := (pid.2 mod length ids)%nat in
  omap (fun r => if Z.of_nat pid.1 * bm + r <? q_len then Some ((batch, Z.of_nat pid.1 * bm + r, default 0%nat (ids !! group)), val pid.1 batch group (Z.of_nat pid.1 * bm + r)) else None)
    (zrange 0 bm).

Definition group_index (h : nat) : nat := default 0%nat (fst <$> list_find (fun x => x = h) ids).

Lemma group_index_ok g h : NoDup ids -> ids !! g = Some h -> group_index h = g.
Proof.
  intros Hnd Hg. unfold group_index. destruct (list_find (fun x => x = h) ids) as [[i x]|] eqn:E.
  - apply list_find_Some in E as (Hi & -> & _). cbn. by eapply NoDup_lookup.
  - apply list_find_None in E. rewrite Forall_forall in E. by destruct (E h); [eapply list_elem_of_lookup_2|].
Qed.

Lemma foldl_store (prog : nat * nat -> list ((nat * Z * nat) * list (xf F))) m l : foldl (fun m pid => store_out m (prog pid)) m l = store_out m (l ≫= prog).
Proof. revert m. induction l as [|x l IH]; intros m; csimpl; [done|]. rewrite IH. unfold store_out. by rewrite foldl_app. Qed.

Lemma store_out_other (ws : list ((nat * Z * nat) * list (xf F))) m key : key ∉ ws.*1 -> store_out m ws !! key = m !! key.
Proof.
  revert m. induction ws as [|[k v] ws IH]; intros m; csimpl; [done|]. rewrite not_elem_of_cons. intros [Hne Hin]. cbn. change (store_out (<[k:=v]> m) ws !! key = m !! key).
  rewrite IH by done. by rewrite lookup_insert_ne.
Qed.

Context (order : list (nat * nat) -> list (nat * nat)) (Horder : forall l, order l ≡ₚ l) (batch : nat) (m0 : gmap (nat * Z * nat) (list (xf F))).
Context (Hnd : NoDup ids) (Hbm : 0 < bm).
Local Abbreviation grid := (grid2 (Z.to_nat (cdiv q_len bm)) (batch * length ids)).
Local Abbreviation launched := (foldl (fun m pid => store_out m (group_prog pid)) m0 (order grid)).

Lemma elem_of_group_prog pid key v : (key, v) ∈ group_prog pid <-> exists r, 0 <= r < bm /\ Z.of_nat pid.1 * bm + r < q_len /\
  key = ((pid.2 / length ids)%nat, Z.of_nat pid.1 * bm + r, default 0%nat (ids !! (pid.2 mod length ids)%nat)) /\
  v = val pid.1 (pid.2 / length ids) (pid.2 mod length ids) (Z.of_nat pid.1 * bm + r).
Proof.
  unfold group_prog. rewrite (elem_of_row_writes (fun r => ((pid.2 / length ids)%nat, Z.of_nat pid.1 * bm + r, default 0%nat (ids !! (pid.2 mod length ids)%nat)))
    (fun r => Z.of_nat pid.1 * bm + r <? q_len)). setoid_rewrite Z.ltb_lt. split; intros (r & ? & ? & E); exists r; [injection E as -> ->; done|]. destruct E as [-> ->]. done.
Qed.

Lemma group_launch_other key : key.2 ∉ ids -> launched !! key = m0 !! key.
Proof.
  intros Hk. rewrite foldl_store. apply store_out_other. intros ([k v] & -> & ([x y] & Hin & Hg)%list_elem_of_bind)%list_elem_of_fmap. rewrite Horder in Hg.
  apply elem_of_grid2 in Hg as [_ Hy]. apply elem_of_group_prog in Hin as (r & _ & _ & -> & _). apply Hk. cbn.
  assert (0 < length ids)%nat by (destruct ids; cbn in *; lia). destruct (lookup_lt_is_Some_2 ids (y mod length ids)) as [h Eh]; [apply Nat.mod_upper_bound; lia|].
  rewrite Eh. by eapply list_elem_of_lookup_2.
Qed.

Lemma group_launch g h b m : ids !! g = Some h -> (b < batch)%nat -> 0 <= m < q_len ->
  launched !! (b, m, h) = Some (val (Z.to_nat (m / bm)) b g m).
Proof.
  intros Hg Hb Hm. pose proof (lookup_lt_Some _ _ _ Hg) as Hgl. set (G := length ids) in *.
  pose proof (Z.div_mod m bm ltac:(lia)) as Em. pose proof (Z.mod_pos_bound m bm Hbm) as Hmm. assert (0 <= m / bm) as Hd by (apply Z.div_pos; lia).
  pose proof (cdiv_spec q_len bm Hbm) as Hcd. assert (m / bm < cdiv q_len bm) as Hlt by nia. rewrite foldl_store. apply store_out_lookup.
  - assert (NoDup (order grid)) as Hno by (rewrite Horder; apply grid2_NoDup).
    assert (forall pid, pid ∈ order grid -> (pid.2 < batch * G)%nat) as Hpid by (intros [x y]; rewrite Horder; intros [_ ?]%elem_of_grid2; done).
    fold G in Hno, Hpid. induction Hno as [|[x y] l Hx Hl IH]; csimpl; [constructor|]. rewrite fmap_app. apply NoDup_app. split_and!.
    + apply (row_writes_NoDup (fun r => ((y / G)%nat, Z.of_nat x * bm + r, default 0%nat (ids !! (y mod G)%nat))) (fun r => Z.of_nat x * bm + r <? q_len)). intros r r' [=]. lia.
    + intros key ([k v] & -> & Hin)%list_elem_of_fmap ([k' v'] & Ek & ([x' y'] & Hin' & Hl')%list_elem_of_bind)%list_elem_of_fmap. cbn in Ek. subst k'.
      apply elem_of_group_prog in Hin as (r & Hr & _ & -> & _). apply elem_of_group_prog in Hin' as (r' & Hr' & _ & E & _). cbn in E. injection E as E1 E2 E3.
      assert (x = x') as -> by nia. assert (y mod G = y' mod G)%nat as E4.
      { destruct (lookup_lt_is_Some_2 ids (y mod G)) as [a Ea]; [apply Nat.mod_upper_bound; lia|]. destruct (lookup_lt_is_Some_2 ids (y' mod G)) as [a' Ea']; [apply Nat.mod_upper_bound; lia|].
        fold G in E3. rewrite Ea, Ea' in E3. cbn in E3. subst a'. eapply (NoDup_lookup ids); done. }
      assert (y = y') as ->; [|by apply Hx]. pose proof (Nat.div_mod_eq y G). pose proof (Nat.div_mod_eq y' G). fold G in E1. lia.
    + apply IH. intros pid Hp. apply Hpid. by constructor.
  - apply list_elem_of_bind. exists (Z.to_nat (m / bm), (b * G + g)%nat). rewrite elem_of_group_prog, Horder. cbn [fst snd]. fold G.
    assert (((b * G + g) / G)%nat = b) as -> by (rewrite Nat.div_add_l, Nat.div_small by lia; lia).
    assert (((b * G + g) mod G)%nat = g) as -> by (rewrite Nat.add_comm, Nat.Div0.mod_add, Nat.mod_small by lia; done).
    split; [exists (m mod bm)|apply elem_of_grid2; split; [lia|nia]]. rewrite Hg, Z2Nat.id by lia. replace (m / bm * bm + m mod bm) with m by lia. split_and!; try lia; done.
Qed.

End groups.

(** ** The static kernel *)

Lemma slots_eq rs : (length rs <= MAX_STATIC_RANGES)%nat -> slots rs = rs ++ replicate (MAX_STATIC_RANGES - length rs) (0, 0).
Proof.
  unfold slots. intros Hl. apply list_eq. intros i. set (buf := replicate MAX_STATIC_RANGES (0, 0)). assert (length buf = MAX_STATIC_RANGES) as Hb by apply length_replicate.
  destruct (decide (i < length rs)%nat) as [Hi|Hi].
  - rewrite lookup_app_l by done. destruct (lookup_lt_is_Some_2 rs i Hi) as [r Er]. rewrite Er. apply lookup_store; [|apply list_elem_of_lookup|lia].
    + rewrite fst_zip by (by rewrite length_seq). apply NoDup_seq.
    + exists i. rewrite lookup_zip_with, lookup_seq_lt, Er by done. done.
  - rewrite lookup_app_r by lia. rewrite lookup_store_other.
    + unfold buf. destruct (decide (i < MAX_STATIC_RANGES)%nat); [rewrite !lookup_replicate_2 by lia; done|].
      rewrite !lookup_ge_None_2; [done|rewrite length_replicate; lia|rewrite length_replicate; lia].
    + rewrite fst_zip by (by rewrite length_seq). rewrite elem_of_seq. lia.
Qed.

Section static.
Context {F : Type} `{!Num F} `{!NumExp F} `{!NumLaws F} `{!NumExpLaws F}.

(** The keys of within-frame ranges replicated over frames. *)
Definition frame_keys (fs : Z) (frames : list Z) (rs : list (Z * Z)) : list Z := frames ≫= fun f => (fun n => f * fs + n) <$> keys_of rs.

Lemma frame_keys_app fs f1 f2 rs : frame_keys fs (f1 ++ f2) rs = frame_keys fs f1 rs ++ frame_keys fs f2 rs.
Proof. unfold frame_keys. apply bind_app. Qed.

Section row.
Context (d : nat) (qk : F) (k v : Z -> list F) (q : list F) (fs : Z) (rs : list (Z * Z)).

Lemma frames_inv frames st ps : row_inv d ps st ->
  row_inv d (ps ++ (item (key_logit qk k None q) v <$> frame_keys fs frames rs))
    (foldl (fun st f => foldl (range_step RANGE_BLOCK_N d qk k v None (f * fs) q) st rs) st frames).
Proof.
  revert st ps. induction frames as [|f frames IH]; intros st ps Hst; csimpl; [by rewrite app_nil_r|].
  unfold frame_keys. cbn [mbind list_bind]. rewrite fmap_app, app_assoc. apply IH. apply ranges_inv; [unfold RANGE_BLOCK_N; lia|done].
Qed.

Definition static_frames (lo step tail nf : Z) : list Z := zrange_step lo (nf - tail) step ++ zrange (nf - tail) nf.

Lemma msa_static_row_spec lo step tail nf : frame_keys fs (static_frames lo step tail nf) rs <> [] ->
  msa_static_row d qk k v lo step tail nf fs rs q = attend_keys d (key_logit qk k None q) v (frame_keys fs (static_frames lo step tail nf) rs).
Proof.
  intros Hne. unfold msa_static_row. apply row_finish_inv; [|done]. unfold static_frames. rewrite frame_keys_app, fmap_app.
  apply frames_inv. change (item (key_logit qk k None q) v <$> frame_keys fs (zrange_step lo (nf - tail) step) rs)
    with ([] ++ (item (key_logit qk k None q) v <$> frame_keys fs (zrange_step lo (nf - tail) step) rs)). apply frames_inv. by left.
Qed.
End row.

(** As a set of keys. *)
Lemma elem_of_frame_keys fs frames rs n : 0 < fs -> ranges_ok 0 fs rs -> n ∈ frame_keys fs frames rs <-> n / fs ∈ frames /\ in_ranges rs (n mod fs) = true.
Proof.
  intros Hfs Hro. unfold frame_keys. rewrite list_elem_of_bind. split.
  - intros (f & (o & -> & Ho)%list_elem_of_fmap & Hf). apply elem_of_keys_of in Ho. pose proof Ho as (r & Hr & Hor)%in_ranges_spec. pose proof (ranges_ok_in _ _ _ _ Hro Hr).
    replace (f * fs + o) with (o + f * fs) by lia. rewrite Z.div_add, Z_mod_plus_full, Z.div_small, Z.mod_small by lia. by rewrite Z.add_0_l.
  - intros [Hf Ho]. exists (n / fs). split; [|done]. apply list_elem_of_fmap. exists (n mod fs). rewrite elem_of_keys_of. split; [|done]. pose proof (Z.div_mod n fs). lia.
Qed.

Lemma frame_keys_NoDup fs frames rs : 0 < fs -> ranges_ok 0 fs rs -> NoDup frames -> NoDup (frame_keys fs frames rs).
Proof.
  intros Hfs Hro Hnd. pose proof (keys_of_sorted _ _ _ Hro) as Hs. unfold frame_keys. apply NoDup_bind; [| |done].
  - intros f f' x _ _ (o & -> & Ho)%list_elem_of_fmap (o' & E & Ho')%list_elem_of_fmap.
    apply elem_of_keys_of, in_ranges_spec in Ho as (r & Hr & ?), Ho' as (r' & Hr' & ?). pose proof (ranges_ok_in _ _ _ _ Hro Hr). pose proof (ranges_ok_in _ _ _ _ Hro Hr'). nia.
  - intros f _. apply NoDup_fmap_2; [intros ? ? ?; lia|]. clear -Hs. induction Hs as [|x l Hs IH Hx]; constructor; [|done]. intros Hin. rewrite Forall_forall in Hx. specialize (Hx x Hin). lia.
Qed.

Lemma frame_keys_filter fs nf frames rs (f : Z -> bool) : 0 < fs -> ranges_ok 0 fs rs -> NoDup frames ->
  (forall x, x ∈ frames -> 0 <= x < nf) -> (forall n, 0 <= n < nf * fs -> f n = true <-> n / fs ∈ frames /\ in_ranges rs (n mod fs) = true) ->
  frame_keys fs frames rs ≡ₚ filter (fun n => f n = true) (zrange 0 (nf * fs)).
Proof.
  intros Hfs Hro Hnd Hfr Hf. apply NoDup_Permutation; [by apply frame_keys_NoDup|apply NoDup_filter, NoDup_seqZ|].
  intros n. rewrite elem_of_frame_keys, list_elem_of_filter, elem_of_zrange by done. split.
  - intros [Hx Ho]. pose proof (Hfr _ Hx). pose proof (Z.div_mod n fs ltac:(lia)). pose proof (Z.mod_pos_bound n fs Hfs). assert (0 <= n < nf * fs) as Hn by nia. by rewrite Hf.
  - intros [Hx Hn]. by apply Hf.
Qed.

(** The frames of the walk. *)
Lemma elem_of_static_frames lo step tail nf f : 0 <= lo -> 0 < step -> 0 <= tail <= nf ->
  f ∈ static_frames lo step tail nf <-> (lo <= f < nf - tail /\ (f - lo) mod step = 0) \/ nf - tail <= f < nf.
Proof.
  intros Hlo Hs Ht. unfold static_frames, zrange_step. rewrite elem_of_app, list_elem_of_fmap, elem_of_zrange. setoid_rewrite elem_of_zrange.
  pose proof (cdiv_spec (nf - tail - lo) step Hs). split.
  - intros [(i & -> & Hi)|?]; [|by right]. left. replace (lo + i * step - lo) with (i * step) by lia. rewrite Z_mod_mult. split; [nia|done].
  - intros [[Hf Hm]|?]; [|by right]. left. exists ((f - lo) / step). pose proof (Z.div_mod (f - lo) step ltac:(lia)). split; [nia|]. split; [apply Z.div_pos; lia|nia].
Qed.

Lemma NoDup_static_frames lo step tail nf : 0 <= lo -> 0 < step -> 0 <= tail <= nf -> NoDup (static_frames lo step tail nf).
Proof.
  intros Hlo Hs Ht. unfold static_frames, zrange_step. apply NoDup_app. split_and!; [apply NoDup_fmap_2; [intros ? ? ?; nia|apply NoDup_seqZ]| |apply NoDup_seqZ].
  intros f (i & -> & Hi)%list_elem_of_fmap. rewrite elem_of_zrange in *. pose proof (cdiv_spec (nf - tail - lo) step Hs). nia.
Qed.

(** ** The static plan *)

Definition group_rec : Type := Z * Z * Z * list (list (Z * Z)).
Definition group_share (config : MsaConfig F) (layout : VisibleLayout) (q_len : Z) (w : group_rec) : F :=
  let '(lo, step, tail, rs) := w in
  ndiv (nmul (ndiv (of_Z (foldr Z.add 0 (span_tokens <$> rs))) (of_Z (cdiv q_len (m_block_q config))))
    (of_Z (tail + Z.of_nat (length (zrange_step lo (num_frames layout - tail) step))))) (of_Z (kv_len layout)).

Lemma add_groups_ok (config : MsaConfig F) g layout q_len (w : HeadSpec -> group_rec) static plan :
  cdiv q_len (m_block_q config) <> 0 -> kv_len layout <> 0 ->
  (forall hs, hs ∈ static -> static_group config g layout q_len hs.2 = Ok (w hs.2) /\ Forall (fun r => (length r <= MAX_STATIC_RANGES)%nat) (w hs.2).2) ->
  exists p, add_groups config g layout q_len plan static = Ok p /\
    head_ids p = head_ids plan ++ static.*1 /\ frame_lo p = frame_lo plan ++ ((fun hs => (w hs.2).1.1.1) <$> static) /\
    frame_step p = frame_step plan ++ ((fun hs => (w hs.2).1.1.2) <$> static) /\ frame_tail p = frame_tail plan ++ ((fun hs => (w hs.2).1.2) <$> static) /\
    sp_ranges p = sp_ranges plan ++ ((fun hs => slots <$> (w hs.2).2) <$> static) /\ sp_counts p = sp_counts plan ++ ((fun hs => length <$> (w hs.2).2) <$> static) /\
    fraction_sum p = foldl nadd (fraction_sum plan) ((fun hs => group_share config layout q_len (w hs.2)) <$> static).
Proof.
  intros Hb Hk. revert plan. induction static as [|hs static IH]; intros plan Hst; cbn [add_groups].
  { exists plan. csimpl. by rewrite !app_nil_r. }
  destruct (Hst hs) as [Eg Hr]; [constructor|]. unfold add_group. rewrite Eg. bind_step. destruct (w hs.2) as [[[lo step] tail] rs] eqn:Ew. cbn [fst snd] in Hr.
  assert (forallb (fun r => Nat.leb (length r) MAX_STATIC_RANGES) rs = true) as ->.
  { apply forallb_forall. intros r Hin. rewrite Forall_forall in Hr. apply Nat.leb_le, Hr. by apply list_elem_of_In. }
  cbn [py_assert]. bind_step. destruct (Z.eqb_spec (cdiv q_len (m_block_q config)) 0); [done|]. destruct (Z.eqb_spec (kv_len layout) 0); [done|]. cbn [orb]. bind_step.
  set (plan' := mkStatic _ _ _ _ _ _ _). destruct (IH plan') as (p & E & H1 & H2 & H3 & H4 & H5 & H6 & H7); [intros; apply Hst; by constructor|].
  exists p. split; [exact E|]. rewrite H1, H2, H3, H4, H5, H6, H7. unfold plan'. csimpl. rewrite Ew, <- !app_assoc. cbn [fst snd]. done.
Qed.

End static.
