(* ===== verification/MsaClaims.v ===== *)
(** * MsaClaims: every head computes the attention its family promises *)

From Stdlib Require Import Field QArith Qcanon.
From S2P Require Import Prelude Num SparsePlan SparsePlanSpec SparseKernel SparseKernelSpec SparseClaims SparseContext SparseBackend SparseBackendSpec Osa OsaSpec OsaClaims XAttention LightForcing LightForcingSpec LightForcingClaims Msa MsaSpec.

Open Scope Z_scope.

(** C30: For frames of positive length the loop that cuts a
    query block into within-frame spans ends after at most as many rounds as
    the block has tokens; the spans lie inside the frame and hold exactly the
    within-frame offsets of the block, and three or more include the whole frame. *)
Theorem query_spans_terminate q_block bm q_len fs : 0 < fs -> 0 <= q_block -> 0 < bm ->
  exists rs, within_frame_query_spans q_block bm q_len fs = Ok rs /\
    Forall (fun r => 0 <= r.1 < r.2 /\ r.2 <= fs) rs /\
    (forall o, in_ranges rs o = true <-> exists n, q_block * bm <= n < Z.min q_len ((q_block + 1) * bm) /\ n mod fs = o) /\
    ((length rs <= 2)%nat \/ (0, fs) ∈ rs).
Proof.
  intros Hfs Hq Hb. unfold within_frame_query_spans.
  destruct (query_spans_loop_ok fs Hfs (Z.to_nat (Z.min q_len ((q_block + 1) * bm) - q_block * bm)) (q_block * bm) (Z.min q_len ((q_block + 1) * bm)) [])
    as (rs & -> & [Hin Hcov [_ Hw]]); [nia|lia|]. exists rs. done.
Qed.

(** The merged ranges of a local head are at most two,
    disjoint and in order, so the plan's eight slots always suffice, and they
    hold exactly the offsets whose grid row is within the radius of the row of
    some query of the block. *)
Theorem local_ranges_window qb radius bm q_len gh gw : 0 < gh -> 0 < gw -> 0 <= radius -> 0 <= qb -> 0 < bm ->
  exists rs, local_ranges qb radius bm q_len (gh * gw) gh gw = Ok rs /\ (length rs <= 2)%nat /\ ranges_ok 0 (gh * gw) rs /\
    Forall (fun r => r.1 < r.2) rs /\
    forall o, 0 <= o < gh * gw -> in_ranges rs o = true <->
      exists n, qb * bm <= n < Z.min q_len ((qb + 1) * bm) /\ Z.abs (o / gw - n mod (gh * gw) / gw) <= radius.
Proof. apply local_ranges_ok. Qed.

(** ** Ranking *)

Class TorchRankLaws (A : Type) (leb : A -> A -> bool) `{!TorchRank A} := {
  rank_nodup (l : list A) k : NoDup (topk_sorted l k) /\ topk_sorted l k ⊆ zrange 0 (Z.of_nat (length l));
  rank_length (l : list A) k : (k <= length l)%nat -> length (topk_sorted l k) = k;
  rank_best (l : list A) k i j x y : i ∈ topk_sorted l k -> j ∉ topk_sorted l k -> l !! Z.to_nat i = Some x -> l !! Z.to_nat j = Some y -> 0 <= j -> leb y x = true;
  rank_sorted (l : list A) k : StronglySorted (by_value leb l) (topk_sorted l k) }.

Section claims.
Context {F : Type} `{!Num F} `{!NumExp F} `{!NumLaws F} `{!NumExpLaws F} `{!TorchOrder F} `{!TorchOrderLaws F}.
Context `{!TorchRank (option F)} `{!TorchRankLaws (option F) (oleb nleb)}.
Local Abbreviation state := (msa_state F).

(** ** What a head reads *)

Definition static_reads (c : MsaConfig F) (g : ChunkGeometry) (layout : VisibleLayout) (q_len : Z) (spec : HeadSpec) (m n : Z) : bool :=
  let fs := frame_seqlen layout in
  let nf := num_frames layout in
  let qb := m / m_block_q c in
  if bool_decide (family spec = "shortwin"%string) then nf - Z.max (spec_m spec) (query_frames layout) <=? n / fs
  else if bool_decide (family spec = "diffuse"%string) then
    ((n / fs) mod Z.max 1 (nround (ndiv none (diffuse_density c))) =? 0) || (nf - query_frames layout <=? n / fs)
  else existsb (fun m' => Z.abs (n mod fs / grid_width g - m' mod fs / grid_width g) <=? spec_r spec)
    (zrange (qb * m_block_q c) (Z.min q_len ((qb + 1) * m_block_q c))).

Section static.
Context (c : MsaConfig F) (g : ChunkGeometry) (layout : VisibleLayout) (q_len : Z).
Context (Hbq : 0 < m_block_q c) (Hgrid : 0 < grid_height g /\ 0 < grid_width g /\ grid_height g * grid_width g = frame_seqlen layout) (Hqf : 0 < query_frames layout <= num_frames layout).
Context (Hdd : nis0 (diffuse_density c) = false).
Local Abbreviation fs := (frame_seqlen layout).
Local Abbreviation nf := (num_frames layout).

Record group_ok (spec : HeadSpec) (w : group_rec) : Prop := {
  go_eq : static_group c g layout q_len spec = Ok w;
  go_walk : 0 <= w.1.1.1 /\ 0 < w.1.1.2 /\ 0 <= w.1.2 <= nf;
  go_slots : Forall (fun r => (length r <= MAX_STATIC_RANGES)%nat) w.2;
  go_reads : forall m, 0 <= m < q_len -> exists rs, w.2 !! Z.to_nat (m / m_block_q c) = Some rs /\ ranges_ok 0 fs rs /\
    forall n, 0 <= n < nf * fs -> static_reads c g layout q_len spec m n = true <->
      n / fs ∈ static_frames w.1.1.1 w.1.1.2 w.1.2 nf /\ in_ranges rs (n mod fs) = true }.

Lemma block_in m : 0 <= m < q_len -> 0 <= m / m_block_q c < cdiv q_len (m_block_q c).
Proof.
  intros Hm. pose proof (Z.div_mod m (m_block_q c) ltac:(lia)). pose proof (Z.mod_pos_bound m (m_block_q c) Hbq). pose proof (cdiv_spec q_len (m_block_q c) Hbq).
  split; [apply Z.div_pos; lia|nia].
Qed.

Lemma zrange_at a b i : 0 <= i < b - a -> zrange a b !! Z.to_nat i = Some (a + i).
Proof. intros Hi. unfold zrange. rewrite lookup_seqZ_lt by lia. f_equal. lia. Qed.

Lemma whole_frames m : 0 <= m < q_len -> ((fun _ => [(0, fs)]) <$> zrange 0 (cdiv q_len (m_block_q c))) !! Z.to_nat (m / m_block_q c) = Some [(0, fs)].
Proof. intros Hm. pose proof (block_in m Hm). by rewrite list_lookup_fmap, zrange_at by lia. Qed.

Lemma whole_range n : 0 < fs -> in_ranges [(0, fs)] (n mod fs) = true /\ ranges_ok 0 fs [(0, fs)].
Proof. intros Hfs. pose proof (Z.mod_pos_bound n fs Hfs). split; [apply in_ranges_spec; eexists; split; [constructor|cbn; lia]|repeat constructor; lia]. Qed.

Lemma static_group_ok spec : family spec ∈ STATIC_FAMILIES -> 0 <= spec_r spec -> exists w, group_ok spec w.
Proof.
  intros Hfam Hr. destruct Hgrid as (Hgh & Hgw & Hfs). assert (0 < fs) as Hfp by nia.
  assert (forall n, 0 <= n < nf * fs -> 0 <= n / fs < nf) as Hdiv by (intros n Hn; split; [apply Z.div_pos; lia|apply Z.div_lt_upper_bound; lia]).
  assert (forall l : list Z, Forall (fun r : list (Z * Z) => (length r <= MAX_STATIC_RANGES)%nat) ((fun _ => [(0, fs)]) <$> l)) as Hone.
  { intros l. apply Forall_fmap, Forall_true. intros ?. cbn. unfold MAX_STATIC_RANGES. lia. }
  destruct (decide (family spec = "shortwin"%string)) as [E1|N1]; [|destruct (decide (family spec = "diffuse"%string)) as [E2|N2]].
  - eexists. split; [unfold static_group; rewrite bool_decide_eq_true_2 by done; done| | |]; cbn [fst snd]; [lia|apply Hone|].
    intros m Hm. exists [(0, fs)]. split; [by apply whole_frames|]. split; [by apply (whole_range 0)|]. intros n Hn. destruct (whole_range n Hfp) as [-> _].
    rewrite elem_of_static_frames by lia. unfold static_reads. rewrite bool_decide_eq_true_2 by done. rewrite Z.leb_le, Z.mod_1_r. pose proof (Hdiv n Hn). split; [intros; split; [left|]; lia|intros; lia].
  - eexists. split; [unfold static_group, diffuse_frame_step; rewrite bool_decide_eq_false_2, bool_decide_eq_true_2, Hdd by done; done| | |]; cbn [fst snd]; [lia|apply Hone|].
    intros m Hm. exists [(0, fs)]. split; [by apply whole_frames|]. split; [by apply (whole_range 0)|]. intros n Hn. destruct (whole_range n Hfp) as [-> _].
    rewrite elem_of_static_frames by lia. unfold static_reads. rewrite bool_decide_eq_false_2, bool_decide_eq_true_2 by done.
    rewrite orb_true_iff, Z.leb_le, Z.eqb_eq, Z.sub_0_r. pose proof (Hdiv n Hn). set (x := (n / fs) mod _). clearbody x. split; [intros; split; [|done]; lia|lia].
  - assert (family spec = "local"%string) as E3 by (unfold STATIC_FAMILIES in Hfam; apply elem_of_cons in Hfam as [?|[?|[?|?%not_elem_of_nil]%elem_of_cons]%elem_of_cons]; done).
    set (lr := fun qb => local_ranges qb (spec_r spec) (m_block_q c) q_len fs (grid_height g) (grid_width g)).
    set (get := fun qb => match lr qb with Ok rs => rs | Raise _ => [] end).
    assert (forall qb, 0 <= qb -> lr qb = Ok (get qb) /\ (length (get qb) <= 2)%nat /\ ranges_ok 0 fs (get qb) /\
      forall o, 0 <= o < fs -> in_ranges (get qb) o = true <-> exists n, qb * m_block_q c <= n < Z.min q_len ((qb + 1) * m_block_q c) /\ Z.abs (o / grid_width g - n mod fs / grid_width g) <= spec_r spec) as Hlr.
    { intros qb Hqb. unfold get, lr. rewrite <- Hfs. destruct (local_ranges_ok qb (spec_r spec) (m_block_q c) q_len (grid_height g) (grid_width g) Hgh Hgw Hr Hqb Hbq) as (rs & -> & ? & ? & _ & ?). done. }
    exists (0, 1, 0, get <$> zrange 0 (cdiv q_len (m_block_q c))). split; cbn [fst snd].
    + unfold static_group. rewrite !bool_decide_eq_false_2 by done. rewrite (mapM_Ok _ get); [done|]. intros qb Hqb%elem_of_zrange. apply Hlr. lia.
    + lia.
    + apply Forall_fmap, Forall_forall. intros qb Hqb%elem_of_zrange. destruct (Hlr qb ltac:(lia)) as (_ & ? & _). unfold compose, MAX_STATIC_RANGES. lia.
    + intros m Hm. pose proof (block_in m Hm). destruct (Hlr (m / m_block_q c) ltac:(lia)) as (_ & _ & Hro & Hcov). exists (get (m / m_block_q c)).
      split; [by rewrite list_lookup_fmap, zrange_at by lia|]. split; [done|]. intros n Hn. pose proof (Z.mod_pos_bound n fs Hfp). rewrite Hcov by lia.
      rewrite elem_of_static_frames by lia. rewrite Z.mod_1_r. unfold static_reads. rewrite !bool_decide_eq_false_2 by done. rewrite existsb_exists. setoid_rewrite <- list_elem_of_In.
      setoid_rewrite elem_of_zrange. setoid_rewrite Z.leb_le. pose proof (Hdiv n Hn). split; [intros (x & Hx & Habs); split; [lia|eauto]|intros (_ & x & Hx & Habs); eauto].
Qed.

(** A static head reads something. *)
Lemma static_reads_some spec m : family spec ∈ STATIC_FAMILIES -> 0 <= spec_r spec -> 0 <= m < q_len ->
  exists n, 0 <= n < nf * fs /\ static_reads c g layout q_len spec m n = true.
Proof.
  intros Hfam Hr Hm. destruct Hgrid as (Hgh & Hgw & Hfs). assert (0 < fs) as Hfp by nia. pose proof (Z.mod_pos_bound m fs Hfp) as Hmm.
  exists ((nf - 1) * fs + m mod fs). assert (((nf - 1) * fs + m mod fs) / fs = nf - 1) as E1 by (symmetry; apply (Z.div_unique _ _ _ (m mod fs)); lia).
  assert (((nf - 1) * fs + m mod fs) mod fs = m mod fs) as E2 by (symmetry; apply (Z.mod_unique _ _ (nf - 1)); lia). split; [nia|].
  unfold static_reads. rewrite E1, E2. case_bool_decide; [apply Z.leb_le; lia|]. case_bool_decide; [apply orb_true_iff; right; apply Z.leb_le; lia|].
  apply existsb_exists. exists m. split; [|apply Z.leb_le; lia]. apply list_elem_of_In, elem_of_zrange. pose proof (Z.div_mod m (m_block_q c) ltac:(lia)). pose proof (Z.mod_pos_bound m (m_block_q c) Hbq). lia.
Qed.

End static.

(** ** The split *)

Definition is_static (spec : HeadSpec) : bool := bool_decide (family spec ∈ STATIC_FAMILIES).

Definition static_entry (tx : gmap string HeadSpec) (layer start : Z) (h : nat) : option (nat * HeadSpec) :=
  match tx !! head_key layer (start + Z.of_nat h) with Some spec => if is_static spec then Some (h, spec) else None | None => None end.
Definition is_content (tx : gmap string HeadSpec) (layer start : Z) (h : nat) : bool :=
  match tx !! head_key layer (start + Z.of_nat h) with Some spec => negb (is_static spec) | None => false end.

Lemma split_loop_ok tx layer start heads acc r : split_loop tx layer start heads acc = Ok r ->
  r.1 = acc.1 ++ omap (static_entry tx layer start) heads /\ r.2 = acc.2 ++ filter (fun h => is_content tx layer start h = true) heads /\
  forall h, h ∈ heads -> is_Some (tx !! head_key layer (start + Z.of_nat h)).
Proof.
  revert acc. induction heads as [|h heads IH]; intros acc; cbn [split_loop].
  { intros [= <-]. cbn. rewrite !app_nil_r. split_and!; [done..|]. intros h Hh. by apply not_elem_of_nil in Hh. }
  destruct (tx !! head_key layer (start + Z.of_nat h)) as [spec|] eqn:E; [|done]. cbn [or_raise]. bind_step. intros (E1 & E2 & Hall)%IH. rewrite E1, E2.
  assert (is_content tx layer start h = negb (is_static spec)) as Ec by (unfold is_content; by rewrite E).
  assert (static_entry tx layer start h = if is_static spec then Some (h, spec) else None) as Es by (unfold static_entry; by rewrite E).
  rewrite filter_cons, Ec. cbn [omap list_omap]. rewrite Es. change (bool_decide (family spec ∈ STATIC_FAMILIES)) with (is_static spec).
  split_and!; [by destruct (is_static spec); cbn [fst snd]; rewrite <- ?app_assoc| |intros h' [->|Hh]%elem_of_cons; [by rewrite E|auto]].
  destruct (is_static spec); cbn [negb fst snd]; [by rewrite decide_False|rewrite decide_True by done; by rewrite <- app_assoc].
Qed.

Lemma static_heads tx layer start heads : (omap (static_entry tx layer start) heads).*1 ⊆+ heads.
Proof.
  induction heads as [|h heads IH]; [done|]. cbn [omap list_omap]. unfold static_entry at 1. destruct (tx !! _) as [spec|]; [|by apply submseteq_cons].
  destruct (is_static spec); [csimpl; by apply submseteq_skip|by apply submseteq_cons].
Qed.

Lemma launch_ext (f g : nat * nat -> list ((nat * Z * nat) * list (xf F))) m l : (forall x, f x = g x) ->
  foldl (fun m pid => store_out m (f pid)) m l = foldl (fun m pid => store_out m (g pid)) m l.
Proof. intros E. revert m. induction l as [|x l IH]; intros m; cbn; [done|]. by rewrite E. Qed.

(** ** A call *)

Definition msa_pooled_query (c : MsaConfig F) (call : SparseAttentionCall F) (h : nat) : list (list F) :=
  mean_pool_blocks (Z.to_nat (head_dim call)) (fun n => batch_token (c_batch call) (Z.to_nat (head_dim call)) (query call) h n) (c_q_len call) (m_block_q c) (c_q_len call).

Definition msa_pooled_part (c : MsaConfig F) (call : SparseAttentionCall F) (layout : VisibleLayout) (from len : Z) (h : nat) : list (list F) :=
  mean_pool_blocks (Z.to_nat (head_dim call)) (fun n => batch_token (c_batch call) (Z.to_nat (head_dim call)) (key call) h (from + n)) len (m_block_k c) (frame_seqlen layout).

Definition msa_pooled_key (c : MsaConfig F) (call : SparseAttentionCall F) (layout : VisibleLayout) (h : nat) : list (list F) :=
  msa_pooled_part c call layout 0 (lf_past layout * frame_seqlen layout) h ++
  msa_pooled_part c call layout (lf_past layout * frame_seqlen layout) (c_kv_len call - lf_past layout * frame_seqlen layout) h.

Definition msa_blocks (c : MsaConfig F) (layout : VisibleLayout) : Z := num_frames layout * cdiv (frame_seqlen layout) (m_block_k c).

(** The ranking of the key blocks for a query block, and how many the first step keeps. *)
Definition msa_ranking (c : MsaConfig F) (call : SparseAttentionCall F) (layout : VisibleLayout) (density : F) (h : nat) (qb : Z) : res (list Z) :=
  content_row c (Z.to_nat (head_dim call)) (lf_past layout) (cdiv (frame_seqlen layout) (m_block_k c)) (Z.to_nat (content_topk c layout density))
    (default [] (msa_pooled_query c call h !! Z.to_nat qb)) (msa_pooled_key c call layout h).

Definition first_scale (c : MsaConfig F) : F := default none (head (step_density_scale c)).
Definition msa_kept (c : MsaConfig F) (layout : VisibleLayout) (density : F) : Z := step_topk c (content_topk c layout density) (msa_blocks c layout) (first_scale c).

Definition content_reads (c : MsaConfig F) (call : SparseAttentionCall F) (layout : VisibleLayout) (density : F) (h : nat) (m n : Z) : bool :=
  match msa_ranking c call layout density h (m / m_block_q c) with
  | Ok row => bool_decide (token_aligned_block (frame_seqlen layout) (m_block_k c) n ∈ take (Z.to_nat (msa_kept c layout density)) row)
  | Raise _ => false
  end.

(** Which keys head [h] reads for query [m]. *)
Definition msa_reads (c : MsaConfig F) (g : ChunkGeometry) (call : SparseAttentionCall F) (layout : VisibleLayout) (density : F) (spec : HeadSpec) (h : nat) (m n : Z) : bool :=
  if is_static spec then static_reads c g layout (c_q_len call) spec m n else content_reads c call layout density h m n.

(** A call that plans every head afresh. *)
Record msa_call (call : SparseAttentionCall F) (s : state) (layout : VisibleLayout) (g : ChunkGeometry) (segs : KeySegments) (density : F) (sched : option (list F))
    (static : list (nat * HeadSpec)) (content : list nat) : Prop := {
  mc_layout : layout_of call (ms_base s) = Ok (Some layout, ms_base s);
  mc_segs : key_segments call = Some segs /\ Forall (fun seg => 0 <= seg.2) segs;
  mc_past : 0 < c_q_len call < c_kv_len call;
  mc_geometry : b_geometry (ms_base s) = Some g /\ 0 < grid_height g /\ 0 < grid_width g /\ grid_height g * grid_width g = frame_seqlen layout;
  mc_density : call_density layout s = Ok (density, put_ms_schedule sched s) /\ (content_schedule (ms_config s) = "lightforcing"%string -> nleb none density = false);
  mc_split : split_loop (taxonomy s) (layer_index call) (head_start call) (seq 0 (num_local_heads call)) ([], []) = Ok (static, content) /\
    (layer_split s !! (layer_index call, head_start call, num_local_heads call) = None \/
     layer_split s !! (layer_index call, head_start call, num_local_heads call) = Some (static, content));
  mc_miss : static_cache s !! layer_index call = None /\ content_cache s !! layer_index call = None /\ ms_history s !! layer_index call = None /\
    content_ids s !! (layer_index call, head_start call) = None;
  mc_config : 0 < m_block_q (ms_config s) /\ 0 < m_block_k (ms_config s) /\ nis0 (diffuse_density (ms_config s)) = false /\
    0 <= m_keep_sink (ms_config s) /\ 0 <= m_keep_near (ms_config s) /\ m_keep_sink (ms_config s) + m_keep_near (ms_config s) <= m_keep_frames (ms_config s) /\
    (0 < num_local_heads call)%nat;
  mc_radius : forall h spec, (h, spec) ∈ static -> 0 <= spec_r spec }.

Section call.
Context (garbage : nat) (order : list (nat * nat) -> list (nat * nat)) (Hord : forall l, order l ≡ₚ l).
Context (call : SparseAttentionCall F) (s : state) (layout : VisibleLayout) (g : ChunkGeometry) (segs : KeySegments) (density : F) (sched : option (list F)).
Context (static : list (nat * HeadSpec)) (content : list nat) (Hc : msa_call call s layout g segs density sched static content).
Local Abbreviation c := (ms_config s).
Local Abbreviation fs := (frame_seqlen layout).
Local Abbreviation nf := (num_frames layout).
Local Abbreviation bm := (m_block_q c).
Local Abbreviation bpf := (cdiv fs (m_block_k c)).
Local Abbreviation dim := (Z.to_nat (head_dim call)).
Local Abbreviation nh := (num_local_heads call).
Local Abbreviation logit b m h := (block_logit (query call) (key call) (softmax_scale call) b m h).

Lemma msa_frames : c_kv_len call = nf * fs /\ c_q_len call = query_frames layout * fs /\ 0 < query_frames layout < nf /\ 0 < fs.
Proof.
  destruct Hc as [HL (Es & Hpos) Hq (_ & Hgh & Hgw & Hfs) _ _ _ _ _]. assert (0 < fs) as Hfp by nia. pose proof (layout_of_kv_len _ _ _ _ _ HL Es Hpos Hfp) as Hkv. unfold kv_len in Hkv.
  destruct (layout_of_Some _ _ _ _ HL) as (_ & Hmod & Hqf & _). rewrite Hqf. pose proof (Z.div_mod (c_q_len call) fs ltac:(lia)). split_and!; nia.
Qed.

Lemma msa_split_facts : NoDup static.*1 /\ NoDup content /\ (forall h, h ∈ content -> (h ∉ static.*1) /\ (h < nh)%nat) /\
  (forall h spec, (h, spec) ∈ static -> (h < nh)%nat /\ is_static spec = true /\ taxonomy s !! head_key (layer_index call) (head_start call + Z.of_nat h) = Some spec) /\
  (forall h, (h < nh)%nat -> exists spec, taxonomy s !! head_key (layer_index call) (head_start call + Z.of_nat h) = Some spec /\
    (if is_static spec then (h, spec) ∈ static else h ∈ content)).
Proof.
  destruct (mc_split _ _ _ _ _ _ _ _ _ Hc) as [Es _]. apply split_loop_ok in Es as (E1 & E2 & Hall). cbn in E1, E2. subst static content.
  assert (forall h spec, (h, spec) ∈ omap (static_entry (taxonomy s) (layer_index call) (head_start call)) (seq 0 nh) ->
    (h < nh)%nat /\ is_static spec = true /\ taxonomy s !! head_key (layer_index call) (head_start call + Z.of_nat h) = Some spec) as Hst.
  { intros h spec (h' & Hh & E)%list_elem_of_omap. unfold static_entry in E. destruct (taxonomy s !! _) as [sp|] eqn:El; [|done]. destruct (is_static sp) eqn:Ei; [|done].
    injection E as -> ->. apply elem_of_seq in Hh. split_and!; [lia|done|done]. }
  split_and!.
  - destruct (submseteq_Permutation _ _ (static_heads (taxonomy s) (layer_index call) (head_start call) (seq 0 nh))) as [k Hk].
    pose proof (NoDup_seq 0 nh) as Hnd. rewrite Hk in Hnd. by apply NoDup_app in Hnd as (? & _).
  - apply NoDup_filter, NoDup_seq.
  - intros h [Hic Hh]%list_elem_of_filter. apply elem_of_seq in Hh. split; [|lia]. intros ([h' spec] & -> & Hin)%list_elem_of_fmap. destruct (Hst _ _ Hin) as (_ & Hs & El).
    unfold is_content in Hic. cbn in Hic. by rewrite El, Hs in Hic.
  - done.
  - intros h Hh. assert (h ∈ seq 0 nh) as Hseq by (apply elem_of_seq; lia). destruct (Hall h Hseq) as [spec El]. exists spec. split; [done|]. destruct (is_static spec) eqn:Ei.
    + apply list_elem_of_omap. exists h. split; [done|]. unfold static_entry. by rewrite El, Ei.
    + apply list_elem_of_filter. split; [|done]. unfold is_content. by rewrite El, Ei.
Qed.

(** The static heads. *)
Lemma static_part_ok s' : ms_config s' = c -> static_cache s' = static_cache s -> b_geometry (ms_base s') = Some g ->
  exists out fr cache, msa_static_part order call layout static s' = Ok (out, fr, put_static cache s') /\
  forall b m h spec, (b < c_batch call)%nat -> 0 <= m < c_q_len call -> (h, spec) ∈ static ->
    out !! (b, m, h) = Some (attend_keys dim (logit b m h) (fun n => value call b n h)
      (filter (fun n => static_reads c g layout (c_q_len call) spec m n = true) (zrange 0 (c_kv_len call)))).
Proof.
  intros Ec Ecache Egeo. destruct (decide (static = [])) as [E0|Hne].
  { rewrite E0. exists ∅, nzero, (static_cache s'). split; [cbn; by destruct s'|]. intros b m h spec _ _ Hin. by apply not_elem_of_nil in Hin. }
  destruct msa_frames as (Ekv & Eq & Hqf & Hfp). destruct msa_split_facts as (Hnd & _ & _ & Hst & _). pose proof Hc as [_ _ Hpast (_ & Hgh & Hgw & Hgrid) _ _ (Hmiss & _) (Hbq & _ & Hdd & _) Hrad].
  set (w := fun spec => match static_group c g layout (c_q_len call) spec with Ok w => w | Raise _ => (0, 0, 0, []) end).
  assert (forall h spec, (h, spec) ∈ static -> group_ok c g layout (c_q_len call) spec (w spec)) as Hw.
  { intros h spec Hin. destruct (Hst h spec Hin) as (_ & Hs & _). apply bool_decide_eq_true in Hs.
    destruct (static_group_ok c g layout (c_q_len call) Hbq ltac:(done) ltac:(lia) Hdd spec Hs (Hrad h spec Hin)) as [w' Hw']. unfold w. by rewrite (go_eq _ _ _ _ _ _ Hw'). }
  destruct (add_groups_ok c g layout (c_q_len call) w static empty_static) as (p & Ep & H1 & H2 & H3 & H4 & H5 & H6 & _).
  { pose proof (cdiv_spec (c_q_len call) bm Hbq). nia. }
  { unfold kv_len. nia. }
  { intros [h spec] Hin. destruct (Hw h spec Hin) as [? _ ? _]. done. }
  exists (msa_static_attention order ∅ (c_batch call) (c_q_len call) dim (query call) (key call) (value call) (head_ids p) (frame_lo p) (frame_step p) (frame_tail p)
    (sp_ranges p) (sp_counts p) nf fs bm (softmax_scale call)), (nadd nzero (fraction_sum p)),
    (cache_put (static_cache s') (layer_index call) (nf, fs, c_q_len call) p). split.
  { unfold msa_static_part. destruct static as [|x l]; [done|]. unfold static_plan, cache_get. rewrite Ecache, Hmiss, Egeo. cbn [or_raise]. bind_step. rewrite Ec, Ep. bind_step.
    unfold put_static. cbn [ms_config]. by rewrite Ec. }
  intros b m h spec Hb Hm Hin. cbn [empty_static head_ids frame_lo frame_step frame_tail sp_ranges sp_counts app] in *.
  pose proof Hin as (i & Hi)%list_elem_of_lookup. destruct (Hw h spec Hin) as [_ (Hlo & Hstep & Htail) Hsl Hreads]. destruct (Hreads m Hm) as (rs & Ers & Hro & Hiff).
  destruct (Hst h spec Hin) as (_ & Hs & _). apply bool_decide_eq_true in Hs.
  unfold msa_static_attention. rewrite (launch_ext _ (group_prog (head_ids p) (c_q_len call) bm (fun pid_m batch group offs =>
    msa_static_row dim (nmul (softmax_scale call) LOG2_E) (fun n => key call batch n (default 0%nat (head_ids p !! group))) (fun n => value call batch n (default 0%nat (head_ids p !! group)))
      (default 0 (frame_lo p !! group)) (default 0 (frame_step p !! group)) (default 0 (frame_tail p !! group)) nf fs
      (take (default 0%nat (sp_counts p !! group ≫= fun r => r !! pid_m)) (default [] (sp_ranges p !! group ≫= fun r => r !! pid_m)))
      (query call batch offs (default 0%nat (head_ids p !! group)))))) by (by intros []).
  rewrite H1. rewrite (group_launch _ (c_q_len call) bm _ order Hord (c_batch call) ∅ Hnd Hbq i h b m) by (done || by rewrite list_lookup_fmap, Hi). f_equal.
  rewrite H2, H3, H4, H5, H6, !list_lookup_fmap, Hi. cbn [fmap option_fmap option_map fst snd mbind option_bind default from_option]. rewrite !list_lookup_fmap, Ers. cbn [fmap option_fmap option_map from_option id default].
  assert (length rs <= MAX_STATIC_RANGES)%nat as Hlen by (rewrite Forall_forall in Hsl; apply Hsl; by eapply list_elem_of_lookup_2).
  rewrite slots_eq, take_app_length by done.
  assert (frame_keys fs (static_frames (w spec).1.1.1 (w spec).1.1.2 (w spec).1.2 nf) rs ≡ₚ filter (fun n => static_reads c g layout (c_q_len call) spec m n = true) (zrange 0 (c_kv_len call))) as Hkeys.
  { rewrite Ekv. apply frame_keys_filter; [done|done|by apply NoDup_static_frames| |done]. intros x Hx%elem_of_static_frames; lia. }
  rewrite msa_static_row_spec; [by rewrite Hkeys|]. intros E0. rewrite E0 in Hkeys. symmetry in Hkeys. apply Permutation_nil_r in Hkeys.
  destruct (static_reads_some c g layout (c_q_len call) Hbq ltac:(done) ltac:(lia) spec m Hs (Hrad h spec Hin) Hm) as (n & Hn & Hr).
  assert (n ∈ ([] : list Z)) as Hbad; [|by apply not_elem_of_nil in Hbad]. rewrite <- Hkeys. apply list_elem_of_filter. split; [done|]. apply elem_of_zrange. lia.
Qed.

(** The content heads. *)

Lemma call_density_again s' : ms_config s' = c -> ms_schedule s' = ms_schedule s \/ ms_schedule s' = sched ->
  exists l, call_density layout s' = Ok (density, put_ms_schedule l s').
Proof.
  intros Ec Es. destruct (mc_density _ _ _ _ _ _ _ _ _ Hc) as [Ed _]. unfold call_density in *. rewrite Ec. case_bool_decide as Econst.
  { injection Ed as -> _. exists (ms_schedule s'). by destruct s'. }
  apply bind_Ok_inv in Ed as (l & El & Ed). apply bind_Ok_inv in Ed as (d & Eat & Ed). injection Ed as -> Esched.
  exists (Some l). destruct Es as [->|Esc].
  - rewrite El. bind_step. by rewrite Eat.
  - assert (Esc' : ms_schedule s' = Some l) by congruence. rewrite Esc'. bind_step. by rewrite Eat.
Qed.

Local Abbreviation pq := (msa_pooled_query c call).
Local Abbreviation pk := (msa_pooled_key c call layout).
Local Abbreviation topk := (content_topk c layout density).
Local Abbreviation kept := (msa_kept c layout density).
Local Abbreviation blocks := (msa_blocks c layout).

Definition rank (q : list F) (keys : list (list F)) : list Z :=
  topk_sorted (biased dim q keys bpf (lf_past layout) (m_keep_frames c) (m_keep_sink c) (m_keep_near c)) (Z.to_nat topk).

Lemma length_msa_key h : length (pk h) = Z.to_nat blocks.
Proof.
  destruct msa_frames as (Ekv & Eq & Hqf & Hfp). destruct (mc_config _ _ _ _ _ _ _ _ _ Hc) as (_ & Hbk & _). unfold msa_pooled_key, msa_pooled_part, lf_past, msa_blocks.
  pose proof (cdiv_spec fs (m_block_k c) Hbk). rewrite length_app, !length_mean_pool by nia. rewrite Ekv, Z.div_mul by lia.
  replace (nf * fs - (nf - query_frames layout) * fs) with (query_frames layout * fs) by lia. rewrite Z.div_mul by lia. nia.
Qed.

Lemma length_msa_query h : length (pq h) = Z.to_nat (cdiv (c_q_len call) bm).
Proof.
  destruct (mc_config _ _ _ _ _ _ _ _ _ Hc) as (Hbq & _). destruct (mc_past _ _ _ _ _ _ _ _ _ Hc). unfold msa_pooled_query. rewrite length_mean_pool, Z.div_same by lia. by rewrite Z.mul_1_l.
Qed.

Lemma content_row_ok q h : content_row c dim (lf_past layout) bpf (Z.to_nat topk) q (pk h) = Ok (rank q (pk h)).
Proof.
  destruct msa_frames as (Ekv & Eq & Hqf & Hfp). destruct (mc_config _ _ _ _ _ _ _ _ _ Hc) as (_ & Hbk & _ & Hks & Hkn & Hkf & _).
  pose proof (length_msa_key h) as Hl. unfold msa_blocks in Hl. unfold content_row, rank, biased, eligible. destruct (Z.ltb_spec (m_keep_frames c) (lf_past layout)) as [Hp|Hp]; bind_step.
  - rewrite (select_middle_Ok dim q (pk h) bpf nf (lf_past layout) (m_keep_frames c) (m_keep_sink c) (m_keep_near c)); [|by apply bpf_pos|done|done|done|done|unfold lf_past; lia|lia|done].
    bind_step. by rewrite imap_fmap.
  - do 2 f_equal. generalize (pk h) as l. intros l. induction l as [|x l IH]; [done|]. csimpl. by rewrite IH.
Qed.

Lemma topk_bounds : 1 <= kept <= topk /\ topk <= blocks.
Proof.
  destruct msa_frames as (Ekv & Eq & Hqf & Hfp). destruct (mc_config _ _ _ _ _ _ _ _ _ Hc) as (_ & Hbk & _ & Hks & Hkn & Hkf & _). pose proof (bpf_pos fs (m_block_k c) Hfp Hbk).
  unfold msa_kept, step_topk. assert (1 <= topk <= blocks); [|lia]. unfold content_topk, msa_blocks. assert (1 <= nf * bpf) by nia.
  assert (1 <= (m_keep_frames c + m_keep_sink c + m_keep_near c + query_frames layout) * bpf) by nia. case_match; lia.
Qed.

Lemma rank_facts q h : NoDup (rank q (pk h)) /\ rank q (pk h) ⊆ zrange 0 blocks /\ length (rank q (pk h)) = Z.to_nat topk.
Proof.
  pose proof topk_bounds as [? ?]. set (l := biased dim q (pk h) bpf (lf_past layout) (m_keep_frames c) (m_keep_sink c) (m_keep_near c)).
  assert (length l = Z.to_nat blocks) as Hl by (unfold l, biased; rewrite length_imap; apply length_msa_key).
  destruct (rank_nodup l (Z.to_nat topk)) as [Hnd Hsub]. rewrite Hl, Z2Nat.id in Hsub by lia. split_and!; [done|done|]. apply rank_length. fold l. rewrite Hl. lia.
Qed.

Definition the_lut : list (list (list Z)) := (fun h => (fun q => rank q (pk h)) <$> pq h) <$> content.

Lemma content_lut_ok s' : ms_config s' = c -> ms_schedule s' = ms_schedule s \/ ms_schedule s' = sched -> ms_history s' = ms_history s ->
  exists l hist, content_lut call layout content s' = Ok (the_lut, topk, blocks, put_ms_history hist (put_ms_schedule l s')).
Proof.
  intros Ec Es Eh. destruct (call_density_again s' Ec Es) as [l Ed]. destruct msa_split_facts as (_ & _ & Hcont & _). destruct (mc_miss _ _ _ _ _ _ _ _ _ Hc) as (_ & _ & Hmiss & _).
  destruct msa_frames as (Ekv & Eq & Hqf & Hfp). unfold content_lut. rewrite Ed. bind_step. rewrite Ec. cbn [put_ms_schedule ms_history]. unfold cache_get. rewrite Eh, Hmiss.
  exists l. eexists. cbv zeta. rewrite (mapM_Ok _ (fun h => (fun q => rank q (pk h)) <$> pq h)).
  - bind_step. done.
  - intros h Hh. destruct (Hcont h Hh) as [_ Hlt]. rewrite lookup_zip_with, !list_lookup_fmap, !lookup_seq_lt by done. cbn [fmap option_fmap option_map or_raise]. bind_step.
    cbn [mbind option_bind or_raise]. bind_step. apply mapM_Ok. intros q _. apply content_row_ok.
Qed.

Local Abbreviation lo := (frame_aligned_block_bounds nf fs (m_block_k c)).1.
Local Abbreviation hi := (frame_aligned_block_bounds nf fs (m_block_k c)).2.

Definition first_mask : list (list (list bool)) :=
  (fun h : list (list Z) => (fun row => scatter_true (Z.to_nat blocks) (take (Z.to_nat kept) row)) <$> h) <$> the_lut.

Lemma first_mask_at i h qb q : content !! i = Some h -> pq h !! qb = Some q -> mask_at first_mask i qb = scatter_true (Z.to_nat blocks) (take (Z.to_nat kept) (rank q (pk h))).
Proof. intros Hi Hq. unfold mask_at, first_mask, the_lut. rewrite !list_lookup_fmap, Hi. cbn [fmap option_fmap option_map mbind option_bind]. rewrite !list_lookup_fmap, Hq. done. Qed.

Lemma msa_segmented : content <> [] -> segmented (length content) (Z.to_nat (cdiv (c_q_len call) bm)) (Z.to_nat blocks) first_mask (Shared lo) (Shared hi) (c_kv_len call).
Proof.
  intros Hne. destruct msa_frames as (Ekv & Eq & Hqf & Hfp). destruct (mc_config _ _ _ _ _ _ _ _ _ Hc) as (Hbq & Hbk & _). pose proof (bpf_pos fs (m_block_k c) Hfp Hbk) as Hbpf.
  destruct (mc_past _ _ _ _ _ _ _ _ _ Hc) as [Hq0 _]. pose proof (cdiv_spec (c_q_len call) bm Hbq). unfold msa_blocks in *.
  assert (length lo = Z.to_nat (nf * bpf)) as Hlo by (apply length_aligned_lo; lia). split.
  - split_and!; [unfold first_mask, the_lut; by rewrite !length_fmap| |destruct content; [done|cbn; lia]|nia].
    apply Forall_fmap, Forall_fmap, Forall_true. intros h. cbn. split; [rewrite !length_fmap; apply length_msa_query|]. apply Forall_fmap, Forall_true. intros row. cbn. by rewrite length_scatter_true.
  - exact Hlo.
  - cbn. rewrite length_fmap, length_app, length_tl. cbn. change (frame_aligned_block_lo nf fs (m_block_k c)) with lo. rewrite Hlo. nia.
  - done.
  - nia.
  - intros h _. rewrite Ekv. apply aligned_segments; lia.
Qed.

Lemma content_row_keys i h m : content !! i = Some h -> 0 <= m < c_q_len call ->
  mask_keys first_mask (Shared lo) (Shared hi) i (Z.to_nat (m / bm)) (c_kv_len call) =
    filter (fun n => content_reads c call layout density h m n = true) (zrange 0 (c_kv_len call)) /\
  filter (fun n => content_reads c call layout density h m n = true) (zrange 0 (c_kv_len call)) <> [].
Proof.
  intros Hi Hm. destruct msa_frames as (Ekv & Eq & Hqf & Hfp). destruct (mc_config _ _ _ _ _ _ _ _ _ Hc) as (Hbq & Hbk & _). pose proof (bpf_pos fs (m_block_k c) Hfp Hbk) as Hbpf.
  pose proof (block_in c (c_q_len call) Hbq m Hm) as Hqb. destruct (lookup_lt_is_Some_2 (pq h) (Z.to_nat (m / bm))) as [q Hq]; [rewrite length_msa_query; lia|].
  destruct (rank_facts q h) as (Hnd & Hsub & Hlen). pose proof topk_bounds as [Hkt Htb]. set (row := rank q (pk h)) in *.
  assert (forall n, content_reads c call layout density h m n = bool_decide (token_aligned_block fs (m_block_k c) n ∈ take (Z.to_nat kept) row)) as Hreads.
  { intros n. unfold content_reads, msa_ranking. rewrite Hq. cbn [default]. rewrite content_row_ok. done. }
  assert (forall n, 0 <= n < nf * fs -> 0 <= token_aligned_block fs (m_block_k c) n < blocks) as Htok.
  { intros n Hn. unfold token_aligned_block, msa_blocks. pose proof (cdiv_spec fs (m_block_k c) Hbk). pose proof (Z.mod_pos_bound n fs Hfp). pose proof (Z.div_mod n fs).
    assert (0 <= n / fs < nf) by (split; [apply Z.div_pos; lia|apply Z.div_lt_upper_bound; lia]).
    assert (0 <= n mod fs / m_block_k c < bpf) by (split; [apply Z.div_pos; lia|apply Z.div_lt_upper_bound; nia]). nia. }
  split.
  - unfold mask_keys. rewrite (first_mask_at i h _ q Hi Hq). fold row. apply filter_ext_in. intros n Hn%elem_of_zrange. rewrite Hreads.
    rewrite (aligned_selected nf fs (m_block_k c)) by (lia || by rewrite length_scatter_true). unfold nthb. pose proof (Htok n ltac:(lia)).
    rewrite scatter_true_lookup by lia. cbn [default from_option id]. rewrite !bool_decide_eq_true, list_elem_of_fmap. split.
    + intros (z & Ez & Hz). assert (z ∈ zrange 0 blocks) as Hzr%elem_of_zrange by (apply Hsub; rewrite <- (take_drop (Z.to_nat kept) row); apply elem_of_app; by left).
      by replace (token_aligned_block fs (m_block_k c) n) with z by lia.
    + intros Hin. eauto.
  - assert (exists z, z ∈ take (Z.to_nat kept) row) as [z Hz].
    { destruct (take (Z.to_nat kept) row) as [|z l] eqn:E; [|exists z; constructor]. apply (f_equal length) in E. rewrite length_take in E. cbn in E. lia. }
    assert (z ∈ zrange 0 blocks) as Hzr%elem_of_zrange by (apply Hsub; rewrite <- (take_drop (Z.to_nat kept) row); apply elem_of_app; by left). unfold msa_blocks in Hzr.
    pose proof (Z.div_mod z bpf ltac:(lia)). pose proof (Z.mod_pos_bound z bpf Hbpf). set (f := z / bpf) in *. set (b := z mod bpf) in *.
    assert (0 <= f < nf) by (split; [apply Z.div_pos; lia|]; apply Z.div_lt_upper_bound; lia). pose proof (cdiv_spec fs (m_block_k c) Hbk). intros E.
    assert (f * fs + b * m_block_k c ∈ ([] : list Z)) as Hin; [|by apply not_elem_of_nil in Hin]. rewrite <- E. apply list_elem_of_filter. split; [|apply elem_of_zrange; nia].
    rewrite Hreads. apply bool_decide_eq_true. assert (token_aligned_block fs (m_block_k c) (f * fs + b * m_block_k c) = z) as ->; [|done].
    unfold token_aligned_block. replace (f * fs + b * m_block_k c) with (b * m_block_k c + f * fs) by lia.
    rewrite Z.div_add, Z_mod_plus_full, Z.mod_small, (Z.div_small (b * m_block_k c) fs), Z.div_mul by nia. lia.
Qed.

Lemma content_part_ok s' out fr : ms_config s' = c -> ms_schedule s' = ms_schedule s \/ ms_schedule s' = sched -> ms_history s' = ms_history s ->
  content_cache s' = content_cache s -> content_ids s' = content_ids s ->
  exists out' fr' s2, msa_content_part garbage order call layout content out fr s' = Ok (out', fr', s2) /\
    (forall key, key.2 ∉ content -> out' !! key = out !! key) /\
    forall b m h, (b < c_batch call)%nat -> 0 <= m < c_q_len call -> h ∈ content ->
      out' !! (b, m, h) = Some (attend_keys dim (logit b m h) (fun n => value call b n h)
        (filter (fun n => content_reads c call layout density h m n = true) (zrange 0 (c_kv_len call)))).
Proof.
  intros Ec Es Eh Ecc Eci. destruct (decide (content = [])) as [E0|Hne].
  { rewrite E0. eexists _, _, _. split; [done|]. split; [done|]. intros b m h _ _ Hin. by apply not_elem_of_nil in Hin. }
  destruct (content_lut_ok s' Ec Es Eh) as (l & hist & El). destruct (mc_miss _ _ _ _ _ _ _ _ _ Hc) as (_ & Hmc & _ & Hmi). destruct msa_split_facts as (_ & Hnd & _ & _ & _).
  destruct (mc_config _ _ _ _ _ _ _ _ _ Hc) as (Hbq & _). set (p := step_plan garbage c layout the_lut blocks kept).
  assert (exists rest trest cache s0, content_plan garbage call layout content s' = Ok ((p :: rest, kept :: trest, blocks, 0), put_content cache s0) /\
    ms_config s0 = c /\ content_ids s0 = content_ids s) as (rest & trest & cache & s0 & Ep & Ec0 & Eci0).
  { unfold content_plan. unfold cache_get at 1 2 3. rewrite Ecc, Hmc. rewrite El. bind_step. rewrite Ec. unfold p, msa_kept, first_scale.
    destruct (step_density_scale c) as [|x xs]; cbn [head default fmap list_fmap from_option id];
      eexists _, _, _, (put_ms_history hist (put_ms_schedule l s')); (split; [done|]); cbn; by rewrite Ec, Eci. }
  set (out' := msa_content_attention order out (c_batch call) (c_q_len call) dim (query call) (key call) (value call) content (range_starts p) (range_ends p) (range_counts p) bm (softmax_scale call)).
  assert (exists fr' s2, msa_content_part garbage order call layout content out fr s' = Ok (out', fr', s2)) as (fr' & s2 & Epart).
  { unfold msa_content_part. rewrite Ep. unfold out'. generalize p as p'. intros p'. destruct content as [|x xs]; [done|]. bind_step. cbn [put_content ms_base content_ids ms_config length].
    assert (forall a : bool, (if a then 0 else Z.min 0 (Z.of_nat (S (length rest)) - 1)) = 0) as Ez by (intros []; lia). rewrite Ez. cbn [Z.to_nat lookup list_lookup or_raise]. bind_step.
    rewrite Eci0, Hmi. cbn [put_ids put_content ms_config]. rewrite Ec0. eauto. }
  exists out', fr', s2. split; [exact Epart|]. clear Epart.
  assert (out' =
    foldl (fun m pid => store_out m (group_prog content (c_q_len call) bm (fun pid_m batch group offs =>
      range_row RANGE_BLOCK_N dim (nmul (softmax_scale call) LOG2_E) (fun n => key call batch n (default 0%nat (content !! group))) (fun n => value call batch n (default 0%nat (content !! group))) None
        (kept_ranges p group pid_m) (query call batch offs (default 0%nat (content !! group)))) pid)) out (order (grid2 (Z.to_nat (cdiv (c_q_len call) bm)) (c_batch call * length content)))) as ->.
  { unfold out', msa_content_attention. apply launch_ext. by intros []. }
  split; [intros key Hk; by apply group_launch_other|]. intros b m h Hb Hm (i & Hi)%list_elem_of_lookup.
  rewrite (group_launch _ (c_q_len call) bm _ order Hord (c_batch call) out Hnd Hbq i h b m Hi Hb Hm). f_equal. rewrite Hi. cbn [default from_option id].
  destruct (content_row_keys i h m Hi Hm) as [Hkeys Hnz]. rewrite range_row_spec by (unfold RANGE_BLOCK_N; lia).
  pose proof (segmented_keys garbage _ _ _ _ _ _ _ bm (@None (list (list F))) (msa_segmented Hne) i (Z.to_nat (m / bm)) (lookup_lt_Some _ _ _ Hi)) as Hsk.
  change (plan_from_segment_mask garbage first_mask (Shared lo) (Shared hi) bm None) with p in Hsk.
  rewrite Hsk by (pose proof (block_in c (c_q_len call) Hbq m Hm); lia). rewrite Hkeys, decide_False by done. done.
Qed.

Lemma split_heads_ok (s' : state) : taxonomy s' = taxonomy s -> layer_split s' = layer_split s ->
  exists m, split_heads (layer_index call) (head_start call) nh s' = Ok ((static, content), put_split m s').
Proof.
  intros Et El. destruct (mc_split _ _ _ _ _ _ _ _ _ Hc) as [Es Hor]. unfold split_heads. rewrite El, Et. destruct Hor as [E|E].
  - rewrite E, Es. bind_step. by eexists.
  - exists (layer_split s'). unfold head_split in *. rewrite E. by destruct s'.
Qed.

Lemma lightforcing_gate : exists l, (if bool_decide (content_schedule c = "lightforcing"%string) then d ← call_density layout s; Ok (nleb none d.1, d.2) else Ok (false, s)) =
  Ok (false, put_ms_schedule l s) /\ (l = ms_schedule s \/ l = sched).
Proof.
  destruct (mc_density _ _ _ _ _ _ _ _ _ Hc) as [Ed Hlt]. case_bool_decide as E.
  - rewrite Ed. bind_step. cbn [fst snd]. rewrite Hlt by done. eauto.
  - exists (ms_schedule s). split; [by destruct s|by left].
Qed.

End call.

(** C4: On a call that plans, every local head of the layer gets
    exact softmax attention over the keys its family promises: the rows within
    its radius, the newest frames, every k-th history frame and the own ones,
    or the best-ranked key blocks; the two kernels together write the whole
    output and do not disturb each other, in whatever order the programs run. *)
Theorem msa_attends garbage (order : list (nat * nat) -> list (nat * nat)) call s layout g segs density sched static content :
  (forall l, order l ≡ₚ l) -> msa_call call s layout g segs density sched static content ->
  exists out s', msa_attend garbage order call s = Ok (Some out, s') /\
  forall b m h, (b < c_batch call)%nat -> 0 <= m < c_q_len call -> (h < num_local_heads call)%nat ->
  exists spec, taxonomy s !! head_key (layer_index call) (head_start call + Z.of_nat h) = Some spec /\
    out !! (b, m, h) = Some (attend_keys (Z.to_nat (head_dim call)) (block_logit (query call) (key call) (softmax_scale call) b m h) (fun n => value call b n h)
      (filter (fun n => msa_reads (ms_config s) g call layout density spec h m n = true) (zrange 0 (c_kv_len call)))).
Proof.
  intros Hord Hc. destruct (lightforcing_gate _ _ _ _ _ _ _ _ _ Hc) as (l & Egate & Hl). pose proof (msa_split_facts _ _ _ _ _ _ _ _ _ Hc) as (_ & _ & Hdisj & _ & Hall).
  pose proof Hc as [HL _ Hpast (Hgeo & _ & _ & Hgrid) _ _ _ (_ & _ & _ & _ & _ & _ & Hnh) _]. set (s1 := put_ms_schedule l s).
  destruct (split_heads_ok _ _ _ _ _ _ _ _ _ Hc s1 eq_refl eq_refl) as [spl Espl]. set (s2 := put_split spl s1) in *.
  destruct (static_part_ok order Hord _ _ _ _ _ _ _ _ _ Hc s2 eq_refl eq_refl Hgeo) as (out & fr & cache & Est & Hst). set (s3 := put_static cache s2) in *.
  destruct (content_part_ok garbage order Hord _ _ _ _ _ _ _ _ _ Hc s3 out fr eq_refl Hl eq_refl eq_refl eq_refl) as (out' & fr' & s4 & Ect & Hother & Hct).
  eexists out', _. split.
  - unfold msa_attend. rewrite HL. bind_step. cbn [fst snd]. assert (put_ms_base (ms_base s) s = s) as -> by (by destruct s).
    destruct (Z.leb_spec (c_kv_len call) (c_q_len call)); [lia|]. rewrite Hgeo. cbn [or_raise]. bind_step. rewrite Hgrid, Z.eqb_refl. cbn [negb]. rewrite Egate. bind_step.
    fold s1. rewrite Espl. bind_step. rewrite Est. bind_step. rewrite Ect. bind_step. destruct (Nat.eqb_spec (num_local_heads call) 0); [lia|]. done.
  - intros b m h Hb Hm Hh. destruct (Hall h Hh) as (spec & El & Hin). exists spec. split; [done|]. unfold msa_reads. destruct (is_static spec).
    + rewrite Hother; [by apply Hst|]. cbn. intros Hcon. destruct (Hdisj h Hcon) as [Hns _]. apply Hns. apply list_elem_of_fmap. by exists (h, spec).
    + by apply Hct.
Qed.

(** The cap on the kept blocks counts the sink and
    the near window on top of the frame budget that already includes them: when
    the density asks for the cap, every row keeps blocks outside its eligible
    frames, whose score is minus infinity. *)
Theorem msa_cap_admits_ineligible (c : MsaConfig F) dim (q : list F) pooled_key layout (density : F) :
  let bpf := cdiv (frame_seqlen layout) (m_block_k c) in
  let nf := num_frames layout in
  let past := nf - query_frames layout in
  let cap := m_keep_frames c + m_keep_sink c + m_keep_near c + query_frames layout in
  0 < frame_seqlen layout -> 0 < m_block_k c -> length pooled_key = Z.to_nat (nf * bpf) -> 0 <= query_frames layout ->
  0 <= m_keep_sink c -> 0 <= m_keep_near c -> m_keep_sink c + m_keep_near c <= m_keep_frames c -> m_keep_frames c < past ->
  0 < m_keep_sink c + m_keep_near c -> 0 < cap <= nf -> cap * bpf <= ntrunc (nmul density (of_Z (nf * bpf))) ->
  content_topk c layout density = cap * bpf /\
  exists row middle, content_row c dim past bpf (Z.to_nat (cap * bpf)) q pooled_key = Ok row /\
    select_middle_frames q (frame_means bpf dim pooled_key) past (m_keep_frames c) (m_keep_sink c) (m_keep_near c) = Ok middle /\
    exists i, i ∈ row /\ eligible_frame past (m_keep_sink c) (m_keep_near c) middle (i / bpf) = false.
Proof.
  intros bpf nf past cap Hfs Hbk Hl Hqf Hks Hkn Hkf Hp Hpos Hcap Hd. pose proof (bpf_pos _ _ Hfs Hbk) as Hb. fold bpf in Hb. assert (cap * bpf <= nf * bpf) as Hle by nia. split.
  { unfold content_topk. fold bpf nf past. destruct (Z.ltb_spec (m_keep_frames c) past); [|lia]. fold cap. lia. }
  set (middle := middle_frames dim q pooled_key bpf past (m_keep_frames c) (m_keep_sink c) (m_keep_near c)).
  assert (select_middle_frames q (frame_means bpf dim pooled_key) past (m_keep_frames c) (m_keep_sink c) (m_keep_near c) = Ok middle) as Em.
  { apply (select_middle_Ok dim q pooled_key bpf nf); done || (unfold past; lia). }
  unfold content_row. destruct (Z.ltb_spec (m_keep_frames c) past); [|lia]. bind_step. rewrite Em. bind_step. eexists _, middle. split; [done|]. split; [done|].
  set (scores := imap _ _). set (row := topk_sorted scores (Z.to_nat (cap * bpf))). assert (length scores = Z.to_nat (nf * bpf)) as Hsl by (unfold scores; by rewrite length_imap, length_fmap).
  destruct (rank_nodup scores (Z.to_nat (cap * bpf))) as [Hnd Hsub]. assert (length row = Z.to_nat (cap * bpf)) as Hrl by (apply rank_length; rewrite Hsl; lia). fold row in Hnd, Hsub.
  destruct (decide (Exists (fun i => eligible_frame past (m_keep_sink c) (m_keep_near c) middle (i / bpf) = false) row)) as [(i & Hi & E)%Exists_exists|Hno]; [eauto|]. exfalso.
  assert (row ⊆+ eligible_blocks dim q pooled_key bpf nf past (m_keep_frames c) (m_keep_sink c) (m_keep_near c)) as Hsm%submseteq_length.
  { apply NoDup_submseteq; [done|]. intros i Hi. rewrite elem_of_eligible_blocks by (done || lia). pose proof (Hsub i Hi) as Hr%elem_of_zrange. split; [lia|].
    unfold eligible. destruct (Z.ltb_spec (m_keep_frames c) past); [|lia]. fold middle. apply not_false_iff_true. intros E. apply Hno, Exists_exists. eauto. }
  assert (Z.of_nat (length (eligible_blocks dim q pooled_key bpf nf past (m_keep_frames c) (m_keep_sink c) (m_keep_near c))) = (m_keep_frames c + (nf - past)) * bpf) as Hc
    by (apply eligible_blocks_count; done || (unfold past; lia)).
  unfold past, cap in *. nia.
Qed.

Lemma cache_get_put {Sig V} `{EqDecision Sig} (cache : LayoutCache Sig V) layer sg v : cache_get (cache_put cache layer sg v) layer sg = Some v.
Proof.
  unfold cache_get, cache_put, LayoutCache in *. assert (<[layer := (sg, v)]> cache !! layer = Some (sg, v)) as E by apply lookup_insert_eq.
  destruct (<[layer := (sg, v)]> cache !! layer) as [[sg' v']|]; [|done]. injection E as -> ->. by rewrite decide_True.
Qed.

Lemma cache_get_put_ne {Sig V} `{EqDecision Sig} (cache : LayoutCache Sig V) layer layer' sg sg' v : layer' <> layer ->
  cache_get (cache_put cache layer' sg' v) layer sg = cache_get cache layer sg.
Proof. intros Hne. unfold cache_get, cache_put, LayoutCache in *. assert (<[layer' := (sg', v)]> cache !! layer = cache !! layer) as E by (by apply lookup_insert_ne). by rewrite E. Qed.

(** The entry of a layer: its settings and the block choice it has cached. *)
Definition has_entry (c : MsaConfig F) layer (sg : option KeySegments * Z) plans topks blocks n (s : state) : Prop :=
  ms_config s = c /\ exists calls, n <= calls /\ cache_get (content_cache s) layer sg = Some (plans, topks, blocks, calls).

(** Calls of the layer see the same keys, or run dense because they have no
    history; calls of other layers are free. *)
Definition same_keys layer (sg : option KeySegments * Z) (e : backend_event F) : Prop :=
  match e with
  | Attending call => layer_index call = layer -> (key_segments call, c_kv_len call) = sg \/ c_kv_len call <= c_q_len call
  | _ => True
  end.

Section kept.
Context (garbage : nat) (order : list (nat * nat) -> list (nat * nat)) (c : MsaConfig F) (layer : Z) (sg : option KeySegments * Z).
Context (plans : list (SparseAttentionPlan F)) (topks : list Z) (blocks n : Z).
Context (Hr : replan_each_step c = false) (Hi : replan_interval c = 0).
Local Abbreviation entry := (has_entry c layer sg plans topks blocks n).

Lemma entry_same s s' : ms_config s' = ms_config s -> content_cache s' = content_cache s -> entry s -> entry s'.
Proof. intros E1 E2 [Ec Hc]. split; [congruence|]. by rewrite E2. Qed.

(** Planning with the same keys reuses the entry and counts the call. *)
Lemma content_plan_hit call layout content s : entry s -> layer_index call = layer -> (key_segments call, c_kv_len call) = sg ->
  exists calls s', n <= calls /\ content_plan garbage call layout content s = Ok ((plans, topks, blocks, calls), s') /\ entry s'.
Proof.
  intros (Ec & calls & Hn & Eh) El Es. exists calls. unfold content_plan. rewrite Es, El, Ec, Hr, Hi. rewrite Eh. cbn [Z.ltb Z.compare andb orb].
  bind_step. eexists. split; [done|]. split; [reflexivity|]. split; [done|]. exists (calls + 1). split; [lia|]. cbn [put_content content_cache]. apply cache_get_put.
Qed.

Lemma call_density_entry layout s d s' : entry s -> call_density layout s = Ok (d, s') -> entry s'.
Proof.
  intros He E. unfold call_density in E. destruct (bool_decide _); [injection E as _ <-; done|]. apply bind_Ok_inv in E as (sch & _ & E). apply bind_Ok_inv in E as (x & _ & E). injection E as _ <-. by apply (entry_same s).
Qed.

Lemma content_lut_entry call layout content s lut topk kv s' : entry s -> content_lut call layout content s = Ok (lut, topk, kv, s') -> entry s'.
Proof.
  intros He E. unfold content_lut in E. apply bind_Ok_inv in E as ([d s1] & Ed & E). pose proof (call_density_entry _ _ _ _ He Ed) as H1.
  destruct (cache_get (ms_history s1) _ _); apply bind_Ok_inv in E as (rows & _ & E); injection E as _ _ _ <-; [done|by apply (entry_same s1)].
Qed.

Lemma content_plan_other call layout content s r s' : entry s -> layer_index call <> layer -> content_plan garbage call layout content s = Ok (r, s') -> entry s'.
Proof.
  intros He Hne E. unfold content_plan in E. apply bind_Ok_inv in E as ([[[pl tk] nb] s1] & E1 & E). injection E as _ <-.
  assert (entry s1) as (Ec & calls & Hn & Eh).
  { revert E1. match goal with |- context [if ?b then _ else _] => destruct b end; intros E1.
    - apply bind_Ok_inv in E1 as ([[[lut topk] kv] s2] & El & E1). injection E1 as _ _ _ <-. by eapply content_lut_entry.
    - repeat case_match; try discriminate. by injection E1 as _ _ _ <-. }
  split; [done|]. exists calls. split; [done|]. cbn [put_content content_cache]. by rewrite cache_get_put_ne.
Qed.

Lemma msa_static_entry call layout static s r f s' : entry s -> msa_static_part order call layout static s = Ok (r, f, s') -> entry s'.
Proof.
  intros He E. unfold msa_static_part in E. destruct static as [|x static]; [injection E as _ _ <-; done|]. apply bind_Ok_inv in E as ([p s1] & Ep & E). injection E as _ _ <-.
  unfold static_plan in Ep. destruct (cache_get _ _ _); [by injection Ep as _ <-|]. apply bind_Ok_inv in Ep as (g & _ & Ep). apply bind_Ok_inv in Ep as (p' & _ & Ep). injection Ep as _ <-. by apply (entry_same s).
Qed.

Lemma msa_content_entry call layout content out f s r f' s' : entry s -> same_keys layer sg (Attending call) -> c_q_len call < c_kv_len call ->
  msa_content_part garbage order call layout content out f s = Ok (r, f', s') -> entry s'.
Proof.
  intros He Hk Hq E. unfold msa_content_part in E. destruct content as [|x content]; [injection E as _ _ <-; done|]. apply bind_Ok_inv in E as ([[[[pl tk] nb] n'] s1] & Ep & E).
  apply bind_Ok_inv in E as (p & _ & E). apply bind_Ok_inv in E as (k & _ & E). injection E as _ _ <-. apply (entry_same s1); [done|done|].
  destruct (decide (layer_index call = layer)) as [El|Hne]; [|by eapply content_plan_other].
  destruct (Hk El) as [Es|]; [|lia]. destruct (content_plan_hit call layout (x :: content) s He El Es) as (c' & s3 & _ & E3 & H3). rewrite Ep in E3. by injection E3 as _ _ _ _ ->.
Qed.

Lemma msa_attend_keeps call s r s' : entry s -> same_keys layer sg (Attending call) -> msa_attend garbage order call s = Ok (r, s') -> entry s'.
Proof.
  intros He Hk E. unfold msa_attend in E. apply bind_Ok_inv in E as ([l b] & _ & E). cbn [fst snd] in E. assert (entry (put_ms_base b s)) as H0 by (by apply (entry_same s)).
  destruct l as [layout|]; [|by injection E as _ <-]. destruct (Z.leb_spec (c_kv_len call) (c_q_len call)) as [|Hq]; [injection E as _ <-; by apply (entry_same s)|].
  apply bind_Ok_inv in E as (g & _ & E). destruct (negb _); [injection E as _ <-; by apply (entry_same s)|]. apply bind_Ok_inv in E as ([dense s1] & Ed & E).
  assert (entry s1) as H1.
  { destruct (bool_decide _); [|by injection Ed as _ <-]. apply bind_Ok_inv in Ed as ([d s2] & Ed & E2). injection E2 as _ <-. by eapply call_density_entry. }
  destruct dense; [injection E as _ <-; by apply (entry_same s1)|]. apply bind_Ok_inv in E as ([[static content] s2] & Es & E).
  assert (entry s2) as H2.
  { unfold split_heads in Es. destruct (layer_split s1 !! _); [by injection Es as _ <-|]. apply bind_Ok_inv in Es as (x & _ & Es). injection Es as _ <-. by apply (entry_same s1). }
  apply bind_Ok_inv in E as ([[out f] s3] & Est & E). pose proof (msa_static_entry _ _ _ _ _ _ _ H2 Est) as H3.
  apply bind_Ok_inv in E as ([[out' f'] s4] & Ect & E). pose proof (msa_content_entry _ _ _ _ _ _ _ _ _ H3 Hk Hq Ect) as H4.
  case_match; [done|]. injection E as _ <-. by apply (entry_same s4).
Qed.

Lemma msa_run_keeps es s s' : entry s -> Forall (same_keys layer sg) es -> backend_run ms_base put_ms_base msa_begin_forward (msa_attend garbage order) es s = Ok s' -> entry s'.
Proof.
  intros He Hes. revert s He. induction Hes as [|e es Hk Hes IH]; intros s He E; cbn in E; [by injection E as <-|]. apply bind_Ok_inv in E as (s1 & E1 & E). apply (IH s1); [|done].
  destruct e as [g|u|call]; cbn in E1; [injection E1 as <-; by apply (entry_same s)..|]. apply bind_Ok_inv in E1 as ([r s2] & E1 & [= <-]). by eapply msa_attend_keeps.
Qed.
End kept.

(** C39: Once a layer has planned its content heads with settings that never
    replan ([replan_each_step] off, [replan_interval] zero), a later call of the
    layer with the same key segments and length reuses that block choice
    without looking at its own queries and keys, whatever forwards, refreshes
    and calls came in between, a new video included, as long as no call of the
    layer with history had other keys: starting a forward clears nothing. *)
Theorem msa_keeps_old_plan garbage order call call' layout layout' content content' (s s1 s2 : state) plans topks blocks calls es :
  content_plan garbage call layout content s = Ok ((plans, topks, blocks, calls), s1) ->
  replan_each_step (ms_config s1) = false -> replan_interval (ms_config s1) = 0 ->
  Forall (same_keys (layer_index call) (key_segments call, c_kv_len call)) es ->
  backend_run ms_base put_ms_base msa_begin_forward (msa_attend garbage order) es s1 = Ok s2 ->
  layer_index call' = layer_index call -> key_segments call' = key_segments call -> c_kv_len call' = c_kv_len call ->
  exists calls' s3, calls < calls' /\ content_plan garbage call' layout' content' s2 = Ok ((plans, topks, blocks, calls'), s3).
Proof.
  intros E Hr Hi Hes Hrun El Ek Ekv. assert (has_entry (ms_config s1) (layer_index call) (key_segments call, c_kv_len call) plans topks blocks (calls + 1) s1) as He.
  { unfold content_plan in E. apply bind_Ok_inv in E as ([[[pl tk] nb] s0] & _ & E). injection E as -> -> -> Ecalls <-. split; [done|]. rewrite Ecalls. exists (calls + 1). split; [lia|]. cbn [put_content content_cache]. apply cache_get_put. }
  pose proof (msa_run_keeps garbage order _ _ _ _ _ _ _ Hr Hi es s1 s2 He Hes Hrun) as He2.
  destruct (content_plan_hit garbage _ _ _ _ _ _ _ Hr Hi call' layout' content' s2 He2 El ltac:(congruence)) as (calls' & s3 & Hn & E3 & _). exists calls', s3. split; [lia|done].
Qed.

End claims.

(** ** Concrete runs *)

Lemma query_spans_terminate_witness : exists rs, within_frame_query_spans 1 6 16 8 = Ok rs /\ rs = [(6, 8); (0, 4)] /\ in_ranges rs 2 = true.
Proof.
  destruct (query_spans_terminate 1 6 16 8 ltac:(lia) ltac:(lia) ltac:(lia)) as (rs & E & _ & Hcov & _). exists rs. split; [exact E|]. split.
  - vm_compute in E. by injection E as <-.
  - apply Hcov. exists 10. split; [lia|reflexivity].
Defined.

Lemma local_ranges_window_witness : exists rs, local_ranges 1 0 6 16 (2 * 4) 2 4 = Ok rs /\ rs = [(0, 8)] /\ (length rs <= 2)%nat.
Proof.
  destruct (local_ranges_window 1 0 6 16 2 4 ltac:(lia) ltac:(lia) ltac:(lia) ltac:(lia) ltac:(lia)) as (rs & E & Hl & _). exists rs.
  split; [exact E|]. split; [|exact Hl]. vm_compute in E. by injection E as <-.
Defined.

Section runs.
#[local] Existing Instance NumExp_one.
#[local] Existing Instance NumExpLaws_one.
#[local] Instance option_rank : TorchRank (option Qc) := {| topk_sorted l k := take k (sorted_indices (oleb nleb) l) |}.

Lemma oleb_total (x y : option Qc) : oleb nleb x y = true \/ oleb nleb y x = true.
Proof. destruct x, y; cbn [oleb]; auto. apply nle_total. Qed.

Lemma oleb_trans (x y z : option Qc) : oleb nleb x y = true -> oleb nleb y z = true -> oleb nleb x z = true.
Proof. destruct x, y, z; cbn [oleb]; try done. apply nle_trans. Qed.

#[local] Instance option_rank_laws : TorchRankLaws (option Qc) (oleb nleb).
Proof.
  pose proof (topk_order_laws (oleb nleb) oleb_total oleb_trans) as [H1 H2 H3]. split; [exact H1|exact H2|exact H3|].
  intros l k. cbn [topk_sorted option_rank]. pose proof (sorted_indices_sorted (oleb nleb) oleb_total oleb_trans l) as Hs.
  revert k. induction Hs as [|x xs Hs IH Hx]; intros [|k]; cbn; try constructor; [by apply IH|]. rewrite Forall_forall in *. intros y Hy. apply Hx. rewrite <- (take_drop k xs). apply elem_of_app. by left.
Qed.

(** A layer with a head of each family, four frames of a 4 x 4 grid. *)
Definition mx_taxonomy : gmap string HeadSpec :=
  list_to_map [("L00_h0", mkSpec "local" 1 0); ("L00_h1", mkSpec "shortwin" 0 1); ("L00_h2", mkSpec "diffuse" 0 0); ("L00_h3", mkSpec "content" 0 0)]%string.
Definition mx_config : MsaConfig Qc :=
  mkMsaConfig "taxonomy.json" (Q2Qc (1 # 2)%Q) (Q2Qc (1 # 2)%Q) 16 16 1 1 0 false 0 [] "constant" None (Q2Qc (1 # 20)%Q) (-1) 0%Qc 0%Qc 0 (-1).
Definition mx_tensor : tensor4 Qc := fun _ n _ => replicate 16 (of_Z n).
Definition mx_call : SparseAttentionCall Qc := mkCall 0 mx_tensor mx_tensor mx_tensor 1 16 64 16 (Some [(0, 64)]) 0 4 1%Qc None.
Definition mx_layout : VisibleLayout := mkLayout [0; 1; 2; 3] [-3; -2; -1; 0] [0; 1; 2; 3] 16 1 1 3.
Definition mx_geometry : ChunkGeometry := mkGeometry 16 1 48 4 4.
Definition mx_state : msa_state Qc := mkMsa (set_geometry mx_geometry base_init) mx_config mx_taxonomy ∅ ∅ ∅ ∅ None ∅.
Definition mx_static : list (nat * HeadSpec) := [(0%nat, mkSpec "local" 1 0); (1%nat, mkSpec "shortwin" 0 1); (2%nat, mkSpec "diffuse" 0 0)]%string.

Lemma mx_planned : msa_call mx_call mx_state mx_layout mx_geometry [(0, 64)] (Q2Qc (1 # 2)%Q) None mx_static [3%nat].
Proof.
  split; [vm_compute; reflexivity|split; [done|repeat constructor; cbn; lia]|cbn; lia|split; [done|cbn; lia]|split; [reflexivity|done]
    |split; [vm_compute; reflexivity|left; reflexivity]|done|cbn; split_and!; (lia || done)|].
  intros h spec Hin. unfold mx_static in Hin. repeat (apply elem_of_cons in Hin as [[= -> ->]|Hin]; [cbn; lia|]). by apply not_elem_of_nil in Hin.
Qed.

Lemma msa_attends_witness : exists out s', msa_attend 0 id mx_call mx_state = Ok (Some out, s') /\
  out !! (0%nat, 5, 1%nat) = Some (attend_keys 16 (block_logit mx_tensor mx_tensor 1%Qc 0 5 1) (fun n => mx_tensor 0%nat n 1%nat)
    (filter (fun n => msa_reads mx_config mx_geometry mx_call mx_layout (Q2Qc (1 # 2)%Q) (mkSpec "shortwin" 0 1) 1 5 n = true) (zrange 0 64))).
Proof.
  destruct (msa_attends 0 id mx_call mx_state mx_layout mx_geometry [(0, 64)] (Q2Qc (1 # 2)%Q) None mx_static [3%nat] ltac:(done) mx_planned) as (out & s' & E & Hout).
  exists out, s'. split; [exact E|]. destruct (Hout 0%nat 5 1%nat ltac:(cbn; lia) ltac:(cbn; lia) ltac:(cbn; lia)) as (spec & Es & Ho).
  vm_compute in Es. injection Es as <-. exact Ho.
Defined.

Definition mx_other : SparseAttentionCall Qc :=
  mkCall 0 mx_tensor (fun _ n _ => replicate 16 (of_Z (64 - n))) mx_tensor 1 16 64 16 (Some [(0, 64)]) 0 4 1%Qc None.

(** A new video starts, its first chunk runs dense, and its second chunk sees
    other keys under the segments the old video had. *)
Definition mx_first : SparseAttentionCall Qc := mkCall 0 mx_tensor mx_tensor mx_tensor 1 16 16 16 (Some [(0, 16)]) 0 4 1%Qc None.
Definition mx_between : list (backend_event Qc) := [Forward (mkGeometry 16 1 0 4 4); Attending mx_first; Refreshing true; Attending mx_first; Refreshing false; Forward mx_geometry].

Lemma msa_keeps_old_plan_witness : exists plans topks blocks calls s1 s2, content_plan 0 mx_call mx_layout [3%nat] mx_state = Ok ((plans, topks, blocks, calls), s1) /\
  backend_run ms_base put_ms_base msa_begin_forward (msa_attend 0 id) mx_between s1 = Ok s2 /\
  exists calls' s3, calls < calls' /\ content_plan 0 mx_other mx_layout [3%nat] s2 = Ok ((plans, topks, blocks, calls'), s3).
Proof.
  destruct (content_plan 0 mx_call mx_layout [3%nat] mx_state) as [[[[[plans topks] blocks] calls] s1]|e] eqn:E; [|vm_compute in E; discriminate].
  assert (ms_config s1 = mx_config) as Ec by (vm_compute in E; injection E as _ _ _ _ <-; vm_compute; reflexivity).
  destruct (backend_run ms_base put_ms_base msa_begin_forward (msa_attend 0 id) mx_between s1) as [s2|e] eqn:E2; [|vm_compute in E; injection E as _ _ _ _ <-; vm_compute in E2; discriminate].
  exists plans, topks, blocks, calls, s1, s2. split; [reflexivity|]. split; [exact E2|].
  apply (msa_keeps_old_plan 0 id mx_call mx_other mx_layout mx_layout [3%nat] [3%nat] mx_state s1 s2 plans topks blocks calls mx_between); [exact E|by rewrite Ec|by rewrite Ec| |exact E2|done|done|done].
  assert (same_keys 0 (Some [(0, 64)], 64) (Attending mx_first)) as Hf by (intros _; right; cbn; lia).
  unfold mx_between. repeat (apply Forall_cons_2; [exact I || exact Hf|]). apply Forall_nil_2.
Defined.

Lemma msa_cap_admits_ineligible_witness : content_topk mx_config mx_layout 1%Qc = 3 /\
  exists row middle, content_row mx_config 1 3 1 3 [1%Qc] ((fun x => [of_Z x]) <$> [5; 2; 7; 1]) = Ok row /\
    exists i, i ∈ row /\ eligible_frame 3 1 0 middle i = false.
Proof.
  destruct (msa_cap_admits_ineligible mx_config 1 [1%Qc] ((fun x => [of_Z x]) <$> [5; 2; 7; 1]) mx_layout 1%Qc) as (E & row & middle & Er & _ & i & Hi & He);
    [cbn; (lia || done)..| |]; [vm_compute; intros [=]|].
  split; [exact E|]. exists row, middle. split; [exact Er|]. exists i. split; [exact Hi|]. vm_compute (cdiv _ _) in He. by rewrite Z.div_1_r in He.
Defined.

(** The static plan of a local head is cached without the grid: after a forward
    on a 2 x 8 grid, one on an 8 x 2 grid of the same frame length gets the
    windows of the first. *)
Definition mx_grid (gh gw : Z) (s : msa_state Qc) : msa_state Qc := put_ms_base (set_geometry (mkGeometry 16 1 48 gh gw) (ms_base s)) s.
Definition mx_windows (r : res (MsaStaticPlan Qc * msa_state Qc)) : list (list (list (Z * Z))) :=
  match r with Ok (p, _) => (fun h : list (list (Z * Z)) => take 1 <$> h) <$> sp_ranges p | Raise _ => [] end.

Example msa_static_plan_ignores_grid : exists p s1,
  static_plan 0 [(0%nat, mkSpec "local" 0 0)] mx_layout 4 (mx_grid 2 8 mx_state) = Ok (p, s1) /\
  mx_windows (static_plan 0 [(0%nat, mkSpec "local" 0 0)] mx_layout 4 (mx_grid 8 2 s1)) = [[[(0, 8)]]] /\
  mx_windows (static_plan 0 [(0%nat, mkSpec "local" 0 0)] mx_layout 4 (mx_grid 8 2 mx_state)) = [[[(0, 4)]]].
Proof.
  destruct (static_plan 0 [(0%nat, mkSpec "local" 0 0)] mx_layout 4 (mx_grid 2 8 mx_state)) as [[p s1]|e] eqn:E; [|vm_compute in E; discriminate].
  exists p, s1. vm_compute in E. injection E as <- <-. split; [reflexivity|]. split; vm_compute; reflexivity.
Qed.
End runs.
