(* ===== verification/Svg.v ===== *)
(** * Svg: Sparse VideoGen, spatial-temporal heads and semantic clusters

    Models [svg.py] of the sparse attention package.  SVG1 scores two masks per
    head against exact attention on sampled query blocks and runs the better
    one; SVG2 clusters the history keys, packs each cluster into a segment and
    keeps the clusters that reach the top-p mass.  Per-head tensors are lists
    by head.  Dense attention of the tensor library and the logarithm are
    parameters; [torch.linspace] is exact, and [argmin] and [argmax] return the
    first optimum, as documented. *)

From S2P Require Import Prelude Num SparsePlan SparseKernel SparseContext SparseBackend Sta Osa XAttention FastAr LightForcing.

Open Scope Z_scope.

(** [torch.linspace(0, last, n).long()]. *)
Definition linspace_long (last n : Z) : list Z :=
  if n =? 1 then [0] else (fun i => i * last / (n - 1)) <$> zrange 0 n.

(** [min()] and [max()] of a tensor of integers. *)
Definition zminimum (l : list Z) : option Z := match l with [] => None | x :: l => Some (foldr Z.min x l) end.
Definition zmaximum (l : list Z) : option Z := match l with [] => None | x :: l => Some (foldr Z.max x l) end.

Definition mask_entry (m : list (list bool)) (i j : Z) : bool := default false (m !! Z.to_nat i ≫= fun r => r !! Z.to_nat j).

Section svg.
Context {F : Type} `{NumExp F} `{!TorchOrder F}.
(** What uninitialised memory holds. *)
Context (garbage : nat).

Record Svg1Config := mkSvg1Config {
  s1_block : Z;
  band_frames : F;
  s1_dense_sink_frames : Z;
  num_sampled_blocks : Z;
  key_tile : Z }.

Record Svg2Config := mkSvg2Config {
  s2_block : Z;
  cluster_size : Z;
  kmeans_iters : Z;
  kmeans_warm_iters : Z;
  top_p : F }.

(** ** The masks of SVG1 *)

(** [int(band_frames * frame_seqlen) // block]. *)
Definition band_blocks (bands : F) (fs block : Z) : res Z := py_div (ntrunc (nmul bands (of_Z fs))) block.

(** The token-level masks; the temporal one is read in spatial-major order. *)
Definition svg1_token_masks (nf fs : Z) (bands : F) (sink block : Z) : res (list (list bool) * list (list bool)) :=
  let total := nf * fs in
  bb ← band_blocks bands fs block;
  let banded := (fun i => keep_leading (sink * fs) ((fun j => Z.abs (i / block - j / block) <? bb) <$> zrange 0 total)) <$> zrange 0 total in
  let before t := t mod fs * nf + t / fs in
  let permuted := (fun i => (fun j => mask_entry banded (before i) (before j)) <$> zrange 0 total) <$> zrange 0 total in
  Ok (banded, permuted).

Definition spatial_major_index (fs nf t : Z) : Z := t mod fs * nf + t / fs.

(** The keys are distinct for whole frames, so any sort gives this order. *)
Definition chunk_spatial_major_permutation (q_len fs : Z) : res (list Z) :=
  qf ← py_div q_len fs;
  Ok (np_argsort ((fun t => t mod fs * qf + t / fs) <$> zrange 0 q_len)).

(** Segments that overlap the tokens [a .. b). *)
Definition overlapping (seg_lo seg_hi : list Z) (a b : Z) : list bool := zip_with (fun lo hi => (a <? hi) && (lo <? b)) seg_lo seg_hi.

Definition spatial_row (seg_lo seg_hi : list Z) (block bb kv sink_tokens rlo rhi : Z) : list bool :=
  let row_block_min := rlo / block in
  let row_block_max := (rhi - 1) / block in
  let spatial := overlapping seg_lo seg_hi (Z.max 0 ((row_block_min - bb + 1) * block)) (Z.min kv ((row_block_max + bb) * block)) in
  let spatial := if 0 <? sink_tokens then zip_with orb spatial (overlapping seg_lo seg_hi 0 sink_tokens) else spatial in
  zip_with orb spatial (overlapping seg_lo seg_hi rlo rhi).

Definition temporal_row (seg_lo seg_hi : list Z) (tpf : nat) (fs nf block bb sink_tokens : Z) (rows : list Z) : res (list bool) :=
  let sm := spatial_major_index fs nf <$> rows in
  sm_min ← or_raise RuntimeError (zminimum sm);
  sm_max ← or_raise RuntimeError (zmaximum sm);
  let band_lo := Z.max 0 ((sm_min / block - bb + 1) * block) in
  let band_hi := Z.min (nf * fs) ((sm_max / block + bb) * block) in
  let within := zip (take tpf seg_lo) (Z.min fs <$> take tpf seg_hi) in
  let temporal := zrange 0 nf ≫= fun f =>
    let cell_lo := Z.max 0 ((band_lo - f + nf - 1) / nf) in
    let cell_hi := Z.min fs (Z.max 0 ((band_hi - f + nf - 1) / nf)) in
    let sink_hi := Z.max 0 ((sink_tokens - f + nf - 1) / nf) in
    (fun w : Z * Z => ((cell_lo <? w.2) && (w.1 <? cell_hi)) || ((0 <? sink_tokens) && (w.1 <? sink_hi))) <$> within in
  if bb <? 1 then
    row_min ← or_raise RuntimeError (zminimum rows);
    row_max ← or_raise RuntimeError (zmaximum rows);
    Ok (zip_with orb temporal (overlapping seg_lo seg_hi row_min (row_max + 1)))
  else Ok temporal.

Definition build_svg1_segment_masks (layout : VisibleLayout) (q_len kv : Z) (config : Svg1Config) :
    res (list (list bool) * list (list bool) * list Z) :=
  let block := s1_block config in
  let fs := frame_seqlen layout in
  let nf := num_frames layout in
  bb ← band_blocks (band_frames config) fs block;
  let offset := kv - q_len in
  let sink_tokens := Z.min (s1_dense_sink_frames config) nf * fs in
  if key_tile config =? 0 then Raise ZeroDivisionError
  else
    let '(seg_lo, seg_hi) := frame_aligned_block_bounds nf fs (key_tile config) in
    let tpf := Z.to_nat (cdiv fs (key_tile config)) in
    permutation ← chunk_spatial_major_permutation q_len fs;
    let '(q_lo, q_hi) := block_bounds q_len block in
    let blocks := zip q_lo q_hi in
    let spatial := (fun b : Z * Z => spatial_row seg_lo seg_hi block bb kv sink_tokens (b.1 + offset) (b.2 + offset)) <$> blocks in
    temporal ← mapM (fun b : Z * Z =>
      temporal_row seg_lo seg_hi tpf fs nf block bb sink_tokens
        ((fun r => r + offset) <$> take (Z.to_nat (b.2 - b.1)) (drop (Z.to_nat b.1) permutation))) blocks;
    match blocks with
    | [] => Raise RuntimeError  (* [torch.stack] of no rows *)
    | _ => Ok (spatial, temporal, permutation)
    end.

(** ** The choice of SVG1 *)

(** Strictly below, as [argmin] compares: not-a-number is below everything. *)
Definition xltb (a b : xf F) : bool :=
  match a, b with
  | _, NaN => false
  | NaN, _ => true
  | Fin x, Fin y => nltb x y
  | NInf, NInf | _, NInf => false
  | NInf, _ => true
  | PInf, _ => false
  | Fin _, PInf => true
  end.

(** First index of an element no other is better than. *)
Fixpoint first_best {A} (better : A -> A -> bool) (best : A) (at_ i : nat) (l : list A) : nat :=
  match l with
  | [] => at_
  | x :: l => if better x best then first_best better x i (S i) l else first_best better best at_ (S i) l
  end.
Definition arg_best {A} (better : A -> A -> bool) (l : list A) : nat :=
  match l with [] => 0%nat | x :: l => first_best better x 0 1 l end.
Definition argmin : list (xf F) -> nat := arg_best xltb.
Definition argmax : list F -> nat := arg_best (fun a b => nltb b a).

Context (order : list (nat * nat) -> list (nat * nat)).
(** [scaled_dot_product_attention]: batch, query row, head. *)
Context (sdpa : SparseAttentionCall F -> nat -> Z -> nat -> list (xf F)).

(** The call on the sampled rows of the first batch element. *)
Definition sampled_call (call : SparseAttentionCall F) (rows : list Z) : SparseAttentionCall F :=
  mkCall (layer_index call) (index_select (query call) rows) (key call) (value call) 1 (Z.of_nat (length rows)) (c_kv_len call) (head_dim call)
    (key_segments call) (head_start call) (num_local_heads call) (softmax_scale call) (key_segment_rope_starts call).

(** Mean squared error of a candidate on a head. *)
Definition head_error (call : SparseAttentionCall F) (out : gmap (nat * Z * nat) (list (xf F))) (h : nat) : xf F :=
  let squares i := zip_with (fun a e => let d := xsub a e in xmul d d) (default [] (out !! (0%nat, i, h))) (sdpa call 0 i h) in
  xdiv (xsum (zrange 0 (c_q_len call) ≫= squares)) (Fin (of_Z (c_q_len call * head_dim call))).

Definition candidate_errors (call : SparseAttentionCall F) (candidate : SparseAttentionPlan F * list Z) : res (list (xf F)) :=
  let sampled := sampled_call call candidate.2 in
  out ← sparse_attention order 1 (num_local_heads call) (c_q_len sampled) (Z.to_nat (head_dim call)) (query sampled) (key sampled) (value sampled)
    candidate.1 (softmax_scale call);
  Ok (head_error sampled out <$> seq 0 (num_local_heads call)).

Definition choose_mask_per_head (call : SparseAttentionCall F) (candidates : list (SparseAttentionPlan F * list Z)) : res (list nat) :=
  errors ← mapM (candidate_errors call) candidates;
  Ok ((fun h => argmin ((fun e : list (xf F) => default NaN (e !! h)) <$> errors)) <$> seq 0 (num_local_heads call)).

(** ** SVG1 *)

Definition svg1_cached : Type :=
  list (list bool) * list (list bool) * list Z * list Z * list Z * list (SparseAttentionPlan F * list Z).

Record svg1_state := mkSvg1 {
  s1_base : base_state F;
  s1_config : Svg1Config;
  s1_masks : LayoutCache (Z * Z * nat) (option svg1_cached) }.

Definition put_svg1_base b s := mkSvg1 b (s1_config s) (s1_masks s).
Definition svg1_init (config : Svg1Config) : svg1_state := mkSvg1 base_init config ∅.

Definition build_candidates (config : Svg1Config) (layout : VisibleLayout) (q_len kv : Z) (heads : nat) : res (option svg1_cached) :=
  masks ← build_svg1_segment_masks layout q_len kv config;
  let '(spatial, temporal, permutation) := masks in
  if forallb (forallb id) spatial && forallb (forallb id) temporal then Ok None
  else
    let '(seg_lo, seg_hi) := frame_aligned_block_bounds (num_frames layout) (frame_seqlen layout) (key_tile config) in
    let num_q_blocks := Z.of_nat (length spatial) in
    let sampled := linspace_long (num_q_blocks - 1) (Z.min (num_sampled_blocks config) num_q_blocks) in
    let natural_rows := sampled ≫= fun s => (fun i => Z.min (s * s1_block config + i) (q_len - 1)) <$> zrange 0 (s1_block config) in
    let candidate (mask : list (list bool)) :=
      plan_from_segment_mask garbage (replicate heads ((fun s => default [] (mask !! Z.to_nat s)) <$> sampled))
        (Shared seg_lo) (Shared seg_hi) (s1_block config) None in
    Ok (Some (spatial, temporal, permutation, seg_lo, seg_hi,
      [(candidate spatial, natural_rows); (candidate temporal, at_index permutation <$> natural_rows)])).

Definition svg1_prepare (call : SparseAttentionCall F) (layout : VisibleLayout) (s : svg1_state) :
    res (option (SparseAttentionExecution F) * svg1_state) :=
  let q_len := c_q_len call in
  if c_kv_len call <=? q_len then Ok (None, s)
  else
    let sg := (num_frames layout, q_len, num_local_heads call) in
    cs ← match cache_get (s1_masks s) (num_frames layout) sg with
         | Some cached => Ok (cached, s)
         | None =>
           cached ← build_candidates (s1_config s) layout q_len (c_kv_len call) (num_local_heads call);
           Ok (cached, mkSvg1 (s1_base s) (s1_config s) (cache_put (s1_masks s) (num_frames layout) sg cached))
         end;
    match cs.1 with
    | None => Ok (None, cs.2)
    | Some (spatial, temporal, permutation, seg_lo, seg_hi, candidates) =>
      choice ← choose_mask_per_head call candidates;
      let temporal_heads := Nat.eqb 1 <$> choice in
      let keep := (fun t : bool => if t then temporal else spatial) <$> temporal_heads in
      let plan := plan_from_segment_mask garbage keep (Shared seg_lo) (Shared seg_hi) (s1_block (s1_config cs.2)) None in
      if negb (existsb id temporal_heads) then Ok (Some (mkExecution plan (query call) (key call) (value call) None), cs.2)
      else
        let perm (_ : nat) (i : Z) (h : nat) := if default false (temporal_heads !! h) then at_index permutation i else i in
        Ok (Some (mkExecution plan (fun b i h => query call b (perm b i h) h) (key call) (value call) (Some perm)), cs.2)
    end.

Definition svg1_attend := attend s1_base put_svg1_base svg1_prepare order.

(** ** Clusters *)

(** [torch.log]. *)
Context (nlog : F -> F).

Record KeyClustering := mkClustering {
  kc_permutation : list (list Z);        (* [heads, history_len] *)
  kc_centroids : list (list (list F));   (* [heads, clusters, head_dim] *)
  kc_starts : list (list Z);             (* [heads, clusters + 1] *)
  kc_ends : list (list Z);
  kc_log_size : list (list F) }.         (* [heads, clusters] *)

(** The closest centroid: [argmax(2 <x, c> - |c|^2)]. *)
Definition nearest (centroids : list (list F)) (x : list F) : Z :=
  Z.of_nat (argmax ((fun c => nsub (nmul (of_Z 2) (dot x c)) (dot c c)) <$> centroids)).

(** Mean of the members of a cluster; an empty one keeps its centroid. *)
Definition update_centroid (keys : list (list F)) (labels : list Z) (i : Z) (centroid : list F) : list F :=
  let members := (fun kl : list F * Z => kl.1) <$> filter (fun kl => kl.2 = i) (zip keys labels) in
  match members with
  | [] => centroid
  | _ => (fun x => ndiv x (of_Z (Z.of_nat (length members)))) <$> foldr vadd (zeros (length centroid)) members
  end.

Definition kmeans_step (keys : list (list F)) (lc : list Z * list (list F)) : list Z * list (list F) :=
  let labels := nearest lc.2 <$> keys in
  (labels, zip_with (update_centroid keys labels) (zrange 0 (Z.of_nat (length lc.2))) lc.2).

(** Labels and centroids of one head. *)
Definition cluster_head (keys : list (list F)) (num_clusters iters : Z) (initial : option (list (list F))) : list Z * list (list F) :=
  let seeds := linspace_long (Z.of_nat (length keys) - 1) num_clusters in
  let key_at i := default [] (keys !! Z.to_nat i) in
  let centroids :=
    match initial with
    | None => key_at <$> seeds
    | Some c => let carried := take (Z.to_nat num_clusters) c in carried ++ (key_at <$> drop (length carried) seeds)
    end in
  Nat.iter (Z.to_nat iters) (kmeans_step keys) ((fun _ => 0) <$> keys, centroids).

Definition label_counts (num_clusters : Z) (labels : list Z) : list Z :=
  (fun c => Z.of_nat (length (filter (fun l => l = c) labels))) <$> zrange 0 num_clusters.

Definition cluster_keys (keys : list (list (list F))) (num_clusters iters own_chunk_len history_len : Z) (initial : option (list (list (list F)))) : KeyClustering :=
  let heads := imap (fun h k => cluster_head k num_clusters iters ((fun c : list (list (list F)) => default [] (c !! h)) <$> initial)) keys in
  let counts := (fun lc => label_counts num_clusters lc.1) <$> heads in
  mkClustering
    ((fun lc : list Z * list (list F) => np_argsort lc.1) <$> heads)
    (heads.*2)
    ((fun c => zip_with Z.sub (prefix_sums 0 c) c ++ [history_len]) <$> counts)
    ((fun c => prefix_sums 0 c ++ [history_len + own_chunk_len]) <$> counts)
    ((fun c : list Z => (fun n => nlog (of_Z (Z.max 1 n))) <$> c) <$> counts).

(** ** Selection by top-p *)

Definition select_clusters_by_top_p (p : F) (logits : list F) : list bool :=
  let probabilities := softmax logits in
  let indices := argsort_desc probabilities in
  let ordered := nth_num probabilities <$> indices in
  let remove := (fun c => nltb p c) <$> cumsum ordered in
  let remove := take (length remove) (false :: remove) in
  foldl (fun keep ir => <[Z.to_nat ir.1 := negb ir.2]> keep) (replicate (length logits) false) (zip indices remove).

(** ** SVG2 *)

Definition s2_signature : Type := option KeySegments * Z * Z.

Record svg2_state := mkSvg2 {
  s2_base : base_state F;
  s2_config : Svg2Config;
  s2_clusters : gmap Z (s2_signature * KeyClustering);
  s2_last_chunk : Z }.

Definition put_svg2_base b s := mkSvg2 b (s2_config s) (s2_clusters s) (s2_last_chunk s).
Definition svg2_init (config : Svg2Config) : svg2_state := mkSvg2 base_init config ∅ (-1).

Definition svg2_begin_forward (g : ChunkGeometry) (s : svg2_state) : res svg2_state :=
  let s := put_svg2_base (set_geometry g (s2_base s)) s in
  chunk_index ← query_chunk_index g;
  Ok (mkSvg2 (s2_base s) (s2_config s) (if chunk_index <? s2_last_chunk s then ∅ else s2_clusters s) chunk_index).

Definition history_keys (call : SparseAttentionCall F) (history_len : Z) : list (list (list F)) :=
  (fun h => (fun n => key call 0%nat n h) <$> zrange 0 history_len) <$> seq 0 (num_local_heads call).

Definition clustering (call : SparseAttentionCall F) (history_len num_clusters : Z) (s : svg2_state) : KeyClustering * svg2_state :=
  let sg := (key_segments call, history_len, num_clusters) in
  let cached := s2_clusters s !! layer_index call in
  match match cached with Some (sg', c) => if decide (sg' = sg) then Some c else None | None => None end with
  | Some c => (c, s)
  | None =>
    let c := s2_config s in
    let warm := if 0 <? kmeans_warm_iters c then snd <$> cached else None in
    let k := cluster_keys (history_keys call history_len) num_clusters
      (match warm with Some _ => kmeans_warm_iters c | None => kmeans_iters c end) (c_kv_len call - history_len) history_len (kc_centroids <$> warm) in
    (k, mkSvg2 (s2_base s) c (<[layer_index call := (sg, k)]> (s2_clusters s)) (s2_last_chunk s))
  end.

(** Gather of the history through the permutation of each head. *)
Definition permute_kv (k : KeyClustering) (history_len : Z) (t : tensor4 F) : tensor4 F :=
  fun b n h => if n <? history_len then t b (at_index (default [] (kc_permutation k !! h)) n) h else t b n h.

(** Queries of a head ordered by their closest centroid. *)
Definition cluster_query_order (call : SparseAttentionCall F) (k : KeyClustering) (h : nat) : list Z :=
  np_argsort (nearest (default [] (kc_centroids k !! h)) <$> ((fun m => query call 0%nat m h) <$> zrange 0 (c_q_len call))).

(** Mean of a block of permuted queries over the rows it has. *)
Definition block_mean (dim : nat) (q : Z -> list F) (q_len block b : Z) : list F :=
  let rows := zrange (b * block) (Z.min q_len ((b + 1) * block)) in
  (fun x => ndiv x (of_Z (Z.of_nat (length rows)))) <$> foldr vadd (zeros dim) (q <$> rows).

Definition cluster_logits (dim : nat) (q : Z -> list F) (q_len block : Z) (scale : F) (centroids : list (list F)) (log_size : list F) (b : Z) : list F :=
  zip_with (fun c l => nadd (nmul (dot (block_mean dim q q_len block b) c) scale) l) centroids log_size.

Definition select_clusters (config : Svg2Config) (call : SparseAttentionCall F) (k : KeyClustering) (q : tensor4 F) : list (list (list bool)) :=
  (fun h => (fun b => select_clusters_by_top_p (top_p config)
      (cluster_logits (Z.to_nat (head_dim call)) (fun i => q 0%nat i h) (c_q_len call) (s2_block config) (softmax_scale call)
        (default [] (kc_centroids k !! h)) (default [] (kc_log_size k !! h)) b) ++ [true])
    <$> zrange 0 (cdiv (c_q_len call) (s2_block config))) <$> seq 0 (num_local_heads call).

Definition svg2_prepare (call : SparseAttentionCall F) (layout : VisibleLayout) (s : svg2_state) :
    res (option (SparseAttentionExecution F) * svg2_state) :=
  let config := s2_config s in
  let history_len := c_kv_len call - c_q_len call in
  num_clusters ← py_div history_len (cluster_size config);
  if (history_len <=? 0) || (num_clusters <? 2) then Ok (None, s)
  else
    let '(k, s) := clustering call history_len num_clusters s in
    let perm (_ : nat) (i : Z) (h : nat) := at_index (cluster_query_order call k h) i in
    let q : tensor4 F := fun b i h => query call b (perm b i h) h in
    if s2_block config =? 0 then Raise ZeroDivisionError
    else
      let keep := select_clusters config call k q in
      if forallb (forallb (forallb id)) keep then Ok (None, s)
      else
        let plan := plan_from_segment_mask garbage keep (PerHead (kc_starts k)) (PerHead (kc_ends k)) (s2_block config) None in
        Ok (Some (mkExecution plan q (permute_kv k history_len (key call)) (permute_kv k history_len (value call)) (Some perm)), s).

Definition svg2_attend := attend s2_base put_svg2_base svg2_prepare order.

End svg.
Arguments Svg1Config : clear implicits.
Arguments Svg2Config : clear implicits.
Arguments svg1_state : clear implicits.
Arguments svg2_state : clear implicits.
Arguments KeyClustering : clear implicits.
