(* ===== verification/SvgSpec.v ===== *)
(** * SvgSpec: permutations, top-p, clusters and the masks of Sparse VideoGen *)

From Stdlib Require Import Field.
From S2P Require Import Prelude Num SparsePlan SparsePlanSpec SparseKernel SparseKernelSpec SparseClaims SparseContext SparseBackend SparseBackendSpec Sta StaSpec Osa OsaSpec XAttention FastAr LightForcing LightForcingSpec Svg.

Open Scope Z_scope.

(** ** Stable sorting of integers *)

#[local] Instance arg_le_trans l : Transitive (arg_le l).
Proof. intros i j k. unfold arg_le. lia. Qed.
#[local] Instance arg_le_total l : Total (arg_le l).
Proof. intros i j. unfold arg_le. lia. Qed.

Lemma np_argsort_perm l : np_argsort l ≡ₚ zrange 0 (Z.of_nat (length l)).
Proof. apply merge_sort_Permutation. Qed.

Lemma length_np_argsort l : length (np_argsort l) = length l.
Proof. rewrite np_argsort_perm, length_zr. lia. Qed.

Lemma at_index_lookup l i : 0 <= i < Z.of_nat (length l) -> l !! Z.to_nat i = Some (at_index l i).
Proof. intros Hi. unfold at_index. by destruct (lookup_lt_is_Some_2 l (Z.to_nat i)) as [x ->]; [lia|]. Qed.

(** A list that rearranges [0 .. n) as a permutation of positions. *)
Section rearranged.
Context (l : list Z) (n : Z) (Hl : l ≡ₚ zrange 0 n).

Lemma rearranged_length : 0 <= n -> Z.of_nat (length l) = n.
Proof. intros. rewrite Hl, length_zr. lia. Qed.

Lemma rearranged_range i : 0 <= i < n -> 0 <= at_index l i < n.
Proof.
  intros Hi. pose proof (rearranged_length ltac:(lia)). apply elem_of_zrange. rewrite <- Hl. eapply list_elem_of_lookup_2, at_index_lookup. lia.
Qed.

Lemma rearranged_inj i j : 0 <= i < n -> 0 <= j < n -> at_index l i = at_index l j -> i = j.
Proof.
  intros Hi Hj E. pose proof (rearranged_length ltac:(lia)). assert (NoDup l) as Hnd by (rewrite Hl; apply NoDup_seqZ).
  assert (Z.to_nat i = Z.to_nat j); [|lia]. eapply NoDup_lookup; [exact Hnd|apply at_index_lookup; lia|]. rewrite E. apply at_index_lookup. lia.
Qed.

Lemma rearranged_surj m : 0 <= m < n -> exists i, 0 <= i < n /\ at_index l i = m.
Proof.
  intros Hm. pose proof (rearranged_length ltac:(lia)). assert (m ∈ l) as (i & Hi)%list_elem_of_lookup by (rewrite Hl; by apply elem_of_zrange).
  pose proof (lookup_lt_Some _ _ _ Hi). exists (Z.of_nat i). split; [lia|]. unfold at_index. by rewrite Nat2Z.id, Hi.
Qed.

Lemma rearranged_all : 0 <= n -> at_index l <$> zrange 0 n = l.
Proof.
  intros Hn. pose proof (rearranged_length Hn) as Hlen. apply list_eq. intros i. rewrite list_lookup_fmap. unfold zrange. destruct (decide (i < length l)%nat).
  - rewrite lookup_seqZ_lt by lia. cbn. rewrite <- at_index_lookup by lia. f_equal. lia.
  - rewrite lookup_seqZ_ge by lia. cbn. by rewrite lookup_ge_None_2 by lia.
Qed.
End rearranged.

(** Sorted values below a bound come first, as many as there are. *)
Lemma sorted_below c (S : list Z) p x : StronglySorted Z.le S -> S !! p = Some x -> (p < length (filter (fun y => (y < c)%Z) S))%nat <-> x < c.
Proof.
  intros Hs. revert p. induction Hs as [|y S Hs IH Hy]; intros p Hp; [done|]. rewrite Forall_forall in Hy. rewrite filter_cons. case_decide as Hc.
  - destruct p as [|p]; cbn in *; [injection Hp as ->; split; [done|lia]|]. rewrite <- (IH p Hp). lia.
  - assert (filter (fun y => (y < c)%Z) S = []) as E.
    { destruct (filter (fun y => (y < c)%Z) S) as [|z S'] eqn:E; [done|]. assert (z ∈ z :: S') as Hz by constructor.
      rewrite <- E in Hz. apply list_elem_of_filter in Hz as [Hz Hin]. specialize (Hy z Hin). lia. }
    rewrite E. cbn. split; [lia|]. intros Hx. destruct p as [|p]; cbn in Hp; [injection Hp as ->; done|].
    apply list_elem_of_lookup_2 in Hp. specialize (Hy x Hp). lia.
Qed.

Definition value_at (l : list Z) (i : Z) : Z := default 0 (l !! Z.to_nat i).

Lemma np_argsort_values l : StronglySorted Z.le (value_at l <$> np_argsort l) /\ value_at l <$> np_argsort l ≡ₚ l.
Proof.
  split.
  - assert (StronglySorted (arg_le l) (np_argsort l)) as Hs by (apply StronglySorted_merge_sort; apply _).
    induction Hs as [|i S Hs IH Hi]; csimpl; constructor; [done|]. apply Forall_fmap. eapply Forall_impl; [exact Hi|].
    intros j. unfold arg_le, value_at. cbn. lia.
  - rewrite np_argsort_perm. enough (value_at l <$> zrange 0 (Z.of_nat (length l)) = l) as E by (by rewrite E). apply list_eq. intros i. rewrite list_lookup_fmap. unfold zrange. destruct (decide (i < length l)%nat).
    + rewrite lookup_seqZ_lt by lia. change (Some (value_at l (0 + Z.of_nat i)) = l !! i). unfold value_at. rewrite Z.add_0_l, Nat2Z.id. by destruct (lookup_lt_is_Some_2 l i) as [x ->].
    + rewrite lookup_seqZ_ge by lia. cbn. by rewrite lookup_ge_None_2 by lia.
Qed.

(** ** Attention with permuted queries and keys *)

Section permuted.
Context {F : Type} `{!Num F} `{!NumExp F} `{!NumLaws F} `{!NumExpLaws F}.

Lemma attend_keys_ext d (l1 l2 : Z -> F) (v1 v2 : Z -> list F) keys : (forall n, l1 n = l2 n) -> (forall n, v1 n = v2 n) -> attend_keys d l1 v1 keys = attend_keys d l2 v2 keys.
Proof.
  intros Hl Hv. unfold attend_keys. apply list_fmap_ext. intros _ j _. do 2 f_equal.
  - f_equal. apply list_fmap_ext. intros _ n _. by rewrite Hl, Hv.
  - f_equal. apply list_fmap_ext. intros _ n _. by rewrite Hl.
Qed.

(** Queries permuted per head, keys moved per head, the output scattered back. *)
Lemma permuted_attention (order : list (nat * nat) -> list (nat * nat)) g (H Q n : nat) sm ss se kv bm batch q_len d
    (query key value query' key' value' : tensor4 F) scale (perm kperm : nat -> Z -> Z) :
  (forall l, order l ≡ₚ l) -> segmented H Q n sm ss se kv -> 0 < bm -> Z.of_nat Q = cdiv q_len bm ->
  (forall h i j, 0 <= i < q_len -> 0 <= j < q_len -> perm h i = perm h j -> i = j) ->
  (forall b i h, query' b i h = query b (perm h i) h) -> (forall b n h, key' b n h = key b (kperm h n) h) -> (forall b n h, value' b n h = value b (kperm h n) h) ->
  exists out, sparse_attention order batch H q_len d query' key' value' (plan_from_segment_mask g sm ss se bm None) scale = Ok out /\
  forall b i h, (b < batch)%nat -> 0 <= i < q_len -> (h < H)%nat -> mask_keys sm ss se h (Z.to_nat (i / bm)) kv <> [] ->
    let row := Some (attend_keys d (block_logit query key scale b (perm h i) h) (fun n => value b n h) (kperm h <$> mask_keys sm ss se h (Z.to_nat (i / bm)) kv)) in
    out !! (b, i, h) = row /\ scatter_rows (fun _ i h => perm h i) out !! (b, perm h i, h) = row.
Proof.
  intros Hord Hsg Hbm HQ Hinj Eq Ek Ev.
  destruct (segmented_attention order g H Q n sm ss se kv bm None batch q_len d query' key' value' scale Hord Hsg Hbm (or_intror HQ)) as (out & Eout & Hout).
  exists out. split; [done|]. intros b i h Hb Hi Hh Hne. cbv zeta.
  assert ((if Nat.eqb Q 1 then 0 else Z.to_nat (i / bm))%nat = Z.to_nat (i / bm)) as Erow.
  { destruct (Nat.eqb_spec Q 1) as [->|]; [|done]. pose proof (cdiv_spec q_len bm Hbm). rewrite Z.div_small by nia. done. }
  assert (out !! (b, i, h) = Some (attend_keys d (block_logit query key scale b (perm h i) h) (fun n => value b n h) (kperm h <$> mask_keys sm ss se h (Z.to_nat (i / bm)) kv))) as E.
  { rewrite (Hout b i h Hb Hi Hh), Erow, decide_False by done. f_equal. rewrite <- attend_keys_fmap. apply attend_keys_ext; [|intros; apply Ev].
    intros m. unfold plan_logit, block_logit, key_logit. cbn. by rewrite Eq, Ek. }
  split; [exact E|]. apply (scatter_rows_lookup (fun _ i h => perm h i) out q_len); [|intros _; exact Hinj|exact E].
  intros b' i' h' Ho. eapply sparse_attention_dom; [|exact Eout|exact Ho]. done.
Qed.

End permuted.

(** ** Top-p *)

(** Scattered values: each index holds the value paired with it. *)
Lemma scatter_values {A} (n : nat) (idx : list Z) (vs : list A) (f : A -> bool) (z : Z) (v : A) j : NoDup (Z.to_nat <$> idx) ->
  idx !! j = Some z -> vs !! j = Some v -> (Z.to_nat z < n)%nat ->
  foldl (fun keep iv => <[Z.to_nat iv.1 := f iv.2]> keep) (replicate n false) (zip idx vs) !! Z.to_nat z = Some (f v).
Proof.
  intros Hnd Hi Hv Hz. assert (forall k : list bool, length k = n -> forall idx vs j, NoDup (Z.to_nat <$> idx) ->
    (idx !! j = Some z /\ vs !! j = Some v) \/ ((Z.to_nat z ∉ (Z.to_nat <$> idx)) /\ k !! Z.to_nat z = Some (f v)) ->
    foldl (fun keep iv => <[Z.to_nat iv.1 := f iv.2]> keep) k (zip idx vs) !! Z.to_nat z = Some (f v)) as Hg.
  { clear -Hz. intros k Hk idx. revert k Hk. induction idx as [|y idx IH]; intros k Hk vs j Hnd Hor; [destruct Hor as [[? _]|[_ ?]]; done|].
    csimpl in Hnd. apply NoDup_cons in Hnd as [Hy Hnd]. destruct vs as [|w vs].
    { destruct Hor as [[_ ?]|[_ ?]]; done. }
    cbn [zip zip_with foldl fst snd]. destruct Hor as [[Hi Hv]|[Hn Hk0]].
    - destruct j as [|j]; cbn in Hi, Hv.
      + simplify_eq. apply (IH _ ltac:(by rewrite length_insert) vs 0%nat Hnd). right. split; [done|]. rewrite list_lookup_insert_eq by lia. done.
      + apply (IH _ ltac:(by rewrite length_insert) vs j Hnd). by left.
    - csimpl in Hn. apply not_elem_of_cons in Hn as [Hne Hn]. apply (IH _ ltac:(by rewrite length_insert) vs 0%nat Hnd). right. split; [done|]. by rewrite list_lookup_insert_ne by done. }
  apply (Hg _ (length_replicate _ _) idx vs j Hnd). by left.
Qed.

Section top_p.
Context {F : Type} `{!Num F} `{!NumExp F} `{!NumLaws F} `{!NumExpLaws F} `{!TorchOrder F} `{!TorchOrderLaws F}.
Add Field NumFieldT : (num_field (F:=F)).

Lemma softmax_nonneg (l : list F) : Forall (nle nzero) (softmax l).
Proof.
  unfold softmax. destruct l as [|x l]; [constructor|]. set (e := nexp <$> x :: l).
  assert (Forall (nlt nzero) e) as He by (apply Forall_fmap, Forall_forall; intros y _; apply nexp_pos).
  assert (nlt nzero (nsum e)) as Hs by (by apply nsum_pos). apply Forall_fmap. eapply Forall_impl; [exact He|]. intros y Hy. cbn.
  pose proof (nle_div _ _ _ Hs (nlt_le _ _ Hy)) as E. replace (ndiv nzero (nsum e)) with (nzero (F:=F)) in E; [done|]. field. intros E0. by apply (nlt_ne _ _ Hs).
Qed.

Lemma length_softmax (l : list F) : length (softmax l) = length l.
Proof. unfold softmax. by rewrite !length_fmap. Qed.

Section row.
Context (p : F) (logits : list F) (Hne : logits <> []).
Local Abbreviation probs := (softmax logits).
Local Abbreviation indices := (argsort_desc probs).
Local Abbreviation keep := (select_clusters_by_top_p p logits).
Local Abbreviation mass k := (nsum (nth_num probs <$> take k indices)).

Lemma top_p_length : length keep = length logits.
Proof.
  unfold select_clusters_by_top_p. set (ws := zip _ _). assert (forall k : list bool, length (foldl (fun keep ir => <[Z.to_nat ir.1 := negb ir.2]> keep) k ws) = length k) as Hg.
  { induction ws as [|w ws IH]; intros k; cbn; [done|]. by rewrite IH, length_insert. }
  by rewrite Hg, length_replicate.
Qed.

Lemma length_indices : length indices = length logits.
Proof. rewrite argsort_desc_perm, length_zr, length_softmax. lia. Qed.

Lemma indices_range z : z ∈ indices -> 0 <= z < Z.of_nat (length logits).
Proof. rewrite argsort_desc_perm, length_softmax. apply elem_of_zrange. Qed.

Lemma mass_mono i j : (i <= j)%nat -> nle (mass i) (mass j).
Proof.
  intros Hij. rewrite <- (take_drop i (take j indices)), take_take, Nat.min_l by done. rewrite fmap_app, nsum_app.
  replace (mass i) with (nadd (mass i) nzero) at 1 by ring. apply nle_add_mono; [apply nle_refl|]. apply nsum_nonneg, Forall_fmap, Forall_forall. intros z _. cbn.
  unfold nth_num. destruct (probs !! Z.to_nat z) as [x|] eqn:Ex; cbn; [exact (Forall_lookup_1 _ _ _ _ (softmax_nonneg logits) Ex)|apply nle_refl].
Qed.

(** Whether the [j]-th strongest cluster is kept. *)
Lemma top_p_at j z : indices !! j = Some z -> keep !! Z.to_nat z = Some (Nat.eqb j 0 || nleb (mass j) p).
Proof.
  intros Hj. pose proof (lookup_lt_Some _ _ _ Hj) as Hlt. pose proof (indices_range z ltac:(by eapply list_elem_of_lookup_2)) as Hz.
  unfold select_clusters_by_top_p. set (remove := (fun c => nltb p c) <$> cumsum (nth_num probs <$> indices)).
  assert (length remove = length indices) as Hr by (unfold remove, cumsum; by rewrite length_fmap, length_cumsum_from, length_fmap).
  rewrite (scatter_values (length logits) indices (take (length remove) (false :: remove)) negb z (negb (Nat.eqb j 0 || nleb (mass j) p)) j).
  - by rewrite negb_involutive.
  - apply NoDup_fmap_2_strong; [|rewrite argsort_desc_perm; apply NoDup_seqZ]. intros a b Ha%indices_range Hb%indices_range. lia.
  - done.
  - rewrite lookup_take_lt by lia. destruct j as [|j]; [done|]. cbn [lookup list_lookup Nat.eqb orb]. change (remove !! j = Some (nltb p (mass (S j)))). unfold remove. rewrite list_lookup_fmap.
    unfold cumsum. rewrite cumsum_from_at by (rewrite length_fmap; lia). cbn [fmap option_fmap option_map]. f_equal. rewrite <- fmap_take. f_equal. ring.
  - lia.
Qed.

(** The kept clusters are the strongest ones, up to the one that crosses [p]. *)
Lemma top_p_prefix : exists k, (1 <= k <= length logits)%nat /\ kept_blocks keep ≡ₚ take k indices /\
  (k = length logits \/ nlt p (mass k)) /\ ((1 < k)%nat -> nle (mass (k - 1)) p).
Proof.
  assert (0 < length logits)%nat as Hn by (destruct logits; [done|simpl; lia]). pose proof length_indices as Hli.
  set (bs := (fun j => Nat.eqb j 0 || nleb (mass j) p) <$> seq 0 (length logits)). destruct (first_false bs) as (k & Hk & Hpre & Hor).
  assert (length bs = length logits) as Hbs by (unfold bs; by rewrite length_fmap, length_seq). rewrite Hbs in Hk, Hor.
  assert (forall j, (j < length logits)%nat -> bs !! j = Some (Nat.eqb j 0 || nleb (mass j) p)) as Hat.
  { intros j Hj. unfold bs. by rewrite list_lookup_fmap, lookup_seq_lt by done. }
  assert (1 <= k)%nat as Hk1.
  { destruct k as [|k]; [|lia]. destruct Hor as [?|Hf]; [lia|]. rewrite Hat in Hf by done. done. }
  assert (forall j, (j < length logits)%nat -> Nat.eqb j 0 || nleb (mass j) p = true <-> (j < k)%nat) as Hiff.
  { intros j Hj. split; [|intros Hlt; specialize (Hpre j Hlt); rewrite Hat in Hpre by done; congruence].
    intros E. destruct (decide (j < k)%nat); [done|]. exfalso. destruct Hor as [?|Hf]; [lia|]. rewrite Hat in Hf by lia. injection Hf as Hf.
    apply orb_false_iff in Hf as [_ Hf]. destruct (Nat.eqb_spec j 0); [lia|]. cbn [orb] in E.
    rewrite (nle_trans (mass k) (mass j) p) in Hf; [done|apply mass_mono; lia|done]. }
  exists k. split_and!; [lia..| | |].
  - apply NoDup_Permutation; [apply NoDup_filter, NoDup_seqZ| |].
    { assert (NoDup indices) as Hnd by (rewrite argsort_desc_perm; apply NoDup_seqZ). rewrite <- (take_drop k indices) in Hnd. by apply NoDup_app in Hnd as (? & _). }
    intros z. unfold kept_blocks. rewrite list_elem_of_filter, elem_of_zrange, top_p_length. split.
    + intros [Hz Hr]. assert (z ∈ indices) as (j & Hj)%list_elem_of_lookup by (rewrite argsort_desc_perm, length_softmax; by apply elem_of_zrange).
      pose proof (lookup_lt_Some _ _ _ Hj). rewrite (top_p_at j z Hj) in Hz. injection Hz as Hz. apply Hiff in Hz; [|lia].
      apply list_elem_of_lookup. exists j. by rewrite lookup_take_lt.
    + intros (j & Hj)%list_elem_of_lookup. apply lookup_take_Some in Hj as [Hj Hjk]. pose proof (lookup_lt_Some _ _ _ Hj).
      split; [|apply indices_range; by eapply list_elem_of_lookup_2]. rewrite (top_p_at j z Hj). f_equal. apply Hiff; lia.
  - destruct Hor as [->|Hf]; [by left|]. destruct (decide (k < length logits)%nat) as [Hlt|]; [|left; lia]. right. rewrite Hat in Hf by done. injection Hf as [_ Hf]%orb_false_iff. by apply nlt_alt.
  - intros H1. specialize (Hpre (k - 1)%nat ltac:(lia)). rewrite Hat in Hpre by lia. injection Hpre as Hpre. destruct (Nat.eqb_spec (k - 1) 0); [lia|exact Hpre].
Qed.

End row.
End top_p.

(** ** Clusters as segments *)

Definition count_below (labels : list Z) (c : Z) : Z := Z.of_nat (length (filter (fun l => (l < c)%Z) labels)).

Lemma prefix_sums_at a l i x : l !! i = Some x -> prefix_sums a l !! i = Some (a + foldr Z.add 0 (take (S i) l)).
Proof.
  revert a i. induction l as [|y l IH]; intros a [|i] Hi; cbn in *; [done..| |].
  - rewrite take_0. cbn. f_equal. lia.
  - rewrite (IH _ _ Hi). f_equal. cbn. lia.
Qed.

Lemma length_prefix_sums a l : length (prefix_sums a l) = length l.
Proof. revert a. induction l; intros; cbn; auto. Qed.

Lemma count_below_S labels c : count_below labels (c + 1) = count_below labels c + Z.of_nat (length (filter (fun l => l = c) labels)).
Proof.
  unfold count_below. induction labels as [|l labels IH]; [done|]. rewrite !filter_cons. repeat case_decide; cbn [length]; lia.
Qed.

Section labels.
Context (labels : list Z) (nc : Z) (Hlab : Forall (fun l => 0 <= l < nc) labels).

Lemma count_below_0 : count_below labels 0 = 0.
Proof.
  unfold count_below. induction Hlab as [|l ls Hl Hls IH]; [done|]. specialize (IH Hls). cbn beta in Hl. rewrite filter_cons. case_decide; lia.
Qed.

Lemma count_below_all : count_below labels nc = Z.of_nat (length labels).
Proof.
  unfold count_below. induction Hlab as [|l ls Hl Hls IH]; [done|]. specialize (IH Hls). cbn beta in Hl. rewrite filter_cons. case_decide; cbn [length]; lia.
Qed.

Lemma label_counts_at c : 0 <= c < nc -> label_counts nc labels !! Z.to_nat c = Some (count_below labels (c + 1) - count_below labels c).
Proof.
  intros Hc. unfold label_counts. rewrite list_lookup_fmap. unfold zrange. rewrite lookup_seqZ_lt by lia. cbn [fmap option_fmap option_map].
  rewrite count_below_S. f_equal. replace (0 + Z.of_nat (Z.to_nat c)) with c by lia. lia.
Qed.

Lemma label_counts_sum c : (Z.of_nat c <= nc) -> foldr Z.add 0 (take c (label_counts nc labels)) = count_below labels (Z.of_nat c).
Proof.
  induction c as [|c IH]; intros Hc; [symmetry; apply count_below_0|].
  pose proof (label_counts_at (Z.of_nat c) ltac:(lia)) as E. rewrite Nat2Z.id in E. rewrite (take_S_r _ _ _ E), foldr_app. cbn [foldr].
  assert (forall l z, foldr Z.add z l = foldr Z.add 0 l + z) as Hf by (induction l as [|y l IHl]; intros z; cbn; [|rewrite IHl]; lia).
  rewrite Hf, IH by lia. replace (Z.of_nat (S c)) with (Z.of_nat c + 1) by lia. lia.
Qed.

Lemma length_label_counts : length (label_counts nc labels) = Z.to_nat nc.
Proof. unfold label_counts. rewrite length_fmap, length_zr. lia. Qed.

(** The bounds of cluster [c] are the numbers of keys with smaller labels. *)
Lemma cluster_bounds (hl own : Z) (c : nat) : (Z.of_nat c <= nc) -> hl = Z.of_nat (length labels) ->
  let counts := label_counts nc labels in
  (zip_with Z.sub (prefix_sums 0 counts) counts ++ [hl]) !! c = Some (count_below labels (Z.of_nat c)) /\
  (prefix_sums 0 counts ++ [hl + own]) !! c = Some (if decide (Z.of_nat c = nc) then hl + own else count_below labels (Z.of_nat c + 1)).
Proof.
  intros Hc Hhl counts. pose proof length_label_counts as Hl. fold counts in Hl. pose proof (length_prefix_sums 0 counts) as Hp. case_decide as E.
  - rewrite !lookup_app_r by (rewrite ?length_zip_with; lia). rewrite length_zip_with, Hp, Nat.min_id, Hl. replace (c - Z.to_nat nc)%nat with 0%nat by lia. cbn. split; [|done].
    f_equal. rewrite E, count_below_all. done.
  - rewrite !lookup_app_l by (rewrite ?length_zip_with; lia). pose proof (label_counts_at (Z.of_nat c) ltac:(lia)) as Ec. rewrite Nat2Z.id in Ec. fold counts in Ec.
    pose proof (prefix_sums_at 0 counts c _ Ec) as Ep. unfold counts in Ep. rewrite label_counts_sum in Ep by lia. fold counts in Ep.
    rewrite lookup_zip_with, Ep, Ec. cbn. replace (Z.of_nat (S c)) with (Z.of_nat c + 1) by lia. split; f_equal; lia.
Qed.

(** The packed position of a key lies in the segment of its label. *)
Lemma packed_label pos c : 0 <= pos < Z.of_nat (length labels) ->
  count_below labels c <= pos < count_below labels (c + 1) <-> value_at labels (at_index (np_argsort labels) pos) = c.
Proof.
  intros Hpos. destruct (np_argsort_values labels) as [Hs Hp]. set (S := value_at labels <$> np_argsort labels) in *.
  assert (S !! Z.to_nat pos = Some (value_at labels (at_index (np_argsort labels) pos))) as Ex.
  { unfold S. rewrite list_lookup_fmap, at_index_lookup by (rewrite length_np_argsort; lia). done. }
  assert (forall d, count_below labels d = Z.of_nat (length (filter (fun y => (y < d)%Z) S))) as Ec by (intros d; unfold count_below; by rewrite Hp).
  rewrite !Ec. pose proof (sorted_below c S _ _ Hs Ex) as H1. pose proof (sorted_below (c + 1) S _ _ Hs Ex) as H2. lia.
Qed.

End labels.

(** ** k-means *)

Section kmeans.
Context {F : Type} `{!Num F} `{!NumExp F}.

Lemma first_best_lt {A} (better : A -> A -> bool) (l : list A) best at_ i : (at_ < i)%nat -> (first_best better best at_ i l < i + length l)%nat.
Proof.
  revert best at_ i. induction l as [|x l IH]; intros best at_ i Hi; cbn; [lia|]. destruct (better x best); (eapply Nat.lt_le_trans; [apply IH; lia|lia]).
Qed.

Lemma arg_best_lt {A} (better : A -> A -> bool) (l : list A) : l <> [] -> (arg_best better l < length l)%nat.
Proof. destruct l as [|x l]; [done|]. intros _. cbn. eapply Nat.lt_le_trans; [apply first_best_lt; lia|lia]. Qed.

Lemma nearest_range (centroids : list (list F)) x : centroids <> [] -> 0 <= nearest centroids x < Z.of_nat (length centroids).
Proof.
  intros Hne. unfold nearest, argmax. split; [lia|]. apply Nat2Z.inj_lt. eapply Nat.lt_le_trans; [apply arg_best_lt; by destruct centroids|]. by rewrite length_fmap.
Qed.

Lemma length_linspace last n : 1 <= n -> length (linspace_long last n) = Z.to_nat n.
Proof. intros Hn. unfold linspace_long. destruct (Z.eqb_spec n 1) as [->|]; [done|]. rewrite length_fmap, length_zr. lia. Qed.

(** Labels name clusters, and there are as many centroids as clusters. *)
Definition clustered_head (n : nat) (nc : Z) (lc : list Z * list (list F)) : Prop :=
  length lc.1 = n /\ Forall (fun l => 0 <= l < nc) lc.1 /\ length lc.2 = Z.to_nat nc.

Lemma kmeans_step_ok keys nc lc : 1 <= nc -> clustered_head (length keys) nc lc -> clustered_head (length keys) nc (kmeans_step keys lc).
Proof.
  intros Hnc (_ & _ & Hc). unfold kmeans_step. split_and!; cbn [fst snd].
  - by rewrite length_fmap.
  - apply Forall_fmap, Forall_forall. intros x _. cbn. assert (lc.2 <> []) as Hne by (intros E; rewrite E in Hc; cbn in Hc; lia).
    pose proof (nearest_range lc.2 x Hne). lia.
  - rewrite length_zip_with, length_zr. lia.
Qed.

Lemma cluster_head_ok keys nc iters initial : 1 <= nc -> clustered_head (length keys) nc (cluster_head keys nc iters initial).
Proof.
  intros Hnc. unfold cluster_head. set (init := (_ , _)). assert (clustered_head (length keys) nc init) as H0.
  { unfold init. split_and!; cbn [fst snd]; [by rewrite length_fmap|apply Forall_fmap, Forall_forall; intros x _; cbn; lia|].
    destruct initial as [c|]; [|by rewrite length_fmap, length_linspace]. rewrite length_app, length_fmap, length_drop, length_linspace, length_take by done. lia. }
  induction (Z.to_nat iters) as [|i IH]; [exact H0|]. cbn. by apply kmeans_step_ok.
Qed.

(** A clustering of [hl] history keys and the [own] keys of the chunk. *)
Record clustered (k : KeyClustering F) (H : nat) (hl nc own : Z) (labels : nat -> list Z) : Prop := {
  cl_labels h : (h < H)%nat -> Z.of_nat (length (labels h)) = hl /\ Forall (fun l => 0 <= l < nc) (labels h);
  cl_perm h : (h < H)%nat -> kc_permutation k !! h = Some (np_argsort (labels h));
  cl_starts : length (kc_starts k) = H /\ forall h, (h < H)%nat ->
    kc_starts k !! h = Some (zip_with Z.sub (prefix_sums 0 (label_counts nc (labels h))) (label_counts nc (labels h)) ++ [hl]);
  cl_ends : length (kc_ends k) = H /\ forall h, (h < H)%nat -> kc_ends k !! h = Some (prefix_sums 0 (label_counts nc (labels h)) ++ [hl + own]);
  cl_centroids h : (h < H)%nat -> exists c, kc_centroids k !! h = Some c /\ length c = Z.to_nat nc;
  cl_sizes h : (h < H)%nat -> exists l, kc_log_size k !! h = Some l /\ length l = Z.to_nat nc }.

(** The labels [cluster_keys] finds for a head. *)
Definition kmeans_labels (keys : list (list (list F))) (nc iters : Z) (initial : option (list (list (list F)))) (h : nat) : list Z :=
  (cluster_head (default [] (keys !! h)) nc iters ((fun c : list (list (list F)) => default [] (c !! h)) <$> initial)).1.

Lemma cluster_keys_ok nlog keys nc iters own hl initial : 1 <= nc -> Forall (fun k => Z.of_nat (length k) = hl) keys ->
  clustered (cluster_keys nlog keys nc iters own hl initial) (length keys) hl nc own (kmeans_labels keys nc iters initial).
Proof.
  intros Hnc Hk. unfold cluster_keys. set (heads := imap _ keys). assert (length heads = length keys) as Hl by (unfold heads; by rewrite length_imap).
  assert (forall h, (h < length keys)%nat -> exists k, keys !! h = Some k /\ Z.of_nat (length k) = hl /\
    heads !! h = Some (cluster_head k nc iters ((fun c : list (list (list F)) => default [] (c !! h)) <$> initial)) /\
    kmeans_labels keys nc iters initial h = (cluster_head k nc iters ((fun c : list (list (list F)) => default [] (c !! h)) <$> initial)).1) as Hat.
  { intros h Hh. destruct (lookup_lt_is_Some_2 keys h Hh) as [k Ek]. exists k. split_and!; [done|exact (Forall_lookup_1 _ _ _ _ Hk Ek)| |].
    - unfold heads. by rewrite list_lookup_imap, Ek.
    - unfold kmeans_labels. by rewrite Ek. }
  assert (forall h, (h < length keys)%nat -> exists lc, heads !! h = Some lc /\ kmeans_labels keys nc iters initial h = lc.1 /\ Z.of_nat (length lc.1) = hl /\
    Forall (fun l => 0 <= l < nc) lc.1 /\ length lc.2 = Z.to_nat nc) as Hlc.
  { intros h Hh. destruct (Hat h Hh) as (k & Ek & Hkl & Eh & El). eexists. split; [exact Eh|].
    destruct (cluster_head_ok k nc iters ((fun c : list (list (list F)) => default [] (c !! h)) <$> initial) Hnc) as (H1 & H2 & H3). split_and!; [done|lia|done|done]. }
  split; cbn [kc_permutation kc_centroids kc_starts kc_ends kc_log_size].
  - intros h Hh. destruct (Hlc h Hh) as (lc & _ & -> & Hlen & Hr & _). done.
  - intros h Hh. destruct (Hlc h Hh) as (lc & E & -> & _). by rewrite list_lookup_fmap, E.
  - split; [by rewrite !length_fmap|]. intros h Hh. destruct (Hlc h Hh) as (lc & E & -> & _). by rewrite !list_lookup_fmap, E.
  - split; [by rewrite !length_fmap|]. intros h Hh. destruct (Hlc h Hh) as (lc & E & -> & _). by rewrite !list_lookup_fmap, E.
  - intros h Hh. destruct (Hlc h Hh) as (lc & E & _ & _ & _ & Hc). exists lc.2. split; [by rewrite list_lookup_fmap, E|done].
  - intros h Hh. destruct (Hlc h Hh) as (lc & E & _). eexists. split; [rewrite !list_lookup_fmap, E; done|]. cbn. by rewrite length_fmap, length_label_counts.
Qed.

End kmeans.

(** ** The keys of kept clusters *)

Lemma filter_of_fmap {A B} (P : B -> Prop) `{!forall x, Decision (P x)} (f : A -> B) (l : list A) : filter P (f <$> l) = f <$> filter (fun x => P (f x)) l.
Proof. induction l as [|x l IH]; [done|]. csimpl. rewrite !filter_cons. by case_decide; csimpl; rewrite IH. Qed.

Section cluster_segments.
Context {F : Type} (k : KeyClustering F) (H : nat) (hl nc own : Z) (labels : nat -> list Z).
Context (Hcl : clustered k H hl nc own labels) (Hnc : 1 <= nc) (Hhl : 0 <= hl) (Hown : 0 <= own).
Local Abbreviation kv := (hl + own).
Local Abbreviation ss := (PerHead (kc_starts k)).
Local Abbreviation se := (PerHead (kc_ends k)).

Lemma cluster_seg_at h o : (h < H)%nat -> (Z.of_nat o <= nc) ->
  seg_at ss h o = count_below (labels h) (Z.of_nat o) /\
  seg_at se h o = if decide (Z.of_nat o = nc) then kv else count_below (labels h) (Z.of_nat o + 1).
Proof.
  intros Hh Ho. destruct (cl_labels _ _ _ _ _ _ Hcl h Hh) as [Hl Hr]. destruct (cl_starts _ _ _ _ _ _ Hcl) as [_ Hs]. destruct (cl_ends _ _ _ _ _ _ Hcl) as [_ He].
  cbn [seg_at]. rewrite (Hs h Hh), (He h Hh). cbn [mbind option_bind]. destruct (cluster_bounds (labels h) nc Hr hl own o Ho ltac:(lia)) as [-> ->]. done.
Qed.

(** Placement of a key, and the keys a row of kept clusters reads. *)
Definition cluster_move (h : nat) (n : Z) : Z := if n <? hl then at_index (default [] (kc_permutation k !! h)) n else n.
Definition cluster_reads (row : list bool) (h : nat) (n : Z) : bool := (hl <=? n) || nthb row (Z.to_nat (value_at (labels h) n)).

Lemma cluster_selected row h pos : (h < H)%nat -> 0 <= pos < kv -> length row = S (Z.to_nat nc) -> nthb row (Z.to_nat nc) = true ->
  seg_selected row (seg_at ss h) (seg_at se h) pos = true <-> cluster_reads row h (cluster_move h pos) = true.
Proof.
  intros Hh Hpos Hl Hlast. destruct (cl_labels _ _ _ _ _ _ Hcl h Hh) as [Hlen Hr]. rewrite seg_selected_spec. unfold cluster_reads, cluster_move.
  rewrite (cl_perm _ _ _ _ _ _ Hcl h Hh). cbn [from_option id].
  destruct (Z.ltb_spec pos hl) as [Hlt|Hge].
  - pose proof (rearranged_range (np_argsort (labels h)) hl ltac:(rewrite np_argsort_perm, Hlen; done) pos ltac:(lia)) as Hm.
    destruct (Z.leb_spec hl (at_index (np_argsort (labels h)) pos)); [lia|]. cbn [orb]. set (c := value_at (labels h) (at_index (np_argsort (labels h)) pos)).
    assert (0 <= c < nc) as Hc.
    { unfold c, value_at. destruct (lookup_lt_is_Some_2 (labels h) (Z.to_nat (at_index (np_argsort (labels h)) pos))) as [x Ex]; [lia|]. rewrite Ex. exact (Forall_lookup_1 _ _ _ _ Hr Ex). }
    split.
    + intros (o & Ho & Hp). pose proof (nthb_lt _ _ Ho). destruct (cluster_seg_at h o Hh ltac:(lia)) as [E1 E2]. rewrite E1, E2 in Hp. case_decide as Ed.
      * rewrite Ed, (count_below_all _ nc Hr) in Hp. lia.
      * apply (packed_label (labels h)) in Hp; [|lia]. change (c = Z.of_nat o) in Hp. rewrite Hp, Nat2Z.id. done.
    + intros Ho. exists (Z.to_nat c). split; [done|]. destruct (cluster_seg_at h (Z.to_nat c) Hh ltac:(lia)) as [-> ->]. rewrite decide_False by lia.
      rewrite Z2Nat.id by lia. apply (packed_label (labels h)); [lia|done].
  - destruct (Z.leb_spec hl pos); [|lia]. cbn [orb]. split; [done|]. intros _. exists (Z.to_nat nc). split; [done|].
    destruct (cluster_seg_at h (Z.to_nat nc) Hh ltac:(lia)) as [-> ->]. rewrite decide_True by lia. rewrite Z2Nat.id, (count_below_all _ nc Hr) by lia. lia.
Qed.

Lemma cluster_move_all h : (h < H)%nat -> cluster_move h <$> zrange 0 kv ≡ₚ zrange 0 kv.
Proof.
  intros Hh. destruct (cl_labels _ _ _ _ _ _ Hcl h Hh) as [Hlen _]. rewrite <- (zrange_app 0 hl kv) by lia. rewrite fmap_app.
  assert (cluster_move h <$> zrange 0 hl = np_argsort (labels h)) as ->.
  { assert (np_argsort (labels h) ≡ₚ zrange 0 hl) as Hp by (by rewrite np_argsort_perm, Hlen). etrans; [|exact (rearranged_all _ _ Hp Hhl)].
    apply list_fmap_ext. intros _ n Hn%list_elem_of_lookup_2%elem_of_zrange. unfold cluster_move. destruct (Z.ltb_spec n hl); [|lia]. by rewrite (cl_perm _ _ _ _ _ _ Hcl h Hh). }
  assert (cluster_move h <$> zrange hl kv = zrange hl kv) as ->.
  { etrans; [|apply list_fmap_id]. apply list_fmap_ext. intros _ n Hn%list_elem_of_lookup_2%elem_of_zrange. unfold cluster_move. destruct (Z.ltb_spec n hl); [lia|done]. }
  by rewrite np_argsort_perm, Hlen.
Qed.

Lemma cluster_keys_read row h : (h < H)%nat -> length row = S (Z.to_nat nc) -> nthb row (Z.to_nat nc) = true ->
  cluster_move h <$> filter (fun pos => seg_selected row (seg_at ss h) (seg_at se h) pos = true) (zrange 0 kv) ≡ₚ
  filter (fun n => cluster_reads row h n = true) (zrange 0 kv).
Proof.
  intros Hh Hl Hlast. rewrite <- (cluster_move_all h Hh) at 2. rewrite filter_of_fmap.
  erewrite filter_ext_in; [reflexivity|]. intros pos Hpos%elem_of_zrange. cbn. by apply cluster_selected.
Qed.

Lemma cluster_segmented Q keep : mask_shape H Q (S (Z.to_nat nc)) keep -> segmented H Q (S (Z.to_nat nc)) keep ss se kv.
Proof.
  intros Hm. destruct (cl_starts _ _ _ _ _ _ Hcl) as [Hls Hs]. destruct (cl_ends _ _ _ _ _ _ Hcl) as [Hle He].
  assert (forall h, (h < H)%nat -> length (label_counts nc (labels h)) = Z.to_nat nc) as Hlc by (intros; apply length_label_counts).
  split; [done| | |done|lia|].
  - split; [done|]. apply Forall_lookup. intros h l E. pose proof (lookup_lt_Some _ _ _ E). rewrite Hs in E by lia. injection E as <-.
    rewrite length_app, length_zip_with, length_prefix_sums, Hlc by lia. cbn. lia.
  - split; [done|]. apply Forall_lookup. intros h l E. pose proof (lookup_lt_Some _ _ _ E). rewrite He in E by lia. injection E as <-.
    rewrite length_app, length_prefix_sums, Hlc by lia. cbn. lia.
  - intros h Hh. destruct (cl_labels _ _ _ _ _ _ Hcl h Hh) as [Hlen Hr].
    assert (forall c, 0 <= count_below (labels h) c <= count_below (labels h) (c + 1)) as Hmono by (intros c; rewrite count_below_S; unfold count_below; lia).
    split_and!; [split| |].
    + intros o Ho. destruct (cluster_seg_at h o Hh ltac:(lia)) as [-> ->]. case_decide as E; [|apply Hmono]. rewrite E, (count_below_all _ nc Hr). lia.
    + intros o Ho. destruct (cluster_seg_at h o Hh ltac:(lia)) as [_ ->]. destruct (cluster_seg_at h (S o) Hh ltac:(lia)) as [-> _].
      rewrite decide_False by lia. f_equal. lia.
    + destruct (cluster_seg_at h 0 Hh ltac:(lia)) as [-> _]. apply Hmono.
    + destruct (cluster_seg_at h (S (Z.to_nat nc) - 1) Hh ltac:(lia)) as [_ ->]. rewrite decide_True by lia. lia.
Qed.

End cluster_segments.

(** ** The masks of SVG1 *)

Lemma nthb_or a b i : length a = length b -> nthb (zip_with orb a b) i = nthb a i || nthb b i.
Proof.
  intros Hl. unfold nthb. rewrite lookup_zip_with. destruct (a !! i) as [x|] eqn:Ea; cbn.
  - destruct (lookup_lt_is_Some_2 b i) as [y ->]; [apply lookup_lt_Some in Ea; lia|]. done.
  - destruct (b !! i) as [y|] eqn:Eb; [|done]. apply lookup_lt_Some in Eb. apply lookup_ge_None_1 in Ea. lia.
Qed.

Lemma zminimum_le l x y : zminimum l = Some x -> y ∈ l -> x <= y.
Proof.
  destruct l as [|z l]; [done|]. intros [= <-]. rewrite elem_of_cons. assert (foldr Z.min z l <= z /\ forall w, w ∈ l -> foldr Z.min z l <= w) as [H1 H2].
  { induction l as [|w l [I1 I2]]; cbn; [split; [lia|set_solver]|]. split; [lia|]. intros v [->|Hv]%elem_of_cons; [lia|]. specialize (I2 v Hv). lia. }
  intros [->|Hy]; auto.
Qed.

Lemma zmaximum_ge l x y : zmaximum l = Some x -> y ∈ l -> y <= x.
Proof.
  destruct l as [|z l]; [done|]. intros [= <-]. rewrite elem_of_cons. assert (z <= foldr Z.max z l /\ forall w, w ∈ l -> w <= foldr Z.max z l) as [H1 H2].
  { induction l as [|w l [I1 I2]]; cbn; [split; [lia|set_solver]|]. split; [lia|]. intros v [->|Hv]%elem_of_cons; [lia|]. specialize (I2 v Hv). lia. }
  intros [->|Hy]; auto.
Qed.

Section svg1_masks.
Context (nf fs tile block bb sink_tokens : Z) (Hnf : 0 < nf) (Hfs : 0 < fs) (Htile : 0 < tile) (Hblock : 0 < block).
Local Abbreviation tpf := (cdiv fs tile).
Local Abbreviation lo := (frame_aligned_block_bounds nf fs tile).1.
Local Abbreviation hi := (frame_aligned_block_bounds nf fs tile).2.
Local Abbreviation kv := (nf * fs).
Local Abbreviation seg n := (Z.to_nat (token_aligned_block fs tile n)).
Local Abbreviation sm := (spatial_major_index fs nf).

Lemma length_svg_lo : length lo = Z.to_nat (nf * tpf).
Proof. apply length_aligned_lo; lia. Qed.

Lemma length_svg_hi : length hi = Z.to_nat (nf * tpf).
Proof.
  pose proof length_svg_lo as Hl. pose proof (bpf_pos fs tile Hfs Htile). cbn in *. rewrite length_fmap, length_app, length_tl, Hl. cbn. nia.
Qed.

Lemma length_overlapping a b : length (overlapping lo hi a b) = Z.to_nat (nf * tpf).
Proof. unfold overlapping. rewrite length_zip_with, length_svg_lo, length_svg_hi. lia. Qed.

(** The segment of a token holds it. *)
Lemma token_segment n : 0 <= n < kv -> exists f t, 0 <= f < nf /\ 0 <= t < tpf /\ n / fs = f /\ n mod fs / tile = t /\ seg n = Z.to_nat (f * tpf + t) /\
  lo !! seg n = Some (f * fs + t * tile) /\ hi !! seg n = Some (f * fs + Z.min ((t + 1) * tile) fs) /\ f * fs + t * tile <= n < f * fs + Z.min ((t + 1) * tile) fs.
Proof.
  intros Hn. pose proof (bpf_pos fs tile Hfs Htile). pose proof (cdiv_spec fs tile Htile). pose proof (Z.div_mod n fs ltac:(lia)) as En. pose proof (Z.mod_pos_bound n fs Hfs) as Hm.
  pose proof (Z.div_mod (n mod fs) tile ltac:(lia)) as Er. pose proof (Z.mod_pos_bound (n mod fs) tile Htile).
  exists (n / fs), (n mod fs / tile). assert (0 <= n mod fs / tile < tpf) by (split; [apply Z.div_pos; lia|nia]).
  assert (0 <= n / fs < nf) by (split; [apply Z.div_pos; lia|apply Z.div_lt_upper_bound; lia]).
  destruct (aligned_at nf fs tile (ltac:(lia)) Hfs Htile (n / fs) (n mod fs / tile) 0) as [E1 E2]; [done..|]. cbn [seg_at] in E1, E2.
  assert (Z.to_nat (n / fs * tpf + n mod fs / tile) < Z.to_nat (nf * tpf))%nat by nia. unfold token_aligned_block.
  split_and!; try done; try nia.
  - destruct (lookup_lt_is_Some_2 lo (Z.to_nat (n / fs * tpf + n mod fs / tile))) as [x Ex]; [by rewrite length_svg_lo|]. change (frame_aligned_block_lo nf fs tile) with lo in E1. rewrite Ex in E1 |- *. cbn in E1. by rewrite E1.
  - destruct (lookup_lt_is_Some_2 hi (Z.to_nat (n / fs * tpf + n mod fs / tile))) as [x Ex]; [by rewrite length_svg_hi|]. rewrite Ex in E2 |- *. cbn in E2. by rewrite E2.
Qed.

Lemma overlapping_at a b n : 0 <= n < kv -> a <= n < b -> nthb (overlapping lo hi a b) (seg n) = true.
Proof.
  intros Hn Hab. destruct (token_segment n Hn) as (f & t & _ & _ & _ & _ & _ & El & Eh & Hin). unfold nthb, overlapping. rewrite lookup_zip_with, El, Eh. cbn.
  apply andb_true_iff. rewrite !Z.ltb_lt. lia.
Qed.

Lemma length_spatial_row rlo rhi : length (spatial_row lo hi block bb kv sink_tokens rlo rhi) = Z.to_nat (nf * tpf).
Proof. unfold spatial_row. destruct (0 <? sink_tokens); rewrite !length_zip_with, !length_overlapping; lia. Qed.

Lemma band_interval x y a b : 0 <= y -> a <= x / block <= b -> Z.abs (x / block - y / block) < bb -> (a - bb + 1) * block <= y < (b + bb) * block.
Proof.
  intros Hy Hx Hd. pose proof (Z.div_mod y block ltac:(lia)). pose proof (Z.mod_pos_bound y block Hblock). nia.
Qed.

Lemma spatial_row_covers rlo rhi r n : rlo <= r < rhi -> 0 <= n < kv -> Z.abs (r / block - n / block) < bb \/ n < sink_tokens \/ n = r ->
  nthb (spatial_row lo hi block bb kv sink_tokens rlo rhi) (seg n) = true.
Proof.
  intros Hr Hn Hor. unfold spatial_row. set (band := overlapping lo hi _ _). set (sink := overlapping lo hi 0 sink_tokens). set (own := overlapping lo hi rlo rhi).
  assert (rlo / block <= r / block <= (rhi - 1) / block) as Hrb by (split; apply Z.div_le_mono; lia).
  rewrite nthb_or by (destruct (0 <? sink_tokens); rewrite ?length_zip_with; unfold band, sink, own; rewrite ?length_overlapping; lia).
  assert (length band = length sink) as Hl by (unfold band, sink; by rewrite !length_overlapping). apply orb_true_iff. destruct Hor as [Hb|[Hs|Hs] ].
  - left. assert (nthb band (seg n) = true) as E.
    { apply overlapping_at; [done|]. pose proof (band_interval r n _ _ (proj1 Hn) Hrb Hb). lia. }
    destruct (0 <? sink_tokens); [rewrite nthb_or, E by done|]; done.
  - left. destruct (Z.ltb_spec 0 sink_tokens); [|lia]. rewrite nthb_or by done. apply orb_true_iff. right. apply overlapping_at; lia.
  - right. subst n. apply overlapping_at; lia.
Qed.

(** The tiles of one frame. *)
Lemma within_at (t : Z) : 0 <= t < tpf ->
  zip (take (Z.to_nat tpf) lo) (Z.min fs <$> take (Z.to_nat tpf) hi) !! Z.to_nat t = Some (t * tile, Z.min ((t + 1) * tile) fs).
Proof.
  intros Ht. pose proof (cdiv_spec fs tile Htile) as Hc. assert (t * tile < fs) as Htf by nia. destruct (token_segment (t * tile) ltac:(nia)) as (f & t' & _ & _ & Ef & Et & Es & El & Eh & _).
  rewrite Z.div_small in Ef by nia. rewrite Z.mod_small, Z.div_mul in Et by nia. subst f t'. rewrite Z.mul_0_l, Z.add_0_l in Es. rewrite Es, !Z.mul_0_l, !Z.add_0_l in *.
  rewrite lookup_zip_with, list_lookup_fmap, !lookup_take_lt, El, Eh by lia. cbn. do 2 f_equal. lia.
Qed.

Lemma length_within : length (zip (take (Z.to_nat tpf) lo) (Z.min fs <$> take (Z.to_nat tpf) hi)) = Z.to_nat tpf.
Proof. pose proof (bpf_pos fs tile Hfs Htile). rewrite length_zip_with, length_fmap, !length_take, length_svg_lo, length_svg_hi. nia. Qed.

(** A spatial-major index below a bound, solved for the cell. *)
Lemma cell_below f c bound : 0 <= f < nf -> c * nf + f < bound -> c < (bound - f + nf - 1) / nf.
Proof. intros Hf Hb. assert (c + 1 <= (bound - f + nf - 1) / nf) by (apply Z.div_le_lower_bound; nia). lia. Qed.

Lemma cell_above f c bound : 0 <= f < nf -> bound <= c * nf + f -> (bound - f + nf - 1) / nf <= c.
Proof. intros Hf Hb. assert ((bound - f + nf - 1) / nf < c + 1) by (apply Z.div_lt_upper_bound; nia). lia. Qed.

Lemma temporal_row_covers rows : rows <> [] -> Forall (fun r => 0 <= r < kv) rows ->
  exists row, temporal_row lo hi (Z.to_nat tpf) fs nf block bb sink_tokens rows = Ok row /\ length row = Z.to_nat (nf * tpf) /\
  forall r n, r ∈ rows -> 0 <= n < kv -> Z.abs (sm r / block - sm n / block) < bb \/ sm n < sink_tokens \/ n = r -> nthb row (seg n) = true.
Proof.
  intros Hne Hrows. pose proof (bpf_pos fs tile Hfs Htile) as Htpf. unfold temporal_row. set (sms := sm <$> rows).
  destruct (zminimum sms) as [lo_|] eqn:Elo; [|by destruct rows]. destruct (zmaximum sms) as [hi_|] eqn:Ehi; [|by destruct rows]. cbn [or_raise mbind res_bind].
  set (within := zip _ _). set (temporal := zrange 0 nf ≫= _).
  assert (length temporal = Z.to_nat (nf * tpf)) as Hl.
  { unfold temporal. rewrite (length_bind_uniform _ _ (Z.to_nat tpf)) by (intros; rewrite length_fmap; apply length_within). rewrite length_zr. nia. }
  assert (forall r n, r ∈ rows -> 0 <= n < kv -> Z.abs (sm r / block - sm n / block) < bb \/ sm n < sink_tokens -> nthb temporal (seg n) = true) as Hcov.
  { intros r n Hr Hn Hor. destruct (token_segment n Hn) as (f & t & Hf & Ht & Ef & Et & -> & _ & _ & Hin). unfold nthb, temporal.
    replace (Z.to_nat (f * tpf + t)) with (Z.to_nat f * Z.to_nat tpf + Z.to_nat t)%nat by nia.
    rewrite (lookup_bind_uniform _ _ (Z.to_nat tpf)); [|intros; rewrite length_fmap; apply length_within|lia]. unfold zrange. rewrite lookup_seqZ_lt by lia.
    cbn [mbind option_bind]. rewrite list_lookup_fmap. unfold within. rewrite within_at by done. replace (0 + Z.of_nat (Z.to_nat f)) with f by lia. cbn [fmap option_fmap option_map from_option id fst snd].
    set (c := n mod fs) in *. pose proof (Z.div_mod n fs ltac:(lia)) as En. pose proof (Z.mod_pos_bound n fs Hfs) as Hc. fold c in En, Hc.
    assert (sm n = c * nf + f) as Esm by (unfold sm, spatial_major_index; fold c; by rewrite Ef). rewrite Esm in Hor. apply orb_true_iff. rewrite !andb_true_iff, !Z.ltb_lt.
    destruct Hor as [Hb|Hs].
    - left. assert (lo_ / block <= sm r / block <= hi_ / block) as Hrb.
      { assert (sm r ∈ sms) as Hin' by (apply list_elem_of_fmap; eauto). split; apply Z.div_le_mono; [lia|by eapply zminimum_le|lia|by eapply zmaximum_ge]. }
      pose proof (band_interval (sm r) (c * nf + f) _ _ ltac:(nia) Hrb Hb).
      pose proof (cell_above f c (Z.max 0 ((lo_ / block - bb + 1) * block)) Hf ltac:(lia)).
      assert (c * nf + f < kv) as Hkvc by (clear - Hc Hf Hfs; nia).
      pose proof (cell_below f c (Z.min kv ((hi_ / block + bb) * block)) Hf ltac:(lia)). rewrite Ef in En. lia.
    - right. pose proof (cell_below f c sink_tokens Hf Hs). nia. }
  destruct (Z.ltb_spec bb 1) as [Hbb|Hbb].
  - destruct (zminimum rows) as [a|] eqn:Ea; [|by destruct rows]. destruct (zmaximum rows) as [b|] eqn:Eb; [|by destruct rows]. cbn [or_raise mbind res_bind].
    eexists. split; [done|]. split; [rewrite length_zip_with, length_overlapping; lia|]. intros r n Hr Hn Hor. rewrite nthb_or by (rewrite length_overlapping; lia). apply orb_true_iff.
    destruct Hor as [?|[?|Hnr] ]; [left; eauto..|]. right. subst n. apply overlapping_at; [done|]. pose proof (zminimum_le _ _ _ Ea Hr). pose proof (zmaximum_ge _ _ _ Eb Hr). lia.
  - exists temporal. split; [done|]. split; [done|]. intros r n Hr Hn Hor. apply (Hcov r n Hr Hn). destruct Hor as [?|[?|Hnr] ]; [auto..|]. subst n. left. lia.
Qed.

End svg1_masks.

(** ** Candidate masks of a layout *)

Section svg1_candidates.
Context {F : Type} `{!Num F}.
Context (layout : VisibleLayout) (q_len : Z) (config : Svg1Config F) (bb : Z).
Local Abbreviation nf := (num_frames layout).
Local Abbreviation fs := (frame_seqlen layout).
Local Abbreviation kv := (nf * fs).
Local Abbreviation block := (s1_block config).
Local Abbreviation tile := (key_tile config).
Local Abbreviation offset := (kv - q_len).
Local Abbreviation sink_tokens := (Z.min (s1_dense_sink_frames config) nf * fs).
Local Abbreviation lo := (frame_aligned_block_bounds nf fs tile).1.
Local Abbreviation hi := (frame_aligned_block_bounds nf fs tile).2.
Local Abbreviation seg n := (Z.to_nat (token_aligned_block fs tile n)).
Context (Hbb : band_blocks (band_frames config) fs block = Ok bb) (Hnf : 0 < nf) (Hfs : 0 < fs) (Htile : 0 < tile) (Hblock : 0 < block) (Hq : 0 < q_len <= kv).

(** A row of a mask covers token [r]: what a pattern keeps, and [r] itself. *)
Definition row_covers (near : Z -> Z -> Prop) (row : list bool) (r : Z) : Prop :=
  length row = Z.to_nat (nf * cdiv fs tile) /\ forall n, 0 <= n < kv -> near r n \/ n = r -> nthb row (seg n) = true.

Definition spatial_near (r n : Z) : Prop := Z.abs (r / block - n / block) < bb \/ n < sink_tokens.
Definition temporal_near (r n : Z) : Prop := spatial_near (spatial_major_index fs nf r) (spatial_major_index fs nf n).

Lemma svg1_masks_ok : exists spatial temporal permutation,
  build_svg1_segment_masks layout q_len kv config = Ok (spatial, temporal, permutation) /\ permutation ≡ₚ zrange 0 q_len /\
  length spatial = Z.to_nat (cdiv q_len block) /\ length temporal = Z.to_nat (cdiv q_len block) /\
  forall i, 0 <= i < q_len ->
    (exists row, spatial !! Z.to_nat (i / block) = Some row /\ row_covers spatial_near row (i + offset)) /\
    (exists row, temporal !! Z.to_nat (i / block) = Some row /\ row_covers temporal_near row (at_index permutation i + offset)).
Proof.
  unfold build_svg1_segment_masks. rewrite Hbb. bind_step. destruct (Z.eqb_spec tile 0) as [|Htz]; [lia|].
  rewrite (surjective_pairing (frame_aligned_block_bounds nf fs tile)). unfold chunk_spatial_major_permutation. rewrite py_div_Ok by lia. bind_step.
  set (perm := np_argsort _). assert (perm ≡ₚ zrange 0 q_len) as Hp by (unfold perm; rewrite np_argsort_perm, length_fmap, length_zr; f_equiv; f_equal; lia).
  unfold block_bounds. set (blocks := zip _ _). pose proof (cdiv_spec q_len block Hblock) as Hcd.
  assert (length blocks = Z.to_nat (cdiv q_len block)) as Hlb by (unfold blocks; rewrite length_zip_with, length_block_lo, length_block_hi; unfold num_blocks; lia).
  assert (forall b, 0 <= b < cdiv q_len block -> blocks !! Z.to_nat b = Some (b * block, Z.min (b * block + block) q_len)) as Hat.
  { intros b Hb. unfold blocks. rewrite lookup_zip_with, block_lo_at, block_hi_at by (unfold num_blocks; lia). done. }
  set (rows := fun b : Z * Z => (fun r => r + offset) <$> take (Z.to_nat (b.2 - b.1)) (drop (Z.to_nat b.1) perm)).
  pose proof (rearranged_length perm q_len Hp ltac:(lia)) as Hpl.
  assert (forall b, 0 <= b < cdiv q_len block -> rows (b * block, Z.min (b * block + block) q_len) <> [] /\ Forall (fun r => 0 <= r < kv) (rows (b * block, Z.min (b * block + block) q_len)) /\
    forall i, b * block <= i < Z.min (b * block + block) q_len -> at_index perm i + offset ∈ rows (b * block, Z.min (b * block + block) q_len)) as Hrows.
  { intros b Hb. assert (forall i, b * block <= i < Z.min (b * block + block) q_len -> at_index perm i + offset ∈ rows (b * block, Z.min (b * block + block) q_len)) as Hin.
    { intros i Hi. unfold rows. apply list_elem_of_fmap. exists (at_index perm i). split; [done|]. apply list_elem_of_lookup. exists (Z.to_nat (i - b * block)). cbn [fst snd].
      rewrite lookup_take_lt, lookup_drop by lia. rewrite <- at_index_lookup by lia. f_equal. nia. }
    split_and!; [|apply Forall_forall|done].
    - assert (at_index perm (b * block) + offset ∈ rows (b * block, Z.min (b * block + block) q_len)) as Hx by (apply Hin; nia). intros E. rewrite E in Hx. by apply not_elem_of_nil in Hx.
    - intros r (x & -> & (j & Hj)%list_elem_of_lookup)%list_elem_of_fmap. apply lookup_take_Some in Hj as [Hj _]. rewrite lookup_drop in Hj. apply list_elem_of_lookup_2 in Hj.
      rewrite Hp in Hj. apply elem_of_zrange in Hj. lia. }
  set (trow := temporal_row lo hi (Z.to_nat (cdiv fs tile)) fs nf block bb sink_tokens).
  assert (forall b, 0 <= b < cdiv q_len block -> exists row, trow (rows (b * block, Z.min (b * block + block) q_len)) = Ok row /\
    forall i, b * block <= i < Z.min (b * block + block) q_len -> row_covers temporal_near row (at_index perm i + offset)) as Ht.
  { intros b Hb. destruct (Hrows b Hb) as (Hne & Hall & Hin). destruct (temporal_row_covers nf fs tile block bb sink_tokens Hnf Hfs Htile Hblock _ Hne Hall) as (row & E & Hl & Hcov).
    exists row. split; [exact E|]. intros i Hi. split; [done|]. intros n Hn Hor. apply (Hcov _ n (Hin i Hi) Hn). unfold temporal_near, spatial_near in Hor. tauto. }
  set (g := fun b => match trow (rows b) with Ok r => r | Raise _ => [] end).
  rewrite (mapM_Ok _ g).
  2:{ intros x (j & Hj)%list_elem_of_lookup. pose proof (lookup_lt_Some _ _ _ Hj). pose proof (Hat (Z.of_nat j) ltac:(lia)) as E. rewrite Nat2Z.id in E. rewrite E in Hj. injection Hj as <-.
      destruct (Ht (Z.of_nat j) ltac:(lia)) as (row & Er & _). unfold g. rewrite Er. exact Er. }
  bind_step. destruct blocks as [|b0 bs] eqn:Eb; [cbn in Hlb; nia|]. rewrite <- Eb in *. eexists _, _, perm. split; [done|].
  split_and!; [done|by rewrite length_fmap|by rewrite length_fmap|]. intros i Hi. destruct (token_block q_len block i Hblock Hi) as [Hbi Hin]. unfold num_blocks in Hbi.
  rewrite !list_lookup_fmap, (Hat _ Hbi). cbn [fmap option_fmap option_map fst snd]. split; eexists; (split; [done|]).
  - split; [by apply length_spatial_row|]. intros n Hn Hor. apply (spatial_row_covers nf fs tile block bb sink_tokens Hnf Hfs Htile Hblock _ _ (i + offset)); [lia|done|]. unfold spatial_near in Hor. tauto.
  - destruct (Ht _ Hbi) as (row & Er & Hcov). unfold g. rewrite Er. by apply Hcov.
Qed.

(** The token masks in terms of the patterns. *)
Lemma token_masks_near banded permuted r n : 0 <= s1_dense_sink_frames config -> 0 <= r < kv -> 0 <= n < kv ->
  svg1_token_masks nf fs (band_frames config) (s1_dense_sink_frames config) block = Ok (banded, permuted) ->
  (mask_entry banded r n = true -> spatial_near r n) /\ (mask_entry permuted r n = true -> temporal_near r n).
Proof.
  intros Hsk Hr Hn. unfold svg1_token_masks. rewrite Hbb. bind_step. set (bd := _ <$> zrange 0 kv). intros [= <- <-].
  assert (forall i j, 0 <= i < kv -> 0 <= j < kv -> mask_entry bd i j = true -> spatial_near i j) as Hband.
  { intros i j Hi Hj. unfold mask_entry, bd. rewrite list_lookup_fmap. unfold zrange. rewrite lookup_seqZ_lt by lia. cbn [fmap option_fmap option_map mbind option_bind].
    rewrite keep_leading_at, list_lookup_fmap by (rewrite ?length_fmap, ?length_seqZ; nia). rewrite lookup_seqZ_lt by lia.
    cbn [fmap option_fmap option_map from_option id]. rewrite !Z2Nat.id, !Z.add_0_l by lia. unfold spatial_near. rewrite orb_true_iff, !Z.ltb_lt. nia. }
  split; [by apply Hband|]. unfold mask_entry at 1. rewrite list_lookup_fmap. unfold zrange. rewrite lookup_seqZ_lt by lia. cbn [fmap option_fmap option_map mbind option_bind].
  rewrite list_lookup_fmap. unfold zrange. rewrite lookup_seqZ_lt by lia. cbn [fmap option_fmap option_map from_option id]. rewrite !Z2Nat.id, !Z.add_0_l by lia.
  assert (forall x, 0 <= x < kv -> 0 <= spatial_major_index fs nf x < kv) as Hsm.
  { intros x Hx. unfold spatial_major_index. pose proof (Z.mod_pos_bound x fs Hfs). assert (0 <= x / fs < nf) by (split; [apply Z.div_pos; lia|apply Z.div_lt_upper_bound; lia]). nia. }
  apply Hband; by apply Hsm.
Qed.

End svg1_candidates.
