(* ===== verification/SvgClaims.v ===== *)
(** * SvgClaims: what Sparse VideoGen reads

    SVG2 reads the chunk's own keys and the clusters that reach the top-p mass,
    whatever the clustering; SVG1 reads at least what the token mask of the
    pattern it chose for the head keeps. *)

From Stdlib Require Import QArith Qcanon.
From S2P Require Import Prelude Num SparsePlan SparsePlanSpec SparseKernel SparseKernelSpec SparseClaims SparseContext SparseBackend SparseBackendSpec Sta StaSpec Osa OsaSpec XAttention FastAr LightForcing LightForcingSpec Svg SvgSpec.

Open Scope Z_scope.

Section claims.
Context {F : Type} `{!Num F} `{!NumExp F} `{!NumLaws F} `{!NumExpLaws F} `{!TorchOrder F} `{!TorchOrderLaws F}.

(** C24: The clusters kept for a row are the strongest ones; their
    mass exceeds [p] unless all are kept, one of them is the strongest, and
    without the weakest kept one the mass does not exceed [p]. *)
Theorem top_p_keeps_mass (p : F) (logits : list F) : logits <> [] -> nle nzero p ->
  let probs := softmax logits in
  let kept := kept_blocks (select_clusters_by_top_p p logits) in
  (kept ≡ₚ zrange 0 (Z.of_nat (length logits)) \/ nlt p (nsum (nth_num probs <$> kept))) /\
  (exists weakest rest, kept ≡ₚ weakest :: rest /\ nle (nsum (nth_num probs <$> rest)) p) /\
  (forall i j, i ∈ kept -> 0 <= j < Z.of_nat (length logits) -> j ∉ kept -> nle (nth_num probs j) (nth_num probs i)).
Proof.
  intros Hne Hp probs kept. destruct (top_p_prefix p logits Hne) as (k & Hk & Hkept & Hmass & Hmin). fold kept in Hkept. fold probs in Hmass, Hmin, Hkept.
  pose proof (argsort_desc_perm probs) as Hperm. pose proof (argsort_desc_sorted probs) as Hsort. set (ind := argsort_desc probs) in *.
  assert (length ind = length logits) as Hl by apply length_indices. split_and!.
  - destruct Hmass as [->|Hm]; [left|right; by rewrite Hkept]. rewrite Hkept, take_ge by lia. rewrite Hperm. unfold probs. by rewrite length_softmax.
  - destruct (lookup_lt_is_Some_2 ind (k - 1)) as [z Hz]; [lia|]. exists z, (take (k - 1) ind). split.
    + rewrite Hkept. replace k with (S (k - 1)) at 1 by lia. rewrite (take_S_r _ _ _ Hz). by rewrite Permutation_app_comm.
    + destruct (decide (1 < k)%nat) as [H1|]; [by apply Hmin|]. replace (k - 1)%nat with 0%nat by lia. rewrite take_0. done.
  - intros i j Hi Hj Hnj. rewrite Hkept in Hi, Hnj. apply (StronglySorted_take_drop _ ind k i j Hsort Hi).
    assert (j ∈ ind) as Hin by (rewrite Hperm; unfold probs; rewrite length_softmax; by apply elem_of_zrange).
    rewrite <- (take_drop k ind) in Hin. apply elem_of_app in Hin as [?|?]; done.
Qed.

(** ** SVG2 *)

Definition segment_tokens (segs : KeySegments) : Z := foldr Z.add 0 segs.*2.

(** Every cached clustering is one of the history its signature names. *)
Definition clusters_ok (H : nat) (s : svg2_state F) : Prop :=
  forall layer segs hl nc k, s2_clusters s !! layer = Some ((Some segs, hl, nc), k) -> 1 <= nc -> 0 <= hl ->
    exists labels, clustered k H hl nc (segment_tokens segs - hl) labels.

Lemma layout_of_tokens (call : SparseAttentionCall F) b b' l segs : layout_of call b = Ok (Some l, b') -> key_segments call = Some segs -> segment_tokens segs = c_kv_len call.
Proof.
  unfold layout_of. intros E Es. destruct (b_geometry b) as [g|]; [|done]. rewrite Es in E. destruct (_ || _); [done|].
  unfold segment_tokens. destruct (Z.eqb_spec (foldr Z.add 0 segs.*2) (c_kv_len call)); [done|discriminate].
Qed.

Section svg2.
Context (nlog : F -> F).

Lemma clustering_ok call hl nc (s : svg2_state F) segs k s1 : clusters_ok (num_local_heads call) s -> key_segments call = Some segs -> segment_tokens segs = c_kv_len call ->
  1 <= nc -> 0 <= hl -> clustering nlog call hl nc s = (k, s1) ->
  clusters_ok (num_local_heads call) s1 /\ s2_base s1 = s2_base s /\ s2_config s1 = s2_config s /\
  exists labels, clustered k (num_local_heads call) hl nc (c_kv_len call - hl) labels /\
    (s2_clusters s !! layer_index call = None -> labels = kmeans_labels (history_keys call hl) nc (kmeans_iters (s2_config s)) None).
Proof.
  intros Hok Es Ht Hnc Hhl E. unfold clustering in E. rewrite Es in E.
  assert (length (history_keys call hl) = num_local_heads call) as Hlh by (unfold history_keys; by rewrite length_fmap, length_seq).
  assert (forall iters init, clustered (cluster_keys nlog (history_keys call hl) nc iters (c_kv_len call - hl) hl init) (num_local_heads call) hl nc (c_kv_len call - hl)
    (kmeans_labels (history_keys call hl) nc iters init)) as Hnew.
  { intros iters init. rewrite <- Hlh. apply cluster_keys_ok; [done|]. apply Forall_fmap, Forall_forall. intros h _. cbn. rewrite length_fmap, length_zr. lia. }
  destruct (s2_clusters s !! layer_index call) as [[sg c]|] eqn:Ec; [case_decide as Esg|].
  - injection E as <- <-. subst sg. split; [done|]. split_and!; try done. destruct (Hok _ _ _ _ _ Ec Hnc Hhl) as [labels Hc]. exists labels. split; [by rewrite <- Ht|done].
  - injection E as <- <-. split.
    + intros layer segs' hl' nc' k' E' Hnc' Hhl'. cbn [s2_clusters] in E'. destruct (decide (layer = layer_index call)) as [->|].
      * rewrite lookup_insert_eq in E'. injection E' as <- <- <- <-. rewrite Ht. by eexists.
      * rewrite lookup_insert_ne in E' by done. eapply Hok; done.
    + split_and!; try done. eexists. by split.
  - injection E as <- <-. split.
    + intros layer segs' hl' nc' k' E' Hnc' Hhl'. cbn [s2_clusters] in E'. destruct (decide (layer = layer_index call)) as [->|].
      * rewrite lookup_insert_eq in E'. injection E' as <- <- <- <-. rewrite Ht. by eexists.
      * rewrite lookup_insert_ne in E' by done. eapply Hok; done.
    + split_and!; try done. eexists. split; [apply Hnew|]. intros _. by destruct (0 <? kmeans_warm_iters (s2_config s)).
Qed.

(** A call that plans. *)
Record svg2_call (call : SparseAttentionCall F) (s : svg2_state F) (layout : VisibleLayout) (segs : KeySegments) (nc : Z) (k : KeyClustering F) (s1 : svg2_state F) : Prop := {
  sv_layout : layout_of call (s2_base s) = Ok (Some layout, s2_base s);
  sv_segs : key_segments call = Some segs;
  sv_sizes : 0 < c_q_len call < c_kv_len call /\ (0 < num_local_heads call)%nat /\ 0 < s2_block (s2_config s) /\ 0 < cluster_size (s2_config s);
  sv_clusters : nc = (c_kv_len call - c_q_len call) / cluster_size (s2_config s) /\ 2 <= nc;
  sv_cache : clusters_ok (num_local_heads call) s;
  sv_clustering : clustering nlog call (c_kv_len call - c_q_len call) nc s = (k, s1);
  sv_sparse : forallb (forallb (forallb id)) (select_clusters (s2_config s) call k
    (fun b i h => query call b (at_index (cluster_query_order call k h) i) h)) = false }.

(** The clusters a row of the permuted queries keeps. *)
Definition svg2_row (c : Svg2Config F) (call : SparseAttentionCall F) (k : KeyClustering F) (h : nat) (b : Z) : list bool :=
  select_clusters_by_top_p (top_p c) (cluster_logits (Z.to_nat (head_dim call)) (fun i => query call 0%nat (at_index (cluster_query_order call k h) i) h)
    (c_q_len call) (s2_block c) (softmax_scale call) (default [] (kc_centroids k !! h)) (default [] (kc_log_size k !! h)) b) ++ [true].

Section call.
Context (garbage : nat) (order : list (nat * nat) -> list (nat * nat)) call (s : svg2_state F) layout segs nc k s1 (Hc : svg2_call call s layout segs nc k s1).
Local Abbreviation hl := (c_kv_len call - c_q_len call).
Local Abbreviation H := (num_local_heads call).
Local Abbreviation Q := (Z.to_nat (cdiv (c_q_len call) (s2_block (s2_config s)))).
Local Abbreviation keep := (select_clusters (s2_config s) call k (fun b i h => query call b (at_index (cluster_query_order call k h) i) h)).
Local Abbreviation the_plan := (plan_from_segment_mask (F:=F) garbage keep (PerHead (kc_starts k)) (PerHead (kc_ends k)) (s2_block (s2_config s)) None).

Lemma svg2_planned : svg2_prepare garbage nlog call layout s = Ok (Some (mkExecution the_plan
  (fun b i h => query call b (at_index (cluster_query_order call k h) i) h) (permute_kv k hl (key call)) (permute_kv k hl (value call))
  (Some (fun _ i h => at_index (cluster_query_order call k h) i))), s1).
Proof.
  destruct Hc as [_ _ (Hq & _ & Hb & Hcs) (Hnc & Hnc2) _ Hk Hsp]. unfold svg2_prepare. rewrite py_div_Ok by lia. bind_step. rewrite <- Hnc.
  destruct (Z.leb_spec hl 0); [lia|]. destruct (Z.ltb_spec nc 2); [lia|]. cbn [orb]. rewrite Hk. destruct (Z.eqb_spec (s2_block (s2_config s)) 0); [lia|].
  by rewrite Hsp.
Qed.

Lemma svg2_row_at h b labels : clustered k H hl nc (c_q_len call) labels -> (h < H)%nat -> 0 <= b < cdiv (c_q_len call) (s2_block (s2_config s)) ->
  mask_at keep h (Z.to_nat b) = svg2_row (s2_config s) call k h b /\ length (svg2_row (s2_config s) call k h b) = S (Z.to_nat nc) /\
  nthb (svg2_row (s2_config s) call k h b) (Z.to_nat nc) = true.
Proof.
  intros Hcl Hh Hb. split.
  - unfold mask_at, select_clusters. rewrite list_lookup_fmap, lookup_seq_lt by done. cbn [fmap option_fmap option_map mbind option_bind]. rewrite list_lookup_fmap.
    unfold zrange. rewrite lookup_seqZ_lt by lia. cbn [fmap option_fmap option_map from_option id]. unfold svg2_row. by replace (0 + Z.of_nat (Z.to_nat b)) with b by lia.
  - destruct (cl_centroids _ _ _ _ _ _ Hcl h Hh) as (cs & Ecs & Hcs). destruct (cl_sizes _ _ _ _ _ _ Hcl h Hh) as (ls & Els & Hls).
    assert (length (select_clusters_by_top_p (top_p (s2_config s)) (cluster_logits (Z.to_nat (head_dim call)) (fun i => query call 0%nat (at_index (cluster_query_order call k h) i) h)
      (c_q_len call) (s2_block (s2_config s)) (softmax_scale call) (default [] (kc_centroids k !! h)) (default [] (kc_log_size k !! h)) b)) = Z.to_nat nc) as Hl.
    { rewrite top_p_length. unfold cluster_logits. rewrite Ecs, Els. cbn [from_option id]. rewrite length_zip_with. lia. }
    unfold svg2_row. split; [rewrite length_app, Hl; cbn; lia|]. unfold nthb. rewrite lookup_app_r, Hl, Nat.sub_diag by lia. done.
Qed.

Lemma svg2_mask_shape labels : clustered k H hl nc (c_q_len call) labels -> mask_shape H Q (S (Z.to_nat nc)) keep.
Proof.
  intros Hcl. destruct (sv_sizes _ _ _ _ _ _ _ Hc) as (Hq & HH & Hb & _). pose proof (cdiv_spec (c_q_len call) (s2_block (s2_config s)) Hb).
  split; [by unfold select_clusters; rewrite length_fmap, length_seq|]. split; [|split; [done|nia] ].
  apply Forall_lookup. intros h hm E. pose proof (lookup_lt_Some _ _ _ E) as Hh. unfold select_clusters in Hh. rewrite length_fmap, length_seq in Hh.
  unfold select_clusters in E. rewrite list_lookup_fmap, lookup_seq_lt in E by done. injection E as <-. split; [rewrite length_fmap, length_zr; lia|].
  apply Forall_fmap, Forall_forall. intros b Hbr%elem_of_zrange. by apply (svg2_row_at h b labels Hcl Hh).
Qed.
End call.
End svg2.

(** C22: On a call that plans, SVG2 gives every query exact softmax
    attention over the chunk's own keys and the history keys of the clusters
    its block keeps, in the original token order: packing keys by cluster and
    sorting queries cancel.  The clusters partition the history; a first
    clustering is the k-means of its keys, and cached clusterings stay valid. *)
Theorem svg2_attends nlog (order : list (nat * nat) -> list (nat * nat)) garbage call s layout segs nc k s1 :
  (forall l, order l ≡ₚ l) -> svg2_call nlog call s layout segs nc k s1 ->
  let hl := c_kv_len call - c_q_len call in
  exists out s' labels, svg2_attend garbage order nlog call s = Ok (Some out, s') /\ clusters_ok (num_local_heads call) s' /\
  clustered k (num_local_heads call) hl nc (c_q_len call) labels /\
  (s2_clusters s !! layer_index call = None -> labels = kmeans_labels (history_keys call hl) nc (kmeans_iters (s2_config s)) None) /\
  forall b m h, (b < c_batch call)%nat -> 0 <= m < c_q_len call -> (h < num_local_heads call)%nat ->
  exists i, 0 <= i < c_q_len call /\ at_index (cluster_query_order call k h) i = m /\
    out !! (b, m, h) = Some (attend_keys (Z.to_nat (head_dim call)) (block_logit (query call) (key call) (softmax_scale call) b m h) (fun n => value call b n h)
      (filter (fun n => cluster_reads hl labels (svg2_row (s2_config s) call k h (i / s2_block (s2_config s))) h n = true) (zrange 0 (c_kv_len call)))).
Proof.
  intros Hord Hc hl. pose proof (svg2_planned nlog garbage _ _ _ _ _ _ _ Hc) as Hp. pose proof Hc as [HL Es (Hq & HH & Hb & Hcs) (Hnc & Hnc2) Hok Hk Hsp].
  pose proof (layout_of_tokens _ _ _ _ _ HL Es) as Ht. destruct (clustering_ok nlog call hl nc s segs k s1 Hok Es Ht ltac:(lia) ltac:(lia) Hk) as (Hok1 & Eb & Ec & labels & Hcl & Hlab).
  replace (c_kv_len call - hl) with (c_q_len call) in Hcl by (unfold hl; lia). pose proof (svg2_mask_shape nlog _ _ _ _ _ _ _ Hc labels Hcl) as Hms.
  pose proof (cdiv_spec (c_q_len call) (s2_block (s2_config s)) Hb) as Hcd. set (Q := Z.to_nat (cdiv (c_q_len call) (s2_block (s2_config s)))) in *.
  assert (0 < Q)%nat as HQ by (unfold Q; nia). assert (hl + c_q_len call = c_kv_len call) as Ekv by (unfold hl; lia).
  assert (segmented (num_local_heads call) Q (S (Z.to_nat nc)) _ (PerHead (kc_starts k)) (PerHead (kc_ends k)) (hl + c_q_len call)) as Hsg
    by (eapply cluster_segmented; [exact Hcl|lia..|exact Hms]). rewrite Ekv in Hsg.
  assert (forall h, cluster_query_order call k h ≡ₚ zrange 0 (c_q_len call)) as Hperm.
  { intros h. unfold cluster_query_order. rewrite np_argsort_perm, !length_fmap, length_zr. f_equiv. f_equal. lia. }
  destruct (permuted_attention order garbage _ _ _ _ _ _ _ (s2_block (s2_config s)) (c_batch call) (c_q_len call) (Z.to_nat (head_dim call)) (query call) (key call) (value call)
    (fun b i h => query call b (at_index (cluster_query_order call k h) i) h) (permute_kv k hl (key call)) (permute_kv k hl (value call)) (softmax_scale call) (fun h i => at_index (cluster_query_order call k h) i) (cluster_move k hl) Hord Hsg Hb) as (out & Eout & Hout).
  { unfold Q. rewrite Z2Nat.id by nia. done. }
  { intros h. apply (rearranged_inj _ _ (Hperm h)). }
  { done. }
  1-2: intros b n h; unfold permute_kv, cluster_move; by destruct (n <? hl).
  exists (scatter_rows (fun _ i h => at_index (cluster_query_order call k h) i) out). eexists. exists labels. split; [|split; [|split; [done|split; [done|] ] ] ].
  { unfold svg2_attend, attend. rewrite HL. bind_step. cbn [fst snd]. assert (put_svg2_base (s2_base s) s = s) as -> by (by destruct s). fold hl in Hp. rewrite Hp. bind_step.
    cbn [fst snd e_plan e_query e_key e_value query_permutation]. rewrite Eout. done. }
  { exact Hok1. }
  intros b m h Hbb Hm Hh. destruct (rearranged_surj _ _ (Hperm h) m Hm) as (i & Hi & Em). exists i. split_and!; [lia..|done|].
  assert (0 <= i / s2_block (s2_config s) < cdiv (c_q_len call) (s2_block (s2_config s))) as Hib by (split; [apply Z.div_pos; lia|apply Z.div_lt_upper_bound; nia]).
  destruct (svg2_row_at _ _ _ _ h _ labels Hcl Hh Hib) as (Erow & Hrl & Hlast).
  pose proof (cluster_keys_read k (num_local_heads call) hl nc (c_q_len call) labels Hcl ltac:(lia) ltac:(lia) ltac:(lia) _ h Hh Hrl Hlast) as Hkeys. rewrite Ekv in Hkeys.
  destruct (Hout b i h Hbb Hi Hh) as [_ E].
  { unfold mask_keys. rewrite Erow. intros E0. rewrite E0 in Hkeys. cbn in Hkeys. symmetry in Hkeys. apply Permutation_nil_r in Hkeys.
    assert (hl ∈ ([] : list Z)) as Hin; [|by apply not_elem_of_nil in Hin]. rewrite <- Hkeys. apply list_elem_of_filter. split; [unfold cluster_reads; destruct (Z.leb_spec hl hl); [done|lia]|].
    apply elem_of_zrange. lia. }
  rewrite Em in E. rewrite E. f_equal. unfold mask_keys. rewrite Erow, Hkeys. done.
Qed.

(** ** SVG1 *)

Lemma linspace_range last n s : 0 <= last -> 1 <= n -> s ∈ linspace_long last n -> 0 <= s <= last.
Proof.
  intros Hl Hn. unfold linspace_long. destruct (Z.eqb_spec n 1); [intros ->%list_elem_of_singleton; lia|].
  intros (i & -> & Hi%elem_of_zrange)%list_elem_of_fmap. split; [apply Z.div_pos; nia|apply Z.div_le_upper_bound; nia].
Qed.

(** *** The error of a pattern

    Query blocks spread evenly over the chunk, the rows of these blocks, and the
    mean squared distance of a head's output on those rows, under a mask whose
    row of a block lists the segments of keys it keeps, from dense attention. *)
Definition sampled_blocks (c : Svg1Config F) (q_len : Z) : list Z :=
  let n := cdiv q_len (s1_block c) in linspace_long (n - 1) (Z.min (num_sampled_blocks c) n).
Definition sampled_rows (c : Svg1Config F) (q_len : Z) : list Z :=
  sampled_blocks c q_len ≫= fun x => (fun i => Z.min (x * s1_block c + i) (q_len - 1)) <$> zrange 0 (s1_block c).
Definition squared_distance (a e : list (xf F)) : list (xf F) := zip_with (fun x y => xmul (xsub x y) (xsub x y)) a e.
Definition pattern_error (sdpa : SparseAttentionCall F -> nat -> Z -> nat -> list (xf F)) (call : SparseAttentionCall F) (layout : VisibleLayout)
    (c : Svg1Config F) (mask : list (list bool)) (rows : list Z) (h : nat) : xf F :=
  let mask_row i := default [] (mask !! Z.to_nat (at_index (sampled_blocks c (c_q_len call)) (i / s1_block c))) in
  let out i := attend_keys (Z.to_nat (head_dim call)) (block_logit (query call) (key call) (softmax_scale call) 0 (at_index rows i) h) (fun n => value call 0%nat n h)
    (filter (fun n => nthb (mask_row i) (Z.to_nat (token_aligned_block (frame_seqlen layout) (key_tile c) n)) = true) (zrange 0 (c_kv_len call))) in
  xdiv (xsum (zrange 0 (Z.of_nat (length rows)) ≫= fun i => squared_distance (out i) (sdpa (sampled_call call rows) 0%nat i h)))
    (Fin (of_Z (Z.of_nat (length rows) * head_dim call))).

Lemma bind_ext_in {A B} (f g : A -> list B) l : (forall x, x ∈ l -> f x = g x) -> l ≫= f = l ≫= g.
Proof. induction l as [|x l IH]; intros E; [done|]. csimpl. rewrite (E x), IH by set_solver. done. Qed.

Section svg1.
Context (garbage : nat) (order : list (nat * nat) -> list (nat * nat)) (sdpa : SparseAttentionCall F -> nat -> Z -> nat -> list (xf F)).

(** A call that plans. *)
Record svg1_call (call : SparseAttentionCall F) (s : svg1_state F) (layout : VisibleLayout) (segs : KeySegments) (bb : Z) (cached : svg1_cached (F:=F)) : Prop := {
  s1_layout : layout_of call (s1_base s) = Ok (Some layout, s1_base s);
  s1_segs : key_segments call = Some segs /\ Forall (fun seg => 0 <= seg.2) segs;
  s1_sizes : 0 < c_q_len call < c_kv_len call /\ 0 < frame_seqlen layout /\ (0 < num_local_heads call)%nat;
  s1_settings : 0 < s1_block (s1_config s) /\ 0 < key_tile (s1_config s) /\ 1 <= num_sampled_blocks (s1_config s) /\ 0 <= s1_dense_sink_frames (s1_config s);
  s1_band : band_blocks (band_frames (s1_config s)) (frame_seqlen layout) (s1_block (s1_config s)) = Ok bb;
  s1_built : build_candidates garbage (s1_config s) layout (c_q_len call) (c_kv_len call) (num_local_heads call) = Ok (Some cached);
  s1_cache : forall c, cache_get (s1_masks s) (num_frames layout) (num_frames layout, c_q_len call, num_local_heads call) = Some c -> c = Some cached }.

Section call.
Context (call : SparseAttentionCall F) (s : svg1_state F) layout segs bb cached (Hc : svg1_call call s layout segs bb cached).
Local Abbreviation c := (s1_config s).
Local Abbreviation nf := (num_frames layout).
Local Abbreviation fs := (frame_seqlen layout).
Local Abbreviation q_len := (c_q_len call).
Local Abbreviation kv := (c_kv_len call).
Local Abbreviation H := (num_local_heads call).
Local Abbreviation Q := (Z.to_nat (cdiv q_len (s1_block c))).
Local Abbreviation lo := (frame_aligned_block_bounds nf fs (key_tile c)).1.
Local Abbreviation hi := (frame_aligned_block_bounds nf fs (key_tile c)).2.
Local Abbreviation N := (Z.to_nat (nf * cdiv fs (key_tile c))).

Lemma svg1_frames : kv = nf * fs /\ 0 < nf /\ 0 < q_len <= nf * fs.
Proof.
  destruct Hc as [HL (Es & Hpos) (Hq & Hfs & _) _ _ _ _]. pose proof (layout_of_kv_len _ _ _ _ _ HL Es Hpos Hfs) as E. unfold kv_len in E. split_and!; nia.
Qed.

(** Any choice of a full-width mask per head is a plan over aligned segments. *)
Lemma svg1_segmented (q : nat) sm : mask_shape H q N sm -> segmented H q N sm (Shared lo) (Shared hi) kv.
Proof.
  destruct svg1_frames as (Ekv & Hnf & Hq). destruct (s1_sizes _ _ _ _ _ _ Hc) as (_ & Hfs & _). destruct (s1_settings _ _ _ _ _ _ Hc) as (_ & Ht & _). intros Hm.
  pose proof (bpf_pos fs (key_tile c) Hfs Ht). split; [done|by apply length_svg_lo|by apply length_svg_hi|done|nia|]. intros h _. rewrite Ekv. apply aligned_segments; lia.
Qed.

Definition full_mask (mask : list (list bool)) : Prop := length mask = Q /\ Forall (fun r => length r = N) mask.

(** Every row of the mask keeps a key. *)
Definition keeps_some (mask : list (list bool)) : Prop :=
  Forall (fun r => exists n, 0 <= n < kv /\ nthb r (Z.to_nat (token_aligned_block fs (key_tile c) n)) = true) mask.

(** A candidate over the sampled blocks is scored by the error of its pattern. *)
Lemma candidate_scored (mask : list (list bool)) rows : (forall l, order l ≡ₚ l) -> full_mask mask -> keeps_some mask ->
  let sampled := sampled_blocks c q_len in (0 < length sampled)%nat -> Forall (fun x => 0 <= x < Z.of_nat Q) sampled -> Z.of_nat (length rows) = Z.of_nat (length sampled) * s1_block c ->
  candidate_errors order sdpa call (plan_from_segment_mask garbage (replicate H ((fun x => default [] (mask !! Z.to_nat x)) <$> sampled)) (Shared lo) (Shared hi) (s1_block c) None, rows) =
    Ok (pattern_error sdpa call layout c mask rows <$> seq 0 H).
Proof.
  intros Hord [Hml Hmw] Hsome sampled Hs Hr Hrows. destruct svg1_frames as (Ekv & Hnf & Hq). destruct (s1_settings _ _ _ _ _ _ Hc) as (Hb & Ht & _). destruct (s1_sizes _ _ _ _ _ _ Hc) as (_ & Hfs & HH).
  set (sm := replicate H _). assert (forall j x, sampled !! j = Some x -> exists r, mask !! Z.to_nat x = Some r) as Hmask.
  { intros j x Ex. pose proof (Forall_lookup_1 _ _ _ _ Hr Ex). apply lookup_lt_is_Some_2. cbn in *. lia. }
  assert (mask_shape H (length sampled) N sm) as Hsh.
  { unfold sm. split; [apply length_replicate|]. split; [|done]. apply Forall_replicate. split; [by rewrite length_fmap|]. apply Forall_fmap, Forall_lookup.
    intros j x Ex. destruct (Hmask j x Ex) as [r Er]. cbn. rewrite Er. exact (Forall_lookup_1 _ _ _ _ Hmw Er). }
  unfold candidate_errors. cbn [fst snd]. destruct (segmented_attention order garbage H (length sampled) N sm (Shared lo) (Shared hi) kv (s1_block c) None 1 (c_q_len (sampled_call call rows))
    (Z.to_nat (head_dim call)) (query (sampled_call call rows)) (key (sampled_call call rows)) (value (sampled_call call rows)) (softmax_scale call) Hord (svg1_segmented _ _ Hsh) Hb) as (out & -> & Hout).
  { right. cbn [c_q_len sampled_call]. rewrite Hrows. unfold cdiv. rewrite <- Z.mul_opp_l, (Z.div_mul (- _)) by lia. lia. }
  cbn [mbind res_bind]. f_equal. apply list_fmap_ext. intros j h Ej. apply lookup_seq in Ej as [-> Hh]. cbn [Nat.add] in *. unfold head_error, pattern_error.
  cbn [c_q_len head_dim sampled_call]. f_equal. f_equal. apply bind_ext_in. intros i Hi%elem_of_zrange. unfold squared_distance. f_equal.
  rewrite (Hout 0%nat i j) by (cbn; lia). cbn [default]. unfold id.
  assert (0 <= i / s1_block c < Z.of_nat (length sampled)) as Hib by (split; [apply Z.div_pos; lia|apply Z.div_lt_upper_bound; lia]).
  replace (if Nat.eqb (length sampled) 1 then 0 else Z.to_nat (i / s1_block c))%nat with (Z.to_nat (i / s1_block c)) by (destruct (Nat.eqb_spec (length sampled) 1); lia).
  destruct (lookup_lt_is_Some_2 sampled (Z.to_nat (i / s1_block c))) as [x Ex]; [lia|]. destruct (Hmask _ _ Ex) as [r Er].
  assert (mask_keys sm (Shared lo) (Shared hi) j (Z.to_nat (i / s1_block c)) kv = filter (fun n => nthb r (Z.to_nat (token_aligned_block fs (key_tile c) n)) = true) (zrange 0 kv)) as Hkeys.
  { unfold mask_keys, mask_at, sm. rewrite lookup_replicate_2 by done. cbn. rewrite list_lookup_fmap, Ex. cbn. rewrite Er. cbn.
    apply filter_ext_in. intros n Hn%elem_of_zrange. apply (aligned_selected nf fs (key_tile c) ltac:(lia) Hfs Ht r j n); [lia|]. exact (Forall_lookup_1 _ _ _ _ Hmw Er). }
  assert (at_index (sampled_blocks c q_len) (i / s1_block c) = x) as -> by (unfold at_index; fold sampled; by rewrite Ex). rewrite Er. cbn [default]. rewrite Hkeys, decide_False.
  - apply attend_keys_ext; [|done]. intros n. unfold plan_logit, block_logit, key_logit. done.
  - intros E0. destruct (Forall_lookup_1 _ _ _ _ Hsome Er) as (n & Hn & En). assert (n ∈ ([] : list Z)) as Hin; [|by apply not_elem_of_nil in Hin].
    rewrite <- E0. apply list_elem_of_filter. split; [done|by apply elem_of_zrange].
Qed.

(** What the built candidates are. *)
Lemma svg1_built_ok : (forall l, order l ≡ₚ l) -> exists spatial temporal permutation candidates choice,
  cached = (spatial, temporal, permutation, lo, hi, candidates) /\ choose_mask_per_head order sdpa call candidates = Ok choice /\ length choice = H /\
  (forall h, (h < H)%nat -> choice !! h = Some (if xltb (pattern_error sdpa call layout c temporal (at_index permutation <$> sampled_rows c q_len) h)
    (pattern_error sdpa call layout c spatial (sampled_rows c q_len) h) then 1 else 0)%nat) /\
  full_mask spatial /\ full_mask temporal /\ permutation ≡ₚ zrange 0 q_len /\
  forall i, 0 <= i < q_len ->
    (exists row, spatial !! Z.to_nat (i / s1_block c) = Some row /\ row_covers layout c (spatial_near layout c bb) row (i + (kv - q_len))) /\
    (exists row, temporal !! Z.to_nat (i / s1_block c) = Some row /\ row_covers layout c (temporal_near layout c bb) row (at_index permutation i + (kv - q_len))).
Proof.
  intros Hord. destruct svg1_frames as (Ekv & Hnf & Hq). pose proof Hc as [_ _ (_ & Hfs & HH) (Hb & Ht & Hns & Hsk) Hband Hbuilt _].
  destruct (svg1_masks_ok layout q_len c bb Hband Hnf Hfs Ht Hb Hq) as (spatial & temporal & perm & Em & Hp & Hls & Hlt & Hcov). rewrite <- Ekv in Em, Hcov.
  pose proof (cdiv_spec q_len (s1_block c) Hb) as Hcd. assert (0 < Q)%nat as HQ by nia.
  assert (forall b, (b < Q)%nat -> exists i, 0 <= i < q_len /\ Z.to_nat (i / s1_block c) = b) as Hrow.
  { intros b Hbq. exists (Z.of_nat b * s1_block c). rewrite Z.div_mul by lia. split; [nia|lia]. }
  assert (full_mask spatial /\ full_mask temporal) as [Hfs1 Hft].
  { split; (split; [done|]); apply Forall_lookup; intros b r Er; pose proof (lookup_lt_Some _ _ _ Er) as Hlt'; destruct (Hrow b ltac:(lia)) as (i & Hi & <-);
      destruct (Hcov i Hi) as [(r1 & E1 & Hr1 & _) (r2 & E2 & Hr2 & _)]; congruence. }
  assert (keeps_some spatial /\ keeps_some temporal) as [Hks Hkt].
  { assert (forall i, 0 <= i < q_len -> 0 <= i + (kv - q_len) < num_frames layout * frame_seqlen layout) as Hself by lia. pose proof (rearranged_range _ _ Hp) as Hpr.
    split; apply Forall_lookup; intros b r Er; pose proof (lookup_lt_Some _ _ _ Er) as Hlt'; destruct (Hrow b ltac:(lia)) as (i & Hi & <-);
      destruct (Hcov i Hi) as [(r1 & E1 & _ & Hr1) (r2 & E2 & _ & Hr2)]; [assert (r = r1) as -> by congruence; exists (i + (kv - q_len))|
        assert (r = r2) as -> by congruence; exists (at_index perm i + (kv - q_len))]; (split; [specialize (Hself _ Hi); pose proof (Hpr i Hi); lia|]).
    - apply Hr1; [by apply Hself|by right].
    - apply Hr2; [by apply Hself, Hpr|by right]. }
  unfold build_candidates in Hbuilt. rewrite Em in Hbuilt. cbn [mbind res_bind] in Hbuilt. destruct (_ && _); [done|].
  rewrite (surjective_pairing (frame_aligned_block_bounds nf fs (key_tile c))) in Hbuilt. injection Hbuilt as Ecached.
  assert (Z.of_nat (length spatial) = cdiv q_len (s1_block c)) as Els by lia. rewrite Els in Ecached. fold (sampled_blocks c q_len) in Ecached. fold (sampled_rows c q_len) in Ecached.
  assert (1 <= Z.min (num_sampled_blocks c) (cdiv q_len (s1_block c))) as Hn1 by lia.
  assert (length (sampled_blocks c q_len) = Z.to_nat (Z.min (num_sampled_blocks c) (cdiv q_len (s1_block c)))) as Hl by (by apply length_linspace).
  assert (Forall (fun x => 0 <= x < Z.of_nat Q) (sampled_blocks c q_len)) as Hr.
  { apply Forall_forall. intros x Hx. pose proof (linspace_range (cdiv q_len (s1_block c) - 1) _ x ltac:(lia) Hn1 Hx). lia. }
  assert (Z.of_nat (length (sampled_rows c q_len)) = Z.of_nat (length (sampled_blocks c q_len)) * s1_block c) as Hrows.
  { unfold sampled_rows. rewrite (length_bind_const _ _ (Z.to_nat (s1_block c))) by (intros; rewrite length_fmap, length_zr; lia). nia. }
  pose proof (candidate_scored spatial (sampled_rows c q_len) Hord Hfs1 Hks ltac:(lia) Hr Hrows) as E0.
  pose proof (candidate_scored temporal (at_index perm <$> sampled_rows c q_len) Hord Hft Hkt ltac:(lia) Hr ltac:(by rewrite length_fmap)) as E1.
  cbn [frame_aligned_block_bounds fst snd] in E0, E1. eexists spatial, temporal, perm, _, _. split; [by rewrite <- Ecached|]. split; [unfold choose_mask_per_head; cbn [mapM]; rewrite E0; bind_step; rewrite E1; bind_step; done|].
  split; [by rewrite length_fmap, length_seq|]. split; [|done]. intros h Hh. rewrite list_lookup_fmap, lookup_seq_lt by done. cbn [fmap option_fmap option_map list_fmap].
  rewrite !list_lookup_fmap, lookup_seq_lt by done. cbn. by destruct (xltb _ _).
Qed.

End call.
(** The planned execution: the mask of each head, and queries permuted where it is temporal. *)
Definition head_is_temporal (choice : list nat) (h : nat) : bool := default false ((Nat.eqb 1 <$> choice) !! h).
Definition head_row (permutation : list Z) (choice : list nat) (h : nat) (i : Z) : Z := if head_is_temporal choice h then at_index permutation i else i.

Lemma svg1_planned call s layout segs bb spatial temporal permutation lo hi candidates choice :
  svg1_call call s layout segs bb (spatial, temporal, permutation, lo, hi, candidates) -> choose_mask_per_head order sdpa call candidates = Ok choice ->
  let keep := (fun t : bool => if t then temporal else spatial) <$> (Nat.eqb 1 <$> choice) in
  let plan := plan_from_segment_mask garbage keep (Shared lo) (Shared hi) (s1_block (s1_config s)) None in
  exists s' q perm, svg1_prepare garbage order sdpa call layout s = Ok (Some (mkExecution plan q (key call) (value call) perm), s') /\
    (forall b i h, q b i h = query call b (head_row permutation choice h i) h) /\
    (perm = Some (fun _ i h => head_row permutation choice h i) \/ (perm = None /\ forall h i, head_row permutation choice h i = i)).
Proof.
  intros Hc Hch keep plan. pose proof Hc as [_ _ (Hq & _) _ _ Hbuilt Hcache]. unfold svg1_prepare. destruct (Z.leb_spec (c_kv_len call) (c_q_len call)); [lia|].
  assert (existsb id (Nat.eqb 1 <$> choice) = false -> forall h i, head_row permutation choice h i = i) as Hid.
  { intros Ex h i. unfold head_row, head_is_temporal. destruct ((Nat.eqb 1 <$> choice) !! h) as [[]|] eqn:Et; [|done..]. exfalso.
    assert (existsb id (Nat.eqb 1 <$> choice) = true); [|congruence]. apply existsb_exists. exists true. split; [|done]. apply list_elem_of_In. by eapply list_elem_of_lookup_2. }
  destruct (cache_get _ _ _) as [cc|] eqn:E; [rewrite (Hcache _ eq_refl)|rewrite Hbuilt]; bind_step; cbn [fst snd]; rewrite Hch; bind_step; cbn [s1_config];
    (destruct (existsb id (Nat.eqb 1 <$> choice)) eqn:Ex; cbn [negb]; (eexists _, _, _; split; [reflexivity|]);
      [split; [done|by left]|split; [intros; by rewrite (Hid eq_refl)|right; split; [done|by apply Hid] ] ]).
Qed.

End svg1.

(** C23: On a call that plans, a head takes the temporal mask exactly
    when its error on the sampled query blocks is strictly below the error of
    the spatial one: the mean squared distance, from dense attention, of exact
    attention over the keys the mask keeps.  Every query then gets exact softmax
    attention over the keys of the segments its row of the mask of its head
    keeps, in the original query order: these include the query's own token and
    every key the token-level mask of the pattern keeps for it. *)
Theorem svg1_attends garbage (order : list (nat * nat) -> list (nat * nat)) sdpa call s layout segs bb cached banded permuted :
  (forall l, order l ≡ₚ l) -> svg1_call garbage call s layout segs bb cached ->
  svg1_token_masks (num_frames layout) (frame_seqlen layout) (band_frames (s1_config s)) (s1_dense_sink_frames (s1_config s)) (s1_block (s1_config s)) = Ok (banded, permuted) ->
  let spatial := cached.1.1.1.1.1 in let temporal := cached.1.1.1.1.2 in let permutation := cached.1.1.1.2 in
  let rows := sampled_rows (s1_config s) (c_q_len call) in
  let error := pattern_error sdpa call layout (s1_config s) in
  exists out s', svg1_attend garbage order sdpa call s = Ok (Some out, s') /\
  forall b m h, (b < c_batch call)%nat -> 0 <= m < c_q_len call -> (h < num_local_heads call)%nat ->
  let is_temporal := xltb (error temporal (at_index permutation <$> rows) h) (error spatial rows h) in
  let self := c_kv_len call - c_q_len call + m in
  exists i row, (if is_temporal then temporal else spatial) !! Z.to_nat (i / s1_block (s1_config s)) = Some row /\
    (if is_temporal then at_index permutation i else i) = m /\
    let reads n := nthb row (Z.to_nat (token_aligned_block (frame_seqlen layout) (key_tile (s1_config s)) n)) in
    out !! (b, m, h) = Some (attend_keys (Z.to_nat (head_dim call)) (block_logit (query call) (key call) (softmax_scale call) b m h) (fun n => value call b n h)
      (filter (fun n => reads n = true) (zrange 0 (c_kv_len call)))) /\
    reads self = true /\
    forall n, 0 <= n < c_kv_len call -> mask_entry (if is_temporal then permuted else banded) self n = true -> reads n = true.
Proof.
  cbv zeta. intros Hord Hc Htok. destruct (svg1_built_ok garbage order sdpa _ _ _ _ _ _ Hc Hord) as (spatial & temporal & perm & cands & choice & Ecached & Hch & Hlc & Hbest & (Hls & Hws) & (Hlt & Hwt) & Hp & Hcov).
  subst cached. cbn [fst snd]. destruct (svg1_frames _ _ _ _ _ _ _ Hc) as (Ekv & Hnf & Hq). pose proof Hc as [HL _ (_ & Hfs & HH) (Hb & Htile & _ & Hsk) Hband _ _].
  destruct (svg1_planned garbage order sdpa _ _ _ _ _ _ _ _ _ _ _ _ Hc Hch) as (s1 & q & pm & Hprep & Eqq & Hpm). set (c := s1_config s) in *.
  set (keep := (fun t : bool => if t then temporal else spatial) <$> (Nat.eqb 1 <$> choice)) in *. pose proof (cdiv_spec (c_q_len call) (s1_block c) Hb) as Hcd.
  assert (mask_shape (num_local_heads call) (Z.to_nat (cdiv (c_q_len call) (s1_block c))) (Z.to_nat (num_frames layout * cdiv (frame_seqlen layout) (key_tile c))) keep) as Hms.
  { split; [unfold keep; by rewrite !length_fmap|]. split; [|split; [done|nia] ]. apply Forall_fmap, Forall_forall. intros [] _; cbn; by split. }
  pose proof (svg1_segmented garbage _ _ _ _ _ _ Hc _ keep Hms) as Hsg. fold c in Hsg.
  assert (forall h i j, 0 <= i < c_q_len call -> 0 <= j < c_q_len call -> head_row perm choice h i = head_row perm choice h j -> i = j) as Hinj.
  { intros h i j Hi Hj. unfold head_row. destruct (head_is_temporal choice h); [by apply (rearranged_inj _ _ Hp)|done]. }
  destruct (permuted_attention order garbage _ _ _ _ _ _ _ (s1_block c) (c_batch call) (c_q_len call) (Z.to_nat (head_dim call)) (query call) (key call) (value call) q (key call) (value call)
    (softmax_scale call) (head_row perm choice) (fun _ n => n) Hord Hsg Hb ltac:(rewrite Z2Nat.id by nia; done) Hinj Eqq ltac:(done) ltac:(done)) as (out & Eout & Hout).
  exists (match pm with None => out | Some p => scatter_rows p out end). eexists. split.
  { unfold svg1_attend, attend. rewrite HL. bind_step. cbn [fst snd]. assert (put_svg1_base (s1_base s) s = s) as -> by (by destruct s). rewrite Hprep. bind_step.
    cbn [fst snd e_plan e_query e_key e_value query_permutation]. rewrite Eout. done. }
  intros b m h Hbb Hm Hh. specialize (Hbest h Hh). set (t := xltb _ _) in Hbest |- *. set (self := c_kv_len call - c_q_len call + m).
  assert (head_is_temporal choice h = t) as Et.
  { unfold head_is_temporal. rewrite list_lookup_fmap, Hbest. by destruct t. }
  assert (exists i, 0 <= i < c_q_len call /\ head_row perm choice h i = m) as (i & Hi & Em).
  { unfold head_row. rewrite Et. destruct t; [apply (rearranged_surj _ _ Hp m Hm)|by exists m]. }
  assert (exists row, (if t then temporal else spatial) !! Z.to_nat (i / s1_block c) = Some row /\
    row_covers layout c (if t then temporal_near layout c bb else spatial_near layout c bb) row self) as (row & Erow & Hrl & Hrow).
  { replace self with (head_row perm choice h i + (c_kv_len call - c_q_len call)) by (unfold self; lia). unfold head_row. rewrite Et. destruct (Hcov i Hi) as [? ?]. by destruct t. }
  exists i, row. split; [done|]. split; [rewrite <- Em; unfold head_row; by rewrite Et|]. cbv zeta.
  assert (0 <= self < num_frames layout * frame_seqlen layout) as Hself by (unfold self; lia).
  assert (mask_keys keep (Shared (frame_aligned_block_bounds (num_frames layout) (frame_seqlen layout) (key_tile c)).1) (Shared (frame_aligned_block_bounds (num_frames layout) (frame_seqlen layout) (key_tile c)).2)
    h (Z.to_nat (i / s1_block c)) (c_kv_len call) =
    filter (fun n => nthb row (Z.to_nat (token_aligned_block (frame_seqlen layout) (key_tile c) n)) = true) (zrange 0 (c_kv_len call))) as Hkeys.
  { unfold mask_keys. assert (mask_at keep h (Z.to_nat (i / s1_block c)) = row) as ->.
    { unfold mask_at, keep. unfold head_is_temporal in Et. rewrite list_lookup_fmap. destruct (lookup_lt_is_Some_2 (Nat.eqb 1 <$> choice) h) as [x Ex]; [rewrite length_fmap; lia|].
      rewrite Ex in Et |- *. cbn in Et |- *. subst x. destruct t; by rewrite Erow. }
    apply filter_ext_in. intros n Hn%elem_of_zrange. apply aligned_selected; done || lia. }
  assert (self ∈ filter (fun n => nthb row (Z.to_nat (token_aligned_block (frame_seqlen layout) (key_tile c) n)) = true) (zrange 0 (c_kv_len call))) as Hin.
  { apply list_elem_of_filter. split; [|apply elem_of_zrange; lia]. apply Hrow; [done|by right]. }
  destruct (Hout b i h Hbb Hi Hh) as [E1 E2]; [rewrite Hkeys; intros E0; rewrite E0 in Hin; by apply not_elem_of_nil in Hin|].
  rewrite Hkeys, Em, list_fmap_id in E1, E2. split_and!.
  - destruct Hpm as [->|[-> Hid] ]; [exact E2|]. rewrite Hid in Em. by subst i.
  - apply Hrow; [done|by right].
  - intros n Hn Hmask. rewrite Ekv in Hn. apply Hrow; [done|]. left. destruct (token_masks_near layout _ c bb Hband Hnf Hfs Hq banded permuted self n Hsk Hself Hn Htok). destruct t; auto.
Qed.

End claims.

(** ** Concrete runs *)

Section runs.
#[local] Existing Instance NumExp_one.
#[local] Existing Instance NumExpLaws_one.

Definition vx_tensor : tensor4 Qc := fun _ n _ => replicate 16 (of_Z n).
(** Frames of eight tokens visible, the last one queried. *)
Definition vx_call (q kv : Z) : SparseAttentionCall Qc := mkCall 0 vx_tensor vx_tensor vx_tensor 1 q kv 16 (Some [(0, kv)]) 0 1 1%Qc None.
Definition vx_layout : VisibleLayout := mkLayout [0; 1] [-1; 0] [0; 1] 8 1 1 1.
Definition vx_sdpa (_ : SparseAttentionCall Qc) (_ : nat) (_ : Z) (_ : nat) : list (xf Qc) := replicate 16 (Fin 0%Qc).

Lemma top_p_keeps_mass_witness : kept_blocks (select_clusters_by_top_p (Q2Qc (1 # 2)%Q) [1%Qc; 0%Qc; 1%Qc]) = [0; 2] /\
  nle (nth_num (softmax [1%Qc; 0%Qc; 1%Qc]) 1) (nth_num (softmax [1%Qc; 0%Qc; 1%Qc]) 0).
Proof.
  assert (kept_blocks (select_clusters_by_top_p (Q2Qc (1 # 2)%Q) [1%Qc; 0%Qc; 1%Qc]) = [0; 2]) as E by (vm_compute; reflexivity). split; [exact E|].
  destruct (top_p_keeps_mass (Q2Qc (1 # 2)%Q) [1%Qc; 0%Qc; 1%Qc] ltac:(done) ltac:(vm_compute; reflexivity)) as (_ & _ & Hbest). rewrite E in Hbest.
  apply Hbest; [constructor|cbn; lia|]. intros Hin. repeat (apply elem_of_cons in Hin as [Hin|Hin]; [discriminate|]). by apply not_elem_of_nil in Hin.
Defined.

Definition vx_config1 : Svg1Config Qc := mkSvg1Config 4 (Q2Qc (1 # 2)%Q) 0 1 2.
Definition vx_state1 : svg1_state Qc := put_svg1_base (set_geometry (mkGeometry 8 1 8 2 4) base_init) (svg1_init vx_config1).
Definition vx_cached : svg1_cached (F:=Qc) :=
  match build_candidates 0 vx_config1 vx_layout 8 16 1 with Ok (Some c) => c | _ => ([], [], [], [], [], []) end.

Lemma vx_planned1 : svg1_call 0 (vx_call 8 16) vx_state1 vx_layout [(0, 16)] 1 vx_cached.
Proof.
  split; [vm_compute; reflexivity|split; [done|repeat constructor; cbn; lia]|cbn; lia|cbn; lia|vm_compute; reflexivity|vm_compute; reflexivity|].
  intros c E. vm_compute in E. discriminate.
Qed.

Lemma svg1_attends_witness : exists out s', svg1_attend 0 id vx_sdpa (vx_call 8 16) vx_state1 = Ok (Some out, s') /\ is_Some (out !! (0%nat, 3, 0%nat)).
Proof.
  destruct (svg1_token_masks 2 8 (Q2Qc (1 # 2)%Q) 0 4) as [[banded permuted]|e] eqn:Et; [|vm_compute in Et; discriminate].
  destruct (svg1_attends 0 id vx_sdpa (vx_call 8 16) vx_state1 vx_layout [(0, 16)] 1 vx_cached banded permuted ltac:(done) vx_planned1 Et) as (out & s' & E & Hout).
  exists out, s'. split; [exact E|]. destruct (Hout 0%nat 3 0%nat ltac:(cbn; lia) ltac:(cbn; lia) ltac:(cbn; lia)) as (i & row & _ & _ & Eout & _). rewrite Eout. by eexists.
Defined.

Definition vx_config2 : Svg2Config Qc := mkSvg2Config 4 4 1 0 (Q2Qc (1 # 4)%Q).
Definition vx_state2 : svg2_state Qc := put_svg2_base (set_geometry (mkGeometry 8 1 8 2 4) base_init) (svg2_init vx_config2).

Lemma vx_planned2 : exists k s1, svg2_call (fun _ => 0%Qc) (vx_call 8 16) vx_state2 vx_layout [(0, 16)] 2 k s1.
Proof.
  destruct (clustering (fun _ => 0%Qc) (vx_call 8 16) 8 2 vx_state2) as [k s1] eqn:E. exists k, s1.
  split; [vm_compute; reflexivity|done|cbn; lia|split; [reflexivity|lia]|intros layer segs hl nc k' E'; cbn in E'; by rewrite lookup_empty in E'|exact E|].
  vm_compute in E. injection E as <- _. vm_compute. reflexivity.
Qed.

Lemma svg2_attends_witness : exists out s', svg2_attend 0 id (fun _ => 0%Qc) (vx_call 8 16) vx_state2 = Ok (Some out, s') /\ is_Some (out !! (0%nat, 3, 0%nat)).
Proof.
  destruct vx_planned2 as (k & s1 & Hc).
  destruct (svg2_attends (fun _ => 0%Qc) id 0 (vx_call 8 16) vx_state2 vx_layout [(0, 16)] 2 k s1 ltac:(done) Hc) as (out & s' & labels & E & _ & _ & _ & Hout).
  exists out, s'. split; [exact E|]. destruct (Hout 0%nat 3 0%nat ltac:(cbn; lia) ltac:(cbn; lia) ltac:(cbn; lia)) as (i & _ & _ & Eout). rewrite Eout. by eexists.
Defined.

(** ** Defects *)

(** An empty cluster is weighted like a cluster of one key. *)
Lemma svg2_empty_cluster_weight {F} `{!Num F} `{!NumExp F} (nlog : F -> F) keys nc iters own hl initial h c lc : 1 <= nc -> 0 <= c < nc ->
  imap (fun h k => cluster_head k nc iters ((fun i : list (list (list F)) => default [] (i !! h)) <$> initial)) keys !! h = Some lc -> c ∉ lc.1 ->
  kc_log_size (cluster_keys nlog keys nc iters own hl initial) !! h ≫= (fun l => l !! Z.to_nat c) = Some (nlog (of_Z 1)).
Proof.
  intros Hnc Hc Eh Hnot. unfold cluster_keys. cbn [kc_log_size]. rewrite !list_lookup_fmap, Eh. cbn [fmap option_fmap option_map mbind option_bind].
  rewrite list_lookup_fmap. unfold label_counts. rewrite list_lookup_fmap. unfold zrange. rewrite lookup_seqZ_lt by lia. cbn [fmap option_fmap option_map].
  replace (0 + Z.of_nat (Z.to_nat c)) with c by lia. assert (filter (fun l => l = c) lc.1 = []) as ->; [|done].
  destruct (filter (fun l => l = c) lc.1) as [|x l] eqn:E; [done|]. assert (x ∈ x :: l) as Hx by constructor. rewrite <- E in Hx. apply list_elem_of_filter in Hx as [-> Hx]. done.
Qed.

(** A forward of an earlier chunk drops every clustering before any call. *)
Lemma svg2_new_video {F} `{!Num F} `{!NumExp F} g (s s' : svg2_state F) chunk : query_chunk_index g = Ok chunk -> chunk < s2_last_chunk s ->
  svg2_begin_forward g s = Ok s' -> s2_clusters s' = ∅ /\ s2_last_chunk s' = chunk /\ b_geometry (s2_base s') = Some g.
Proof.
  intros Ec Hlt. unfold svg2_begin_forward. rewrite Ec. bind_step. cbn [put_svg2_base s2_last_chunk s2_clusters]. destruct (Z.ltb_spec chunk (s2_last_chunk s)); [|lia].
  intros [= <-]. done.
Qed.

(** Two calls of four visible frames and sixteen queries: frames of eight
    tokens, two of them queried, and frames of sixteen tokens, one queried. *)
Definition vx_small : VisibleLayout := mkLayout [0; 1; 2; 3] [-2; -1; 0; 0] [0; 1; 2; 3] 8 1 2 2.
Definition vx_large : VisibleLayout := mkLayout [0; 1; 2; 3] [-3; -2; -1; 0] [0; 1; 2; 3] 16 1 1 3.

(** The cache of candidate masks does not see the length of a frame: after a
    call with frames of 8 tokens, a call with frames of 16 gets its masks, and
    no query reads a key from 32 on; its own keys are the last 16 of 64. *)
Lemma svg1_masks_ignore_frames :
  exists ex1 s1 ex2 s2, svg1_prepare 0 id vx_sdpa (vx_call 16 32) vx_small vx_state1 = Ok (Some ex1, s1) /\
    svg1_prepare 0 id vx_sdpa (vx_call 16 64) vx_large s1 = Ok (Some ex2, s2) /\
    forallb (fun q => forallb (fun r => snd r <=? 32) (kept_ranges (e_plan ex2) 0 q)) (seq 0 4) = true.
Proof.
  destruct (svg1_prepare 0 id vx_sdpa (vx_call 16 32) vx_small vx_state1) as [[[ex1|] s1]|e] eqn:E1; [|vm_compute in E1; discriminate..].
  destruct (svg1_prepare 0 id vx_sdpa (vx_call 16 64) vx_large s1) as [[[ex2|] s2]|e] eqn:E2; vm_compute in E1; injection E1 as _ <-; [|vm_compute in E2; discriminate..].
  eexists _, _, ex2, s2. split; [reflexivity|]. split; [exact E2|]. vm_compute in E2. injection E2 as <- _. vm_compute. reflexivity.
Qed.
End runs.
